(* ===== verification/_CoqProject ===== *)
-Q . S2P
Prelude.v
ByteStream.v
RustStr.v
NetAddr.v
RustText.v
NetPrint.v
PublicPorts.v
PortMapping.v
TargetPool.v
EgressPolicy.v
Socks5Udp.v
UdpProtocol.v
UdpReassembly.v
Socks5Fragment.v
P2pProtocol.v
HttpMessage.v
HttpProxy.v
SniTunnel.v
DbMonad.v
Totp.v
AdminAuth.v
ApiTokens.v
Management.v
LoginThrottle.v
ClientRegistry.v
AuditLog.v
AlertTables.v
AlertDelivery.v
Alerting.v
AlertSystem.v
RemoteUpdate.v
UpdateTasks.v
UpdateLifecycle.v
BackendPool.v
Lifecycle.v
HaTables.v
HaCoordination.v
PortOwnership.v
JobLeases.v
TargetHealth.v
FleetCoordination.v
HaSystem.v
HaRuntime.v
PortPolicy.v
TrafficControl.v
TrafficUsage.v
TrafficAdmission.v
TunnelTables.v
TunnelCatalog.v
TunnelPorts.v
TunnelSystem.v
SecretTunnels.v
P2pNodes.v
P2pControl.v
Routes.v
RouteSystem.v
FleetTables.v
FleetHealth.v
FleetDns.v
FleetProbes.v
FleetSystem.v
FleetPlans.v
FleetFailover.v
FleetRequests.v
FleetProtocol.v
