(* ===== verification/Prelude.v ===== *)
(** * LinkLake: a verification library

    LinkLake is a tunnel platform in Rust: servers that publish ports and routes,
    alone or as a cluster on one database, clients that reach private targets, and
    an updater. This library translates the deterministic core of it into Rocq
    definitions that compute and proves what makes each part correct.

    ** The parts and their files

    Under [src/crates/linklake-core/src]:
    - [public_ports.rs], file [PublicPorts]: sets of public ports. [parse],
      [normalize_ranges], [contains] (a binary search), [expression] and
      [including_ports] over sorted disjoint ranges.
    - [port_mapping.rs], file [PortMapping]: port expressions with bounds, their
      canonical printing and the pairing of public and target ports.
    - [target_pool.rs], file [TargetPool]: weighted pools of target addresses,
      with the canonical form that [fleet_protocol.rs] requires of them.
    - [egress_policy.rs], file [EgressPolicy]: classification of IP addresses and
      the egress decision.
    - [socks5_udp.rs], file [Socks5Udp]: the SOCKS5 UDP envelope.
    - [udp_protocol.rs], file [UdpProtocol]: the frames that carry datagrams and
      their fragments; [udp_reassembly.rs], file [UdpReassembly]: the receiver.
    - [socks5_fragment.rs], file [Socks5Fragment]: reassembly of SOCKS5 fragments
      under a budget shared by all sessions.
    - [p2p_protocol.rs], file [P2pProtocol]: peer tickets, authenticated by HMAC.
    - [remote_update.rs], file [RemoteUpdate]: the messages of the remote update
      protocol and their validation on both sides.
    - [fleet_protocol.rs], file [FleetProtocol]: the bundles by which one server
      hands its clients, resources and traffic controls to others; with the two
      conversions of [policy_service_postgres_resources.rs] between a bundle's
      controls and stored settings.

    Under [src/crates/linklake-server/src]:
    - [update_tasks.rs], files [UpdateTasks] (the catalog of remote update tasks,
      its SQL tables and transactions) and [UpdateLifecycle] (the life cycle of a task
      as a specification of its own).
    - [http_backend_pool.rs], file [BackendPool]: the connections kept open to
      HTTP backends.
    - [lifecycle.rs], file [Lifecycle]: starting, draining and stopping.
    - [ha_coordination.rs], file [HaCoordination]: members, leader election and
      fencing tokens, with the fence by which every other table checks that its
      writer still leads. [HaTables] holds the tables of the shared database.
    - [public_port_ownership.rs], file [PortOwnership]; [job_leases.rs], file
      [JobLeases]; [target_health.rs], file [TargetHealth];
      [fleet_coordination.rs], file [FleetCoordination]: the fenced tables.
    - File [HaSystem]: all of these transactions on one database, run by any
      number of processes.
    - [ha_runtime.rs], file [HaRuntime]: the configuration, the heartbeat and the
      cells in which a process publishes that it leads.
    - [public_port_policy.rs] and [public_port_lease.rs], file [PortPolicy]: the
      allowed ports, the search for a dynamic port and the lease of a listener.
    - [traffic_control.rs], file [TrafficControl]: address filters, schedules,
      quotas and connection rates of a policy.
    - [traffic_usage_meter.rs] and [traffic_usage_spool.rs], files [TrafficUsage]
      (counting bytes through crashes and failed uploads) and [TrafficAdmission]
      ([authorize_traffic] as a process of steps among those of the others).
    - [http_proxy_tunnel.rs], files [HttpMessage] (heads: parsing, authentication,
      framing and rewriting) and [HttpProxy] (bodies, responses and whole exchanges
      on byte streams).
    - [sni_tunnel.rs], file [SniTunnel]: the ClientHello read from TLS records, its
      server name, and the normal form of host names ([http_route_catalog.rs]).
    - [admin_auth.rs], files [Totp] (Base32 and one-time codes) and [AdminAuth]
      (accounts and sessions in two tables); [api_tokens.rs], file [ApiTokens].
    - [main.rs], files [Management] (principals, the middleware that authorises
      requests, the checks of handlers) and [LoginThrottle] (the login handler and
      its delays).
    - [client_registry.rs], file [ClientRegistry]: the map of clients in memory and
      the table it is loaded from. [audit_log.rs], file [AuditLog].
    - [alerting.rs], files [AlertTables] (data, texts and rows), [AlertDelivery] (the
      queue of notifications), [Alerting] (rules and their evaluation) and
      [AlertSystem] (histories).
    - [tunnel_catalog.rs], files [TunnelTables] (data, validation and rows),
      [TunnelCatalog] (every operation on tunnels, proxies and port groups),
      [TunnelPorts] (the owners of ports) and [TunnelSystem] (histories).
    - [secret_tunnel_catalog.rs], file [SecretTunnels]: tunnels opened by a key of
      their own. [p2p_node_catalog.rs], file [P2pNodes]: the public and private
      addresses that nodes announce. [p2p_control.rs], file [P2pControl]: the handlers
      by which two peers meet.
    - [http_route_catalog.rs] and [sni_route_catalog.rs], files [Routes] (validation,
      rows and operations) and [RouteSystem] (histories).
    - [fleet.rs] (the peers) and [fleet_health.rs], files [FleetTables] (data,
      validation and rows), [FleetHealth] (peers and probes), [FleetDns] (DNS records
      that follow the health of peers); [FleetProbes], [FleetSystem] and [FleetPlans]
      are their lemmas, [FleetFailover] their histories and [FleetRequests] the
      requests that workers send in them.

    The files [RustStr] and [RustText] (strings, UTF-8, numbers, white space),
    [NetAddr] and [NetPrint] (parsing and printing of IP addresses) and [ByteStream]
    (buffered readers and writers) model what these parts use of the libraries of
    Rust; [DbMonad] is the monad of the SQL catalogs with its logic [ensures]; this
    file holds the shared notions.

    ** How the parts interact

    [UdpReassembly] consumes the frames of [UdpProtocol]; [Socks5Fragment]
    consumes the fragments of [Socks5Udp]; [UpdateTasks] stores and answers the
    messages of [RemoteUpdate], which the client validates again. The fenced tables
    are proved against the interface [FencedOp] of [HaCoordination]; the steps of
    [HaSystem] are the operations themselves, and its proofs use the interface. [HaRuntime] runs on [HaSystem] and hands its
    token to [PortPolicy], which combines it with [PublicPorts] and
    [PortOwnership], and to [TrafficAdmission], which also asks
    [Lifecycle] and decides by [TrafficControl]. [FleetProtocol] checks its fields
    with [TargetPool], [PortMapping] and [NetAddr] and is compared with
    [TrafficControl], where its controls end up. [Management] decides on the tokens
    of [ApiTokens] and the sessions of [AdminAuth], and its theorem speaks of the
    histories of both; [LoginThrottle] guards the login of [AdminAuth], which uses
    [Totp]. [Alerting] fills the queue of [AlertDelivery] in one transaction.
    [TunnelCatalog] checks ports with [PortPolicy] and expands groups with
    [PortMapping]; the password hashes it stores are those [HttpMessage] compares.
    [P2pControl] runs on [ClientRegistry], [SecretTunnels] and [P2pNodes] and issues
    the tickets of [P2pProtocol]; [Routes] and [SniTunnel] share [normalize_hostname].
    A worker of [FleetDns] holds a lease of [JobLeases], which its transactions check
    in the same database.

    ** How code becomes definitions

    A [struct] is a Record, an [enum] an Inductive type, a method a function of
    the same name that passes its state explicitly. Fallible code returns
    [result]. Code that could reach [expect], an index out of range or an
    overflowing [+] or [-] returns [exec], whose [Panic] the theorems exclude;
    saturating and checked arithmetic is written out at its width. Integers are
    [Z], bytes are [Z] from 0 to 255, a [String] is the list of its Unicode
    scalar values, a [Uuid] its 128-bit value, an [Instant] a [Z] in nanoseconds
    and a Unix time a [Z] in seconds. A [HashMap] is a [gmap]; where the code
    iterates over one, the theorems do not depend on the order. A database
    transaction is a function from the tables to an error or new tables, so an
    error rolls back; a write fails when it violates a constraint of the schema.
    In the catalogs on [DbMonad] each statement is a step that keeps what was
    written before an error, and [transaction] takes it back. A stream is the list
    of chunks still to come, of any sizes, and how it ends.
    Clock readings are arguments, one for each time the code asks. Atomic counters
    and sections under a lock are one step each, and the theorems on shared state
    quantify over every interleaving of steps: of processes in [HaSystem] and
    [HaRuntime], of reassemblers in [Socks5Fragment], of meters and workers in
    [TrafficUsage], of an admission and everything else in [TrafficAdmission], of
    handlers in [P2pControl]. What other processes commit between two transactions of one
    operation is an argument ([between], [at_others]), and so is whether a
    transaction or an upload fails, took effect, or both.

    Recursion is structural except for the following, and in each case the theorems
    on the callers have no premise on fuel: [advance_contiguous] of
    [Socks5Fragment], whose fuel 256 exceeds the largest [u8] sequence number;
    [chunks] of [UdpProtocol], whose fuel is the length of the payload, each round
    taking at least one byte; [bs_loop] of [PublicPorts], whose fuel is the number
    of ranges, halved by each round; [dec_digits] of [RustStr], whose fuel of 40
    digits covers 128-bit values; [hex_digits] of [NetPrint] with the four digits
    of a 16-bit group; the loops of [BackendPool], whose fuel is the number of
    connections plus one, each round removing a connection; and [flush_loop] of
    [TrafficUsage], whose fuel 3 is proved enough. The search of [PortPolicy] goes
    through the 65535 offsets the code goes through. The draining loops of
    [TrafficUsage] consume a list with the inputs of each round. The loops on
    streams ([HttpProxy], [SniTunnel]) have as fuel the bytes still to come plus one,
    as each round takes a byte or ends; the inner loop of Base32 has the bits in its
    buffer, five fewer after each round.

    ** What the theorems show

    - [HaSystem], [HaCoordination]: the cluster refines a specification of epochs,
      each held by one process, and every operation on ports, jobs, target health
      and fleet tables succeeds only for the holder of the current one, whatever the clocks; a live leader excludes others; after a lease has run out
      a live member takes over; stored rows stay readable.
    - [HaRuntime]: every token a process publishes was granted to it; a failed
      heartbeat clears the leadership.
    - [PortOwnership], [PortPolicy], [JobLeases]: when a port is granted, that the
      search finds a free port when there is one, that a listener runs only under a
      confirmed lease, that a job is finished once.
    - [TargetHealth]: the stored health follows a specification on the history of
      probes. [FleetCoordination]: generations only advance, conflicts are resolved
      once, a ready generation has none open.
    - [TrafficUsage], [TrafficAdmission], [TrafficControl]: no byte is counted twice
      or, without failures that lose it, lost; draining records everything; an
      admission decides on a catalog that has the bytes forwarded before it listed the
      meters, under one fencing token, however others run between its steps, and it
      ends; rate limits and schedules agree with reference
      definitions; settings round trip.
    - [FleetProtocol]: validation accepts exactly the well-formed bundles, the
      revision does not depend on order and spelling, canonical bundles round trip,
      and what a bundle carries is accepted where it is applied. The converse fails:
      a defect by which accepted settings cannot be exported is proved.
    - [BackendPool]: limits hold without panics, registration returns, an announced
      shutdown drains. [Lifecycle]: phase and readiness follow the history of calls.
    - [UpdateTasks], [UpdateLifecycle]: every operation follows a life cycle of tasks
      that is stated apart from the code: which leases are taken back and what becomes
      of their tasks, and who may renew and report (a refinement); stored tasks stay readable in every
      history but for one defect, which is proved to stop the recovery of
      expired leases; actions that change the installation are claimed at most
      once; finished tasks never change; one active task per client; reports
      need the lease; creation is idempotent; the client accepts the answers.
    - [UdpProtocol], [UdpReassembly]: codec round trips, and delivery of the sent
      datagram for every order of arrival; memory and count limits under every
      sequence of operations, without panics; exact expiry.
    - [Socks5Udp], [Socks5Fragment]: total decoding, round trips, conservation of
      the shared budget, in-order delivery and the strict mode.
    - [PublicPorts], [PortMapping], [TargetPool]: parsing agrees with the written
      text, printing and parsing are inverse, values are canonical, selection is
      fair to the weights.
    - [EgressPolicy]: the bit masks agree with a reference by address intervals,
      IPv6 spellings of IPv4 addresses are decided alike, the policy fails closed.
    - [P2pProtocol]: issued tickets verify within their period; accepted tickets
      are authentic.
    - [HttpMessage], [HttpProxy]: bodies of every framing are copied exactly however
      they arrive; a connection is reused only when both sides are in step; a
      forwarded head has the framing of the request, but for one defect, which is
      proved to let a body be taken for a request.
    - [SniTunnel]: the parser accepts exactly the well-formed messages; what is read
      is handed on unchanged.
    - [AdminAuth], [Totp], [ApiTokens], [Management], [LoginThrottle]: a cookie or
      token is accepted exactly while its grant lasts and nothing has taken it back;
      a login needs every factor; an administrator remains; a protected request goes
      on only with the authority it needs, and a change by cookie with the CSRF header
      or, a defect, with a bearer header that is no credential; wrong logins are paced. Starting the setup
      of a second factor is proved to switch the present one off.
    - [ClientRegistry], [AuditLog]: the table loads to the map after any history of
      failed statements but deletions; the log keeps the last events.
    - [Alerting], [AlertDelivery], [AlertSystem]: a round of evaluation is a reference
      on alerts; a delivery is settled by the worker that holds it, once; none is
      lost. The list of active alerts is proved to put critical ones last.
    - [TunnelPorts], [TunnelSystem]: in every history of the catalog with restarts a public port has
      at most one owner among five kinds of policies, although the tables only
      separate owners of one kind; a group is stored whole or refused for a reason
      that holds; the data plane is granted exactly what is stored and enabled.
    - [SecretTunnels], [P2pControl]: a key opens exactly the tunnel it was given out
      for, while that stands and is enabled, and keys that were given out have the form
      that is asked of them; a session of peers is joined at most
      once, by the provider its ticket names, with the key offered to the visitor.
    - [RouteSystem]: a host name, in any spelling, is routed exactly as the enabled
      route that was asked for it says, in every history, and has one route.
    - [FleetFailover], [FleetRequests]: the stored health of a peer is what a reference on the whole
      history of its probes says; a DNS record has one owner and an operation is
      settled once; a worker is let through exactly for the reserved change, under its
      lease and with time left, and only after the requests of other operations are
      over; attempts that workers reported are a cooldown apart, while an operation that
      nobody reported is given up without one; a change is planned
      exactly when it is due, to the best peer that is fit.

    ** Parameters

    SHA-256, HMAC, Argon2, Base64, JSON, [semver] parsing, random UUIDs, the
    environment, URI parsing and the clock are not part of the repository and are arguments of
    the definitions (the class [Platform] of [AdminAuth] and the classes next to
    their users). The theorems assume of them only that digests and serialised
    tickets are bytes of their documented lengths, that decoding a serialised value
    gives it back, that a UUID prints as 32 hexadecimal digits ([SimpleUuids]) ([PlatformLaws], [JsonLib], [JsonColumns], [TagColumn],
    [NotificationJson], [NodeJson], [TicketJson] and the codec of [FleetProtocol]), and that random UUIDs and
    tokens are not nil and new where they are drawn. The histories of accounts,
    tokens, alerts and the fleet assume a clock that does not run backwards, those of
    alerts that signals are finite numbers, those of the fleet that times fit the
    columns that store them ([moment_ok]). Every such assumption has an instance by which
    the witnesses run.

    ** Not modelled

    Sockets, async tasks and their timers, TLS, HTTP/2 and SQL engines, the file
    system work of the updater and of disaster recovery, ACME and key material, and
    the web console: their behaviour lies in the operating system and in third-party
    code. The PostgreSQL variants of the catalogs, which repeat the SQLite ones in
    another dialect, the dispatch between the two and the columns added to old
    databases; storage failures where the code only passes them on; poisoned locks;
    text of errors and serde attributes; the normalisation of origins in the backend
    pool. Of the code that would fit the methods used here, the policy service, which
    writes the tables of tunnels and routes when it applies the bundle of another
    server, and the control messages of [lib.rs] are left out, and of [fleet.rs] and
    [fleet_health.rs] the policy bundles and the requests to the DNS provider. *)

From stdpp Require Export base tactics list numbers gmap sorting strings.
From Stdlib Require Export ZArith Lia.

(** ** Results of fallible operations *)

(** Rust's [Result<A, E>]. *)
Inductive result (E A : Type) :=
  | Ok (a : A)
  | Err (e : E).
Arguments Ok {E A} a.
Arguments Err {E A} e.

Global Instance result_ret E : MRet (result E) := λ A a, Ok a.
Global Instance result_bind E : MBind (result E) := λ A B f m,
  match m with Ok a => f a | Err e => Err e end.
Global Instance result_fmap E : FMap (result E) := λ A B f m,
  match m with Ok a => Ok (f a) | Err e => Err e end.
Global Instance result_eq_dec E A `{!EqDecision E, !EqDecision A} :
  EqDecision (result E A).
Proof. solve_decision. Defined.

(** [Option::ok_or]. *)
Definition ok_or {E A} (o : option A) (e : E) : result E A :=
  match o with Some a => Ok a | None => Err e end.

(** [Result::map_err]. *)
Definition map_err {E E' A} (f : E → E') (m : result E A) : result E' A :=
  match m with Ok a => Ok a | Err e => Err (f e) end.

Definition is_ok {E A} (m : result E A) : bool :=
  match m with Ok _ => true | Err _ => false end.

(** A guard [if c { return Err(e) }]. *)
Definition reject_if {E} (c : bool) (e : E) : result E unit :=
  if c then Err e else Ok tt.

(** [iter().map(f).collect::<Result<Vec<_>, _>>()]: stops at the first error. *)
Fixpoint collect {E A B} (f : A → result E B) (l : list A) : result E (list B) :=
  match l with
  | [] => Ok []
  | a :: l => b ← f a; bs ← collect f l; Ok (b :: bs)
  end.

(** ** Executions that may panic

    [exec A] is the meaning of Rust code that can reach an [expect] or
    [unwrap] on [None], an out-of-range index or an arithmetic overflow.
    An overflowing [+] or [-] is [Panic] here; a proof that an operation never
    panics therefore also shows that the build without overflow checks computes
    the same value. *)
Inductive exec (A : Type) :=
  | Done (a : A)
  | Panic.
Arguments Done {A} a.
Arguments Panic {A}.

Global Instance exec_ret : MRet exec := λ A a, Done a.
Global Instance exec_bind : MBind exec := λ A B f m,
  match m with Done a => f a | Panic => Panic end.

(** [Option::expect] / [Option::unwrap]. *)
Definition expect {A} (o : option A) : exec A :=
  match o with Some a => Done a | None => Panic end.

Lemma expect_Some {A} (o : option A) a : o = Some a → expect o = Done a.
Proof. by intros ->. Qed.

(** Code that can panic and can return an error: [m ≫=? k] is [?] on the
    result of [m]. *)
Definition try_bind {E A B} (k : A → exec (result E B)) (m : exec (result E A)) : exec (result E B) :=
  match m with
  | Done (Ok a) => k a
  | Done (Err e) => Done (Err e)
  | Panic => Panic
  end.
Notation "x ←? m ; k" := (try_bind (λ x, k) m)
  (at level 20, m at level 100, k at level 200, only parsing) : stdpp_scope.
Notation "' x ←? m ; k" := (try_bind (λ x, k) m)
  (at level 20, x pattern, m at level 100, k at level 200, only parsing) : stdpp_scope.

(** ** Machine integers

    Integers of the program are [Z]; every operation that can leave the range
    of the source type is written with its width. [usize] is 64 bits. *)
Local Open Scope Z_scope.

Abbreviation U8_MAX := 255.
Abbreviation U16_MAX := 65535.
Abbreviation U32_MAX := 4294967295.
Abbreviation U64_MAX := 18446744073709551615.
Abbreviation USIZE_MAX := 18446744073709551615.
Abbreviation U128_MAX := 340282366920938463463374607431768211455.

Definition saturating_add (max a b : Z) : Z := Z.min max (a + b).
Definition saturating_sub (a b : Z) : Z := Z.max 0 (a - b).
Definition checked_add (max a b : Z) : option Z :=
  if a + b <=? max then Some (a + b) else None.
Definition usize_add (a b : Z) : exec Z :=
  if a + b <=? USIZE_MAX then Done (a + b) else Panic.
Definition usize_sub (a b : Z) : exec Z :=
  if b <=? a then Done (a - b) else Panic.

Lemma usize_add_Done a b : a + b ≤ USIZE_MAX → usize_add a b = Done (a + b).
Proof. intros H. unfold usize_add. destruct (Z.leb_spec (a + b) USIZE_MAX); [done|lia]. Qed.
Lemma usize_sub_Done a b : b ≤ a → usize_sub a b = Done (a - b).
Proof. intros H. unfold usize_sub. destruct (Z.leb_spec b a); [done|lia]. Qed.
Lemma saturating_add_small max a b : a + b ≤ max → saturating_add max a b = a + b.
Proof. unfold saturating_add. lia. Qed.
Lemma saturating_sub_small a b : b ≤ a → saturating_sub a b = a - b.
Proof. unfold saturating_sub. lia. Qed.

(** Length of a slice as a [usize]. *)
Definition len {A} (l : list A) : Z := Z.of_nat (length l).

Lemma len_nonneg {A} (l : list A) : 0 ≤ len l.
Proof. unfold len. lia. Qed.
Lemma len_nil {A} : len (@nil A) = 0.
Proof. done. Qed.
Lemma len_cons {A} (x : A) l : len (x :: l) = 1 + len l.
Proof. unfold len. simpl. lia. Qed.
Lemma len_app {A} (l k : list A) : len (l ++ k) = len l + len k.
Proof. unfold len. rewrite length_app. lia. Qed.
Lemma len_0_nil {A} (l : list A) : len l = 0 ↔ l = [].
Proof. unfold len. destruct l; simpl; split; intros; (done || lia). Qed.
Lemma len_singleton {A} (x : A) : len [x] = 1.
Proof. done. Qed.

(** [slice[i..j]]. *)
Definition slice {A} (i j : nat) (l : list A) : list A := take (j - i) (drop i l).

(** Buffer accesses [buf[i]] and [buf[i..j]]. *)
Definition index (l : list Z) (i : nat) : exec Z := expect (l !! i).
Definition index_range (l : list Z) (i j : nat) : exec (list Z) :=
  if (i <=? j)%nat && (j <=? length l)%nat then Done (slice i j l) else Panic.

(** Iterator [all] and [any] as folds over a boolean test. *)
Definition all {A} (p : A → bool) (l : list A) : bool := forallb p l.
Definition any {A} (p : A → bool) (l : list A) : bool := existsb p l.

Lemma all_Forall {A} (p : A → bool) l : all p l = true ↔ Forall (λ x, p x = true) l.
Proof. unfold all. rewrite forallb_forall, Stdlib.Lists.List.Forall_forall. done. Qed.
Lemma any_false_Forall {A} (p : A → bool) l : any p l = false ↔ Forall (λ x, p x = false) l.
Proof.
  unfold any. induction l as [|x l IH]; simpl.
  - split; auto.
  - rewrite orb_false_iff, IH, Forall_cons. done.
Qed.
Lemma all_app {A} (p : A → bool) l k : all p (l ++ k) = all p l && all p k.
Proof. apply forallb_app. Qed.

(** ** Automation *)

Create HintDb linklake.
Create Rewrite HintDb len_db.
#[export] Hint Rewrite @len_nil @len_cons @len_app @len_singleton : len_db.
#[export] Hint Resolve len_nonneg : linklake.
Ltac simp_len := autorewrite with len_db in *.

(** Turn boolean connectives of guards into propositions. *)
Ltac bool_prop :=
  repeat match goal with
  | H : (_ && _)%bool = true |- _ => apply andb_true_iff in H as [? ?]
  | H : (_ || _)%bool = false |- _ => apply orb_false_iff in H as [? ?]
  | H : (_ && _)%bool = false |- _ => apply andb_false_iff in H
  | H : (_ || _)%bool = true |- _ => apply orb_true_iff in H
  | H : negb _ = true |- _ => apply negb_true_iff in H
  | H : negb _ = false |- _ => apply negb_false_iff in H
  | H : (_ <=? _) = true |- _ => apply Z.leb_le in H
  | H : (_ <=? _) = false |- _ => apply Z.leb_gt in H
  | H : (_ <? _) = true |- _ => apply Z.ltb_lt in H
  | H : (_ <? _) = false |- _ => apply Z.ltb_ge in H
  | H : (_ =? _) = true |- _ => apply Z.eqb_eq in H
  | H : (_ =? _) = false |- _ => apply Z.eqb_neq in H
  | H : bool_decide _ = true |- _ => apply bool_decide_eq_true_1 in H
  | H : bool_decide _ = false |- _ => apply bool_decide_eq_false_1 in H
  end.

(** Case analysis on the condition of the [if] or [match] at hand, turning
    integer comparisons into hypotheses for [lia]. *)
Ltac zcase :=
  match goal with
  | |- context [?a <=? ?b] => destruct (Z.leb_spec a b)
  | |- context [?a <? ?b] => destruct (Z.ltb_spec a b)
  | |- context [?a =? ?b] => destruct (Z.eqb_spec a b)
  | H : context [?a <=? ?b] |- _ => destruct (Z.leb_spec a b)
  | H : context [?a <? ?b] |- _ => destruct (Z.ltb_spec a b)
  | H : context [?a =? ?b] |- _ => destruct (Z.eqb_spec a b)
  end.

(** Peel one bind off a hypothesis [m ≫= k = Ok _] (or [Done _]). *)
Ltac bind_inv H :=
  let r := fresh "r" in
  let E := fresh "E" in
  match type of H with
  | mbind _ ?m = Ok _ => destruct m as [r|r] eqn:E; [simpl in H | discriminate H]
  | mbind _ ?m = Done _ => destruct m as [r|] eqn:E; [simpl in H | discriminate H]
  end.

(** The same with names for the value and the equation. *)
Tactic Notation "bind_as" hyp(H) simple_intropattern(x) ident(E) :=
  match type of H with
  | mbind _ ?m = Ok _ => destruct m as [x|?] eqn:E; [simpl in H | discriminate H]
  | mbind _ ?m = Done _ => destruct m as [x|] eqn:E; [simpl in H | discriminate H]
  end.

Lemma reject_if_Ok {E} c (e : E) u : reject_if c e = Ok u → c = false.
Proof. by destruct c. Qed.

(** A chain of validations succeeds exactly when each of them does. *)
Lemma if_Err_Ok {E} (b : bool) (e : E) k : (if b then Err e else k) = Ok tt ↔ b = false ∧ k = Ok tt.
Proof. destruct b; naive_solver. Qed.
Lemma if_Ok_Err {E} (b : bool) (e : E) : (if b then Ok tt else Err e) = Ok tt ↔ b = true.
Proof. destruct b; naive_solver. Qed.
Lemma bind_unit_Ok {E} (m k : result E unit) : (_ ← m; k) = Ok tt ↔ m = Ok tt ∧ k = Ok tt.
Proof. destruct m as [[]|]; cbn; naive_solver. Qed.
Lemma bool_decide_eq_iff {P Q : Prop} `{Decision P, Decision Q} :
  bool_decide P = bool_decide Q ↔ (P ↔ Q).
Proof. do 2 case_bool_decide; naive_solver. Qed.

Lemma collect_Ok {E A B} (f : A → result E B) l bs :
  collect f l = Ok bs ↔ Forall2 (λ a b, f a = Ok b) l bs.
Proof.
  revert bs. induction l as [|a l IH]; intros bs; simpl.
  - split; [intros [= <-]; constructor | by inversion 1].
  - split.
    + intros H. bind_inv H. bind_inv H. injection H as <-.
      constructor; [done|]. by apply IH.
    + inversion 1 as [|? b ? bs' Hb Hbs]; subst. rewrite Hb. simpl.
      apply IH in Hbs. by rewrite Hbs.
Qed.

Lemma collect_id {E A} (f : A → result E A) l : Forall (λ a, f a = Ok a) l → collect f l = Ok l.
Proof. rewrite collect_Ok. induction 1; constructor; auto. Qed.

Lemma collect_succeeds {E A B} (f : A → result E B) l :
  (∀ a, a ∈ l → ∃ b, f a = Ok b) → ∃ bs, collect f l = Ok bs ∧ Forall2 (λ a b, f a = Ok b) l bs.
Proof.
  induction l as [|a l IH]; intros H; [by exists []|]. destruct (H a) as [b Eb]; [by left|].
  destruct IH as (bs & El & HF); [intros x Hx; apply H; by right|]. exists (b :: bs). cbn. rewrite Eb. cbn. rewrite El. by split; [|constructor].
Qed.
Lemma collect_app_Ok {E A B} (f : A → result E B) l k bs cs :
  collect f l = Ok bs → collect f k = Ok cs → collect f (l ++ k) = Ok (bs ++ cs).
Proof. rewrite !collect_Ok. apply Forall2_app. Qed.

(** ** Big-endian byte strings

    Bytes are [Z] in [0..255]; [to_be_bytes]/[from_be_bytes] of an [n]-byte
    unsigned integer. *)
Definition byte_ok (b : Z) : Prop := 0 ≤ b < 256.
Definition bytes_ok (l : list Z) : Prop := Forall byte_ok l.

Fixpoint to_be_bytes (n : nat) (v : Z) : list Z :=
  match n with
  | O => []
  | S n => to_be_bytes n (v / 256) ++ [v mod 256]
  end.

Definition from_be_bytes (l : list Z) : Z := fold_left (λ acc b, acc * 256 + b) l 0.

Lemma length_to_be_bytes n v : length (to_be_bytes n v) = n.
Proof. revert v. induction n; intros v; simpl; [done|]. rewrite length_app, IHn. simpl. lia. Qed.

Lemma from_be_bytes_snoc l b : from_be_bytes (l ++ [b]) = from_be_bytes l * 256 + b.
Proof. unfold from_be_bytes. by rewrite fold_left_app. Qed.

Lemma to_be_bytes_ok n v : bytes_ok (to_be_bytes n v).
Proof.
  revert v. induction n as [|n IH]; intros v; simpl; [constructor|].
  apply Forall_app; split; [apply IH|]. constructor; [|constructor].
  unfold byte_ok. pose proof (Z.mod_pos_bound v 256). lia.
Qed.

Lemma from_to_be_bytes n v :
  0 ≤ v < 256 ^ Z.of_nat n → from_be_bytes (to_be_bytes n v) = v.
Proof.
  revert v. induction n as [|n IH]; intros v Hv.
  - simpl in *. unfold from_be_bytes. simpl. lia.
  - simpl to_be_bytes. rewrite from_be_bytes_snoc, IH.
    + pose proof (Z.div_mod v 256). lia.
    + rewrite Nat2Z.inj_succ, Z.pow_succ_r in Hv by lia.
      split; [apply Z.div_pos; lia | apply Z.div_lt_upper_bound; lia].
Qed.

Lemma from_be_bytes_bound l : bytes_ok l → 0 ≤ from_be_bytes l < 256 ^ len l.
Proof.
  induction l as [|b l IH] using rev_ind; intros H.
  - unfold from_be_bytes, len. simpl. lia.
  - apply Forall_app in H as [Hl Hb]. inversion Hb as [|? ? Hb' _]; subst.
    rewrite from_be_bytes_snoc, len_app, len_singleton.
    rewrite Z.pow_add_r by (auto with linklake; lia).
    specialize (IH Hl). unfold byte_ok in Hb'. lia.
Qed.

Lemma to_from_be_bytes l : bytes_ok l → to_be_bytes (length l) (from_be_bytes l) = l.
Proof.
  induction l as [|b l IH] using rev_ind; intros H; [done|].
  apply Forall_app in H as [Hl Hb]. inversion Hb as [|? ? Hb' _]; subst.
  unfold byte_ok in Hb'. rewrite length_app. simpl.
  replace (length l + 1)%nat with (S (length l)) by lia. simpl.
  rewrite from_be_bytes_snoc. f_equal.
  - replace ((from_be_bytes l * 256 + b) / 256) with (from_be_bytes l); [by apply IH|].
    rewrite Z.div_add_l by lia. rewrite (Z.div_small b 256) by lia. lia.
  - f_equal. rewrite Z.add_comm, Z.mod_add, Z.mod_small by lia. done.
Qed.

(** ** Slices of concatenations *)

(** Bits placed above others add up. *)
Lemma lor_shiftl x y n : 0 ≤ x → 0 ≤ n → 0 ≤ y < 2 ^ n → Z.lor (Z.shiftl x n) y = x * 2 ^ n + y.
Proof.
  intros Hx Hn Hy. rewrite <- Z.shiftl_mul_pow2 by lia.
  assert (Z.land (Z.shiftl x n) y = 0) as Hland.
  { apply Z.bits_inj'. intros k Hk. rewrite Z.land_spec, Z.bits_0.
    destruct (Z.ltb_spec k n); [by rewrite Z.shiftl_spec_low by lia|].
    destruct (Z.eq_dec y 0) as [->|]; [by rewrite Z.bits_0, andb_false_r|].
    rewrite (Z.bits_above_log2 y k), andb_false_r; [done|lia|]. apply Z.log2_lt_pow2; [lia|].
    apply Z.lt_le_trans with (2 ^ n); [lia|apply Z.pow_le_mono_r; lia]. }
  by rewrite Z.add_nocarry_lxor, Z.lxor_lor.
Qed.

Lemma slice_app_l {A} i (l k : list A) : i = length l → slice 0 i (l ++ k) = l.
Proof. intros ->. unfold slice. rewrite Nat.sub_0_r, drop_0. by rewrite take_app_length. Qed.

Lemma slice_app_r {A} i j (l k : list A) :
  (length l ≤ i)%nat → slice i j (l ++ k) = slice (i - length l) (j - length l) k.
Proof.
  intros H. unfold slice. rewrite drop_app_ge by lia. f_equal. lia.
Qed.

Lemma length_slice {A} i j (l : list A) :
  (i ≤ j ≤ length l)%nat → length (slice i j l) = (j - i)%nat.
Proof. intros H. unfold slice. rewrite length_take, length_drop. lia. Qed.

Lemma bytes_ok_take n l : bytes_ok l → bytes_ok (take n l).
Proof. apply Forall_take. Qed.
Lemma bytes_ok_drop n l : bytes_ok l → bytes_ok (drop n l).
Proof. apply Forall_drop. Qed.
Lemma bytes_ok_slice i j l : bytes_ok l → bytes_ok (slice i j l).
Proof. intros H. apply bytes_ok_take, bytes_ok_drop, H. Qed.
#[export] Hint Resolve bytes_ok_take bytes_ok_drop bytes_ok_slice to_be_bytes_ok : linklake.

Lemma take_slice_drop {A} i j (l : list A) :
  (i ≤ j)%nat → take i l ++ slice i j l ++ drop j l = l.
Proof.
  intros H. unfold slice. rewrite <- (take_drop i l) at 4. f_equal.
  rewrite <- (take_drop (j - i) (drop i l)) at 2. f_equal.
  rewrite drop_drop. f_equal. lia.
Qed.

(** ** Strongly sorted lists *)

Lemma StronglySorted_lookup {A} (R : relation A) l i j x y :
  StronglySorted R l → (i < j)%nat → l !! i = Some x → l !! j = Some y → R x y.
Proof.
  intros H. revert i j. induction H as [|z l H IH HF]; intros i j Hij Hx Hy; [done|].
  destruct i as [|i], j as [|j]; simplify_eq/=; try lia.
  - rewrite Forall_forall in HF. apply HF. by eapply list_elem_of_lookup_2.
  - apply (IH i j); [lia|done..].
Qed.

Lemma StronglySorted_snoc {A} (R : relation A) l x :
  StronglySorted R l → Forall (λ y, R y x) l → StronglySorted R (l ++ [x]).
Proof.
  induction 1 as [|y l Hl IH Hy]; intros HF; simpl; [repeat constructor|].
  inversion HF; subst. constructor; [auto|]. apply Forall_app. split; [done|]. by repeat constructor.
Qed.

Lemma StronglySorted_rev {A} (R : relation A) l :
  StronglySorted (λ x y, R y x) l → StronglySorted R (rev l).
Proof.
  induction 1 as [|x l H IH HF]; simpl; [constructor|].
  apply StronglySorted_snoc; [done|]. by apply Forall_rev.
Qed.

(** ** Sums over finite maps *)

Section map_sum.
Context {K : Type} `{Countable K} {A : Type}.
Implicit Types (w : K → A → Z) (m : gmap K A).

(** [HashMap::len]. *)
Definition map_len m : Z := Z.of_nat (size m).

Definition map_sum w m : Z := map_fold (λ k a acc, w k a + acc) 0 m.

Lemma map_sum_empty w : map_sum w ∅ = 0.
Proof. apply map_fold_empty. Qed.

Lemma map_sum_insert w m k a : m !! k = None → map_sum w (<[k := a]> m) = w k a + map_sum w m.
Proof. intros Hk. unfold map_sum. rewrite map_fold_insert_L; [done|intros; lia|done]. Qed.

Lemma map_sum_delete w m k a : m !! k = Some a → map_sum w m = w k a + map_sum w (delete k m).
Proof. intros Hk. unfold map_sum. rewrite (map_fold_delete_L _ _ k a); [done|intros; lia|done]. Qed.

Lemma map_sum_replace w m k a a' :
  m !! k = Some a → map_sum w (<[k := a']> m) = map_sum w m - w k a + w k a'.
Proof.
  intros Hk. rewrite <- insert_delete_eq, map_sum_insert by apply lookup_delete_eq.
  rewrite (map_sum_delete w m k a Hk). lia.
Qed.

Lemma map_sum_nonneg w m : (∀ k a, m !! k = Some a → 0 ≤ w k a) → 0 ≤ map_sum w m.
Proof.
  induction m as [|k a m Hk IH] using map_ind; intros Hw; [by rewrite map_sum_empty|].
  rewrite map_sum_insert by done. pose proof (Hw k a (lookup_insert_eq _ _ _)).
  enough (0 ≤ map_sum w m) by lia. apply IH. intros j b Hj. apply Hw.
  rewrite lookup_insert_ne; [done|congruence].
Qed.

Lemma map_sum_le w w' m :
  (∀ k a, m !! k = Some a → w k a ≤ w' k a) → map_sum w m ≤ map_sum w' m.
Proof.
  induction m as [|k a m Hk IH] using map_ind; intros Hw; [by rewrite !map_sum_empty|].
  rewrite !map_sum_insert by done. pose proof (Hw k a (lookup_insert_eq _ _ _)).
  enough (map_sum w m ≤ map_sum w' m) by lia. apply IH. intros j b Hj. apply Hw.
  rewrite lookup_insert_ne; [done|congruence].
Qed.

Lemma map_sum_lookup_le w m k a :
  (∀ k a, m !! k = Some a → 0 ≤ w k a) → m !! k = Some a → w k a ≤ map_sum w m.
Proof.
  intros Hw Hk. rewrite (map_sum_delete w m k a Hk).
  enough (0 ≤ map_sum w (delete k m)) by lia. apply map_sum_nonneg.
  intros j b [_ Hj]%lookup_delete_Some. by apply Hw.
Qed.

Lemma map_sum_len m : map_sum (λ _ _, 1) m = map_len m.
Proof.
  unfold map_len. induction m as [|k a m Hk IH] using map_ind.
  - by rewrite map_sum_empty, map_size_empty.
  - rewrite map_sum_insert, map_size_insert_None by done. lia.
Qed.

(** Sums over the values in iteration order. *)
Lemma map_sum_values (f : A → Z) m :
  foldr (λ a acc, f a + acc) 0 (map_to_list m).*2 = map_sum (λ _ a, f a) m.
Proof.
  unfold map_sum. rewrite map_fold_foldr. induction (map_to_list m) as [|[k a] l IH]; [done|].
  cbn. by rewrite IH.
Qed.

Lemma map_sum_union w m m' : m ##ₘ m' → map_sum w (m ∪ m') = map_sum w m + map_sum w m'.
Proof.
  induction m as [|k a m Hk IH] using map_ind; intros Hd.
  - by rewrite map_empty_union, map_sum_empty.
  - apply map_disjoint_insert_l in Hd as [Hk' Hd]. rewrite <- insert_union_l.
    rewrite !map_sum_insert, IH; [lia|done|done|]. by apply lookup_union_None.
Qed.

Lemma map_sum_subseteq w m m' :
  m ⊆ m' → (∀ k a, m' !! k = Some a → 0 ≤ w k a) → map_sum w m ≤ map_sum w m'.
Proof.
  intros Hs Hw. rewrite <- (map_difference_union m m' Hs), map_sum_union by by apply map_disjoint_difference_r1.
  enough (0 ≤ map_sum w (m' ∖ m)) by lia. apply map_sum_nonneg. intros k a Hk.
  apply lookup_difference_Some in Hk as [Hk _]. by apply Hw.
Qed.
End map_sum.

Lemma map_sum_fmap {K} `{Countable K} {A B} (f : A → B) (w : K → B → Z) (m : gmap K A) :
  map_sum w (f <$> m) = map_sum (λ k a, w k (f a)) m.
Proof.
  induction m as [|k a m Hk IH] using map_ind; [by rewrite fmap_empty, !map_sum_empty|].
  rewrite fmap_insert, !map_sum_insert, IH; [done|done|]. by rewrite lookup_fmap, Hk.
Qed.

(** ** Lexicographic keys and minimal elements *)

(** The order of Rust's tuples and slices of integers. *)
Fixpoint lex_le (l k : list Z) : bool :=
  match l, k with
  | [], _ => true
  | _ :: _, [] => false
  | x :: l, y :: k => (x <? y) || ((x =? y) && lex_le l k)
  end.

Lemma lex_le_refl l : lex_le l l = true.
Proof. induction l as [|x l IH]; simpl; [done|]. rewrite Z.eqb_refl, IH. apply orb_true_r. Qed.

Lemma lex_le_total l k : lex_le l k = true ∨ lex_le k l = true.
Proof.
  revert k. induction l as [|x l IH]; intros [|y k]; simpl; auto.
  destruct (Z.lt_trichotomy x y) as [H|[->|H]].
  - left. by rewrite (proj2 (Z.ltb_lt x y) H).
  - rewrite Z.eqb_refl, Z.ltb_irrefl. simpl. auto.
  - right. by rewrite (proj2 (Z.ltb_lt y x) H).
Qed.

Lemma lex_le_trans l k m : lex_le l k = true → lex_le k m = true → lex_le l m = true.
Proof.
  revert k m. induction l as [|x l IH]; intros [|y k] [|z m]; simpl; try done.
  rewrite !orb_true_iff, !andb_true_iff, !Z.ltb_lt, !Z.eqb_eq.
  intros [?|[-> ?]] [?|[-> ?]]; eauto; left; lia.
Qed.

Lemma lex_le_antisym l k : lex_le l k = true → lex_le k l = true → l = k.
Proof.
  revert k. induction l as [|x l IH]; intros [|y k]; simpl; try done.
  rewrite !orb_true_iff, !andb_true_iff, !Z.ltb_lt, !Z.eqb_eq.
  intros [?|[-> ?]] [?|[? ?]]; try lia. f_equal. auto.
Qed.

(** [Iterator::min_by_key] for a key that is a tuple of integers: the first of
    the elements with the least key. *)
Definition min_by_key {A} (key : A → list Z) (l : list A) : option A :=
  match l with
  | [] => None
  | x :: l => Some (fold_left (λ x y, if lex_le (key x) (key y) then x else y) l x)
  end.

Lemma fold_min_spec {A} (key : A → list Z) l x :
  let m := fold_left (λ x y, if lex_le (key x) (key y) then x else y) l x in
  m ∈ x :: l ∧ Forall (λ y, lex_le (key m) (key y) = true) (x :: l).
Proof.
  revert x. induction l as [|y l IH]; intros x; simpl.
  - split; [set_solver|]. repeat constructor. apply lex_le_refl.
  - destruct (lex_le (key x) (key y)) eqn:E.
    + destruct (IH x) as [Hin Hall]. split; [set_solver|].
      inversion Hall as [|? ? Hx Hl]; subst. repeat constructor; [done| |done].
      by eapply lex_le_trans.
    + destruct (IH y) as [Hin Hall]. split; [set_solver|].
      inversion Hall as [|? ? Hx Hl]; subst. constructor; [|by constructor].
      destruct (lex_le_total (key x) (key y)); [congruence|]. by eapply lex_le_trans.
Qed.

Lemma min_by_key_None {A} (key : A → list Z) l : min_by_key key l = None ↔ l = [].
Proof. by destruct l. Qed.

Lemma min_by_key_Some {A} (key : A → list Z) l m :
  min_by_key key l = Some m → m ∈ l ∧ Forall (λ y, lex_le (key m) (key y) = true) l.
Proof. destruct l as [|x l]; [done|]. intros [= <-]. apply fold_min_spec. Qed.

(** [Iterator::filter(p).count()] over the values of a map. *)
Definition map_count {K} `{Countable K} {A} (p : A → bool) (m : gmap K A) : Z :=
  map_sum (λ _ a, if p a then 1 else 0) m.

Lemma map_count_nonneg {K} `{Countable K} {A} (p : A → bool) (m : gmap K A) : 0 ≤ map_count p m.
Proof. apply map_sum_nonneg. intros k a _. destruct (p a); lia. Qed.

Lemma map_count_le_len {K} `{Countable K} {A} (p : A → bool) (m : gmap K A) :
  map_count p m ≤ map_len m.
Proof. rewrite <- map_sum_len. apply map_sum_le. intros k a _. destruct (p a); lia. Qed.

Lemma map_count_exists {K} `{Countable K} {A} (p : A → bool) (m : gmap K A) :
  0 < map_count p m → ∃ k a, m !! k = Some a ∧ p a = true.
Proof.
  unfold map_count. induction m as [|k a m Hk IH] using map_ind; [rewrite map_sum_empty; lia|].
  rewrite map_sum_insert by done. destruct (p a) eqn:E; intros Hc.
  - exists k, a. by rewrite lookup_insert_eq.
  - destruct IH as (j & b & Hj & Hb); [lia|]. exists j, b. split; [|done].
    rewrite lookup_insert_ne; congruence.
Qed.

Lemma map_count_pos {K} `{Countable K} {A} (p : A → bool) (m : gmap K A) k a :
  m !! k = Some a → p a = true → 0 < map_count p m.
Proof.
  intros Hk Hp. unfold map_count. rewrite (map_sum_delete _ m k a Hk), Hp.
  pose proof (map_count_nonneg p (delete k m)). unfold map_count in *. lia.
Qed.

Lemma map_len_delete_sub {K} `{Countable K} {A} (m : gmap K A) k a :
  m !! k = Some a → map_len (delete k m) = map_len m - 1.
Proof.
  intros Hk. rewrite <- !map_sum_len. rewrite (map_sum_delete _ m k a Hk). lia.
Qed.
Lemma map_len_pos {K} `{Countable K} {A} (m : gmap K A) : 0 ≤ map_len m.
Proof. unfold map_len. lia. Qed.

(** Lengths of concatenations, then linear arithmetic. *)
Ltac len_lia :=
  unfold len in *;
  rewrite ?length_app, ?length_to_be_bytes; cbn [length app]; rewrite ?length_app, ?length_to_be_bytes; cbn [length];
  lia.

(** ** Filtered lists *)

Lemma filter_ext_Forall {A} (P Q : A → Prop) `{!∀ x, Decision (P x), !∀ x, Decision (Q x)} l :
  Forall (λ x, P x ↔ Q x) l → filter P l = filter Q l.
Proof.
  induction 1 as [|x l Hx _ IH]; [done|]. rewrite !filter_cons, IH. repeat case_decide; tauto.
Qed.

Lemma filter_all {A} (P : A → Prop) `{!∀ x, Decision (P x)} l : Forall P l → filter P l = l.
Proof. induction 1 as [|x l Hx _ IH]; [done|]. by rewrite filter_cons_True, IH. Qed.

Lemma Forall_filter_sub {A} (P Q : A → Prop) `{!∀ x, Decision (P x)} l : Forall Q l → Forall Q (filter P l).
Proof.
  induction 1 as [|x l Hx _ IH]; [constructor|]. rewrite filter_cons. case_decide; [by constructor|done].
Qed.
Lemma NoDup_fmap_filter {A B} (f : A → B) (P : A → Prop) `{!∀ x, Decision (P x)} l : NoDup (f <$> l) → NoDup (f <$> filter P l).
Proof.
  induction l as [|a l IH]; [done|]. rewrite fmap_cons, NoDup_cons. intros [Hn Hd]. rewrite filter_cons. case_decide; [|by apply IH].
  rewrite fmap_cons. apply NoDup_cons. split; [|by apply IH]. intros (b & Eb & [_ Hb]%list_elem_of_filter)%list_elem_of_fmap. apply Hn. rewrite Eb.
  by apply list_elem_of_fmap_2.
Qed.

Lemma alter_known {K} `{Countable K} {A} (m : gmap K A) k a f : m !! k = Some a → alter f k m = <[k := f a]> m.
Proof.
  intros Ha. apply map_eq. intros j. destruct (decide (j = k)) as [->|Hj]; [by rewrite lookup_alter_eq, lookup_insert_eq, Ha|].
  by rewrite lookup_alter_ne, lookup_insert_ne by done.
Qed.
