(* ===== verification/ByteStream.v ===== *)
(** * Byte streams

    What the tunnels use of [AsyncRead] and [AsyncWrite]: a stream delivers its
    bytes in pieces of any size and then ends, or fails; a writer takes bytes until
    its connection breaks. The functions that copy between two streams run in the
    monad [io], on a pair of both.

    A loop over a stream runs with the number of bytes still to come plus one as
    fuel; running out of it is [Panic]. Each round of these loops takes at least one
    byte, and the lemmas of the clients show that the fuel suffices. *)

From S2P Require Import Prelude.
Local Open Scope Z_scope.

(** [std::io::ErrorKind], as far as the tunnels distinguish errors. *)
Inductive IoError := UnexpectedEof | InvalidData | TimedOut | Broken.
Global Instance IoError_eq_dec : EqDecision IoError.
Proof. solve_decision. Defined.

(** Pieces as they arrive; [ending] is how reads fare after the last piece: end of
    file, or an error (a timeout is one). *)
Record Reader := { arrivals : list (list Z); ending : option IoError }.

(** [room]: how many more bytes are taken before the connection breaks; [closed]: whether
    the write half was shut down. *)
Record Writer := { written : list Z; room : option nat; closed : bool }.

(** [progress] is the [AtomicU64] that counts the bytes of a body. *)
Record Pipe := { rd : Reader; wr : Writer; progress : Z }.

Definition set_rd (r : Reader) (p : Pipe) : Pipe := {| rd := r; wr := wr p; progress := progress p |}.
Definition set_wr (w : Writer) (p : Pipe) : Pipe := {| rd := rd p; wr := w; progress := progress p |}.
Definition set_progress (n : Z) (p : Pipe) : Pipe := {| rd := rd p; wr := wr p; progress := n |}.

(** The bytes still to come. *)
Definition flat (r : Reader) : list Z := concat (arrivals r).
Definition incoming (p : Pipe) : list Z := flat (rd p).
Definition reader_ok (r : Reader) : Prop := Forall (λ seg, seg ≠ []) (arrivals r).
Definition pipe_ok (p : Pipe) : Prop := reader_ok (rd p) ∧ 0 ≤ progress p ≤ U64_MAX.

(** [reader.read(&mut buffer)] with a buffer of [wanted] bytes: no bytes mean end of
    file. *)
Definition read_some (wanted : nat) (r : Reader) : result IoError (list Z) * Reader :=
  match arrivals r with
  | [] => (match ending r with None => Ok [] | Some e => Err e end, r)
  | seg :: more =>
      (Ok (take wanted seg),
       {| arrivals := (match drop wanted seg with [] => more | rest => rest :: more end);
          ending := ending r |})
  end.

(** [writer.write_all(bytes)]. *)
Definition write_bytes (bytes : list Z) (w : Writer) : result IoError unit * Writer :=
  match room w with
  | None => (Ok tt, {| written := written w ++ bytes; room := None; closed := closed w |})
  | Some n =>
      if (length bytes <=? n)%nat
      then (Ok tt, {| written := written w ++ bytes; room := Some (n - length bytes)%nat; closed := closed w |})
      else (Err Broken, {| written := written w ++ take n bytes; room := Some 0%nat; closed := closed w |})
  end.

(** [flush] and [shutdown], which fail on a broken connection. *)
Definition broken (w : Writer) : bool := bool_decide (room w = Some 0%nat).
Definition flush_writer (w : Writer) : result IoError unit * Writer :=
  (if broken w then Err Broken else Ok tt, w).
Definition shutdown_writer (w : Writer) : result IoError unit * Writer :=
  if broken w then (Err Broken, w) else (Ok tt, {| written := written w; room := room w; closed := true |}).

(** ** The monad *)

Definition io (A : Type) : Type := Pipe → exec (result IoError A * Pipe).

Global Instance io_ret : MRet io := λ A a p, Done (Ok a, p).
Global Instance io_bind : MBind io := λ A B f m p,
  match m p with
  | Done (Ok a, p) => f a p
  | Done (Err e, p) => Done (Err e, p)
  | Panic => Panic
  end.

Definition io_fail {A} (e : IoError) : io A := λ p, Done (Err e, p).
(** [if c { return Err(e) }]. *)
Definition io_ensure (c : bool) (e : IoError) : io unit := if c then mret tt else io_fail e.
Definition lift {A} (m : result IoError A) : io A := λ p, Done (m, p).
(** Code that can panic. *)
Definition io_exec {A} (m : exec A) : io A := λ p, match m with Done a => Done (Ok a, p) | Panic => Panic end.
Definition out_of_fuel {A} : io A := λ _, Panic.

Definition read (wanted : nat) : io (list Z) := λ p,
  let '(got, r) := read_some wanted (rd p) in Done (got, set_rd r p).
Definition write_all (bytes : list Z) : io unit := λ p,
  let '(done, w) := write_bytes bytes (wr p) in Done (done, set_wr w p).
Definition flush : io unit := λ p,
  let '(done, w) := flush_writer (wr p) in Done (done, set_wr w p).
Definition shutdown : io unit := λ p,
  let '(done, w) := shutdown_writer (wr p) in Done (done, set_wr w p).
(** The result of [m] as a value. *)
Definition attempt {A} (m : io A) : io (result IoError A) := λ p,
  match m p with Done (r, q) => Done (Ok r, q) | Panic => Panic end.
(** [progress.fetch_add(n)], which wraps around. *)
Definition count_progress (track : bool) (n : Z) : io unit := λ p,
  Done (Ok tt, if track then set_progress ((progress p + n) mod 2 ^ 64) p else p).

(** [reader.read_exact(&mut buffer)]. *)
Fixpoint read_exact_loop (fuel : nat) (wanted : nat) (got : list Z) : io (list Z) :=
  match wanted with
  | O => mret got
  | _ =>
      match fuel with
      | O => out_of_fuel
      | S fuel =>
          bytes ← read wanted;
          match bytes with
          | [] => io_fail UnexpectedEof
          | _ => read_exact_loop fuel (wanted - length bytes) (got ++ bytes)
          end
      end
  end.
Definition fuel_for {A} (f : nat → io A) : io A := λ p, f (S (length (incoming p))) p.
Definition read_exact (wanted : nat) : io (list Z) := fuel_for (λ fuel, read_exact_loop fuel wanted []).

(** ** Laws *)

Lemma io_bind_Done {A B} (m : io A) (f : A → io B) p a p' : m p = Done (Ok a, p') → (m ≫= f) p = f a p'.
Proof. intros H. cbv [mbind io_bind]. by rewrite H. Qed.

Lemma concat_drop {A} n (seg : list A) more :
  concat (match drop n seg with [] => more | rest => rest :: more end) = drop n seg ++ concat more.
Proof. by destruct (drop n seg). Qed.

(** [moves p q taken given n]: from [p] to [q] the bytes [taken] were read, [given]
    were written and [n] was added to the progress. *)
Record moves (p q : Pipe) (taken given : list Z) (n : Z) : Prop := {
  moves_ok : pipe_ok q;
  moves_taken : incoming p = taken ++ incoming q;
  moves_ending : ending (rd q) = ending (rd p);
  moves_given : written (wr q) = written (wr p) ++ given;
  moves_open : room (wr p) = None → room (wr q) = None;
  moves_progress : progress q = (progress p + n) mod 2 ^ 64;
}.

Lemma moves_refl p : pipe_ok p → moves p p [] [] 0.
Proof.
  intros Hok. split; try done; [by rewrite app_nil_r|].
  destruct Hok as [_ H]. rewrite Z.mod_small by lia. lia.
Qed.

Lemma moves_trans p q r t1 g1 n1 t2 g2 n2 :
  moves p q t1 g1 n1 → moves q r t2 g2 n2 → moves p r (t1 ++ t2) (g1 ++ g2) (n1 + n2).
Proof.
  intros H1 H2. split.
  - apply H2.
  - by rewrite (moves_taken _ _ _ _ _ H1), (moves_taken _ _ _ _ _ H2), app_assoc.
  - by rewrite (moves_ending _ _ _ _ _ H2), (moves_ending _ _ _ _ _ H1).
  - by rewrite (moves_given _ _ _ _ _ H2), (moves_given _ _ _ _ _ H1), app_assoc.
  - intros Hr. by apply H2, H1.
  - rewrite (moves_progress _ _ _ _ _ H2), (moves_progress _ _ _ _ _ H1), Zplus_mod_idemp_l.
    f_equal. lia.
Qed.

(** [runs m p ok]: [m] does not panic on [p], and where it ends well [ok] holds. *)
Definition runs {A} (m : io A) (p : Pipe) (ok : A → Pipe → Prop) : Prop :=
  match m p with
  | Done (Ok a, q) => ok a q
  | Done (Err _, _) => True
  | Panic => False
  end.

Lemma runs_bind {A B} (m : io A) (f : A → io B) p ok :
  runs m p (λ a q, runs (f a) q ok) → runs (m ≫= f) p ok.
Proof. unfold runs. cbv [mbind io_bind]. by destruct (m p) as [[[a|e] q]|]. Qed.
Lemma runs_mono {A} (m : io A) p (ok ok' : A → Pipe → Prop) :
  runs m p ok → (∀ a q, ok a q → ok' a q) → runs m p ok'.
Proof. unfold runs. destruct (m p) as [[[a|e] q]|]; auto. Qed.
Lemma runs_ret {A} (a : A) p (ok : A → Pipe → Prop) : ok a p → runs (mret a) p ok.
Proof. done. Qed.
Lemma runs_fail {A} e p (ok : A → Pipe → Prop) : runs (io_fail e) p ok.
Proof. done. Qed.
Lemma runs_ensure c e p (ok : unit → Pipe → Prop) : (c = true → ok tt p) → runs (io_ensure c e) p ok.
Proof. destruct c; [|done]. intros H. by apply H. Qed.
Lemma runs_lift {A} (m : result IoError A) p (ok : A → Pipe → Prop) :
  (∀ a, m = Ok a → ok a p) → runs (lift m) p ok.
Proof. destruct m; [|done]. intros H. by apply H. Qed.

(** A read gives a non-empty prefix of what is to come, or tells that nothing is. *)
Lemma runs_read n p (ok : list Z → Pipe → Prop) :
  (0 < n)%nat → pipe_ok p →
  (∀ got q, moves p q got [] 0 → (length got ≤ n)%nat → (got = [] → incoming p = []) → ok got q) →
  runs (read n) p ok.
Proof.
  intros Hn [Hok Hp] K. unfold runs, read, read_some. unfold reader_ok in Hok.
  assert (∀ got r, reader_ok r → flat (rd p) = got ++ flat r → ending r = ending (rd p) →
    moves p (set_rd r p) got [] 0) as Hmv.
  { intros got r Hr Hf He. split; cbn; [done|done|done|by rewrite app_nil_r|done|].
    rewrite Z.mod_small by lia. lia. }
  destruct (arrivals (rd p)) as [|seg more] eqn:E.
  - destruct (ending (rd p)) eqn:En; [done|]. apply K; [|simpl; lia|].
    + apply Hmv; [unfold reader_ok; by rewrite E|done|done].
    + intros _. unfold incoming, flat. by rewrite E.
  - apply Forall_cons in Hok as [Hseg Hmore]. apply K; [|rewrite length_take; lia|].
    + apply Hmv; [|unfold flat; rewrite E; cbn; by rewrite concat_drop, app_assoc, take_drop|done].
      unfold reader_ok; cbn. destruct (drop n seg) eqn:Ed; [done|]. by constructor.
    + intros Ht. destruct seg; [done|]. destruct n; [lia|done].
Qed.

Lemma runs_write bytes p (ok : unit → Pipe → Prop) :
  pipe_ok p → (∀ q, moves p q [] bytes 0 → ok tt q) → runs (write_all bytes) p ok.
Proof.
  intros [Hr Hp] K. unfold runs, write_all, write_bytes.
  assert (∀ w, written w = written (wr p) ++ bytes → (room (wr p) = None → room w = None) →
    moves p (set_wr w p) [] bytes 0) as Hmv.
  { intros w Hw Ho. split; try done. cbn. rewrite Z.mod_small by lia. lia. }
  destruct (room (wr p)) as [n|] eqn:E; [destruct (length bytes <=? n)%nat; [|done]|]; by apply K, Hmv.
Qed.

Lemma runs_progress (track : bool) (n : Z) p (ok : unit → Pipe → Prop) :
  pipe_ok p → (∀ q, moves p q [] [] (if track then n else 0) → ok tt q) → runs (count_progress track n) p ok.
Proof.
  intros [Hr Hp] K. unfold runs, count_progress. destruct track; apply K.
  - split; cbn; [|done|done|by rewrite app_nil_r|done|done].
    split; [done|]. cbn. pose proof (Z.mod_pos_bound (progress p + n) (2 ^ 64)). lia.
  - by apply moves_refl.
Qed.

Lemma moves_length p q t g n : moves p q t g n → length (incoming p) = (length t + length (incoming q))%nat.
Proof. intros H. by rewrite (moves_taken _ _ _ _ _ H), length_app. Qed.

Lemma runs_read_exact_loop fuel wanted got p (ok : list Z → Pipe → Prop) :
  pipe_ok p → (length (incoming p) < fuel)%nat →
  (∀ bytes q, length bytes = wanted → moves p q bytes [] 0 → ok (got ++ bytes) q) →
  runs (read_exact_loop fuel wanted got) p ok.
Proof.
  revert wanted got p. induction fuel as [|fuel IH]; intros wanted got p Hok Hf K; [lia|].
  destruct wanted as [|wanted].
  { apply runs_ret. rewrite <- (app_nil_r got). apply K; [done|]. by apply moves_refl. }
  cbn [read_exact_loop]. apply runs_bind, runs_read; [lia|done|]. intros bytes q Hq Hlen Hnil.
  destruct bytes as [|b bytes]; [apply runs_fail|].
  pose proof (moves_length _ _ _ _ _ Hq) as Hl.
  apply IH; [apply Hq|simpl in *; lia|]. intros rest q' Hrest Hq'. rewrite <- app_assoc.
  apply K; [rewrite length_app; simpl in *; lia|].
  pose proof (moves_trans _ _ _ _ _ _ _ _ _ Hq Hq') as H. by rewrite app_nil_r in H.
Qed.

Lemma runs_read_exact wanted p (ok : list Z → Pipe → Prop) :
  pipe_ok p → (∀ bytes q, length bytes = wanted → moves p q bytes [] 0 → ok bytes q) →
  runs (read_exact wanted) p ok.
Proof. intros Hok K. apply (runs_read_exact_loop _ _ []); [done|lia|done]. Qed.

(** ** Runs that succeed *)

(** [gives m p a taken given n]: [m] returns [a] and moves these bytes. *)
Definition gives {A} (m : io A) (p : Pipe) (a : A) (taken given : list Z) (n : Z) : Prop :=
  ∃ q, m p = Done (Ok a, q) ∧ moves p q taken given n.

Lemma gives_runs {A} (m : io A) p a taken given n (ok : A → Pipe → Prop) :
  gives m p a taken given n → runs m p ok → ∃ q, moves p q taken given n ∧ ok a q.
Proof. intros (q & Hm & Hq). unfold runs. rewrite Hm. eauto. Qed.

Lemma gives_bind {A B} (m : io A) (f : A → io B) p a t1 g1 n1 b t2 g2 n2 :
  gives m p a t1 g1 n1 → (∀ q, moves p q t1 g1 n1 → gives (f a) q b t2 g2 n2) →
  gives (m ≫= f) p b (t1 ++ t2) (g1 ++ g2) (n1 + n2).
Proof.
  intros (q & Hm & Hq) K. destruct (K q Hq) as (q' & Hf & Hq'). exists q'.
  rewrite (io_bind_Done _ _ _ _ _ Hm). split; [done|]. by eapply moves_trans.
Qed.

Lemma gives_ret {A} (a : A) p : pipe_ok p → gives (mret a) p a [] [] 0.
Proof. intros H. exists p. split; [done|]. by apply moves_refl. Qed.

Lemma read_gives n p : pipe_ok p → (0 < n)%nat → incoming p ≠ [] →
  ∃ got, gives (read n) p got got [] 0 ∧ got ≠ [] ∧ (length got ≤ n)%nat.
Proof.
  intros Hok Hn Hi.
  assert (∃ got q, read n p = Done (Ok got, q)) as (got & q & E).
  { unfold read, read_some. unfold incoming, flat in Hi. destruct (arrivals (rd p)); [done|]. eauto. }
  assert (runs (read n) p (λ got q, moves p q got [] 0 ∧ (length got ≤ n)%nat ∧ got ≠ [])) as H.
  { apply runs_read; [done|done|]. intros g r Hm Hl Hg. split_and!; [done|done|]. intros ->. by apply Hi, Hg. }
  unfold runs in H. rewrite E in H. destruct H as (Hm & Hl & Hg). exists got. split; [|done]. by exists q.
Qed.
Lemma read_one_gives p b rest : pipe_ok p → incoming p = b :: rest → gives (read 1) p [b] [b] [] 0.
Proof.
  intros Hok Hi. destruct (read_gives 1 p Hok) as (got & (q & E & Hq) & Hg & Hl); [lia|by rewrite Hi|].
  pose proof (moves_taken _ _ _ _ _ Hq) as Ht. rewrite Hi in Ht.
  destruct got as [|c [|]]; [done| |simpl in Hl; lia]. injection Ht as -> _. by exists q.
Qed.
Lemma write_gives bytes p : pipe_ok p → room (wr p) = None → gives (write_all bytes) p tt [] bytes 0.
Proof.
  intros Hok Ho. assert (runs (write_all bytes) p (λ _ q, moves p q [] bytes 0)) as H by (apply runs_write; auto).
  unfold gives, runs, write_all, write_bytes in *. rewrite Ho in *. eexists. split; [reflexivity|exact H].
Qed.
Lemma progress_gives (track : bool) (n : Z) p : pipe_ok p →
  gives (count_progress track n) p tt [] [] (if track then n else 0).
Proof.
  intros Hok. assert (runs (count_progress track n) p (λ _ q, moves p q [] [] (if track then n else 0))) as H
    by (apply runs_progress; auto).
  unfold gives, runs, count_progress in *. eexists. split; [reflexivity|exact H].
Qed.
Lemma read_exact_gives wanted p bytes rest :
  pipe_ok p → incoming p = bytes ++ rest → length bytes = wanted → gives (read_exact wanted) p bytes bytes [] 0.
Proof.
  intros Hok Hi Hw. unfold read_exact, fuel_for.
  assert (∀ fuel got bytes p, pipe_ok p → (length (incoming p) < fuel)%nat → incoming p = bytes ++ rest →
    gives (read_exact_loop fuel (length bytes) got) p (got ++ bytes) bytes [] 0) as Hloop.
  { clear. induction fuel as [|fuel IH]; intros got bytes p Hok Hf Hi; [lia|].
    destruct (length bytes) as [|w] eqn:Ew.
    { apply nil_length_inv in Ew as ->. cbn. rewrite app_nil_r. by apply gives_ret. }
    cbn [read_exact_loop]. destruct (read_gives (S w) p Hok) as (new & (q & E & Hq) & Hn & Hl); [lia| |].
    { rewrite Hi. by destruct bytes. }
    pose proof (moves_taken _ _ _ _ _ Hq) as Ht. rewrite Hi in Ht.
    assert (∃ more, bytes = new ++ more ∧ incoming q = more ++ rest) as (more & -> & Hmore).
    { exists (drop (length new) bytes).
      assert (new = take (length new) bytes) as Hp.
      { rewrite <- (take_app_le bytes rest) by lia. by rewrite Ht, take_app_length. }
      split; [rewrite Hp at 1; by rewrite take_drop|].
      rewrite <- (drop_app_le bytes rest) by lia. by rewrite Ht, drop_app_length. }
    destruct (IH (got ++ new) more q) as (q' & E' & Hq'); [apply Hq| |done|].
    { pose proof (moves_length _ _ _ _ _ Hq). destruct new; [done|]. simpl in *. lia. }
    exists q'. rewrite (io_bind_Done _ _ _ _ _ E). destruct new as [|c new]; [done|]. split.
    - rewrite length_app in Ew. replace (S w - length (c :: new))%nat with (length more) by (simpl in *; lia).
      rewrite E'. by rewrite <- app_assoc.
    - by apply (moves_trans _ _ _ _ _ _ _ _ _ Hq Hq'). }
  subst wanted. apply (Hloop _ [] bytes); [done|lia|done].
Qed.
