(* ===== verification/RustStr.v ===== *)
(** * Rust strings

    The part of Rust's [str], [char] and integer parsing/printing that the
    LinkLake parsers use. A [str] is the list of its Unicode scalar values; its
    byte length and its bytes are those of its UTF-8 encoding. *)

From S2P Require Import Prelude.
Local Open Scope Z_scope.

Abbreviation rstr := (list Z) (only parsing).

(** String literals of the source. *)
Definition lit (s : string) : rstr :=
  (λ c, Z.of_N (Ascii.N_of_ascii c)) <$> String.list_ascii_of_string s.

(** Character constants. *)
Abbreviation ch_plus := 43.
Abbreviation ch_comma := 44.
Abbreviation ch_minus := 45.
Abbreviation ch_dot := 46.
Abbreviation ch_slash := 47.
Abbreviation ch_colon := 58.
Abbreviation ch_question := 63.
Abbreviation ch_at := 64.
Abbreviation ch_lbracket := 91.
Abbreviation ch_backslash := 92.
Abbreviation ch_rbracket := 93.
Abbreviation ch_hash := 35.

(** ** Character classes *)

(** [char::is_whitespace]: the White_Space property. *)
Definition is_whitespace (c : Z) : bool :=
  ((9 <=? c) && (c <=? 13)) || (c =? 32) || (c =? 133) || (c =? 160) ||
  (c =? 5760) || ((8192 <=? c) && (c <=? 8202)) || (c =? 8232) || (c =? 8233) ||
  (c =? 8239) || (c =? 8287) || (c =? 12288).

(** [char::is_control]: general category Cc. *)
Definition is_control (c : Z) : bool :=
  ((0 <=? c) && (c <=? 31)) || ((127 <=? c) && (c <=? 159)).

Definition is_ascii_digit (c : Z) : bool := (48 <=? c) && (c <=? 57).
Definition is_ascii_upper (c : Z) : bool := (65 <=? c) && (c <=? 90).
Definition is_ascii_lower (c : Z) : bool := (97 <=? c) && (c <=? 122).
Definition is_ascii_alphanumeric (c : Z) : bool :=
  is_ascii_digit c || is_ascii_upper c || is_ascii_lower c.
Definition is_ascii_hexdigit (c : Z) : bool :=
  is_ascii_digit c || ((65 <=? c) && (c <=? 70)) || ((97 <=? c) && (c <=? 102)).

(** ** UTF-8 *)

Definition scalar_ok (c : Z) : Prop := 0 ≤ c < 55296 ∨ 57344 ≤ c < 1114112.
Definition str_ok (s : rstr) : Prop := Forall scalar_ok s.

(** [char::len_utf8] and the encoding of one scalar value. *)
Definition len_utf8 (c : Z) : Z :=
  if c <? 128 then 1 else if c <? 2048 then 2 else if c <? 65536 then 3 else 4.

Definition encode_utf8 (c : Z) : list Z :=
  if c <? 128 then [c]
  else if c <? 2048 then [192 + c / 64; 128 + c mod 64]
  else if c <? 65536 then [224 + c / 4096; 128 + (c / 64) mod 64; 128 + c mod 64]
  else [240 + c / 262144; 128 + (c / 4096) mod 64; 128 + (c / 64) mod 64; 128 + c mod 64].

(** [str::as_bytes] and [str::len]. *)
Definition as_bytes (s : rstr) : list Z := s ≫= encode_utf8.
Definition str_len (s : rstr) : Z := len (as_bytes s).

Definition is_cont (b : Z) : bool := (128 <=? b) && (b <=? 191).

(** [str::from_utf8]: rejects overlong forms, surrogates, values above
    U+10FFFF and truncated sequences. *)
Fixpoint from_utf8 (l : list Z) : option rstr :=
  match l with
  | [] => Some []
  | b0 :: l1 =>
      if b0 <? 128 then s ← from_utf8 l1; Some (b0 :: s)
      else if (194 <=? b0) && (b0 <=? 223) then
        match l1 with
        | b1 :: l2 =>
            if is_cont b1
            then s ← from_utf8 l2; Some ((b0 - 192) * 64 + (b1 - 128) :: s) else None
        | _ => None
        end
      else if (224 <=? b0) && (b0 <=? 239) then
        match l1 with
        | b1 :: b2 :: l3 =>
            let c := (b0 - 224) * 4096 + (b1 - 128) * 64 + (b2 - 128) in
            if is_cont b1 && is_cont b2 && (2048 <=? c) &&
               ((c <? 55296) || (57344 <=? c))
            then s ← from_utf8 l3; Some (c :: s) else None
        | _ => None
        end
      else if (240 <=? b0) && (b0 <=? 244) then
        match l1 with
        | b1 :: b2 :: b3 :: l4 =>
            let c := (b0 - 240) * 262144 + (b1 - 128) * 4096 + (b2 - 128) * 64 + (b3 - 128) in
            if is_cont b1 && is_cont b2 && is_cont b3 && (65536 <=? c) && (c <? 1114112)
            then s ← from_utf8 l4; Some (c :: s) else None
        | _ => None
        end
      else None
  end.

Lemma as_bytes_nil : as_bytes [] = [].
Proof. done. Qed.
Lemma as_bytes_cons c s : as_bytes (c :: s) = encode_utf8 c ++ as_bytes s.
Proof. done. Qed.
Lemma as_bytes_app s t : as_bytes (s ++ t) = as_bytes s ++ as_bytes t.
Proof. apply bind_app. Qed.

(** ASCII strings are their own bytes. *)
Definition is_ascii (s : rstr) : bool := all (λ c, (0 <=? c) && (c <? 128)) s.

Lemma as_bytes_ascii s : is_ascii s = true → as_bytes s = s.
Proof.
  unfold is_ascii. rewrite all_Forall. induction 1 as [|c s Hc _ IH]; [done|].
  rewrite as_bytes_cons, IH. bool_prop. unfold encode_utf8.
  by rewrite (proj2 (Z.ltb_lt c 128)) by lia.
Qed.

Lemma from_utf8_ascii s : is_ascii s = true → from_utf8 s = Some s.
Proof.
  unfold is_ascii. rewrite all_Forall. induction 1 as [|c s Hc _ IH]; [done|].
  cbn [from_utf8]. bool_prop.
  rewrite (proj2 (Z.ltb_lt c 128)) by lia. by rewrite IH.
Qed.

Lemma from_utf8_ascii_inv l s :
  bytes_ok l → from_utf8 l = Some s → is_ascii s = true → l = s.
Proof.
  intros Hl. remember (length l) as n eqn:Hn. revert l s Hl Hn.
  induction n as [n IH] using lt_wf_ind; intros l s Hl Hn H Ha.
  assert (∀ c t k, (length k < n)%nat → bytes_ok k →
    (x ← from_utf8 k; Some (c :: x)) = Some t → is_ascii t = true →
    0 ≤ c < 128 ∧ t = c :: k) as Hrec.
  { intros c t k Hk Hbk Hx Ht. destruct (from_utf8 k) as [x|] eqn:E; simplify_eq/=.
    unfold is_ascii in Ht. cbn [all forallb] in Ht. bool_prop.
    rewrite (IH (length k) Hk k x); done. }
  destruct l as [|b0 l]; cbn [from_utf8] in H; [by simplify_eq|].
  unfold bytes_ok in Hl. rewrite Forall_cons in Hl. destruct Hl as [Hb Hl].
  unfold byte_ok in Hb. simpl in Hn.
  destruct (b0 <? 128) eqn:E0.
  { apply Hrec in H as [_ ->]; [done|lia|done|done]. }
  bool_prop.
  destruct ((194 <=? b0) && (b0 <=? 223)) eqn:E1.
  { destruct l as [|b1 l]; [done|]. destruct (is_cont b1) eqn:E2; [|done].
    inversion Hl; subst. apply Hrec in H as [Hc _]; [|simpl; lia|done|done].
    unfold is_cont in E2. bool_prop. lia. }
  destruct ((224 <=? b0) && (b0 <=? 239)) eqn:E2.
  { destruct l as [|b1 [|b2 l]]; try done. case_match eqn:E3; [|done].
    inversion Hl as [|? ? ? Hl']; inversion Hl'; subst.
    apply Hrec in H as [Hc _]; [|simpl; lia|done|done].
    unfold is_cont in E3. bool_prop. lia. }
  destruct ((240 <=? b0) && (b0 <=? 244)) eqn:E3; [|done].
  destruct l as [|b1 [|b2 [|b3 l]]]; try done. case_match eqn:E4; [|done].
  inversion Hl as [|? ? ? Hl']; inversion Hl' as [|? ? ? Hl'']; inversion Hl''; subst.
  apply Hrec in H as [Hc _]; [|simpl; lia|done|done].
  unfold is_cont in E4. bool_prop. lia.
Qed.

(** ** Trimming *)

Fixpoint trim_start (s : rstr) : rstr :=
  match s with
  | c :: t => if is_whitespace c then trim_start t else s
  | [] => []
  end.
Definition trim_end (s : rstr) : rstr := rev (trim_start (rev s)).
(** [str::trim]. *)
Definition trim (s : rstr) : rstr := trim_end (trim_start s).

Lemma trim_start_id c s : is_whitespace c = false → trim_start (c :: s) = c :: s.
Proof. intros H. simpl. by rewrite H. Qed.

Definition no_ws (s : rstr) : Prop := Forall (λ c, is_whitespace c = false) s.

Lemma trim_start_no_ws s : no_ws s → trim_start s = s.
Proof. destruct 1; [done|by apply trim_start_id]. Qed.

Lemma trim_no_ws s : no_ws s → trim s = s.
Proof.
  intros H. unfold trim, trim_end. rewrite (trim_start_no_ws s) by done.
  rewrite trim_start_no_ws, rev_involutive; [done|].
  unfold no_ws. by apply Forall_rev.
Qed.

Lemma trim_nil : trim [] = [].
Proof. done. Qed.

(** ** Splitting and joining *)

(** [str::split(sep)] on a character: always at least one piece. *)
Fixpoint split (sep : Z) (s : rstr) : list rstr :=
  match s with
  | [] => [[]]
  | c :: s =>
      if c =? sep then [] :: split sep s
      else match split sep s with
           | [] => [[c]]
           | p :: ps => (c :: p) :: ps
           end
  end.

(** [str::split_once(sep)]: around the first separator. *)
Fixpoint split_once (sep : Z) (s : rstr) : option (rstr * rstr) :=
  match s with
  | [] => None
  | c :: s =>
      if c =? sep then Some ([], s)
      else '(a, b) ← split_once sep s; Some (c :: a, b)
  end.

(** [str::rsplit_once(sep)]: around the last separator. *)
Definition rsplit_once (sep : Z) (s : rstr) : option (rstr * rstr) :=
  '(a, b) ← split_once sep (rev s); Some (rev b, rev a).

Definition starts_with (c : Z) (s : rstr) : bool :=
  match s with d :: _ => d =? c | [] => false end.
Definition ends_with (c : Z) (s : rstr) : bool := starts_with c (rev s).
Definition contains_char (c : Z) (s : rstr) : bool := any (λ d, d =? c) s.

(** [str::strip_prefix] for a string pattern. *)
Fixpoint strip_prefix (p s : rstr) : option rstr :=
  match p, s with
  | [], _ => Some s
  | c :: p, d :: s => if c =? d then strip_prefix p s else None
  | _ :: _, [] => None
  end.

(** [str::split_once] for a string pattern. *)
Fixpoint split_once_str (p s : rstr) : option (rstr * rstr) :=
  match strip_prefix p s with
  | Some r => Some ([], r)
  | None =>
      match s with
      | [] => None
      | c :: s => '(a, b) ← split_once_str p s; Some (c :: a, b)
      end
  end.
Definition contains_str (p s : rstr) : bool :=
  match split_once_str p s with Some _ => true | None => false end.

(** [Vec<String>::join(sep)]. *)
Fixpoint join (sep : rstr) (l : list rstr) : rstr :=
  match l with
  | [] => []
  | [s] => s
  | s :: l => s ++ sep ++ join sep l
  end.

Definition lacks (c : Z) (s : rstr) : Prop := Forall (λ d, d ≠ c) s.

Lemma contains_char_lacks c s : contains_char c s = false ↔ lacks c s.
Proof.
  unfold contains_char, lacks. rewrite any_false_Forall.
  apply Forall_proper; [|done]. intros d. apply Z.eqb_neq.
Qed.

Lemma split_not_nil sep s : split sep s ≠ [].
Proof. destruct s as [|c s]; simpl; [done|]. zcase; [done|]. by destruct (split sep s). Qed.

Lemma split_lacks sep s : lacks sep s → split sep s = [s].
Proof.
  induction 1 as [|c s Hc _ IH]; [done|]. simpl.
  rewrite (proj2 (Z.eqb_neq c sep) Hc), IH. done.
Qed.

Lemma split_app sep s t : lacks sep s → split sep (s ++ sep :: t) = s :: split sep t.
Proof.
  induction 1 as [|c s Hc _ IH]; simpl; [by rewrite Z.eqb_refl|].
  by rewrite (proj2 (Z.eqb_neq c sep) Hc), IH.
Qed.

Lemma split_join sep l :
  l ≠ [] → Forall (lacks sep) l → split sep (join [sep] l) = l.
Proof.
  intros Hl H. induction H as [|s l Hs H IH]; [done|].
  destruct l as [|t l]; [by apply split_lacks|].
  change (join [sep] (s :: t :: l)) with (s ++ [sep] ++ join [sep] (t :: l)).
  change ([sep] ++ ?x) with (sep :: x).
  rewrite split_app by done. f_equal. by apply IH.
Qed.

Lemma split_pieces_lack sep s : Forall (lacks sep) (split sep s).
Proof.
  induction s as [|c s IH]; simpl; [repeat constructor|].
  destruct (Z.eqb_spec c sep); [constructor; [constructor|done]|].
  destruct (split sep s) as [|p ps]; [repeat constructor; done|].
  inversion IH; subst. constructor; [by constructor|done].
Qed.

Lemma join_split sep s : join [sep] (split sep s) = s.
Proof.
  induction s as [|c s IH]; [done|]. simpl. destruct (Z.eqb_spec c sep) as [->|].
  - destruct (split sep s) as [|p ps] eqn:E; [by destruct (split_not_nil sep s)|].
    simpl in *. by rewrite IH.
  - destruct (split sep s) as [|p [|q ps]] eqn:E; [by destruct (split_not_nil sep s)| |];
      simpl in *; by rewrite <- IH.
Qed.

Lemma split_once_lacks sep s : lacks sep s → split_once sep s = None.
Proof.
  induction 1 as [|c s Hc _ IH]; [done|]. simpl.
  by rewrite (proj2 (Z.eqb_neq c sep) Hc), IH.
Qed.

Lemma split_once_app sep s t : lacks sep s → split_once sep (s ++ sep :: t) = Some (s, t).
Proof.
  induction 1 as [|c s Hc _ IH]; simpl; [by rewrite Z.eqb_refl|].
  by rewrite (proj2 (Z.eqb_neq c sep) Hc), IH.
Qed.

Lemma split_once_Some sep s a b :
  split_once sep s = Some (a, b) ↔ lacks sep a ∧ s = a ++ sep :: b.
Proof.
  split; [|intros [? ->]; by apply split_once_app].
  revert a b. induction s as [|c s IH]; intros a b; simpl; [done|].
  destruct (Z.eqb_spec c sep) as [->|Hc].
  - intros [= <- <-]. by split; [constructor|].
  - destruct (split_once sep s) as [[a' b']|]; [|done]. intros [= <- <-].
    destruct (IH a' b') as [Ha ->]; [done|]. by split; [constructor|].
Qed.

Lemma split_once_None sep s : split_once sep s = None ↔ lacks sep s.
Proof.
  split; [|apply split_once_lacks]. induction s as [|c s IH]; [by constructor|].
  simpl. destruct (Z.eqb_spec c sep); [done|].
  destruct (split_once sep s) as [[? ?]|] eqn:E; [done|]. intros _.
  constructor; [done|by apply IH].
Qed.

Lemma rsplit_once_Some sep s a b :
  rsplit_once sep s = Some (a, b) ↔ lacks sep b ∧ s = a ++ sep :: b.
Proof.
  unfold rsplit_once. split.
  - destruct (split_once sep (rev s)) as [[x y]|] eqn:E; [|done].
    intros [= <- <-]. apply split_once_Some in E as [Hx E]. split.
    + unfold lacks. by apply Forall_rev.
    + apply (f_equal (@rev Z)) in E. rewrite rev_involutive in E. subst s.
      rewrite rev_app_distr. simpl. by rewrite <- app_assoc.
  - intros [Hb ->]. rewrite rev_app_distr. simpl. rewrite <- app_assoc. simpl.
    rewrite split_once_app by by apply Forall_rev. simpl. by rewrite !rev_involutive.
Qed.

Lemma rsplit_once_None sep s : rsplit_once sep s = None ↔ lacks sep s.
Proof.
  unfold rsplit_once. destruct (split_once sep (rev s)) as [[x y]|] eqn:E; simpl.
  - split; [done|]. intros H. apply split_once_Some in E as [_ E].
    apply (f_equal (@rev Z)) in E. rewrite rev_involutive in E. subst s.
    rewrite rev_app_distr in H. apply Forall_app in H as [H _].
    simpl in H. apply Forall_app in H as [_ H]. by inversion H.
  - apply split_once_None in E. split; [|done]. intros _.
    rewrite <- (rev_involutive s). unfold lacks. by apply Forall_rev.
Qed.

(** ** Parsing and printing unsigned integers *)

Fixpoint parse_digits (max acc : Z) (s : rstr) : option Z :=
  match s with
  | [] => Some acc
  | c :: s =>
      if is_ascii_digit c then
        let v := acc * 10 + (c - 48) in
        if v <=? max then parse_digits max v s else None
      else None
  end.

(** [str::parse::<uN>()] in base ten: a leading ['+'] is accepted, an empty
    string, a sign without digits, any other character and an overflow are
    errors. *)
Definition parse_uint (max : Z) (s : rstr) : option Z :=
  match s with
  | [] => None
  | c :: t =>
      if c =? ch_plus then
        match t with [] => None | _ => parse_digits max 0 t end
      else parse_digits max 0 s
  end.

(** [Display] for unsigned integers; 40 digits are enough for a [u128]. *)
Fixpoint dec_digits (fuel : nat) (n : Z) : rstr :=
  match fuel with
  | O => []
  | S fuel =>
      if n <? 10 then [48 + n] else dec_digits fuel (n / 10) ++ [48 + n mod 10]
  end.
Definition to_string (n : Z) : rstr := dec_digits 40 n.

Definition digits_ok (s : rstr) : Prop := Forall (λ c, is_ascii_digit c = true) s.

Lemma digit_ok d : 0 ≤ d < 10 → is_ascii_digit (48 + d) = true.
Proof. intros H. unfold is_ascii_digit. apply andb_true_iff. lia. Qed.

Lemma parse_digits_app max acc s t :
  parse_digits max acc (s ++ t) = parse_digits max acc s ≫= λ v, parse_digits max v t.
Proof.
  revert acc. induction s as [|c s IH]; intros acc; [done|]. simpl.
  destruct (is_ascii_digit c); [|done]. case_match; [apply IH|done].
Qed.

Lemma parse_digits_bound max acc s v :
  0 ≤ acc ≤ max → parse_digits max acc s = Some v → 0 ≤ v ≤ max.
Proof.
  revert acc. induction s as [|c s IH]; intros acc Hacc H; simpl in H; [by simplify_eq|].
  destruct (is_ascii_digit c) eqn:Hc; [|done]. case_match eqn:Hv; [|done].
  apply IH in H; [done|]. unfold is_ascii_digit in Hc. bool_prop. lia.
Qed.

Lemma parse_uint_bound max s v : 0 ≤ max → parse_uint max s = Some v → 0 ≤ v ≤ max.
Proof.
  intros Hmax. unfold parse_uint. destruct s as [|c t]; [done|].
  case_match; [destruct t; [done|]|]; apply parse_digits_bound; lia.
Qed.

Lemma dec_digits_ok fuel n : 0 ≤ n → digits_ok (dec_digits fuel n).
Proof.
  revert n. induction fuel as [|f IH]; intros n Hn; simpl; [constructor|].
  pose proof (Z.mod_pos_bound n 10). zcase.
  - constructor; [apply digit_ok; lia|constructor].
  - apply Forall_app. split; [apply IH, Z.div_pos; lia|].
    constructor; [apply digit_ok; lia|constructor].
Qed.

Lemma parse_dec_digits fuel n max :
  0 ≤ n ≤ max → n < 10 ^ Z.of_nat fuel → (0 < fuel)%nat →
  parse_digits max 0 (dec_digits fuel n) = Some n.
Proof.
  revert n. induction fuel as [|f IH]; intros n Hn Hf H0; [lia|]. cbn [dec_digits].
  pose proof (Z.mod_pos_bound n 10 ltac:(lia)) as Hm.
  pose proof (Z.div_mod n 10 ltac:(lia)) as Hd.
  assert (∀ d acc, 0 ≤ d < 10 → acc * 10 + d ≤ max →
            parse_digits max acc [48 + d] = Some (acc * 10 + d)) as Hone.
  { intros d acc Hd' Hmax. cbn [parse_digits]. rewrite digit_ok by done.
    replace (48 + d - 48) with d by lia. by rewrite (proj2 (Z.leb_le _ _)) by lia. }
  destruct (Z.ltb_spec n 10).
  - by rewrite Hone by lia.
  - rewrite parse_digits_app.
    assert (0 ≤ n / 10) by (apply Z.div_pos; lia).
    rewrite IH; [cbn [mbind option_bind]; rewrite Hone by lia; f_equal; lia|lia| |].
    + rewrite Nat2Z.inj_succ, Z.pow_succ_r in Hf by lia.
      apply Z.div_lt_upper_bound; lia.
    + destruct f; [|lia]. simpl in Hf. lia.
Qed.

Lemma to_string_digits n : 0 ≤ n → digits_ok (to_string n).
Proof. apply dec_digits_ok. Qed.

Lemma to_string_not_nil n : to_string n ≠ [].
Proof.
  unfold to_string. cbn [dec_digits]. zcase; [done|].
  intros [_ Hd]%app_nil. done.
Qed.

(** Printing and parsing an integer is the identity. *)
Lemma parse_uint_to_string max n :
  0 ≤ n ≤ max → max ≤ U128_MAX → parse_uint max (to_string n) = Some n.
Proof.
  intros Hn Hmax. pose proof (to_string_digits n ltac:(lia)) as Hd.
  pose proof (to_string_not_nil n) as Hnn.
  assert (parse_digits max 0 (to_string n) = Some n) as Hp.
  { apply parse_dec_digits; [done| |lia].
    assert (U128_MAX < 10 ^ Z.of_nat 40) by (vm_compute; done). lia. }
  unfold parse_uint. destruct (to_string n) as [|c t]; [done|].
  inversion Hd as [|? ? Hc _]; subst. unfold is_ascii_digit in Hc. bool_prop.
  rewrite (proj2 (Z.eqb_neq c ch_plus)) by lia. done.
Qed.

Lemma digit_not c d : is_ascii_digit c = true → d < 48 ∨ 57 < d → c ≠ d.
Proof. unfold is_ascii_digit. intros H. bool_prop. lia. Qed.

Lemma digit_no_ws c : is_ascii_digit c = true → is_whitespace c = false.
Proof.
  unfold is_ascii_digit, is_whitespace. intros H. bool_prop.
  repeat (rewrite orb_false_iff; split); lia.
Qed.

Lemma digits_lack d s : digits_ok s → d < 48 ∨ 57 < d → lacks d s.
Proof. intros H Hd. eapply Forall_impl; [done|]. intros c Hc. by apply digit_not. Qed.

Lemma digits_no_ws s : digits_ok s → no_ws s.
Proof. intros H. eapply Forall_impl; [done|]. apply digit_no_ws. Qed.

Lemma digits_trim s : digits_ok s → trim s = s.
Proof. intros H. apply trim_no_ws, digits_no_ws, H. Qed.

#[export] Hint Resolve to_string_digits digits_lack digits_no_ws to_string_not_nil : linklake.

Example parse_uint_plus : parse_uint U16_MAX (lit "+80") = Some 80.
Proof. reflexivity. Qed.
Example parse_uint_overflow : parse_uint U16_MAX (lit "65536") = None.
Proof. reflexivity. Qed.
Example to_string_65535 : to_string 65535 = lit "65535".
Proof. reflexivity. Qed.

(** ** Printed ranges

    [format!("{start}-{end}")], shortened to one number for a single port: the
    notation both port grammars of the program print and parse. *)
Definition print_range (s e : Z) : rstr :=
  if s =? e then to_string s else to_string s ++ [ch_minus] ++ to_string e.

Lemma print_range_forall (P : Z → Prop) s e :
  0 ≤ s → 0 ≤ e → (∀ c, is_ascii_digit c = true → P c) → P ch_minus →
  Forall P (print_range s e).
Proof.
  intros Hs He HP Hm. unfold print_range.
  assert (Forall P (to_string s) ∧ Forall P (to_string e)) as [H1 H2].
  { split; (eapply Forall_impl; [by apply to_string_digits|done]). }
  zcase; [done|]. apply Forall_app. split; [done|]. by constructor.
Qed.

Lemma print_range_lacks s e d :
  0 ≤ s → 0 ≤ e → (d < 48 ∨ 57 < d) → d ≠ ch_minus → lacks d (print_range s e).
Proof. intros. apply print_range_forall; [done..| |done]. intros c Hc. by apply digit_not. Qed.

Lemma print_range_no_ws s e : 0 ≤ s → 0 ≤ e → no_ws (print_range s e).
Proof. intros. apply print_range_forall; [done..|apply digit_no_ws|done]. Qed.

Lemma print_range_not_nil s e : print_range s e ≠ [].
Proof. unfold print_range. zcase; [apply to_string_not_nil|]. intros [_ H1]%app_nil. done. Qed.

Lemma to_string_lacks_minus n : 0 ≤ n → lacks ch_minus (to_string n).
Proof. intros Hn. apply digits_lack; [by apply to_string_digits|lia]. Qed.

Lemma join_no_ws sep l :
  no_ws sep → Forall no_ws l → no_ws (join sep l).
Proof.
  intros Hsep. induction 1 as [|s l Hs H IH]; [constructor|].
  destruct l as [|t l]; [done|].
  change (join sep (s :: t :: l)) with (s ++ sep ++ join sep (t :: l)).
  apply Forall_app. split; [done|]. apply Forall_app. by split.
Qed.

Lemma join_not_nil sep s l : s ≠ [] → join sep (s :: l) ≠ [].
Proof. destruct l; simpl; [done|]. intros Hs [? _]%app_nil. done. Qed.

Lemma no_ws_comma : no_ws [ch_comma].
Proof. by repeat constructor. Qed.
#[export] Hint Resolve no_ws_comma : linklake.
