(* ===== verification/NetAddr.v ===== *)
(** * Network addresses

    [Ipv4Addr], [Ipv6Addr] and [IpAddr] of the Rust standard library as the
    program uses them: an address is the integer of its octets in network order.
    The parsers follow the grammar of [core::net]'s [FromStr] implementations. *)

From S2P Require Import Prelude RustStr.
Local Open Scope Z_scope.

Inductive IpAddr :=
  | V4 (address : Z)
  | V6 (address : Z).

Global Instance IpAddr_eq_dec : EqDecision IpAddr.
Proof. solve_decision. Defined.
Global Instance IpAddr_countable : Countable IpAddr.
Proof.
  refine (inj_countable' (λ a, match a with V4 x => inl x | V6 x => inr x end)
            (λ s, match s with inl x => V4 x | inr x => V6 x end) _).
  by intros [].
Defined.

Definition ip_ok (a : IpAddr) : Prop :=
  match a with
  | V4 x => 0 ≤ x ≤ U32_MAX
  | V6 x => 0 ≤ x ≤ U128_MAX
  end.

(** [Ipv4Addr::new(a, b, c, d)] and [Ipv6Addr::new(s0, .., s7)]. *)
Definition Ipv4_new (a b c d : Z) : Z := from_be_bytes [a; b; c; d].
Definition Ipv6_new (s0 s1 s2 s3 s4 s5 s6 s7 : Z) : Z :=
  fold_left (λ acc s, acc * 65536 + s) [s0; s1; s2; s3; s4; s5; s6; s7] 0.

(** [octets()]. *)
Definition ipv4_octets (x : Z) : list Z := to_be_bytes 4 x.
Definition ipv6_octets (x : Z) : list Z := to_be_bytes 16 x.

(** ** Parsing

    A reader consumes a prefix of its input; failure consumes nothing, as
    [Parser::read_atomically]. *)
Abbreviation reader A := (rstr → option (A * rstr)) (only parsing).

Definition to_digit (radix c : Z) : option Z :=
  let d := if is_ascii_digit c then Some (c - 48)
           else if is_ascii_lower c then Some (c - 87)
           else if is_ascii_upper c then Some (c - 55)
           else None in
  d ← d; if d <? radix then Some d else None.

Fixpoint read_digits (radix : Z) (max_digits : nat) (result : Z) (count : nat) (s : rstr)
    : option (Z * nat * rstr) :=
  match s with
  | [] => Some (result, count, [])
  | c :: t =>
      match to_digit radix c with
      | Some d =>
          if (max_digits <? S count)%nat then None
          else read_digits radix max_digits (result * radix + d) (S count) t
      | None => Some (result, count, s)
      end
  end.

Definition read_number (radix : Z) (max_digits : nat) (allow_zero_prefix : bool) (max : Z)
    : reader Z := λ s,
  '(r, count, rest) ← read_digits radix max_digits 0 0 s;
  if (count =? 0)%nat then None
  else if negb allow_zero_prefix && starts_with 48 s && (1 <? count)%nat then None
  else if r <=? max then Some (r, rest) else None.

Definition read_given_char (c : Z) : reader unit := λ s,
  match s with d :: t => if d =? c then Some (tt, t) else None | [] => None end.

Definition read_separator {A} (sep : Z) (index : nat) (inner : reader A) : reader A := λ s,
  if (0 <? index)%nat then '(_, t) ← read_given_char sep s; inner t else inner s.

Definition read_ipv4_addr : reader Z := λ s,
  '(a, s) ← read_separator ch_dot 0 (read_number 10 3 false U8_MAX) s;
  '(b, s) ← read_separator ch_dot 1 (read_number 10 3 false U8_MAX) s;
  '(c, s) ← read_separator ch_dot 2 (read_number 10 3 false U8_MAX) s;
  '(d, s) ← read_separator ch_dot 3 (read_number 10 3 false U8_MAX) s;
  Some (Ipv4_new a b c d, s).

(** [read_groups]: at most [n] more groups, [i] already read of [limit]; the
    groups read, whether they end in an embedded IPv4 address, and the rest. *)
Fixpoint read_groups (n i limit : nat) (s : rstr) : list Z * bool * rstr :=
  match n with
  | O => ([], false, s)
  | S n =>
      match (if (i <? limit - 1)%nat then read_separator ch_colon i read_ipv4_addr s else None) with
      | Some (v4, rest) => ([v4 / 65536; v4 mod 65536], true, rest)
      | None =>
          match read_separator ch_colon i (read_number 16 4 true U16_MAX) s with
          | Some (g, rest) =>
              let '(gs, v4, rest) := read_groups n (S i) limit rest in (g :: gs, v4, rest)
          | None => ([], false, s)
          end
      end
  end.

Definition groups_value (gs : list Z) : Z := fold_left (λ acc s, acc * 65536 + s) gs 0.

Definition read_ipv6_addr : reader Z := λ s,
  let '(head, head_ipv4, s) := read_groups 8 0 8 s in
  if (length head =? 8)%nat then Some (groups_value head, s)
  else if head_ipv4 then None
  else
    '(_, s) ← read_given_char ch_colon s;
    '(_, s) ← read_given_char ch_colon s;
    let limit := (8 - (length head + 1))%nat in
    let '(tail, _, s) := read_groups limit 0 limit s in
    Some (groups_value (head ++ replicate (8 - length head - length tail) 0 ++ tail), s).

Definition parse_with {A} (inner : reader A) (s : rstr) : option A :=
  match inner s with Some (a, []) => Some a | _ => None end.

(** [str::parse::<Ipv4Addr>()], [::<Ipv6Addr>()] and [::<IpAddr>()]. *)
Definition parse_ipv4 (s : rstr) : option Z :=
  if 15 <? str_len s then None else parse_with read_ipv4_addr s.
Definition parse_ipv6 (s : rstr) : option Z := parse_with read_ipv6_addr s.
Definition parse_ip (s : rstr) : option IpAddr :=
  parse_with (λ s, match read_ipv4_addr s with
                   | Some (x, r) => Some (V4 x, r)
                   | None => '(x, r) ← read_ipv6_addr s; Some (V6 x, r)
                   end) s.

(** ** DNS labels

    The test that every host name validator of the program applies to the
    dot separated labels. *)
Definition valid_dns_label (label : rstr) : bool :=
  negb (bool_decide (label = [])) && (str_len label <=? 63) &&
  negb (starts_with ch_minus label) && negb (ends_with ch_minus label) &&
  all (λ b, is_ascii_alphanumeric b || (b =? ch_minus)) (as_bytes label).

Example parse_ipv4_ex : parse_ipv4 (lit "127.0.0.1") = Some 2130706433.
Proof. reflexivity. Qed.
Example parse_ipv4_zero_prefix : parse_ipv4 (lit "127.0.0.01") = None.
Proof. reflexivity. Qed.
Example parse_ipv6_ex : parse_ipv6 (lit "2001:db8::1") = Some (Ipv6_new 8193 3512 0 0 0 0 0 1).
Proof. reflexivity. Qed.
Example parse_ipv6_mapped : parse_ipv6 (lit "::ffff:192.168.1.1") = Some (Ipv6_new 0 0 0 0 0 65535 49320 257).
Proof. reflexivity. Qed.
Example parse_ipv6_bad : parse_ipv6 (lit "1::2::3") = None.
Proof. reflexivity. Qed.
