(* ===== verification/RustText.v ===== *)
(** * More of Rust's strings

    ASCII case, number parsing in other bases, the round trips of UTF-8 and the
    laws of trimming that message parsers need. *)

From S2P Require Import Prelude RustStr NetAddr.
Local Open Scope Z_scope.

(** ** ASCII *)

Definition lower_char (c : Z) : Z := if is_ascii_upper c then c + 32 else c.
Definition to_ascii_lowercase (s : rstr) : rstr := lower_char <$> s.
Definition eq_ignore_ascii_case (s t : rstr) : bool := bool_decide (to_ascii_lowercase s = to_ascii_lowercase t).
Definition is_ascii_whitespace (c : Z) : bool :=
  (c =? 32) || (c =? 9) || (c =? 10) || (c =? 12) || (c =? 13).
Definition is_ascii_control (c : Z) : bool := ((0 <=? c) && (c <=? 31)) || (c =? 127).

Lemma lower_char_idem c : lower_char (lower_char c) = lower_char c.
Proof.
  unfold lower_char. destruct (is_ascii_upper c) eqn:E; [|by rewrite E].
  assert (is_ascii_upper (c + 32) = false) as ->; [|done].
  unfold is_ascii_upper in *. bool_prop. apply andb_false_iff. lia.
Qed.
Lemma to_ascii_lowercase_idem s : to_ascii_lowercase (to_ascii_lowercase s) = to_ascii_lowercase s.
Proof.
  unfold to_ascii_lowercase. rewrite <- list_fmap_compose. apply list_fmap_ext.
  intros _ c _. apply lower_char_idem.
Qed.

(** ** Numbers in another base *)

Fixpoint radix_digits (radix max acc : Z) (s : rstr) : option Z :=
  match s with
  | [] => Some acc
  | c :: s =>
      d ← to_digit radix c;
      let v := acc * radix + d in
      if v <=? max then radix_digits radix max v s else None
  end.

(** [uN::from_str_radix]. *)
Definition from_str_radix (radix max : Z) (s : rstr) : option Z :=
  match s with
  | [] => None
  | c :: t =>
      if c =? ch_plus then
        match t with [] => None | _ => radix_digits radix max 0 t end
      else radix_digits radix max 0 s
  end.

(** ** UTF-8 *)

Local Ltac leb_false a b := rewrite (proj2 (Z.leb_gt a b)) by lia.
Local Ltac ltb_false a b := rewrite (proj2 (Z.ltb_ge a b)) by lia.
Local Ltac leb_true a b := rewrite (proj2 (Z.leb_le a b)) by lia.
Local Ltac ltb_true a b := rewrite (proj2 (Z.ltb_lt a b)) by lia.

Lemma encode_utf8_bytes c : scalar_ok c → bytes_ok (encode_utf8 c).
Proof.
  intros Hc. unfold encode_utf8, bytes_ok, byte_ok, scalar_ok in *.
  repeat zcase; rewrite ?Forall_cons; repeat split; auto;
    try (apply Z.add_nonneg_nonneg; [lia|apply Z.div_pos; lia]);
    try (pose proof (Z.mod_pos_bound c 64); lia);
    try (pose proof (Z.mod_pos_bound (c / 64) 64); lia);
    try (pose proof (Z.mod_pos_bound (c / 4096) 64); lia); try lia;
    match goal with |- ?k + c / ?d < 256 => assert (c / d < 256 - k); [apply Z.div_lt_upper_bound; lia|lia] end.
Qed.
Lemma as_bytes_ok s : str_ok s → bytes_ok (as_bytes s).
Proof.
  induction 1 as [|c s Hc _ IH]; [constructor|]. rewrite as_bytes_cons.
  apply Forall_app. split; [by apply encode_utf8_bytes|done].
Qed.

(** Decoding the encoding of one character. *)
Lemma from_utf8_encode c s l : scalar_ok c → from_utf8 l = Some s → from_utf8 (encode_utf8 c ++ l) = Some (c :: s).
Proof.
  intros Hc Hl. unfold encode_utf8, scalar_ok in *.
  pose proof (Z.mod_pos_bound c 64 ltac:(lia)) as M0. pose proof (Z.div_mod c 64 ltac:(lia)) as D0.
  pose proof (Z.mod_pos_bound (c / 64) 64 ltac:(lia)) as M1. pose proof (Z.div_mod (c / 64) 64 ltac:(lia)) as D1.
  pose proof (Z.mod_pos_bound (c / 4096) 64 ltac:(lia)) as M2. pose proof (Z.div_mod (c / 4096) 64 ltac:(lia)) as D2.
  assert (c / 64 / 64 = c / 4096) as E1 by (rewrite Z.div_div by lia; done).
  assert (c / 4096 / 64 = c / 262144) as E2 by (rewrite Z.div_div by lia; done).
  rewrite E1 in D1. rewrite E2 in D2.
  destruct (Z.ltb_spec c 128); [cbn [app from_utf8]; by rewrite (proj2 (Z.ltb_lt _ _)), Hl by lia|].
  assert (∀ b, 128 ≤ b < 192 → is_cont b = true) as Hcont
    by (intros b Hb; unfold is_cont; apply andb_true_iff; lia).
  destruct (Z.ltb_spec c 2048); cbn [app from_utf8].
  { ltb_false (192 + c / 64) 128. leb_true 194 (192 + c / 64). leb_true (192 + c / 64) 223.
    cbn [andb]. rewrite Hcont by lia. rewrite Hl. cbn. do 2 f_equal. lia. }
  destruct (Z.ltb_spec c 65536); cbn [app from_utf8].
  { ltb_false (224 + c / 4096) 128. leb_false (224 + c / 4096) 223. rewrite andb_false_r.
    leb_true 224 (224 + c / 4096). leb_true (224 + c / 4096) 239. cbn [andb].
    set (v := (224 + c / 4096 - 224) * 4096 + (128 + (c / 64) mod 64 - 128) * 64 + (128 + c mod 64 - 128)).
    assert (v = c) as -> by (unfold v; lia). rewrite !Hcont by lia. leb_true 2048 c. cbn [andb].
    rewrite Hl. assert ((c <? 55296) || (57344 <=? c) = true) as ->; [|done].
    apply orb_true_iff. lia. }
  ltb_false (240 + c / 262144) 128. leb_false (240 + c / 262144) 223. rewrite andb_false_r.
  leb_false (240 + c / 262144) 239. rewrite andb_false_r.
  leb_true 240 (240 + c / 262144). leb_true (240 + c / 262144) 244. cbn [andb].
  set (v := (240 + c / 262144 - 240) * 262144 + (128 + (c / 4096) mod 64 - 128) * 4096 +
            (128 + (c / 64) mod 64 - 128) * 64 + (128 + c mod 64 - 128)).
  assert (v = c) as -> by (unfold v; lia). rewrite !Hcont by lia. leb_true 65536 c. ltb_true c 1114112.
  cbn [andb]. by rewrite Hl.
Qed.

Lemma from_utf8_as_bytes s : str_ok s → from_utf8 (as_bytes s) = Some s.
Proof.
  induction 1 as [|c s Hc _ IH]; [done|]. rewrite as_bytes_cons. by apply from_utf8_encode.
Qed.

(** What is decoded encodes to the bytes it came from. *)
Lemma from_utf8_sound l s : bytes_ok l → from_utf8 l = Some s → str_ok s ∧ as_bytes s = l.
Proof.
  remember (length l) as n eqn:Hn. revert l s Hn.
  induction n as [n IH] using lt_wf_ind; intros l s Hn Hl H.
  assert (∀ c k, (length k < n)%nat → bytes_ok k → scalar_ok c → encode_utf8 c ++ k = l →
    (x ← from_utf8 k; Some (c :: x)) = Some s → str_ok s ∧ as_bytes s = l) as Hrec.
  { intros c k Hk Hbk Hc He Hx. destruct (from_utf8 k) as [x|] eqn:E; simplify_eq/=.
    destruct (IH _ Hk k x eq_refl Hbk E) as [Hx <-]. split; [by constructor|done]. }
  destruct l as [|b0 l]; cbn [from_utf8] in H; [simplify_eq; split; [constructor|done]|].
  unfold bytes_ok in Hl. rewrite Forall_cons in Hl. destruct Hl as [Hb Hl]. unfold byte_ok in Hb.
  simpl in Hn. destruct (Z.ltb_spec b0 128).
  { eapply Hrec; [| | | |exact H]; [lia|done|unfold scalar_ok; lia|].
    unfold encode_utf8. by ltb_true b0 128. }
  destruct ((194 <=? b0) && (b0 <=? 223)) eqn:E1.
  { destruct l as [|b1 l]; [done|]. destruct (is_cont b1) eqn:C1; [|done]. inversion Hl; subst.
    unfold is_cont in C1. bool_prop. set (c := (b0 - 192) * 64 + (b1 - 128)) in *.
    assert (c / 64 = b0 - 192) as D by (symmetry; apply Z.div_unique with (b1 - 128); lia).
    assert (c mod 64 = b1 - 128) as M by (symmetry; apply Z.mod_unique with (b0 - 192); lia).
    eapply Hrec; [| | | |exact H]; [simpl; lia|done|unfold scalar_ok; lia|].
    unfold encode_utf8. ltb_false c 128. ltb_true c 2048. rewrite D, M. cbn. repeat f_equal; lia. }
  destruct ((224 <=? b0) && (b0 <=? 239)) eqn:E2.
  { destruct l as [|b1 [|b2 l]]; try done. inversion Hl as [|? ? ? Hl']; inversion Hl'; subst.
    set (c := (b0 - 224) * 4096 + (b1 - 128) * 64 + (b2 - 128)) in *.
    case_match eqn:C; [|done]. apply andb_true_iff in C as [C Cs]. apply orb_true_iff in Cs.
    unfold is_cont in C. bool_prop.
    assert (c mod 64 = b2 - 128) as M by (symmetry; apply Z.mod_unique with ((b0 - 224) * 64 + (b1 - 128)); lia).
    assert (c / 64 = (b0 - 224) * 64 + (b1 - 128)) as D by (symmetry; apply Z.div_unique with (b2 - 128); lia).
    assert (c / 4096 = b0 - 224) as D' by (symmetry; apply Z.div_unique with ((b1 - 128) * 64 + (b2 - 128)); lia).
    assert ((c / 64) mod 64 = b1 - 128) as M' by (rewrite D; symmetry; apply Z.mod_unique with (b0 - 224); lia).
    eapply Hrec; [| | | |exact H]; [simpl; lia|done|unfold scalar_ok; rewrite !Z.ltb_lt, !Z.leb_le in *; lia|].
    unfold encode_utf8. ltb_false c 128. ltb_false c 2048. ltb_true c 65536. rewrite D', M', M.
    cbn. repeat f_equal; lia. }
  destruct ((240 <=? b0) && (b0 <=? 244)) eqn:E3; [|done].
  destruct l as [|b1 [|b2 [|b3 l]]]; try done.
  inversion Hl as [|? ? ? Hl']; inversion Hl' as [|? ? ? Hl'']; inversion Hl''; subst.
  set (c := (b0 - 240) * 262144 + (b1 - 128) * 4096 + (b2 - 128) * 64 + (b3 - 128)) in *.
  case_match eqn:C; [|done]. unfold is_cont in C. bool_prop.
  assert (c mod 64 = b3 - 128) as M
    by (symmetry; apply Z.mod_unique with ((b0 - 240) * 4096 + (b1 - 128) * 64 + (b2 - 128)); lia).
  assert (c / 64 = (b0 - 240) * 4096 + (b1 - 128) * 64 + (b2 - 128)) as D
    by (symmetry; apply Z.div_unique with (b3 - 128); lia).
  assert (c / 4096 = (b0 - 240) * 64 + (b1 - 128)) as D'
    by (symmetry; apply Z.div_unique with ((b2 - 128) * 64 + (b3 - 128)); lia).
  assert (c / 262144 = b0 - 240) as D''
    by (symmetry; apply Z.div_unique with ((b1 - 128) * 4096 + (b2 - 128) * 64 + (b3 - 128)); lia).
  assert ((c / 64) mod 64 = b2 - 128) as M'
    by (rewrite D; symmetry; apply Z.mod_unique with ((b0 - 240) * 64 + (b1 - 128)); lia).
  assert ((c / 4096) mod 64 = b1 - 128) as M''
    by (rewrite D'; symmetry; apply Z.mod_unique with (b0 - 240); lia).
  eapply Hrec; [| | | |exact H]; [simpl; lia|done|unfold scalar_ok; lia|].
  unfold encode_utf8. ltb_false c 128. ltb_false c 2048. ltb_false c 65536. rewrite D'', M'', M', M.
  cbn. repeat f_equal; lia.
Qed.

(** A byte below 128 stands for itself. *)
Lemma elem_of_as_bytes_ascii b s : str_ok s → b < 128 → b ∈ as_bytes s ↔ b ∈ s.
Proof.
  intros Hs Hb. induction Hs as [|c s Hc _ IH]; [done|]. rewrite as_bytes_cons, elem_of_app, elem_of_cons, IH.
  assert (b ∈ encode_utf8 c ↔ b = c) as ->; [|done].
  unfold encode_utf8, scalar_ok in *. destruct (Z.ltb_spec c 128); [by rewrite list_elem_of_singleton|].
  split; [|lia].
  pose proof (Z.mod_pos_bound c 64). pose proof (Z.mod_pos_bound (c / 64) 64).
  pose proof (Z.mod_pos_bound (c / 4096) 64).
  assert (0 ≤ c / 64 ∧ 0 ≤ c / 4096 ∧ 0 ≤ c / 262144) by (repeat split; apply Z.div_pos; lia).
  repeat zcase; rewrite !elem_of_cons, elem_of_nil; lia.
Qed.

Lemma as_bytes_lacks d s : str_ok s → d < 128 → lacks d (as_bytes s) ↔ lacks d s.
Proof.
  intros Hs Hd. unfold lacks. rewrite !Forall_forall. split; intros H x Hx ->;
    (eapply H; [by apply (elem_of_as_bytes_ascii d s)|done]).
Qed.

(** ** Trimming *)

Lemma trim_start_idem s : trim_start (trim_start s) = trim_start s.
Proof. induction s as [|c s IH]; [done|]. simpl. destruct (is_whitespace c) eqn:E; [done|]. simpl. by rewrite E. Qed.
Lemma trim_start_suffix s : ∃ ws, s = ws ++ trim_start s ∧ Forall (λ c, is_whitespace c = true) ws.
Proof.
  induction s as [|c s (ws & Hs & Hw)]; [by exists []|]. simpl.
  destruct (is_whitespace c) eqn:E; [|by exists []].
  exists (c :: ws). split; [by rewrite Hs at 1|by constructor].
Qed.
Lemma trim_end_prefix s : ∃ ws, s = trim_end s ++ ws ∧ Forall (λ c, is_whitespace c = true) ws.
Proof.
  destruct (trim_start_suffix (rev s)) as (ws & Hs & Hw). exists (rev ws). unfold trim_end. split.
  - by rewrite <- rev_app_distr, <- Hs, rev_involutive.
  - by apply Forall_rev.
Qed.
Lemma trim_end_idem s : trim_end (trim_end s) = trim_end s.
Proof. unfold trim_end. by rewrite rev_involutive, trim_start_idem. Qed.
Lemma trim_start_end s : trim_start s = s → trim_start (trim_end s) = trim_end s.
Proof.
  intros H. destruct (trim_end_prefix s) as (ws & Hs & _). destruct (trim_end s) as [|c t]; [done|].
  rewrite Hs in H. simpl in *. destruct (is_whitespace c); [|done].
  exfalso. destruct (trim_start_suffix (t ++ ws)) as (us & Ht & _).
  apply (f_equal length) in Ht. rewrite H, !length_app in Ht. simpl in Ht. rewrite length_app in Ht. lia.
Qed.
Lemma trim_idem s : trim (trim s) = trim s.
Proof. unfold trim. rewrite trim_start_end by apply trim_start_idem. apply trim_end_idem. Qed.
Lemma trim_space c s : is_whitespace c = true → trim (c :: s) = trim s.
Proof. intros H. unfold trim. simpl. by rewrite H. Qed.

(** A string that neither begins nor ends with white space. *)
Lemma trim_id c s d t : c :: s = t ++ [d] → is_whitespace c = false → is_whitespace d = false → trim (c :: s) = c :: s.
Proof.
  intros E Hc Hd. unfold trim. rewrite trim_start_id by done. unfold trim_end. rewrite E, rev_app_distr. simpl.
  rewrite Hd. simpl. by rewrite rev_involutive.
Qed.

Lemma trim_parts s : ∃ us vs, s = us ++ trim s ++ vs.
Proof.
  destruct (trim_start_suffix s) as (us & Hs & _). destruct (trim_end_prefix (trim_start s)) as (vs & Ht & _).
  exists us, vs. unfold trim. by rewrite <- Ht.
Qed.
Lemma trim_Forall (P : Z → Prop) s : Forall P s → Forall P (trim s).
Proof.
  destruct (trim_parts s) as (us & vs & E). rewrite E at 1. rewrite !Forall_app. naive_solver.
Qed.
