(* ===== verification/NetPrint.v ===== *)
(** * Printing of network addresses

    [Display] of [Ipv4Addr], [Ipv6Addr] and [IpAddr] in the Rust standard library,
    and that parsing a printed address gives it back. *)

From S2P Require Import Prelude RustStr NetAddr.
Local Open Scope Z_scope.

(** ** Printing *)

Definition print_ipv4 (x : Z) : rstr := join [ch_dot] (to_string <$> ipv4_octets x).

(** [format!("{:x}", n)]. *)
Definition hex_digit (d : Z) : Z := if d <? 10 then 48 + d else 87 + d.
Fixpoint hex_digits (fuel : nat) (n : Z) : rstr :=
  match fuel with
  | O => []
  | S fuel => if n <? 16 then [hex_digit n] else hex_digits fuel (n / 16) ++ [hex_digit (n mod 16)]
  end.
Definition print_hex (n : Z) : rstr := hex_digits 4 n.

(** [segments()]. *)
Definition ipv6_segments (x : Z) : list Z :=
  map (λ i, x / 65536 ^ i mod 65536) [7; 6; 5; 4; 3; 2; 1; 0].

(** The longest run of zero segments, the first one of several. *)
Record span := { sp_start : nat; sp_len : nat }.
Definition zero_span_step (acc : nat * span * span) (segment : Z) : nat * span * span :=
  let '(i, longest, current) := acc in
  if segment =? 0 then
    let current := {| sp_start := if (current.(sp_len) =? 0)%nat then i else current.(sp_start);
                      sp_len := S current.(sp_len) |} in
    (S i, if (longest.(sp_len) <? current.(sp_len))%nat then current else longest, current)
  else (S i, longest, {| sp_start := 0; sp_len := 0 |}).
Definition zero_span (segments : list Z) : span :=
  (fold_left zero_span_step segments (0%nat, {| sp_start := 0; sp_len := 0 |}, {| sp_start := 0; sp_len := 0 |})).1.2.

Definition fmt_subslice (segments : list Z) : rstr := join [ch_colon] (print_hex <$> segments).

Definition print_ipv6 (x : Z) : rstr :=
  if x / 4294967296 =? 65535 then lit "::ffff:" ++ print_ipv4 (x mod 4294967296)
  else
    let segments := ipv6_segments x in
    let longest := zero_span segments in
    if (1 <? longest.(sp_len))%nat then
      fmt_subslice (take longest.(sp_start) segments) ++ lit "::" ++
      fmt_subslice (drop (longest.(sp_start) + longest.(sp_len)) segments)
    else fmt_subslice segments.

Definition print_ip (a : IpAddr) : rstr :=
  match a with V4 x => print_ipv4 x | V6 x => print_ipv6 x end.

Example print_ipv6_ex : print_ipv6 (Ipv6_new 8193 3512 0 0 1 0 0 0) = lit "2001:db8:0:0:1::".
Proof. reflexivity. Qed.
Example print_ipv6_mapped : print_ipv6 (Ipv6_new 0 0 0 0 0 65535 49320 257) = lit "::ffff:192.168.1.1".
Proof. reflexivity. Qed.

(** ** Numbers *)

Definition digit_val (radix c d : Z) : Prop := to_digit radix c = Some d.

(** Reading a run of digits that ends the input or is followed by another character. *)
Definition stops (radix : Z) (rest : rstr) : Prop :=
  match rest with [] => True | c :: _ => to_digit radix c = None end.

Lemma read_digits_run radix k cs ds acc n rest :
  Forall2 (digit_val radix) cs ds → (n + length cs ≤ k)%nat → stops radix rest →
  read_digits radix k acc n (cs ++ rest) =
    Some (fold_left (λ a d, a * radix + d) ds acc, (n + length cs)%nat, rest).
Proof.
  intros H. revert acc n. induction H as [|c d cs ds Hc _ IH]; intros acc n Hk Hs; cbn [app read_digits length fold_left].
  - rewrite Nat.add_0_r. destruct rest as [|c rest]; [done|]. cbn in Hs |- *. by rewrite Hs.
  - unfold digit_val in Hc. rewrite Hc. cbn [length] in Hk.
    rewrite (proj2 (Nat.ltb_ge k (S n))) by lia. rewrite IH by (done || lia). f_equal. f_equal. f_equal. lia.
Qed.

Lemma read_number_run radix k zero max cs ds rest :
  Forall2 (digit_val radix) cs ds → (1 ≤ length cs ≤ k)%nat → stops radix rest →
  (zero = true ∨ starts_with 48 cs = false ∨ length cs = 1%nat) →
  fold_left (λ a d, a * radix + d) ds 0 ≤ max →
  read_number radix k zero max (cs ++ rest) = Some (fold_left (λ a d, a * radix + d) ds 0, rest).
Proof.
  intros Hd Hl Hs Hz Hm. unfold read_number. rewrite (read_digits_run _ _ _ ds) by (done || lia). cbn [mbind option_bind].
  rewrite Nat.add_0_l. rewrite (proj2 (Nat.eqb_neq _ 0)) by lia.
  assert (negb zero && starts_with 48 (cs ++ rest) && (1 <? length cs)%nat = false) as ->.
  { destruct Hz as [->|[Hz| ->]]; [done| |by rewrite andb_false_r].
    destruct cs as [|c cs]; [cbn in Hl; lia|]. cbn in Hz |- *. by rewrite Hz, andb_false_r. }
  by rewrite (proj2 (Z.leb_le _ _) Hm).
Qed.

Lemma hex_digit_val d : 0 ≤ d < 16 → digit_val 16 (hex_digit d) d.
Proof.
  intros H. assert (Hd : d ∈ seqZ 0 16) by (apply elem_of_seqZ; lia). clear H. revert d Hd.
  apply Forall_forall. repeat constructor.
Qed.

Lemma hex_digits_run fuel n :
  (0 < fuel)%nat → 0 ≤ n < 16 ^ Z.of_nat fuel →
  ∃ ds, Forall2 (digit_val 16) (hex_digits fuel n) ds ∧ fold_left (λ a d, a * 16 + d) ds 0 = n ∧
    (1 ≤ length (hex_digits fuel n) ≤ fuel)%nat.
Proof.
  revert n. induction fuel as [|f IH]; intros n Hf Hn; [lia|]. cbn [hex_digits].
  destruct (Z.ltb_spec n 16).
  - exists [n]. split; [constructor; [apply hex_digit_val; lia|constructor]|]. cbn. lia.
  - pose proof (Z.mod_pos_bound n 16 ltac:(lia)). pose proof (Z.div_mod n 16 ltac:(lia)).
    rewrite Nat2Z.inj_succ, Z.pow_succ_r in Hn by lia.
    destruct (IH (n / 16)) as (ds & Hds & Hv & Hl).
    { destruct f; [cbn in Hn; lia|lia]. }
    { split; [apply Z.div_pos; lia|]. apply Z.div_lt_upper_bound; lia. }
    exists (ds ++ [n mod 16]). split_and!.
    + apply Forall2_app; [done|]. constructor; [by apply hex_digit_val|constructor].
    + rewrite fold_left_app, Hv. cbn. lia.
    + rewrite length_app. cbn. lia.
    + rewrite length_app. cbn. lia.
Qed.

Lemma read_print_hex g rest :
  0 ≤ g ≤ U16_MAX → stops 16 rest → read_number 16 4 true U16_MAX (print_hex g ++ rest) = Some (g, rest).
Proof.
  intros Hg Hs. destruct (hex_digits_run 4 g) as (ds & Hds & Hv & Hl); [lia|cbn; lia|].
  rewrite (read_number_run _ _ _ _ _ ds); rewrite ?Hv; auto. lia.
Qed.

(** What the printed octets are, by enumeration. *)
Definition octet_text_ok (n : Z) : bool :=
  match mapM (to_digit 10) (to_string n) with
  | Some ds => (1 <=? length ds)%nat && (length ds <=? 3)%nat &&
      (negb (starts_with 48 (to_string n)) || (length ds =? 1)%nat) &&
      (fold_left (λ a d, a * 10 + d) ds 0 =? n)
  | None => false
  end.
Lemma octet_text n : 0 ≤ n ≤ 255 → octet_text_ok n = true.
Proof.
  intros H. assert (Hn : n ∈ seqZ 0 256) by (apply elem_of_seqZ; lia).
  assert (Hall : forallb octet_text_ok (seqZ 0 256) = true) by (vm_compute; reflexivity).
  rewrite forallb_forall in Hall. by apply Hall, list_elem_of_In.
Qed.

Lemma read_print_octet n rest :
  0 ≤ n ≤ 255 → stops 10 rest → read_number 10 3 false U8_MAX (to_string n ++ rest) = Some (n, rest).
Proof.
  intros Hn Hs. pose proof (octet_text n Hn) as Ht. unfold octet_text_ok in Ht.
  destruct (mapM _ _) as [ds|] eqn:Em; [|done]. apply mapM_Some in Em. pose proof (Forall2_length _ _ _ Em) as Hl.
  apply andb_true_iff in Ht as [[[H1 H2]%andb_true_iff H3]%andb_true_iff H4]. apply Nat.leb_le in H1, H2.
  apply Z.eqb_eq in H4. rewrite (read_number_run _ _ _ _ _ ds); rewrite ?H4; auto; try lia.
  apply orb_true_iff in H3 as [H3|H3]; [right; left; by apply negb_true_iff|].
  right. right. rewrite Hl. by apply Nat.eqb_eq.
Qed.

Lemma read_this_char c s : read_given_char c (c :: s) = Some (tt, s).
Proof. unfold read_given_char. by rewrite Z.eqb_refl. Qed.

(** ** IPv4 *)

Lemma ipv4_octets_four x : 0 ≤ x ≤ U32_MAX →
  ∃ a b c d, ipv4_octets x = [a; b; c; d] ∧ Ipv4_new a b c d = x ∧
    0 ≤ a ≤ 255 ∧ 0 ≤ b ≤ 255 ∧ 0 ≤ c ≤ 255 ∧ 0 ≤ d ≤ 255.
Proof.
  intros Hx. pose proof (from_to_be_bytes 4 x ltac:(cbn; lia)) as Hv. pose proof (to_be_bytes_ok 4 x) as Hb.
  unfold ipv4_octets. pose proof (length_to_be_bytes 4 x) as Hl.
  destruct (to_be_bytes 4 x) as [|a [|b [|c [|d [|]]]]]; try done. exists a, b, c, d.
  split; [done|]. split; [done|]. unfold bytes_ok in Hb. rewrite !Forall_cons in Hb. unfold byte_ok in Hb. lia.
Qed.

Lemma read_print_ipv4 x rest :
  0 ≤ x ≤ U32_MAX → stops 10 rest → read_ipv4_addr (print_ipv4 x ++ rest) = Some (x, rest).
Proof.
  intros Hx Hs. destruct (ipv4_octets_four x Hx) as (a & b & c & d & Eo & Ev & Ha & Hb & Hc & Hd).
  unfold print_ipv4. rewrite Eo. cbn [fmap list_fmap join]. rewrite <- !app_assoc. cbn [app].
  unfold read_ipv4_addr, read_separator. cbn [Nat.ltb Nat.leb].
  assert (Hstop : ∀ t, stops 10 (ch_dot :: t)) by done.
  rewrite read_print_octet by auto. cbn [mbind option_bind]. rewrite read_this_char. cbn [mbind option_bind].
  rewrite read_print_octet by auto. cbn [mbind option_bind]. rewrite read_this_char. cbn [mbind option_bind].
  rewrite read_print_octet by auto. cbn [mbind option_bind]. rewrite read_this_char. cbn [mbind option_bind].
  rewrite read_print_octet by auto. cbn [mbind option_bind]. by rewrite Ev.
Qed.

(** ** IPv6 *)

Lemma read_digits_suffix radix k acc n s r c rest :
  read_digits radix k acc n s = Some (r, c, rest) → ∃ p, s = p ++ rest.
Proof.
  revert acc n. induction s as [|d s IH]; intros acc n; cbn; [intros [= _ _ <-]; by exists []|].
  destruct (to_digit radix d); [|intros [= _ _ <-]; by exists []].
  destruct (k <=? n)%nat; [done|]. intros (p & ->)%IH. by exists (d :: p).
Qed.

(** Without a dot there is no IPv4 address. *)
Lemma no_dot_no_ipv4 s : lacks ch_dot s → read_ipv4_addr s = None.
Proof.
  intros Hs. unfold read_ipv4_addr, read_separator. cbn [Nat.ltb Nat.leb].
  destruct (read_number 10 3 false U8_MAX s) as [[a rest]|] eqn:Er; [|done]. cbn [mbind option_bind].
  assert (Hrest : lacks ch_dot rest).
  { unfold read_number in Er. destruct (read_digits 10 3 0 0 s) as [[[r c] rest']|] eqn:Ed; [|done].
    assert (rest' = rest) as -> by (cbn in Er; repeat case_match; by simplify_eq).
    apply read_digits_suffix in Ed as [p ->]. by apply Forall_app in Hs as [_ ?]. }
  destruct rest as [|c rest]; [done|]. inversion Hrest; subst. cbn. by rewrite (proj2 (Z.eqb_neq c ch_dot)).
Qed.

Definition segment_ok (g : Z) : Prop := 0 ≤ g ≤ U16_MAX.

Lemma print_hex_lacks_dot g : segment_ok g → lacks ch_dot (print_hex g).
Proof.
  intros Hg. destruct (hex_digits_run 4 g) as (ds & Hds & _); [lia|unfold segment_ok in Hg; cbn; lia|].
  unfold print_hex. induction Hds as [|c d cs ds Hc _ IH]; constructor; [|done]. by intros ->.
Qed.

Lemma fmt_subslice_cons g gs :
  fmt_subslice (g :: gs) = print_hex g ++ match gs with [] => [] | _ => ch_colon :: fmt_subslice gs end.
Proof. unfold fmt_subslice. destruct gs; cbn; [by rewrite app_nil_r|done]. Qed.

Lemma fmt_subslice_lacks_dot gs : Forall segment_ok gs → lacks ch_dot (fmt_subslice gs).
Proof.
  induction 1 as [|g gs Hg Hgs IH]; [constructor|]. rewrite fmt_subslice_cons. apply Forall_app.
  split; [by apply print_hex_lacks_dot|]. destruct gs; [constructor|]. by constructor.
Qed.

(** The text of the groups from index [i] on. *)
Definition groups_text (i : nat) (gs : list Z) (rest : rstr) : rstr :=
  match gs with [] => rest | _ => (if (0 <? i)%nat then [ch_colon] else []) ++ fmt_subslice gs ++ rest end.

(** After the groups nothing reads as another one. *)
Definition groups_end (rest : rstr) : Prop := rest = [] ∨ ∃ t, rest = ch_colon :: ch_colon :: t.

Lemma groups_end_stops rest : groups_end rest → stops 16 rest.
Proof. by intros [->|[t ->]]. Qed.

Lemma groups_end_none i rest :
  groups_end rest → read_separator ch_colon i (read_number 16 4 true U16_MAX) rest = None.
Proof. intros [->|[t ->]]; unfold read_separator; by destruct (0 <? i)%nat. Qed.

Lemma groups_text_lacks i gs rest :
  Forall segment_ok gs → lacks ch_dot rest → lacks ch_dot (groups_text i gs rest).
Proof.
  intros Hgs Hr. unfold groups_text. destruct gs as [|g gs]; [done|]. unfold lacks in *. rewrite !Forall_app.
  split_and!; [|by apply fmt_subslice_lacks_dot|done]. destruct (0 <? i)%nat; by repeat constructor.
Qed.

Lemma no_ipv4_group i s : lacks ch_dot s → read_separator ch_colon i read_ipv4_addr s = None.
Proof.
  intros Hs. unfold read_separator. destruct (0 <? i)%nat; [|by apply no_dot_no_ipv4].
  destruct s as [|c s]; [done|]. cbn. destruct (c =? ch_colon); [|done]. cbn.
  inversion Hs; subst. by apply no_dot_no_ipv4.
Qed.

Lemma read_groups_print n i limit gs rest :
  Forall segment_ok gs → (length gs ≤ n)%nat → lacks ch_dot rest → groups_end rest →
  read_groups n i limit (groups_text i gs rest) = (gs, false, rest).
Proof.
  intros Hgs. revert n i. induction Hgs as [|g gs Hg Hgs IH]; intros n i Hn Hr He.
  - cbn [groups_text]. destruct n as [|n]; [done|]. cbn [read_groups].
    rewrite no_ipv4_group by done. rewrite groups_end_none by done. by destruct (i <? limit - 1)%nat.
  - destruct n as [|n]; [cbn in Hn; lia|]. cbn [length] in Hn. cbn [read_groups].
    rewrite no_ipv4_group by (apply groups_text_lacks; [by constructor|done]).
    assert (Hnext : read_separator ch_colon i (read_number 16 4 true U16_MAX) (groups_text i (g :: gs) rest) =
                    Some (g, groups_text (S i) gs rest)).
    { unfold groups_text. rewrite fmt_subslice_cons, <- app_assoc.
      assert (Hread : read_number 16 4 true U16_MAX
                (print_hex g ++ (match gs with [] => [] | _ => ch_colon :: fmt_subslice gs end) ++ rest) =
              Some (g, match gs with [] => rest | _ => [ch_colon] ++ fmt_subslice gs ++ rest end)).
      { destruct gs; cbn [app]; rewrite read_print_hex; try done. by apply groups_end_stops. }
      unfold read_separator. destruct (0 <? i)%nat; cbn [app]; [|exact Hread]. cbn. exact Hread. }
    rewrite Hnext, IH by (done || lia). by destruct (i <? limit - 1)%nat.
Qed.

(** *** The run of zeros *)

Definition zero_run (sp : span) (l : list Z) : Prop :=
  (sp.(sp_start) + sp.(sp_len) ≤ length l)%nat ∧
  ∀ j, (sp.(sp_start) ≤ j < sp.(sp_start) + sp.(sp_len))%nat → l !! j = Some 0.

Lemma zero_run_app sp l l' : zero_run sp l → zero_run sp (l ++ l').
Proof.
  intros [Hl Hz]. split; [rewrite length_app; lia|]. intros j Hj. rewrite lookup_app_l by lia. auto.
Qed.

Lemma zero_span_fold l done longest current :
  zero_run longest done → zero_run current done →
  (current.(sp_len) = 0%nat ∨ (current.(sp_start) + current.(sp_len) = length done)%nat) →
  zero_run (fold_left zero_span_step l (length done, longest, current)).1.2 (done ++ l).
Proof.
  revert done longest current. induction l as [|x l IH]; intros d longest current Hl Hc Hend; cbn [fold_left].
  { by rewrite app_nil_r. }
  assert (Hlen : S (length d) = length (d ++ [x])) by (rewrite length_app; cbn; lia).
  replace (d ++ x :: l) with ((d ++ [x]) ++ l) by by rewrite <- app_assoc.
  cbn [zero_span_step]. destruct (Z.eqb_spec x 0) as [->|Hx]; rewrite Hlen.
  - set (cur := {| sp_start := _; sp_len := _ |}).
    assert (Hcur : zero_run cur (d ++ [0]) ∧ (cur.(sp_start) + cur.(sp_len) = length (d ++ [0%Z]))%nat).
    { destruct Hc as [Hcl Hcz]. subst cur. unfold zero_run. cbn [sp_start sp_len]. rewrite <- Hlen.
      destruct (Nat.eqb_spec current.(sp_len) 0) as [E|E].
      - rewrite E. split; [|lia]. split; [lia|]. intros j Hj. assert (j = length d) as -> by lia.
        by rewrite lookup_app_r, Nat.sub_diag by lia.
      - split; [|lia]. split; [lia|]. intros j Hj. destruct (decide (j = length d)) as [->|].
        + by rewrite lookup_app_r, Nat.sub_diag by lia.
        + rewrite lookup_app_l by lia. apply Hcz. lia. }
    destruct Hcur as [Hcur Hce]. apply IH; [|done|by right].
    destruct (_ <? _)%nat; [done|by apply zero_run_app].
  - apply IH; [by apply zero_run_app| |by left]. split; [cbn; lia|]. intros j Hj. cbn in Hj. lia.
Qed.

Lemma zero_span_run l : zero_run (zero_span l) l.
Proof.
  unfold zero_span. apply (zero_span_fold l []); [| |by left]; (split; [done|]); intros j Hj; cbn in Hj; lia.
Qed.

Lemma zero_run_split sp l :
  zero_run sp l →
  l = take sp.(sp_start) l ++ replicate sp.(sp_len) 0 ++ drop (sp.(sp_start) + sp.(sp_len)) l.
Proof.
  intros [Hl Hz]. rewrite <- (take_drop sp.(sp_start) l) at 1. f_equal.
  rewrite <- (take_drop sp.(sp_len) (drop sp.(sp_start) l)) at 1. rewrite drop_drop. f_equal.
  apply list_eq_same_length with sp.(sp_len); [by rewrite length_replicate|rewrite length_take, length_drop; lia|].
  intros j x y Hj Hx Hy. rewrite lookup_take_lt, lookup_drop, Hz in Hx by lia.
  rewrite lookup_replicate_2 in Hy by lia. congruence.
Qed.

(** *** Round trip *)

Lemma ipv6_segments_ok x : Forall segment_ok (ipv6_segments x).
Proof.
  unfold ipv6_segments. apply Forall_forall. intros g Hg. apply list_elem_of_In, in_map_iff in Hg as (i & <- & _).
  pose proof (Z.mod_pos_bound (x / 65536 ^ i) 65536 ltac:(lia)). unfold segment_ok. lia.
Qed.

Lemma groups_value_segments x : 0 ≤ x ≤ U128_MAX → groups_value (ipv6_segments x) = x.
Proof.
  intros Hx. unfold groups_value, ipv6_segments. cbn [map fold_left].
  assert (Hdiv : ∀ i, 0 ≤ i → x / 65536 ^ (i + 1) = x / 65536 ^ i / 65536).
  { intros i Hi. rewrite Z.pow_add_r, Z.pow_1_r, Z.div_div by lia. done. }
  assert (Hstep : ∀ i j, j = i + 1 → 0 ≤ i → x / 65536 ^ j * 65536 + x / 65536 ^ i mod 65536 = x / 65536 ^ i).
  { intros i j -> Hi. rewrite Hdiv by done. pose proof (Z.div_mod (x / 65536 ^ i) 65536 ltac:(lia)). lia. }
  assert (H7 : 0 * 65536 + x / 65536 ^ 7 mod 65536 = x / 65536 ^ 7).
  { rewrite Z.mod_small; [lia|]. split; [apply Z.div_pos; lia|]. apply Z.div_lt_upper_bound; lia. }
  rewrite H7. rewrite (Hstep 6 7), (Hstep 5 6), (Hstep 4 5), (Hstep 3 4), (Hstep 2 3), (Hstep 1 2), (Hstep 0 1) by lia.
  by rewrite Z.pow_0_r, Z.div_1_r.
Qed.

Lemma groups_end_nil : groups_end []. Proof. by left. Qed.

(** The two ways in which groups alone make an address. *)
Lemma read_full_groups gs :
  Forall segment_ok gs → length gs = 8%nat → read_ipv6_addr (fmt_subslice gs) = Some (groups_value gs, []).
Proof.
  intros Hgs Hl. unfold read_ipv6_addr.
  pose proof (read_groups_print 8 0 8 gs [] Hgs ltac:(lia) (Forall_nil_2 _) groups_end_nil) as H.
  unfold groups_text in H. destruct gs as [|g gs]; [done|]. cbn [Nat.ltb Nat.leb app] in H.
  rewrite app_nil_r in H. rewrite H, Hl. done.
Qed.

Lemma read_compressed_groups hd tl :
  Forall segment_ok hd → Forall segment_ok tl → (length hd + length tl ≤ 6)%nat →
  read_ipv6_addr (fmt_subslice hd ++ lit "::" ++ fmt_subslice tl) =
    Some (groups_value (hd ++ replicate (8 - length hd - length tl) 0 ++ tl), []).
Proof.
  intros Hh Ht Hl. unfold read_ipv6_addr.
  assert (Hend : groups_end (lit "::" ++ fmt_subslice tl)) by (right; by exists (fmt_subslice tl)).
  assert (Hdot : lacks ch_dot (lit "::" ++ fmt_subslice tl)).
  { apply Forall_app. split; [by repeat constructor|by apply fmt_subslice_lacks_dot]. }
  assert (Ehead : read_groups 8 0 8 (fmt_subslice hd ++ lit "::" ++ fmt_subslice tl) =
                  (hd, false, lit "::" ++ fmt_subslice tl)).
  { pose proof (read_groups_print 8 0 8 hd _ Hh ltac:(lia) Hdot Hend) as H.
    unfold groups_text in H. by destruct hd. }
  rewrite Ehead. cbv beta iota. rewrite (proj2 (Nat.eqb_neq (length hd) 8)) by lia.
  change (lit "::" ++ fmt_subslice tl) with (ch_colon :: ch_colon :: fmt_subslice tl).
  rewrite read_this_char. cbn [mbind option_bind]. rewrite read_this_char. cbn [mbind option_bind].
  assert (Etail : ∀ limit, (length tl ≤ limit)%nat → read_groups limit 0 limit (fmt_subslice tl) = (tl, false, [])).
  { intros limit Hle. pose proof (read_groups_print limit 0 limit tl [] Ht Hle (Forall_nil_2 _) groups_end_nil) as H.
    unfold groups_text in H. destruct tl; [done|]. cbn [Nat.ltb Nat.leb app] in H. by rewrite app_nil_r in H. }
  rewrite Etail by lia. done.
Qed.

(** An IPv4-mapped address. *)
Lemma read_mapped x :
  0 ≤ x ≤ U32_MAX →
  read_ipv6_addr (lit "::ffff:" ++ print_ipv4 x) = Some (65535 * 4294967296 + x, []).
Proof.
  intros Hx. set (s := print_ipv4 x).
  assert (Hipv4 : read_ipv4_addr s = Some (x, [])).
  { rewrite <- (app_nil_r s). by apply read_print_ipv4. }
  change (lit "::ffff:" ++ s) with (ch_colon :: ch_colon :: lit "ffff:" ++ s).
  assert (Ehead : read_groups 8 0 8 (ch_colon :: ch_colon :: lit "ffff:" ++ s) =
                  ([], false, ch_colon :: ch_colon :: lit "ffff:" ++ s)) by done.
  assert (Etail : read_groups 7 0 7 (lit "ffff:" ++ s) = ([65535; x / 65536; x mod 65536], true, [])).
  { cbn [read_groups]. change (read_separator ch_colon 0 read_ipv4_addr (lit "ffff:" ++ s)) with (None (A := Z * rstr)).
    change (read_separator ch_colon 0 (read_number 16 4 true U16_MAX) (lit "ffff:" ++ s)) with
      (Some (65535, ch_colon :: s)). cbn [Nat.ltb Nat.leb Nat.sub].
    change (read_separator ch_colon 1 read_ipv4_addr (ch_colon :: s)) with (read_ipv4_addr s). by rewrite Hipv4. }
  unfold read_ipv6_addr. rewrite Ehead. cbn [length Nat.eqb Nat.add Nat.sub].
  rewrite read_this_char. cbn [mbind option_bind]. rewrite read_this_char. cbn [mbind option_bind].
  rewrite Etail. cbn. f_equal. f_equal. pose proof (Z.div_mod x 65536 ltac:(lia)). lia.
Qed.

Lemma read_print_ipv6 x : 0 ≤ x ≤ U128_MAX → read_ipv6_addr (print_ipv6 x) = Some (x, []).
Proof.
  intros Hx. unfold print_ipv6. destruct (Z.eqb_spec (x / 4294967296) 65535) as [Em|_].
  - pose proof (Z.mod_pos_bound x 4294967296 ltac:(lia)). rewrite read_mapped by lia.
    f_equal. f_equal. pose proof (Z.div_mod x 4294967296 ltac:(lia)). lia.
  - pose proof (ipv6_segments_ok x) as Hok. pose proof (groups_value_segments x Hx) as Hv.
    assert (Hl : length (ipv6_segments x) = 8%nat) by done. set (gs := ipv6_segments x) in *.
    pose proof (zero_span_run gs) as Hz. set (sp := zero_span gs) in *.
    destruct (Nat.ltb_spec 1 sp.(sp_len)).
    + pose proof (zero_run_split sp gs Hz) as Hsplit. destruct Hz as [Hz _].
      assert (Hlt : length (take sp.(sp_start) gs) = sp.(sp_start)) by (rewrite length_take; lia).
      rewrite read_compressed_groups; [|by apply Forall_take|by apply Forall_drop|rewrite Hlt, length_drop; lia].
      rewrite Hlt, length_drop. replace (8 - _ - _)%nat with sp.(sp_len) by lia. by rewrite <- Hsplit, Hv.
    + by rewrite read_full_groups, Hv.
Qed.

Lemma print_ipv6_no_ipv4 x : 0 ≤ x ≤ U128_MAX → read_ipv4_addr (print_ipv6 x) = None.
Proof.
  intros Hx. unfold print_ipv6. destruct (_ =? 65535); [done|].
  pose proof (ipv6_segments_ok x) as Hok. apply no_dot_no_ipv4.
  destruct (1 <? _)%nat; [|by apply fmt_subslice_lacks_dot]. unfold lacks. rewrite !Forall_app. split_and!.
  - by apply fmt_subslice_lacks_dot, Forall_take.
  - by repeat constructor.
  - by apply fmt_subslice_lacks_dot, Forall_drop.
Qed.

(** Parsing a printed address gives it back. *)
Lemma parse_print_ip a : ip_ok a → parse_ip (print_ip a) = Some a.
Proof.
  unfold parse_ip, parse_with. destruct a as [x|x]; cbn [ip_ok print_ip]; intros Hx.
  - rewrite <- (app_nil_r (print_ipv4 x)). by rewrite read_print_ipv4.
  - by rewrite print_ipv6_no_ipv4, read_print_ipv6.
Qed.

(** ** Parsed addresses are in range *)

Lemma to_digit_nonneg radix c v : to_digit radix c = Some v → 0 ≤ v.
Proof.
  unfold to_digit. destruct (is_ascii_digit c) eqn:E1; [|destruct (is_ascii_lower c) eqn:E2;
    [|destruct (is_ascii_upper c) eqn:E3; [|done]]]; cbn; destruct (_ <? _); intros [= <-];
    unfold is_ascii_digit, is_ascii_lower, is_ascii_upper in *; bool_prop; lia.
Qed.

Lemma read_digits_nonneg radix k acc n s r c rest :
  0 ≤ radix → 0 ≤ acc → read_digits radix k acc n s = Some (r, c, rest) → 0 ≤ r.
Proof.
  intros Hr. revert acc n. induction s as [|d s IH]; intros acc n Ha; cbn; [by intros [= <- _ _]|].
  destruct (to_digit radix d) as [v|] eqn:Ed; [|by intros [= <- _ _]].
  destruct (k <=? n)%nat; [done|]. apply IH. enough (0 ≤ v) by nia.
  by eapply to_digit_nonneg.
Qed.

Lemma read_number_bound radix k zero max s r rest :
  0 ≤ radix → read_number radix k zero max s = Some (r, rest) → 0 ≤ r ≤ max.
Proof.
  intros Hr. unfold read_number. destruct (read_digits radix k 0 0 s) as [[[v c] t]|] eqn:E; [|done].
  cbn. intros H. apply read_digits_nonneg in E; [|done..]. repeat case_match; simplify_eq; bool_prop; lia.
Qed.

Lemma read_separator_bound {A} (P : A → Prop) sep i (inner : rstr → option (A * rstr)) s a rest :
  (∀ s a rest, inner s = Some (a, rest) → P a) → read_separator sep i inner s = Some (a, rest) → P a.
Proof.
  intros Hi. unfold read_separator. destruct (0 <? i)%nat; [|apply Hi].
  destruct (read_given_char sep s) as [[u t]|]; [|done]. apply Hi.
Qed.

Lemma read_octet_bound i s a rest :
  read_separator ch_dot i (read_number 10 3 false U8_MAX) s = Some (a, rest) → 0 ≤ a ≤ 255.
Proof. apply (read_separator_bound (λ a, 0 ≤ a ≤ 255)). intros ? ? ?. by apply read_number_bound. Qed.

Lemma read_ipv4_bound s x rest : read_ipv4_addr s = Some (x, rest) → 0 ≤ x ≤ U32_MAX.
Proof.
  unfold read_ipv4_addr.
  destruct (read_separator _ 0 _ s) as [[a s1]|] eqn:E1; [|done]. cbn [mbind option_bind].
  destruct (read_separator _ 1 _ s1) as [[b s2]|] eqn:E2; [|done]. cbn [mbind option_bind].
  destruct (read_separator _ 2 _ s2) as [[c s3]|] eqn:E3; [|done]. cbn [mbind option_bind].
  destruct (read_separator _ 3 _ s3) as [[d s4]|] eqn:E4; [|done]. cbn [mbind option_bind]. intros [= <- _].
  apply read_octet_bound in E1, E2, E3, E4. unfold Ipv4_new, from_be_bytes. cbn. lia.
Qed.

Lemma read_groups_ok n i limit s gs v4 rest :
  read_groups n i limit s = (gs, v4, rest) → Forall segment_ok gs.
Proof.
  revert i s gs v4 rest. induction n as [|n IH]; intros i s gs v4 rest; cbn [read_groups]; [intros [= <- _ _]; constructor|].
  destruct (if (i <? limit - 1)%nat then _ else _) as [[x r]|] eqn:E4.
  - intros [= <- _ _]. assert (Hx : 0 ≤ x ≤ U32_MAX).
    { destruct (i <? limit - 1)%nat; [|done]. revert E4. apply (read_separator_bound (λ x, 0 ≤ x ≤ U32_MAX)). apply read_ipv4_bound. }
    pose proof (Z.mod_pos_bound x 65536 ltac:(lia)).
    assert (0 ≤ x / 65536 ≤ 65535) by (split; [apply Z.div_pos; lia|]; pose proof (Z.div_mod x 65536 ltac:(lia)); lia).
    repeat constructor; unfold segment_ok; lia.
  - clear E4. destruct (read_separator _ _ _ _) as [[g r]|] eqn:Eg; [|intros [= <- _ _]; constructor].
    destruct (read_groups n (S i) limit r) as [[gs' v4'] r'] eqn:Er. intros [= <- _ _].
    constructor; [|by eapply IH]. revert Eg. apply (read_separator_bound segment_ok). intros ? ? ?. by apply read_number_bound.
Qed.

Lemma groups_value_acc gs acc :
  Forall segment_ok gs → 0 ≤ acc →
  0 ≤ fold_left (λ acc s, acc * 65536 + s) gs acc < (acc + 1) * 65536 ^ len gs.
Proof.
  intros Hgs. revert acc. induction Hgs as [|g gs Hg _ IH]; intros acc Ha; cbn [fold_left]; [change (65536 ^ len (@nil Z)) with 1; lia|].
  unfold segment_ok in Hg. specialize (IH (acc * 65536 + g) ltac:(lia)). rewrite len_cons.
  pose proof (len_nonneg gs). rewrite Z.pow_add_r, Z.pow_1_r by lia.
  assert (0 < 65536 ^ len gs) by (apply Z.pow_pos_nonneg; lia). nia.
Qed.

Lemma groups_value_bound gs : Forall segment_ok gs → length gs = 8%nat → 0 ≤ groups_value gs ≤ U128_MAX.
Proof.
  intros Hgs Hl. pose proof (groups_value_acc gs 0 Hgs ltac:(lia)) as H. unfold len in H. rewrite Hl in H.
  cbn in H. unfold groups_value. lia.
Qed.

Lemma read_groups_length n i limit s gs v4 rest :
  limit = (i + n)%nat → read_groups n i limit s = (gs, v4, rest) → (length gs ≤ n)%nat.
Proof.
  revert i s gs v4 rest. induction n as [|n IH]; intros i s gs v4 rest Hl; cbn [read_groups]; [by intros [= <- _ _]|].
  destruct (if (i <? limit - 1)%nat then _ else _) as [[x r]|] eqn:E4.
  - intros [= <- _ _]. destruct (Nat.ltb_spec i (limit - 1)); [|done]. cbn. lia.
  - clear E4. destruct (read_separator _ _ _ _) as [[g r]|]; [|intros [= <- _ _]; cbn; lia].
    destruct (read_groups n (S i) limit r) as [[gs' v4'] r'] eqn:Er. intros [= <- _ _].
    apply IH in Er; [cbn; lia|lia].
Qed.

Lemma read_ipv6_bound s x rest : read_ipv6_addr s = Some (x, rest) → 0 ≤ x ≤ U128_MAX.
Proof.
  unfold read_ipv6_addr. destruct (read_groups 8 0 8 s) as [[hd hv4] s1] eqn:Eh.
  pose proof (read_groups_ok _ _ _ _ _ _ _ Eh) as Hh. pose proof (read_groups_length _ _ _ _ _ _ _ eq_refl Eh) as Hlh.
  destruct (Nat.eqb_spec (length hd) 8) as [E8|N8]; [intros [= <- _]; by apply groups_value_bound|].
  destruct hv4; [done|]. destruct (read_given_char ch_colon s1) as [[u s2]|]; [|done]. cbn [mbind option_bind].
  destruct (read_given_char ch_colon s2) as [[u' s3]|]; [|done]. cbn [mbind option_bind].
  destruct (read_groups _ 0 _ s3) as [[tl tv4] s4] eqn:Et. intros [= <- _].
  pose proof (read_groups_ok _ _ _ _ _ _ _ Et) as Ht. pose proof (read_groups_length _ _ _ _ _ _ _ eq_refl Et) as Hlt.
  apply groups_value_bound.
  - rewrite !Forall_app. split_and!; [done| |done]. apply Forall_replicate. done.
  - rewrite !length_app, length_replicate. lia.
Qed.

Lemma parse_ip_ok s a : parse_ip s = Some a → ip_ok a.
Proof.
  unfold parse_ip, parse_with. destruct (read_ipv4_addr s) as [[x r]|] eqn:E4.
  - destruct r; [|done]. intros [= <-]. by eapply read_ipv4_bound.
  - destruct (read_ipv6_addr s) as [[x r]|] eqn:E6; [|done]. cbn. destruct r; [|done].
    intros [= <-]. by eapply read_ipv6_bound.
Qed.

(** ** Addresses are printable ASCII *)

Definition plain (c : Z) : Prop := 33 ≤ c ≤ 126.
(** A reader that takes printable characters only. *)
Definition takes_plain {A} (r : rstr → option (A * rstr)) : Prop :=
  ∀ s a rest, r s = Some (a, rest) → ∃ pre, s = pre ++ rest ∧ Forall plain pre.

Lemma takes_plain_bind {A B} (r : rstr → option (A * rstr)) (k : A → rstr → option (B * rstr)) :
  takes_plain r → (∀ a, takes_plain (k a)) → takes_plain (λ s, '(a, s) ← r s; k a s).
Proof.
  intros Hr Hk s b rest H. destruct (r s) as [[a s']|] eqn:E; [|done]. cbn in H.
  apply Hr in E as (pre & -> & Hpre). apply Hk in H as (pre' & -> & Hpre').
  exists (pre ++ pre'). rewrite <- app_assoc. split; [done|]. by apply Forall_app.
Qed.
Lemma takes_plain_ret {A} (a : A) : takes_plain (λ s, Some (a, s)).
Proof. intros s b rest [= _ <-]. by exists []. Qed.

Lemma to_digit_plain radix c d : to_digit radix c = Some d → plain c.
Proof.
  unfold to_digit, plain, is_ascii_digit, is_ascii_lower, is_ascii_upper.
  repeat (case_match; bool_prop; [intros _; lia|]). done.
Qed.
Lemma read_digits_plain radix k acc n s r c rest :
  read_digits radix k acc n s = Some (r, c, rest) → ∃ pre, s = pre ++ rest ∧ Forall plain pre.
Proof.
  revert acc n. induction s as [|x s IH]; intros acc n H; cbn [read_digits] in H; [simplify_eq; by exists []|].
  destruct (to_digit radix x) as [d|] eqn:E; [|simplify_eq; by exists []].
  case_match; [done|]. apply IH in H as (pre & -> & Hpre). exists (x :: pre). split; [done|].
  constructor; [by eapply to_digit_plain|done].
Qed.
Lemma read_number_plain radix k zero max : takes_plain (read_number radix k zero max).
Proof.
  intros s a rest H. unfold read_number in H. destruct (read_digits radix k 0 0 s) as [[[r c] t]|] eqn:E; [|done].
  cbn in H. repeat (case_match; [done|]). case_match; [|done]. simplify_eq. by eapply read_digits_plain.
Qed.
Lemma read_given_char_plain c : plain c → takes_plain (read_given_char c).
Proof.
  intros Hc [|d s] a rest H; [done|]. cbn in H. destruct (Z.eqb_spec d c); [|done]. simplify_eq.
  exists [c]. by split; [|constructor].
Qed.
Lemma read_separator_plain {A} sep i (inner : rstr → option (A * rstr)) :
  plain sep → takes_plain inner → takes_plain (read_separator sep i inner).
Proof.
  intros Hs Hi. unfold read_separator. destruct (0 <? i)%nat; [|done].
  apply (takes_plain_bind (read_given_char sep) (λ _, inner)); [by apply read_given_char_plain|done].
Qed.
Lemma read_ipv4_plain : takes_plain read_ipv4_addr.
Proof.
  unfold read_ipv4_addr. repeat (apply (takes_plain_bind (read_separator _ _ _));
    [apply read_separator_plain; [unfold plain; lia|apply read_number_plain]|intros ?]).
  apply takes_plain_ret.
Qed.
Lemma read_groups_plain n i limit s gs v4 rest :
  read_groups n i limit s = (gs, v4, rest) → ∃ pre, s = pre ++ rest ∧ Forall plain pre.
Proof.
  revert i s gs v4 rest. induction n as [|n IH]; intros i s gs v4 rest H; cbn [read_groups] in H.
  { simplify_eq. by exists []. }
  destruct (if (i <? limit - 1)%nat then _ else _) as [[x t]|] eqn:E4.
  { simplify_eq. destruct (i <? limit - 1)%nat; [|done]. revert E4.
    apply read_separator_plain; [unfold plain; lia|apply read_ipv4_plain]. }
  destruct (read_separator ch_colon i (read_number 16 4 true U16_MAX) s) as [[g t]|] eqn:En; [|simplify_eq; by exists []].
  destruct (read_groups n (S i) limit t) as [[gs' v4'] t'] eqn:Er. simplify_eq.
  apply IH in Er as (pre' & -> & Hpre').
  apply read_separator_plain in En as (pre & -> & Hpre); [|unfold plain; lia|apply read_number_plain].
  exists (pre ++ pre'). rewrite <- app_assoc. split; [done|]. by apply Forall_app.
Qed.
Lemma read_ipv6_plain : takes_plain read_ipv6_addr.
Proof.
  intros s a rest H. unfold read_ipv6_addr in H. destruct (read_groups 8 0 8 s) as [[hd v4] s1] eqn:Eh.
  apply read_groups_plain in Eh as (pre & -> & Hpre).
  destruct (length hd =? 8)%nat; [simplify_eq; by exists pre|]. destruct v4; [done|].
  destruct (read_given_char ch_colon s1) as [[u s2]|] eqn:E1; [|done]. cbn in H.
  destruct (read_given_char ch_colon s2) as [[u' s3]|] eqn:E2; [|done]. cbn in H.
  destruct (read_groups _ 0 _ s3) as [[tl tv4] s4] eqn:Et. simplify_eq.
  apply read_groups_plain in Et as (pre' & -> & Hpre').
  apply read_given_char_plain in E2 as (p2 & -> & H2); [|unfold plain; lia].
  apply read_given_char_plain in E1 as (p1 & -> & H1); [|unfold plain; lia].
  exists (pre ++ p1 ++ p2 ++ pre'). rewrite <- !app_assoc. split; [done|]. rewrite !Forall_app. done.
Qed.

Lemma parse_ipv6_plain s x : parse_ipv6 s = Some x → Forall plain s.
Proof.
  unfold parse_ipv6, parse_with. destruct (read_ipv6_addr s) as [[y r]|] eqn:E; [|done].
  destruct r; [|done]. intros _. apply read_ipv6_plain in E as (pre & -> & H). by rewrite app_nil_r.
Qed.
Lemma parse_ip_plain s a : parse_ip s = Some a → Forall plain s.
Proof.
  unfold parse_ip, parse_with. destruct (read_ipv4_addr s) as [[x r]|] eqn:E4.
  - destruct r; [|done]. intros _. apply read_ipv4_plain in E4 as (pre & -> & H). by rewrite app_nil_r.
  - destruct (read_ipv6_addr s) as [[x r]|] eqn:E6; [|done]. cbn. destruct r; [|done].
    intros _. apply read_ipv6_plain in E6 as (pre & -> & H). by rewrite app_nil_r.
Qed.
Lemma print_ip_plain a : ip_ok a → Forall plain (print_ip a).
Proof. intros H. eapply parse_ip_plain. by apply parse_print_ip. Qed.
