(* ===== verification/PublicPorts.v ===== *)
(** * Public port ranges ([crates/linklake-core/src/public_ports.rs])

    Parsing, normalisation, membership and printing of compact port range
    expressions such as ["80-81,443"]. The well-formedness invariant [wf_ranges]
    (sorted, disjoint, non-adjacent ranges of non-zero ports) is what every
    constructor establishes and what the binary search of [contains] needs. *)

From S2P Require Import Prelude RustStr.
Local Open Scope Z_scope.

(** ** Data *)

Record PortRange := { start : Z; end_ : Z }.

Global Instance PortRange_eq_dec : EqDecision PortRange.
Proof. solve_decision. Defined.

Record PortRanges := { ranges : list PortRange }.

Inductive PortRangesError :=
  | PRE_Empty
  | PRE_InvalidPort
  | PRE_DescendingRange
  | PRE_EmptySegment.

Global Instance PortRangesError_eq_dec : EqDecision PortRangesError.
Proof. solve_decision. Defined.

(** ** Binary search of the standard library ([slice::binary_search_by]) *)

Section binary_search.
Context {A : Type} (f : A → comparison) (l : list A).

Definition cmp_at (i : nat) : comparison :=
  match l !! i with Some x => f x | None => Gt end.

(** The halving loop; [size] strictly decreases while it is above one, so
    [length l] iterations are enough. *)
Fixpoint bs_loop (fuel base size : nat) : nat :=
  match fuel with
  | O => base
  | S fuel =>
      if (size <=? 1)%nat then base
      else
        let half := (size / 2)%nat in
        let mid := (base + half)%nat in
        let base := match cmp_at mid with Gt => base | _ => mid end in
        bs_loop fuel base (size - half)
  end.

Definition binary_search_by : result nat nat :=
  match l with
  | [] => Err 0%nat
  | _ =>
      let base := bs_loop (length l) 0 (length l) in
      match cmp_at base with
      | Eq => Ok base
      | Lt => Err (base + 1)%nat
      | Gt => Err base
      end
  end.
End binary_search.

(** ** Operations *)

(** [sort_by_key(|range| (range.start, range.end))]: the key determines the
    range, so stability is immaterial. *)
Definition range_le (a b : PortRange) : Prop :=
  start a < start b ∨ (start a = start b ∧ end_ a ≤ end_ b).

Global Instance range_le_dec : RelDecision range_le.
Proof. intros a b. unfold range_le. apply _. Defined.

(** One iteration of the merge loop; the vector [normalized] is kept with its
    last element first. *)
Definition normalize_step (normalized : list PortRange) (range : PortRange) : list PortRange :=
  match normalized with
  | previous :: rest =>
      if start range <=? saturating_add U16_MAX (end_ previous) 1
      then {| start := start previous; end_ := Z.max (end_ previous) (end_ range) |} :: rest
      else range :: normalized
  | [] => [range]
  end.

Definition normalize_ranges (rs : list PortRange) : list PortRange :=
  rev (fold_left normalize_step (merge_sort range_le rs) []).

Definition parse_port (value : rstr) : result PortRangesError Z :=
  let value := trim value in
  match parse_uint U16_MAX value with
  | Some port => if port =? 0 then Err PRE_InvalidPort else Ok port
  | None => Err PRE_InvalidPort
  end.

(** The body of the loop over the comma separated segments. *)
Definition parse_segment (segment : rstr) : result PortRangesError PortRange :=
  let segment := trim segment in
  match segment with
  | [] => Err PRE_EmptySegment
  | _ =>
      match split_once ch_minus segment with
      | Some (s, e) =>
          if contains_char ch_minus e then Err PRE_InvalidPort
          else
            s ← parse_port s;
            e ← parse_port e;
            if e <? s then Err PRE_DescendingRange
            else Ok {| start := s; end_ := e |}
      | None => port ← parse_port segment; Ok {| start := port; end_ := port |}
      end
  end.

Definition parse_ranges (expression : rstr) (allow_empty : bool)
    : result PortRangesError (list PortRange) :=
  let expression := trim expression in
  match expression with
  | [] => if allow_empty then Ok [] else Err PRE_Empty
  | _ => rs ← collect parse_segment (split ch_comma expression); Ok (normalize_ranges rs)
  end.

Definition parse (expression : rstr) : result PortRangesError PortRanges :=
  rs ← parse_ranges expression false; Ok {| ranges := rs |}.

Definition parse_optional (expression : rstr) : result PortRangesError PortRanges :=
  rs ← parse_ranges expression true; Ok {| ranges := rs |}.

Definition empty : PortRanges := {| ranges := [] |}.

(** The closure passed to the binary search. *)
Definition compare_port (port : Z) (range : PortRange) : comparison :=
  if port <? start range then Gt else if end_ range <? port then Lt else Eq.

Definition contains (self : PortRanges) (port : Z) : bool :=
  negb (port =? 0) && is_ok (binary_search_by (compare_port port) (ranges self)).

Definition range_string (range : PortRange) : rstr :=
  print_range (start range) (end_ range).

Definition expression (self : PortRanges) : rstr :=
  join [ch_comma] (range_string <$> ranges self).

Definition including_ports (self : PortRanges) (ports : list Z) : PortRanges :=
  {| ranges := normalize_ranges
       (ranges self ++
        ((λ port, {| start := port; end_ := port |}) <$> List.filter (λ p, negb (p =? 0)) ports)) |}.

(** ** Invariant and reference membership *)

Definition range_ok (r : PortRange) : Prop := 1 ≤ start r ≤ end_ r ∧ end_ r ≤ U16_MAX.

(** [a] ends more than one port before [b] starts. *)
Definition before (a b : PortRange) : Prop := end_ a + 1 < start b.

Definition wf_ranges (self : PortRanges) : Prop :=
  Forall range_ok (ranges self) ∧ StronglySorted before (ranges self).

(** Membership by linear scan. *)
Definition covers (rs : list PortRange) (port : Z) : Prop :=
  Exists (λ r, start r ≤ port ≤ end_ r) rs.

(** ** Correctness of the binary search *)

Section binary_search_proofs.
Context {A : Type} (f : A → comparison) (l : list A).
Context (gt_up : ∀ i j x y, (i ≤ j)%nat → l !! i = Some x → l !! j = Some y →
                   f x = Gt → f y = Gt).
Context (lt_down : ∀ i j x y, (i ≤ j)%nat → l !! i = Some x → l !! j = Some y →
                   f y = Lt → f x = Lt).

Lemma bs_loop_inv fuel base size :
  (size ≤ S fuel)%nat → (0 < size)%nat → (base + size ≤ length l)%nat →
  (base = 0%nat ∨ cmp_at f l base ≠ Gt) →
  (∀ i, (base + size ≤ i)%nat → cmp_at f l i = Gt) →
  let b := bs_loop f l fuel base size in
  (b < length l)%nat ∧ (b = 0%nat ∨ cmp_at f l b ≠ Gt) ∧
  (∀ i, (b < i)%nat → cmp_at f l i = Gt).
Proof.
  revert base size. induction fuel as [|fuel IH]; intros base size Hf Hs Hb Hlo Hhi; cbn [bs_loop].
  { split; [lia|]. split; [done|]. intros i Hi. apply Hhi. lia. }
  destruct (Nat.leb_spec size 1).
  { split; [lia|]. split; [done|]. intros i Hi. apply Hhi. lia. }
  pose proof (Nat.div_mod_eq size 2) as Hd. pose proof (Nat.mod_upper_bound size 2) as Hm.
  assert (0 < size / 2 ∧ 2 * (size / 2) ≤ size)%nat as Hh by lia. clear Hd Hm.
  generalize dependent (size / 2)%nat. intros half Hh. cbv zeta.
  destruct (cmp_at f l (base + half)) eqn:E; (apply IH; [lia..| |]).
  - right. congruence.
  - intros i Hi. apply Hhi. lia.
  - right. congruence.
  - intros i Hi. apply Hhi. lia.
  - done.
  - intros i Hi. unfold cmp_at in *.
    destruct (l !! i) as [y|] eqn:Ey; [|done].
    destruct (l !! (base + half)%nat) as [x|] eqn:Ex.
    + eapply (gt_up (base + half)); [|done..].
      destruct (decide (base + half ≤ i)%nat); [done|]. lia.
    + apply lookup_ge_None in Ex. lia.
Qed.

Lemma binary_search_by_spec :
  is_ok (binary_search_by f l) = true ↔ ∃ x, x ∈ l ∧ f x = Eq.
Proof.
  unfold binary_search_by.
  destruct (decide (l = [])) as [->|Hne].
  { split; [done|]. intros (x & Hx & _). by apply not_elem_of_nil in Hx. }
  assert (0 < length l)%nat as Hlen by (destruct l; simpl; [done|lia]).
  destruct (bs_loop_inv (length l) 0 (length l)) as (Hb & Hlo & Hhi); try lia.
  { intros i Hi. unfold cmp_at. by rewrite (proj2 (lookup_ge_None l i)). }
  set (b := bs_loop f l (length l) 0 (length l)) in *.
  assert (match l with [] => Err 0%nat | _ :: _ =>
     match cmp_at f l b with Eq => Ok b | Lt => Err (b + 1)%nat | Gt => Err b end end
     = match cmp_at f l b with Eq => Ok b | Lt => Err (b + 1)%nat | Gt => Err b end :> result nat nat)
    as -> by by destruct l.
  destruct (lookup_lt_is_Some_2 l b Hb) as [xb Hxb].
  assert (cmp_at f l b = f xb) as Hcb by (unfold cmp_at; by rewrite Hxb).
  split.
  - destruct (cmp_at f l b) eqn:E; simpl; [|done..]. intros _. exists xb.
    split; [by eapply list_elem_of_lookup_2|congruence].
  - intros (x & (i & Hi)%list_elem_of_lookup & Hx).
    assert (i ≤ b)%nat as Hib.
    { destruct (decide (b < i)%nat) as [Hlt|]; [|lia]. specialize (Hhi i Hlt).
      unfold cmp_at in Hhi. rewrite Hi in Hhi. congruence. }
    destruct (cmp_at f l b) eqn:E; [done| |].
    + rewrite (lt_down i b x xb) in Hx by congruence. done.
    + destruct Hlo as [->|?]; [|done]. assert (i = 0%nat) as -> by lia. congruence.
Qed.
End binary_search_proofs.

(** ** Membership *)

Lemma compare_port_Eq port r : compare_port port r = Eq ↔ start r ≤ port ≤ end_ r.
Proof. unfold compare_port. repeat zcase; split; intros; (done || lia). Qed.
Lemma compare_port_Gt port r : compare_port port r = Gt ↔ port < start r.
Proof. unfold compare_port. repeat zcase; split; intros; (done || lia). Qed.
Lemma compare_port_Lt port r : compare_port port r = Lt ↔ start r ≤ port ∧ end_ r < port.
Proof. unfold compare_port. repeat zcase; split; intros; (done || lia). Qed.

Lemma wf_lookup_le self i j x y :
  wf_ranges self → (i ≤ j)%nat → ranges self !! i = Some x → ranges self !! j = Some y →
  start x ≤ start y ∧ end_ x ≤ end_ y.
Proof.
  intros [Hok Hs] Hij Hx Hy. destruct (decide (i = j)) as [->|Hne]; [simplify_eq; lia|].
  assert (before x y) as Hb by (eapply (StronglySorted_lookup before _ i j); [done|lia|done..]).
  rewrite Forall_lookup in Hok. apply Hok in Hx, Hy. unfold before, range_ok in *. lia.
Qed.

Lemma contains_covers self port :
  wf_ranges self → contains self port = true ↔ covers (ranges self) port.
Proof.
  intros Hwf. unfold contains, covers.
  rewrite andb_true_iff, negb_true_iff, Z.eqb_neq, Exists_exists.
  rewrite (binary_search_by_spec (compare_port port) (ranges self)).
  - split.
    + intros [_ (r & Hr & Hc)]. exists r. split; [done|]. by apply compare_port_Eq.
    + intros (r & Hr & Hc). split.
      * destruct Hwf as [Hok _]. rewrite Forall_forall in Hok. apply Hok in Hr.
        unfold range_ok in Hr. lia.
      * exists r. split; [done|]. by apply compare_port_Eq.
  - intros i j x y Hij Hx Hy. rewrite !compare_port_Gt.
    pose proof (wf_lookup_le _ _ _ _ _ Hwf Hij Hx Hy). lia.
  - intros i j x y Hij Hx Hy. rewrite !compare_port_Lt.
    pose proof (wf_lookup_le _ _ _ _ _ Hwf Hij Hx Hy). lia.
Qed.

(** ** Normalisation *)

Global Instance range_le_trans : Transitive range_le.
Proof. intros a b c. unfold range_le. lia. Qed.
Global Instance range_le_total : Total range_le.
Proof. intros a b. unfold range_le. lia. Qed.
Global Instance range_le_antisymm : AntiSymm (=) range_le.
Proof.
  intros [a1 a2] [b1 b2]. unfold range_le. simpl. intros ??.
  assert (a1 = b1) as -> by lia. assert (a2 = b2) as -> by lia. done.
Qed.

Lemma covers_app rs ts p : covers (rs ++ ts) p ↔ covers rs p ∨ covers ts p.
Proof. apply Exists_app. Qed.
Lemma covers_cons r rs p : covers (r :: rs) p ↔ start r ≤ p ≤ end_ r ∨ covers rs p.
Proof. apply Exists_cons. Qed.
Lemma covers_perm rs ts p : rs ≡ₚ ts → covers rs p ↔ covers ts p.
Proof. intros H. unfold covers. by rewrite H. Qed.
Lemma covers_rev rs p : covers (rev rs) p ↔ covers rs p.
Proof. apply covers_perm. symmetry. apply Permutation_rev. Qed.

(** The merge loop keeps its stack well formed and covers what it has read. *)
Definition stack_ok (acc : list PortRange) : Prop :=
  Forall range_ok acc ∧ StronglySorted (λ a b, before b a) acc.

Lemma normalize_step_ok acc r :
  stack_ok acc → range_ok r → (∀ a, head acc = Some a → start a ≤ start r) →
  stack_ok (normalize_step acc r) ∧
  (∀ p, covers (normalize_step acc r) p ↔ covers acc p ∨ start r ≤ p ≤ end_ r) ∧
  (∀ a, head (normalize_step acc r) = Some a → start a ≤ start r).
Proof.
  intros [Hok Hs] Hr Hle. unfold normalize_step. destruct acc as [|a rest].
  { split; [|split]; [split; repeat constructor; apply Hr| |].
    - intros p. rewrite covers_cons. unfold covers. rewrite !Exists_nil. tauto.
    - intros ? [= <-]. lia. }
  specialize (Hle a eq_refl). inversion Hok as [|? ? Ha Hrest]; subst.
  inversion Hs as [|? ? Hs' Hb]; subst. unfold range_ok in Hr, Ha.
  unfold saturating_add. destruct (Z.leb_spec (start r) (Z.min U16_MAX (end_ a + 1))).
  - split; [|split].
    + split; constructor; try done; unfold range_ok; simpl; lia.
    + intros p. rewrite !covers_cons. simpl.
      split; [|intros [[?|?]|?]; [left; lia|by right|left; lia]].
      intros [?|?]; [|tauto]. destruct (decide (p ≤ end_ a)); [left; left; lia|right; lia].
    + simpl. intros ? [= <-]. simpl. lia.
  - split; [|split].
    + split; constructor; try done. constructor; [unfold before; lia|].
      eapply Forall_impl; [apply Hb|]. unfold before. intros. lia.
    + intros p. rewrite (covers_cons r). tauto.
    + simpl. intros ? [= <-]. lia.
Qed.

Lemma normalize_fold_ok rs acc :
  stack_ok acc → Forall range_ok rs → StronglySorted range_le rs →
  (∀ a r, head acc = Some a → r ∈ rs → start a ≤ start r) →
  stack_ok (fold_left normalize_step rs acc) ∧
  (∀ p, covers (fold_left normalize_step rs acc) p ↔ covers acc p ∨ covers rs p).
Proof.
  intros Hacc Hok Hs. revert acc Hacc.
  induction Hs as [|r rs Hs IH Hr]; intros acc Hacc Hle; simpl.
  { split; [done|]. intros p. unfold covers. rewrite Exists_nil. tauto. }
  inversion Hok as [|? ? Hrok Hok']; subst.
  destruct (normalize_step_ok acc r) as (H1 & H2 & H3); [done|done| |].
  { intros a Ha. apply Hle; [done|left]. }
  destruct (IH Hok' (normalize_step acc r)) as [H4 H5]; [done| |].
  { intros a t Ha Ht. apply H3 in Ha. rewrite Forall_forall in Hr. apply Hr in Ht.
    unfold range_le in Ht. lia. }
  split; [done|]. intros p. rewrite H5, H2, (covers_cons r). tauto.
Qed.

Lemma normalize_ranges_ok rs :
  Forall range_ok rs →
  wf_ranges {| ranges := normalize_ranges rs |} ∧
  (∀ p, covers (normalize_ranges rs) p ↔ covers rs p).
Proof.
  intros Hok. unfold normalize_ranges.
  destruct (normalize_fold_ok (merge_sort range_le rs) []) as [[H1 H2] H3].
  - split; constructor.
  - by rewrite merge_sort_Permutation.
  - apply (StronglySorted_merge_sort range_le).
  - done.
  - split.
    + split; simpl; [by apply Forall_rev|by apply StronglySorted_rev].
    + intros p. rewrite covers_rev, H3, (covers_perm (merge_sort _ _) rs) by apply merge_sort_Permutation.
      unfold covers. rewrite Exists_nil. tauto.
Qed.

(** ** Canonicity: a well-formed value is determined by its set of ports *)

Lemma wf_cons r rs :
  wf_ranges {| ranges := r :: rs |} ↔
  range_ok r ∧ Forall (before r) rs ∧ wf_ranges {| ranges := rs |}.
Proof.
  unfold wf_ranges. simpl. rewrite Forall_cons. split.
  - intros [[? ?] Hs]. inversion Hs; subst. tauto.
  - intros (? & ? & ? & ?). split; [tauto|]. by constructor.
Qed.

Lemma covers_after r rs p :
  Forall (before r) rs → covers rs p → end_ r + 1 < p.
Proof.
  intros Hb (t & Ht & Hp)%Exists_exists. rewrite Forall_forall in Hb. apply Hb in Ht.
  unfold before in Ht. lia.
Qed.

Lemma covers_unique rs ts :
  wf_ranges {| ranges := rs |} → wf_ranges {| ranges := ts |} →
  (∀ p, covers rs p ↔ covers ts p) → rs = ts.
Proof.
  revert ts. induction rs as [|r rs IH]; intros [|t ts] Hr Ht H; [done| | |].
  - apply wf_cons in Ht as [Ht _]. unfold range_ok in Ht.
    exfalso. apply (Exists_nil (λ r, start r ≤ start t ≤ end_ r)), H, Exists_cons. lia.
  - apply wf_cons in Hr as [Hr _]. unfold range_ok in Hr.
    exfalso. apply (Exists_nil (λ t, start t ≤ start r ≤ end_ t)), H, Exists_cons. lia.
  - apply wf_cons in Hr as (Hr & Hbr & Hrs), Ht as (Ht & Hbt & Hts).
    setoid_rewrite covers_cons in H.
    pose proof (λ p, covers_after r rs p Hbr) as Ar.
    pose proof (λ p, covers_after t ts p Hbt) as At.
    unfold range_ok in Hr, Ht.
    assert (start r = start t) as Hst.
    { destruct (proj1 (H (start r))) as [|Hc]; [left; lia| |apply At in Hc];
      (destruct (proj2 (H (start t))) as [|Hd]; [left; lia| |apply Ar in Hd]); lia. }
    assert (∀ e, end_ r < e ≤ end_ t → False) as He1.
    { intros e He. destruct (proj2 (H (end_ r + 1))) as [|Hc]; [left; lia|lia|].
      apply Ar in Hc. lia. }
    assert (∀ e, end_ t < e ≤ end_ r → False) as He2.
    { intros e He. destruct (proj1 (H (end_ t + 1))) as [|Hc]; [left; lia|lia|].
      apply At in Hc. lia. }
    assert (end_ r = end_ t) as He.
    { specialize (He1 (end_ t)). specialize (He2 (end_ r)). lia. }
    f_equal; [destruct r, t; simpl in *; congruence|].
    apply IH; [done..|]. intros p. specialize (H p). specialize (Ar p). specialize (At p).
    split; intros Hc; (destruct H as [H1 H2]).
    + pose proof (Ar Hc). destruct H1; [by right|lia|done].
    + pose proof (At Hc). destruct H2; [by right|lia|done].
Qed.

Lemma normalize_ranges_wf_id rs :
  wf_ranges {| ranges := rs |} → normalize_ranges rs = rs.
Proof.
  intros Hwf. destruct (normalize_ranges_ok rs) as [H1 H2]; [apply Hwf|].
  by apply covers_unique.
Qed.

(** ** Parsing *)

Lemma parse_port_ok value port : parse_port value = Ok port → 1 ≤ port ≤ U16_MAX.
Proof.
  unfold parse_port. case_match eqn:E; [|done]. apply parse_uint_bound in E; [|lia].
  case_match; intros; simplify_eq. bool_prop. lia.
Qed.

Lemma parse_segment_ok segment r : parse_segment segment = Ok r → range_ok r.
Proof.
  unfold parse_segment. destruct (trim segment) as [|c s] eqn:Es; [done|].
  case_match.
  - destruct p as [a b]. destruct (contains_char ch_minus b); [done|].
    intros H1. bind_inv H1. bind_inv H1. apply parse_port_ok in E, E0.
    destruct (Z.ltb_spec r1 r0); simplify_eq. unfold range_ok. simpl. lia.
  - intros H1. bind_inv H1. apply parse_port_ok in E. simplify_eq. unfold range_ok. simpl. lia.
Qed.

Lemma collect_segments_ok l rs : collect parse_segment l = Ok rs → Forall range_ok rs.
Proof.
  rewrite collect_Ok. induction 1 as [|? ? ? ? Hr ? IH]; constructor; [|done].
  by eapply parse_segment_ok.
Qed.

Lemma parse_ranges_Ok e allow rs :
  parse_ranges e allow = Ok rs →
  (trim e = [] ∧ allow = true ∧ rs = []) ∨
  (trim e ≠ [] ∧ ∃ segs, collect parse_segment (split ch_comma (trim e)) = Ok segs ∧
     Forall range_ok segs ∧ rs = normalize_ranges segs).
Proof.
  unfold parse_ranges. destruct (trim e) as [|c t] eqn:E.
  - destruct allow; [|done]. intros [= <-]. by left.
  - intros H. right. split; [done|]. bind_inv H. injection H as <-.
    exists r. split; [done|]. split; [by eapply collect_segments_ok|done].
Qed.

(** ** Printing *)

Lemma parse_port_to_string n : 1 ≤ n ≤ U16_MAX → parse_port (to_string n) = Ok n.
Proof.
  intros Hn. unfold parse_port. rewrite digits_trim by (apply to_string_digits; lia).
  rewrite parse_uint_to_string by lia. by rewrite (proj2 (Z.eqb_neq n 0)) by lia.
Qed.

Lemma parse_segment_range_string r : range_ok r → parse_segment (range_string r) = Ok r.
Proof.
  destruct r as [a b]. unfold range_ok, range_string, parse_segment. simpl. intros Hr.
  rewrite trim_no_ws by (apply print_range_no_ws; lia).
  pose proof (print_range_not_nil a b) as Hne.
  destruct (print_range a b) as [|c0 s0] eqn:Es; [done|]. rewrite <- Es. clear Es Hne.
  pose proof (to_string_lacks_minus a) as Ha. pose proof (to_string_lacks_minus b) as Hb.
  unfold print_range. destruct (Z.eqb_spec a b) as [->|Hab].
  - rewrite split_once_lacks by (apply Hb; lia). by rewrite parse_port_to_string by lia.
  - change ([ch_minus] ++ ?x) with (ch_minus :: x). rewrite split_once_app by (apply Ha; lia).
    rewrite (proj2 (contains_char_lacks _ _)) by (apply Hb; lia).
    rewrite !parse_port_to_string by lia. simpl.
    by rewrite (proj2 (Z.ltb_ge b a)) by lia.
Qed.

Lemma expression_parses self allow :
  wf_ranges self → ranges self ≠ [] ∨ allow = true →
  parse_ranges (expression self) allow = Ok (ranges self).
Proof.
  intros Hwf Hne. destruct self as [rs]. unfold expression. simpl in *.
  destruct rs as [|r rs].
  { destruct Hne as [? | ->]; [done|]. done. }
  clear Hne. pose proof (proj1 Hwf) as Hok. simpl in Hok. set (l := r :: rs) in *.
  unfold parse_ranges. rewrite trim_no_ws.
  2:{ apply join_no_ws; [apply no_ws_comma|]. apply Forall_fmap. eapply Forall_impl; [done|].
      unfold range_ok. intros t Ht. apply print_range_no_ws; lia. }
  destruct (join [ch_comma] (range_string <$> l)) as [|c s] eqn:Ej.
  { exfalso. revert Ej. unfold l. cbn [fmap list_fmap]. apply join_not_nil, print_range_not_nil. }
  rewrite <- Ej. clear Ej. rewrite split_join; [|done|].
  2:{ apply Forall_fmap. eapply Forall_impl; [done|]. intros t Ht.
      unfold range_ok in Ht. apply print_range_lacks; lia. }
  rewrite (proj2 (collect_Ok parse_segment _ l)).
  - simpl. by rewrite normalize_ranges_wf_id.
  - apply Forall2_fmap_l. clear Hwf. induction Hok as [|t k Ht Hk IH]; constructor; [|done].
    by apply parse_segment_range_string.
Qed.

(** ** Properties *)

(** A port expression that [parse] accepts yields a well-formed value
    (sorted, disjoint, non-adjacent ranges of non-zero ports), and [contains],
    which runs a binary search, answers true exactly for the ports of one of
    the written segments. *)
Theorem parse_contains (e : rstr) (r : PortRanges) :
  parse e = Ok r →
  wf_ranges r ∧ ranges r ≠ [] ∧
  ∃ segs, collect parse_segment (split ch_comma (trim e)) = Ok segs ∧
    ∀ p, contains r p = true ↔ covers segs p.
Proof.
  unfold parse. intros H. bind_inv H. injection H as <-.
  apply parse_ranges_Ok in E as [(_ & ? & _)|(Hne & segs & Hc & Hok & ->)]; [done|].
  destruct (normalize_ranges_ok segs Hok) as [Hwf Hcov].
  assert (∀ p, contains {| ranges := normalize_ranges segs |} p = true ↔ covers segs p) as Hall.
  { intros p. by rewrite contains_covers, Hcov. }
  split; [done|]. split; [|by exists segs]. simpl. intros Hnil.
  destruct segs as [|s segs].
  { apply collect_Ok in Hc. inversion Hc as [Hs|].
    by apply (split_not_nil ch_comma (trim e)). }
  inversion Hok as [|? ? Hs _]; subst.
  rewrite Hnil in Hcov. apply (Exists_nil (λ r, start r ≤ start s ≤ end_ r)), Hcov.
  apply Exists_cons. unfold range_ok in Hs. lia.
Qed.

Lemma parse_contains_witness :
  parse (lit " 443,80,100-110 , 108-120,+81") =
    Ok {| ranges := [Build_PortRange 80 81; Build_PortRange 100 120; Build_PortRange 443 443] |} ∧
  wf_ranges {| ranges := [Build_PortRange 80 81; Build_PortRange 100 120; Build_PortRange 443 443] |}.
Proof.
  assert (parse (lit " 443,80,100-110 , 108-120,+81") =
    Ok {| ranges := [Build_PortRange 80 81; Build_PortRange 100 120; Build_PortRange 443 443] |}) as H
    by (vm_compute; reflexivity).
  split; [exact H|]. exact (proj1 (parse_contains _ _ H)).
Defined.

(** Printing a well-formed value with [expression] and parsing it again
    gives the same value: [parse_optional] always, and [parse] whenever the
    value is not empty. *)
Theorem parse_expression (r : PortRanges) :
  wf_ranges r →
  parse_optional (expression r) = Ok r ∧ (ranges r ≠ [] → parse (expression r) = Ok r).
Proof.
  intros Hwf. unfold parse, parse_optional. split.
  - rewrite expression_parses by auto. by destruct r.
  - intros Hne. rewrite expression_parses by auto. by destruct r.
Qed.

Lemma parse_expression_witness :
  parse_optional (lit "80-81,443") = Ok {| ranges := [Build_PortRange 80 81; Build_PortRange 443 443] |}.
Proof.
  refine (proj1 (parse_expression {| ranges := [Build_PortRange 80 81; Build_PortRange 443 443] |} _)).
  split; simpl; repeat constructor; simpl; lia.
Defined.

(** [including_ports] keeps the value well formed and adds exactly the
    given non-zero ports: a port is contained afterwards when it was contained
    before or is one of them. *)
Theorem including_ports_contains (r : PortRanges) (ports : list Z) :
  wf_ranges r → Forall (λ p, 0 ≤ p ≤ U16_MAX) ports →
  wf_ranges (including_ports r ports) ∧
  ∀ p, contains (including_ports r ports) p = true ↔
       contains r p = true ∨ (p ≠ 0 ∧ p ∈ ports).
Proof.
  intros Hwf Hp.
  assert (∀ q, q ∈ List.filter (λ p, negb (p =? 0)) ports ↔ q ≠ 0 ∧ q ∈ ports) as Hf.
  { intros q. rewrite !list_elem_of_In, filter_In, negb_true_iff, Z.eqb_neq. tauto. }
  destruct (normalize_ranges_ok (ranges r ++
    ((λ port, {| start := port; end_ := port |}) <$> List.filter (λ p, negb (p =? 0)) ports)))
    as [Hok Hcov].
  { apply Forall_app. split; [apply Hwf|]. apply Forall_fmap, Forall_forall.
    intros q [Hq0 Hq]%Hf. rewrite Forall_forall in Hp. apply Hp in Hq.
    unfold range_ok. simpl. lia. }
  split; [done|]. intros p. unfold including_ports. rewrite !contains_covers by done.
  simpl. rewrite Hcov, covers_app. f_equiv. unfold covers.
  rewrite Exists_fmap, Exists_exists. simpl. split.
  - intros (q & Hq & ?). assert (q = p) as -> by lia. by apply Hf.
  - intros Hq. exists p. split; [by apply Hf|lia].
Qed.

Lemma including_ports_contains_witness :
  contains (including_ports {| ranges := [Build_PortRange 20 22; Build_PortRange 80 80] |} [23; 0; 443]) 23 = true.
Proof.
  apply (including_ports_contains {| ranges := [Build_PortRange 20 22; Build_PortRange 80 80] |} [23; 0; 443]).
  - split; simpl; repeat constructor; simpl; lia.
  - repeat constructor; lia.
  - right. split; [lia|left].
Defined.

(** Well-formed values are canonical: two of them that contain the same
    ports are equal, so the stored form of a port policy does not depend on how
    it was written. *)
Theorem ranges_canonical (a b : PortRanges) :
  wf_ranges a → wf_ranges b → (∀ p, contains a p = contains b p) → a = b.
Proof.
  intros Ha Hb H. destruct a as [a], b as [b]. f_equal. apply covers_unique; [done..|].
  intros p. rewrite <- (contains_covers {| ranges := a |} p Ha).
  rewrite <- (contains_covers {| ranges := b |} p Hb). by rewrite H.
Qed.

Lemma ranges_canonical_witness :
  {| ranges := [Build_PortRange 80 81] |} =
  including_ports (including_ports empty [81]) [80].
Proof.
  apply ranges_canonical.
  - split; simpl; repeat constructor; simpl; lia.
  - vm_compute. split; repeat constructor; simpl; discriminate.
  - intros p. reflexivity.
Defined.
