(* ===== verification/PortMapping.v ===== *)
(** * Port mappings ([crates/linklake-core/src/port_mapping.rs])

    Expansion of mixed port expressions to an ordered list of distinct ports,
    the pairing of public and target ports, and the canonical printed form. *)

From S2P Require Import Prelude RustStr.
Local Open Scope Z_scope.

Definition MAX_PORT_MAPPINGS : Z := 256.

Record PortPair := { public_port : Z; target_port : Z }.

Record ParsedPortMappings := {
  public_ports : rstr;
  target_ports : rstr;
  pairs : list PortPair;
}.

Inductive PortMappingError :=
  | PME_Empty
  | PME_InvalidSyntax
  | PME_DescendingRange
  | PME_PortOutOfRange
  | PME_DuplicatePort
  | PME_TooManyPorts
  | PME_CountMismatch.

(** ** Operations *)

Definition parse_port (value : rstr) : result PortMappingError Z :=
  if bool_decide (value = []) || negb (all is_ascii_digit (as_bytes value))
  then Err PME_InvalidSyntax
  else match parse_uint U16_MAX value with
       | Some port => Ok port
       | None => Err PME_PortOutOfRange
       end.

(** One comma separated item: a single port or a closed range within bounds. *)
Definition parse_item (minimum maximum : Z) (item : rstr)
    : result PortMappingError (Z * Z) :=
  let item := trim item in
  match item with
  | [] => Err PME_InvalidSyntax
  | _ =>
      '(s, e) ←
        match trim <$> split ch_minus item with
        | [port] => p ← parse_port port; Ok (p, p)
        | [s; e] =>
            if negb (bool_decide (s = [])) && negb (bool_decide (e = []))
            then s ← parse_port s; e ← parse_port e; Ok (s, e)
            else Err PME_InvalidSyntax
        | _ => Err PME_InvalidSyntax
        end;
      if e <? s then Err PME_DescendingRange
      else if (s <? minimum) || (maximum <? e) then Err PME_PortOutOfRange
      else Ok (s, e)
  end.

(** The loop [for port in start..=end], with [count] ports left to visit. *)
Fixpoint insert_range (maximum_count : Z) (count : nat) (port : Z)
    (ports : list Z) (seen : gset Z) : result PortMappingError (list Z * gset Z) :=
  match count with
  | O => Ok (ports, seen)
  | S count =>
      if decide (port ∈ seen) then Err PME_DuplicatePort
      else
        let ports := ports ++ [port] in
        if maximum_count <? len ports then Err PME_TooManyPorts
        else insert_range maximum_count count (port + 1) ports ({[port]} ∪ seen)
  end.

(** The loop over the items. *)
Fixpoint parse_items (minimum maximum maximum_count : Z) (items : list rstr)
    (ports : list Z) (seen : gset Z) : result PortMappingError (list Z) :=
  match items with
  | [] => Ok ports
  | item :: items =>
      '(s, e) ← parse_item minimum maximum item;
      '(ports, seen) ← insert_range maximum_count (Z.to_nat (e - s + 1)) s ports seen;
      parse_items minimum maximum maximum_count items ports seen
  end.

Definition parse_port_set (expression : rstr) (minimum maximum maximum_count : Z)
    : result PortMappingError (list Z) :=
  if bool_decide (trim expression = []) then Err PME_Empty
  else if (minimum =? 0) || (maximum <? minimum) || (maximum_count =? 0)
  then Err PME_PortOutOfRange
  else parse_items minimum maximum maximum_count (split ch_comma expression) [] ∅.

(** The inner [while]: the end of the run that starts before [ports]. *)
Fixpoint run_end (end_ : Z) (ports : list Z) : Z * list Z :=
  match ports with
  | port :: rest =>
      if port =? saturating_add U16_MAX end_ 1 then run_end port rest else (end_, ports)
  | [] => (end_, [])
  end.

(** The outer [while]: each iteration consumes at least one port. *)
Fixpoint port_runs (fuel : nat) (ports : list Z) : list (Z * Z) :=
  match fuel, ports with
  | S fuel, start :: rest =>
      let '(end_, rest) := run_end start rest in
      (start, end_) :: port_runs fuel rest
  | _, _ => []
  end.

Definition normalize_port_set (ports : list Z) : rstr :=
  join [ch_comma] ((λ '(s, e), print_range s e) <$> port_runs (length ports) ports).

Definition parse_port_mappings (public_expression target_expression : rstr)
    (public_minimum public_maximum maximum_count : Z)
    : result PortMappingError ParsedPortMappings :=
  publics ← parse_port_set public_expression public_minimum public_maximum maximum_count;
  targets ← parse_port_set target_expression 1 U16_MAX maximum_count;
  if bool_decide (length publics ≠ length targets) then Err PME_CountMismatch
  else Ok {| public_ports := normalize_port_set publics;
             target_ports := normalize_port_set targets;
             pairs := zip_with Build_PortPair publics targets |}.

(** ** Expansion of a range *)

Definition port_seq (s e : Z) : list Z := seqZ s (e - s + 1).

(** What the parser accumulates: distinct ports, mirrored by the set. *)
Definition ports_ok (minimum maximum maximum_count : Z) (ports : list Z) : Prop :=
  NoDup ports ∧ Forall (λ p, minimum ≤ p ≤ maximum) ports ∧ len ports ≤ maximum_count.

Lemma insert_range_inv max_count count port ports seen ports' seen' :
  seen = list_to_set ports → NoDup ports → len ports ≤ max_count →
  insert_range max_count count port ports seen = Ok (ports', seen') →
  ports' = ports ++ seqZ port (Z.of_nat count) ∧ seen' = list_to_set ports' ∧
  NoDup ports' ∧ len ports' ≤ max_count.
Proof.
  revert port ports seen. induction count as [|count IH]; intros port ports seen Hs Hn Hc H.
  { simpl in H. simplify_eq. rewrite seqZ_nil by lia. by rewrite app_nil_r. }
  cbn [insert_range] in H. case_decide as Hin; [done|]. case_match eqn:Hl; [done|]. bool_prop.
  apply IH in H as (-> & -> & Hn' & Hc').
  - rewrite (seqZ_cons port (Z.of_nat (S count))) by lia.
    rewrite <- app_assoc. simpl.
    replace (Z.pred (Z.of_nat (S count))) with (Z.of_nat count) by lia.
    replace (Z.succ port) with (port + 1) by lia.
    rewrite <- app_assoc in Hn', Hc'. done.
  - subst seen. rewrite list_to_set_app_L. clear. set_solver.
  - subst seen. apply NoDup_app. split; [done|]. split; [|apply NoDup_singleton].
    intros x Hx ->%list_elem_of_singleton. apply Hin. by apply elem_of_list_to_set.
  - done.
Qed.

Lemma insert_range_Ok max_count count port ports :
  NoDup (ports ++ seqZ port (Z.of_nat count)) →
  len (ports ++ seqZ port (Z.of_nat count)) ≤ max_count →
  insert_range max_count count port ports (list_to_set ports) =
    Ok (ports ++ seqZ port (Z.of_nat count),
        list_to_set (ports ++ seqZ port (Z.of_nat count))).
Proof.
  revert port ports. induction count as [|count IH]; intros port ports Hn Hc.
  { simpl. rewrite seqZ_nil by lia. by rewrite app_nil_r. }
  rewrite (seqZ_cons port (Z.of_nat (S count))) in * by lia.
  replace (Z.pred (Z.of_nat (S count))) with (Z.of_nat count) in * by lia.
  replace (Z.succ port) with (port + 1) in * by lia.
  set (k := seqZ (port + 1) (Z.of_nat count)) in *.
  replace (ports ++ port :: k) with ((ports ++ [port]) ++ k) in * by by rewrite <- app_assoc.
  cbn [insert_range]. rewrite decide_False.
  2:{ rewrite elem_of_list_to_set. apply NoDup_app in Hn as [Hn _].
      apply NoDup_app in Hn as (_ & Hn & _). intros Hp. apply (Hn port Hp). by left. }
  rewrite (proj2 (Z.ltb_ge _ _)) by (rewrite len_app in Hc; pose proof (len_nonneg k); lia).
  replace ({[port]} ∪ list_to_set ports : gset Z) with (list_to_set (ports ++ [port]) : gset Z)
    by (rewrite list_to_set_app_L; clear; set_solver).
  by apply IH.
Qed.

Lemma parse_item_bounds minimum maximum item s e :
  parse_item minimum maximum item = Ok (s, e) → minimum ≤ s ∧ s ≤ e ∧ e ≤ maximum.
Proof.
  unfold parse_item. destruct (trim item); [done|]. intros H. bind_inv H.
  destruct r as [s' e']. clear E.
  destruct (e' <? s') eqn:E1; [done|]. destruct (_ || _) eqn:E2; [done|].
  simplify_eq. bool_prop. lia.
Qed.

Lemma parse_items_inv minimum maximum max_count items ports seen ports' :
  seen = list_to_set ports → ports_ok minimum maximum max_count ports →
  parse_items minimum maximum max_count items ports seen = Ok ports' →
  ports_ok minimum maximum max_count ports' ∧
  ∃ ses, collect (parse_item minimum maximum) items = Ok ses ∧
         ports' = ports ++ (ses ≫= λ '(s, e), port_seq s e).
Proof.
  revert ports seen. induction items as [|item items IH]; intros ports seen Hs Hok H.
  { simpl in H. simplify_eq. split; [done|]. exists []. by rewrite app_nil_r. }
  cbn [parse_items] in H. bind_inv H. destruct r as [s e]. bind_inv H. destruct r as [ps sn].
  destruct Hok as (Hn & Hf & Hc).
  apply insert_range_inv in E0 as (-> & -> & Hn' & Hc'); [|done..].
  pose proof (parse_item_bounds _ _ _ _ _ E) as Hb.
  rewrite Z2Nat.id in * by lia.
  apply IH in H as (Hok' & ses & Hses & ->); [|done|].
  - split; [done|]. exists ((s, e) :: ses). cbn [collect]. rewrite E. simpl. rewrite Hses.
    split; [done|]. rewrite <- app_assoc. done.
  - split; [done|]. split; [|done]. apply Forall_app. split; [done|].
    apply Forall_seqZ. intros. lia.
Qed.

(** ** Canonical form *)

Lemma run_end_spec end_ ports e rest :
  Forall (λ p, 0 ≤ p ≤ U16_MAX) (end_ :: ports) → NoDup (end_ :: ports) →
  run_end end_ ports = (e, rest) →
  end_ ≤ e ∧ end_ :: ports = port_seq end_ e ++ rest ∧ (length rest ≤ length ports)%nat.
Proof.
  revert end_. induction ports as [|p ports IH]; intros end_ Hb Hn H; simpl in H.
  { simplify_eq. unfold port_seq. replace (e - e + 1) with 1 by lia. done. }
  rewrite !Forall_cons in Hb. destruct Hb as (He & Hp & Hb).
  unfold saturating_add in H. destruct (Z.eqb_spec p (Z.min U16_MAX (end_ + 1))) as [Hpe|Hpe].
  - assert (p = end_ + 1) as ->.
    { destruct (decide (end_ = U16_MAX)) as [->|]; [|lia].
      assert (p = U16_MAX) as -> by lia. apply NoDup_cons in Hn as [Hn _].
      exfalso. apply Hn. by left. }
    apply IH in H as (H1 & H2 & H3); [|by constructor|by apply NoDup_cons in Hn as [_ ?]].
    split; [lia|]. split; [|simpl; lia]. rewrite H2. unfold port_seq.
    rewrite (seqZ_cons end_ (e - end_ + 1)) by lia. simpl. f_equal. f_equal. f_equal; lia.
  - simplify_eq. split; [lia|]. split; [|done].
    unfold port_seq. replace (e - e + 1) with 1 by lia. done.
Qed.

Lemma port_runs_spec fuel ports :
  (length ports ≤ fuel)%nat → Forall (λ p, 0 ≤ p ≤ U16_MAX) ports → NoDup ports →
  (port_runs fuel ports ≫= λ '(s, e), port_seq s e) = ports ∧
  Forall (λ '(s, e), s ≤ e ∧ s ∈ ports ∧ e ∈ ports) (port_runs fuel ports).
Proof.
  revert ports. induction fuel as [|fuel IH]; intros [|p ports] Hl Hb Hn; simpl in Hl;
    [done|lia|done|]. cbn [port_runs].
  destruct (run_end p ports) as [e rest] eqn:E.
  apply run_end_spec in E as (He & Heq & Hlen); [|done..]. rewrite Heq in Hb, Hn |- *.
  apply Forall_app in Hb as [_ Hb]. apply NoDup_app in Hn as (_ & _ & Hn).
  destruct (IH rest) as [IH1 IH2]; [lia|done|done|]. split.
  - rewrite bind_cons. by f_equal.
  - constructor.
    + split; [done|]. split; apply elem_of_app; left; apply elem_of_seqZ; lia.
    + eapply Forall_impl; [done|]. intros [s' e'] (? & ? & ?).
      split; [done|]. split; apply elem_of_app; by right.
Qed.

Lemma as_bytes_digits s : digits_ok s → as_bytes s = s.
Proof.
  intros H. apply as_bytes_ascii. unfold is_ascii. apply all_Forall.
  eapply Forall_impl; [done|]. intros c Hc. unfold is_ascii_digit in Hc. bool_prop.
  apply andb_true_iff. lia.
Qed.

Lemma parse_mapping_port_to_string n : 0 ≤ n ≤ U16_MAX → parse_port (to_string n) = Ok n.
Proof.
  intros Hn. unfold parse_port. pose proof (to_string_digits n ltac:(lia)) as Hd.
  rewrite as_bytes_digits by done. rewrite (proj2 (all_Forall _ _)) by done.
  rewrite bool_decide_false by apply to_string_not_nil. simpl.
  by rewrite parse_uint_to_string by lia.
Qed.

Lemma parse_item_print_range minimum maximum s e :
  1 ≤ minimum ≤ s → s ≤ e ≤ maximum → maximum ≤ U16_MAX →
  parse_item minimum maximum (print_range s e) = Ok (s, e).
Proof.
  intros Hs He Hm. unfold parse_item.
  rewrite trim_no_ws by (apply print_range_no_ws; lia).
  pose proof (print_range_not_nil s e) as Hne.
  destruct (print_range s e) as [|c0 s0] eqn:Es; [done|]. rewrite <- Es. clear Es Hne.
  assert ((if e <? s then Err PME_DescendingRange
      else if (s <? minimum) || (maximum <? e) then Err PME_PortOutOfRange
      else Ok (s, e)) = Ok (s, e)) as Hfin.
  { rewrite (proj2 (Z.ltb_ge e s)), (proj2 (Z.ltb_ge s minimum)), (proj2 (Z.ltb_ge maximum e)) by lia.
    done. }
  pose proof (to_string_lacks_minus s) as Ls. pose proof (to_string_lacks_minus e) as Le.
  unfold print_range. destruct (Z.eqb_spec s e) as [->|Hne].
  - rewrite split_lacks by (apply Le; lia). cbn [fmap list_fmap].
    rewrite digits_trim by (apply to_string_digits; lia).
    rewrite parse_mapping_port_to_string by lia. done.
  - change ([ch_minus] ++ ?x) with (ch_minus :: x).
    rewrite split_app by (apply Ls; lia). rewrite split_lacks by (apply Le; lia).
    cbn [fmap list_fmap]. rewrite !digits_trim by (apply to_string_digits; lia).
    rewrite !bool_decide_false by apply to_string_not_nil. cbn [negb andb].
    rewrite !parse_mapping_port_to_string by lia. done.
Qed.

Lemma parse_items_runs minimum maximum max_count runs ports :
  1 ≤ minimum → maximum ≤ U16_MAX →
  Forall (λ '(s, e), minimum ≤ s ≤ e ∧ e ≤ maximum) runs →
  NoDup (ports ++ (runs ≫= λ '(s, e), port_seq s e)) →
  len (ports ++ (runs ≫= λ '(s, e), port_seq s e)) ≤ max_count →
  parse_items minimum maximum max_count ((λ '(s, e), print_range s e) <$> runs)
    ports (list_to_set ports) = Ok (ports ++ (runs ≫= λ '(s, e), port_seq s e)).
Proof.
  intros Hmin Hmax Hr. revert ports. induction Hr as [|[s e] runs Hse Hr IH]; intros ports Hn Hc.
  { by rewrite app_nil_r. }
  cbn [fmap list_fmap parse_items]. rewrite parse_item_print_range by lia.
  cbn [mbind result_bind].
  rewrite bind_cons, app_assoc in Hn, Hc |- *. unfold port_seq in *.
  replace (e - s + 1) with (Z.of_nat (Z.to_nat (e - s + 1))) in * by lia.
  set (n := Z.to_nat (e - s + 1)) in *. rewrite ?Nat2Z.id.
  rewrite insert_range_Ok.
  - cbn [mbind result_bind]. by apply IH.
  - by apply NoDup_app in Hn as [? _].
  - rewrite len_app in Hc. pose proof (len_nonneg (runs ≫= λ '(s, e), seqZ s (e - s + 1))). lia.
Qed.

Lemma normalize_port_set_parses minimum maximum max_count ports :
  1 ≤ minimum ≤ maximum → maximum ≤ U16_MAX → ports ≠ [] →
  ports_ok minimum maximum max_count ports →
  parse_port_set (normalize_port_set ports) minimum maximum max_count = Ok ports.
Proof.
  intros Hmin Hmax Hne (Hn & Hb & Hc).
  assert (Forall (λ p, 0 ≤ p ≤ U16_MAX) ports) as Hb'
    by (eapply Forall_impl; [done|]; simpl; intros; lia).
  destruct (port_runs_spec (length ports) ports) as [Hruns Hse]; [done..|].
  set (runs := port_runs (length ports) ports) in *.
  assert (Forall (λ '(s, e), minimum ≤ s ≤ e ∧ e ≤ maximum) runs) as Hse'.
  { eapply Forall_impl; [done|]. intros [s e] (? & Hs & He).
    rewrite Forall_forall in Hb. apply Hb in Hs, He. lia. }
  assert (runs ≠ []) as Hrne by (intros ->; by simpl in Hruns).
  assert (Forall no_ws ((λ '(s, e), print_range s e) <$> runs) ∧
          Forall (lacks ch_comma) ((λ '(s, e), print_range s e) <$> runs)) as [Hws Hl].
  { split; apply Forall_fmap; (eapply Forall_impl; [done|]); intros [s e] ?; simpl.
    - apply print_range_no_ws; lia.
    - apply print_range_lacks; lia. }
  unfold parse_port_set, normalize_port_set. fold runs.
  rewrite trim_no_ws by (apply join_no_ws; [apply no_ws_comma|done]).
  rewrite bool_decide_false.
  2:{ destruct runs as [|[s e] rs]; [done|]. cbn [fmap list_fmap].
      apply join_not_nil, print_range_not_nil. }
  assert (0 < max_count). { destruct ports; [done|]. rewrite len_cons in Hc.
    pose proof (len_nonneg ports). lia. }
  rewrite (proj2 (Z.eqb_neq _ _)), (proj2 (Z.ltb_ge _ _)), (proj2 (Z.eqb_neq _ _)) by lia.
  cbn [orb]. rewrite split_join; [|by destruct runs as [|[]]|done].
  change (∅ : gset Z) with (list_to_set [] : gset Z).
  rewrite parse_items_runs; simpl; try lia; try done; by rewrite Hruns.
Qed.

Lemma parse_port_set_inv (e : rstr) (minimum maximum max_count : Z) (ports : list Z) :
  0 ≤ max_count →
  parse_port_set e minimum maximum max_count = Ok ports →
  ports_ok minimum maximum max_count ports ∧ ports ≠ [] ∧
  ∃ ses, collect (parse_item minimum maximum) (split ch_comma e) = Ok ses ∧
         ports = (ses ≫= λ '(s, t), port_seq s t).
Proof.
  intros Hc. unfold parse_port_set. case_match; [done|]. case_match; [done|]. intros H1.
  apply parse_items_inv in H1 as (Hok & ses & Hses & ->); [|done|].
  2:{ split; [constructor|]. split; [constructor|]. done. }
  rewrite app_nil_l. split; [done|]. split; [|by exists ses].
  apply collect_Ok in Hses. inversion Hses as [Hs|? [s t] ? ses' Hi _ Hs]; subst.
  { by destruct (split_not_nil ch_comma e). }
  apply parse_item_bounds in Hi. rewrite bind_cons. unfold port_seq.
  rewrite seqZ_cons by lia. done.
Qed.

(** ** Properties *)

(** A port expression accepted by [parse_port_set] expands to the ports of
    its items in the written order: they are pairwise distinct, lie within the
    allowed bounds, and there are at least one and at most [maximum_count] of
    them. *)
Theorem parse_port_set_expands (e : rstr) (minimum maximum max_count : Z) (ports : list Z) :
  0 ≤ max_count →
  parse_port_set e minimum maximum max_count = Ok ports →
  ports_ok minimum maximum max_count ports ∧ ports ≠ [] ∧
  ∃ ses, collect (parse_item minimum maximum) (split ch_comma e) = Ok ses ∧
         ports = (ses ≫= λ '(s, t), port_seq s t).
Proof. apply parse_port_set_inv. Qed.

Lemma parse_port_set_expands_witness :
  ports_ok 32000 32999 256 [32010; 32011; 32012; 32001].
Proof.
  refine (proj1 (parse_port_set_expands (lit " 32010 - 32012,32001") 32000 32999 256 _ _ _)).
  - lia.
  - vm_compute. reflexivity.
Defined.

(** The canonical expression printed for a list of distinct ports within
    bounds parses back to the same list, in the same order. *)
Theorem parse_normalize_port_set (minimum maximum max_count : Z) (ports : list Z) :
  1 ≤ minimum ≤ maximum → maximum ≤ U16_MAX → ports ≠ [] →
  ports_ok minimum maximum max_count ports →
  parse_port_set (normalize_port_set ports) minimum maximum max_count = Ok ports.
Proof. apply normalize_port_set_parses. Qed.

Lemma parse_normalize_port_set_witness :
  parse_port_set (normalize_port_set [443; 80; 81; 82]) 1 U16_MAX 4 = Ok [443; 80; 81; 82].
Proof.
  apply parse_normalize_port_set; [lia|lia|done|].
  split; [|split].
  - apply NoDup_ListNoDup. repeat constructor; simpl; lia.
  - repeat constructor; lia.
  - vm_compute. discriminate.
Defined.

(** [parse_port_mappings] pairs the i-th public port with the i-th target
    port, every port of each side being used once, and its output is a fixed
    point: parsing the two canonical expressions it returns gives the same
    mapping again. *)
Theorem parse_port_mappings_canonical (pe te : rstr) (minimum maximum max_count : Z)
    (pm : ParsedPortMappings) :
  1 ≤ minimum ≤ maximum → maximum ≤ U16_MAX → 0 ≤ max_count →
  parse_port_mappings pe te minimum maximum max_count = Ok pm →
  NoDup (public_port <$> pairs pm) ∧ NoDup (target_port <$> pairs pm) ∧
  1 ≤ len (pairs pm) ≤ max_count ∧
  parse_port_set pe minimum maximum max_count = Ok (public_port <$> pairs pm) ∧
  parse_port_set te 1 U16_MAX max_count = Ok (target_port <$> pairs pm) ∧
  parse_port_mappings (public_ports pm) (target_ports pm) minimum maximum max_count = Ok pm.
Proof.
  intros Hmin Hmax Hc H. unfold parse_port_mappings in H. bind_inv H. bind_inv H.
  case_bool_decide as Hlen; [done|]. simplify_eq/=.
  assert (length r = length r0) as Hl by (destruct (decide (length r = length r0)); done).
  pose proof E as (Hp & Hpne & _)%parse_port_set_inv; [|done].
  pose proof E0 as (Ht & Htne & _)%parse_port_set_inv; [|done].
  assert (public_port <$> zip_with Build_PortPair r r0 = r) as Hfst
    by (apply fmap_zip_with_l; [done|lia]).
  assert (target_port <$> zip_with Build_PortPair r r0 = r0) as Hsnd
    by (apply fmap_zip_with_r; [done|lia]).
  rewrite Hfst, Hsnd. split; [apply Hp|]. split; [apply Ht|]. split.
  { unfold len. rewrite length_zip_with. destruct Hp as (_ & _ & Hpl). unfold len in Hpl.
    rewrite <- Hl, Nat.min_id.
    assert (length r ≠ 0%nat) by (by rewrite length_zero_iff_nil). lia. }
  split; [done|]. split; [done|]. unfold parse_port_mappings.
  rewrite (normalize_port_set_parses minimum maximum max_count r) by done.
  rewrite (normalize_port_set_parses 1 U16_MAX max_count r0) by (done || lia).
  cbn [mbind result_bind]. by rewrite bool_decide_false by (intros Hx; apply Hx, Hl).
Qed.

Lemma parse_port_mappings_canonical_witness :
  parse_port_mappings (lit "32001,32010-32012") (lit "2333,2400-2402") 32000 32999 MAX_PORT_MAPPINGS =
  Ok {| public_ports := lit "32001,32010-32012"; target_ports := lit "2333,2400-2402";
        pairs := [Build_PortPair 32001 2333; Build_PortPair 32010 2400;
                  Build_PortPair 32011 2401; Build_PortPair 32012 2402] |}.
Proof.
  refine (proj2 (proj2 (proj2 (proj2 (proj2 (parse_port_mappings_canonical
    (lit " 32001, 32010 - 32012 ") (lit "2333,2400,2401-2402") 32000 32999 MAX_PORT_MAPPINGS
    {| public_ports := lit "32001,32010-32012"; target_ports := lit "2333,2400-2402";
       pairs := [Build_PortPair 32001 2333; Build_PortPair 32010 2400;
                 Build_PortPair 32011 2401; Build_PortPair 32012 2402] |} _ _ _ _)))))).
  - lia.
  - lia.
  - vm_compute. discriminate.
  - vm_compute. reflexivity.
Defined.
