(* ===== verification/TargetPool.v ===== *)
(** * Weighted target pools ([crates/linklake-core/src/target_pool.rs])

    Parsing of ["host:port@weight"] pools and weighted round-robin selection,
    with the canonical printed form that [fleet_protocol.rs] compares against. *)

From S2P Require Import Prelude RustStr NetAddr.
Local Open Scope Z_scope.

Definition MAX_TARGETS : Z := 16.
Definition MAX_TARGET_WEIGHT : Z := 10000.

Record WeightedTarget := { address : rstr; weight : Z }.

Inductive TargetPoolError :=
  | TPE_Empty
  | TPE_TooMany
  | TPE_InvalidAddress
  | TPE_InvalidWeight.

(** ** Operations *)

Definition valid_dns_name (host : rstr) : bool :=
  (str_len host <=? 253) && all valid_dns_label (split ch_dot host).

Definition forbidden_char (c : Z) : bool :=
  is_whitespace c || is_control c ||
  (c =? ch_slash) || (c =? ch_backslash) || (c =? ch_question) || (c =? ch_hash) || (c =? ch_at).

(** Host and port of an address; a bracketed host must be an IPv6 address, any
    other host contains no colon. *)
Definition split_host_port (value : rstr) : result TargetPoolError (rstr * rstr) :=
  match strip_prefix [ch_lbracket] value with
  | Some rest =>
      '(host, port) ← ok_or (split_once_str [ch_rbracket; ch_colon] rest) TPE_InvalidAddress;
      match parse_ipv6 host with
      | None => Err TPE_InvalidAddress
      | Some _ => Ok (host, port)
      end
  | None =>
      '(host, port) ← ok_or (rsplit_once ch_colon value) TPE_InvalidAddress;
      if contains_char ch_colon host then Err TPE_InvalidAddress else Ok (host, port)
  end.

Definition validate_address (value : rstr) : result TargetPoolError unit :=
  if bool_decide (value = []) || (255 <? str_len value) || any forbidden_char value ||
     contains_str (lit "://") value
  then Err TPE_InvalidAddress
  else
    '(host, port) ← split_host_port value;
    if bool_decide (host = []) || contains_char ch_lbracket host || contains_char ch_rbracket host
    then Err TPE_InvalidAddress
    else
      port ← ok_or (parse_uint U16_MAX port) TPE_InvalidAddress;
      if port =? 0 then Err TPE_InvalidAddress
      else if negb (starts_with ch_lbracket value) && bool_decide (parse_ipv4 host = None) &&
              negb (valid_dns_name host)
      then Err TPE_InvalidAddress
      else Ok tt.

(** The closure mapped over the comma separated segments. *)
Definition parse_target (segment : rstr) : result TargetPoolError WeightedTarget :=
  let segment := trim segment in
  '(addr, w) ←
    match rsplit_once ch_at segment with
    | Some (addr, w) =>
        match parse_uint U32_MAX w with
        | None => Err TPE_InvalidWeight
        | Some w =>
            if (w =? 0) || (MAX_TARGET_WEIGHT <? w) then Err TPE_InvalidWeight
            else Ok (trim addr, w)
        end
    | None => Ok (segment, 1)
    end;
  _ ← validate_address addr;
  Ok {| address := addr; weight := w |}.

Definition parse_target_pool (value : rstr) : result TargetPoolError (list WeightedTarget) :=
  let value := trim value in
  if bool_decide (value = []) then Err TPE_Empty
  else
    let segments := split ch_comma value in
    if MAX_TARGETS <? len segments then Err TPE_TooMany
    else collect parse_target segments.

Definition total_weight (targets : list WeightedTarget) : Z :=
  fold_right (λ t acc, weight t + acc) 0 targets.

(** The selection loop: [slot] counts down through the weights. *)
Fixpoint select_loop (targets : list WeightedTarget) (slot : Z) : option rstr :=
  match targets with
  | [] => None
  | t :: ts => if slot <? weight t then Some (address t) else select_loop ts (slot - weight t)
  end.

Definition select_weighted_target (targets : list WeightedTarget) (sequence : Z) : option rstr :=
  let total := total_weight targets in
  if total =? 0 then None else select_loop targets (sequence mod total).

(** The canonical form of [validate_target_pool] in [fleet_protocol.rs]. *)
Definition print_target (t : WeightedTarget) : rstr :=
  if weight t =? 1 then address t else address t ++ [ch_at] ++ to_string (weight t).
Definition canonical_target_pool (targets : list WeightedTarget) : rstr :=
  join [ch_comma] (print_target <$> targets).

(** ** Selection against the expanded pool *)

(** Every address repeated as often as its weight says. *)
Definition expand (targets : list WeightedTarget) : list rstr :=
  targets ≫= λ t, replicate (Z.to_nat (weight t)) (address t).

Definition weights_ok (targets : list WeightedTarget) : Prop :=
  Forall (λ t, 0 ≤ weight t) targets.

Lemma total_weight_nonneg targets : weights_ok targets → 0 ≤ total_weight targets.
Proof. induction 1; simpl in *; lia. Qed.

Lemma len_expand targets : weights_ok targets → len (expand targets) = total_weight targets.
Proof.
  induction 1 as [|t ts Ht _ IH]; [done|]. unfold expand in *. rewrite bind_cons, len_app, IH.
  unfold len. rewrite length_replicate. simpl. lia.
Qed.

Lemma select_loop_expand targets slot :
  weights_ok targets → 0 ≤ slot →
  select_loop targets slot = expand targets !! Z.to_nat slot.
Proof.
  intros H. revert slot. induction H as [|t ts Ht _ IH]; intros slot Hs; [done|].
  unfold expand. rewrite bind_cons. cbn [select_loop]. simpl in Ht. zcase.
  - rewrite lookup_app_l by (rewrite length_replicate; lia).
    symmetry. apply lookup_replicate_2. lia.
  - rewrite lookup_app_r by (rewrite length_replicate; lia).
    rewrite length_replicate, IH by lia. unfold expand. f_equal. lia.
Qed.

Lemma select_expand targets sequence :
  weights_ok targets → total_weight targets ≠ 0 →
  select_weighted_target targets sequence =
    expand targets !! Z.to_nat (sequence mod total_weight targets).
Proof.
  intros Hw Ht. unfold select_weighted_target. rewrite (proj2 (Z.eqb_neq _ _)) by done.
  pose proof (total_weight_nonneg _ Hw).
  pose proof (Z.mod_pos_bound sequence (total_weight targets)).
  apply select_loop_expand; [done|lia].
Qed.

(** A window of [length l] consecutive indices modulo [length l] reads every
    element of [l] once. *)
Lemma lookup_window_perm {A} (l : list A) (s : Z) :
  0 < len l →
  (λ k, l !! Z.to_nat ((s + k) mod len l)) <$> seqZ 0 (len l) ≡ₚ Some <$> l.
Proof.
  intros Hl. pose proof (Z.mod_pos_bound s (len l) Hl) as Hm. set (r := s mod len l) in *.
  assert ((λ k, l !! Z.to_nat ((s + k) mod len l)) <$> seqZ 0 (len l) =
          Some <$> (drop (Z.to_nat r) l ++ take (Z.to_nat r) l)) as ->.
  2:{ apply fmap_Permutation. rewrite Permutation_app_comm. by rewrite take_drop. }
  apply list_eq. intros i. rewrite !list_lookup_fmap.
  destruct (decide (i < length l)%nat) as [Hi|Hi].
  - rewrite lookup_seqZ_lt by (unfold len; lia). simpl.
    replace ((s + (0 + Z.of_nat i)) mod len l) with
      (if r + Z.of_nat i <? len l then r + Z.of_nat i else r + Z.of_nat i - len l).
    2:{ rewrite Z.add_0_l, Z.add_mod by lia. fold r.
        rewrite (Z.mod_small (Z.of_nat i)) by (unfold len; lia). zcase.
        - rewrite Z.mod_small; [done|lia].
        - apply (Z.mod_unique _ _ 1); unfold len in *; lia. }
    zcase.
    + rewrite lookup_app_l by (rewrite length_drop; unfold len in *; lia).
      rewrite lookup_drop. replace (Z.to_nat (r + Z.of_nat i)) with (Z.to_nat r + i)%nat by lia.
      destruct (lookup_lt_is_Some_2 l (Z.to_nat r + i)) as [x ->]; [unfold len in *; lia|done].
    + rewrite lookup_app_r by (rewrite length_drop; unfold len in *; lia).
      rewrite length_drop, lookup_take_lt by (unfold len in *; lia).
      replace (i - (length l - Z.to_nat r))%nat with (Z.to_nat (r + Z.of_nat i - len l))
        by (unfold len in *; lia).
      destruct (lookup_lt_is_Some_2 l (Z.to_nat (r + Z.of_nat i - len l))) as [x ->];
        [unfold len in *; lia|done].
  - rewrite lookup_seqZ_ge by (unfold len; lia). simpl.
    rewrite lookup_app_r by (rewrite length_drop; lia).
    rewrite (proj2 (lookup_ge_None _ _)); [done|]. rewrite length_drop, length_take. lia.
Qed.

(** ** Parsed pools *)

Definition target_ok (t : WeightedTarget) : Prop :=
  validate_address (address t) = Ok tt ∧ 1 ≤ weight t ≤ MAX_TARGET_WEIGHT.

Lemma validate_address_chars value :
  validate_address value = Ok tt →
  value ≠ [] ∧ no_ws value ∧ lacks ch_at value.
Proof.
  unfold validate_address. case_match eqn:E; [done|]. intros _. bool_prop.
  repeat match goal with H : _ ∧ _ |- _ => destruct H end.
  split; [done|].
  match goal with H : any forbidden_char value = false |- _ => apply any_false_Forall in H;
    rename H into Hf end.
  split; (eapply Forall_impl; [exact Hf|]); unfold forbidden_char; intros c Hc; simpl in Hc;
    bool_prop; done.
Qed.

Lemma parse_target_ok segment t :
  parse_target segment = Ok t → target_ok t ∧ (lacks ch_comma segment → lacks ch_comma (address t)).
Proof.
  assert (∀ s d, lacks d s → lacks d (trim_start s)) as Hts.
  { intros s d. induction 1 as [|c s Hc Hs IH]; simpl; [constructor|].
    case_match; [done|]. by constructor. }
  assert (∀ s d, lacks d s → lacks d (trim s)) as Htrim.
  { intros s d Hs. unfold trim, trim_end, lacks. apply Forall_rev, Hts, Forall_rev, Hts, Hs. }
  unfold parse_target. intros H. bind_inv H. destruct r as [addr w]. bind_inv H. simplify_eq/=.
  destruct (rsplit_once ch_at (trim segment)) as [[a w']|] eqn:Er.
  - destruct (parse_uint U32_MAX w') as [n|] eqn:Ew; [|done].
    apply parse_uint_bound in Ew; [|lia].
    case_match eqn:Ec; [done|]. simplify_eq. bool_prop. split.
    + split; [|simpl; lia]. simpl. rewrite E0. by destruct r.
    + intros Hl. simpl. apply Htrim. apply Htrim in Hl.
      apply rsplit_once_Some in Er as [_ Er]. rewrite Er in Hl. by apply Forall_app in Hl as [? _].
  - simplify_eq. split.
    + split; [|simpl; unfold MAX_TARGET_WEIGHT; lia]. simpl. rewrite E0. by destruct r.
    + intros Hl. simpl. by apply Htrim.
Qed.

Lemma parse_target_pool_ok value ts :
  parse_target_pool value = Ok ts →
  1 ≤ len ts ≤ MAX_TARGETS ∧ Forall (λ t, target_ok t ∧ lacks ch_comma (address t)) ts.
Proof.
  unfold parse_target_pool. case_match; [done|]. case_match eqn:El; [done|]. bool_prop.
  intros H1%collect_Ok. assert (len ts = len (split ch_comma (trim value))) as ->
    by (unfold len; by rewrite (Forall2_length _ _ _ H1)).
  split.
  - split; [|done]. pose proof (split_not_nil ch_comma (trim value)) as Hne.
    destruct (split ch_comma (trim value)) as [|p ps]; [done|]. rewrite len_cons.
    pose proof (len_nonneg ps). lia.
  - pose proof (split_pieces_lack ch_comma (trim value)) as Hp. clear El.
    induction H1 as [|s t ss ts Hs _ IH]; constructor.
    + inversion Hp; subst. apply parse_target_ok in Hs as [? ?]. auto.
    + inversion Hp; subst. auto.
Qed.

Lemma parse_print_target t : target_ok t → parse_target (print_target t) = Ok t.
Proof.
  intros [Hv Hw]. destruct (validate_address_chars _ Hv) as (Hne & Hws & Hat).
  unfold MAX_TARGET_WEIGHT in *.
  destruct t as [addr w]. simpl in *. unfold parse_target, print_target. simpl.
  destruct (Z.eqb_spec w 1) as [->|Hw1].
  - rewrite trim_no_ws by done.
    rewrite (proj2 (rsplit_once_None _ _)) by done. simpl. by rewrite Hv.
  - assert (digits_ok (to_string w)) as Hd by (apply to_string_digits; lia).
    rewrite trim_no_ws.
    2:{ apply Forall_app. split; [done|]. constructor; [done|]. by apply digits_no_ws. }
    rewrite (proj2 (rsplit_once_Some ch_at _ addr (to_string w))).
    2:{ split; [|done]. apply digits_lack; [done|lia]. }
    rewrite parse_uint_to_string by lia.
    rewrite (proj2 (Z.eqb_neq w 0)), (proj2 (Z.ltb_ge _ w)) by (unfold MAX_TARGET_WEIGHT; lia).
    cbn [orb mbind result_bind]. rewrite trim_no_ws by done. by rewrite Hv.
Qed.

Lemma print_target_chars t :
  target_ok t → lacks ch_comma (address t) →
  print_target t ≠ [] ∧ no_ws (print_target t) ∧ lacks ch_comma (print_target t).
Proof.
  intros [Hv Hw] Hc. destruct (validate_address_chars _ Hv) as (Hne & Hws & Hat).
  unfold print_target. zcase; [done|].
  assert (digits_ok (to_string (weight t))) as Hd by (apply to_string_digits; lia).
  split; [by intros [? _]%app_nil|]. split; (apply Forall_app; split; [done|]).
  - constructor; [done|by apply digits_no_ws].
  - constructor; [done|]. apply digits_lack; [done|lia].
Qed.

(** ** Properties *)

(** A pool accepted by [parse_target_pool] has between 1 and 16 targets,
    each with a valid address and a weight between 1 and 10000; its total weight
    is positive and at most 160000, so the [u64] sum of the selection cannot
    overflow and selection always finds a target of the pool. *)
Theorem parsed_pool_selects (value : rstr) (ts : list WeightedTarget) (sequence : Z) :
  parse_target_pool value = Ok ts →
  1 ≤ len ts ≤ MAX_TARGETS ∧ Forall target_ok ts ∧
  1 ≤ total_weight ts ≤ MAX_TARGETS * MAX_TARGET_WEIGHT ∧
  ∃ t, t ∈ ts ∧ select_weighted_target ts sequence = Some (address t).
Proof.
  intros [Hl Hok]%parse_target_pool_ok.
  assert (Forall target_ok ts) as Hts by (eapply Forall_impl; [exact Hok|]; by intros t [? _]).
  assert (len ts ≤ total_weight ts ≤ len ts * MAX_TARGET_WEIGHT) as Htw.
  { clear Hl Hok. induction Hts as [|t ts [_ Hw] _ IH]; [done|].
    rewrite len_cons. simpl. unfold MAX_TARGET_WEIGHT in *. lia. }
  assert (weights_ok ts) as Hw.
  { eapply Forall_impl; [exact Hts|]. intros t [_ ?]. lia. }
  split; [done|]. split; [done|].
  split; [unfold MAX_TARGETS, MAX_TARGET_WEIGHT in *; lia|].
  rewrite select_expand by (done || lia).
  pose proof (Z.mod_pos_bound sequence (total_weight ts) ltac:(lia)) as Hm.
  destruct (lookup_lt_is_Some_2 (expand ts) (Z.to_nat (sequence mod total_weight ts))) as [a Ha].
  { pose proof (len_expand ts Hw). unfold len in *. lia. }
  rewrite Ha. apply list_elem_of_lookup_2 in Ha. unfold expand in Ha.
  apply list_elem_of_bind in Ha as (t & [-> _]%elem_of_replicate & Ht). by exists t.
Qed.

Lemma parsed_pool_selects_witness :
  1 ≤ total_weight [Build_WeightedTarget (lit "127.0.0.1:2333") 2; Build_WeightedTarget (lit "game.local:2444") 1]
    ≤ MAX_TARGETS * MAX_TARGET_WEIGHT.
Proof.
  refine (proj1 (proj2 (proj2 (parsed_pool_selects (lit "127.0.0.1:2333@2, game.local:2444@1") _ 0 _)))).
  vm_compute. reflexivity.
Defined.

(** Weighted selection is the cyclic walk over the expanded pool in which
    every address occurs as often as its weight, although the pool is never
    expanded; any [total] consecutive sequence numbers therefore hit every
    target exactly [weight] times. *)
Theorem select_weighted_fair (ts : list WeightedTarget) (s : Z) :
  Forall (λ t, 0 ≤ weight t) ts → total_weight ts ≠ 0 →
  (∀ n, select_weighted_target ts n = expand ts !! Z.to_nat (n mod total_weight ts)) ∧
  (λ k, select_weighted_target ts (s + k)) <$> seqZ 0 (total_weight ts) ≡ₚ Some <$> expand ts.
Proof.
  intros Hw Ht. split; [intros n; by apply select_expand|].
  pose proof (len_expand ts Hw) as Hlen. pose proof (total_weight_nonneg ts Hw).
  rewrite <- (lookup_window_perm (expand ts) s) by lia. rewrite Hlen.
  apply reflexive_eq, list_fmap_ext. intros i k _. by apply select_expand.
Qed.

Lemma select_weighted_fair_witness :
  (λ k, select_weighted_target [Build_WeightedTarget [97] 2; Build_WeightedTarget [98] 1] (5 + k)) <$>
    seqZ 0 3 ≡ₚ [Some [97]; Some [97]; Some [98]].
Proof.
  apply (select_weighted_fair [Build_WeightedTarget [97] 2; Build_WeightedTarget [98] 1] 5).
  - repeat constructor; simpl; lia.
  - vm_compute. discriminate.
Defined.

(** The canonical string of a parsed pool parses back to the same pool. *)
Theorem canonical_target_pool_roundtrip (value : rstr) (ts : list WeightedTarget) :
  parse_target_pool value = Ok ts →
  parse_target_pool (canonical_target_pool ts) = Ok ts.
Proof.
  intros [Hl Hok]%parse_target_pool_ok. unfold parse_target_pool, canonical_target_pool.
  assert (Forall (λ t, print_target t ≠ [] ∧ no_ws (print_target t) ∧
                       lacks ch_comma (print_target t)) ts) as Hc.
  { eapply Forall_impl; [exact Hok|]. intros t [? ?]. by apply print_target_chars. }
  rewrite trim_no_ws.
  2:{ apply join_no_ws; [apply no_ws_comma|]. apply Forall_fmap.
      eapply Forall_impl; [exact Hc|]. by intros t (_ & ? & _). }
  rewrite bool_decide_false.
  2:{ destruct Hc as [|t ts (Hne & _)]; [rewrite len_nil in Hl; lia|]. by apply join_not_nil. }
  rewrite split_join.
  2:{ intros ->%fmap_nil_inv. rewrite len_nil in Hl. lia. }
  2:{ apply Forall_fmap. eapply Forall_impl; [exact Hc|]. by intros t (_ & _ & ?). }
  unfold len in *. rewrite length_fmap. rewrite (proj2 (Z.ltb_ge _ _)) by lia.
  apply collect_Ok, Forall2_fmap_l. clear Hl Hc. induction Hok as [|t ts [Ht _] _ IH]; constructor.
  - by apply parse_print_target.
  - done.
Qed.

Lemma canonical_target_pool_roundtrip_witness :
  parse_target_pool (lit "[2001:db8::1]:443@7,localhost:80") =
    Ok [Build_WeightedTarget (lit "[2001:db8::1]:443") 7; Build_WeightedTarget (lit "localhost:80") 1].
Proof.
  exact (canonical_target_pool_roundtrip (lit "[2001:db8::1]:443 @7 , localhost:80@1")
    [Build_WeightedTarget (lit "[2001:db8::1]:443") 7; Build_WeightedTarget (lit "localhost:80") 1]
    ltac:(vm_compute; reflexivity)).
Defined.
