(* ===== verification/EgressPolicy.v ===== *)
(** * Dynamic egress policy ([crates/linklake-core/src/egress_policy.rs])

    Classification of the IP addresses that SOCKS5 and HTTP proxy clients ask
    for, and the decision which of them may be contacted. *)

From S2P Require Import Prelude RustStr NetAddr.
Local Open Scope Z_scope.

Inductive EgressAddressClass :=
  | Public
  | PrivateNetwork
  | CloudMetadata
  | Sensitive.

Global Instance EgressAddressClass_eq_dec : EqDecision EgressAddressClass.
Proof. solve_decision. Defined.

Record EgressPolicy := { allow_private_networks : bool }.

Inductive EgressPolicyError :=
  | PrivateNetworkDenied
  | CloudMetadataDenied
  | SensitiveAddressDenied.

(** ** Operations *)

Definition public_only : EgressPolicy := {| allow_private_networks := false |}.
Definition policy_new (allow : bool) : EgressPolicy := {| allow_private_networks := allow |}.

(** [MAX << (width - prefix)] truncated to the width, or zero. *)
Definition prefix_mask (width prefix : Z) : Z :=
  if prefix =? 0 then 0
  else Z.land (Z.shiftl (Z.ones width) (width - prefix)) (Z.ones width).

Definition ipv4_in_prefix (address network prefix : Z) : bool :=
  Z.land address (prefix_mask 32 prefix) =? Z.land network (prefix_mask 32 prefix).
Definition ipv6_in_prefix (address network prefix : Z) : bool :=
  Z.land address (prefix_mask 128 prefix) =? Z.land network (prefix_mask 128 prefix).

Definition classify_ipv4 (address : Z) : EgressAddressClass :=
  if bool_decide (ipv4_octets address = [169; 254; 169; 254]) ||
     bool_decide (ipv4_octets address = [100; 100; 100; 200]) ||
     bool_decide (ipv4_octets address = [168; 63; 129; 16])
  then CloudMetadata
  else if ipv4_in_prefix address (Ipv4_new 10 0 0 0) 8 ||
          ipv4_in_prefix address (Ipv4_new 100 64 0 0) 10 ||
          ipv4_in_prefix address (Ipv4_new 172 16 0 0) 12 ||
          ipv4_in_prefix address (Ipv4_new 192 168 0 0) 16
  then PrivateNetwork
  else if ipv4_in_prefix address (Ipv4_new 0 0 0 0) 8 ||
          ipv4_in_prefix address (Ipv4_new 127 0 0 1) 8 ||
          ipv4_in_prefix address (Ipv4_new 169 254 0 0) 16 ||
          ipv4_in_prefix address (Ipv4_new 192 0 0 0) 24 ||
          ipv4_in_prefix address (Ipv4_new 192 0 2 0) 24 ||
          ipv4_in_prefix address (Ipv4_new 192 88 99 0) 24 ||
          ipv4_in_prefix address (Ipv4_new 198 18 0 0) 15 ||
          ipv4_in_prefix address (Ipv4_new 198 51 100 0) 24 ||
          ipv4_in_prefix address (Ipv4_new 203 0 113 0) 24 ||
          ipv4_in_prefix address (Ipv4_new 224 0 0 0) 4 ||
          ipv4_in_prefix address (Ipv4_new 240 0 0 0) 4
  then Sensitive
  else Public.

(** [Ipv6Addr::to_ipv4_mapped]: [::ffff:a.b.c.d]. *)
Definition to_ipv4_mapped (address : Z) : option Z :=
  if address / 2 ^ 32 =? 65535 then Some (address mod 2 ^ 32) else None.

Definition classify_ipv6 (address : Z) : EgressAddressClass :=
  match to_ipv4_mapped address with
  | Some mapped => classify_ipv4 mapped
  | None =>
      if ipv6_in_prefix address (Ipv6_new 0x0064 0xff9b 0 0 0 0 0 0) 96 then
        classify_ipv4 (from_be_bytes (slice 12 16 (ipv6_octets address)))
      else if address =? Ipv6_new 0xfd00 0x0ec2 0 0 0 0 0 0x0254 then CloudMetadata
      else if ipv6_in_prefix address (Ipv6_new 0xfc00 0 0 0 0 0 0 0) 7 then PrivateNetwork
      else if (address =? 0) || (address =? 1) ||
              ipv6_in_prefix address 0 96 ||
              ipv6_in_prefix address (Ipv6_new 0x0064 0xff9b 0x0001 0 0 0 0 0) 48 ||
              ipv6_in_prefix address (Ipv6_new 0x0100 0 0 0 0 0 0 0) 64 ||
              ipv6_in_prefix address (Ipv6_new 0x2001 0 0 0 0 0 0 0) 23 ||
              ipv6_in_prefix address (Ipv6_new 0x2001 0x0db8 0 0 0 0 0 0) 32 ||
              ipv6_in_prefix address (Ipv6_new 0x2002 0 0 0 0 0 0 0) 16 ||
              ipv6_in_prefix address (Ipv6_new 0x3fff 0 0 0 0 0 0 0) 20 ||
              ipv6_in_prefix address (Ipv6_new 0x5f00 0 0 0 0 0 0 0) 16 ||
              ipv6_in_prefix address (Ipv6_new 0xfe80 0 0 0 0 0 0 0) 10 ||
              ipv6_in_prefix address (Ipv6_new 0xfec0 0 0 0 0 0 0 0) 10 ||
              ipv6_in_prefix address (Ipv6_new 0xff00 0 0 0 0 0 0 0) 8 ||
              negb (ipv6_in_prefix address (Ipv6_new 0x2000 0 0 0 0 0 0 0) 3)
      then Sensitive
      else Public
  end.

Definition classify_ip (address : IpAddr) : EgressAddressClass :=
  match address with V4 a => classify_ipv4 a | V6 a => classify_ipv6 a end.

Definition validate_ip (self : EgressPolicy) (address : IpAddr) : result EgressPolicyError unit :=
  match classify_ip address with
  | Public => Ok tt
  | PrivateNetwork => if allow_private_networks self then Ok tt else Err PrivateNetworkDenied
  | CloudMetadata => Err CloudMetadataDenied
  | Sensitive => Err SensitiveAddressDenied
  end.

(** ** Prefix tests as intervals *)

Lemma testbit_ones_shifted w k i :
  0 ≤ k ≤ w → 0 ≤ i →
  Z.testbit (Z.land (Z.shiftl (Z.ones w) k) (Z.ones w)) i = (k <=? i) && (i <? w).
Proof.
  intros Hk Hi. rewrite Z.land_spec, Z.shiftl_spec by done.
  rewrite (Z.testbit_ones_nonneg w i) by lia.
  destruct (Z.leb_spec k i).
  - rewrite Z.testbit_ones_nonneg by lia. repeat zcase; done || lia.
  - by rewrite Z.testbit_neg_r by lia.
Qed.

Lemma land_prefix_mask w p a :
  0 ≤ p ≤ w → 0 ≤ a < 2 ^ w →
  Z.land a (prefix_mask w p) = a / 2 ^ (w - p) * 2 ^ (w - p).
Proof.
  intros Hp Ha. unfold prefix_mask. destruct (Z.eqb_spec p 0) as [->|Hp0].
  - rewrite Z.land_0_r, Z.sub_0_r, Z.div_small by lia. done.
  - rewrite <- Z.shiftr_div_pow2, <- Z.shiftl_mul_pow2 by lia.
    apply Z.bits_inj'. intros i Hi. rewrite Z.land_spec, testbit_ones_shifted by lia.
    rewrite Z.shiftl_spec by lia. destruct (Z.leb_spec (w - p) i).
    + rewrite Z.shiftr_spec by lia. replace (i - (w - p) + (w - p)) with i by lia.
      destruct (Z.ltb_spec i w); [by rewrite andb_true_r|]. simpl. rewrite andb_false_r.
      destruct (decide (a = 0)) as [->|]; [by rewrite Z.bits_0|].
      symmetry. apply Z.bits_above_log2; [lia|].
      apply Z.lt_le_trans with w; [|done]. apply Z.log2_lt_pow2; lia.
    + simpl. by rewrite andb_false_r, Z.testbit_neg_r by lia.
Qed.

Lemma in_prefix_div w p a n :
  0 ≤ p ≤ w → 0 ≤ a < 2 ^ w → 0 ≤ n < 2 ^ w →
  (Z.land a (prefix_mask w p) =? Z.land n (prefix_mask w p)) = true ↔
  n / 2 ^ (w - p) * 2 ^ (w - p) ≤ a < n / 2 ^ (w - p) * 2 ^ (w - p) + 2 ^ (w - p).
Proof.
  intros Hp Ha Hn. rewrite Z.eqb_eq, !land_prefix_mask by done.
  assert (0 < 2 ^ (w - p)) as Hpos by (apply Z.pow_pos_nonneg; lia).
  pose proof (Z.div_mod a (2 ^ (w - p)) ltac:(lia)) as Hd.
  pose proof (Z.mod_pos_bound a (2 ^ (w - p)) Hpos) as Hm.
  set (k := 2 ^ (w - p)) in *. split.
  - intros <-. lia.
  - intros H. f_equal. symmetry. apply (Z.div_unique a k (n / k) (a - k * (n / k))); lia.
Qed.

(** Membership in a closed interval of addresses, as a boolean. *)
Definition between (a lo hi : Z) : bool := (lo <=? a) && (a <=? hi).

Lemma bool_iff (a b : bool) : (a = true ↔ b = true) → a = b.
Proof. destruct a, b; naive_solver. Qed.

Lemma ipv4_in_prefix_between a n p lo hi :
  0 ≤ p ≤ 32 → 0 ≤ a ≤ U32_MAX → 0 ≤ n ≤ U32_MAX →
  lo = n / 2 ^ (32 - p) * 2 ^ (32 - p) → hi = lo + 2 ^ (32 - p) - 1 →
  ipv4_in_prefix a n p = between a lo hi.
Proof.
  intros Hp Ha Hn -> ->. apply bool_iff. unfold ipv4_in_prefix, between.
  rewrite in_prefix_div, andb_true_iff, Z.leb_le, Z.leb_le by lia. lia.
Qed.

Lemma ipv6_in_prefix_between a n p lo hi :
  0 ≤ p ≤ 128 → 0 ≤ a ≤ U128_MAX → 0 ≤ n ≤ U128_MAX →
  lo = n / 2 ^ (128 - p) * 2 ^ (128 - p) → hi = lo + 2 ^ (128 - p) - 1 →
  ipv6_in_prefix a n p = between a lo hi.
Proof.
  intros Hp Ha Hn -> ->. apply bool_iff. unfold ipv6_in_prefix, between.
  rewrite in_prefix_div, andb_true_iff, Z.leb_le, Z.leb_le by lia. lia.
Qed.

(** ** Reference classification by address blocks *)

Definition in_blocks (a : Z) (blocks : list (Z * Z)) : bool :=
  any (λ '(lo, hi), between a lo hi) blocks.

Definition ipv4_metadata : list Z :=
  [Ipv4_new 169 254 169 254; Ipv4_new 100 100 100 200; Ipv4_new 168 63 129 16].

(** First and last address of every private block. *)
Definition ipv4_private_blocks : list (Z * Z) :=
  [(Ipv4_new 10 0 0 0, Ipv4_new 10 255 255 255);
   (Ipv4_new 100 64 0 0, Ipv4_new 100 127 255 255);
   (Ipv4_new 172 16 0 0, Ipv4_new 172 31 255 255);
   (Ipv4_new 192 168 0 0, Ipv4_new 192 168 255 255)].

(** First and last address of every block that is never reachable: this
    network, loopback, link local, protocol assignments, documentation, relay
    anycast, benchmarking, multicast and reserved. *)
Definition ipv4_sensitive_blocks : list (Z * Z) :=
  [(Ipv4_new 0 0 0 0, Ipv4_new 0 255 255 255);
   (Ipv4_new 127 0 0 0, Ipv4_new 127 255 255 255);
   (Ipv4_new 169 254 0 0, Ipv4_new 169 254 255 255);
   (Ipv4_new 192 0 0 0, Ipv4_new 192 0 0 255);
   (Ipv4_new 192 0 2 0, Ipv4_new 192 0 2 255);
   (Ipv4_new 192 88 99 0, Ipv4_new 192 88 99 255);
   (Ipv4_new 198 18 0 0, Ipv4_new 198 19 255 255);
   (Ipv4_new 198 51 100 0, Ipv4_new 198 51 100 255);
   (Ipv4_new 203 0 113 0, Ipv4_new 203 0 113 255);
   (Ipv4_new 224 0 0 0, Ipv4_new 239 255 255 255);
   (Ipv4_new 240 0 0 0, Ipv4_new 255 255 255 255)].

Definition ipv4_class (a : Z) : EgressAddressClass :=
  if bool_decide (a ∈ ipv4_metadata) then CloudMetadata
  else if in_blocks a ipv4_private_blocks then PrivateNetwork
  else if in_blocks a ipv4_sensitive_blocks then Sensitive
  else Public.

Lemma ipv4_octets_eq a l :
  0 ≤ a ≤ U32_MAX → length l = 4%nat → bytes_ok l →
  bool_decide (ipv4_octets a = l) = (a =? from_be_bytes l).
Proof.
  intros Ha Hl Hb. apply bool_iff. rewrite bool_decide_eq_true, Z.eqb_eq. unfold ipv4_octets. split.
  - intros <-. symmetry. apply from_to_be_bytes. simpl. lia.
  - intros ->. rewrite <- Hl. by apply to_from_be_bytes.
Qed.

Lemma classify_ipv4_class a : 0 ≤ a ≤ U32_MAX → classify_ipv4 a = ipv4_class a.
Proof.
  intros Ha. unfold classify_ipv4, ipv4_class.
  rewrite !ipv4_octets_eq by (done || by repeat constructor).
  assert (bool_decide (a ∈ ipv4_metadata) =
    (a =? from_be_bytes [169; 254; 169; 254]) || (a =? from_be_bytes [100; 100; 100; 200]) ||
    (a =? from_be_bytes [168; 63; 129; 16])) as ->.
  { apply bool_iff. rewrite bool_decide_eq_true, !orb_true_iff, !Z.eqb_eq.
    unfold ipv4_metadata, Ipv4_new. rewrite !elem_of_cons, elem_of_nil. tauto. }
  unfold in_blocks, ipv4_private_blocks, ipv4_sensitive_blocks. cbn [any existsb].
  rewrite !orb_false_r, <- !orb_assoc.
  repeat (erewrite ipv4_in_prefix_between; [|lia|done|vm_compute; done|vm_compute; done|vm_compute; done]).
  done.
Qed.

(** First and last address of the IPv6 blocks that are never reachable. *)
Definition ipv6_sensitive_blocks : list (Z * Z) :=
  [(0, Ipv6_new 0 0 0 0 0 0 0xffff 0xffff);
   (Ipv6_new 0x64 0xff9b 1 0 0 0 0 0, Ipv6_new 0x64 0xff9b 1 0xffff 0xffff 0xffff 0xffff 0xffff);
   (Ipv6_new 0x100 0 0 0 0 0 0 0, Ipv6_new 0x100 0 0 0 0xffff 0xffff 0xffff 0xffff);
   (Ipv6_new 0x2001 0 0 0 0 0 0 0, Ipv6_new 0x2001 0x1ff 0xffff 0xffff 0xffff 0xffff 0xffff 0xffff);
   (Ipv6_new 0x2001 0xdb8 0 0 0 0 0 0, Ipv6_new 0x2001 0xdb8 0xffff 0xffff 0xffff 0xffff 0xffff 0xffff);
   (Ipv6_new 0x2002 0 0 0 0 0 0 0, Ipv6_new 0x2002 0xffff 0xffff 0xffff 0xffff 0xffff 0xffff 0xffff);
   (Ipv6_new 0x3fff 0 0 0 0 0 0 0, Ipv6_new 0x3fff 0xfff 0xffff 0xffff 0xffff 0xffff 0xffff 0xffff);
   (Ipv6_new 0x5f00 0 0 0 0 0 0 0, Ipv6_new 0x5f00 0xffff 0xffff 0xffff 0xffff 0xffff 0xffff 0xffff);
   (Ipv6_new 0xfe80 0 0 0 0 0 0 0, Ipv6_new 0xfebf 0xffff 0xffff 0xffff 0xffff 0xffff 0xffff 0xffff);
   (Ipv6_new 0xfec0 0 0 0 0 0 0 0, Ipv6_new 0xfeff 0xffff 0xffff 0xffff 0xffff 0xffff 0xffff 0xffff);
   (Ipv6_new 0xff00 0 0 0 0 0 0 0, Ipv6_new 0xffff 0xffff 0xffff 0xffff 0xffff 0xffff 0xffff 0xffff)].

(** Global unicast space [2000::/3], the IPv4-mapped block and the NAT64 block. *)
Definition ipv6_global (a : Z) : bool :=
  between a (Ipv6_new 0x2000 0 0 0 0 0 0 0) (Ipv6_new 0x3fff 0xffff 0xffff 0xffff 0xffff 0xffff 0xffff 0xffff).
Definition ipv6_mapped_base : Z := Ipv6_new 0 0 0 0 0 0xffff 0 0.
Definition ipv6_nat64_base : Z := Ipv6_new 0x64 0xff9b 0 0 0 0 0 0.
Definition embedded_in (base a : Z) : bool := between a base (base + U32_MAX).

Definition ipv6_class (a : Z) : EgressAddressClass :=
  if embedded_in ipv6_mapped_base a then ipv4_class (a - ipv6_mapped_base)
  else if embedded_in ipv6_nat64_base a then ipv4_class (a - ipv6_nat64_base)
  else if a =? Ipv6_new 0xfd00 0xec2 0 0 0 0 0 0x254 then CloudMetadata
  else if between a (Ipv6_new 0xfc00 0 0 0 0 0 0 0)
                    (Ipv6_new 0xfdff 0xffff 0xffff 0xffff 0xffff 0xffff 0xffff 0xffff)
  then PrivateNetwork
  else if in_blocks a ipv6_sensitive_blocks || negb (ipv6_global a) then Sensitive
  else Public.

Definition ip_class (a : IpAddr) : EgressAddressClass :=
  match a with V4 x => ipv4_class x | V6 x => ipv6_class x end.

Lemma to_ipv4_mapped_spec a :
  0 ≤ a → to_ipv4_mapped a =
    if embedded_in ipv6_mapped_base a then Some (a - ipv6_mapped_base) else None.
Proof.
  intros Ha. unfold to_ipv4_mapped, embedded_in, between.
  change ipv6_mapped_base with (65535 * 2 ^ 32).
  pose proof (Z.div_mod a (2 ^ 32) ltac:(lia)) as Hd.
  pose proof (Z.mod_pos_bound a (2 ^ 32) ltac:(lia)) as Hm.
  destruct (Z.eqb_spec (a / 2 ^ 32) 65535) as [He|He].
  - rewrite (proj2 (Z.leb_le _ _)), (proj2 (Z.leb_le _ _)) by lia. simpl. f_equal. lia.
  - repeat zcase; simpl; try done. lia.
Qed.

(** The last four octets of an IPv6 address. *)
Lemma ipv6_low_octets a : from_be_bytes (slice 12 16 (ipv6_octets a)) = a mod 2 ^ 32.
Proof.
  assert (∀ n m v, slice n (n + m) (to_be_bytes (n + m) v) = to_be_bytes m v) as Hs.
  { intros n m. revert n. induction m as [|m IH]; intros n v.
    - unfold slice. replace (n + 0 - n)%nat with 0%nat by lia. done.
    - unfold slice in *. replace (n + S m)%nat with (S (n + m)) by lia. cbn [to_be_bytes].
      pose proof (length_to_be_bytes (n + m) (v / 256)) as Hl.
      rewrite drop_app_le by lia. specialize (IH n (v / 256)).
      replace (n + m - n)%nat with m in IH by lia.
      replace (S (n + m) - n)%nat with (S m) by lia.
      rewrite take_app_ge by (rewrite length_drop; lia).
      rewrite length_drop, Hl. replace (S m - (n + m - n))%nat with 1%nat by lia.
      f_equal. rewrite <- IH at 1. symmetry. apply take_ge. rewrite length_drop. lia. }
  unfold ipv6_octets. change 16%nat with (12 + 4)%nat. rewrite Hs.
  assert (∀ n v, from_be_bytes (to_be_bytes n v) = v mod 256 ^ Z.of_nat n) as Hmod.
  { intros n. induction n as [|n IH]; intros v; [by rewrite Z.mod_1_r|].
    cbn [to_be_bytes]. rewrite from_be_bytes_snoc, IH, Nat2Z.inj_succ, Z.pow_succ_r by lia.
    rewrite Z.rem_mul_r by (apply Z.pow_nonzero || lia; lia). lia. }
  by rewrite Hmod.
Qed.

Lemma nat64_low a :
  embedded_in ipv6_nat64_base a = true → a mod 2 ^ 32 = a - ipv6_nat64_base.
Proof.
  unfold embedded_in, between. intros H. bool_prop.
  symmetry. apply (Z.mod_unique _ _ (ipv6_nat64_base / 2 ^ 32)).
  - left. lia.
  - assert (ipv6_nat64_base = 2 ^ 32 * (ipv6_nat64_base / 2 ^ 32)) by (vm_compute; done). lia.
Qed.

Lemma ipv6_sensitive_tests a :
  0 ≤ a ≤ U128_MAX →
  (a =? 0) || (a =? 1) ||
    ipv6_in_prefix a 0 96 ||
    ipv6_in_prefix a (Ipv6_new 0x0064 0xff9b 0x0001 0 0 0 0 0) 48 ||
    ipv6_in_prefix a (Ipv6_new 0x0100 0 0 0 0 0 0 0) 64 ||
    ipv6_in_prefix a (Ipv6_new 0x2001 0 0 0 0 0 0 0) 23 ||
    ipv6_in_prefix a (Ipv6_new 0x2001 0x0db8 0 0 0 0 0 0) 32 ||
    ipv6_in_prefix a (Ipv6_new 0x2002 0 0 0 0 0 0 0) 16 ||
    ipv6_in_prefix a (Ipv6_new 0x3fff 0 0 0 0 0 0 0) 20 ||
    ipv6_in_prefix a (Ipv6_new 0x5f00 0 0 0 0 0 0 0) 16 ||
    ipv6_in_prefix a (Ipv6_new 0xfe80 0 0 0 0 0 0 0) 10 ||
    ipv6_in_prefix a (Ipv6_new 0xfec0 0 0 0 0 0 0 0) 10 ||
    ipv6_in_prefix a (Ipv6_new 0xff00 0 0 0 0 0 0 0) 8 ||
    negb (ipv6_in_prefix a (Ipv6_new 0x2000 0 0 0 0 0 0 0) 3) =
  in_blocks a ipv6_sensitive_blocks || negb (ipv6_global a).
Proof.
  intros Ha. unfold in_blocks, ipv6_sensitive_blocks, ipv6_global. cbn [any existsb].
  rewrite orb_false_r.
  repeat (erewrite ipv6_in_prefix_between; [|lia|done|vm_compute; done|vm_compute; done|vm_compute; done]).
  match goal with |- context [between a 0 ?h] =>
    change (Ipv6_new 0 0 0 0 0 0 0xffff 0xffff) with h;
    assert (between a 0 h = false → (a =? 0) = false ∧ (a =? 1) = false) as Hz;
    [|destruct (between a 0 h)] end.
  - unfold between. intros Hz. bool_prop. rewrite !Z.eqb_neq. lia.
  - by rewrite !orb_true_r, !orb_true_l.
  - destruct (Hz eq_refl) as [-> ->]. cbn [orb]. by rewrite <- !orb_assoc.
Qed.

Lemma classify_ipv6_class a : 0 ≤ a ≤ U128_MAX → classify_ipv6 a = ipv6_class a.
Proof.
  intros Ha. unfold classify_ipv6, ipv6_class. rewrite to_ipv4_mapped_spec by lia.
  destruct (embedded_in ipv6_mapped_base a) eqn:Em.
  { apply classify_ipv4_class. unfold embedded_in, between in Em. bool_prop. lia. }
  rewrite ipv6_sensitive_tests by done.
  assert (ipv6_in_prefix a (Ipv6_new 0x0064 0xff9b 0 0 0 0 0 0) 96 =
          embedded_in ipv6_nat64_base a) as ->.
  { by apply ipv6_in_prefix_between. }
  assert (ipv6_in_prefix a (Ipv6_new 0xfc00 0 0 0 0 0 0 0) 7 =
          between a (Ipv6_new 0xfc00 0 0 0 0 0 0 0)
            (Ipv6_new 0xfdff 0xffff 0xffff 0xffff 0xffff 0xffff 0xffff 0xffff)) as ->.
  { by apply ipv6_in_prefix_between. }
  destruct (embedded_in ipv6_nat64_base a) eqn:En; [|done].
  rewrite ipv6_low_octets, nat64_low by done. apply classify_ipv4_class.
  unfold embedded_in, between in En. bool_prop. lia.
Qed.

Lemma embedded_base base x :
  0 ≤ x ≤ U32_MAX → embedded_in base (base + x) = true.
Proof. intros Hx. unfold embedded_in, between. apply andb_true_iff. rewrite !Z.leb_le. lia. Qed.

(** ** Properties *)

(** The bit-mask classification of every IPv4 and IPv6 address agrees with
    the reference classification by first and last address of each block. *)
Theorem classify_ip_reference (a : IpAddr) : ip_ok a → classify_ip a = ip_class a.
Proof. destruct a; [apply classify_ipv4_class|apply classify_ipv6_class]. Qed.

Lemma classify_ip_reference_witness :
  classify_ip (V4 (Ipv4_new 172 31 255 254)) = PrivateNetwork.
Proof. refine (eq_trans (classify_ip_reference (V4 (Ipv4_new 172 31 255 254)) _) _); vm_compute; done. Defined.

(** An IPv6 spelling of an IPv4 address does not change the decision: the
    IPv4-mapped and the NAT64 form of any IPv4 address get exactly the verdict
    of the IPv4 address itself. *)
Theorem embedded_ipv4_same_verdict (policy : EgressPolicy) (x : Z) :
  0 ≤ x ≤ U32_MAX →
  validate_ip policy (V6 (ipv6_mapped_base + x)) = validate_ip policy (V4 x) ∧
  validate_ip policy (V6 (ipv6_nat64_base + x)) = validate_ip policy (V4 x).
Proof.
  intros Hx. unfold validate_ip. cbn [classify_ip].
  assert (0 ≤ ipv6_mapped_base ∧ ipv6_mapped_base + U32_MAX < ipv6_nat64_base ∧
          ipv6_nat64_base + U32_MAX ≤ U128_MAX) as Hb by (vm_compute; done).
  rewrite !classify_ipv6_class, classify_ipv4_class by lia. unfold ipv6_class.
  rewrite (embedded_base ipv6_mapped_base x Hx), (embedded_base ipv6_nat64_base x Hx).
  assert (embedded_in ipv6_mapped_base (ipv6_nat64_base + x) = false) as ->.
  { unfold embedded_in, between. apply andb_false_iff. rewrite !Z.leb_gt. lia. }
  replace (ipv6_mapped_base + x - ipv6_mapped_base) with x by lia.
  replace (ipv6_nat64_base + x - ipv6_nat64_base) with x by lia. done.
Qed.

Lemma embedded_ipv4_same_verdict_witness :
  validate_ip (policy_new true) (V6 (ipv6_nat64_base + Ipv4_new 169 254 169 254)) = Err CloudMetadataDenied.
Proof.
  refine (eq_trans (proj2 (embedded_ipv4_same_verdict (policy_new true) (Ipv4_new 169 254 169 254) _)) _);
    vm_compute; done.
Defined.

(** The policy fails closed: an accepted IPv4 address is none of the cloud
    metadata addresses, lies in no sensitive block, and lies in a private block
    only when private networks were explicitly allowed; an accepted native IPv6
    address lies in the global unicast space outside every sensitive block, or
    is a non-metadata unique local address and private networks were allowed. *)
Theorem validate_ip_fails_closed (policy : EgressPolicy) (a : IpAddr) :
  ip_ok a → validate_ip policy a = Ok tt →
  match a with
  | V4 x =>
      x ∉ ipv4_metadata ∧ in_blocks x ipv4_sensitive_blocks = false ∧
      (in_blocks x ipv4_private_blocks = true → allow_private_networks policy = true)
  | V6 x =>
      embedded_in ipv6_mapped_base x = false → embedded_in ipv6_nat64_base x = false →
      x ≠ Ipv6_new 0xfd00 0xec2 0 0 0 0 0 0x254 ∧
      ((ipv6_global x = true ∧ in_blocks x ipv6_sensitive_blocks = false) ∨
       (allow_private_networks policy = true ∧
        Ipv6_new 0xfc00 0 0 0 0 0 0 0 ≤ x < Ipv6_new 0xfe00 0 0 0 0 0 0 0))
  end.
Proof.
  destruct a as [x|x]; intros Ha; unfold validate_ip; cbn [classify_ip].
  - rewrite classify_ipv4_class by done. unfold ipv4_class.
    case_bool_decide as Hmeta; [done|]. intros H. split; [done|].
    destruct (in_blocks x ipv4_private_blocks) eqn:Ep.
    + destruct (allow_private_networks policy); [|done]. split; [|done].
      unfold in_blocks in *. apply any_false_Forall.
      cbn [any existsb ipv4_private_blocks] in Ep.
      unfold between in *. repeat constructor;
        (apply andb_false_iff; rewrite !Z.leb_gt);
        repeat (apply orb_true_iff in Ep as [Ep|Ep]);
        try done; apply andb_true_iff in Ep; rewrite !Z.leb_le in Ep;
        unfold Ipv4_new, from_be_bytes in *; simpl in *; lia.
    + by destruct (in_blocks x ipv4_sensitive_blocks).
  - rewrite classify_ipv6_class by done. unfold ipv6_class. intros H Hm Hn.
    rewrite Hm, Hn in H. destruct (Z.eqb_spec x (Ipv6_new 0xfd00 0xec2 0 0 0 0 0 0x254)); [done|].
    split; [done|]. destruct (between x _ _) eqn:Eb.
    + right. destruct (allow_private_networks policy); [|done]. split; [done|].
      unfold between in Eb. bool_prop. split; [done|].
      eapply Z.le_lt_trans; [eassumption|]. by vm_compute.
    + left. destruct (in_blocks x ipv6_sensitive_blocks), (ipv6_global x); done.
Qed.

Lemma validate_ip_fails_closed_witness :
  Ipv4_new 10 0 0 1 ∉ ipv4_metadata.
Proof.
  refine (proj1 (validate_ip_fails_closed (policy_new true) (V4 (Ipv4_new 10 0 0 1)) _ _));
    vm_compute; done.
Defined.
