(* ===== verification/Socks5Udp.v ===== *)
(** * SOCKS5 UDP envelopes ([crates/linklake-core/src/socks5_udp.rs])

    Decoding and encoding of RFC 1928 UDP request headers. Indexing of the
    received buffer is modelled with its panics, so that the decoder's totality
    on arbitrary network input is a theorem. *)

From S2P Require Import Prelude RustStr NetAddr.
Local Open Scope Z_scope.

Inductive Socks5UdpTarget :=
  | Ip (address : IpAddr)
  | Domain (domain : rstr).

Global Instance Socks5UdpTarget_eq_dec : EqDecision Socks5UdpTarget.
Proof. solve_decision. Defined.
Global Instance Socks5UdpTarget_countable : Countable Socks5UdpTarget.
Proof.
  refine (inj_countable' (λ a, match a with Ip x => inl x | Domain x => inr x end)
            (λ s, match s with inl x => Ip x | inr x => Domain x end) _).
  by intros [].
Defined.

Record Socks5UdpDatagram := {
  dg_target : Socks5UdpTarget;
  dg_port : Z;
  dg_payload : list Z;
}.

Record Socks5UdpFragment := {
  sequence : Z;
  final_fragment : bool;
  fr_target : Socks5UdpTarget;
  fr_port : Z;
  fr_payload : list Z;
}.

Inductive Socks5UdpError :=
  | TooShort
  | InvalidReserved
  | FragmentationUnsupported
  | InvalidFragmentSequence
  | UnsupportedAddressType
  | InvalidDomain
  | InvalidPort
  | TooLarge.

Definition valid_domain (value : rstr) : bool :=
  negb (bool_decide (value = [])) && (str_len value <=? 253) && is_ascii value &&
  all valid_dns_label (split ch_dot value).

(** Target address and offset of the port, from the ATYP byte on. *)
Definition decode_target (encoded : list Z)
    : exec (result Socks5UdpError (Socks5UdpTarget * nat)) :=
  atyp ← index encoded 3;
  if atyp =? 1 then
    if len encoded <? 10 then Done (Err TooShort)
    else
      a ← index encoded 4; b ← index encoded 5; c ← index encoded 6; d ← index encoded 7;
      Done (Ok (Ip (V4 (Ipv4_new a b c d)), 8%nat))
  else if atyp =? 3 then
    length ← index encoded 4;
    if (length =? 0) || (len encoded <? 5 + length + 2) then Done (Err TooShort)
    else
      bytes ← index_range encoded 5 (5 + Z.to_nat length);
      match from_utf8 bytes with
      | None => Done (Err InvalidDomain)
      | Some domain =>
          if negb (valid_domain domain) then Done (Err InvalidDomain)
          else Done (Ok (Domain domain, (5 + Z.to_nat length)%nat))
      end
  else if atyp =? 4 then
    if len encoded <? 22 then Done (Err TooShort)
    else
      address ← index_range encoded 4 20;
      Done (Ok (Ip (V6 (from_be_bytes address)), 20%nat))
  else Done (Err UnsupportedAddressType).

Definition decode_socks5_udp_fragment (encoded : list Z)
    : exec (result Socks5UdpError Socks5UdpFragment) :=
  if len encoded <? 7 then Done (Err TooShort)
  else
    r0 ← index encoded 0;
    r1 ← index encoded 1;
    if negb (r0 =? 0) || negb (r1 =? 0) then Done (Err InvalidReserved)
    else
      fragment_byte ← index encoded 2;
      let seq := Z.land fragment_byte 127 in
      let final := negb (Z.land fragment_byte 128 =? 0) in
      if final && (seq =? 0) then Done (Err InvalidFragmentSequence)
      else
        t ← decode_target encoded;
        match t with
        | Err e => Done (Err e)
        | Ok (target, port_offset) =>
            p0 ← index encoded port_offset;
            p1 ← index encoded (port_offset + 1);
            let port := from_be_bytes [p0; p1] in
            if port =? 0 then Done (Err InvalidPort)
            else
              payload ← index_range encoded (port_offset + 2) (length encoded);
              Done (Ok {| sequence := seq; final_fragment := final;
                          fr_target := target; fr_port := port; fr_payload := payload |})
        end.

Definition decode_socks5_udp_datagram (encoded : list Z)
    : exec (result Socks5UdpError Socks5UdpDatagram) :=
  r ← decode_socks5_udp_fragment encoded;
  match r with
  | Err e => Done (Err e)
  | Ok fragment =>
      if negb (sequence fragment =? 0) || final_fragment fragment
      then Done (Err FragmentationUnsupported)
      else Done (Ok {| dg_target := fr_target fragment; dg_port := fr_port fragment;
                       dg_payload := fr_payload fragment |})
  end.

Definition socks5_udp_envelope_header_len (target : Socks5UdpTarget) : result Socks5UdpError Z :=
  address_bytes ←
    match target with
    | Ip (V4 _) => Ok (1 + 4)
    | Ip (V6 _) => Ok (1 + 16)
    | Domain domain =>
        if negb (valid_domain domain) || (U8_MAX <? str_len domain) then Err InvalidDomain
        else Ok (2 + str_len domain)
    end;
  ok_or (checked_add USIZE_MAX 3 address_bytes ≫= λ v, checked_add USIZE_MAX v 2) TooLarge.

Definition socks5_udp_fragment_encoded_len (fragment : Socks5UdpFragment) : result Socks5UdpError Z :=
  header ← socks5_udp_envelope_header_len (fr_target fragment);
  ok_or (checked_add USIZE_MAX header (len (fr_payload fragment))) TooLarge.

(** ATYP, address and (for a domain) length bytes of a target. *)
Definition encode_target (target : Socks5UdpTarget) : list Z :=
  match target with
  | Ip (V4 address) => 1 :: ipv4_octets address
  | Ip (V6 address) => 4 :: ipv6_octets address
  | Domain domain => 3 :: (str_len domain) mod 256 :: as_bytes domain
  end.

Definition encode_socks5_udp_datagram (datagram : Socks5UdpDatagram) : result Socks5UdpError (list Z) :=
  header_bytes ← socks5_udp_envelope_header_len (dg_target datagram);
  total ← ok_or (checked_add USIZE_MAX header_bytes (len (dg_payload datagram))) TooLarge;
  if U16_MAX <? total then Err TooLarge
  else Ok ([0; 0; 0] ++ encode_target (dg_target datagram) ++
           to_be_bytes 2 (dg_port datagram) ++ dg_payload datagram).

Definition encode_socks5_udp_response (source_ip : IpAddr) (source_port : Z) (payload : list Z)
    : result Socks5UdpError (list Z) :=
  encode_socks5_udp_datagram
    {| dg_target := Ip source_ip; dg_port := source_port; dg_payload := payload |}.

(** ** Totality of the decoder *)

Lemma index_Done l i : (i < length l)%nat → ∃ x, index l i = Done x ∧ l !! i = Some x.
Proof. intros [x Hx]%lookup_lt_is_Some_2. exists x. unfold index. by rewrite Hx. Qed.

(** Execute the next in-range read of the buffer. *)
Ltac read_index l i x H :=
  destruct (index_Done l i) as (x & -> & H);
  [unfold len in *; lia|]; cbn [mbind exec_bind].

Lemma index_range_Done l i j :
  (i ≤ j ≤ length l)%nat → index_range l i j = Done (slice i j l).
Proof.
  intros H. unfold index_range.
  by rewrite (proj2 (Nat.leb_le _ _)), (proj2 (Nat.leb_le _ _)) by lia.
Qed.

(** What a successful [decode_target] has checked. *)
Definition target_parsed (encoded : list Z) (target : Socks5UdpTarget) (offset : nat) : Prop :=
  Z.of_nat offset + 2 ≤ len encoded ∧ (5 ≤ offset)%nat ∧
  match target with
  | Ip (V4 a) => offset = 8%nat ∧ encoded !! 3%nat = Some 1 ∧ a = from_be_bytes (slice 4 8 encoded)
  | Ip (V6 a) => offset = 20%nat ∧ encoded !! 3%nat = Some 4 ∧ a = from_be_bytes (slice 4 20 encoded)
  | Domain d => ∃ n, 0 ≠ n ∧ offset = (5 + Z.to_nat n)%nat ∧ encoded !! 3%nat = Some 3 ∧
      encoded !! 4%nat = Some n ∧ from_utf8 (slice 5 offset encoded) = Some d ∧ valid_domain d = true
  end.

Lemma slice_4 (l : list Z) i a b c d :
  l !! i = Some a → l !! (i + 1)%nat = Some b → l !! (i + 2)%nat = Some c →
  l !! (i + 3)%nat = Some d → slice i (i + 4) l = [a; b; c; d].
Proof.
  intros Ha Hb Hc Hd. unfold slice. replace (i + 4 - i)%nat with 4%nat by lia.
  rewrite (drop_S l a i), (drop_S l b (S i)), (drop_S l c (S (S i))), (drop_S l d (S (S (S i))));
    try done;
    match goal with H : l !! ?x = ?v |- l !! ?y = ?v => replace y with x by lia; exact H end.
Qed.

Lemma decode_target_total encoded :
  bytes_ok encoded → 7 ≤ len encoded →
  ∃ r, decode_target encoded = Done r ∧
    match r with Ok (t, off) => target_parsed encoded t off | Err _ => True end.
Proof.
  intros Hok Hlen. unfold decode_target.
  read_index encoded 3%nat atyp Hatyp.
  destruct (Z.eqb_spec atyp 1) as [->|Hne1].
  { destruct (Z.ltb_spec (len encoded) 10); [by eexists|].
    read_index encoded 4%nat a Ha. read_index encoded 5%nat b Hb.
    read_index encoded 6%nat c Hc. read_index encoded 7%nat d Hd.
    eexists. split; [done|]. split; [lia|]. split; [lia|]. split; [done|]. split; [done|].
    unfold Ipv4_new. f_equal. symmetry. by apply (slice_4 encoded 4). }
  destruct (Z.eqb_spec atyp 3) as [->|Hne3].
  { read_index encoded 4%nat n Hn.
    destruct ((n =? 0) || (len encoded <? 5 + n + 2)) eqn:En; [by eexists|]. bool_prop.
    assert (0 ≤ n < 256) as Hnb by (unfold bytes_ok in Hok; rewrite Forall_lookup in Hok; by apply Hok in Hn).
    rewrite index_range_Done by (unfold len in *; lia). cbn [mbind exec_bind].
    destruct (from_utf8 _) as [d|] eqn:Ed; [|by eexists].
    destruct (valid_domain d) eqn:Ev; [|by eexists].
    eexists. split; [done|]. split; [lia|]. split; [lia|]. exists n. split; [lia|]. done. }
  destruct (Z.eqb_spec atyp 4) as [->|Hne4]; [|by eexists].
  destruct (Z.ltb_spec (len encoded) 22); [by eexists|].
  rewrite index_range_Done by (unfold len in *; lia). cbn [mbind exec_bind].
  eexists. split; [done|]. split; [lia|]. split; [lia|]. done.
Qed.

(** A successful fragment decoding, with the shape of the input. *)
Lemma decode_fragment_total encoded :
  bytes_ok encoded →
  ∃ r, decode_socks5_udp_fragment encoded = Done r ∧
    match r with
    | Err _ => True
    | Ok f =>
        ∃ fb offset, 7 ≤ len encoded ∧
          encoded !! 0%nat = Some 0 ∧ encoded !! 1%nat = Some 0 ∧ encoded !! 2%nat = Some fb ∧
          sequence f = Z.land fb 127 ∧ final_fragment f = negb (Z.land fb 128 =? 0) ∧
          target_parsed encoded (fr_target f) offset ∧
          fr_port f = from_be_bytes (slice offset (offset + 2) encoded) ∧ fr_port f ≠ 0 ∧
          fr_payload f = drop (offset + 2) encoded
    end.
Proof.
  intros Hok. unfold decode_socks5_udp_fragment.
  destruct (Z.ltb_spec (len encoded) 7); [by eexists|].
  read_index encoded 0%nat r0 H0. read_index encoded 1%nat r1 H1.
  destruct (negb (r0 =? 0) || negb (r1 =? 0)) eqn:Er; [by eexists|]. bool_prop.
  subst. read_index encoded 2%nat fb H2.
  destruct (negb (Z.land fb 128 =? 0) && (Z.land fb 127 =? 0)) eqn:Ef; [by eexists|].
  destruct (decode_target_total encoded) as (t & -> & Ht); [done..|]. cbn [mbind exec_bind].
  destruct t as [[target offset]|]; [|by eexists]. pose proof (proj1 Ht) as Hoff.
  read_index encoded offset p0 Hp0. read_index encoded (offset + 1)%nat p1 Hp1.
  destruct (Z.eqb_spec (from_be_bytes [p0; p1]) 0); [by eexists|].
  rewrite index_range_Done by (unfold len in *; lia). cbn [mbind exec_bind].
  eexists. split; [done|]. exists fb, offset. simpl.
  assert (slice offset (offset + 2) encoded = [p0; p1]) as ->.
  { unfold slice. replace (offset + 2 - offset)%nat with 2%nat by lia.
    rewrite (drop_S encoded p0 offset), (drop_S encoded p1 (S offset)); try done.
    by replace (S offset) with (offset + 1)%nat by lia. }
  repeat (split; [done|]). unfold slice. apply take_ge. rewrite length_drop. lia.
Qed.

(** ** Encoding *)

Definition target_ok (t : Socks5UdpTarget) : Prop :=
  match t with
  | Ip a => ip_ok a
  | Domain d => valid_domain d = true
  end.

Lemma valid_domain_ascii d : valid_domain d = true → is_ascii d = true ∧ 1 ≤ len d ≤ 253.
Proof.
  unfold valid_domain, str_len. intros H. bool_prop.
  match goal with Ha : is_ascii d = true |- _ => rewrite (as_bytes_ascii d Ha) in * end.
  split; [done|]. split; [|done]. destruct d; [done|]. rewrite len_cons.
  pose proof (len_nonneg d). lia.
Qed.

Lemma header_len_spec t :
  target_ok t → socks5_udp_envelope_header_len t = Ok (5 + len (encode_target t)).
Proof.
  assert (∀ v, 0 ≤ v ≤ 1000 → ok_or (checked_add USIZE_MAX 3 v ≫= λ v, checked_add USIZE_MAX v 2) TooLarge
             = Ok (v + 5)) as Hadd.
  { intros v Hv. unfold checked_add. rewrite (proj2 (Z.leb_le _ _)) by lia. simpl.
    rewrite (proj2 (Z.leb_le _ _)) by lia. simpl. f_equal. lia. }
  intros Ht. unfold socks5_udp_envelope_header_len. destruct t as [[a|a]|d].
  - reflexivity.
  - reflexivity.
  - pose proof (valid_domain_ascii d Ht) as [Ha Hl]. cbn [target_ok] in Ht. rewrite Ht. cbn [encode_target].
    unfold str_len. rewrite as_bytes_ascii by done. rewrite (proj2 (Z.ltb_ge _ _)) by lia.
    cbn [negb orb mbind result_bind]. rewrite Hadd by lia. f_equal. rewrite !len_cons. lia.
Qed.

Lemma header_len_Ok t n :
  (match t with Ip a => ip_ok a | Domain _ => True end) →
  socks5_udp_envelope_header_len t = Ok n → target_ok t.
Proof.
  destruct t as [a|d]; [done|]. intros _. unfold socks5_udp_envelope_header_len, target_ok.
  destruct (valid_domain d); done.
Qed.

Lemma encode_datagram_spec d :
  target_ok (dg_target d) → 5 + len (encode_target (dg_target d)) + len (dg_payload d) ≤ U16_MAX →
  encode_socks5_udp_datagram d =
    Ok ([0; 0; 0] ++ encode_target (dg_target d) ++ to_be_bytes 2 (dg_port d) ++ dg_payload d).
Proof.
  intros Ht Hl. unfold encode_socks5_udp_datagram. rewrite header_len_spec by done.
  cbn [mbind result_bind]. unfold checked_add. rewrite (proj2 (Z.leb_le _ _)) by lia.
  cbn [ok_or mbind result_bind]. by rewrite (proj2 (Z.ltb_ge _ _)) by lia.
Qed.

Lemma decode_encode_target r0 r1 fb t rest :
  target_ok t → (2 ≤ length rest)%nat →
  decode_target ([r0; r1; fb] ++ encode_target t ++ rest) =
    Done (Ok (t, (3 + length (encode_target t))%nat)).
Proof.
  intros Ht Hr. unfold decode_target. destruct t as [[a|a]|d]; cbn [encode_target].
  - unfold index, len. cbn -[len]. rewrite (proj2 (Z.ltb_ge _ _)) by lia.
    do 5 f_equal.
    change (from_be_bytes (to_be_bytes 4 a) = a). apply from_to_be_bytes.
    simpl in Ht |- *. lia.
  - pose proof (length_to_be_bytes 16 a) as Hl. unfold ipv6_octets. remember (to_be_bytes 16 a) as o eqn:Ho.
    change (index ?l 3) with (Done 4). cbn [mbind exec_bind Z.eqb Pos.eqb].
    unfold len. rewrite !length_app. simpl length. rewrite Hl.
    rewrite (proj2 (Z.ltb_ge _ _)) by lia. rewrite index_range_Done.
    2:{ len_lia. }
    change ([r0; r1; fb] ++ (4 :: o) ++ rest) with ([r0; r1; fb; 4] ++ o ++ rest).
    rewrite slice_app_r by (simpl; lia). simpl (4 - _)%nat. simpl (20 - _)%nat.
    rewrite slice_app_l by done. cbn [mbind exec_bind].
    do 5 f_equal. rewrite Ho. apply from_to_be_bytes. simpl in Ht |- *. lia.
  - destruct (valid_domain_ascii d Ht) as [Ha Hl]. unfold str_len. rewrite as_bytes_ascii by done.
    change (index ?l 3) with (Done 3). change (index ?l 4) with (Done (len d mod 256)).
    cbn [mbind exec_bind Z.eqb Pos.eqb]. rewrite Z.mod_small by lia.
    rewrite (proj2 (Z.eqb_neq _ _)) by lia. simpl orb.
    unfold len in *. rewrite (proj2 (Z.ltb_ge _ _)).
    2:{ len_lia. }
    rewrite Nat2Z.id. rewrite index_range_Done.
    2:{ len_lia. }
    change ([r0; r1; fb] ++ (3 :: Z.of_nat (length d) :: d) ++ rest)
      with ([r0; r1; fb; 3; Z.of_nat (length d)] ++ d ++ rest).
    rewrite slice_app_r by (simpl; lia). cbn [length].
    rewrite slice_app_l by lia. cbn [mbind exec_bind]. rewrite from_utf8_ascii by done.
    rewrite Ht. done.
Qed.

Lemma decode_fragment_encoded fb t port payload :
  target_ok t → 1 ≤ port ≤ U16_MAX →
  negb (Z.land fb 128 =? 0) && (Z.land fb 127 =? 0) = false →
  decode_socks5_udp_fragment ([0; 0; fb] ++ encode_target t ++ to_be_bytes 2 port ++ payload) =
    Done (Ok {| sequence := Z.land fb 127; final_fragment := negb (Z.land fb 128 =? 0);
                fr_target := t; fr_port := port; fr_payload := payload |}).
Proof.
  intros Ht Hp Hf. unfold decode_socks5_udp_fragment.
  assert (2 ≤ length (encode_target t))%nat as He.
  { destruct t as [[a|a]|d]; simpl; [lia..|]. lia. }
  rewrite (proj2 (Z.ltb_ge _ _)).
  2:{ len_lia. }
  change (index ?l 0) with (Done 0). change (index ?l 1) with (Done 0). change (index ?l 2) with (Done fb).
  cbn [mbind exec_bind Z.eqb negb orb]. rewrite Hf.
  rewrite decode_encode_target; [|done|rewrite length_app, length_to_be_bytes; lia].
  cbn [mbind exec_bind]. remember (length (encode_target t)) as n eqn:Hn.
  assert (∀ i x, to_be_bytes 2 port !! i = Some x →
    index ([0; 0; fb] ++ encode_target t ++ to_be_bytes 2 port ++ payload) (3 + n + i) = Done x) as Hi.
  { intros i x Hx. unfold index. rewrite lookup_app_r by (simpl; lia).
    rewrite lookup_app_r by (simpl; lia). rewrite lookup_app_l.
    - simpl length. replace (3 + n + i - 3 - length (encode_target t))%nat with i by lia. by rewrite Hx.
    - apply lookup_lt_Some in Hx. rewrite length_to_be_bytes in Hx |- *. cbn [length]. lia. }
  replace (3 + n)%nat with (3 + n + 0)%nat at 1 by lia.
  rewrite (Hi 0%nat _ eq_refl), (Hi 1%nat _ eq_refl). cbn [mbind exec_bind].
  change (from_be_bytes [port / 256 mod 256; port mod 256]) with (from_be_bytes (to_be_bytes 2 port)).
  rewrite from_to_be_bytes by (simpl; lia). rewrite (proj2 (Z.eqb_neq _ _)) by lia.
  rewrite index_range_Done.
  2:{ len_lia. }
  cbn [mbind exec_bind]. do 3 f_equal. rewrite !app_assoc. unfold slice.
  rewrite drop_app_length'.
  - apply take_ge. len_lia.
  - len_lia.
Qed.

(** Reassembling the wire form of a decoded target. *)
Lemma target_parsed_slice encoded t off :
  bytes_ok encoded → target_parsed encoded t off →
  slice 3 off encoded = encode_target t ∧ target_ok t.
Proof.
  intros Hok (Hlen & Hoff & Ht). unfold len in Hlen.
  assert (∀ x, encoded !! 3%nat = Some x → slice 3 off encoded = x :: slice 4 off encoded) as H3.
  { intros x Hx. unfold slice. rewrite (drop_S encoded x 3) by done.
    replace (off - 3)%nat with (S (off - 4)) by lia. done. }
  destruct t as [[a|a]|d].
  - destruct Ht as (-> & Hx & ->). rewrite (H3 1) by done. split.
    + unfold encode_target, ipv4_octets. f_equal.
      symmetry. rewrite <- (length_slice 4 8 encoded) at 1 by lia.
      apply to_from_be_bytes. auto with linklake.
    + simpl. pose proof (from_be_bytes_bound (slice 4 8 encoded)) as Hb. unfold len in Hb.
      rewrite length_slice in Hb by lia. simpl in Hb. specialize (Hb ltac:(auto with linklake)). lia.
  - destruct Ht as (-> & Hx & ->). rewrite (H3 4) by done. split.
    + unfold encode_target, ipv6_octets. f_equal.
      symmetry. rewrite <- (length_slice 4 20 encoded) at 1 by lia.
      apply to_from_be_bytes. auto with linklake.
    + simpl. pose proof (from_be_bytes_bound (slice 4 20 encoded)) as Hb. unfold len in Hb.
      rewrite length_slice in Hb by lia. simpl in Hb. specialize (Hb ltac:(auto with linklake)). lia.
  - destruct Ht as (n & Hn0 & -> & Hx & Hn & Hu & Hv). split; [|done].
    destruct (valid_domain_ascii d Hv) as [Ha Hl].
    pose proof Hu as Hd. apply from_utf8_ascii_inv in Hd; [|auto with linklake|done].
    assert (Z.to_nat n = length d) as Hnl.
    { rewrite <- Hd, length_slice by lia. lia. }
    assert (0 ≤ n < 256) as Hnb by (unfold bytes_ok in Hok; rewrite Forall_lookup in Hok; by apply Hok in Hn).
    rewrite (H3 3) by done. unfold encode_target, str_len. rewrite as_bytes_ascii by done.
    rewrite <- Hd at 2. f_equal. unfold slice. rewrite (drop_S encoded n 4) by done.
    replace (5 + Z.to_nat n - 4)%nat with (S (Z.to_nat n)) by lia. simpl take.
    replace (5 + Z.to_nat n - 5)%nat with (Z.to_nat n) by lia.
    rewrite Z.mod_small by (unfold len in *; lia). f_equal; [unfold len; lia|].
    f_equal. lia.
Qed.

(** ** Properties *)

(** Decoding never panics, whatever bytes arrive: every index and slice of
    the SOCKS5 UDP decoder is within the received buffer. *)
Theorem decode_datagram_never_panics (encoded : list Z) :
  bytes_ok encoded → ∃ r, decode_socks5_udp_datagram encoded = Done r.
Proof.
  intros Hok. unfold decode_socks5_udp_datagram.
  destruct (decode_fragment_total encoded Hok) as (r & -> & _). cbn [mbind exec_bind].
  destruct r; [|by eexists]. case_match; by eexists.
Qed.

Lemma decode_datagram_never_panics_witness :
  ∃ r, decode_socks5_udp_datagram [0; 0; 0; 3; 200; 97; 0; 53] = Done r.
Proof. apply decode_datagram_never_panics. repeat constructor; lia. Defined.

(** What [encode_socks5_udp_datagram] (and hence
    [encode_socks5_udp_response]) produces decodes to the same target, port and
    payload, for IPv4, IPv6 and domain targets. *)
Theorem decode_encode_datagram (d : Socks5UdpDatagram) (encoded : list Z) :
  (match dg_target d with Ip a => ip_ok a | Domain _ => True end) →
  1 ≤ dg_port d ≤ U16_MAX →
  encode_socks5_udp_datagram d = Ok encoded →
  decode_socks5_udp_datagram encoded = Done (Ok d) ∧ len encoded ≤ U16_MAX.
Proof.
  intros Hip Hp He. destruct d as [t port payload].
  unfold encode_socks5_udp_datagram in He. cbn [dg_target dg_port dg_payload] in *.
  destruct (socks5_udp_envelope_header_len t) as [h|] eqn:Eh; [|done].
  pose proof (header_len_Ok t h Hip Eh) as Ht. rewrite header_len_spec in Eh by done. simplify_eq.
  cbn [mbind result_bind] in He. unfold checked_add in He.
  destruct (_ <=? USIZE_MAX) eqn:E1; [|done]. cbn [ok_or mbind result_bind] in He.
  destruct (U16_MAX <? _) eqn:E2; [done|].
  match type of He with Ok ?x = _ => assert (encoded = x) as -> by congruence end. bool_prop. split.
  - unfold decode_socks5_udp_datagram. by rewrite (decode_fragment_encoded 0) by done.
  - len_lia.
Qed.

Lemma decode_encode_datagram_witness :
  decode_socks5_udp_datagram ([0; 0; 0; 3; 3; 97; 46; 98; 0; 53; 1; 2]) =
    Done (Ok {| dg_target := Domain (lit "a.b"); dg_port := 53; dg_payload := [1; 2] |}).
Proof.
  refine (proj1 (decode_encode_datagram
    {| dg_target := Domain (lit "a.b"); dg_port := 53; dg_payload := [1; 2] |} _ _ _ _)).
  - exact I.
  - simpl. lia.
  - vm_compute. reflexivity.
Defined.

(** The wire form is unambiguous: an unfragmented datagram of at most 65535
    bytes that decodes is exactly the encoding of what was decoded, and for every
    decoded fragment the computed envelope length is the received length. *)
Theorem encode_decode_datagram (encoded : list Z) :
  bytes_ok encoded → len encoded ≤ U16_MAX →
  (∀ d, decode_socks5_udp_datagram encoded = Done (Ok d) → encode_socks5_udp_datagram d = Ok encoded) ∧
  (∀ f, decode_socks5_udp_fragment encoded = Done (Ok f) →
        socks5_udp_fragment_encoded_len f = Ok (len encoded)).
Proof.
  intros Hok Hmax. destruct (decode_fragment_total encoded Hok) as (r & Hr & Hspec).
  destruct r as [f|e]; [|unfold decode_socks5_udp_datagram; rewrite Hr; by split].
  destruct Hspec as (fb & off & Hl & H0 & H1 & H2 & Hs & Hf & Ht & Hp & Hp0 & Hpl).
  destruct (target_parsed_slice encoded (fr_target f) off Hok Ht) as [Hsl Htok].
  destruct Ht as (Hoff & Hoff3 & _).
  assert (encoded = [0; 0; fb] ++ encode_target (fr_target f) ++ to_be_bytes 2 (fr_port f) ++ fr_payload f) as Henc.
  { rewrite <- Hsl, Hp, Hpl. unfold len in *.
    replace (to_be_bytes 2 (from_be_bytes (slice off (off + 2) encoded)))
      with (slice off (off + 2) encoded).
    2:{ symmetry. replace 2%nat with (length (slice off (off + 2) encoded)) at 1
          by (rewrite length_slice; lia). apply to_from_be_bytes. auto with linklake. }
    rewrite <- (take_slice_drop 3 off encoded) at 1 by lia. f_equal.
    - rewrite <- (drop_0 encoded) at 1. rewrite (drop_S encoded 0 0), (drop_S encoded 0 1), (drop_S encoded fb 2) by done.
      done.
    - f_equal. unfold slice. replace (off + 2 - off)%nat with 2%nat by lia.
      rewrite <- drop_drop. by rewrite take_drop. }
  assert (5 + len (encode_target (fr_target f)) + len (fr_payload f) = len encoded) as Hlen.
  { rewrite Henc. len_lia. }
  split.
  - intros d. unfold decode_socks5_udp_datagram. rewrite Hr. cbn [mbind exec_bind].
    destruct (negb (sequence f =? 0) || final_fragment f) eqn:E; [done|]. bool_prop.
    intros [= <-]. assert (fb = 0) as ->.
    { unfold bytes_ok in Hok. rewrite Forall_lookup in Hok. apply Hok in H2. unfold byte_ok in H2.
      rewrite Hf in *. bool_prop. rewrite Hs in *.
      assert (Z.land fb 255 = fb) as <- by (change 255 with (Z.ones 8); rewrite Z.land_ones, Z.mod_small; lia).
      change 255 with (Z.lor 127 128). rewrite Z.land_lor_distr_r.
      repeat match goal with H : Z.land fb _ = 0 |- _ => rewrite H end. done. }
    rewrite encode_datagram_spec by (done || simpl; lia). cbn [dg_target dg_port dg_payload].
    by rewrite <- Henc.
  - intros f' Hf'. rewrite Hr in Hf'. simplify_eq. unfold socks5_udp_fragment_encoded_len.
    rewrite header_len_spec by done. cbn [mbind result_bind]. unfold checked_add.
    rewrite (proj2 (Z.leb_le _ _)) by lia. cbn [ok_or]. by rewrite Hlen.
Qed.

Lemma encode_decode_datagram_witness :
  encode_socks5_udp_datagram {| dg_target := Ip (V4 (Ipv4_new 127 0 0 1)); dg_port := 5353; dg_payload := [9] |} =
    Ok [0; 0; 0; 1; 127; 0; 0; 1; 20; 233; 9].
Proof.
  refine (proj1 (encode_decode_datagram [0; 0; 0; 1; 127; 0; 0; 1; 20; 233; 9] _ _) _ _).
  - repeat constructor; lia.
  - vm_compute. discriminate.
  - vm_compute. reflexivity.
Defined.
