(* ===== verification/UdpProtocol.v ===== *)
(** * UDP data plane frames ([crates/linklake-core/src/udp_protocol.rs])

    The LLUD frame: a 40-byte header followed by one fragment of a datagram.
    [decode] indexes the received buffer with Rust's panics. A [Uuid] is its
    128-bit value. *)

From S2P Require Import Prelude.
Local Open Scope Z_scope.

(** b"LLUD" *)
Definition UDP_DATAGRAM_MAGIC : list Z := [76; 76; 85; 68].
Definition UDP_DATAGRAM_VERSION : Z := 1.
Definition UDP_DATAGRAM_HEADER_BYTES : Z := 40.
Definition MAX_UDP_DATAGRAM_BYTES : Z := 65507.
Definition MAX_UDP_FRAGMENTS : Z := 64.

Inductive UdpDirection := PublicToTarget | TargetToPublic.

Global Instance UdpDirection_eq_dec : EqDecision UdpDirection.
Proof. solve_decision. Defined.
Global Instance UdpDirection_countable : Countable UdpDirection.
Proof.
  refine (inj_countable' (λ d, match d with PublicToTarget => true | TargetToPublic => false end)
            (λ b : bool, if b then PublicToTarget else TargetToPublic) _).
  by intros [].
Defined.

Inductive UdpProtocolError :=
  | FrameTooShort (bytes : Z)
  | InvalidMagic
  | UnsupportedVersion (version : Z)
  | InvalidDirection (value : Z)
  | UnsupportedFlags (flags : Z)
  | NilSessionId
  | InvalidFragmentCount (count : Z)
  | InvalidFragmentIndex (index count : Z)
  | DatagramTooLarge (bytes : Z)
  | InvalidFragmentLength
  | FrameLimitTooSmall
  | TooManyFragments.

Definition direction_byte (d : UdpDirection) : Z :=
  match d with PublicToTarget => 1 | TargetToPublic => 2 end.

Definition direction_try_from (value : Z) : result UdpProtocolError UdpDirection :=
  if value =? 1 then Ok PublicToTarget
  else if value =? 2 then Ok TargetToPublic
  else Err (InvalidDirection value).

Record UdpFragment := {
  direction : UdpDirection;
  session_id : Z;
  datagram_id : Z;
  fragment_index : Z;
  fragment_count : Z;
  original_length : Z;
  payload : list Z;
}.

Definition validate_fragment (f : UdpFragment) : result UdpProtocolError unit :=
  if session_id f =? 0 then Err NilSessionId
  else if (fragment_count f =? 0) || (MAX_UDP_FRAGMENTS <? fragment_count f) then
    Err (InvalidFragmentCount (fragment_count f))
  else if fragment_count f <=? fragment_index f then
    Err (InvalidFragmentIndex (fragment_index f) (fragment_count f))
  else if MAX_UDP_DATAGRAM_BYTES <? original_length f then
    Err (DatagramTooLarge (original_length f))
  else if original_length f =? 0 then
    if negb (fragment_count f =? 1) || negb (fragment_index f =? 0) ||
       negb (bool_decide (payload f = []))
    then Err InvalidFragmentLength
    else Ok tt
  else if bool_decide (payload f = []) || (original_length f <? len (payload f)) then
    Err InvalidFragmentLength
  else if (fragment_count f =? 1) && negb (len (payload f) =? original_length f) then
    Err InvalidFragmentLength
  else if (1 <? fragment_count f) && (len (payload f) =? original_length f) then
    Err InvalidFragmentLength
  else Ok tt.

Definition encode (f : UdpFragment) : result UdpProtocolError (list Z) :=
  _ ← validate_fragment f;
  Ok (UDP_DATAGRAM_MAGIC ++ [UDP_DATAGRAM_VERSION] ++ [direction_byte (direction f)] ++
      to_be_bytes 2 0 ++ to_be_bytes 16 (session_id f) ++ to_be_bytes 8 (datagram_id f) ++
      to_be_bytes 2 (fragment_index f) ++ to_be_bytes 2 (fragment_count f) ++
      to_be_bytes 4 (original_length f) ++ payload f).

Definition decode (encoded : list Z) : exec (result UdpProtocolError UdpFragment) :=
  if len encoded <? UDP_DATAGRAM_HEADER_BYTES then Done (Err (FrameTooShort (len encoded)))
  else
    magic ← index_range encoded 0 4;
    if negb (bool_decide (magic = UDP_DATAGRAM_MAGIC)) then Done (Err InvalidMagic)
    else
      version ← index encoded 4;
      if negb (version =? UDP_DATAGRAM_VERSION) then Done (Err (UnsupportedVersion version))
      else
        d ← index encoded 5;
        direction ←? Done (direction_try_from d);
        f0 ← index encoded 6;
        f1 ← index encoded 7;
        let flags := from_be_bytes [f0; f1] in
        if negb (flags =? 0) then Done (Err (UnsupportedFlags flags))
        else
          session ← index_range encoded 8 24;
          datagram ← index_range encoded 24 32;
          i0 ← index encoded 32;
          i1 ← index encoded 33;
          c0 ← index encoded 34;
          c1 ← index encoded 35;
          original ← index_range encoded 36 40;
          rest ← index_range encoded 40 (length encoded);
          let fragment :=
            {| direction := direction; session_id := from_be_bytes session;
               datagram_id := from_be_bytes datagram;
               fragment_index := from_be_bytes [i0; i1];
               fragment_count := from_be_bytes [c0; c1];
               original_length := from_be_bytes original; payload := rest |} in
          _ ←? Done (validate_fragment fragment);
          Done (Ok fragment).

(** [<[u8]>::chunks(n)]: consecutive pieces of [n] bytes, the last one possibly
    shorter. [n] is positive, so [length l] rounds exhaust [l]. *)
Fixpoint chunks_fuel (fuel n : nat) (l : list Z) : list (list Z) :=
  match fuel with
  | O => []
  | S fuel =>
      match l with
      | [] => []
      | _ => take n l :: chunks_fuel fuel n (drop n l)
      end
  end.
Definition chunks (n : nat) (l : list Z) : list (list Z) := chunks_fuel (length l) n l.

(** [usize::div_ceil]. *)
Definition div_ceil (a b : Z) : Z := if 0 <? a mod b then a / b + 1 else a / b.

(** The loop over the enumerated chunks; [index as u16] and [len() as u32] wrap. *)
Fixpoint encode_chunks (direction : UdpDirection) (session_id datagram_id count total : Z)
    (index : Z) (cs : list (list Z)) : result UdpProtocolError (list (list Z)) :=
  match cs with
  | [] => Ok []
  | chunk :: cs =>
      frame ← encode {| direction := direction; session_id := session_id;
                        datagram_id := datagram_id; fragment_index := index mod 65536;
                        fragment_count := count; original_length := total mod 4294967296;
                        payload := chunk |};
      frames ← encode_chunks direction session_id datagram_id count total (index + 1) cs;
      Ok (frame :: frames)
  end.

Definition fragment_datagram (direction : UdpDirection) (session_id datagram_id : Z)
    (data : list Z) (max_frame_bytes : Z) : result UdpProtocolError (list (list Z)) :=
  if session_id =? 0 then Err NilSessionId
  else if MAX_UDP_DATAGRAM_BYTES <? len data then Err (DatagramTooLarge (len data))
  else if max_frame_bytes <=? UDP_DATAGRAM_HEADER_BYTES then Err FrameLimitTooSmall
  else
    let max_fragment_payload := max_frame_bytes - UDP_DATAGRAM_HEADER_BYTES in
    let fragment_count :=
      if bool_decide (data = []) then 1 else div_ceil (len data) max_fragment_payload in
    if MAX_UDP_FRAGMENTS <? fragment_count then Err TooManyFragments
    else
      let fragment_count := fragment_count mod 65536 in
      if bool_decide (data = []) then
        frame ← encode {| direction := direction; session_id := session_id;
                          datagram_id := datagram_id; fragment_index := 0; fragment_count := 1;
                          original_length := 0; payload := [] |};
        Ok [frame]
      else
        encode_chunks direction session_id datagram_id fragment_count (len data) 0
          (chunks (Z.to_nat max_fragment_payload) data).

(** ** Layout of a frame *)

(** Fields are within their Rust types. *)
Definition fragment_typed (f : UdpFragment) : Prop :=
  0 ≤ session_id f ≤ U128_MAX ∧ 0 ≤ datagram_id f ≤ U64_MAX ∧
  0 ≤ fragment_index f ≤ U16_MAX ∧ 0 ≤ fragment_count f ≤ U16_MAX ∧
  0 ≤ original_length f ≤ U32_MAX.

(** What [decode] does on a header cut at the field boundaries. *)
Definition decode_fields (m v d fl s g i c o p : list Z) : result UdpProtocolError UdpFragment :=
  if negb (bool_decide (m = UDP_DATAGRAM_MAGIC)) then Err InvalidMagic
  else if negb (from_be_bytes v =? UDP_DATAGRAM_VERSION) then Err (UnsupportedVersion (from_be_bytes v))
  else
    direction ← direction_try_from (from_be_bytes d);
    if negb (from_be_bytes fl =? 0) then Err (UnsupportedFlags (from_be_bytes fl))
    else
      let f := {| direction := direction; session_id := from_be_bytes s;
                  datagram_id := from_be_bytes g; fragment_index := from_be_bytes i;
                  fragment_count := from_be_bytes c; original_length := from_be_bytes o;
                  payload := p |} in
      _ ← validate_fragment f; Ok f.

(** Split a list of known length into its elements. *)
Ltac split_list l H :=
  repeat (let x := fresh "b" in destruct l as [|x l]; [simpl in H; discriminate H|]);
  destruct l; [clear H|simpl in H; discriminate H].

Lemma index_range_rest (h p : list Z) n :
  length h = n → index_range (h ++ p) n (length (h ++ p)) = Done p.
Proof.
  intros <-. unfold index_range, slice. rewrite !length_app.
  rewrite (proj2 (Nat.leb_le _ _)), Nat.leb_refl by lia. simpl. f_equal.
  rewrite drop_app_length. apply take_ge. lia.
Qed.

Lemma decode_parts m v d fl s g i c o p :
  length m = 4%nat → length v = 1%nat → length d = 1%nat → length fl = 2%nat →
  length s = 16%nat → length g = 8%nat → length i = 2%nat → length c = 2%nat → length o = 4%nat →
  decode (m ++ v ++ d ++ fl ++ s ++ g ++ i ++ c ++ o ++ p) = Done (decode_fields m v d fl s g i c o p).
Proof.
  intros Hm Hv Hd Hfl Hs Hg Hi Hc Ho. unfold decode.
  rewrite (proj2 (Z.ltb_ge _ _)).
  2:{ unfold len, UDP_DATAGRAM_HEADER_BYTES. rewrite !length_app. lia. }
  assert (index_range (m ++ v ++ d ++ fl ++ s ++ g ++ i ++ c ++ o ++ p) 40
            (length (m ++ v ++ d ++ fl ++ s ++ g ++ i ++ c ++ o ++ p)) = Done p) as Hrest.
  { rewrite !(assoc_L (++)). apply index_range_rest. rewrite !length_app. lia. }
  rewrite Hrest. clear Hrest.
  split_list m Hm; split_list v Hv; split_list d Hd; split_list fl Hfl; split_list s Hs; split_list g Hg; split_list i Hi; split_list c Hc; split_list o Ho.
  unfold decode_fields. cbn -[Z.eqb Z.mul Z.add from_be_bytes validate_fragment bool_decide UDP_DATAGRAM_MAGIC direction_try_from].
  change (from_be_bytes [?b]) with b.
  destruct (bool_decide _); [|done]. cbn [negb].
  destruct (_ =? UDP_DATAGRAM_VERSION); [|done]. cbn [negb].
  destruct (direction_try_from _) as [dir|]; [|done]. cbn [mbind result_bind].
  destruct (_ =? 0); [|done]. cbn [negb].
  destruct (validate_fragment _) as [u|]; done.
Qed.

Lemma decode_short e : len e < 40 → decode e = Done (Err (FrameTooShort (len e))).
Proof. intros H. unfold decode. by rewrite (proj2 (Z.ltb_lt _ _)). Qed.

(** A buffer of at least 40 bytes splits at the field boundaries. *)
Lemma frame_split (e : list Z) :
  40 ≤ len e → ∃ m v d fl s g i c o p,
    e = m ++ v ++ d ++ fl ++ s ++ g ++ i ++ c ++ o ++ p ∧
    length m = 4%nat ∧ length v = 1%nat ∧ length d = 1%nat ∧ length fl = 2%nat ∧
    length s = 16%nat ∧ length g = 8%nat ∧ length i = 2%nat ∧ length c = 2%nat ∧ length o = 4%nat.
Proof.
  assert (∀ n (l : list Z) k, (n + k ≤ length l)%nat →
    ∃ a b, l = a ++ b ∧ length a = n ∧ (k ≤ length b)%nat) as Hcut.
  { intros n l k H. exists (take n l), (drop n l).
    rewrite take_drop, length_take, length_drop. split_and!; [done|lia..]. }
  intros H. assert (40 ≤ length e)%nat as He by (unfold len in H; lia). clear H.
  destruct (Hcut 4%nat e 36%nat He) as (m & e1 & -> & Hm & H1).
  destruct (Hcut 1%nat e1 35%nat H1) as (v & e2 & -> & Hv & H2).
  destruct (Hcut 1%nat e2 34%nat H2) as (d & e3 & -> & Hd & H3).
  destruct (Hcut 2%nat e3 32%nat H3) as (fl & e4 & -> & Hfl & H4).
  destruct (Hcut 16%nat e4 16%nat H4) as (s & e5 & -> & Hs & H5).
  destruct (Hcut 8%nat e5 8%nat H5) as (g & e6 & -> & Hg & H6).
  destruct (Hcut 2%nat e6 6%nat H6) as (i & e7 & -> & Hi & H7).
  destruct (Hcut 2%nat e7 4%nat H7) as (c & e8 & -> & Hc & H8).
  destruct (Hcut 4%nat e8 0%nat H8) as (o & p & -> & Ho & _).
  by exists m, v, d, fl, s, g, i, c, o, p.
Qed.

Lemma validate_fragment_Ok f u : validate_fragment f = Ok u →
  session_id f ≠ 0 ∧ fragment_count f ≠ 0 ∧ fragment_count f ≤ 64 ∧ fragment_index f < fragment_count f ∧
  original_length f ≤ 65507 ∧ len (payload f) ≤ original_length f ∧
  (original_length f = 0 → fragment_count f = 1).
Proof.
  unfold validate_fragment, MAX_UDP_FRAGMENTS, MAX_UDP_DATAGRAM_BYTES. intros H.
  destruct (session_id f =? 0) eqn:E1; [done|].
  destruct (_ || (64 <? _)) eqn:E2; [done|].
  destruct (fragment_count f <=? _) eqn:E3; [done|].
  destruct (65507 <? _) eqn:E4; [done|]. bool_prop.
  do 5 (split; [lia|]). destruct (original_length f =? 0) eqn:E5; bool_prop.
  - destruct (negb (fragment_count f =? 1) || negb (fragment_index f =? 0) || negb _) eqn:E6; [done|].
    bool_prop. match goal with He : payload f = [] |- _ => rewrite He, len_nil end. lia.
  - destruct (_ || (original_length f <? _)) eqn:E6; [done|]. bool_prop. lia.
Qed.

Lemma direction_try_from_byte d : direction_try_from (direction_byte d) = Ok d.
Proof. by destruct d. Qed.

Lemma direction_byte_try_from b d : direction_try_from b = Ok d → direction_byte d = b.
Proof. unfold direction_try_from. repeat zcase; intros; simplify_eq/=; done. Qed.

Lemma decode_encode_frame f e :
  fragment_typed f → encode f = Ok e → decode e = Done (Ok f) ∧ len e = 40 + len (payload f).
Proof.
  intros (Hs & Hg & Hi & Hc & Ho) He. unfold encode in He.
  destruct (validate_fragment f) as [[]|] eqn:Ev; [|done]. cbn [mbind result_bind] in He.
  match type of He with Ok ?x = _ => assert (e = x) as -> by congruence end. clear He. split.
  - rewrite decode_parts by (rewrite ?length_to_be_bytes; done). unfold decode_fields.
    rewrite !from_to_be_bytes by (simpl; lia).
    change (from_be_bytes [?b]) with b. rewrite direction_try_from_byte.
    rewrite bool_decide_eq_true_2 by done. cbn [negb mbind result_bind].
    change (UDP_DATAGRAM_VERSION =? UDP_DATAGRAM_VERSION) with true. change (0 =? 0) with true. cbn [negb].
    replace {| direction := _ |} with f by (by destruct f). by rewrite Ev.
  - unfold len. rewrite !length_app, !length_to_be_bytes. simpl. lia.
Qed.

(** ** Pieces of a datagram *)

Lemma chunks_fuel_spec fuel n l : (1 ≤ n)%nat → (length l ≤ fuel)%nat →
  let cs := chunks_fuel fuel n l in
  concat cs = l ∧ Forall (λ c, 1 ≤ length c ≤ n)%nat cs ∧
  len cs = div_ceil (len l) (Z.of_nat n).
Proof.
  intros Hn. revert l. induction fuel as [|fuel IH]; intros l Hl; cbn [chunks_fuel].
  - destruct l; [|simpl in Hl; lia]. unfold div_ceil. by rewrite len_nil, Z.mod_0_l by lia.
  - destruct l as [|x l'] eqn:El; [unfold div_ceil; by rewrite len_nil, Z.mod_0_l by lia|].
    rewrite <- El in *. assert (1 ≤ length l)%nat by (subst; simpl; lia). clear El x l'.
    destruct (IH (drop n l)) as (Hc & Hf & Hlen); [rewrite length_drop; lia|].
    split_and!.
    + cbn [concat]. by rewrite Hc, take_drop.
    + constructor; [|done]. rewrite length_take. lia.
    + rewrite len_cons, Hlen. unfold div_ceil, len. rewrite length_drop.
      destruct (decide (length l ≤ n)%nat).
      * replace (length l - n)%nat with 0%nat by lia. rewrite Z.mod_0_l, Z.div_0_l by lia. simpl.
        destruct (decide (length l = n)) as [->|].
        -- rewrite Z.mod_same, Z.div_same by lia. done.
        -- rewrite Z.mod_small, Z.div_small by lia. zcase; lia.
      * replace (Z.of_nat (length l)) with (Z.of_nat (length l - n) + 1 * Z.of_nat n) by lia.
        rewrite Z.mod_add, Z.div_add by lia. zcase; lia.
Qed.

Lemma div_ceil_le a b k : 0 ≤ a → 0 < b → div_ceil a b ≤ k ↔ a ≤ k * b.
Proof.
  intros Ha Hb. unfold div_ceil. pose proof (Z.div_mod a b). pose proof (Z.mod_pos_bound a b).
  zcase; split; intros; nia.
Qed.

Lemma len_concat_ge (cs : list (list Z)) : Forall (λ c, 1 ≤ len c) cs → len cs ≤ len (concat cs).
Proof.
  induction 1 as [|c cs Hc _ IH]; [done|]. cbn [concat]. rewrite len_cons, len_app. simpl in Hc. lia.
Qed.

Lemma concat_part (cs : list (list Z)) c :
  Forall (λ c, 1 ≤ len c) cs → c ∈ cs →
  len c ≤ len (concat cs) ∧ (len c = len (concat cs) ↔ len cs = 1).
Proof.
  intros HF Hc. apply list_elem_of_split in Hc as (l1 & l2 & ->).
  rewrite Forall_app, Forall_cons in HF. destruct HF as (H1 & Hc & H2).
  apply len_concat_ge in H1, H2. rewrite concat_app. cbn [concat].
  rewrite !len_app, len_cons. pose proof (len_nonneg l1). pose proof (len_nonneg l2).
  pose proof (len_nonneg (concat l1)). pose proof (len_nonneg (concat l2)).
  split; [lia|]. split; intros H'; [lia|].
  assert (l1 = []) as -> by (apply len_0_nil; lia).
  assert (l2 = []) as -> by (apply len_0_nil; lia). cbn [concat]. rewrite len_nil. lia.
Qed.

(** A piece that [fragment_datagram] makes passes [validate_fragment]. *)
Definition piece (dir : UdpDirection) (sid did count total i : Z) (c : list Z) : UdpFragment :=
  {| direction := dir; session_id := sid; datagram_id := did; fragment_index := i;
     fragment_count := count; original_length := total; payload := c |}.

Lemma encode_piece dir sid did count total i c :
  sid ≠ 0 → 1 ≤ count ≤ 64 → 0 ≤ i < count → 0 < total ≤ 65507 →
  1 ≤ len c ≤ total → (len c = total ↔ count = 1) →
  ∃ e, encode (piece dir sid did count total i c) = Ok e.
Proof.
  intros Hs Hc Hi Ht Hl Hone. unfold encode.
  enough (validate_fragment (piece dir sid did count total i c) = Ok tt) as -> by by eexists.
  unfold validate_fragment, MAX_UDP_FRAGMENTS, MAX_UDP_DATAGRAM_BYTES. simpl.
  assert (bool_decide (c = []) = false) as ->.
  { apply bool_decide_eq_false_2. intros ->. rewrite len_nil in Hl. lia. }
  repeat (zcase; simpl; try lia); done.
Qed.

Lemma encode_chunks_spec dir sid did count total n cs i :
  sid ≠ 0 → 1 ≤ count ≤ 64 → 0 ≤ i → i + len cs ≤ count → 0 < total ≤ 65507 →
  Forall (λ c, 1 ≤ len c ≤ n ∧ len c ≤ total ∧ (len c = total ↔ count = 1)) cs →
  ∃ frames, encode_chunks dir sid did count total i cs = Ok frames ∧
    Forall2 (λ '(k, c) e, encode (piece dir sid did count total (i + Z.of_nat k) c) = Ok e)
      (imap pair cs) frames.
Proof.
  intros Hs Hc. revert i. induction cs as [|c cs IH]; intros i Hi Hlen Ht HF.
  { exists []. by split. }
  rewrite len_cons in Hlen. pose proof (len_nonneg cs).
  inversion HF as [|? ? (Hc1 & Hc2 & Hone) HF']; subst.
  destruct (encode_piece dir sid did count total i c) as [e He]; [done|lia..|done|].
  destruct (IH (i + 1)) as (frames & Hfr & HF2); [lia..|done|].
  exists (e :: frames). cbn [encode_chunks]. rewrite !Z.mod_small by lia. fold (piece dir sid did count total i c).
  rewrite He, Hfr. split; [done|]. cbn [imap]. constructor.
  - by rewrite Z.add_0_r.
  - rewrite <- (fmap_imap pair (λ '(k, x), (S k, x)) cs : _ = imap (pair ∘ S) cs).
    apply Forall2_fmap_l. eapply Forall2_impl; [exact HF2|]. intros [k x] y Hxy. simpl.
    by replace (i + Z.of_nat (S k)) with (i + 1 + Z.of_nat k) by lia.
Qed.

(** The datagram is accepted. *)
Definition fragmentable (sid : Z) (data : list Z) (max_frame_bytes : Z) : Prop :=
  sid ≠ 0 ∧ len data ≤ MAX_UDP_DATAGRAM_BYTES ∧ UDP_DATAGRAM_HEADER_BYTES < max_frame_bytes ∧
  len data ≤ MAX_UDP_FRAGMENTS * (max_frame_bytes - UDP_DATAGRAM_HEADER_BYTES).

(** [frames] are the encodings, in order, of the pieces [cs] of one datagram. *)
Definition frames_of (dir : UdpDirection) (sid did total : Z) (cs frames : list (list Z)) : Prop :=
  Forall2 (λ '(k, c) e, encode (piece dir sid did (len cs) total (Z.of_nat k) c) = Ok e)
    (imap pair cs) frames.

Lemma fragment_datagram_pieces dir sid did data max :
  fragmentable sid data max →
  ∃ cs frames, fragment_datagram dir sid did data max = Ok frames ∧
    frames_of dir sid did (len data) cs frames ∧ 1 ≤ len cs ≤ 64 ∧ concat cs = data ∧
    Forall (λ c, len c ≤ max - 40) cs.
Proof.
  unfold fragmentable, MAX_UDP_DATAGRAM_BYTES, UDP_DATAGRAM_HEADER_BYTES, MAX_UDP_FRAGMENTS.
  intros (Hs & Hd & Hm & Hn). unfold fragment_datagram.
  rewrite (proj2 (Z.eqb_neq _ _)) by done.
  rewrite (proj2 (Z.ltb_ge _ _)) by done. rewrite (proj2 (Z.leb_gt _ _)) by done.
  unfold UDP_DATAGRAM_HEADER_BYTES, MAX_UDP_FRAGMENTS. case_bool_decide as Hnil; cbv zeta.
  - subst data. change (64 <? 1) with false. cbv iota.
    assert (∃ e, encode (piece dir sid did 1 0 0 []) = Ok e) as [e He].
    { unfold encode, validate_fragment. cbn [piece session_id]. rewrite (proj2 (Z.eqb_neq _ _)) by done.
      by eexists. }
    unfold piece in He. rewrite He. exists [[]], [e]. split_and!; [done| |done..|].
    + repeat constructor. exact He.
    + repeat constructor. unfold len. simpl. lia.
  - assert (0 < len data) as Hpos by (destruct data; [done|rewrite len_cons; pose proof (len_nonneg data); lia]).
    destruct (chunks_fuel_spec (length data) (Z.to_nat (max - 40)) data) as (Hcat & HF & Hlen); [lia..|].
    fold (chunks (Z.to_nat (max - 40)) data) in *. rewrite Z2Nat.id in Hlen by lia.
    assert (len (chunks (Z.to_nat (max - 40)) data) ≤ 64) as H64.
    { rewrite Hlen. apply div_ceil_le; lia. }
    rewrite <- Hlen. set (cs := chunks (Z.to_nat (max - 40)) data) in *.
    rewrite (proj2 (Z.ltb_ge _ _)) by lia.
    assert (0 < len cs) as Hcs by (destruct cs; [simpl in Hcat; subst; done|rewrite len_cons; pose proof (len_nonneg cs); lia]).
    rewrite (Z.mod_small (len cs)) by lia.
    assert (Forall (λ c, 1 ≤ len c ≤ max - 40 ∧ len c ≤ len data ∧ (len c = len data ↔ len cs = 1)) cs) as HF'.
    { apply Forall_forall. intros c Hc.
      assert (Forall (λ c, 1 ≤ len c) cs) as Hne.
      { eapply Forall_impl; [exact HF|]. unfold len. simpl. lia. }
      destruct (concat_part cs c Hne Hc) as [Hle Hone]. rewrite Hcat in Hle, Hone.
      split_and!; [| |done|done]; rewrite Forall_forall in HF; apply HF in Hc; unfold len; lia. }
    destruct (encode_chunks_spec dir sid did (len cs) (len data) (max - 40) cs 0) as (frames & Hfr & HF2); [done|lia..|done|].
    exists cs, frames. split_and!; [done|exact HF2|lia..|done|].
    eapply Forall_impl; [exact HF'|]. intros c Hc. simpl in Hc. lia.
Qed.

Lemma fragment_datagram_fragmentable dir sid did data max :
  is_ok (fragment_datagram dir sid did data max) = true → fragmentable sid data max.
Proof.
  unfold fragment_datagram, fragmentable, MAX_UDP_FRAGMENTS, UDP_DATAGRAM_HEADER_BYTES, MAX_UDP_DATAGRAM_BYTES.
  destruct (sid =? 0) eqn:E1; [done|]. destruct (_ <? len data) eqn:E2; [done|].
  destruct (max <=? 40) eqn:E3; [done|]. cbv zeta. bool_prop.
  case_bool_decide as Hnil; [subst; intros _; unfold len; cbn [length]; split_and!; lia|].
  destruct (64 <? _) eqn:E4; [done|]. intros _. bool_prop.
  apply div_ceil_le in E4; [|auto with linklake|lia]. split_and!; [done|done|lia..].
Qed.

(** ** Properties *)

(** The frame decoder is total on arbitrary bytes and injective: it never
    panics, and a frame it accepts is byte for byte the encoding of the
    fragment it returns. *)
Theorem decode_frame_exact (e : list Z) :
  bytes_ok e →
  ∃ r, decode e = Done r ∧ (∀ f, r = Ok f → fragment_typed f ∧ encode f = Ok e).
Proof.
  intros Hok. destruct (decide (len e < 40)) as [Hl|Hl].
  { exists (Err (FrameTooShort (len e))). by split; [apply decode_short|]. }
  destruct (frame_split e) as (m & v & d & fl & s & g & i & c & o & p & -> & Hm & Hv & Hd & Hfl & Hs & Hg & Hi & Hc & Ho); [lia|].
  rewrite decode_parts by done. eexists. split; [done|]. intros f Hf.
  unfold bytes_ok in Hok. rewrite !Forall_app in Hok.
  destruct Hok as (Om & Ov & Od & Ofl & Os & Og & Oi & Oc & Oo & Op).
  unfold decode_fields in Hf. destruct (bool_decide (m = _)) eqn:E1; [|done]. cbn [negb] in Hf.
  destruct (from_be_bytes v =? _) eqn:E2; [|done]. cbn [negb] in Hf.
  destruct (direction_try_from (from_be_bytes d)) as [dir|] eqn:E3; [|done]. cbn [mbind result_bind] in Hf.
  destruct (from_be_bytes fl =? 0) eqn:E4; [|done]. cbn [negb] in Hf.
  destruct (validate_fragment _) as [[]|] eqn:E5; [|done]. injection Hf as <-. bool_prop.
  apply direction_byte_try_from in E3. split.
  - pose proof (from_be_bytes_bound s Os). pose proof (from_be_bytes_bound g Og).
    pose proof (from_be_bytes_bound i Oi). pose proof (from_be_bytes_bound c Oc).
    pose proof (from_be_bytes_bound o Oo). unfold len in *. rewrite Hs, Hg, Hi, Hc, Ho in *.
    unfold fragment_typed. simpl in *. lia.
  - unfold encode. rewrite E5. cbn -[to_be_bytes from_be_bytes app UDP_DATAGRAM_MAGIC UDP_DATAGRAM_VERSION].
    rewrite E3, <- E2, <- E1.
    assert (∀ n l, length l = n → bytes_ok l → to_be_bytes n (from_be_bytes l) = l) as Hb.
    { intros n l <-. apply to_from_be_bytes. }
    replace (to_be_bytes 2 0) with fl by (rewrite <- E4; symmetry; by apply Hb).
    replace [from_be_bytes v] with v by (split_list v Hv; done).
    replace [from_be_bytes d] with d by (split_list d Hd; done).
    by rewrite !Hb.
Qed.

Lemma decode_frame_exact_witness :
  ∃ r, decode (UDP_DATAGRAM_MAGIC ++ [1; 2; 0; 0] ++ to_be_bytes 16 7 ++ to_be_bytes 8 9 ++
               [0; 0; 0; 1; 0; 0; 0; 2; 65; 66]) = Done r ∧
       (∀ f, r = Ok f → fragment_typed f ∧
          encode f = Ok (UDP_DATAGRAM_MAGIC ++ [1; 2; 0; 0] ++ to_be_bytes 16 7 ++ to_be_bytes 8 9 ++
               [0; 0; 0; 1; 0; 0; 0; 2; 65; 66])).
Proof. refine (decode_frame_exact _ _). repeat constructor; vm_compute; congruence. Defined.

(** Encoding then decoding a fragment that validates gives the fragment
    back, in a frame of 40 bytes plus its payload. *)
Theorem decode_encode_fragment (f : UdpFragment) :
  fragment_typed f → validate_fragment f = Ok tt →
  ∃ e, encode f = Ok e ∧ decode e = Done (Ok f) ∧ len e = UDP_DATAGRAM_HEADER_BYTES + len (payload f).
Proof.
  intros Ht Hv. destruct (encode f) as [e|] eqn:He.
  - exists e. split; [done|]. by apply decode_encode_frame.
  - unfold encode in He. by rewrite Hv in He.
Qed.

Lemma decode_encode_fragment_witness :
  ∃ e, encode (piece TargetToPublic 5 77 3 9 1 [1; 2; 3]) = Ok e ∧
       decode e = Done (Ok (piece TargetToPublic 5 77 3 9 1 [1; 2; 3])) ∧ len e = 40 + 3.
Proof.
  refine (decode_encode_fragment (piece TargetToPublic 5 77 3 9 1 [1; 2; 3]) _ _).
  - unfold fragment_typed. simpl. lia.
  - vm_compute. reflexivity.
Defined.

(** Fragmentation succeeds exactly on a non-nil session, a datagram of at
    most 65507 bytes and a frame limit above the header that needs at most 64
    frames. The frames then respect the limit and decode, in order, to the
    pieces of the datagram: same session and datagram id, indices [0 .. n-1] of
    [n], and payloads that concatenate to the datagram. *)
Theorem fragment_datagram_correct (dir : UdpDirection) (sid did : Z) (data : list Z) (max : Z) :
  0 ≤ sid ≤ U128_MAX → 0 ≤ did ≤ U64_MAX →
  (is_ok (fragment_datagram dir sid did data max) = true ↔ fragmentable sid data max) ∧
  (∀ frames, fragment_datagram dir sid did data max = Ok frames →
     ∃ cs, concat cs = data ∧ length frames = length cs ∧ 1 ≤ len cs ≤ MAX_UDP_FRAGMENTS ∧
       ∀ k e, frames !! k = Some e →
         len e ≤ max ∧
         ∃ c, cs !! k = Some c ∧
           decode e = Done (Ok (piece dir sid did (len cs) (len data) (Z.of_nat k) c))).
Proof.
  intros Hsid Hdid.
  pose proof (fragment_datagram_fragmentable dir sid did data max) as Hfr.
  split.
  - split; [done|]. intros H. by destruct (fragment_datagram_pieces dir sid did data max H) as (cs & fr & -> & _).
  - intros frames Hok. destruct (fragment_datagram_pieces dir sid did data max) as (cs & fr & Hfrag & HF & Hlen & Hcat & Hsz).
    { apply Hfr. by rewrite Hok. }
    rewrite Hok in Hfrag. injection Hfrag as <-. exists cs.
    assert (fragmentable sid data max) as (_ & Hd & _ & _) by (apply Hfr; by rewrite Hok).
    pose proof (Forall2_length _ _ _ HF) as Hl. rewrite length_imap in Hl.
    split_and!; [done|done|unfold MAX_UDP_FRAGMENTS; lia..|]. intros k e He.
    destruct (Forall2_lookup_r _ _ _ _ _ HF He) as ([k' c] & Hc & Henc).
    rewrite list_lookup_imap in Hc. apply fmap_Some in Hc as (c' & Hc & [= -> <-]).
    assert (fragment_typed (piece dir sid did (len cs) (len data) (Z.of_nat k) c)) as Hty.
    { apply lookup_lt_Some in Hc. unfold fragment_typed, len, MAX_UDP_DATAGRAM_BYTES in *. simpl. lia. }
    destruct (decode_encode_frame _ e Hty Henc) as [Hdec Hlene]. split; [|by exists c].
    rewrite Forall_forall in Hsz. pose proof (Hsz c (list_elem_of_lookup_2 _ _ _ Hc)). simpl in *. lia.
Qed.

Lemma fragment_datagram_correct_witness :
  is_ok (fragment_datagram PublicToTarget 3 4 (repeat 9 100) 90) = true.
Proof.
  refine (proj2 (proj1 (fragment_datagram_correct PublicToTarget 3 4 (repeat 9 100) 90 _ _)) _).
  - lia.
  - lia.
  - unfold fragmentable. vm_compute. repeat split; congruence.
Defined.
