(* ===== verification/UdpReassembly.v ===== *)
(** * UDP datagram reassembly ([crates/linklake-core/src/udp_reassembly.rs])

    [UdpReassembler] with its hash maps as finite maps. [Instant] and [Duration]
    are nanoseconds in [Z]. Counters are [usize]; every [+=], [-=], index and
    [expect] of the source is an [exec] step that can panic, so the absence of
    panics and wrap-around is part of what is proved. *)

From S2P Require Import Prelude UdpProtocol.
Local Open Scope Z_scope.

Definition UDP_REASSEMBLY_TIMEOUT : Z := 2000000000.
Definition REASSEMBLY_CLEANUP_INTERVAL : Z := 100000000.
Definition DEFAULT_UDP_REASSEMBLY_MEMORY_BYTES : Z := 8 * 1024 * 1024.
Definition DEFAULT_MAX_INCOMPLETE_PER_SESSION : Z := 4.
Definition DEFAULT_MAX_INCOMPLETE_DATAGRAMS : Z := 4096.
Definition DEFAULT_MAX_COMPLETED_DATAGRAMS : Z := 4096.

Record UdpReassemblyConfig := {
  timeout : Z;
  completed_retention : Z;
  max_buffered_bytes : Z;
  max_incomplete_per_session : Z;
  max_incomplete_datagrams : Z;
  max_completed_datagrams : Z;
}.

Definition default_config : UdpReassemblyConfig :=
  {| timeout := UDP_REASSEMBLY_TIMEOUT;
     completed_retention := UDP_REASSEMBLY_TIMEOUT;
     max_buffered_bytes := DEFAULT_UDP_REASSEMBLY_MEMORY_BYTES;
     max_incomplete_per_session := DEFAULT_MAX_INCOMPLETE_PER_SESSION;
     max_incomplete_datagrams := DEFAULT_MAX_INCOMPLETE_DATAGRAMS;
     max_completed_datagrams := DEFAULT_MAX_COMPLETED_DATAGRAMS |}.

Record DatagramKey := {
  k_direction : UdpDirection;
  k_session_id : Z;
  k_datagram_id : Z;
}.

Global Instance DatagramKey_eq_dec : EqDecision DatagramKey.
Proof. solve_decision. Defined.
Global Instance DatagramKey_countable : Countable DatagramKey.
Proof.
  refine (inj_countable' (λ k, (k_direction k, k_session_id k, k_datagram_id k))
            (λ '(d, s, i), {| k_direction := d; k_session_id := s; k_datagram_id := i |}) _).
  by intros [].
Defined.

Definition key_from (f : UdpFragment) : DatagramKey :=
  {| k_direction := direction f; k_session_id := session_id f; k_datagram_id := datagram_id f |}.

Record PartialDatagram := {
  started_at : Z;
  p_original_length : Z;
  p_fragment_count : Z;
  fragments : list (option (list Z));
  received_fragments : Z;
  received_bytes : Z;
}.

Inductive UdpReassemblyOutcome := Pending | Duplicate | Complete (data : list Z).

Record UdpReassemblyExpiration := {
  e_incomplete_datagrams : Z;
  e_buffered_bytes : Z;
  e_completed_datagrams : Z;
}.
Definition no_expiration : UdpReassemblyExpiration :=
  {| e_incomplete_datagrams := 0; e_buffered_bytes := 0; e_completed_datagrams := 0 |}.

Inductive UdpReassemblyError :=
  | InvalidFragment (e : UdpProtocolError)
  | InvalidConfiguration
  | MemoryLimit
  | IncompleteDatagramLimit
  | SessionIncompleteLimit
  | MetadataMismatch
  | ConflictingFragment
  | DeclaredLengthExceeded
  | CompletedLengthMismatch.

Record UdpReassembler := {
  config : UdpReassemblyConfig;
  partials : gmap DatagramKey PartialDatagram;
  incomplete_by_session : gmap Z Z;
  completed : gmap DatagramKey Z;
  completed_order : list (DatagramKey * Z);
  buffered_bytes : Z;
  next_cleanup_at : option Z;
}.

(** Field updates. *)
Definition set_partials (f : gmap DatagramKey PartialDatagram → gmap DatagramKey PartialDatagram)
    (s : UdpReassembler) : UdpReassembler :=
  {| config := config s; partials := f (partials s); incomplete_by_session := incomplete_by_session s;
     completed := completed s; completed_order := completed_order s;
     buffered_bytes := buffered_bytes s; next_cleanup_at := next_cleanup_at s |}.
Definition set_usage (bytes : Z) (sessions : gmap Z Z) (s : UdpReassembler) : UdpReassembler :=
  {| config := config s; partials := partials s; incomplete_by_session := sessions;
     completed := completed s; completed_order := completed_order s;
     buffered_bytes := bytes; next_cleanup_at := next_cleanup_at s |}.
Definition set_completed (c : gmap DatagramKey Z) (o : list (DatagramKey * Z)) (s : UdpReassembler)
    : UdpReassembler :=
  {| config := config s; partials := partials s; incomplete_by_session := incomplete_by_session s;
     completed := c; completed_order := o;
     buffered_bytes := buffered_bytes s; next_cleanup_at := next_cleanup_at s |}.
Definition set_next_cleanup (t : Z) (s : UdpReassembler) : UdpReassembler :=
  {| config := config s; partials := partials s; incomplete_by_session := incomplete_by_session s;
     completed := completed s; completed_order := completed_order s;
     buffered_bytes := buffered_bytes s; next_cleanup_at := Some t |}.

Definition reassembler_new (c : UdpReassemblyConfig) : result UdpReassemblyError UdpReassembler :=
  if (max_buffered_bytes c =? 0) || (max_incomplete_per_session c =? 0) ||
     (max_incomplete_datagrams c =? 0) || (max_completed_datagrams c =? 0)
  then Err InvalidConfiguration
  else Ok {| config := c; partials := ∅; incomplete_by_session := ∅; completed := ∅;
             completed_order := []; buffered_bytes := 0; next_cleanup_at := None |}.

Definition elapsed_at_least (now earlier duration : Z) : bool := duration <=? Z.max 0 (now - earlier).

Definition remove_partial (key : DatagramKey) (s : UdpReassembler)
    : exec (option PartialDatagram * UdpReassembler) :=
  match partials s !! key with
  | None => Done (None, s)
  | Some partial =>
      let s := set_partials (delete key) s in
      let bytes := saturating_sub (buffered_bytes s) (p_original_length partial) in
      match incomplete_by_session s !! k_session_id key with
      | None => Done (Some partial, set_usage bytes (incomplete_by_session s) s)
      | Some count =>
          count ← usize_sub count 1;
          let sessions := incomplete_by_session s in
          let sessions := if count =? 0 then delete (k_session_id key) sessions
                          else <[k_session_id key := count]> sessions in
          Done (Some partial, set_usage bytes sessions s)
      end
  end.

(** The loop that removes the collected keys and counts what it released. *)
Fixpoint remove_partials (keys : list DatagramKey) (e : UdpReassemblyExpiration) (s : UdpReassembler)
    : exec (UdpReassemblyExpiration * UdpReassembler) :=
  match keys with
  | [] => Done (e, s)
  | key :: keys =>
      '(removed, s) ← remove_partial key s;
      match removed with
      | None => remove_partials keys e s
      | Some partial =>
          n ← usize_add (e_incomplete_datagrams e) 1;
          b ← usize_add (e_buffered_bytes e) (p_original_length partial);
          remove_partials keys
            {| e_incomplete_datagrams := n; e_buffered_bytes := b;
               e_completed_datagrams := e_completed_datagrams e |} s
      end
  end.

(** The loop over the front of [completed_order]: the remaining map, queue and
    number of released records. *)
Fixpoint expire_completed (now retention : Z) (completed : gmap DatagramKey Z)
    (order : list (DatagramKey * Z)) (n : Z) : exec (gmap DatagramKey Z * list (DatagramKey * Z) * Z) :=
  match order with
  | [] => Done (completed, [], n)
  | (key, completed_at) :: order' =>
      let is_current := bool_decide (completed !! key = Some completed_at) in
      if is_current && negb (elapsed_at_least now completed_at retention) then
        Done (completed, order, n)
      else if is_current then
        n ← usize_add n 1;
        expire_completed now retention (delete key completed) order' n
      else expire_completed now retention completed order' n
  end.

Definition expire (now : Z) (s : UdpReassembler) : exec (UdpReassemblyExpiration * UdpReassembler) :=
  if match next_cleanup_at s with Some deadline => now <? deadline | None => false end then
    Done (no_expiration, s)
  else
    let s := set_next_cleanup (now + REASSEMBLY_CLEANUP_INTERVAL) s in
    let expired_partial_keys :=
      (filter (λ kp, elapsed_at_least now (started_at kp.2) (timeout (config s)) = true)
         (map_to_list (partials s))).*1 in
    '(e, s) ← remove_partials expired_partial_keys no_expiration s;
    '(completed', order, n) ← expire_completed now (completed_retention (config s)) (completed s)
                                (completed_order s) (e_completed_datagrams e);
    Done ({| e_incomplete_datagrams := e_incomplete_datagrams e;
             e_buffered_bytes := e_buffered_bytes e; e_completed_datagrams := n |},
          set_completed completed' order s).

Fixpoint remove_completed (keys : list DatagramKey) (completed : gmap DatagramKey Z) (n : Z)
    : exec (gmap DatagramKey Z * Z) :=
  match keys with
  | [] => Done (completed, n)
  | key :: keys =>
      match completed !! key with
      | None => remove_completed keys completed n
      | Some _ => n ← usize_add n 1; remove_completed keys (delete key completed) n
      end
  end.

Definition discard_session (session : Z) (s : UdpReassembler)
    : exec (UdpReassemblyExpiration * UdpReassembler) :=
  let partial_keys := filter (λ k, k_session_id k = session) (map_to_list (partials s)).*1 in
  '(e, s) ← remove_partials partial_keys no_expiration s;
  let completed_keys := filter (λ k, k_session_id k = session) (map_to_list (completed s)).*1 in
  '(completed', n) ← remove_completed completed_keys (completed s) (e_completed_datagrams e);
  Done ({| e_incomplete_datagrams := e_incomplete_datagrams e;
           e_buffered_bytes := e_buffered_bytes e; e_completed_datagrams := n |},
        set_completed completed' (completed_order s) s).

Fixpoint evict_oldest_completed (completed : gmap DatagramKey Z) (order : list (DatagramKey * Z))
    : gmap DatagramKey Z * list (DatagramKey * Z) :=
  match order with
  | [] => (completed, [])
  | (key, completed_at) :: order =>
      if bool_decide (completed !! key = Some completed_at) then (delete key completed, order)
      else evict_oldest_completed completed order
  end.

Definition compact_completed_order (completed : gmap DatagramKey Z) (order : list (DatagramKey * Z))
    : list (DatagramKey * Z) :=
  filter (λ kt, completed !! kt.1 = Some kt.2) order.

Definition remember_completed (key : DatagramKey) (now : Z) (s : UdpReassembler) : UdpReassembler :=
  let '(c, o) :=
    if max_completed_datagrams (config s) <=? map_len (completed s)
    then evict_oldest_completed (completed s) (completed_order s)
    else (completed s, completed_order s) in
  let c := <[key := now]> c in
  let o := o ++ [(key, now)] in
  let o := if Z.min USIZE_MAX (max_completed_datagrams (config s) * 2) <? len o
           then compact_completed_order c o else o in
  set_completed c o s.

Definition insert_partial (key : DatagramKey) (f : UdpFragment) (now : Z) (s : UdpReassembler)
    : exec (result UdpReassemblyError UdpReassembler) :=
  if max_incomplete_datagrams (config s) <=? map_len (partials s) then
    Done (Err IncompleteDatagramLimit)
  else
    let per_session := default 0 (incomplete_by_session s !! session_id f) in
    if max_incomplete_per_session (config s) <=? per_session then Done (Err SessionIncompleteLimit)
    else
      let reserved_bytes := original_length f in
      if max_buffered_bytes (config s) <? saturating_add USIZE_MAX (buffered_bytes s) reserved_bytes
      then Done (Err MemoryLimit)
      else
        let s := set_partials (insert key
          {| started_at := now; p_original_length := reserved_bytes;
             p_fragment_count := fragment_count f;
             fragments := replicate (Z.to_nat (fragment_count f)) None;
             received_fragments := 0; received_bytes := 0 |}) s in
        bytes ← usize_add (buffered_bytes s) reserved_bytes;
        count ← usize_add (default 0 (incomplete_by_session s !! session_id f)) 1;
        Done (Ok (set_usage bytes (<[session_id f := count]> (incomplete_by_session s)) s)).

(** What the block that holds [&mut partial] decides. *)
Inductive slot_outcome :=
  | Failure (e : UdpReassemblyError)
  | AlreadyReceived
  | Stored (partial : PartialDatagram) (complete : bool).

Definition store_fragment (partial : PartialDatagram) (f : UdpFragment) : exec slot_outcome :=
  let idx := Z.to_nat (fragment_index f) in
  if negb (p_original_length partial =? original_length f) ||
     negb (p_fragment_count partial =? fragment_count f) then Done (Failure MetadataMismatch)
  else
    slot ← expect (fragments partial !! idx);
    match slot with
    | Some existing =>
        if bool_decide (existing = payload f) then Done AlreadyReceived
        else Done (Failure ConflictingFragment)
    | None =>
        bytes ← usize_add (received_bytes partial) (len (payload f));
        if p_original_length partial <? bytes then Done (Failure DeclaredLengthExceeded)
        else
          count ← usize_add (received_fragments partial) 1;
          Done (Stored
            {| started_at := started_at partial; p_original_length := p_original_length partial;
               p_fragment_count := p_fragment_count partial;
               fragments := <[idx := Some (payload f)]> (fragments partial);
               received_fragments := count; received_bytes := bytes |}
            (count =? p_fragment_count partial))
    end.

(** The loop that concatenates the slots with [expect]. *)
Fixpoint join_fragments (slots : list (option (list Z))) : exec (list Z) :=
  match slots with
  | [] => Done []
  | slot :: slots => b ← expect slot; rest ← join_fragments slots; Done (b ++ rest)
  end.

(** What follows the block: failures drop the datagram, the last fragment
    completes it. *)
Definition settle (key : DatagramKey) (now : Z) (outcome : slot_outcome) (s : UdpReassembler)
    : exec (result UdpReassemblyError UdpReassemblyOutcome * UdpReassembler) :=
  match outcome with
  | Failure e => '(_, s) ← remove_partial key s; Done (Err e, s)
  | AlreadyReceived => Done (Ok Duplicate, s)
  | Stored partial complete =>
      let s := set_partials (insert key partial) s in
      if negb complete then Done (Ok Pending, s)
      else
        '(removed, s) ← remove_partial key s;
        partial ← expect removed;
        if negb (received_bytes partial =? p_original_length partial) then
          Done (Err CompletedLengthMismatch, s)
        else
          data ← join_fragments (fragments partial);
          if negb (len data =? p_original_length partial) then
            Done (Err CompletedLengthMismatch, s)
          else Done (Ok (Complete data), remember_completed key now s)
  end.

(** [push] after validation and expiry. *)
Definition deliver (f : UdpFragment) (now : Z) (s : UdpReassembler)
    : exec (result UdpReassemblyError UdpReassemblyOutcome * UdpReassembler) :=
  let key := key_from f in
  if bool_decide (is_Some (completed s !! key)) then Done (Ok Duplicate, s)
  else if original_length f =? 0 then Done (Ok (Complete []), remember_completed key now s)
  else
    inserted ← (if bool_decide (is_Some (partials s !! key)) then Done (Ok s)
                else insert_partial key f now s);
    match inserted with
    | Err e => Done (Err e, s)
    | Ok s =>
        partial ← expect (partials s !! key);
        outcome ← store_fragment partial f;
        settle key now outcome s
    end.

Definition push (f : UdpFragment) (now : Z) (s : UdpReassembler)
    : exec (result UdpReassemblyError UdpReassemblyOutcome * UdpReassembler) :=
  match validate_fragment f with
  | Err e => Done (Err (InvalidFragment e), s)
  | Ok _ => '(_, s) ← expire now s; deliver f now s
  end.

(** ** Usage of the maps *)

(** Bytes reserved by the incomplete datagrams, and how many a session has. *)
Definition total_bytes (m : gmap DatagramKey PartialDatagram) : Z :=
  map_sum (λ _ p, p_original_length p) m.
Definition session_count (x : Z) (m : gmap DatagramKey PartialDatagram) : Z :=
  map_len (filter (λ kp, k_session_id kp.1 = x) m).

Lemma total_bytes_insert m k p :
  m !! k = None → total_bytes (<[k := p]> m) = p_original_length p + total_bytes m.
Proof. apply map_sum_insert. Qed.

Lemma total_bytes_delete m k p :
  m !! k = Some p → total_bytes m = p_original_length p + total_bytes (delete k m).
Proof. apply map_sum_delete. Qed.

Lemma total_bytes_replace m k p p' :
  m !! k = Some p → p_original_length p' = p_original_length p →
  total_bytes (<[k := p']> m) = total_bytes m.
Proof. intros H Hp. unfold total_bytes. rewrite (map_sum_replace _ _ _ _ _ H), Hp. lia. Qed.

Lemma map_len_insert {A} (m : gmap DatagramKey A) k p :
  m !! k = None → map_len (<[k := p]> m) = 1 + map_len m.
Proof. intros H. unfold map_len. rewrite map_size_insert_None by done. lia. Qed.

Lemma map_len_delete {A} (m : gmap DatagramKey A) k p :
  m !! k = Some p → map_len m = 1 + map_len (delete k m).
Proof.
  intros H. rewrite <- (insert_delete_id m k p) at 1 by done. apply map_len_insert, lookup_delete_eq.
Qed.

Lemma map_len_subseteq {A} (m m' : gmap DatagramKey A) : m ⊆ m' → map_len m ≤ map_len m'.
Proof.
  intros H. unfold map_len. apply Nat2Z.inj_le. rewrite <- !size_dom.
  by apply subseteq_size, subseteq_dom.
Qed.

Lemma map_len_nonneg {A} (m : gmap DatagramKey A) : 0 ≤ map_len m.
Proof. unfold map_len. lia. Qed.

Lemma session_count_insert x m k p :
  m !! k = None →
  session_count x (<[k := p]> m) = (if decide (k_session_id k = x) then 1 else 0) + session_count x m.
Proof.
  intros H. unfold session_count. case_decide as Hk.
  - rewrite map_filter_insert_True by done. apply map_len_insert.
    apply map_lookup_filter_None. by left.
  - rewrite map_filter_insert_False by done. by rewrite delete_id.
Qed.

Lemma session_count_delete x m k p :
  m !! k = Some p →
  session_count x m = (if decide (k_session_id k = x) then 1 else 0) + session_count x (delete k m).
Proof.
  intros H. rewrite <- (insert_delete_id m k p) at 1 by done.
  apply session_count_insert, lookup_delete_eq.
Qed.

Lemma session_count_replace x m k p p' :
  m !! k = Some p → session_count x (<[k := p']> m) = session_count x m.
Proof.
  intros H. rewrite <- insert_delete_eq, session_count_insert by apply lookup_delete_eq.
  by rewrite (session_count_delete x m k p H).
Qed.

Lemma session_count_nonneg x m : 0 ≤ session_count x m.
Proof. apply map_len_nonneg. Qed.

Lemma session_count_le x m : session_count x m ≤ map_len m.
Proof. apply map_len_subseteq, map_filter_subseteq. Qed.

(** ** The invariant *)

(** Limits are positive [usize] values. A memory limit of exactly [usize::MAX]
    is left out: there the saturating comparison of [insert_partial] can never
    reject, and the [+=] that follows could overflow. *)
Definition config_ok (c : UdpReassemblyConfig) : Prop :=
  0 ≤ timeout c ∧ 0 ≤ completed_retention c ∧
  1 ≤ max_buffered_bytes c < USIZE_MAX ∧ 1 ≤ max_incomplete_per_session c ≤ USIZE_MAX ∧
  1 ≤ max_incomplete_datagrams c ≤ USIZE_MAX ∧ 1 ≤ max_completed_datagrams c ≤ USIZE_MAX.

Definition received (slots : list (option (list Z))) : list (list Z) := omap id slots.

Definition slots_ok (p : PartialDatagram) : Prop :=
  1 ≤ p_fragment_count p ≤ 64 ∧ 0 < p_original_length p ≤ 65507 ∧
  len (fragments p) = p_fragment_count p ∧
  received_fragments p = len (received (fragments p)) ∧
  received_bytes p = len (concat (received (fragments p))) ∧
  received_bytes p ≤ p_original_length p.

(** The counters agree with the map of incomplete datagrams. *)
Record usage_ok (s : UdpReassembler) : Prop := {
  uo_config : config_ok (config s);
  uo_slots : map_Forall (λ _ p, slots_ok p) (partials s);
  uo_bytes : buffered_bytes s = total_bytes (partials s);
  uo_sessions : ∀ x, incomplete_by_session s !! x =
                  if decide (session_count x (partials s) = 0) then None
                  else Some (session_count x (partials s));
  uo_memory : buffered_bytes s ≤ max_buffered_bytes (config s);
  uo_incomplete : map_len (partials s) ≤ max_incomplete_datagrams (config s);
  uo_per_session : ∀ x, session_count x (partials s) ≤ max_incomplete_per_session (config s);
}.

(** The completion records are bounded and queued for expiry. *)
Record completed_ok (limit : Z) (c : gmap DatagramKey Z) (o : list (DatagramKey * Z)) : Prop := {
  co_queued : ∀ k t, c !! k = Some t → (k, t) ∈ o;
  co_bounded : map_len c ≤ limit;
}.

Record reassembler_ok (s : UdpReassembler) : Prop := {
  ro_usage : usage_ok s;
  ro_incomplete : map_Forall (λ _ p, received_fragments p < p_fragment_count p) (partials s);
  ro_completed : completed_ok (max_completed_datagrams (config s)) (completed s) (completed_order s);
}.

(** [s'] differs from [s] at most in the incomplete datagrams and their usage. *)
Definition same_completion (s s' : UdpReassembler) : Prop :=
  config s' = config s ∧ completed s' = completed s ∧ completed_order s' = completed_order s ∧
  next_cleanup_at s' = next_cleanup_at s.

Lemma total_bytes_nonneg m : map_Forall (λ _ p, slots_ok p) m → 0 ≤ total_bytes m.
Proof. intros HF. apply map_sum_nonneg. intros k p Hp. destruct (HF k p Hp) as (_ & ? & _). lia. Qed.

Lemma remove_partial_spec key s :
  usage_ok s →
  ∃ s', remove_partial key s = Done (partials s !! key, s') ∧ usage_ok s' ∧
    partials s' = delete key (partials s) ∧ same_completion s s'.
Proof.
  intros H. unfold remove_partial. destruct (partials s !! key) as [p|] eqn:Hp.
  2:{ exists s. split_and!; [done|done|by rewrite delete_id|done..]. }
  pose proof (uo_slots s H) as HF. pose proof (map_Forall_delete _ _ key HF) as HF'.
  pose proof (uo_bytes s H) as Hb. rewrite (total_bytes_delete _ _ _ Hp) in Hb.
  pose proof (total_bytes_nonneg _ HF'). pose proof (HF _ _ Hp) as (_ & Hlen & _).
  pose proof (session_count_delete (k_session_id key) _ _ _ Hp) as Hc.
  rewrite decide_True in Hc by done.
  pose proof (session_count_nonneg (k_session_id key) (delete key (partials s))).
  cbn [set_partials partials buffered_bytes incomplete_by_session].
  rewrite (uo_sessions s H), decide_False by lia.
  rewrite usize_sub_Done by lia. cbn [mbind exec_bind].
  eexists. split; [done|]. split; [|done].
  pose proof (map_len_delete _ _ _ Hp).
  constructor; cbn [set_usage set_partials partials config buffered_bytes incomplete_by_session].
  - apply H.
  - done.
  - rewrite saturating_sub_small by lia. lia.
  - intros x. pose proof (session_count_delete x _ _ _ Hp) as Hx.
    destruct (decide (k_session_id key = x)) as [<-|Hne].
    + destruct (Z.eqb_spec (session_count (k_session_id key) (partials s) - 1) 0).
      * rewrite lookup_delete_eq, decide_True by lia. done.
      * rewrite lookup_insert_eq, decide_False by lia. f_equal. lia.
    + rewrite <- (Z.add_0_l (session_count x (delete key (partials s)))), <- Hx, <- (uo_sessions s H x).
      case_match; [by rewrite lookup_delete_ne|by rewrite lookup_insert_ne].
  - rewrite saturating_sub_small by lia. pose proof (uo_memory s H). lia.
  - pose proof (uo_incomplete s H). lia.
  - intros x. pose proof (session_count_delete x _ _ _ Hp) as Hx.
    pose proof (uo_per_session s H x). case_decide; lia.
Qed.

Lemma same_completion_trans s1 s2 s3 :
  same_completion s1 s2 → same_completion s2 s3 → same_completion s1 s3.
Proof. unfold same_completion. naive_solver congruence. Qed.

(** Removing a list of keys releases exactly what it reports. *)
Lemma remove_partials_spec keys e s :
  usage_ok s →
  0 ≤ e_incomplete_datagrams e → e_incomplete_datagrams e + map_len (partials s) ≤ USIZE_MAX →
  0 ≤ e_buffered_bytes e → e_buffered_bytes e + buffered_bytes s ≤ USIZE_MAX →
  ∃ e' s', remove_partials keys e s = Done (e', s') ∧ usage_ok s' ∧
    partials s' = filter (λ kp, kp.1 ∉ keys) (partials s) ∧ same_completion s s' ∧
    e_incomplete_datagrams e' = e_incomplete_datagrams e + (map_len (partials s) - map_len (partials s')) ∧
    e_buffered_bytes e' = e_buffered_bytes e + (buffered_bytes s - buffered_bytes s') ∧
    e_completed_datagrams e' = e_completed_datagrams e.
Proof.
  revert e s. induction keys as [|k keys IH]; intros e s Hs Hn1 Hn2 Hb1 Hb2; cbn [remove_partials].
  { exists e, s. split_and!; try done; try lia.
    symmetry. apply map_filter_id. intros; set_solver. }
  destruct (remove_partial_spec k s Hs) as (s1 & -> & Hs1 & Hp1 & Hsame). cbn [mbind exec_bind].
  assert (filter (λ kp, kp.1 ∉ k :: keys) (partials s) = filter (λ kp, kp.1 ∉ keys) (partials s1)) as Hfilter.
  { rewrite Hp1. apply map_eq. intros j. apply option_eq. intros p.
    rewrite !map_lookup_filter_Some, lookup_delete_Some. simpl. rewrite not_elem_of_cons. naive_solver. }
  rewrite Hfilter. destruct (partials s !! k) as [p|] eqn:Hk.
  - pose proof (map_len_delete _ _ _ Hk) as Hl. rewrite <- Hp1 in Hl.
    pose proof (uo_bytes s Hs) as Hb. rewrite (total_bytes_delete _ _ _ Hk), <- Hp1, <- (uo_bytes s1 Hs1) in Hb.
    pose proof (uo_slots s Hs _ _ Hk) as (_ & Hpl & _). pose proof (map_len_nonneg (partials s1)).
    pose proof (uo_bytes s1 Hs1). pose proof (total_bytes_nonneg _ (uo_slots s1 Hs1)).
    rewrite !usize_add_Done by lia. cbn [mbind exec_bind].
    edestruct (IH {| e_incomplete_datagrams := e_incomplete_datagrams e + 1;
                     e_buffered_bytes := e_buffered_bytes e + p_original_length p;
                     e_completed_datagrams := e_completed_datagrams e |} s1)
      as (e' & s' & Hrun & Hs' & Hp' & Hsame' & Hn' & Hb' & Hc'); [done|simpl; lia..|].
    exists e', s'. split_and!; [done|done|done|by eapply same_completion_trans|simpl in *; lia..|done].
  - rewrite delete_id in Hp1 by done.
    assert (buffered_bytes s1 = buffered_bytes s) as Hbe
      by (rewrite (uo_bytes s1 Hs1), (uo_bytes s Hs); by rewrite Hp1).
    destruct (IH e s1) as (e' & s' & Hrun & Hs' & Hp' & Hsame' & Hn' & Hb' & Hc'); [done|rewrite ?Hp1, ?Hbe; lia..|].
    rewrite Hp1 in *. exists e', s'. split_and!; [done|done|done|by eapply same_completion_trans|lia..|done].
Qed.

Lemma expire_completed_spec now retention limit c o n :
  completed_ok limit c o → 0 ≤ n → n + map_len c ≤ USIZE_MAX →
  ∃ c' o' n', expire_completed now retention c o n = Done (c', o', n') ∧ completed_ok limit c' o' ∧
    c' ⊆ c ∧ n' = n + (map_len c - map_len c') ∧
    (∀ k t, c !! k = Some t → c' !! k = None → elapsed_at_least now t retention = true).
Proof.
  revert c n. induction o as [|[k t] o IH]; intros c n Hok Hn Hmax; cbn [expire_completed].
  { exists c, [], n. split_and!; [done|done|done|lia|naive_solver]. }
  case_bool_decide as Hcur; cbn [andb].
  - destruct (elapsed_at_least now t retention) eqn:He; cbn [negb].
    2:{ exists c, ((k, t) :: o), n. split_and!; [done|done|done|lia|naive_solver]. }
    pose proof (map_len_delete _ _ _ Hcur) as Hl. pose proof (map_len_nonneg (delete k c)).
    rewrite usize_add_Done by lia. cbn [mbind exec_bind].
    destruct (IH (delete k c) (n + 1)) as (c' & o' & n' & Hrun & Hok' & Hsub & Hn' & Hel); [|lia..|].
    { destruct Hok as [Hq Hb]. split; [|lia]. intros j u. rewrite lookup_delete_Some.
      intros [Hne Hj]. apply Hq in Hj. set_solver. }
    exists c', o', n'. split_and!; [done|done| |lia|].
    + transitivity (delete k c); [done|]. apply delete_subseteq.
    + intros j u Hj Hj'. destruct (decide (j = k)) as [->|]; [congruence|].
      apply (Hel j); [by rewrite lookup_delete_ne|done].
  - apply IH; [|done..]. destruct Hok as [Hq Hb]. split; [|done]. intros j u Hj.
    pose proof (Hq j u Hj) as Hin. set_solver.
Qed.

Lemma evict_oldest_completed_spec limit c o :
  completed_ok limit c o →
  let '(c', o') := evict_oldest_completed c o in
  completed_ok limit c' o' ∧ c' ⊆ c ∧ (c ≠ ∅ → map_len c' < map_len c).
Proof.
  revert c. induction o as [|[k t] o IH]; intros c Hok; cbn [evict_oldest_completed].
  - split_and!; [done|done|]. intros Hne. destruct (map_choose c Hne) as (k & t & Hk).
    apply (co_queued _ _ _ Hok) in Hk. set_solver.
  - case_bool_decide as Hcur.
    + pose proof (map_len_delete _ _ _ Hcur) as Hl. split_and!; [|apply delete_subseteq|intros; lia].
      destruct Hok as [Hq Hb]. split; [|lia]. intros j u. rewrite lookup_delete_Some.
      intros [Hne Hj]. apply Hq in Hj. set_solver.
    + apply IH. destruct Hok as [Hq Hb]. split; [|done]. intros j u Hj.
      pose proof (Hq j u Hj) as Hin. set_solver.
Qed.

Lemma remember_completed_spec key now s :
  1 ≤ max_completed_datagrams (config s) →
  completed_ok (max_completed_datagrams (config s)) (completed s) (completed_order s) →
  let s' := remember_completed key now s in
  completed_ok (max_completed_datagrams (config s)) (completed s') (completed_order s') ∧
  (∀ k t, completed s' !! k = Some t → completed s !! k = Some t ∨ k = key) ∧
  completed s' !! key = Some now ∧
  config s' = config s ∧ partials s' = partials s ∧ buffered_bytes s' = buffered_bytes s ∧
  incomplete_by_session s' = incomplete_by_session s.
Proof.
  intros Hmax Hok. unfold remember_completed.
  set (limit := max_completed_datagrams (config s)) in *.
  assert (∃ c o, (if limit <=? map_len (completed s) then evict_oldest_completed (completed s) (completed_order s)
                  else (completed s, completed_order s)) = (c, o) ∧
            completed_ok limit c o ∧ c ⊆ completed s ∧ map_len c < limit) as (c & o & -> & Hco & Hsub & Hlt).
  { destruct (Z.leb_spec limit (map_len (completed s))).
    - pose proof (evict_oldest_completed_spec limit _ _ Hok) as He.
      destruct (evict_oldest_completed _ _) as [c o]. destruct He as (Hco & Hsub & Hlt).
      exists c, o. split_and!; [done..|]. pose proof (co_bounded _ _ _ Hok).
      enough (completed s ≠ ∅) as Hne by (specialize (Hlt Hne); lia). intros Hemp.
      rewrite Hemp in *. unfold map_len in *. rewrite map_size_empty in *. lia.
    - exists (completed s), (completed_order s). split_and!; [done..|lia]. }
  set (o' := if _ <? _ then _ else _).
  cbn [set_completed completed completed_order config partials buffered_bytes incomplete_by_session].
  split_and!; [|intros k t|apply lookup_insert_eq|done..].
  - split.
    + intros k t Hk. assert ((k, t) ∈ o ++ [(key, now)]) as Hin.
      { apply lookup_insert_Some in Hk as [[<- <-]|[_ Hk]]; [set_solver|].
        apply (co_queued _ _ _ Hco) in Hk. set_solver. }
      unfold o'. case_match; [|done]. apply list_elem_of_filter. done.
    + destruct (c !! key) as [u|] eqn:Hu.
      * unfold map_len. rewrite map_size_insert_Some by done. unfold map_len in Hlt. lia.
      * rewrite map_len_insert by done. lia.
  - intros Hk. apply lookup_insert_Some in Hk as [[<- _]|[_ Hk]]; [by right|left].
    by eapply lookup_weaken.
Qed.

Lemma total_bytes_subseteq m m' :
  m ⊆ m' → map_Forall (λ _ p, slots_ok p) m' → total_bytes m ≤ total_bytes m'.
Proof.
  revert m. induction m' as [|k p m' Hk IH] using map_ind; intros m Hsub HF.
  { enough (m = ∅) as -> by done. apply map_empty. intros k. apply eq_None_not_Some. intros [p Hp].
    by apply (lookup_weaken _ _ _ _ Hp) in Hsub. }
  apply map_Forall_insert in HF as [Hp HF]; [|done]. rewrite total_bytes_insert by done.
  assert (delete k m ⊆ m') as Hsub'.
  { apply map_subseteq_spec. intros j q. rewrite lookup_delete_Some. intros [Hne Hj].
    apply (lookup_weaken _ _ _ _ Hj) in Hsub. by rewrite lookup_insert_ne in Hsub. }
  specialize (IH _ Hsub' HF). destruct Hp as (_ & Hlen & _).
  destruct (m !! k) as [q|] eqn:Hq.
  - rewrite (total_bytes_delete _ _ _ Hq).
    apply (lookup_weaken _ _ _ _ Hq) in Hsub. rewrite lookup_insert_eq in Hsub. injection Hsub as <-. lia.
  - rewrite delete_id in IH by done. lia.
Qed.

Lemma session_count_subseteq x m m' : m ⊆ m' → session_count x m ≤ session_count x m'.
Proof.
  intros H. apply map_len_subseteq, map_subseteq_spec. intros k p.
  rewrite !map_lookup_filter_Some. intros [Hk Hx]. split; [by eapply lookup_weaken|done].
Qed.

(** The partials that [expire] drops when it runs at [now]. *)
Definition overdue (now : Z) (s : UdpReassembler) (p : PartialDatagram) : bool :=
  elapsed_at_least now (started_at p) (timeout (config s)).
Definition cleanup_due (now : Z) (s : UdpReassembler) : bool :=
  match next_cleanup_at s with Some deadline => deadline <=? now | None => true end.

Lemma expire_spec now s :
  reassembler_ok s →
  ∃ e s', expire now s = Done (e, s') ∧ reassembler_ok s' ∧ config s' = config s ∧
    partials s' = (if cleanup_due now s then filter (λ kp, overdue now s kp.2 = false) (partials s)
                   else partials s) ∧
    completed s' ⊆ completed s ∧
    (∀ k t, completed s !! k = Some t → completed s' !! k = None →
       elapsed_at_least now t (completed_retention (config s)) = true) ∧
    e_incomplete_datagrams e = map_len (partials s) - map_len (partials s') ∧
    e_buffered_bytes e = buffered_bytes s - buffered_bytes s' ∧
    e_completed_datagrams e = map_len (completed s) - map_len (completed s').
Proof.
  intros [Hu Hi Hc]. unfold expire, cleanup_due.
  replace (match next_cleanup_at s with Some deadline => now <? deadline | None => false end)
    with (negb (match next_cleanup_at s with Some deadline => deadline <=? now | None => true end))
    by (destruct (next_cleanup_at s); simpl; [by rewrite Z.leb_antisym, negb_involutive|done]).
  destruct (match next_cleanup_at s with Some _ => _ | None => _ end); cbn [negb].
  2:{ exists no_expiration, s. split_and!; [done|by split|done|done|done|naive_solver|simpl; lia..]. }
  set (s1 := set_next_cleanup _ s).
  assert (usage_ok s1) as Hu1 by (destruct Hu; by constructor).
  pose proof (uo_config s Hu) as (_ & _ & Hm1 & Hm2 & Hm3 & Hm4).
  pose proof (uo_memory s Hu). pose proof (uo_incomplete s Hu).
  change (config s1) with (config s). change (partials s1) with (partials s).
  set (keys := (filter _ _).*1).
  destruct (remove_partials_spec keys no_expiration s1) as
    (e & s2 & -> & Hu2 & Hp2 & (Hcf & Hcm & Hco & _) & Hn & Hb & Hec); [done|simpl; lia..|].
  cbn [mbind exec_bind]. cbn [no_expiration e_incomplete_datagrams e_buffered_bytes e_completed_datagrams] in *.
  change (completed s1) with (completed s) in Hcm. change (completed_order s1) with (completed_order s) in Hco.
  change (config s1) with (config s) in Hcf. rewrite Hcm, Hco, Hcf.
  change (partials s1) with (partials s) in *. change (buffered_bytes s1) with (buffered_bytes s) in *.
  pose proof (co_bounded _ _ _ Hc).
  destruct (expire_completed_spec now (completed_retention (config s)) _ _ _ (e_completed_datagrams e) Hc)
    as (c' & o' & n' & -> & Hok' & Hsub & Hn' & Hel); [lia..|]. cbn [mbind exec_bind].
  do 2 eexists. split; [done|].
  cbn [set_completed partials completed completed_order config buffered_bytes
       e_incomplete_datagrams e_buffered_bytes e_completed_datagrams].
  assert (partials s2 = filter (λ kp, overdue now s kp.2 = false) (partials s)) as Hp2'.
  { rewrite Hp2. apply map_filter_ext. intros k p Hk. simpl. unfold keys.
    rewrite list_elem_of_fmap. unfold overdue. split.
    - intros Hnot. apply not_true_is_false. intros He. apply Hnot. exists (k, p).
      split; [done|]. apply list_elem_of_filter. split; [done|]. by apply elem_of_map_to_list.
    - intros He ([k' p'] & -> & Hin). apply list_elem_of_filter in Hin as [Hin1 Hin2].
      apply elem_of_map_to_list in Hin2. simpl in *. congruence. }
  split_and!; [|done|done|done|done|lia..].
  split; cbn [set_completed partials completed completed_order config].
  - destruct Hu2; by constructor.
  - rewrite Hp2'. intros k p [Hk _]%map_lookup_filter_Some. by apply (Hi k).
  - by rewrite Hcf.
Qed.

Lemma remove_completed_spec keys c n :
  0 ≤ n → n + map_len c ≤ USIZE_MAX →
  ∃ c' n', remove_completed keys c n = Done (c', n') ∧ c' = filter (λ kt, kt.1 ∉ keys) c ∧
    n' = n + (map_len c - map_len c').
Proof.
  revert c n. induction keys as [|k keys IH]; intros c n Hn Hmax; cbn [remove_completed].
  { exists c, n. split_and!; [done| |lia]. symmetry. apply map_filter_id. intros; set_solver. }
  assert (filter (λ kt, kt.1 ∉ k :: keys) c = filter (λ kt, kt.1 ∉ keys) (delete k c)) as ->.
  { apply map_eq. intros j. apply option_eq. intros p.
    rewrite !map_lookup_filter_Some, lookup_delete_Some. simpl. rewrite not_elem_of_cons. naive_solver. }
  destruct (c !! k) as [t|] eqn:Hk; [|rewrite delete_id by done; by apply IH].
  pose proof (map_len_delete _ _ _ Hk). pose proof (map_len_nonneg (delete k c)).
  rewrite usize_add_Done by lia. cbn [mbind exec_bind].
  destruct (IH (delete k c) (n + 1)) as (c' & n' & Hrun & Hc' & Hn'); [lia..|].
  exists c', n'. split_and!; [done|done|lia].
Qed.

Lemma filter_session_keys {A} (x : Z) (m : gmap DatagramKey A) :
  filter (λ kp, kp.1 ∉ filter (λ k, k_session_id k = x) (map_to_list m).*1) m =
  filter (λ kp, k_session_id kp.1 ≠ x) m.
Proof.
  apply map_filter_ext. intros k p Hk. simpl. rewrite list_elem_of_filter, list_elem_of_fmap. split.
  - intros Hnot Hx. apply Hnot. split; [done|]. exists (k, p). split; [done|]. by apply elem_of_map_to_list.
  - intros Hne [Hx _]. done.
Qed.

Lemma discard_session_spec x s :
  reassembler_ok s →
  ∃ e s', discard_session x s = Done (e, s') ∧ reassembler_ok s' ∧ config s' = config s ∧
    partials s' = filter (λ kp, k_session_id kp.1 ≠ x) (partials s) ∧
    completed s' = filter (λ kp, k_session_id kp.1 ≠ x) (completed s) ∧
    e_incomplete_datagrams e = map_len (partials s) - map_len (partials s') ∧
    e_buffered_bytes e = buffered_bytes s - buffered_bytes s' ∧
    e_completed_datagrams e = map_len (completed s) - map_len (completed s').
Proof.
  intros [Hu Hi Hc]. unfold discard_session.
  pose proof (uo_config s Hu) as (_ & _ & Hm1 & Hm2 & Hm3 & Hm4).
  pose proof (uo_memory s Hu). pose proof (uo_incomplete s Hu). pose proof (co_bounded _ _ _ Hc).
  edestruct (remove_partials_spec (filter (λ k, k_session_id k = x) (map_to_list (partials s)).*1)
    no_expiration s Hu) as (e & s2 & -> & Hu2 & Hp2 & (Hcf & Hcm & Hco & _) & Hn & Hb & Hec); [simpl; lia..|].
  cbn [mbind exec_bind]. rewrite filter_session_keys in Hp2. simpl in Hec, Hn, Hb.
  edestruct (remove_completed_spec (filter (λ k, k_session_id k = x) (map_to_list (completed s2)).*1)
    (completed s2) (e_completed_datagrams e)) as (c' & n' & -> & Hc' & Hn'); [lia|rewrite Hcm; lia|].
  rewrite filter_session_keys in Hc'. cbn [mbind exec_bind]. do 2 eexists. split; [done|].
  cbn [set_completed partials completed completed_order config buffered_bytes
       e_incomplete_datagrams e_buffered_bytes e_completed_datagrams].
  rewrite Hcm in *. split_and!; [|done..|lia|lia|lia].
  split; cbn [set_completed partials completed completed_order config].
  - destruct Hu2; by constructor.
  - rewrite Hp2. intros k p [Hk _]%map_lookup_filter_Some. by apply (Hi k).
  - rewrite Hcf, Hco. destruct Hc as [Hq _]. split.
    + intros k t. rewrite Hc'. intros [Hk _]%map_lookup_filter_Some. by apply Hq.
    + rewrite Hc'. etransitivity; [apply map_len_subseteq, map_filter_subseteq|done].
Qed.

(** ** Slots of an incomplete datagram *)

Lemma received_app l k : received (l ++ k) = received l ++ received k.
Proof. apply omap_app. Qed.

Lemma received_insert slots i c :
  slots !! i = Some None →
  len (received (<[i := Some c]> slots)) = 1 + len (received slots) ∧
  len (concat (received (<[i := Some c]> slots))) = len c + len (concat (received slots)).
Proof.
  intros H. destruct (list_elem_of_split_length _ _ _ H) as (l1 & l2 & -> & ->).
  rewrite insert_app_r_alt, Nat.sub_diag by done. cbn [insert list_insert].
  rewrite !received_app. change (received (Some c :: ?l)) with (c :: received l).
  change (received (None :: ?l)) with (received l).
  rewrite !concat_app. cbn [concat]. rewrite !len_app, len_cons. lia.
Qed.

Lemma received_le slots : len (received slots) ≤ len slots.
Proof.
  induction slots as [|[c|] slots IH]; [done|..].
  - change (received (Some c :: slots)) with (c :: received slots). rewrite !len_cons. lia.
  - change (received (None :: slots)) with (received slots). rewrite len_cons. lia.
Qed.

Lemma join_fragments_full slots :
  len (received slots) = len slots → join_fragments slots = Done (concat (received slots)).
Proof.
  induction slots as [|[c|] slots IH]; intros H; [done|..].
  - change (received (Some c :: slots)) with (c :: received slots) in *. rewrite !len_cons in H.
    cbn [join_fragments expect mbind exec_bind]. rewrite IH by lia. done.
  - change (received (None :: slots)) with (received slots) in H.
    pose proof (received_le slots). rewrite len_cons in H. lia.
Qed.

Lemma store_fragment_spec p f :
  slots_ok p → validate_fragment f = Ok tt → 0 ≤ fragment_index f →
  ∃ o, store_fragment p f = Done o ∧
    match o with
    | Stored p' complete =>
        slots_ok p' ∧ p_original_length p' = p_original_length p ∧
        p_original_length p' = original_length f ∧
        complete = (received_fragments p' =? p_fragment_count p')
    | _ => True
    end.
Proof.
  intros (Hc & Ho & Hl & Hn & Hb & Hle) Hv Hi. unfold store_fragment.
  apply validate_fragment_Ok in Hv as (_ & _ & Hc64 & Hidx & Ho64 & Hpl & _).
  destruct (Z.eqb_spec (p_original_length p) (original_length f)) as [E1|]; [|by eexists].
  destruct (Z.eqb_spec (p_fragment_count p) (fragment_count f)) as [E2|]; [|by eexists].
  cbn [negb orb].
  destruct (fragments p !! Z.to_nat (fragment_index f)) as [slot|] eqn:Hs.
  2:{ apply lookup_ge_None in Hs. unfold len in Hl. lia. }
  cbn [expect mbind exec_bind]. destruct slot as [existing|].
  { case_bool_decide; by eexists. }
  pose proof (received_le (fragments p)) as Hrl.
  rewrite !usize_add_Done by lia. cbn [mbind exec_bind].
  destruct (Z.ltb_spec (p_original_length p) (received_bytes p + len (payload f))); [by eexists|].
  destruct (received_insert _ _ (payload f) Hs) as [Hr1 Hr2].
  eexists. split; [done|]. cbn beta iota.
  split_and!; [|done|done|done]. unfold slots_ok. cbn [p_fragment_count p_original_length fragments received_fragments received_bytes].
  split_and!; try lia. unfold len in *. rewrite length_insert. lia.
Qed.

(** The record [insert_partial] creates for the first fragment. *)
Definition fresh_partial (f : UdpFragment) (now : Z) : PartialDatagram :=
  {| started_at := now; p_original_length := original_length f; p_fragment_count := fragment_count f;
     fragments := replicate (Z.to_nat (fragment_count f)) None;
     received_fragments := 0; received_bytes := 0 |}.

Lemma received_none n : received (replicate n None) = [].
Proof. induction n; [done|]. exact IHn. Qed.

Lemma fresh_partial_ok f now :
  validate_fragment f = Ok tt → 0 ≤ fragment_index f → 0 < original_length f → slots_ok (fresh_partial f now).
Proof.
  intros Hv Hi Ho. apply validate_fragment_Ok in Hv as (_ & _ & ? & ? & ? & _ & _).
  unfold slots_ok, fresh_partial.
  cbn [p_fragment_count p_original_length fragments received_fragments received_bytes].
  rewrite received_none. split_and!; try lia; [|done|done].
  unfold len. rewrite length_replicate. lia.
Qed.

(** There is room for one more datagram of [bytes] bytes in session [x]. *)
Definition has_room (s : UdpReassembler) (x bytes : Z) : Prop :=
  map_len (partials s) < max_incomplete_datagrams (config s) ∧
  session_count x (partials s) < max_incomplete_per_session (config s) ∧
  buffered_bytes s + bytes ≤ max_buffered_bytes (config s).

Lemma session_count_lookup s x :
  usage_ok s → default 0 (incomplete_by_session s !! x) = session_count x (partials s).
Proof. intros H. rewrite (uo_sessions s H). case_decide; simpl; lia. Qed.

Lemma insert_partial_spec f now s :
  usage_ok s → validate_fragment f = Ok tt → 0 ≤ fragment_index f → 0 < original_length f →
  partials s !! key_from f = None →
  (∃ e, insert_partial (key_from f) f now s = Done (Err e) ∧ ¬ has_room s (session_id f) (original_length f)) ∨
  (∃ s', insert_partial (key_from f) f now s = Done (Ok s') ∧
     has_room s (session_id f) (original_length f) ∧ usage_ok s' ∧
     partials s' = <[key_from f := fresh_partial f now]> (partials s) ∧ same_completion s s').
Proof.
  intros Hu Hv Hi Ho Hnone. unfold insert_partial, has_room. rewrite session_count_lookup by done.
  destruct (Z.leb_spec (max_incomplete_datagrams (config s)) (map_len (partials s))).
  { left. eexists. split; [done|]. lia. }
  destruct (Z.leb_spec (max_incomplete_per_session (config s)) (session_count (session_id f) (partials s))).
  { left. eexists. split; [done|]. lia. }
  pose proof (uo_config s Hu) as (_ & _ & Hm1 & Hm2 & Hm3 & _).
  unfold saturating_add. destruct (Z.ltb_spec (max_buffered_bytes (config s))
    (Z.min USIZE_MAX (buffered_bytes s + original_length f))).
  { left. eexists. split; [done|]. lia. }
  pose proof (proj1 (proj2 (fresh_partial_ok f now Hv Hi Ho))) as Hlen. simpl in Hlen.
  pose proof (uo_memory s Hu).
  right. cbv zeta. cbn [set_partials buffered_bytes incomplete_by_session].
  rewrite session_count_lookup by done.
  rewrite !usize_add_Done by lia. cbn [mbind exec_bind]. fold (fresh_partial f now).
  eexists. split; [done|]. split; [lia|]. split; [|done].
  constructor; cbn [set_usage set_partials partials config buffered_bytes incomplete_by_session].
  - apply Hu.
  - apply map_Forall_insert_2; [by apply fresh_partial_ok|apply Hu].
  - rewrite total_bytes_insert by done. rewrite (uo_bytes s Hu). simpl. lia.
  - intros x. rewrite session_count_insert by done. cbn [key_from k_session_id].
    pose proof (session_count_nonneg x (partials s)). destruct (decide (session_id f = x)) as [<-|Hne].
    + rewrite lookup_insert_eq, decide_False by lia. f_equal. lia.
    + rewrite lookup_insert_ne by done. by rewrite (uo_sessions s Hu), Z.add_0_l.
  - lia.
  - rewrite map_len_insert by done. lia.
  - intros x. rewrite session_count_insert by done. cbn [key_from k_session_id].
    pose proof (uo_per_session s Hu x). destruct (decide (session_id f = x)) as [<-|]; lia.
Qed.

(** ** Receiving a fragment *)

Lemma set_partials_replace key p p' s :
  usage_ok s → partials s !! key = Some p → slots_ok p' →
  p_original_length p' = p_original_length p → usage_ok (set_partials (insert key p') s).
Proof.
  intros Hu Hp Hok Hlen.
  constructor; cbn [set_partials partials config buffered_bytes incomplete_by_session].
  - apply Hu.
  - apply map_Forall_insert_2; [done|apply Hu].
  - rewrite (total_bytes_replace _ _ _ _ Hp Hlen). apply Hu.
  - intros x. rewrite (session_count_replace _ _ _ _ _ Hp). apply Hu.
  - apply Hu.
  - unfold map_len. rewrite map_size_insert_Some by done. apply Hu.
  - intros x. rewrite (session_count_replace _ _ _ _ _ Hp). apply Hu.
Qed.

(** Only [key] is affected. *)
Definition others_kept (key : DatagramKey) (s s' : UdpReassembler) : Prop :=
  config s' = config s ∧
  (∀ k, k ≠ key → partials s' !! k = partials s !! k) ∧
  (∀ k t, k ≠ key → completed s' !! k = Some t → completed s !! k = Some t).

Lemma remove_partial_ok key s s' :
  usage_ok s' → partials s' = delete key (partials s) → same_completion s s' →
  map_Forall (λ k p, k ≠ key → received_fragments p < p_fragment_count p) (partials s) →
  completed_ok (max_completed_datagrams (config s)) (completed s) (completed_order s) →
  reassembler_ok s' ∧ others_kept key s s'.
Proof.
  intros Hu Hp (Hcf & Hc & Ho & _) Hi Hco. split.
  - split; [done| |by rewrite Hcf, Hc, Ho]. rewrite Hp. intros k q.
    rewrite lookup_delete_Some. intros [Hne Hk]. apply (Hi k); [done|congruence].
  - split; [done|]. split; [|by rewrite Hc]. intros k Hne. rewrite Hp. by rewrite lookup_delete_ne.
Qed.

Lemma remember_completed_ok key now s :
  reassembler_ok s →
  reassembler_ok (remember_completed key now s) ∧ others_kept key s (remember_completed key now s) ∧
  partials (remember_completed key now s) = partials s ∧
  completed (remember_completed key now s) !! key = Some now.
Proof.
  intros [Hu Hi Hc]. pose proof (uo_config s Hu) as (_ & _ & _ & _ & _ & Hmax).
  destruct (remember_completed_spec key now s) as (Hok & Hfrom & Hkey & Hcf & Hp & Hb & Hs); [lia|done|].
  split_and!; [| |done|done].
  - split; [|by rewrite Hp|by rewrite Hcf].
    destruct Hu. constructor; rewrite ?Hp, ?Hcf, ?Hb, ?Hs; done.
  - split_and!; [done|by rewrite Hp|]. intros k t Hne Hk. destruct (Hfrom k t Hk); done.
Qed.

Lemma settle_spec key now o s p :
  reassembler_ok s → partials s !! key = Some p →
  match o with
  | Stored p' complete => slots_ok p' ∧ p_original_length p' = p_original_length p ∧
                          complete = (received_fragments p' =? p_fragment_count p')
  | _ => True
  end →
  ∃ r s', settle key now o s = Done (r, s') ∧ reassembler_ok s' ∧ others_kept key s s' ∧
    match o with
    | Failure e => r = Err e ∧ partials s' !! key = None
    | AlreadyReceived => r = Ok Duplicate ∧ s' = s
    | Stored p' false => r = Ok Pending ∧ partials s' !! key = Some p' ∧ completed s' = completed s
    | Stored p' true =>
        partials s' !! key = None ∧
        r = if received_bytes p' =? p_original_length p'
            then Ok (Complete (concat (received (fragments p')))) else Err CompletedLengthMismatch
    end.
Proof.
  intros Hs Hp Ho. pose proof Hs as [Hu Hi Hc]. unfold settle. destruct o as [e| |p' complete].
  - destruct (remove_partial_spec key s Hu) as (s1 & -> & Hu1 & Hp1 & Hsame). cbn [mbind exec_bind].
    destruct (remove_partial_ok key s s1) as [Hok Hkept]; [done..| |done|].
    { intros k q Hk _. by apply (Hi k). }
    do 2 eexists. split_and!; [done|done|done|done|]. rewrite Hp1. apply lookup_delete_eq.
  - do 2 eexists. by split_and!.
  - destruct Ho as (Hslots & Hlen & Hcomplete).
    pose proof (set_partials_replace key p p' s Hu Hp Hslots Hlen) as Hu1.
    set (s1 := set_partials (insert key p') s) in *. pose proof Hslots as (_ & _ & Hl & Hr & Hb & _).
    assert (others_kept key s s1) as Hk1.
    { split_and!; [done| |done]. intros k Hne. simpl. by rewrite lookup_insert_ne. }
    destruct complete; cbn [negb].
    + assert (partials s1 !! key = Some p') as Hp' by apply lookup_insert_eq.
      destruct (remove_partial_spec key s1 Hu1) as (s2 & -> & Hu2 & Hp2 & Hsame). rewrite Hp'.
      cbn [mbind exec_bind expect].
      destruct (remove_partial_ok key s1 s2) as [Hok (Hcf & Hkp & Hkc)]; [done..| |done|].
      { intros k q Hk Hne. simpl in Hk. rewrite lookup_insert_ne in Hk by done. by apply (Hi k). }
      assert (others_kept key s s2) as Hk2.
      { destruct Hk1 as (? & Hkp1 & ?). split_and!; [done| |done]. intros k Hne. by rewrite Hkp, Hkp1. }
      assert (partials s2 !! key = None) as Hnone by (rewrite Hp2; apply lookup_delete_eq).
      destruct (Z.eqb_spec (received_bytes p') (p_original_length p')) as [Hfull|]; cbn [negb].
      2:{ do 2 eexists. split_and!; [done..|]. done. }
      rewrite join_fragments_full; [|lia]. cbn [mbind exec_bind].
      rewrite (proj2 (Z.eqb_eq _ _)) by lia. cbn [negb].
      destruct (remember_completed_ok key now s2 Hok) as (Hok3 & (Hcf3 & Hkp3 & Hkc3) & Hp3 & _).
      do 2 eexists. split_and!; [done|done| |by rewrite Hp3|done].
      destruct Hk2 as (? & Hkp2 & ?). split_and!; [congruence| |naive_solver].
      intros k Hne. by rewrite Hkp3, Hkp2.
    + do 2 eexists. split; [done|]. split_and!; [|done|done|apply lookup_insert_eq|done].
      split; [done| |done]. simpl. apply map_Forall_insert_2; [|done].
      pose proof (received_le (fragments p')). symmetry in Hcomplete. bool_prop. lia.
Qed.

Lemma deliver_spec f now s :
  reassembler_ok s → validate_fragment f = Ok tt → 0 ≤ fragment_index f → 0 ≤ original_length f →
  ∃ r s', deliver f now s = Done (r, s') ∧ reassembler_ok s' ∧ others_kept (key_from f) s s' ∧
    (∀ d, r = Ok (Complete d) → len d = original_length f).
Proof.
  intros Hs Hv Hi Ho. pose proof Hs as [Hu Hinc Hc]. unfold deliver.
  assert (others_kept (key_from f) s s) as Hrefl by done.
  case_bool_decide as Hdup; [by do 2 eexists; split_and!|].
  destruct (Z.eqb_spec (original_length f) 0) as [Hz|Hnz].
  { destruct (remember_completed_ok (key_from f) now s Hs) as (Hok & Hk & _).
    do 2 eexists. split_and!; [done..|]. intros d [= <-]. by rewrite Hz. }
  assert ((∃ e, (if bool_decide (is_Some (partials s !! key_from f)) then Done (Ok s)
                 else insert_partial (key_from f) f now s) = Done (Err e)) ∨
          (∃ s1 p, (if bool_decide (is_Some (partials s !! key_from f)) then Done (Ok s)
                 else insert_partial (key_from f) f now s) = Done (Ok s1) ∧
             partials s1 !! key_from f = Some p ∧ reassembler_ok s1 ∧ others_kept (key_from f) s s1))
    as [[e ->]|(s1 & p & -> & Hp & Hs1 & Hk1)].
  { case_bool_decide as Hp.
    - right. destruct Hp as [p Hp]. by exists s, p.
    - apply eq_None_not_Some in Hp.
      destruct (insert_partial_spec f now s) as [(e & He & _)|(s1 & -> & _ & Hu1 & Hp1 & Hsame)];
        [done|done|done|lia|done|left; by exists e|right].
      exists s1, (fresh_partial f now). destruct Hsame as (Hcf & Hcm & Hco & _). split_and!; [done| | |].
      + rewrite Hp1. apply lookup_insert_eq.
      + split; [done| |by rewrite Hcf, Hcm, Hco]. rewrite Hp1. apply map_Forall_insert_2; [|done].
        simpl. apply validate_fragment_Ok in Hv. lia.
      + split_and!; [done| |by rewrite Hcm]. intros k Hne. rewrite Hp1. by rewrite lookup_insert_ne. }
  { cbn [mbind exec_bind]. by do 2 eexists; split_and!. }
  cbn [mbind exec_bind]. rewrite Hp. cbn [expect mbind exec_bind].
  pose proof (uo_slots s1 (ro_usage s1 Hs1) _ _ Hp) as Hslots.
  destruct (store_fragment_spec p f Hslots Hv Hi) as (o & -> & Hspec). cbn [mbind exec_bind].
  destruct (settle_spec (key_from f) now o s1 p Hs1 Hp) as (r & s2 & -> & Hs2 & Hk2 & Hr).
  { destruct o; naive_solver. }
  exists r, s2. split_and!; [done|done| |].
  - destruct Hk1 as (? & Hkp1 & ?), Hk2 as (? & Hkp2 & ?). split_and!; [congruence| |naive_solver].
    intros k Hne. by rewrite Hkp2, Hkp1.
  - intros d ->. destruct o as [| |p' []]; try naive_solver.
    destruct Hr as [_ Hr]. destruct Hspec as (Hok' & _ & Hlen & _).
    destruct (Z.eqb_spec (received_bytes p') (p_original_length p')) as [Hb|]; [|done].
    injection Hr as ->. destruct Hok' as (_ & _ & _ & _ & Hbytes & _). lia.
Qed.

Lemma push_spec f now s :
  reassembler_ok s → fragment_typed f →
  ∃ r s', push f now s = Done (r, s') ∧ reassembler_ok s' ∧ config s' = config s ∧
    (∀ d, r = Ok (Complete d) → len d = original_length f) ∧
    (∀ k p, k ≠ key_from f → partials s !! k = Some p → overdue now s p = false →
       partials s' !! k = Some p) ∧
    (∀ k t, k ≠ key_from f → completed s' !! k = Some t → completed s !! k = Some t).
Proof.
  intros Hs (_ & _ & Hi & _ & Ho). unfold push.
  destruct (validate_fragment f) as [[]|e] eqn:Hv.
  2:{ by do 2 eexists; split_and!. }
  destruct (expire_spec now s Hs) as (e & s1 & -> & Hs1 & Hcf & Hp1 & Hc1 & _). cbn [mbind exec_bind].
  destruct (deliver_spec f now s1) as (r & s2 & -> & Hs2 & (Hcf2 & Hkp & Hkc) & Hlen); [done|done|lia|lia|].
  exists r, s2. split_and!; [done|done|congruence|done| |].
  - intros k p Hne Hp Hover. rewrite Hkp by done. rewrite Hp1. case_match; [|done].
    by apply map_lookup_filter_Some.
  - intros k t Hne Hk. apply (Hkc k t Hne) in Hk. by eapply lookup_weaken.
Qed.

(** ** Completing a datagram from its pieces *)

(** The slots of the datagram [cs] once the indices [recv] have arrived. *)
Definition slots_of (recv : list nat) (cs : list (list Z)) : list (option (list Z)) :=
  imap (λ i c, if bool_decide (i ∈ recv) then Some c else None) cs.

Definition progress (cs : list (list Z)) (total t0 : Z) (recv : list nat) (p : PartialDatagram) : Prop :=
  started_at p = t0 ∧ p_original_length p = total ∧ p_fragment_count p = len cs ∧
  fragments p = slots_of recv cs ∧ received_fragments p = len recv.

Lemma slots_of_insert recv cs i c :
  cs !! i = Some c → <[i := Some c]> (slots_of recv cs) = slots_of (i :: recv) cs.
Proof.
  intros Hc. apply list_eq. intros j. unfold slots_of.
  pose proof (lookup_lt_Some _ _ _ Hc) as Hlt.
  destruct (decide (j = i)) as [->|Hne].
  - rewrite list_lookup_insert_eq by (rewrite length_imap; done).
    rewrite list_lookup_imap, Hc. cbn [fmap option_fmap option_map]. by rewrite bool_decide_eq_true_2 by set_solver.
  - rewrite list_lookup_insert_ne by done. rewrite !list_lookup_imap.
    destruct (cs !! j) as [d|]; [|done]. cbn [fmap option_fmap option_map]. f_equal.
    by rewrite (bool_decide_ext (j ∈ i :: recv) (j ∈ recv)) by set_solver.
Qed.

Lemma received_imap_le (g : nat → list Z → bool) cs :
  len (concat (received (imap (λ i c, if g i c then Some c else None) cs))) ≤ len (concat cs).
Proof.
  revert g. induction cs as [|c cs IH]; intros g; [done|]. cbn [imap].
  specialize (IH (g ∘ S)). unfold compose in *. pose proof (len_nonneg c). destruct (g 0%nat c).
  - change (received (Some c :: ?l)) with (c :: received l). cbn [concat]. rewrite !len_app. lia.
  - change (received (None :: ?l)) with (received l). cbn [concat]. rewrite !len_app. lia.
Qed.

Lemma slots_of_bytes recv cs : len (concat (received (slots_of recv cs))) ≤ len (concat cs).
Proof. apply (received_imap_le (λ i _, bool_decide (i ∈ recv))). Qed.

Lemma slots_of_full recv cs :
  (∀ i, (i < length cs)%nat → i ∈ recv) → received (slots_of recv cs) = cs.
Proof.
  intros H. assert (slots_of recv cs = Some <$> cs) as ->.
  - apply list_eq. intros i. unfold slots_of. rewrite list_lookup_imap, list_lookup_fmap.
    destruct (cs !! i) as [c|] eqn:Hc; [|done]. cbn [fmap option_fmap option_map].
    rewrite bool_decide_eq_true_2; [done|]. apply H. by eapply lookup_lt_Some.
  - clear H. unfold received. induction cs as [|c cs IH]; [done|]. cbn. f_equal. exact IH.
Qed.

Section reassembly.
Context (dir : UdpDirection) (sid did : Z) (cs : list (list Z)).
Let total := len (concat cs).
Let key := {| k_direction := dir; k_session_id := sid; k_datagram_id := did |}.

Definition piece_at (i : nat) : UdpFragment :=
  piece dir sid did (len cs) total (Z.of_nat i) (default [] (cs !! i)).

Context (Hvalid : ∀ i, (i < length cs)%nat → validate_fragment (piece_at i) = Ok tt).
Context (Htotal : 0 < total).

Lemma deliver_progress s now t0 recv p i rest :
  reassembler_ok s → completed s !! key = None → partials s !! key = Some p →
  progress cs total t0 recv p → recv ++ i :: rest ≡ₚ seq 0 (length cs) →
  ∃ r s', deliver (piece_at i) now s = Done (r, s') ∧ reassembler_ok s' ∧ config s' = config s ∧
    if decide (rest = []) then r = Ok (Complete (concat cs))
    else r = Ok Pending ∧ completed s' !! key = None ∧
         ∃ p', partials s' !! key = Some p' ∧ progress cs total t0 (i :: recv) p'.
Proof.
  intros Hs Hc Hp (Ht0 & Hlen & Hcount & Hslots & Hrecv) Hperm.
  assert (NoDup (recv ++ i :: rest)) as Hnd by (rewrite Hperm; apply NoDup_seq).
  assert (i < length cs)%nat as Hi.
  { assert (i ∈ seq 0 (length cs)) as Hin by (rewrite <- Hperm; set_solver). apply elem_of_seq in Hin. lia. }
  assert (i ∉ recv) as Hnew by (apply NoDup_app in Hnd; set_solver).
  destruct (lookup_lt_is_Some_2 cs i Hi) as [c Hci].
  assert (fragments p !! i = Some None) as Hslot.
  { rewrite Hslots. unfold slots_of. rewrite list_lookup_imap, Hci. cbn [fmap option_fmap option_map]. by rewrite bool_decide_eq_false_2. }
  pose proof (uo_slots s (ro_usage s Hs) _ _ Hp) as Hok. pose proof Hok as (Hc64 & Ho64 & Hl & Hn & Hb & Hle).
  destruct (received_insert _ _ c Hslot) as [Hr1 Hr2]. pose proof (slots_of_bytes (i :: recv) cs) as Hbytes.
  rewrite Hslots, slots_of_insert in Hr1, Hr2 by done. rewrite Hslots in Hb, Hn.
  assert (length recv + S (length rest) = length cs)%nat as Hcount'.
  { apply Permutation_length in Hperm. rewrite length_app, length_seq in Hperm. simpl in Hperm. lia. }
  assert (received_fragments p < 64) as Hr64 by (rewrite Hrecv; unfold len in *; lia).
  unfold deliver. change (key_from (piece_at i)) with key. rewrite Hc.
  rewrite bool_decide_eq_false_2 by (intros [? [=]]). cbn [piece_at piece original_length].
  rewrite (proj2 (Z.eqb_neq _ _)) by lia. rewrite Hp, bool_decide_eq_true_2 by (by eexists).
  cbn [mbind exec_bind]. rewrite Hp. cbn [expect mbind exec_bind].
  unfold store_fragment. cbn [piece_at piece original_length fragment_count fragment_index payload].
  rewrite Hlen, Hcount, !Z.eqb_refl. cbn [negb orb]. rewrite Nat2Z.id, Hslot. cbn [expect mbind exec_bind].
  rewrite Hci. cbn [default id]. rewrite !usize_add_Done by (unfold total in *; lia). cbn [mbind exec_bind].
  rewrite (proj2 (Z.ltb_ge _ _)) by (unfold total in *; lia).
  rewrite Hslots, slots_of_insert by done.
  set (p' := {| started_at := _; p_original_length := _ |}).
  assert (progress cs total t0 (i :: recv) p') as Hprog.
  { split_and!; [done..|]. simpl. rewrite Hrecv, len_cons. lia. }
  cbn [mbind exec_bind].
  edestruct (settle_spec key now (Stored p' (received_fragments p + 1 =? len cs)) s p Hs Hp)
    as (r & s' & -> & Hs' & (Hcf & _) & Hres).
  { split_and!; [|done|done]. unfold slots_ok, p'.
    cbn [p_fragment_count p_original_length fragments received_fragments received_bytes].
    split_and!; try (unfold total in *; lia). unfold len, slots_of. by rewrite length_imap. }
  exists r, s'. split_and!; [done..|].
  destruct (decide (rest = [])) as [->|Hrest].
  - rewrite (proj2 (Z.eqb_eq _ _)) in Hres by (rewrite Hrecv; unfold len; simpl in Hcount'; lia).
    destruct Hres as [_ ->].
    assert (received (fragments p') = cs) as Hfull.
    { apply slots_of_full. intros j Hj. assert (j ∈ recv ++ [i]) as Hin; [|set_solver].
      rewrite Hperm. apply elem_of_seq. lia. }
    rewrite Hfull. rewrite (proj2 (Z.eqb_eq _ _)); [done|]. simpl in Hfull |- *.
    rewrite Hfull in Hr2. unfold total in *. lia.
  - assert (length rest ≠ 0%nat) by (by destruct rest).
    rewrite (proj2 (Z.eqb_neq _ _)) in Hres by (rewrite Hrecv; unfold len; lia).
    destruct Hres as (-> & Hp' & ->). split_and!; [done|done|]. by exists p'.
Qed.

(** The first piece reserves the datagram. *)
Lemma deliver_first s now i rest :
  reassembler_ok s → completed s !! key = None → partials s !! key = None → has_room s sid total →
  i :: rest ≡ₚ seq 0 (length cs) →
  ∃ r s', deliver (piece_at i) now s = Done (r, s') ∧ reassembler_ok s' ∧ config s' = config s ∧
    if decide (rest = []) then r = Ok (Complete (concat cs))
    else r = Ok Pending ∧ completed s' !! key = None ∧
         ∃ p', partials s' !! key = Some p' ∧ progress cs total now [i] p'.
Proof.
  intros Hs Hc Hp Hroom Hperm.
  assert (i < length cs)%nat as Hi.
  { assert (i ∈ seq 0 (length cs)) as Hin by (rewrite <- Hperm; set_solver). apply elem_of_seq in Hin. lia. }
  destruct (insert_partial_spec (piece_at i) now s) as [(e & He & Hno)|(s1 & He & _ & Hu1 & Hp1 & Hsame)];
    [apply Hs|by apply Hvalid|simpl; lia|done|done|done|].
  destruct Hsame as (Hcf & Hcm & Hco & _). change (key_from (piece_at i)) with key in *.
  assert (partials s1 !! key = Some (fresh_partial (piece_at i) now)) as Hk1 by (rewrite Hp1; apply lookup_insert_eq).
  assert (reassembler_ok s1) as Hs1.
  { split; [done| |rewrite Hcf, Hcm, Hco; apply Hs]. rewrite Hp1. apply map_Forall_insert_2; [|apply Hs].
    simpl. unfold len. lia. }
  destruct (deliver_progress s1 now now [] (fresh_partial (piece_at i) now) i rest) as (r & s2 & Hrun & Hs2 & Hcf2 & Hres);
    [done|by rewrite Hcm|done| |done|].
  { split_and!; [done..| |done]. simpl. unfold len. rewrite Nat2Z.id. unfold slots_of.
    apply list_eq. intros j. rewrite list_lookup_imap. destruct (cs !! j) eqn:Hj.
    - rewrite lookup_replicate_2 by (by eapply lookup_lt_Some). done.
    - apply lookup_ge_None in Hj. by rewrite lookup_ge_None_2 by (rewrite length_replicate; lia). }
  exists r, s2. split_and!; [|done|congruence|done]. revert Hrun. unfold deliver.
  change (key_from (piece_at i)) with key. rewrite Hcm, Hc, Hp, Hk1.
  rewrite (bool_decide_eq_false_2 (@is_Some Z None)) by (intros [? [=]]).
  rewrite (bool_decide_eq_false_2 (@is_Some PartialDatagram None)) by (intros [? [=]]).
  rewrite (bool_decide_eq_true_2 (is_Some (Some _))) by (by eexists).
  rewrite He. cbn [mbind exec_bind]. rewrite Hk1.
  rewrite (proj2 (Z.eqb_neq (original_length (piece_at i)) 0)) by (simpl; lia). done.
Qed.
End reassembly.

(** ** Sequences of operations *)

(** A run of [push] calls with their arrival times. *)
Fixpoint push_all (evs : list (UdpFragment * Z)) (s : UdpReassembler)
    : exec (list (result UdpReassemblyError UdpReassemblyOutcome) * UdpReassembler) :=
  match evs with
  | [] => Done ([], s)
  | (f, now) :: evs => '(r, s) ← push f now s; '(rs, s) ← push_all evs s; Done (r :: rs, s)
  end.

(** The results of the pushes that belong to [key]. *)
Definition results_for (key : DatagramKey) (evs : list (UdpFragment * Z))
    (rs : list (result UdpReassemblyError UdpReassemblyOutcome)) :=
  (filter (λ er, key_from er.1.1 = key) (zip evs rs)).*2.

(** Pending until the last of [n] pieces completes the datagram. *)
Definition completes (n : nat) (data : list Z) : list (result UdpReassemblyError UdpReassemblyOutcome) :=
  match n with O => [] | S n => replicate n (Ok Pending) ++ [Ok (Complete data)] end.

Lemma push_all_total evs s :
  reassembler_ok s → Forall (λ e, fragment_typed e.1) evs →
  ∃ rs s', push_all evs s = Done (rs, s') ∧ reassembler_ok s'.
Proof.
  revert s. induction evs as [|[f now] evs IH]; intros s Hs HF; cbn [push_all]; [by do 2 eexists|].
  apply Forall_cons in HF as [Hf HF]. destruct (push_spec f now s Hs Hf) as (r & s1 & -> & Hs1 & _).
  cbn [mbind exec_bind]. destruct (IH s1 Hs1 HF) as (rs & s2 & -> & Hs2). by do 2 eexists.
Qed.

Lemma push_valid f now s :
  reassembler_ok s → validate_fragment f = Ok tt →
  ∃ s1, push f now s = deliver f now s1 ∧ reassembler_ok s1 ∧ config s1 = config s ∧
    partials s1 ⊆ partials s ∧ completed s1 ⊆ completed s ∧
    (∀ k p, partials s !! k = Some p → overdue now s p = false → partials s1 !! k = Some p).
Proof.
  intros Hs Hv. unfold push. rewrite Hv.
  destruct (expire_spec now s Hs) as (e & s1 & -> & Hs1 & Hcf & Hp & Hc & _). cbn [mbind exec_bind].
  exists s1. split_and!; [done|done|done| |done|].
  - rewrite Hp. case_match; [apply map_filter_subseteq|done].
  - intros k p Hk Ho. rewrite Hp. case_match; [by apply map_lookup_filter_Some|done].
Qed.

Lemma has_room_mono s s1 x bytes :
  usage_ok s → usage_ok s1 → config s1 = config s → partials s1 ⊆ partials s →
  has_room s x bytes → has_room s1 x bytes.
Proof.
  intros Hu Hu1 Hcf Hsub (H1 & H2 & H3). unfold has_room. rewrite Hcf.
  pose proof (map_len_subseteq _ _ Hsub). pose proof (session_count_subseteq x _ _ Hsub).
  pose proof (total_bytes_subseteq _ _ Hsub (uo_slots s Hu)).
  rewrite (uo_bytes s Hu) in H3. rewrite (uo_bytes s1 Hu1). lia.
Qed.

Lemma results_for_cons key f now evs r rs :
  results_for key ((f, now) :: evs) (r :: rs) =
    (if decide (key_from f = key) then [r] else []) ++ results_for key evs rs.
Proof.
  unfold results_for. cbn [zip zip_with]. rewrite filter_cons. cbn [fst]. by case_decide.
Qed.

Lemma push_all_progress dir sid did cs evs s t0 recv rest :
  let key := {| k_direction := dir; k_session_id := sid; k_datagram_id := did |} in
  (∀ i, (i < length cs)%nat → validate_fragment (piece_at dir sid did cs i) = Ok tt) →
  0 < len (concat cs) → reassembler_ok s →
  (rest ≠ [] → completed s !! key = None ∧
     ∃ p, partials s !! key = Some p ∧ progress cs (len (concat cs)) t0 recv p) →
  recv ++ rest ≡ₚ seq 0 (length cs) →
  (filter (λ e, key_from e.1 = key) evs).*1 = piece_at dir sid did cs <$> rest →
  Forall (λ e, fragment_typed e.1 ∧ elapsed_at_least e.2 t0 (timeout (config s)) = false) evs →
  ∃ rs s', push_all evs s = Done (rs, s') ∧ reassembler_ok s' ∧
    results_for key evs rs = completes (length rest) (concat cs).
Proof.
  intros key Hvalid Htotal. revert s recv rest.
  induction evs as [|[f now] evs IH]; intros s recv rest Hs Htrack Hperm Hfilter HF; cbn [push_all].
  { destruct rest; [|done]. by do 2 eexists. }
  apply Forall_cons in HF as [[Hf Htime] HF]. cbn [fst snd] in *.
  rewrite filter_cons in Hfilter. cbn [fst] in Hfilter. destruct (decide (key_from f = key)) as [Hkey|Hkey].
  - destruct rest as [|i rest]; [done|]. rewrite fmap_cons in Hfilter. cbn [fmap list_fmap fst] in Hfilter.
    injection Hfilter as Hfi Hfilter. rewrite Hfi in *.
    destruct Htrack as (Hc & p & Hp & Hprog); [done|].
    assert (i < length cs)%nat as Hi.
    { assert (i ∈ seq 0 (length cs)) as Hin by (rewrite <- Hperm; set_solver). apply elem_of_seq in Hin. lia. }
    destruct (push_valid (piece_at dir sid did cs i) now s Hs (Hvalid i Hi))
      as (s1 & -> & Hs1 & Hcf1 & _ & Hc1 & Hkeep).
    destruct (deliver_progress dir sid did cs Hvalid Htotal s1 now t0 recv p i rest) as (r & s2 & -> & Hs2 & Hcf2 & Hres);
      [done| | |done|done|].
    { by apply (lookup_weaken_None _ _ _ Hc). }
    { apply Hkeep; [done|]. unfold overdue. by rewrite (proj1 Hprog). }
    cbn [mbind exec_bind].
    destruct (IH s2 (i :: recv) rest) as (rs & s3 & -> & Hs3 & Hrs); [done| | |done|by rewrite Hcf2, Hcf1|].
    { intros Hne. rewrite decide_False in Hres by done. naive_solver. }
    { rewrite <- Hperm. apply Permutation_middle. }
    cbn [mbind exec_bind]. do 2 eexists. split_and!; [done|done|].
    rewrite results_for_cons, decide_True by done. rewrite Hrs. destruct rest as [|j rest]; cbn [decide] in Hres.
    + rewrite decide_True in Hres by done. by rewrite Hres.
    + rewrite decide_False in Hres by done. by destruct Hres as [-> _].
  - destruct (push_spec f now s Hs Hf) as (r & s1 & -> & Hs1 & Hcf & _ & Hkp & Hkc). cbn [mbind exec_bind].
    destruct (IH s1 recv rest) as (rs & s2 & -> & Hs2 & Hrs); [done| |done|done|by rewrite Hcf|].
    { intros Hne. destruct (Htrack Hne) as (Hc & p & Hp & Hprog). split.
      - apply eq_None_not_Some. intros [t Ht]. apply Hkc in Ht; congruence.
      - exists p. split; [|done]. apply Hkp; [congruence|done|]. unfold overdue. by rewrite (proj1 Hprog). }
    cbn [mbind exec_bind]. do 2 eexists. split_and!; [done|done|].
    by rewrite results_for_cons, decide_False.
Qed.

(** The decoded frames of one datagram. *)
Lemma fragment_datagram_fragments dir sid did data max frames fs :
  0 ≤ sid ≤ U128_MAX → 0 ≤ did ≤ U64_MAX → fragmentable sid data max →
  fragment_datagram dir sid did data max = Ok frames →
  Forall2 (λ e f, decode e = Done (Ok f)) frames fs →
  ∃ cs, concat cs = data ∧ fs = piece_at dir sid did cs <$> seq 0 (length cs) ∧
    (∀ i, (i < length cs)%nat → validate_fragment (piece_at dir sid did cs i) = Ok tt).
Proof.
  intros Hsid Hdid Hfr Hok Hdec.
  destruct (fragment_datagram_pieces dir sid did data max Hfr) as (cs & fr & Hfrag & HF & Hlen & Hcat & _).
  rewrite Hok in Hfrag. injection Hfrag as <-. exists cs.
  assert (∀ i c, cs !! i = Some c →
    piece_at dir sid did cs i = piece dir sid did (len cs) (len data) (Z.of_nat i) c ∧
    fragment_typed (piece_at dir sid did cs i)) as Hpiece.
  { intros i c Hc. pose proof (lookup_lt_Some _ _ _ Hc). destruct Hfr as (_ & Hd & _).
    unfold piece_at. rewrite Hc, Hcat. split; [done|].
    unfold fragment_typed, MAX_UDP_DATAGRAM_BYTES, len in *. simpl. lia. }
  assert (∀ i e, frames !! i = Some e → ∃ c, cs !! i = Some c ∧ encode (piece_at dir sid did cs i) = Ok e) as Henc.
  { intros i e He. destruct (Forall2_lookup_r _ _ _ _ _ HF He) as ([i' c] & Hc & Hencode).
    rewrite list_lookup_imap in Hc. apply fmap_Some in Hc as (c' & Hc & [= -> <-]).
    exists c. split; [done|]. destruct (Hpiece i c Hc) as [-> _]. done. }
  pose proof (Forall2_length _ _ _ HF) as Hl1. rewrite length_imap in Hl1.
  pose proof (Forall2_length _ _ _ Hdec) as Hl2. split_and!; [done| |].
  - apply list_eq. intros i. rewrite list_lookup_fmap. destruct (fs !! i) as [f|] eqn:Hf.
    + destruct (Forall2_lookup_r _ _ _ _ _ Hdec Hf) as (e & He & Hdece).
      destruct (Henc i e He) as (c & Hc & Hencode). destruct (Hpiece i c Hc) as [_ Hty].
      destruct (decode_encode_frame _ _ Hty Hencode) as [Hd _]. rewrite Hdece in Hd. injection Hd as ->.
      rewrite lookup_seq_lt by (by eapply lookup_lt_Some). done.
    + apply lookup_ge_None in Hf. rewrite lookup_ge_None_2; [done|]. rewrite length_seq. lia.
  - intros i Hi. destruct (lookup_lt_is_Some_2 frames i) as [e He]; [lia|].
    destruct (Henc i e He) as (c & Hc & Hencode). unfold encode in Hencode.
    by destruct (validate_fragment _) as [[]|].
Qed.

Lemma results_for_none key evs rs :
  (filter (λ e, key_from e.1 = key) evs).*1 = [] → results_for key evs rs = [].
Proof.
  revert rs. induction evs as [|[f now] evs IH]; intros rs H; [done|].
  destruct rs as [|r rs]; [done|]. rewrite results_for_cons.
  rewrite filter_cons in H. cbn [fst] in H. case_decide; [done|]. by apply IH.
Qed.

(** ** Properties *)

(** Operations of the public interface. *)
Inductive reassembler_op :=
  | OpPush (f : UdpFragment) (now : Z)
  | OpExpire (now : Z)
  | OpDiscard (session : Z).

Definition run_op (op : reassembler_op) (s : UdpReassembler) : exec UdpReassembler :=
  match op with
  | OpPush f now => '(_, s) ← push f now s; Done s
  | OpExpire now => '(_, s) ← expire now s; Done s
  | OpDiscard x => '(_, s) ← discard_session x s; Done s
  end.

Fixpoint run_ops (ops : list reassembler_op) (s : UdpReassembler) : exec UdpReassembler :=
  match ops with [] => Done s | op :: ops => s ← run_op op s; run_ops ops s end.

Definition op_typed (op : reassembler_op) : Prop :=
  match op with OpPush f _ => fragment_typed f | _ => True end.

Lemma run_ops_ok ops s :
  reassembler_ok s → Forall op_typed ops →
  ∃ s', run_ops ops s = Done s' ∧ reassembler_ok s' ∧ config s' = config s.
Proof.
  revert s. induction ops as [|op ops IH]; intros s Hs HF; cbn [run_ops]; [by eexists|].
  apply Forall_cons in HF as [Hop HF].
  assert (∃ s1, run_op op s = Done s1 ∧ reassembler_ok s1 ∧ config s1 = config s) as (s1 & -> & Hs1 & Hcf).
  { destruct op as [f now|now|x]; simpl.
    - destruct (push_spec f now s Hs Hop) as (r & s1 & -> & Hs1 & Hcf & _). by exists s1.
    - destruct (expire_spec now s Hs) as (e & s1 & -> & Hs1 & Hcf & _). by exists s1.
    - destruct (discard_session_spec x s Hs) as (e & s1 & -> & Hs1 & Hcf & _). by exists s1. }
  cbn [mbind exec_bind]. destruct (IH s1 Hs1 HF) as (s2 & Hrun & Hs2 & Hcf2).
  exists s2. split_and!; [done|done|congruence].
Qed.

Lemma reassembler_new_ok c s : config_ok c → reassembler_new c = Ok s → reassembler_ok s ∧ config s = c.
Proof.
  intros Hc. pose proof Hc as (_ & _ & ? & ? & ? & ?). unfold reassembler_new. case_match; [done|].
  intros [= <-]. split; [|done].
  assert (∀ x, session_count x ∅ = 0) as Hsc.
  { intros x. unfold session_count, map_len. by rewrite map_filter_empty, map_size_empty. }
  split; simpl.
  - constructor; simpl; [done|apply map_Forall_empty|done| |lia| |].
    + intros x. by rewrite Hsc.
    + unfold map_len. rewrite map_size_empty. lia.
    + intros x. rewrite Hsc. lia.
  - apply map_Forall_empty.
  - split; [done|]. simpl. unfold map_len. rewrite map_size_empty. lia.
Qed.

(** Whatever fragments arrive at whatever times, interleaved with expiry and
    session teardown, the reassembler never panics or overflows a counter, and
    never exceeds its configured memory, datagram, per-session and
    deduplication limits; its byte counter is the sum of what is reserved. *)
Theorem reassembler_bounded (c : UdpReassemblyConfig) (s0 : UdpReassembler) (ops : list reassembler_op) :
  config_ok c → reassembler_new c = Ok s0 → Forall op_typed ops →
  ∃ s, run_ops ops s0 = Done s ∧
    buffered_bytes s = total_bytes (partials s) ∧
    buffered_bytes s ≤ max_buffered_bytes c ∧
    map_len (partials s) ≤ max_incomplete_datagrams c ∧
    (∀ x, session_count x (partials s) ≤ max_incomplete_per_session c) ∧
    map_len (completed s) ≤ max_completed_datagrams c.
Proof.
  intros Hc Hnew Hops. destruct (reassembler_new_ok c s0 Hc Hnew) as [Hs0 Hcf0].
  destruct (run_ops_ok ops s0 Hs0 Hops) as (s & Hrun & [Hu _ Hco] & Hcf). exists s.
  rewrite <- Hcf0, <- Hcf. split_and!; [done|apply Hu..|apply Hco].
Qed.

Lemma reassembler_bounded_witness :
  ∃ s, run_ops [OpPush (piece PublicToTarget 7 1 2 3 0 [1; 2]) 0; OpDiscard 7; OpExpire 5]
         {| config := default_config; partials := ∅; incomplete_by_session := ∅; completed := ∅;
            completed_order := []; buffered_bytes := 0; next_cleanup_at := None |} = Done s ∧
    buffered_bytes s = total_bytes (partials s) ∧
    buffered_bytes s ≤ max_buffered_bytes default_config ∧
    map_len (partials s) ≤ max_incomplete_datagrams default_config ∧
    (∀ x, session_count x (partials s) ≤ max_incomplete_per_session default_config) ∧
    map_len (completed s) ≤ max_completed_datagrams default_config.
Proof.
  refine (reassembler_bounded default_config _ _ _ _ _).
  - vm_compute. repeat split; congruence.
  - vm_compute. reflexivity.
  - repeat constructor; vm_compute; congruence.
Defined.

(** C7. End to end: the frames that [fragment_datagram] makes of a datagram,
    decoded by the receiver and pushed in any order, interleaved with arbitrary
    traffic of other datagrams, are all [Pending] except the last, which returns
    exactly the original datagram. The receiver needs room for the datagram when
    its first fragment arrives and the rest within the reassembly timeout. *)
Theorem reassembly_any_order (dir : UdpDirection) (sid did : Z) (data : list Z) (max : Z)
    (frames : list (list Z)) (fs : list UdpFragment) (s : UdpReassembler)
    (f0 : UdpFragment) (t0 : Z) (evs : list (UdpFragment * Z)) :
  let key := {| k_direction := dir; k_session_id := sid; k_datagram_id := did |} in
  0 ≤ sid ≤ U128_MAX → 0 ≤ did ≤ U64_MAX →
  fragment_datagram dir sid did data max = Ok frames →
  Forall2 (λ e f, decode e = Done (Ok f)) frames fs →
  reassembler_ok s → completed s !! key = None → partials s !! key = None →
  has_room s sid (len data) →
  f0 :: (filter (λ e, key_from e.1 = key) evs).*1 ≡ₚ fs →
  Forall (λ e, fragment_typed e.1 ∧ elapsed_at_least e.2 t0 (timeout (config s)) = false) evs →
  ∃ rs s', push_all ((f0, t0) :: evs) s = Done (rs, s') ∧ reassembler_ok s' ∧
    results_for key ((f0, t0) :: evs) rs = completes (length fs) data.
Proof.
  intros key Hsid Hdid Hok Hdec Hs Hc Hp Hroom Hperm HF.
  assert (fragmentable sid data max) as Hfr.
  { eapply (fragment_datagram_fragmentable dir _ did). by rewrite Hok. }
  destruct (fragment_datagram_fragments dir sid did data max frames fs) as (cs & <- & -> & Hvalid); [done..|].
  apply Permutation_map_inv in Hperm as (σ & Hσ & Hperm). destruct σ as [|i rest]; [done|].
  injection Hσ as -> Hrest. rewrite length_fmap, length_seq.
  assert (length cs = S (length rest)) as Hlen.
  { apply Permutation_length in Hperm. by rewrite length_seq in Hperm. }
  assert (i < length cs)%nat as Hi.
  { assert (i ∈ seq 0 (length cs)) as Hin by (rewrite Hperm; set_solver). apply elem_of_seq in Hin. lia. }
  destruct (push_valid (piece_at dir sid did cs i) t0 s Hs (Hvalid i Hi))
    as (s1 & Hpush & Hs1 & Hcf1 & Hp1 & Hc1 & _).
  assert (completed s1 !! key = None) as Hc1' by (by apply (lookup_weaken_None _ _ _ Hc)).
  assert (partials s1 !! key = None) as Hp1' by (by apply (lookup_weaken_None _ _ _ Hp)).
  cbn [push_all]. rewrite Hpush, Hlen. destruct (decide (len (concat cs) = 0)) as [Hz|Hnz].
  - assert (rest = []) as ->.
    { pose proof (validate_fragment_Ok _ _ (Hvalid i Hi)) as (_ & _ & _ & _ & _ & _ & Hone).
      specialize (Hone Hz). simpl in Hone. unfold len in Hone. destruct rest; [done|]. simpl in Hlen. lia. }
    unfold deliver. change (key_from (piece_at dir sid did cs i)) with key. rewrite Hc1'.
    rewrite bool_decide_eq_false_2 by (intros [? [=]]). cbn [piece_at piece original_length].
    rewrite Hz. cbn [Z.eqb mbind exec_bind].
    destruct (remember_completed_ok key t0 s1 Hs1) as (Hs2 & _).
    destruct (push_all_total evs _ Hs2) as (rs & s3 & -> & Hs3).
    { eapply Forall_impl; [exact HF|]. by intros e [? _]. }
    cbn [mbind exec_bind]. do 2 eexists. split_and!; [done|done|].
    rewrite results_for_cons, decide_True, results_for_none by done.
    apply len_0_nil in Hz. by rewrite Hz.
  - destruct (deliver_first dir sid did cs Hvalid) with s1 t0 i rest
      as (r & s2 & -> & Hs2 & Hcf2 & Hres); [pose proof (len_nonneg (concat cs)); lia|done|done|done| |done|].
    { by eapply (has_room_mono s); [apply Hs|apply Hs1|..]. }
    cbn [mbind exec_bind].
    destruct (push_all_progress dir sid did cs evs s2 t0 [i] rest) as (rs & s3 & -> & Hs3 & Hrs);
      [done|pose proof (len_nonneg (concat cs)); lia|done| |done|done|by rewrite Hcf2, Hcf1|].
    { intros Hne. rewrite decide_False in Hres by done. naive_solver. }
    cbn [mbind exec_bind]. do 2 eexists. split_and!; [done|done|].
    rewrite results_for_cons, decide_True by done. fold key in Hrs. rewrite Hrs. destruct rest as [|j rest].
    + rewrite decide_True in Hres by done. by rewrite Hres.
    + rewrite decide_False in Hres by done. by destruct Hres as [-> _].
Qed.

Lemma reassembly_any_order_witness :
  ∃ rs s',
    push_all [(piece PublicToTarget 7 1 2 3 1 [30], 5); (piece TargetToPublic 8 2 1 1 0 [4], 6);
              (piece PublicToTarget 7 1 2 3 0 [10; 20], 7)]
      {| config := default_config; partials := ∅; incomplete_by_session := ∅; completed := ∅;
         completed_order := []; buffered_bytes := 0; next_cleanup_at := None |} = Done (rs, s') ∧
    reassembler_ok s' ∧
    results_for {| k_direction := PublicToTarget; k_session_id := 7; k_datagram_id := 1 |}
      [(piece PublicToTarget 7 1 2 3 1 [30], 5); (piece TargetToPublic 8 2 1 1 0 [4], 6);
       (piece PublicToTarget 7 1 2 3 0 [10; 20], 7)] rs = [Ok Pending; Ok (Complete [10; 20; 30])].
Proof.
  refine (reassembly_any_order PublicToTarget 7 1 [10; 20; 30] 42
    (match fragment_datagram PublicToTarget 7 1 [10; 20; 30] 42 with Ok l => l | Err _ => [] end)
    [piece PublicToTarget 7 1 2 3 0 [10; 20]; piece PublicToTarget 7 1 2 3 1 [30]] _ _ 5
    [(piece TargetToPublic 8 2 1 1 0 [4], 6); (piece PublicToTarget 7 1 2 3 0 [10; 20], 7)]
    _ _ _ _ _ _ _ _ _ _).
  - lia.
  - lia.
  - vm_compute. reflexivity.
  - repeat constructor; vm_compute; reflexivity.
  - apply (reassembler_new_ok default_config); [vm_compute; repeat split; congruence|reflexivity].
  - reflexivity.
  - reflexivity.
  - vm_compute. repeat split; congruence.
  - apply Permutation_swap.
  - repeat constructor; vm_compute; congruence.
Defined.

(** Expiry is exact: when a cleanup is due it drops precisely the incomplete
    datagrams that are older than the timeout, keeps the others untouched,
    forgets only completion records past their retention, and reports exactly
    the datagrams, bytes and records it released; otherwise it changes no
    datagram. *)
Theorem expire_exact (now : Z) (s : UdpReassembler) :
  reassembler_ok s →
  ∃ e s', expire now s = Done (e, s') ∧
    (∀ k p, partials s' !! k = Some p ↔
       partials s !! k = Some p ∧ (cleanup_due now s = true → overdue now s p = false)) ∧
    (∀ k t, completed s !! k = Some t → completed s' !! k = Some t ∨
       completed s' !! k = None ∧ elapsed_at_least now t (completed_retention (config s)) = true) ∧
    e_incomplete_datagrams e = map_len (partials s) - map_len (partials s') ∧
    e_buffered_bytes e = buffered_bytes s - buffered_bytes s' ∧
    e_completed_datagrams e = map_len (completed s) - map_len (completed s').
Proof.
  intros Hs. destruct (expire_spec now s Hs) as (e & s' & Hrun & _ & _ & Hp & Hc & Hel & Hn & Hb & Hm).
  exists e, s'. split_and!; [done| | |done..].
  - intros k p. rewrite Hp. destruct (cleanup_due now s); [|naive_solver].
    rewrite map_lookup_filter_Some. naive_solver.
  - intros k t Ht. destruct (completed s' !! k) as [t'|] eqn:Ht'; [left|right; by eauto].
    pose proof (lookup_weaken _ _ _ _ Ht' Hc). congruence.
Qed.

Definition sample_reassembler : UdpReassembler :=
  match run_ops [OpPush (piece PublicToTarget 7 1 2 3 0 [1; 2]) 0; OpPush (piece PublicToTarget 8 1 2 3 0 [1; 2]) 0]
    {| config := default_config; partials := ∅; incomplete_by_session := ∅; completed := ∅;
       completed_order := []; buffered_bytes := 0; next_cleanup_at := None |} with
  | Done s => s
  | Panic => {| config := default_config; partials := ∅; incomplete_by_session := ∅; completed := ∅;
                completed_order := []; buffered_bytes := 0; next_cleanup_at := None |}
  end.

Lemma sample_reassembler_ok : reassembler_ok sample_reassembler.
Proof.
  unfold sample_reassembler.
  destruct (run_ops_ok [OpPush (piece PublicToTarget 7 1 2 3 0 [1; 2]) 0; OpPush (piece PublicToTarget 8 1 2 3 0 [1; 2]) 0]
    {| config := default_config; partials := ∅; incomplete_by_session := ∅; completed := ∅;
       completed_order := []; buffered_bytes := 0; next_cleanup_at := None |}) as (s & -> & Hs & _).
  - apply (reassembler_new_ok default_config); [vm_compute; repeat split; congruence|reflexivity].
  - repeat constructor; vm_compute; congruence.
  - exact Hs.
Qed.

Lemma expire_exact_witness :
  ∃ e s', expire 2000000000 sample_reassembler = Done (e, s') ∧ e_incomplete_datagrams e = 2.
Proof.
  destruct (expire_exact 2000000000 sample_reassembler sample_reassembler_ok) as (e & s' & H & _ & _ & Hn & _).
  exists e, s'. split; [exact H|]. rewrite Hn. vm_compute in H. injection H as <- <-. reflexivity.
Defined.

(** Closing a session releases everything it holds and nothing else: no
    incomplete datagram or completion record of the session remains, those of
    other sessions are unchanged, and the reported counts are exactly what was
    released. *)
Theorem discard_session_exact (x : Z) (s : UdpReassembler) :
  reassembler_ok s →
  ∃ e s', discard_session x s = Done (e, s') ∧ reassembler_ok s' ∧
    (∀ k, partials s' !! k = if decide (k_session_id k = x) then None else partials s !! k) ∧
    (∀ k, completed s' !! k = if decide (k_session_id k = x) then None else completed s !! k) ∧
    incomplete_by_session s' !! x = None ∧
    e_incomplete_datagrams e = map_len (partials s) - map_len (partials s') ∧
    e_buffered_bytes e = buffered_bytes s - buffered_bytes s' ∧
    e_completed_datagrams e = map_len (completed s) - map_len (completed s').
Proof.
  intros Hs. destruct (discard_session_spec x s Hs) as (e & s' & Hrun & Hs' & _ & Hp & Hc & Hn & Hb & Hm).
  exists e, s'.
  assert (∀ A (m : gmap DatagramKey A) k, filter (λ kp, k_session_id kp.1 ≠ x) m !! k =
            if decide (k_session_id k = x) then None else m !! k) as Hlook.
  { intros A m k. case_decide as Hk; apply option_eq; intros p; rewrite map_lookup_filter_Some; naive_solver. }
  split_and!; [done|done|by rewrite Hp; apply Hlook|by rewrite Hc; apply Hlook| |done..].
  rewrite (uo_sessions s' (ro_usage s' Hs')), decide_True; [done|].
  unfold session_count, map_len. rewrite Hp.
  enough (filter (λ kp, k_session_id kp.1 = x) (filter (λ kp, k_session_id kp.1 ≠ x) (partials s)) = ∅) as ->
    by (by rewrite map_size_empty).
  apply map_empty. intros k. apply eq_None_not_Some. intros [p Hk].
  rewrite !map_lookup_filter_Some in Hk. naive_solver.
Qed.

Lemma discard_session_exact_witness :
  ∃ e s', discard_session 7 sample_reassembler = Done (e, s') ∧ e_incomplete_datagrams e = 1.
Proof.
  destruct (discard_session_exact 7 sample_reassembler sample_reassembler_ok) as (e & s' & H & _ & _ & _ & _ & Hn & _).
  exists e, s'. split; [exact H|]. rewrite Hn. vm_compute in H. injection H as <- <-. reflexivity.
Defined.
