(* ===== verification/Socks5Fragment.v ===== *)
(** * SOCKS5 UDP fragment reassembly ([crates/linklake-core/src/socks5_fragment.rs])

    A reassembler per policy keeps its assemblies, per-session usage and local
    counters; the process-wide budget is an [Arc] of three atomic counters that
    all reassemblers share, so every operation takes and returns the budget
    beside the reassembler. Each [fetch_update] is one step on one counter.
    [Instant] and [Duration] are nanoseconds in [Z]. *)

From S2P Require Import Prelude NetAddr Socks5Udp UdpProtocol.
Local Open Scope Z_scope.

Record Socks5FragmentConfig := {
  timeout : Z;
  max_fragments_per_datagram : Z;
  max_bytes_per_datagram : Z;
  max_reorder_gap : Z;
  max_inflight_per_session : Z;
  max_fragments_per_session : Z;
  max_bytes_per_session : Z;
  max_inflight_global : Z;
  max_fragments_global : Z;
  max_bytes_global : Z;
}.

Definition default_config : Socks5FragmentConfig :=
  {| timeout := 5000000000;
     max_fragments_per_datagram := 64;
     max_bytes_per_datagram := MAX_UDP_DATAGRAM_BYTES;
     max_reorder_gap := 0;
     max_inflight_per_session := 8;
     max_fragments_per_session := 128;
     max_bytes_per_session := 256 * 1024;
     max_inflight_global := 1024;
     max_fragments_global := 8192;
     max_bytes_global := 16 * 1024 * 1024 |}.

Record Socks5FragmentGlobalBudget := {
  max_inflight_datagrams : Z;
  max_fragments : Z;
  max_bytes : Z;
  inflight_datagrams : Z;
  buffered_fragments : Z;
  buffered_bytes : Z;
}.

Definition from_config (c : Socks5FragmentConfig) : Socks5FragmentGlobalBudget :=
  {| max_inflight_datagrams := max_inflight_global c;
     max_fragments := max_fragments_global c;
     max_bytes := max_bytes_global c;
     inflight_datagrams := 0; buffered_fragments := 0; buffered_bytes := 0 |}.

Definition supports (g : Socks5FragmentGlobalBudget) (c : Socks5FragmentConfig) : bool :=
  (max_inflight_global c <=? max_inflight_datagrams g) &&
  (max_fragments_global c <=? max_fragments g) && (max_bytes_global c <=? max_bytes g).

Definition set_counters (d f b : Z) (g : Socks5FragmentGlobalBudget) : Socks5FragmentGlobalBudget :=
  {| max_inflight_datagrams := max_inflight_datagrams g; max_fragments := max_fragments g;
     max_bytes := max_bytes g;
     inflight_datagrams := d; buffered_fragments := f; buffered_bytes := b |}.

(** [reserve_counter]: the value after a successful [fetch_update]. *)
Definition reserve_counter (counter limit amount : Z) : option Z :=
  next ← checked_add USIZE_MAX counter amount;
  if next <=? limit then Some next else None.
Definition release_counter (counter amount : Z) : Z := saturating_sub counter amount.

Inductive Socks5FragmentConfigError := ZeroTimeout | TimeoutTooShort | InvalidLimit.

Inductive Socks5FragmentError :=
  | MissingInitialFragment
  | SequenceLimit
  | ReorderGap
  | ConflictingDuplicate
  | ConflictingFinalFragment
  | DuplicateFinalFragment
  | FragmentAfterFinal
  | DatagramByteBudget
  | SessionFragmentBudget
  | SessionByteBudget
  | SessionInflightBudget
  | GlobalFragmentBudget
  | GlobalByteBudget
  | GlobalInflightBudget.

Definition try_reserve_datagram (g : Socks5FragmentGlobalBudget) : option Socks5FragmentGlobalBudget :=
  d ← reserve_counter (inflight_datagrams g) (max_inflight_datagrams g) 1;
  Some (set_counters d (buffered_fragments g) (buffered_bytes g) g).

Definition try_reserve_bytes (bytes : Z) (g : Socks5FragmentGlobalBudget)
    : option Socks5FragmentGlobalBudget :=
  b ← reserve_counter (buffered_bytes g) (max_bytes g) bytes;
  Some (set_counters (inflight_datagrams g) (buffered_fragments g) b g).

Definition release_datagram (g : Socks5FragmentGlobalBudget) : Socks5FragmentGlobalBudget :=
  set_counters (release_counter (inflight_datagrams g) 1) (buffered_fragments g) (buffered_bytes g) g.
Definition release_bytes (bytes : Z) (g : Socks5FragmentGlobalBudget) : Socks5FragmentGlobalBudget :=
  set_counters (inflight_datagrams g) (buffered_fragments g) (release_counter (buffered_bytes g) bytes) g.
Definition release_fragment (bytes : Z) (g : Socks5FragmentGlobalBudget) : Socks5FragmentGlobalBudget :=
  release_bytes bytes
    (set_counters (inflight_datagrams g) (release_counter (buffered_fragments g) 1) (buffered_bytes g) g).

Definition try_reserve_fragment (bytes : Z) (g : Socks5FragmentGlobalBudget)
    : result Socks5FragmentError unit * Socks5FragmentGlobalBudget :=
  match reserve_counter (buffered_fragments g) (max_fragments g) 1 with
  | None => (Err GlobalFragmentBudget, g)
  | Some f =>
      let g := set_counters (inflight_datagrams g) f (buffered_bytes g) g in
      match try_reserve_bytes bytes g with
      | None =>
          (Err GlobalByteBudget,
           set_counters (inflight_datagrams g) (release_counter (buffered_fragments g) 1) (buffered_bytes g) g)
      | Some g => (Ok tt, g)
      end
  end.

Inductive Socks5FragmentOutcome :=
  | Complete (datagram : Socks5UdpDatagram) (fragmented : bool)
  | Pending
  | Duplicate.

Record Socks5FragmentExpiration := { x_datagrams : Z; x_fragments : Z; x_bytes : Z }.

Record Assembly := {
  target : Socks5UdpTarget;
  port : Z;
  fragments : gmap Z (list Z);
  final_sequence : option Z;
  highest_contiguous : Z;
  highest_received : Z;
  payload_bytes : Z;
  bytes : Z;
  last_activity : Z;
}.

Record Usage := { u_datagrams : Z; u_fragments : Z; u_bytes : Z }.
Definition no_usage : Usage := {| u_datagrams := 0; u_fragments := 0; u_bytes := 0 |}.

Definition validate_config (c : Socks5FragmentConfig) : result Socks5FragmentConfigError unit :=
  if timeout c =? 0 then Err ZeroTimeout
  else if timeout c <? 5000000000 then Err TimeoutTooShort
  else if (max_fragments_per_datagram c =? 0) || (127 <? max_fragments_per_datagram c) ||
          (max_bytes_per_datagram c =? 0) || (MAX_UDP_DATAGRAM_BYTES <? max_bytes_per_datagram c) ||
          (max_inflight_per_session c =? 0) ||
          (max_fragments_per_session c <? max_fragments_per_datagram c) ||
          (max_bytes_per_session c <? max_bytes_per_datagram c) ||
          (max_inflight_global c <? max_inflight_per_session c) ||
          (max_fragments_global c <? max_fragments_per_session c) ||
          (max_bytes_global c <? max_bytes_per_session c)
  then Err InvalidLimit
  else Ok tt.

(** The [while] loop that advances [highest_contiguous]; sequences are [u8], so
    256 rounds are enough. *)
Fixpoint advance_contiguous (fuel : nat) (fs : gmap Z (list Z)) (hc : Z) : Z :=
  match fuel with
  | O => hc
  | S fuel =>
      let next := saturating_add U8_MAX hc 1 in
      if bool_decide (is_Some (fs !! next)) then advance_contiguous fuel fs next else hc
  end.

(** [for sequence in 1..=final] with its [expect]. *)
Fixpoint join_payload (fs : gmap Z (list Z)) (sequences : list Z) : exec (list Z) :=
  match sequences with
  | [] => Done []
  | q :: sequences => p ← expect (fs !! q); rest ← join_payload fs sequences; Done (p ++ rest)
  end.

(** What the checks against the stored assembly decide. *)
Inductive verdict := Conflict (e : Socks5FragmentError) | Return (r : result Socks5FragmentError Socks5FragmentOutcome) | Proceed.

Definition check_conflict (c : Socks5FragmentConfig) (a : Assembly) (f : Socks5UdpFragment) : verdict :=
  if (max_reorder_gap c =? 0) && (sequence f <? highest_received a) then Conflict ReorderGap
  else
    match fragments a !! sequence f with
    | Some existing =>
        let existing_final := bool_decide (final_sequence a = Some (sequence f)) in
        if existing_final && final_fragment f then Conflict DuplicateFinalFragment
        else if bool_decide (existing = fr_payload f) && eqb existing_final (final_fragment f)
        then Return (Ok Duplicate)
        else Conflict ConflictingDuplicate
    | None =>
        if match final_sequence a with Some q => q <? sequence f | None => false end
        then Conflict FragmentAfterFinal
        else if final_fragment f &&
                match final_sequence a with Some q => negb (q =? sequence f) | None => false end
        then Conflict ConflictingFinalFragment
        else if saturating_add U8_MAX (saturating_add U8_MAX (highest_contiguous a) (max_reorder_gap c)) 1
                <? sequence f
        then Return (Err ReorderGap)
        else Proceed
    end.

(** The assembly after storing the fragment. *)
Definition store (f : Socks5UdpFragment) (now : Z) (a : Assembly) : Assembly :=
  let fs := <[sequence f := fr_payload f]> (fragments a) in
  {| target := target a; port := port a; fragments := fs;
     final_sequence := if final_fragment f then Some (sequence f) else final_sequence a;
     highest_contiguous := advance_contiguous 256 fs (highest_contiguous a);
     highest_received := Z.max (highest_received a) (sequence f);
     payload_bytes := saturating_add USIZE_MAX (payload_bytes a) (len (fr_payload f));
     bytes := saturating_add USIZE_MAX (bytes a) (len (fr_payload f));
     last_activity := now |}.

(** The loop that releases the stored fragments from the shared budget. *)
Definition release_fragments (payloads : list (list Z)) (g : Socks5FragmentGlobalBudget)
    : Socks5FragmentGlobalBudget :=
  fold_left (λ g p, release_fragment (len p) g) payloads g.

(** What [remove_assembly] and [drop] give back for one assembly. *)
Definition release_assembly (a : Assembly) (g : Socks5FragmentGlobalBudget) : Socks5FragmentGlobalBudget :=
  release_fragments (map_to_list (fragments a)).*2
    (release_bytes (saturating_sub (bytes a) (payload_bytes a)) (release_datagram g)).

Section reassembler.
Context {K : Type} `{Countable K}.

Record FragmentKey := { k_session : K; k_target : Socks5UdpTarget; k_port : Z }.

#[global] Instance FragmentKey_eq_dec : EqDecision FragmentKey.
Proof. solve_decision. Defined.
#[global] Instance FragmentKey_countable : Countable FragmentKey.
Proof.
  refine (inj_countable' (λ k, (k_session k, k_target k, k_port k))
            (λ '(s, t, p), {| k_session := s; k_target := t; k_port := p |}) _).
  by intros [].
Defined.

Record Socks5FragmentReassembler := {
  config : Socks5FragmentConfig;
  assemblies : gmap FragmentKey Assembly;
  sessions : gmap K Usage;
  local_fragments : Z;
  local_bytes : Z;
}.

Definition with_assemblies (m : gmap FragmentKey Assembly) (r : Socks5FragmentReassembler) :=
  {| config := config r; assemblies := m; sessions := sessions r;
     local_fragments := local_fragments r; local_bytes := local_bytes r |}.
Definition with_usage (s : gmap K Usage) (fs bs : Z) (r : Socks5FragmentReassembler) :=
  {| config := config r; assemblies := assemblies r; sessions := s;
     local_fragments := fs; local_bytes := bs |}.

Definition new_with_global_budget (c : Socks5FragmentConfig) (g : Socks5FragmentGlobalBudget)
    : result Socks5FragmentConfigError Socks5FragmentReassembler :=
  _ ← validate_config c;
  if negb (supports g c) then Err InvalidLimit
  else Ok {| config := c; assemblies := ∅; sessions := ∅; local_fragments := 0; local_bytes := 0 |}.

Definition new (c : Socks5FragmentConfig)
    : result Socks5FragmentConfigError (Socks5FragmentReassembler * Socks5FragmentGlobalBudget) :=
  let g := from_config c in
  r ← new_with_global_budget c g; Ok (r, g).

Definition reserve_new_assembly (session : K) (envelope_bytes : Z)
    (r : Socks5FragmentReassembler) (g : Socks5FragmentGlobalBudget)
    : result Socks5FragmentError Socks5FragmentReassembler * Socks5FragmentGlobalBudget :=
  if max_bytes_per_datagram (config r) <? envelope_bytes then (Err DatagramByteBudget, g)
  else
    let usage := default no_usage (sessions r !! session) in
    if max_inflight_per_session (config r) <=? u_datagrams usage then (Err SessionInflightBudget, g)
    else if max_bytes_per_session (config r) <? saturating_add USIZE_MAX (u_bytes usage) envelope_bytes
    then (Err SessionByteBudget, g)
    else
      match try_reserve_datagram g with
      | None => (Err GlobalInflightBudget, g)
      | Some g =>
          match try_reserve_bytes envelope_bytes g with
          | None => (Err GlobalByteBudget, release_datagram g)
          | Some g =>
              let usage := {| u_datagrams := saturating_add USIZE_MAX (u_datagrams usage) 1;
                              u_fragments := u_fragments usage;
                              u_bytes := saturating_add USIZE_MAX (u_bytes usage) envelope_bytes |} in
              (Ok (with_usage (<[session := usage]> (sessions r)) (local_fragments r)
                     (saturating_add USIZE_MAX (local_bytes r) envelope_bytes) r), g)
          end
      end.

Definition reserve_fragment (session : K) (key : FragmentKey) (n : Z)
    (r : Socks5FragmentReassembler) (g : Socks5FragmentGlobalBudget)
    : exec (result Socks5FragmentError Socks5FragmentReassembler * Socks5FragmentGlobalBudget) :=
  a ← expect (assemblies r !! key);
  if max_fragments_per_datagram (config r) <=? map_len (fragments a) then Done (Err SequenceLimit, g)
  else if max_bytes_per_datagram (config r) <? saturating_add USIZE_MAX (bytes a) n
  then Done (Err DatagramByteBudget, g)
  else
    let usage := default no_usage (sessions r !! session) in
    if max_fragments_per_session (config r) <=? u_fragments usage then Done (Err SessionFragmentBudget, g)
    else if max_bytes_per_session (config r) <? saturating_add USIZE_MAX (u_bytes usage) n
    then Done (Err SessionByteBudget, g)
    else
      match try_reserve_fragment n g with
      | (Err e, g) => Done (Err e, g)
      | (Ok _, g) =>
          usage ← expect (sessions r !! session);
          let usage := {| u_datagrams := u_datagrams usage;
                          u_fragments := saturating_add USIZE_MAX (u_fragments usage) 1;
                          u_bytes := saturating_add USIZE_MAX (u_bytes usage) n |} in
          Done (Ok (with_usage (<[session := usage]> (sessions r))
                      (saturating_add USIZE_MAX (local_fragments r) 1)
                      (saturating_add USIZE_MAX (local_bytes r) n) r), g)
      end.

Definition remove_assembly (key : FragmentKey)
    (r : Socks5FragmentReassembler) (g : Socks5FragmentGlobalBudget)
    : option Assembly * Socks5FragmentReassembler * Socks5FragmentGlobalBudget :=
  match assemblies r !! key with
  | None => (None, r, g)
  | Some a =>
      let r := with_assemblies (delete key (assemblies r)) r in
      let g := release_assembly a g in
      let n := map_len (fragments a) in
      let sessions' :=
        match sessions r !! k_session key with
        | None => sessions r
        | Some u =>
            let u := {| u_datagrams := saturating_sub (u_datagrams u) 1;
                        u_fragments := saturating_sub (u_fragments u) n;
                        u_bytes := saturating_sub (u_bytes u) (bytes a) |} in
            if (u_datagrams u =? 0) && (u_fragments u =? 0) && (u_bytes u =? 0)
            then delete (k_session key) (sessions r)
            else <[k_session key := u]> (sessions r)
        end in
      (Some a,
       with_usage sessions' (saturating_sub (local_fragments r) n)
         (saturating_sub (local_bytes r) (bytes a)) r, g)
  end.

(** [push] once the assembly of [key] exists; [created] tells that this call
    created it. *)
Definition push_existing (session : K) (key : FragmentKey) (created : bool) (f : Socks5UdpFragment)
    (now : Z) (r : Socks5FragmentReassembler) (g : Socks5FragmentGlobalBudget)
    : exec (result Socks5FragmentError Socks5FragmentOutcome * Socks5FragmentReassembler *
            Socks5FragmentGlobalBudget) :=
  a ← expect (assemblies r !! key);
  match check_conflict (config r) a f with
  | Return res => Done (res, r, g)
  | Conflict e => let '(_, r, g) := remove_assembly key r g in Done (Err e, r, g)
  | Proceed =>
      reserved ← reserve_fragment session key (len (fr_payload f)) r g;
      match reserved with
      | (Err e, g) =>
          if created then let '(_, r, g) := remove_assembly key r g in Done (Err e, r, g)
          else Done (Err e, r, g)
      | (Ok r, g) =>
          a ← expect (assemblies r !! key);
          let a := store f now a in
          let r := with_assemblies (<[key := a]> (assemblies r)) r in
          let complete := match final_sequence a with
                          | Some q => highest_contiguous a =? q
                          | None => false
                          end in
          if negb complete then Done (Ok Pending, r, g)
          else
            let '(removed, r, g) := remove_assembly key r g in
            a ← expect removed;
            q ← expect (final_sequence a);
            data ← join_payload (fragments a) (seqZ 1 q);
            Done (Ok (Complete {| dg_target := target a; dg_port := port a; dg_payload := data |} true),
                  r, g)
      end
  end.

Definition push (session : K) (f : Socks5UdpFragment) (now : Z)
    (r : Socks5FragmentReassembler) (g : Socks5FragmentGlobalBudget)
    : exec (result Socks5FragmentError Socks5FragmentOutcome * Socks5FragmentReassembler *
            Socks5FragmentGlobalBudget) :=
  if sequence f =? 0 then
    Done (Ok (Complete {| dg_target := fr_target f; dg_port := fr_port f; dg_payload := fr_payload f |} false),
          r, g)
  else if max_fragments_per_datagram (config r) <? sequence f then Done (Err SequenceLimit, r, g)
  else
    let key := {| k_session := session; k_target := fr_target f; k_port := fr_port f |} in
    if bool_decide (is_Some (assemblies r !! key)) then push_existing session key false f now r g
    else if negb (sequence f =? 1) then Done (Err MissingInitialFragment, r, g)
    else
      match socks5_udp_envelope_header_len (fr_target f) with
      | Err _ => Done (Err DatagramByteBudget, r, g)
      | Ok envelope_bytes =>
          match reserve_new_assembly session envelope_bytes r g with
          | (Err e, g) => Done (Err e, r, g)
          | (Ok r, g) =>
              let a := {| target := fr_target f; port := fr_port f; fragments := ∅;
                          final_sequence := None; highest_contiguous := 0; highest_received := 0;
                          payload_bytes := 0; bytes := envelope_bytes; last_activity := now |} in
              push_existing session key true f now (with_assemblies (<[key := a]> (assemblies r)) r) g
          end
      end.

(** The loop shared by [expire] and [discard_session]. *)
Fixpoint remove_assemblies (keys : list FragmentKey) (x : Socks5FragmentExpiration)
    (r : Socks5FragmentReassembler) (g : Socks5FragmentGlobalBudget)
    : Socks5FragmentExpiration * Socks5FragmentReassembler * Socks5FragmentGlobalBudget :=
  match keys with
  | [] => (x, r, g)
  | key :: keys =>
      let '(removed, r, g) := remove_assembly key r g in
      let x := match removed with
               | None => x
               | Some a => {| x_datagrams := saturating_add USIZE_MAX (x_datagrams x) 1;
                              x_fragments := saturating_add USIZE_MAX (x_fragments x) (map_len (fragments a));
                              x_bytes := saturating_add USIZE_MAX (x_bytes x) (bytes a) |}
               end in
      remove_assemblies keys x r g
  end.

Definition no_release : Socks5FragmentExpiration := {| x_datagrams := 0; x_fragments := 0; x_bytes := 0 |}.

(** [checked_duration_since(..).is_some_and(|elapsed| elapsed >= timeout)]. *)
Definition idle (c : Socks5FragmentConfig) (now : Z) (a : Assembly) : bool :=
  (last_activity a <=? now) && (timeout c <=? now - last_activity a).

Definition expire (now : Z) (r : Socks5FragmentReassembler) (g : Socks5FragmentGlobalBudget) :=
  remove_assemblies (filter (λ ka, idle (config r) now ka.2 = true) (map_to_list (assemblies r))).*1
    no_release r g.

Definition discard_session (session : K) (r : Socks5FragmentReassembler) (g : Socks5FragmentGlobalBudget) :=
  remove_assemblies (filter (λ k, k_session k = session) (map_to_list (assemblies r)).*1) no_release r g.

(** [Drop::drop]. *)
Definition drop_reassembler (r : Socks5FragmentReassembler) (g : Socks5FragmentGlobalBudget)
    : Socks5FragmentGlobalBudget :=
  fold_left (λ g a, release_assembly a g) (map_to_list (assemblies r)).*2 g.

(** ** Accounting *)

Implicit Types (r : Socks5FragmentReassembler) (g : Socks5FragmentGlobalBudget) (m : gmap FragmentKey Assembly).

(** What the stored assemblies occupy, in all and in one session. *)
Definition own_datagrams r : Z := map_len (assemblies r).
Definition own_fragments r : Z := map_sum (λ _ a, map_len (fragments a)) (assemblies r).
Definition own_bytes r : Z := map_sum (λ _ a, bytes a) (assemblies r).
Definition session_sum (w : Assembly → Z) (x : K) m : Z :=
  map_sum (λ k a, if decide (k_session k = x) then w a else 0) m.
Definition session_usage (x : K) m : Usage :=
  {| u_datagrams := session_sum (λ _, 1) x m;
     u_fragments := session_sum (λ a, map_len (fragments a)) x m;
     u_bytes := session_sum bytes x m |}.

(** The part of the shared counters that belongs to other reassemblers. *)
Definition others r g : Z * Z * Z :=
  (inflight_datagrams g - own_datagrams r, buffered_fragments g - own_fragments r,
   buffered_bytes g - own_bytes r).
Definition limits g : Z * Z * Z := (max_inflight_datagrams g, max_fragments g, max_bytes g).

Definition config_ok (c : Socks5FragmentConfig) : Prop :=
  validate_config c = Ok tt ∧ 0 ≤ max_reorder_gap c ≤ U8_MAX ∧ 0 ≤ max_fragments_per_datagram c ∧
  0 ≤ max_bytes_per_datagram c ∧ 0 ≤ max_inflight_per_session c ∧
  max_inflight_per_session c ≤ USIZE_MAX ∧ max_fragments_per_session c ≤ USIZE_MAX ∧
  max_bytes_per_session c ≤ USIZE_MAX.

Definition budget_ok g : Prop :=
  0 ≤ inflight_datagrams g ≤ max_inflight_datagrams g ∧ max_inflight_datagrams g ≤ USIZE_MAX ∧
  0 ≤ buffered_fragments g ≤ max_fragments g ∧ max_fragments g ≤ USIZE_MAX ∧
  0 ≤ buffered_bytes g ≤ max_bytes g ∧ max_bytes g ≤ USIZE_MAX.

Record assembly_ok (c : Socks5FragmentConfig) (k : FragmentKey) (a : Assembly) : Prop := {
  ao_key : target a = k_target k ∧ port a = k_port k;
  ao_payload : payload_bytes a = map_sum (λ _ p, len p) (fragments a);
  ao_bytes : payload_bytes a ≤ bytes a ≤ max_bytes_per_datagram c;
  ao_count : map_len (fragments a) ≤ max_fragments_per_datagram c;
  ao_sequences : ∀ q p, fragments a !! q = Some p →
                   1 ≤ q ≤ highest_received a ∧ q ≤ max_fragments_per_datagram c;
  ao_contiguous : 0 ≤ highest_contiguous a ∧
                  (∀ q, 1 ≤ q ≤ highest_contiguous a → is_Some (fragments a !! q)) ∧
                  fragments a !! (highest_contiguous a + 1) = None;
  ao_final : ∀ q, final_sequence a = Some q → is_Some (fragments a !! q);
}.

Record usage_ok r g : Prop := {
  uo_config : config_ok (config r);
  uo_budget : budget_ok g;
  uo_assemblies : map_Forall (assembly_ok (config r)) (assemblies r);
  uo_sessions : ∀ x, sessions r !! x =
                  if decide (u_datagrams (session_usage x (assemblies r)) = 0) then None
                  else Some (session_usage x (assemblies r));
  uo_session_limits : ∀ x,
    u_datagrams (session_usage x (assemblies r)) ≤ max_inflight_per_session (config r) ∧
    u_fragments (session_usage x (assemblies r)) ≤ max_fragments_per_session (config r) ∧
    u_bytes (session_usage x (assemblies r)) ≤ max_bytes_per_session (config r);
  uo_local : local_fragments r = own_fragments r ∧ local_bytes r = own_bytes r;
  uo_covered : own_datagrams r ≤ inflight_datagrams g ∧ own_fragments r ≤ buffered_fragments g ∧
               own_bytes r ≤ buffered_bytes g;
}.

Definition unfinished (a : Assembly) : Prop := final_sequence a ≠ Some (highest_contiguous a).

Record reassembler_ok r g : Prop := {
  ro_usage : usage_ok r g;
  ro_unfinished : map_Forall (λ _ a, unfinished a) (assemblies r);
}.

Lemma assembly_bytes_nonneg c k a : assembly_ok c k a → 0 ≤ payload_bytes a ≤ bytes a.
Proof.
  intros Ha. pose proof (ao_bytes c k a Ha). rewrite (ao_payload c k a Ha) in *.
  split; [|lia]. apply map_sum_nonneg. intros. apply len_nonneg.
Qed.

Lemma session_sum_nonneg w x m : (∀ k a, m !! k = Some a → 0 ≤ w a) → 0 ≤ session_sum w x m.
Proof. intros Hw. apply map_sum_nonneg. intros k a Hk. case_decide; [by eapply Hw|lia]. Qed.

Lemma session_sum_le w x m :
  (∀ k a, m !! k = Some a → 0 ≤ w a) → session_sum w x m ≤ map_sum (λ _ a, w a) m.
Proof. intros Hw. apply map_sum_le. intros k a Hk. specialize (Hw k a Hk). case_decide; lia. Qed.

(** A session without assemblies uses nothing. *)
Lemma session_sum_zero w x m : session_sum (λ _, 1) x m = 0 → session_sum w x m = 0.
Proof.
  unfold session_sum. induction m as [|k a m Hk IH] using map_ind; [by rewrite !map_sum_empty|].
  rewrite !map_sum_insert by done.
  assert (0 ≤ map_sum (λ k _, if decide (k_session k = x) then 1 else 0) m).
  { apply map_sum_nonneg. intros. case_decide; lia. }
  case_decide; intros; [lia|]. rewrite IH; lia.
Qed.

Lemma release_fragments_exact l d f b g0 :
  len l ≤ f → foldr (λ p acc, len p + acc) 0 l ≤ b →
  release_fragments l (set_counters d f b g0) =
    set_counters d (f - len l) (b - foldr (λ p acc, len p + acc) 0 l) g0.
Proof.
  revert f b. induction l as [|p l IH]; intros f b Hf Hb.
  - unfold release_fragments. simpl. by rewrite len_nil, !Z.sub_0_r.
  - rewrite len_cons in *. cbn [foldr] in *. pose proof (len_nonneg l). pose proof (len_nonneg p).
    assert (0 ≤ foldr (λ p acc, len p + acc) 0 l).
    { clear. induction l as [|q l IH]; cbn [foldr]; [lia|]. pose proof (len_nonneg q). lia. }
    change (release_fragments (p :: l) ?x) with (release_fragments l (release_fragment (len p) x)).
    unfold release_fragment, release_bytes, release_counter.
    cbn [set_counters inflight_datagrams buffered_fragments buffered_bytes].
    rewrite (saturating_sub_small f), (saturating_sub_small b) by lia.
    etransitivity; [|transitivity (set_counters d (f - 1 - len l) (b - len p - foldr (λ p acc, len p + acc) 0 l) g0)].
    + apply (IH (f - 1) (b - len p)); lia.
    + done.
    + f_equal; lia.
Qed.

Lemma release_assembly_exact c k a g :
  assembly_ok c k a → 1 ≤ inflight_datagrams g → map_len (fragments a) ≤ buffered_fragments g →
  bytes a ≤ buffered_bytes g →
  release_assembly a g =
    set_counters (inflight_datagrams g - 1) (buffered_fragments g - map_len (fragments a))
      (buffered_bytes g - bytes a) g.
Proof.
  intros Ha Hd Hf Hb. pose proof (assembly_bytes_nonneg c k a Ha).
  unfold release_assembly, release_datagram, release_bytes, release_counter.
  cbn [set_counters inflight_datagrams buffered_fragments buffered_bytes].
  rewrite (saturating_sub_small (inflight_datagrams g)), (saturating_sub_small (bytes a)) by lia.
  rewrite saturating_sub_small by lia.
  assert (len (map_to_list (fragments a)).*2 = map_len (fragments a)) as Hlen.
  { unfold len, map_len. by rewrite length_fmap, length_map_to_list. }
  etransitivity.
  { apply (release_fragments_exact _ (inflight_datagrams g - 1) (buffered_fragments g)
             (buffered_bytes g - (bytes a - payload_bytes a)) g); [lia|].
    rewrite map_sum_values, <- (ao_payload c k a Ha). lia. }
  rewrite map_sum_values, <- (ao_payload c k a Ha), Hlen. f_equal; lia.
Qed.

Lemma session_sum_delete w x m k a :
  m !! k = Some a →
  session_sum w x m = (if decide (k_session k = x) then w a else 0) + session_sum w x (delete k m).
Proof. apply (map_sum_delete (λ k a, if decide (k_session k = x) then w a else 0)). Qed.

Lemma session_sum_insert w x m k a :
  m !! k = None →
  session_sum w x (<[k := a]> m) = (if decide (k_session k = x) then w a else 0) + session_sum w x m.
Proof. apply (map_sum_insert (λ k a, if decide (k_session k = x) then w a else 0)). Qed.

Lemma session_sum_replace w x m k a a' :
  m !! k = Some a →
  session_sum w x (<[k := a']> m) =
    session_sum w x m + (if decide (k_session k = x) then w a' - w a else 0).
Proof.
  intros Hk. unfold session_sum.
  rewrite (map_sum_replace (λ k a, if decide (k_session k = x) then w a else 0) _ _ _ _ Hk).
  case_decide; lia.
Qed.

Lemma usage_nonneg c x m :
  map_Forall (assembly_ok c) m →
  0 ≤ u_datagrams (session_usage x m) ∧ 0 ≤ u_fragments (session_usage x m) ∧
  0 ≤ u_bytes (session_usage x m).
Proof.
  intros HF. split_and!; apply session_sum_nonneg; intros k a Hk; [lia|unfold map_len; lia|].
  pose proof (assembly_bytes_nonneg _ _ _ (HF k a Hk)). lia.
Qed.

Lemma own_nonneg c m :
  map_Forall (assembly_ok c) m →
  0 ≤ map_len m ∧ 0 ≤ map_sum (λ _ a, map_len (fragments a)) m ∧ 0 ≤ map_sum (λ _ a, bytes a) m.
Proof.
  intros HF. split_and!; [unfold map_len; lia| |]; apply map_sum_nonneg; intros k a Hk; [unfold map_len; lia|].
  pose proof (assembly_bytes_nonneg _ _ _ (HF k a Hk)). lia.
Qed.

Lemma map_len_delete_key m k a : m !! k = Some a → map_len m = 1 + map_len (delete k m).
Proof. intros Hk. by rewrite <- !map_sum_len, (map_sum_delete _ _ _ _ Hk). Qed.

(** Removing an assembly releases exactly its share everywhere. *)
Lemma remove_assembly_spec key r g :
  usage_ok r g →
  ∃ r' g', remove_assembly key r g = (assemblies r !! key, r', g') ∧ usage_ok r' g' ∧
    config r' = config r ∧ assemblies r' = delete key (assemblies r) ∧
    others r' g' = others r g ∧ limits g' = limits g.
Proof.
  intros Hu. unfold remove_assembly. destruct (assemblies r !! key) as [a|] eqn:Ha.
  2:{ exists r, g. split_and!; [done|done|done|by rewrite delete_id|done|done]. }
  pose proof (uo_assemblies r g Hu) as HF. pose proof (map_Forall_delete _ _ key HF) as HF'.
  pose proof (HF _ _ Ha) as Hok. pose proof (uo_covered r g Hu) as (Hd & Hf & Hb).
  unfold own_datagrams, own_fragments, own_bytes in *.
  pose proof (map_len_delete_key _ _ _ Ha) as Ed.
  pose proof (map_sum_delete (λ _ a, map_len (fragments a)) _ _ _ Ha) as Ef.
  pose proof (map_sum_delete (λ _ a, bytes a) _ _ _ Ha) as Eb. cbn beta in Ef, Eb.
  pose proof (own_nonneg _ _ HF') as (Nd & Nf & Nb).
  rewrite (release_assembly_exact _ _ _ _ Hok) by lia.
  pose proof (usage_nonneg _ (k_session key) _ HF') as (Sd & Sf & Sb).
  pose proof (assembly_bytes_nonneg _ _ _ Hok) as Hbn.
  assert (∀ w, session_sum w (k_session key) (assemblies r) = w a + session_sum w (k_session key) (delete key (assemblies r))) as Es.
  { intros w. rewrite (session_sum_delete w _ _ _ _ Ha), decide_True by done. done. }
  unfold session_usage in *. cbn [u_datagrams u_fragments u_bytes] in *.
  cbn [with_assemblies sessions assemblies local_fragments local_bytes].
  pose proof (uo_local r g Hu) as [-> ->]. unfold own_fragments, own_bytes.
  rewrite !saturating_sub_small by (unfold map_len in *; lia).
  rewrite (uo_sessions r g Hu), decide_False by (cbn [session_usage u_datagrams]; rewrite Es; lia).
  cbn [session_usage u_datagrams u_fragments u_bytes]. rewrite !Es.
  rewrite !saturating_sub_small by (unfold map_len in *; lia).
  do 2 eexists. split; [done|]. split; [|split_and!; [done|done| |done]].
  2:{ unfold others, own_datagrams, own_fragments, own_bytes.
      cbn [with_usage with_assemblies assemblies set_counters inflight_datagrams buffered_fragments buffered_bytes].
      f_equal; [f_equal|]; lia. }
  pose proof (uo_budget r g Hu) as (B1 & B2 & B3 & B4 & B5 & B6).
  constructor; cbn [with_usage with_assemblies assemblies config sessions local_fragments local_bytes].
  - apply Hu.
  - unfold budget_ok. cbn. pose proof (own_nonneg _ _ HF). unfold map_len in *. lia.
  - done.
  - intros x. cbn [session_usage u_datagrams]. destruct (decide (k_session key = x)) as [<-|Hne].
    + destruct (decide (session_sum (λ _, 1) (k_session key) (delete key (assemblies r)) = 0)) as [Hz|Hnz].
      * rewrite !(session_sum_zero _ _ _ Hz).
        rewrite (proj2 (Z.eqb_eq _ _)) by lia. rewrite (proj2 (Z.eqb_eq _ _)) by lia.
        rewrite (proj2 (Z.eqb_eq _ _)) by lia. apply lookup_delete_eq.
      * rewrite (proj2 (Z.eqb_neq (1 + _ - 1) 0)) by lia. cbn [andb].
        rewrite lookup_insert_eq. unfold session_usage. do 2 f_equal; lia.
    + assert (∀ w, session_sum w x (delete key (assemblies r)) = session_sum w x (assemblies r)) as Ex.
      { intros w. rewrite (session_sum_delete w x _ _ _ Ha), decide_False by done. lia. }
      unfold session_usage. rewrite !Ex. pose proof (uo_sessions r g Hu x) as Hx.
      destruct (_ && _ && _); [rewrite lookup_delete_ne by done|rewrite lookup_insert_ne by done]; exact Hx.
  - intros x. pose proof (uo_session_limits r g Hu x) as Hl. unfold session_usage in *.
    cbn [u_datagrams u_fragments u_bytes] in *.
    rewrite !(session_sum_delete _ x _ _ _ Ha) in Hl. unfold map_len in *. case_decide; lia.
  - unfold own_fragments, own_bytes. cbn. lia.
  - unfold own_datagrams, own_fragments, own_bytes. cbn. lia.
Qed.

Lemma reserve_counter_eq counter limit amount :
  limit ≤ USIZE_MAX →
  reserve_counter counter limit amount = if counter + amount <=? limit then Some (counter + amount) else None.
Proof.
  intros Hl. unfold reserve_counter, checked_add. destruct (Z.leb_spec (counter + amount) limit).
  - rewrite (proj2 (Z.leb_le _ USIZE_MAX)) by lia. cbn. by rewrite (proj2 (Z.leb_le _ limit)).
  - destruct (counter + amount <=? USIZE_MAX); [|done]. cbn. by rewrite (proj2 (Z.leb_gt _ limit)).
Qed.

Lemma header_len_nonneg t n : socks5_udp_envelope_header_len t = Ok n → 0 ≤ n.
Proof.
  assert (∀ v, 0 ≤ v → ∀ n, ok_or (checked_add USIZE_MAX 3 v ≫= λ v, checked_add USIZE_MAX v 2) TooLarge = Ok n → 0 ≤ n) as Hadd.
  { intros v Hv k. unfold checked_add. destruct (3 + v <=? USIZE_MAX); [|done]. cbn.
    destruct (3 + v + 2 <=? USIZE_MAX); [|done]. intros [= <-]. lia. }
  unfold socks5_udp_envelope_header_len. destruct t as [[a|a]|d]; cbn [mbind result_bind].
  - apply Hadd. lia.
  - apply Hadd. lia.
  - destruct (_ || _); [done|]. cbn [mbind result_bind]. apply Hadd. unfold RustStr.str_len. 
    pose proof (len_nonneg (RustStr.as_bytes d)). lia.
Qed.

Definition fresh_assembly (f : Socks5UdpFragment) (envelope_bytes now : Z) : Assembly :=
  {| target := fr_target f; port := fr_port f; fragments := ∅; final_sequence := None;
     highest_contiguous := 0; highest_received := 0; payload_bytes := 0; bytes := envelope_bytes;
     last_activity := now |}.

Lemma default_usage r g x : usage_ok r g → default no_usage (sessions r !! x) = session_usage x (assemblies r).
Proof.
  intros Hu. rewrite (uo_sessions r g Hu). case_decide as Hz; [|done]. cbn [default].
  unfold session_usage in *. cbn [u_datagrams] in Hz. by rewrite Hz, !(session_sum_zero _ _ _ Hz).
Qed.

(** Room for a new assembly of [envelope] bytes, and for one more fragment of
    [n] bytes, in every budget. *)
Definition room_for_assembly (x : K) (envelope : Z) r g : Prop :=
  envelope ≤ max_bytes_per_datagram (config r) ∧
  u_datagrams (session_usage x (assemblies r)) < max_inflight_per_session (config r) ∧
  u_bytes (session_usage x (assemblies r)) + envelope ≤ max_bytes_per_session (config r) ∧
  inflight_datagrams g + 1 ≤ max_inflight_datagrams g ∧ buffered_bytes g + envelope ≤ max_bytes g.
Definition room_for_fragment (x : K) (a : Assembly) (n : Z) r g : Prop :=
  map_len (fragments a) < max_fragments_per_datagram (config r) ∧
  bytes a + n ≤ max_bytes_per_datagram (config r) ∧
  u_fragments (session_usage x (assemblies r)) < max_fragments_per_session (config r) ∧
  u_bytes (session_usage x (assemblies r)) + n ≤ max_bytes_per_session (config r) ∧
  buffered_fragments g + 1 ≤ max_fragments g ∧ buffered_bytes g + n ≤ max_bytes g.

Lemma session_bytes_le x c m :
  map_Forall (assembly_ok c) m → u_bytes (session_usage x m) ≤ map_sum (λ _ a, bytes a) m.
Proof.
  intros HF. apply session_sum_le. intros k a Hk.
  pose proof (assembly_bytes_nonneg _ _ _ (HF k a Hk)). lia.
Qed.

(** What putting [a'] at [key] adds to the usage: datagrams, fragments, bytes. *)
Definition grown (u : Usage) (dd df db : Z) : Usage :=
  {| u_datagrams := u_datagrams u + dd; u_fragments := u_fragments u + df; u_bytes := u_bytes u + db |}.
Record growth (key : FragmentKey) (a' : Assembly) (dd df db : Z) r : Prop := {
  gr_nonneg : 0 ≤ dd ∧ 0 ≤ df ∧ 0 ≤ db;
  gr_own : map_len (<[key := a']> (assemblies r)) = own_datagrams r + dd ∧
           map_sum (λ _ a, map_len (fragments a)) (<[key := a']> (assemblies r)) = own_fragments r + df ∧
           map_sum (λ _ a, bytes a) (<[key := a']> (assemblies r)) = own_bytes r + db;
  gr_sessions : ∀ x, session_usage x (<[key := a']> (assemblies r)) =
    if decide (k_session key = x) then grown (session_usage x (assemblies r)) dd df db
    else session_usage x (assemblies r);
}.

Lemma growth_new key a r :
  assemblies r !! key = None → 0 ≤ bytes a → fragments a = ∅ → growth key a 1 0 (bytes a) r.
Proof.
  intros Hn Hb Hf. split; [lia| |].
  - unfold own_datagrams, own_fragments, own_bytes. rewrite <- !map_sum_len, !map_sum_insert, Hf by done.
    unfold map_len. rewrite map_size_empty. lia.
  - intros x. unfold session_usage. rewrite !session_sum_insert by done. unfold grown. cbn.
    rewrite Hf. change (map_len (∅ : gmap Z (list Z))) with 0. case_decide; f_equal; lia.
Qed.

Lemma growth_fragment key a a' n r :
  assemblies r !! key = Some a → 0 ≤ n → bytes a' = bytes a + n →
  map_len (fragments a') = map_len (fragments a) + 1 → growth key a' 0 1 n r.
Proof.
  intros Ha Hn Hb Hl. split; [lia| |].
  - unfold own_datagrams, own_fragments, own_bytes.
    rewrite (map_sum_replace (λ _ a, map_len (fragments a)) _ _ _ a' Ha),
      (map_sum_replace (λ _ a, bytes a) _ _ _ a' Ha). unfold map_len at 1. rewrite map_size_insert_Some by done.
    unfold map_len in *. lia.
  - intros x. unfold session_usage. rewrite !(session_sum_replace _ _ _ _ _ _ Ha). unfold grown. cbn.
    case_decide; f_equal; lia.
Qed.

(** The books stay balanced when the session, the reassembler and the shared
    budget are all charged with the growth, within the limits. *)
Lemma usage_ok_grow key a' dd df db r g :
  let u := session_usage (k_session key) (assemblies r) in
  let r' := with_assemblies (<[key := a']> (assemblies r))
              (with_usage (<[k_session key := grown u dd df db]> (sessions r))
                 (local_fragments r + df) (local_bytes r + db) r) in
  let g' := set_counters (inflight_datagrams g + dd) (buffered_fragments g + df) (buffered_bytes g + db) g in
  usage_ok r g → assembly_ok (config r) key a' → growth key a' dd df db r → u_datagrams u + dd ≠ 0 →
  u_datagrams u + dd ≤ max_inflight_per_session (config r) ∧
    u_fragments u + df ≤ max_fragments_per_session (config r) ∧ u_bytes u + db ≤ max_bytes_per_session (config r) →
  inflight_datagrams g + dd ≤ max_inflight_datagrams g ∧ buffered_fragments g + df ≤ max_fragments g ∧
    buffered_bytes g + db ≤ max_bytes g →
  usage_ok r' g' ∧ others r' g' = others r g ∧ limits g' = limits g.
Proof.
  intros u r' g' Hu Hok [(P1 & P2 & P3) (E1 & E2 & E3) Hs] Hnz Hlim Hglob.
  pose proof (uo_budget r g Hu) as (B1 & B2 & B3 & B4 & B5 & B6). pose proof (uo_local r g Hu) as [L1 L2].
  pose proof (uo_covered r g Hu) as (C1 & C2 & C3).
  split; [|split; [|done]].
  2:{ unfold others, r', g', own_datagrams at 1, own_fragments at 1, own_bytes at 1.
      cbn [with_usage with_assemblies assemblies set_counters inflight_datagrams buffered_fragments buffered_bytes].
      rewrite E1, E2, E3. f_equal; [f_equal|]; lia. }
  constructor; unfold r', g'; cbn [with_usage with_assemblies assemblies config sessions local_fragments local_bytes].
  - apply Hu.
  - unfold budget_ok. cbn. lia.
  - apply map_Forall_insert_2; [done|apply Hu].
  - intros x. rewrite Hs. destruct (decide (k_session key = x)) as [<-|Hne].
    + rewrite lookup_insert_eq. fold u. by rewrite decide_False.
    + rewrite lookup_insert_ne by done. apply (uo_sessions r g Hu).
  - intros x. rewrite Hs. destruct (decide (k_session key = x)) as [<-|Hne]; [done|apply (uo_session_limits r g Hu)].
  - unfold own_fragments at 1, own_bytes at 1. cbn [with_usage with_assemblies assemblies]. rewrite E2, E3. lia.
  - unfold own_datagrams at 1, own_fragments at 1, own_bytes at 1.
    cbn [with_usage with_assemblies assemblies set_counters inflight_datagrams buffered_fragments buffered_bytes].
    rewrite E1, E2, E3. lia.
Qed.

(** A reservation that fails on the second shared counter restores the first. *)
Lemma release_reserved_datagram g :
  budget_ok g →
  release_datagram (set_counters (inflight_datagrams g + 1) (buffered_fragments g) (buffered_bytes g) g) = g.
Proof.
  intros (B1 & _). unfold release_datagram, release_counter.
  cbn [set_counters inflight_datagrams buffered_fragments buffered_bytes]. rewrite saturating_sub_small by lia.
  replace (inflight_datagrams g + 1 - 1) with (inflight_datagrams g) by lia. by destruct g.
Qed.

Lemma fresh_assembly_ok c key f envelope now :
  fr_target f = k_target key → fr_port f = k_port key → 0 ≤ envelope ≤ max_bytes_per_datagram c →
  0 ≤ max_fragments_per_datagram c → assembly_ok c key (fresh_assembly f envelope now).
Proof.
  intros Ht Hp He Hm. constructor; cbn [fresh_assembly target port fragments final_sequence highest_contiguous
    highest_received payload_bytes bytes]; try done.
  split_and!; [lia|lia|done].
Qed.

Lemma reserve_new_assembly_result session envelope r g :
  let u := session_usage session (assemblies r) in
  usage_ok r g → 0 ≤ envelope →
  (∃ e, reserve_new_assembly session envelope r g = (Err e, g) ∧ ¬ room_for_assembly session envelope r g) ∨
  (room_for_assembly session envelope r g ∧
   reserve_new_assembly session envelope r g =
     (Ok (with_usage (<[session := grown u 1 0 envelope]> (sessions r)) (local_fragments r + 0)
            (local_bytes r + envelope) r),
      set_counters (inflight_datagrams g + 1) (buffered_fragments g + 0) (buffered_bytes g + envelope) g)).
Proof.
  intros u Hu Henv. unfold reserve_new_assembly, room_for_assembly. rewrite (default_usage r g) by done. fold u.
  destruct (Z.ltb_spec (max_bytes_per_datagram (config r)) envelope); [left; eexists; split; [done|lia]|].
  destruct (Z.leb_spec (max_inflight_per_session (config r)) (u_datagrams u)); [left; eexists; split; [done|lia]|].
  pose proof (uo_config r g Hu) as (_ & _ & _ & _ & _ & Hc1 & Hc2 & Hc3).
  pose proof (uo_assemblies r g Hu) as HF. pose proof (usage_nonneg _ session _ HF) as (Nd & Nf & Nb). fold u in Nd, Nf, Nb.
  destruct (Z.ltb_spec (max_bytes_per_session (config r)) (saturating_add USIZE_MAX (u_bytes u) envelope)) as [Hsb|Hsb];
    unfold saturating_add in Hsb; [left; eexists; split; [done|lia]|].
  pose proof (uo_budget r g Hu) as Hb. pose proof Hb as (B1 & B2 & B3 & B4 & B5 & B6).
  unfold try_reserve_datagram. rewrite reserve_counter_eq by lia.
  destruct (Z.leb_spec (inflight_datagrams g + 1) (max_inflight_datagrams g)); cbn [mbind option_bind]; [|left; eexists; split; [done|lia]].
  unfold try_reserve_bytes. cbn [set_counters buffered_bytes max_bytes inflight_datagrams buffered_fragments].
  rewrite reserve_counter_eq by lia.
  destruct (Z.leb_spec (buffered_bytes g + envelope) (max_bytes g)); cbn [mbind option_bind].
  2:{ left. eexists. split; [|lia]. f_equal. by apply release_reserved_datagram. }
  right. pose proof (uo_local r g Hu) as [_ L2]. pose proof (uo_covered r g Hu) as (_ & _ & C3).
  pose proof (own_nonneg _ _ HF) as (_ & _ & O3). pose proof (session_bytes_le session _ _ HF) as Hsle.
  fold u (own_bytes r) in Hsle, O3. split; [lia|].
  rewrite !saturating_add_small by lia. unfold grown. by rewrite !Z.add_0_r.
Qed.

(** Reserving a new assembly either changes nothing or accounts for it. *)
Lemma reserve_new_assembly_spec session f envelope now r g :
  let key := {| k_session := session; k_target := fr_target f; k_port := fr_port f |} in
  reassembler_ok r g → 0 ≤ envelope → assemblies r !! key = None →
  (∃ e, reserve_new_assembly session envelope r g = (Err e, g) ∧ ¬ room_for_assembly session envelope r g) ∨
  (∃ r1 g1, reserve_new_assembly session envelope r g = (Ok r1, g1) ∧
     let r' := with_assemblies (<[key := fresh_assembly f envelope now]> (assemblies r1)) r1 in
     assemblies r1 = assemblies r ∧ config r1 = config r ∧
     reassembler_ok r' g1 ∧ others r' g1 = others r g ∧ limits g1 = limits g).
Proof.
  intros key [Hu Hi] Henv Hnone.
  destruct (reserve_new_assembly_result session envelope r g Hu Henv) as [?|[Hroom ->]]; [by left|right].
  do 2 eexists. split; [reflexivity|]. cbv zeta. split; [done|]. split; [done|].
  destruct Hroom as (R1 & R2 & R3 & R4 & R5).
  pose proof (uo_config r g Hu) as (_ & _ & Hc0 & _). pose proof (uo_budget r g Hu) as (B1 & B2 & B3 & B4 & B5 & B6).
  pose proof (uo_session_limits r g Hu session) as (Ld & Lf & Lb).
  pose proof (usage_nonneg _ session _ (uo_assemblies r g Hu)) as (Nd & _ & _).
  destruct (usage_ok_grow key (fresh_assembly f envelope now) 1 0 envelope r g Hu) as (Hok & Ho & Hl);
    [by apply fresh_assembly_ok|by apply (growth_new key)|cbn [key k_session]; lia..|].
  split_and!; [|done|done]. split; [done|]. by apply map_Forall_insert_2.
Qed.

(** ** Storing a fragment *)

Lemma advance_contiguous_spec fuel fs hc :
  (∀ q p, fs !! q = Some p → q ≤ 127) → 0 ≤ hc ≤ 127 → 128 ≤ Z.of_nat fuel + hc →
  (∀ q, 1 ≤ q ≤ hc → is_Some (fs !! q)) →
  let h := advance_contiguous fuel fs hc in
  hc ≤ h ∧ (∀ q, 1 ≤ q ≤ h → is_Some (fs !! q)) ∧ fs !! (h + 1) = None.
Proof.
  intros Hmax. revert hc. induction fuel as [|fuel IH]; intros hc Hhc Hfuel Hall; [simpl in *; lia|].
  cbn [advance_contiguous]. rewrite saturating_add_small by lia.
  case_bool_decide as Hnext; cbv zeta.
  - destruct Hnext as [p Hp]. pose proof (Hmax _ _ Hp).
    destruct (IH (hc + 1)) as (Hle & Hall' & Hend); [lia|lia| |].
    { intros q Hq. destruct (decide (q = hc + 1)) as [->|]; [by eexists|]. apply Hall. lia. }
    split_and!; [lia|done|done].
  - split_and!; [lia|done|]. by apply eq_None_not_Some.
Qed.

Lemma check_conflict_Proceed c a f :
  check_conflict c a f = Proceed → fragments a !! sequence f = None ∧
  match final_sequence a with Some q => sequence f ≤ q | None => True end.
Proof.
  unfold check_conflict. destruct (_ && (sequence f <? _)); [done|].
  destruct (fragments a !! sequence f) as [p|]; [by repeat case_match|].
  intros Hc. split; [done|]. destruct (final_sequence a) as [q|]; [|done].
  destruct (q <? sequence f) eqn:E; [done|]. bool_prop. lia.
Qed.

Lemma max_fragments_127 c : config_ok c → max_fragments_per_datagram c ≤ 127 ∧ max_bytes_per_datagram c ≤ 65507.
Proof.
  intros [Hv _]. unfold validate_config, MAX_UDP_DATAGRAM_BYTES in Hv.
  destruct (timeout c =? 0); [done|]. destruct (timeout c <? _); [done|].
  destruct (max_fragments_per_datagram c =? 0); [done|].
  destruct (127 <? max_fragments_per_datagram c) eqn:E1; [done|].
  destruct (max_bytes_per_datagram c =? 0); [done|].
  destruct (65507 <? max_bytes_per_datagram c) eqn:E2; [done|]. bool_prop. lia.
Qed.

Lemma store_ok c k a f now :
  config_ok c → assembly_ok c k a → fragments a !! sequence f = None →
  1 ≤ sequence f ≤ max_fragments_per_datagram c → map_len (fragments a) < max_fragments_per_datagram c →
  bytes a + len (fr_payload f) ≤ max_bytes_per_datagram c →
  assembly_ok c k (store f now a) ∧
  bytes (store f now a) = bytes a + len (fr_payload f) ∧
  map_len (fragments (store f now a)) = map_len (fragments a) + 1 ∧
  highest_contiguous a ≤ highest_contiguous (store f now a).
Proof.
  intros Hc Ha Hnone Hseq Hcount Hbytes. destruct (max_fragments_127 c Hc) as [H127 H65].
  pose proof (assembly_bytes_nonneg _ _ _ Ha) as Hbn. destruct Ha as [Hk Hp Hb Hn Hs (Hc0 & Hc1 & Hc2) Hf].
  pose proof (len_nonneg (fr_payload f)).
  assert (map_len (<[sequence f := fr_payload f]> (fragments a)) = map_len (fragments a) + 1) as Elen.
  { unfold map_len. rewrite map_size_insert_None by done. lia. }
  assert (∀ q p, <[sequence f := fr_payload f]> (fragments a) !! q = Some p →
    1 ≤ q ≤ Z.max (highest_received a) (sequence f) ∧ q ≤ max_fragments_per_datagram c) as Hs'.
  { intros q p [[<- <-]|[_ Hq]]%lookup_insert_Some; [lia|]. specialize (Hs _ _ Hq). lia. }
  assert (highest_contiguous a ≤ 127) as Hhc.
  { destruct (decide (highest_contiguous a = 0)); [lia|].
    destruct (Hc1 (highest_contiguous a)) as [p Hq]; [lia|]. specialize (Hs _ _ Hq). lia. }
  destruct (advance_contiguous_spec 256 (<[sequence f := fr_payload f]> (fragments a)) (highest_contiguous a))
    as (A1 & A2 & A3); [|lia|lia| |].
  { intros q p Hq. specialize (Hs' _ _ Hq). lia. }
  { intros q Hq. apply lookup_insert_is_Some'. right. by apply Hc1. }
  unfold store. split; [|split_and!; cbn [bytes fragments highest_contiguous];
    [rewrite saturating_add_small by lia; done|done|done]].
  constructor; cbn [target port fragments final_sequence highest_contiguous highest_received payload_bytes bytes].
  - done.
  - rewrite map_sum_insert by done. rewrite saturating_add_small by lia. lia.
  - rewrite !saturating_add_small by lia. lia.
  - lia.
  - exact Hs'.
  - split_and!; [lia|done|done].
  - intros q Hq. apply lookup_insert_is_Some'. destruct (final_fragment f); [left; by injection Hq|right; by apply Hf].
Qed.

(** The session of a stored assembly is known. *)
Lemma session_of_assembly key a r :
  assemblies r !! key = Some a → u_datagrams (session_usage (k_session key) (assemblies r)) ≠ 0.
Proof.
  intros Ha. unfold session_usage. cbn [u_datagrams]. rewrite (session_sum_delete _ _ _ _ _ Ha), decide_True by done.
  enough (0 ≤ session_sum (λ _, 1) (k_session key) (delete key (assemblies r))) by lia.
  apply session_sum_nonneg. intros; lia.
Qed.

Lemma try_reserve_fragment_result n g :
  budget_ok g →
  try_reserve_fragment n g =
    if (buffered_fragments g + 1 <=? max_fragments g) then
      if (buffered_bytes g + n <=? max_bytes g)
      then (Ok tt, set_counters (inflight_datagrams g) (buffered_fragments g + 1) (buffered_bytes g + n) g)
      else (Err GlobalByteBudget, g)
    else (Err GlobalFragmentBudget, g).
Proof.
  intros (B1 & B2 & B3 & B4 & B5 & B6). unfold try_reserve_fragment, try_reserve_bytes.
  rewrite reserve_counter_eq by lia. destruct (Z.leb_spec (buffered_fragments g + 1) (max_fragments g)); [|done].
  cbn [set_counters buffered_bytes max_bytes inflight_datagrams buffered_fragments].
  rewrite reserve_counter_eq by lia. destruct (Z.leb_spec (buffered_bytes g + n) (max_bytes g)); [done|].
  cbn [mbind option_bind]. f_equal. unfold release_counter. rewrite saturating_sub_small by lia.
  replace (buffered_fragments g + 1 - 1) with (buffered_fragments g) by lia. by destruct g.
Qed.

Lemma reserve_fragment_result key n r g a :
  let u := session_usage (k_session key) (assemblies r) in
  usage_ok r g → assemblies r !! key = Some a → 0 ≤ n →
  (∃ e, reserve_fragment (k_session key) key n r g = Done (Err e, g) ∧ ¬ room_for_fragment (k_session key) a n r g) ∨
  (room_for_fragment (k_session key) a n r g ∧
   reserve_fragment (k_session key) key n r g =
     Done (Ok (with_usage (<[k_session key := grown u 0 1 n]> (sessions r)) (local_fragments r + 1)
                 (local_bytes r + n) r),
           set_counters (inflight_datagrams g + 0) (buffered_fragments g + 1) (buffered_bytes g + n) g)).
Proof.
  intros u Hu Ha Hn. unfold reserve_fragment, room_for_fragment. rewrite Ha. cbn [expect mbind exec_bind].
  destruct (Z.leb_spec (max_fragments_per_datagram (config r)) (map_len (fragments a))); [left; eexists; split; [done|lia]|].
  pose proof (uo_config r g Hu) as Hcfg. destruct (max_fragments_127 _ Hcfg) as [H127 H65].
  pose proof Hcfg as (_ & _ & _ & _ & _ & Hc1 & Hc2 & Hc3).
  pose proof (uo_assemblies r g Hu) as HF. pose proof (HF _ _ Ha) as Hok.
  destruct (Z.ltb_spec (max_bytes_per_datagram (config r)) (saturating_add USIZE_MAX (bytes a) n)) as [Hdb|Hdb];
    unfold saturating_add in Hdb; [left; eexists; split; [done|lia]|].
  rewrite (default_usage r g) by done. fold u.
  destruct (Z.leb_spec (max_fragments_per_session (config r)) (u_fragments u)); [left; eexists; split; [done|lia]|].
  destruct (Z.ltb_spec (max_bytes_per_session (config r)) (saturating_add USIZE_MAX (u_bytes u) n)) as [Hsb|Hsb];
    unfold saturating_add in Hsb; [left; eexists; split; [done|lia]|].
  rewrite try_reserve_fragment_result by apply Hu.
  destruct (Z.leb_spec (buffered_fragments g + 1) (max_fragments g)); [|left; eexists; split; [done|lia]].
  destruct (Z.leb_spec (buffered_bytes g + n) (max_bytes g)); [|left; eexists; split; [done|lia]].
  right. rewrite (uo_sessions r g Hu), decide_False by by eapply session_of_assembly.
  cbn [expect mbind exec_bind]. fold u. pose proof (uo_local r g Hu) as [L1 L2].
  pose proof (uo_covered r g Hu) as (_ & C2 & C3). pose proof (uo_budget r g Hu) as (_ & _ & B3 & B4 & B5 & B6).
  pose proof (own_nonneg _ _ HF) as (_ & O2 & O3). pose proof (session_bytes_le (k_session key) _ _ HF) as Hsle.
  fold u (own_bytes r) in Hsle, O3. fold (own_fragments r) in O2. split; [lia|].
  pose proof (usage_nonneg _ (k_session key) _ HF) as (_ & Nf & Nb). fold u in Nf, Nb.
  rewrite !saturating_add_small by lia. unfold grown. by rewrite !Z.add_0_r.
Qed.

Lemma reserve_fragment_spec key n r g a :
  usage_ok r g → assemblies r !! key = Some a → 0 ≤ n →
  (∃ e, reserve_fragment (k_session key) key n r g = Done (Err e, g) ∧
     ¬ room_for_fragment (k_session key) a n r g) ∨
  (∃ r1 g1, reserve_fragment (k_session key) key n r g = Done (Ok r1, g1) ∧
     map_len (fragments a) < max_fragments_per_datagram (config r) ∧
     bytes a + n ≤ max_bytes_per_datagram (config r) ∧
     assemblies r1 = assemblies r ∧ config r1 = config r ∧
     ∀ a', assembly_ok (config r) key a' → bytes a' = bytes a + n →
       map_len (fragments a') = map_len (fragments a) + 1 →
       let r' := with_assemblies (<[key := a']> (assemblies r1)) r1 in
       usage_ok r' g1 ∧ others r' g1 = others r g ∧ limits g1 = limits g).
Proof.
  intros Hu Ha Hn. destruct (reserve_fragment_result key n r g a Hu Ha Hn) as [?|[Hroom ->]]; [by left|right].
  destruct Hroom as (R1 & R2 & R3 & R4 & R5 & R6).
  do 2 eexists. split; [reflexivity|]. split_and!; [done|done|done|done|]. intros a' Hok Hb Hl.
  pose proof (uo_budget r g Hu) as (B1 & _). pose proof (uo_session_limits r g Hu (k_session key)) as (Ld & _ & _).
  pose proof (session_of_assembly key a r Ha) as Hnz.
  apply (usage_ok_grow key a' 0 1 n r g); [done|done|by eapply growth_fragment|lia..].
Qed.

(** The lookups of [join_payload] succeed on a contiguous assembly. *)
Lemma join_payload_total fs l :
  Forall (λ q, is_Some (fs !! q)) l → join_payload fs l = Done (concat ((λ q, default [] (fs !! q)) <$> l)).
Proof.
  induction 1 as [|q l [p Hp] _ IH]; [done|]. cbn [join_payload]. rewrite Hp, IH.
  cbn [expect mbind exec_bind fmap list_fmap concat]. by rewrite Hp.
Qed.

Definition assembled (a : Assembly) : list Z :=
  concat ((λ q, default [] (fragments a !! q)) <$> seqZ 1 (highest_contiguous a)).

Definition finished (a : Assembly) : bool :=
  match final_sequence a with Some q => highest_contiguous a =? q | None => false end.

(** [push_existing] keeps the invariant; on the last fragment it returns the
    payloads in sequence order and releases the assembly. *)
Lemma push_existing_spec key created f now r g a :
  reassembler_ok r g → assemblies r !! key = Some a →
  1 ≤ sequence f ≤ max_fragments_per_datagram (config r) →
  ∃ res r' g', push_existing (k_session key) key created f now r g = Done (res, r', g') ∧
    reassembler_ok r' g' ∧ config r' = config r ∧ others r' g' = others r g ∧ limits g' = limits g ∧
    match res with
    | Ok (Complete d b) =>
        b = true ∧ finished (store f now a) = true ∧ assemblies r' = delete key (assemblies r) ∧
        d = {| dg_target := k_target key; dg_port := k_port key; dg_payload := assembled (store f now a) |}
    | Ok Pending => finished (store f now a) = false ∧ assemblies r' = <[key := store f now a]> (assemblies r)
    | Ok Duplicate => check_conflict (config r) a f ≠ Proceed ∧ r' = r
    | Err _ => ¬ (check_conflict (config r) a f = Proceed ∧
                  room_for_fragment (k_session key) a (len (fr_payload f)) r g)
    end.
Proof.
  intros [Hu Hi] Ha Hseq. unfold push_existing. rewrite Ha. cbn [expect mbind exec_bind].
  assert (∀ e : Socks5FragmentError, ∃ r' g', (let '(_, r, g) := remove_assembly key r g in Done (Err e, r, g)) =
    Done (Err (A := Socks5FragmentOutcome) e, r', g') ∧
    reassembler_ok r' g' ∧ config r' = config r ∧ others r' g' = others r g ∧ limits g' = limits g) as Hremove.
  { intros e. destruct (remove_assembly_spec key r g Hu) as (r' & g' & -> & Hu' & Hcf & Hm & Ho & Hl).
    exists r', g'. split_and!; try done. split; [done|]. rewrite Hm. by apply map_Forall_delete. }
  destruct (check_conflict (config r) a f) as [e|res|] eqn:Hcheck.
  - destruct (Hremove e) as (r' & g' & -> & ? & ? & ? & ?). do 3 eexists. split_and!; [done..|]. by intros [? _].
  - exists res, r, g. split_and!; [done|by split|done..|].
    unfold check_conflict in Hcheck. repeat case_match; simplify_eq; (split; done) || (by intros [? _]).
  - destruct (check_conflict_Proceed _ _ _ Hcheck) as [Hnone _].
    destruct (reserve_fragment_spec key (len (fr_payload f)) r g a Hu Ha (len_nonneg _))
      as [(e & -> & Hno)|(r1 & g1 & -> & Hlt & Hle & Hm1 & Hcf1 & Hstore)]; cbn [mbind exec_bind].
    { destruct created.
      - destruct (Hremove e) as (r' & g' & -> & ? & ? & ? & ?). do 3 eexists. split_and!; [done..|]. by intros [_ ?].
      - exists (Err e), r, g. split_and!; [done|by split|done..|]. by intros [_ ?]. }
    rewrite Hm1, Ha. cbn [expect mbind exec_bind].
    pose proof (uo_config r g Hu) as Hcfg. pose proof (uo_assemblies r g Hu _ _ Ha) as Hok.
    destruct (store_ok (config r) key a f now Hcfg Hok Hnone Hseq Hlt Hle) as (Hok' & Hb' & Hl' & _).
    destruct (Hstore _ Hok' Hb' Hl') as (Hu2 & Ho2 & Hlim2). rewrite Hm1 in Hu2, Ho2.
    set (a' := store f now a) in *. set (r2 := with_assemblies (<[key := a']> (assemblies r)) r1) in *.
    fold (finished a'). destruct (finished a') eqn:Hcomplete; cbn [negb].
    + pose proof Hcomplete as Hfin. unfold finished in Hfin.
      destruct (final_sequence a') as [q|] eqn:Hq; [|done]. bool_prop. subst q.
      destruct (remove_assembly_spec key r2 g1 Hu2) as (r3 & g3 & -> & Hu3 & Hcf3 & Hm3 & Ho3 & Hl3).
      assert (assemblies r2 !! key = Some a') as -> by apply lookup_insert_eq.
      cbn [expect mbind exec_bind]. rewrite Hq. cbn [expect mbind exec_bind].
      destruct Hok' as [[Ht Hp] _ _ _ _ (Hc0 & Hall & _) _].
      rewrite join_payload_total.
      2:{ apply Forall_forall. intros q Hin. apply elem_of_seqZ in Hin. apply Hall. lia. }
      cbn [mbind exec_bind]. exists (Ok (Complete {| dg_target := target a'; dg_port := port a'; dg_payload := assembled a' |} true)), r3, g3.
      assert (assemblies r3 = delete key (assemblies r)) as Hm3' by (rewrite Hm3; apply delete_insert_eq).
      split_and!; [done| |etransitivity; [exact Hcf3|exact Hcf1]|congruence|congruence|done|done|done|].
      * split; [done|]. rewrite Hm3'. by apply map_Forall_delete.
      * f_equal; [exact Ht|exact Hp].
    + exists (Ok Pending), r2, g1. split_and!; [done| |done..].
      split; [done|]. simpl. apply map_Forall_insert_2; [|done]. unfold unfinished. intros Hfin.
      unfold finished in Hcomplete. rewrite Hfin in Hcomplete. by rewrite Z.eqb_refl in Hcomplete.
Qed.

(** ** Operations keep the invariant and conserve the shared budget *)

Definition kept r g r' g' : Prop :=
  reassembler_ok r' g' ∧ config r' = config r ∧ others r' g' = others r g ∧ limits g' = limits g.

Lemma fragment_push_spec session f now r g :
  reassembler_ok r g → 0 ≤ sequence f →
  ∃ res r' g', push session f now r g = Done (res, r', g') ∧ kept r g r' g'.
Proof.
  intros Hr Hseq. unfold push. destruct (Z.eqb_spec (sequence f) 0); [by do 3 eexists|].
  destruct (Z.ltb_spec (max_fragments_per_datagram (config r)) (sequence f)); [by do 3 eexists|].
  set (key := {| k_session := session; k_target := fr_target f; k_port := fr_port f |}).
  case_bool_decide as Hkey.
  - destruct Hkey as [a Ha].
    destruct (push_existing_spec key false f now r g a Hr Ha) as (res & r' & g' & Hrun & ? & ? & ? & ? & _); [lia|].
    exists res, r', g'. by split; [exact Hrun|].
  - apply eq_None_not_Some in Hkey. destruct (negb (sequence f =? 1)); [by do 3 eexists|].
    destruct (socks5_udp_envelope_header_len (fr_target f)) as [envelope|] eqn:He; [|by do 3 eexists].
    apply header_len_nonneg in He.
    destruct (reserve_new_assembly_spec session f envelope now r g Hr He Hkey)
      as [(e & -> & _)|(r1 & g1 & -> & Hm & Hcf & Hr1 & Ho & Hl)]; [by do 3 eexists|].
    fold key in Hr1, Ho. fold (fresh_assembly f envelope now).
    destruct (push_existing_spec key true f now _ g1 (fresh_assembly f envelope now) Hr1)
      as (res & r' & g' & Hrun & ? & ? & ? & ? & _); [apply lookup_insert_eq|simpl; rewrite Hcf; lia|].
    exists res, r', g'. split; [exact Hrun|]. simpl in *. split_and!; [done|congruence..].
Qed.

Lemma remove_assemblies_spec keys x r g :
  reassembler_ok r g → x_datagrams x + own_datagrams r ≤ USIZE_MAX →
  x_fragments x + own_fragments r ≤ USIZE_MAX → x_bytes x + own_bytes r ≤ USIZE_MAX →
  ∃ x' r' g', remove_assemblies keys x r g = (x', r', g') ∧ kept r g r' g' ∧
    assemblies r' = filter (λ ka, ka.1 ∉ keys) (assemblies r) ∧
    x_datagrams x' = x_datagrams x + (own_datagrams r - own_datagrams r') ∧
    x_fragments x' = x_fragments x + (own_fragments r - own_fragments r') ∧
    x_bytes x' = x_bytes x + (own_bytes r - own_bytes r').
Proof.
  revert x r g. induction keys as [|k keys IH]; intros x r g Hr Hx1 Hx2 Hx3; cbn [remove_assemblies].
  { exists x, r, g. split_and!; [done|by split_and!| |lia..]. symmetry. apply map_filter_id. intros; set_solver. }
  destruct Hr as [Hu Hi].
  destruct (remove_assembly_spec k r g Hu) as (r1 & g1 & -> & Hu1 & Hcf & Hm & Ho & Hl).
  assert (reassembler_ok r1 g1) as Hr1 by (split; [done|]; rewrite Hm; by apply map_Forall_delete).
  assert (filter (λ ka, ka.1 ∉ k :: keys) (assemblies r) = filter (λ ka, ka.1 ∉ keys) (assemblies r1)) as ->.
  { rewrite Hm. apply map_eq. intros j. apply option_eq. intros b.
    rewrite !map_lookup_filter_Some, lookup_delete_Some. simpl. rewrite not_elem_of_cons. naive_solver. }
  unfold own_datagrams, own_fragments, own_bytes in *.
  pose proof (own_nonneg _ _ (uo_assemblies r1 g1 Hu1)) as (N1 & N2 & N3).
  destruct (assemblies r !! k) as [a|] eqn:Ha.
  - pose proof (map_len_delete_key _ _ _ Ha) as E1. rewrite <- Hm in E1.
    pose proof (map_sum_delete (λ _ a, map_len (fragments a)) _ _ _ Ha) as E2.
    pose proof (map_sum_delete (λ _ a, bytes a) _ _ _ Ha) as E3. rewrite <- Hm in E2, E3. cbn beta in E2, E3.
    rewrite !saturating_add_small by lia.
    edestruct IH as (x' & r' & g' & Hrun & (Hk1 & Hk2 & Hk3 & Hk4) & Hm' & X1 & X2 & X3); [exact Hr1|..].
    4:{ exists x', r', g'. split_and!; [exact Hrun|split_and!; congruence|done|cbn in *; lia..]. }
    all: cbn; lia.
  - rewrite delete_id in Hm by done.
    destruct (IH x r1 g1 Hr1) as (x' & r' & g' & Hrun & (Hk1 & Hk2 & Hk3 & Hk4) & Hm' & X1 & X2 & X3); [rewrite Hm; done..|].
    rewrite Hm in *. exists x', r', g'. split_and!; [done|split_and!; congruence|done..].
Qed.

Lemma own_fits r g : reassembler_ok r g →
  own_datagrams r ≤ USIZE_MAX ∧ own_fragments r ≤ USIZE_MAX ∧ own_bytes r ≤ USIZE_MAX.
Proof.
  intros [Hu _]. pose proof (uo_covered r g Hu). pose proof (uo_budget r g Hu) as (?&?&?&?&?&?). lia.
Qed.

Lemma fragment_expire_spec now r g :
  reassembler_ok r g →
  ∃ x r' g', expire now r g = (x, r', g') ∧ kept r g r' g' ∧
    assemblies r' = filter (λ ka, idle (config r) now ka.2 = false) (assemblies r) ∧
    x_datagrams x = own_datagrams r - own_datagrams r' ∧
    x_fragments x = own_fragments r - own_fragments r' ∧ x_bytes x = own_bytes r - own_bytes r'.
Proof.
  intros Hr. destruct (own_fits r g Hr) as (? & ? & ?). unfold expire.
  edestruct (remove_assemblies_spec (filter (λ ka, idle (config r) now ka.2 = true) (map_to_list (assemblies r))).*1
    no_release r g Hr) as (x & r' & g' & -> & Hk & Hm & X1 & X2 & X3); [simpl; lia..|].
  exists x, r', g'. simpl in X1, X2, X3. split_and!; [done|done| |lia..].
  rewrite Hm. apply map_filter_ext. intros k a Hka. cbn [fst snd]. rewrite list_elem_of_fmap. split.
  - intros Hnot. apply not_true_is_false. intros Hidle. apply Hnot. exists (k, a). split; [done|].
    apply list_elem_of_filter. split; [done|]. by apply elem_of_map_to_list.
  - intros Hidle ([k' a'] & Hk' & Hin). apply list_elem_of_filter in Hin as [Hin1 Hin2].
    apply elem_of_map_to_list in Hin2. simpl in *. congruence.
Qed.

Lemma fragment_discard_session_spec x r g :
  reassembler_ok r g →
  ∃ e r' g', discard_session x r g = (e, r', g') ∧ kept r g r' g' ∧
    assemblies r' = filter (λ ka, k_session ka.1 ≠ x) (assemblies r) ∧
    x_datagrams e = own_datagrams r - own_datagrams r' ∧
    x_fragments e = own_fragments r - own_fragments r' ∧ x_bytes e = own_bytes r - own_bytes r'.
Proof.
  intros Hr. destruct (own_fits r g Hr) as (? & ? & ?). unfold discard_session.
  edestruct (remove_assemblies_spec (filter (λ k, k_session k = x) (map_to_list (assemblies r)).*1)
    no_release r g Hr) as (e & r' & g' & -> & Hk & Hm & X1 & X2 & X3); [simpl; lia..|].
  exists e, r', g'. simpl in X1, X2, X3. split_and!; [done|done| |lia..].
  rewrite Hm. apply map_filter_ext. intros k a Hka. cbn [fst].
  rewrite list_elem_of_filter, list_elem_of_fmap. split.
  - intros Hnot Hx. apply Hnot. split; [done|]. exists (k, a). split; [done|]. by apply elem_of_map_to_list.
  - by intros Hne [Hx _].
Qed.

(** Dropping a reassembler gives back everything it held. *)
Lemma drop_list_exact c l g0 d f b :
  Forall (λ a, ∃ k, assembly_ok c k a) l →
  len l ≤ d → foldr (λ a acc, map_len (fragments a) + acc) 0 l ≤ f →
  foldr (λ a acc, bytes a + acc) 0 l ≤ b →
  fold_left (λ g a, release_assembly a g) l (set_counters d f b g0) =
    set_counters (d - len l) (f - foldr (λ a acc, map_len (fragments a) + acc) 0 l)
      (b - foldr (λ a acc, bytes a + acc) 0 l) g0.
Proof.
  intros HF. revert d f b. induction HF as [|a l [k Ha] HF IH]; intros d f b Hd Hf Hb.
  - simpl. by rewrite len_nil, !Z.sub_0_r.
  - rewrite len_cons in *. cbn [foldr] in Hf, Hb. cbn [fold_left].
    pose proof (len_nonneg l). pose proof (assembly_bytes_nonneg _ _ _ Ha).
    assert (0 ≤ foldr (λ a acc, map_len (fragments a) + acc) 0 l ∧ 0 ≤ foldr (λ a acc, bytes a + acc) 0 l) as [? ?].
    { clear -HF. induction HF as [|a l [k Ha] HF IH]; cbn [foldr]; [lia|].
      pose proof (assembly_bytes_nonneg _ _ _ Ha). unfold map_len in *. lia. }
    assert (0 ≤ map_len (fragments a)) by (unfold map_len; lia).
    rewrite (release_assembly_exact _ _ _ _ Ha) by (cbn; lia).
    cbn [set_counters inflight_datagrams buffered_fragments buffered_bytes foldr].
    etransitivity; [apply (IH (d - 1) (f - map_len (fragments a)) (b - bytes a)); lia|]. f_equal; lia.
Qed.

Lemma drop_reassembler_spec r g :
  reassembler_ok r g →
  let g' := drop_reassembler r g in
  limits g' = limits g ∧ inflight_datagrams g' = inflight_datagrams g - own_datagrams r ∧
  buffered_fragments g' = buffered_fragments g - own_fragments r ∧
  buffered_bytes g' = buffered_bytes g - own_bytes r.
Proof.
  intros [Hu _]. pose proof (uo_covered r g Hu) as (C1 & C2 & C3).
  unfold drop_reassembler, own_datagrams, own_fragments, own_bytes in *.
  assert (g = set_counters (inflight_datagrams g) (buffered_fragments g) (buffered_bytes g) g) as Hg by (by destruct g).
  rewrite Hg at 1 3 5 7. cbv zeta.
  assert (len (map_to_list (assemblies r)).*2 = map_len (assemblies r)) as Hlen.
  { unfold len, map_len. by rewrite length_fmap, length_map_to_list. }
  rewrite (drop_list_exact (config r)).
  - rewrite (map_sum_values (λ a, map_len (fragments a))), (map_sum_values bytes), Hlen. done.
  - apply Forall_forall. intros a Hin. apply list_elem_of_fmap in Hin as ([k b] & -> & Hin).
    apply elem_of_map_to_list in Hin. exists k. by apply (uo_assemblies r g Hu).
  - lia.
  - rewrite (map_sum_values (λ a, map_len (fragments a))). done.
  - rewrite (map_sum_values bytes). done.
Qed.

(** ** Reassemblers that share one budget *)

Inductive pool_op :=
  | PoolNew (c : Socks5FragmentConfig)
  | PoolPush (i : nat) (session : K) (f : Socks5UdpFragment) (now : Z)
  | PoolExpire (i : nat) (now : Z)
  | PoolDiscard (i : nat) (session : K)
  | PoolDrop (i : nat).

(** One operation of one of the live reassemblers; an index that names none
    does nothing. *)
Definition pool_step (op : pool_op) (rs : list Socks5FragmentReassembler) (g : Socks5FragmentGlobalBudget)
    : exec (list Socks5FragmentReassembler * Socks5FragmentGlobalBudget) :=
  match op with
  | PoolNew c =>
      match new_with_global_budget c g with Ok r => Done (rs ++ [r], g) | Err _ => Done (rs, g) end
  | PoolPush i session f now =>
      match rs !! i with
      | None => Done (rs, g)
      | Some r => '(_, r, g) ← push session f now r g; Done (<[i := r]> rs, g)
      end
  | PoolExpire i now =>
      match rs !! i with
      | None => Done (rs, g)
      | Some r => let '(_, r, g) := expire now r g in Done (<[i := r]> rs, g)
      end
  | PoolDiscard i session =>
      match rs !! i with
      | None => Done (rs, g)
      | Some r => let '(_, r, g) := discard_session session r g in Done (<[i := r]> rs, g)
      end
  | PoolDrop i =>
      match rs !! i with
      | None => Done (rs, g)
      | Some r => Done (delete i rs, drop_reassembler r g)
      end
  end.

Fixpoint pool_run (ops : list pool_op) (rs : list Socks5FragmentReassembler) (g : Socks5FragmentGlobalBudget)
    : exec (list Socks5FragmentReassembler * Socks5FragmentGlobalBudget) :=
  match ops with [] => Done (rs, g) | op :: ops => '(rs, g) ← pool_step op rs g; pool_run ops rs g end.

Definition config_typed (c : Socks5FragmentConfig) : Prop :=
  0 ≤ max_reorder_gap c ≤ U8_MAX ∧ 0 ≤ max_fragments_per_datagram c ∧ 0 ≤ max_bytes_per_datagram c ∧
  0 ≤ max_inflight_per_session c ∧ max_inflight_per_session c ≤ USIZE_MAX ∧
  max_fragments_per_session c ≤ USIZE_MAX ∧ max_bytes_per_session c ≤ USIZE_MAX.

Definition pool_op_typed (op : pool_op) : Prop :=
  match op with
  | PoolNew c => config_typed c
  | PoolPush _ _ f _ => 0 ≤ sequence f
  | _ => True
  end.

Definition list_sum_of (w : Socks5FragmentReassembler → Z) (rs : list Socks5FragmentReassembler) : Z :=
  foldr (λ r acc, w r + acc) 0 rs.

Record pool_ok (rs : list Socks5FragmentReassembler) g : Prop := {
  po_live : Forall (λ r, reassembler_ok r g) rs;
  po_budget : budget_ok g;
  po_datagrams : inflight_datagrams g = list_sum_of own_datagrams rs;
  po_fragments : buffered_fragments g = list_sum_of own_fragments rs;
  po_bytes : buffered_bytes g = list_sum_of own_bytes rs;
}.

Lemma list_sum_of_app w l k : list_sum_of w (l ++ k) = list_sum_of w l + list_sum_of w k.
Proof. unfold list_sum_of. induction l as [|r l IH]; cbn [foldr app]; [done|]. rewrite IH. lia. Qed.

Lemma list_sum_of_cons w r l : list_sum_of w (r :: l) = w r + list_sum_of w l.
Proof. done. Qed.

Lemma own_all_nonneg r g : reassembler_ok r g → 0 ≤ own_datagrams r ∧ 0 ≤ own_fragments r ∧ 0 ≤ own_bytes r.
Proof. intros [Hu _]. apply (own_nonneg (config r)), Hu. Qed.

Lemma list_sum_of_nonneg g rs : Forall (λ r, reassembler_ok r g) rs →
  0 ≤ list_sum_of own_datagrams rs ∧ 0 ≤ list_sum_of own_fragments rs ∧ 0 ≤ list_sum_of own_bytes rs.
Proof.
  induction 1 as [|r rs Hr HF IH]; [done|]. destruct (own_all_nonneg r g Hr) as (? & ? & ?).
  unfold list_sum_of in *. cbn [foldr]. lia.
Qed.

Lemma reassembler_ok_change r g g' :
  reassembler_ok r g → budget_ok g' → own_datagrams r ≤ inflight_datagrams g' →
  own_fragments r ≤ buffered_fragments g' → own_bytes r ≤ buffered_bytes g' → reassembler_ok r g'.
Proof. intros [[] ?] ????. split; [|done]. by constructor. Qed.

(** Members of a pool whose total is the budget are each covered by it. *)
Lemma pool_covered g g' rs :
  Forall (λ r, reassembler_ok r g) rs → budget_ok g' →
  list_sum_of own_datagrams rs ≤ inflight_datagrams g' →
  list_sum_of own_fragments rs ≤ buffered_fragments g' →
  list_sum_of own_bytes rs ≤ buffered_bytes g' →
  Forall (λ r, reassembler_ok r g') rs.
Proof.
  intros HF Hb. induction HF as [|r rs Hr HF IH]; intros H1 H2 H3; [done|].
  destruct (list_sum_of_nonneg g rs HF) as (? & ? & ?). destruct (own_all_nonneg r g Hr) as (? & ? & ?).
  unfold list_sum_of in *. cbn [foldr] in *. constructor; [|apply IH; lia].
  eapply reassembler_ok_change; [done|done|lia..].
Qed.

Lemma pool_replace rs g i r r' g' :
  pool_ok rs g → rs !! i = Some r → kept r g r' g' → pool_ok (<[i := r']> rs) g'.
Proof.
  intros [HF Hb H1 H2 H3] Hi (Hr' & _ & Ho & Hl).
  destruct (list_elem_of_split_length _ _ _ Hi) as (l1 & l2 & -> & ->).
  rewrite insert_app_r_alt, Nat.sub_diag by done. cbn [insert list_insert].
  rewrite Forall_app, Forall_cons in HF. destruct HF as (F1 & _ & F2).
  pose proof (uo_budget r' g' (ro_usage r' g' Hr')) as Hb'.
  injection Ho as O1 O2 O3. rewrite list_sum_of_app, list_sum_of_cons in H1, H2, H3.
  destruct (list_sum_of_nonneg g l1 F1) as (? & ? & ?). destruct (list_sum_of_nonneg g l2 F2) as (? & ? & ?).
  destruct (own_all_nonneg r' g' Hr') as (? & ? & ?).
  constructor; [|done|rewrite list_sum_of_app, list_sum_of_cons; lia..].
  apply Forall_app. split; [|constructor; [done|]]; apply (pool_covered g); (done || lia).
Qed.

Lemma new_ok c g r : config_typed c → budget_ok g → new_with_global_budget c g = Ok r →
  reassembler_ok r g ∧ own_datagrams r = 0 ∧ own_fragments r = 0 ∧ own_bytes r = 0.
Proof.
  intros Hc Hb. unfold new_with_global_budget. destruct (validate_config c) as [[]|] eqn:Hv; [|done].
  cbn [mbind result_bind]. destruct (supports g c); [|done]. intros [= <-].
  assert (∀ x, session_usage x ∅ = no_usage) as Hx by done.
  split; [|done]. split; [|apply map_Forall_empty].
  destruct Hb as (? & ? & ? & ? & ? & ?).
  assert (0 ≤ max_fragments_per_session c ∧ 0 ≤ max_bytes_per_session c) as [? ?].
  { unfold validate_config in Hv. destruct (timeout c =? 0); [done|]. destruct (timeout c <? _); [done|].
    destruct (_ || _) eqn:E in Hv; [done|]. bool_prop. unfold config_typed in Hc. lia. }
  constructor; cbn [config assemblies sessions local_fragments local_bytes].
  - split; [done|exact Hc].
  - done.
  - apply map_Forall_empty.
  - intros x. rewrite Hx. done.
  - intros x. rewrite Hx. cbn. unfold config_typed in Hc. lia.
  - done.
  - unfold own_datagrams, own_fragments, own_bytes. cbn [assemblies]. rewrite !map_sum_empty.
    unfold map_len. rewrite map_size_empty. lia.
Qed.

Lemma pool_step_ok op rs g :
  pool_ok rs g → pool_op_typed op →
  ∃ rs' g', pool_step op rs g = Done (rs', g') ∧ pool_ok rs' g' ∧ limits g' = limits g.
Proof.
  intros Hp Hop. destruct op as [c|i session f now|i now|i session|i]; cbn [pool_step].
  - destruct (new_with_global_budget c g) as [r|] eqn:Hnew; [|by do 2 eexists].
    destruct (new_ok c g r Hop (po_budget _ _ Hp) Hnew) as (Hr & E1 & E2 & E3).
    do 2 eexists. split_and!; [done| |done]. destruct Hp as [HF Hb H1 H2 H3].
    constructor; [by apply Forall_app; split; [|constructor]|done|rewrite list_sum_of_app, list_sum_of_cons; unfold list_sum_of in *; simpl; lia..].
  - destruct (rs !! i) as [r|] eqn:Hi; [|by do 2 eexists].
    pose proof (Forall_lookup_1 _ _ _ _ (po_live _ _ Hp) Hi) as Hr.
    destruct (fragment_push_spec session f now r g Hr Hop) as (res & r' & g' & -> & Hk). cbn [mbind exec_bind].
    do 2 eexists. split_and!; [done|by eapply pool_replace|apply Hk].
  - destruct (rs !! i) as [r|] eqn:Hi; [|by do 2 eexists].
    pose proof (Forall_lookup_1 _ _ _ _ (po_live _ _ Hp) Hi) as Hr.
    destruct (fragment_expire_spec now r g Hr) as (x & r' & g' & -> & Hk & _).
    do 2 eexists. split_and!; [done|by eapply pool_replace|apply Hk].
  - destruct (rs !! i) as [r|] eqn:Hi; [|by do 2 eexists].
    pose proof (Forall_lookup_1 _ _ _ _ (po_live _ _ Hp) Hi) as Hr.
    destruct (fragment_discard_session_spec session r g Hr) as (x & r' & g' & -> & Hk & _).
    do 2 eexists. split_and!; [done|by eapply pool_replace|apply Hk].
  - destruct (rs !! i) as [r|] eqn:Hi; [|by do 2 eexists].
    pose proof (Forall_lookup_1 _ _ _ _ (po_live _ _ Hp) Hi) as Hr.
    destruct (drop_reassembler_spec r g Hr) as (Hl & D1 & D2 & D3).
    do 2 eexists. split_and!; [done| |done]. set (g' := drop_reassembler r g) in *.
    destruct Hp as [HF Hb H1 H2 H3]. injection Hl as L1 L2 L3.
    destruct (list_elem_of_split_length _ _ _ Hi) as (l1 & l2 & -> & ->). rewrite delete_middle.
    rewrite list_sum_of_app, list_sum_of_cons in H1, H2, H3.
    rewrite Forall_app, Forall_cons in HF. destruct HF as (F1 & _ & F2).
    destruct (list_sum_of_nonneg g l1 F1) as (? & ? & ?). destruct (list_sum_of_nonneg g l2 F2) as (? & ? & ?).
    destruct (own_all_nonneg r g Hr) as (? & ? & ?). destruct Hb as (? & ? & ? & ? & ? & ?).
    assert (budget_ok g') as Hb' by (unfold budget_ok; lia).
    constructor; [|done|rewrite list_sum_of_app; lia..].
    apply Forall_app. split; apply (pool_covered g); (done || lia).
Qed.

Lemma pool_run_ok ops rs g :
  pool_ok rs g → Forall pool_op_typed ops →
  ∃ rs' g', pool_run ops rs g = Done (rs', g') ∧ pool_ok rs' g' ∧ limits g' = limits g.
Proof.
  intros Hp HF. revert rs g Hp. induction HF as [|op ops Hop HF IH]; intros rs g Hp; cbn [pool_run]; [by do 2 eexists|].
  destruct (pool_step_ok op rs g Hp Hop) as (rs1 & g1 & -> & Hp1 & Hl1). cbn [mbind exec_bind].
  destruct (IH rs1 g1 Hp1) as (rs2 & g2 & -> & Hp2 & Hl2). do 2 eexists. split_and!; [done|done|congruence].
Qed.

(** ** A datagram whose fragments arrive in sequence *)

Fixpoint push_all (session : K) (evs : list (Socks5UdpFragment * Z)) r g
    : exec (list (result Socks5FragmentError Socks5FragmentOutcome) * Socks5FragmentReassembler *
            Socks5FragmentGlobalBudget) :=
  match evs with
  | [] => Done ([], r, g)
  | (f, now) :: evs =>
      '(res, r, g) ← push session f now r g;
      '(rest, r, g) ← push_all session evs r g;
      Done (res :: rest, r, g)
  end.

(** Fragments [i+1, i+2, ...] of a datagram, the last one flagged final. *)
Fixpoint fragments_from (t : Socks5UdpTarget) (p i : Z) (ps : list (list Z)) : list Socks5UdpFragment :=
  match ps with
  | [] => []
  | d :: ps =>
      {| sequence := i + 1; final_fragment := bool_decide (ps = []); fr_target := t; fr_port := p;
         fr_payload := d |} :: fragments_from t p (i + 1) ps
  end.

(** The assembly after the payloads [ps] arrived in sequence. *)
Definition in_order (ps : list (list Z)) (a : Assembly) : Prop :=
  highest_contiguous a = len ps ∧ highest_received a = len ps ∧ map_len (fragments a) = len ps ∧
  (∀ q, fragments a !! q = if decide (1 ≤ q) then ps !! Z.to_nat (q - 1) else None).

Lemma in_order_lookup ps a q : in_order ps a → is_Some (fragments a !! q) ↔ 1 ≤ q ≤ len ps.
Proof.
  intros (_ & _ & _ & Hf). rewrite Hf. unfold len. case_decide; rewrite ?lookup_lt_is_Some.
  - lia.
  - split; [by intros [? ?]|lia].
Qed.

Lemma in_order_store c k ps a f now :
  config_ok c → assembly_ok c k a → in_order ps a → sequence f = len ps + 1 →
  len ps + 1 ≤ max_fragments_per_datagram c → bytes a + len (fr_payload f) ≤ max_bytes_per_datagram c →
  in_order (ps ++ [fr_payload f]) (store f now a).
Proof.
  intros Hc Ha Hin Hseq Hmax Hbytes. pose proof (in_order_lookup ps a (len ps + 1) Hin) as Hnext.
  pose proof (len_nonneg ps).
  assert (fragments a !! sequence f = None) as Hnone.
  { rewrite Hseq. apply eq_None_not_Some. rewrite Hnext. lia. }
  pose proof Hin as (Hhc & Hhr & Hlen & Hf).
  destruct (store_ok c k a f now Hc Ha Hnone) as (Hok & _ & Hl & Hmono); [lia|lia|done|].
  assert (∀ q, fragments (store f now a) !! q =
    if decide (1 ≤ q) then (ps ++ [fr_payload f]) !! Z.to_nat (q - 1) else None) as Hf'.
  { intros q. cbn [store fragments]. destruct (decide (q = sequence f)) as [->|Hne].
    - rewrite lookup_insert_eq, decide_True by lia. rewrite Hseq. unfold len.
      replace (Z.to_nat (Z.of_nat (length ps) + 1 - 1)) with (length ps) by lia.
      by rewrite list_lookup_middle.
    - rewrite lookup_insert_ne by done. rewrite Hf. case_decide; [|done]. unfold len in Hseq.
      destruct (decide (Z.to_nat (q - 1) < length ps)%nat); [by rewrite lookup_app_l|].
      rewrite lookup_ge_None_2 by lia. symmetry. apply lookup_ge_None. rewrite length_app. simpl. lia. }
  assert (∀ q, is_Some (fragments (store f now a) !! q) ↔ 1 ≤ q ≤ len ps + 1) as Hpresent.
  { intros q. rewrite Hf'. unfold len. case_decide; rewrite ?lookup_lt_is_Some, ?length_app; simpl.
    - lia.
    - split; [by intros [? ?]|lia]. }
  pose proof (ao_contiguous _ _ _ Hok) as (Hc0 & Hall & Hend).
  split_and!; [| |rewrite Hl, len_app, len_singleton; lia|exact Hf'].
  - rewrite len_app, len_singleton. set (h := highest_contiguous (store f now a)) in *.
    destruct (decide (h = len ps + 1)); [done|]. exfalso.
    destruct (decide (h < len ps + 1)).
    + assert (is_Some (fragments (store f now a) !! (h + 1))) as [? Hx] by (apply Hpresent; lia). congruence.
    + assert (1 ≤ h ≤ len ps + 1) by (apply Hpresent, Hall; lia). lia.
  - cbn [store highest_received]. rewrite len_app, len_singleton. lia.
Qed.

Lemma check_in_order c ps a f :
  in_order ps a → final_sequence a = None → sequence f = len ps + 1 → len ps ≤ 254 → 0 ≤ max_reorder_gap c →
  check_conflict c a f = Proceed.
Proof.
  intros Hin Hfin Hseq H254 Hgap. pose proof Hin as (Hhc & Hhr & _ & _). pose proof (len_nonneg ps).
  unfold check_conflict. rewrite (proj2 (Z.ltb_ge (sequence f) _)) by lia. rewrite andb_false_r.
  assert (fragments a !! sequence f = None) as ->.
  { apply eq_None_not_Some. rewrite (in_order_lookup ps) by done. lia. }
  rewrite Hfin, andb_false_r. rewrite (proj2 (Z.ltb_ge _ _)); [done|]. unfold saturating_add. lia.
Qed.

Lemma assembled_in_order ps a : in_order ps a → assembled a = concat ps.
Proof.
  intros (Hhc & _ & _ & Hf). unfold assembled. rewrite Hhc. f_equal. apply list_eq. intros i.
  rewrite list_lookup_fmap. destruct (ps !! i) as [p|] eqn:Hi.
  - pose proof (lookup_lt_Some _ _ _ Hi). rewrite lookup_seqZ_lt by (unfold len; lia).
    cbn [fmap option_fmap option_map]. rewrite Hf, decide_True by lia.
    replace (Z.to_nat (1 + Z.of_nat i - 1)) with i by lia. by rewrite Hi.
  - apply lookup_ge_None in Hi. rewrite lookup_ge_None_2; [done|]. rewrite length_seqZ. unfold len. lia.
Qed.

(** Every budget has room for [m] more fragments of [n] bytes in all. *)
Definition room_left (x : K) (a : Assembly) (m n : Z) r g : Prop :=
  map_len (fragments a) + m ≤ max_fragments_per_datagram (config r) ∧
  bytes a + n ≤ max_bytes_per_datagram (config r) ∧
  u_fragments (session_usage x (assemblies r)) + m ≤ max_fragments_per_session (config r) ∧
  u_bytes (session_usage x (assemblies r)) + n ≤ max_bytes_per_session (config r) ∧
  buffered_fragments g + m ≤ max_fragments g ∧ buffered_bytes g + n ≤ max_bytes g.

Lemma push_existing_in_order key created now r g a ps d (rest : list (list Z)) :
  reassembler_ok r g → assemblies r !! key = Some a → in_order ps a → final_sequence a = None →
  room_left (k_session key) a (1 + len rest) (len d + len (concat rest)) r g →
  let f := {| sequence := len ps + 1; final_fragment := bool_decide (rest = []);
              fr_target := k_target key; fr_port := k_port key; fr_payload := d |} in
  ∃ res r' g', push_existing (k_session key) key created f now r g = Done (res, r', g') ∧ kept r g r' g' ∧
    if decide (rest = []) then
      assemblies r' = delete key (assemblies r) ∧
      res = Ok (Complete {| dg_target := k_target key; dg_port := k_port key;
                            dg_payload := concat (ps ++ [d]) |} true)
    else
      res = Ok Pending ∧ ∃ a', assemblies r' = <[key := a']> (assemblies r) ∧ in_order (ps ++ [d]) a' ∧
        final_sequence a' = None ∧ room_left (k_session key) a' (len rest) (len (concat rest)) r' g'.
Proof.
  intros Hr Ha Hin Hfin (R1 & R2 & R3 & R4 & R5 & R6) f. pose proof (ro_usage r g Hr) as Hu.
  pose proof (uo_config r g Hu) as Hcfg. destruct (max_fragments_127 _ Hcfg) as [H127 _].
  pose proof Hcfg as (_ & Hgap & _). pose proof (uo_assemblies r g Hu _ _ Ha) as Hok.
  pose proof (len_nonneg ps). pose proof (len_nonneg rest). pose proof (len_nonneg (concat rest)).
  pose proof Hin as (_ & _ & Hlen & _).
  assert (check_conflict (config r) a f = Proceed) as Hproceed by (eapply check_in_order; [done|done|done|lia|lia]).
  destruct (check_conflict_Proceed _ _ _ Hproceed) as [Hnone _].
  destruct (store_ok (config r) key a f now Hcfg Hok Hnone) as (_ & Eb & El & _); [cbn; lia|lia|cbn; lia|].
  pose proof (in_order_store (config r) key ps a f now Hcfg Hok Hin eq_refl ltac:(lia) ltac:(cbn; lia)) as Hin'.
  destruct (push_existing_spec key created f now r g a Hr Ha) as (res & r' & g' & Hrun & Hr' & Hcf & Ho & Hl & Hres);
    [cbn; lia|].
  exists res, r', g'. split_and!; [done|by split_and!|].
  assert (finished (store f now a) = bool_decide (rest = [])) as Hfinished.
  { unfold finished. cbn [store final_sequence final_fragment f].
    destruct Hin' as (Hhc & _). rewrite len_app, len_singleton in Hhc. case_bool_decide; [|by rewrite Hfin].
    rewrite Hhc. cbn. apply Z.eqb_refl. }
  destruct res as [[dg b| |]|e].
  - destruct Hres as (-> & Hf & Hm & ->). rewrite Hfinished in Hf. bool_prop. rewrite decide_True by done.
    split; [done|]. by rewrite (assembled_in_order (ps ++ [d])).
  - destruct Hres as (Hf & Hm). rewrite Hfinished in Hf. bool_prop. rewrite decide_False by done.
    split; [done|]. exists (store f now a). split_and!; [done|exact Hin'| |].
    { cbn [store final_sequence final_fragment f]. by rewrite bool_decide_eq_false_2. }
    injection Ho as O1 O2 O3. injection Hl as L1 L2 L3. unfold own_fragments, own_bytes in *.
    unfold room_left, session_usage in *. cbn [u_fragments u_bytes] in *. rewrite Hcf, Hm in *.
    rewrite !(session_sum_replace _ _ _ _ _ _ Ha), !decide_True by done.
    pose proof (map_sum_replace (λ _ a, map_len (fragments a)) _ _ _ (store f now a) Ha) as E2.
    pose proof (map_sum_replace (λ _ a, bytes a) _ _ _ (store f now a) Ha) as E3. cbn beta in E2, E3.
    cbn [fr_payload f] in Eb. lia.
  - by destruct Hres.
  - exfalso. apply Hres. split; [done|]. unfold room_for_fragment. cbn [fr_payload f]. lia.
Qed.

Lemma push_all_in_order session t p ps rest evs r g a :
  let key := {| k_session := session; k_target := t; k_port := p |} in
  rest ≠ [] → reassembler_ok r g → assemblies r !! key = Some a → in_order ps a → final_sequence a = None →
  room_left session a (len rest) (len (concat rest)) r g →
  evs.*1 = fragments_from t p (len ps) rest →
  ∃ r' g', push_all session evs r g =
      Done (replicate (length rest - 1) (Ok Pending) ++
            [Ok (Complete {| dg_target := t; dg_port := p; dg_payload := concat (ps ++ rest) |} true)], r', g') ∧
    kept r g r' g' ∧ assemblies r' = delete key (assemblies r).
Proof.
  intros key. revert ps evs r g a. induction rest as [|d rest IH]; [done|].
  intros ps evs r g a _ Hr Ha Hin Hfin Hroom Hevs. cbn [fragments_from] in Hevs.
  destruct evs as [|[f now] evs]; [done|]. injection Hevs as Hf Hevs. cbn [fst] in Hf. subst f.
  rewrite len_cons in Hroom. cbn [concat] in Hroom. rewrite len_app in Hroom. pose proof (len_nonneg ps).
  destruct (push_existing_in_order key false now r g a ps d rest Hr Ha Hin Hfin Hroom)
    as (res & r1 & g1 & Hrun & Hk & Hcase).
  cbn [push_all]. set (f := {| sequence := len ps + 1 |}) in *.
  assert (push session f now r g = Done (res, r1, g1)) as ->.
  { unfold push. rewrite (proj2 (Z.eqb_neq _ _)) by (cbn; lia).
    destruct Hroom as (R1 & _). pose proof Hin as (_ & _ & Hlen & _). pose proof (len_nonneg rest).
    rewrite (proj2 (Z.ltb_ge _ _)) by (cbn; lia).
    rewrite bool_decide_eq_true_2 by (by eexists). exact Hrun. }
  cbn [mbind exec_bind]. destruct (decide (rest = [])) as [->|Hne].
  - destruct Hcase as [Hm ->]. destruct evs; [|done]. exists r1, g1. by split_and!.
  - destruct Hcase as (-> & a' & Hm & Hin' & Hfin' & Hroom').
    destruct (IH (ps ++ [d]) evs r1 g1 a') as (r2 & g2 & Hrun2 & Hk2 & Hm2);
      [done|apply Hk|by rewrite Hm, lookup_insert_eq|done|done|done|by rewrite len_app, len_singleton|].
    rewrite Hrun2. cbn [mbind exec_bind]. exists r2, g2.
    destruct rest as [|d' rest]; [done|]. split_and!.
    + rewrite <- (assoc_L (++) ps [d]). cbn [length Nat.sub replicate app]. by rewrite Nat.sub_0_r.
    + destruct Hk as (? & ? & ? & ?), Hk2 as (? & ? & ? & ?). split_and!; [done|congruence..].
    + rewrite Hm2, Hm. apply delete_insert_eq.
Qed.

End reassembler.
Arguments FragmentKey K : clear implicits.
Arguments Socks5FragmentReassembler K {_ _}.

(** ** Properties *)

(** Any number of reassemblers, created, used, expired, torn down and
    dropped in any interleaving over one shared budget, never panic, and the
    budget's three counters are at every point exactly the sum of what the live
    reassemblers hold, within the limits. In particular nothing leaks: when the
    last reassembler is gone every counter is zero. *)
Theorem shared_budget_conserved {K} `{Countable K} (c : Socks5FragmentConfig) (ops : list (pool_op (K := K))) :
  budget_ok (from_config c) → Forall pool_op_typed ops →
  ∃ rs g, pool_run ops [] (from_config c) = Done (rs, g) ∧
    inflight_datagrams g = list_sum_of own_datagrams rs ∧
    buffered_fragments g = list_sum_of own_fragments rs ∧
    buffered_bytes g = list_sum_of own_bytes rs ∧
    inflight_datagrams g ≤ max_inflight_global c ∧ buffered_fragments g ≤ max_fragments_global c ∧
    buffered_bytes g ≤ max_bytes_global c ∧
    (rs = [] → inflight_datagrams g = 0 ∧ buffered_fragments g = 0 ∧ buffered_bytes g = 0).
Proof.
  intros Hb Hops.
  destruct (pool_run_ok ops [] (from_config c)) as (rs & g & Hrun & [HF Hbg H1 H2 H3] & Hl); [by constructor|done|].
  injection Hl as L1 L2 L3. destruct Hbg as (? & ? & ? & ? & ? & ?).
  exists rs, g. split_and!; try done; try lia. intros ->. by rewrite H1, H2, H3.
Qed.

Lemma shared_budget_conserved_witness :
  ∃ rs g, pool_run [PoolNew default_config; PoolNew default_config;
      PoolPush 0 7%nat {| sequence := 1; final_fragment := false; fr_target := Ip (V4 5); fr_port := 53; fr_payload := [1; 2] |} 0;
      PoolPush 1 8%nat {| sequence := 1; final_fragment := false; fr_target := Ip (V4 5); fr_port := 53; fr_payload := [3] |} 0;
      PoolDrop 0] [] (from_config default_config) = Done (rs, g) ∧
    inflight_datagrams g = list_sum_of own_datagrams rs ∧
    buffered_fragments g = list_sum_of own_fragments rs ∧
    buffered_bytes g = list_sum_of own_bytes rs ∧
    inflight_datagrams g ≤ max_inflight_global default_config ∧
    buffered_fragments g ≤ max_fragments_global default_config ∧
    buffered_bytes g ≤ max_bytes_global default_config ∧
    (rs = [] → inflight_datagrams g = 0 ∧ buffered_fragments g = 0 ∧ buffered_bytes g = 0).
Proof.
  refine (shared_budget_conserved default_config _ _ _).
  - vm_compute. repeat split; congruence.
  - repeat constructor; vm_compute; congruence.
Defined.

(** Fragments that arrive in sequence are reassembled: every fragment but the
    last is [Pending], the last returns the target, port and concatenated
    payloads, and the reassembler's assemblies and the shared counters are then
    exactly as before. This holds in strict mode and with any reorder gap, for a
    datagram that fits the per-datagram, per-session and global budgets. *)
Theorem in_order_reassembly {K} `{Countable K} (session : K) (t : Socks5UdpTarget) (p envelope : Z)
    (ps : list (list Z)) (evs : list (Socks5UdpFragment * Z))
    (r : Socks5FragmentReassembler K) (g : Socks5FragmentGlobalBudget) :
  let key := {| k_session := session; k_target := t; k_port := p |} in
  let u := session_usage session (assemblies r) in
  reassembler_ok r g → assemblies r !! key = None → ps ≠ [] →
  socks5_udp_envelope_header_len t = Ok envelope →
  len ps ≤ max_fragments_per_datagram (config r) →
  envelope + len (concat ps) ≤ max_bytes_per_datagram (config r) →
  u_datagrams u < max_inflight_per_session (config r) →
  u_fragments u + len ps ≤ max_fragments_per_session (config r) →
  u_bytes u + envelope + len (concat ps) ≤ max_bytes_per_session (config r) →
  inflight_datagrams g < max_inflight_datagrams g →
  buffered_fragments g + len ps ≤ max_fragments g →
  buffered_bytes g + envelope + len (concat ps) ≤ max_bytes g →
  evs.*1 = fragments_from t p 0 ps →
  ∃ r' g', push_all session evs r g =
      Done (replicate (length ps - 1) (Ok Pending) ++
            [Ok (Complete {| dg_target := t; dg_port := p; dg_payload := concat ps |} true)], r', g') ∧
    reassembler_ok r' g' ∧ assemblies r' = assemblies r ∧
    inflight_datagrams g' = inflight_datagrams g ∧ buffered_fragments g' = buffered_fragments g ∧
    buffered_bytes g' = buffered_bytes g.
Proof.
  intros key u Hr Hnone Hps He B1 B2 B3 B4 B5 B6 B7 B8 Hevs.
  destruct ps as [|d rest]; [done|]. clear Hps. cbn [fragments_from] in Hevs.
  destruct evs as [|[f now] evs]; [done|]. injection Hevs as Hf Hevs. cbn [fst] in Hf.
  pose proof (header_len_nonneg _ _ He) as Henv. rewrite len_cons in *. cbn [concat] in *. rewrite len_app in *.
  pose proof (len_nonneg d). pose proof (len_nonneg rest). pose proof (len_nonneg (concat rest)).
  assert (fr_target f = t) as Ht by (by subst f). assert (fr_port f = p) as Hp by (by subst f).
  destruct (reserve_new_assembly_spec session f envelope now r g) as [(e & _ & Hno)|(r1 & g1 & Hres & Hm & Hcf & Hr1 & Ho & Hl)];
    [done|done|by rewrite Ht, Hp| |].
  { exfalso. apply Hno. unfold room_for_assembly. fold u. lia. }
  rewrite Ht, Hp in Hr1, Ho. fold key in Hr1, Ho. rewrite Hm in *.
  set (a := fresh_assembly f envelope now) in *. set (r2 := with_assemblies (<[key := a]> (assemblies r)) r1) in *.
  assert (in_order [] a) as Hin.
  { split_and!; [done..|]. intros q. cbn. rewrite lookup_empty. by case_decide. }
  injection Ho as O1 O2 O3. injection Hl as L1 L2 L3.
  assert (room_left session a (1 + len rest) (len d + len (concat rest)) r2 g1) as Hroom.
  { unfold room_left, session_usage, own_fragments, own_bytes in *. cbn [u_fragments u_bytes] in *.
    change (assemblies r2) with (<[key := a]> (assemblies r)) in *. change (config r2) with (config r1).
    rewrite !session_sum_insert, !decide_True by done. rewrite !map_sum_insert in O2, O3 by done.
    rewrite Hcf. unfold u in *. cbn [u_datagrams u_fragments u_bytes session_usage] in *.
    change (map_len (fragments a)) with 0 in *. change (bytes a) with envelope in *. lia. }
  destruct (push_existing_in_order key true now r2 g1 a [] d rest Hr1 ltac:(apply lookup_insert_eq) Hin eq_refl Hroom)
    as (res & r3 & g3 & Hrun & Hk & Hcase).
  assert (delete key (assemblies r2) = assemblies r) as Hdel.
  { change (assemblies r2) with (<[key := a]> (assemblies r)). by rewrite delete_insert_id. }
  assert (push session f now r g = Done (res, r3, g3)) as Hpush.
  { subst f. unfold push. cbn [sequence fr_target fr_port].
    rewrite (proj2 (Z.eqb_neq _ _)), (proj2 (Z.ltb_ge _ _)) by lia. fold key. rewrite Hnone.
    rewrite bool_decide_eq_false_2 by (intros [? [=]]). change (0 + 1 =? 1) with true. cbn [negb].
    rewrite He, Hres, Hm. exact Hrun. }
  assert (∀ r' g', kept r2 g1 r' g' → assemblies r' = assemblies r → reassembler_ok r' g' ∧ assemblies r' = assemblies r ∧
    inflight_datagrams g' = inflight_datagrams g ∧ buffered_fragments g' = buffered_fragments g ∧
    buffered_bytes g' = buffered_bytes g) as Hback.
  { intros r' g' (Hr' & _ & Ho' & _) Hm'. injection Ho' as P1 P2 P3.
    unfold own_datagrams, own_fragments, own_bytes in *. rewrite Hm' in *. split_and!; [done|done|lia..]. }
  cbn [push_all]. rewrite Hpush. cbn [mbind exec_bind]. destruct (decide (rest = [])) as [->|Hne].
  - destruct Hcase as [Hm3 ->]. destruct evs; [|done]. exists r3, g3. rewrite Hdel in Hm3.
    split; [done|]. by apply Hback.
  - destruct Hcase as (-> & a' & Hm3 & Hin' & Hfin' & Hroom').
    destruct (push_all_in_order session t p [d] rest evs r3 g3 a') as (r4 & g4 & Hrun4 & Hk4 & Hm4);
      [done|apply Hk|by rewrite Hm3, lookup_insert_eq|done|done|done|done|].
    rewrite Hrun4. cbn [mbind exec_bind]. exists r4, g4. destruct rest as [|d' rest]; [done|]. split.
    + cbn [length Nat.sub replicate app]. by rewrite Nat.sub_0_r.
    + apply Hback.
      * destruct Hk as (? & ? & ? & ?), Hk4 as (? & ? & ? & ?). split_and!; [done|congruence..].
      * rewrite Hm4, Hm3, <- Hdel. fold key. by rewrite delete_insert_eq.
Qed.

(** A fresh reassembler over its own budget. *)
Definition sample_fragments : Socks5FragmentReassembler nat :=
  {| config := default_config; assemblies := ∅; sessions := ∅; local_fragments := 0; local_bytes := 0 |}.

Lemma fragment_sample_reassembler_ok : reassembler_ok sample_fragments (from_config default_config).
Proof.
  apply (new_ok default_config (from_config default_config)).
  - vm_compute. repeat split; congruence.
  - vm_compute. repeat split; congruence.
  - vm_compute. reflexivity.
Qed.

Definition sample_events : list (Socks5UdpFragment * Z) :=
  zip (fragments_from (Ip (V4 16909060)) 53 0 [[1; 2]; [3]; [4; 5]]) [10; 20; 30].

Lemma in_order_reassembly_witness :
  ∃ r' g', push_all 7%nat sample_events sample_fragments (from_config default_config) =
      Done ([Ok Pending; Ok Pending;
             Ok (Complete {| dg_target := Ip (V4 16909060); dg_port := 53; dg_payload := [1; 2; 3; 4; 5] |} true)], r', g') ∧
    reassembler_ok r' g' ∧ assemblies r' = assemblies sample_fragments ∧
    inflight_datagrams g' = 0 ∧ buffered_fragments g' = 0 ∧ buffered_bytes g' = 0.
Proof.
  refine (in_order_reassembly 7%nat (Ip (V4 16909060)) 53 10 [[1; 2]; [3]; [4; 5]] sample_events
    sample_fragments (from_config default_config) fragment_sample_reassembler_ok _ _ _ _ _ _ _ _ _ _ _ _);
  vm_compute; congruence.
Defined.

(** In strict mode (no reorder gap) a stored assembly grows only by its next
    sequence number: a push that keeps or completes the datagram carries exactly
    the number after the contiguous prefix, and one that goes backwards is
    rejected and drops the datagram. *)
Theorem strict_mode_sequential {K} `{Countable K} (session : K) (f : Socks5UdpFragment) (now : Z)
    (r : Socks5FragmentReassembler K) (g : Socks5FragmentGlobalBudget) (a : Assembly) :
  let key := {| k_session := session; k_target := fr_target f; k_port := fr_port f |} in
  reassembler_ok r g → assemblies r !! key = Some a → max_reorder_gap (config r) = 0 →
  1 ≤ sequence f ≤ max_fragments_per_datagram (config r) →
  ∃ res r' g', push session f now r g = Done (res, r', g') ∧
    match res with
    | Ok Duplicate => fragments a !! sequence f = Some (fr_payload f) ∧ r' = r
    | Ok _ => sequence f = highest_contiguous a + 1
    | Err _ => sequence f < highest_received a → assemblies r' !! key = None
    end.
Proof.
  intros key Hr Ha Hgap Hseq. pose proof (ro_usage r g Hr) as Hu.
  pose proof (uo_assemblies r g Hu _ _ Ha) as Hok. pose proof (ao_contiguous _ _ _ Hok) as (Hc0 & Hall & Hend).
  destruct (max_fragments_127 _ (uo_config r g Hu)) as [H127 _].
  assert (highest_contiguous a ≤ 127) as Hhc.
  { destruct (decide (highest_contiguous a = 0)); [lia|].
    destruct (Hall (highest_contiguous a)) as [q Hq]; [lia|]. pose proof (ao_sequences _ _ _ Hok _ _ Hq). lia. }
  assert (push session f now r g = push_existing session key false f now r g) as ->.
  { unfold push. rewrite (proj2 (Z.eqb_neq _ _)), (proj2 (Z.ltb_ge _ _)) by lia. fold key. rewrite Ha.
    by rewrite bool_decide_eq_true_2 by (by eexists). }
  assert (check_conflict (config r) a f = Proceed → sequence f = highest_contiguous a + 1) as Hnext.
  { intros Hp. destruct (check_conflict_Proceed _ _ _ Hp) as [Hnone _].
    assert (¬ sequence f ≤ highest_contiguous a) by (intros ?; destruct (Hall (sequence f)); [lia|congruence]).
    unfold check_conflict in Hp. rewrite Hnone, Hgap in Hp. destruct (_ && _); [done|].
    destruct (match final_sequence a with Some q => _ | None => _ end); [done|].
    destruct (final_fragment f && _); [done|].
    rewrite (saturating_add_small _ (highest_contiguous a)) in Hp by lia.
    rewrite saturating_add_small in Hp by lia. destruct (_ <? sequence f) eqn:E in Hp; [done|]. bool_prop. lia. }
  destruct (push_existing_spec key false f now r g a Hr Ha Hseq) as (res & r' & g' & Hrun & _ & _ & _ & _ & Hres).
  exists res, r', g'. split; [exact Hrun|]. unfold push_existing in Hrun. rewrite Ha in Hrun.
  cbn [expect mbind exec_bind] in Hrun.
  destruct (check_conflict (config r) a f) as [e|res0|] eqn:Hcheck.
  - destruct (remove_assembly_spec key r g Hu) as (r1 & g1 & Hrem & _ & _ & Hm & _). rewrite Hrem in Hrun.
    injection Hrun as <- <- <-. intros _. rewrite Hm. apply lookup_delete_eq.
  - injection Hrun as <- <- <-. unfold check_conflict in Hcheck. rewrite Hgap in Hcheck. cbn [Z.eqb andb] in Hcheck.
    destruct (Z.ltb_spec (sequence f) (highest_received a)); [done|].
    destruct (fragments a !! sequence f) as [old|] eqn:Hold.
    + destruct (_ && final_fragment f); [done|]. destruct (bool_decide (old = _) && _) eqn:E; [|done].
      injection Hcheck as <-. bool_prop. by subst.
    + destruct (match final_sequence a with Some q => _ | None => _ end); [done|].
      destruct (final_fragment f && _); [done|]. destruct (_ <? sequence f); [|done]. injection Hcheck as <-. lia.
  - specialize (Hnext eq_refl). destruct res as [[]|]; [done|done|by destruct Hres|]. intros Hlt. exfalso.
    unfold check_conflict in Hcheck. rewrite Hgap, (proj2 (Z.ltb_lt _ _)) in Hcheck by done. done.
Qed.

(** The sample reassembler after the first fragment of a datagram. *)
Definition sample_fragment (n : Z) : Socks5UdpFragment :=
  {| sequence := n; final_fragment := false; fr_target := Ip (V4 1); fr_port := 9; fr_payload := [8] |}.
Definition sample_stored : Socks5FragmentReassembler nat * Socks5FragmentGlobalBudget :=
  match push 7%nat (sample_fragment 1) 4 sample_fragments (from_config default_config) with
  | Done (_, r, g) => (r, g)
  | Panic => (sample_fragments, from_config default_config)
  end.

Lemma sample_stored_ok : reassembler_ok sample_stored.1 sample_stored.2.
Proof.
  unfold sample_stored.
  destruct (fragment_push_spec 7%nat (sample_fragment 1) 4 _ _ fragment_sample_reassembler_ok) as (res & r & g & -> & Hr & _);
    [simpl; lia|done].
Qed.

Lemma strict_mode_sequential_witness :
  ∃ res r' g', push 7%nat (sample_fragment 2) 5 sample_stored.1 sample_stored.2 = Done (res, r', g') ∧
    match res with
    | Ok Duplicate => ({[ 1 := [8] ]} : gmap Z (list Z)) !! 2 = Some [8] ∧ r' = sample_stored.1
    | Ok _ => 2 = 1 + 1
    | Err _ => 2 < 1 → assemblies r' !! {| k_session := 7%nat; k_target := Ip (V4 1); k_port := 9 |} = None
    end.
Proof.
  refine (strict_mode_sequential 7%nat (sample_fragment 2) 5 sample_stored.1 sample_stored.2
    {| target := Ip (V4 1); port := 9; fragments := {[ 1 := [8] ]}; final_sequence := None;
       highest_contiguous := 1; highest_received := 1; payload_bytes := 1; bytes := 11; last_activity := 4 |}
    sample_stored_ok _ _ _).
  - vm_compute. reflexivity.
  - vm_compute. reflexivity.
  - vm_compute. split; congruence.
Defined.

(** A final fragment that arrives below a sequence already stored is accepted,
    and the contiguous prefix then runs past it: the datagram stays pending
    until it times out, although the fragments contradict each other. *)
Lemma late_final_stays_pending :
  match push_all 7%nat
    (zip [{| sequence := 1; final_fragment := false; fr_target := Ip (V4 1); fr_port := 9; fr_payload := [1] |};
          {| sequence := 3; final_fragment := false; fr_target := Ip (V4 1); fr_port := 9; fr_payload := [3] |};
          {| sequence := 2; final_fragment := true; fr_target := Ip (V4 1); fr_port := 9; fr_payload := [2] |}] [0; 1; 2])
    {| config := {| timeout := 5000000000; max_fragments_per_datagram := 64; max_bytes_per_datagram := MAX_UDP_DATAGRAM_BYTES;
                    max_reorder_gap := 2; max_inflight_per_session := 8; max_fragments_per_session := 128;
                    max_bytes_per_session := 262144; max_inflight_global := 1024; max_fragments_global := 8192;
                    max_bytes_global := 16777216 |};
       assemblies := ∅; sessions := ∅; local_fragments := 0; local_bytes := 0 |}
    (from_config default_config) with
  | Done (results, r, _) => results = [Ok Pending; Ok Pending; Ok Pending] ∧ map_len (assemblies r) = 1
  | Panic => False
  end.
Proof. vm_compute. split; reflexivity. Qed.
