(* ===== verification/P2pProtocol.v ===== *)
(** * P2P tickets ([crates/linklake-core/src/p2p_protocol.rs])

    Short-lived tickets: the JSON claims and their HMAC-SHA-256, both in hex.
    SHA-256 and the JSON codec of the claims are parameters; what is assumed of
    them is the digest's length and that decoding inverts encoding. The HMAC
    construction, the hex codec and the constant-time comparison are the
    program's own and are modelled. *)

From S2P Require Import Prelude RustStr.
Local Open Scope Z_scope.

Definition P2P_PROTOCOL_VERSION : Z := 1.
Definition TICKET_PREFIX : rstr := lit "llp2p_".

Record P2pTicketClaims := {
  session_id : Z;
  provider_client_id : Z;
  visitor_client_id : Z;
  target_addr : rstr;
  issued_unix_seconds : Z;
  expires_unix_seconds : Z;
  protocol_version : Z;
}.

Global Instance P2pTicketClaims_eq_dec : EqDecision P2pTicketClaims.
Proof. solve_decision. Defined.

Inductive P2pTicketError :=
  | InvalidFormat
  | InvalidSignature
  | Expired
  | NotYetValid
  | UnsupportedVersion
  | InvalidPayload.

(** ** Hex *)

(** [format!("{byte:02x}")]. *)
Definition hex_char (d : Z) : Z := if d <? 10 then 48 + d else 87 + d.
Definition encode_hex (value : list Z) : rstr :=
  value ≫= λ byte, [hex_char (byte / 16); hex_char (byte mod 16)].

(** [char::to_digit(16)] on an ASCII byte. *)
Definition hex_value (c : Z) : option Z :=
  if is_ascii_digit c then Some (c - 48)
  else if (97 <=? c) && (c <=? 102) then Some (c - 87)
  else if (65 <=? c) && (c <=? 70) then Some (c - 55)
  else None.

(** The bytes two by two; every pair went through [u8::from_str_radix(_, 16)]. *)
Fixpoint decode_pairs (l : list Z) : option (list Z) :=
  match l with
  | a :: b :: l =>
      high ← hex_value a;
      low ← hex_value b;
      rest ← decode_pairs l;
      Some (high * 16 + low :: rest)
  | _ => Some []
  end.

Definition decode_hex (value : rstr) : option (list Z) :=
  if negb (str_len value mod 2 =? 0) || negb (all is_ascii_hexdigit (as_bytes value)) then None
  else decode_pairs (as_bytes value).

Definition constant_time_equal (left right : list Z) : bool :=
  if negb (len left =? len right) then false
  else foldl (λ difference '(l, r), Z.lor difference (Z.lxor l r)) 0 (zip left right) =? 0.

Section tickets.
Context (sha256 : list Z → list Z).
Context {JsonError : Type} (to_vec : P2pTicketClaims → result JsonError (list Z)).
Context (from_slice : list Z → option P2pTicketClaims).

(** The array writes [normalized[..n].copy_from_slice(..)] and the xor loop. *)
Definition normalize_key (key : list Z) : list Z :=
  if 64 <? len key then sha256 key ++ replicate 32 0 else key ++ replicate (64 - length key) 0.
Definition hmac_sha256 (key message : list Z) : list Z :=
  let normalized := normalize_key key in
  let inner_key := zip_with Z.lxor (replicate 64 54) normalized in
  let outer_key := zip_with Z.lxor (replicate 64 92) normalized in
  sha256 (outer_key ++ sha256 (inner_key ++ message)).

Definition issue_ticket (claims : P2pTicketClaims) (secret : list Z) : result JsonError rstr :=
  payload ← to_vec claims;
  let signature := hmac_sha256 secret payload in
  Ok (TICKET_PREFIX ++ encode_hex payload ++ [ch_dot] ++ encode_hex signature).

Definition verify_ticket (ticket : rstr) (secret : list Z) (now_unix_seconds : Z)
    : result P2pTicketError P2pTicketClaims :=
  value ← ok_or (strip_prefix TICKET_PREFIX ticket) InvalidFormat;
  '(payload, signature) ← ok_or (split_once ch_dot value) InvalidFormat;
  payload ← ok_or (decode_hex payload) InvalidFormat;
  signature ← ok_or (decode_hex signature) InvalidFormat;
  if negb (constant_time_equal signature (hmac_sha256 secret payload)) then Err InvalidSignature
  else
    claims ← ok_or (from_slice payload) InvalidPayload;
    if negb (protocol_version claims =? P2P_PROTOCOL_VERSION) then Err UnsupportedVersion
    else if now_unix_seconds <? issued_unix_seconds claims then Err NotYetValid
    else if expires_unix_seconds claims <=? now_unix_seconds then Err Expired
    else Ok claims.
End tickets.

(** ** Hex and comparison lemmas *)

Lemma hex_value_char d : 0 ≤ d < 16 → hex_value (hex_char d) = Some d.
Proof.
  intros Hd. unfold hex_value, hex_char, is_ascii_digit.
  destruct (Z.ltb_spec d 10); repeat (zcase; cbn [andb]; try lia); f_equal; lia.
Qed.

Lemma hex_char_digit d : 0 ≤ d < 16 → is_ascii_hexdigit (hex_char d) = true.
Proof.
  intros Hd. unfold is_ascii_hexdigit, hex_char, is_ascii_digit.
  destruct (Z.ltb_spec d 10); repeat (zcase; cbn [andb orb]; try lia); done.
Qed.

Lemma hexdigit_ascii c : is_ascii_hexdigit c = true → 0 ≤ c < 128 ∧ c ≠ ch_dot.
Proof. unfold is_ascii_hexdigit, is_ascii_digit. intros H. repeat (zcase; cbn [andb orb] in H; try done; try lia). Qed.

Lemma byte_nibbles b : byte_ok b → 0 ≤ b / 16 < 16 ∧ 0 ≤ b mod 16 < 16.
Proof.
  unfold byte_ok. intros Hb. pose proof (Z.mod_pos_bound b 16). split; [|lia].
  split; [apply Z.div_pos; lia|apply Z.div_lt_upper_bound; lia].
Qed.

Lemma encode_hex_cons b l : encode_hex (b :: l) = hex_char (b / 16) :: hex_char (b mod 16) :: encode_hex l.
Proof. done. Qed.

Lemma encode_hex_digits l : bytes_ok l → Forall (λ c, is_ascii_hexdigit c = true) (encode_hex l).
Proof.
  induction 1 as [|b l Hb _ IH]; [constructor|]. rewrite encode_hex_cons.
  destruct (byte_nibbles b Hb). repeat constructor; [by apply hex_char_digit..|done].
Qed.

Lemma hexdigits_ascii s : Forall (λ c, is_ascii_hexdigit c = true) s → is_ascii s = true.
Proof.
  intros H. apply all_Forall. eapply Forall_impl; [exact H|]. intros c Hc.
  apply hexdigit_ascii in Hc as [? _]. apply andb_true_iff. split; [apply Z.leb_le|apply Z.ltb_lt]; lia.
Qed.

Lemma decode_pairs_encode l : bytes_ok l → decode_pairs (encode_hex l) = Some l.
Proof.
  induction 1 as [|b l Hb _ IH]; [done|]. rewrite encode_hex_cons. cbn [decode_pairs].
  destruct (byte_nibbles b Hb) as [H1 H2]. rewrite !hex_value_char by done. cbn [mbind option_bind].
  rewrite IH. cbn [mbind option_bind]. do 2 f_equal. pose proof (Z.div_mod b 16). lia.
Qed.

Lemma decode_encode_hex l : bytes_ok l → decode_hex (encode_hex l) = Some l.
Proof.
  intros Hl. pose proof (encode_hex_digits l Hl) as Hd. unfold decode_hex, str_len.
  rewrite as_bytes_ascii by (by apply hexdigits_ascii).
  rewrite (proj2 (all_Forall _ _) Hd).
  assert (len (encode_hex l) = 2 * len l) as ->.
  { clear. induction l as [|b l IH]; [done|]. rewrite encode_hex_cons, !len_cons. lia. }
  rewrite Z.mul_comm, Z.mod_mul by lia. cbn [Z.eqb negb orb]. by apply decode_pairs_encode.
Qed.

Lemma encode_hex_lacks_dot l : bytes_ok l → lacks ch_dot (encode_hex l).
Proof.
  intros Hl. eapply Forall_impl; [by apply encode_hex_digits|]. intros c Hc.
  by apply hexdigit_ascii in Hc as [_ ?].
Qed.

Lemma fold_difference l d :
  foldl (λ difference '(x, y), Z.lor difference (Z.lxor x y)) d l = 0 ↔
  d = 0 ∧ Forall (λ '(x, y), x = y) l.
Proof.
  revert d. induction l as [|[x y] l IH]; intros d; simpl.
  - split; [by intros ->|by intros [-> _]].
  - rewrite IH, Z.lor_eq_0_iff, Forall_cons, Z.lxor_eq_0_iff. naive_solver.
Qed.

(** The comparison without early exit is equality. *)
Lemma constant_time_equal_spec l r : constant_time_equal l r = true ↔ l = r.
Proof.
  unfold constant_time_equal. destruct (Z.eqb_spec (len l) (len r)) as [Hlen|Hlen]; cbn [negb].
  - rewrite Z.eqb_eq, fold_difference. unfold len in Hlen. apply Nat2Z.inj in Hlen. split.
    + intros [_ HF]. revert r Hlen HF. induction l as [|x l IH]; intros [|y r] Hlen HF; try done.
      inversion HF; subst. f_equal. apply IH; [by injection Hlen|done].
    + intros <-. split; [done|]. clear. induction l; simpl; constructor; done.
  - split; [done|]. intros ->. done.
Qed.

Lemma strip_prefix_app p s : strip_prefix p (p ++ s) = Some s.
Proof. induction p as [|c p IH]; [done|]. cbn [app strip_prefix]. rewrite Z.eqb_refl. exact IH. Qed.

Lemma strip_prefix_Some p s t : strip_prefix p s = Some t → s = p ++ t.
Proof.
  revert s. induction p as [|c p IH]; intros s; cbn [strip_prefix]; [by intros [= ->]|].
  destruct s as [|d s]; [done|]. destruct (Z.eqb_spec c d) as [->|]; [|done]. intros H. by rewrite (IH s H).
Qed.

(** ** Properties *)

(** Issuing then verifying with the same secret accepts the ticket exactly in
    its window: the claims come back unchanged from the issue second up to, but
    not including, the expiry second, and outside it (or for another protocol
    version) the error names the reason. Assumes that the digest is a byte
    string and that decoding the claims' JSON inverts encoding it. *)
Theorem verify_issued_ticket (sha256 : list Z → list Z) (JsonError : Type)
    (to_vec : P2pTicketClaims → result JsonError (list Z)) (from_slice : list Z → option P2pTicketClaims)
    (sha256_bytes : ∀ m, bytes_ok (sha256 m))
    (to_vec_bytes : ∀ c v, to_vec c = Ok v → bytes_ok v)
    (from_slice_to_vec : ∀ c v, to_vec c = Ok v → from_slice v = Some c)
    (claims : P2pTicketClaims) (secret : list Z) (ticket : rstr) (now : Z) :
  issue_ticket sha256 to_vec claims secret = Ok ticket →
  verify_ticket sha256 from_slice ticket secret now =
    if negb (protocol_version claims =? P2P_PROTOCOL_VERSION) then Err UnsupportedVersion
    else if now <? issued_unix_seconds claims then Err NotYetValid
    else if expires_unix_seconds claims <=? now then Err Expired
    else Ok claims.
Proof.
  unfold issue_ticket. intros Hi. destruct (to_vec claims) as [v|] eqn:Hv; [|done]. cbn [mbind result_bind] in Hi.
  match type of Hi with Ok ?x = _ => assert (ticket = x) as -> by congruence end.
  pose proof (to_vec_bytes _ _ Hv) as Hb. unfold verify_ticket. rewrite strip_prefix_app. cbn [ok_or mbind result_bind].
  change ([ch_dot] ++ ?x) with (ch_dot :: x). rewrite split_once_app by (by apply encode_hex_lacks_dot).
  cbn [ok_or mbind result_bind]. rewrite (decode_encode_hex v) by done. cbn [ok_or mbind result_bind].
  rewrite decode_encode_hex by (apply sha256_bytes). cbn [ok_or mbind result_bind].
  rewrite (proj2 (constant_time_equal_spec _ _)) by done. cbn [negb].
  by rewrite (from_slice_to_vec _ _ Hv).
Qed.

Definition sample_claims : P2pTicketClaims :=
  {| session_id := 1; provider_client_id := 2; visitor_client_id := 3; target_addr := lit "127.0.0.1:22";
     issued_unix_seconds := 100; expires_unix_seconds := 160; protocol_version := 1 |}.
Definition sample_to_vec (c : P2pTicketClaims) : result unit (list Z) :=
  if bool_decide (c = sample_claims) then Ok [123; 125] else Err tt.
Definition sample_from_slice (v : list Z) : option P2pTicketClaims :=
  if bool_decide (v = [123; 125]) then Some sample_claims else None.
Definition sample_sha256 (m : list Z) : list Z := replicate 32 (foldl Z.lxor 7 m mod 256).

Lemma verify_issued_ticket_witness :
  ∃ ticket, issue_ticket sample_sha256 sample_to_vec sample_claims [1; 2; 3] = Ok ticket ∧
    verify_ticket sample_sha256 sample_from_slice ticket [1; 2; 3] 159 = Ok sample_claims.
Proof.
  eexists. split; [vm_compute; reflexivity|].
  refine (verify_issued_ticket sample_sha256 unit sample_to_vec sample_from_slice _ _ _ sample_claims [1; 2; 3] _ 159 _).
  - intros m. apply Forall_replicate. unfold byte_ok. pose proof (Z.mod_pos_bound (foldl Z.lxor 7 m) 256). lia.
  - intros c v. unfold sample_to_vec. case_bool_decide; [|done]. intros [= <-]. repeat constructor; vm_compute; congruence.
  - intros c v. unfold sample_to_vec. case_bool_decide as Hc; [|done]. intros [= <-]. by rewrite Hc.
  - vm_compute. reflexivity.
Defined.

(** A ticket is accepted only if it is authentic and current: the part after
    the dot is the hex of the HMAC of the decoded payload under the verifier's
    secret, the claims are the decoded payload, their version is supported and
    the time is within [issued, expires). *)
Theorem accepted_ticket_authentic (sha256 : list Z → list Z) (from_slice : list Z → option P2pTicketClaims)
    (ticket : rstr) (secret : list Z) (now : Z) (claims : P2pTicketClaims) :
  verify_ticket sha256 from_slice ticket secret now = Ok claims →
  ∃ p s payload, ticket = TICKET_PREFIX ++ p ++ [ch_dot] ++ s ∧
    decode_hex p = Some payload ∧ decode_hex s = Some (hmac_sha256 sha256 secret payload) ∧
    from_slice payload = Some claims ∧ protocol_version claims = P2P_PROTOCOL_VERSION ∧
    issued_unix_seconds claims ≤ now < expires_unix_seconds claims.
Proof.
  unfold verify_ticket. intros H.
  destruct (strip_prefix _ _) as [value|] eqn:E1; [|done]. cbn [ok_or mbind result_bind] in H.
  destruct (split_once _ _) as [[p s]|] eqn:E2; [|done]. cbn [ok_or mbind result_bind] in H.
  destruct (decode_hex p) as [payload|] eqn:E3; [|done]. cbn [ok_or mbind result_bind] in H.
  destruct (decode_hex s) as [signature|] eqn:E4; [|done]. cbn [ok_or mbind result_bind] in H.
  destruct (constant_time_equal _ _) eqn:E5; [|done]. cbn [negb] in H.
  destruct (from_slice payload) as [c|] eqn:E6; [|done]. cbn [ok_or mbind result_bind] in H.
  destruct (protocol_version c =? _) eqn:E7; [|done]. cbn [negb] in H.
  destruct (now <? _) eqn:E8; [done|]. destruct (_ <=? now) eqn:E9; [done|]. injection H as <-. bool_prop.
  apply strip_prefix_Some in E1. apply split_once_Some in E2 as [_ ->].
  apply constant_time_equal_spec in E5. subst. exists p, s, payload. by split_and!.
Qed.

Lemma accepted_ticket_authentic_witness :
  ∃ p s payload, (match issue_ticket sample_sha256 sample_to_vec sample_claims [9] with Ok t => t | Err _ => [] end) =
      TICKET_PREFIX ++ p ++ [ch_dot] ++ s ∧
    decode_hex p = Some payload ∧ decode_hex s = Some (hmac_sha256 sample_sha256 [9] payload) ∧
    sample_from_slice payload = Some sample_claims ∧ protocol_version sample_claims = P2P_PROTOCOL_VERSION ∧
    issued_unix_seconds sample_claims ≤ 100 < expires_unix_seconds sample_claims.
Proof. refine (accepted_ticket_authentic sample_sha256 sample_from_slice _ [9] 100 sample_claims _). vm_compute. reflexivity. Defined.
