(* ===== verification/HttpMessage.v ===== *)
(** * HTTP/1 messages of the forward proxy ([http_proxy_tunnel.rs])

    Parsing and authentication of a proxy request, the framing of message bodies and
    the head that is forwarded. Lines and heads are bytes, names and values of header
    fields strings.

    Base64 and SHA-256 are parameters. *)

From S2P Require Import Prelude RustStr NetAddr RustText NetPrint P2pProtocol.
Local Open Scope Z_scope.
Set Default Proof Using "Type".

(** ** Data *)

Definition MAX_HEADER_BYTES : Z := 64 * 1024.
Definition MAX_HEADER_COUNT : Z := 200.

Inductive RequestBody := BodyNone | ContentLength (length : Z) | Chunked.
Global Instance RequestBody_eq_dec : EqDecision RequestBody.
Proof. solve_decision. Defined.

Inductive ProxyRequestKind :=
  | Forward (encoded_head : list Z) (body : RequestBody) (head_request : bool)
  | Connect.

Record ProxyRequest := {
  target_host : rstr;
  target_port : Z;
  client_keep_alive : bool;
  kind : ProxyRequestKind;
}.

Inductive RequestError := Closed | Authentication | Malformed | HeaderTooLarge.

Abbreviation field := (rstr * rstr)%type (only parsing).

(** ** Lines *)

Definition CRLF : list Z := [13; 10].

(** [line.ends_with(b"\r\n")]. *)
Definition ends_crlf (line : list Z) : bool := bool_decide (drop (length line - 2) line = CRLF).
Definition strip_crlf (value : list Z) : list Z :=
  if ends_crlf value then take (length value - 2) value else value.

(** [str::find] of a character: the text before and from its first occurrence. *)
Fixpoint break (p : Z → bool) (s : rstr) : rstr * rstr :=
  match s with
  | [] => ([], [])
  | c :: t => if p c then ([], s) else let '(a, b) := break p t in (c :: a, b)
  end.

(** ** Header fields *)

Definition is_token_char (b : Z) : bool :=
  is_ascii_alphanumeric b || bool_decide (b ∈ lit "!#$%&'*+-.^_`|~").

(** The body of the loop of [parse_headers]. *)
Definition parse_header (line : list Z) : result RequestError field :=
  let line := strip_crlf line in
  if match line with b :: _ => is_ascii_whitespace b | [] => false end then Err Malformed
  else
    '(name, value) ← ok_or (split_once ch_colon line) Malformed;
    name ← ok_or (from_utf8 name) Malformed;
    _ ← reject_if (bool_decide (name = []) || negb (all is_token_char (as_bytes name))) Malformed;
    value ← ok_or (from_utf8 value) Malformed;
    let value := trim value in
    _ ← reject_if (any (λ b, is_ascii_control b && negb (b =? 9)) (as_bytes value)) Malformed;
    Ok (to_ascii_lowercase name, value).
Definition parse_headers (lines : list (list Z)) : result RequestError (list field) := collect parse_header lines.

Definition header_values (headers : list field) (name : rstr) : list rstr :=
  snd <$> filter (λ h : field, h.1 = name) headers.

Definition header_has_token (headers : list field) (name expected : rstr) : bool :=
  any (λ value, eq_ignore_ascii_case (trim value) expected) (header_values headers name ≫= split ch_comma).

Definition request_keep_alive (version : rstr) (headers : list field) : bool :=
  if header_has_token headers (lit "connection") (lit "close") ||
     header_has_token headers (lit "proxy-connection") (lit "close")
  then false
  else bool_decide (version = lit "HTTP/1.1") ||
       header_has_token headers (lit "connection") (lit "keep-alive") ||
       header_has_token headers (lit "proxy-connection") (lit "keep-alive").

Definition validate_message_framing (headers : list field) : result RequestError RequestBody :=
  let content_lengths := header_values headers (lit "content-length") in
  _ ← reject_if ((1 <? len content_lengths) ||
                 match content_lengths with value :: _ => bool_decide (parse_uint U64_MAX value = None) | [] => false end)
       Malformed;
  let transfer_encodings := header_values headers (lit "transfer-encoding") in
  _ ← reject_if ((1 <? len transfer_encodings) ||
                 match transfer_encodings with
                 | value :: _ => negb (eq_ignore_ascii_case value (lit "chunked")) | [] => false end ||
                 (negb (bool_decide (content_lengths = [])) && negb (bool_decide (transfer_encodings = []))))
       Malformed;
  let connection_tokens := trim <$> (header_values headers (lit "connection") ≫= split ch_comma) in
  _ ← reject_if (any (λ value, eq_ignore_ascii_case value (lit "content-length") ||
                               eq_ignore_ascii_case value (lit "transfer-encoding") ||
                               eq_ignore_ascii_case value (lit "host")) connection_tokens)
       Malformed;
  match transfer_encodings, content_lengths with
  | _ :: _, _ => Ok Chunked
  | [], value :: _ => length ← ok_or (parse_uint U64_MAX value) Malformed; Ok (ContentLength length)
  | [], [] => Ok BodyNone
  end.

(** The set of the names that [Connection] and [Proxy-Connection] list. *)
Definition connection_tokens (headers : list field) : list rstr :=
  filter (λ value, value ≠ [])
    ((λ value, to_ascii_lowercase (trim value)) <$>
      (filter (λ h : field, h.1 = lit "connection" ∨ h.1 = lit "proxy-connection") headers ≫=
         λ h, split ch_comma h.2)).

Definition is_hop_by_hop_header (name : rstr) : bool :=
  bool_decide (name ∈ lit <$> ["connection"; "keep-alive"; "proxy-authenticate"; "proxy-authorization";
                               "proxy-connection"; "te"; "trailer"; "upgrade"]%string).

(** ** The forwarded head of a request *)

Definition encode_field (h : field) : list Z := as_bytes h.1 ++ lit ": " ++ as_bytes h.2 ++ CRLF.

Definition dropped (tokens : list rstr) (h : field) : bool :=
  bool_decide (h.1 = lit "proxy-authorization") || is_hop_by_hop_header h.1 || bool_decide (h.1 ∈ tokens).

(** The loop over the fields: the bytes written and [wrote_host]. *)
Fixpoint forward_fields (tokens : list rstr) (headers : list field) : list Z * bool :=
  match headers with
  | [] => ([], false)
  | h :: headers =>
      let '(encoded, wrote_host) := forward_fields tokens headers in
      if dropped tokens h then (encoded, wrote_host)
      else (encode_field h ++ encoded, bool_decide (h.1 = lit "host") || wrote_host)
  end.

Definition build_forward_head (method origin_form : rstr) (headers : list field) (authority : rstr) : list Z :=
  let '(encoded, wrote_host) := forward_fields (connection_tokens headers) headers in
  as_bytes (method ++ lit " " ++ origin_form ++ lit " HTTP/1.1") ++ CRLF ++ encoded ++
  (if wrote_host then [] else encode_field (lit "host", authority)) ++
  lit "connection: keep-alive" ++ CRLF ++ CRLF.

(** ** The target *)

Definition valid_host (value : rstr) : bool :=
  negb (bool_decide (value = [])) && (str_len value <=? 253) && all valid_dns_label (split ch_dot value).

Definition parse_u16 (s : rstr) : result RequestError Z := ok_or (parse_uint U16_MAX s) Malformed.

(** The host and port of an authority. *)
Definition split_authority (value : rstr) (default_port : option Z) : result RequestError (rstr * Z) :=
  match strip_prefix [ch_lbracket] value with
  | Some bracketed =>
      '(host, suffix) ← ok_or (split_once ch_rbracket bracketed) Malformed;
      _ ← ok_or (parse_ipv6 host) Malformed;
      port ← match suffix with
             | [] => ok_or default_port Malformed
             | _ => digits ← ok_or (strip_prefix [ch_colon] suffix) Malformed; parse_u16 digits
             end;
      Ok (to_ascii_lowercase host, port)
  | None =>
      match parse_ip value with
      | Some address => port ← ok_or default_port Malformed; Ok (print_ip address, port)
      | None =>
          let with_default := port ← ok_or default_port Malformed; Ok (value, port) in
          '(host, port) ← match rsplit_once ch_colon value with
                          | Some (host, port) =>
                              if contains_char ch_colon host then with_default
                              else port ← parse_u16 port; Ok (host, port)
                          | None => with_default
                          end;
          _ ← reject_if (negb (valid_host host)) Malformed;
          Ok (to_ascii_lowercase host, port)
      end
  end.

Definition print_authority (host : rstr) (port : Z) (default_port : option Z) : rstr :=
  let host := if contains_char ch_colon host then [ch_lbracket] ++ host ++ [ch_rbracket] else host in
  if bool_decide (default_port = Some port) then host else host ++ [ch_colon] ++ to_string port.

Definition parse_authority (value : rstr) (default_port : option Z) : result RequestError (rstr * Z * rstr) :=
  _ ← reject_if (bool_decide (value = []) || (300 <? str_len value) ||
                 any (λ b, is_ascii_control b || is_ascii_whitespace b) (as_bytes value) ||
                 any (λ c, (c =? ch_slash) || (c =? ch_backslash) || (c =? ch_question) || (c =? ch_hash) || (c =? ch_at)) value)
       Malformed;
  '(host, port) ← split_authority value default_port;
  _ ← reject_if (port =? 0) Malformed;
  Ok (host, port, print_authority host port default_port).

Definition parse_http_uri (value : rstr) : result RequestError (rstr * Z * rstr * rstr) :=
  remainder ← ok_or (strip_prefix (lit "http://") value) Malformed;
  _ ← reject_if (contains_char ch_hash remainder) Malformed;
  let '(authority, path) := break (λ c, (c =? ch_slash) || (c =? ch_question)) remainder in
  _ ← reject_if (contains_char ch_at authority) Malformed;
  let origin_form := match path with
                     | [] => lit "/"
                     | c :: _ => if c =? ch_question then ch_slash :: path else path
                     end in
  _ ← reject_if (any (λ b, is_ascii_control b || (b =? 32)) (as_bytes origin_form)) Malformed;
  '(host, port, normalized) ← parse_authority authority (Some 80);
  Ok (host, port, normalized, origin_form).

(** ** Requests *)

Section Requests.
(** [Sha256::digest] and [STANDARD.decode] of the [base64] crate. *)
Context (sha256 : list Z → list Z) (base64_decode : rstr → option (list Z)).

Definition http_proxy_password_matches (password : list Z) (expected_hash : rstr) : bool :=
  if negb (len password =? 68) || negb (bool_decide (take 4 password = lit "llh_")) ||
     negb (all is_ascii_hexdigit (drop 4 password))
  then false
  else bool_decide (encode_hex (sha256 password) = expected_hash).

Definition authenticate (headers : list field) (expected_username expected_password_hash : rstr)
    : result RequestError unit :=
  match header_values headers (lit "proxy-authorization") with
  | [value] =>
      '(scheme, encoded) ← ok_or (split_once 32 value) Authentication;
      _ ← reject_if (negb (eq_ignore_ascii_case scheme (lit "basic")) || bool_decide (encoded = [])) Authentication;
      _ ← reject_if (512 <? str_len encoded) Authentication;
      decoded ← ok_or (base64_decode encoded) Authentication;
      '(username, password) ← ok_or (split_once ch_colon decoded) Authentication;
      reject_if (negb (bool_decide (username = as_bytes expected_username)) ||
                 negb (http_proxy_password_matches password expected_password_hash)) Authentication
  | _ => Err Authentication
  end.

Definition valid_method (method : rstr) : bool :=
  negb (bool_decide (method = [])) &&
  all (λ b, is_ascii_upper b || (b =? 45) || (b =? 95)) (as_bytes method).

(** The part of [parse_proxy_request] after authentication. *)
Definition parse_request_target (method uri version : rstr) (headers : list field) : result RequestError ProxyRequest :=
  body ← validate_message_framing headers;
  let keep_alive := request_keep_alive version headers in
  if bool_decide (method = lit "CONNECT") then
    _ ← reject_if (negb (bool_decide (body = BodyNone))) Malformed;
    '(host, port, _) ← parse_authority uri None;
    Ok {| target_host := host; target_port := port; client_keep_alive := keep_alive; kind := Connect |}
  else
    '(host, port, host_header, origin_form) ← parse_http_uri uri;
    let host_headers := header_values headers (lit "host") in
    _ ← reject_if (1 <? len host_headers) Malformed;
    _ ← match host_headers with
        | value :: _ =>
            '(_, _, normalized) ← parse_authority value (Some 80);
            reject_if (negb (bool_decide (normalized = host_header))) Malformed
        | [] => Ok tt
        end;
    Ok {| target_host := host; target_port := port; client_keep_alive := keep_alive;
          kind := Forward (build_forward_head method origin_form headers host_header) body
                    (bool_decide (method = lit "HEAD")) |}.

Definition parse_proxy_request (lines : list (list Z)) (expected_username expected_password_hash : rstr)
    : result RequestError ProxyRequest :=
  match lines with
  | [] => Err Malformed
  | request_line :: lines =>
      request_line ← ok_or (from_utf8 (strip_crlf request_line)) Malformed;
      match split 32 request_line with
      | [method; uri; version] =>
          _ ← reject_if (negb (valid_method method) ||
                         negb (bool_decide (version = lit "HTTP/1.0" ∨ version = lit "HTTP/1.1"))) Malformed;
          headers ← parse_headers lines;
          _ ← authenticate headers expected_username expected_password_hash;
          parse_request_target method uri version headers
      | _ => Err Malformed
      end
  end.
End Requests.

(** ** Lines and fields read back *)

Lemma strip_crlf_app l : strip_crlf (l ++ CRLF) = l.
Proof.
  unfold strip_crlf, ends_crlf. rewrite length_app. simpl (length CRLF).
  replace (length l + 2 - 2)%nat with (length l + 0)%nat by lia.
  rewrite drop_app_add, drop_0, bool_decide_true by done.
  by rewrite Nat.add_0_r, take_app_length.
Qed.
Lemma ends_crlf_app l : ends_crlf (l ++ CRLF) = true.
Proof.
  unfold ends_crlf. rewrite length_app. simpl (length CRLF).
  replace (length l + 2 - 2)%nat with (length l) by lia. by rewrite drop_app_length, bool_decide_true.
Qed.
Lemma ends_crlf_inv l : ends_crlf l = true → l = strip_crlf l ++ CRLF.
Proof.
  unfold strip_crlf. intros H. rewrite H. unfold ends_crlf in H. bool_prop. rewrite <- H.
  by rewrite take_drop.
Qed.

Lemma token_char_range b : is_token_char b = true → 33 ≤ b ≤ 126 ∧ b ≠ ch_colon ∧ is_whitespace b = false.
Proof.
  intros H. assert (33 ≤ b ≤ 126 ∧ b ≠ ch_colon) as [Hr Hc].
  - unfold is_token_char, is_ascii_alphanumeric, is_ascii_digit, is_ascii_upper, is_ascii_lower in H.
    apply orb_true_iff in H as [H|H].
    + rewrite !orb_true_iff in H. destruct H as [[H|H]|H]; bool_prop; lia.
    + bool_prop. revert H. apply (Forall_forall (λ b, 33 ≤ b ≤ 126 ∧ b ≠ ch_colon)).
      vm_compute lit. repeat (constructor; [lia|]). constructor.
  - split; [done|]. split; [done|]. unfold is_whitespace. repeat (rewrite orb_false_iff; split); lia.
Qed.

(** What the program stores as a header field. *)
Record field_ok (h : field) : Prop := {
  fo_name : h.1 ≠ [];
  fo_token : Forall (λ c, is_token_char c = true) h.1;
  fo_lower : to_ascii_lowercase h.1 = h.1;
  fo_value : str_ok h.2;
  fo_trim : trim h.2 = h.2;
  fo_control : any (λ b, is_ascii_control b && negb (b =? 9)) (as_bytes h.2) = false;
}.

Lemma tokens_ascii n : Forall (λ c, is_token_char c = true) n → is_ascii n = true.
Proof.
  intros H. unfold is_ascii. apply all_Forall. eapply Forall_impl; [done|]. intros c Hc.
  apply token_char_range in Hc. apply andb_true_iff. lia.
Qed.

Lemma is_token_char_lower c : is_token_char c = true → is_token_char (lower_char c) = true.
Proof.
  intros H. unfold lower_char. destruct (is_ascii_upper c) eqn:E; [|done].
  unfold is_token_char, is_ascii_alphanumeric. apply orb_true_iff. left. apply orb_true_iff. right.
  unfold is_ascii_upper, is_ascii_lower in *. bool_prop. apply andb_true_iff. lia.
Qed.

Lemma all_tokens_ascii name bytes :
  bytes_ok bytes → from_utf8 bytes = Some name → all is_token_char (as_bytes name) = true →
  Forall (λ c, is_token_char c = true) name.
Proof.
  intros Hb Hu Ht. destruct (from_utf8_sound _ _ Hb Hu) as [_ He]. rewrite He in Ht.
  apply all_Forall in Ht. rewrite from_utf8_ascii in Hu by (by apply tokens_ascii).
  by injection Hu as <-.
Qed.

Lemma bytes_ok_strip l : bytes_ok l → bytes_ok (strip_crlf l).
Proof. unfold strip_crlf. destruct (ends_crlf l); auto with linklake. Qed.

Lemma parse_header_ok line h : bytes_ok line → parse_header line = Ok h → field_ok h.
Proof.
  intros Hl. unfold parse_header. apply bytes_ok_strip in Hl. revert Hl. generalize (strip_crlf line). clear line.
  intros line Hl H. case_match; [done|].
  destruct (split_once ch_colon line) as [[name value]|] eqn:Es; [|done]. cbn in H.
  apply split_once_Some in Es as [_ ->]. apply Forall_app in Hl as [Hn Hv]. apply Forall_cons in Hv as [_ Hv].
  destruct (from_utf8 name) as [n|] eqn:En; [|done]. cbn in H.
  destruct (bool_decide (n = []) || negb (all is_token_char (as_bytes n))) eqn:Et; [done|]. cbn in H.
  destruct (from_utf8 value) as [v|] eqn:Ev; [|done]. cbn in H.
  destruct (any _ (as_bytes (trim v))) eqn:Ec in H; [done|]. cbn in H. simplify_eq. bool_prop.
  assert (Forall (λ c, is_token_char c = true) n) as Htok by (by apply (all_tokens_ascii n name)).
  destruct (from_utf8_sound _ _ Hv Ev) as [Hs _]. split; cbn.
  - by destruct n.
  - apply Forall_fmap. eapply Forall_impl; [exact Htok|]. apply is_token_char_lower.
  - apply to_ascii_lowercase_idem.
  - by apply trim_Forall.
  - apply trim_idem.
  - done.
Qed.

Lemma parse_header_encode h : field_ok h → parse_header (encode_field h) = Ok h.
Proof.
  destruct h as [n v]. intros [Hn Ht Hl Hv Htr Hc]. cbn [fst snd] in *. unfold parse_header, encode_field.
  pose proof (tokens_ascii _ Ht) as Ha. cbn [fst snd]. rewrite (as_bytes_ascii n) by done.
  replace (n ++ lit ": " ++ as_bytes v ++ CRLF) with ((n ++ ch_colon :: 32 :: as_bytes v) ++ CRLF)
    by (by rewrite <- app_assoc).
  rewrite strip_crlf_app. destruct n as [|c n]; [done|]. cbn [app].
  assert (is_ascii_whitespace c = false) as ->.
  { apply Forall_cons in Ht as [Hct _]. apply token_char_range in Hct. unfold is_ascii_whitespace.
    repeat (rewrite orb_false_iff; split); lia. }
  rewrite (app_comm_cons n), split_once_app.
  2: { eapply Forall_impl; [exact Ht|]. intros d Hd. by destruct (token_char_range d Hd) as (? & ? & ?). }
  cbn [ok_or mbind result_bind]. rewrite (from_utf8_ascii (c :: n)) by done. cbn [ok_or mbind result_bind].
  rewrite (as_bytes_ascii (c :: n)) by done.
  assert (all is_token_char (c :: n) = true) as -> by (by apply all_Forall).
  rewrite bool_decide_false by done. cbn [orb negb reject_if mbind result_bind].
  assert (from_utf8 (32 :: as_bytes v) = Some (32 :: v)) as ->.
  { apply (from_utf8_encode 32 v (as_bytes v)); [unfold scalar_ok; lia|]. by apply from_utf8_as_bytes. }
  cbn [ok_or mbind result_bind]. rewrite trim_space by done. rewrite Htr, Hc.
  cbn [reject_if mbind result_bind]. by rewrite Hl.
Qed.

Lemma parse_headers_ok lines headers : Forall bytes_ok lines → parse_headers lines = Ok headers → Forall field_ok headers.
Proof.
  intros Hl H. apply collect_Ok in H. induction H as [|line h lines hs Hh _ IH]; [constructor|].
  apply Forall_cons in Hl as [Hl Hls]. constructor; [by eapply parse_header_ok|by apply IH].
Qed.
Lemma parse_headers_encode fields : Forall field_ok fields → parse_headers (encode_field <$> fields) = Ok fields.
Proof.
  intros H. apply collect_Ok, Forall2_fmap_l. induction H; constructor; [by apply parse_header_encode|done].
Qed.

(** ** The forwarded head *)

(** The bytes of a head with this first line and these fields. *)
Definition head_bytes (first : rstr) (fields : list field) : list Z :=
  as_bytes first ++ CRLF ++ concat (encode_field <$> fields) ++ CRLF.

Definition kept (headers : list field) : list field :=
  filter (λ h, dropped (connection_tokens headers) h = false) headers.
Definition KEEP_ALIVE : field := (lit "connection", lit "keep-alive").

(** The fields of the forwarded request. *)
Definition forwarded (headers : list field) (authority : rstr) : list field :=
  kept headers ++ (if bool_decide (header_values (kept headers) (lit "host") = []) then [(lit "host", authority)] else []) ++
  [KEEP_ALIVE].

Lemma header_values_app l k name : header_values (l ++ k) name = header_values l name ++ header_values k name.
Proof. unfold header_values. by rewrite filter_app, fmap_app. Qed.
Lemma header_values_cons n v l name :
  header_values ((n, v) :: l) name = (if decide (n = name) then [v] else []) ++ header_values l name.
Proof. unfold header_values. rewrite filter_cons. cbn. by destruct (decide (n = name)). Qed.

Lemma forward_fields_kept tokens headers :
  forward_fields tokens headers =
    (concat (encode_field <$> filter (λ h, dropped tokens h = false) headers),
     negb (bool_decide (header_values (filter (λ h, dropped tokens h = false) headers) (lit "host") = []))).
Proof.
  induction headers as [|[n v] headers IH]; [done|]. cbn [forward_fields]. rewrite IH, filter_cons.
  destruct (dropped tokens (n, v)) eqn:E; [rewrite decide_False by done; done|].
  rewrite decide_True by done. rewrite header_values_cons. cbn [fst fmap list_fmap concat]. f_equal.
  destruct (decide (n = lit "host")); [by rewrite bool_decide_true|]. by rewrite bool_decide_false.
Qed.

Lemma build_forward_head_bytes method origin headers authority :
  build_forward_head method origin headers authority =
  head_bytes (method ++ lit " " ++ origin ++ lit " HTTP/1.1") (forwarded headers authority).
Proof.
  unfold build_forward_head, head_bytes, forwarded. rewrite forward_fields_kept. fold (kept headers).
  assert (encode_field KEEP_ALIVE = lit "connection: keep-alive" ++ CRLF) as HK by reflexivity.
  do 2 f_equal. rewrite !fmap_app, !concat_app, <- !app_assoc. f_equal.
  destruct (bool_decide _); cbn [negb fmap list_fmap concat]; by rewrite !app_nil_r, HK, <- app_assoc.
Qed.

(** ** Framing *)

Lemma any_true {A} (p : A → bool) l : any p l = true ↔ ∃ x, x ∈ l ∧ p x = true.
Proof.
  unfold any. rewrite existsb_exists. split; intros (x & Hx & Hp); exists x; split; try done;
    by apply list_elem_of_In.
Qed.
Lemma elem_of_header_values headers name v : v ∈ header_values headers name ↔ (name, v) ∈ headers.
Proof.
  unfold header_values. rewrite list_elem_of_fmap. split.
  - intros ([n w] & -> & Hx). by apply list_elem_of_filter in Hx as [<- Hx].
  - intros H. exists (name, v). split; [done|]. by apply list_elem_of_filter.
Qed.

Lemma header_has_token_spec headers name expected :
  header_has_token headers name expected = true ↔
  ∃ v t, (name, v) ∈ headers ∧ t ∈ split ch_comma v ∧ to_ascii_lowercase (trim t) = to_ascii_lowercase expected.
Proof.
  unfold header_has_token. rewrite any_true. split.
  - intros (t & Ht & He). apply list_elem_of_bind in Ht as (v & Ht & Hv). apply elem_of_header_values in Hv.
    exists v, t. unfold eq_ignore_ascii_case in He. by bool_prop.
  - intros (v & t & Hv & Ht & He). exists t. split; [|by apply bool_decide_eq_true].
    apply list_elem_of_bind. exists v. split; [done|]. by apply elem_of_header_values.
Qed.

Lemma elem_of_connection_tokens headers name :
  name ≠ [] → to_ascii_lowercase name = name →
  name ∈ connection_tokens headers ↔
  header_has_token headers (lit "connection") name = true ∨ header_has_token headers (lit "proxy-connection") name = true.
Proof.
  intros Hn Hl. unfold connection_tokens. rewrite !header_has_token_spec, Hl, list_elem_of_filter, list_elem_of_fmap. split.
  - intros (_ & t & -> & Ht). apply list_elem_of_bind in Ht as ([m v] & Ht & Hm).
    apply list_elem_of_filter in Hm as [Hm Hv]. cbn in Hm, Ht. destruct Hm; subst m; [left|right]; by exists v, t.
  - intros H. split; [done|].
    assert (∃ m v t, (m = lit "connection" ∨ m = lit "proxy-connection") ∧ (m, v) ∈ headers ∧
      t ∈ split ch_comma v ∧ to_ascii_lowercase (trim t) = name) as (m & v & t & Hm & Hv & Ht & <-)
      by (destruct H as [(v & t & ?)|(v & t & ?)]; [exists (lit "connection"), v, t|exists (lit "proxy-connection"), v, t]; auto).
    exists t. split; [done|]. apply list_elem_of_bind. exists (m, v). split; [done|]. by apply list_elem_of_filter.
Qed.

(** The three names that carry the framing and the target. *)
Definition framing_names : list rstr := lit <$> ["content-length"; "transfer-encoding"; "host"]%string.

Lemma framing_no_connection_token headers body name :
  validate_message_framing headers = Ok body → name ∈ framing_names →
  header_has_token headers (lit "connection") name = false.
Proof.
  intros H Hn. unfold validate_message_framing in H.
  bind_inv H. bind_inv H. bind_inv H. apply reject_if_Ok in E1. rewrite any_false_Forall, Forall_fmap, Forall_forall in E1.
  unfold header_has_token. apply any_false_Forall, Forall_forall. intros t Ht. specialize (E1 t Ht). cbn in E1.
  bool_prop. unfold framing_names in Hn. cbn [fmap list_fmap] in Hn. rewrite !elem_of_cons, elem_of_nil in Hn.
  by destruct Hn as [->|[->|[->|[]]]].
Qed.

Definition dropped_name (tokens : list rstr) (name : rstr) : bool := dropped tokens (name, []).

Lemma kept_values headers name :
  header_values (kept headers) name =
  if dropped_name (connection_tokens headers) name then [] else header_values headers name.
Proof.
  unfold kept, header_values. set (tokens := connection_tokens headers). clearbody tokens.
  induction headers as [|[n v] headers IH]; [by destruct (dropped_name _ _)|].
  rewrite !filter_cons. cbn [fst]. change (dropped tokens (n, v)) with (dropped_name tokens n).
  destruct (decide (n = name)) as [->|Hne].
  - destruct (dropped_name tokens name); [by rewrite decide_False|].
    rewrite decide_True by done. rewrite filter_cons, decide_True by done. cbn. by rewrite IH.
  - destruct (decide (dropped_name tokens n = false)); [|done]. by rewrite filter_cons, decide_False.
Qed.

(** The framing depends on three names only. *)
Lemma validate_message_framing_ext headers headers' body :
  validate_message_framing headers = Ok body →
  header_values headers' (lit "content-length") = header_values headers (lit "content-length") →
  header_values headers' (lit "transfer-encoding") = header_values headers (lit "transfer-encoding") →
  (∀ name, name ∈ framing_names → header_has_token headers' (lit "connection") name = false) →
  validate_message_framing headers' = Ok body.
Proof.
  intros H Hcl Hte Ht. unfold validate_message_framing in *. rewrite Hcl, Hte.
  bind_inv H. bind_inv H. bind_inv H. cbn [mbind result_bind].
  assert (any (λ value, eq_ignore_ascii_case value (lit "content-length") ||
      eq_ignore_ascii_case value (lit "transfer-encoding") || eq_ignore_ascii_case value (lit "host"))
    (trim <$> (header_values headers' (lit "connection") ≫= split ch_comma)) = false) as ->; [|done].
  apply any_false_Forall, Forall_fmap, Forall_forall. intros t Hin. cbn.
  assert (∀ name, name ∈ framing_names → eq_ignore_ascii_case (trim t) name = false) as Hno.
  { intros name Hn. specialize (Ht name Hn). unfold header_has_token in Ht.
    rewrite any_false_Forall, Forall_forall in Ht. by apply Ht. }
  rewrite !Hno; [done|..]; unfold framing_names; cbn [fmap list_fmap]; rewrite !elem_of_cons; tauto.
Qed.

Lemma forwarded_values headers authority name :
  name ≠ lit "host" → name ≠ lit "connection" →
  header_values (forwarded headers authority) name =
  if dropped_name (connection_tokens headers) name then [] else header_values headers name.
Proof.
  intros Hh Hc. unfold forwarded. rewrite !header_values_app, kept_values.
  assert (header_values [KEEP_ALIVE] name = []) as -> by (unfold KEEP_ALIVE; by rewrite header_values_cons, decide_False).
  assert (∀ b : bool, header_values (if b then [(lit "host", authority)] else []) name = []) as ->.
  { intros []; [|done]. by rewrite header_values_cons, decide_False. }
  by rewrite !app_nil_r.
Qed.

Lemma forwarded_connection headers authority :
  header_values (forwarded headers authority) (lit "connection") = [lit "keep-alive"].
Proof.
  unfold forwarded. rewrite !header_values_app, kept_values.
  assert (dropped_name (connection_tokens headers) (lit "connection") = true) as -> by reflexivity.
  by destruct (bool_decide _).
Qed.

Lemma forwarded_connection_tokens headers authority name :
  name ∈ framing_names → header_has_token (forwarded headers authority) (lit "connection") name = false.
Proof.
  intros Hn. unfold header_has_token. rewrite forwarded_connection.
  unfold framing_names in Hn. cbn [fmap list_fmap] in Hn. rewrite !elem_of_cons, elem_of_nil in Hn.
  by destruct Hn as [->|[->|[->|[]]]].
Qed.

(** ** Authorities *)

Lemma plain_whitespace c : plain c → is_whitespace c = false.
Proof. unfold plain, is_whitespace. intros H. repeat (rewrite orb_false_iff; split); lia. Qed.
Lemma plain_ascii s : Forall plain s → is_ascii s = true.
Proof.
  intros H. apply all_Forall. eapply Forall_impl; [exact H|]. unfold plain. intros c Hc. apply andb_true_iff. lia.
Qed.
Lemma plain_field name v :
  name ≠ [] → Forall (λ c, is_token_char c = true) name → to_ascii_lowercase name = name →
  Forall plain v → field_ok (name, v).
Proof.
  intros Hn Ht Hl Hv. split; cbn [fst snd]; try done.
  - eapply Forall_impl; [exact Hv|]. unfold plain, scalar_ok. lia.
  - apply trim_no_ws. eapply Forall_impl; [exact Hv|]. apply plain_whitespace.
  - rewrite as_bytes_ascii by by apply plain_ascii. apply any_false_Forall. eapply Forall_impl; [exact Hv|].
    unfold plain, is_ascii_control. intros c Hc. apply andb_false_iff. left. repeat (rewrite orb_false_iff; split); lia.
Qed.

Lemma plain_lower s : Forall plain s → Forall plain (to_ascii_lowercase s).
Proof.
  intros H. apply Forall_fmap. eapply Forall_impl; [exact H|]. unfold plain. intros c Hc. cbn. unfold lower_char.
  case_match eqn:E; [|done]. unfold is_ascii_upper in E. bool_prop. lia.
Qed.
Lemma digits_plain s : digits_ok s → Forall plain s.
Proof.
  intros H. eapply Forall_impl; [exact H|]. unfold plain, is_ascii_digit. intros c Hc. bool_prop. lia.
Qed.
Lemma alphanumeric_plain b : is_ascii_alphanumeric b = true → plain b.
Proof.
  unfold is_ascii_alphanumeric, is_ascii_digit, is_ascii_upper, is_ascii_lower, plain.
  rewrite !orb_true_iff. intros [[H|H]|H]; bool_prop; lia.
Qed.

Lemma join_Forall (P : Z → Prop) sep l : Forall P sep → Forall (Forall P) l → Forall P (join sep l).
Proof.
  intros Hs. induction 1 as [|s l Hl _ IH]; [constructor|]. destruct l; [done|]. cbn [join].
  rewrite !Forall_app. done.
Qed.

(** A string whose bytes are all ASCII is the list of its bytes. *)
Lemma ascii_bytes_plain s : str_ok s → Forall plain (as_bytes s) → Forall plain s.
Proof.
  intros Hs Hb. assert (from_utf8 (as_bytes s) = Some s) as H by by apply from_utf8_as_bytes.
  rewrite from_utf8_ascii in H by by apply plain_ascii. injection H as <-. done.
Qed.

Lemma split_Forall (P : Z → Prop) sep s : Forall P s → Forall (Forall P) (split sep s).
Proof.
  induction 1 as [|c s Hc _ IH]; cbn [split]; [repeat constructor|]. destruct (c =? sep); [by constructor|].
  destruct IH as [|q qs Hq Hqs]; repeat constructor; done.
Qed.

(** The characters of a host name made of valid labels. *)
Definition host_char (c : Z) : Prop := is_ascii_alphanumeric c = true ∨ c = ch_minus ∨ c = ch_dot.

Lemma labels_chars value : str_ok value → all valid_dns_label (split ch_dot value) = true → Forall host_char value.
Proof.
  intros Hs Hl. apply all_Forall in Hl. rewrite <- (join_split ch_dot value).
  apply join_Forall; [constructor; [by do 2 right|constructor]|].
  pose proof (split_Forall scalar_ok ch_dot value Hs) as Hok.
  apply Forall_forall. intros p Hp. rewrite Forall_forall in Hl, Hok. specialize (Hl p Hp). specialize (Hok p Hp).
  unfold valid_dns_label in Hl. apply andb_true_iff in Hl as [_ Hl]. apply all_Forall in Hl.
  assert (∀ b, is_ascii_alphanumeric b || (b =? ch_minus) = true → plain b ∧ host_char b) as Hc.
  { intros b Hb. apply orb_true_iff in Hb as [Hb|Hb]; [split; [by apply alphanumeric_plain|by left]|].
    apply Z.eqb_eq in Hb as ->. split; [unfold plain; lia|right; by left]. }
  assert (Forall plain p) as Hpl by (apply ascii_bytes_plain; [done|]; eapply Forall_impl; [exact Hl|]; intros b Hb; by apply Hc).
  rewrite as_bytes_ascii in Hl by by apply plain_ascii. eapply Forall_impl; [exact Hl|]. intros b Hb. by apply Hc.
Qed.

Lemma valid_host_plain value : str_ok value → valid_host value = true → Forall plain value.
Proof.
  intros Hs H. unfold valid_host in H. apply andb_true_iff in H as [_ Hl].
  eapply Forall_impl; [by apply labels_chars|]. intros c [Hc|[->| ->]]; [by apply alphanumeric_plain|unfold plain; lia..].
Qed.

Lemma parse_u16_nonneg digits p : parse_u16 digits = Ok p → 0 ≤ p.
Proof.
  unfold parse_u16. destruct (parse_uint U16_MAX digits) eqn:E; [|done]. intros [= <-].
  apply parse_uint_bound in E; lia.
Qed.
Lemma default_port_Ok (default_port : option Z) e p : ok_or (E:=RequestError) default_port e = Ok p → default 0 default_port = p.
Proof. by destruct default_port; intros [= <-]. Qed.

Lemma split_authority_plain value default_port host port :
  str_ok value → split_authority value default_port = Ok (host, port) → Forall plain host ∧
  (0 ≤ default 0 default_port → 0 ≤ port).
Proof.
  intros Hs H. unfold split_authority in H.
  destruct (strip_prefix [ch_lbracket] value) as [bracketed|].
  - bind_inv H. destruct r as [h suffix]. bind_inv H. bind_inv H. simplify_eq. split.
    + apply plain_lower. destruct (parse_ipv6 h) eqn:E6; [|done]. by eapply parse_ipv6_plain.
    + destruct suffix as [|c suffix]; [apply default_port_Ok in E1; lia|]. bind_inv E1. intros _. by eapply parse_u16_nonneg.
  - destruct (parse_ip value) as [a|] eqn:Eip.
    + bind_inv H. simplify_eq. split; [by eapply print_ip_plain, parse_ip_ok|]. apply default_port_Ok in E. lia.
    + bind_inv H. destruct r as [h p]. bind_inv H. apply reject_if_Ok in E0. bool_prop. simplify_eq.
      assert (str_ok h ∧ (0 ≤ default 0 default_port → 0 ≤ port)) as [Hh Hp].
      { destruct (rsplit_once ch_colon value) as [[h' p']|] eqn:Er.
        - apply rsplit_once_Some in Er as [_ ->]. apply Forall_app in Hs as [Hh Hr].
          destruct (contains_char ch_colon h').
          + bind_inv E. simplify_eq. apply default_port_Ok in E1. split; [apply Forall_app; by split|lia].
          + bind_inv E. simplify_eq. split; [done|]. intros _. by eapply parse_u16_nonneg.
        - bind_inv E. simplify_eq. apply default_port_Ok in E1. split; [done|lia]. }
      split; [|done]. by apply plain_lower, valid_host_plain.
Qed.

Lemma parse_authority_plain value default_port host port normalized :
  str_ok value → 0 ≤ default 0 default_port →
  parse_authority value default_port = Ok (host, port, normalized) → Forall plain normalized.
Proof.
  intros Hs Hd H. unfold parse_authority in H. bind_inv H. bind_inv H. destruct r0 as [h p]. bind_inv H. simplify_eq.
  destruct (split_authority_plain _ _ _ _ Hs E0) as [Hh Hp]. specialize (Hp Hd).
  assert (Forall plain (if contains_char ch_colon host then [ch_lbracket] ++ host ++ [ch_rbracket] else host)) as Hb.
  { destruct (contains_char ch_colon host); [|done]. constructor; [unfold plain; lia|].
    apply Forall_app. split; [done|]. constructor; [unfold plain; lia|constructor]. }
  unfold print_authority. cbv zeta. destruct (bool_decide (default_port = Some port)); [done|].
  rewrite !Forall_app. split_and!; [done| |].
  - constructor; [unfold plain; lia|constructor].
  - apply digits_plain, to_string_digits. lia.
Qed.

(** ** Forwarded fields *)

Lemma lit_plain_name name : name ∈ ["host"; "connection"]%string →
  lit name ≠ [] ∧ Forall (λ c, is_token_char c = true) (lit name) ∧ to_ascii_lowercase (lit name) = lit name.
Proof.
  rewrite !elem_of_cons, elem_of_nil. intros [->|[->|[]]]; (split_and!; [done| |reflexivity]);
    apply all_Forall; reflexivity.
Qed.

Lemma break_app p s a b : break p s = (a, b) → s = a ++ b.
Proof.
  revert a b. induction s as [|c s IH]; intros a b; cbn [break]; [by intros [= <- <-]|].
  destruct (p c); [by intros [= <- <-]|]. destruct (break p s) as [a' b']. intros [= <- <-].
  cbn. f_equal. by apply IH.
Qed.

Lemma parse_http_uri_parts uri host port authority origin :
  str_ok uri → parse_http_uri uri = Ok (host, port, authority, origin) →
  Forall plain authority ∧ str_ok origin ∧ any (λ b, is_ascii_control b || (b =? 32)) (as_bytes origin) = false.
Proof.
  intros Hs H. unfold parse_http_uri in H. bind_as H remainder Er.
  destruct (strip_prefix (lit "http://") uri) as [rest|] eqn:Ep; [|done]. apply strip_prefix_Some in Ep.
  assert (str_ok remainder) as Hr.
  { injection Er as <-. rewrite Ep in Hs. by apply Forall_app in Hs as [_ Hr]. }
  bind_as H u1 E1. destruct (break _ remainder) as [auth path] eqn:Eb.
  assert (remainder = auth ++ path) as ->.
  { pose proof (break_app _ _ _ _ Eb). done. }
  apply Forall_app in Hr as [Ha Hpath]. bind_as H u2 E2. bind_as H u3 E3. apply reject_if_Ok in E3.
  bind_as H [[h p] n] E4. simplify_eq. split; [eapply parse_authority_plain; [exact Ha| |exact E4]; cbn; lia|].
  split; [|done].
  destruct path as [|c path]; [vm_compute lit; constructor; [unfold scalar_ok; lia|constructor]|].
  case_match; [constructor; [unfold scalar_ok; lia|done]|done].
Qed.

Lemma forwarded_fields_ok headers authority :
  Forall field_ok headers → Forall plain authority → Forall field_ok (forwarded headers authority).
Proof.
  intros Hh Ha. unfold forwarded. rewrite !Forall_app. split_and!.
  - by apply Forall_filter_sub.
  - destruct (bool_decide _); [|constructor]. constructor; [|constructor].
    destruct (lit_plain_name "host") as (? & ? & ?); [set_solver|]. by apply plain_field.
  - constructor; [|constructor]. destruct (lit_plain_name "connection") as (? & ? & ?); [set_solver|].
    apply plain_field; try done. vm_compute lit. repeat (constructor; [unfold plain; lia|]). constructor.
Qed.

Lemma connection_token_only_proxy headers body name :
  validate_message_framing headers = Ok body → name ∈ framing_names →
  name ∈ connection_tokens headers ↔ header_has_token headers (lit "proxy-connection") name = true.
Proof.
  intros Hf Hn. assert (name ≠ [] ∧ to_ascii_lowercase name = name) as [H1 H2].
  { unfold framing_names in Hn. cbn [fmap list_fmap] in Hn. rewrite !elem_of_cons, elem_of_nil in Hn.
    by destruct Hn as [->|[->|[->|[]]]]. }
  rewrite elem_of_connection_tokens by done.
  rewrite (framing_no_connection_token headers body name) by done. naive_solver.
Qed.

Lemma dropped_framing_name headers body name :
  validate_message_framing headers = Ok body → name ∈ framing_names →
  dropped_name (connection_tokens headers) name = header_has_token headers (lit "proxy-connection") name.
Proof.
  intros Hf Hn. unfold dropped_name, dropped. cbn [fst].
  assert (bool_decide (name = lit "proxy-authorization") || is_hop_by_hop_header name = false) as ->.
  { unfold framing_names in Hn. cbn [fmap list_fmap] in Hn. rewrite !elem_of_cons, elem_of_nil in Hn.
    by destruct Hn as [->|[->|[->|[]]]]. }
  cbn [orb]. destruct (header_has_token _ _ name) eqn:E.
  - apply bool_decide_true. by apply (connection_token_only_proxy headers body).
  - apply bool_decide_false. rewrite (connection_token_only_proxy headers body) by done. by rewrite E.
Qed.

Lemma in_framing_names : lit "content-length" ∈ framing_names ∧ lit "transfer-encoding" ∈ framing_names ∧ lit "host" ∈ framing_names.
Proof. unfold framing_names. cbn [fmap list_fmap]. rewrite !elem_of_cons. tauto. Qed.

(** ** Accepted requests *)

Section Accepted.
Context (sha256 : list Z → list Z) (base64_decode : rstr → option (list Z)).

(** What an accepted request to be forwarded consists of. *)
Record accepted (lines : list (list Z)) (user hash : rstr) (req : ProxyRequest) (head : list Z) (body : RequestBody)
    (method uri version origin authority : rstr) (headers : list field) : Prop := {
  ac_headers : parse_headers (tail lines) = Ok headers;
  ac_auth : authenticate sha256 base64_decode headers user hash = Ok tt;
  ac_framing : validate_message_framing headers = Ok body;
  ac_uri : parse_http_uri uri = Ok (target_host req, target_port req, authority, origin);
  ac_method : valid_method method = true;
  ac_uri_ok : str_ok uri;
  ac_head : head = build_forward_head method origin headers authority;
  ac_hosts : header_values headers (lit "host") = [] ∨
    ∃ value h p, header_values headers (lit "host") = [value] ∧ parse_authority value (Some 80) = Ok (h, p, authority);
  ac_keep_alive : client_keep_alive req = request_keep_alive version headers;
}.

Lemma split_str_ok sep s : str_ok s → Forall str_ok (split sep s).
Proof.
  induction 1 as [|c s Hc Hs IH]; cbn [split]; [repeat constructor|].
  destruct (c =? sep); [by repeat constructor|]. destruct (split sep s) as [|q qs].
  - constructor; [|constructor]. constructor; [done|constructor].
  - apply Forall_cons in IH as [Hq Hqs]. constructor; [by constructor|done].
Qed.

Lemma parse_proxy_request_inv lines user hash req head body head_request :
  Forall bytes_ok lines → parse_proxy_request sha256 base64_decode lines user hash = Ok req →
  kind req = Forward head body head_request →
  ∃ method uri version origin authority headers,
    accepted lines user hash req head body method uri version origin authority headers.
Proof.
  intros Hl H Hk. destruct lines as [|first lines]; [done|]. cbn [parse_proxy_request] in H. bind_inv H.
  destruct (from_utf8 (strip_crlf first)) as [text|] eqn:Eu; [|done]. simplify_eq/=.
  assert (Forall str_ok (split 32 r)) as Hs.
  { apply split_str_ok. apply Forall_cons in Hl as [Hf _]. by eapply from_utf8_sound, Eu; apply bytes_ok_strip. }
  destruct (split 32 r) as [|method [|uri [|version [|]]]]; try done.
  bind_as H u1 Em. apply reject_if_Ok in Em. bool_prop. bind_as H headers Eh. bind_as H u2 Ea.
  unfold parse_request_target in H. bind_as H body' Ef. destruct (bool_decide (method = lit "CONNECT")).
  { bind_as H u3 E1. bind_as H [[h p] n] E2. by simplify_eq/=. }
  bind_as H [[[h p] authority] origin] Eu'. bind_as H u3 En. apply reject_if_Ok in En. bool_prop.
  bind_as H u4 Eo. simplify_eq/=.
  rewrite !Forall_cons in Hs. destruct Hs as (_ & Hu & _).
  exists method, uri, version, origin, authority, headers. split; try done; cbn; [by destruct u2|].
  destruct (header_values headers (lit "host")) as [|value values] eqn:Ev; [by left|]. right.
  bind_as Eo [[h' p'] n] Ep. apply reject_if_Ok in Eo. bool_prop. subst n.
  exists value, h', p'. split; [|done]. f_equal. rewrite len_cons in *. destruct values; [done|].
  rewrite len_cons in *. pose proof (len_nonneg values). lia.
Qed.

(** The forwarded head of an accepted request, field by field. *)
Lemma accepted_head lines user hash req head body method uri version origin authority headers :
  Forall bytes_ok lines → accepted lines user hash req head body method uri version origin authority headers →
  head = head_bytes (method ++ lit " " ++ origin ++ lit " HTTP/1.1") (forwarded headers authority) ∧
  Forall field_ok (forwarded headers authority).
Proof.
  intros Hl H. split; [rewrite (ac_head _ _ _ _ _ _ _ _ _ _ _ _ H); apply build_forward_head_bytes|].
  apply forwarded_fields_ok.
  - eapply parse_headers_ok; [|apply H]. destruct lines; [done|]. by apply Forall_cons in Hl as [_ Hl].
  - eapply parse_http_uri_parts; apply H.
Qed.

(** The recipient finds one [Host] field, for the target of the request. *)
Lemma accepted_host lines user hash req head body method uri version origin authority headers :
  accepted lines user hash req head body method uri version origin authority headers →
  ∃ value, header_values (forwarded headers authority) (lit "host") = [value] ∧
    (value = authority ∨ ∃ h p, parse_authority value (Some 80) = Ok (h, p, authority)).
Proof.
  intros H. unfold forwarded. rewrite !header_values_app.
  assert (header_values [KEEP_ALIVE] (lit "host") = []) as -> by reflexivity. rewrite app_nil_r.
  rewrite kept_values. destruct (dropped_name _ _).
  { rewrite bool_decide_true by done. exists authority. by split; [|left]. }
  destruct (ac_hosts _ _ _ _ _ _ _ _ _ _ _ _ H) as [->|(value & h & p & -> & Hp)].
  - rewrite bool_decide_true by done. exists authority. by split; [|left].
  - rewrite bool_decide_false by done. exists value. split; [done|]. right. by exists h, p.
Qed.
End Accepted.
