(* ===== verification/HttpProxy.v ===== *)
(** * The forward proxy: bodies and exchanges ([http_proxy_tunnel.rs])

    Reading requests and response heads from a stream, copying bodies by their
    framing, and one exchange between a client and a backend whose connections are
    both reused afterwards.

    A timeout is a read that fails. Bandwidth limits only delay and are left out. *)

From S2P Require Import Prelude ByteStream RustStr NetAddr RustText HttpMessage.
Local Open Scope Z_scope.
Set Default Proof Using "Type".

(** ** Lines *)

Fixpoint read_until_loop (fuel : nat) (line : list Z) : io (list Z) :=
  match fuel with
  | O => out_of_fuel
  | S fuel =>
      bytes ← read 1;
      match bytes with
      | [] => mret line
      | b :: _ => if b =? 10 then mret (line ++ [b]) else read_until_loop fuel (line ++ [b])
      end
  end.
(** [read_until(b'\n', ..)] of the buffered reader. *)
Definition read_until_newline : io (list Z) := fuel_for (λ fuel, read_until_loop fuel []).

Fixpoint body_line_loop (fuel : nat) (maximum : Z) (line : list Z) : io (list Z) :=
  if maximum <? len line then mret line
  else
    match fuel with
    | O => out_of_fuel
    | S fuel =>
        bytes ← read 1;
        match bytes with
        | [] => mret line
        | b :: _ => if b =? 10 then mret (line ++ [b]) else body_line_loop fuel maximum (line ++ [b])
        end
    end.
Definition read_body_line (maximum : Z) : io (list Z) :=
  line ← fuel_for (λ fuel, body_line_loop fuel maximum []);
  _ ← io_ensure (negb (bool_decide (line = []) || (maximum <? len line) || negb (ends_crlf line))) InvalidData;
  mret line.

(** ** Requests *)

Fixpoint read_request_lines (fuel : nat) (lines : list (list Z)) (total : Z)
    : io (result RequestError (list (list Z))) :=
  if MAX_HEADER_COUNT <? len lines then mret (Err HeaderTooLarge)
  else
    match fuel with
    | O => out_of_fuel
    | S fuel =>
        line ← attempt read_until_newline;
        match line with
        | Err _ => mret (Err Malformed)
        | Ok [] => mret (Err (if bool_decide (lines = []) then Closed else Malformed))
        | Ok line =>
            let total := saturating_add USIZE_MAX total (len line) in
            if MAX_HEADER_BYTES <? total then mret (Err HeaderTooLarge)
            else if negb (ends_crlf line) then mret (Err Malformed)
            else if bool_decide (line = CRLF) then mret (Ok lines)
            else read_request_lines fuel (lines ++ [line]) total
        end
    end.

Definition read_proxy_request (sha256 : list Z → list Z) (base64_decode : rstr → option (list Z))
    (expected_username expected_password_hash : rstr) : io (result RequestError ProxyRequest) :=
  lines ← fuel_for (λ fuel, read_request_lines fuel [] 0);
  mret (lines ← lines; parse_proxy_request sha256 base64_decode lines expected_username expected_password_hash).

(** ** Bodies *)

Definition BUFFER : Z := 16 * 1024.

Fixpoint copy_exact_loop (track : bool) (fuel : nat) (remaining transferred : Z) : io Z :=
  if remaining <=? 0 then mret transferred
  else
    match fuel with
    | O => out_of_fuel
    | S fuel =>
        bytes ← read (Z.to_nat (Z.min remaining BUFFER));
        match bytes with
        | [] => io_fail UnexpectedEof
        | _ =>
            _ ← write_all bytes;
            let transferred := saturating_add U64_MAX transferred (len bytes) in
            _ ← count_progress track (len bytes);
            remaining ← io_exec (usize_sub remaining (len bytes));
            copy_exact_loop track fuel remaining transferred
        end
    end.
Definition copy_exact_bytes (track : bool) (remaining : Z) : io Z :=
  fuel_for (λ fuel, copy_exact_loop track fuel remaining 0).

(** The size that a chunk line announces, in front of its extensions. *)
Definition chunk_size (line : list Z) : option Z :=
  size_text ← from_utf8 (strip_crlf line);
  from_str_radix 16 U64_MAX (trim (default [] (head (split 59 size_text)))).

Fixpoint copy_trailers (track : bool) (fuel : nat) (trailers transferred : Z) : io Z :=
  match fuel with
  | O => out_of_fuel
  | S fuel =>
      trailer ← read_body_line MAX_HEADER_BYTES;
      let trailers := saturating_add USIZE_MAX trailers (len trailer) in
      _ ← io_ensure (trailers <=? MAX_HEADER_BYTES) InvalidData;
      _ ← write_all trailer;
      let transferred := saturating_add U64_MAX transferred (len trailer) in
      _ ← count_progress track (len trailer);
      if bool_decide (trailer = CRLF) then mret transferred
      else copy_trailers track fuel trailers transferred
  end.

Fixpoint copy_chunked_loop (track : bool) (fuel : nat) (transferred : Z) : io Z :=
  match fuel with
  | O => out_of_fuel
  | S fuel =>
      line ← read_body_line (8 * 1024);
      size ← lift (ok_or (chunk_size line) InvalidData);
      _ ← write_all line;
      let transferred := saturating_add U64_MAX transferred (len line) in
      _ ← count_progress track (len line);
      if size =? 0 then fuel_for (λ fuel, copy_trailers track fuel 0 transferred)
      else
        data ← copy_exact_bytes track size;
        let transferred := saturating_add U64_MAX transferred data in
        terminator ← read_exact 2;
        _ ← io_ensure (bool_decide (terminator = CRLF)) InvalidData;
        _ ← write_all terminator;
        let transferred := saturating_add U64_MAX transferred 2 in
        _ ← count_progress track 2;
        copy_chunked_loop track fuel transferred
  end.
Definition copy_chunked_body (track : bool) : io Z := fuel_for (λ fuel, copy_chunked_loop track fuel 0).

Definition copy_request_body (track : bool) (body : RequestBody) : io Z :=
  match body with
  | BodyNone => mret 0
  | ContentLength length => copy_exact_bytes track length
  | Chunked => copy_chunked_body track
  end.

Fixpoint copy_until_eof_loop (fuel : nat) (transferred : Z) : io Z :=
  match fuel with
  | O => out_of_fuel
  | S fuel =>
      bytes ← read (Z.to_nat BUFFER);
      match bytes with
      | [] => mret transferred
      | _ =>
          _ ← write_all bytes;
          copy_until_eof_loop fuel (saturating_add U64_MAX transferred (len bytes))
      end
  end.
Definition copy_until_eof : io Z := fuel_for (λ fuel, copy_until_eof_loop fuel 0).

(** One direction of a CONNECT tunnel; [transferred] is the progress. *)
Fixpoint copy_counted_loop (fuel : nat) : io unit :=
  match fuel with
  | O => out_of_fuel
  | S fuel =>
      bytes ← read (Z.to_nat BUFFER);
      match bytes with
      | [] => shutdown
      | _ =>
          _ ← write_all bytes;
          _ ← count_progress true (len bytes);
          copy_counted_loop fuel
      end
  end.
Definition copy_counted_until_eof : io unit := fuel_for copy_counted_loop.

(** ** Responses *)

Record ParsedResponseHead := {
  status_line : rstr;
  http11 : bool;
  status : Z;
  resp_headers : list (rstr * rstr);
}.

Inductive ResponseBody := RespNone | RespContentLength (length : Z) | RespChunked | UntilEof.
Global Instance ResponseBody_eq_dec : EqDecision ResponseBody.
Proof. solve_decision. Defined.

Record HttpResponseTransfer := {
  tr_bytes : Z;
  tr_backend_reusable : bool;
  tr_client_reusable : bool;
}.

Record HttpExchangeOutcome := {
  bytes_from_public : Z;
  bytes_to_public : Z;
  backend_reusable : bool;
  client_reusable : bool;
}.

Fixpoint read_response_lines (fuel : nat) (lines : list (list Z)) (encoded_len : Z) : io (list (list Z)) :=
  if MAX_HEADER_COUNT <? len lines then io_fail InvalidData
  else
    match fuel with
    | O => out_of_fuel
    | S fuel =>
        line ← read_body_line MAX_HEADER_BYTES;
        let encoded_len := saturating_add USIZE_MAX encoded_len (len line) in
        _ ← io_ensure (encoded_len <=? MAX_HEADER_BYTES) InvalidData;
        if bool_decide (line = CRLF) then mret lines
        else read_response_lines fuel (lines ++ [line]) encoded_len
    end.

Definition parse_response_head (lines : list (list Z)) : option ParsedResponseHead :=
  first ← head lines;
  line ← from_utf8 (strip_crlf first);
  '(version, after) ← split_once 32 line;
  let code := match split_once 32 after with Some (code, _) => code | None => after end in
  status ← parse_uint U16_MAX code;
  if negb ((100 <=? status) && (status <=? 599)) then None
  else if negb (bool_decide (version = lit "HTTP/1.0" ∨ version = lit "HTTP/1.1")) then None
  else
    match parse_headers (tail lines) with
    | Ok headers =>
        Some {| status_line := line; http11 := bool_decide (version = lit "HTTP/1.1");
                status := status; resp_headers := headers |}
    | Err _ => None
    end.

Definition read_http_response_head : io ParsedResponseHead :=
  lines ← fuel_for (λ fuel, read_response_lines fuel [] 0);
  lift (ok_or (parse_response_head lines) InvalidData).

Definition is_informational (status : Z) : bool := (100 <=? status) && (status <? 200).

Definition response_body (headers : list (rstr * rstr)) (status : Z) (head_request : bool)
    : result IoError ResponseBody :=
  framing ← map_err (λ _, InvalidData) (validate_message_framing headers);
  if head_request || (status =? 204) || (status =? 304) || is_informational status then Ok RespNone
  else Ok match framing with
          | BodyNone => UntilEof
          | ContentLength length => RespContentLength length
          | Chunked => RespChunked
          end.

Definition build_forward_response_head (response : ParsedResponseHead) (keep_alive : bool) : list Z :=
  let tokens := connection_tokens response.(resp_headers) in
  as_bytes response.(status_line) ++ CRLF ++
  concat (encode_field <$>
    filter (λ h : rstr * rstr, is_hop_by_hop_header h.1 || bool_decide (h.1 ∈ tokens) = false) response.(resp_headers)) ++
  (if keep_alive then lit "connection: keep-alive" else lit "connection: close") ++ CRLF ++ CRLF.

Fixpoint copy_response_loop (head_request keep_alive : bool) (fuel : nat) (transferred : Z)
    : io HttpResponseTransfer :=
  match fuel with
  | O => out_of_fuel
  | S fuel =>
      response ← read_http_response_head;
      _ ← io_ensure (negb (response.(status) =? 101)) InvalidData;
      let informational := is_informational response.(status) in
      body ← lift (response_body response.(resp_headers) response.(status) head_request);
      let backend_persistent :=
        response.(http11) && negb (header_has_token response.(resp_headers) (lit "connection") (lit "close")) ||
        negb response.(http11) && header_has_token response.(resp_headers) (lit "connection") (lit "keep-alive") in
      let until_eof := bool_decide (body = UntilEof) in
      let backend_reusable := negb informational && backend_persistent && negb until_eof in
      let response_client_reusable := keep_alive && negb until_eof in
      let encoded_head := build_forward_response_head response (informational || response_client_reusable) in
      _ ← write_all encoded_head;
      let transferred := saturating_add U64_MAX transferred (len encoded_head) in
      if informational then copy_response_loop head_request keep_alive fuel transferred
      else
        body_bytes ← match body with
                     | RespNone => mret 0
                     | UntilEof => copy_until_eof
                     | RespContentLength length => copy_exact_bytes false length
                     | RespChunked => copy_chunked_body false
                     end;
        _ ← flush;
        _ ← (if response_client_reusable then mret tt else shutdown);
        mret {| tr_bytes := saturating_add U64_MAX transferred body_bytes;
                tr_backend_reusable := backend_reusable; tr_client_reusable := response_client_reusable |}
  end.
Definition copy_http_response (head_request keep_alive : bool) : io HttpResponseTransfer :=
  fuel_for (λ fuel, copy_response_loop head_request keep_alive fuel 0).

(** ** The exchange *)

(** Which of the two copies ended first. When the response did, the request copy is
    abandoned wherever it was; [abandoned] is the state it had reached. *)
Inductive Race := RequestFirst | ResponseFirst (abandoned : Pipe).

(** [upstream] carries the request from the client to the backend, [downstream] the
    response back. *)
Definition forward_http_exchange (encoded_head : list Z) (body : RequestBody) (head_request keep_alive : bool)
    (race : Race) (upstream downstream : Pipe) : exec (result IoError HttpExchangeOutcome * (Pipe * Pipe)) :=
  match write_all encoded_head upstream with
  | Panic => Panic
  | Done (Err e, upstream) => Done (Err e, (upstream, downstream))
  | Done (Ok _, upstream) =>
      let initial_bytes := len encoded_head in
      let response_keep_alive :=
        keep_alive && bool_decide (body = BodyNone ∨ body = ContentLength 0) in
      let response := copy_http_response head_request response_keep_alive downstream in
      match race with
      | RequestFirst =>
          let request := (n ← copy_request_body true body; _ ← flush; mret (saturating_add U64_MAX initial_bytes n))
                         (set_progress 0 upstream) in
          match request with
          | Panic => Panic
          | Done (Err e, upstream) => Done (Err e, (upstream, downstream))
          | Done (Ok sent, upstream) =>
              match response with
              | Panic => Panic
              | Done (Err e, downstream) => Done (Err e, (upstream, downstream))
              | Done (Ok t, downstream) =>
                  Done (Ok {| bytes_from_public := sent; bytes_to_public := tr_bytes t;
                              backend_reusable := tr_backend_reusable t; client_reusable := tr_client_reusable t |},
                        (upstream, downstream))
              end
          end
      | ResponseFirst abandoned =>
          match response with
          | Panic => Panic
          | Done (Err e, downstream) => Done (Err e, (abandoned, downstream))
          | Done (Ok t, downstream) =>
              match shutdown abandoned with
              | Panic => Panic
              | Done (Err e, upstream) => Done (Err e, (upstream, downstream))
              | Done (Ok _, upstream) =>
                  match shutdown downstream with
                  | Panic => Panic
                  | Done (Err e, downstream) => Done (Err e, (upstream, downstream))
                  | Done (Ok _, downstream) =>
                      Done (Ok {| bytes_from_public := saturating_add U64_MAX initial_bytes (progress upstream);
                                  bytes_to_public := tr_bytes t;
                                  backend_reusable := false; client_reusable := false |},
                            (upstream, downstream))
                  end
              end
          end
      end
  end.

(** ** Lines of a stream *)

(** Tactics: one step of a run, and of a run that is known to succeed. *)
Ltac run_step :=
  cbn beta;
  match goal with
  | |- runs (mbind _ _) _ _ => apply runs_bind
  | |- runs (mret _) _ _ => apply runs_ret
  | |- runs (io_fail _) _ _ => apply runs_fail
  | |- runs (io_ensure _ _) _ _ => apply runs_ensure; intros ?
  | |- runs (lift _) _ _ => apply runs_lift; intros ? ?
  end.

Lemma body_line_runs fuel maximum line p (ok : list Z → Pipe → Prop) :
  pipe_ok p → (length (incoming p) < fuel)%nat → lacks 10 line →
  (∀ text q, lacks 10 (line ++ text) → moves p q text [] 0 → ok (line ++ text) q) →
  (∀ text q, lacks 10 (line ++ text) → moves p q (text ++ [10]) [] 0 → ok (line ++ text ++ [10]) q) →
  runs (body_line_loop fuel maximum line) p ok.
Proof.
  revert line p. induction fuel as [|fuel IH]; intros line p Hok Hf Hl K1 K2; [lia|].
  assert (ok line p) as Hend.
  { rewrite <- (app_nil_r line). apply K1; [by rewrite app_nil_r|by apply moves_refl]. }
  cbn [body_line_loop]. destruct (maximum <? len line); [by run_step|].
  run_step. apply runs_read; [lia|done|]. intros [|b got] q Hq Hlen _.
  { run_step. rewrite <- (app_nil_r line). apply K1; [by rewrite app_nil_r|done]. }
  destruct got; [|simpl in Hlen; lia]. destruct (Z.eqb_spec b 10) as [->|Hb].
  { run_step. apply (K2 []); [by rewrite app_nil_r|done]. }
  assert (lacks 10 (line ++ [b])) as Hl' by (apply Forall_app; split; [done|by constructor]).
  pose proof (moves_length _ _ _ _ _ Hq) as Hlq. simpl in Hlq. apply IH; [apply Hq|lia|done|..].
  - intros text q' Ht Hq'. rewrite <- app_assoc in *. apply K1; [done|].
    pose proof (moves_trans _ _ _ _ _ _ _ _ _ Hq Hq') as H. done.
  - intros text q' Ht Hq'. rewrite <- app_assoc in *. apply (K2 (b :: text)); [done|].
    pose proof (moves_trans _ _ _ _ _ _ _ _ _ Hq Hq') as H. done.
Qed.

Lemma lacks_snoc_10 x y : lacks 10 x → x ++ [10] = y ++ CRLF → ∃ z, x = z ++ [13] ∧ y = z.
Proof.
  intros Hx E. replace (y ++ CRLF) with ((y ++ [13]) ++ [10]) in E by (by rewrite <- app_assoc).
  apply app_inj_tail in E as [-> _]. by exists y.
Qed.

Lemma runs_read_body_line maximum p (ok : list Z → Pipe → Prop) :
  pipe_ok p →
  (∀ text q, lacks 10 text → len text + 2 ≤ maximum → moves p q (text ++ CRLF) [] 0 → ok (text ++ CRLF) q) →
  runs (read_body_line maximum) p ok.
Proof.
  intros Hok K. unfold read_body_line. run_step. unfold fuel_for.
  assert (∀ line q, ends_crlf line = true → maximum <? len line = false → moves p q line [] 0 →
    (∃ text, lacks 10 text ∧ line = text ++ [10]) → ok line q) as Hgood.
  { intros line q He Hm Hq (text & Ht & ->). apply ends_crlf_inv in He as E.
    destruct (lacks_snoc_10 _ _ Ht E) as (z & -> & _). rewrite <- app_assoc in *. apply K; [|bool_prop|done].
    - by apply Forall_app in Ht as [Hz _].
    - rewrite !len_app in *. change (len [13; 10]) with 2 in *. change (len [13]) with 1 in *.
      change (len [10]) with 1 in *. lia. }
  assert (∀ line q, moves p q line [] 0 → (ends_crlf line = true → ∃ text, lacks 10 text ∧ line = text ++ [10]) →
    runs (_ ← io_ensure (negb (bool_decide (line = []) || (maximum <? len line) || negb (ends_crlf line))) InvalidData;
          mret line) q ok) as Hend.
  { intros line q Hq Ht. run_step. run_step. run_step. apply negb_true_iff in H.
    apply orb_false_iff in H as [H He]. apply orb_false_iff in H as [_ Hm]. apply negb_false_iff in He.
    apply Hgood; auto. }
  apply (body_line_runs _ maximum [] p); [done|lia|constructor|..]; intros text q Hl Hq; cbn [app] in *; apply Hend; [done| |done|].
  - intros He. exfalso. apply ends_crlf_inv in He. rewrite He in Hl. apply Forall_app in Hl as [_ Hl].
    by inversion Hl as [|? ? _ Hl']; inversion Hl'.
  - intros _. by exists text.
Qed.

(** ** Exact copies *)

Definition counted (track : bool) (bytes : list Z) : Z := if track then len bytes else 0.
Lemma counted_app track l k : counted track (l ++ k) = counted track l + counted track k.
Proof. destruct track; [apply len_app|done]. Qed.
Definition sat (a : Z) (bytes : list Z) : Z := saturating_add U64_MAX a (len bytes).
Lemma sat_app a l k : sat (sat a l) k = sat a (l ++ k).
Proof. unfold sat, saturating_add. rewrite len_app. pose proof (len_nonneg k). lia. Qed.
Lemma sat_nil a : a ≤ U64_MAX → sat a [] = a.
Proof. unfold sat, saturating_add. rewrite len_nil. lia. Qed.
Lemma sat_max a l : sat a l ≤ U64_MAX.
Proof. unfold sat, saturating_add. lia. Qed.

(** [copied track p q bytes]: the bytes went from the reader to the writer. *)
Definition copied (track : bool) (p q : Pipe) (bytes : list Z) : Prop :=
  moves p q bytes bytes (counted track bytes).
Lemma copied_trans track p q r l k : copied track p q l → copied track q r k → copied track p r (l ++ k).
Proof. intros H1 H2. unfold copied. rewrite counted_app. by eapply moves_trans. Qed.
Lemma copied_refl track p : pipe_ok p → copied track p p [].
Proof. intros H. unfold copied. destruct track; by apply moves_refl. Qed.

(** Reading, writing and counting the same bytes copies them. *)
Lemma copied_steps track p q1 q2 q3 bytes :
  moves p q1 bytes [] 0 → moves q1 q2 [] bytes 0 → moves q2 q3 [] [] (counted track bytes) → copied track p q3 bytes.
Proof.
  intros H1 H2 H3. pose proof (moves_trans _ _ _ _ _ _ _ _ _ (moves_trans _ _ _ _ _ _ _ _ _ H1 H2) H3) as H.
  by rewrite !app_nil_r in H.
Qed.

Lemma runs_relay {A} track bytes p q (k : io A) (ok : A → Pipe → Prop) :
  moves p q bytes [] 0 → (∀ r, copied track p r bytes → runs k r ok) →
  runs (_ ← write_all bytes; _ ← count_progress track (len bytes); k) q ok.
Proof.
  intros Hq K. apply runs_bind, runs_write; [apply Hq|]. intros q2 H2.
  apply runs_bind, runs_progress; [apply H2|]. intros q3 H3. apply K. by eapply copied_steps.
Qed.

Lemma copy_exact_loop_runs track fuel remaining transferred p (ok : Z → Pipe → Prop) :
  pipe_ok p → (length (incoming p) < fuel)%nat → 0 ≤ remaining → transferred ≤ U64_MAX →
  (∀ bytes q, len bytes = remaining → copied track p q bytes → ok (sat transferred bytes) q) →
  runs (copy_exact_loop track fuel remaining transferred) p ok.
Proof.
  revert remaining transferred p. induction fuel as [|fuel IH]; intros remaining transferred p Hok Hf Hr Ht K; [lia|].
  cbn [copy_exact_loop]. destruct (Z.leb_spec remaining 0) as [H0|H0].
  { apply runs_ret. rewrite <- (sat_nil transferred) by done. apply K; [rewrite len_nil; lia|by apply copied_refl]. }
  apply runs_bind, runs_read; [unfold BUFFER; lia|done|]. intros bytes q Hq Hl _.
  destruct bytes as [|b bytes]; [apply runs_fail|]. cbn [mbind]. apply runs_relay with p; [done|]. intros r Hc.
  assert (len (b :: bytes) ≤ remaining) as Hlr by (unfold len, BUFFER in *; lia).
  apply runs_bind. unfold io_exec, runs. rewrite usize_sub_Done by done.
  pose proof (moves_length _ _ _ _ _ Hc) as Hlen.
  apply IH; [apply Hc|simpl in *; lia|lia|apply sat_max|].
  intros more q' Hm Hq'. change (saturating_add U64_MAX transferred (len (b :: bytes))) with (sat transferred (b :: bytes)).
  rewrite sat_app. apply K; [rewrite len_app; lia|]. by eapply copied_trans.
Qed.

Lemma runs_copy_exact track remaining p (ok : Z → Pipe → Prop) :
  pipe_ok p → 0 ≤ remaining →
  (∀ bytes q, len bytes = remaining → copied track p q bytes → ok (sat 0 bytes) q) →
  runs (copy_exact_bytes track remaining) p ok.
Proof. intros Hok Hr K. apply copy_exact_loop_runs; [done|lia|done|lia|done]. Qed.

(** ** Chunked bodies *)

(** A line of at most [maximum] bytes. *)
Definition is_line (maximum : Z) (line : list Z) : Prop :=
  ∃ text, line = text ++ CRLF ∧ lacks 10 text ∧ len line ≤ maximum.

(** The trailer fields: lines of limited total size up to an empty one. *)
Inductive trailer_part : Z → list Z → Prop :=
  | trailer_end (used : Z) : used + 2 ≤ MAX_HEADER_BYTES → trailer_part used CRLF
  | trailer_line (used : Z) (line rest : list Z) :
      is_line MAX_HEADER_BYTES line → line ≠ CRLF → used + len line ≤ MAX_HEADER_BYTES →
      trailer_part (used + len line) rest → trailer_part used (line ++ rest).

(** The bytes of a chunked body (RFC 9112, 7.1). *)
Inductive chunked_body : list Z → Prop :=
  | last_chunk (line trailers : list Z) :
      is_line (8 * 1024) line → chunk_size line = Some 0 → trailer_part 0 trailers →
      chunked_body (line ++ trailers)
  | one_chunk (line data rest : list Z) :
      is_line (8 * 1024) line → chunk_size line = Some (len data) → data ≠ [] →
      chunked_body rest → chunked_body (line ++ data ++ CRLF ++ rest).

Lemma len_crlf text : len (text ++ CRLF) = len text + 2.
Proof. rewrite len_app. done. Qed.

Lemma trailers_runs track fuel used transferred p (ok : Z → Pipe → Prop) :
  pipe_ok p → (length (incoming p) < fuel)%nat → 0 ≤ used ≤ MAX_HEADER_BYTES → transferred ≤ U64_MAX →
  (∀ bytes q, trailer_part used bytes → copied track p q bytes → ok (sat transferred bytes) q) →
  runs (copy_trailers track fuel used transferred) p ok.
Proof.
  revert used transferred p. induction fuel as [|fuel IH]; intros used transferred p Hok Hf Hu Ht K; [lia|].
  cbn [copy_trailers]. apply runs_bind, runs_read_body_line; [done|]. intros text q Hl Hm Hq.
  assert (saturating_add USIZE_MAX used (len (text ++ CRLF)) = used + len (text ++ CRLF)) as ->.
  { apply saturating_add_small. rewrite len_crlf. unfold MAX_HEADER_BYTES in *. lia. }
  run_step. run_step. bool_prop. apply runs_relay with p; [done|]. intros r Hc.
  change (saturating_add U64_MAX transferred (len (text ++ CRLF))) with (sat transferred (text ++ CRLF)).
  case_bool_decide as He.
  { apply runs_ret. rewrite He in *. apply K; [|done]. constructor. done. }
  pose proof (moves_length _ _ _ _ _ Hc) as Hlen. rewrite length_app in Hlen. simpl in Hlen.
  apply IH; [apply Hc|lia|rewrite len_crlf in *; pose proof (len_nonneg text); lia|apply sat_max|].
  intros bytes q' Hb Hq'. rewrite sat_app. apply K; [|by eapply copied_trans].
  constructor; [|done|done|done]. exists text. rewrite len_crlf. done.
Qed.

Lemma chunk_size_range line size : chunk_size line = Some size → 0 ≤ size ≤ U64_MAX.
Proof.
  unfold chunk_size. destruct (from_utf8 (strip_crlf line)) as [t|]; [|done]. cbn.
  generalize (trim (default [] (head (split 59 t)))). intros s H.
  assert (∀ s acc v, 0 ≤ acc ≤ U64_MAX → radix_digits 16 U64_MAX acc s = Some v → 0 ≤ v ≤ U64_MAX) as Hd.
  { clear. induction s as [|c s IH]; intros acc v Ha H; cbn [radix_digits] in H; [by simplify_eq|].
    destruct (to_digit 16 c) as [d|] eqn:E; [|done]. cbn in H. apply NetPrint.to_digit_nonneg in E.
    case_match eqn:Ev; [|done]. bool_prop. apply IH in H; lia. }
  unfold from_str_radix in H. destruct s as [|c s]; [done|].
  case_match; [destruct s; [done|]|]; by eapply Hd; [|exact H].
Qed.

Lemma chunked_runs track fuel transferred p (ok : Z → Pipe → Prop) :
  pipe_ok p → (length (incoming p) < fuel)%nat → transferred ≤ U64_MAX →
  (∀ bytes q, chunked_body bytes → copied track p q bytes → ok (sat transferred bytes) q) →
  runs (copy_chunked_loop track fuel transferred) p ok.
Proof.
  revert transferred p. induction fuel as [|fuel IH]; intros transferred p Hok Hf Ht K; [lia|].
  cbn [copy_chunked_loop]. apply runs_bind, runs_read_body_line; [done|]. intros text q Hl Hm Hq.
  assert (is_line (8 * 1024) (text ++ CRLF)) as Hline by (exists text; by rewrite len_crlf).
  run_step. run_step. rename a into size. destruct (chunk_size (text ++ CRLF)) as [s|] eqn:Es; [|done]. simplify_eq/=.
  apply runs_relay with p; [done|]. intros r Hc.
  change (saturating_add U64_MAX transferred (len (text ++ CRLF))) with (sat transferred (text ++ CRLF)).
  pose proof (moves_length _ _ _ _ _ Hc) as Hlen. rewrite length_app in Hlen. simpl in Hlen.
  destruct (Z.eqb_spec size 0) as [->|Hs].
  { apply trailers_runs; [apply Hc|lia|unfold MAX_HEADER_BYTES; lia|apply sat_max|]. intros bytes q' Hb Hq'. rewrite sat_app.
    apply K; [by constructor|by eapply copied_trans]. }
  apply chunk_size_range in Es as Hr. apply runs_bind, runs_copy_exact; [apply Hc|lia|]. intros data q1 Hd Hq1.
  apply runs_bind, runs_read_exact; [apply Hq1|]. intros term q2 Ht2 Hq2.
  run_step. run_step. bool_prop. subst term. apply runs_relay with q1; [done|]. intros q3 Hq3.
  assert (copied track p q3 ((text ++ CRLF) ++ data ++ CRLF)) as Hc3
    by (eapply copied_trans; [exact Hc|]; by eapply copied_trans).
  pose proof (moves_length _ _ _ _ _ Hc3) as Hl3. rewrite !length_app in Hl3. simpl in Hl3.
  apply IH; [apply Hc3|lia|unfold saturating_add; lia|].
  intros rest q4 Hrest Hq4.
  replace (saturating_add U64_MAX (saturating_add U64_MAX (sat transferred (text ++ CRLF)) (sat 0 data)) 2)
    with (sat transferred ((text ++ CRLF) ++ data ++ CRLF)).
  2: { unfold sat, saturating_add. rewrite !len_app. change (len CRLF) with 2.
       pose proof (len_nonneg data). pose proof (len_nonneg text). lia. }
  rewrite sat_app. apply K; [|by eapply copied_trans]. rewrite <- !app_assoc.
  replace (text ++ CRLF ++ data ++ CRLF ++ rest) with ((text ++ CRLF) ++ data ++ CRLF ++ rest) by by rewrite <- app_assoc.
  constructor; [done|by rewrite Hd|by destruct data|done].
Qed.

(** ** Well-formed input is copied *)

Lemma gives_step {A B} (m : io A) (f : A → io B) p a t1 g1 n1 b t2 g2 n2 t g n :
  gives m p a t1 g1 n1 → (∀ q, moves p q t1 g1 n1 → gives (f a) q b t2 g2 n2) →
  t = t1 ++ t2 → g = g1 ++ g2 → n = n1 + n2 → gives (m ≫= f) p b t g n.
Proof. intros Hm Hf -> -> ->. by eapply gives_bind. Qed.

(** Taking a line byte by byte, for both of the loops that do. *)
Lemma byte_loop_gives (loop : nat → list Z → io (list Z)) (maximum : Z) t acc fuel p rest :
  (∀ fuel acc, len acc ≤ maximum → loop (S fuel) acc = bytes ← read 1;
     match bytes with [] => mret acc | b :: _ => if b =? 10 then mret (acc ++ [b]) else loop fuel (acc ++ [b]) end) →
  pipe_ok p → (length t < fuel)%nat → lacks 10 t → len acc + len t ≤ maximum → incoming p = t ++ 10 :: rest →
  gives (loop fuel acc) p (acc ++ t ++ [10]) (t ++ [10]) [] 0.
Proof.
  intros Hloop. revert acc fuel p.
  induction t as [|b t IH]; intros acc [|fuel] p Hok Hf Hl Hm Hi; simpl in Hf; [lia| |lia|].
  - rewrite Hloop by (rewrite len_nil in Hm; lia).
    eapply gives_step; [exact (read_one_gives p 10 rest Hok Hi)| |done..]. intros q Hq. apply gives_ret, Hq.
  - apply Forall_cons in Hl as [Hb Hl]. rewrite len_cons in Hm. pose proof (len_nonneg t).
    rewrite Hloop by lia. eapply gives_step; [exact (read_one_gives p b _ Hok Hi)| |done..].
    intros q Hq. cbn beta iota. rewrite (proj2 (Z.eqb_neq b 10)) by done.
    replace (acc ++ (b :: t) ++ [10]) with ((acc ++ [b]) ++ t ++ [10]) by by rewrite <- app_assoc.
    apply IH; [apply Hq|lia|done|rewrite len_app, len_singleton; lia|].
    pose proof (moves_taken _ _ _ _ _ Hq) as Ht. rewrite Hi in Ht. by injection Ht.
Qed.

Lemma incoming_crlf p text rest : incoming p = (text ++ CRLF) ++ rest → incoming p = (text ++ [13]) ++ 10 :: rest.
Proof. intros ->. by rewrite <- !app_assoc. Qed.
Lemma lacks_cr text : lacks 10 text → lacks 10 (text ++ [13]).
Proof. intros H. apply Forall_app. split; [done|]. by constructor. Qed.

Lemma read_until_gives p text rest :
  pipe_ok p → lacks 10 text → incoming p = (text ++ CRLF) ++ rest →
  gives read_until_newline p (text ++ CRLF) (text ++ CRLF) [] 0.
Proof.
  intros Hok Hl Hi. unfold read_until_newline, fuel_for.
  replace (text ++ CRLF) with ([] ++ (text ++ [13]) ++ [10]) by by rewrite <- app_assoc.
  apply (byte_loop_gives read_until_loop (len (text ++ [13])) (text ++ [13]) [] _ p rest); try done.
  - rewrite Hi, !length_app. simpl. lia.
  - by apply lacks_cr.
  - by apply incoming_crlf.
Qed.

Lemma read_body_line_gives maximum p line rest :
  pipe_ok p → is_line maximum line → incoming p = line ++ rest → gives (read_body_line maximum) p line line [] 0.
Proof.
  intros Hok (text & -> & Hl & Hm) Hi. unfold read_body_line, fuel_for. rewrite len_crlf in Hm.
  eapply gives_step.
  - apply (byte_loop_gives (λ fuel, body_line_loop fuel maximum) maximum (text ++ [13]) [] _ p rest).
    + intros fuel acc Ha. cbn [body_line_loop]. by rewrite (proj2 (Z.ltb_ge _ _)).
    + done.
    + rewrite Hi, !length_app. simpl. lia.
    + by apply lacks_cr.
    + rewrite len_nil, len_app, len_singleton. lia.
    + by apply incoming_crlf.
  - intros q Hq. cbn [app]. rewrite <- (app_assoc text [13] [10]). change ([13] ++ [10]) with CRLF.
    rewrite ends_crlf_app, len_crlf, (proj2 (Z.ltb_ge _ _)), bool_decide_false by (lia || by destruct text).
    by apply gives_ret, Hq.
  - by rewrite app_nil_r, <- app_assoc.
  - done.
  - done.
Qed.

(** The input that is left after a move. *)
Lemma moves_left p q t g n rest : moves p q t g n → incoming p = t ++ rest → incoming q = rest.
Proof. intros H Hi. rewrite (moves_taken _ _ _ _ _ H) in Hi. by apply app_inv_head in Hi. Qed.

Lemma relay_gives {A} track bytes p (k : io A) a t g n :
  pipe_ok p → room (wr p) = None →
  (∀ r, moves p r [] bytes (counted track bytes) → gives k r a t g n) →
  gives (_ ← write_all bytes; _ ← count_progress track (len bytes); k) p a t (bytes ++ g) (counted track bytes + n).
Proof.
  intros Hok Ho K.
  apply (gives_step _ _ _ tt [] bytes 0 _ t g (counted track bytes + n)); [by apply write_gives| |done..]. intros q Hq.
  apply (gives_step _ _ _ tt [] [] (counted track bytes) _ t g n); [apply progress_gives, Hq| |done..]. intros r Hr. apply K.
  pose proof (moves_trans _ _ _ _ _ _ _ _ _ Hq Hr) as H. by rewrite !app_nil_r in H.
Qed.

Lemma prefix_split (got bytes rest left : list Z) :
  (length got ≤ length bytes)%nat → bytes ++ rest = got ++ left → ∃ more, bytes = got ++ more ∧ left = more ++ rest.
Proof.
  intros Hl E. exists (drop (length got) bytes).
  assert (got = take (length got) bytes) as Hg.
  { rewrite <- (take_app_le bytes rest) by lia. by rewrite E, take_app_length. }
  split; [rewrite Hg at 1; by rewrite take_drop|].
  rewrite <- (drop_app_le bytes rest) by lia. by rewrite E, drop_app_length.
Qed.

Lemma copy_exact_loop_gives track fuel transferred bytes rest p :
  pipe_ok p → room (wr p) = None → (length (incoming p) < fuel)%nat → transferred ≤ U64_MAX →
  incoming p = bytes ++ rest →
  gives (copy_exact_loop track fuel (len bytes) transferred) p (sat transferred bytes) bytes bytes (counted track bytes).
Proof.
  revert transferred bytes p. induction fuel as [|fuel IH]; intros transferred bytes p Hok Ho Hf Ht Hi; [lia|].
  cbn [copy_exact_loop]. destruct (Z.leb_spec (len bytes) 0) as [H0|H0].
  { assert (bytes = []) as -> by (apply len_0_nil; pose proof (len_nonneg bytes); lia).
    rewrite sat_nil by done. destruct track; by apply gives_ret. }
  assert (bytes ++ rest ≠ []) as Hbr by (destruct bytes; [by destruct (Z.lt_irrefl 0)|done]).
  destruct (read_gives (Z.to_nat (Z.min (len bytes) BUFFER)) p Hok) as (got & Hg & Hne & Hl);
    [unfold BUFFER; lia|by rewrite Hi|].
  assert (∃ q, moves p q got [] 0) as (q0 & Hq0) by (destruct Hg as (q & _ & Hq); eauto).
  destruct (prefix_split got bytes rest (incoming q0)) as (more & -> & Hleft).
  { unfold len in Hl. lia. }
  { by rewrite <- Hi, (moves_taken _ _ _ _ _ Hq0). }
  apply (gives_step _ _ _ got got [] 0 _ more (got ++ more) (counted track got + counted track more));
    [exact Hg| |done|done|rewrite counted_app; lia].
  - intros q Hq. destruct got as [|b got]; [done|].
    apply (relay_gives track (b :: got) q _ _ more more (counted track more)); [apply Hq|by apply Hq|].
    intros r Hr. unfold io_exec. cbv [mbind io_bind]. rewrite usize_sub_Done by (rewrite len_app; pose proof (len_nonneg more); lia).
    change (saturating_add U64_MAX transferred (len (b :: got))) with (sat transferred (b :: got)).
    replace (len ((b :: got) ++ more) - len (b :: got)) with (len more) by (rewrite len_app; lia).
    rewrite <- sat_app. apply IH; [apply Hr|by apply Hr, Hq| |apply sat_max|].
    + pose proof (moves_length _ _ _ _ _ Hq). pose proof (moves_length _ _ _ _ _ Hr). simpl in *. lia.
    + eapply (moves_left q); [exact Hr|]. eapply (moves_left p); [exact Hq|]. by rewrite Hi, <- app_assoc.
Qed.
Lemma copy_exact_gives track bytes rest p :
  pipe_ok p → room (wr p) = None → incoming p = bytes ++ rest →
  gives (copy_exact_bytes track (len bytes)) p (sat 0 bytes) bytes bytes (counted track bytes).
Proof. intros. eapply copy_exact_loop_gives; eauto; lia. Qed.

Lemma trailers_gives track fuel used transferred bytes rest p :
  trailer_part used bytes → pipe_ok p → room (wr p) = None → (length (incoming p) < fuel)%nat →
  0 ≤ used → transferred ≤ U64_MAX → incoming p = bytes ++ rest →
  gives (copy_trailers track fuel used transferred) p (sat transferred bytes) bytes bytes (counted track bytes).
Proof.
  intros Hb. revert fuel transferred p. induction Hb as [used Hu|used line more Hline Hne Hu _ IH];
    intros [|fuel] transferred p Hok Ho Hf H0 Ht Hi; [lia| |lia|]; cbn [copy_trailers].
  - apply (gives_step _ _ _ CRLF CRLF [] 0 _ [] CRLF (counted track CRLF));
      [apply (read_body_line_gives _ p CRLF rest); [done| |done]| |done|done|done].
    { exists []. split; [done|]. split; [constructor|]. change (len CRLF) with 2. unfold MAX_HEADER_BYTES. lia. }
    { intros q Hq. rewrite (saturating_add_small USIZE_MAX used) by (change (len CRLF) with 2; unfold MAX_HEADER_BYTES in *; lia).
      rewrite (proj2 (Z.leb_le _ _)) by done. apply (gives_step _ _ _ tt [] [] 0 _ [] CRLF (counted track CRLF)); [apply gives_ret, Hq| |done..].
      intros q1 Hq1. rewrite <- (app_nil_r CRLF) at 3. rewrite <- (Z.add_0_r (counted track CRLF)).
      apply (relay_gives track CRLF); [apply Hq1|by apply Hq1, Hq|]. intros r Hr. apply gives_ret, Hr. }
  - assert (0 ≤ len line) by apply len_nonneg.
    apply (gives_step _ _ _ line line [] 0 _ more (line ++ more) (counted track line + counted track more));
      [apply (read_body_line_gives _ p line (more ++ rest)); [done|done|by rewrite Hi, <- app_assoc]| |done|done|by rewrite counted_app].
    { intros q Hq. rewrite (saturating_add_small USIZE_MAX used) by (unfold MAX_HEADER_BYTES in *; lia).
      rewrite (proj2 (Z.leb_le _ _)) by done. apply (gives_step _ _ _ tt [] [] 0 _ more (line ++ more) (counted track line + counted track more));
        [apply gives_ret, Hq| |done..]. intros q1 Hq1.
      apply (relay_gives track line); [apply Hq1|by apply Hq1, Hq|]. intros r Hr.
      rewrite bool_decide_false by done. change (saturating_add U64_MAX transferred (len line)) with (sat transferred line).
      rewrite <- sat_app. apply IH; [apply Hr|by apply Hr, Hq1, Hq| |lia|apply sat_max|].
      - pose proof (moves_length _ _ _ _ _ Hq). pose proof (moves_length _ _ _ _ _ Hq1).
        pose proof (moves_length _ _ _ _ _ Hr). destruct Hline as (text & -> & _). rewrite length_app in *. simpl in *. lia.
      - eapply (moves_left q1); [exact Hr|]. eapply (moves_left q); [exact Hq1|]. eapply (moves_left p); [exact Hq|].
        by rewrite Hi, <- app_assoc. }
Qed.

Lemma lift_gives {A} (m : result IoError A) a p : pipe_ok p → m = Ok a → gives (lift m) p a [] [] 0.
Proof. intros Hok ->. exists p. split; [done|]. by apply moves_refl. Qed.

Lemma is_line_length maximum line : is_line maximum line → (2 ≤ length line)%nat.
Proof. intros (text & -> & _). rewrite length_app. simpl. lia. Qed.

Lemma chunked_gives track fuel transferred bytes rest p :
  chunked_body bytes → pipe_ok p → room (wr p) = None → (length (incoming p) < fuel)%nat →
  transferred ≤ U64_MAX → incoming p = bytes ++ rest →
  gives (copy_chunked_loop track fuel transferred) p (sat transferred bytes) bytes bytes (counted track bytes).
Proof.
  intros Hb. revert fuel transferred p. induction Hb as [line trailers Hline Hsize Htr|line data more Hline Hsize Hne Hmore IH];
    intros [|fuel] transferred p Hok Ho Hf Ht Hi; [lia| |lia|]; cbn [copy_chunked_loop];
    pose proof (is_line_length _ _ Hline) as Hll; rewrite <- app_assoc in Hi.
  - apply (gives_step _ _ _ line line [] 0 _ trailers (line ++ trailers) (counted track line + counted track trailers));
      [apply (read_body_line_gives _ p line (trailers ++ rest)); done| |done|done|by rewrite counted_app].
    intros q Hq. rewrite Hsize.
    apply (gives_step _ _ _ 0 [] [] 0 _ trailers (line ++ trailers) (counted track line + counted track trailers));
      [apply lift_gives; [apply Hq|done]| |done..]. intros q1 Hq1. rewrite Z.eqb_refl.
    apply (relay_gives track line); [apply Hq1|by apply Hq1, Hq|]. intros r Hr.
    change (saturating_add U64_MAX transferred (len line)) with (sat transferred line). rewrite <- sat_app.
    apply (trailers_gives track _ 0 _ trailers rest); [done|apply Hr|by apply Hr, Hq1, Hq|lia|lia|apply sat_max|].
    eapply (moves_left q1); [exact Hr|]. eapply (moves_left q); [exact Hq1|]. by eapply (moves_left p).
  - rewrite <- !app_assoc in Hi.
    apply (gives_step _ _ _ line line [] 0 _ (data ++ CRLF ++ more) (line ++ data ++ CRLF ++ more)
      (counted track line + counted track (data ++ CRLF ++ more)));
      [apply (read_body_line_gives _ p line (data ++ CRLF ++ more ++ rest)); done| |done|done|by rewrite counted_app].
    intros q Hq. rewrite Hsize.
    apply (gives_step _ _ _ (len data) [] [] 0 _ (data ++ CRLF ++ more) (line ++ data ++ CRLF ++ more)
      (counted track line + counted track (data ++ CRLF ++ more))); [apply lift_gives; [apply Hq|done]| |done..].
    intros q1 Hq1. apply (relay_gives track line); [apply Hq1|by apply Hq1, Hq|]. intros r Hr.
    assert (incoming r = data ++ CRLF ++ more ++ rest) as Hir.
    { eapply (moves_left q1); [exact Hr|]. eapply (moves_left q); [exact Hq1|]. by eapply (moves_left p). }
    rewrite (proj2 (Z.eqb_neq (len data) 0)) by (by rewrite len_0_nil).
    apply (gives_step _ _ _ (sat 0 data) data data (counted track data) _ (CRLF ++ more) (CRLF ++ more)
      (counted track (CRLF ++ more))); [eapply copy_exact_gives; [apply Hr|by apply Hr, Hq1, Hq|exact Hir]| |done|done|by rewrite counted_app].
    intros q2 Hq2. assert (incoming q2 = CRLF ++ more ++ rest) as Hi2 by by eapply (moves_left r).
    apply (gives_step _ _ _ CRLF CRLF [] 0 _ more (CRLF ++ more) (counted track CRLF + counted track more));
      [by eapply read_exact_gives; [apply Hq2|exact Hi2|]| |done|done|by rewrite counted_app].
    intros q3 Hq3. rewrite bool_decide_true by done.
    apply (gives_step _ _ _ tt [] [] 0 _ more (CRLF ++ more) (counted track CRLF + counted track more));
      [apply gives_ret, Hq3| |done..]. intros q4 Hq4.
    apply (relay_gives track CRLF); [apply Hq4|by apply Hq4, Hq3, Hq2, Hr, Hq1, Hq|]. intros q5 Hq5.
    replace (saturating_add U64_MAX (saturating_add U64_MAX (saturating_add U64_MAX transferred (len line)) (sat 0 data)) 2)
      with (sat transferred (line ++ data ++ CRLF)).
    2: { unfold sat, saturating_add. rewrite !len_app. change (len CRLF) with 2.
         pose proof (chunk_size_range _ _ Hsize). pose proof (len_nonneg line). lia. }
    replace (line ++ data ++ CRLF ++ more) with ((line ++ data ++ CRLF) ++ more) by by rewrite <- !app_assoc.
    rewrite <- (sat_app transferred (line ++ data ++ CRLF) more). apply IH; [apply Hq5|by apply Hq5, Hq4, Hq3, Hq2, Hr, Hq1, Hq| |apply sat_max|].
    + pose proof (moves_length _ _ _ _ _ Hq). pose proof (moves_length _ _ _ _ _ Hq1). pose proof (moves_length _ _ _ _ _ Hr).
      pose proof (moves_length _ _ _ _ _ Hq2). pose proof (moves_length _ _ _ _ _ Hq3).
      pose proof (moves_length _ _ _ _ _ Hq4). pose proof (moves_length _ _ _ _ _ Hq5). simpl in *. lia.
    + eapply (moves_left q4); [exact Hq5|]. eapply (moves_left q3); [exact Hq4|]. by eapply (moves_left q2).
Qed.

(** The body of a request that its framing delimits. *)
Definition framed (body : RequestBody) (bytes : list Z) : Prop :=
  match body with
  | BodyNone => bytes = []
  | ContentLength length => len bytes = length
  | Chunked => chunked_body bytes
  end.

Lemma request_body_runs track body p (ok : Z → Pipe → Prop) :
  pipe_ok p → (∀ length, body = ContentLength length → 0 ≤ length) →
  (∀ bytes q, framed body bytes → copied track p q bytes → ok (sat 0 bytes) q) →
  runs (copy_request_body track body) p ok.
Proof.
  intros Hok Hr K. destruct body as [|length|]; cbn [copy_request_body].
  - apply runs_ret. apply (K []); [done|by apply copied_refl].
  - apply runs_copy_exact; [done|by apply Hr|]. intros bytes q Hb. by apply K.
  - apply chunked_runs; [done|lia|lia|]. intros bytes q Hb. by apply K.
Qed.
Lemma request_body_gives track body bytes rest p :
  framed body bytes → pipe_ok p → room (wr p) = None → incoming p = bytes ++ rest →
  gives (copy_request_body track body) p (sat 0 bytes) bytes bytes (counted track bytes).
Proof.
  intros Hb Hok Ho Hi. destruct body as [|length|]; cbn [copy_request_body framed] in *.
  - subst. destruct track; by apply gives_ret.
  - subst. by eapply copy_exact_gives.
  - eapply chunked_gives; eauto; lia.
Qed.

(** ** Responses *)

Lemma until_eof_runs fuel transferred p (ok : Z → Pipe → Prop) :
  pipe_ok p → (length (incoming p) < fuel)%nat → transferred ≤ U64_MAX →
  (∀ bytes q, incoming q = [] → copied false p q bytes → ok (sat transferred bytes) q) →
  runs (copy_until_eof_loop fuel transferred) p ok.
Proof.
  revert transferred p. induction fuel as [|fuel IH]; intros transferred p Hok Hf Ht K; [lia|].
  cbn [copy_until_eof_loop]. apply runs_bind, runs_read; [unfold BUFFER; lia|done|]. intros bytes q Hq Hl Hnil.
  destruct bytes as [|b bytes].
  { apply runs_ret. rewrite <- (sat_nil transferred) by done. apply K; [|done].
    pose proof (moves_taken _ _ _ _ _ Hq) as E. by rewrite (Hnil eq_refl) in E. }
  apply runs_bind, runs_write; [apply Hq|]. intros q1 Hq1.
  pose proof (moves_trans _ _ _ _ _ _ _ _ _ Hq Hq1) as Hc. rewrite app_nil_r in Hc.
  pose proof (moves_length _ _ _ _ _ Hc) as Hlen. simpl in Hlen.
  apply IH; [apply Hc|lia|apply sat_max|]. intros more q2 He Hq2.
  change (saturating_add U64_MAX transferred (len (b :: bytes))) with (sat transferred (b :: bytes)). rewrite sat_app.
  apply K; [done|]. by eapply (copied_trans false).
Qed.

(** The lines of a head with its final empty line. *)
Definition head_text (lines : list (list Z)) : list Z := concat lines ++ CRLF.

Lemma response_lines_runs fuel lines encoded_len p (ok : list (list Z) → Pipe → Prop) :
  pipe_ok p → (length (incoming p) < fuel)%nat →
  (∀ more q, Forall (is_line MAX_HEADER_BYTES) more → moves p q (head_text more) [] 0 → ok (lines ++ more) q) →
  runs (read_response_lines fuel lines encoded_len) p ok.
Proof.
  revert lines encoded_len p. induction fuel as [|fuel IH]; intros lines encoded_len p Hok Hf K; [lia|].
  cbn [read_response_lines]. destruct (MAX_HEADER_COUNT <? len lines); [apply runs_fail|].
  apply runs_bind, runs_read_body_line; [done|]. intros text q Hl Hm Hq. run_step. run_step. case_bool_decide as He.
  { apply runs_ret. rewrite <- (app_nil_r lines). apply K; [constructor|]. by rewrite He in Hq. }
  pose proof (moves_length _ _ _ _ _ Hq) as Hlen. rewrite length_app in Hlen. simpl in Hlen.
  apply IH; [apply Hq|lia|]. intros more q1 Hmore Hq1. rewrite <- app_assoc. apply K.
  - constructor; [|done]. exists text. by rewrite len_crlf.
  - pose proof (moves_trans _ _ _ _ _ _ _ _ _ Hq Hq1) as Hm'.
    unfold head_text in *. change (concat ([text ++ CRLF] ++ more)) with ((text ++ CRLF) ++ concat more).
    by rewrite <- (app_assoc (text ++ CRLF)).
Qed.

(** [hb] is the head of the response [resp]. *)
Definition response_head (hb : list Z) (resp : ParsedResponseHead) : Prop :=
  ∃ lines, hb = head_text lines ∧ Forall (is_line MAX_HEADER_BYTES) lines ∧ parse_response_head lines = Some resp.

Lemma response_head_runs p (ok : ParsedResponseHead → Pipe → Prop) :
  pipe_ok p → (∀ hb resp q, response_head hb resp → moves p q hb [] 0 → ok resp q) →
  runs read_http_response_head p ok.
Proof.
  intros Hok K. unfold read_http_response_head. run_step. apply response_lines_runs; [done|lia|].
  intros lines q Hl Hq. run_step. cbn [app] in *. destruct (parse_response_head lines) as [resp|] eqn:E; [|done].
  simplify_eq/=. apply K with (head_text lines); [|done]. by exists lines.
Qed.

(** The heads up to the one of the final response: what is read and what is passed on. *)
Inductive response_heads (keep_alive : bool) : list Z → list Z → ParsedResponseHead → Prop :=
  | final_head (hb : list Z) (resp : ParsedResponseHead) :
      response_head hb resp → is_informational (status resp) = false →
      response_heads keep_alive hb (build_forward_response_head resp keep_alive) resp
  | informational_head (hb more given : list Z) (info resp : ParsedResponseHead) :
      response_head hb info → is_informational (status info) = true → status info ≠ 101 →
      response_heads keep_alive more given resp →
      response_heads keep_alive (hb ++ more) (build_forward_response_head info true ++ given) resp.

(** The body of a response that its framing delimits; [more] is what is to come after it. *)
Definition response_framed (body : ResponseBody) (bytes more : list Z) : Prop :=
  match body with
  | RespNone => bytes = []
  | RespContentLength length => len bytes = length
  | RespChunked => chunked_body bytes
  | UntilEof => more = []
  end.

Definition persistent (resp : ParsedResponseHead) : bool :=
  resp.(http11) && negb (header_has_token resp.(resp_headers) (lit "connection") (lit "close")) ||
  negb resp.(http11) && header_has_token resp.(resp_headers) (lit "connection") (lit "keep-alive").

(** A complete transfer of a response. *)
Record transferred_response (head_request keep_alive : bool) (p q : Pipe) (t : HttpResponseTransfer)
    (resp : ParsedResponseHead) (body : ResponseBody) (heads given bytes : list Z) : Prop := {
  tr_heads : response_heads (tr_client_reusable t) heads given resp;
  tr_body : response_body (resp_headers resp) (status resp) head_request = Ok body;
  tr_framed : response_framed body bytes (incoming q);
  tr_moves : moves p q (heads ++ bytes) (given ++ bytes) 0;
  tr_client : tr_client_reusable t = keep_alive && negb (bool_decide (body = UntilEof));
  tr_backend : tr_backend_reusable t = persistent resp && negb (bool_decide (body = UntilEof));
  tr_closed : tr_client_reusable t = false → closed (wr q) = true;
}.

Lemma runs_flush p (ok : unit → Pipe → Prop) : ok tt p → runs flush p ok.
Proof. intros H. unfold runs, flush, flush_writer. by destruct (broken (wr p)), p. Qed.
Lemma runs_shutdown p (ok : unit → Pipe → Prop) :
  pipe_ok p → (∀ q, moves p q [] [] 0 → closed (wr q) = true → ok tt q) → runs shutdown p ok.
Proof.
  intros Hok K. unfold runs, shutdown, shutdown_writer. destruct (broken (wr p)); [done|]. apply K; [|done].
  pose proof (moves_refl p Hok) as H. destruct H. by split.
Qed.

Lemma framing_range headers n : validate_message_framing headers = Ok (ContentLength n) → 0 ≤ n ≤ U64_MAX.
Proof.
  intros H. unfold validate_message_framing in H. bind_inv H. bind_inv H. bind_inv H.
  destruct (header_values headers (lit "transfer-encoding")); [|done].
  destruct (header_values headers (lit "content-length")) as [|v vs]; [done|]. bind_inv H. simplify_eq.
  destruct (parse_uint U64_MAX v) eqn:Ev; [|done]. simplify_eq/=. apply parse_uint_bound in Ev; lia.
Qed.

Lemma response_body_runs headers status head_request body p (ok : Z → Pipe → Prop) :
  response_body headers status head_request = Ok body → pipe_ok p →
  (∀ bytes q, response_framed body bytes (incoming q) → copied false p q bytes → ok (sat 0 bytes) q) →
  runs match body with
       | RespNone => mret 0
       | UntilEof => copy_until_eof
       | RespContentLength length => copy_exact_bytes false length
       | RespChunked => copy_chunked_body false
       end p ok.
Proof.
  intros Hb Hok K. destruct body as [|n| |].
  - apply runs_ret. apply (K []); [done|by apply (copied_refl false)].
  - apply runs_copy_exact; [done| |intros bytes q Hl; by apply K].
    unfold response_body in Hb. bind_as Hb framing Ef. destruct (validate_message_framing headers) as [f|] eqn:E; [|done].
    simplify_eq/=. case_match; [done|]. destruct framing; simplify_eq. by destruct (framing_range _ _ E).
  - apply chunked_runs; [done|lia|lia|]. intros bytes q Hc. by apply K.
  - apply until_eof_runs; [done|lia|lia|]. intros bytes q Hq. by apply K.
Qed.

Lemma response_runs head_request keep_alive fuel transferred p (ok : HttpResponseTransfer → Pipe → Prop) :
  pipe_ok p → (length (incoming p) < fuel)%nat →
  (∀ t q resp body heads given bytes,
     transferred_response head_request keep_alive p q t resp body heads given bytes → ok t q) →
  runs (copy_response_loop head_request keep_alive fuel transferred) p ok.
Proof.
  revert transferred p. induction fuel as [|fuel IH]; intros transferred p Hok Hf K; [lia|].
  cbn [copy_response_loop]. apply runs_bind, response_head_runs; [done|]. intros hb resp q Hh Hq.
  run_step. run_step. bool_prop. run_step. run_step. rename a into body.
  apply runs_bind, runs_write; [apply Hq|]. intros q1 Hq1.
  pose proof (moves_trans _ _ _ _ _ _ _ _ _ Hq Hq1) as Hh1. rewrite app_nil_r in Hh1. cbn [app] in Hh1.
  destruct (is_informational (status resp)) eqn:Hi.
  - assert (2 ≤ length hb)%nat as Hl2 by (destruct Hh as (lines & -> & _); unfold head_text; rewrite length_app; simpl; lia).
    pose proof (moves_length _ _ _ _ _ Hh1) as Hlen. apply IH; [apply Hh1|lia|].
    intros t q2 resp' body' heads given bytes [].
    apply (K _ _ resp' body' (hb ++ heads) (build_forward_response_head resp true ++ given) bytes). split; try done.
    + by apply (informational_head _ hb heads given resp resp').
    + pose proof (moves_trans _ _ _ _ _ _ _ _ _ Hh1 tr_moves0) as Hm. rewrite <- !app_assoc. exact Hm.
  - apply runs_bind. eapply response_body_runs; [done|apply Hh1|]. intros bytes q2 Hb Hq2. run_step. apply runs_flush.
    pose proof (moves_trans _ _ _ _ _ _ _ _ _ Hh1 Hq2) as Hm. cbn [orb negb andb counted] in *.
    destruct (keep_alive && negb (bool_decide (body = UntilEof))) eqn:Ek.
    + run_step. run_step. run_step. eapply K. split; cbn; [|done|exact Hb|exact Hm|done|done|done]. by apply final_head.
    + run_step. apply runs_shutdown; [apply Hm|]. intros q3 Hq3 Hc. run_step. eapply K.
      split; cbn; [|done| | |done|done|done].
      * by apply final_head.
      * by rewrite <- (moves_taken _ _ _ _ _ Hq3 : incoming q2 = incoming q3).
      * pose proof (moves_trans _ _ _ _ _ _ _ _ _ Hm Hq3) as H3. by rewrite !app_nil_r in H3.
Qed.

(** ** Exchanges *)

Lemma runs_inv {A} (m : io A) p (ok : A → Pipe → Prop) : runs m p ok →
  (∃ a q, m p = Done (Ok a, q) ∧ ok a q) ∨ ∃ e q, m p = Done (Err e, q).
Proof. unfold runs. destruct (m p) as [[[a|e] q]|]; [left|right|done]; eauto. Qed.

(** The request side of an exchange: the head and then the framed body. *)
Lemma request_runs (head : list Z) body p :
  pipe_ok p → (∀ n, body = ContentLength n → 0 ≤ n) →
  runs (n ← copy_request_body true body; _ ← flush; mret (saturating_add U64_MAX (len head) n)) p
    (λ _ q, ∃ sent, framed body sent ∧ copied true p q sent).
Proof.
  intros Hok Hr. apply runs_bind, request_body_runs; [done|done|]. intros bytes q Hb Hq.
  apply runs_bind, runs_flush, runs_ret. eauto.
Qed.

Lemma pipe_ok_progress n p : pipe_ok p → 0 ≤ n ≤ U64_MAX → pipe_ok (set_progress n p).
Proof. by intros [H _] Hn. Qed.

(** An exchange that ended well: the request was sent whole, or nothing is reused. *)
Record completed_exchange (head : list Z) (body : RequestBody) (head_request keep_alive : bool)
    (o : HttpExchangeOutcome) (up down up' down' : Pipe)
    (sent : list Z) (resp : ParsedResponseHead) (rbody : ResponseBody) (heads given bytes : list Z) : Prop := {
  xc_sent : framed body sent;
  xc_taken : incoming up = sent ++ incoming up';
  xc_written : written (wr up') = written (wr up) ++ head ++ sent;
  xc_heads : response_heads (client_reusable o) heads given resp;
  xc_body : response_body (resp_headers resp) (status resp) head_request = Ok rbody;
  xc_framed : response_framed rbody bytes (incoming down');
  xc_received : incoming down = heads ++ bytes ++ incoming down';
  xc_given : written (wr down') = written (wr down) ++ given ++ bytes;
  xc_client : client_reusable o =
    (keep_alive && bool_decide (body = BodyNone ∨ body = ContentLength 0)) && negb (bool_decide (rbody = UntilEof));
  xc_backend : backend_reusable o = persistent resp && negb (bool_decide (rbody = UntilEof));
}.

Lemma exchange_outcome head body head_request keep_alive race up down :
  pipe_ok up → pipe_ok down → (∀ n, body = ContentLength n → 0 ≤ n) →
  ∃ r pipes, forward_http_exchange head body head_request keep_alive race up down = Done (r, pipes) ∧
    ∀ o, r = Ok o →
      (backend_reusable o = false ∧ client_reusable o = false ∧ ∃ abandoned, race = ResponseFirst abandoned) ∨
      ∃ sent resp rbody heads given bytes,
        race = RequestFirst ∧
        completed_exchange head body head_request keep_alive o up down pipes.1 pipes.2 sent resp rbody heads given bytes.
Proof.
  intros Hu Hd Hr. unfold forward_http_exchange.
  destruct (runs_inv (write_all head) up (λ _ q, moves up q [] head 0)) as [([] & u1 & -> & Hu1)|(e & u1 & ->)];
    [apply runs_write; auto| |by eexists _, _; split].
  assert (pipe_ok (set_progress 0 u1)) as Hp by (apply pipe_ok_progress; [apply Hu1|lia]).
  set (ka := keep_alive && bool_decide (body = BodyNone ∨ body = ContentLength 0)).
  destruct (runs_inv (copy_http_response head_request ka) down (λ t q, ∃ resp rbody heads given bytes,
    transferred_response head_request ka down q t resp rbody heads given bytes)) as [(t & d1 & -> & Ht)|(e & d1 & ->)].
  { apply response_runs; [done|lia|]. eauto 10. }
  2: { destruct race as [|ab]; [|by eexists _, _; split].
       destruct (runs_inv _ _ _ (request_runs head body (set_progress 0 u1) Hp Hr))
         as [(n & u2 & -> & _)|(e' & u2 & ->)]; by eexists _, _; split. }
  destruct race as [|ab].
  - destruct (runs_inv _ _ _ (request_runs head body (set_progress 0 u1) Hp Hr))
      as [(n & u2 & -> & (sent & Hs & Hc))|(e' & u2 & ->)]; [|by eexists _, _; split].
    eexists _, _. split; [done|]. intros o [= <-]. right.
    destruct Ht as (resp & rbody & heads & given & bytes & []). exists sent, resp, rbody, heads, given, bytes.
    split; [done|]. split; cbn; try done.
    + pose proof (moves_taken _ _ _ _ _ Hu1) as E1. pose proof (moves_taken _ _ _ _ _ Hc) as E2. cbn in E1. by rewrite E1.
    + rewrite (moves_given _ _ _ _ _ Hc). cbn. by rewrite (moves_given _ _ _ _ _ Hu1), app_assoc.
    + by rewrite (moves_taken _ _ _ _ _ tr_moves0), <- app_assoc.
    + by rewrite (moves_given _ _ _ _ _ tr_moves0).
  - unfold shutdown. destruct (shutdown_writer (wr ab)) as [[[]|e] w]; [|by eexists _, _; split].
    destruct (shutdown_writer (wr d1)) as [[[]|e] w']; [|by eexists _, _; split].
    eexists _, _. split; [done|]. intros o [= <-]. left. eauto.
Qed.

(** ** The recipient of a forwarded head *)

Lemma attempt_gives {A} (m : io A) p a t g n : gives m p a t g n → gives (attempt m) p (Ok a) t g n.
Proof. intros (q & E & Hq). exists q. unfold attempt. by rewrite E. Qed.

Lemma request_lines_gives lines acc total fuel rest p :
  Forall (λ l, ∃ text, l = text ++ CRLF ∧ lacks 10 text ∧ text ≠ []) lines →
  pipe_ok p → incoming p = head_text lines ++ rest → (length (incoming p) < fuel)%nat →
  len acc + len lines ≤ MAX_HEADER_COUNT → 0 ≤ total → total + len (head_text lines) ≤ MAX_HEADER_BYTES →
  gives (read_request_lines fuel acc total) p (Ok (acc ++ lines)) (head_text lines) [] 0.
Proof.
  intros Hl. revert acc total fuel p. unfold head_text.
  induction Hl as [|line lines (text & -> & Ht & Hne) Hl IH];
    intros acc total [|fuel] p Hok Hi Hf Hc H0 Hs; try lia; cbn [read_request_lines].
  - rewrite (proj2 (Z.ltb_ge _ _)) by (rewrite len_nil in Hc; lia). cbn [concat app] in *.
    apply (gives_step _ _ _ (Ok CRLF) CRLF [] 0 _ [] [] 0); [|intros q Hq|done..].
    { apply attempt_gives. by apply (read_until_gives p [] rest); [|constructor|]. }
    cbn [CRLF]. change (len [13; 10]) with 2. assert (total + 2 ≤ MAX_HEADER_BYTES) as Hs' by exact Hs.
    rewrite saturating_add_small by (unfold MAX_HEADER_BYTES in *; lia).
    rewrite (proj2 (Z.ltb_ge _ _)) by lia. cbn. rewrite app_nil_r. apply gives_ret, Hq.
  - rewrite len_cons in Hc. pose proof (len_nonneg lines). rewrite (proj2 (Z.ltb_ge _ _)) by lia. cbn [concat] in *.
    rewrite <- !app_assoc in Hi. rewrite <- app_assoc in Hs. rewrite !len_app in Hs.
    change (len CRLF) with 2 in Hs. pose proof (len_nonneg text). pose proof (len_nonneg (concat lines)).
    apply (gives_step _ _ _ (Ok (text ++ CRLF)) (text ++ CRLF) [] 0 _ (concat lines ++ CRLF) [] 0);
      [|intros q Hq|by rewrite <- app_assoc|done|done].
    { apply attempt_gives. apply (read_until_gives p text (concat lines ++ CRLF ++ rest)); [done|done|by rewrite <- app_assoc]. }
    destruct (text ++ CRLF) as [|b l] eqn:E; [by destruct text|]. rewrite <- E.
    rewrite saturating_add_small by (rewrite len_crlf; unfold MAX_HEADER_BYTES in *; lia).
    rewrite (proj2 (Z.ltb_ge _ _)) by (rewrite len_crlf; lia). rewrite ends_crlf_app. cbn [negb].
    rewrite bool_decide_false.
    2: { intros Ec. apply (app_inv_tail CRLF text []) in Ec. done. }
    replace (acc ++ (text ++ CRLF) :: lines) with ((acc ++ [text ++ CRLF]) ++ lines) by by rewrite <- app_assoc.
    pose proof (moves_length _ _ _ _ _ Hq) as Hlen. rewrite <- E in Hlen. rewrite length_app in Hlen. simpl in Hlen.
    apply IH; [apply Hq| |lia|rewrite len_app, len_singleton; lia|rewrite len_crlf; lia|].
    + eapply (moves_left p); [exact Hq|]. rewrite Hi, <- E, <- !app_assoc. done.
    + rewrite len_app, len_crlf. change (len CRLF) with 2. lia.
Qed.

Lemma field_line h : field_ok h → ∃ text, encode_field h = text ++ CRLF ∧ lacks 10 text ∧ text ≠ [].
Proof.
  intros [Hn Ht _ Hv _ Hc]. exists (as_bytes h.1 ++ lit ": " ++ as_bytes h.2).
  unfold encode_field. rewrite <- !app_assoc. split; [done|]. split.
  - rewrite as_bytes_ascii by by apply tokens_ascii. unfold lacks. rewrite !Forall_app. split_and!.
    + eapply Forall_impl; [exact Ht|]. intros c Htok. destruct (token_char_range c Htok). lia.
    + vm_compute lit. repeat (constructor; [lia|]). constructor.
    + apply any_false_Forall in Hc. eapply Forall_impl; [exact Hc|]. intros b Hb ->. done.
  - rewrite as_bytes_ascii by by apply tokens_ascii. by destruct h.1.
Qed.

Lemma head_bytes_text first fields :
  head_bytes first fields = head_text ((as_bytes first ++ CRLF) :: (encode_field <$> fields)).
Proof. unfold head_bytes, head_text. cbn [concat]. by rewrite <- !app_assoc. Qed.

(** The fields of the forwarded head as its recipient reads them from the stream. *)
Lemma forwarded_head_read sha256 base64_decode lines user hash req head body hr headers rest p :
  Forall bytes_ok lines → parse_proxy_request sha256 base64_decode lines user hash = Ok req →
  kind req = Forward head body hr → parse_headers (tail lines) = Ok headers →
  len head ≤ MAX_HEADER_BYTES → len lines + 2 ≤ MAX_HEADER_COUNT →
  pipe_ok p → incoming p = head ++ rest →
  ∃ method uri version origin authority lines' q,
    accepted sha256 base64_decode lines user hash req head body method uri version origin authority headers ∧
    read_request_lines (S (length (incoming p))) [] 0 p = Done (Ok (Ok lines'), q) ∧ incoming q = rest ∧
    parse_headers (tail lines') = Ok (forwarded headers authority).
Proof.
  intros Hb Hp Hk Hh Hs Hc Hok Hi.
  destruct (parse_proxy_request_inv _ _ _ _ _ _ _ _ _ Hb Hp Hk) as (method & uri & version & origin & authority & headers' & Ha).
  assert (headers' = headers) as -> by (pose proof (ac_headers _ _ _ _ _ _ _ _ _ _ _ _ _ _ Ha); congruence).
  destruct (accepted_head _ _ _ _ _ _ _ _ _ _ _ _ _ _ Hb Ha) as [Hhead Hf].
  destruct (parse_http_uri_parts _ _ _ _ _ (ac_uri_ok _ _ _ _ _ _ _ _ _ _ _ _ _ _ Ha) (ac_uri _ _ _ _ _ _ _ _ _ _ _ _ _ _ Ha))
    as (_ & Ho & Hctl).
  set (first := method ++ lit " " ++ origin ++ lit " HTTP/1.1") in *. rewrite head_bytes_text in Hhead.
  set (ls := (as_bytes first ++ CRLF) :: (encode_field <$> forwarded headers authority)) in *.
  assert (Forall (λ l, ∃ text, l = text ++ CRLF ∧ lacks 10 text ∧ text ≠ []) ls) as Hls.
  { constructor.
    - exists (as_bytes first). split; [done|].
      pose proof (ac_method _ _ _ _ _ _ _ _ _ _ _ _ _ _ Ha) as Hm. unfold valid_method in Hm.
      apply andb_true_iff in Hm as [Hm0 Hm]. apply all_Forall in Hm. unfold first. rewrite !as_bytes_app. split.
      + unfold lacks. rewrite !Forall_app. split_and!.
        * eapply Forall_impl; [exact Hm|]. unfold is_ascii_upper. intros b Hbm ->. done.
        * vm_compute. repeat (constructor; [lia|]). constructor.
        * apply any_false_Forall in Hctl. eapply Forall_impl; [exact Hctl|]. intros b Hbc ->. done.
        * vm_compute. repeat (constructor; [lia|]). constructor.
      + intros E. apply app_eq_nil in E as [_ E]. apply app_eq_nil in E as [E _]. done.
    - apply Forall_fmap. eapply Forall_impl; [exact Hf|]. apply field_line. }
  destruct (request_lines_gives ls [] 0 (S (length (incoming p))) rest p) as (q & E & Hq); try done; try lia.
  - by rewrite Hi, Hhead.
  - unfold ls. rewrite len_nil, len_cons. unfold len. rewrite length_fmap.
    assert (length (forwarded headers authority) ≤ length headers + 2)%nat as Hlen.
    { unfold forwarded. rewrite !length_app. pose proof (length_filter (λ h, dropped (connection_tokens headers) h = false) headers).
      unfold kept. destruct (bool_decide _); simpl; lia. }
    assert (length headers = length (tail lines)) as Hl2.
    { apply collect_Ok, Forall2_length in Hh. done. }
    assert (length (tail lines) ≤ length lines - 1)%nat by (destruct lines; simpl; lia).
    assert (1 ≤ length lines)%nat by (destruct lines; [done|simpl; lia]). unfold len in Hc. lia.
  - by rewrite <- Hhead.
  - exists method, uri, version, origin, authority, ls, q. split; [done|]. split; [done|].
    split; [eapply (moves_left p); [exact Hq|]; by rewrite Hi, Hhead|]. by apply parse_headers_encode.
Qed.

(** ** Theorems *)

(** C12. A body is copied by its framing, for every way its bytes arrive: the copy never
    panics; where it succeeds it took exactly a body of that framing and passed it on
    unchanged; and a well-formed body is passed on whole, leaving what follows it. *)
Theorem request_body_exact (track : bool) (body : RequestBody) (p : Pipe) :
  pipe_ok p → (∀ n, body = ContentLength n → 0 ≤ n) →
  (∃ r q, copy_request_body track body p = Done (r, q) ∧
     ∀ n, r = Ok n → ∃ bytes, framed body bytes ∧ n = sat 0 bytes ∧
       incoming p = bytes ++ incoming q ∧ written (wr q) = written (wr p) ++ bytes) ∧
  (∀ bytes rest, framed body bytes → incoming p = bytes ++ rest → room (wr p) = None →
     ∃ q, copy_request_body track body p = Done (Ok (sat 0 bytes), q) ∧ incoming q = rest ∧
       written (wr q) = written (wr p) ++ bytes).
Proof.
  intros Hok Hr. split.
  - destruct (runs_inv (copy_request_body track body) p (λ n q, ∃ bytes, framed body bytes ∧ n = sat 0 bytes ∧ copied track p q bytes))
      as [(n & q & E & bytes & Hb & -> & Hc)|(e & q & E)].
    + apply request_body_runs; [done|done|]. eauto.
    + exists (Ok (sat 0 bytes)), q. split; [done|]. intros n [= <-]. exists bytes. split_and!; [done|done|apply Hc|apply Hc].
    + by exists (Err e), q.
  - intros bytes rest Hb Hi Ho. destruct (request_body_gives track body bytes rest p Hb Hok Ho Hi) as (q & E & Hq).
    exists q. split_and!; [done|by eapply moves_left|apply Hq].
Qed.

(** The bytes of a chunked body end in one place: no two readings of a stream differ. *)
Theorem chunked_body_unambiguous (b1 b2 r1 r2 : list Z) :
  chunked_body b1 → chunked_body b2 → b1 ++ r1 = b2 ++ r2 → b1 = b2.
Proof.
  intros H1 H2 E.
  set (p := {| rd := {| arrivals := (λ b, [b]) <$> b1 ++ r1; ending := None |};
               wr := {| written := []; room := None; closed := false |}; progress := 0 |}).
  assert (∀ l : list Z, concat ((λ b, [b]) <$> l) = l) as Hcat by (induction l as [|b l IH]; [done|]; cbn; by f_equal).
  assert (pipe_ok p) as Hok.
  { split; [|cbn; lia]. unfold reader_ok, p. cbn. apply Forall_fmap, Forall_true. done. }
  assert (incoming p = b1 ++ r1) as Hi by (apply Hcat).
  destruct (request_body_gives false Chunked b1 r1 p H1 Hok eq_refl Hi) as (q1 & E1 & Hq1).
  destruct (request_body_gives false Chunked b2 r2 p H2 Hok eq_refl ltac:(by rewrite Hi)) as (q2 & E2 & Hq2).
  rewrite E1 in E2. injection E2 as _ <-.
  pose proof (moves_given _ _ _ _ _ Hq1) as W1. pose proof (moves_given _ _ _ _ _ Hq2) as W2. rewrite W1 in W2.
  by apply app_inv_head in W2.
Qed.

(** C5. Connections are reused in step: when an exchange offers the connection of the client
    or of the backend for another request, the whole request went out (its head and a body of
    its framing, nothing more was taken from the client) and the whole response came
    in (its heads and a body of its framing, nothing more was taken from the backend);
    a client is only kept when its request had no body. No exchange panics. *)
Theorem reuse_in_step (head : list Z) (body : RequestBody) (head_request keep_alive : bool) (race : Race)
    (up down : Pipe) :
  pipe_ok up → pipe_ok down → (∀ n, body = ContentLength n → 0 ≤ n) →
  ∃ r up' down', forward_http_exchange head body head_request keep_alive race up down = Done (r, (up', down')) ∧
    ∀ o, r = Ok o → backend_reusable o || client_reusable o = true →
      ∃ sent resp rbody heads given bytes,
        framed body sent ∧ incoming up = sent ++ incoming up' ∧ written (wr up') = written (wr up) ++ head ++ sent ∧
        response_heads (client_reusable o) heads given resp ∧
        response_body (resp_headers resp) (status resp) head_request = Ok rbody ∧ rbody ≠ UntilEof ∧
        response_framed rbody bytes (incoming down') ∧ incoming down = heads ++ bytes ++ incoming down' ∧
        written (wr down') = written (wr down) ++ given ++ bytes ∧
        (client_reusable o = true → sent = [] ∧ keep_alive = true).
Proof.
  intros Hu Hd Hr. destruct (exchange_outcome head body head_request keep_alive race up down Hu Hd Hr) as (r & [up' down'] & E & Ho).
  exists r, up', down'. split; [done|]. intros o -> Hre.
  destruct (Ho o eq_refl) as [(Hb & Hc & _)|(sent & resp & rbody & heads & given & bytes & _ & [])].
  { by rewrite Hb, Hc in Hre. }
  exists sent, resp, rbody, heads, given, bytes. split_and!; try done.
  - intros ->. rewrite xc_client0, xc_backend0, bool_decide_true, !andb_false_r in Hre by done. done.
  - intros Hcl. rewrite xc_client0 in Hcl. bool_prop. split; [|done].
    destruct H1 as [->| ->]; [done|]. by apply len_0_nil.
Qed.

(** C13. The recipient of a forwarded request delimits its body as the proxy does: reading the
    forwarded head from a stream it finds fields with the same framing, one [Host] for the
    target, and no field that concerns only the connection to the proxy, its credentials
    included; as long as [Proxy-Connection] names neither of the framing fields. *)
Theorem forwarded_framing_preserved (sha256 : list Z → list Z) (base64_decode : rstr → option (list Z))
    (lines : list (list Z)) (user hash : rstr) (req : ProxyRequest) (head : list Z) (body : RequestBody) (hr : bool)
    (headers : list (rstr * rstr)) (rest : list Z) (p : Pipe) :
  Forall bytes_ok lines → parse_proxy_request sha256 base64_decode lines user hash = Ok req →
  kind req = Forward head body hr → parse_headers (tail lines) = Ok headers →
  header_has_token headers (lit "proxy-connection") (lit "content-length") = false →
  header_has_token headers (lit "proxy-connection") (lit "transfer-encoding") = false →
  len head ≤ MAX_HEADER_BYTES → len lines + 2 ≤ MAX_HEADER_COUNT →
  pipe_ok p → incoming p = head ++ rest →
  ∃ lines' fields q authority host,
    read_request_lines (S (length (incoming p))) [] 0 p = Done (Ok (Ok lines'), q) ∧ incoming q = rest ∧
    parse_headers (tail lines') = Ok fields ∧ validate_message_framing fields = Ok body ∧
    header_values fields (lit "host") = [host] ∧
    (∃ uri origin, parse_http_uri uri = Ok (target_host req, target_port req, authority, origin)) ∧
    (host = authority ∨ ∃ h port, parse_authority host (Some 80) = Ok (h, port, authority)) ∧
    (∀ name, is_hop_by_hop_header name = true →
       header_values fields name = if bool_decide (name = lit "connection") then [lit "keep-alive"] else []).
Proof.
  intros Hb Hp Hk Hh Hcl Hte Hs Hc Hok Hi.
  destruct (forwarded_head_read _ _ _ _ _ _ _ _ _ _ rest p Hb Hp Hk Hh Hs Hc Hok Hi)
    as (method & uri & version & origin & authority & lines' & q & Ha & Er & Hq & Hf).
  destruct in_framing_names as (Ncl & Nte & _). pose proof (ac_framing _ _ _ _ _ _ _ _ _ _ _ _ _ _ Ha) as Hfr.
  destruct (accepted_host _ _ _ _ _ _ _ _ _ _ _ _ _ _ Ha) as (host & Hhost & Hauth).
  exists lines', (forwarded headers authority), q, authority, host. split_and!; try done.
  - eapply validate_message_framing_ext; [exact Hfr|..].
    + rewrite forwarded_values by done. by rewrite (dropped_framing_name _ _ _ Hfr), Hcl.
    + rewrite forwarded_values by done. by rewrite (dropped_framing_name _ _ _ Hfr), Hte.
    + intros name Hn. by apply forwarded_connection_tokens.
  - exists uri, origin. apply Ha.
  - intros name Hn. case_bool_decide as Hcn; [subst; apply forwarded_connection|].
    rewrite forwarded_values by (done || (intros ->; done)).
    assert (dropped_name (connection_tokens headers) name = true) as ->; [|done].
    unfold dropped_name, dropped. cbn [fst]. by rewrite Hn, orb_true_r.
Qed.

(** C14. A [Proxy-Connection] field that names [Content-Length] takes the framing away: the proxy
    sends the body of such a request, but its recipient finds no framing in the head and
    takes the bytes of the body for the next request on the connection. *)
Theorem proxy_connection_hides_length (sha256 : list Z → list Z) (base64_decode : rstr → option (list Z))
    (lines : list (list Z)) (user hash : rstr) (req : ProxyRequest) (head : list Z) (n : Z) (hr : bool)
    (headers : list (rstr * rstr)) (payload rest : list Z) (p : Pipe) :
  Forall bytes_ok lines → parse_proxy_request sha256 base64_decode lines user hash = Ok req →
  kind req = Forward head (ContentLength n) hr → parse_headers (tail lines) = Ok headers →
  header_has_token headers (lit "proxy-connection") (lit "content-length") = true →
  len head ≤ MAX_HEADER_BYTES → len lines + 2 ≤ MAX_HEADER_COUNT →
  framed (ContentLength n) payload → pipe_ok p → incoming p = head ++ payload ++ rest →
  ∃ lines' fields q,
    read_request_lines (S (length (incoming p))) [] 0 p = Done (Ok (Ok lines'), q) ∧
    parse_headers (tail lines') = Ok fields ∧ validate_message_framing fields = Ok BodyNone ∧
    incoming q = payload ++ rest.
Proof.
  intros Hb Hp Hk Hh Hcl Hs Hc _ Hok Hi.
  destruct (forwarded_head_read _ _ _ _ _ _ _ _ _ _ (payload ++ rest) p Hb Hp Hk Hh Hs Hc Hok Hi)
    as (method & uri & version & origin & authority & lines' & q & Ha & Er & Hq & Hf).
  destruct in_framing_names as (Ncl & Nte & _). pose proof (ac_framing _ _ _ _ _ _ _ _ _ _ _ _ _ _ Ha) as Hfr.
  exists lines', (forwarded headers authority), q. split_and!; try done.
  apply (validate_message_framing_ext [] (forwarded headers authority) BodyNone); [done|..].
  - rewrite forwarded_values by done. by rewrite (dropped_framing_name _ _ _ Hfr), Hcl.
  - rewrite forwarded_values by done. rewrite (dropped_framing_name _ _ _ Hfr) by done.
    destruct (header_has_token _ _ (lit "transfer-encoding")); [done|].
    unfold validate_message_framing in Hfr. bind_inv Hfr. bind_inv Hfr. bind_inv Hfr.
    by destruct (header_values headers (lit "transfer-encoding")).
  - intros name Hn. by apply forwarded_connection_tokens.
Qed.

(** ** Examples *)

Definition ex_sha256 (bytes : list Z) : list Z := [len bytes].
Definition ex_base64 (text : rstr) : option (list Z) := Some text.
Definition ex_line (s : string) : list Z := lit s ++ CRLF.
Definition ex_credentials : list Z := lit "Proxy-Authorization: Basic proxy:llh_" ++ replicate 64 97 ++ CRLF.
Definition ex_reader (pieces : list (list Z)) : Pipe :=
  {| rd := {| arrivals := pieces; ending := None |};
     wr := {| written := []; room := None; closed := false |}; progress := 0 |}.

Definition ex_chunks : list Z := ex_line "3" ++ lit "abc" ++ CRLF ++ ex_line "0" ++ CRLF.
Definition ex_body : Pipe := ex_reader [take 4 ex_chunks; drop 4 ex_chunks ++ lit "GET"].

Lemma ex_line_ok s maximum : all (λ b, negb (b =? 10)) (lit s) = true → len (ex_line s) ≤ maximum → is_line maximum (ex_line s).
Proof.
  intros H Hm. exists (lit s). split; [done|]. split; [|done]. apply all_Forall in H.
  eapply Forall_impl; [exact H|]. intros b Hb. by apply negb_true_iff, Z.eqb_neq in Hb.
Defined.

Lemma ex_chunks_ok : chunked_body ex_chunks.
Proof.
  apply (one_chunk (ex_line "3") (lit "abc") (ex_line "0" ++ CRLF)); [by apply ex_line_ok|reflexivity|done|].
  apply (last_chunk (ex_line "0") CRLF); [by apply ex_line_ok|reflexivity|]. by constructor.
Defined.

Lemma ex_reader_ok pieces : all (λ l, negb (bool_decide (l = []))) pieces = true → pipe_ok (ex_reader pieces).
Proof.
  intros H. split; [|cbn; lia]. apply all_Forall in H. eapply Forall_impl; [exact H|]. intros l Hl. by apply negb_true_iff, bool_decide_eq_false in Hl.
Defined.

Lemma ex_bytes_ok (lines : list (list Z)) : all (all (λ b, (0 <=? b) && (b <? 256))) lines = true → Forall bytes_ok lines.
Proof.
  intros H. apply all_Forall in H. eapply Forall_impl; [exact H|]. intros l Hl. apply all_Forall in Hl.
  eapply Forall_impl; [exact Hl|]. intros b Hb. unfold byte_ok. apply andb_true_iff in Hb as [H1 H2].
  apply Z.leb_le in H1. apply Z.ltb_lt in H2. lia.
Defined.

Lemma request_body_exact_witness :
  ∃ q, copy_request_body true Chunked ex_body = Done (Ok 13, q) ∧ incoming q = lit "GET" ∧ written (wr q) = ex_chunks.
Proof.
  destruct (request_body_exact true Chunked ex_body) as [_ H]; [by apply ex_reader_ok|done|].
  exact (H ex_chunks (lit "GET") ex_chunks_ok eq_refl eq_refl).
Defined.

Lemma chunked_body_unambiguous_witness : ex_chunks = ex_chunks.
Proof. apply (chunked_body_unambiguous ex_chunks ex_chunks [] []); [exact ex_chunks_ok|exact ex_chunks_ok|reflexivity]. Defined.

Definition ex_head : list Z := ex_line "GET / HTTP/1.1" ++ ex_line "host: a.b" ++ ex_line "connection: keep-alive" ++ CRLF.
Definition ex_response : Pipe :=
  ex_reader [ex_line "HTTP/1.1 100 Continue" ++ CRLF; ex_line "HTTP/1.1 200 OK" ++ ex_line "Content-Length: 2" ++ CRLF ++ lit "okHTTP"].

Lemma reuse_in_step_witness :
  match forward_http_exchange ex_head BodyNone false true RequestFirst (ex_reader []) ex_response with
  | Done (Ok o, (up', down')) =>
      backend_reusable o && client_reusable o && bool_decide (incoming down' = lit "HTTP") = true ∧
      ∃ sent, framed BodyNone sent ∧ written (wr up') = ex_head ++ sent
  | _ => False
  end.
Proof.
  assert (match forward_http_exchange ex_head BodyNone false true RequestFirst (ex_reader []) ex_response with
          | Done (Ok o, (_, down')) => backend_reusable o && client_reusable o && bool_decide (incoming down' = lit "HTTP")
          | _ => false
          end = true) as C by (vm_compute; reflexivity).
  destruct (reuse_in_step ex_head BodyNone false true RequestFirst (ex_reader []) ex_response)
    as (r & up' & down' & E & H); [by apply ex_reader_ok|by apply ex_reader_ok|done|].
  rewrite E in C |- *. clear E. destruct r as [o|e]; [|exact (Bool.diff_false_true C)]. split; [exact C|].
  apply andb_true_iff in C as [C _]. apply andb_true_iff in C as [C _].
  destruct (H o eq_refl) as (sent & resp & rbody & heads & given & bytes & Hs & _ & Hw & _); [by rewrite C|].
  exists sent. split; [exact Hs|exact Hw].
Defined.

Definition ex_post : list (list Z) :=
  [ex_line "POST http://Example.com/a?b HTTP/1.1"; ex_line "Host: example.com:80"; ex_credentials;
   ex_line "Content-Length: 5"; ex_line "Proxy-Connection: keep-alive"].
Definition ex_hash : rstr := lit "44".

Definition ex_forwarded (lines : list (list Z)) : list Z :=
  match parse_proxy_request ex_sha256 ex_base64 lines (lit "proxy") ex_hash with
  | Ok {| kind := Forward head _ _ |} => head
  | _ => []
  end.
Definition ex_headers (lines : list (list Z)) : list (rstr * rstr) :=
  match parse_headers (tail lines) with Ok headers => headers | Err _ => [] end.

Lemma forwarded_framing_preserved_witness :
  ∃ lines' fields q,
    read_request_lines (S (length (ex_forwarded ex_post ++ lit "hello"))) [] 0 (ex_reader [ex_forwarded ex_post; lit "hello"]) =
      Done (Ok (Ok lines'), q) ∧
    incoming q = lit "hello" ∧ parse_headers (tail lines') = Ok fields ∧ validate_message_framing fields = Ok (ContentLength 5).
Proof.
  destruct (forwarded_framing_preserved ex_sha256 ex_base64 ex_post (lit "proxy") ex_hash
    {| target_host := lit "example.com"; target_port := 80; client_keep_alive := true;
       kind := Forward (ex_forwarded ex_post) (ContentLength 5) false |}
    (ex_forwarded ex_post) (ContentLength 5) false (ex_headers ex_post) (lit "hello") (ex_reader [ex_forwarded ex_post; lit "hello"]))
    as (lines' & fields & q & authority & host & H1 & H2 & H3 & H4 & _).
  - by apply ex_bytes_ok; vm_compute.
  - vm_compute. reflexivity.
  - reflexivity.
  - vm_compute. reflexivity.
  - vm_compute. reflexivity.
  - vm_compute. reflexivity.
  - vm_compute. discriminate.
  - vm_compute. discriminate.
  - apply ex_reader_ok. vm_compute. reflexivity.
  - vm_compute. reflexivity.
  - exists lines', fields, q. exact (conj H1 (conj H2 (conj H3 H4))).
Defined.

Definition ex_smuggle : list (list Z) :=
  [ex_line "POST http://Example.com/a HTTP/1.1"; ex_credentials; ex_line "Content-Length: 5"; ex_line "Proxy-Connection: Content-Length"].

Lemma proxy_connection_hides_length_witness :
  ∃ lines' fields q,
    read_request_lines (S (length (ex_forwarded ex_smuggle ++ lit "hello"))) [] 0 (ex_reader [ex_forwarded ex_smuggle; lit "hello"]) =
      Done (Ok (Ok lines'), q) ∧
    parse_headers (tail lines') = Ok fields ∧ validate_message_framing fields = Ok BodyNone ∧ incoming q = lit "hello".
Proof.
  apply (proxy_connection_hides_length ex_sha256 ex_base64 ex_smuggle (lit "proxy") ex_hash
    {| target_host := lit "example.com"; target_port := 80; client_keep_alive := true;
       kind := Forward (ex_forwarded ex_smuggle) (ContentLength 5) false |}
    (ex_forwarded ex_smuggle) 5 false (ex_headers ex_smuggle) (lit "hello") [] (ex_reader [ex_forwarded ex_smuggle; lit "hello"])).
  - by apply ex_bytes_ok; vm_compute.
  - vm_compute. reflexivity.
  - reflexivity.
  - vm_compute. reflexivity.
  - vm_compute. reflexivity.
  - vm_compute. discriminate.
  - vm_compute. discriminate.
  - reflexivity.
  - apply ex_reader_ok. vm_compute. reflexivity.
  - vm_compute. reflexivity.
Defined.
