(* ===== verification/SniTunnel.v ===== *)
(** * TLS server names ([sni_tunnel.rs])

    A connection to the shared TLS port is routed by the server name of its
    ClientHello, which is read without terminating TLS; the bytes read are then sent
    to the backend. Host names are normalised as those of routes are
    ([normalize_hostname] of [http_route_catalog.rs]). *)

From S2P Require Import Prelude ByteStream RustStr NetAddr RustText NetPrint HttpMessage.
Local Open Scope Z_scope.
Set Default Proof Using "Type".

(** ** Host names *)

Fixpoint pop_dots (reversed : rstr) : rstr :=
  match reversed with c :: t => if c =? ch_dot then pop_dots t else reversed | [] => [] end.

Definition normalize_hostname (value : rstr) : option rstr :=
  let value := to_ascii_lowercase (trim value) in
  if bool_decide (value = []) || (253 <? str_len value) || contains_str (lit "//") value ||
     contains_char ch_slash value || contains_char ch_at value || any is_whitespace value
  then None
  else
    let value := match rsplit_once ch_colon value with
                 | Some (host, port) =>
                     if negb (contains_char ch_colon host) &&
                        match parse_uint U16_MAX port with Some port => negb (port =? 0) | None => false end
                     then host else value
                 | None => value
                 end in
    (** [while value.ends_with('.') { value.pop(); }] *)
    let value := rev (pop_dots (rev value)) in
    if negb (contains_char ch_dot value) || bool_decide (is_Some (parse_ip value)) then None
    else if all valid_dns_label (split ch_dot value) then Some value else None.

(** ** The ClientHello *)

Inductive SniError :=
  | LengthOverflow | Truncated | InvalidCipherList | InvalidCompressionList | TrailingBytes
  | InvalidSniListLength | NoSniHostname | InvalidUtf8 | InvalidHostname.

Abbreviation parsed A := (exec (result SniError A)).

Definition take (input : list Z) (cursor length : Z) : parsed (list Z * Z) :=
  match checked_add USIZE_MAX cursor length with
  | None => Done (Err LengthOverflow)
  | Some stop =>
      if negb (stop <=? len input) then Done (Err Truncated)
      else value ← index_range input (Z.to_nat cursor) (Z.to_nat stop); Done (Ok (value, stop))
  end.

Definition read_u16 (input : list Z) (cursor : Z) : parsed (Z * Z) :=
  '(value, cursor) ←? take input cursor 2;
  high ← index value 0; low ← index value 1;
  Done (Ok (from_be_bytes [high; low], cursor)).

(** [*take(.., 1)?.first().unwrap()]. *)
Definition take_byte (input : list Z) (cursor : Z) : parsed (Z * Z) :=
  '(value, cursor) ←? take input cursor 1;
  byte ← index value 0;
  Done (Ok (byte, cursor)).

Definition ensure (c : bool) (e : SniError) : parsed unit := Done (if c then Ok tt else Err e).

(** The loop over the names of a server name extension. *)
Fixpoint name_loop (fuel : nat) (value : list Z) (sni_cursor : Z) : parsed (option (list Z)) :=
  if negb (sni_cursor <? len value) then Done (Ok None)
  else
    match fuel with
    | O => Panic
    | S fuel =>
        '(name_type, sni_cursor) ←? take_byte value sni_cursor;
        '(name_length, sni_cursor) ←? read_u16 value sni_cursor;
        '(name, sni_cursor) ←? take value sni_cursor name_length;
        if name_type =? 0 then Done (Ok (Some name)) else name_loop fuel value sni_cursor
    end.

(** The loop over the extensions. *)
Fixpoint extension_loop (fuel : nat) (extensions : list Z) (extension_cursor : Z) : parsed rstr :=
  if negb (extension_cursor <? len extensions) then Done (Err NoSniHostname)
  else
    match fuel with
    | O => Panic
    | S fuel =>
        '(kind, extension_cursor) ←? read_u16 extensions extension_cursor;
        '(length, extension_cursor) ←? read_u16 extensions extension_cursor;
        '(value, extension_cursor) ←? take extensions extension_cursor length;
        if negb (kind =? 0) then extension_loop fuel extensions extension_cursor
        else
          '(list_length, sni_cursor) ←? read_u16 value 0;
          rest ← usize_sub (len value) 2;
          _ ←? ensure (list_length =? rest) InvalidSniListLength;
          found ←? name_loop (S (Datatypes.length value)) value sni_cursor;
          match found with
          | None => extension_loop fuel extensions extension_cursor
          | Some name =>
              Done (match from_utf8 name with
                    | None => Err InvalidUtf8
                    | Some name => ok_or (normalize_hostname name) InvalidHostname
                    end)
          end
    end.

Definition parse_client_hello_sni (hello : list Z) : parsed rstr :=
  '(_, cursor) ←? take hello 0 (2 + 32);
  '(session_length, cursor) ←? take_byte hello cursor;
  '(_, cursor) ←? take hello cursor session_length;
  '(cipher_length, cursor) ←? read_u16 hello cursor;
  _ ←? ensure ((2 <=? cipher_length) && (cipher_length mod 2 =? 0)) InvalidCipherList;
  '(_, cursor) ←? take hello cursor cipher_length;
  '(compression_length, cursor) ←? take_byte hello cursor;
  _ ←? ensure (negb (compression_length =? 0)) InvalidCompressionList;
  '(_, cursor) ←? take hello cursor compression_length;
  '(extensions_length, cursor) ←? read_u16 hello cursor;
  '(extensions, cursor) ←? take hello cursor extensions_length;
  _ ←? ensure (cursor =? len hello) TrailingBytes;
  extension_loop (S (length extensions)) extensions 0.

(** ** TLS records *)

Definition MAX_TLS_RECORD_BYTES : Z := 18432.
Definition MAX_CLIENT_HELLO_BYTES : Z := 64 * 1024.

Definition lift_sni {A} (m : parsed A) : io A := λ p,
  match m with
  | Done (Ok a) => Done (Ok a, p)
  | Done (Err _) => Done (Err InvalidData, p)
  | Panic => Panic
  end.

Fixpoint client_hello_loop (fuel : nat) (wire handshake : list Z) : io (rstr * list Z) :=
  match fuel with
  | O => out_of_fuel
  | S fuel =>
      header ← read_exact 5;
      h0 ← io_exec (index header 0); h1 ← io_exec (index header 1);
      h3 ← io_exec (index header 3); h4 ← io_exec (index header 4);
      let record_length := from_be_bytes [h3; h4] in
      _ ← io_ensure ((h0 =? 22) && (h1 =? 3) && negb (record_length =? 0) && (record_length <=? MAX_TLS_RECORD_BYTES))
            InvalidData;
      _ ← io_ensure (len wire + 5 + record_length <=? MAX_CLIENT_HELLO_BYTES + 5 * 8) InvalidData;
      payload ← read_exact (Z.to_nat record_length);
      let wire := wire ++ header ++ payload in
      let handshake := handshake ++ payload in
      if len handshake <? 4 then client_hello_loop fuel wire handshake
      else
        t ← io_exec (index handshake 0);
        _ ← io_ensure (t =? 1) InvalidData;
        l1 ← io_exec (index handshake 1); l2 ← io_exec (index handshake 2); l3 ← io_exec (index handshake 3);
        let length := Z.lor (Z.lor (Z.shiftl l1 16) (Z.shiftl l2 8)) l3 in
        _ ← io_ensure (length <=? MAX_CLIENT_HELLO_BYTES) InvalidData;
        if len handshake <? 4 + length then client_hello_loop fuel wire handshake
        else
          hello ← io_exec (index_range handshake 4 (Z.to_nat (4 + length)));
          hostname ← lift_sni (parse_client_hello_sni hello);
          mret (hostname, wire)
  end.
Definition read_client_hello_sni : io (rstr * list Z) := fuel_for (λ fuel, client_hello_loop fuel [] []).

(** ** Reading fields *)

(** [yields m ok]: [m] does not panic, and where it succeeds [ok] holds. *)
Definition yields {A} (m : parsed A) (ok : A → Prop) : Prop :=
  match m with Done (Ok a) => ok a | Done (Err _) => True | Panic => False end.
Lemma yields_bind {A B} (m : parsed A) (k : A → parsed B) ok :
  yields m (λ a, yields (k a) ok) → yields (try_bind k m) ok.
Proof. by destruct m as [[a|e]|]. Qed.
Lemma yields_ensure c e (ok : unit → Prop) : (c = true → ok tt) → yields (ensure c e) ok.
Proof. destruct c; cbn; auto. Qed.

(** A cursor after [pre]: [take] splits what follows. *)
Lemma yields_take pre s l (ok : list Z * Z → Prop) :
  0 ≤ l → (∀ v s', s = v ++ s' → len v = l → ok (v, len (pre ++ v))) → yields (take (pre ++ s) (len pre) l) ok.
Proof.
  intros Hl K. unfold take, checked_add. case_match; [|done].
  destruct (Z.leb_spec z (len (pre ++ s))) as [Hz|]; [|done]. cbn [negb].
  revert H. case_match; [|done]. intros [= <-]. bool_prop. rewrite len_app in Hz. unfold len in *.
  unfold index_range. rewrite (proj2 (Nat.leb_le _ _)), (proj2 (Nat.leb_le _ _)) by (rewrite ?length_app; lia). cbn.
  assert (slice (Z.to_nat (Z.of_nat (length pre))) (Z.to_nat (Z.of_nat (length pre) + l)) (pre ++ s) = firstn (Z.to_nat l) s) as ->.
  { rewrite slice_app_r by lia. unfold slice. rewrite Nat2Z.id, Nat.sub_diag, drop_0. f_equal. lia. }
  assert (length (firstn (Z.to_nat l) s) = Z.to_nat l) as Hlen by (rewrite length_firstn; lia).
  specialize (K (firstn (Z.to_nat l) s) (skipn (Z.to_nat l) s)). rewrite length_app, Hlen in K.
  replace (Z.of_nat (length pre) + l) with (Z.of_nat (length pre + Z.to_nat l)) by lia.
  apply K; [by rewrite firstn_skipn|lia].
Qed.

Lemma take_ok pre v s : len (pre ++ v ++ s) ≤ USIZE_MAX →
  take (pre ++ v ++ s) (len pre) (len v) = Done (Ok (v, len (pre ++ v))).
Proof.
  intros Hmax. rewrite !len_app in *. pose proof (len_nonneg s). unfold take, checked_add.
  rewrite (proj2 (Z.leb_le _ _)) by lia. rewrite !len_app, (proj2 (Z.leb_le _ _)) by lia. cbn [negb].
  unfold index_range, len. rewrite (proj2 (Nat.leb_le _ _)), (proj2 (Nat.leb_le _ _)) by (rewrite ?length_app; lia).
  cbn. rewrite slice_app_r by lia. rewrite Nat2Z.id, Nat.sub_diag.
  replace (Z.to_nat (Z.of_nat (length pre) + Z.of_nat (length v)) - length pre)%nat with (length v) by lia.
  by rewrite slice_app_l.
Qed.

Definition u16 (n : Z) : list Z := to_be_bytes 2 n.

Lemma len_2 (l : list Z) : len l = 2 → ∃ a b, l = [a; b].
Proof. unfold len. destruct l as [|a [|b [|]]]; simpl; try lia. eauto. Qed.
Lemma len_1 (l : list Z) : len l = 1 → ∃ a, l = [a].
Proof. unfold len. destruct l as [|a [|]]; simpl; try lia. eauto. Qed.

Lemma yields_u16 pre s (ok : Z * Z → Prop) :
  bytes_ok s → (∀ n s', s = u16 n ++ s' → 0 ≤ n < 65536 → ok (n, len (pre ++ u16 n))) → yields (read_u16 (pre ++ s) (len pre)) ok.
Proof.
  intros Hs K. unfold read_u16. apply yields_bind, yields_take; [lia|]. intros v s' -> Hv. cbn beta iota.
  destruct (len_2 v Hv) as (a & b & ->). apply Forall_app in Hs as [Hs _].
  pose proof (to_from_be_bytes [a; b] Hs) as E. pose proof (from_be_bytes_bound [a; b] Hs) as Hb.
  change (256 ^ len [a; b]) with 65536 in Hb. change (length [a; b]) with 2%nat in E.
  specialize (K (from_be_bytes [a; b]) s'). unfold u16 in K. rewrite E in K. by apply K.
Qed.
Lemma read_u16_ok pre n s : 0 ≤ n < 65536 → len (pre ++ u16 n ++ s) ≤ USIZE_MAX →
  read_u16 (pre ++ u16 n ++ s) (len pre) = Done (Ok (n, len (pre ++ u16 n))).
Proof.
  intros Hn Hmax. unfold read_u16. assert (len (u16 n) = 2) as H2 by (unfold len, u16; by rewrite length_to_be_bytes).
  rewrite <- H2, take_ok by done. cbn [try_bind]. destruct (len_2 _ H2) as (a & b & E).
  pose proof (from_to_be_bytes 2 n Hn) as Hv. fold (u16 n) in Hv. rewrite E in *. cbn [index expect lookup list_lookup mbind exec_bind].
  by rewrite Hv.
Qed.

Lemma yields_byte pre s (ok : Z * Z → Prop) :
  (∀ b s', s = b :: s' → ok (b, len (pre ++ [b]))) → yields (take_byte (pre ++ s) (len pre)) ok.
Proof.
  intros K. unfold take_byte. apply yields_bind, yields_take; [lia|]. intros v s' -> Hv.
  destruct (len_1 v Hv) as (b & ->). by apply (K b s').
Qed.
Lemma take_byte_ok pre b s : len (pre ++ b :: s) ≤ USIZE_MAX →
  take_byte (pre ++ b :: s) (len pre) = Done (Ok (b, len (pre ++ [b]))).
Proof. intros H. unfold take_byte. change (b :: s) with ([b] ++ s). change 1 with (len [b]). by rewrite take_ok. Qed.

(** ** What a ClientHello says *)

Definition entry (name_type : Z) (name : list Z) : list Z := name_type :: u16 (len name) ++ name.
Definition extension (kind : Z) (value : list Z) : list Z := u16 kind ++ u16 (len value) ++ value.

(** The first host name among the entries of a name list, if any. *)
Inductive first_name : list Z → option (list Z) → Prop :=
  | no_name : first_name [] None
  | host_name (name junk : list Z) : len name < 65536 → first_name (entry 0 name ++ junk) (Some name)
  | other_name (name_type : Z) (name rest : list Z) (found : option (list Z)) :
      name_type ≠ 0 → len name < 65536 → first_name rest found → first_name (entry name_type name ++ rest) found.

(** The first host name among the server name extensions. *)
Inductive first_host : list Z → list Z → Prop :=
  | other_extension (kind : Z) (value rest name : list Z) :
      0 < kind < 65536 → len value < 65536 → first_host rest name → first_host (extension kind value ++ rest) name
  | empty_extension (names rest name : list Z) :
      2 + len names < 65536 → first_name names None → first_host rest name →
      first_host (extension 0 (u16 (len names) ++ names) ++ rest) name
  | name_extension (names junk name : list Z) :
      2 + len names < 65536 → first_name names (Some name) →
      first_host (extension 0 (u16 (len names) ++ names) ++ junk) name.

(** A ClientHello (RFC 8446, 4.1.2) whose server name is [name]. *)
Definition client_hello (hello name : list Z) : Prop :=
  ∃ random session ciphers compression extensions,
    hello = random ++ len session :: session ++ u16 (len ciphers) ++ ciphers ++
            len compression :: compression ++ u16 (len extensions) ++ extensions ∧
    len random = 34 ∧ len session < 256 ∧ 2 ≤ len ciphers < 65536 ∧ len ciphers mod 2 = 0 ∧
    0 < len compression < 256 ∧ len extensions < 65536 ∧ first_host extensions name.

Lemma len_u16 n : len (u16 n) = 2.
Proof. unfold len, u16. by rewrite length_to_be_bytes. Qed.
Lemma bytes_ok_app l k : bytes_ok (l ++ k) ↔ bytes_ok l ∧ bytes_ok k.
Proof. apply Forall_app. Qed.

Lemma name_loop_yields fuel pre s (ok : option (list Z) → Prop) :
  bytes_ok s → (length s < fuel)%nat → (∀ found, first_name s found → ok found) →
  yields (name_loop fuel (pre ++ s) (len pre)) ok.
Proof.
  revert pre s ok. induction fuel as [|fuel IH]; intros pre s ok Hs Hf K; [lia|]. cbn [name_loop].
  destruct (Z.ltb_spec (len pre) (len (pre ++ s))) as [Hlt|Hge]; cbn [negb].
  2: { apply K. rewrite len_app in Hge. assert (s = []) as -> by (apply len_0_nil; pose proof (len_nonneg s); lia). constructor. }
  apply yields_bind, yields_byte. intros t s1 ->. apply Forall_cons in Hs as [Ht Hs]. cbn beta iota.
  rewrite (cons_middle t pre s1), (app_assoc pre [t] s1).
  apply yields_bind, yields_u16; [done|]. intros n s2 -> Hn. cbn beta iota. apply bytes_ok_app in Hs as [_ Hs].
  rewrite app_assoc. apply yields_bind, yields_take; [lia|]. intros name s3 -> Hname. cbn beta iota.
  apply bytes_ok_app in Hs as [_ Hs]. subst n.
  assert (t :: u16 (len name) ++ name ++ s3 = entry t name ++ s3) as Ee
    by (unfold entry; by rewrite <- app_comm_cons, <- app_assoc).
  rewrite Ee in *. destruct (Z.eqb_spec t 0) as [->|Hne].
  - apply K. apply host_name. lia.
  - rewrite app_assoc. apply IH; [done| |].
    + rewrite <- Ee in Hf. simpl in Hf. rewrite !length_app in Hf. lia.
    + intros found Hfound. apply K. apply other_name; [done|lia|done].
Qed.

Lemma name_loop_ok fuel pre s found :
  first_name s found → (length s < fuel)%nat → len (pre ++ s) ≤ USIZE_MAX →
  name_loop fuel (pre ++ s) (len pre) = Done (Ok found).
Proof.
  intros H. revert fuel pre. induction H as [|name junk Hl|t name rest found Hne Hl _ IH]; intros [|fuel] pre Hf Hmax;
    cbn [name_loop]; try lia.
  - by rewrite app_nil_r, Z.ltb_irrefl.
  - rewrite (proj2 (Z.ltb_lt _ _)) by (rewrite !len_app; cbn [negb]; unfold entry; rewrite len_cons, len_app, len_u16;
      pose proof (len_nonneg name); pose proof (len_nonneg junk); lia).
    unfold entry in *. cbn [app negb] in *. rewrite <- app_assoc in *. rewrite take_byte_ok by done. cbn [try_bind].
    rewrite (cons_middle 0 pre), (app_assoc pre [0]) in *. rewrite read_u16_ok by (done || (pose proof (len_nonneg name); lia)).
    cbn [try_bind]. rewrite (app_assoc _ (u16 _)) in *. rewrite take_ok by done. done.
  - rewrite (proj2 (Z.ltb_lt _ _)) by (rewrite !len_app; cbn [negb]; unfold entry; rewrite len_cons, len_app, len_u16;
      pose proof (len_nonneg name); pose proof (len_nonneg rest); lia).
    unfold entry in *. cbn [app negb] in *. rewrite <- app_assoc in *. rewrite take_byte_ok by done. cbn [try_bind].
    rewrite (cons_middle t pre), (app_assoc pre [t]) in *. rewrite read_u16_ok by (done || (pose proof (len_nonneg name); lia)).
    cbn [try_bind]. rewrite (app_assoc _ (u16 _)) in *. rewrite take_ok by done. cbn [try_bind].
    rewrite (proj2 (Z.eqb_neq _ _)) by done. rewrite (app_assoc _ name) in *. apply IH; [|done].
    simpl in Hf. rewrite !length_app in Hf. lia.
Qed.

(** The host a name stands for. *)
Definition host_of (name : list Z) : option rstr := from_utf8 name ≫= normalize_hostname.

Lemma found_yields name (ok : rstr → Prop) :
  (∀ host, host_of name = Some host → ok host) →
  yields (Done (match from_utf8 name with
                | None => Err InvalidUtf8
                | Some name => ok_or (normalize_hostname name) InvalidHostname end)) ok.
Proof.
  intros K. unfold host_of in K. destruct (from_utf8 name) as [n|]; [|done]. cbn in *.
  destruct (normalize_hostname n); [by apply K|done].
Qed.

Lemma extension_loop_yields fuel pre s (ok : rstr → Prop) :
  bytes_ok s → (length s < fuel)%nat →
  (∀ name host, first_host s name → host_of name = Some host → ok host) →
  yields (extension_loop fuel (pre ++ s) (len pre)) ok.
Proof.
  revert pre s ok. induction fuel as [|fuel IH]; intros pre s ok Hs Hf K; [lia|]. cbn [extension_loop].
  destruct (Z.ltb_spec (len pre) (len (pre ++ s))) as [Hlt|Hge]; cbn [negb]; [|done].
  apply yields_bind, yields_u16; [done|]. intros kind s1 -> Hkind. cbn beta iota. apply bytes_ok_app in Hs as [_ Hs].
  rewrite app_assoc. apply yields_bind, yields_u16; [done|]. intros n s2 -> Hn. cbn beta iota.
  apply bytes_ok_app in Hs as [_ Hs]. rewrite app_assoc. apply yields_bind, yields_take; [lia|].
  intros value s3 -> Hvalue. cbn beta iota. apply bytes_ok_app in Hs as [Hv Hs]. subst n.
  assert (u16 kind ++ u16 (len value) ++ value ++ s3 = extension kind value ++ s3) as Ee
    by (unfold extension; by rewrite <- !app_assoc).
  rewrite Ee in *. rewrite app_assoc.
  assert (length s3 < fuel)%nat as Hf3.
  { rewrite <- Ee, !length_app in Hf. unfold u16 in Hf. rewrite !length_to_be_bytes in Hf. lia. }
  destruct (Z.eqb_spec kind 0) as [->|Hne]; cbn [negb].
  2: { apply IH; [done|done|]. intros name host Hfh. apply K. apply other_extension; [lia|lia|done]. }
  apply yields_bind, (yields_u16 [] value); [done|]. intros ll names Hnames Hll. cbn beta iota.
  subst value. pose proof (len_nonneg names) as Hln. rewrite len_app, len_u16 in *.
  rewrite usize_sub_Done by lia. cbn [mbind exec_bind].
  apply yields_bind, yields_ensure. intros Hll'. bool_prop. assert (ll = len names) as -> by lia.
  apply bytes_ok_app in Hv as [_ Hbn]. apply yields_bind. cbn [app].
  apply name_loop_yields; [done|rewrite length_app; lia|]. intros [name|] Hfound.
  - apply found_yields. intros host Hh. apply (K name); [|done]. apply name_extension; [lia|done].
  - apply IH; [done|done|]. intros name host Hfh. apply K. apply empty_extension; [lia|done|done].
Qed.

Lemma extension_loop_ok fuel pre s name host :
  first_host s name → host_of name = Some host → (length s < fuel)%nat → len (pre ++ s) ≤ USIZE_MAX →
  extension_loop fuel (pre ++ s) (len pre) = Done (Ok host).
Proof.
  intros H Hh. revert fuel pre.
  assert (∀ kind value rest pre fuel k, 0 ≤ kind < 65536 → len value < 65536 → len (pre ++ extension kind value ++ rest) ≤ USIZE_MAX →
    k = (if negb (kind =? 0) then extension_loop fuel (pre ++ extension kind value ++ rest) (len (pre ++ extension kind value))
         else
           '(list_length, sni_cursor) ←? read_u16 value 0;
           rest' ← usize_sub (len value) 2;
           _ ←? ensure (list_length =? rest') InvalidSniListLength;
           found ←? name_loop (S (length value)) value sni_cursor;
           match found with
           | None => extension_loop fuel (pre ++ extension kind value ++ rest) (len (pre ++ extension kind value))
           | Some name =>
               Done (match from_utf8 name with
                     | None => Err InvalidUtf8
                     | Some name => ok_or (normalize_hostname name) InvalidHostname
                     end)
           end) →
    extension_loop (S fuel) (pre ++ extension kind value ++ rest) (len pre) = k) as Hstep.
  { clear. intros kind value rest pre fuel k Hk Hv Hmax ->. cbn [extension_loop].
    pose proof (len_nonneg value). pose proof (len_nonneg rest).
    rewrite (proj2 (Z.ltb_lt _ _)) by (rewrite !len_app; unfold extension; rewrite !len_app, !len_u16; lia).
    cbn [negb]. unfold extension in *. rewrite <- !app_assoc in *. rewrite read_u16_ok by done. cbn [try_bind].
    rewrite (app_assoc pre) in *. rewrite read_u16_ok by (done || lia). cbn [try_bind].
    rewrite (app_assoc (pre ++ _)) in *. rewrite take_ok by done. cbn [try_bind]. by rewrite <- !app_assoc. }
  assert (∀ names found, 2 + len names < 65536 → first_name names found →
    read_u16 (u16 (len names) ++ names) 0 = Done (Ok (len names, 2)) ∧
    name_loop (S (length (u16 (len names) ++ names))) (u16 (len names) ++ names) 2 = Done (Ok found)) as Hnames.
  { clear. intros names found Hl Hf. pose proof (len_nonneg names). split.
    - change (u16 (len names) ++ names) with ([] ++ u16 (len names) ++ names). change 0 with (len (@nil Z)) at 1.
      rewrite read_u16_ok; [by rewrite app_nil_l, len_u16|lia|cbn [app]; rewrite len_app, len_u16; lia].
    - replace 2 with (len (u16 (len names))) at 2 by apply len_u16. apply name_loop_ok; [done|rewrite length_app; lia|rewrite len_app, len_u16; lia]. }
  induction H as [kind value rest name Hk Hv _ IH|names rest name Hl Hfn _ IH|names junk name Hl Hfn]; intros [|fuel] pre Hf Hmax;
    try lia.
  - apply Hstep; [lia|done|done|]. rewrite (proj2 (Z.eqb_neq _ _)) by lia. cbn [negb]. symmetry. rewrite app_assoc in *.
    apply IH; [done| |done]. rewrite length_app in Hf. unfold extension, u16 in Hf. rewrite !length_app, !length_to_be_bytes in Hf. lia.
  - pose proof (len_nonneg names). destruct (Hnames names None Hl Hfn) as [H1 H2].
    apply Hstep; [lia|rewrite len_app, len_u16; lia|done|]. cbn [negb Z.eqb]. rewrite H1. cbn [try_bind].
    rewrite (len_app (u16 (len names)) names), len_u16, usize_sub_Done by lia. cbn [mbind exec_bind]. replace (2 + len names - 2) with (len names) by lia.
    rewrite Z.eqb_refl. cbn [ensure try_bind]. rewrite H2. cbn [try_bind]. symmetry. rewrite app_assoc in *. apply IH; [done| |done].
    rewrite length_app in Hf. unfold extension, u16 in Hf. rewrite !length_app, !length_to_be_bytes in Hf. lia.
  - pose proof (len_nonneg names). destruct (Hnames names (Some name) Hl Hfn) as [H1 H2].
    apply Hstep; [lia|rewrite len_app, len_u16; lia|done|]. cbn [negb Z.eqb]. rewrite H1. cbn [try_bind].
    rewrite (len_app (u16 (len names)) names), len_u16, usize_sub_Done by lia. cbn [mbind exec_bind]. replace (2 + len names - 2) with (len names) by lia.
    rewrite Z.eqb_refl. cbn [ensure try_bind]. rewrite H2. cbn [try_bind]. unfold host_of in Hh.
    destruct (from_utf8 name) as [n|]; [|done]. cbn in Hh. by rewrite Hh.
Qed.

Lemma hello_yields hello (ok : rstr → Prop) :
  bytes_ok hello → (∀ name host, client_hello hello name → host_of name = Some host → ok host) →
  yields (parse_client_hello_sni hello) ok.
Proof.
  intros Hb K. unfold parse_client_hello_sni.
  apply yields_bind, (yields_take [] hello); [lia|]. intros random s1 -> Hr. cbn beta iota. cbn [app].
  apply bytes_ok_app in Hb as [_ Hb]. apply yields_bind, yields_byte. intros sl s2 ->. cbn beta iota.
  apply Forall_cons in Hb as [Hsl Hb]. rewrite (cons_middle sl random), (app_assoc random [sl]).
  apply yields_bind, yields_take; [unfold byte_ok in Hsl; lia|]. intros session s3 -> <-. cbn beta iota.
  apply bytes_ok_app in Hb as [_ Hb]. rewrite app_assoc.
  apply yields_bind, yields_u16; [done|]. intros cl s4 -> Hcl. cbn beta iota. apply bytes_ok_app in Hb as [_ Hb].
  apply yields_bind, yields_ensure. intros Hc. apply andb_true_iff in Hc as [Hc1 Hc2]. apply Z.leb_le in Hc1. apply Z.eqb_eq in Hc2.
  rewrite app_assoc. apply yields_bind, yields_take; [lia|]. intros ciphers s5 -> <-. cbn beta iota.
  apply bytes_ok_app in Hb as [_ Hb]. rewrite app_assoc. apply yields_bind, yields_byte. intros ml s6 ->. cbn beta iota.
  apply Forall_cons in Hb as [Hml Hb]. apply yields_bind, yields_ensure. intros Hm. apply negb_true_iff, Z.eqb_neq in Hm.
  rewrite (cons_middle ml _ s6), (app_assoc _ [ml]). unfold byte_ok in *.
  apply yields_bind, yields_take; [lia|]. intros compression s7 -> <-. cbn beta iota.
  apply bytes_ok_app in Hb as [_ Hb]. rewrite app_assoc.
  apply yields_bind, yields_u16; [done|]. intros el s8 -> Hel. cbn beta iota. apply bytes_ok_app in Hb as [_ Hb].
  rewrite app_assoc. apply yields_bind, yields_take; [lia|]. intros extensions s9 -> <-. cbn beta iota.
  apply bytes_ok_app in Hb as [Hb _]. apply yields_bind, yields_ensure. intros Ht. apply Z.eqb_eq in Ht.
  rewrite app_assoc in Ht. rewrite (len_app _ s9) in Ht. assert (s9 = []) as -> by (apply len_0_nil; pose proof (len_nonneg s9); lia).
  apply (extension_loop_yields _ [] extensions); [done|lia|]. intros name host Hfh. apply K.
  exists random, session, ciphers, compression, extensions. rewrite app_nil_r in *.
  pose proof (len_nonneg compression). split; [by rewrite <- ?app_assoc|]. split_and!; (done || lia).
Qed.

Lemma hello_ok hello name host :
  client_hello hello name → host_of name = Some host → len hello ≤ USIZE_MAX →
  parse_client_hello_sni hello = Done (Ok host).
Proof.
  intros (random & session & ciphers & compression & extensions & -> & Hr & Hs & Hc & Hc2 & Hm & He & Hfh) Hh Hmax.
  pose proof (len_nonneg session). pose proof (len_nonneg extensions). unfold parse_client_hello_sni.
  pose proof (take_ok [] random _ Hmax) as Ht. rewrite Hr in Ht. cbn [app] in Ht. change (len []) with 0 in Ht.
  change (2 + 32) with 34. rewrite Ht. cbn [try_bind]. rewrite take_byte_ok by done. cbn [try_bind].
  rewrite (cons_middle (len session) random), (app_assoc random [_]) in *. rewrite take_ok by done. cbn [try_bind].
  rewrite (app_assoc _ session) in *. rewrite read_u16_ok by (done || lia). cbn [try_bind].
  rewrite (proj2 (Z.leb_le _ _)), (proj2 (Z.eqb_eq _ _)) by lia. cbn [andb ensure try_bind].
  rewrite (app_assoc _ (u16 (len ciphers))) in *. rewrite take_ok by done. cbn [try_bind].
  rewrite (app_assoc _ ciphers) in *. rewrite take_byte_ok by done. cbn [try_bind].
  rewrite (proj2 (Z.eqb_neq _ _)) by lia. cbn [negb ensure try_bind].
  rewrite (cons_middle (len compression)), (app_assoc _ [len compression]) in *. rewrite take_ok by done. cbn [try_bind].
  rewrite (app_assoc _ compression) in *. rewrite read_u16_ok by (done || lia). cbn [try_bind].
  rewrite (app_assoc _ (u16 (len extensions))) in *.
  match goal with |- context [take (?P ++ extensions) _ _] => pose proof (take_ok P extensions []) as Hx end.
  rewrite app_nil_r in Hx. rewrite Hx by done. cbn [try_bind].
  rewrite Z.eqb_refl. cbn [ensure try_bind].
  apply (extension_loop_ok _ [] extensions name); [done|done|lia|]. cbn [app]. lia.
Qed.

(** ** Records *)

(** Handshake records and the payload they carry. *)
Inductive records : list Z → list Z → Prop :=
  | records_nil : records [] []
  | records_cons (minor : Z) (payload wire handshake : list Z) :
      payload ≠ [] → len payload ≤ MAX_TLS_RECORD_BYTES → records wire handshake →
      records ([22; 3; minor] ++ u16 (len payload) ++ payload ++ wire) (payload ++ handshake).

Lemma records_app w1 h1 w2 h2 : records w1 h1 → records w2 h2 → records (w1 ++ w2) (h1 ++ h2).
Proof.
  intros H1 H2. induction H1 as [|m pl w h Hne Hl _ IH]; [done|].
  rewrite <- !app_assoc. by apply records_cons.
Qed.

(** The handshake message with this ClientHello. *)
Definition hello_message (hello : list Z) : list Z := 1 :: to_be_bytes 3 (len hello) ++ hello.

(** The 24-bit length of a handshake message. *)
Definition be24 (a b c : Z) : Z := Z.lor (Z.lor (Z.shiftl a 16) (Z.shiftl b 8)) c.

Lemma be24_value a b c : byte_ok a → byte_ok b → byte_ok c → be24 a b c = from_be_bytes [a; b; c].
Proof.
  unfold byte_ok, be24, from_be_bytes. cbn [fold_left]. intros Ha Hb Hc.
  replace (Z.lor (Z.shiftl a 16) (Z.shiftl b 8)) with (Z.shiftl (a * 256 + b) 8).
  - rewrite lor_shiftl by lia. lia.
  - replace (Z.shiftl a 16) with (Z.shiftl (Z.shiftl a 8) 8) by (by rewrite Z.shiftl_shiftl by lia).
    rewrite <- Z.shiftl_lor. f_equal. rewrite lor_shiftl by lia. lia.
Qed.

Lemma to_be_bytes_3 (l : list Z) n : to_be_bytes 3 n = l → ∃ a b c, l = [a; b; c].
Proof. intros <-. cbn. eauto. Qed.

(** What a run of the reader has established after the records [wire]. *)
Definition hello_read (p q : Pipe) (result : rstr * list Z) : Prop :=
  ∃ hello name extra, moves p q result.2 [] 0 ∧ records result.2 (hello_message hello ++ extra) ∧
    len hello ≤ MAX_CLIENT_HELLO_BYTES ∧ len result.2 ≤ MAX_CLIENT_HELLO_BYTES + 40 ∧
    client_hello hello name ∧ host_of name = Some result.1.

Lemma index_at (l : list Z) i a : l !! i = Some a → index l i = Done a.
Proof. intros H. unfold index. by rewrite H. Qed.
Lemma runs_index (l : list Z) i p (ok : Z → Pipe → Prop) :
  (i < length l)%nat → (∀ a, l !! i = Some a → ok a p) → runs (io_exec (index l i)) p ok.
Proof.
  intros Hi K. destruct (lookup_lt_is_Some_2 l i Hi) as [a Ha]. unfold runs, io_exec. rewrite (index_at _ _ _ Ha). by apply K.
Qed.
Lemma runs_lift_sni {A} (m : parsed A) p (ok : A → Pipe → Prop) : yields m (λ a, ok a p) → runs (lift_sni m) p ok.
Proof. unfold yields, runs, lift_sni. by destruct m as [[a|e]|]. Qed.

Definition stream_bytes (p : Pipe) : Prop := bytes_ok (incoming p).

Lemma records_bytes wire handshake : records wire handshake → bytes_ok wire → bytes_ok handshake.
Proof.
  induction 1 as [|m pl w h _ _ _ IH]; intros Hb; [constructor|]. rewrite !bytes_ok_app in *. naive_solver.
Qed.

Lemma hello_loop_runs fuel p0 p wire handshake (ok : rstr * list Z → Pipe → Prop) :
  bytes_ok (incoming p0) → moves p0 p wire [] 0 → records wire handshake → (length (incoming p) < fuel)%nat →
  (∀ r q, hello_read p0 q r → ok r q) → runs (client_hello_loop fuel wire handshake) p ok.
Proof.
  intros Hb. revert p wire handshake. induction fuel as [|fuel IH]; intros p wire handshake Hp Hrec Hf K; [lia|].
  cbn [client_hello_loop]. apply runs_bind, runs_read_exact; [apply Hp|]. intros header q Hh Hq.
  destruct header as [|h0 [|h1 [|h2 [|h3 [|h4 [|]]]]]]; try done.
  do 4 (apply runs_bind, runs_index; [simpl; lia|intros ? [= <-]]).
  apply runs_bind, runs_ensure. intros Hc1. apply runs_bind, runs_ensure. intros Hc2.
  apply andb_true_iff in Hc1 as [Hc1 Hlen]. apply andb_true_iff in Hc1 as [Hc1 Hpos].
  apply andb_true_iff in Hc1 as [H22 H3]. apply Z.eqb_eq in H22 as ->. apply Z.eqb_eq in H3 as ->.
  apply negb_true_iff, Z.eqb_neq in Hpos. apply Z.leb_le in Hlen. apply Z.leb_le in Hc2.
  pose proof (moves_trans _ _ _ _ _ _ _ _ _ Hp Hq) as Hpq. cbn [app] in Hpq.
  assert (bytes_ok [h3; h4]) as Hb2.
  { rewrite (moves_taken _ _ _ _ _ Hpq), !bytes_ok_app in Hb. destruct Hb as [[_ Hb] _].
    do 3 apply Forall_cons in Hb as [_ Hb]. done. }
  pose proof (from_be_bytes_bound _ Hb2) as Hbound. set (rl := from_be_bytes [h3; h4]) in *.
  apply runs_bind, runs_read_exact; [apply Hq|]. intros payload q1 Hpl Hq1.
  assert (len payload = rl) as Hrl by (unfold len; lia).
  pose proof (moves_trans _ _ _ _ _ _ _ _ _ Hpq Hq1) as Hp1. cbn [app] in Hp1. rewrite <- app_assoc in Hp1.
  assert (records (wire ++ [22; 3; h2; h3; h4] ++ payload) (handshake ++ payload)) as Hrec1.
  { apply records_app; [done|]. rewrite <- (app_nil_r payload) at 2. rewrite <- (app_nil_r payload) at 1.
    assert (u16 (len payload) = [h3; h4]) as Hu by (rewrite Hrl; apply (to_from_be_bytes [h3; h4] Hb2)).
    pose proof (records_cons h2 payload [] []) as Hr. rewrite Hu in Hr. apply Hr; [|lia|constructor].
    intros ->. by rewrite len_nil in Hrl. }
  pose proof (moves_length _ _ _ _ _ Hp1) as Hl1. pose proof (moves_length _ _ _ _ _ Hp) as Hl0.
  rewrite !length_app in Hl1. simpl in Hl1.
  assert (runs (client_hello_loop fuel (wire ++ [22; 3; h2; h3; h4] ++ payload) (handshake ++ payload)) q1 ok) as Hagain
    by (apply IH; [done|done|lia|done]).
  destruct (Z.ltb_spec (len (handshake ++ payload)) 4) as [|H4]; [done|].
  assert (bytes_ok (handshake ++ payload)) as Hbh.
  { eapply records_bytes; [exact Hrec1|]. rewrite (moves_taken _ _ _ _ _ Hp1), bytes_ok_app in Hb. apply Hb. }
  set (hs := handshake ++ payload) in *. destruct hs as [|t [|l1 [|l2 [|l3 hs']]]] eqn:Ehs; try (unfold len in H4; simpl in H4; lia).
  apply runs_bind, runs_index; [simpl; lia|intros ? [= <-]]. apply runs_bind, runs_ensure. intros Ht. apply Z.eqb_eq in Ht as ->.
  do 3 (apply runs_bind, runs_index; [simpl; lia|intros ? [= <-]]). cbv zeta.
  unfold bytes_ok in Hbh. rewrite !Forall_cons in Hbh. destruct Hbh as (_ & B1 & B2 & B3 & Bh).
  fold (be24 l1 l2 l3). rewrite be24_value by done.
  assert (bytes_ok [l1; l2; l3]) as B123 by (unfold bytes_ok; rewrite !Forall_cons; done).
  pose proof (from_be_bytes_bound _ B123) as Hlb. set (n := from_be_bytes [l1; l2; l3]) in *.
  apply runs_bind, runs_ensure. intros Hn. apply Z.leb_le in Hn.
  destruct (Z.ltb_spec (len (1 :: l1 :: l2 :: l3 :: hs')) (4 + n)) as [|Hge]; [done|].
  rewrite !len_cons in Hge. apply runs_bind. unfold index_range.
  rewrite (proj2 (Nat.leb_le _ _)), (proj2 (Nat.leb_le _ _)) by (unfold len in Hge; simpl; lia).
  cbn [andb]. unfold io_exec at 1, runs at 1.
  assert (slice 4 (Z.to_nat (4 + n)) (1 :: l1 :: l2 :: l3 :: hs') = firstn (Z.to_nat n) hs') as ->.
  { unfold slice. cbn [drop]. f_equal. lia. }
  apply runs_bind, runs_lift_sni. assert (len (firstn (Z.to_nat n) hs') = n) as Hfl by (unfold len in *; rewrite length_firstn; lia).
  apply hello_yields; [by apply bytes_ok_take|]. intros name host Hch Hho. apply runs_ret, K.
  exists (firstn (Z.to_nat n) hs'), name, (skipn (Z.to_nat n) hs'). cbn [fst snd]. split_and!; try done; [|lia|].
  - unfold hello_message. rewrite Hfl. unfold n. pose proof (to_from_be_bytes [l1; l2; l3] B123) as E3. cbn [length] in E3. rewrite E3.
    cbn [app]. rewrite firstn_skipn. done.
  - rewrite !len_app, Hrl. change (len [22; 3; h2; h3; h4]) with 5. lia.
Qed.

(** ** Completeness of the reader *)

Definition record (minor : Z) (payload : list Z) : list Z := [22; 3; minor] ++ u16 (len payload) ++ payload.

(** [flight message h wire]: after the payload [h], the records [wire] bring [message] to
    completion, in whatever pieces, and none of them could be left out. *)
Inductive flight (message : list Z) : list Z → list Z → Prop :=
  | flight_last (minor : Z) (payload h extra : list Z) :
      payload ≠ [] → len payload ≤ MAX_TLS_RECORD_BYTES → h ++ payload = message ++ extra →
      flight message h (record minor payload)
  | flight_more (minor : Z) (payload h rest wire : list Z) :
      payload ≠ [] → len payload ≤ MAX_TLS_RECORD_BYTES → message = (h ++ payload) ++ rest → rest ≠ [] →
      flight message (h ++ payload) wire → flight message h (record minor payload ++ wire).

Lemma record_header (payload : list Z) : len payload ≤ MAX_TLS_RECORD_BYTES →
  ∃ b3 b4, u16 (len payload) = [b3; b4] ∧ from_be_bytes [b3; b4] = len payload.
Proof.
  intros Hl. destruct (len_2 _ (len_u16 (len payload))) as (b3 & b4 & E). exists b3, b4. split; [done|].
  rewrite <- E. apply from_to_be_bytes. pose proof (len_nonneg payload). unfold MAX_TLS_RECORD_BYTES in Hl. lia.
Qed.

(** An iteration once its record has been read. *)
Definition after_record (fuel : nat) (wire handshake : list Z) : io (rstr * list Z) :=
  if len handshake <? 4 then client_hello_loop fuel wire handshake
  else
    t ← io_exec (index handshake 0);
    _ ← io_ensure (t =? 1) InvalidData;
    l1 ← io_exec (index handshake 1); l2 ← io_exec (index handshake 2); l3 ← io_exec (index handshake 3);
    _ ← io_ensure (be24 l1 l2 l3 <=? MAX_CLIENT_HELLO_BYTES) InvalidData;
    if len handshake <? 4 + be24 l1 l2 l3 then client_hello_loop fuel wire handshake
    else
      hello ← io_exec (index_range handshake 4 (Z.to_nat (4 + be24 l1 l2 l3)));
      hostname ← lift_sni (parse_client_hello_sni hello);
      mret (hostname, wire).

Lemma loop_record fuel p wire handshake minor payload rest :
  pipe_ok p → incoming p = record minor payload ++ rest → payload ≠ [] → len payload ≤ MAX_TLS_RECORD_BYTES →
  len (wire ++ record minor payload) ≤ MAX_CLIENT_HELLO_BYTES + 40 →
  ∃ q, moves p q (record minor payload) [] 0 ∧
    client_hello_loop (S fuel) wire handshake p = after_record fuel (wire ++ record minor payload) (handshake ++ payload) q.
Proof.
  intros Hok Hi Hne Hl Hw. destruct (record_header payload Hl) as (b3 & b4 & Eu & Ev).
  unfold record in *. rewrite Eu in *. cbn [app] in Hi.
  assert (0 < len payload) as Hpos by (pose proof (len_nonneg payload); destruct (Z.eq_dec (len payload) 0) as [E|]; [by apply len_0_nil in E|lia]).
  destruct (read_exact_gives 5 p [22; 3; minor; b3; b4] (payload ++ rest) Hok Hi eq_refl) as (q1 & E1 & M1).
  pose proof (moves_taken _ _ _ _ _ M1) as I1. rewrite Hi in I1. cbn [app] in I1. injection I1 as I1.
  destruct (read_exact_gives (Z.to_nat (len payload)) q1 payload rest) as (q2 & E2 & M2);
    [apply M1|done|unfold len; lia|].
  exists q2. pose proof (moves_trans _ _ _ _ _ _ _ _ _ M1 M2) as M. split; [exact M|].
  cbn [client_hello_loop]. rewrite (io_bind_Done _ _ _ _ _ E1).
  do 4 (erewrite io_bind_Done by reflexivity).
  rewrite Ev, !Z.eqb_refl. rewrite (proj2 (Z.eqb_neq (len payload) 0)), (proj2 (Z.leb_le (len payload) MAX_TLS_RECORD_BYTES)) by lia. cbn [andb negb].
  rewrite !len_app in Hw. change (len [22; 3; minor]) with 3 in Hw. change (len [b3; b4]) with 2 in Hw.
  rewrite (proj2 (Z.leb_le _ _)) by lia.
  do 2 (erewrite io_bind_Done by reflexivity). rewrite (io_bind_Done _ _ _ _ _ E2). reflexivity.
Qed.

(** A handshake that has begun as [hello_message hello] does. *)
Lemma after_incomplete fuel p wire handshake hello rest :
  hello_message hello = handshake ++ rest → rest ≠ [] → len hello ≤ MAX_CLIENT_HELLO_BYTES →
  after_record fuel wire handshake p = client_hello_loop fuel wire handshake p.
Proof.
  intros E Hr Hl. unfold after_record. destruct (Z.ltb_spec (len handshake) 4) as [|H4]; [done|].
  pose proof (len_nonneg hello) as Hnn. unfold hello_message in E.
  destruct (to_be_bytes_3 _ (len hello) eq_refl) as (a & b & c & E3). pose proof (from_to_be_bytes 3 (len hello)) as Ev.
  pose proof (to_be_bytes_ok 3 (len hello)) as B3. rewrite E3 in E, Ev, B3.
  destruct handshake as [|t [|l1 [|l2 [|l3 hs]]]]; try (unfold len in H4; simpl in H4; lia).
  cbn [app] in E. injection E as <- <- <- <- E. unfold bytes_ok in B3. rewrite !Forall_cons in B3. destruct B3 as (B1 & B2 & B3 & _).
  erewrite io_bind_Done by reflexivity. erewrite io_bind_Done by reflexivity.
  do 3 (erewrite io_bind_Done by reflexivity). rewrite be24_value, Ev by (done || (unfold MAX_CLIENT_HELLO_BYTES in Hl; lia)).
  rewrite (proj2 (Z.leb_le _ _)) by done. erewrite io_bind_Done by reflexivity.
  rewrite (proj2 (Z.ltb_lt _ _)); [done|]. rewrite !len_cons, E, len_app.
  assert (len rest ≠ 0) by (intros E0; by apply len_0_nil in E0). pose proof (len_nonneg rest). lia.
Qed.

Lemma after_complete fuel p wire hello extra name host :
  client_hello hello name → host_of name = Some host → len hello ≤ MAX_CLIENT_HELLO_BYTES →
  after_record fuel wire (hello_message hello ++ extra) p = Done (Ok (host, wire), p).
Proof.
  intros Hc Hh Hl. unfold after_record, hello_message. pose proof (len_nonneg hello) as Hnn. pose proof (len_nonneg extra) as Hne.
  destruct (to_be_bytes_3 _ (len hello) eq_refl) as (a & b & c & E3). pose proof (from_to_be_bytes 3 (len hello)) as Ev.
  pose proof (to_be_bytes_ok 3 (len hello)) as B3. rewrite E3 in *. cbn [app].
  unfold bytes_ok in B3. rewrite !Forall_cons in B3. destruct B3 as (B1 & B2 & B3 & _).
  rewrite (proj2 (Z.ltb_ge _ _)) by (rewrite !len_cons, len_app; lia).
  do 5 (erewrite io_bind_Done by reflexivity). rewrite be24_value, Ev by (done || (unfold MAX_CLIENT_HELLO_BYTES in Hl; lia)).
  rewrite (proj2 (Z.leb_le _ _)) by done. erewrite io_bind_Done by reflexivity.
  rewrite (proj2 (Z.ltb_ge _ _)) by (rewrite !len_cons, len_app; lia).
  unfold index_range. rewrite (proj2 (Nat.leb_le _ _)), (proj2 (Nat.leb_le _ _))
    by (simpl; rewrite ?length_app; unfold len in *; lia). cbn [andb].
  erewrite io_bind_Done by reflexivity.
  assert (slice 4 (Z.to_nat (4 + len hello)) (1 :: a :: b :: c :: hello ++ extra) = hello) as ->.
  { unfold slice. cbn [drop]. replace (Z.to_nat (4 + len hello) - 4)%nat with (length hello) by (unfold len; lia). apply take_app_length. }
  erewrite io_bind_Done; [reflexivity|]. unfold lift_sni. rewrite (hello_ok hello name host); [done|done|done|].
  unfold MAX_CLIENT_HELLO_BYTES in Hl. lia.
Qed.

Lemma hello_loop_gives fuel p wire0 h wire rest hello name host :
  client_hello hello name → host_of name = Some host → len hello ≤ MAX_CLIENT_HELLO_BYTES →
  flight (hello_message hello) h wire → pipe_ok p → incoming p = wire ++ rest → (length (incoming p) < fuel)%nat →
  len (wire0 ++ wire) ≤ MAX_CLIENT_HELLO_BYTES + 40 →
  gives (client_hello_loop fuel wire0 h) p (host, wire0 ++ wire) wire [] 0.
Proof.
  intros Hc Hh Hl Hf. revert fuel p wire0. induction Hf as [minor payload h extra Hne Hpl E|minor payload h more wire Hne Hpl E Hm _ IH];
    intros [|fuel] p wire0 Hok Hi Hfuel Hw; try lia.
  - destruct (loop_record fuel p wire0 h minor payload rest) as (q & M & Eq); [done..|].
    exists q. split; [|done]. by rewrite Eq, E, (after_complete _ _ _ _ _ name host).
  - rewrite <- app_assoc in Hi. rewrite app_assoc in Hw.
    destruct (loop_record fuel p wire0 h minor payload (wire ++ rest)) as (q & M & Eq);
      [done..|rewrite len_app in Hw; pose proof (len_nonneg wire); lia|].
    pose proof (moves_taken _ _ _ _ _ M) as I. rewrite Hi in I. apply app_inv_head in I.
    pose proof (moves_length _ _ _ _ _ M) as L.
    destruct (IH fuel q (wire0 ++ record minor payload)) as (q' & E' & M');
      [apply M|done|unfold record in L; simpl in L; lia|done|].
    exists q'. split; [|by apply (moves_trans _ _ _ _ _ _ _ _ _ M M')].
    rewrite Eq, (after_incomplete _ _ _ _ hello more), E' by done. by rewrite app_assoc.
Qed.

(** ** Canonical host names *)

Lemma pop_dots_last s : match pop_dots s with c :: _ => c ≠ ch_dot | [] => True end.
Proof. induction s as [|c s IH]; [done|]. cbn [pop_dots]. by destruct (Z.eqb_spec c ch_dot). Qed.
Lemma pop_dots_suffix s : ∃ dots, s = dots ++ pop_dots s.
Proof.
  induction s as [|c s [dots IH]]; [by exists []|]. cbn [pop_dots]. destruct (c =? ch_dot); [|by exists []].
  exists (c :: dots). cbn. by f_equal.
Qed.
Lemma pop_dots_fixed s : pop_dots (rev (rev (pop_dots s))) = pop_dots s.
Proof.
  rewrite rev_involutive. pose proof (pop_dots_last s) as H. destruct (pop_dots s) as [|c t]; [done|]. cbn [pop_dots].
  by rewrite (proj2 (Z.eqb_neq _ _)).
Qed.

Lemma lower_scalar c : scalar_ok c → scalar_ok (lower_char c).
Proof. unfold lower_char, scalar_ok. case_match eqn:E; [|done]. unfold is_ascii_upper in E. bool_prop. lia. Qed.
Lemma host_char_facts c : host_char c → is_whitespace c = false ∧ c ≠ ch_slash ∧ c ≠ ch_at ∧ c ≠ ch_colon ∧ 0 ≤ c < 128.
Proof.
  intros H. assert (43 < c < 123 ∧ c ≠ 47 ∧ c ≠ 58 ∧ c ≠ 64) as Hr.
  { destruct H as [H|[->| ->]]; [|lia..]. unfold is_ascii_alphanumeric, is_ascii_digit, is_ascii_upper, is_ascii_lower in H.
    rewrite !orb_true_iff in H. destruct H as [[H|H]|H]; bool_prop; lia. }
  split_and!; try lia. unfold is_whitespace. repeat (rewrite orb_false_iff || rewrite andb_false_iff); rewrite ?Z.leb_gt, ?Z.eqb_neq. lia.
Qed.

Lemma contains_str_lacks c p s : lacks c s → contains_str (c :: p) s = false.
Proof.
  intros H. unfold contains_str. assert (split_once_str (c :: p) s = None) as ->; [|done].
  induction H as [|d s Hd _ IH]; [done|]. cbn [split_once_str strip_prefix].
  rewrite (proj2 (Z.eqb_neq _ _)) by congruence. by rewrite IH.
Qed.

Lemma forall_lacks (P : Z → Prop) c s : Forall P s → (∀ d, P d → d ≠ c) → lacks c s.
Proof. intros H K. eapply Forall_impl; [exact H|]. done. Qed.

(** The tests on a host name that is already in normal form. *)
Lemma normalize_fixed host :
  Forall host_char host → to_ascii_lowercase host = host → str_len host ≤ 253 → rev (pop_dots (rev host)) = host →
  contains_char ch_dot host = true → parse_ip host = None → all valid_dns_label (split ch_dot host) = true →
  normalize_hostname host = Some host.
Proof.
  intros Hc Hlow Hlen Hdots Hdot Hip Hlab. unfold normalize_hostname.
  assert (Forall (λ c, is_whitespace c = false) host) as Hws by (eapply Forall_impl; [exact Hc|]; intros c H; by apply host_char_facts).
  rewrite trim_no_ws, Hlow by done.
  assert (∀ c, (c = ch_slash ∨ c = ch_at ∨ c = ch_colon) → lacks c host) as Hl.
  { intros c Hcc. eapply forall_lacks; [exact Hc|]. intros d Hd. apply host_char_facts in Hd. naive_solver. }
  rewrite bool_decide_eq_false_2 by (by intros ->). rewrite (proj2 (Z.ltb_ge _ _)) by done.
  change (lit "//") with [ch_slash; ch_slash]. rewrite contains_str_lacks by auto.
  rewrite !(proj2 (contains_char_lacks _ _)) by auto. rewrite (proj2 (any_false_Forall _ _)) by done. cbn [orb].
  rewrite (proj2 (rsplit_once_None _ _)) by auto. cbv zeta. rewrite Hdots, Hdot, Hip, Hlab.
  rewrite bool_decide_eq_false_2 by (by intros [? ?]). done.
Qed.

Lemma as_bytes_len_app s t : str_len (s ++ t) = str_len s + str_len t.
Proof. unfold str_len. by rewrite as_bytes_app, len_app. Qed.

Lemma normalize_facts value host : str_ok value → normalize_hostname value = Some host →
  Forall host_char host ∧ to_ascii_lowercase host = host ∧ str_len host ≤ 253 ∧ rev (pop_dots (rev host)) = host ∧
  contains_char ch_dot host = true ∧ parse_ip host = None ∧ all valid_dns_label (split ch_dot host) = true.
Proof.
  intros Hs H. unfold normalize_hostname in H.
  set (v := to_ascii_lowercase (trim value)) in *.
  assert (str_ok v) as Hv by (unfold v; apply Forall_fmap; eapply Forall_impl; [by apply trim_Forall|]; intros c; apply lower_scalar).
  assert (to_ascii_lowercase v = v) as Hlow by apply to_ascii_lowercase_idem. clearbody v.
  case_match eqn:Eg; [done|]. do 4 apply orb_false_iff in Eg as [Eg _].
  apply orb_false_iff in Eg as [_ Elen]. apply Z.ltb_ge in Elen.
  set (w := match rsplit_once ch_colon v with Some _ => _ | None => _ end) in *.
  assert (∃ r, v = w ++ r) as [r Hr].
  { unfold w. destruct (rsplit_once ch_colon v) as [[a b]|] eqn:Er; [|exists []; by rewrite app_nil_r].
    apply rsplit_once_Some in Er as [_ E]. destruct (_ && _); [by exists (ch_colon :: b)|exists []; by rewrite app_nil_r]. }
  clearbody w. destruct (pop_dots_suffix (rev w)) as [dots Hd]. apply (f_equal (@rev Z)) in Hd.
  rewrite rev_involutive, rev_app_distr in Hd. set (h := rev (pop_dots (rev w))) in *.
  assert (rev (pop_dots (rev h)) = h) as Hfix by (unfold h; by rewrite pop_dots_fixed). clearbody h.
  case_match eqn:Eh; [done|]. apply orb_false_iff in Eh as [Edot Eip]. apply negb_false_iff in Edot.
  case_match eqn:El; [|done]. injection H as <-.
  assert (v = h ++ (rev dots ++ r)) as Ev by (by rewrite app_assoc, <- Hd). clear Hr Hd.
  subst v. apply Forall_app in Hv as [Hv _]. rewrite as_bytes_len_app in Elen.
  assert (0 ≤ str_len (rev dots ++ r)) by apply len_nonneg.
  split_and!; try done; [by apply labels_chars|..].
  - unfold to_ascii_lowercase in Hlow. rewrite fmap_app in Hlow. apply app_inj_1 in Hlow as [Hlow _]; [done|by rewrite length_fmap].
  - lia.
  - destruct (parse_ip h) eqn:E; [|done]. by apply bool_decide_eq_false in Eip; destruct Eip.
Qed.

(** ** Theorems *)

Lemma runs_fuel_for {A} (f : nat → io A) p ok : runs (f (S (length (incoming p)))) p ok → runs (fuel_for f) p ok.
Proof. done. Qed.
Lemma gives_fuel_for {A} (f : nat → io A) p a t g n :
  gives (f (S (length (incoming p)))) p a t g n → gives (fuel_for f) p a t g n.
Proof. done. Qed.

(** C11. The name of a ClientHello is read exactly: parsing any bytes ends without a panic, and
    it succeeds with a host if and only if the bytes are a well formed ClientHello
    whose first server name normalises to that host. *)
Theorem sni_parse_exact (hello : list Z) :
  bytes_ok hello → len hello ≤ USIZE_MAX →
  ∃ r, parse_client_hello_sni hello = Done r ∧
    ∀ host, r = Ok host ↔ ∃ name, client_hello hello name ∧ host_of name = Some host.
Proof.
  intros Hb Hmax. pose proof (hello_yields hello _ Hb (λ name host Hc Hh, ex_intro _ name (conj Hc Hh))) as Hy.
  unfold yields in Hy. destruct (parse_client_hello_sni hello) as [r|] eqn:E; [|done]. exists r. split; [done|].
  intros host. split.
  - by intros ->.
  - intros (name & Hc & Hh). rewrite (hello_ok hello name host Hc Hh Hmax) in E. by injection E.
Qed.

(** C10. Routing loses nothing: what [read_client_hello_sni] takes off the connection is
    exactly the bytes it hands on for the backend, they are whole records that carry a
    ClientHello with the host returned, and stay within the limits. And every ClientHello
    within the limits is read, into however many records and segments it is split. *)
Theorem client_hello_replayed (p : Pipe) :
  pipe_ok p → bytes_ok (incoming p) →
  runs read_client_hello_sni p (λ r q, hello_read p q r) ∧
  (∀ hello name host wire rest,
     client_hello hello name → host_of name = Some host → len hello ≤ MAX_CLIENT_HELLO_BYTES →
     flight (hello_message hello) [] wire → len wire ≤ MAX_CLIENT_HELLO_BYTES + 40 → incoming p = wire ++ rest →
     gives read_client_hello_sni p (host, wire) wire [] 0).
Proof.
  intros Hok Hb. split.
  - apply runs_fuel_for, (hello_loop_runs _ p p [] []); [done|by apply moves_refl|constructor|lia|done].
  - intros hello name host wire rest Hc Hh Hl Hf Hw Hi. by apply gives_fuel_for, (hello_loop_gives _ p [] [] wire rest hello name host); auto.
Qed.

(** The host names that requests are routed by are canonical: a normalised name is its own
    normal form, in lower case, at most 253 bytes of letters, digits, dashes and
    dots, and never an address. *)
Theorem normalize_hostname_canonical (value host : rstr) :
  str_ok value → normalize_hostname value = Some host →
  normalize_hostname host = Some host ∧ to_ascii_lowercase host = host ∧
  Forall host_char host ∧ str_len host ≤ 253 ∧ parse_ip host = None.
Proof.
  intros Hs H. destruct (normalize_facts value host Hs H) as (Hc & Hlow & Hlen & Hd & Hdot & Hip & Hlab).
  split_and!; try done. by apply normalize_fixed.
Qed.

(** ** Witnesses *)

Definition sample_name : list Z := lit "TLS.Example.COM".
Definition sample_hello : list Z :=
  [3; 3] ++ repeat 0 32 ++ [0; 0; 2; 19; 1; 1; 0] ++
  u16 24 ++ u16 0 ++ u16 20 ++ u16 18 ++ [0] ++ u16 15 ++ sample_name.

Lemma sample_parse : parse_client_hello_sni sample_hello = Done (Ok (lit "tls.example.com")).
Proof. vm_compute. reflexivity. Qed.

Lemma sample_name_read : ∃ name, client_hello sample_hello name ∧ host_of name = Some (lit "tls.example.com").
Proof.
  assert (bytes_ok sample_hello) as Hb by (apply (bool_decide_unpack _); vm_compute; exact I).
  pose proof (hello_yields sample_hello _ Hb (λ name host Hc Hh, ex_intro _ name (conj Hc Hh))) as H.
  rewrite sample_parse in H. exact H.
Qed.

Lemma sni_parse_exact_witness :
  ∃ name, client_hello sample_hello name ∧ host_of name = Some (lit "tls.example.com").
Proof.
  destruct (sni_parse_exact sample_hello) as (r & E & H).
  - apply (bool_decide_unpack _). vm_compute. exact I.
  - vm_compute. discriminate.
  - apply H. rewrite sample_parse in E. by injection E.
Defined.

(** The sample in two records, which arrive in three segments, with a byte to follow. *)
Definition sample_wire : list Z :=
  record 1 (firstn 3 (hello_message sample_hello)) ++ record 1 (skipn 3 (hello_message sample_hello)).
Definition sample_pipe : Pipe :=
  {| rd := {| arrivals := [firstn 4 sample_wire; firstn 30 (skipn 4 sample_wire); skipn 34 sample_wire ++ [7]]; ending := None |};
     wr := {| written := []; room := None; closed := false |}; progress := 0 |}.

Lemma client_hello_replayed_witness :
  gives read_client_hello_sni sample_pipe (lit "tls.example.com", sample_wire) sample_wire [] 0.
Proof.
  destruct (client_hello_replayed sample_pipe) as [_ H].
  - split; [|vm_compute; split; discriminate]. by repeat constructor.
  - apply (bool_decide_unpack _). vm_compute. exact I.
  - destruct sample_name_read as (name & Hc & Hh).
    apply (H sample_hello name (lit "tls.example.com") sample_wire [7]); [exact Hc|exact Hh|vm_compute; discriminate|..].
    + apply (flight_more _ 1 (firstn 3 (hello_message sample_hello)) [] (skipn 3 (hello_message sample_hello)));
        [discriminate|vm_compute; discriminate|reflexivity|discriminate|].
      apply (flight_last _ 1 (skipn 3 (hello_message sample_hello)) (firstn 3 (hello_message sample_hello)) []);
        [discriminate|vm_compute; discriminate|reflexivity].
    + vm_compute. discriminate.
    + vm_compute. reflexivity.
Defined.

Lemma normalize_hostname_canonical_witness :
  normalize_hostname (lit " WWW.Example.com.:443 ") = Some (lit "www.example.com") ∧
  normalize_hostname (lit "www.example.com") = Some (lit "www.example.com").
Proof.
  assert (normalize_hostname (lit " WWW.Example.com.:443 ") = Some (lit "www.example.com")) as E by (vm_compute; reflexivity).
  split; [exact E|]. refine (proj1 (normalize_hostname_canonical _ _ _ E)).
  apply (bool_decide_unpack _). vm_compute. exact I.
Defined.
