(* ===== verification/DbMonad.v ===== *)
(** * Operations on a database

    Code that reads and writes a store of type [S], can fail with an error of type [E] and
    can panic. A statement outside a transaction stays when a later one fails; a transaction
    that is not committed leaves the store as it was.

    [ensures m s Q] is the weakest precondition: from [s], [m] ends without a panic, and [Q]
    holds of its result and of the store. *)

From S2P Require Import Prelude.
Local Open Scope Z_scope.
Set Default Proof Using "Type".

Definition db (E S A : Type) : Type := S → exec (result E A * S).

Section monad.
Context {E S : Type}.

Global Instance db_ret : MRet (db E S) := λ A a s, Done (Ok a, s).
Global Instance db_bind : MBind (db E S) := λ A B f m s,
  match m s with
  | Done (Ok a, s) => f a s
  | Done (Err e, s) => Done (Err e, s)
  | Panic => Panic
  end.

Definition db_fail {A} (e : E) : db E S A := λ s, Done (Err e, s).
Definition db_lift {A} (m : result E A) : db E S A := λ s, Done (m, s).
Definition db_exec {A} (m : exec A) : db E S A := λ s, match m with Done a => Done (Ok a, s) | Panic => Panic end.
(** [anyhow::ensure!(c, e)]. *)
Definition db_ensure (c : bool) (e : E) : db E S unit := if c then mret tt else db_fail e.
Definition db_get {A} (f : S → A) : db E S A := λ s, Done (Ok (f s), s).
Definition db_put (f : S → S) : db E S unit := λ s, Done (Ok tt, f s).
(** A transaction, committed where its body says so. *)
Definition transaction {A} (m : db E S (bool * A)) : db E S A := λ s,
  match m s with
  | Done (Ok (true, a), s') => Done (Ok a, s')
  | Done (Ok (false, a), _) => Done (Ok a, s)
  | Done (Err e, _) => Done (Err e, s)
  | Panic => Panic
  end.

(** ** Reasoning *)

Definition ensures {A} (m : db E S A) (s : S) (Q : result E A → S → Prop) : Prop :=
  match m s with Done (r, s') => Q r s' | Panic => False end.

Lemma ensures_mono {A} (m : db E S A) s (Q R : result E A → S → Prop) :
  ensures m s Q → (∀ r s', Q r s' → R r s') → ensures m s R.
Proof. unfold ensures. destruct (m s) as [[r s']|]; auto. Qed.
Lemma ensures_bind {A B} (m : db E S A) (f : A → db E S B) s (Q : result E B → S → Prop) :
  ensures m s (λ r s', match r with Ok a => ensures (f a) s' Q | Err e => Q (Err e) s' end) → ensures (m ≫= f) s Q.
Proof. unfold ensures. cbv [mbind db_bind]. by destruct (m s) as [[[a|e] s']|]. Qed.
Lemma ensures_ret {A} (a : A) s (Q : result E A → S → Prop) : Q (Ok a) s → ensures (mret a) s Q.
Proof. done. Qed.
Lemma ensures_fail {A} e s (Q : result E A → S → Prop) : Q (Err e) s → ensures (db_fail e) s Q.
Proof. done. Qed.
Lemma ensures_lift {A} (m : result E A) s (Q : result E A → S → Prop) : Q m s → ensures (db_lift m) s Q.
Proof. done. Qed.
Lemma ensures_exec {A} (m : exec A) s (Q : result E A → S → Prop) a : m = Done a → Q (Ok a) s → ensures (db_exec m) s Q.
Proof. intros ->. done. Qed.
Lemma ensures_ensure c e s (Q : result E unit → S → Prop) :
  (c = true → Q (Ok tt) s) → (c = false → Q (Err e) s) → ensures (db_ensure c e) s Q.
Proof. destruct c; intros H1 H2; [by apply H1|by apply H2]. Qed.
Lemma ensures_get {A} (f : S → A) s (Q : result E A → S → Prop) : Q (Ok (f s)) s → ensures (db_get f) s Q.
Proof. done. Qed.
Lemma ensures_put f s (Q : result E unit → S → Prop) : Q (Ok tt) (f s) → ensures (db_put f) s Q.
Proof. done. Qed.
Lemma ensures_transaction {A} (m : db E S (bool * A)) s (Q : result E A → S → Prop) :
  ensures m s (λ r s', match r with Ok (c, a) => Q (Ok a) (if c then s' else s) | Err e => Q (Err e) s end) →
  ensures (transaction m) s Q.
Proof. unfold ensures, transaction. by destruct (m s) as [[[[[] a]|e] s']|]. Qed.
Lemma ensures_eq {A} (m : db E S A) s r s' (Q : result E A → S → Prop) : m s = Done (r, s') → ensures m s Q → Q r s'.
Proof. unfold ensures. by intros ->. Qed.
Lemma ensures_Done {A} (m : db E S A) s (Q : result E A → S → Prop) :
  ensures m s Q → ∃ r s', m s = Done (r, s') ∧ Q r s'.
Proof. unfold ensures. destruct (m s) as [[r s']|]; [eauto|done]. Qed.
End monad.

(** One statement of an operation. *)
Ltac db_step :=
  match goal with
  | |- ensures (mbind _ _) _ _ => apply ensures_bind
  | |- ensures (mret _) _ _ => apply ensures_ret
  | |- ensures (db_fail _) _ _ => apply ensures_fail
  | |- ensures (db_lift _) _ _ => apply ensures_lift
  | |- ensures (db_get _) _ _ => apply ensures_get
  | |- ensures (db_put _) _ _ => apply ensures_put
  | |- ensures (transaction _) _ _ => apply ensures_transaction
  | |- ensures (db_ensure _ _) _ _ => apply ensures_ensure; intros ?
  end; cbv beta iota.
