(* ===== verification/Totp.v ===== *)
(** * Second factors and stored secrets ([admin_auth.rs])

    Base32 text of a TOTP key, the codes of RFC 6238 with the window in which one is
    accepted, and the comparison of secrets. The HMAC is a parameter. *)

From S2P Require Import Prelude RustStr RustText.
Local Open Scope Z_scope.
Set Default Proof Using "Type".

(** ** Base32 *)

Definition ALPHABET : list Z := lit "ABCDEFGHIJKLMNOPQRSTUVWXYZ234567".

(** [(buffer << n) | low] on [u32]: the bits shifted out are lost. *)
Definition shift_in (buffer n low : Z) : Z := Z.lor (Z.shiftl buffer n mod 4294967296) low.

Record Bits := { buffer : Z; bits : Z; output : list Z }.
Definition no_bits : Bits := {| buffer := 0; bits := 0; output := [] |}.

Definition ALPHABET_at (i : Z) : exec Z := index ALPHABET (Z.to_nat i).

(** [while bits >= 5]. *)
Fixpoint emit_digits (fuel : nat) (s : Bits) : exec Bits :=
  if negb (5 <=? bits s) then Done s
  else
    match fuel with
    | O => Panic
    | S fuel =>
        let bits := bits s - 5 in
        c ← ALPHABET_at (Z.land (Z.shiftr (buffer s) bits) 31);
        emit_digits fuel {| buffer := buffer s; bits := bits; output := output s ++ [c] |}
    end.

Definition encode_byte (s : Bits) (byte : Z) : exec Bits :=
  emit_digits (Z.to_nat (bits s + 8)) {| buffer := shift_in (buffer s) 8 byte; bits := bits s + 8; output := output s |}.
Fixpoint encode_bytes (s : Bits) (input : list Z) : exec Bits :=
  match input with [] => Done s | byte :: input => s ← encode_byte s byte; encode_bytes s input end.

Definition base32_encode (input : list Z) : exec rstr :=
  s ← encode_bytes no_bits input;
  if 0 <? bits s
  then c ← ALPHABET_at (Z.land (Z.shiftl (buffer s) (5 - bits s) mod 4294967296) 31); Done (output s ++ [c])
  else Done (output s).

Definition upper_byte (b : Z) : Z := if is_ascii_lower b then b - 32 else b.
Definition digit_value (character : Z) : option Z :=
  if is_ascii_upper (upper_byte character) then Some (upper_byte character - 65)
  else if (50 <=? upper_byte character) && (upper_byte character <=? 55) then Some (character - 50 + 26)
  else None.

Definition decode_digit (s : Bits) (value : Z) : Bits :=
  let buffer := shift_in (buffer s) 5 value in
  let n := bits s + 5 in
  if 8 <=? n then {| buffer := buffer; bits := n - 8; output := output s ++ [Z.land (Z.shiftr buffer (n - 8)) 255] |}
  else {| buffer := buffer; bits := n; output := output s |}.
Fixpoint decode_digits (s : Bits) (input : list Z) : option Bits :=
  match input with
  | [] => Some s
  | character :: input => value ← digit_value character; decode_digits (decode_digit s value) input
  end.

Definition base32_decode (input : rstr) : option (list Z) :=
  s ← decode_digits no_bits (filter (λ b, is_ascii_whitespace b = false) (as_bytes input));
  if bool_decide (output s = []) then None else Some (output s).

(** ** Codes *)

(** The loop of [constant_time_eq]: missing bytes count as zero, the lengths as well. *)
Definition byte_at (l : list Z) (i : nat) : Z := default 0 (l !! i).
Definition constant_time_eq (left right : list Z) : bool :=
  foldl (λ difference i, Z.lor difference (Z.lxor (byte_at left i) (byte_at right i)))
    (Z.lxor (len left) (len right)) (seq 0 (length left `max` length right)) =? 0.

(** [{:06}]. *)
Definition pad6 (n : Z) : rstr := let s := to_string n in replicate (6 - length s) 48 ++ s.

(** [u64::saturating_add_signed]. *)
Definition saturating_add_signed (n offset : Z) : Z := Z.max 0 (Z.min U64_MAX (n + offset)).

Section codes.
(** [Hmac::<Sha1>]: [None] where the key is refused. *)
Context (hmac_sha1 : list Z → list Z → option (list Z)).

Definition truncate (digest : list Z) : exec Z :=
  last ← index digest 19;
  let offset := Z.to_nat (Z.land last 15) in
  d0 ← index digest offset; d1 ← index digest (offset + 1);
  d2 ← index digest (offset + 2); d3 ← index digest (offset + 3);
  Done (Z.lor (Z.lor (Z.lor (Z.shiftl (Z.land d0 127) 24) (Z.shiftl d1 16)) (Z.shiftl d2 8)) d3).

Definition totp_code (secret : list Z) (unix_seconds : Z) : exec (option rstr) :=
  match hmac_sha1 secret (to_be_bytes 8 (unix_seconds / 30)) with
  | None => Done None
  | Some digest => binary ← truncate digest; Done (Some (pad6 (binary mod 1000000)))
  end.

(** [any] over the three offsets. *)
Fixpoint code_in (secret code : list Z) (unix_seconds : Z) (offsets : list Z) : exec bool :=
  match offsets with
  | [] => Done false
  | offset :: offsets =>
      candidate ← totp_code secret (saturating_add_signed unix_seconds offset);
      if match candidate with Some candidate => constant_time_eq (as_bytes candidate) code | None => false end
      then Done true else code_in secret code unix_seconds offsets
  end.

Definition verify_totp (encoded_secret code : rstr) (unix_seconds : Z) : exec bool :=
  let code := trim code in
  if negb (str_len code =? 6) || negb (all is_ascii_digit (as_bytes code)) then Done false
  else
    match base32_decode encoded_secret with
    | None => Done false
    | Some secret => code_in secret (as_bytes code) unix_seconds [-30; 0; 30]
    end.
End codes.

(** ** Round trip of Base32 *)

(** The number with these digits. *)
Definition num (base : Z) (digits : list Z) : Z := fold_left (λ acc d, acc * base + d) digits 0.
Lemma num_snoc base l d : num base (l ++ [d]) = num base l * base + d.
Proof. unfold num. by rewrite fold_left_app. Qed.

Definition letter (d : Z) : Z := nth (Z.to_nat d) ALPHABET 0.

Definition letter_ok (i : nat) : bool :=
  bool_decide (ALPHABET !! i = Some (letter (Z.of_nat i))) &&
  bool_decide (digit_value (letter (Z.of_nat i)) = Some (Z.of_nat i)) &&
  negb (is_ascii_whitespace (letter (Z.of_nat i))) && is_ascii [letter (Z.of_nat i)].
Lemma letters_ok : all letter_ok (seq 0 32) = true.
Proof. vm_compute. reflexivity. Qed.

Lemma letter_facts d : 0 ≤ d < 32 →
  ALPHABET_at d = Done (letter d) ∧ digit_value (letter d) = Some d ∧
  is_ascii_whitespace (letter d) = false ∧ is_ascii [letter d] = true.
Proof.
  intros Hd. pose proof letters_ok as H. apply all_Forall in H. rewrite Forall_forall in H.
  specialize (H (Z.to_nat d)). rewrite elem_of_seq in H. unfold letter_ok in H. rewrite Z2Nat.id in H by lia.
  assert (0 ≤ Z.to_nat d < 0 + 32)%nat as Hr by lia. apply H in Hr.
  apply andb_true_iff in Hr as [Hr H4]. apply andb_true_iff in Hr as [Hr H3]. apply andb_true_iff in Hr as [H1 H2].
  apply bool_decide_eq_true in H1, H2. apply negb_true_iff in H3. split_and!; try done.
  unfold ALPHABET_at, index. by rewrite H1.
Qed.

(** A 32-bit buffer of which at most [n] bits are in use holds the low bits of [v]. *)
Lemma shift_in_low v n low : 0 ≤ v → 0 ≤ n ≤ 32 → 0 ≤ low < 2 ^ n →
  shift_in (v mod 2 ^ 32) n low = (v * 2 ^ n + low) mod 2 ^ 32.
Proof.
  intros Hv Hn Hlow. unfold shift_in. change 4294967296 with (2 ^ 32). rewrite Z.shiftl_mul_pow2 by lia.
  rewrite Zmult_mod_idemp_l.
  assert (v * 2 ^ n mod 2 ^ 32 = (v mod 2 ^ (32 - n)) * 2 ^ n) as E.
  { replace (2 ^ 32) with (2 ^ (32 - n) * 2 ^ n) by (rewrite <- Z.pow_add_r by lia; f_equal; lia).
    apply Z.mul_mod_distr_r; apply Z.pow_nonzero; lia. }
  assert (0 ≤ v mod 2 ^ (32 - n) < 2 ^ (32 - n)) as Hb by (apply Z.mod_pos_bound; lia).
  assert (2 ^ 32 = 2 ^ (32 - n) * 2 ^ n) as Ep by (rewrite <- Z.pow_add_r by lia; f_equal; lia).
  rewrite E, <- Z.shiftl_mul_pow2, lor_shiftl by lia. rewrite <- E.
  rewrite <- (Z.mod_small (v * 2 ^ n mod 2 ^ 32 + low) (2 ^ 32)) by (rewrite E; nia).
  by rewrite Zplus_mod_idemp_l.
Qed.

Lemma window v b k : 0 ≤ v → 0 ≤ b → 0 ≤ k → b + k ≤ 32 →
  Z.land (Z.shiftr (v mod 2 ^ 32) b) (Z.ones k) = v / 2 ^ b mod 2 ^ k.
Proof.
  intros Hv Hb Hk Hbk. apply Z.bits_inj'. intros i Hi.
  rewrite <- !Z.land_ones by lia. rewrite !Z.land_spec, Z.shiftr_spec by lia.
  rewrite <- Z.shiftr_div_pow2 by lia. rewrite Z.shiftr_spec, Z.land_spec by lia.
  destruct (Z.ltb_spec i k).
  - rewrite (Z.ones_spec_low 32 (i + b)) by lia. by rewrite andb_true_r.
  - rewrite (Z.ones_spec_high k i) by lia. by rewrite !andb_false_r.
Qed.

(** [encoded s v n]: the digits out of [n] bits of the number [v], the rest in the buffer. *)
Record encoded (s : Bits) (v n : Z) : Prop := {
  encoded_pos : 0 ≤ v;
  encoded_buffer : buffer s = v mod 2 ^ 32;
  encoded_bits : 0 ≤ bits s;
  encoded_output : ∃ ds, output s = letter <$> ds ∧ Forall (λ d, 0 ≤ d < 32) ds ∧
    num 32 ds = v / 2 ^ bits s ∧ 5 * len ds + bits s = n;
}.

Lemma emit_digits_encoded fuel s v n : encoded s v n → bits s ≤ 32 → bits s ≤ Z.of_nat fuel →
  ∃ s', emit_digits fuel s = Done s' ∧ encoded s' v n ∧ bits s' < 5.
Proof.
  revert s. induction fuel as [|fuel IH]; intros s H Hb Hf; cbn [emit_digits].
  - destruct (Z.leb_spec 5 (bits s)); [lia|]. cbn [negb]. eauto with lia.
  - destruct (Z.leb_spec 5 (bits s)) as [H5|]; cbn [negb]; [|eauto with lia].
    destruct H as [Hv Hbuf Hp (ds & Ho & Hds & Hnum & Hn)].
    assert (0 ≤ v / 2 ^ (bits s - 5) mod 2 ^ 5 < 32) as Hd by (apply Z.mod_pos_bound; lia).
    rewrite Hbuf. change 31 with (Z.ones 5). rewrite window by lia.
    destruct (letter_facts _ Hd) as (Hl & _). rewrite Hl. cbn [mbind exec_bind].
    apply IH; [|simpl; lia..]. split; cbn [buffer bits output]; [done|done|lia|].
    exists (ds ++ [v / 2 ^ (bits s - 5) mod 2 ^ 5]). rewrite fmap_app, Ho, num_snoc, Hnum, len_app, len_singleton. split_and!.
    + done.
    + apply Forall_app. split; [done|]. by constructor.
    + replace (2 ^ bits s) with (2 ^ (bits s - 5) * 2 ^ 5) by (rewrite <- Z.pow_add_r by lia; f_equal; lia).
      rewrite <- Z.div_div by lia. change 32 with (2 ^ 5). rewrite (Z.mul_comm _ (2 ^ 5)). symmetry. apply Z.div_mod. lia.
    + lia.
Qed.

Lemma encode_byte_encoded s v n byte : encoded s v n → bits s < 5 → byte_ok byte →
  ∃ s', encode_byte s byte = Done s' ∧ encoded s' (v * 256 + byte) (n + 8) ∧ bits s' < 5.
Proof.
  intros [Hv Hbuf Hp (ds & Ho & Hds & Hnum & Hn)] H5 Hb. unfold byte_ok in Hb. unfold encode_byte.
  apply emit_digits_encoded; [|simpl; lia..]. split; cbn [buffer bits output]; [nia| |lia|].
  - rewrite Hbuf. rewrite shift_in_low by lia. done.
  - exists ds. split_and!; try done; [|lia]. rewrite Hnum.
    replace (2 ^ (bits s + 8)) with (256 * 2 ^ bits s) by (rewrite Z.pow_add_r by lia; lia).
    rewrite <- Z.div_div by lia. f_equal. rewrite Z.div_add_l, Z.div_small by lia. lia.
Qed.

Lemma encode_bytes_encoded input s v n : encoded s v n → bits s < 5 → bytes_ok input →
  ∃ s', encode_bytes s input = Done s' ∧
    encoded s' (fold_left (λ acc b, acc * 256 + b) input v) (n + 8 * len input) ∧ bits s' < 5.
Proof.
  revert s v n. induction input as [|b input IH]; intros s v n H H5 Hb; cbn [encode_bytes fold_left].
  - exists s. change (len (@nil Z)) with 0. by rewrite Z.mul_0_r, Z.add_0_r.
  - apply Forall_cons in Hb as [Hb Hbs]. destruct (encode_byte_encoded s v n b H H5 Hb) as (s1 & E1 & H1 & H51).
    rewrite E1. cbn [mbind exec_bind]. destruct (IH s1 _ _ H1 H51 Hbs) as (s2 & E2 & H2 & H52).
    exists s2. split; [done|]. split; [|done]. rewrite len_cons. by replace (n + 8 * (1 + len input)) with (n + 8 + 8 * len input) by lia.
Qed.

(** The text of a key: digits of its bits, padded to a multiple of five. *)
Lemma base32_encode_digits input : bytes_ok input →
  ∃ ds pad, base32_encode input = Done (letter <$> ds) ∧ Forall (λ d, 0 ≤ d < 32) ds ∧ 0 ≤ pad < 5 ∧
    num 32 ds = from_be_bytes input * 2 ^ pad ∧ 5 * len ds = 8 * len input + pad.
Proof.
  intros Hb. assert (encoded no_bits 0 0) as H0 by (split; cbn; [lia|done|lia|exists []; split_and!; (done || constructor)]).
  destruct (encode_bytes_encoded input no_bits 0 0 H0) as (s & E & [Hv Hbuf Hp (ds & Ho & Hds & Hnum & Hn)] & H5); [done|done|].
  fold (from_be_bytes input) in *. unfold base32_encode. rewrite E. cbn [mbind exec_bind]. rewrite Z.add_0_l in Hn.
  destruct (Z.ltb_spec 0 (bits s)) as [Hpos|Hz].
  - set (d := from_be_bytes input mod 2 ^ bits s * 2 ^ (5 - bits s)).
    assert (2 ^ bits s * 2 ^ (5 - bits s) = 32) as Ep by (rewrite <- Z.pow_add_r by lia; by replace (bits s + (5 - bits s)) with 5 by lia).
    assert (0 ≤ from_be_bytes input mod 2 ^ bits s < 2 ^ bits s) as Hm by (apply Z.mod_pos_bound; lia).
    assert (0 < 2 ^ (5 - bits s)) as Hp2 by lia.
    assert (0 ≤ d < 32) as Hd by (unfold d; nia).
    assert (Z.land (Z.shiftl (buffer s) (5 - bits s) mod 4294967296) 31 = d) as ->.
    { change 31 with (Z.ones 5). change (2 ^ 32) with 4294967296 in Hbuf.
      rewrite Z.land_ones, Z.shiftl_mul_pow2, Hbuf by lia. change (2 ^ 5) with 32.
      rewrite (Z.mod_mod_divide _ 4294967296 32) by (by exists (2 ^ 27)). rewrite <- Ep.
      rewrite Z.mul_mod_distr_r by lia. unfold d. f_equal. apply Z.mod_mod_divide.
      exists (2 ^ (32 - bits s)). change 4294967296 with (2 ^ 32). rewrite <- Z.pow_add_r by lia. f_equal. lia. }
    destruct (letter_facts d Hd) as (Hl & _). rewrite Hl. cbn [mbind exec_bind].
    exists (ds ++ [d]), (5 - bits s). rewrite fmap_app, Ho, num_snoc, Hnum, len_app, len_singleton. split_and!; try lia.
    + done.
    + apply Forall_app. split; [done|]. by constructor.
    + unfold d. rewrite <- Ep. pose proof (Z.div_mod (from_be_bytes input) (2 ^ bits s)). nia.
  - assert (bits s = 0) as Hb0 by lia. rewrite Hb0 in *. exists ds, 0. rewrite Ho, Hnum. split_and!; try (done || lia).
    by rewrite Z.div_1_r, Z.mul_1_r.
Qed.

(** [decoded s v n]: the bytes out of [n] bits of the number [v]. *)
Record decoded (s : Bits) (v n : Z) : Prop := {
  decoded_pos : 0 ≤ v;
  decoded_buffer : buffer s = v mod 2 ^ 32;
  decoded_bits : 0 ≤ bits s < 8;
  decoded_output : bytes_ok (output s) ∧ from_be_bytes (output s) = v / 2 ^ bits s ∧ 8 * len (output s) + bits s = n;
}.

Lemma decode_digit_decoded s v n d : decoded s v n → 0 ≤ d < 32 → decoded (decode_digit s d) (v * 32 + d) (n + 5).
Proof.
  intros [Hv Hbuf Hb (Hok & Hnum & Hn)] Hd. unfold decode_digit. rewrite Hbuf, shift_in_low by lia.
  change (2 ^ 5) with 32. assert ((v * 32 + d) / 2 ^ (bits s + 5) = v / 2 ^ bits s) as Ev.
  { replace (2 ^ (bits s + 5)) with (32 * 2 ^ bits s) by (rewrite Z.pow_add_r by lia; lia).
    rewrite <- Z.div_div by lia. f_equal. rewrite Z.div_add_l, Z.div_small by lia. lia. }
  destruct (Z.leb_spec 8 (bits s + 5)) as [H8|H8]; split; cbn [buffer bits output]; try (done || lia).
  - change 255 with (Z.ones 8). rewrite window by lia.
    assert (0 ≤ (v * 32 + d) / 2 ^ (bits s + 5 - 8) mod 2 ^ 8 < 256) as Hm by (apply Z.mod_pos_bound; lia).
    split_and!.
    + apply Forall_app. split; [done|]. by constructor.
    + rewrite from_be_bytes_snoc, Hnum, <- Ev.
      replace (2 ^ (bits s + 5)) with (2 ^ (bits s + 5 - 8) * 2 ^ 8) by (rewrite <- Z.pow_add_r by lia; f_equal; lia).
      rewrite <- Z.div_div by lia. change 256 with (2 ^ 8). rewrite (Z.mul_comm _ (2 ^ 8)). symmetry. apply Z.div_mod. lia.
    + rewrite len_app, len_singleton. lia.
  - split_and!; [done|by rewrite Ev|lia].
Qed.

Lemma decode_digits_decoded ds s v n : decoded s v n → Forall (λ d, 0 ≤ d < 32) ds →
  ∃ s', decode_digits s (letter <$> ds) = Some s' ∧
    decoded s' (fold_left (λ acc d, acc * 32 + d) ds v) (n + 5 * len ds).
Proof.
  revert s v n. induction ds as [|d ds IH]; intros s v n H Hds; cbn [fmap list_fmap decode_digits fold_left].
  - exists s. change (len (@nil Z)) with 0. by rewrite Z.mul_0_r, Z.add_0_r.
  - apply Forall_cons in Hds as [Hd Hds]. destruct (letter_facts d Hd) as (_ & Hl & _). rewrite Hl. cbn [mbind option_bind].
    destruct (IH _ _ _ (decode_digit_decoded s v n d H Hd) Hds) as (s2 & E2 & H2). exists s2. split; [done|].
    rewrite len_cons. by replace (n + 5 * (1 + len ds)) with (n + 5 + 5 * len ds) by lia.
Qed.

Lemma letters_text ds : Forall (λ d, 0 ≤ d < 32) ds →
  filter (λ b, is_ascii_whitespace b = false) (as_bytes (letter <$> ds)) = letter <$> ds.
Proof.
  intros H. rewrite as_bytes_ascii.
  - apply filter_all, Forall_fmap. eapply Forall_impl; [exact H|]. intros d Hd. by apply letter_facts.
  - unfold is_ascii. apply all_Forall, Forall_fmap. eapply Forall_impl; [exact H|]. intros d Hd. cbn.
    destruct (letter_facts d Hd) as (_ & _ & _ & Ha). unfold is_ascii in Ha. cbn in Ha. by rewrite andb_true_r in Ha.
Qed.

Lemma base32_text input : bytes_ok input → input ≠ [] →
  ∃ text, base32_encode input = Done text ∧ base32_decode text = Some input.
Proof.
  intros Hb Hne. destruct (base32_encode_digits input Hb) as (ds & pad & E & Hds & Hpad & Hnum & Hlen).
  exists (letter <$> ds). split; [done|]. unfold base32_decode. rewrite letters_text by done.
  assert (decoded no_bits 0 0) as H0 by (split; cbn; (lia || done || (split_and!; (done || constructor)))).
  destruct (decode_digits_decoded ds no_bits 0 0 H0 Hds) as (s & Es & [Hv Hbuf Hbits (Hok & Hval & Hn)]).
  rewrite Es. cbn [mbind option_bind]. fold (num 32 ds) in Hval. rewrite Hnum in Hval. rewrite Z.add_0_l in Hn.
  assert (len (output s) = len input ∧ bits s = pad) as [Hl Hbp] by lia.
  rewrite Hbp, Z.div_mul in Hval by lia.
  assert (output s = input) as ->.
  { rewrite <- (to_from_be_bytes (output s)), <- (to_from_be_bytes input), Hval by done. f_equal. unfold len in Hl. lia. }
  by rewrite bool_decide_eq_false_2.
Qed.

(** ** Codes *)

Lemma lor_fold_0 {A} (f : A → Z) l a : foldl (λ acc x, Z.lor acc (f x)) a l = 0 ↔ a = 0 ∧ Forall (λ x, f x = 0) l.
Proof.
  revert a. induction l as [|x l IH]; intros a; cbn [foldl]; [split; [by intros ->|by intros [-> _]]|].
  rewrite IH, Forall_cons, Z.lor_eq_0_iff. tauto.
Qed.
Lemma constant_time_eq_spec l r : constant_time_eq l r = true ↔ l = r.
Proof.
  unfold constant_time_eq. rewrite Z.eqb_eq, lor_fold_0, Z.lxor_eq_0_iff. split; [|intros ->; split; [done|]].
  - intros [Hlen HF]. unfold len in Hlen. apply Nat2Z.inj in Hlen. apply list_eq. intros i.
    destruct (decide (i < length l)%nat) as [Hi|Hi].
    + rewrite Forall_forall in HF. assert (i ∈ seq 0 (length l `max` length r)) as Hin by (apply elem_of_seq; lia).
      apply HF, (proj1 (Z.lxor_eq_0_iff _ _)) in Hin. unfold byte_at in Hin.
      destruct (lookup_lt_is_Some_2 l i Hi) as [a Ha]. destruct (lookup_lt_is_Some_2 r i) as [b Hb]; [lia|].
      rewrite Ha, Hb in Hin. cbn in Hin. by rewrite Ha, Hb, Hin.
    + rewrite !lookup_ge_None_2 by lia. done.
  - apply Forall_forall. intros i _. apply Z.lxor_nilpotent.
Qed.

Lemma digits_ascii s : digits_ok s → is_ascii s = true.
Proof.
  intros Hd. apply all_Forall. eapply Forall_impl; [exact Hd|]. unfold is_ascii_digit. intros x Hx. bool_prop.
  apply andb_true_iff. lia.
Qed.
Lemma dec_digits_length fuel n k : (0 < k)%nat → 0 ≤ n < 10 ^ Z.of_nat k → (length (dec_digits fuel n) ≤ k)%nat.
Proof.
  revert n k. induction fuel as [|fuel IH]; intros n k Hk Hn; [simpl; lia|]. cbn [dec_digits].
  destruct (Z.ltb_spec n 10); [simpl; lia|]. destruct k as [|[|k]]; [lia|simpl in Hn; lia|].
  rewrite length_app. cbn [length]. specialize (IH (n / 10) (S k)).
  rewrite Nat2Z.inj_succ, Z.pow_succ_r in Hn by lia.
  assert (0 ≤ n / 10 < 10 ^ Z.of_nat (S k)) by (split; [apply Z.div_pos; lia|apply Z.div_lt_upper_bound; lia]). lia.
Qed.
Lemma pad6_ok n : 0 ≤ n < 1000000 → digits_ok (pad6 n) ∧ length (pad6 n) = 6%nat.
Proof.
  intros Hn. assert (length (to_string n) ≤ 6)%nat as Hl by (apply (dec_digits_length 40 n 6); lia).
  unfold pad6. split.
  - apply Forall_app. split; [|apply to_string_digits; lia]. apply Forall_replicate. done.
  - rewrite length_app, length_replicate. lia.
Qed.

(** The three times tried have the counters around that of [now]. *)
Lemma offsets_counters now c : 0 ≤ now ≤ U64_MAX - 30 →
  (∃ o, o ∈ [-30; 0; 30] ∧ saturating_add_signed now o / 30 = c) ↔ 0 ≤ c ∧ now / 30 - 1 ≤ c ≤ now / 30 + 1.
Proof.
  intros Hn. unfold saturating_add_signed.
  assert (Z.max 0 (Z.min U64_MAX (now + 30)) = now + 30) as E1 by lia.
  assert (Z.max 0 (Z.min U64_MAX (now + 0)) = now) as E2 by lia.
  assert ((now + 30) / 30 = now / 30 + 1) as D1 by (rewrite <- (Z.div_add now 1 30) by lia; f_equal; lia).
  assert (Z.max 0 (Z.min U64_MAX (now + -30)) / 30 = Z.max 0 (now / 30 - 1)) as D2.
  { destruct (Z.leb_spec 30 now).
    - replace (Z.max 0 (Z.min U64_MAX (now + -30))) with (now + (-1) * 30) by lia. rewrite Z.div_add by lia.
      assert (30 / 30 ≤ now / 30) by (apply Z.div_le_mono; lia). change (30 / 30) with 1 in *. lia.
    - replace (Z.max 0 (Z.min U64_MAX (now + -30))) with 0 by lia. rewrite (Z.div_small now) by lia. done. }
  assert (0 ≤ now / 30) by (apply Z.div_pos; lia).
  split.
  - intros (o & Ho & <-). rewrite !elem_of_cons, elem_of_nil in Ho.
    destruct Ho as [->|[->|[->|[]]]]; rewrite ?E1, ?E2, ?D1, ?D2; lia.
  - intros Hc. destruct (Z.eq_dec c (now / 30)) as [->|H1].
    + exists 0. split; [set_solver|]. by rewrite E2.
    + destruct (Z.eq_dec c (now / 30 + 1)) as [->|H2].
      * exists 30. split; [set_solver|]. by rewrite E1, D1.
      * exists (-30). split; [set_solver|]. rewrite D2. lia.
Qed.
Section windows.
Context (hmac_sha1 : list Z → list Z → option (list Z)).

(** HMAC-SHA-1 yields 20 bytes, for a key of any length. *)
Hypothesis hmac_digest : ∀ key message, ∃ digest, hmac_sha1 key message = Some digest ∧ length digest = 20%nat ∧ bytes_ok digest.

Lemma totp_code_ok key t : ∃ n, totp_code hmac_sha1 key t = Done (Some (pad6 n)) ∧ 0 ≤ n < 1000000.
Proof using hmac_digest.
  unfold totp_code. destruct (hmac_digest key (to_be_bytes 8 (t / 30))) as (d & -> & Hl & Hb).
  assert (∀ k, (k < 20)%nat → ∃ b, index d k = Done b) as Hidx.
  { intros k Hk. destruct (lookup_lt_is_Some_2 d k) as [b E]; [lia|]. exists b. unfold index. by rewrite E. }
  unfold truncate. destruct (Hidx 19%nat) as [last ->]; [lia|]. cbn [mbind exec_bind].
  assert (0 ≤ Z.land last 15 < 16) as Ho.
  { change 15 with (Z.ones 4). rewrite Z.land_ones by lia. apply Z.mod_pos_bound. lia. }
  destruct (Hidx (Z.to_nat (Z.land last 15))) as [b0 ->]; [lia|]. destruct (Hidx (Z.to_nat (Z.land last 15) + 1)%nat) as [b1 ->]; [lia|].
  destruct (Hidx (Z.to_nat (Z.land last 15) + 2)%nat) as [b2 ->]; [lia|]. destruct (Hidx (Z.to_nat (Z.land last 15) + 3)%nat) as [b3 ->]; [lia|].
  cbn [mbind exec_bind]. eexists. split; [reflexivity|]. apply Z.mod_pos_bound. lia.
Qed.

Lemma code_in_ok key code now offsets :
  ∃ b, code_in hmac_sha1 key (as_bytes code) now offsets = Done b ∧
    (b = true ↔ ∃ o candidate, o ∈ offsets ∧ totp_code hmac_sha1 key (saturating_add_signed now o) = Done (Some candidate) ∧
       as_bytes candidate = as_bytes code).
Proof using hmac_digest.
  induction offsets as [|o offsets (b & IH & Hb)]; cbn [code_in].
  - exists false. split; [done|]. split; [done|]. intros (o & c & Ho & _). by apply elem_of_nil in Ho.
  - destruct (totp_code_ok key (saturating_add_signed now o)) as (n & E & Hn). rewrite E. cbn [mbind exec_bind].
    destruct (constant_time_eq _ _) eqn:Ec.
    + exists true. split; [done|]. split; [|done]. intros _. exists o, (pad6 n). split; [by left|]. split; [done|].
      by apply constant_time_eq_spec.
    + exists b. split; [done|]. rewrite Hb. setoid_rewrite elem_of_cons. split; [naive_solver|].
      intros (o' & c & [->|Ho] & Ec' & Eb); [|naive_solver]. rewrite E in Ec'. injection Ec' as <-.
      apply constant_time_eq_spec in Eb. congruence.
Qed.

Lemma verify_totp_ok key text code now :
  base32_decode text = Some key → str_ok code → 0 ≤ now ≤ U64_MAX - 30 →
  ∃ b, verify_totp hmac_sha1 text code now = Done b ∧
    (b = true ↔ ∃ t, 0 ≤ t ∧ now / 30 - 1 ≤ t / 30 ≤ now / 30 + 1 ∧ totp_code hmac_sha1 key t = Done (Some (trim code))).
Proof using hmac_digest.
  intros Hk Hs Hn. unfold verify_totp. assert (str_ok (trim code)) as Hst by by apply trim_Forall.
  set (c := trim code) in *. clearbody c.
  destruct (negb (str_len c =? 6) || negb (all is_ascii_digit (as_bytes c))) eqn:Eg.
  - exists false. split; [done|]. split; [done|]. intros (t & _ & _ & Et).
    destruct (totp_code_ok key t) as (n & E & Hn6). rewrite E in Et. injection Et as <-.
    destruct (pad6_ok n Hn6) as [Hd Hl].
    unfold str_len in Eg. rewrite as_bytes_ascii in Eg by by apply digits_ascii. unfold len in Eg. rewrite Hl in Eg. cbn in Eg.
    rewrite (proj2 (all_Forall _ _)) in Eg by done. done.
  - apply orb_false_iff in Eg as [_ Ed]. apply negb_false_iff, all_Forall in Ed. rewrite Hk.
    destruct (code_in_ok key c now [-30; 0; 30]) as (b & E & Hb). exists b. split; [done|]. rewrite Hb.
    assert (∀ t u, t / 30 = u / 30 → totp_code hmac_sha1 key t = totp_code hmac_sha1 key u) as Hc
      by (intros t u Htu; unfold totp_code; by rewrite Htu).
    split.
    + intros (o & cand & Ho & Et & Eb). destruct (proj1 (offsets_counters now _ Hn) (ex_intro _ o (conj Ho eq_refl))) as [H0 Hr].
      exists (saturating_add_signed now o). split; [unfold saturating_add_signed; lia|]. split; [done|]. rewrite Et. do 2 f_equal.
      destruct (totp_code_ok key (saturating_add_signed now o)) as (n & E' & Hn6). rewrite E' in Et. injection Et as <-.
      destruct (pad6_ok n Hn6) as [Hd _].
      pose proof (from_utf8_as_bytes c Hst) as Hf. rewrite from_utf8_ascii in Hf by by apply digits_ascii. injection Hf as Hf.
      rewrite <- Hf, <- Eb. by rewrite as_bytes_ascii by by apply digits_ascii.
    + intros (t & Ht & Hr & Et). destruct (proj2 (offsets_counters now (t / 30) Hn)) as (o & Ho & Eo).
      { split; [apply Z.div_pos; lia|done]. }
      exists o, c. split; [done|]. by rewrite (Hc _ _ Eo).
Qed.

(** A second factor works as enrolled: the text that a key is shown as is read back as
    the key, checking a code never panics, and a code is accepted exactly when it is the one of
    the key for the current 30 second step or one of its neighbours. *)
Theorem totp_enrolled_key_checks (key : list Z) :
  bytes_ok key → key ≠ [] →
  ∃ text, base32_encode key = Done text ∧ base32_decode text = Some key ∧
    ∀ code now, str_ok code → 0 ≤ now ≤ U64_MAX - 30 →
      ∃ accepted, verify_totp hmac_sha1 text code now = Done accepted ∧
        (accepted = true ↔
         ∃ t, 0 ≤ t ∧ now / 30 - 1 ≤ t / 30 ≤ now / 30 + 1 ∧ totp_code hmac_sha1 key t = Done (Some (trim code))).
Proof using hmac_digest.
  intros Hb Hne. destruct (base32_text key Hb Hne) as (text & E & D). exists text. split; [done|]. split; [done|].
  intros code now Hs Hn. by apply verify_totp_ok.
Qed.
End windows.

(** ** Witness *)

Definition sample_hmac (key message : list Z) : option (list Z) :=
  Some (to_be_bytes 4 (from_be_bytes message * 7919 + len key) ++ replicate 16 0).
Definition sample_key : list Z := [72; 101; 108; 108; 111; 33; 222; 173; 190; 239].

Lemma sample_hmac_digest key message :
  ∃ digest, sample_hmac key message = Some digest ∧ length digest = 20%nat ∧ bytes_ok digest.
Proof.
  eexists. split; [reflexivity|]. rewrite length_app, length_to_be_bytes, length_replicate. split; [done|].
  apply Forall_app. split; [apply to_be_bytes_ok|]. by apply Forall_replicate.
Qed.

Lemma totp_enrolled_key_checks_witness :
  base32_encode sample_key = Done (lit "JBSWY3DPEHPK3PXP") ∧
  ∃ accepted, verify_totp sample_hmac (lit "JBSWY3DPEHPK3PXP") (lit " 007929 ") 45 = Done accepted ∧ accepted = true.
Proof.
  destruct (totp_enrolled_key_checks sample_hmac sample_hmac_digest sample_key) as (text & E & D & H).
  - apply (bool_decide_unpack _). vm_compute. exact I.
  - discriminate.
  - assert (base32_encode sample_key = Done (lit "JBSWY3DPEHPK3PXP")) as E' by (vm_compute; reflexivity).
    split; [exact E'|]. rewrite E' in E. injection E as <-.
    destruct (H (lit " 007929 ") 45) as (b & Hb & Hiff); [apply (bool_decide_unpack _); vm_compute; exact I|lia|].
    exists b. split; [exact Hb|]. apply Hiff. exists 30. split; [lia|]. split; [vm_compute; split; discriminate|]. vm_compute. reflexivity.
Defined.
