(* ===== verification/AdminAuth.v ===== *)
(** * Accounts and sessions ([admin_auth.rs])

    The users of the management interface, their passwords, second factors and sessions, in
    two SQLite tables behind one lock. Each operation is a function on the tables;
    [clock i] is the reading of [unix_seconds()] that its i-th call gets, and random values are
    arguments. SQL failures other than a violated primary key are not modelled.

    UUIDs, SHA-256, Argon2 and HMAC are parameters ([Platform]). *)

From S2P Require Import Prelude DbMonad RustStr RustText P2pProtocol Totp.
Local Open Scope Z_scope.
Set Default Proof Using "Type".

(** ** Parameters *)

Class Platform := {
  uuid_string : Z → rstr;
  uuid_parse : rstr → option Z;
  uuid_simple : Z → rstr;
  sha256 : list Z → list Z;
  (** [Argon2::hash_password] with this salt, and [verify_password], [None] for a hash that
      does not parse. *)
  argon2_hash : Z → rstr → option rstr;
  argon2_verify : rstr → rstr → option bool;
  hmac_sha1 : list Z → list Z → option (list Z);
}.

Definition uuid_ok (id : Z) : Prop := 0 ≤ id ≤ U128_MAX.

Class PlatformLaws `{Platform} := {
  uuid_parse_string : ∀ id, uuid_ok id → uuid_parse (uuid_string id) = Some id;
  uuid_string_plain : ∀ id, uuid_ok id → lacks ch_dot (uuid_string id);
  argon2_verifies : ∀ salt password hash, argon2_hash salt password = Some hash → argon2_verify password hash = Some true;
  sha256_digest : ∀ message, length (sha256 message) = 32%nat ∧ bytes_ok (sha256 message);
  hmac_digest : ∀ key message, ∃ digest, hmac_sha1 key message = Some digest ∧ length digest = 20%nat ∧ bytes_ok digest;
}.

Lemma uuid_string_inj `{laws : PlatformLaws} i j : uuid_ok i → uuid_ok j → uuid_string i = uuid_string j → i = j.
Proof. intros Hi Hj E. apply (f_equal uuid_parse) in E. rewrite !uuid_parse_string in E by done. by injection E. Qed.

(** [n as i64] and [n as u64]. *)
Definition to_i64 (n : Z) : Z := if n <=? 9223372036854775807 then n else n - 18446744073709551616.
Definition to_u64 (n : Z) : Z := if n <? 0 then n + 18446744073709551616 else n.
Definition sql_bool (b : bool) : Z := if b then 1 else 0.

(** ** Data *)

Definition SESSION_LIFETIME_SECONDS : Z := 8 * 60 * 60.

Inductive UserRole := Administrator | Operator | Auditor.
Global Instance UserRole_eq_dec : EqDecision UserRole.
Proof. solve_decision. Defined.

Definition role_as_str (self : UserRole) : rstr :=
  match self with Administrator => lit "administrator" | Operator => lit "operator" | Auditor => lit "auditor" end.
Definition role_parse (value : rstr) : option UserRole :=
  if bool_decide (value = lit "administrator") then Some Administrator
  else if bool_decide (value = lit "operator") then Some Operator
  else if bool_decide (value = lit "auditor") then Some Auditor
  else None.

Record BootstrapCredentials := { b_username : rstr; b_password : rstr; b_force_password_change : bool }.

(** A row of [administrators]. *)
Record AdministratorRow := {
  password_hash : rstr;
  created : Z;
  must_change_password : Z;
  display_name : rstr;
  role : rstr;
  enabled : Z;
  last_login : option Z;
  totp_secret : option rstr;
  totp_enabled : Z;
}.
(** A row of [admin_sessions]. *)
Record SessionRow := {
  secret_hash : rstr;
  owner : rstr;
  s_created : Z;
  expires : Z;
  remote_addr : option rstr;
  user_agent : option rstr;
}.
Record AdminAuth := {
  administrators : gmap rstr AdministratorRow;
  admin_sessions : gmap rstr SessionRow;
  dummy_password_hash : rstr;
}.

Record NewSession := {
  ns_session_id : Z;
  cookie_value : rstr;
  ns_display_name : rstr;
  ns_expires : Z;
  ns_password_change_required : bool;
  ns_role : UserRole;
  ns_totp_enabled : bool;
}.
Inductive LoginAttempt := Success (session : NewSession) | InvalidCredentials | TotpRequired.

Record SessionIdentity := {
  id_session_id : Z;
  id_username : rstr;
  id_display_name : rstr;
  id_role : UserRole;
  id_expires : Z;
  id_password_change_required : bool;
  id_totp_enabled : bool;
}.
Record UserRecord := {
  ur_username : rstr;
  ur_display_name : rstr;
  ur_role : UserRole;
  ur_enabled : bool;
  ur_must_change_password : bool;
  ur_created : Z;
  ur_last_login : option Z;
  ur_active_sessions : Z;
  ur_totp_enabled : bool;
}.
Record SessionRecord := {
  sr_session_id : Z;
  sr_username : rstr;
  sr_created : Z;
  sr_expires : Z;
  sr_remote_addr : option rstr;
  sr_user_agent : option rstr;
}.
Record CreateUser := {
  cu_username : rstr;
  cu_display_name : rstr;
  cu_role : UserRole;
  cu_password : rstr;
  cu_force_password_change : bool;
}.
Record UpdateUser := { uu_display_name : rstr; uu_role : UserRole; uu_enabled : bool }.

Inductive AuthError :=
  | NoAdministrator | CredentialsIncomplete | InvalidUsername | InvalidPassword | InvalidDisplayName | InvalidRole
  | HashFailed | StoredHashInvalid | ConstraintViolation | UsernameExists | CreatedUserMissing
  | CurrentUserProtected | LastAdministrator | CurrentSessionProtected | InvalidQuery.

Abbreviation auth := (db AuthError AdminAuth).

(** ** Validation *)

Definition name_byte (b : Z) : bool := is_ascii_alphanumeric b || (b =? 95) || (b =? ch_minus).
Definition validate_password (password : rstr) : result AuthError unit :=
  if 12 <=? str_len password then Ok tt else Err InvalidPassword.
Definition validate_credentials (username password : rstr) : result AuthError unit :=
  if (3 <=? str_len username) && (str_len username <=? 64) && all name_byte (as_bytes username)
  then validate_password password else Err InvalidUsername.
Definition validate_display_name (value : rstr) : result AuthError unit :=
  let value := trim value in
  if negb (bool_decide (value = [])) && (len value <=? 80) && negb (any is_control value) then Ok tt else Err InvalidDisplayName.

(** [Option::filter]. *)
Definition keep_if {A} (p : A → bool) (o : option A) : option A :=
  match o with Some a => if p a then Some a else None | None => None end.

(** [BootstrapCredentials::from_environment] on the two variables. *)
Definition bootstrap_from_environment (username password : option rstr) (allow_insecure_default : bool) :
    result AuthError (option BootstrapCredentials) :=
  let username := keep_if (λ v, negb (bool_decide (trim v = []))) username in
  let password := keep_if (λ v, negb (bool_decide (v = []))) password in
  match username, password with
  | Some username, Some password =>
      _ ← validate_credentials username password;
      Ok (Some {| b_username := username; b_password := password; b_force_password_change := false |})
  | None, None =>
      Ok (if allow_insecure_default
          then Some {| b_username := lit "admin"; b_password := lit "123456"; b_force_password_change := true |}
          else None)
  | _, _ => Err CredentialsIncomplete
  end.

(** ** Tables *)

Definition set_administrators (t : gmap rstr AdministratorRow) (s : AdminAuth) : AdminAuth :=
  {| administrators := t; admin_sessions := admin_sessions s; dummy_password_hash := dummy_password_hash s |}.
Definition set_sessions (t : gmap rstr SessionRow) (s : AdminAuth) : AdminAuth :=
  {| administrators := administrators s; admin_sessions := t; dummy_password_hash := dummy_password_hash s |}.

(** [DELETE FROM admin_sessions WHERE expires_unix_seconds <= now]. *)
Definition purge_expired (now : Z) (s : AdminAuth) : AdminAuth :=
  set_sessions (filter (λ '(_, r), to_i64 now < expires r) (admin_sessions s)) s.
(** [DELETE .. WHERE username = u] and [.. AND session_id <> k]. *)
Definition delete_sessions_of (username : rstr) (s : AdminAuth) : AdminAuth :=
  set_sessions (filter (λ '(_, r), owner r ≠ username) (admin_sessions s)) s.
Definition delete_other_sessions (username key : rstr) (s : AdminAuth) : AdminAuth :=
  set_sessions (filter (λ '(k, r), owner r ≠ username ∨ k = key) (admin_sessions s)) s.
Definition delete_session (key : rstr) (s : AdminAuth) : AdminAuth := set_sessions (delete key (admin_sessions s)) s.
(** [UPDATE administrators SET .. WHERE username = u]. *)
Definition update_row (f : AdministratorRow → AdministratorRow) (username : rstr) (s : AdminAuth) : AdminAuth :=
  set_administrators (alter f username (administrators s)) s.

Definition with_password (hash : rstr) (must_change : Z) (r : AdministratorRow) : AdministratorRow :=
  {| password_hash := hash; created := created r; must_change_password := must_change; display_name := display_name r;
     role := role r; enabled := enabled r; last_login := last_login r; totp_secret := totp_secret r; totp_enabled := totp_enabled r |}.
Definition with_last_login (now : Z) (r : AdministratorRow) : AdministratorRow :=
  {| password_hash := password_hash r; created := created r; must_change_password := must_change_password r; display_name := display_name r;
     role := role r; enabled := enabled r; last_login := Some now; totp_secret := totp_secret r; totp_enabled := totp_enabled r |}.
Definition with_profile (name role : rstr) (enabled : Z) (r : AdministratorRow) : AdministratorRow :=
  {| password_hash := password_hash r; created := created r; must_change_password := must_change_password r; display_name := name;
     role := role; enabled := enabled; last_login := last_login r; totp_secret := totp_secret r; totp_enabled := totp_enabled r |}.
Definition with_totp (secret : option rstr) (enabled' : Z) (r : AdministratorRow) : AdministratorRow :=
  {| password_hash := password_hash r; created := created r; must_change_password := must_change_password r; display_name := display_name r;
     role := role r; enabled := enabled r; last_login := last_login r; totp_secret := secret; totp_enabled := enabled' |}.

(** ** Operations *)

Section operations.
Context {plat : Platform}.

Definition hash_password (salt : Z) (password : rstr) : result AuthError rstr := ok_or (argon2_hash salt password) HashFailed.
Definition verify_password (password hash : rstr) : result AuthError bool := ok_or (argon2_verify password hash) StoredHashInvalid.
Definition hash_session_secret (secret : rstr) : rstr := lit "sha256:" ++ encode_hex (sha256 (as_bytes secret)).
Definition verify_session_secret (secret expected_hash : rstr) : bool :=
  constant_time_eq (as_bytes (hash_session_secret secret)) (as_bytes expected_hash).

(** [AdminAuth::open_with_database] on the tables found. *)
Definition open_with_database (tables : gmap rstr AdministratorRow * gmap rstr SessionRow) (bootstrap : option BootstrapCredentials)
    (now salt dummy_salt : Z) : result AuthError AdminAuth :=
  let rows := map_imap (λ username r,
    Some (if bool_decide (display_name r = []) then with_profile username (role r) (enabled r) r else r)) tables.1 in
  rows ← (if negb (map_len rows =? 0) then Ok rows
          else
            bootstrap ← ok_or bootstrap NoAdministrator;
            hash ← hash_password salt (b_password bootstrap);
            Ok (<[b_username bootstrap :=
                  {| password_hash := hash; created := to_i64 now; must_change_password := sql_bool (b_force_password_change bootstrap);
                     display_name := b_username bootstrap; role := lit "administrator"; enabled := 1; last_login := None;
                     totp_secret := None; totp_enabled := 0 |}]> rows));
  dummy ← hash_password dummy_salt (lit "linklake-dummy-password-verification");
  Ok {| administrators := rows; admin_sessions := tables.2; dummy_password_hash := dummy |}.

(** The lookup of one user; the number of sessions is that of the sessions still valid. *)
Definition user_record (username : rstr) (r : AdministratorRow) (sessions : Z) : result AuthError UserRecord :=
  user_role ← ok_or (role_parse (role r)) InvalidRole;
  Ok {| ur_username := username; ur_display_name := display_name r; ur_role := user_role; ur_enabled := negb (enabled r =? 0);
        ur_must_change_password := negb (must_change_password r =? 0); ur_created := to_u64 (created r);
        ur_last_login := to_u64 <$> last_login r; ur_active_sessions := sessions; ur_totp_enabled := negb (totp_enabled r =? 0) |}.
Definition user (now : Z) (username : rstr) : auth (option UserRecord) := λ s,
  let count := map_count (λ r, bool_decide (owner r = username ∧ to_i64 now < expires r)) (admin_sessions s) in
  Done (match administrators s !! username with
        | None => Ok None
        | Some r => record ← user_record username r count; Ok (Some record)
        end, s).
Definition enabled_administrator_count (s : AdminAuth) : Z :=
  map_count (λ r, bool_decide (role r = lit "administrator" ∧ enabled r = 1)) (administrators s).

(** [INSERT], refused for a key that is there. *)
Definition insert_session (key : rstr) (r : SessionRow) : auth unit := λ s,
  match admin_sessions s !! key with
  | Some _ => Done (Err ConstraintViolation, s)
  | None => Done (Ok tt, set_sessions (<[key := r]> (admin_sessions s)) s)
  end.
Definition insert_user (username : rstr) (r : AdministratorRow) : auth unit := λ s,
  match administrators s !! username with
  | Some _ => Done (Err UsernameExists, s)
  | None => Done (Ok tt, set_administrators (<[username := r]> (administrators s)) s)
  end.

(** The end of [login_with_context]: every factor was right. *)
Definition open_session (username : rstr) (r : AdministratorRow) (user_role : UserRole) (remote agent : option rstr)
    (session_id secret1 secret2 : Z) (clock : nat → Z) : auth LoginAttempt :=
  let session_secret := uuid_simple secret1 ++ uuid_simple secret2 in
  expires_unix_seconds ← db_exec (usize_add (clock 1%nat) SESSION_LIFETIME_SECONDS);
  _ ← db_put (purge_expired (clock 2%nat));
  _ ← insert_session (uuid_string session_id)
        {| secret_hash := hash_session_secret session_secret; owner := username; s_created := to_i64 (clock 3%nat);
           expires := to_i64 expires_unix_seconds; remote_addr := take 128 <$> remote; user_agent := take 512 <$> agent |};
  _ ← db_put (update_row (with_last_login (to_i64 (clock 4%nat))) username);
  mret (Success {| ns_session_id := session_id; cookie_value := uuid_string session_id ++ [ch_dot] ++ session_secret;
                   ns_display_name := display_name r; ns_expires := expires_unix_seconds;
                   ns_password_change_required := negb (must_change_password r =? 0); ns_role := user_role;
                   ns_totp_enabled := negb (totp_enabled r =? 0) |}).

Definition login_with_context (username password : rstr) (totp : option rstr) (remote agent : option rstr)
    (session_id secret1 secret2 : Z) (clock : nat → Z) : auth LoginAttempt :=
  administrator ← db_get (λ s, administrators s !! username);
  match administrator with
  | None =>
      dummy ← db_get dummy_password_hash;
      _ ← db_lift (verify_password password dummy);
      mret InvalidCredentials
  | Some r =>
      verified ← (if enabled r =? 0 then mret false else db_lift (verify_password password (password_hash r)));
      if negb verified then mret InvalidCredentials
      else
        user_role ← db_lift (ok_or (role_parse (role r)) InvalidRole);
        if negb (totp_enabled r =? 0) then
          match keep_if (λ v, negb (bool_decide (trim v = []))) totp with
          | None => mret TotpRequired
          | Some code =>
              match totp_secret r with
              | None => mret InvalidCredentials
              | Some secret =>
                  valid ← db_exec (verify_totp hmac_sha1 secret code (clock 0%nat));
                  if negb valid then mret InvalidCredentials
                  else open_session username r user_role remote agent session_id secret1 secret2 clock
              end
          end
        else open_session username r user_role remote agent session_id secret1 secret2 clock
  end.

(** The text key that a cookie names, and its secret. *)
Definition cookie_parts (cookie : rstr) : option (Z * rstr) :=
  '(id, secret) ← split_once ch_dot cookie;
  id ← uuid_parse id;
  Some (id, secret).

Definition authenticate_session (cookie : rstr) (now : Z) : auth (option SessionIdentity) :=
  match cookie_parts cookie with
  | None => mret None
  | Some (session_id, session_secret) =>
      let key := uuid_string session_id in
      found ← db_get (λ s, r ← admin_sessions s !! key; a ← administrators s !! owner r;
                           if enabled a =? 1 then Some (r, a) else None);
      match found with
      | None => mret None
      | Some (r, a) =>
          if expires r <=? to_i64 now then mret None
          else if negb (bool_decide (is_Some (strip_prefix (lit "sha256:") (secret_hash r)))) then
            _ ← db_put (delete_session key);
            mret None
          else if negb (verify_session_secret session_secret (secret_hash r)) then mret None
          else
            user_role ← db_lift (ok_or (role_parse (role a)) InvalidRole);
            mret (Some {| id_session_id := session_id; id_username := owner r; id_display_name := display_name a;
                          id_role := user_role; id_expires := to_u64 (expires r);
                          id_password_change_required := negb (must_change_password a =? 0);
                          id_totp_enabled := negb (totp_enabled a =? 0) |})
      end
  end.

Definition logout (cookie : rstr) : auth unit :=
  match cookie_parts cookie with
  | None => mret tt
  | Some (session_id, _) => db_put (delete_session (uuid_string session_id))
  end.

Definition change_password (cookie new_password : rstr) (salt now : Z) : auth bool :=
  _ ← db_lift (validate_password new_password);
  match cookie_parts cookie with
  | None => mret false
  | Some (session_id, _) =>
      who ← authenticate_session cookie now;
      match who with
      | None => mret false
      | Some who =>
          transaction (
            hash ← db_lift (hash_password salt new_password);
            _ ← db_put (update_row (with_password hash 0) (id_username who));
            _ ← db_put (delete_other_sessions (id_username who) (uuid_string session_id));
            mret (true, true))
      end
  end.

(** [GROUP BY .. ORDER BY username]. *)
Definition list_users (now : Z) : auth (list UserRecord) :=
  _ ← db_put (purge_expired now);
  rows ← db_get (λ s,
    let rows := merge_sort (λ x y : rstr * AdministratorRow, lex_le (as_bytes x.1) (as_bytes y.1)) (map_to_list (administrators s)) in
    (λ '(u, r), (u, r, map_count (λ x, bool_decide (owner x = u)) (admin_sessions s))) <$> rows);
  db_lift (collect (λ '(u, r, n), user_record u r n) rows).

Definition create_user (request : CreateUser) (salt : Z) (clock : nat → Z) : auth UserRecord :=
  _ ← db_lift (validate_credentials (cu_username request) (cu_password request));
  _ ← db_lift (validate_display_name (cu_display_name request));
  hash ← db_lift (hash_password salt (cu_password request));
  _ ← insert_user (cu_username request)
        {| password_hash := hash; created := to_i64 (clock 0%nat); must_change_password := sql_bool (cu_force_password_change request);
           display_name := trim (cu_display_name request); role := role_as_str (cu_role request); enabled := 1;
           last_login := None; totp_secret := None; totp_enabled := 0 |};
  record ← user (clock 1%nat) (cu_username request);
  db_lift (ok_or record CreatedUserMissing).

Definition update_user (actor username : rstr) (request : UpdateUser) (clock : nat → Z) : auth (option UserRecord) :=
  _ ← db_lift (validate_display_name (uu_display_name request));
  current ← user (clock 0%nat) username;
  match current with
  | None => mret None
  | Some current =>
      let loses := negb (uu_enabled request) || negb (bool_decide (uu_role request = Administrator)) in
      _ ← db_ensure (negb (bool_decide (username = actor) && loses)) CurrentUserProtected;
      count ← db_get enabled_administrator_count;
      _ ← db_ensure (negb (ur_enabled current && bool_decide (ur_role current = Administrator) && loses && (count <=? 1)))
            LastAdministrator;
      _ ← transaction (
            _ ← db_put (update_row (with_profile (trim (uu_display_name request)) (role_as_str (uu_role request))
                                      (sql_bool (uu_enabled request))) username);
            _ ← (if negb (uu_enabled request) || negb (bool_decide (uu_role request = ur_role current))
                 then db_put (delete_sessions_of username) else mret tt);
            mret (true, tt));
      user (clock 1%nat) username
  end.

Definition delete_user (actor username : rstr) (now : Z) : auth bool :=
  current ← user now username;
  match current with
  | None => mret false
  | Some current =>
      _ ← db_ensure (negb (bool_decide (username = actor))) CurrentUserProtected;
      count ← db_get enabled_administrator_count;
      _ ← db_ensure (negb (ur_enabled current && bool_decide (ur_role current = Administrator) && (count <=? 1)))
            LastAdministrator;
      transaction (
        _ ← db_put (delete_sessions_of username);
        _ ← db_put (λ s, set_administrators (delete username (administrators s)) s);
        mret (true, true))
  end.

Definition reset_user_password (username new_password : rstr) (force : bool) (salt : Z) : auth bool :=
  _ ← db_lift (validate_password new_password);
  transaction (
    hash ← db_lift (hash_password salt new_password);
    found ← db_get (λ s, administrators s !! username);
    match found with
    | None => mret (false, false)
    | Some _ =>
        _ ← db_put (update_row (with_password hash (sql_bool force)) username);
        _ ← db_put (delete_sessions_of username);
        mret (true, true)
    end).

Definition revoke_user_sessions (username : rstr) (now : Z) : auth bool :=
  found ← user now username;
  match found with
  | None => mret false
  | Some _ => _ ← db_put (delete_sessions_of username); mret true
  end.

(** [secret] are the 20 random bytes. *)
Definition begin_totp (username : rstr) (secret : list Z) (now : Z) : auth (option rstr) :=
  found ← user now username;
  match found with
  | None => mret None
  | Some _ =>
      encoded ← db_exec (base32_encode secret);
      _ ← db_put (update_row (with_totp (Some encoded) 0) username);
      mret (Some encoded)
  end.

Definition enable_totp (username : rstr) (current_session_id : Z) (code : rstr) (now : Z) : auth bool :=
  secret ← db_get (λ s, r ← administrators s !! username; totp_secret r);
  match secret with
  | None => mret false
  | Some secret =>
      valid ← db_exec (verify_totp hmac_sha1 secret code now);
      if negb valid then mret false
      else transaction (
        _ ← db_put (update_row (λ r, with_totp (totp_secret r) 1 r) username);
        _ ← db_put (delete_other_sessions username (uuid_string current_session_id));
        mret (true, true))
  end.

Definition disable_totp (username code : rstr) (now : Z) : auth bool :=
  secret ← db_get (λ s, r ← administrators s !! username; if totp_enabled r =? 1 then totp_secret r else None);
  match secret with
  | None => mret false
  | Some secret =>
      valid ← db_exec (verify_totp hmac_sha1 secret code now);
      if negb valid then mret false
      else
        _ ← db_put (update_row (with_totp None 0) username);
        mret true
  end.

(** [ORDER BY created_unix_seconds DESC]; the order of rows of one second is not specified. *)
Definition list_sessions (now : Z) : auth (list SessionRecord) :=
  _ ← db_put (purge_expired now);
  rows ← db_get (λ s, merge_sort (λ x y : rstr * SessionRow, s_created y.2 <=? s_created x.2) (map_to_list (admin_sessions s)));
  db_lift (collect (λ '(key, r),
    id ← ok_or (uuid_parse key) InvalidQuery;
    Ok {| sr_session_id := id; sr_username := owner r; sr_created := to_u64 (s_created r); sr_expires := to_u64 (expires r);
          sr_remote_addr := remote_addr r; sr_user_agent := user_agent r |}) rows).

Definition revoke_session (actor_session_id session_id : Z) : auth bool :=
  _ ← db_ensure (negb (actor_session_id =? session_id)) CurrentSessionProtected;
  found ← db_get (λ s, bool_decide (is_Some (admin_sessions s !! uuid_string session_id)));
  _ ← db_put (delete_session (uuid_string session_id));
  mret found.
End operations.

(** ** Histories *)

(** A call of an operation, with the random values it draws. *)
Inductive AuthOp :=
  | OpLogin (username password : rstr) (totp remote agent : option rstr) (session_id secret1 secret2 : Z)
  | OpAuthenticate (cookie : rstr)
  | OpLogout (cookie : rstr)
  | OpChangePassword (cookie new_password : rstr) (salt : Z)
  | OpListUsers
  | OpCreateUser (request : CreateUser) (salt : Z)
  | OpUpdateUser (actor username : rstr) (request : UpdateUser)
  | OpDeleteUser (actor username : rstr)
  | OpResetPassword (username new_password : rstr) (force : bool) (salt : Z)
  | OpRevokeUser (username : rstr)
  | OpBeginTotp (username : rstr) (secret : list Z)
  | OpEnableTotp (username : rstr) (current_session_id : Z) (code : rstr)
  | OpDisableTotp (username code : rstr)
  | OpListSessions
  | OpRevokeSession (actor_session_id session_id : Z)
  | OpRestart (bootstrap : option BootstrapCredentials) (salt dummy_salt : Z).

Inductive Outcome :=
  | OutLogin (attempt : LoginAttempt)
  | OutIdentity (who : option SessionIdentity)
  | OutUser (record : option UserRecord)
  | OutUsers (records : list UserRecord)
  | OutSessions (records : list SessionRecord)
  | OutSecret (secret : option rstr)
  | OutDone (done : bool).

Section histories.
Context {plat : Platform}.

Definition restart (bootstrap : option BootstrapCredentials) (salt dummy_salt now : Z) : auth unit := λ s,
  match open_with_database (administrators s, admin_sessions s) bootstrap now salt dummy_salt with
  | Ok s' => Done (Ok tt, s')
  | Err e => Done (Err e, s)
  end.

Definition perform (op : AuthOp) (clock : nat → Z) : auth Outcome :=
  match op with
  | OpLogin u p t r a i s1 s2 => x ← login_with_context u p t r a i s1 s2 clock; mret (OutLogin x)
  | OpAuthenticate c => x ← authenticate_session c (clock 0%nat); mret (OutIdentity x)
  | OpLogout c => _ ← logout c; mret (OutDone true)
  | OpChangePassword c p salt => x ← change_password c p salt (clock 0%nat); mret (OutDone x)
  | OpListUsers => x ← list_users (clock 0%nat); mret (OutUsers x)
  | OpCreateUser r salt => x ← create_user r salt clock; mret (OutUser (Some x))
  | OpUpdateUser a u r => x ← update_user a u r clock; mret (OutUser x)
  | OpDeleteUser a u => x ← delete_user a u (clock 0%nat); mret (OutDone x)
  | OpResetPassword u p f salt => x ← reset_user_password u p f salt; mret (OutDone x)
  | OpRevokeUser u => x ← revoke_user_sessions u (clock 0%nat); mret (OutDone x)
  | OpBeginTotp u k => x ← begin_totp u k (clock 0%nat); mret (OutSecret x)
  | OpEnableTotp u i c => x ← enable_totp u i c (clock 0%nat); mret (OutDone x)
  | OpDisableTotp u c => x ← disable_totp u c (clock 0%nat); mret (OutDone x)
  | OpListSessions => x ← list_sessions (clock 0%nat); mret (OutSessions x)
  | OpRevokeSession a i => x ← revoke_session a i; mret (OutDone x)
  | OpRestart b s d => _ ← restart b s d (clock 0%nat); mret (OutDone true)
  end.

(** ** What sessions mean

    A grant is what a login promises. It lasts until its time is over or one of the
    operations below takes it back; the tables play no part here. *)
Record Grant := { g_user : rstr; g_role : UserRole; g_hash : rstr; g_expires : Z }.

Definition cookie_key (cookie : rstr) : option rstr := '(id, _) ← cookie_parts cookie; Some (uuid_string id).

(** [grants] after a call that returned [out]. *)
Definition grant_step (op : AuthOp) (out : result AuthError Outcome) (grants : gmap rstr Grant) : gmap rstr Grant :=
  match op, out with
  | OpLogin u _ _ _ _ i s1 s2, Ok (OutLogin (Success s)) =>
      <[uuid_string i := {| g_user := u; g_role := ns_role s; g_hash := hash_session_secret (uuid_simple s1 ++ uuid_simple s2);
                            g_expires := ns_expires s |}]> grants
  | OpLogout c, Ok _ => match cookie_key c with Some k => delete k grants | None => grants end
  | OpChangePassword c _ _, Ok (OutDone true) =>
      match cookie_key c with
      | Some k =>
          match grants !! k with
          | Some g => filter (λ '(k', g'), g_user g' ≠ g_user g ∨ k' = k) grants
          | None => grants
          end
      | None => grants
      end
  | OpUpdateUser _ u r, Ok (OutUser (Some _)) =>
      filter (λ '(_, g), g_user g ≠ u ∨ (uu_enabled r = true ∧ uu_role r = g_role g)) grants
  | OpDeleteUser _ u, Ok (OutDone true) | OpResetPassword u _ _ _, Ok (OutDone true) | OpRevokeUser u, Ok (OutDone true) =>
      filter (λ '(_, g), g_user g ≠ u) grants
  | OpEnableTotp u i _, Ok (OutDone true) => filter (λ '(k, g), g_user g ≠ u ∨ k = uuid_string i) grants
  | OpRevokeSession _ i, Ok _ => delete (uuid_string i) grants
  | _, _ => grants
  end.

(** Random UUIDs, bytes, and text that is text. *)
Definition op_ok (op : AuthOp) : Prop :=
  match op with
  | OpLogin _ _ totp _ _ i _ _ => uuid_ok i ∧ match totp with Some code => str_ok code | None => True end
  | OpBeginTotp _ secret => bytes_ok secret ∧ len secret = 20
  | OpEnableTotp _ i code => uuid_ok i ∧ str_ok code
  | OpDisableTotp _ code => str_ok code
  | OpRevokeSession _ i => uuid_ok i
  | _ => True
  end.
(** The readings of a call, none later than [latest]; seconds stay far below the
    range of the columns. *)
Definition CLOCK_MAX : Z := 2 ^ 62.
Definition clock_ok (clock : nat → Z) (latest : Z) : Prop := latest ≤ CLOCK_MAX ∧ ∀ i, 0 ≤ clock i ≤ latest.

(** A history: calls with the clock each saw and what it returned. *)
Inductive history : AdminAuth → gmap rstr Grant → Z → Prop :=
  | history_open (bootstrap : option BootstrapCredentials) (now salt dummy_salt : Z) (s : AdminAuth) :
      open_with_database (∅, ∅) bootstrap now salt dummy_salt = Ok s → history s ∅ 0
  | history_call (s s' : AdminAuth) (grants : gmap rstr Grant) (latest : Z) (op : AuthOp) (clock : nat → Z)
      (out : result AuthError Outcome) (latest' : Z) :
      history s grants latest → op_ok op → clock_ok clock latest' → latest ≤ latest' → perform op clock s = Done (out, s') →
      history s' (grant_step op out grants) latest'.
End histories.

(** ** The invariant *)

Lemma role_parse_as_str x : role_parse (role_as_str x) = Some x.
Proof. by destruct x. Qed.
Lemma role_as_str_inj x y : role_as_str x = role_as_str y → x = y.
Proof. intros E. apply (f_equal role_parse) in E. rewrite !role_parse_as_str in E. by injection E. Qed.

Definition row_ok (r : AdministratorRow) : Prop := (∃ x, role r = role_as_str x) ∧ (enabled r = 0 ∨ enabled r = 1).
Definition rows_ok (t : gmap rstr AdministratorRow) : Prop := map_Forall (λ _ r, row_ok r) t.
Definition is_admin (r : AdministratorRow) : bool := bool_decide (role r = lit "administrator" ∧ enabled r = 1).
Definition has_admin (t : gmap rstr AdministratorRow) : Prop := ∃ u r, t !! u = Some r ∧ is_admin r = true.

Section invariant.
Context {plat : Platform} {laws : PlatformLaws}.

(** The user of a grant is there, enabled, with the role the grant was given for. *)
Definition grants_held (t : gmap rstr AdministratorRow) (grants : gmap rstr Grant) : Prop :=
  map_Forall (λ _ g, ∃ a, t !! g_user g = Some a ∧ role a = role_as_str (g_role g) ∧ enabled a = 1) grants.

Definition grant_ok (k : rstr) (g : Grant) : Prop :=
  0 ≤ g_expires g ≤ CLOCK_MAX + SESSION_LIFETIME_SECONDS ∧ (∃ i, uuid_ok i ∧ k = uuid_string i) ∧
  (∃ secret, g_hash g = hash_session_secret secret).

(** The stored sessions are the grants, apart from some that are over. *)
Definition sessions_match (latest : Z) (sessions : gmap rstr SessionRow) (grants : gmap rstr Grant) : Prop :=
  ∀ k, match sessions !! k, grants !! k with
       | Some r, Some g => g_user g = owner r ∧ g_hash g = secret_hash r ∧ g_expires g = expires r
       | Some _, None => False
       | None, Some g => g_expires g ≤ latest
       | None, None => True
       end.

Record auth_ok (s : AdminAuth) (grants : gmap rstr Grant) (latest : Z) : Prop := {
  auth_rows : rows_ok (administrators s);
  auth_admin : has_admin (administrators s);
  auth_held : grants_held (administrators s) grants;
  auth_grants : map_Forall grant_ok grants;
  auth_sessions : sessions_match latest (admin_sessions s) grants;
}.

Lemma auth_ok_later s grants l l' : auth_ok s grants l → l ≤ l' → auth_ok s grants l'.
Proof using Type.
  intros [H1 H2 H3 H4 H5] Hl. split; try done. intros k. specialize (H5 k).
  destruct (admin_sessions s !! k), (grants !! k); try done. lia.
Qed.

(** Deleting sessions and taking back the same grants. *)
Lemma auth_ok_filter s grants l (P : rstr → rstr → Prop) `{!∀ k u, Decision (P k u)} :
  auth_ok s grants l →
  auth_ok (set_sessions (filter (λ '(k, r), P k (owner r)) (admin_sessions s)) s) (filter (λ '(k, g), P k (g_user g)) grants) l.
Proof using Type.
  intros [H1 H2 H3 H4 H5]. split; cbn [administrators admin_sessions set_sessions]; [done|done|..].
  - intros k g. rewrite map_lookup_filter_Some. intros [Hg _]. by apply (H3 k).
  - intros k g. rewrite map_lookup_filter_Some. intros [Hg _]. by apply (H4 k).
  - intros k. specialize (H5 k). rewrite !map_lookup_filter.
    destruct (admin_sessions s !! k) as [r|] eqn:Er, (grants !! k) as [g|] eqn:Eg; cbn; try done.
    + destruct H5 as (Hu & Hh & He). rewrite Hu. destruct (decide (P k (owner r))); cbn; by rewrite ?option_guard_True, ?option_guard_False by done.
    + destruct (decide (P k (g_user g))); cbn; by rewrite ?option_guard_True, ?option_guard_False by done.
Qed.
Lemma auth_ok_delete s grants l k :
  auth_ok s grants l → auth_ok (delete_session k s) (delete k grants) l.
Proof using Type.
  intros [H1 H2 H3 H4 H5]. split; cbn [administrators admin_sessions set_sessions delete_session]; [done|done|..].
  - by apply map_Forall_delete.
  - by apply map_Forall_delete.
  - intros k'. specialize (H5 k'). destruct (decide (k = k')) as [->|Hne]; [by rewrite !lookup_delete_eq|].
    by rewrite !lookup_delete_ne.
Qed.

Lemma to_i64_small n : n ≤ 9223372036854775807 → to_i64 n = n.
Proof using Type. intros Hn. unfold to_i64. by rewrite (proj2 (Z.leb_le _ _)). Qed.
Lemma to_u64_small n : 0 ≤ n → to_u64 n = n.
Proof using Type. intros Hn. unfold to_u64. by rewrite (proj2 (Z.ltb_ge _ _)). Qed.

Lemma auth_ok_purge s grants l now : auth_ok s grants l → l ≤ CLOCK_MAX → now ≤ l → auth_ok (purge_expired now s) grants l.
Proof using Type.
  intros [H1 H2 H3 H4 H5] Hl Hn. split; cbn [administrators admin_sessions set_sessions purge_expired]; try done.
  intros k. specialize (H5 k). rewrite map_lookup_filter. rewrite to_i64_small by (unfold CLOCK_MAX in Hl; lia).
  destruct (admin_sessions s !! k) as [r|] eqn:Er, (grants !! k) as [g|] eqn:Eg; cbn; try done.
  destruct (decide (now < expires r)); cbn; [by rewrite option_guard_True|]. rewrite option_guard_False by done.
  destruct H5 as (_ & _ & ->). cbn. lia.
Qed.

(** ** Changes of the user table *)

Lemma auth_ok_rows s grants l t :
  auth_ok s grants l → rows_ok t → has_admin t → grants_held t grants → auth_ok (set_administrators t s) grants l.
Proof using Type. intros [H1 H2 H3 H4 H5]. by split. Qed.

Lemma auth_ok_update s grants l u f :
  auth_ok s grants l → (∀ r, role (f r) = role r ∧ enabled (f r) = enabled r) → auth_ok (update_row f u s) grants l.
Proof using Type.
  intros Hok Hf. pose proof Hok as [H1 H2 H3 H4 H5].
  assert (∀ v r, administrators s !! v = Some r → ∃ r', alter f u (administrators s) !! v = Some r' ∧ role r' = role r ∧ enabled r' = enabled r) as Hv.
  { intros v r Hr. destruct (decide (u = v)) as [->|Hne].
    - exists (f r). rewrite lookup_alter_eq, Hr. by destruct (Hf r).
    - exists r. by rewrite lookup_alter_ne. }
  apply auth_ok_rows; [done|..].
  - intros v r. destruct (decide (u = v)) as [->|Hne]; [|rewrite lookup_alter_ne by done; apply H1].
    rewrite lookup_alter_eq. destruct (administrators s !! v) as [r0|] eqn:E; [|done]. intros [= <-].
    unfold row_ok. destruct (Hf r0) as [-> ->]. by apply (H1 v).
  - destruct H2 as (v & r & Hr & Ha). destruct (Hv v r Hr) as (r' & Hr' & Er & Ee). exists v, r'. split; [done|].
    unfold is_admin in *. by rewrite Er, Ee.
  - intros k g Hg. destruct (H3 k g Hg) as (a & Ha & Hr & He). destruct (Hv _ a Ha) as (a' & Ha' & Er & Ee).
    exists a'. by rewrite Er, Ee.
Qed.

Lemma auth_ok_insert s grants l u r :
  auth_ok s grants l → administrators s !! u = None → row_ok r → auth_ok (set_administrators (<[u := r]> (administrators s)) s) grants l.
Proof using Type.
  intros Hok Hu Hr. pose proof Hok as [H1 H2 H3 H4 H5]. apply auth_ok_rows; [done|..].
  - by apply map_Forall_insert_2.
  - destruct H2 as (v & a & Ha & Hadm). exists v, a. split; [|done]. rewrite lookup_insert_ne; congruence.
  - intros k g Hg. destruct (H3 k g Hg) as (a & Ha & Hrest). exists a. split; [|done]. rewrite lookup_insert_ne; congruence.
Qed.

(** Another administrator than [u], if [u] is not the only one. *)
Lemma another_admin s u r :
  has_admin (administrators s) → administrators s !! u = Some r →
  negb (is_admin r && (enabled_administrator_count s <=? 1)) = true →
  ∃ v a, v ≠ u ∧ administrators s !! v = Some a ∧ is_admin a = true.
Proof using Type.
  intros (v & a & Hv & Ha) Hu Hc. destruct (decide (v = u)) as [->|Hne]; [|by exists v, a].
  rewrite Hu in Hv. injection Hv as ->. rewrite Ha in Hc. cbn in Hc. apply negb_true_iff, Z.leb_gt in Hc.
  unfold enabled_administrator_count in Hc. fold is_admin in Hc. unfold map_count in Hc.
  rewrite (map_sum_delete _ _ u a Hu) in Hc. 
  destruct (map_count_exists is_admin (delete u (administrators s))) as (w & b & Hw & Hb).
  { unfold map_count. change (λ r, bool_decide _) with is_admin in Hc. rewrite Ha in Hc. lia. }
  apply lookup_delete_Some in Hw as [Hne Hw]. exists w, b. split; [congruence|done].
Qed.

Definition others (u : rstr) (grants : gmap rstr Grant) : gmap rstr Grant := filter (λ '(_, g), g_user g ≠ u) grants.

Lemma held_without u t t' grants :
  grants_held t grants → (∀ v, v ≠ u → t' !! v = t !! v) → grants_held t' (others u grants).
Proof using Type.
  intros H Ht k g. unfold others. rewrite map_lookup_filter_Some. intros [Hg Hu].
  destruct (H k g Hg) as (a & Ha & Hrest). exists a. by rewrite Ht.
Qed.

Lemma auth_ok_delete_user s grants l u r :
  auth_ok s grants l → administrators s !! u = Some r → negb (is_admin r && (enabled_administrator_count s <=? 1)) = true →
  auth_ok (set_administrators (delete u (administrators s)) (delete_sessions_of u s)) (others u grants) l.
Proof using Type.
  intros Hok Hu Hc. destruct (another_admin s u r (auth_admin _ _ _ Hok) Hu Hc) as (v & a & Hne & Hv & Ha).
  pose proof (auth_ok_filter s grants l (λ _ o, o ≠ u) Hok) as Hf. apply auth_ok_rows; [exact Hf|..].
  - apply map_Forall_delete, Hok.
  - exists v, a. split; [|done]. by rewrite lookup_delete_ne.
  - apply (held_without u (administrators s)); [apply Hok|]. intros w Hw. by rewrite lookup_delete_ne.
Qed.

Lemma filter_same (P Q : rstr * Grant → Prop) `{!∀ x, Decision (P x), !∀ x, Decision (Q x)} (grants : gmap rstr Grant) :
  (∀ k g, grants !! k = Some g → P (k, g) ↔ Q (k, g)) → filter P grants = filter Q grants.
Proof using Type. intros Hpq. apply map_filter_ext. intros k g Hg. by apply Hpq. Qed.

(** An update of a profile, which takes back the grants that do not fit it. *)
Lemma auth_ok_profile s grants l u r x name x' en :
  auth_ok s grants l → administrators s !! u = Some r → role r = role_as_str x →
  negb (is_admin r && (negb en || negb (bool_decide (x' = Administrator))) && (enabled_administrator_count s <=? 1)) = true →
  auth_ok (set_administrators (alter (with_profile name (role_as_str x') (sql_bool en)) u (administrators s))
             (if negb en || negb (bool_decide (x' = x)) then delete_sessions_of u s else s))
          (filter (λ '(_, g), g_user g ≠ u ∨ (en = true ∧ x' = g_role g)) grants) l.
Proof using Type.
  intros Hok Hu Hx Hc. set (t := alter _ u (administrators s)).
  assert (t !! u = Some (with_profile name (role_as_str x') (sql_bool en) r)) as Htu by (unfold t; by rewrite lookup_alter_eq, Hu).
  assert (∀ v, v ≠ u → t !! v = administrators s !! v) as Htv by (intros v Hv; unfold t; by rewrite lookup_alter_ne).
  assert (rows_ok t) as Hrows.
  { intros v r'. destruct (decide (v = u)) as [->|Hne]; [|rewrite Htv by done; apply Hok].
    rewrite Htu. intros [= <-]. split; [by exists x'|]. cbn. destruct en; auto. }
  assert (has_admin t) as Hadm.
  { destruct (negb en || negb (bool_decide (x' = Administrator))) eqn:El.
    - rewrite andb_true_r in Hc. destruct (another_admin s u r (auth_admin _ _ _ Hok) Hu Hc) as (v & a & Hne & Hv & Ha).
      exists v, a. by rewrite Htv.
    - apply orb_false_iff in El as [Een Ex]. apply negb_false_iff in Een, Ex. apply bool_decide_eq_true in Ex. subst.
      eexists u, _. split; [exact Htu|]. by apply bool_decide_eq_true. }
  assert (∀ k g, grants !! k = Some g → g_user g = u → g_role g = x ∧ enabled r = 1) as Hg.
  { intros k g Hkg Hgu. destruct (auth_held _ _ _ Hok k g Hkg) as (a & Ha & Hr & He). rewrite Hgu, Hu in Ha. injection Ha as <-.
    split; [|done]. apply role_as_str_inj. congruence. }
  destruct (negb en || negb (bool_decide (x' = x))) eqn:Ed.
  - replace (filter _ grants) with (others u grants).
    + pose proof (auth_ok_filter s grants l (λ _ o, o ≠ u) Hok) as Hf. apply auth_ok_rows; [exact Hf|done|done|].
      by apply (held_without u (administrators s)); [apply Hok|].
    + apply filter_same. intros k g Hkg. split; [by left|]. intros [?|[-> Hr]]; [done|]. intros Hgu.
      cbn in Ed. apply negb_true_iff, bool_decide_eq_false in Ed. destruct (Hg k g Hkg Hgu). congruence.
  - apply orb_false_iff in Ed as [Een Ex]. apply negb_false_iff in Een, Ex. apply bool_decide_eq_true in Ex. subst en x'.
    assert (filter (λ '(_, g), g_user g ≠ u ∨ (true = true ∧ x = g_role g)) grants = grants) as ->.
    { apply map_filter_id. intros k g Hkg. destruct (decide (g_user g = u)); [right|by left]. by destruct (Hg k g Hkg). }
    apply auth_ok_rows; [done..|]. intros k g Hkg. destruct (auth_held _ _ _ Hok k g Hkg) as (a & Ha & Hr & He).
    destruct (decide (g_user g = u)) as [E|Hne].
    + eexists. rewrite E. split; [exact Htu|]. destruct (Hg k g Hkg E) as [-> _]. done.
    + exists a. by rewrite Htv.
Qed.

(** ** Operations keep the invariant *)

Lemma ensures_user now u s (Q : result AuthError (option UserRecord) → AdminAuth → Prop) :
  rows_ok (administrators s) → (administrators s !! u = None → Q (Ok None) s) →
  (∀ r x record, administrators s !! u = Some r → row_ok r → role r = role_as_str x → ur_role record = x →
     ur_enabled record = negb (enabled r =? 0) → Q (Ok (Some record)) s) →
  ensures (user now u) s Q.
Proof using Type.
  intros Hrows HN HS. unfold ensures, user. destruct (administrators s !! u) as [r|] eqn:E; [|by apply HN].
  pose proof (Hrows u r E) as Hr. destruct Hr as [[x Hx] Hen]. unfold user_record. rewrite Hx, role_parse_as_str.
  cbn [ok_or mbind result_bind]. eapply HS; [done|split; eauto|done|done|done].
Qed.

Lemma verify_totp_total secret code now : str_ok code → 0 ≤ now ≤ CLOCK_MAX → ∃ b, verify_totp hmac_sha1 secret code now = Done b.
Proof using laws.
  intros Hc Hn. destruct (base32_decode secret) as [key|] eqn:E.
  - destruct (verify_totp_ok hmac_sha1 hmac_digest key secret code now E Hc) as (b & Hb & _); [unfold CLOCK_MAX in Hn; lia|eauto].
  - unfold verify_totp. rewrite E. case_match; eauto.
Qed.

Lemma is_admin_row r x : row_ok r → role r = role_as_str x →
  is_admin r = negb (enabled r =? 0) && bool_decide (x = Administrator).
Proof using Type.
  intros [_ He] Hx. unfold is_admin. rewrite Hx. destruct He as [->| ->]; cbn.
  - apply bool_decide_eq_false. by intros [_ ?].
  - apply bool_decide_ext. split; [intros [E _]|by intros ->]. by apply (role_as_str_inj x Administrator).
Qed.

(** ** Authentication *)

Lemma session_hash_ascii secret : is_ascii (hash_session_secret secret) = true.
Proof using laws.
  unfold hash_session_secret. unfold is_ascii. rewrite all_app. apply andb_true_iff. split; [done|].
  apply all_Forall. eapply Forall_impl; [apply encode_hex_digits, sha256_digest|].
  unfold is_ascii_hexdigit, is_ascii_digit. intros c Hc. rewrite !orb_true_iff in Hc. rewrite andb_true_iff.
  destruct Hc as [[Hc|Hc]|Hc]; bool_prop; lia.
Qed.
Lemma verify_session_secret_spec secret secret' :
  verify_session_secret secret (hash_session_secret secret') = bool_decide (hash_session_secret secret = hash_session_secret secret').
Proof using laws.
  unfold verify_session_secret. rewrite !as_bytes_ascii by apply session_hash_ascii.
  apply eq_true_iff_eq. by rewrite constant_time_eq_spec, bool_decide_eq_true.
Qed.

(** The grant that a cookie proves at a time. *)
Definition proven_grant (grants : gmap rstr Grant) (cookie : rstr) (now : Z) : option Grant :=
  '(id, secret) ← cookie_parts cookie;
  g ← grants !! uuid_string id;
  if bool_decide (hash_session_secret secret = g_hash g ∧ now < g_expires g) then Some g else None.

Definition identity_of (cookie : rstr) (g : Grant) (a : AdministratorRow) (who : SessionIdentity) : Prop :=
  (∃ secret, cookie_parts cookie = Some (id_session_id who, secret)) ∧ id_username who = g_user g ∧ id_role who = g_role g ∧
  id_expires who = g_expires g ∧ id_display_name who = display_name a ∧
  id_password_change_required who = negb (must_change_password a =? 0) ∧ id_totp_enabled who = negb (totp_enabled a =? 0).

Lemma ensures_authenticate s grants latest cookie now :
  auth_ok s grants latest → 0 ≤ now ≤ CLOCK_MAX →
  ensures (authenticate_session cookie now) s (λ r s', s' = s ∧
    match r with
    | Ok (Some who) => ∃ g a, proven_grant grants cookie now = Some g ∧ administrators s !! g_user g = Some a ∧ identity_of cookie g a who
    | Ok None => is_Some (proven_grant grants cookie now) →
        ∃ id secret, cookie_parts cookie = Some (id, secret) ∧ admin_sessions s !! uuid_string id = None
    | Err _ => False
    end).
Proof using laws.
  intros Hok Hn. unfold authenticate_session, proven_grant. destruct (cookie_parts cookie) as [[id secret]|] eqn:Ec; cbn [mbind option_bind].
  2: { db_step. split; [done|]. by intros [? ?]. }
  set (key := uuid_string id). db_step. db_step. pose proof (auth_sessions _ _ _ Hok key) as Hm.
  destruct (admin_sessions s !! key) as [r|] eqn:Er, (grants !! key) as [g|] eqn:Eg; try done; cbn [mbind option_bind].
  2: { db_step. split; [done|]. eauto. }
  2: { db_step. split; [done|]. by intros [? ?]. }
  destruct Hm as (Hu & Hh & He). destruct (auth_held _ _ _ Hok key g Eg) as (a & Ha & Hr & Hen).
  destruct (auth_grants _ _ _ Hok key g Eg) as (Hexp & _ & [secret' Hsec]).
  rewrite <- Hu, Ha. cbn [mbind option_bind]. rewrite Hen. cbn [Z.eqb Pos.eqb]. rewrite <- He, <- Hh, Hsec.
  rewrite (to_i64_small now) by (unfold CLOCK_MAX in Hn; lia).
  destruct (Z.leb_spec (g_expires g) now) as [Hle|Hlt].
  { db_step. split; [done|]. intros [g' Hg]. case_match eqn:E; [|done]. apply bool_decide_eq_true in E. lia. }
  assert (is_Some (strip_prefix (lit "sha256:") (hash_session_secret secret'))) as Hpre
    by (unfold hash_session_secret; rewrite strip_prefix_app; eauto).
  rewrite (bool_decide_eq_true_2 _ Hpre). cbn [negb].
  rewrite verify_session_secret_spec. destruct (bool_decide_reflect (hash_session_secret secret = hash_session_secret secret')) as [Es|Hns]; cbn [negb].
  - repeat db_step. rewrite Hr, role_parse_as_str. cbn [ok_or]. db_step. split; [done|].
    exists g, a. rewrite bool_decide_eq_true_2 by (split; [congruence|done]). split; [done|]. split; [done|].
    split; [by eexists|]. cbn. split_and!; try done. by rewrite to_u64_small by lia.
  - db_step. split; [done|]. intros [g' Hg]. case_match eqn:E; [|done]. apply bool_decide_eq_true in E as [E _]. congruence.
Qed.

Lemma ensures_insert_user u r s (Q : result AuthError unit → AdminAuth → Prop) :
  (administrators s !! u = None → Q (Ok tt) (set_administrators (<[u := r]> (administrators s)) s)) → Q (Err UsernameExists) s →
  ensures (insert_user u r) s Q.
Proof using Type. intros H1 H2. unfold ensures, insert_user. destruct (administrators s !! u); auto. Qed.
Lemma ensures_insert_session k r s (Q : result AuthError unit → AdminAuth → Prop) :
  (admin_sessions s !! k = None → Q (Ok tt) (set_sessions (<[k := r]> (admin_sessions s)) s)) → Q (Err ConstraintViolation) s →
  ensures (insert_session k r) s Q.
Proof using Type. intros H1 H2. unfold ensures, insert_session. destruct (admin_sessions s !! k); auto. Qed.

Section calls.
Context (s : AdminAuth) (grants : gmap rstr Grant) (latest : Z) (clock : nat → Z).
Hypothesis Hok : auth_ok s grants latest.
Hypothesis Hclock : clock_ok clock latest.

Definition keeps (op : AuthOp) : Prop :=
  ensures (perform op clock) s (λ out s', auth_ok s' (grant_step op out grants) latest).

Lemma keeps_logout c : keeps (OpLogout c).
Proof using Hok.
  unfold keeps, perform, logout. db_step. cbn [grant_step]. unfold cookie_key. destruct (cookie_parts c) as [[id sec]|]; cbv beta iota.
  - repeat db_step. by apply auth_ok_delete.
  - by repeat db_step.
Qed.
Lemma keeps_list_users : keeps OpListUsers.
Proof using Hok Hclock.
  unfold keeps, perform, list_users. repeat db_step. assert (auth_ok (purge_expired (clock 0%nat) s) grants latest).
  { apply auth_ok_purge; [done|apply Hclock|apply Hclock]. }
  case_match; [by db_step|done].
Qed.
Lemma keeps_list_sessions : keeps OpListSessions.
Proof using Hok Hclock.
  unfold keeps, perform, list_sessions. repeat db_step. assert (auth_ok (purge_expired (clock 0%nat) s) grants latest).
  { apply auth_ok_purge; [done|apply Hclock|apply Hclock]. }
  case_match; [by db_step|done].
Qed.
Lemma keeps_revoke_session a i : keeps (OpRevokeSession a i).
Proof using Hok.
  unfold keeps, perform, revoke_session. db_step. db_step. db_step; [|done]. repeat db_step. by apply auth_ok_delete.
Qed.
Lemma keeps_revoke_user u : keeps (OpRevokeUser u).
Proof using Hok.
  unfold keeps, perform, revoke_user_sessions. do 2 db_step. apply ensures_user; [apply Hok|intros _|intros r x rec _ _ _ _ _].
  - by repeat db_step.
  - repeat db_step. exact (auth_ok_filter s grants latest (λ _ o, o ≠ u) Hok).
Qed.
Lemma keeps_reset u p f salt : keeps (OpResetPassword u p f salt).
Proof using Hok.
  unfold keeps, perform, reset_user_password. do 3 db_step. destruct (validate_password p); [|done].
  repeat db_step. destruct (hash_password salt p) as [h|]; [|done]. repeat db_step.
  destruct (administrators s !! u) eqn:E; repeat db_step; [|done].
  cbn [grant_step]. pose proof (auth_ok_update s grants latest u (with_password h (sql_bool f)) Hok) as Hu.
  refine (auth_ok_filter _ grants latest (λ _ o, o ≠ u) _). by apply Hu.
Qed.
Lemma keeps_delete_user a u : keeps (OpDeleteUser a u).
Proof using Hok.
  unfold keeps, perform, delete_user. do 2 db_step. apply ensures_user; [apply Hok|intros _; by repeat db_step|].
  intros r x rec Hr Hrow Hx Ex Een. do 2 db_step; [|done]. repeat db_step; [|done].
  cbn [grant_step]. apply (auth_ok_delete_user s grants latest u r Hok Hr). rewrite (is_admin_row r x) by done.
  by rewrite <- Een, <- Ex.
Qed.
Lemma keeps_authenticate c : keeps (OpAuthenticate c).
Proof using Hok Hclock laws.
  unfold keeps, perform. db_step. eapply ensures_mono; [apply (ensures_authenticate s grants latest c (clock 0%nat) Hok)|].
  { destruct Hclock as [H1 H2]. specialize (H2 0%nat). lia. }
  cbv beta. intros [[who|]|e] s' [-> Hr]; [..|done]; by db_step.
Qed.
Lemma keeps_change_password c p salt : keeps (OpChangePassword c p salt).
Proof using Hok Hclock laws.
  unfold keeps, perform, change_password. do 3 db_step. destruct (validate_password p) as [[]|]; [|done].
  destruct (cookie_parts c) as [[id sec]|] eqn:Ec; [|by repeat db_step]. db_step.
  eapply ensures_mono; [apply (ensures_authenticate s grants latest c (clock 0%nat) Hok)|].
  { destruct Hclock as [H1 H2]. specialize (H2 0%nat). lia. }
  cbv beta. intros [[who|]|e] s' [-> Hr]; [|by repeat db_step|done]. destruct Hr as (g & a & Hg & Ha & Hid).
  do 3 db_step. destruct (hash_password salt p) as [h|]; [|done]. repeat db_step. cbn [grant_step].
  unfold cookie_key. rewrite Ec. cbn [mbind option_bind]. unfold proven_grant in Hg. rewrite Ec in Hg. cbn [mbind option_bind] in Hg.
  destruct (grants !! uuid_string id) as [g0|] eqn:Eg; [|done]. cbn in Hg. case_match; [|done]. injection Hg as <-.
  destruct Hid as (_ & Hu & _). rewrite Hu.
  refine (auth_ok_filter _ grants latest (λ k o, o ≠ g_user g0 ∨ k = uuid_string id) _). by apply auth_ok_update.
Qed.
Lemma keeps_create_user r salt : keeps (OpCreateUser r salt).
Proof using Hok.
  unfold keeps, perform, create_user. do 3 db_step. destruct (validate_credentials _ _); [|done].
  do 2 db_step. destruct (validate_display_name _); [|done]. do 2 db_step. destruct (hash_password _ _) as [h|]; [|done].
  db_step. apply ensures_insert_user; [|done]. intros E.
  match goal with |- ensures _ (set_administrators ?t s) _ => assert (auth_ok (set_administrators t s) grants latest) as Hok' end.
  { apply auth_ok_insert; [done|done|]. split; [by eexists|by right]. }
  db_step. apply ensures_user; [apply Hok'|intros _; by db_step|]. intros r' x rec _ _ _ _ _. db_step. cbn [ok_or]. by db_step.
Qed.
Lemma keeps_update_user a u r : keeps (OpUpdateUser a u r).
Proof using Hok.
  unfold keeps, perform, update_user. do 3 db_step. destruct (validate_display_name _) as [[]|]; [|done].
  db_step. apply ensures_user; [apply Hok|intros _; by repeat db_step|]. intros row x rec Hr Hrow Hx Ex Een.
  do 2 db_step; [|done]. do 4 db_step; [|done].
  assert (auth_ok (set_administrators (alter (with_profile (trim (uu_display_name r)) (role_as_str (uu_role r)) (sql_bool (uu_enabled r))) u (administrators s))
            (if negb (uu_enabled r) || negb (bool_decide (uu_role r = x)) then delete_sessions_of u s else s))
          (filter (λ '(_, g), g_user g ≠ u ∨ (uu_enabled r = true ∧ uu_role r = g_role g)) grants) latest) as Hp.
  { apply (auth_ok_profile s grants latest u row x); [done|done|done|]. rewrite (is_admin_row row x) by done. by rewrite <- Een, <- Ex. }
  db_step. apply ensures_transaction. do 3 db_step. rewrite Ex.
  destruct (negb (uu_enabled r) || negb (bool_decide (uu_role r = x))); repeat db_step;
    (apply ensures_user; [apply Hp|intros E|intros r' x' rec' _ _ _ _ _; by db_step]);
    exfalso; revert E; cbn; by rewrite lookup_alter_eq, Hr.
Qed.
Lemma keeps_begin_totp u k : op_ok (OpBeginTotp u k) → keeps (OpBeginTotp u k).
Proof using Hok.
  intros [Hk _]. unfold keeps, perform, begin_totp. do 2 db_step. apply ensures_user; [apply Hok|intros _; by repeat db_step|].
  intros r x rec _ _ _ _ _. db_step. destruct (base32_encode_digits k Hk) as (ds & pad & E & _).
  apply (ensures_exec _ _ _ _ E). repeat db_step. by apply auth_ok_update.
Qed.
Lemma keeps_enable_totp u i c : op_ok (OpEnableTotp u i c) → keeps (OpEnableTotp u i c).
Proof using Hok Hclock laws.
  intros [_ Hc]. unfold keeps, perform, enable_totp. do 3 db_step.
  destruct (administrators s !! u ≫= λ r, totp_secret r) as [secret|]; [|by repeat db_step]. db_step.
  destruct (verify_totp_total secret c (clock 0%nat) Hc) as [b E]. { destruct Hclock as [H1 H2]. specialize (H2 0%nat). lia. }
  apply (ensures_exec _ _ _ _ E). destruct b; cbn [negb]; [|by repeat db_step]. repeat db_step. cbn [grant_step].
  refine (auth_ok_filter _ grants latest (λ k o, o ≠ u ∨ k = uuid_string i) _). by apply auth_ok_update.
Qed.
Lemma keeps_disable_totp u c : op_ok (OpDisableTotp u c) → keeps (OpDisableTotp u c).
Proof using Hok Hclock laws.
  intros Hc. unfold keeps, perform, disable_totp. do 3 db_step.
  destruct (administrators s !! u ≫= _) as [secret|]; [|by repeat db_step]. db_step.
  destruct (verify_totp_total secret c (clock 0%nat) Hc) as [b E]. { destruct Hclock as [H1 H2]. specialize (H2 0%nat). lia. }
  apply (ensures_exec _ _ _ _ E). destruct b; cbn [negb]; repeat db_step; [|done]. by apply auth_ok_update.
Qed.
Lemma keeps_restart b salt dummy : keeps (OpRestart b salt dummy).
Proof using Hok.
  unfold keeps, perform. db_step. unfold ensures, restart, open_with_database. cbn [fst snd].
  set (rows := map_imap _ (administrators s)).
  assert (∀ v r, administrators s !! v = Some r → ∃ r', rows !! v = Some r' ∧ role r' = role r ∧ enabled r' = enabled r) as Hv.
  { intros v r Hr. unfold rows. rewrite map_lookup_imap, Hr. cbn. case_match; eauto. }
  assert (∀ v r', rows !! v = Some r' → row_ok r') as Hrows.
  { intros v r' Hr'. unfold rows in Hr'. rewrite map_lookup_imap in Hr'. destruct (administrators s !! v) as [r|] eqn:E; [|done].
    pose proof (auth_rows _ _ _ Hok v r E) as Hrow. cbn in Hr'. injection Hr' as <-. by case_match. }
  destruct (auth_admin _ _ _ Hok) as (v & r & Hr & Ha). destruct (Hv v r Hr) as (r' & Hr' & Er & Ee).
  assert (map_len rows ≠ 0) as Hne.
  { unfold map_len. intros E. assert (size rows = 0)%nat as E0 by lia. apply map_size_empty_iff in E0. by rewrite E0 in Hr'. }
  rewrite (proj2 (Z.eqb_neq _ _)) by done. cbn [negb mbind result_bind].
  destruct (hash_password dummy _) as [h|]; cbn [mbind result_bind]; [|done].
  assert (auth_ok (set_administrators rows s) grants latest) as [H1 H2 H3 H4 H5]; [|by split].
  apply auth_ok_rows; [done|done|exists v, r'; split; [done|]; unfold is_admin in *; by rewrite Er, Ee|].
  intros k g Hg. destruct (auth_held _ _ _ Hok k g Hg) as (x & Hx & Hrx & Hex). destruct (Hv _ _ Hx) as (x' & Hx' & Erx & Eex).
  exists x'. by rewrite Erx, Eex.
Qed.

(** The tail of a login, once every factor is right. *)
Lemma auth_ok_login u r x i secret created' expires' ra ua st :
  auth_ok st grants latest → administrators st !! u = Some r → role r = role_as_str x → enabled r = 1 → uuid_ok i →
  0 ≤ expires' ≤ CLOCK_MAX + SESSION_LIFETIME_SECONDS → 
  auth_ok (set_sessions (<[uuid_string i := {| secret_hash := hash_session_secret secret; owner := u; s_created := created';
                                               expires := expires'; remote_addr := ra; user_agent := ua |}]> (admin_sessions st)) st)
    (<[uuid_string i := {| g_user := u; g_role := x; g_hash := hash_session_secret secret; g_expires := expires' |}]> grants) latest.
Proof using Type.
  intros [H1 H2 H3 H4 H5] Hr Hx Hen Hi He. split; cbn [administrators admin_sessions set_sessions]; [done|done|..].
  - apply map_Forall_insert_2; [|done]. exists r. done.
  - apply map_Forall_insert_2; [|done]. split; [done|]. split; eauto.
  - intros k. destruct (decide (uuid_string i = k)) as [<-|Hne]; [by rewrite !lookup_insert_eq|].
    rewrite !lookup_insert_ne by done. apply H5.
Qed.

(** What a login has checked, and what opening the session does. *)
Lemma ensures_open_session u r x ra ua i s1 s2 :
  administrators s !! u = Some r → role r = role_as_str x → enabled r = 1 → uuid_ok i →
  ensures (open_session u r x ra ua i s1 s2 clock) s (λ out s',
    auth_ok s' (grant_step (OpLogin u [] None ra ua i s1 s2) (match out with Ok l => Ok (OutLogin l) | Err e => Err e end) grants) latest ∧
    match out with
    | Ok (Success ns) => ns_role ns = x ∧ ns_expires ns = clock 1%nat + SESSION_LIFETIME_SECONDS ∧
        cookie_value ns = uuid_string i ++ [ch_dot] ++ uuid_simple s1 ++ uuid_simple s2 ∧
        is_Some (admin_sessions s' !! uuid_string i)
    | Ok _ => False
    | Err e => e = ConstraintViolation
    end).
Proof using Hok Hclock.
  intros Er Hx Hen Hi. destruct Hclock as [Hmax Hc]. pose proof (Hc 1%nat) as Hc1. pose proof (Hc 2%nat) as Hc2.
  assert (auth_ok (purge_expired (clock 2%nat) s) grants latest) as Hp by (apply auth_ok_purge; [done|done|lia]).
  unfold open_session. db_step. unfold CLOCK_MAX in *.
  eapply ensures_exec; [apply usize_add_Done; unfold SESSION_LIFETIME_SECONDS; lia|].
  do 3 db_step. apply ensures_insert_session; [|done]. intros Hnone. repeat db_step.
  rewrite (to_i64_small (clock 1%nat + SESSION_LIFETIME_SECONDS)) by (unfold SESSION_LIFETIME_SECONDS; lia).
  split; [|split_and!; try done; cbn; rewrite lookup_insert_eq; eauto].
  apply auth_ok_update; [|done]. apply (auth_ok_login u r x); [done|done|done|done|done|unfold CLOCK_MAX, SESSION_LIFETIME_SECONDS; lia].
Qed.

Lemma keeps_login u p t ra ua i s1 s2 : op_ok (OpLogin u p t ra ua i s1 s2) → keeps (OpLogin u p t ra ua i s1 s2).
Proof using Hok Hclock laws.
  intros [Hi Ht]. unfold keeps, perform, login_with_context. do 3 db_step.
  destruct (administrators s !! u) as [r|] eqn:Er.
  2: { repeat db_step. destruct (verify_password _ _); by repeat db_step. }
  destruct (auth_rows _ _ _ Hok u r Er) as [[x Hx] Hen]. db_step. destruct (Z.eqb_spec (enabled r) 0) as [|Hen0]; [by repeat db_step|].
  db_step. destruct (verify_password p (password_hash r)) as [[]|]; cbn [negb]; [|by repeat db_step..].
  db_step. db_step. rewrite Hx, role_parse_as_str. cbn [ok_or].
  assert (ensures (open_session u r x ra ua i s1 s2 clock) s
    (λ out s', match out with
               | Ok l => ensures (mret (OutLogin l) : auth Outcome) s' (λ out s', auth_ok s' (grant_step (OpLogin u p t ra ua i s1 s2) out grants) latest)
               | Err e => auth_ok s' (grant_step (OpLogin u p t ra ua i s1 s2) (Err e) grants) latest
               end)) as Hopen.
  { eapply ensures_mono; [apply (ensures_open_session u r x); [done|done|lia|done]|]. cbv beta. intros [l|e] s' [Hs' _]; [db_step|]; exact Hs'. }
  destruct (negb (totp_enabled r =? 0)); [|exact Hopen]. destruct (keep_if _ t) as [code|] eqn:Ec; [|by repeat db_step].
  destruct (totp_secret r) as [secret|]; [|by repeat db_step]. db_step.
  destruct (verify_totp_total secret code (clock 0%nat)) as [b Eb].
  { destruct t as [v|]; [|done]. cbn in Ec. case_match; [|done]. by injection Ec as <-. }
  { destruct Hclock as [H1 H2]. specialize (H2 0%nat). lia. }
  apply (ensures_exec _ _ _ _ Eb). destruct b; cbn [negb]; [exact Hopen|by repeat db_step].
Qed.

Lemma keeps_all op : op_ok op → keeps op.
Proof using Hok Hclock laws.
  destruct op; intros Hop; [by apply keeps_login|by apply keeps_authenticate|by apply keeps_logout|by apply keeps_change_password|
    by apply keeps_list_users|by apply keeps_create_user|by apply keeps_update_user|by apply keeps_delete_user|by apply keeps_reset|
    by apply keeps_revoke_user|by apply keeps_begin_totp|by apply keeps_enable_totp|by apply keeps_disable_totp|
    by apply keeps_list_sessions|by apply keeps_revoke_session|by apply keeps_restart].
Qed.
End calls.

(** ** Histories keep the invariant *)

Lemma history_ok s grants latest : history s grants latest → 0 ≤ latest ≤ CLOCK_MAX ∧ auth_ok s grants latest.
Proof using laws.
  induction 1 as [b now salt dummy s Hopen|s s' grants l op clock out l' _ [Hl Hok] Hop Hclock Hle Hcall].
  - unfold open_with_database in Hopen. cbn [fst snd] in Hopen.
    assert (map_imap (λ username r, Some (if bool_decide (display_name r = []) then with_profile username (role r) (enabled r) r else r))
              (∅ : gmap rstr AdministratorRow) = ∅) as E0 by (apply map_empty; intros k; by rewrite map_lookup_imap, lookup_empty).
    rewrite E0 in Hopen. unfold map_len in Hopen. rewrite map_size_empty in Hopen.
    bind_inv Hopen. change (negb (Z.of_nat 0 =? 0)) with false in E. cbv iota in E.
    bind_inv E. bind_inv E. bind_inv Hopen. simplify_eq. split; [unfold CLOCK_MAX; lia|].
    split; cbn [administrators admin_sessions].
    + apply map_Forall_insert_2; [split; [by exists Administrator|by right]|done].
    + eexists _, _. by rewrite lookup_insert_eq.
    + done.
    + done.
    + intros k. by rewrite !lookup_empty.
  - destruct Hclock as [Hmax Hc]. pose proof (Hc 0%nat). split; [lia|].
    refine (ensures_eq _ _ _ _ _ Hcall (keeps_all s grants l' clock _ (conj Hmax Hc) op Hop)). by eapply auth_ok_later.
Qed.

Lemma history_total s grants latest op clock latest' :
  history s grants latest → op_ok op → clock_ok clock latest' → ∃ out s', perform op clock s = Done (out, s').
Proof using laws.
  intros Hh Hop Hc. destruct (history_ok _ _ _ Hh) as [Hl Hok]. destruct Hc as [Hmax Hc].
  assert (clock_ok clock (latest `max` latest')) as Hc'.
  { split; [lia|]. intros i. specialize (Hc i). lia. }
  assert (auth_ok s grants (latest `max` latest')) as Hok' by (eapply auth_ok_later; [done|lia]).
  destruct (ensures_Done _ _ _ (keeps_all s grants _ clock Hok' Hc' op Hop)) as (out & s' & E & _). eauto.
Qed.

Lemma collect_total {A B} (f : A → result AuthError B) l : Forall (λ a, ∃ b, f a = Ok b) l → ∃ bs, collect f l = Ok bs.
Proof using Type.
  induction 1 as [|a l [b Hb] _ [bs IH]]; [by exists []|]. exists (b :: bs). cbn. by rewrite Hb, IH.
Qed.

Lemma list_users_ok s now : rows_ok (administrators s) → ∃ records s', list_users now s = Done (Ok records, s').
Proof using Type.
  intros Hrows. unfold list_users. cbv [mbind db_bind db_put db_get db_lift]. cbn [administrators purge_expired set_sessions].
  match goal with |- context [collect ?f ?l] => destruct (collect_total f l) as [bs E] end; [|rewrite E; eauto].
  apply Forall_fmap, Forall_forall. intros [u r] Hin. rewrite merge_sort_Permutation in Hin. apply elem_of_map_to_list in Hin.
  destruct (Hrows u r Hin) as [[x Hx] _]. cbn. unfold user_record. rewrite Hx, role_parse_as_str. cbn. eauto.
Qed.
Lemma list_sessions_ok s grants latest now : auth_ok s grants latest → ∃ records s', list_sessions now s = Done (Ok records, s').
Proof using laws.
  intros Hok. unfold list_sessions. cbv [mbind db_bind db_put db_get db_lift]. cbn [admin_sessions purge_expired set_sessions].
  match goal with |- context [collect ?f ?l] => destruct (collect_total f l) as [bs E] end; [|rewrite E; eauto].
  apply Forall_forall. intros [k r] Hin. rewrite merge_sort_Permutation in Hin. apply elem_of_map_to_list, map_lookup_filter_Some in Hin as [Hk _].
  pose proof (auth_sessions _ _ _ Hok k) as Hm. rewrite Hk in Hm. destruct (grants !! k) as [g|] eqn:Eg; [|done].
  destruct (auth_grants _ _ _ Hok k g Eg) as (_ & (i & Hi & ->) & _). rewrite uuid_parse_string by done. cbn. eauto.
Qed.

(** ** Logins *)

(** What a successful login has checked. *)
Definition factors_right (s : AdminAuth) (u p : rstr) (totp : option rstr) (now : Z) : Prop :=
  ∃ r, administrators s !! u = Some r ∧ enabled r = 1 ∧ argon2_verify p (password_hash r) = Some true ∧
    (totp_enabled r ≠ 0 → ∃ secret code, totp_secret r = Some secret ∧ totp = Some code ∧
       verify_totp hmac_sha1 secret code now = Done true).

Lemma cookie_parts_new i secret : uuid_ok i → cookie_parts (uuid_string i ++ [ch_dot] ++ secret) = Some (i, secret).
Proof using laws.
  intros Hi. unfold cookie_parts. cbn [app]. rewrite split_once_app by by apply uuid_string_plain. cbn [mbind option_bind].
  by rewrite uuid_parse_string.
Qed.

(** A new session, and the grant it has. *)
Definition session_opened (s' : AdminAuth) (u : rstr) (i : Z) (clock : nat → Z) (ns : NewSession) : Prop :=
  ns_expires ns = clock 1%nat + SESSION_LIFETIME_SECONDS ∧
  ∀ now, 0 ≤ now < ns_expires ns → now ≤ CLOCK_MAX →
    ∃ who, authenticate_session (cookie_value ns) now s' = Done (Ok (Some who), s') ∧
      id_session_id who = i ∧ id_username who = u ∧ id_role who = ns_role ns ∧ id_expires who = ns_expires ns.

Lemma open_session_opened s grants latest clock u r x ra ua i s1 s2 :
  auth_ok s grants latest → clock_ok clock latest →
  administrators s !! u = Some r → role r = role_as_str x → enabled r = 1 → uuid_ok i →
  ensures (open_session u r x ra ua i s1 s2 clock) s (λ out s',
    match out with Ok (Success ns) => session_opened s' u i clock ns | Ok _ => False | Err e => e = ConstraintViolation end).
Proof using laws.
  intros Hok Hclock Er Hx Hen Hi. eapply ensures_mono.
  { apply (ensures_open_session s grants latest clock Hok Hclock u r x ra ua i s1 s2 Er Hx Hen Hi). }
  cbv beta. intros [[ns| |]|e] s' [Hok' Hns]; try done. destruct Hns as (Hrole & Hexp & Hcookie & Hthere). split; [done|].
  intros now Hnow Hmax. cbn [grant_step] in Hok'. rewrite Hcookie.
  pose proof (ensures_authenticate s' _ latest (uuid_string i ++ [ch_dot] ++ uuid_simple s1 ++ uuid_simple s2) now Hok') as Ha.
  specialize (Ha ltac:(lia)). apply ensures_Done in Ha as (out & s2' & E & -> & Hout).
  unfold proven_grant in Hout. rewrite cookie_parts_new in Hout by done. cbn [mbind option_bind] in Hout.
  rewrite lookup_insert_eq in Hout. cbn [mbind option_bind g_hash g_expires] in Hout.
  rewrite bool_decide_eq_true_2 in Hout by (split; [done|lia]).
  destruct out as [[who|]|e]; [..|done].
  - destruct Hout as (g & a & [= <-] & Ha & ([sec Hsec] & Hu & Hr & He & _)). rewrite cookie_parts_new in Hsec by done.
    injection Hsec as Hid _. exists who. cbn in *. split_and!; [done|congruence|done|done|done].
  - destruct Hout as (id & sec & [= <- <-] & Hnone); [eauto|]. rewrite Hnone in Hthere. by destruct Hthere.
Qed.

Lemma login_decided s grants latest clock u p t ra ua i s1 s2 :
  auth_ok s grants latest → clock_ok clock latest → op_ok (OpLogin u p t ra ua i s1 s2) →
  ensures (login_with_context u p t ra ua i s1 s2 clock) s (λ out s',
    match out with
    | Ok (Success ns) => factors_right s u p t (clock 0%nat) ∧ session_opened s' u i clock ns
    | Ok _ => ¬ factors_right s u p t (clock 0%nat) ∧ s' = s
    | Err e => e = ConstraintViolation ∨ e = StoredHashInvalid
    end).
Proof using laws.
  intros Hok Hclock [Hi Ht]. unfold login_with_context. do 2 db_step.
  destruct (administrators s !! u) as [r|] eqn:Er.
  2: { repeat db_step. unfold verify_password. destruct (argon2_verify p (dummy_password_hash s)); cbn; [|by right].
       split; [|done]. intros (r & Hr & _). congruence. }
  destruct (auth_rows _ _ _ Hok u r Er) as [[x Hx] Hen].
  db_step. destruct (Z.eqb_spec (enabled r) 0) as [H0|Hen0].
  { repeat db_step. split; [|done]. intros (r' & Hr' & He & _). rewrite Er in Hr'. injection Hr' as <-. lia. }
  db_step. unfold verify_password. destruct (argon2_verify p (password_hash r)) as [b|] eqn:Ev; cbn [ok_or]; [|by right].
  destruct b; cbn [negb].
  2: { db_step. split; [|done]. intros (r' & Hr' & _ & Hv & _). rewrite Er in Hr'. injection Hr' as <-. congruence. }
  do 2 db_step. rewrite Hx, role_parse_as_str. cbn [ok_or].
  assert ((totp_enabled r ≠ 0 → ∃ secret code, totp_secret r = Some secret ∧ t = Some code ∧ verify_totp hmac_sha1 secret code (clock 0%nat) = Done true) →
    ensures (open_session u r x ra ua i s1 s2 clock) s (λ out s', match out with
      | Ok (Success ns) => factors_right s u p t (clock 0%nat) ∧ session_opened s' u i clock ns
      | Ok _ => ¬ factors_right s u p t (clock 0%nat) ∧ s' = s
      | Err e => e = ConstraintViolation ∨ e = StoredHashInvalid end)) as Hopen.
  { intros Hf. eapply ensures_mono; [apply (open_session_opened s grants latest); [done|done|done|done|lia|done]|].
    cbv beta. intros [[ns| |]|e] s' Hs'; [|done|done|by left]. split; [|done]. exists r. split_and!; [done|lia|done|done]. }
  destruct (Z.eqb_spec (totp_enabled r) 0) as [Hz|Hnz]; cbn [negb]; [by apply Hopen|].
  destruct (keep_if _ t) as [code|] eqn:Ec.
  2: { db_step. split; [|done]. intros (r' & Hr' & _ & _ & Hf). rewrite Er in Hr'. injection Hr' as <-.
       destruct (Hf Hnz) as (secret & code & _ & -> & Hv). cbn in Ec. case_match eqn:E; [done|].
       apply negb_false_iff, bool_decide_eq_true in E. unfold verify_totp in Hv. rewrite E in Hv. done. }
  assert (t = Some code) as Hk by (destruct t as [v|]; [|done]; cbn in Ec; case_match; [congruence|done]).
  destruct (totp_secret r) as [secret|] eqn:Es.
  2: { db_step. split; [|done]. intros (r' & Hr' & _ & _ & Hf). rewrite Er in Hr'. injection Hr' as <-.
       destruct (Hf Hnz) as (secret & ? & Hs & _). congruence. }
  db_step. destruct (verify_totp_total secret code (clock 0%nat)) as [b Eb].
  { by subst t. }
  { destruct Hclock as [H1 H2]. specialize (H2 0%nat). lia. }
  apply (ensures_exec _ _ _ _ Eb). destruct b; cbn [negb].
  - apply Hopen. intros _. by exists secret, code.
  - db_step. split; [|done]. intros (r' & Hr' & _ & _ & Hf). rewrite Er in Hr'. injection Hr' as <-.
    destruct (Hf Hnz) as (secret' & code' & Hs & -> & Hv). congruence.
Qed.

(** ** Theorems *)

(** C3. Sessions are exactly the grants of the history. In every history of calls and restarts
    a cookie is accepted only for a grant that a login gave, whose secret it carries, whose
    time is not over and that no logout, password change, reset, disabling, change of role, deletion
    or revocation has taken back; it gives the user and the very role of that login. A
    cookie with such a grant is accepted unless an earlier call has seen a later time. Checking
    a cookie never fails and changes nothing. *)
Theorem sessions_refine_grants (s : AdminAuth) (grants : gmap rstr Grant) (latest now : Z) (cookie : rstr) :
  history s grants latest → 0 ≤ now ≤ CLOCK_MAX →
  ∃ found, authenticate_session cookie now s = Done (Ok found, s) ∧
    (∀ who, found = Some who →
       ∃ g, proven_grant grants cookie now = Some g ∧
         id_username who = g_user g ∧ id_role who = g_role g ∧ id_expires who = g_expires g) ∧
    (latest ≤ now → is_Some (proven_grant grants cookie now) → is_Some found).
Proof using laws.
  intros Hh Hn. destruct (history_ok _ _ _ Hh) as [Hl Hok].
  destruct (ensures_Done _ _ _ (ensures_authenticate s grants latest cookie now Hok Hn)) as (out & s' & E & -> & Hout).
  destruct out as [found|]; [|done]. exists found. split; [done|]. split.
  - intros who ->. destruct Hout as (g & a & Hg & _ & (_ & Hu & Hr & He & _)). eauto.
  - intros Hle [g Hg]. destruct found as [who|]; [eauto|]. destruct Hout as (id & secret & Ec & Hnone); [eauto|].
    unfold proven_grant in Hg. rewrite Ec in Hg. cbn [mbind option_bind] in Hg.
    pose proof (auth_sessions _ _ _ Hok (uuid_string id)) as Hm. rewrite Hnone in Hm.
    destruct (grants !! uuid_string id) as [g0|]; [|done]. cbn in Hg. case_match eqn:E0; [|done].
    apply bool_decide_eq_true in E0 as [_ E0]. lia.
Qed.

(** C16. The accounts stay usable in every history: an enabled administrator remains, every call
    returns, and the lists of users and sessions can be read. *)
Theorem accounts_stay_usable (s : AdminAuth) (grants : gmap rstr Grant) (latest : Z) :
  history s grants latest →
  (∃ u r, administrators s !! u = Some r ∧ role_parse (role r) = Some Administrator ∧ enabled r = 1) ∧
  (∀ op clock latest', op_ok op → clock_ok clock latest' → ∃ out s', perform op clock s = Done (out, s')) ∧
  (∀ now, ∃ records s', list_users now s = Done (Ok records, s')) ∧
  (∀ now, ∃ records s', list_sessions now s = Done (Ok records, s')).
Proof using laws.
  intros Hh. destruct (history_ok _ _ _ Hh) as [Hl Hok]. split_and!.
  - destruct (auth_admin _ _ _ Hok) as (u & r & Hr & Ha). apply bool_decide_eq_true in Ha as [Ha He]. exists u, r.
    rewrite Ha. done.
  - intros op clock latest'. by apply history_total with grants latest.
  - intros now. apply list_users_ok, Hok.
  - intros now. by apply (list_sessions_ok s grants latest).
Qed.

(** C15. A login succeeds only with every factor: the user is enabled, the password verifies, and
    where a second factor is on the code is right. It then opens a session whose cookie
    is accepted as this user for eight hours. Otherwise nothing changes, and a login with every factor
    is never called invalid. *)
Theorem login_needs_every_factor (s : AdminAuth) (grants : gmap rstr Grant) (latest : Z) (clock : nat → Z)
    (u p : rstr) (t ra ua : option rstr) (i s1 s2 : Z) :
  history s grants latest → clock_ok clock latest → op_ok (OpLogin u p t ra ua i s1 s2) →
  ∃ out s', login_with_context u p t ra ua i s1 s2 clock s = Done (out, s') ∧
    match out with
    | Ok (Success ns) => factors_right s u p t (clock 0%nat) ∧ session_opened s' u i clock ns
    | Ok _ => ¬ factors_right s u p t (clock 0%nat) ∧ s' = s
    | Err e => e = ConstraintViolation ∨ e = StoredHashInvalid
    end.
Proof using laws.
  intros Hh Hc Hop. destruct (history_ok _ _ _ Hh) as [Hl Hok].
  destruct (ensures_Done _ _ _ (login_decided s grants latest clock u p t ra ua i s1 s2 Hok Hc Hop)) as (out & s' & E & Hout). eauto.
Qed.

(** C17. Starting the setup of a second factor turns off the one in use: a user whose second factor
    is on, and who then calls [begin_totp], for which no code is asked, is admitted with
    the password alone, although [disable_totp] asks for a valid code. *)
Theorem totp_setup_drops_second_factor (s : AdminAuth) (grants : gmap rstr Grant) (latest : Z) (clock : nat → Z)
    (u p : rstr) (r : AdministratorRow) (key : list Z) (ra ua : option rstr) (i s1 s2 : Z) :
  history s grants latest → clock_ok clock latest → uuid_ok i → bytes_ok key → len key = 20 →
  administrators s !! u = Some r → enabled r = 1 → totp_enabled r = 1 → argon2_verify p (password_hash r) = Some true →
  admin_sessions s !! uuid_string i = None →
  login_with_context u p None ra ua i s1 s2 clock s = Done (Ok TotpRequired, s) ∧
  ∃ text s1' ns s2', begin_totp u key (clock 0%nat) s = Done (Ok (Some text), s1') ∧
    login_with_context u p None ra ua i s1 s2 clock s1' = Done (Ok (Success ns), s2') ∧ ns_totp_enabled ns = false.
Proof using laws.
  intros Hh Hc Hi Hk Hlen Hr Hen Htotp Hv Hfree. destruct (history_ok _ _ _ Hh) as [Hl Hok].
  destruct (auth_rows _ _ _ Hok u r Hr) as [[x Hx] _]. destruct Hc as [Hmax Hc]. pose proof (Hc 1%nat) as Hc1.
  assert (∀ st row, administrators st !! u = Some row → enabled row = 1 → role row = role_as_str x →
            argon2_verify p (password_hash row) = Some true →
            login_with_context u p None ra ua i s1 s2 clock st =
            if negb (totp_enabled row =? 0) then Done (Ok TotpRequired, st) else open_session u row x ra ua i s1 s2 clock st) as Hlogin.
  { intros st row Hrow Hen' Hx' Hv'. unfold login_with_context. cbv [mbind db_bind db_get db_lift mret db_ret]. rewrite Hrow, Hen'.
    cbn [Z.eqb Pos.eqb]. unfold verify_password. rewrite Hv'. cbn [ok_or negb]. rewrite Hx', role_parse_as_str. cbn [ok_or keep_if].
    by case_match. }
  rewrite (Hlogin s r) by done. rewrite Htotp. cbn [negb Z.eqb]. split; [done|].
  destruct (base32_encode_digits key Hk) as (ds & pad & Eb & _).
  assert (begin_totp u key (clock 0%nat) s =
          Done (Ok (Some (letter <$> ds)), update_row (with_totp (Some (letter <$> ds)) 0) u s)) as Ebegin.
  { unfold begin_totp. cbv [mbind db_bind user db_exec db_put mret db_ret]. rewrite Hr. unfold user_record.
    rewrite Hx, role_parse_as_str. cbn [ok_or result_bind]. cbv [mbind result_bind]. by rewrite Eb. }
  exists (letter <$> ds), (update_row (with_totp (Some (letter <$> ds)) 0) u s).
  rewrite (Hlogin _ (with_totp (Some (letter <$> ds)) 0 r)); [|unfold update_row; cbn [administrators set_administrators]; by rewrite lookup_alter_eq, Hr|done..].
  cbn [totp_enabled with_totp Z.eqb negb]. unfold open_session. cbv [mbind db_bind db_exec db_put mret db_ret insert_session].
  unfold CLOCK_MAX in Hmax. rewrite usize_add_Done by (unfold SESSION_LIFETIME_SECONDS; lia). cbn [admin_sessions purge_expired set_sessions update_row set_administrators].
  rewrite map_lookup_filter, Hfree. cbn. eexists _, _. split; [exact Ebegin|]. split; reflexivity.
Qed.
End invariant.

(** ** Witnesses *)

#[local] Instance sample_platform : Platform := {|
  uuid_string := to_string;
  uuid_parse := parse_uint U128_MAX;
  uuid_simple := to_string;
  sha256 := sample_sha256;
  argon2_hash := λ salt password, Some (password ++ lit "$");
  argon2_verify := λ password hash, Some (bool_decide (hash = password ++ lit "$"));
  hmac_sha1 := sample_hmac;
|}.
Lemma sample_sha256_digest message : length (sample_sha256 message) = 32%nat ∧ bytes_ok (sample_sha256 message).
Proof.
  unfold sample_sha256. rewrite length_replicate. split; [done|]. apply Forall_replicate. apply Z.mod_pos_bound. lia.
Qed.
#[local] Instance sample_laws : PlatformLaws.
Proof.
  split.
  - intros id Hid. apply parse_uint_to_string; unfold uuid_ok in Hid; lia.
  - intros id Hid. apply digits_lack; [apply to_string_digits; unfold uuid_ok in Hid; lia|lia].
  - intros salt password hash [= <-]. cbn. by rewrite bool_decide_eq_true_2.
  - apply sample_sha256_digest.
  - apply sample_hmac_digest.
Defined.

Definition sample_bootstrap : BootstrapCredentials :=
  {| b_username := lit "root"; b_password := lit "correct-horse"; b_force_password_change := false |}.
Definition sample_state : AdminAuth :=
  match open_with_database (∅, ∅) (Some sample_bootstrap) 100 1 2 with Ok s => s | Err _ => Build_AdminAuth ∅ ∅ [] end.
Lemma sample_opened : open_with_database (∅, ∅) (Some sample_bootstrap) 100 1 2 = Ok sample_state.
Proof. vm_compute. reflexivity. Qed.

Definition sample_login : AuthOp := OpLogin (lit "root") (lit "correct-horse") None None None 7 8 9.
Definition at_time (t : Z) : nat → Z := λ _, t.
(** The state and result of a call, for calls that return. *)
Definition state_after (op : AuthOp) (t : Z) (s : AdminAuth) : AdminAuth :=
  match perform op (at_time t) s with Done (_, s') => s' | Panic => s end.
Definition result_of (op : AuthOp) (t : Z) (s : AdminAuth) : result AuthError Outcome :=
  match perform op (at_time t) s with Done (out, _) => out | Panic => Ok (OutDone false) end.
Lemma call_returns op t s : is_Some (match perform op (at_time t) s with Done x => Some x | Panic => None end) →
  perform op (at_time t) s = Done (result_of op t s, state_after op t s).
Proof. unfold result_of, state_after. destruct (perform op (at_time t) s) as [[out s']|]; [done|]. by intros [? ?]. Qed.

Lemma extend_history s grants latest op t :
  history s grants latest → op_ok op → 0 ≤ t ≤ CLOCK_MAX → latest ≤ t →
  history (state_after op t s) (grant_step op (result_of op t s) grants) t.
Proof.
  intros Hh Hop Ht Hle. assert (clock_ok (at_time t) t) as Hc by (split; [lia|intros i; unfold at_time; lia]).
  eapply history_call; [exact Hh|exact Hop|exact Hc|exact Hle|]. apply call_returns.
  destruct (history_total _ _ _ op (at_time t) t Hh Hop Hc) as (out & s' & ->). eauto.
Qed.

Definition sample_session : AdminAuth := state_after sample_login 1000 sample_state.
Definition sample_grants : gmap rstr Grant := grant_step sample_login (result_of sample_login 1000 sample_state) ∅.
Lemma sample_history0 : history sample_state ∅ 0.
Proof. eapply history_open. exact sample_opened. Qed.
Lemma sample_history : history sample_session sample_grants 1000.
Proof.
  apply (extend_history _ _ 0); [exact sample_history0|split; [split; vm_compute; discriminate|exact I]|split; vm_compute; discriminate|lia].
Qed.

Lemma sample_proven : is_Some (proven_grant sample_grants (lit "7.89") 5000).
Proof. vm_compute. eauto. Qed.

Lemma sessions_refine_grants_witness :
  ∃ who, authenticate_session (lit "7.89") 5000 sample_session = Done (Ok (Some who), sample_session).
Proof.
  destruct (sessions_refine_grants sample_session sample_grants 1000 5000 (lit "7.89") sample_history) as (found & E & _ & Hf).
  - split; vm_compute; discriminate.
  - destruct (Hf ltac:(lia) sample_proven) as [who ->]. exists who. exact E.
Defined.

Lemma accounts_stay_usable_witness :
  ∃ u r, administrators sample_session !! u = Some r ∧ role_parse (role r) = Some Administrator ∧ enabled r = 1.
Proof. destruct (accounts_stay_usable sample_session sample_grants 1000 sample_history) as [H _]. exact H. Defined.

Lemma sample_clock : clock_ok (at_time 1000) 1000.
Proof. split; [vm_compute; discriminate|]. intros i. unfold at_time. lia. Qed.

Lemma login_needs_every_factor_witness :
  ∃ out s', login_with_context (lit "root") (lit "wrong") None None None 11 12 13 (at_time 1000) sample_session = Done (out, s') ∧
    out = Ok InvalidCredentials ∧ s' = sample_session.
Proof.
  destruct (login_needs_every_factor sample_session sample_grants 1000 (at_time 1000) (lit "root") (lit "wrong") None None None 11 12 13
              sample_history sample_clock) as (out & s' & E & Hout).
  - split; [split; vm_compute; discriminate|exact I].
  - exists out, s'. split; [exact E|].
    assert (match login_with_context (lit "root") (lit "wrong") None None None 11 12 13 (at_time 1000) sample_session with
            | Done (Ok InvalidCredentials, _) => true | _ => false end = true) as Ei by (vm_compute; reflexivity).
    rewrite E in Ei. destruct out as [[ns| |]|e]; [done| |done|done]. split; [done|]. apply Hout.
Defined.

(** A second factor set up and confirmed. *)
Definition setup_op : AuthOp := OpBeginTotp (lit "root") (replicate 20 65).
Definition confirm_op : AuthOp := OpEnableTotp (lit "root") 7 (lit "261347").
Definition protected_state : AdminAuth := state_after confirm_op 1000 (state_after setup_op 1000 sample_session).
Definition protected_grants : gmap rstr Grant :=
  grant_step confirm_op (result_of confirm_op 1000 (state_after setup_op 1000 sample_session))
    (grant_step setup_op (result_of setup_op 1000 sample_session) sample_grants).
Lemma protected_history : history protected_state protected_grants 1000.
Proof.
  apply (extend_history _ _ 1000); [|split; [split; vm_compute; discriminate|apply (bool_decide_unpack _); vm_compute; exact I]|split; vm_compute; discriminate|lia].
  apply (extend_history _ _ 1000); [exact sample_history|split; [apply (bool_decide_unpack _); vm_compute; exact I|reflexivity]|split; vm_compute; discriminate|lia].
Qed.
Definition protected_row : AdministratorRow :=
  default (Build_AdministratorRow [] 0 0 [] [] 0 None None 0) (administrators protected_state !! lit "root").
Lemma protected_row_facts :
  administrators protected_state !! lit "root" = Some protected_row ∧ enabled protected_row = 1 ∧ totp_enabled protected_row = 1 ∧
  argon2_verify (lit "correct-horse") (password_hash protected_row) = Some true ∧ admin_sessions protected_state !! uuid_string 21 = None.
Proof. vm_compute. split_and!; reflexivity. Qed.

Lemma totp_setup_drops_second_factor_witness :
  login_with_context (lit "root") (lit "correct-horse") None None None 21 22 23 (at_time 1000) protected_state = Done (Ok TotpRequired, protected_state) ∧
  ∃ text s1' ns s2', begin_totp (lit "root") (replicate 20 66) 1000 protected_state = Done (Ok (Some text), s1') ∧
    login_with_context (lit "root") (lit "correct-horse") None None None 21 22 23 (at_time 1000) s1' = Done (Ok (Success ns), s2') ∧
    ns_totp_enabled ns = false.
Proof.
  destruct protected_row_facts as (H1 & H2 & H3 & H4 & H5).
  apply (totp_setup_drops_second_factor protected_state protected_grants 1000 (at_time 1000) (lit "root") (lit "correct-horse")
           protected_row (replicate 20 66) None None 21 22 23 protected_history sample_clock);
    [split; vm_compute; discriminate|apply (bool_decide_unpack _); vm_compute; exact I|reflexivity|exact H1|exact H2|exact H3|exact H4|exact H5].
Defined.
