(* ===== verification/ApiTokens.v ===== *)
(** * API tokens ([api_tokens.rs])

    Bearer tokens of the management interface: only the hash of a token is stored, a
    token carries a scope and possibly an expiry and the Fleet source it may write for. One
    SQLite table, whose identifiers, names and hashes are unique. *)

From S2P Require Import Prelude DbMonad RustStr RustText P2pProtocol AdminAuth.
Local Open Scope Z_scope.
Set Default Proof Using "Type".

(** ** Data *)

Inductive ApiTokenScope := ScopeRead | ScopeWrite | ScopeAdministrator.
Global Instance ApiTokenScope_eq_dec : EqDecision ApiTokenScope.
Proof. solve_decision. Defined.

Definition scope_to_string (self : ApiTokenScope) : rstr :=
  match self with ScopeRead => lit "read" | ScopeWrite => lit "write" | ScopeAdministrator => lit "administrator" end.
Definition scope_from_str (value : rstr) : option ApiTokenScope :=
  if bool_decide (value = lit "read") then Some ScopeRead
  else if bool_decide (value = lit "write") then Some ScopeWrite
  else if bool_decide (value = lit "administrator") then Some ScopeAdministrator
  else None.

Record ApiTokenRecord := {
  t_id : Z;
  t_name : rstr;
  t_scope : ApiTokenScope;
  t_created : Z;
  t_expires : option Z;
  t_last_used : option Z;
  t_source : option Z;
}.
Record CreateApiToken := {
  ct_name : rstr;
  ct_scope : ApiTokenScope;
  ct_expires : option Z;
  ct_source : option Z;
}.
Record CreatedApiToken := { created_record : ApiTokenRecord; created_token : rstr }.

(** A row of [management_api_tokens], under its identifier. *)
Record TokenRow := {
  tr_name : rstr;
  tr_scope : rstr;
  tr_hash : list Z;
  tr_created : Z;
  tr_expires : option Z;
  tr_last_used : option Z;
  tr_source : option rstr;
}.
Abbreviation ApiTokenCatalog := (gmap rstr TokenRow).

Inductive TokenError := InvalidName | InvalidExpiry | InvalidSource | ReadOnlyWriter | TokenConflict | TokenUnreadable.
Abbreviation tokens := (db TokenError ApiTokenCatalog).

(** ** Operations *)

Section operations.
Context {plat : Platform}.

Definition TOKEN_PREFIX : rstr := lit "llapi_".
Definition token_hash (token : rstr) : list Z := sha256 (as_bytes token).

Definition read_record (id : rstr) (row : TokenRow) : result TokenError ApiTokenRecord :=
  parsed ← ok_or (uuid_parse id) TokenUnreadable;
  scope ← ok_or (scope_from_str (tr_scope row)) TokenUnreadable;
  source ← match tr_source row with
           | None => Ok None
           | Some text => source ← ok_or (uuid_parse text) TokenUnreadable; Ok (Some source)
           end;
  Ok {| t_id := parsed; t_name := tr_name row; t_scope := scope; t_created := Z.max 0 (tr_created row);
        t_expires := Z.max 0 <$> tr_expires row; t_last_used := Z.max 0 <$> tr_last_used row; t_source := source |}.

(** [ORDER BY name]. *)
Definition list_tokens : tokens (list ApiTokenRecord) :=
  rows ← db_get (λ t, merge_sort (λ x y : rstr * TokenRow, lex_le (as_bytes (tr_name x.2)) (as_bytes (tr_name y.2))) (map_to_list t));
  db_lift (collect (λ '(id, row), read_record id row) rows).

(** A row that the unique columns do not admit. *)
Definition token_conflicts (id : rstr) (row : TokenRow) (t : ApiTokenCatalog) : bool :=
  bool_decide (is_Some (t !! id)) ||
  any (λ '(_, r), bool_decide (tr_name r = tr_name row) || bool_decide (tr_hash r = tr_hash row)) (map_to_list t).

(** [random] are the 32 random bytes, [id] the new UUID. *)
Definition create_token (request : CreateApiToken) (now : Z) (random : list Z) (id : Z) : tokens CreatedApiToken :=
  let name := trim (ct_name request) in
  _ ← db_ensure (negb (bool_decide (name = [])) && (len name <=? 80)) InvalidName;
  _ ← db_ensure (match ct_expires request with Some expires => now <? expires | None => true end) InvalidExpiry;
  _ ← db_ensure (match ct_source request with Some source => negb (source =? 0) | None => true end) InvalidSource;
  _ ← db_ensure (bool_decide (ct_source request = None) || negb (bool_decide (ct_scope request = ScopeRead))) ReadOnlyWriter;
  let token := TOKEN_PREFIX ++ encode_hex random in
  let row := {| tr_name := name; tr_scope := scope_to_string (ct_scope request); tr_hash := token_hash token;
                tr_created := to_i64 now; tr_expires := to_i64 <$> ct_expires request; tr_last_used := None;
                tr_source := uuid_string <$> ct_source request |} in
  conflict ← db_get (token_conflicts (uuid_string id) row);
  _ ← db_ensure (negb conflict) TokenConflict;
  _ ← db_put (<[uuid_string id := row]>);
  mret {| created_record := {| t_id := id; t_name := name; t_scope := ct_scope request; t_created := now;
                               t_expires := ct_expires request; t_last_used := None; t_source := ct_source request |};
          created_token := token |}.

Definition revoke_token (id : Z) : tokens bool :=
  found ← db_get (λ t, bool_decide (is_Some (t !! uuid_string id)));
  _ ← db_put (delete (uuid_string id));
  mret found.

(** [WHERE token_hash = h], a unique column. *)
Definition find_hash (h : list Z) (t : ApiTokenCatalog) : option (rstr * TokenRow) :=
  head (filter (λ x : rstr * TokenRow, tr_hash x.2 = h) (map_to_list t)).

Definition with_last_used (now : Z) (r : TokenRow) : TokenRow :=
  {| tr_name := tr_name r; tr_scope := tr_scope r; tr_hash := tr_hash r; tr_created := tr_created r;
     tr_expires := tr_expires r; tr_last_used := Some now; tr_source := tr_source r |}.

Definition authenticate_token (token : rstr) (now : Z) : tokens (option ApiTokenRecord) :=
  if bool_decide (strip_prefix TOKEN_PREFIX token = None) then mret None
  else
    found ← db_get (find_hash (token_hash token));
    match found with
    | None => mret None
    | Some (id, row) =>
        record ← db_lift (read_record id row);
        if match t_expires record with Some expires => expires <=? now | None => false end then mret None
        else
          _ ← db_put (alter (with_last_used (to_i64 now)) (uuid_string (t_id record)));
          mret (Some {| t_id := t_id record; t_name := t_name record; t_scope := t_scope record; t_created := t_created record;
                        t_expires := t_expires record; t_last_used := Some now; t_source := t_source record |})
    end.

(** ** Histories *)

Inductive TokenOp :=
  | TokCreate (request : CreateApiToken) (random : list Z) (id : Z)
  | TokRevoke (id : Z)
  | TokAuthenticate (token : rstr)
  | TokList.
Inductive TokenOutcome :=
  | TokCreated (c : CreatedApiToken) | TokRevoked (b : bool) | TokFound (r : option ApiTokenRecord) | TokListed (l : list ApiTokenRecord).

Definition perform_token (op : TokenOp) (now : Z) : tokens TokenOutcome :=
  match op with
  | TokCreate r random id => x ← create_token r now random id; mret (TokCreated x)
  | TokRevoke id => x ← revoke_token id; mret (TokRevoked x)
  | TokAuthenticate token => x ← authenticate_token token now; mret (TokFound x)
  | TokList => x ← list_tokens; mret (TokListed x)
  end.

(** The tokens given out and not revoked. *)
Record Issued := { i_token : rstr; i_id : Z; i_name : rstr; i_scope : ApiTokenScope; i_expires : option Z; i_source : option Z }.
Definition issue_step (op : TokenOp) (out : result TokenError TokenOutcome) (issued : gmap rstr Issued) : gmap rstr Issued :=
  match op, out with
  | TokCreate request _ id, Ok (TokCreated c) =>
      <[uuid_string id := {| i_token := created_token c; i_id := id; i_name := trim (ct_name request); i_scope := ct_scope request;
                             i_expires := ct_expires request; i_source := ct_source request |}]> issued
  | TokRevoke id, Ok _ => delete (uuid_string id) issued
  | _, _ => issued
  end.

Definition U64_ok (n : Z) : Prop := 0 ≤ n ≤ U64_MAX.
Definition token_op_ok (op : TokenOp) : Prop :=
  match op with
  | TokCreate request _ id => uuid_ok id ∧ (∀ e, ct_expires request = Some e → U64_ok e) ∧ (∀ s, ct_source request = Some s → uuid_ok s)
  | TokRevoke id => uuid_ok id
  | _ => True
  end.

Inductive token_history : ApiTokenCatalog → gmap rstr Issued → Prop :=
  | tokens_none : token_history ∅ ∅
  | tokens_call (t t' : ApiTokenCatalog) (issued : gmap rstr Issued) (op : TokenOp) (now : Z) (out : result TokenError TokenOutcome) :
      token_history t issued → token_op_ok op → U64_ok now → perform_token op now t = Done (out, t') →
      token_history t' (issue_step op out issued).

(** The expiry that the signed column can hold: later ones are read as zero. *)
Definition effective_expiry (e : option Z) : option Z := Z.max 0 <$> (to_i64 <$> e).

(** A token that is good at [now]. *)
Definition good_token (issued : gmap rstr Issued) (token : rstr) (now : Z) (i : Issued) : Prop :=
  strip_prefix TOKEN_PREFIX token ≠ None ∧ issued !! uuid_string (i_id i) = Some i ∧
  token_hash (i_token i) = token_hash token ∧ (∀ e, effective_expiry (i_expires i) = Some e → now < e).
End operations.

(** ** The invariant *)

Lemma scope_round_trip s : scope_from_str (scope_to_string s) = Some s.
Proof. by destruct s. Qed.

Section invariant.
Context {plat : Platform} {laws : PlatformLaws}.

Definition row_of (r : TokenRow) (i : Issued) : Prop :=
  tr_name r = i_name i ∧ tr_scope r = scope_to_string (i_scope i) ∧ tr_hash r = token_hash (i_token i) ∧
  tr_expires r = to_i64 <$> i_expires i ∧ tr_source r = uuid_string <$> i_source i ∧ (∀ s, i_source i = Some s → uuid_ok s).

Record tokens_ok (t : ApiTokenCatalog) (issued : gmap rstr Issued) : Prop := {
  tokens_match : ∀ k, match t !! k, issued !! k with
                      | Some r, Some i => row_of r i ∧ k = uuid_string (i_id i) ∧ uuid_ok (i_id i)
                      | None, None => True
                      | _, _ => False
                      end;
  tokens_unique : ∀ k1 k2 r1 r2, t !! k1 = Some r1 → t !! k2 = Some r2 → tr_hash r1 = tr_hash r2 → k1 = k2;
}.

Lemma tokens_ok_delete t issued k : tokens_ok t issued → tokens_ok (delete k t) (delete k issued).
Proof using Type.
  intros [H1 H2]. split.
  - intros k'. destruct (decide (k = k')) as [->|Hne]; [by rewrite !lookup_delete_eq|]. rewrite !lookup_delete_ne by done. apply H1.
  - intros k1 k2 r1 r2 E1 E2. apply lookup_delete_Some in E1 as [_ E1]. apply lookup_delete_Some in E2 as [_ E2]. by eapply H2.
Qed.
Lemma tokens_ok_used t issued k now : tokens_ok t issued → tokens_ok (alter (with_last_used now) k t) issued.
Proof using Type.
  intros [H1 H2].
  assert (∀ k' r, alter (with_last_used now) k t !! k' = Some r → ∃ r0, t !! k' = Some r0 ∧ tr_hash r = tr_hash r0) as Hr.
  { intros k' r. destruct (decide (k = k')) as [->|Hne]; [|rewrite lookup_alter_ne by done; eauto].
    rewrite lookup_alter_eq. destruct (t !! k') as [r0|]; [|done]. intros [= <-]. eauto. }
  split.
  - intros k'. specialize (H1 k'). destruct (decide (k = k')) as [->|Hne]; [|by rewrite lookup_alter_ne].
    rewrite lookup_alter_eq. by destruct (t !! k').
  - intros k1 k2 r1 r2 E1 E2 Eh. destruct (Hr _ _ E1) as (r1' & E1' & Eh1). destruct (Hr _ _ E2) as (r2' & E2' & Eh2).
    apply (H2 k1 k2 r1' r2'); congruence.
Qed.

Lemma conflicts_false (id : rstr) (row : TokenRow) (t : ApiTokenCatalog) : token_conflicts id row t = false →
  t !! id = None ∧ ∀ k r, t !! k = Some r → tr_hash r ≠ tr_hash row.
Proof using Type.
  unfold token_conflicts. intros E. apply orb_false_iff in E as [E1 E2]. apply bool_decide_eq_false in E1.
  split; [by apply eq_None_not_Some|]. intros k r Hk. apply any_false_Forall in E2. rewrite Forall_forall in E2.
  specialize (E2 (k, r)). rewrite elem_of_map_to_list in E2. apply E2 in Hk. apply orb_false_iff in Hk as [_ Hk].
  by apply bool_decide_eq_false in Hk.
Qed.

Lemma tokens_ok_insert (t : ApiTokenCatalog) (issued : gmap rstr Issued) (id : Z) (row : TokenRow) (i : Issued) :
  tokens_ok t issued → token_conflicts (uuid_string id) row t = false → row_of row i → i_id i = id → uuid_ok id →
  tokens_ok (<[uuid_string id := row]> t) (<[uuid_string id := i]> issued).
Proof using Type.
  intros [H1 H2] Hc Hrow Hi Hid. destruct (conflicts_false _ _ _ Hc) as [Hnone Hh]. split.
  - intros k. destruct (decide (uuid_string id = k)) as [<-|Hne]; [rewrite !lookup_insert_eq; by subst|].
    rewrite !lookup_insert_ne by done. apply H1.
  - intros k1 k2 r1 r2 E1 E2 Eh. destruct (decide (uuid_string id = k1)) as [<-|N1], (decide (uuid_string id = k2)) as [<-|N2]; [done|..].
    + rewrite lookup_insert_eq in E1. rewrite lookup_insert_ne in E2 by done. injection E1 as <-. by destruct (Hh _ _ E2).
    + rewrite lookup_insert_ne in E1 by done. rewrite lookup_insert_eq in E2. injection E2 as <-. by destruct (Hh _ _ E1).
    + rewrite lookup_insert_ne in E1 by done. rewrite lookup_insert_ne in E2 by done. by eapply H2.
Qed.

(** The row with a hash is found, and only it. *)
Lemma find_hash_spec t issued h :
  tokens_ok t issued →
  match find_hash h t with
  | Some (k, r) => t !! k = Some r ∧ tr_hash r = h
  | None => ∀ k r, t !! k = Some r → tr_hash r ≠ h
  end.
Proof using Type.
  intros _. unfold find_hash. destruct (filter _ (map_to_list t)) as [|[k r] l] eqn:E; cbn.
  - intros k r Hk Hh. assert ((k, r) ∈ filter (λ x : rstr * TokenRow, tr_hash x.2 = h) (map_to_list t)) as Hin
      by (apply list_elem_of_filter; by rewrite elem_of_map_to_list).
    rewrite E in Hin. by apply elem_of_nil in Hin.
  - assert ((k, r) ∈ filter (λ x : rstr * TokenRow, tr_hash x.2 = h) (map_to_list t)) as Hin by (rewrite E; by left).
    apply list_elem_of_filter in Hin as [Hh Hin]. by rewrite elem_of_map_to_list in Hin.
Qed.

Lemma read_record_ok r i : row_of r i → uuid_ok (i_id i) →
  read_record (uuid_string (i_id i)) r =
  Ok {| t_id := i_id i; t_name := i_name i; t_scope := i_scope i; t_created := Z.max 0 (tr_created r);
        t_expires := effective_expiry (i_expires i); t_last_used := Z.max 0 <$> tr_last_used r; t_source := i_source i |}.
Proof using laws.
  intros (Hn & Hs & _ & He & Hsrc & Hok) Hid. unfold read_record. rewrite uuid_parse_string by done. cbn [ok_or mbind result_bind].
  rewrite Hs, scope_round_trip. cbn [ok_or mbind result_bind]. rewrite Hsrc. destruct (i_source i) as [src|] eqn:E; cbn [fmap option_fmap option_map].
  - rewrite uuid_parse_string by by apply Hok. cbn [ok_or mbind result_bind]. by rewrite Hn, He.
  - cbn [mbind result_bind]. by rewrite Hn, He.
Qed.

Lemma authenticate_token_ok t issued token now : tokens_ok t issued →
  ensures (authenticate_token token now) t (λ out t', tokens_ok t' issued ∧
    match out with
    | Ok (Some rec) => ∃ i, good_token issued token now i ∧ t_id rec = i_id i ∧ t_name rec = i_name i ∧ t_scope rec = i_scope i ∧ t_source rec = i_source i
    | Ok None => t' = t ∧ ∀ i, ¬ good_token issued token now i
    | Err _ => False
    end).
Proof using laws.
  intros Hok. unfold authenticate_token. case_match eqn:Ep.
  { apply bool_decide_eq_true in Ep. db_step. split; [done|]. split; [done|]. intros i (Hpre & _). done. }
  apply bool_decide_eq_false in Ep. do 2 db_step. pose proof (find_hash_spec t issued (token_hash token) Hok) as Hf.
  destruct (find_hash (token_hash token) t) as [[k r]|].
  2: { db_step. split; [done|]. split; [done|]. intros i (_ & Hi & Hh & _). pose proof (tokens_match _ _ Hok (uuid_string (i_id i))) as Hm.
       rewrite Hi in Hm. destruct (t !! uuid_string (i_id i)) as [r|] eqn:Er; [|done]. destruct Hm as ((_ & _ & Hhash & _) & _).
       apply (Hf _ _ Er). congruence. }
  destruct Hf as [Hk Hh]. pose proof (tokens_match _ _ Hok k) as Hm. rewrite Hk in Hm.
  destruct (issued !! k) as [i|] eqn:Ei; [|done]. destruct Hm as (Hrow & -> & Hid).
  assert (∀ i', good_token issued token now i' → i' = i) as Huniq.
  { intros i' (_ & Hi' & Hh' & _). pose proof (tokens_match _ _ Hok (uuid_string (i_id i'))) as Hm'. rewrite Hi' in Hm'.
    destruct (t !! uuid_string (i_id i')) as [r'|] eqn:Er'; [|done]. destruct Hm' as ((_ & _ & Hhash & _) & _).
    assert (uuid_string (i_id i') = uuid_string (i_id i)) as E by (apply (tokens_unique _ _ Hok _ _ r' r); [done|done|congruence]).
    rewrite E in Hi'. congruence. }
  do 2 db_step. rewrite (read_record_ok r i) by done. cbn [t_expires t_id].
  destruct (match effective_expiry (i_expires i) with Some expires => expires <=? now | None => false end) eqn:Ex.
  - db_step. split; [done|]. split; [done|]. intros i' Hg. pose proof (Huniq i' Hg) as ->. destruct Hg as (_ & _ & _ & He).
    destruct (effective_expiry (i_expires i)) as [e|]; [|done]. specialize (He e eq_refl). apply Z.leb_le in Ex. lia.
  - do 3 db_step. split; [by apply tokens_ok_used|]. exists i. cbn. split_and!; try done. split_and!; try done.
    + destruct Hrow as (_ & _ & Hhash & _). congruence.
    + intros e He. rewrite He in Ex. apply Z.leb_gt in Ex. lia.
Qed.

Lemma token_history_ok t issued : token_history t issued → tokens_ok t issued.
Proof using laws.
  induction 1 as [|t t' issued op now out _ IH Hop Hnow Hcall].
  - split; [intros k; by rewrite !lookup_empty|]. intros k1 k2 r1 r2 E. by rewrite lookup_empty in E.
  - refine (ensures_eq _ _ _ _ (λ out t', tokens_ok t' (issue_step op out issued)) Hcall _).
    destruct op as [request random id|id|token|]; unfold perform_token.
    + unfold create_token. destruct Hop as (Hid & He & Hs). do 2 db_step. do 4 (db_step; [|done]; db_step). db_step. db_step.
      db_step; [|done]. repeat db_step. cbn [issue_step created_token].
      apply tokens_ok_insert; [done|by apply negb_true_iff| |done|done]. done.
    + unfold revoke_token. repeat db_step. by apply tokens_ok_delete.
    + db_step. eapply ensures_mono; [by apply (authenticate_token_ok t issued)|]. cbv beta. intros [x|e] t2 [H2 _]; [db_step|]; done.
    + unfold list_tokens. repeat db_step. case_match; [by db_step|done].
Qed.

(** ** Theorems *)

(** C18. Tokens mean what was issued: in every history a token is accepted exactly when it hashes
    as one that was created, is not revoked and is not over, and it then gives the
    scope and the Fleet source of that creation. The answer never fails. *)
Theorem api_tokens_refine_issued (t : ApiTokenCatalog) (issued : gmap rstr Issued) (token : rstr) (now : Z) :
  token_history t issued → U64_ok now →
  ∃ found t', authenticate_token token now t = Done (Ok found, t') ∧
    (∀ rec, found = Some rec → ∃ i, good_token issued token now i ∧
       t_id rec = i_id i ∧ t_name rec = i_name i ∧ t_scope rec = i_scope i ∧ t_source rec = i_source i) ∧
    (found = None ↔ ∀ i, ¬ good_token issued token now i).
Proof using laws.
  intros Hh Hn. pose proof (token_history_ok t issued Hh) as Hok.
  destruct (ensures_Done _ _ _ (authenticate_token_ok t issued token now Hok)) as (out & t' & E & _ & Hout).
  destruct out as [found|]; [|done]. exists found, t'. split; [done|]. split.
  - intros rec ->. exact Hout.
  - destruct found as [rec|]; [|by destruct Hout as [_ Hout]]. split; [done|]. intros Hno.
    destruct Hout as (i & Hg & _). by destruct (Hno i).
Qed.

(** An expiry beyond the range of the signed column is accepted, and the token that is
    returned for it is refused at every time. *)
Theorem distant_expiry_is_expired (t t' : ApiTokenCatalog) (issued : gmap rstr Issued) (request : CreateApiToken)
    (now e id : Z) (random : list Z) (c : CreatedApiToken) (later : Z) :
  token_history t issued → U64_ok now → token_op_ok (TokCreate request random id) →
  ct_expires request = Some e → 9223372036854775807 < e → 0 ≤ later →
  create_token request now random id t = Done (Ok c, t') →
  authenticate_token (created_token c) later t' = Done (Ok None, t').
Proof using laws.
  intros Hh Hn Hop He Hbig Hl Hc.
  assert (token_history t' (issue_step (TokCreate request random id) (Ok (TokCreated c)) issued)) as Hh'.
  { eapply tokens_call; [exact Hh|exact Hop|exact Hn|]. unfold perform_token. cbv [mbind db_bind]. by rewrite Hc. }
  apply token_history_ok in Hh'. cbn [issue_step] in Hh'. set (i := Build_Issued _ _ _ _ _ _) in Hh'.
  destruct (ensures_Done _ _ _ (authenticate_token_ok t' _ (created_token c) later Hh')) as (out & t2 & E & _ & Hout).
  assert (effective_expiry (i_expires i) = Some 0) as Hexp.
  { unfold i. cbn [i_expires]. rewrite He. destruct Hop as (_ & Hu & _). specialize (Hu e He). unfold U64_ok in Hu.
    unfold effective_expiry, to_i64. cbn. rewrite (proj2 (Z.leb_gt _ _)) by lia. f_equal. lia. }
  pose proof (tokens_match _ _ Hh' (uuid_string id)) as Hm. rewrite lookup_insert_eq in Hm.
  destruct (t' !! uuid_string id) as [r0|] eqn:Er0; [|done]. destruct Hm as ((_ & _ & Hhash & _) & _).
  destruct out as [[rec|]|]; [|by destruct Hout as [-> _]|done].
  destruct Hout as (i' & (Hpre & Hi' & Heq & Hlt) & _). exfalso.
  pose proof (tokens_match _ _ Hh' (uuid_string (i_id i'))) as Hm'. rewrite Hi' in Hm'.
  destruct (t' !! uuid_string (i_id i')) as [r1|] eqn:Er1; [|done]. destruct Hm' as ((_ & _ & Hhash1 & _) & _).
  assert (uuid_string (i_id i') = uuid_string id) as Ek
    by (apply (tokens_unique _ _ Hh' _ _ r1 r0); [done|done|rewrite Hhash, Hhash1; exact Heq]).
  rewrite Ek, lookup_insert_eq in Hi'. injection Hi' as <-. specialize (Hlt 0 Hexp). lia.
Qed.
End invariant.

(** ** Witnesses *)

Definition sample_request (e : option Z) : CreateApiToken :=
  {| ct_name := lit "deploy "; ct_scope := ScopeWrite; ct_expires := e; ct_source := Some 77 |}.
Definition sample_create (e : option Z) : exec (result TokenError CreatedApiToken * ApiTokenCatalog) :=
  create_token (plat := sample_platform) (sample_request e) 100 (replicate 32 171) 5 ∅.
Definition sample_catalog (e : option Z) : ApiTokenCatalog := match sample_create e with Done (_, t) => t | Panic => ∅ end.
Definition sample_created (e : option Z) : CreatedApiToken :=
  match sample_create e with Done (Ok c, _) => c | _ => Build_CreatedApiToken (Build_ApiTokenRecord 0 [] ScopeRead 0 None None None) [] end.
Definition sample_issued (e : option Z) : gmap rstr Issued :=
  issue_step (plat := sample_platform) (TokCreate (sample_request e) (replicate 32 171) 5) (Ok (TokCreated (sample_created e))) ∅.

Lemma sample_op_ok e : (∀ x, e = Some x → U64_ok x) → token_op_ok (TokCreate (sample_request e) (replicate 32 171) 5).
Proof. intros He. split; [split; vm_compute; discriminate|]. split; [exact He|]. intros s [= <-]. split; vm_compute; discriminate. Qed.
Lemma sample_creates : sample_create (Some 900) = Done (Ok (sample_created (Some 900)), sample_catalog (Some 900)).
Proof. vm_compute. reflexivity. Qed.
Lemma sample_creates_far : sample_create (Some U64_MAX) = Done (Ok (sample_created (Some U64_MAX)), sample_catalog (Some U64_MAX)).
Proof. vm_compute. reflexivity. Qed.
Lemma sample_token_history : token_history (plat := sample_platform) (sample_catalog (Some 900)) (sample_issued (Some 900)).
Proof.
  eapply (tokens_call ∅ _ ∅ _ 100); [constructor|apply sample_op_ok; intros x [= <-]; split; vm_compute; discriminate|split; vm_compute; discriminate|].
  unfold perform_token. cbv [mbind db_bind]. fold (sample_create (Some 900)). rewrite sample_creates. reflexivity.
Qed.

Lemma api_tokens_refine_issued_witness :
  ∃ rec t', authenticate_token (plat := sample_platform) (created_token (sample_created (Some 900))) 500 (sample_catalog (Some 900)) = Done (Ok (Some rec), t') ∧
    t_scope rec = ScopeWrite.
Proof.
  destruct (api_tokens_refine_issued (laws := sample_laws) (sample_catalog (Some 900)) (sample_issued (Some 900)) (created_token (sample_created (Some 900))) 500
              sample_token_history) as (found & t' & E & Hf & _); [split; vm_compute; discriminate|].
  assert (match authenticate_token (plat := sample_platform) (created_token (sample_created (Some 900))) 500 (sample_catalog (Some 900)) with
          | Done (Ok (Some rec), _) => bool_decide (t_scope rec = ScopeWrite) | _ => false end = true) as Ec by (vm_compute; reflexivity).
  rewrite E in Ec. destruct found as [rec|]; [|discriminate]. exists rec, t'. split; [exact E|]. by apply bool_decide_eq_true in Ec.
Defined.

Lemma distant_expiry_is_expired_witness :
  authenticate_token (plat := sample_platform) (created_token (sample_created (Some U64_MAX))) 101 (sample_catalog (Some U64_MAX)) =
  Done (Ok None, sample_catalog (Some U64_MAX)).
Proof.
  apply (distant_expiry_is_expired (laws := sample_laws) ∅ _ ∅ (sample_request (Some U64_MAX)) 100 U64_MAX 5 (replicate 32 171)).
  - constructor.
  - split; vm_compute; discriminate.
  - apply sample_op_ok. intros x [= <-]. split; vm_compute; discriminate.
  - reflexivity.
  - vm_compute. reflexivity.
  - lia.
  - exact sample_creates_far.
Defined.
