(* ===== verification/Management.v ===== *)
(** * Authorisation of management requests ([main.rs])

    Who a request comes from ([management_principal]), the middleware that decides by path and
    method whether it may go on ([enforce_management_role]), and the checks of handlers. A
    header value is its text, [None] where it is not visible ASCII. Logging, audit records and the
    wording of responses are not modelled. *)

From S2P Require Import Prelude DbMonad RustStr RustText AdminAuth ApiTokens.
Local Open Scope Z_scope.
Set Default Proof Using "Type".

(** ** Requests *)

Inductive Method := GET | HEAD | OPTIONS | POST | PUT | DELETE | PATCH | OtherMethod.
Global Instance Method_eq_dec : EqDecision Method.
Proof. solve_decision. Defined.

(** Names in lower case, in the order received. *)
Abbreviation HeaderMap := (list (rstr * option rstr)).
Record Request := { method : Method; path : rstr; headers : HeaderMap }.

Definition get_all (name : rstr) (h : HeaderMap) : list (option rstr) := snd <$> filter (λ x : rstr * option rstr, x.1 = name) h.
Definition contains_key (name : rstr) (h : HeaderMap) : bool := negb (bool_decide (get_all name h = [])).
(** [headers.get(name)?.to_str().ok()?]. *)
Definition get_str (name : rstr) (h : HeaderMap) : option rstr := v ← head (get_all name h); v.

Definition AUTHORIZATION : rstr := lit "authorization".
Definition COOKIE : rstr := lit "cookie".
Definition UPDATE_CSRF_HEADER : rstr := lit "x-linklake-csrf".
Definition UPDATE_CSRF_VALUE : rstr := lit "1".

Definition bearer_token (h : HeaderMap) : option rstr := v ← get_str AUTHORIZATION h; strip_prefix (lit "Bearer ") v.

Definition session_item (item : rstr) : option rstr := strip_prefix (lit "linklake_session=") (trim item).
Fixpoint find_map {A B} (f : A → option B) (l : list A) : option B :=
  match l with [] => None | a :: l => match f a with Some b => Some b | None => find_map f l end end.
Definition management_session_cookie (h : HeaderMap) : option rstr :=
  v ← get_str COOKIE h; find_map session_item (split 59 v).

Definition strict_single_header_value (h : HeaderMap) (name : rstr) : result unit (option rstr) :=
  match get_all name h with
  | [] => Ok None
  | [Some value] => Ok (Some value)
  | _ => Err tt
  end.

(** The loops over the cookie headers and their items. *)
Fixpoint strict_items (session : option rstr) (items : list rstr) : result unit (option rstr) :=
  match items with
  | [] => Ok session
  | item :: items =>
      match session_item item with
      | None => strict_items session items
      | Some cookie =>
          if bool_decide (is_Some session) || bool_decide (cookie = []) then Err tt else strict_items (Some cookie) items
      end
  end.
Fixpoint strict_cookies (session : option rstr) (values : list (option rstr)) : result unit (option rstr) :=
  match values with
  | [] => Ok session
  | value :: values =>
      value ← ok_or value tt;
      session ← strict_items session (split 59 value);
      strict_cookies session values
  end.
Definition strict_management_session_cookie (h : HeaderMap) : result unit (option rstr) := strict_cookies None (get_all COOKIE h).

Definition str_starts_with (p s : rstr) : bool := bool_decide (is_Some (strip_prefix p s)).
Definition str_ends_with (p s : rstr) : bool := str_starts_with (rev p) (rev s).

(** ** Principals *)

Record ManagementPrincipal := {
  p_username : rstr;
  p_role : UserRole;
  p_session_id : option Z;
  p_source : option Z;
}.

(** The part of [AppState] that authorisation reads. *)
Record AppState := {
  management_token : option rstr;
  api_tokens : ApiTokenCatalog;
  admin_auth : AdminAuth;
}.

Inductive ApiError :=
  | TokenCheckFailed | SessionCheckFailed | LoginRequired | PasswordChangeRequired | InsufficientRole | CsrfCheckFailed
  | SessionAuthenticationRequired | AdministratorRequired | OperatorRequired | SourceBindingRequired | SourceBindingMismatch.
Abbreviation app := (db ApiError AppState).

Section authorisation.
Context {plat : Platform}.

Definition on_tokens {A} (m : tokens A) : app A := λ s,
  match m (api_tokens s) with
  | Done (r, t) => Done (map_err (λ _, TokenCheckFailed) r,
                         {| management_token := management_token s; api_tokens := t; admin_auth := admin_auth s |})
  | Panic => Panic
  end.
Definition on_auth {A} (m : auth A) : app A := λ s,
  match m (admin_auth s) with
  | Done (r, a) => Done (map_err (λ _, SessionCheckFailed) r,
                         {| management_token := management_token s; api_tokens := api_tokens s; admin_auth := a |})
  | Panic => Panic
  end.

Definition scope_role (scope : ApiTokenScope) : UserRole :=
  match scope with ScopeRead => Auditor | ScopeWrite => Operator | ScopeAdministrator => Administrator end.

(** [token_now] and [session_now] are the readings of the clock. *)
Definition management_principal (h : HeaderMap) (token_now session_now : Z) : app ManagementPrincipal :=
  configured ← db_get management_token;
  if match configured with Some token => bool_decide (bearer_token h = Some token) | None => false end then
    mret {| p_username := lit "management-token"; p_role := Administrator; p_session_id := None; p_source := None |}
  else
    record ← match bearer_token h with
             | Some token => on_tokens (authenticate_token token token_now)
             | None => mret None
             end;
    match record with
    | Some record =>
        mret {| p_username := lit "api-token:" ++ t_name record; p_role := scope_role (t_scope record);
                p_session_id := None; p_source := t_source record |}
    | None =>
        who ← match management_session_cookie h with
              | Some session => on_auth (authenticate_session session session_now)
              | None => mret None
              end;
        match who with
        | None => db_fail LoginRequired
        | Some who =>
            _ ← db_ensure (negb (id_password_change_required who)) PasswordChangeRequired;
            mret {| p_username := id_username who; p_role := id_role who; p_session_id := Some (id_session_id who); p_source := None |}
        end
    end.

Definition require_administrator (h : HeaderMap) (token_now session_now : Z) : app ManagementPrincipal :=
  principal ← management_principal h token_now session_now;
  _ ← db_ensure (bool_decide (p_role principal = Administrator)) AdministratorRequired;
  mret principal.
Definition require_operator (h : HeaderMap) (token_now session_now : Z) : app ManagementPrincipal :=
  principal ← management_principal h token_now session_now;
  _ ← db_ensure (bool_decide (p_role principal = Administrator) || bool_decide (p_role principal = Operator)) OperatorRequired;
  mret principal.
Definition require_interactive_session (h : HeaderMap) (token_now session_now : Z) : app ManagementPrincipal :=
  principal ← management_principal h token_now session_now;
  _ ← db_ensure (bool_decide (is_Some (p_session_id principal))) SessionAuthenticationRequired;
  mret principal.

Definition validate_fleet_source_binding (principal : ManagementPrincipal) (source_instance_id : Z) : result ApiError unit :=
  match p_source principal with
  | None => Err SourceBindingRequired
  | Some bound => if bound =? source_instance_id then Ok tt else Err SourceBindingMismatch
  end.
Definition require_fleet_source (h : HeaderMap) (source_instance_id token_now session_now : Z) : app ManagementPrincipal :=
  principal ← management_principal h token_now session_now;
  _ ← db_lift (validate_fleet_source_binding principal source_instance_id);
  mret principal.

Definition require_interactive_server_update_administrator (h : HeaderMap) (session_now : Z) : app ManagementPrincipal :=
  session ← db_lift (map_err (λ _, SessionAuthenticationRequired) (strict_management_session_cookie h));
  _ ← db_ensure (negb (contains_key AUTHORIZATION h)) SessionAuthenticationRequired;
  session ← db_lift (ok_or session SessionAuthenticationRequired);
  who ← on_auth (authenticate_session session session_now);
  match who with
  | None => db_fail SessionAuthenticationRequired
  | Some who =>
      _ ← db_ensure (negb (id_password_change_required who)) PasswordChangeRequired;
      _ ← db_ensure (bool_decide (id_role who = Administrator)) AdministratorRequired;
      mret {| p_username := id_username who; p_role := id_role who; p_session_id := Some (id_session_id who); p_source := None |}
  end.

(** ** The middleware *)

Definition non_nil_uuid (value : rstr) : bool := match uuid_parse value with Some id => negb (id =? 0) | None => false end.
Definition is_remote_update_worker_path (p : rstr) : bool :=
  match split ch_slash p with
  | [e; api; v1; clients; client_id; tasks; claim] =>
      bool_decide (e = [] ∧ api = lit "api" ∧ v1 = lit "v1" ∧ clients = lit "clients" ∧ tasks = lit "update-tasks" ∧ claim = lit "claim") &&
      non_nil_uuid client_id
  | [e; api; v1; clients; client_id; tasks; task_id; operation] =>
      bool_decide (e = [] ∧ api = lit "api" ∧ v1 = lit "v1" ∧ clients = lit "clients" ∧ tasks = lit "update-tasks") &&
      bool_decide (operation ∈ [lit "renew"; lit "reconcile"; lit "report"]) && non_nil_uuid client_id && non_nil_uuid task_id
  | _ => false
  end.

Definition public_paths : list rstr :=
  [lit "/"; lit "/api/v1/health"; lit "/livez"; lit "/readyz"; lit "/leaderz"; lit "/startupz"; lit "/api/v1/health/live";
   lit "/api/v1/health/ready"; lit "/api/v1/health/startup"; lit "/api/v1/auth/login"; lit "/api/v1/auth/me";
   lit "/api/v1/auth/logout"; lit "/api/v1/auth/change-password"; lit "/api/v1/clients/enroll"].
Definition is_public (p : rstr) : bool :=
  bool_decide (p ∈ public_paths) || (str_starts_with (lit "/api/v1/clients/") p && str_ends_with (lit "/heartbeat") p) ||
  is_remote_update_worker_path p.
Definition is_server_update (p : rstr) : bool :=
  bool_decide (p ∈ [lit "/api/v1/updates/server"; lit "/api/v1/updates/server/check"; lit "/api/v1/updates/server/download";
                    lit "/api/v1/updates/server/apply"]).
Definition users_or_sessions (p : rstr) : bool :=
  bool_decide (p = lit "/api/v1/users") || str_starts_with (lit "/api/v1/users/") p ||
  bool_decide (p = lit "/api/v1/sessions") || str_starts_with (lit "/api/v1/sessions/") p.
Definition is_write (m : Method) : bool := negb (bool_decide (m ∈ [GET; HEAD; OPTIONS])).

(** [Ok tt] is [next.run(request)]. *)
Definition enforce_management_role (r : Request) (token_now session_now : Z) : app unit :=
  let h := headers r in
  if is_public (path r) || negb (str_starts_with (lit "/api/v1/") (path r)) then mret tt
  else
    _ ← (if is_server_update (path r)
         then _ ← require_interactive_server_update_administrator h session_now; mret tt else mret tt);
    _ ← db_ensure (negb (is_write (method r) && bool_decide (is_Some (management_session_cookie h)) &&
                         bool_decide (bearer_token h = None) &&
                         negb (bool_decide (strict_single_header_value h UPDATE_CSRF_HEADER = Ok (Some UPDATE_CSRF_VALUE)))))
          CsrfCheckFailed;
    if negb (is_server_update (path r)) && (users_or_sessions (path r) || is_write (method r)) then
      principal ← management_principal h token_now session_now;
      db_ensure (bool_decide (p_role principal = Administrator) ||
                 (negb (users_or_sessions (path r)) && bool_decide (p_role principal = Operator))) InsufficientRole
    else mret tt.
End authorisation.

(** ** What is let through *)

Section theorems.
Context {plat : Platform} {laws : PlatformLaws}.

Definition carries_cookie (h : HeaderMap) (cookie : rstr) : Prop :=
  management_session_cookie h = Some cookie ∨ strict_management_session_cookie h = Ok (Some cookie).

(** The role a request has by a bearer header: the configured token, or an API token that was issued and is good. *)
Inductive token_authority (s : AppState) (issued : gmap rstr Issued) (h : HeaderMap) (now : Z) : UserRole → Prop :=
  | by_management_token (token : rstr) :
      management_token s = Some token → bearer_token h = Some token → token_authority s issued h now Administrator
  | by_api_token (token : rstr) (i : Issued) :
      bearer_token h = Some token → good_token issued token now i → token_authority s issued h now (scope_role (i_scope i)).
(** The role by a cookie with a grant of a user who need not change the password first. *)
Inductive session_authority (s : AppState) (grants : gmap rstr Grant) (h : HeaderMap) (now : Z) : UserRole → Prop :=
  | by_session (cookie : rstr) (g : Grant) (a : AdministratorRow) :
      carries_cookie h cookie → proven_grant grants cookie now = Some g →
      administrators (admin_auth s) !! g_user g = Some a → must_change_password a = 0 →
      session_authority s grants h now (g_role g).

Lemma ensures_on_tokens {A} (m : tokens A) s (Q : result ApiError A → AppState → Prop) :
  ensures m (api_tokens s) (λ r t, Q (map_err (λ _, TokenCheckFailed) r)
    {| management_token := management_token s; api_tokens := t; admin_auth := admin_auth s |}) → ensures (on_tokens m) s Q.
Proof using Type. unfold ensures, on_tokens. by destruct (m (api_tokens s)) as [[r t]|]. Qed.
Lemma ensures_on_auth {A} (m : auth A) s (Q : result ApiError A → AppState → Prop) :
  ensures m (admin_auth s) (λ r a, Q (map_err (λ _, SessionCheckFailed) r)
    {| management_token := management_token s; api_tokens := api_tokens s; admin_auth := a |}) → ensures (on_auth m) s Q.
Proof using Type. unfold ensures, on_auth. by destruct (m (admin_auth s)) as [[r t]|]. Qed.

Lemma app_state_eta (s : AppState) : {| management_token := management_token s; api_tokens := api_tokens s; admin_auth := admin_auth s |} = s.
Proof using Type. by destruct s. Qed.
Lemma no_header_no_bearer h : contains_key AUTHORIZATION h = false → bearer_token h = None.
Proof using Type.
  intros H%negb_false_iff%bool_decide_eq_true. unfold bearer_token, get_str. by rewrite H.
Qed.

Section request.
Context (s : AppState) (grants : gmap rstr Grant) (issued : gmap rstr Issued) (latest token_now session_now : Z).
Hypothesis Hauth : auth_ok (admin_auth s) grants latest.
Hypothesis Htokens : tokens_ok (api_tokens s) issued.
Hypothesis Hnow : 0 ≤ session_now ≤ CLOCK_MAX.

(** Neither kind of check changes accounts. *)
Definition same_accounts (s' : AppState) : Prop := management_token s' = management_token s ∧ admin_auth s' = admin_auth s.

Abbreviation by_token h := (token_authority s issued h token_now).
Abbreviation by_cookie h := (session_authority s grants h session_now).

Lemma session_granted h cookie s0 :
  same_accounts s0 → carries_cookie h cookie →
  ensures (on_auth (authenticate_session cookie session_now)) s0 (λ out s',
    same_accounts s' ∧
    match out with
    | Ok (Some who) => id_password_change_required who = false → by_cookie h (id_role who)
    | Ok None => True
    | Err _ => False
    end).
Proof using Hauth Hnow laws.
  intros [Hm Ha] Hc. apply ensures_on_auth. rewrite Ha.
  eapply ensures_mono; [by apply (ensures_authenticate (admin_auth s) grants latest cookie session_now)|]. cbv beta.
  intros [[who|]|e] a [-> Hout]; [..|done]; (split; [by split|]); [|done]. cbn. intros Hpw.
  destruct Hout as (g & row & Hg & Hrow & (_ & _ & -> & _ & _ & Hchange & _)).
  rewrite Hpw in Hchange. symmetry in Hchange. apply negb_false_iff, Z.eqb_eq in Hchange. by eapply by_session.
Qed.

(** A bearer header that is a credential decides; the cookie is asked only without one. *)
Definition granted (h : HeaderMap) (role : UserRole) : Prop :=
  by_token h role ∨ by_cookie h role ∧ is_Some (management_session_cookie h) ∧ ∀ role', ¬ by_token h role'.
Lemma principal_authority h :
  ensures (management_principal h token_now session_now) s (λ out s',
    same_accounts s' ∧ ∀ principal, out = Ok principal → granted h (p_role principal)).
Proof using Hauth Htokens Hnow laws.
  unfold management_principal. do 2 db_step. assert (same_accounts s) as Hs by by split.
  destruct (match management_token s with Some token => _ | None => _ end) eqn:Em.
  { db_step. split; [done|]. intros p [= <-]. left. destruct (management_token s) as [token|] eqn:Et; [|done].
    apply bool_decide_eq_true in Em. by eapply by_management_token. }
  assert (∀ token, management_token s = Some token → bearer_token h ≠ Some token) as Hm.
  { intros token Et. rewrite Et in Em. by apply bool_decide_eq_false in Em. }
  db_step.
  assert (∀ s0, same_accounts s0 → (∀ role, ¬ by_token h role) → ensures (who ← match management_session_cookie h with
                | Some session => on_auth (authenticate_session session session_now) | None => mret None end;
              match who with
              | None => db_fail LoginRequired
              | Some who => _ ← db_ensure (negb (id_password_change_required who)) PasswordChangeRequired;
                  mret {| p_username := id_username who; p_role := id_role who; p_session_id := Some (id_session_id who); p_source := None |}
              end) s0 (λ out s', same_accounts s' ∧ ∀ principal, out = Ok principal → granted h (p_role principal))) as Hsession.
  { intros s0 Hs0 Hno. db_step. destruct (management_session_cookie h) as [cookie|] eqn:Ec; [|by repeat db_step].
    eapply ensures_mono; [apply (session_granted h cookie s0 Hs0); by left|]. cbv beta.
    intros [[who|]|e] s1 [Hs1 Hout]; [..|done]; [|by db_step]. db_step. db_step; [|by split]. db_step. split; [done|].
    intros p [= <-]. right. split; [|by rewrite Ec]. apply Hout. by apply negb_true_iff. }
  destruct (bearer_token h) as [token|] eqn:Eb.
  2: { db_step. apply Hsession; [done|]. intros role [? ? ?|? ? ? ?]; congruence. }
  apply ensures_on_tokens. eapply ensures_mono; [by apply (authenticate_token_ok (api_tokens s) issued token token_now)|]. cbv beta.
  intros [[rec|]|e] t [_ Hout]; [..|done]; cbn [map_err].
  - db_step. split; [by split|]. intros p [= <-]. destruct Hout as (i & Hg & _ & _ & Hsc & _). cbn. rewrite Hsc. left. by eapply by_api_token.
  - apply Hsession; [by split|]. destruct Hout as [_ Hno]. intros role [token' Et Eb'|token' i Eb' Hi]; rewrite Eb in Eb'; injection Eb' as <-; [by apply (Hm token)|by eapply Hno].
Qed.

Lemma update_authority h :
  ensures (require_interactive_server_update_administrator h session_now) s (λ out s',
    same_accounts s' ∧ ∀ principal, out = Ok principal → by_cookie h Administrator ∧ contains_key AUTHORIZATION h = false).
Proof using Hauth Hnow laws.
  unfold require_interactive_server_update_administrator. assert (same_accounts s) as Hs by by split.
  do 2 db_step. destruct (strict_management_session_cookie h) as [session|[]] eqn:Es; cbn [map_err]; [|by split].
  db_step. db_step; [|by split]. do 2 db_step. destruct session as [cookie|]; cbn [ok_or]; [|by split]. db_step.
  eapply ensures_mono; [apply (session_granted h cookie s Hs); by right|]. cbv beta.
  intros [[who|]|e] s1 [Hs1 Hout]; [..|done]; [|by db_step]. db_step. db_step; [|by split]. db_step. db_step; [|by split]. db_step.
  split; [done|]. intros p _. split; [|by apply negb_true_iff].
  match goal with H : bool_decide (id_role who = Administrator) = true |- _ => apply bool_decide_eq_true in H; rewrite <- H end.
  apply Hout. by apply negb_true_iff.
Qed.

(** A bearer header that is no credential leaves the decision to the cookie. *)
Lemma session_accepted h cookie token who :
  management_session_cookie h = Some cookie → bearer_token h = Some token → (∀ role, ¬ by_token h role) →
  authenticate_session cookie session_now (admin_auth s) = Done (Ok (Some who), admin_auth s) → id_password_change_required who = false →
  management_principal h token_now session_now s =
    Done (Ok {| p_username := id_username who; p_role := id_role who; p_session_id := Some (id_session_id who); p_source := None |}, s).
Proof using Htokens laws.
  intros Hc Hb Hno Ha Hpw. unfold management_principal. cbv [mbind db_bind db_get].
  replace (match management_token s with Some token' => bool_decide (bearer_token h = Some token') | None => false end) with false.
  2: { destruct (management_token s) as [t|] eqn:Et; [|done]. symmetry. apply bool_decide_eq_false. intros E. destruct (Hno Administrator). by eapply by_management_token. }
  rewrite Hb, Hc. unfold on_tokens. pose proof (authenticate_token_ok (api_tokens s) issued token token_now Htokens) as Ht.
  unfold ensures in Ht. destruct (authenticate_token token token_now (api_tokens s)) as [[[[rec|]|e] t]|]; [..|done]; destruct Ht as [_ Ht]; [|..|done].
  - destruct Ht as (i & Hi & _). destruct (Hno (scope_role (i_scope i))). by eapply by_api_token.
  - destruct Ht as [-> _]. cbn [map_err]. rewrite app_state_eta. unfold on_auth. rewrite Ha. cbn [map_err]. rewrite app_state_eta, Hpw. done.
Qed.
End request.

Definition csrf_header (h : HeaderMap) : Prop := strict_single_header_value h UPDATE_CSRF_HEADER = Ok (Some UPDATE_CSRF_VALUE).
(** A role that may make a request to this path. *)
Definition may (r : Request) (role : UserRole) : Prop := role = Administrator ∨ users_or_sessions (path r) = false ∧ role = Operator.
(** What may pass on a protected path. *)
Definition allowed (s : AppState) (grants : gmap rstr Grant) (issued : gmap rstr Issued) (r : Request) (token_now session_now : Z) : Prop :=
  (is_server_update (path r) = true →
     session_authority s grants (headers r) session_now Administrator ∧ contains_key AUTHORIZATION (headers r) = false ∧
     (is_write (method r) = true → is_Some (management_session_cookie (headers r)) → csrf_header (headers r))) ∧
  (is_server_update (path r) = false → users_or_sessions (path r) || is_write (method r) = true →
     ∃ role, may r role ∧
       (token_authority s issued (headers r) token_now role ∨
        session_authority s grants (headers r) session_now role ∧
          (is_write (method r) = true → csrf_header (headers r) ∨
             is_Some (bearer_token (headers r)) ∧ ∀ role', ¬ token_authority s issued (headers r) token_now role'))).

(** The check of the CSRF header. *)
Lemma csrf_checked (r : Request) :
  negb (is_write (method r) && bool_decide (is_Some (management_session_cookie (headers r))) && bool_decide (bearer_token (headers r) = None) &&
        negb (bool_decide (strict_single_header_value (headers r) UPDATE_CSRF_HEADER = Ok (Some UPDATE_CSRF_VALUE)))) = true →
  is_write (method r) = true → is_Some (management_session_cookie (headers r)) → csrf_header (headers r) ∨ is_Some (bearer_token (headers r)).
Proof using Type.
  intros H Hw Hck. destruct (bearer_token (headers r)) as [t|]; [by right; exists t|]. left.
  rewrite Hw, (bool_decide_eq_true_2 _ Hck), (bool_decide_eq_true_2 (None = None)) in H by done. cbn in H.
  by apply negb_true_iff, negb_false_iff, bool_decide_eq_true in H.
Qed.
Section middleware.
Context (s : AppState) (grants : gmap rstr Grant) (issued : gmap rstr Issued) (latest token_now session_now : Z).
Hypothesis Hauth : auth_ok (admin_auth s) grants latest.
Hypothesis Htokens : tokens_ok (api_tokens s) issued.
Hypothesis Hnow : 0 ≤ session_now ≤ CLOCK_MAX.

Abbreviation passes r := (allowed s grants issued r token_now session_now).
Lemma role_checked r : is_server_update (path r) = false →
  (is_write (method r) = true → is_Some (management_session_cookie (headers r)) → csrf_header (headers r) ∨ is_Some (bearer_token (headers r))) →
  ensures (if users_or_sessions (path r) || is_write (method r) then
             principal ← management_principal (headers r) token_now session_now;
             db_ensure (bool_decide (p_role principal = Administrator) ||
                        (negb (users_or_sessions (path r)) && bool_decide (p_role principal = Operator))) InsufficientRole
           else mret tt) s (λ out s', same_accounts s s' ∧ (out = Ok tt → passes r)).
Proof using Hauth Htokens Hnow laws.
  intros Eu Hc. destruct (users_or_sessions (path r) || is_write (method r)) eqn:Ew.
  2: { db_step. split; [by split|]. intros _. split; [by rewrite Eu|]. by rewrite Ew. }
  db_step. eapply ensures_mono; [by apply (principal_authority s grants issued latest)|]. cbv beta.
  intros [p|e] s1 [Hs1 Hp]; [|by split]. specialize (Hp p eq_refl). db_step; [|by split]. split; [done|]. intros _.
  split; [by rewrite Eu|]. intros _ _. exists (p_role p). split.
  - apply orb_true_iff in H as [H%bool_decide_eq_true|[H1%negb_true_iff H2%bool_decide_eq_true]%andb_true_iff]; [by left|by right].
  - destruct Hp as [Hp|(Hp & Hck & Hno)]; [by left|]. right. split; [done|]. intros Hw. destruct (Hc Hw Hck) as [?|?]; [by left|by right].
Qed.
End middleware.

End theorems.

(** ** Witness *)

Definition sample_app : AppState :=
  {| management_token := Some (lit "secret"); api_tokens := sample_catalog (Some 900); admin_auth := sample_session |}.
Definition sample_request : Request :=
  {| method := POST; path := lit "/api/v1/tcp-tunnels";
     headers := [(COOKIE, Some (lit "theme=dark; linklake_session=7.89")); (UPDATE_CSRF_HEADER, Some (lit "1"))] |}.

(** Neither a CSRF header nor a bearer token that anyone issued. *)
Definition bare_request : Request :=
  {| method := POST; path := lit "/api/v1/tcp-tunnels";
     headers := [(COOKIE, Some (lit "linklake_session=7.89")); (AUTHORIZATION, Some (lit "Bearer x"))] |}.
Abbreviation sample_enforce r := (enforce_management_role (plat := sample_platform) r 500 5000 sample_app).
Lemma bare_no_token role : ¬ token_authority (plat := sample_platform) sample_app (sample_issued (Some 900)) (headers bare_request) 500 role.
Proof.
  intros [token E1 E2|token i E (Hp & _)].
  - vm_compute in E1, E2. congruence.
  - assert (bearer_token (headers bare_request) = Some (lit "x")) as E' by (vm_compute; reflexivity). rewrite E' in E. injection E as <-. by vm_compute in Hp.
Qed.

