(* ===== verification/LoginThrottle.v ===== *)
(** * Throttling of logins ([main.rs])

    Failed logins make the next ones wait: for the same name longer and longer, for every
    name a little. Logins are handled one at a time, since there is one permit for the
    password hash. Times are milliseconds of a monotonic clock. Which of several entries that expire at the same
    time is dropped from a full table is up to the hash map: a parameter. *)

From S2P Require Import Prelude DbMonad RustStr RustText AdminAuth.
Local Open Scope Z_scope.
Set Default Proof Using "Type".

Definition LOGIN_FAILURE_BASE_DELAY_MILLIS : Z := 250.
Definition LOGIN_FAILURE_MAX_DELAY_SECONDS : Z := 30.
Definition LOGIN_THROTTLE_MAX_IDENTITIES : Z := 1024.

Record LoginThrottleEntry := { failures : Z; next_allowed : Z }.
Record LoginThrottle := { identities : gmap rstr LoginThrottleEntry; global_next_allowed : option Z }.
Definition throttle_default : LoginThrottle := {| identities := ∅; global_next_allowed := None |}.

Definition OVERFLOW : rstr := lit "__overflow__".

(** [deadline.checked_duration_since(now).unwrap_or_default()]. *)
Definition remaining (deadline : option Z) (now : Z) : Z :=
  match deadline with Some deadline => saturating_sub deadline now | None => 0 end.
Definition delay (self : LoginThrottle) (identity : rstr) (now : Z) : Z :=
  Z.max (remaining (global_next_allowed self) now) (remaining (next_allowed <$> identities self !! identity) now).

(** The delay after so many failures. *)
Definition backoff (n : Z) : Z :=
  Z.min (Z.min U64_MAX (LOGIN_FAILURE_BASE_DELAY_MILLIS * Z.shiftl 1 (Z.min (saturating_sub n 1) 16)))
    (LOGIN_FAILURE_MAX_DELAY_SECONDS * 1000).

Section throttle.
(** [identities.iter().min_by_key(next_allowed)]. *)
Context (expiring_first : gmap rstr LoginThrottleEntry → option rstr).

Definition absent (identity : rstr) (m : gmap rstr LoginThrottleEntry) : bool := bool_decide (m !! identity = None).
Definition full (m : gmap rstr LoginThrottleEntry) : bool := LOGIN_THROTTLE_MAX_IDENTITIES <=? map_len m.

Definition record_failure (self : LoginThrottle) (identity : rstr) (now : Z) : Z * LoginThrottle :=
  let m := identities self in
  let m := if absent identity m && full m then filter (λ '(_, e), now < next_allowed e) m else m in
  let overflow := absent identity m && full m in
  let m := if overflow && absent OVERFLOW m
           then match expiring_first m with Some k => delete k m | None => m end else m in
  let identity := if overflow then OVERFLOW else identity in
  let n := saturating_add U32_MAX (match m !! identity with Some e => failures e | None => 0 end) 1 in
  let d := backoff n in
  let global_deadline := now + LOGIN_FAILURE_BASE_DELAY_MILLIS in
  (d, {| identities := <[identity := {| failures := n; next_allowed := now + d |}]> m;
         global_next_allowed := Some (match global_next_allowed self with
                                      | Some current => Z.max current global_deadline
                                      | None => global_deadline
                                      end) |}).

Definition record_success (self : LoginThrottle) (identity : rstr) : LoginThrottle :=
  {| identities := delete identity (identities self); global_next_allowed := global_next_allowed self |}.

Definition login_throttle_identity (username : rstr) : rstr :=
  if (3 <=? str_len username) && (str_len username <=? 64) && all name_byte (as_bytes username)
  then to_ascii_lowercase username else lit "__invalid__".

(** ** The login handler *)

Context {plat : Platform}.

(** The times of one call: when it gets the permit, when it has slept, when it is told that the
    credentials are wrong. *)
Record LoginTimes := { permit_at : Z; checked_at : Z; failed_at : Z }.

(** [login]: the password is checked after the delay; the outcome goes to the throttle. *)
Definition login (username password : rstr) (totp remote agent : option rstr) (session_id secret1 secret2 : Z) (clock : nat → Z)
    (times : LoginTimes) (throttle : LoginThrottle) (a : AdminAuth) : exec (result AuthError LoginAttempt * (LoginThrottle * AdminAuth)) :=
  let identity := login_throttle_identity username in
  match login_with_context username password totp remote agent session_id secret1 secret2 clock a with
  | Panic => Panic
  | Done (out, a) =>
      Done (out, (match out with
                  | Ok (Success _) => record_success throttle identity
                  | Ok InvalidCredentials => (record_failure throttle identity (failed_at times)).2
                  | _ => throttle
                  end, a))
  end.
(** The times the handler and the sleep allow. *)
Definition times_ok (times : LoginTimes) (throttle : LoginThrottle) (username : rstr) : Prop :=
  permit_at times + delay throttle (login_throttle_identity username) (permit_at times) ≤ checked_at times ≤ failed_at times.

(** Calls one after the other, each with its name, its times and whether the credentials were
    found wrong. *)
Record LoginCheck := { c_username : rstr; c_times : LoginTimes; c_wrong : bool }.

(** From the throttle [t0]; whatever else happens to the accounts between two logins. *)
Inductive login_run (t0 : LoginThrottle) : LoginThrottle → list LoginCheck → Prop :=
  | run_start : login_run t0 t0 []
  | run_login (t t' : LoginThrottle) (a a' : AdminAuth) (done : list LoginCheck) (username password : rstr)
      (totp remote agent : option rstr) (session_id secret1 secret2 : Z) (clock : nat → Z) (times : LoginTimes) (out : result AuthError LoginAttempt) :
      login_run t0 t done →
      (∀ c, last done = Some c → failed_at (c_times c) ≤ permit_at times) →
      times_ok times t username →
      login username password totp remote agent session_id secret1 secret2 clock times t a = Done (out, (t', a')) →
      login_run t0 t' (done ++ [{| c_username := username; c_times := times;
                                   c_wrong := match out with Ok InvalidCredentials => true | _ => false end |}]).
End throttle.

(** ** Facts *)

Lemma backoff_base n : 1 ≤ n → LOGIN_FAILURE_BASE_DELAY_MILLIS ≤ backoff n.
Proof.
  intros Hn. unfold backoff, LOGIN_FAILURE_BASE_DELAY_MILLIS, LOGIN_FAILURE_MAX_DELAY_SECONDS. rewrite Z.shiftl_1_l.
  assert (1 ≤ 2 ^ Z.min (saturating_sub n 1) 16) by (apply (Z.pow_le_mono_r 2 0); [lia|unfold saturating_sub; lia]). lia.
Qed.
Lemma backoff_mono n m : n ≤ m → backoff n ≤ backoff m.
Proof.
  intros Hnm. unfold backoff, LOGIN_FAILURE_BASE_DELAY_MILLIS. rewrite !Z.shiftl_1_l.
  assert (2 ^ Z.min (saturating_sub n 1) 16 ≤ 2 ^ Z.min (saturating_sub m 1) 16)
    by (apply Z.pow_le_mono_r; [lia|unfold saturating_sub; lia]). lia.
Qed.
(** Doubling from 250 ms, at most 30 s. *)
Lemma backoff_doubles n : 1 ≤ n → backoff n = Z.min (250 * 2 ^ Z.min (n - 1) 16) 30000.
Proof.
  intros Hn. unfold backoff, LOGIN_FAILURE_BASE_DELAY_MILLIS, LOGIN_FAILURE_MAX_DELAY_SECONDS. rewrite Z.shiftl_1_l.
  rewrite saturating_sub_small by lia. assert (2 ^ Z.min (n - 1) 16 ≤ 2 ^ 16) by (apply Z.pow_le_mono_r; lia). lia.
Qed.

Section facts.
Context (expiring_first : gmap rstr LoginThrottleEntry → option rstr).
(** The hash map finds an entry whose deadline is least, if it has any. *)
Hypothesis expiring_first_least : ∀ m,
  match expiring_first m with
  | Some k => ∃ e, m !! k = Some e ∧ map_Forall (λ _ e', next_allowed e ≤ next_allowed e') m
  | None => m = ∅
  end.
Context {plat : Platform}.

Lemma remaining_sound d now : match d with Some deadline => deadline ≤ now + remaining d now | None => True end ∧ 0 ≤ remaining d now.
Proof using Type. unfold remaining, saturating_sub. destruct d; lia. Qed.

(** A check waits for both deadlines. *)
Lemma check_waits times t username : times_ok times t username →
  (∀ g, global_next_allowed t = Some g → g ≤ checked_at times) ∧
  (∀ e, identities t !! login_throttle_identity username = Some e → next_allowed e ≤ checked_at times) ∧
  permit_at times ≤ checked_at times ≤ failed_at times.
Proof using Type.
  unfold times_ok, delay. set (id := login_throttle_identity username). intros [H1 H2].
  destruct (remaining_sound (global_next_allowed t) (permit_at times)) as [Hg Hg0].
  destruct (remaining_sound (next_allowed <$> identities t !! id) (permit_at times)) as [Hi Hi0].
  split_and!; try lia.
  - intros g E. rewrite E in *. lia.
  - intros e E. rewrite E in *. cbn in *. lia.
Qed.

Lemma record_failure_global t id now :
  ∃ g, global_next_allowed (record_failure expiring_first t id now).2 = Some g ∧ now + LOGIN_FAILURE_BASE_DELAY_MILLIS ≤ g ∧
    (∀ g0, global_next_allowed t = Some g0 → g0 ≤ g).
Proof using Type.
  unfold record_failure. cbn [snd global_next_allowed]. eexists. split; [reflexivity|].
  destruct (global_next_allowed t) as [g0|]; split; try lia; intros ? [= <-]; lia.
Qed.

Definition bounded (t : LoginThrottle) : Prop := map_len (identities t) ≤ LOGIN_THROTTLE_MAX_IDENTITIES.

Lemma map_len_insert_le {A} (m : gmap rstr A) k a : map_len (<[k := a]> m) ≤ map_len m + 1.
Proof using Type.
  unfold map_len. destruct (m !! k) eqn:E; [rewrite map_size_insert_Some by eauto; lia|rewrite map_size_insert_None by done; lia].
Qed.
Lemma map_len_insert_present {A} (m : gmap rstr A) k a : m !! k ≠ None → map_len (<[k := a]> m) = map_len m.
Proof using Type. intros Hk. unfold map_len. rewrite map_size_insert_Some; [done|]. by apply not_eq_None_Some. Qed.

Lemma record_failure_bounded t id now : bounded t → bounded (record_failure expiring_first t id now).2.
Proof using expiring_first_least.
  unfold bounded, record_failure. cbn [snd identities]. intros Hb.
  set (m := if absent id (identities t) && full (identities t) then _ else _).
  assert (map_len m ≤ LOGIN_THROTTLE_MAX_IDENTITIES) as Hm.
  { unfold m. case_match; [|done]. etrans; [|exact Hb]. unfold map_len. apply inj_le, map_subseteq_size, map_filter_subseteq. }
  clearbody m. destruct (absent id m && full m) eqn:Eo; cbn [andb].
  - destruct (absent OVERFLOW m) eqn:Ea; cbn [andb].
    + apply andb_true_iff in Eo as [_ Efull]. unfold full in Efull. apply Z.leb_le in Efull.
      pose proof (expiring_first_least m) as Hl. destruct (expiring_first m) as [k|].
      * destruct Hl as (e & He & _). etrans; [apply map_len_insert_le|]. rewrite (map_len_delete_sub m k e He). lia.
      * subst m. unfold map_len in Efull. rewrite map_size_empty in Efull. unfold LOGIN_THROTTLE_MAX_IDENTITIES in Efull. lia.
    + unfold absent in Ea. apply bool_decide_eq_false in Ea. by rewrite map_len_insert_present.
  - apply andb_false_iff in Eo as [Ea|Ef].
    + unfold absent in Ea. apply bool_decide_eq_false in Ea. by rewrite map_len_insert_present.
    + unfold full in Ef. apply Z.leb_gt in Ef. etrans; [apply map_len_insert_le|]. lia.
Qed.

(** A failure of a name that is in the table, or that the table has room for. *)
Definition roomy (t : LoginThrottle) (id : rstr) : Prop := identities t !! id ≠ None ∨ map_len (identities t) < LOGIN_THROTTLE_MAX_IDENTITIES.
Definition failures_of (t : LoginThrottle) (id : rstr) : Z := match identities t !! id with Some e => failures e | None => 0 end.

Lemma record_failure_entry t id now : roomy t id →
  identities (record_failure expiring_first t id now).2 !! id =
  Some {| failures := saturating_add U32_MAX (failures_of t id) 1; next_allowed := now + backoff (saturating_add U32_MAX (failures_of t id) 1) |}.
Proof using Type.
  intros Hr. unfold record_failure. cbn [snd identities].
  assert (absent id (identities t) && full (identities t) = false) as ->.
  { destruct Hr as [Hr|Hr]; [unfold absent; by rewrite bool_decide_eq_false_2|].
    unfold full. rewrite (proj2 (Z.leb_gt _ _)) by done. apply andb_false_r. }
  cbv zeta. assert (absent id (identities t) && full (identities t) = false) as ->.
  { destruct Hr as [Hr|Hr]; [unfold absent; by rewrite bool_decide_eq_false_2|].
    unfold full. rewrite (proj2 (Z.leb_gt _ _)) by done. apply andb_false_r. }
  cbn [andb]. rewrite lookup_insert_eq. done.
Qed.

(** ** Runs *)

Definition wrong_times (checks : list LoginCheck) : list Z := (λ c, failed_at (c_times c)) <$> filter (λ c, c_wrong c = true) checks.
Definition paced (x y : Z) : Prop := x + LOGIN_FAILURE_BASE_DELAY_MILLIS ≤ y.

Record run_ok (t : LoginThrottle) (done : list LoginCheck) : Prop := {
  run_bounded : bounded t;
  run_paced : StronglySorted paced (wrong_times done);
  run_global : Forall (λ x, ∃ g, global_next_allowed t = Some g ∧ x + LOGIN_FAILURE_BASE_DELAY_MILLIS ≤ g) (wrong_times done);
}.

Lemma login_outcome u p totp ra ua i s1 s2 clock times t a out t' a' :
  login expiring_first u p totp ra ua i s1 s2 clock times t a = Done (out, (t', a')) →
  t' = match out with
       | Ok (Success _) => record_success t (login_throttle_identity u)
       | Ok InvalidCredentials => (record_failure expiring_first t (login_throttle_identity u) (failed_at times)).2
       | _ => t
       end.
Proof using Type. unfold login. destruct (login_with_context _ _ _ _ _ _ _ _ _ _) as [[o a0]|]; [|done]. by intros [= <- <- <-]. Qed.

Lemma wrong_times_snoc done c :
  wrong_times (done ++ [c]) = wrong_times done ++ (if c_wrong c then [failed_at (c_times c)] else []).
Proof using Type. unfold wrong_times. rewrite filter_app, fmap_app. f_equal. rewrite filter_cons. by destruct (c_wrong c). Qed.

Lemma run_step t done u p totp ra ua i s1 s2 clock times a out t' a' :
  run_ok t done → times_ok times t u → login expiring_first u p totp ra ua i s1 s2 clock times t a = Done (out, (t', a')) →
  run_ok t' (done ++ [{| c_username := u; c_times := times; c_wrong := match out with Ok InvalidCredentials => true | _ => false end |}]).
Proof using expiring_first_least.
  intros [Hb Hp Hg] Ht E. apply login_outcome in E. destruct (check_waits _ _ _ Ht) as (Hwg & _ & Hw).
  set (id := login_throttle_identity u) in *.
  assert (∀ t1, global_next_allowed t1 = global_next_allowed t → bounded t1 → run_ok t1 (done ++
    [{| c_username := u; c_times := times; c_wrong := false |}])) as Hsame.
  { intros t1 Hg1 Hb1. split; [done|..]; rewrite wrong_times_snoc; cbn [c_wrong]; rewrite app_nil_r; [done|]. by rewrite Hg1. }
  destruct out as [[ns| |]|e]; subst t'; [apply Hsame|..|by apply Hsame|by apply Hsame].
  - done.
  - unfold bounded, record_success in *. cbn. etrans; [|exact Hb]. unfold map_len. apply inj_le, map_subseteq_size, delete_subseteq.
  - destruct (record_failure_global t id (failed_at times)) as (g & Eg & Hnew & Hold).
    split; [by apply record_failure_bounded|..]; rewrite wrong_times_snoc; cbn [c_wrong c_times].
    + apply StronglySorted_snoc; [done|]. eapply Forall_impl; [exact Hg|]. cbv beta. intros x (g0 & Eg0 & Hx). unfold paced.
      specialize (Hwg g0 Eg0). lia.
    + apply Forall_app. split; [|repeat constructor; eauto]. eapply Forall_impl; [exact Hg|]. cbv beta. intros x (g0 & Eg0 & Hx).
      exists g. split; [done|]. specialize (Hold g0 Eg0). lia.
Qed.

Lemma login_run_ok t done : login_run expiring_first throttle_default t done → run_ok t done.
Proof using expiring_first_least.
  induction 1 as [|t t' a a' done u p totp ra ua i s1 s2 clock times out _ IH _ Ht E].
  - split; [by vm_compute|constructor|constructor].
  - by eapply run_step.
Qed.

Lemma paced_filter (P : Z → Prop) `{!∀ x, Decision (P x)} l : StronglySorted paced l → StronglySorted paced (filter P l).
Proof using Type.
  induction 1 as [|x l _ IH Hx]; [constructor|]. rewrite filter_cons. destruct (decide (P x)); [|done].
  constructor; [done|]. by apply Forall_filter_sub.
Qed.
Lemma paced_reach l a : StronglySorted paced l → Forall (λ x, a ≤ x) l → l ≠ [] → ∃ y, y ∈ l ∧ a + LOGIN_FAILURE_BASE_DELAY_MILLIS * (len l - 1) ≤ y.
Proof using Type.
  intros H. revert a. induction H as [|x l _ IH Hx]; intros a Ha Hne; [done|]. apply Forall_cons in Ha as [Ha Hl].
  destruct l as [|z l]; [exists x; split; [by left|rewrite len_singleton; lia]|].
  destruct (IH (a + LOGIN_FAILURE_BASE_DELAY_MILLIS)) as (y & Hy & Hle); [|done|].
  - eapply Forall_impl; [exact Hx|]. unfold paced. intros w Hw. lia.
  - exists y. split; [by right|]. rewrite (len_cons x (z :: l)). unfold LOGIN_FAILURE_BASE_DELAY_MILLIS in *. lia.
Qed.

(** Failures of one name in a row. *)
Lemma streak t t' block id :
  login_run expiring_first t t' block → roomy t id → 0 ≤ failures_of t id →
  Forall (λ c, login_throttle_identity (c_username c) = id ∧ c_wrong c = true) block →
  len block ≤ U32_MAX →
  roomy t' id ∧ Z.min U32_MAX (len block) ≤ failures_of t' id ∧
  (∀ c, last block = Some c → ∃ e, identities t' !! id = Some e ∧ failed_at (c_times c) + backoff (len block) ≤ next_allowed e).
Proof using Type.
  intros Hrun Hr Hf. induction Hrun as [|t1 t2 a a' done u p totp ra ua i s1 s2 clock times out _ IH _ Ht E]; intros Hall Hlen.
  - split; [done|]. split; [unfold len; cbn; lia|done].
  - apply Forall_app in Hall as [Hall Hlast]. apply Forall_cons in Hlast as [[Hid Hw] _]. cbn in Hid, Hw.
    rewrite len_app, len_singleton in *. pose proof (len_nonneg done). destruct IH as (Hr1 & Hf1 & _); [done|lia|].
    apply login_outcome in E. destruct out as [[| |]|]; try done. rewrite Hid in E.
    pose proof (record_failure_entry t1 id (failed_at times) Hr1) as He. rewrite <- E in He.
    assert (len done + 1 ≤ saturating_add U32_MAX (failures_of t1 id) 1) as Hge by (unfold saturating_add; lia).
    split_and!.
    + left. by rewrite He.
    + unfold failures_of at 1. rewrite He. cbn. lia.
    + intros c Hc. rewrite last_snoc in Hc. injection Hc as <-. eexists. split; [exact He|]. cbn.
      pose proof (backoff_mono _ _ Hge). lia.
Qed.

(** C19. Guessing is slow. In every run of logins the table of names stays within its limit; wrong
    credentials are found at least 250 ms after the previous ones, whatever the names, so that
    a window of [width] ms has at most one more than one in 250 ms; and after [n] wrong
    attempts in a row for a name that the table has room for, the next check for that name
    comes no earlier than [min (250 * 2^(n-1)) 30000] ms after the last. *)
Theorem login_failures_paced (t : LoginThrottle) (done : list LoginCheck) :
  login_run expiring_first throttle_default t done →
  map_len (identities t) ≤ LOGIN_THROTTLE_MAX_IDENTITIES ∧
  (∀ start width, filter (λ x, start ≤ x < start + width) (wrong_times done) ≠ [] →
     LOGIN_FAILURE_BASE_DELAY_MILLIS * (len (filter (λ x, start ≤ x < start + width) (wrong_times done)) - 1) < width) ∧
  (∀ id t' block c times username,
     roomy t id → 0 ≤ failures_of t id → login_run expiring_first t t' (block ++ [c]) → len (block ++ [c]) ≤ U32_MAX →
     Forall (λ c, login_throttle_identity (c_username c) = id ∧ c_wrong c = true) (block ++ [c]) →
     login_throttle_identity username = id → times_ok times t' username →
     failed_at (c_times c) + Z.min (250 * 2 ^ Z.min (len block) 16) 30000 ≤ checked_at times).
Proof using expiring_first_least.
  intros Hrun. destruct (login_run_ok t done Hrun) as [Hb Hp Hg]. split; [done|]. split.
  - intros start width Hne. destruct (paced_reach (filter (λ x, start ≤ x < start + width) (wrong_times done)) start) as (y & Hy & Hle).
    + by apply paced_filter.
    + apply Forall_forall. intros x Hx. apply list_elem_of_filter in Hx as [Hx _]. lia.
    + done.
    + apply list_elem_of_filter in Hy as [Hy _]. lia.
  - intros id t' block c times username Hr Hf Hrun' Hlen Hall Hid Ht.
    destruct (streak t t' (block ++ [c]) id Hrun' Hr Hf Hall Hlen) as (_ & _ & Hlast).
    destruct (Hlast c (last_snoc _ _)) as (e & He & Hnext). destruct (check_waits _ _ _ Ht) as (_ & Hw & _).
    rewrite Hid in Hw. specialize (Hw e He). rewrite len_app, len_singleton in Hnext. pose proof (len_nonneg block).
    rewrite backoff_doubles in Hnext by lia. replace (len block + 1 - 1) with (len block) in Hnext by lia. lia.
Qed.
End facts.

(** ** Witness *)

Definition sample_first (m : gmap rstr LoginThrottleEntry) : option rstr :=
  fst <$> min_by_key (λ x : rstr * LoginThrottleEntry, [next_allowed x.2]) (map_to_list m).
Lemma sample_first_least m :
  match sample_first m with
  | Some k => ∃ e, m !! k = Some e ∧ map_Forall (λ _ e', next_allowed e ≤ next_allowed e') m
  | None => m = ∅
  end.
Proof.
  unfold sample_first. destruct (min_by_key _ (map_to_list m)) as [[k e]|] eqn:E; cbn.
  - apply min_by_key_Some in E as [Hin Hle]. apply elem_of_map_to_list in Hin. exists e. split; [done|].
    intros k' e' Hk'. rewrite Forall_forall in Hle. specialize (Hle (k', e')). rewrite elem_of_map_to_list in Hle. apply Hle in Hk'.
    cbn in Hk'. apply orb_true_iff in Hk' as [Hk'|Hk']; bool_prop; lia.
  - apply min_by_key_None in E. by apply map_to_list_empty_iff.
Qed.

Definition sample_times (n : Z) : LoginTimes := {| permit_at := n; checked_at := n; failed_at := n |}.
Definition wrong_login (n : Z) (t : LoginThrottle) : LoginThrottle := (record_failure sample_first t (lit "root") n).2.
Definition wrong_check (n : Z) : LoginCheck := {| c_username := lit "Root"; c_times := sample_times n; c_wrong := true |}.

Lemma wrong_login_call n t :
  login (plat := sample_platform) sample_first (lit "Root") (lit "guess") None None None 1 2 3 (at_time 1000) (sample_times n) t sample_state =
  Done (Ok InvalidCredentials, (wrong_login n t, sample_state)).
Proof.
  unfold login. assert (login_with_context (plat := sample_platform) (lit "Root") (lit "guess") None None None 1 2 3 (at_time 1000) sample_state =
    Done (Ok InvalidCredentials, sample_state)) as -> by (vm_compute; reflexivity).
  assert (login_throttle_identity (lit "Root") = lit "root") as -> by (vm_compute; reflexivity). reflexivity.
Qed.

(** Two wrong passwords; the second check has waited for the first. *)
Lemma login_failures_paced_witness :
  1000 + Z.min (250 * 2 ^ Z.min 1 16) 30000 ≤ checked_at (sample_times 1500).
Proof.
  assert (login_run (plat := sample_platform) sample_first throttle_default throttle_default []) as H0 by constructor.
  destruct (login_failures_paced sample_first sample_first_least (plat := sample_platform) throttle_default [] H0) as (_ & _ & H).
  apply (H (lit "root") (wrong_login 1000 (wrong_login 0 throttle_default)) [wrong_check 0] (wrong_check 1000) (sample_times 1500) (lit "Root")).
  - right. vm_compute. reflexivity.
  - vm_compute. discriminate.
  - refine (run_login _ _ _ _ sample_state sample_state [wrong_check 0] _ _ _ _ _ _ _ _ _ (sample_times 1000) _ _ _ _ (wrong_login_call 1000 _)).
    + refine (run_login _ _ _ _ sample_state sample_state [] _ _ _ _ _ _ _ _ _ (sample_times 0) _ _ _ _ (wrong_login_call 0 _)); [constructor|done|].
      split; vm_compute; discriminate.
    + intros c [= <-]. vm_compute. discriminate.
    + split; vm_compute; discriminate.
  - vm_compute. discriminate.
  - repeat constructor.
  - vm_compute. reflexivity.
  - split; vm_compute; discriminate.
Defined.
