(* ===== verification/ClientRegistry.v ===== *)
(** * The registry of clients ([client_registry.rs])

    The enrolled agents: a map in memory, and a SQLite table that it is loaded from at start
    and that every change is written to first. A statement can fail; [disk] says whether the
    one of a call works. Tags are stored as JSON, a parameter ([TagColumn]); UUIDs and
    Argon2 are those of [Platform]. *)

From S2P Require Import Prelude DbMonad RustStr RustText AdminAuth.
Local Open Scope Z_scope.
Set Default Proof Using "Type".

(** ** Data *)

Inductive ManagedConfigMode := Local | ReportOnly | ServerManaged.
Inductive ManagedConfigStatus := Unknown | Synchronized | Conflict | ApplyFailed.

Definition config_mode_name (mode : ManagedConfigMode) : rstr :=
  match mode with Local => lit "local" | ReportOnly => lit "report_only" | ServerManaged => lit "server_managed" end.
Definition parse_config_mode (value : rstr) : ManagedConfigMode :=
  if bool_decide (value = lit "report_only") then ReportOnly
  else if bool_decide (value = lit "server_managed") then ServerManaged
  else Local.
Definition config_status_name (status : ManagedConfigStatus) : rstr :=
  match status with
  | Unknown => lit "unknown" | Synchronized => lit "synchronized" | Conflict => lit "conflict" | ApplyFailed => lit "apply_failed"
  end.
Definition parse_config_status (value : rstr) : ManagedConfigStatus :=
  if bool_decide (value = lit "synchronized") then Synchronized
  else if bool_decide (value = lit "conflict") then Conflict
  else if bool_decide (value = lit "apply_failed") then ApplyFailed
  else Unknown.

Record RegisteredClient := {
  agent_instance_id : Z;
  agent_identity_public_key : option rstr;
  name : rstr;
  platform : rstr;
  group_name : option rstr;
  tags : list rstr;
  notes : option rstr;
  client_enabled : bool;
  client_created : Z;
  token_rotated : option Z;
  access_token_hash : rstr;
  last_seen : Z;
  config_mode : ManagedConfigMode;
  config_sync_status : ManagedConfigStatus;
  applied_config_revision : option rstr;
  config_sync_error : option rstr;
  config_checked : option Z;
}.

(** A row of [clients]. *)
Record ClientRow := {
  row_agent : rstr;
  row_public_key : option rstr;
  row_name : rstr;
  row_platform : rstr;
  row_group : option rstr;
  row_tags_json : rstr;
  row_notes : option rstr;
  row_enabled : Z;
  row_created : Z;
  row_rotated : option Z;
  row_token_hash : rstr;
  row_last_seen : Z;
  row_mode : rstr;
  row_status : rstr;
  row_revision : option rstr;
  row_error : option rstr;
  row_checked : option Z;
}.

Record UpdateClient := {
  uc_name : rstr;
  uc_group : option rstr;
  uc_tags : list rstr;
  uc_notes : option rstr;
  uc_enabled : bool;
}.

Inductive Authentication := Authenticated | UnknownClient | DisabledClient | InvalidToken.

Inductive RegistryError :=
  | NilAgent | AlreadyEnrolled | IdentityMismatch | TokenHashFailed | TokenHashInvalid | InvalidClientName | InvalidText | InvalidTag
  | TooManyTags | MissingClient | StorageFailed | UniqueViolation | OutOfRange | InvalidRow.

Record ClientRegistry := { clients : gmap Z RegisteredClient; rows : gmap rstr ClientRow }.
Abbreviation registry := (db RegistryError ClientRegistry).

Class TagColumn := { tags_to_json : list rstr → rstr; tags_from_json : rstr → option (list rstr) }.
Class TagColumnLaws `{TagColumn} := { tags_json_round_trip : ∀ l, tags_from_json (tags_to_json l) = Some l }.

(** ** Validation *)

Definition validate_name (value : rstr) : result RegistryError unit :=
  let value := trim value in
  if negb (bool_decide (value = [])) && (len value <=? 80) && negb (any is_control value) then Ok tt else Err InvalidClientName.
Definition normalize_optional_text (value : option rstr) (maximum : Z) : result RegistryError (option rstr) :=
  match value with
  | None => Ok None
  | Some value =>
      let value := trim value in
      if bool_decide (value = []) then Ok None
      else if (len value <=? maximum) && negb (any is_control value) then Ok (Some value) else Err InvalidText
  end.

Definition tag_byte (b : Z) : bool := is_ascii_alphanumeric b || (b =? ch_minus) || (b =? 95) || (b =? ch_dot).
Definition normalize_tag (tag : rstr) : result RegistryError rstr :=
  let tag := to_ascii_lowercase (trim tag) in
  if (1 <=? str_len tag) && (str_len tag <=? 32) && all tag_byte (as_bytes tag) then Ok tag else Err InvalidTag.
(** The loop; a tag that is there already is not pushed again. *)
Fixpoint push_tags (normalized : list rstr) (l : list rstr) : result RegistryError (list rstr) :=
  match l with
  | [] => Ok normalized
  | tag :: l =>
      tag ← normalize_tag tag;
      push_tags (if bool_decide (tag ∈ normalized) then normalized else normalized ++ [tag]) l
  end.
Definition normalize_tags (l : list rstr) : result RegistryError (list rstr) :=
  if negb (len l <=? 16) then Err TooManyTags
  else normalized ← push_tags [] l; Ok (merge_sort (λ x y, lex_le (as_bytes x) (as_bytes y)) normalized).

(** ** The table *)

Section registry.
Context {plat : Platform} {column : TagColumn}.

Definition to_row (c : RegisteredClient) : ClientRow :=
  {| row_agent := uuid_string (agent_instance_id c); row_public_key := agent_identity_public_key c; row_name := name c;
     row_platform := platform c; row_group := group_name c; row_tags_json := tags_to_json (tags c); row_notes := notes c;
     row_enabled := sql_bool (client_enabled c); row_created := client_created c; row_rotated := token_rotated c;
     row_token_hash := access_token_hash c; row_last_seen := last_seen c; row_mode := config_mode_name (config_mode c);
     row_status := config_status_name (config_sync_status c); row_revision := applied_config_revision c;
     row_error := config_sync_error c; row_checked := config_checked c |}.

(** A column read as [u64] must not be negative. *)
Definition read_u64 (n : Z) : result RegistryError Z := if n <? 0 then Err OutOfRange else Ok n.
Definition from_row (r : ClientRow) : result RegistryError RegisteredClient :=
  agent ← ok_or (uuid_parse (row_agent r)) InvalidRow;
  seen ← read_u64 (row_last_seen r);
  checked ← match row_checked r with None => Ok None | Some n => n ← read_u64 n; Ok (Some n) end;
  Ok {| agent_instance_id := agent; agent_identity_public_key := row_public_key r; name := row_name r; platform := row_platform r;
        group_name := row_group r; tags := default [] (tags_from_json (row_tags_json r)); notes := row_notes r;
        client_enabled := negb (row_enabled r =? 0); client_created := Z.max 0 (row_created r);
        token_rotated := Z.max 0 <$> row_rotated r; access_token_hash := row_token_hash r; last_seen := seen;
        config_mode := parse_config_mode (row_mode r); config_sync_status := parse_config_status (row_status r);
        applied_config_revision := row_revision r; config_sync_error := row_error r; config_checked := checked |}.

(** [open_with_database]: the loop over the rows. *)
Fixpoint load_rows (l : list (rstr * ClientRow)) (acc : gmap Z RegisteredClient) : result RegistryError (gmap Z RegisteredClient) :=
  match l with
  | [] => Ok acc
  | (key, row) :: l =>
      client ← from_row row;
      client_id ← ok_or (uuid_parse key) InvalidRow;
      load_rows l (<[client_id := client]> acc)
  end.
Definition registry_open (table : gmap rstr ClientRow) : result RegistryError ClientRegistry :=
  loaded ← load_rows (map_to_list table) ∅; Ok {| clients := loaded; rows := table |}.

(** Values that SQLite stores as a signed integer. *)
Definition storable (c : RegisteredClient) : bool :=
  (client_created c <=? 9223372036854775807) && (default 0 (token_rotated c) <=? 9223372036854775807) &&
  (last_seen c <=? 9223372036854775807) && (default 0 (config_checked c) <=? 9223372036854775807).
(** Another row with the same agent or the same key. *)
Definition taken (key : rstr) (r : ClientRow) (table : gmap rstr ClientRow) : bool :=
  any (λ '(k, x), negb (bool_decide (k = key)) &&
                  (bool_decide (row_agent x = row_agent r) ||
                   (bool_decide (is_Some (row_public_key r)) && bool_decide (row_public_key x = row_public_key r))))
    (map_to_list table).

Definition persist_client (disk : bool) (client_id : Z) (c : RegisteredClient) : registry unit :=
  let key := uuid_string client_id in
  _ ← db_ensure (storable c) OutOfRange;
  _ ← db_ensure disk StorageFailed;
  conflict ← db_get (λ s, taken key (to_row c) (rows s));
  _ ← db_ensure (negb conflict) UniqueViolation;
  db_put (λ s, {| clients := clients s; rows := <[key := to_row c]> (rows s) |}).

Definition insert_client (client_id : Z) (c : RegisteredClient) : registry unit :=
  db_put (λ s, {| clients := <[client_id := c]> (clients s); rows := rows s |}).

(** ** Operations *)

Definition hash_token (salt : Z) (token : rstr) : result RegistryError rstr := ok_or (argon2_hash salt token) TokenHashFailed.
Definition verify_token (token hash : rstr) : result RegistryError bool := ok_or (argon2_verify token hash) TokenHashInvalid.

Definition find_agent (agent : Z) (s : ClientRegistry) : option (Z * RegisteredClient) :=
  head (filter (λ x : Z * RegisteredClient, agent_instance_id x.2 = agent) (map_to_list (clients s))).

Definition upgraded (c : RegisteredClient) (key name' platform' hash : rstr) (now : Z) : RegisteredClient :=
  {| agent_instance_id := agent_instance_id c; agent_identity_public_key := Some key; name := name'; platform := platform';
     group_name := group_name c; tags := tags c; notes := notes c; client_enabled := true; client_created := client_created c;
     token_rotated := Some now; access_token_hash := hash; last_seen := now; config_mode := config_mode c;
     config_sync_status := config_sync_status c; applied_config_revision := applied_config_revision c;
     config_sync_error := config_sync_error c; config_checked := config_checked c |}.

(** [fresh_agent], [token_id], [new_id] and [salt] are the random values. *)
Definition enroll_with_identity (name' platform' : rstr) (agent : option Z) (public_key : option rstr)
    (fresh_agent token_id new_id salt now : Z) (disk : bool) : registry (Z * Z * rstr) :=
  let agent := default fresh_agent agent in
  _ ← db_ensure (negb (agent =? 0)) NilAgent;
  let client_token := lit "llc_" ++ uuid_simple token_id in
  found ← db_get (find_agent agent);
  match found with
  | Some (client_id, existing) =>
      key ← db_lift (ok_or public_key AlreadyEnrolled);
      _ ← db_ensure (match agent_identity_public_key existing with Some stored => bool_decide (stored = key) | None => true end) IdentityMismatch;
      hash ← db_lift (hash_token salt client_token);
      let c := upgraded existing key name' platform' hash now in
      _ ← persist_client disk client_id c;
      _ ← insert_client client_id c;
      mret (client_id, agent, client_token)
  | None =>
      hash ← db_lift (hash_token salt client_token);
      let c := {| agent_instance_id := agent; agent_identity_public_key := public_key; name := name'; platform := platform';
                  group_name := None; tags := []; notes := None; client_enabled := true; client_created := now; token_rotated := None;
                  access_token_hash := hash; last_seen := now; config_mode := Local; config_sync_status := Unknown;
                  applied_config_revision := None; config_sync_error := None; config_checked := None |} in
      _ ← persist_client disk new_id c;
      _ ← insert_client new_id c;
      mret (new_id, agent, client_token)
  end.

Definition touched (now : Z) (c : RegisteredClient) : RegisteredClient :=
  {| agent_instance_id := agent_instance_id c; agent_identity_public_key := agent_identity_public_key c; name := name c;
     platform := platform c; group_name := group_name c; tags := tags c; notes := notes c; client_enabled := client_enabled c;
     client_created := client_created c; token_rotated := token_rotated c; access_token_hash := access_token_hash c; last_seen := now;
     config_mode := config_mode c; config_sync_status := config_sync_status c; applied_config_revision := applied_config_revision c;
     config_sync_error := config_sync_error c; config_checked := config_checked c |}.

Definition authenticate_and_touch (client_id : Z) (token : rstr) (now : Z) (disk : bool) : registry Authentication :=
  found ← db_get (λ s, clients s !! client_id);
  match found with
  | None => mret UnknownClient
  | Some c =>
      if negb (client_enabled c) then mret DisabledClient
      else
        valid ← db_lift (verify_token token (access_token_hash c));
        if negb valid then mret InvalidToken
        else
          _ ← persist_client disk client_id (touched now c);
          _ ← insert_client client_id (touched now c);
          mret Authenticated
  end.

Definition edited (request : UpdateClient) (group : option rstr) (l : list rstr) (text : option rstr) (c : RegisteredClient) : RegisteredClient :=
  {| agent_instance_id := agent_instance_id c; agent_identity_public_key := agent_identity_public_key c; name := trim (uc_name request);
     platform := platform c; group_name := group; tags := l; notes := text; client_enabled := uc_enabled request;
     client_created := client_created c; token_rotated := token_rotated c; access_token_hash := access_token_hash c; last_seen := last_seen c;
     config_mode := config_mode c; config_sync_status := config_sync_status c; applied_config_revision := applied_config_revision c;
     config_sync_error := config_sync_error c; config_checked := config_checked c |}.

(** [update]; the summary that it returns is the client. *)
Definition update_client (client_id : Z) (request : UpdateClient) (disk : bool) : registry (option RegisteredClient) :=
  _ ← db_lift (validate_name (uc_name request));
  group ← db_lift (normalize_optional_text (uc_group request) 64);
  text ← db_lift (normalize_optional_text (uc_notes request) 512);
  l ← db_lift (normalize_tags (uc_tags request));
  found ← db_get (λ s, clients s !! client_id);
  match found with
  | None => mret None
  | Some c =>
      _ ← persist_client disk client_id (edited request group l text c);
      _ ← insert_client client_id (edited request group l text c);
      db_get (λ s, clients s !! client_id)
  end.

Definition rotated (hash : rstr) (now : Z) (c : RegisteredClient) : RegisteredClient :=
  {| agent_instance_id := agent_instance_id c; agent_identity_public_key := agent_identity_public_key c; name := name c;
     platform := platform c; group_name := group_name c; tags := tags c; notes := notes c; client_enabled := client_enabled c;
     client_created := client_created c; token_rotated := Some now; access_token_hash := hash; last_seen := last_seen c;
     config_mode := config_mode c; config_sync_status := config_sync_status c; applied_config_revision := applied_config_revision c;
     config_sync_error := config_sync_error c; config_checked := config_checked c |}.

Definition rotate_token (client_id token_id salt now : Z) (disk : bool) : registry (option rstr) :=
  found ← db_get (λ s, clients s !! client_id);
  match found with
  | None => mret None
  | Some c =>
      let client_token := lit "llc_" ++ uuid_simple token_id in
      hash ← db_lift (hash_token salt client_token);
      _ ← persist_client disk client_id (rotated hash now c);
      _ ← insert_client client_id (rotated hash now c);
      mret (Some client_token)
  end.

(** [delete]: the map first, then the row. *)
Definition delete_client (client_id : Z) (disk : bool) : registry bool :=
  found ← db_get (λ s, clients s !! client_id);
  match found with
  | None => mret false
  | Some _ =>
      _ ← db_put (λ s, {| clients := delete client_id (clients s); rows := rows s |});
      _ ← db_ensure disk StorageFailed;
      _ ← db_put (λ s, {| clients := clients s; rows := delete (uuid_string client_id) (rows s) |});
      mret true
  end.

Definition synced (mode : ManagedConfigMode) (status : ManagedConfigStatus) (revision error : option rstr) (now : Z) (c : RegisteredClient) : RegisteredClient :=
  {| agent_instance_id := agent_instance_id c; agent_identity_public_key := agent_identity_public_key c; name := name c;
     platform := platform c; group_name := group_name c; tags := tags c; notes := notes c; client_enabled := client_enabled c;
     client_created := client_created c; token_rotated := token_rotated c; access_token_hash := access_token_hash c; last_seen := last_seen c;
     config_mode := mode; config_sync_status := status; applied_config_revision := keep_if (λ v, str_len v <=? 128) revision;
     config_sync_error := keep_if (λ v, negb (bool_decide (v = []))) ((λ v, take 512 (trim v)) <$> error); config_checked := Some now |}.

Definition update_config_sync (client_id : Z) (mode : ManagedConfigMode) (status : ManagedConfigStatus) (revision error : option rstr)
    (now : Z) (disk : bool) : registry unit :=
  found ← db_get (λ s, clients s !! client_id);
  match found with
  | None => db_fail MissingClient
  | Some c =>
      _ ← persist_client disk client_id (synced mode status revision error now c);
      insert_client client_id (synced mode status revision error now c)
  end.
End registry.

(** ** Histories *)

Inductive RegOp :=
  | RegEnroll (name' platform' : rstr) (agent : option Z) (public_key : option rstr) (fresh_agent token_id new_id salt : Z)
  | RegAuthenticate (client_id : Z) (token : rstr)
  | RegUpdate (client_id : Z) (request : UpdateClient)
  | RegRotate (client_id token_id salt : Z)
  | RegDelete (client_id : Z)
  | RegSync (client_id : Z) (mode : ManagedConfigMode) (status : ManagedConfigStatus) (revision error : option rstr).

Definition time_ok (now : Z) : Prop := 0 ≤ now ≤ 9223372036854775807.
Definition reg_op_ok (op : RegOp) : Prop :=
  match op with
  | RegEnroll _ _ agent _ fresh _ new_id _ => uuid_ok fresh ∧ uuid_ok new_id ∧ (∀ a, agent = Some a → uuid_ok a)
  | _ => True
  end.

Section histories.
Context {plat : Platform} {laws : PlatformLaws} {column : TagColumn} {column_laws : TagColumnLaws}.

(** A call, without its result value. *)
Definition perform_reg (op : RegOp) (now : Z) (disk : bool) : registry unit :=
  match op with
  | RegEnroll n p a k fresh token new_id salt => _ ← enroll_with_identity n p a k fresh token new_id salt now disk; mret tt
  | RegAuthenticate id token => _ ← authenticate_and_touch id token now disk; mret tt
  | RegUpdate id request => _ ← update_client id request disk; mret tt
  | RegRotate id token salt => _ ← rotate_token id token salt now disk; mret tt
  | RegDelete id => _ ← delete_client id disk; mret tt
  | RegSync id mode status revision error => update_config_sync id mode status revision error now disk
  end.

(** [lost] are the keys of rows whose deletion failed. *)
Inductive reg_history : ClientRegistry → gset rstr → Prop :=
  | reg_start : reg_history {| clients := ∅; rows := ∅ |} ∅
  | reg_call (s s' : ClientRegistry) (lost : gset rstr) (op : RegOp) (now : Z) (disk : bool) (out : result RegistryError unit) :
      reg_history s lost → reg_op_ok op → time_ok now → perform_reg op now disk s = Done (out, s') →
      reg_history s' (match op, out with RegDelete id, Err _ => {[uuid_string id]} ∪ lost | _, _ => lost end)
  | reg_restart (s s' : ClientRegistry) (lost : gset rstr) :
      reg_history s lost → registry_open (rows s) = Ok s' → reg_history s' ∅.

(** ** Invariant *)

Record client_ok (c : RegisteredClient) : Prop := {
  client_agent : uuid_ok (agent_instance_id c);
  client_times : 0 ≤ client_created c ∧ 0 ≤ last_seen c ∧ 0 ≤ default 0 (token_rotated c) ∧ 0 ≤ default 0 (config_checked c);
}.

Record reg_ok (s : ClientRegistry) (lost : gset rstr) : Prop := {
  reg_clients : ∀ id c, clients s !! id = Some c → uuid_ok id ∧ client_ok c ∧ storable c = true ∧ rows s !! uuid_string id = Some (to_row c);
  reg_rows : ∀ k r, rows s !! k = Some r → ∃ id c, uuid_ok id ∧ k = uuid_string id ∧ r = to_row c ∧ client_ok c ∧ storable c = true ∧
    (clients s !! id = Some c ∨ (clients s !! id = None ∧ k ∈ lost));
  reg_agents : ∀ k1 k2 r1 r2, rows s !! k1 = Some r1 → rows s !! k2 = Some r2 → row_agent r1 = row_agent r2 → k1 = k2;
  reg_keys : ∀ k1 k2 r1 r2, rows s !! k1 = Some r1 → rows s !! k2 = Some r2 → is_Some (row_public_key r1) →
    row_public_key r1 = row_public_key r2 → k1 = k2;
}.

Lemma read_u64_ok n : 0 ≤ n → read_u64 n = Ok n.
Proof using Type. intros Hn. unfold read_u64. by rewrite (proj2 (Z.ltb_ge _ _)). Qed.
Lemma from_to_row c : client_ok c → from_row (to_row c) = Ok c.
Proof using laws column_laws.
  intros [Ha (Hc & Hl & Hr & Hk)]. unfold from_row. cbn [row_agent to_row row_last_seen row_checked]. rewrite uuid_parse_string by done.
  cbn [ok_or mbind result_bind]. rewrite (read_u64_ok (last_seen c)) by done. cbn [mbind result_bind].
  assert (match config_checked c with None => Ok None | Some n => n ← read_u64 n; Ok (Some n) end = Ok (E:=RegistryError) (config_checked c)) as ->.
  { destruct (config_checked c) as [n|]; [|done]. cbn in Hk. by rewrite read_u64_ok. }
  cbn [mbind result_bind row_tags_json row_enabled row_created row_rotated row_mode row_status to_row row_public_key row_name row_platform row_group row_notes row_token_hash row_revision row_error].
  rewrite tags_json_round_trip. cbn [default from_option]. f_equal. destruct c; cbn in *. f_equal; [by destruct client_enabled0|lia| |by destruct config_mode0|by destruct config_sync_status0].
  destruct token_rotated0; [|done]. cbn in *. f_equal. lia.
Qed.

Lemma reg_ok_lost s lost lost' : reg_ok s lost → lost ⊆ lost' → reg_ok s lost'.
Proof using Type.
  intros [H1 H2 H3 H4] Hsub. split; [done| |done|done]. intros k r Hk. destruct (H2 k r Hk) as (id & c & ? & ? & ? & ? & ? & Hor).
  exists id, c. split_and!; try done. destruct Hor as [?|[? ?]]; [by left|right]. split; [done|by apply Hsub].
Qed.

Lemma taken_false k r table : taken k r table = false → ∀ k' x, table !! k' = Some x → k' ≠ k →
  row_agent x ≠ row_agent r ∧ (is_Some (row_public_key r) → row_public_key x ≠ row_public_key r).
Proof using Type.
  intros E k' x Hx Hne. unfold taken in E. apply any_false_Forall in E. rewrite Forall_forall in E. specialize (E (k', x)).
  rewrite elem_of_map_to_list in E. apply E in Hx. rewrite (bool_decide_eq_false_2 (k' = k)) in Hx by done. cbn in Hx.
  apply orb_false_iff in Hx as [Ha Hk]. apply bool_decide_eq_false in Ha. split; [done|]. intros Hs.
  rewrite (bool_decide_eq_true_2 _ Hs) in Hk. by apply bool_decide_eq_false in Hk.
Qed.

Lemma reg_ok_store s lost id c :
  reg_ok s lost → uuid_ok id → client_ok c → storable c = true → taken (uuid_string id) (to_row c) (rows s) = false →
  reg_ok {| clients := <[id := c]> (clients s); rows := <[uuid_string id := to_row c]> (rows s) |} lost.
Proof using laws.
  intros [H1 H2 H3 H4] Hid Hc Hst Ht. pose proof (taken_false _ _ _ Ht) as Htf. split; cbn [clients rows].
  - intros j d. destruct (decide (id = j)) as [<-|Hne].
    + rewrite lookup_insert_eq. intros [= <-]. by rewrite lookup_insert_eq.
    + rewrite lookup_insert_ne by done. intros Hd. destruct (H1 j d Hd) as (Hj & Hdok & Hds & Hr). split_and!; try done.
      rewrite lookup_insert_ne; [done|]. intros E. by apply uuid_string_inj in E.
  - intros k r. destruct (decide (uuid_string id = k)) as [<-|Hne].
    + rewrite lookup_insert_eq. intros [= <-]. exists id, c. rewrite lookup_insert_eq. split_and!; try done. by left.
    + rewrite lookup_insert_ne by done. intros Hr. destruct (H2 k r Hr) as (j & d & Hj & -> & -> & Hdok & Hds & Hor).
      exists j, d. split_and!; try done. rewrite lookup_insert_ne; [done|]. congruence.
  - intros k1 k2 r1 r2. destruct (decide (uuid_string id = k1)) as [<-|N1], (decide (uuid_string id = k2)) as [<-|N2]; [done|..];
      rewrite ?lookup_insert_eq, ?lookup_insert_ne by done.
    + intros [= <-] E2 E. by destruct (Htf k2 r2 E2 ltac:(done)).
    + intros E1 [= <-] E. by destruct (Htf k1 r1 E1 ltac:(done)).
    + apply H3.
  - intros k1 k2 r1 r2. destruct (decide (uuid_string id = k1)) as [<-|N1], (decide (uuid_string id = k2)) as [<-|N2]; [done|..];
      rewrite ?lookup_insert_eq, ?lookup_insert_ne by done.
    + intros [= <-] E2 Hs E. destruct (Htf k2 r2 E2 ltac:(done)) as [_ Hk]. by destruct (Hk Hs).
    + intros E1 [= <-] Hs E. rewrite E in Hs. destruct (Htf k1 r1 E1 ltac:(done)) as [_ Hk]. by destruct (Hk Hs).
    + apply H4.
Qed.

Lemma ensures_persist disk id c s (Q : result RegistryError unit → ClientRegistry → Prop) :
  (storable c = true → taken (uuid_string id) (to_row c) (rows s) = false →
   Q (Ok tt) {| clients := clients s; rows := <[uuid_string id := to_row c]> (rows s) |}) → (∀ e, Q (Err e) s) →
  ensures (persist_client disk id c) s Q.
Proof using Type.
  intros HQ HE. unfold persist_client. db_step. db_step; [|apply HE]. db_step. db_step; [|apply HE].
  do 2 db_step. db_step. db_step; [|apply HE]. db_step. apply HQ; [done|by apply negb_true_iff].
Qed.

Section calls.
Context (s : ClientRegistry) (lost : gset rstr) (now : Z) (disk : bool).
Hypothesis Hok : reg_ok s lost.
Hypothesis Hnow : time_ok now.

(** A change of one client, stored and kept. *)
Lemma store_keeps {A} id c (k : registry A) (Q : result RegistryError A → ClientRegistry → Prop) :
  uuid_ok id → client_ok c →
  (∀ s', reg_ok s' lost → ensures k s' Q) → (∀ e, Q (Err e) s) →
  ensures (_ ← persist_client disk id c; _ ← insert_client id c; k) s Q.
Proof using laws Hok.
  intros Hid Hc Hk HE. db_step. apply ensures_persist; [|done]. intros Hst Ht. unfold insert_client. do 2 db_step. apply Hk.
  by apply (reg_ok_store s lost id c).
Qed.

Lemma found_ok id c : clients s !! id = Some c → uuid_ok id ∧ client_ok c.
Proof using Hok. intros Hc. by destruct (reg_clients _ _ Hok id c Hc) as (? & ? & _). Qed.
Lemma find_agent_Some agent id c : find_agent agent s = Some (id, c) → clients s !! id = Some c ∧ agent_instance_id c = agent.
Proof using Type.
  unfold find_agent. intros E. destruct (filter _ _) as [|x l] eqn:Ef; [done|]. cbn in E. injection E as ->.
  assert ((id, c) ∈ filter (λ x : Z * RegisteredClient, agent_instance_id x.2 = agent) (map_to_list (clients s))) as Hin by (rewrite Ef; by left).
  apply list_elem_of_filter in Hin as [Ha Hin]. by rewrite elem_of_map_to_list in Hin.
Qed.

Definition reg_keeps (op : RegOp) : Prop :=
  ensures (perform_reg op now disk) s (λ out s',
    reg_ok s' (match op, out with RegDelete id, Err _ => {[uuid_string id]} ∪ lost | _, _ => lost end)).

Lemma keeps_enroll n p a k fresh token new_id salt :
  reg_op_ok (RegEnroll n p a k fresh token new_id salt) → reg_keeps (RegEnroll n p a k fresh token new_id salt).
Proof using laws Hok Hnow.
  intros (Hf & Hn & Ha). unfold reg_keeps, perform_reg, enroll_with_identity. unfold time_ok in Hnow.
  assert (uuid_ok (default fresh a)) as Hag by (destruct a; [by apply Ha|done]).
  do 2 db_step. db_step; [|done]. do 2 db_step. destruct (find_agent _ s) as [[id c]|] eqn:Ef.
  - apply find_agent_Some in Ef as [Hc _]. destruct (found_ok id c Hc) as [Hid Hcok]. do 2 db_step.
    destruct (ok_or k AlreadyEnrolled) as [key|]; [|done]. db_step. db_step; [|done]. do 2 db_step.
    destruct (hash_token salt _) as [h|]; [|done]. apply store_keeps; [done| |intros s' Hs'; by repeat db_step|done].
    destruct Hcok as [H1 (H2 & H3 & H4 & H5)]. split; [done|]. cbn. lia.
  - do 2 db_step. destruct (hash_token salt _) as [h|]; [|done].
    apply store_keeps; [done| |intros s' Hs'; by repeat db_step|done]. split; [done|]. cbn. lia.
Qed.

Lemma reg_keeps_all op : reg_op_ok op → reg_keeps op.
Proof using laws Hok Hnow.
  destruct op as [| id token|id request|id token salt|id|id mode status revision error]; intros Hop; [by apply keeps_enroll|..];
    unfold reg_keeps, perform_reg; unfold time_ok in Hnow.
  - unfold authenticate_and_touch. do 3 db_step. destruct (clients s !! id) as [c|] eqn:Ec; [|by repeat db_step].
    destruct (found_ok id c Ec) as [Hid [H1 (H2 & H3 & H4 & H5)]]. case_match; [by repeat db_step|]. do 2 db_step.
    destruct (verify_token token _) as [[]|]; cbn [negb]; [|by repeat db_step|done].
    apply store_keeps; [done|split; [done|cbn; lia]|intros s' Hs'; by repeat db_step|done].
  - unfold update_client. do 3 db_step. destruct (validate_name _); [|done]. do 2 db_step. destruct (normalize_optional_text _ _) as [group|]; [|done].
    do 2 db_step. destruct (normalize_optional_text (uc_notes request) _) as [text|]; [|done]. do 2 db_step.
    destruct (normalize_tags _) as [l|]; [|done]. do 2 db_step. destruct (clients s !! id) as [c|] eqn:Ec; [|by repeat db_step].
    destruct (found_ok id c Ec) as [Hid [H1 (H2 & H3 & H4 & H5)]].
    apply store_keeps; [done|split; [done|cbn; lia]|intros s' Hs'; by repeat db_step|done].
  - unfold rotate_token. do 3 db_step. destruct (clients s !! id) as [c|] eqn:Ec; [|by repeat db_step].
    destruct (found_ok id c Ec) as [Hid [H1 (H2 & H3 & H4 & H5)]]. do 2 db_step. destruct (hash_token salt _) as [h|]; [|done].
    apply store_keeps; [done|split; [done|cbn; lia]|intros s' Hs'; by repeat db_step|done].
  - unfold delete_client. do 3 db_step. destruct (clients s !! id) as [c|] eqn:Ec; [|by repeat db_step].
    destruct (found_ok id c Ec) as [Hid Hcok]. destruct Hok as [H1 H2 H3 H4]. do 3 db_step. db_step.
    + repeat db_step. split; cbn [clients rows].
      * intros j d Hj. apply lookup_delete_Some in Hj as [Hne Hj]. destruct (H1 j d Hj) as (? & ? & ? & ?). split_and!; try done.
        rewrite lookup_delete_ne; [done|]. intros E. by apply uuid_string_inj in E.
      * intros k r Hk. apply lookup_delete_Some in Hk as [Hne Hk]. destruct (H2 k r Hk) as (j & d & Hj & -> & -> & ? & ? & Hor).
        exists j, d. split_and!; try done. rewrite lookup_delete_ne by congruence. done.
      * intros k1 k2 r1 r2 E1 E2. apply lookup_delete_Some in E1 as [_ E1]. apply lookup_delete_Some in E2 as [_ E2]. by eapply H3.
      * intros k1 k2 r1 r2 E1 E2. apply lookup_delete_Some in E1 as [_ E1]. apply lookup_delete_Some in E2 as [_ E2]. by eapply H4.
    + split; cbn [clients rows]; [..|done|done].
      * intros j d Hj. apply lookup_delete_Some in Hj as [Hne Hj]. by apply H1.
      * intros k r Hk. destruct (H2 k r Hk) as (j & d & Hj & -> & -> & ? & ? & Hor). exists j, d. split_and!; try done.
        destruct (decide (id = j)) as [<-|Hne]; [right; rewrite lookup_delete_eq; split; [done|by apply elem_of_union_l, elem_of_singleton]|].
        rewrite lookup_delete_ne by done. destruct Hor as [?|[? ?]]; [by left|right; split; [done|by apply elem_of_union_r]].
  - unfold update_config_sync. do 2 db_step. destruct (clients s !! id) as [c|] eqn:Ec; [|by db_step].
    destruct (found_ok id c Ec) as [Hid [H1 (H2 & H3 & H4 & H5)]]. db_step. apply ensures_persist; [|done]. intros Hst Ht.
    unfold insert_client. db_step. apply (reg_ok_store s lost id); [done|done|split; [done|cbn; lia]|done|done].
Qed.
End calls.

(** ** Loading *)

Definition row_loaded (x : rstr * ClientRow) (y : Z * RegisteredClient) : Prop :=
  x.1 = uuid_string y.1 ∧ x.2 = to_row y.2 ∧ uuid_ok y.1 ∧ client_ok y.2.

Lemma load_rows_ok l ys acc : Forall2 row_loaded l ys → load_rows l acc = Ok (foldl (λ (m : gmap Z RegisteredClient) y, <[y.1 := y.2]> m) acc ys).
Proof using laws column_laws.
  intros H. revert acc. induction H as [|[k r] [id c] l ys (Hk & Hr & Hid & Hc) _ IH]; intros acc; [done|]. cbn in *. subst.
  rewrite from_to_row by done. cbn [mbind result_bind]. rewrite uuid_parse_string by done. cbn [ok_or mbind result_bind]. apply IH.
Qed.

Lemma foldl_insert_lookup (ys : list (Z * RegisteredClient)) (acc : gmap Z RegisteredClient) (id : Z) :
  NoDup ys.*1 → foldl (λ (m : gmap Z RegisteredClient) y, <[y.1 := y.2]> m) acc ys !! id =
  match list_to_map (M:=gmap Z RegisteredClient) ys !! id with Some c => Some c | None => acc !! id end.
Proof using Type.
  revert acc. induction ys as [|[j c] ys IH]; intros acc Hnd; cbn [foldl].
  - cbn [list_to_map foldr]. by rewrite lookup_empty.
  - cbn in Hnd. apply NoDup_cons in Hnd as [Hj Hnd]. rewrite IH by done. cbn [list_to_map foldr fst snd].
    destruct (decide (j = id)) as [<-|Hne].
    + rewrite !lookup_insert_eq. assert (list_to_map (M:=gmap Z RegisteredClient) ys !! j = None) as -> by by apply not_elem_of_list_to_map_1. done.
    + by rewrite !lookup_insert_ne.
Qed.

(** Opening the table of a registry finds exactly the clients of its rows. *)
Lemma reopen s lost : reg_ok s lost →
  ∃ s', registry_open (rows s) = Ok s' ∧ rows s' = rows s ∧
    ∀ id c, clients s' !! id = Some c ↔ (uuid_ok id ∧ client_ok c ∧ rows s !! uuid_string id = Some (to_row c)).
Proof using laws column_laws.
  intros Hok.
  assert (∃ ys, Forall2 row_loaded (map_to_list (rows s)) ys) as [ys Hys].
  { assert (∀ l, (∀ x, x ∈ l → rows s !! x.1 = Some x.2) → ∃ ys, Forall2 row_loaded l ys) as Hex.
    { induction l as [|[k r] l IH]; intros Hl; [exists []; constructor|]. destruct IH as [ys Hys]; [intros x Hx; apply Hl; by right|].
      destruct (reg_rows _ _ Hok k r (Hl (k, r) ltac:(by left))) as (id & c & Hid & -> & -> & Hc & _). exists ((id, c) :: ys).
      constructor; [done|done]. }
    apply Hex. intros [k r] Hx. by apply elem_of_map_to_list. }
  assert (NoDup ys.*1) as Hnd'.
  { pose proof (NoDup_fst_map_to_list (rows s)) as Hk. clear -Hys Hk laws. induction Hys as [|[k r] [id c] l ys (E & _ & Hid & _) Hys IH]; [constructor|].
    cbn in *. apply NoDup_cons in Hk as [Hk Hnd]. constructor; [|by apply IH]. intros Hin. apply Hk. rewrite E.
    apply list_elem_of_fmap in Hin as ([id' c'] & -> & Hin). apply list_elem_of_lookup in Hin as [n Hn].
    destruct (Forall2_lookup_r _ _ _ _ _ Hys Hn) as ([k' r'] & Hl & (E' & _)). cbn in *. apply list_elem_of_fmap. exists (k', r'). split; [by rewrite E'|].
    by eapply list_elem_of_lookup_2. }
  unfold registry_open. rewrite (load_rows_ok _ ys ∅ Hys). cbn [mbind result_bind]. eexists. split; [reflexivity|]. split; [done|]. cbn [clients].
  intros id c. rewrite foldl_insert_lookup by done.
  split.
  - destruct (list_to_map ys !! id) as [c'|] eqn:E; [|by rewrite lookup_empty]. intros [= ->]. apply elem_of_list_to_map_2 in E.
    apply list_elem_of_lookup in E as [n Hn]. destruct (Forall2_lookup_r _ _ _ _ _ Hys Hn) as ([k r] & Hl & (E1 & E2 & Hid & Hc)). cbn in *. subst.
    split_and!; try done. apply elem_of_map_to_list. by eapply list_elem_of_lookup_2.
  - intros (Hid & Hc & Hr). apply elem_of_map_to_list in Hr. apply list_elem_of_lookup in Hr as [n Hn].
    destruct (Forall2_lookup_l _ _ _ _ _ Hys Hn) as ([id' c'] & Hl & (E1 & E2 & Hid' & Hc')). cbn in *.
    apply uuid_string_inj in E1; [|done|done]. subst id'.
    assert (c' = c) as ->. { pose proof (from_to_row c Hc) as F1. rewrite E2, from_to_row in F1 by done. by injection F1. }
    rewrite (elem_of_list_to_map_1 (M:=gmap Z) ys id c); [done|done|]. by eapply list_elem_of_lookup_2.
Qed.

Lemma reg_history_ok s lost : reg_history s lost → reg_ok s lost.
Proof using laws column_laws.
  induction 1 as [|s s' lost op now disk out _ IH Hop Hnow Hcall|s s' lost _ IH Hopen].
  - split; cbn; intros *; rewrite lookup_empty; done.
  - exact (ensures_eq _ _ _ _ _ Hcall (reg_keeps_all s lost now disk IH Hnow op Hop)).
  - destruct (reopen s lost IH) as (s2 & E & Hrows & Hcl). rewrite Hopen in E. injection E as <-. pose proof IH as [H1 H2 H3 H4].
    split; rewrite ?Hrows; [..|done|done].
    + intros id c Hc. apply Hcl in Hc as (Hid & Hcok & Hr). destruct (H2 _ _ Hr) as (j & d & Hj & Ek & Er & Hd & Hs & _).
      assert (c = d) as -> by (pose proof (from_to_row c Hcok) as F; rewrite Er, from_to_row in F by done; congruence). done.
    + intros k r Hr. destruct (H2 k r Hr) as (j & d & Hj & -> & -> & Hd & Hs & _). exists j, d. split_and!; try done. left. by apply Hcl.
Qed.

(** ** Theorems *)

(** C20. The registry survives a restart. In every history of calls, failed statements and restarts the
    table can be loaded and has every client of the map as it is; and unless a deletion
    has failed since the last start, the loaded map is the map in memory. *)
Theorem registry_survives_restart (s : ClientRegistry) (lost : gset rstr) :
  reg_history s lost →
  ∃ s', registry_open (rows s) = Ok s' ∧ clients s ⊆ clients s' ∧ (lost = ∅ → s' = s).
Proof using laws column_laws.
  intros Hh. pose proof (reg_history_ok s lost Hh) as Hok. destruct (reopen s lost Hok) as (s' & E & Hrows & Hcl).
  assert (clients s ⊆ clients s') as Hsub.
  { apply map_subseteq_spec. intros id c Hc. apply Hcl. destruct (reg_clients _ _ Hok id c Hc) as (? & ? & _ & ?). done. }
  exists s'. split; [done|]. split; [done|]. intros ->.
  assert (clients s' = clients s) as Eq.
  { apply map_eq. intros id. apply option_eq. intros c. split; [|by apply map_subseteq_spec].
    intros Hc. apply Hcl in Hc as (Hid & Hcok & Hr). destruct (reg_rows _ _ Hok _ _ Hr) as (j & d & Hj & Ek & Er & Hd & _ & Hor).
    apply uuid_string_inj in Ek; [|done|done]. subst j. destruct Hor as [Hor|[_ Hor]]; [|by apply elem_of_empty in Hor].
    assert (c = d) as -> by (pose proof (from_to_row c Hcok) as F; rewrite Er, from_to_row in F by done; congruence). done. }
  destruct s', s. cbn in *. congruence.
Qed.

(** A deletion whose statement fails is half done: the client is gone from the map and the call
    reports an error, but deleting again finds nothing to delete, and after a restart the
    client is back and its old token is accepted. *)
Theorem failed_delete_comes_back (s : ClientRegistry) (lost : gset rstr) (id now : Z) (c : RegisteredClient) (token : rstr) :
  reg_history s lost → time_ok now → clients s !! id = Some c → client_enabled c = true →
  argon2_verify token (access_token_hash c) = Some true →
  ∃ s1 s2 s3, delete_client id false s = Done (Err StorageFailed, s1) ∧ clients s1 !! id = None ∧
    delete_client id true s1 = Done (Ok false, s1) ∧ registry_open (rows s1) = Ok s2 ∧
    authenticate_and_touch id token now true s2 = Done (Ok Authenticated, s3).
Proof using laws column_laws.
  intros Hh Hnow Hc Hen Hv. pose proof (reg_history_ok s lost Hh) as Hok. destruct (reg_clients _ _ Hok id c Hc) as (Hid & Hcok & Hst & Hr).
  set (s1 := {| clients := delete id (clients s); rows := rows s |}).
  assert (delete_client id false s = Done (Err StorageFailed, s1)) as Edel by (unfold delete_client; cbv [mbind db_bind db_get db_put db_ensure]; by rewrite Hc).
  assert (reg_history s1 ({[uuid_string id]} ∪ lost)) as Hh1.
  { refine (reg_call s s1 lost (RegDelete id) now false (Err StorageFailed) Hh I Hnow _). unfold perform_reg. cbv [mbind db_bind]. by rewrite Edel. }
  pose proof (reg_history_ok _ _ Hh1) as Hok1. destruct (reopen s1 _ Hok1) as (s2 & Eopen & Hrows2 & Hcl2).
  assert (clients s2 !! id = Some c) as Hc2 by (by apply Hcl2).
  pose proof (reg_history_ok _ _ (reg_restart _ _ _ Hh1 Eopen)) as Hok2.
  exists s1, s2. eexists. split; [exact Edel|]. split; [apply lookup_delete_eq|].
  split; [unfold delete_client; cbv [mbind db_bind db_get]; cbn [clients s1]; by rewrite lookup_delete_eq|]. split; [exact Eopen|].
  assert (storable (touched now c) = true) as Hst'.
  { unfold storable in *. cbn. unfold time_ok in Hnow. rewrite !andb_true_iff in *. split_and!; try apply Hst. lia. }
  assert (taken (uuid_string id) (to_row (touched now c)) (rows s2) = false) as Ht.
  { unfold taken. apply any_false_Forall, Forall_forall. intros [k x] Hx. apply elem_of_map_to_list in Hx.
    destruct (decide (k = uuid_string id)) as [->|Hne]; [by rewrite bool_decide_eq_true_2|]. rewrite bool_decide_eq_false_2 by done. cbn [negb andb].
    destruct (reg_clients _ _ Hok2 id c Hc2) as (_ & _ & _ & Hr2).
    apply orb_false_iff. split.
    - apply bool_decide_eq_false. intros E. apply Hne. by apply (reg_agents _ _ Hok2 k _ x (to_row c)).
    - apply andb_false_iff. destruct (decide (is_Some (row_public_key (to_row (touched now c))))) as [Hs|Hs]; [right|left; by apply bool_decide_eq_false].
      apply bool_decide_eq_false. intros E. apply Hne. apply (reg_keys _ _ Hok2 k _ x (to_row c)); [done|done|by rewrite E|done]. }
  unfold authenticate_and_touch. cbv [mbind db_bind db_get db_lift mret db_ret]. rewrite Hc2, Hen. cbn [negb]. unfold verify_token. rewrite Hv. cbn [ok_or negb].
  unfold persist_client. cbv [mbind db_bind db_get db_put db_ensure db_fail mret db_ret]. rewrite Hst', Ht. cbn [negb]. reflexivity.
Qed.
End histories.

(** ** Witnesses *)

(** An encoding of lists stands for JSON in the example. *)
#[local] Instance sample_column : TagColumn := {|
  tags_to_json := λ l, [Z.pos (encode l)];
  tags_from_json := λ s, match s with [Z.pos p] => decode p | _ => None end;
|}.
#[local] Instance sample_column_laws : TagColumnLaws.
Proof. split. intros l. apply decode_encode. Defined.

Definition sample_enroll : RegOp := RegEnroll (lit "laptop") (lit "linux") (Some 31) (Some (lit "key")) 32 33 34 35.
Definition sample_registry : ClientRegistry :=
  match perform_reg (plat := sample_platform) sample_enroll 1000 true {| clients := ∅; rows := ∅ |} with Done (_, s) => s | Panic => {| clients := ∅; rows := ∅ |} end.
Lemma sample_enrolled :
  perform_reg (plat := sample_platform) sample_enroll 1000 true {| clients := ∅; rows := ∅ |} = Done (Ok tt, sample_registry).
Proof. vm_compute. reflexivity. Qed.
Lemma sample_reg_history : reg_history (plat := sample_platform) sample_registry ∅.
Proof.
  refine (reg_call _ _ ∅ sample_enroll 1000 true (Ok tt) (reg_start) _ _ sample_enrolled).
  - split; [split; vm_compute; discriminate|]. split; [split; vm_compute; discriminate|]. intros a [= <-]. split; vm_compute; discriminate.
  - split; vm_compute; discriminate.
Qed.

Lemma registry_survives_restart_witness : registry_open (plat := sample_platform) (rows sample_registry) = Ok sample_registry.
Proof.
  destruct (registry_survives_restart (laws := sample_laws) (column_laws := sample_column_laws) sample_registry ∅ sample_reg_history) as (s' & E & _ & H).
  rewrite <- (H eq_refl) at 2. exact E.
Defined.

Definition sample_client : RegisteredClient :=
  default (Build_RegisteredClient 0 None [] [] None [] None false 0 None [] 0 Local Unknown None None None) (clients sample_registry !! 34).
Lemma sample_client_facts :
  clients sample_registry !! 34 = Some sample_client ∧ client_enabled sample_client = true ∧
  argon2_verify (Platform := sample_platform) (lit "llc_33") (access_token_hash sample_client) = Some true.
Proof. vm_compute. split_and!; reflexivity. Qed.

Lemma failed_delete_comes_back_witness :
  ∃ s1 s2 s3, delete_client (plat := sample_platform) 34 false sample_registry = Done (Err StorageFailed, s1) ∧ clients s1 !! 34 = None ∧
    delete_client (plat := sample_platform) 34 true s1 = Done (Ok false, s1) ∧ registry_open (plat := sample_platform) (rows s1) = Ok s2 ∧
    authenticate_and_touch (plat := sample_platform) 34 (lit "llc_33") 2000 true s2 = Done (Ok Authenticated, s3).
Proof.
  destruct sample_client_facts as (H1 & H2 & H3).
  apply (failed_delete_comes_back (laws := sample_laws) (column_laws := sample_column_laws) sample_registry ∅ 34 2000 sample_client (lit "llc_33")
           sample_reg_history); [split; vm_compute; discriminate|exact H1|exact H2|exact H3].
Defined.
