(* ===== verification/AuditLog.v ===== *)
(** * The audit log ([audit_log.rs])

    An append-only table of events that keeps the most recent ones; the number of rows is
    counted in memory. A statement can fail, which ends the transaction: [disk]. *)

From S2P Require Import Prelude DbMonad RustStr AdminAuth.
Local Open Scope Z_scope.
Set Default Proof Using "Type".

Definition MAX_AUDIT_EVENTS : Z := 50000.

Record AuditEvent := { event_id : Z; occurred : Z; action : rstr; subject : rstr; detail : rstr }.

(** The rows by increasing identifier, and the counter of [AUTOINCREMENT]. *)
Record AuditLog := { events : list AuditEvent; last_id : Z; retained_events : Z }.

Inductive AuditError := LimitNotPositive | AuditStorageFailed | CountOverflow | RetentionViolated.
Abbreviation audit := (db AuditError AuditLog).

(** [value.chars().take(maximum)]. *)
Definition limit_text (value : rstr) (maximum : nat) : rstr := take maximum value.

(** [DELETE .. WHERE id IN (SELECT id .. ORDER BY id ASC LIMIT count)], which must delete that many. *)
Definition delete_oldest_events (count : Z) : audit unit :=
  before ← db_get (λ s, len (events s));
  _ ← db_put (λ s, {| events := drop (Z.to_nat count) (events s); last_id := last_id s; retained_events := retained_events s |});
  after ← db_get (λ s, len (events s));
  db_ensure (before - after =? count) RetentionViolated.

Definition enforce_retention_limit (disk : bool) (maximum_events : Z) : audit Z :=
  _ ← db_ensure (0 <? maximum_events) LimitNotPositive;
  transaction (
    _ ← db_ensure disk AuditStorageFailed;
    retained ← db_get (λ s, len (events s));
    let excess := saturating_sub retained maximum_events in
    _ ← (if 0 <? excess then delete_oldest_events excess else mret tt);
    mret (true, retained - excess)).

(** [open_with_database] on the table found. *)
Definition audit_open (disk : bool) : audit unit :=
  retained ← enforce_retention_limit disk MAX_AUDIT_EVENTS;
  db_put (λ s, {| events := events s; last_id := last_id s; retained_events := retained |}).

Definition record_with_retention_limit (disk : bool) (now : Z) (a s d : rstr) (maximum_events : Z) : audit unit :=
  _ ← db_ensure (0 <? maximum_events) LimitNotPositive;
  kept ← transaction (
    _ ← db_ensure disk AuditStorageFailed;
    _ ← db_put (λ s', {| events := events s' ++ [{| event_id := last_id s' + 1; occurred := to_i64 now; action := limit_text a 80;
                                                   subject := limit_text s 160; detail := limit_text d 500 |}];
                         last_id := last_id s' + 1; retained_events := retained_events s' |});
    retained ← db_get retained_events;
    next_count ← db_lift (ok_or (checked_add USIZE_MAX retained 1) CountOverflow);
    let excess := saturating_sub next_count maximum_events in
    _ ← (if 0 <? excess then delete_oldest_events excess else mret tt);
    mret (true, next_count - excess));
  db_put (λ s', {| events := events s'; last_id := last_id s'; retained_events := kept |}).
Definition record (disk : bool) (now : Z) (a s d : rstr) : audit unit := record_with_retention_limit disk now a s d MAX_AUDIT_EVENTS.

(** [ORDER BY id DESC LIMIT ..], of all events or of those in a period. *)
Definition recent (limit : Z) : audit (list AuditEvent) :=
  db_get (λ s, take (Z.to_nat (Z.max 1 (Z.min 100 limit))) (rev (events s))).
Definition in_period (from to : option Z) (e : AuditEvent) : bool :=
  match from with Some t => t <=? occurred e | None => true end && match to with Some t => occurred e <=? t | None => true end.
Definition export (from to : option Z) (limit : Z) : audit (list AuditEvent) :=
  db_get (λ s, take (Z.to_nat (Z.max 1 (Z.min 100000 limit)))
    (filter (λ e, in_period from to e = true) (rev (events s)))).

(** ** Histories *)

(** [logged]: everything recorded successfully, oldest first. *)
Inductive audit_history : AuditLog → list AuditEvent → Prop :=
  | audit_empty (disk : bool) (s : AuditLog) :
      audit_open disk {| events := []; last_id := 0; retained_events := 0 |} = Done (Ok tt, s) → audit_history s []
  | audit_record (s s' : AuditLog) (logged : list AuditEvent) (disk : bool) (now : Z) (a t d : rstr) (out : result AuditError unit) :
      audit_history s logged → record disk now a t d s = Done (out, s') →
      audit_history s' (match out with
                        | Ok _ => logged ++ [{| event_id := last_id s + 1; occurred := to_i64 now; action := limit_text a 80;
                                                subject := limit_text t 160; detail := limit_text d 500 |}]
                        | Err _ => logged end)
  | audit_restart (s s' : AuditLog) (logged : list AuditEvent) (disk : bool) :
      audit_history s logged → audit_open disk s = Done (Ok tt, s') → audit_history s' logged.

(** The most recent [n] of a list. *)
Definition latest (n : Z) (l : list AuditEvent) : list AuditEvent := drop (Z.to_nat (len l - n)) l.

Record audit_ok (s : AuditLog) (logged : list AuditEvent) : Prop := {
  audit_events : events s = latest MAX_AUDIT_EVENTS logged;
  audit_count : retained_events s = len (events s);
  audit_ids : event_id <$> logged = Z.of_nat <$> seq 1 (length logged);
  audit_last : last_id s = len logged;
}.

(** ** Invariant *)

Lemma len_drop {A} n (l : list A) : 0 ≤ n ≤ len l → len (drop (Z.to_nat n) l) = len l - n.
Proof. intros Hn. unfold len in *. rewrite length_drop. lia. Qed.
Lemma len_latest n l : 0 ≤ n → len (latest n l) = Z.min n (len l).
Proof.
  intros Hn. unfold latest. pose proof (len_nonneg l). destruct (Z.le_gt_cases n (len l)).
  - rewrite len_drop; lia.
  - replace (Z.to_nat (len l - n)) with 0%nat by lia. rewrite drop_0. lia.
Qed.
Lemma latest_all n l : len l ≤ n → latest n l = l.
Proof. intros Hn. unfold latest. by replace (Z.to_nat (len l - n)) with 0%nat by lia. Qed.
Lemma latest_snoc n l e : 0 < n → drop (Z.to_nat (saturating_sub (len (latest n l) + 1) n)) (latest n l ++ [e]) = latest n (l ++ [e]).
Proof.
  intros Hn. pose proof (len_nonneg l). unfold saturating_sub. rewrite len_latest by lia. destruct (Z.le_gt_cases n (len l)) as [Hle|Hgt].
  - replace (Z.max 0 (Z.min n (len l) + 1 - n)) with 1 by lia. unfold latest. rewrite len_app, len_singleton.
    replace (Z.to_nat (len l + 1 - n)) with (S (Z.to_nat (len l - n))) by lia.
    assert (Z.to_nat (len l - n) ≤ length l)%nat as Hd by (unfold len; lia).
    rewrite <- (drop_app_le l [e]) by done. by rewrite drop_drop, Nat.add_1_r.
  - replace (Z.max 0 (Z.min n (len l) + 1 - n)) with 0 by lia. rewrite drop_0, !latest_all; [done|rewrite len_app, len_singleton; lia|lia].
Qed.

Lemma ensures_delete_oldest count s (Q : result AuditError unit → AuditLog → Prop) :
  0 ≤ count ≤ len (events s) →
  Q (Ok tt) {| events := drop (Z.to_nat count) (events s); last_id := last_id s; retained_events := retained_events s |} →
  ensures (delete_oldest_events count) s Q.
Proof.
  intros Hc HQ. unfold delete_oldest_events. do 7 db_step; [done|]. cbn [events] in *. rewrite len_drop in H by done.
  apply Z.eqb_neq in H. lia.
Qed.

Lemma ensures_enforce disk s maximum (Q : result AuditError Z → AuditLog → Prop) :
  0 < maximum → len (events s) ≤ maximum → Q (Ok (len (events s))) s → (disk = false → Q (Err AuditStorageFailed) s) →
  ensures (enforce_retention_limit disk maximum) s Q.
Proof.
  intros Hm Hl HQ HE. unfold enforce_retention_limit. db_step. db_step; [|apply Z.ltb_ge in H; lia].
  do 2 db_step. db_step; [|by apply HE]. do 3 db_step. unfold saturating_sub. replace (Z.max 0 (len (events s) - maximum)) with 0 by lia.
  cbn [Z.ltb]. repeat db_step. by rewrite Z.sub_0_r.
Qed.

Lemma audit_open_ok disk s logged : audit_ok s logged →
  ensures (audit_open disk) s (λ out s', out = Ok tt → audit_ok s' logged).
Proof.
  intros [H1 H2 H3 H4]. unfold audit_open. db_step.
  assert (len (events s) ≤ MAX_AUDIT_EVENTS) as Hl by (rewrite H1, len_latest by done; lia).
  apply ensures_enforce; [done|done| |done]. db_step. by split.
Qed.

Definition new_event (s : AuditLog) (now : Z) (a t d : rstr) : AuditEvent :=
  {| event_id := last_id s + 1; occurred := to_i64 now; action := limit_text a 80; subject := limit_text t 160; detail := limit_text d 500 |}.

Lemma record_ok disk s logged now a t d : audit_ok s logged →
  ensures (record disk now a t d) s (λ out s',
    match out with
    | Ok _ => disk = true ∧ audit_ok s' (logged ++ [new_event s now a t d])
    | Err e => disk = false ∧ e = AuditStorageFailed ∧ s' = s
    end).
Proof.
  intros [H1 H2 H3 H4]. unfold record, record_with_retention_limit. db_step. db_step; [|done]. do 3 db_step. db_step; [|done].
  do 3 db_step. rename H0 into Hdisk. clear H. do 2 db_step. cbn [retained_events].
  assert (len (latest MAX_AUDIT_EVENTS logged) ≤ MAX_AUDIT_EVENTS) as Hl by (rewrite len_latest by done; lia).
  pose proof (len_nonneg (latest MAX_AUDIT_EVENTS logged)) as Hl0.
  assert (MAX_AUDIT_EVENTS = 50000) as Emax by done.
  unfold checked_add. rewrite H2, H1. rewrite (proj2 (Z.leb_le _ _)) by lia. cbn [ok_or]. db_step.
  set (kept := latest MAX_AUDIT_EVENTS logged) in *. set (e := Build_AuditEvent _ _ _ _ _). set (excess := saturating_sub (len kept + 1) MAX_AUDIT_EVENTS).
  assert (0 ≤ excess ≤ len kept + 1) as Hex by (unfold excess, saturating_sub; lia).
  assert (ensures (if 0 <? excess then delete_oldest_events excess else mret tt : audit unit)
            {| events := kept ++ [e]; last_id := last_id s + 1; retained_events := len kept |}
            (λ out s', out = Ok tt ∧ s' = {| events := latest MAX_AUDIT_EVENTS (logged ++ [e]); last_id := last_id s + 1; retained_events := len kept |})) as Hdel.
  { pose proof (latest_snoc MAX_AUDIT_EVENTS logged e ltac:(lia)) as Hs. fold kept excess in Hs.
    destruct (Z.ltb_spec 0 excess).
    - apply ensures_delete_oldest; cbn [events]; [rewrite len_app, len_singleton; lia|]. by rewrite Hs.
    - assert (excess = 0) as E0 by lia. rewrite E0 in Hs. cbn [Z.to_nat] in Hs. rewrite drop_0 in Hs. db_step. by rewrite Hs. }
  db_step. eapply ensures_mono; [exact Hdel|]. cbv beta. intros r s' [-> ->]. repeat db_step. split; [done|]. split; cbn [events last_id retained_events].
  - done.
  - rewrite len_latest by lia. rewrite len_app, len_singleton. unfold excess, saturating_sub, kept. rewrite len_latest by lia.
    pose proof (len_nonneg logged). lia.
  - rewrite fmap_app, H3, length_app. cbn [length]. rewrite seq_app, fmap_app. cbn. do 2 f_equal. rewrite H4. unfold len. lia.
  - rewrite H4, len_app, len_singleton. done.
Qed.

Lemma audit_history_ok s logged : audit_history s logged → audit_ok s logged.
Proof.
  induction 1 as [disk s E|s s' logged disk now a t d out _ IH E|s s' logged disk _ IH E].
  - refine (ensures_eq _ _ _ _ (λ out s', out = Ok tt → audit_ok s' []) E (audit_open_ok disk _ [] _) eq_refl). by split.
  - pose proof (ensures_eq _ _ _ _ _ E (record_ok disk s logged now a t d IH)) as H. cbv beta in H.
    destruct out as [u|e]; [by destruct H as [_ H]|]. by destruct H as (_ & _ & ->).
  - exact (ensures_eq _ _ _ _ _ E (audit_open_ok disk s logged IH) eq_refl).
Qed.

(** ** Theorem *)

(** The log is the end of what was recorded. In every history of records, failed statements and
    restarts it holds exactly the last 50000 events recorded, numbered one after the other; a record
    is refused only when the statement fails, and then changes nothing; and the most recent
    events are listed newest first. *)
Theorem audit_log_keeps_latest (s : AuditLog) (logged : list AuditEvent) :
  audit_history s logged →
  events s = latest MAX_AUDIT_EVENTS logged ∧ event_id <$> logged = Z.of_nat <$> seq 1 (length logged) ∧
  (∀ disk now a t d, ∃ out s', record disk now a t d s = Done (out, s') ∧
     match out with
     | Ok _ => disk = true ∧ events s' = latest MAX_AUDIT_EVENTS (logged ++ [new_event s now a t d])
     | Err e => disk = false ∧ s' = s
     end) ∧
  (∀ limit, 1 ≤ limit ≤ 100 → recent limit s = Done (Ok (take (Z.to_nat limit) (rev logged)), s)).
Proof.
  intros Hh. pose proof (audit_history_ok s logged Hh) as Hok. pose proof Hok as [H1 H2 H3 H4]. split_and!; [done|done|..].
  - intros disk now a t d. destruct (ensures_Done _ _ _ (record_ok disk s logged now a t d Hok)) as (out & s' & E & H).
    exists out, s'. split; [done|]. destruct out as [u|e]; [destruct H as [Hd [He _ _ _]]; done|by destruct H as (? & _ & ?)].
  - intros limit Hl. unfold recent, db_get. rewrite H1. replace (Z.max 1 (Z.min 100 limit)) with limit by lia. do 3 f_equal.
    unfold latest. set (k := Z.to_nat (len logged - MAX_AUDIT_EVENTS)).
    rewrite <- (take_drop k logged) at 2. rewrite rev_app_distr. destruct (decide (k = 0)%nat) as [->|Hk].
    + by rewrite drop_0, take_0, app_nil_r.
    + rewrite take_app_le; [done|]. rewrite length_rev, length_drop. unfold k, len, MAX_AUDIT_EVENTS in *. lia.
Qed.

(** ** Witness *)

Definition empty_log : AuditLog := {| events := []; last_id := 0; retained_events := 0 |}.
Definition sample_log : AuditLog :=
  match record true 5 (lit "login") (lit "root") (lit "ok") empty_log with Done (_, s) => s | Panic => empty_log end.

Lemma audit_log_keeps_latest_witness :
  recent 10 sample_log = Done (Ok [new_event empty_log 5 (lit "login") (lit "root") (lit "ok")], sample_log).
Proof.
  assert (audit_history empty_log []) as H0 by (apply (audit_empty true); reflexivity).
  assert (record true 5 (lit "login") (lit "root") (lit "ok") empty_log = Done (Ok tt, sample_log)) as E by (vm_compute; reflexivity).
  destruct (audit_log_keeps_latest sample_log _ (audit_record _ _ _ _ _ _ _ _ _ H0 E)) as (_ & _ & _ & H).
  apply (H 10). lia.
Defined.
