(* ===== verification/AlertTables.v ===== *)
(** * Alerting: data ([alerting.rs])

    The enumerations of rules, events and deliveries with their texts, the records of the
    interface, and the rows of the four SQLite tables. A float is the value of an IEEE 754
    number ([spec_float]); its comparisons with NaN are false. *)

From Stdlib Require Import SpecFloat.
From S2P Require Import Prelude DbMonad RustStr AdminAuth.
Local Open Scope Z_scope.
Set Default Proof Using "Type".

(** ** Limits *)

Definition MAX_OUTSTANDING_NOTIFICATION_DELIVERIES : Z := 10000.
Definition NOTIFICATION_DELIVERY_LEASE_SECONDS : Z := 60.
Definition NOTIFICATION_DELIVERY_MAX_ATTEMPTS : Z := 10.
Definition NOTIFICATION_DELIVERY_BACKOFF_BASE_SECONDS : Z := 5.
Definition NOTIFICATION_DELIVERY_BACKOFF_MAX_SECONDS : Z := 3600.
Definition NOTIFICATION_DELIVERY_PAYLOAD_MAX_BYTES : Z := 64 * 1024.
Definition NOTIFICATION_DELIVERY_RETENTION_SECONDS : Z := 30 * 24 * 60 * 60.

(** ** Floats *)

Abbreviation f64 := spec_float.
Global Instance f64_eq_dec : EqDecision f64.
Proof. solve_decision. Defined.
Definition is_finite (x : f64) : bool := match x with S754_zero _ | S754_finite _ _ _ => true | _ => false end.
(** The float of a small positive integer. *)
Definition f64_of (m : positive) (e : Z) : f64 := S754_finite false m e.

(** ** Enumerations and their texts *)

Inductive AlertMetric :=
  | ClientOffline | PolicyUnavailable | AuthenticationFailures | TrafficBytesPerSecond | ActiveConnections
  | CertificateDaysRemaining | SloFastBurnRate | SloSlowBurnRate.
Global Instance AlertMetric_eq_dec : EqDecision AlertMetric.
Proof. solve_decision. Defined.
Inductive AlertComparator := GreaterOrEqual | LessOrEqual.
Global Instance AlertComparator_eq_dec : EqDecision AlertComparator.
Proof. solve_decision. Defined.
Inductive AlertSeverity := SeverityInfo | SeverityWarning | SeverityCritical.
Global Instance AlertSeverity_eq_dec : EqDecision AlertSeverity.
Proof. solve_decision. Defined.
Inductive NotificationChannel := Webhook | Email.
Global Instance NotificationChannel_eq_dec : EqDecision NotificationChannel.
Proof. solve_decision. Defined.
Inductive NotificationDeliveryState := DPending | DDelivering | DDelivered | DDeadLetter.
Global Instance NotificationDeliveryState_eq_dec : EqDecision NotificationDeliveryState.
Proof. solve_decision. Defined.

Definition metric_to_string (m : AlertMetric) : rstr :=
  match m with
  | ClientOffline => lit "client_offline"
  | PolicyUnavailable => lit "policy_unavailable"
  | AuthenticationFailures => lit "authentication_failures"
  | TrafficBytesPerSecond => lit "traffic_bytes_per_second"
  | ActiveConnections => lit "active_connections"
  | CertificateDaysRemaining => lit "certificate_days_remaining"
  | SloFastBurnRate => lit "slo_fast_burn_rate"
  | SloSlowBurnRate => lit "slo_slow_burn_rate"
  end.
Definition comparator_to_string (c : AlertComparator) : rstr :=
  match c with GreaterOrEqual => lit "greater_or_equal" | LessOrEqual => lit "less_or_equal" end.
Definition severity_to_string (s : AlertSeverity) : rstr :=
  match s with SeverityInfo => lit "info" | SeverityWarning => lit "warning" | SeverityCritical => lit "critical" end.
Definition channel_to_string (c : NotificationChannel) : rstr :=
  match c with Webhook => lit "webhook" | Email => lit "email" end.
Definition state_to_string (s : NotificationDeliveryState) : rstr :=
  match s with
  | DPending => lit "pending" | DDelivering => lit "delivering" | DDelivered => lit "delivered" | DDeadLetter => lit "dead_letter"
  end.

(** [match value { "..." => Ok(..), .. , _ => bail! }]: the first variant with this text. *)
Fixpoint parse_among {A} (text : A → rstr) (variants : list A) (value : rstr) : option A :=
  match variants with
  | [] => None
  | v :: variants => if bool_decide (value = text v) then Some v else parse_among text variants value
  end.
Definition metric_from_str : rstr → option AlertMetric :=
  parse_among metric_to_string
    [ClientOffline; PolicyUnavailable; AuthenticationFailures; TrafficBytesPerSecond; ActiveConnections;
     CertificateDaysRemaining; SloFastBurnRate; SloSlowBurnRate].
Definition comparator_from_str : rstr → option AlertComparator := parse_among comparator_to_string [GreaterOrEqual; LessOrEqual].
Definition severity_from_str : rstr → option AlertSeverity :=
  parse_among severity_to_string [SeverityInfo; SeverityWarning; SeverityCritical].
Definition channel_from_str : rstr → option NotificationChannel := parse_among channel_to_string [Webhook; Email].
Definition state_from_str : rstr → option NotificationDeliveryState :=
  parse_among state_to_string [DPending; DDelivering; DDelivered; DDeadLetter].

Lemma metric_round_trip m : metric_from_str (metric_to_string m) = Some m.
Proof. destruct m; vm_compute; reflexivity. Qed.
Lemma comparator_round_trip c : comparator_from_str (comparator_to_string c) = Some c.
Proof. destruct c; vm_compute; reflexivity. Qed.
Lemma severity_round_trip s : severity_from_str (severity_to_string s) = Some s.
Proof. destruct s; vm_compute; reflexivity. Qed.
Lemma channel_round_trip c : channel_from_str (channel_to_string c) = Some c.
Proof. destruct c; vm_compute; reflexivity. Qed.
Lemma delivery_state_round_trip s : state_from_str (state_to_string s) = Some s.
Proof. destruct s; vm_compute; reflexivity. Qed.
Global Instance state_to_string_inj : Inj (=) (=) state_to_string.
Proof. intros x y H. apply (f_equal state_from_str) in H. rewrite !delivery_state_round_trip in H. by injection H. Qed.

(** ** Records *)

Record AlertRule := {
  rule_id : Z;
  rule_name : rstr;
  metric : AlertMetric;
  comparator : AlertComparator;
  threshold : f64;
  target : option rstr;
  evaluation_window_seconds : Z;
  cooldown_seconds : Z;
  severity : AlertSeverity;
  notify_webhook : bool;
  notify_email : bool;
  rule_enabled : bool;
  rule_created : Z;
  rule_updated : Z;
}.
Record CreateAlertRule := {
  cr_name : rstr;
  cr_metric : AlertMetric;
  cr_comparator : AlertComparator;
  cr_threshold : f64;
  cr_target : option rstr;
  cr_window : Z;
  cr_cooldown : Z;
  cr_severity : AlertSeverity;
  cr_webhook : bool;
  cr_email : bool;
  cr_enabled : bool;
}.
Record AlertSignal := {
  sig_metric : AlertMetric;
  sig_subject : rstr;
  sig_value : f64;
  sig_message : rstr;
  sig_window : option Z;
}.
Record AlertEvent := {
  ev_id : Z;
  ev_rule_id : Z;
  ev_rule_name : rstr;
  ev_severity : AlertSeverity;
  ev_subject : rstr;
  ev_active : bool;
  ev_value : f64;
  ev_threshold : f64;
  ev_message : rstr;
  ev_started : Z;
  ev_updated : Z;
  ev_resolved : option Z;
  ev_last_notified : option Z;
}.
Record AlertNotification := { n_event : AlertEvent; n_resolved : bool; n_webhook : bool; n_email : bool }.
Record NotificationDelivery := {
  del_id : Z;
  del_idempotency_key : rstr;
  del_lease_token : rstr;
  del_channel : NotificationChannel;
  del_notification : AlertNotification;
  del_attempts : Z;
}.
Record NotificationDeliveryView := {
  view_id : Z;
  view_idempotency_key : rstr;
  view_event_id : Z;
  view_rule_name : rstr;
  view_subject : rstr;
  view_resolved : bool;
  view_channel : NotificationChannel;
  view_state : NotificationDeliveryState;
  view_attempts : Z;
  view_next_attempt : Z;
  view_lease_expires : option Z;
  view_last_error : option rstr;
  view_created : Z;
  view_updated : Z;
  view_delivered : option Z;
}.
Inductive NotificationDeliveryRetryOutcome :=
  | Retried (view : NotificationDeliveryView) | RetryNotFound | NotDeadLetter (state : NotificationDeliveryState).

(** ** Tables *)

Record RuleRow := {
  rr_name : rstr;
  rr_metric : rstr;
  rr_comparator : rstr;
  rr_threshold : f64;
  rr_target : option rstr;
  rr_window : Z;
  rr_cooldown : Z;
  rr_severity : rstr;
  rr_webhook : Z;
  rr_email : Z;
  rr_enabled : Z;
  rr_created : Z;
  rr_updated : Z;
}.
Record EventRow := {
  er_rule_id : rstr;
  er_rule_name : rstr;
  er_severity : rstr;
  er_subject : rstr;
  er_active : Z;
  er_value : f64;
  er_threshold : f64;
  er_message : rstr;
  er_started : Z;
  er_updated : Z;
  er_resolved : option Z;
  er_last_notified : option Z;
}.
Record DeliveryRow := {
  dr_key : rstr;
  dr_event_id : Z;
  dr_rule_name : rstr;
  dr_subject : rstr;
  dr_resolved : Z;
  dr_channel : rstr;
  dr_payload : rstr;
  dr_state : rstr;
  dr_attempts : Z;
  dr_next_attempt : Z;
  dr_lease_expires : option Z;
  dr_lease_token : option rstr;
  dr_last_error : option rstr;
  dr_created : Z;
  dr_updated : Z;
  dr_delivered : option Z;
}.
Record Counters := { delivered_total : Z; failed_attempts_total : Z; dead_letter_total : Z }.

(** The tables by primary key, and the counters of [AUTOINCREMENT]. *)
Record AlertCatalog := {
  alert_rules : gmap rstr RuleRow;
  alert_events : gmap Z EventRow;
  last_event : Z;
  deliveries : gmap Z DeliveryRow;
  last_delivery : Z;
  counters : Counters;
}.

Inductive AlertError :=
  | InvalidRuleName | ThresholdNotFinite | InvalidWindow | InvalidCooldown | TargetTooLong | QueueFull | PayloadTooLarge
  | UniqueViolated | ConversionFailed | DeliveryDisappeared.
Abbreviation alerts := (db AlertError AlertCatalog).

Definition set_rules (t : gmap rstr RuleRow) (s : AlertCatalog) : AlertCatalog :=
  {| alert_rules := t; alert_events := alert_events s; last_event := last_event s; deliveries := deliveries s;
     last_delivery := last_delivery s; counters := counters s |}.
Definition set_events (t : gmap Z EventRow) (n : Z) (s : AlertCatalog) : AlertCatalog :=
  {| alert_rules := alert_rules s; alert_events := t; last_event := n; deliveries := deliveries s;
     last_delivery := last_delivery s; counters := counters s |}.
Definition set_deliveries (t : gmap Z DeliveryRow) (n : Z) (s : AlertCatalog) : AlertCatalog :=
  {| alert_rules := alert_rules s; alert_events := alert_events s; last_event := last_event s; deliveries := t;
     last_delivery := n; counters := counters s |}.
Definition set_totals (c : Counters) (s : AlertCatalog) : AlertCatalog :=
  {| alert_rules := alert_rules s; alert_events := alert_events s; last_event := last_event s; deliveries := deliveries s;
     last_delivery := last_delivery s; counters := c |}.

(** [row.get::<_, i64>(i)?.max(0) as u64] and [.. as u32]. *)
Definition read_nonneg (n : Z) : Z := Z.max 0 n.
Definition read_u32 (n : Z) : Z := Z.max 0 n mod 2 ^ 32.

Lemma to_i64_clock n : n ≤ CLOCK_MAX + 1000000 → to_i64 n = n.
Proof. intros H. apply to_i64_small. unfold CLOCK_MAX in H. lia. Qed.
