(* ===== verification/AlertDelivery.v ===== *)
(** * Alerting: the queue of deliveries ([alerting.rs])

    Notifications wait in a table, one row per channel. A worker claims the rows that are due
    under a lease with a random token, and acknowledges or fails them; a lease that runs
    out makes the row due again. The text of a notification is JSON, a parameter
    ([NotificationJson]): it reads back for finite values. *)

From S2P Require Import Prelude DbMonad RustStr AdminAuth AlertTables.
Local Open Scope Z_scope.
Set Default Proof Using "Type".

Definition notification_finite (n : AlertNotification) : Prop :=
  is_finite (ev_value (n_event n)) = true ∧ is_finite (ev_threshold (n_event n)) = true.

Class NotificationJson := {
  notification_json : AlertNotification → rstr;
  parse_notification : rstr → option AlertNotification;
}.
Class NotificationJsonLaws `{NotificationJson} := {
  notification_reads_back : ∀ n, notification_finite n → parse_notification (notification_json n) = Some n;
}.

(** ** Error codes *)

Definition valid_status_code (value : rstr) : bool := (str_len value =? 3) && all is_ascii_digit (as_bytes value).
Definition valid_webhook_status_code (error : rstr) : bool :=
  match strip_prefix (lit "webhook_http_status_") error with Some value => valid_status_code value | None => false end.
Definition valid_stage (stage : rstr) : bool :=
  bool_decide (stage ∈ lit <$> ["greeting"; "ehlo"; "starttls"; "auth"; "mail_from"; "recipient"; "data"; "message"; "quit"]%string).
Definition valid_smtp_stage_code (error : rstr) : bool :=
  match strip_prefix (lit "smtp_io_") error with
  | Some stage => valid_stage stage
  | None =>
      match strip_prefix (lit "smtp_protocol_") error with
      | Some stage => valid_stage stage
      | None =>
          match strip_prefix (lit "smtp_status_") error with
          | None => false
          | Some rest =>
              match rsplit_once 95 rest with
              | None => false
              | Some (stage, status) => valid_stage stage && valid_status_code status
              end
          end
      end
  end.
Definition normalize_delivery_error_code (error : rstr) : rstr :=
  if bool_decide (error ∈ lit <$> ["webhook_invalid_configuration"; "webhook_timeout"; "webhook_transport"; "smtp_invalid_configuration";
                                   "smtp_timeout"; "smtp_connect"; "smtp_tls"; "notification_lease_expired"]%string)
     || valid_webhook_status_code error || valid_smtp_stage_code error
  then error else lit "notification_delivery_failed".

Definition notification_retry_delay_seconds (attempts : Z) : Z :=
  let exponent := Z.min (saturating_sub attempts 1) 31 in
  Z.min (Z.min U64_MAX (NOTIFICATION_DELIVERY_BACKOFF_BASE_SECONDS * Z.shiftl 1 exponent))
    NOTIFICATION_DELIVERY_BACKOFF_MAX_SECONDS.

(** ** Rows *)

Definition in_state (state : NotificationDeliveryState) (row : DeliveryRow) : bool := bool_decide (dr_state row = state_to_string state).
(** [state IN ('pending', 'delivering')]. *)
Definition is_outstanding (row : DeliveryRow) : bool := in_state DPending row || in_state DDelivering row.
Definition outstanding (s : AlertCatalog) : Z := map_count is_outstanding (deliveries s).

(** An UPDATE of the columns that operations change. *)
Definition set_delivery (state : NotificationDeliveryState) (attempts next : Z) (expires : option Z) (token error : option rstr)
    (updated : Z) (delivered : option Z) (row : DeliveryRow) : DeliveryRow :=
  {| dr_key := dr_key row; dr_event_id := dr_event_id row; dr_rule_name := dr_rule_name row; dr_subject := dr_subject row;
     dr_resolved := dr_resolved row; dr_channel := dr_channel row; dr_payload := dr_payload row; dr_state := state_to_string state;
     dr_attempts := attempts; dr_next_attempt := next; dr_lease_expires := expires; dr_lease_token := token;
     dr_last_error := error; dr_created := dr_created row; dr_updated := updated; dr_delivered := delivered |}.

Section queue.
Context {plat : Platform} {json : NotificationJson}.

Definition parse_notification_delivery (id : Z) (row : DeliveryRow) : result AlertError NotificationDelivery :=
  token ← ok_or (dr_lease_token row) ConversionFailed;
  channel ← ok_or (channel_from_str (dr_channel row)) ConversionFailed;
  notification ← ok_or (parse_notification (dr_payload row)) ConversionFailed;
  Ok {| del_id := id; del_idempotency_key := dr_key row; del_lease_token := token; del_channel := channel;
        del_notification := notification; del_attempts := read_u32 (dr_attempts row) |}.

Definition parse_notification_delivery_view (id : Z) (row : DeliveryRow) : result AlertError NotificationDeliveryView :=
  channel ← ok_or (channel_from_str (dr_channel row)) ConversionFailed;
  state ← ok_or (state_from_str (dr_state row)) ConversionFailed;
  Ok {| view_id := id; view_idempotency_key := dr_key row; view_event_id := dr_event_id row; view_rule_name := dr_rule_name row;
        view_subject := dr_subject row; view_resolved := negb (dr_resolved row =? 0); view_channel := channel; view_state := state;
        view_attempts := read_u32 (dr_attempts row); view_next_attempt := read_nonneg (dr_next_attempt row);
        view_lease_expires := read_nonneg <$> dr_lease_expires row; view_last_error := dr_last_error row;
        view_created := read_nonneg (dr_created row); view_updated := read_nonneg (dr_updated row);
        view_delivered := read_nonneg <$> dr_delivered row |}.

(** ** Enqueueing *)

(** [INSERT], refused for a key that is there. *)
Definition insert_delivery (row : DeliveryRow) : alerts unit :=
  clash ← db_get (λ s, any (λ x : Z * DeliveryRow, bool_decide (dr_key x.2 = dr_key row)) (map_to_list (deliveries s)));
  _ ← db_ensure (negb clash) UniqueViolated;
  db_put (λ s, set_deliveries (<[last_delivery s + 1 := row]> (deliveries s)) (last_delivery s + 1) s).

Definition new_delivery (key : Z) (n : AlertNotification) (channel : NotificationChannel) (payload : rstr) (now : Z) : DeliveryRow :=
  {| dr_key := uuid_string key; dr_event_id := ev_id (n_event n); dr_rule_name := ev_rule_name (n_event n);
     dr_subject := ev_subject (n_event n); dr_resolved := sql_bool (n_resolved n); dr_channel := channel_to_string channel;
     dr_payload := payload; dr_state := state_to_string DPending; dr_attempts := 0; dr_next_attempt := to_i64 now;
     dr_lease_expires := None; dr_lease_token := None; dr_last_error := None; dr_created := to_i64 now; dr_updated := to_i64 now;
     dr_delivered := None |}.

Definition channels_of (n : AlertNotification) : list NotificationChannel :=
  (if n_webhook n then [Webhook] else []) ++ (if n_email n then [Email] else []).

(** [key] is the first of the UUIDs drawn. *)
Fixpoint insert_channels (keys : nat → Z) (i : nat) (n : AlertNotification) (payload : rstr) (now : Z)
    (channels : list NotificationChannel) : alerts nat :=
  match channels with
  | [] => mret i
  | channel :: channels =>
      _ ← insert_delivery (new_delivery (keys i) n channel payload now);
      insert_channels keys (S i) n payload now channels
  end.

Definition enqueue_notification_deliveries (keys : nat → Z) (i : nat) (n : AlertNotification) (now : Z) : alerts nat :=
  let channels := channels_of n in
  if bool_decide (channels = []) then mret i
  else
    waiting ← db_get outstanding;
    _ ← db_ensure (saturating_add U64_MAX waiting (len channels) <=? MAX_OUTSTANDING_NOTIFICATION_DELIVERIES) QueueFull;
    let payload := notification_json n in
    _ ← db_ensure (str_len payload <=? NOTIFICATION_DELIVERY_PAYLOAD_MAX_BYTES) PayloadTooLarge;
    insert_channels keys i n payload now channels.

(** ** Claiming *)

(** A row whose lease is over goes back to the queue. *)
Definition requeue_expired (now : Z) (row : DeliveryRow) : DeliveryRow :=
  if in_state DDelivering row && match dr_lease_expires row with Some t => t <=? to_i64 now | None => false end
  then set_delivery DPending (dr_attempts row) (dr_next_attempt row) None None
         (Some (default (lit "notification_lease_expired") (dr_last_error row))) (to_i64 now) (dr_delivered row) row
  else row.
(** Rows that the retention deletes. *)
Definition outdated (now : Z) (row : DeliveryRow) : bool :=
  (in_state DDelivered row || in_state DDeadLetter row) &&
  (dr_updated row <? to_i64 (saturating_sub now NOTIFICATION_DELIVERY_RETENTION_SECONDS)).

Definition is_due (now : Z) (row : DeliveryRow) : bool := in_state DPending row && (dr_next_attempt row <=? to_i64 now).
Definition due_order (x y : Z * DeliveryRow) : bool :=
  (dr_next_attempt x.2 <? dr_next_attempt y.2) || ((dr_next_attempt x.2 =? dr_next_attempt y.2) && (x.1 <=? y.1)).
Definition due_rows (now : Z) (s : AlertCatalog) : list (Z * DeliveryRow) :=
  merge_sort due_order (map_to_list (filter (λ x : Z * DeliveryRow, is_due now x.2 = true) (deliveries s))).

Definition lease_row (token : rstr) (now : Z) (row : DeliveryRow) : DeliveryRow :=
  set_delivery DDelivering (dr_attempts row + 1) (dr_next_attempt row)
    (Some (to_i64 (saturating_add U64_MAX now NOTIFICATION_DELIVERY_LEASE_SECONDS))) (Some token) (dr_last_error row)
    (to_i64 now) (dr_delivered row) row.

(** [tokens i]: the UUID drawn for the i-th row. *)
Fixpoint claim_loop (tokens : nat → Z) (i : nat) (now : Z) (ids : list Z) : alerts (list NotificationDelivery) :=
  match ids with
  | [] => mret []
  | id :: ids =>
      row ← db_get (λ s, deliveries s !! id);
      match row with
      | Some row =>
          if in_state DPending row then
            let row := lease_row (uuid_string (tokens i)) now row in
            _ ← db_put (λ s, set_deliveries (<[id := row]> (deliveries s)) (last_delivery s) s);
            delivery ← db_lift (parse_notification_delivery id row);
            rest ← claim_loop tokens (S i) now ids;
            mret (delivery :: rest)
          else claim_loop tokens (S i) now ids
      | None => claim_loop tokens (S i) now ids
      end
  end.

Definition claim_notification_deliveries (now limit : Z) (tokens : nat → Z) : alerts (list NotificationDelivery) :=
  if limit =? 0 then mret []
  else transaction (
    _ ← db_put (λ s, set_deliveries (requeue_expired now <$> deliveries s) (last_delivery s) s);
    _ ← db_put (λ s, set_deliveries (filter (λ x : Z * DeliveryRow, outdated now x.2 = false) (deliveries s)) (last_delivery s) s);
    ids ← db_get (λ s, fst <$> take (Z.to_nat (Z.max 1 (Z.min 64 limit))) (due_rows now s));
    claimed ← claim_loop tokens 0 now ids;
    mret (true, claimed)).

(** ** Outcomes *)

(** [id = ?1 AND state = 'delivering' AND lease_token = ?2 AND lease_expires_unix_seconds > ?3]. *)
Definition holds_lease (d : NotificationDelivery) (now : Z) (row : DeliveryRow) : bool :=
  in_state DDelivering row && bool_decide (dr_lease_token row = Some (del_lease_token d)) &&
  match dr_lease_expires row with Some t => to_i64 now <? t | None => false end.

Definition count_outcome (delivered failed dead : Z) (s : AlertCatalog) : AlertCatalog :=
  set_totals {| delivered_total := delivered_total (counters s) + delivered;
                  failed_attempts_total := failed_attempts_total (counters s) + failed;
                  dead_letter_total := dead_letter_total (counters s) + dead |} s.

Definition acknowledge_notification_delivery (d : NotificationDelivery) (now : Z) : alerts bool :=
  transaction (
    row ← db_get (λ s, deliveries s !! del_id d);
    match row with
    | Some row =>
        if holds_lease d now row then
          _ ← db_put (λ s, set_deliveries (<[del_id d := set_delivery DDelivered (dr_attempts row) (dr_next_attempt row) None None None
                             (to_i64 now) (Some (to_i64 now)) row]> (deliveries s)) (last_delivery s) s);
          _ ← db_put (count_outcome 1 0 0);
          mret (true, true)
        else mret (true, false)
    | None => mret (true, false)
    end).

Definition fail_notification_delivery (d : NotificationDelivery) (now : Z) (error : rstr) : alerts (option NotificationDeliveryState) :=
  transaction (
    row ← db_get (λ s, deliveries s !! del_id d);
    match row with
    | Some row =>
        if holds_lease d now row then
          let attempts := read_u32 (dr_attempts row) in
          let dead_letter := NOTIFICATION_DELIVERY_MAX_ATTEMPTS <=? attempts in
          let state := if dead_letter then DDeadLetter else DPending in
          let next_attempt := if dead_letter then now else saturating_add U64_MAX now (notification_retry_delay_seconds attempts) in
          _ ← db_put (λ s, set_deliveries (<[del_id d := set_delivery state (dr_attempts row) (to_i64 next_attempt) None None
                             (Some (normalize_delivery_error_code error)) (to_i64 now) (dr_delivered row) row]> (deliveries s)) (last_delivery s) s);
          _ ← db_put (count_outcome 0 1 (sql_bool dead_letter));
          mret (true, Some state)
        else mret (true, None)
    | None => mret (true, None)
    end).

Definition retry_notification_delivery (id now : Z) : alerts NotificationDeliveryRetryOutcome :=
  transaction (
    row ← db_get (λ s, deliveries s !! id);
    match row with
    | None => mret (true, RetryNotFound)
    | Some row =>
        state ← db_lift (ok_or (state_from_str (dr_state row)) ConversionFailed);
        if negb (bool_decide (state = DDeadLetter)) then mret (true, NotDeadLetter state)
        else
          waiting ← db_get outstanding;
          _ ← db_ensure (waiting <? MAX_OUTSTANDING_NOTIFICATION_DELIVERIES) QueueFull;
          let row := set_delivery DPending 0 (to_i64 now) None None None (to_i64 now) None row in
          _ ← db_put (λ s, set_deliveries (<[id := row]> (deliveries s)) (last_delivery s) s);
          view ← db_lift (parse_notification_delivery_view id row);
          mret (true, Retried view)
    end).

(** ** Reading *)

(** [ORDER BY updated_unix_seconds DESC, id DESC]. *)
Definition recent_first (x y : Z * DeliveryRow) : bool :=
  (dr_updated y.2 <? dr_updated x.2) || ((dr_updated y.2 =? dr_updated x.2) && (y.1 <=? x.1)).
Definition list_notification_deliveries (limit : Z) (state : option NotificationDeliveryState) (channel : option NotificationChannel)
    : alerts (list NotificationDeliveryView) :=
  rows ← db_get (λ s, take (Z.to_nat (Z.max 1 (Z.min 1000 limit))) (merge_sort recent_first (map_to_list
    (filter (λ x : Z * DeliveryRow,
       (match state with Some st => in_state st x.2 | None => true end &&
        match channel with Some c => bool_decide (dr_channel x.2 = channel_to_string c) | None => true end) = true) (deliveries s)))));
  db_lift (collect (λ '(id, row), parse_notification_delivery_view id row) rows).

Record NotificationDeliveryMetrics := {
  waiting_count : Z; retrying_count : Z; in_flight_count : Z; dead_letter_count : Z;
  delivered_sum : Z; failures_sum : Z; dead_letters_sum : Z; oldest_pending_age : Z;
  webhook_pending : Z; webhook_in_flight : Z; webhook_dead_letter : Z;
  email_pending : Z; email_in_flight : Z; email_dead_letter : Z;
}.
(** [MIN(CASE WHEN state IN ('pending', 'delivering') THEN created_unix_seconds END)]. *)
Definition oldest_outstanding (s : AlertCatalog) : option Z :=
  map_fold (λ _ row acc, if is_outstanding row then Some (match acc with Some t => Z.min t (dr_created row) | None => dr_created row end) else acc)
    None (deliveries s).
Definition notification_delivery_metrics (now : Z) : alerts NotificationDeliveryMetrics :=
  let count p := db_get (λ s, map_count p (deliveries s)) in
  let with_channel c st := λ row : DeliveryRow, bool_decide (dr_channel row = channel_to_string c) && in_state st row in
  pending ← count (λ row, in_state DPending row && (dr_attempts row =? 0));
  retrying ← count (λ row, in_state DPending row && (0 <? dr_attempts row));
  in_flight ← count (in_state DDelivering);
  dead_letter ← count (in_state DDeadLetter);
  oldest ← db_get oldest_outstanding;
  totals ← db_get counters;
  wp ← count (with_channel Webhook DPending); wi ← count (with_channel Webhook DDelivering); wd ← count (with_channel Webhook DDeadLetter);
  ep ← count (with_channel Email DPending); ei ← count (with_channel Email DDelivering); ed ← count (with_channel Email DDeadLetter);
  mret {| waiting_count := pending; retrying_count := retrying; in_flight_count := in_flight; dead_letter_count := dead_letter;
          delivered_sum := read_nonneg (delivered_total totals); failures_sum := read_nonneg (failed_attempts_total totals);
          dead_letters_sum := read_nonneg (dead_letter_total totals);
          oldest_pending_age := match oldest with Some t => saturating_sub now (read_nonneg t) | None => 0 end;
          webhook_pending := wp; webhook_in_flight := wi; webhook_dead_letter := wd;
          email_pending := ep; email_in_flight := ei; email_dead_letter := ed |}.
End queue.

(** ** The ledger

    What a history has sent, handed to workers and settled. [sent]: the notification and the
    channel of every delivery enqueued; [handed]: the deliveries handed out, oldest first, with
    the end of their lease; [settled]: identifier, token, time and new state of
    every outcome accepted. *)

Record Handed := { h_delivery : NotificationDelivery; h_expires : Z }.
Record Settled := { se_id : Z; se_token : rstr; se_at : Z; se_state : NotificationDeliveryState }.
Record Ledger := {
  sent : gmap Z (NotificationChannel * AlertNotification);
  handed : list Handed;
  settled : list Settled;
}.

Definition h_id (h : Handed) : Z := del_id (h_delivery h).
Definition h_token (h : Handed) : rstr := del_lease_token (h_delivery h).
(** The last delivery handed out for an identifier. *)
Definition holder (g : Ledger) (id : Z) : option Handed := last (filter (λ h, h_id h = id) (handed g)).
Definition is_settled (g : Ledger) (h : Handed) : Prop := (h_id h, h_token h) ∈ (λ x, (se_id x, se_token x)) <$> settled g.
(** Nobody works on a delivery any more: its holder has settled it, or its lease is over. *)
Definition unheld (g : Ledger) (id now : Z) : Prop := ∀ h, holder g id = Some h → is_settled g h ∨ h_expires h ≤ now.
(** The delivery was sent, or given up. *)
Definition is_closed (g : Ledger) (id at_ : Z) : Prop :=
  0 ≤ at_ ∧ ∃ x, x ∈ settled g ∧ se_id x = id ∧ se_at x = at_ ∧ (se_state x = DDelivered ∨ se_state x = DDeadLetter).

Definition hand (h : Handed) (g : Ledger) : Ledger := {| sent := sent g; handed := handed g ++ [h]; settled := settled g |}.
Definition book (x : Settled) (g : Ledger) : Ledger := {| sent := sent g; handed := handed g; settled := settled g ++ [x] |}.
Definition send (id : Z) (x : NotificationChannel * AlertNotification) (g : Ledger) : Ledger :=
  {| sent := <[id := x]> (sent g); handed := handed g; settled := settled g |}.

Definition settled_as (state : NotificationDeliveryState) (g : Ledger) : Z := len (filter (λ x, se_state x = state) (settled g)).

Section ledger.
Context {plat : Platform} {json : NotificationJson}.

(** What a row says of its state agrees with the ledger. *)
Definition state_ok (g : Ledger) (latest id : Z) (row : DeliveryRow) (st : NotificationDeliveryState) : Prop :=
  match st with
  | DDelivering => ∃ h, holder g id = Some h ∧ dr_lease_token row = Some (h_token h) ∧ dr_lease_expires row = Some (h_expires h) ∧ ¬ is_settled g h
  | DPending => unheld g id latest
  | _ => unheld g id latest ∧ is_closed g id (dr_updated row)
  end.
Definition delivery_ok (g : Ledger) (latest id : Z) (row : DeliveryRow) : Prop :=
  (∃ c n, sent g !! id = Some (c, n) ∧ dr_channel row = channel_to_string c ∧ parse_notification (dr_payload row) = Some n) ∧
  ∃ st, dr_state row = state_to_string st ∧ state_ok g latest id row st.

Record ledger_ok (s : AlertCatalog) (g : Ledger) (latest : Z) : Prop := {
  lo_rows : map_Forall (delivery_ok g latest) (deliveries s);
  lo_kept : ∀ id, is_Some (sent g !! id) → deliveries s !! id = None →
            unheld g id latest ∧ ∃ t, is_closed g id t ∧ t + NOTIFICATION_DELIVERY_RETENTION_SECONDS < latest;
  lo_ids : ∀ id, is_Some (sent g !! id) → 1 ≤ id ≤ last_delivery s;
  lo_handed : ∀ h, h ∈ handed g → is_Some (sent g !! h_id h);
  lo_tokens : NoDup (h_token <$> handed g);
  lo_settled : ∀ x, x ∈ settled g → ∃ h, h ∈ handed g ∧ h_id h = se_id x ∧ h_token h = se_token x;
  lo_once : NoDup (se_token <$> settled g);
  lo_full : outstanding s ≤ MAX_OUTSTANDING_NOTIFICATION_DELIVERIES;
  lo_last : 0 ≤ last_delivery s;
  lo_counters : counters s = {| delivered_total := settled_as DDelivered g;
                                failed_attempts_total := settled_as DPending g + settled_as DDeadLetter g;
                                dead_letter_total := settled_as DDeadLetter g |};
}.

(** ** Lemmas on the ledger *)

Lemma in_state_spec st st' row : dr_state row = state_to_string st → in_state st' row = bool_decide (st = st').
Proof.
  intros E. unfold in_state. rewrite E. apply bool_decide_ext. split; intros H; [by apply (inj state_to_string)|by subst].
Qed.
Lemma is_outstanding_spec st row :
  dr_state row = state_to_string st → is_outstanding row = bool_decide (st = DPending ∨ st = DDelivering).
Proof. intros E. unfold is_outstanding. rewrite !(in_state_spec st) by done. by destruct st. Qed.

Lemma outstanding_insert s id old row n :
  deliveries s !! id = Some old →
  outstanding (set_deliveries (<[id := row]> (deliveries s)) n s) =
    outstanding s + (if is_outstanding row then 1 else 0) - (if is_outstanding old then 1 else 0).
Proof. intros H. unfold outstanding, map_count. cbn [deliveries set_deliveries]. rewrite (map_sum_replace _ _ _ old) by done. lia. Qed.
Lemma outstanding_new s id row n :
  deliveries s !! id = None →
  outstanding (set_deliveries (<[id := row]> (deliveries s)) n s) = (if is_outstanding row then 1 else 0) + outstanding s.
Proof. intros H. unfold outstanding, map_count. cbn [deliveries set_deliveries]. by rewrite map_sum_insert. Qed.

Lemma holder_in g id h : holder g id = Some h → h ∈ handed g ∧ h_id h = id.
Proof. unfold holder. intros H. apply last_Some_elem_of, list_elem_of_filter in H. tauto. Qed.
Lemma holder_hand g h id : holder (hand h g) id = if decide (h_id h = id) then Some h else holder g id.
Proof.
  unfold holder. cbn [handed hand]. rewrite filter_app. cbn. unfold filter at 2. cbn. case_decide; [by rewrite last_snoc|by rewrite app_nil_r].
Qed.
Lemma is_settled_settle g x h : is_settled (book x g) h ↔ is_settled g h ∨ (h_id h = se_id x ∧ h_token h = se_token x).
Proof.
  unfold is_settled. cbn [settled book]. rewrite fmap_app, elem_of_app. cbn. rewrite list_elem_of_singleton. split; intros [H|H]; auto.
  - injection H as H1 H2. auto.
  - destruct H as [-> ->]. auto.
Qed.
Lemma unheld_mono g id latest now : unheld g id latest → latest ≤ now → unheld g id now.
Proof. intros H Hle h Hh. destruct (H h Hh); [by left|right; lia]. Qed.
Lemma unheld_settle g x id now : unheld g id now → unheld (book x g) id now.
Proof. intros H h Hh. destruct (H h Hh); [left; apply is_settled_settle; by left|by right]. Qed.
Lemma is_closed_settle g x id t : is_closed g id t → is_closed (book x g) id t.
Proof. intros (H0 & y & Hy & H). split; [done|]. exists y. split; [|done]. cbn. apply elem_of_app. by left. Qed.

Lemma state_ok_mono g latest now id row st : state_ok g latest id row st → latest ≤ now → state_ok g now id row st.
Proof. destruct st; cbn; intros H Hle; [by eapply unheld_mono|done|destruct H; split; [by eapply unheld_mono|done]..]. Qed.
Lemma delivery_ok_mono g latest now id row : delivery_ok g latest id row → latest ≤ now → delivery_ok g now id row.
Proof. intros (H1 & st & H2 & H3) Hle. split; [done|]. exists st. split; [done|]. by eapply state_ok_mono. Qed.
Lemma ledger_mono s g latest now : ledger_ok s g latest → latest ≤ now → ledger_ok s g now.
Proof.
  intros [] Hle. split; try done.
  - intros id row H. eapply delivery_ok_mono; [by apply lo_rows0|done].
  - intros id Hs Hn. destruct (lo_kept0 id Hs Hn) as (Hu & t & Hc & Ht). split; [by eapply unheld_mono|]. exists t. split; [done|lia].
Qed.
(** The ledger only speaks of the queue. *)
Lemma ledger_frame s s' g latest :
  deliveries s' = deliveries s → last_delivery s' = last_delivery s → counters s' = counters s →
  ledger_ok s g latest → ledger_ok s' g latest.
Proof. intros E1 E2 E3 []. split; unfold outstanding in *; rewrite ?E1, ?E2, ?E3; try done. Qed.

Lemma settled_as_settle st x g : settled_as st (book x g) = settled_as st g + if decide (se_state x = st) then 1 else 0.
Proof.
  unfold settled_as. cbn [settled book]. rewrite filter_app, len_app. f_equal. unfold filter. cbn. by case_decide.
Qed.

(** ** One row changes *)

Abbreviation put_row s id row := (set_deliveries (<[id := row]> (deliveries s)) (last_delivery s) s).

Lemma delivery_ok_hand g h latest id row : id ≠ h_id h → delivery_ok g latest id row → delivery_ok (hand h g) latest id row.
Proof.
  intros Hne (Hsent & st & Hst & Hok). split; [done|]. exists st. split; [done|].
  assert (holder (hand h g) id = holder g id) as E by (rewrite holder_hand; case_decide; congruence).
  destruct st; unfold state_ok, unheld in *; rewrite E; exact Hok.
Qed.
Lemma delivery_ok_settle g x latest id row : id ≠ se_id x → delivery_ok g latest id row → delivery_ok (book x g) latest id row.
Proof.
  intros Hne (Hsent & st & Hst & Hok). split; [done|]. exists st. split; [done|]. destruct st; cbn in *.
  - by apply unheld_settle.
  - destruct Hok as (h & Hh & H1 & H2 & H3). exists h. split_and!; [done..|]. intros [H|[H _]]%is_settled_settle; [done|].
    apply holder_in in Hh as [_ Hh]. congruence.
  - destruct Hok. split; [by apply unheld_settle|by apply is_closed_settle].
  - destruct Hok. split; [by apply unheld_settle|by apply is_closed_settle].
Qed.

(** The parts of the ledger that replacing a row leaves alone. *)
Lemma ledger_replace s g g' latest id row row' c :
  ledger_ok s g latest → deliveries s !! id = Some row → sent g' = sent g →
  (∀ id' r, id' ≠ id → delivery_ok g latest id' r → delivery_ok g' latest id' r) →
  (∀ id' t, is_closed g id' t → is_closed g' id' t) →
  (∀ id', id' ≠ id → unheld g id' latest → unheld g' id' latest) →
  delivery_ok g' latest id row' →
  outstanding (put_row s id row') ≤ MAX_OUTSTANDING_NOTIFICATION_DELIVERIES →
  (∀ h, h ∈ handed g' → is_Some (sent g !! h_id h)) → NoDup (h_token <$> handed g') →
  (∀ x, x ∈ settled g' → ∃ h, h ∈ handed g' ∧ h_id h = se_id x ∧ h_token h = se_token x) → NoDup (se_token <$> settled g') →
  c = {| delivered_total := settled_as DDelivered g'; failed_attempts_total := settled_as DPending g' + settled_as DDeadLetter g';
         dead_letter_total := settled_as DDeadLetter g' |} →
  ledger_ok (set_totals c (put_row s id row')) g' latest.
Proof.
  intros Hok Hrow Hsent Hothers Hclosed Hunheld Hnew Hfull Hhanded Htokens Hsettled Honce Hc.
  pose proof Hok as [H1 H2 H3 H4 H5 H6 H7 H8 H9 H10]. split; cbn [deliveries last_delivery counters set_deliveries set_totals]; rewrite ?Hsent; try done.
  - intros id' r [[<- <-]|[Hne Hr]]%lookup_insert_Some; [done|]. apply Hothers; [congruence|]. by apply H1.
  - intros id' Hs Hn. apply lookup_insert_None in Hn as [Hn Hne]. destruct (H2 id' Hs Hn) as (Hu & t & Ht & Hlt). split; [by apply Hunheld|]. exists t. split; [by apply Hclosed|done].
Qed.

Lemma ledger_same s g latest id row row' :
  ledger_ok s g latest → deliveries s !! id = Some row → delivery_ok g latest id row' →
  outstanding (put_row s id row') ≤ MAX_OUTSTANDING_NOTIFICATION_DELIVERIES → ledger_ok (put_row s id row') g latest.
Proof.
  intros Hok Hrow Hnew Hfull. pose proof Hok as [H1 H2 H3 H4 H5 H6 H7 H8 H9 H10].
  refine (ledger_frame _ _ _ _ _ _ _ (ledger_replace s g g latest id row row' _ Hok Hrow eq_refl _ _ _ Hnew Hfull H4 H5 H6 H7 eq_refl)); by auto.
Qed.

Lemma ledger_hand s g latest id row row' h :
  ledger_ok s g latest → deliveries s !! id = Some row → is_outstanding row = true → is_outstanding row' = true →
  h_id h = id → h_token h ∉ h_token <$> handed g → delivery_ok (hand h g) latest id row' →
  ledger_ok (put_row s id row') (hand h g) latest.
Proof.
  intros Hok Hrow Hout Hout' Hid Hfresh Hnew. pose proof Hok as [H1 H2 H3 H4 H5 H6 H7 H8 H9 H10].
  refine (ledger_frame _ _ _ _ _ _ _ (ledger_replace s g (hand h g) latest id row row' (counters s) Hok Hrow eq_refl _ _ _ Hnew _ _ _ _ H7 H10)); try done.
  - intros id' r Hne Hr. apply delivery_ok_hand; [congruence|done].
  - intros id' Hne Hu h'. rewrite holder_hand, decide_False by congruence. apply Hu.
  - rewrite (outstanding_insert s id row) by done. rewrite Hout, Hout'. lia.
  - cbn. intros h' [Hh|Hh]%elem_of_app; [by apply H4|]. apply list_elem_of_singleton in Hh as ->. rewrite Hid.
    destruct (H1 id row Hrow) as [(c & n & -> & _) _]. by eexists.
  - cbn. rewrite fmap_app. apply NoDup_app. split_and!; [done| |apply NoDup_singleton]. cbn. intros t Ht Hx.
    apply list_elem_of_singleton in Hx as ->. done.
  - cbn. intros x Hx. destruct (H6 x Hx) as (h' & Hh' & ?). exists h'. split; [|done]. apply elem_of_app. by left.
Qed.

Lemma ledger_settle s g latest id row row' h st at_ :
  ledger_ok s g latest → deliveries s !! id = Some row → is_outstanding row = true → 
  holder g id = Some h → ¬ is_settled g h →
  delivery_ok (book {| se_id := id; se_token := h_token h; se_at := at_; se_state := st |} g) latest id row' →
  st ≠ DDelivering →
  ledger_ok (count_outcome (if decide (st = DDelivered) then 1 else 0) (if decide (st = DDelivered) then 0 else 1)
               (if decide (st = DDeadLetter) then 1 else 0) (put_row s id row'))
    (book {| se_id := id; se_token := h_token h; se_at := at_; se_state := st |} g) latest.
Proof.
  intros Hok Hrow Hout Hh Hns Hnew Hst. pose proof Hok as [H1 H2 H3 H4 H5 H6 H7 H8 H9 H10]. set (x := Build_Settled _ _ _ _) in *.
  pose proof (holder_in _ _ _ Hh) as [Hin Hhid].
  apply (ledger_replace s g (book x g) latest id row row'); try done.
  - intros id' r Hne Hr. by apply delivery_ok_settle.
  - intros id' t. apply is_closed_settle.
  - intros id' _. apply unheld_settle.
  - rewrite (outstanding_insert s id row) by done. rewrite Hout. destruct (is_outstanding row'); lia.
  - cbn. intros y [Hy|Hy]%elem_of_app; [by apply H6|]. apply list_elem_of_singleton in Hy as ->. by exists h.
  - cbn. rewrite fmap_app. apply NoDup_app. split_and!; [done| |apply NoDup_singleton]. cbn. intros t Ht Hx.
    apply list_elem_of_singleton in Hx as ->. apply Hns. apply list_elem_of_fmap in Ht as (y & Ey & Hy).
    destruct (H6 y Hy) as (h' & Hh' & E1 & E2).
    assert (h' = h) as ->.
    { apply list_elem_of_lookup in Hh' as [i Hi]. apply list_elem_of_lookup in Hin as [j Hj].
      assert (i = j) as ->; [|congruence]. apply (NoDup_lookup _ i j (h_token h) H5); rewrite list_lookup_fmap.
      - rewrite Hi. cbn. congruence.
      - by rewrite Hj. }
    unfold is_settled. apply list_elem_of_fmap. exists y. split; [congruence|done].
  - cbn [counters set_deliveries]. rewrite H10, !settled_as_settle. cbn [se_state x delivered_total failed_attempts_total dead_letter_total].
    destruct st; cbn; f_equal; repeat case_decide; try done; lia.
Qed.

(** ** Operations keep the ledger *)

Lemma holds_lease_spec s g latest d now row :
  ledger_ok s g latest → deliveries s !! del_id d = Some row → 0 ≤ now ≤ CLOCK_MAX → holds_lease d now row = true →
  ∃ h, holder g (del_id d) = Some h ∧ h_token h = del_lease_token d ∧ now < h_expires h ∧ ¬ is_settled g h ∧ is_outstanding row = true.
Proof.
  intros Hok Hrow Hnow Hl. destruct (lo_rows _ _ _ Hok _ _ Hrow) as (_ & st & Hst & Hs). unfold holds_lease in Hl.
  rewrite (in_state_spec st) in Hl by done. apply andb_true_iff in Hl as [[Hd Ht]%andb_true_iff Hx].
  apply bool_decide_eq_true in Hd as ->. apply bool_decide_eq_true in Ht. destruct Hs as (h & Hh & E1 & E2 & Hn). exists h.
  rewrite E1 in Ht. injection Ht as Ht. rewrite E2 in Hx. rewrite to_i64_clock in Hx by lia. apply Z.ltb_lt in Hx.
  split_and!; [done..|]. by rewrite (is_outstanding_spec DDelivering).
Qed.

(** The worker of [d] has the delivery: it is the last it was handed to, its lease runs and it
    has not settled yet. *)
Definition holds (g : Ledger) (d : NotificationDelivery) (now : Z) : Prop :=
  ∃ h, holder g (del_id d) = Some h ∧ h_token h = del_lease_token d ∧ now < h_expires h ∧ ¬ is_settled g h.
Lemma holds_row s g latest d now : ledger_ok s g latest → latest ≤ now → 0 ≤ now ≤ CLOCK_MAX → holds g d now →
  ∃ row, deliveries s !! del_id d = Some row ∧ holds_lease d now row = true.
Proof.
  intros Hok Hle Hnow (h & Hh & Ht & Hx & Hn). assert (¬ unheld g (del_id d) latest) as Hu by (intros Hu; destruct (Hu h Hh); [done|lia]).
  pose proof (holder_in _ _ _ Hh) as [Hin Hid]. pose proof (lo_handed _ _ _ Hok h Hin) as Hsent. rewrite Hid in Hsent.
  destruct (deliveries s !! del_id d) as [row|] eqn:Hrow; [|by destruct (lo_kept _ _ _ Hok _ Hsent Hrow)]. exists row. split; [done|].
  destruct (lo_rows _ _ _ Hok _ _ Hrow) as (_ & st & Hst & Hs). destruct st; cbn [state_ok] in Hs; [done| |by destruct Hs..].
  destruct Hs as (h' & Hh' & E1 & E2 & _). assert (h' = h) as -> by congruence. unfold holds_lease. rewrite (in_state_spec DDelivering), E1, E2, Ht, !bool_decide_true by done.
  rewrite to_i64_clock by lia. by apply Z.ltb_lt.
Qed.

Lemma acknowledge_ok s g latest d now :
  ledger_ok s g latest → latest ≤ now → 0 ≤ now ≤ CLOCK_MAX →
  ensures (acknowledge_notification_delivery d now) s (λ out s',
    (out = Ok false ∧ s' = s ∧ ¬ holds g d now) ∨
    (out = Ok true ∧ holds g d now ∧
       ledger_ok s' (book {| se_id := del_id d; se_token := del_lease_token d; se_at := now; se_state := DDelivered |} g) now)).
Proof.
  intros Hok Hle Hnow. pose proof (holds_row s g latest d now Hok Hle Hnow) as Hholds. unfold acknowledge_notification_delivery. do 2 db_step.
  db_step. destruct (deliveries s !! del_id d) as [row|] eqn:Hrow; [|db_step; left; split_and!; [done|done|intros (r & ? & ?)%Hholds; congruence]].
  destruct (holds_lease d now row) eqn:Hl; [|db_step; left; split_and!; [done|done|intros (r & ? & ?)%Hholds; congruence]]. do 5 db_step. right. split; [done|].
  destruct (holds_lease_spec _ _ _ _ _ _ Hok Hrow Hnow Hl) as (h & Hh & Ht & Hx & Hn & Hout). split; [by exists h|].
  rewrite <- Ht. eapply (ledger_settle s g now (del_id d) row _ h DDelivered now); try done; [by eapply ledger_mono|].
  destruct (lo_rows _ _ _ Hok _ _ Hrow) as ((c & n & Hsent) & _). split; [by exists c, n|]. exists DDelivered. split; [done|].
  split.
  - intros h' Hh'. left. apply is_settled_settle. right. cbn. replace h' with h; [|unfold holder in *; cbn in *; congruence].
    by apply holder_in in Hh as [_ Hh].
  - cbn [dr_updated set_delivery]. rewrite to_i64_clock by lia. split; [lia|]. eexists. split; [cbn; apply elem_of_app; right; by apply list_elem_of_singleton|]. cbn. auto.
Qed.

Lemma fail_ok s g latest d now error :
  ledger_ok s g latest → latest ≤ now → 0 ≤ now ≤ CLOCK_MAX →
  ensures (fail_notification_delivery d now error) s (λ out s',
    (out = Ok None ∧ s' = s ∧ ¬ holds g d now) ∨
    (∃ st, out = Ok (Some st) ∧ (st = DPending ∨ st = DDeadLetter) ∧ holds g d now ∧
       ledger_ok s' (book {| se_id := del_id d; se_token := del_lease_token d; se_at := now; se_state := st |} g) now)).
Proof.
  intros Hok Hle Hnow. pose proof (holds_row s g latest d now Hok Hle Hnow) as Hholds. unfold fail_notification_delivery. do 2 db_step.
  db_step. destruct (deliveries s !! del_id d) as [row|] eqn:Hrow; [|db_step; left; split_and!; [done|done|intros (r & ? & ?)%Hholds; congruence]].
  destruct (holds_lease d now row) eqn:Hl; [|db_step; left; split_and!; [done|done|intros (r & ? & ?)%Hholds; congruence]]. do 5 db_step. right.
  set (dead := NOTIFICATION_DELIVERY_MAX_ATTEMPTS <=? read_u32 (dr_attempts row)). set (st := if dead then DDeadLetter else DPending).
  exists st. split; [done|]. split; [subst st; destruct dead; auto|].
  destruct (holds_lease_spec _ _ _ _ _ _ Hok Hrow Hnow Hl) as (h & Hh & Ht & Hx & Hn & Hout). split; [by exists h|].
  rewrite <- Ht. set (x := Build_Settled _ _ _ _).
  assert (∀ h', holder (book x g) (del_id d) = Some h' → is_settled (book x g) h') as Hset.
  { intros h' Hh'. apply is_settled_settle. right. cbn. replace h' with h; [|unfold holder in *; cbn in *; congruence].
    by apply holder_in in Hh as [_ Hh]. }
  destruct (lo_rows _ _ _ Hok _ _ Hrow) as ((c & n & Hsent) & _).
  assert (delivery_ok (book x g) now (del_id d)
            (set_delivery st (dr_attempts row) (to_i64 (if dead then now else saturating_add U64_MAX now (notification_retry_delay_seconds (read_u32 (dr_attempts row)))))
               None None (Some (normalize_delivery_error_code error)) (to_i64 now) (dr_delivered row) row)) as Hnew.
  { split; [by exists c, n|]. exists st. split; [done|]. subst st. destruct dead; cbn [state_ok].
    - split; [intros h' Hh'; left; by apply Hset|]. cbn [dr_updated set_delivery]. rewrite to_i64_clock by lia. split; [lia|].
      exists x. split; [cbn; apply elem_of_app; right; by apply list_elem_of_singleton|]. cbn. auto.
    - intros h' Hh'. left. by apply Hset. }
  pose proof (ledger_settle s g now (del_id d) row _ h st now (ledger_mono _ _ _ _ Hok Hle) Hrow Hout Hh Hn Hnew) as Hfin.
  destruct dead; exact (Hfin ltac:(done)).
Qed.

Lemma retry_ok s g latest id now :
  ledger_ok s g latest → latest ≤ now → 0 ≤ now ≤ CLOCK_MAX →
  ensures (retry_notification_delivery id now) s (λ out s',
    match out with
    | Ok (Retried _) => ∃ row, deliveries s !! id = Some row ∧ in_state DDeadLetter row = true ∧ ledger_ok s' g now
    | Ok RetryNotFound => s' = s ∧ deliveries s !! id = None
    | Ok (NotDeadLetter st) => s' = s ∧ st ≠ DDeadLetter
    | Err e => s' = s ∧ e = QueueFull ∧ outstanding s = MAX_OUTSTANDING_NOTIFICATION_DELIVERIES
    end).
Proof.
  intros Hok Hle Hnow. unfold retry_notification_delivery. do 2 db_step.
  db_step. destruct (deliveries s !! id) as [row|] eqn:Hrow; [|by db_step].
  destruct (lo_rows _ _ _ Hok _ _ Hrow) as ((c & n & Hsent & Hchan & Hpay) & st & Hst & Hs).
  rewrite Hst, delivery_state_round_trip. cbn [ok_or]. do 2 db_step.
  destruct (bool_decide_reflect (st = DDeadLetter)) as [->|Hne]; cbn [negb]; [|by db_step]. do 4 db_step; cycle 1.
  { pose proof (lo_full _ _ _ Hok). apply Z.ltb_ge in H. split_and!; [done..|lia]. }
  do 3 db_step. unfold parse_notification_delivery_view. cbn [dr_channel dr_state set_delivery]. rewrite Hchan, channel_round_trip.
  rewrite delivery_state_round_trip. cbn [ok_or mbind result_bind]. do 2 db_step. exists row. split; [done|]. split; [by rewrite (in_state_spec DDeadLetter)|].
  apply (ledger_same s g now id row); [by eapply ledger_mono|done| |].
  - split; [by exists c, n|]. exists DPending. split; [done|]. destruct Hs as [Hs _]. by eapply unheld_mono.
  - rewrite (outstanding_insert s id row) by done. rewrite (is_outstanding_spec DDeadLetter row) by done. apply Z.ltb_lt in H.
    rewrite (bool_decide_eq_false_2 (_ ∨ _)) by naive_solver. destruct (is_outstanding _); lia.
Qed.

(** ** Claims *)

Lemma requeue_state now row st : dr_state row = state_to_string st → 0 ≤ now ≤ CLOCK_MAX →
  requeue_expired now row = row ∨
  (st = DDelivering ∧ dr_state (requeue_expired now row) = state_to_string DPending ∧ dr_channel (requeue_expired now row) = dr_channel row ∧
   dr_payload (requeue_expired now row) = dr_payload row ∧ ∃ t, dr_lease_expires row = Some t ∧ t ≤ now).
Proof.
  intros Hst Hnow. unfold requeue_expired. rewrite (in_state_spec st) by done.
  destruct (bool_decide_reflect (st = DDelivering)) as [->|]; [|by left]. cbn [andb].
  destruct (dr_lease_expires row) as [t|] eqn:Et; [|by left]. rewrite to_i64_clock by lia. destruct (Z.leb_spec t now); [|by left].
  right. split_and!; [done..|]. by exists t.
Qed.
Lemma requeue_delivery_ok g latest now id row : delivery_ok g latest id row → latest ≤ now → 0 ≤ now ≤ CLOCK_MAX →
  delivery_ok g now id (requeue_expired now row).
Proof.
  intros Hok Hle Hnow. destruct Hok as ((c & n & Hs & Hc & Hp) & st & Hst & Hsok).
  destruct (requeue_state now row st Hst Hnow) as [->|(-> & E1 & E2 & E3 & t & Et & Ht)].
  { eapply delivery_ok_mono; [|done]. split; [by exists c, n|by exists st]. }
  split; [exists c, n; by rewrite E2, E3|]. exists DPending. split; [done|]. destruct Hsok as (h & Hh & _ & Hx & _).
  intros h' Hh'. right. assert (h' = h) as -> by congruence. assert (t = h_expires h) by congruence. lia.
Qed.
Lemma requeue_outstanding g latest now id row : delivery_ok g latest id row → 0 ≤ now ≤ CLOCK_MAX →
  is_outstanding (requeue_expired now row) = is_outstanding row.
Proof.
  intros (_ & st & Hst & _) Hnow. destruct (requeue_state now row st Hst Hnow) as [->|(-> & E & _)]; [done|].
  rewrite (is_outstanding_spec DPending) by done. by rewrite (is_outstanding_spec DDelivering).
Qed.
Lemma requeue_ok s g latest now : ledger_ok s g latest → latest ≤ now → 0 ≤ now ≤ CLOCK_MAX →
  ledger_ok (set_deliveries (requeue_expired now <$> deliveries s) (last_delivery s) s) g now.
Proof.
  intros Hok Hle Hnow. pose proof Hok as [H1 H2 H3 H4 H5 H6 H7 H8 H9 H10]. split; cbn [deliveries last_delivery counters set_deliveries]; try done.
  - intros id row Hrow. rewrite lookup_fmap in Hrow. apply fmap_Some in Hrow as (old & Hold & ->).
    eapply requeue_delivery_ok; [by apply H1|done..].
  - intros id Hs Hn. rewrite lookup_fmap in Hn. apply fmap_None in Hn. destruct (H2 id Hs Hn) as (Hu & t & Ht & Hlt). split; [by eapply unheld_mono|]. exists t. split; [done|lia].
  - etrans; [|exact H8]. unfold outstanding, map_count. cbn [deliveries set_deliveries]. rewrite map_sum_fmap. apply map_sum_le.
    intros k row Hrow. cbv beta. rewrite (requeue_outstanding g latest now k); [done|by apply H1|done].
Qed.

Lemma retain_ok s g now : ledger_ok s g now → 0 ≤ now ≤ CLOCK_MAX →
  ledger_ok (set_deliveries (filter (λ x : Z * DeliveryRow, outdated now x.2 = false) (deliveries s)) (last_delivery s) s) g now.
Proof.
  intros Hok Hnow. pose proof Hok as [H1 H2 H3 H4 H5 H6 H7 H8 H9 H10]. split; cbn [deliveries last_delivery counters set_deliveries]; try done.
  - intros id row [Hrow _]%map_lookup_filter_Some. by apply H1.
  - intros id Hs Hn. apply map_lookup_filter_None in Hn as [Hn|Hn]; [by apply H2|].
    destruct (deliveries s !! id) as [row|] eqn:Hrow; [|by apply H2]. specialize (Hn row eq_refl). cbn in Hn.
    apply not_false_is_true in Hn. destruct (H1 id row Hrow) as (_ & st & Hst & Hsok). unfold outdated in Hn.
    rewrite !(in_state_spec st) in Hn by done. unfold saturating_sub in Hn. rewrite to_i64_clock in Hn by (unfold NOTIFICATION_DELIVERY_RETENTION_SECONDS; lia).
    apply andb_true_iff in Hn as [Hd Hlt%Z.ltb_lt].
    assert (unheld g id now ∧ is_closed g id (dr_updated row)) as [Hu Hc] by (destruct st; [done|done|exact Hsok..]).
    split; [done|]. exists (dr_updated row). split; [done|]. destruct Hc as [Hc _]. lia.
  - etrans; [|exact H8]. unfold outstanding, map_count. cbn [deliveries set_deliveries]. apply map_sum_subseteq; [apply map_filter_subseteq|].
    intros k row _. destruct (is_outstanding row); lia.
Qed.

Definition hand_all (expires : Z) (ds : list NotificationDelivery) (g : Ledger) : Ledger :=
  {| sent := sent g; handed := handed g ++ ((λ d, {| h_delivery := d; h_expires := expires |}) <$> ds); settled := settled g |}.
Lemma hand_all_cons expires d ds g :
  hand_all expires ds (hand {| h_delivery := d; h_expires := expires |} g) = hand_all expires (d :: ds) g.
Proof. unfold hand_all, hand. cbn. by rewrite <- app_assoc. Qed.

(** The tokens that a claim draws are new. *)
Definition fresh_tokens (g : Ledger) (tokens : nat → Z) (i n : nat) : Prop :=
  (∀ j, (i ≤ j < n)%nat → uuid_string (tokens j) ∉ h_token <$> handed g) ∧
  (∀ j k, (i ≤ j < n)%nat → (i ≤ k < n)%nat → uuid_string (tokens j) = uuid_string (tokens k) → j = k).

Lemma lease_ok s g now id row token d :
  ledger_ok s g now → 0 ≤ now ≤ CLOCK_MAX → deliveries s !! id = Some row → in_state DPending row = true →
  token ∉ h_token <$> handed g → parse_notification_delivery id (lease_row token now row) = Ok d →
  ledger_ok (put_row s id (lease_row token now row)) (hand {| h_delivery := d; h_expires := now + NOTIFICATION_DELIVERY_LEASE_SECONDS |} g) now.
Proof.
  intros Hok Hnow Hrow Hp Hfresh Hd. destruct (lo_rows _ _ _ Hok _ _ Hrow) as ((c & n & Hs & Hc & Hpay) & st & Hst & Hsok).
  rewrite (in_state_spec st) in Hp by done. apply bool_decide_eq_true in Hp as ->.
  assert (del_id d = id ∧ del_lease_token d = token) as [Eid Etok].
  { unfold parse_notification_delivery in Hd. cbn [dr_lease_token lease_row set_delivery ok_or mbind result_bind dr_channel dr_payload] in Hd.
    rewrite Hc, channel_round_trip, Hpay in Hd. cbn in Hd. by injection Hd as <-. }
  assert (is_outstanding row = true) as Ho by by rewrite (is_outstanding_spec DPending).
  assert (is_outstanding (lease_row token now row) = true) as Ho' by by rewrite (is_outstanding_spec DDelivering).
  apply (ledger_hand s g now id row _ _ Hok Hrow Ho Ho'); [done| |].
  - unfold h_token at 1. cbn. by rewrite Etok.
  - split; [by exists c, n|]. exists DDelivering. split; [done|]. eexists. rewrite holder_hand. unfold h_id at 1. cbn [h_delivery]. rewrite decide_True by done.
    split; [done|]. unfold h_token. cbn [h_delivery h_expires dr_lease_token dr_lease_expires lease_row set_delivery]. rewrite Etok.
    split; [done|]. split.
    + f_equal. rewrite saturating_add_small by (unfold NOTIFICATION_DELIVERY_LEASE_SECONDS, CLOCK_MAX in *; lia).
      apply to_i64_clock. unfold NOTIFICATION_DELIVERY_LEASE_SECONDS. lia.
    + intros Hx. apply list_elem_of_fmap in Hx as (x & Ex & Hx). injection Ex as E1 E2.
      destruct (lo_settled _ _ _ Hok x Hx) as (h & Hh & _ & Eh). apply Hfresh. apply list_elem_of_fmap. exists h.
      split; [|done]. unfold h_token at 1 in E2. cbn in E2. congruence.
Qed.

Lemma claim_loop_ok ids : ∀ tokens i s g now,
  ledger_ok s g now → 0 ≤ now ≤ CLOCK_MAX → NoDup ids →
  (∀ id, id ∈ ids → ∃ row, deliveries s !! id = Some row ∧ in_state DPending row = true) → fresh_tokens g tokens i (i + length ids) →
  ensures (claim_loop tokens i now ids) s (λ out s', ∃ ds, out = Ok ds ∧ del_id <$> ds = ids ∧
    (∀ d, d ∈ ds → sent g !! del_id d = Some (del_channel d, del_notification d)) ∧
    ledger_ok s' (hand_all (now + NOTIFICATION_DELIVERY_LEASE_SECONDS) ds g) now).
Proof.
  induction ids as [|id ids IH]; intros tokens i s g now Hok Hnow Hnd Hrows [Hf1 Hf2]; cbn [claim_loop].
  { db_step. exists []. split_and!; [done|done|by intros d Hd%elem_of_nil|]. unfold hand_all. cbn. rewrite app_nil_r. by destruct g. }
  apply NoDup_cons in Hnd as [Hni Hnd]. destruct (Hrows id) as (row & Hrow & Hp); [by left|]. do 2 db_step. rewrite Hrow, Hp. do 3 db_step.
  destruct (lo_rows _ _ _ Hok _ _ Hrow) as ((c & n & Hs & Hc & Hpay) & _).
  set (row' := lease_row (uuid_string (tokens i)) now row).
  assert (∃ d, parse_notification_delivery id row' = Ok d ∧ del_id d = id ∧ del_lease_token d = uuid_string (tokens i) ∧ del_channel d = c ∧ del_notification d = n) as (d & Hd & Eid & Et & Ec & En).
  { unfold parse_notification_delivery. subst row'. cbn [dr_lease_token lease_row set_delivery ok_or mbind result_bind dr_channel dr_payload].
    rewrite Hc, channel_round_trip, Hpay. cbn. eexists. split; [done|]. done. }
  rewrite Hd. do 2 db_step.
  pose proof (lease_ok s g now id row (uuid_string (tokens i)) d Hok Hnow Hrow Hp (Hf1 i ltac:(cbn; lia)) Hd) as Hok'. fold row' in Hok'.
  eapply ensures_mono; [apply (IH tokens (S i) _ _ now Hok' Hnow Hnd)|].
  - intros id' Hid'. destruct (Hrows id') as (r & Hr & Hpr); [by right|]. exists r. split; [|done]. cbn [deliveries set_deliveries].
    rewrite lookup_insert_ne; [done|]. intros ->. done.
  - split.
    + intros j Hj. cbn. rewrite fmap_app. intros [Hx|Hx]%elem_of_app; [apply (Hf1 j); [cbn; lia|done]|].
      apply list_elem_of_singleton in Hx. unfold h_token in Hx. cbn in Hx. rewrite Et in Hx.
      assert (j = i); [apply Hf2; cbn; try lia; done|lia].
    + intros j k Hj Hk. apply Hf2; cbn; lia.
  - cbv beta. intros out s' (ds & -> & E & Hsent & Hl). db_step. exists (d :: ds). split_and!; [done|cbn; by rewrite E, Eid| |].
    + intros d' [->|Hd']%elem_of_cons; [by rewrite Eid, Ec, En|by apply Hsent].
    + by rewrite <- hand_all_cons.
Qed.

Lemma due_ids_spec now s n :
  NoDup (fst <$> take n (due_rows now s)) ∧
  ∀ id, id ∈ fst <$> take n (due_rows now s) → ∃ row, deliveries s !! id = Some row ∧ is_due now row = true.
Proof.
  assert (due_rows now s ≡ₚ map_to_list (filter (λ x : Z * DeliveryRow, is_due now x.2 = true) (deliveries s))) as Hp by apply merge_sort_Permutation.
  split.
  - rewrite fmap_take. eapply sublist_NoDup; [|apply sublist_take]. rewrite Hp. apply NoDup_fst_map_to_list.
  - intros id ([id' row] & -> & Hin)%list_elem_of_fmap. eapply elem_of_sublist in Hin; [|apply sublist_take]. rewrite Hp in Hin.
    apply elem_of_map_to_list, map_lookup_filter_Some in Hin as [H1 H2]. by exists row.
Qed.

Lemma claim_ok s g latest now limit tokens :
  ledger_ok s g latest → latest ≤ now → 0 ≤ now ≤ CLOCK_MAX → fresh_tokens g tokens 0 64 →
  ensures (claim_notification_deliveries now limit tokens) s (λ out s', ∃ ds, out = Ok ds ∧ NoDup (del_id <$> ds) ∧
    (∀ d, d ∈ ds → sent g !! del_id d = Some (del_channel d, del_notification d) ∧ unheld g (del_id d) now) ∧
    ledger_ok s' (hand_all (now + NOTIFICATION_DELIVERY_LEASE_SECONDS) ds g) now).
Proof.
  intros Hok Hle Hnow Hf. unfold claim_notification_deliveries. destruct (limit =? 0).
  { db_step. exists []. split_and!; [done|constructor|by intros d Hd%elem_of_nil|]. unfold hand_all. cbn. rewrite app_nil_r. destruct g. by eapply ledger_mono. }
  do 6 db_step. cbn [deliveries set_deliveries last_delivery]. db_step.
  set (s2 := set_deliveries _ _ _). set (ids := fst <$> take _ _).
  assert (ledger_ok s2 g now) as Hok2.
  { exact (retain_ok _ g now (requeue_ok s g latest now Hok Hle Hnow) Hnow). }
  destruct (due_ids_spec now s2 (Z.to_nat (Z.max 1 (Z.min 64 limit)))) as [Hnd Hin]. fold ids in Hnd, Hin.
  assert (length ids ≤ 64)%nat as Hlen by (unfold ids; rewrite length_fmap, length_take; lia).
  db_step. eapply ensures_mono; [apply (claim_loop_ok ids tokens 0 s2 g now Hok2 Hnow Hnd)|].
  - intros id Hid. destruct (Hin id Hid) as (row & Hr & Hd). exists row. split; [done|]. by apply andb_true_iff in Hd as [Hd _].
  - destruct Hf as [Hf1 Hf2]. split; [intros j Hj; apply Hf1; lia|intros j k Hj Hk; apply Hf2; lia].
  - cbv beta. intros out s' (ds & -> & E & Hsent & Hl). db_step. exists ds. split_and!; [done|by rewrite E| |done].
    intros d Hd. split; [by apply Hsent|]. assert (del_id d ∈ ids) as Hid by (rewrite <- E; by apply list_elem_of_fmap_2).
    destruct (Hin _ Hid) as (row & Hr & Hdue). apply andb_true_iff in Hdue as [Hp _].
    destruct (lo_rows _ _ _ Hok2 _ _ Hr) as (_ & st & Hst & Hsok). rewrite (in_state_spec st) in Hp by done.
    by apply bool_decide_eq_true in Hp as ->.
Qed.

(** ** Enqueueing *)

Fixpoint send_all (last : Z) (l : list (NotificationChannel * AlertNotification)) (g : Ledger) : Ledger :=
  match l with [] => g | x :: l => send_all (last + 1) l (send (last + 1) x g) end.
Lemma send_all_app l k : ∀ last g, send_all last (l ++ k) g = send_all (last + len l) k (send_all last l g).
Proof.
  induction l as [|x l IH]; intros last g; cbn [app send_all]; [by rewrite len_nil, Z.add_0_r|]. rewrite IH, len_cons. f_equal. lia.
Qed.

(** Everything but the queue stays. *)
Definition same_alerts (s s' : AlertCatalog) : Prop :=
  alert_rules s' = alert_rules s ∧ alert_events s' = alert_events s ∧ last_event s' = last_event s.

Lemma delivery_ok_send g id x latest id' row : sent g !! id = None → delivery_ok g latest id' row → delivery_ok (send id x g) latest id' row.
Proof.
  intros Hn ((c & n & Hs & Hrest) & Hst). split; [|exact Hst]. exists c, n. split; [|done]. cbn. rewrite lookup_insert_ne; [done|congruence].
Qed.

Lemma insert_delivery_ok s g now c n key payload :
  ledger_ok s g now → parse_notification payload = Some n → outstanding s < MAX_OUTSTANDING_NOTIFICATION_DELIVERIES →
  ensures (insert_delivery (new_delivery key n c payload now)) s (λ out s',
    match out with
    | Ok _ => ledger_ok s' (send (last_delivery s + 1) (c, n) g) now ∧ last_delivery s' = last_delivery s + 1 ∧ same_alerts s s' ∧
              outstanding s' = outstanding s + 1
    | Err e => e = UniqueViolated
    end).
Proof.
  intros Hok Hp Hroom. unfold insert_delivery. do 4 db_step; [|done]. db_step. pose proof Hok as [H1 H2 H3 H4 H5 H6 H7 H8 H9 H10].
  set (id := last_delivery s + 1). set (row := new_delivery key n c payload now).
  assert (sent g !! id = None) as Hnew.
  { apply eq_None_not_Some. intros Hx. pose proof (H3 id Hx). unfold id in *. lia. }
  assert (deliveries s !! id = None) as Hnrow.
  { destruct (deliveries s !! id) as [r|] eqn:Hr; [|done]. destruct (H1 id r Hr) as ((c' & n' & Hx & _) & _). congruence. }
  assert (is_outstanding row = true) as Ho by by rewrite (is_outstanding_spec DPending).
  assert (outstanding (set_deliveries (<[id := row]> (deliveries s)) id s) = outstanding s + 1) as Ecount.
  { rewrite outstanding_new by done. rewrite Ho. lia. }
  split; [|done]. split; cbn [deliveries last_delivery counters set_deliveries]; try done.
  - intros id' r [[<- <-]|[Hne Hr]]%lookup_insert_Some; [|by apply delivery_ok_send, H1]. split.
    + exists c, n. cbn. by rewrite lookup_insert_eq.
    + exists DPending. split; [done|]. intros h Hh. exfalso. apply holder_in in Hh as [Hh Hid]. specialize (H4 h Hh). rewrite Hid, Hnew in H4.
      by destruct H4.
  - intros id' Hs Hn. apply lookup_insert_None in Hn as [Hn Hne]. apply (H2 id'); [|done]. cbn in Hs. by rewrite lookup_insert_ne in Hs.
  - intros id' Hs. cbn in Hs. destruct (decide (id' = id)) as [->|Hne]; [unfold id; lia|]. rewrite lookup_insert_ne in Hs by done.
    specialize (H3 id' Hs). unfold id. lia.
  - intros h Hh. destruct (H4 h Hh) as [y Hy]. cbn. exists y. rewrite lookup_insert_ne; [done|congruence].
  - rewrite Ecount. lia.
  - unfold id. lia.
Qed.

Lemma insert_channels_ok channels : ∀ keys i s g n payload now,
  ledger_ok s g now → parse_notification payload = Some n → outstanding s + len channels ≤ MAX_OUTSTANDING_NOTIFICATION_DELIVERIES →
  ensures (insert_channels keys i n payload now channels) s (λ out s',
    match out with
    | Ok _ => ledger_ok s' (send_all (last_delivery s) ((λ c, (c, n)) <$> channels) g) now ∧
              last_delivery s' = last_delivery s + len channels ∧ same_alerts s s'
    | Err e => e = UniqueViolated
    end).
Proof.
  induction channels as [|c channels IH]; intros keys i s g n payload now Hok Hp Hroom; cbn [insert_channels].
  { db_step. rewrite len_nil. split_and!; [done|lia|done]. }
  rewrite len_cons in Hroom. pose proof (len_nonneg channels). db_step.
  eapply ensures_mono; [apply (insert_delivery_ok s g now c n); [done|done|lia]|]. cbv beta. intros [u|e] s1; [|done].
  intros (Hok1 & E1 & (F1 & F2 & F3) & Ec). eapply ensures_mono; [apply (IH keys (S i) s1 _ n payload now Hok1 Hp); lia|]. cbv beta.
  intros [j|e] s2; [|done]. intros (Hok2 & E2 & (F4 & F5 & F6)). split_and!; [|rewrite len_cons; lia|split_and!; congruence].
  rewrite E1 in Hok2. exact Hok2.
Qed.

Definition plan (n : AlertNotification) : list (NotificationChannel * AlertNotification) := (λ c, (c, n)) <$> channels_of n.

Lemma enqueue_ok {laws : NotificationJsonLaws} keys i s g n now :
  ledger_ok s g now → notification_finite n →
  ensures (enqueue_notification_deliveries keys i n now) s (λ out s',
    match out with
    | Ok _ => ledger_ok s' (send_all (last_delivery s) (plan n) g) now ∧ last_delivery s' = last_delivery s + len (plan n) ∧ same_alerts s s'
    | Err e => e = QueueFull ∨ e = PayloadTooLarge ∨ e = UniqueViolated
    end).
Proof.
  intros Hok Hfin. unfold enqueue_notification_deliveries. destruct (bool_decide_reflect (channels_of n = [])) as [E|_].
  { db_step. unfold plan. rewrite E. cbn. rewrite len_nil. split_and!; [done|lia|done]. }
  do 4 db_step; [|auto]. cbv zeta. do 2 db_step; [|auto]. pose proof (lo_full _ _ _ Hok). pose proof (map_count_nonneg is_outstanding (deliveries s)) as Hc.
  assert (len (channels_of n) ≤ 2) as Hl.
  { unfold channels_of. rewrite len_app. destruct (n_webhook n), (n_email n); unfold len; cbn; lia. }
  pose proof (len_nonneg (channels_of n)). apply Z.leb_le in H. unfold saturating_add in H.
  assert (len (plan n) = len (channels_of n)) as Ep by (unfold plan, len; by rewrite length_fmap).
  eapply ensures_mono; [apply (insert_channels_ok (channels_of n) keys i s g n _ now Hok)|].
  - by apply notification_reads_back.
  - fold (outstanding s) in Hc. unfold MAX_OUTSTANDING_NOTIFICATION_DELIVERIES in *. lia.
  - cbv beta. intros [j|e] s'; [|by auto]. rewrite Ep. done.
Qed.
End ledger.
