(* ===== verification/Alerting.v ===== *)
(** * Alerting: rules, events and their evaluation ([alerting.rs])

    Rules compare signals with thresholds; an event is active while a signal fires for its rule
    and subject. [evaluate] opens, updates and resolves events in one transaction, and enqueues
    the notifications of that round. Storage failures, the columns added to old
    databases and the order of rows that SQL leaves open are not modelled. *)

From Stdlib Require Import SpecFloat.
From S2P Require Import Prelude DbMonad RustStr AdminAuth AlertTables AlertDelivery.
Local Open Scope Z_scope.
Set Default Proof Using "Type".

(** ** Rules *)

Definition comparator_matches (c : AlertComparator) (value threshold : f64) : bool :=
  match c with GreaterOrEqual => SFleb threshold value | LessOrEqual => SFleb value threshold end.

Definition validate_rule (rule : CreateAlertRule) : result AlertError unit :=
  let name := trim (cr_name rule) in
  _ ← reject_if (negb (negb (bool_decide (name = [])) && (len name <=? 96))) InvalidRuleName;
  _ ← reject_if (negb (is_finite (cr_threshold rule))) ThresholdNotFinite;
  _ ← reject_if (negb ((5 <=? cr_window rule) && (cr_window rule <=? 86400))) InvalidWindow;
  _ ← reject_if (negb ((30 <=? cr_cooldown rule) && (cr_cooldown rule <=? 604800))) InvalidCooldown;
  match cr_target rule with
  | Some target => reject_if (negb (len (trim target) <=? 160)) TargetTooLong
  | None => Ok tt
  end.

Definition normalize_target (value : option rstr) : option rstr :=
  value ← value;
  let value := trim value in
  if bool_decide (value = []) then None else Some value.

Section alerting.
Context {plat : Platform} {json : NotificationJson}.

Definition parse_rule (id : rstr) (row : RuleRow) : result AlertError AlertRule :=
  id ← ok_or (uuid_parse id) ConversionFailed;
  metric ← ok_or (metric_from_str (rr_metric row)) ConversionFailed;
  comparator ← ok_or (comparator_from_str (rr_comparator row)) ConversionFailed;
  severity ← ok_or (severity_from_str (rr_severity row)) ConversionFailed;
  Ok {| rule_id := id; rule_name := rr_name row; metric := metric; comparator := comparator; threshold := rr_threshold row;
        target := rr_target row; evaluation_window_seconds := read_nonneg (rr_window row);
        cooldown_seconds := read_nonneg (rr_cooldown row); severity := severity; notify_webhook := negb (rr_webhook row =? 0);
        notify_email := negb (rr_email row =? 0); rule_enabled := negb (rr_enabled row =? 0);
        rule_created := read_nonneg (rr_created row); rule_updated := read_nonneg (rr_updated row) |}.

(** The parameters of [persist_rule]. *)
Definition rule_row (rule : AlertRule) : RuleRow :=
  {| rr_name := rule_name rule; rr_metric := metric_to_string (metric rule); rr_comparator := comparator_to_string (comparator rule);
     rr_threshold := threshold rule; rr_target := target rule; rr_window := to_i64 (evaluation_window_seconds rule);
     rr_cooldown := to_i64 (cooldown_seconds rule); rr_severity := severity_to_string (severity rule);
     rr_webhook := sql_bool (notify_webhook rule); rr_email := sql_bool (notify_email rule); rr_enabled := sql_bool (rule_enabled rule);
     rr_created := to_i64 (rule_created rule); rr_updated := to_i64 (rule_updated rule) |}.
(** [INSERT OR REPLACE]. *)
Definition persist_rule (rule : AlertRule) : alerts unit :=
  db_put (λ s, set_rules (<[uuid_string (rule_id rule) := rule_row rule]> (alert_rules s)) s).

(** [ORDER BY name]. *)
Definition list_rules : alerts (list AlertRule) :=
  rows ← db_get (λ s, merge_sort (λ x y : rstr * RuleRow, lex_le (as_bytes (rr_name x.2)) (as_bytes (rr_name y.2))) (map_to_list (alert_rules s)));
  db_lift (collect (λ '(id, row), parse_rule id row) rows).
Definition find_rule (id : Z) : alerts (option AlertRule) :=
  row ← db_get (λ s, alert_rules s !! uuid_string id);
  match row with
  | None => mret None
  | Some row => rule ← db_lift (parse_rule (uuid_string id) row); mret (Some rule)
  end.

Definition rule_of (id : Z) (request : CreateAlertRule) (created updated : Z) : AlertRule :=
  {| rule_id := id; rule_name := trim (cr_name request); metric := cr_metric request; comparator := cr_comparator request;
     threshold := cr_threshold request; target := normalize_target (cr_target request); evaluation_window_seconds := cr_window request;
     cooldown_seconds := cr_cooldown request; severity := cr_severity request; notify_webhook := cr_webhook request;
     notify_email := cr_email request; rule_enabled := cr_enabled request; rule_created := created; rule_updated := updated |}.

Definition create_rule (request : CreateAlertRule) (id now : Z) : alerts AlertRule :=
  _ ← db_lift (validate_rule request);
  let rule := rule_of id request now now in
  _ ← persist_rule rule;
  mret rule.

(** [UPDATE alert_events SET active = 0, .. WHERE rule_id = ? AND active = 1]. *)
Definition resolve_row (now : Z) (message : rstr) (row : EventRow) : EventRow :=
  {| er_rule_id := er_rule_id row; er_rule_name := er_rule_name row; er_severity := er_severity row; er_subject := er_subject row;
     er_active := 0; er_value := er_value row; er_threshold := er_threshold row; er_message := message;
     er_started := er_started row; er_updated := to_i64 now; er_resolved := Some (to_i64 now); er_last_notified := er_last_notified row |}.
Definition active_of (id : rstr) (row : EventRow) : bool := bool_decide (er_rule_id row = id) && (er_active row =? 1).
Definition resolve_rule_events (id now : Z) (reason : rstr) : alerts unit :=
  db_put (λ s, set_events ((λ row, if active_of (uuid_string id) row
                                   then resolve_row now (er_message row ++ lit " (" ++ reason ++ lit ")") row else row) <$> alert_events s)
                 (last_event s) s).

Definition update_rule (id : Z) (request : CreateAlertRule) (now : Z) : alerts (option AlertRule) :=
  _ ← db_lift (validate_rule request);
  existing ← find_rule id;
  match existing with
  | None => mret None
  | Some existing =>
      let rule := rule_of id request (rule_created existing) now in
      _ ← persist_rule rule;
      _ ← (if negb (rule_enabled rule) then resolve_rule_events id now (lit "rule disabled") else mret tt);
      mret (Some rule)
  end.

Definition delete_rule (id now : Z) : alerts bool :=
  _ ← resolve_rule_events id now (lit "rule deleted");
  found ← db_get (λ s, bool_decide (is_Some (alert_rules s !! uuid_string id)));
  _ ← db_put (λ s, set_rules (delete (uuid_string id) (alert_rules s)) s);
  mret found.

(** ** Default rules *)

Definition default_rule (name : rstr) (m : AlertMetric) (c : AlertComparator) (t : f64) (target : option rstr) (window cooldown : Z)
    (sev : AlertSeverity) (email : bool) : CreateAlertRule :=
  {| cr_name := name; cr_metric := m; cr_comparator := c; cr_threshold := t; cr_target := target; cr_window := window;
     cr_cooldown := cooldown; cr_severity := sev; cr_webhook := true; cr_email := email; cr_enabled := true |}.
Definition default_alert_rules : list CreateAlertRule :=
  [default_rule (lit "Client offline") ClientOffline GreaterOrEqual (f64_of 4503599627370496 (-52)) None 120 900 SeverityWarning false;
   default_rule (lit "Policy unavailable") PolicyUnavailable GreaterOrEqual (f64_of 4503599627370496 (-52)) None 60 900 SeverityCritical true;
   default_rule (lit "Authentication failures") AuthenticationFailures GreaterOrEqual (f64_of 5629499534213120 (-49)) None 300 900 SeverityWarning false;
   default_rule (lit "Certificate expiry") CertificateDaysRemaining LessOrEqual (f64_of 8444249301319680 (-48)) None 300 86400 SeverityWarning true].
Definition default_slo_rules : list CreateAlertRule :=
  [default_rule (lit "SLO fast burn (5m and 1h)") SloFastBurnRate GreaterOrEqual (f64_of 8106479329266893 (-49)) (Some (lit "global")) 300 3600 SeverityCritical true;
   default_rule (lit "SLO slow burn (6h and 24h)") SloSlowBurnRate GreaterOrEqual (f64_of 6755399441055744 (-50)) (Some (lit "global")) 21600 21600 SeverityWarning true].

(** [ids i]: the UUID that the i-th default rule draws. *)
Fixpoint create_all (ids : nat → Z) (i : nat) (now : Z) (requests : list CreateAlertRule) : alerts nat :=
  match requests with
  | [] => mret i
  | request :: requests => _ ← create_rule request (ids i) now; create_all ids (S i) now requests
  end.
Fixpoint create_missing (ids : nat → Z) (i : nat) (now : Z) (requests : list CreateAlertRule) : alerts unit :=
  match requests with
  | [] => mret tt
  | request :: requests =>
      present ← db_get (λ s, any (λ x : rstr * RuleRow, bool_decide (rr_metric x.2 = metric_to_string (cr_metric request))) (map_to_list (alert_rules s)));
      match present with
      | true => create_missing ids i now requests
      | false => _ ← create_rule request (ids i) now; create_missing ids (S i) now requests
      end
  end.
Definition ensure_defaults (ids : nat → Z) (now : Z) : alerts unit :=
  count ← db_get (λ s, map_len (alert_rules s));
  i ← (if count =? 0 then create_all ids 0 now default_alert_rules else mret 0%nat);
  create_missing ids i now default_slo_rules.

(** ** Events *)

Definition parse_event (id : Z) (row : EventRow) : result AlertError AlertEvent :=
  rule ← ok_or (uuid_parse (er_rule_id row)) ConversionFailed;
  severity ← ok_or (severity_from_str (er_severity row)) ConversionFailed;
  Ok {| ev_id := id; ev_rule_id := rule; ev_rule_name := er_rule_name row; ev_severity := severity; ev_subject := er_subject row;
        ev_active := negb (er_active row =? 0); ev_value := er_value row; ev_threshold := er_threshold row; ev_message := er_message row;
        ev_started := read_nonneg (er_started row); ev_updated := read_nonneg (er_updated row);
        ev_resolved := read_nonneg <$> er_resolved row; ev_last_notified := read_nonneg <$> er_last_notified row |}.

(** [ORDER BY severity DESC, updated_unix_seconds DESC], the severity being a text column,
    and [ORDER BY updated_unix_seconds DESC]. *)
Definition updated_desc (x y : Z * EventRow) : bool := er_updated y.2 <=? er_updated x.2.
Definition severity_desc (x y : Z * EventRow) : bool :=
  let a := as_bytes (er_severity x.2) in
  let b := as_bytes (er_severity y.2) in
  if bool_decide (a = b) then updated_desc x y else lex_le b a.
Definition list_events (active_only : bool) (limit : Z) : alerts (list AlertEvent) :=
  rows ← db_get (λ s, take (Z.to_nat (Z.max 1 (Z.min 1000 limit)))
    (if active_only
     then merge_sort severity_desc (map_to_list (filter (λ x : Z * EventRow, er_active x.2 = 1) (alert_events s)))
     else merge_sort updated_desc (map_to_list (alert_events s))));
  db_lift (collect (λ '(id, row), parse_event id row) rows).

(** ** Evaluation *)

(** The condition of [evaluate] on a signal. *)
Definition fires (rule : AlertRule) (signal : AlertSignal) : bool :=
  bool_decide (sig_metric signal = metric rule) &&
  match sig_window signal with Some window => window =? evaluation_window_seconds rule | None => true end &&
  match target rule with Some target => bool_decide (target = sig_subject signal) | None => true end &&
  comparator_matches (comparator rule) (sig_value signal) (threshold rule).

Definition subject_of (id subject : rstr) (row : EventRow) : bool := active_of id row && bool_decide (er_subject row = subject).
(** The active event of a rule and a subject, unique by the index on the table. *)
Definition active_event (id subject : rstr) (s : AlertCatalog) : option (Z * EventRow) :=
  head (map_to_list (filter (λ x : Z * EventRow, subject_of id subject x.2 = true) (alert_events s))).

Definition insert_event (row : EventRow) : alerts Z :=
  clash ← db_get (active_event (er_rule_id row) (er_subject row));
  _ ← db_ensure (bool_decide (clash = None)) UniqueViolated;
  _ ← db_put (λ s, set_events (<[last_event s + 1 := row]> (alert_events s)) (last_event s + 1) s);
  db_get last_event.

Definition refresh_row (value : f64) (message : rstr) (now : Z) (notified : option Z) (row : EventRow) : EventRow :=
  {| er_rule_id := er_rule_id row; er_rule_name := er_rule_name row; er_severity := er_severity row; er_subject := er_subject row;
     er_active := er_active row; er_value := value; er_threshold := er_threshold row; er_message := message;
     er_started := er_started row; er_updated := to_i64 now; er_resolved := er_resolved row; er_last_notified := to_i64 <$> notified |}.

Definition notify (rule : AlertRule) (event : AlertEvent) (resolved : bool) : AlertNotification :=
  {| n_event := event; n_resolved := resolved; n_webhook := notify_webhook rule; n_email := notify_email rule |}.

(** A signal that fires, for an event that is active already. *)
Definition refresh_event (rule : AlertRule) (signal : AlertSignal) (now : Z) (event : AlertEvent) : alerts (list AlertNotification) :=
  let should_notify :=
    match ev_last_notified event with Some last => cooldown_seconds rule <=? saturating_sub now last | None => true end in
  let notified := if should_notify then Some now else ev_last_notified event in
  let event :=
    {| ev_id := ev_id event; ev_rule_id := ev_rule_id event; ev_rule_name := ev_rule_name event; ev_severity := ev_severity event;
       ev_subject := ev_subject event; ev_active := ev_active event; ev_value := sig_value signal; ev_threshold := ev_threshold event;
       ev_message := sig_message signal; ev_started := ev_started event; ev_updated := now; ev_resolved := ev_resolved event;
       ev_last_notified := notified |} in
  _ ← db_put (λ s, set_events (alter (refresh_row (sig_value signal) (sig_message signal) now notified) (ev_id event) (alert_events s)) (last_event s) s);
  mret (if should_notify then [notify rule event false] else []).

(** A signal that fires anew. *)
Definition open_event (rule : AlertRule) (signal : AlertSignal) (now : Z) : alerts (list AlertNotification) :=
  id ← insert_event {| er_rule_id := uuid_string (rule_id rule); er_rule_name := rule_name rule; er_severity := severity_to_string (severity rule);
                       er_subject := sig_subject signal; er_active := 1; er_value := sig_value signal; er_threshold := threshold rule;
                       er_message := sig_message signal; er_started := to_i64 now; er_updated := to_i64 now; er_resolved := None;
                       er_last_notified := Some (to_i64 now) |};
  mret [notify rule {| ev_id := id; ev_rule_id := rule_id rule; ev_rule_name := rule_name rule; ev_severity := severity rule;
                       ev_subject := sig_subject signal; ev_active := true; ev_value := sig_value signal; ev_threshold := threshold rule;
                       ev_message := sig_message signal; ev_started := now; ev_updated := now; ev_resolved := None;
                       ev_last_notified := Some now |} false].

Definition eval_signal (rule : AlertRule) (now : Z) (signal : AlertSignal) : alerts (list AlertNotification) :=
  existing ← db_get (active_event (uuid_string (rule_id rule)) (sig_subject signal));
  match existing with
  | Some (id, row) => event ← db_lift (parse_event id row); refresh_event rule signal now event
  | None => open_event rule signal now
  end.
Fixpoint eval_signals (rule : AlertRule) (now : Z) (signals : list AlertSignal) : alerts (list AlertNotification) :=
  match signals with
  | [] => mret []
  | signal :: signals =>
      first ← eval_signal rule now signal;
      rest ← eval_signals rule now signals;
      mret (first ++ rest)
  end.

(** An active event that no signal fires for. *)
Definition resolve_event (rule : AlertRule) (now : Z) (event : AlertEvent) : alerts AlertNotification :=
  let event :=
    {| ev_id := ev_id event; ev_rule_id := ev_rule_id event; ev_rule_name := ev_rule_name event; ev_severity := ev_severity event;
       ev_subject := ev_subject event; ev_active := false; ev_value := ev_value event; ev_threshold := ev_threshold event;
       ev_message := lit "resolved: " ++ ev_message event; ev_started := ev_started event; ev_updated := now;
       ev_resolved := Some now; ev_last_notified := ev_last_notified event |} in
  _ ← db_put (λ s, set_events (alter (resolve_row now (ev_message event)) (ev_id event) (alert_events s)) (last_event s) s);
  mret (notify rule event true).
Fixpoint resolve_events (rule : AlertRule) (now : Z) (events : list AlertEvent) : alerts (list AlertNotification) :=
  match events with
  | [] => mret []
  | event :: events =>
      first ← resolve_event rule now event;
      rest ← resolve_events rule now events;
      mret (first :: rest)
  end.

Definition eval_rule (signals : list AlertSignal) (now : Z) (rule : AlertRule) : alerts (list AlertNotification) :=
  let firing := filter (λ signal, fires rule signal = true) signals in
  fired ← eval_signals rule now firing;
  rows ← db_get (λ s, map_to_list (filter (λ x : Z * EventRow, active_of (uuid_string (rule_id rule)) x.2 = true) (alert_events s)));
  events ← db_lift (collect (λ '(id, row), parse_event id row) rows);
  resolved ← resolve_events rule now (filter (λ event, ev_subject event ∉ sig_subject <$> firing) events);
  mret (fired ++ resolved).
Fixpoint eval_rules (signals : list AlertSignal) (now : Z) (rules : list AlertRule) : alerts (list AlertNotification) :=
  match rules with
  | [] => mret []
  | rule :: rules =>
      first ← eval_rule signals now rule;
      rest ← eval_rules signals now rules;
      mret (first ++ rest)
  end.
Fixpoint enqueue_all (keys : nat → Z) (i : nat) (now : Z) (notifications : list AlertNotification) : alerts unit :=
  match notifications with
  | [] => mret tt
  | n :: notifications => i ← enqueue_notification_deliveries keys i n now; enqueue_all keys i now notifications
  end.

Definition evaluate (signals : list AlertSignal) (now : Z) (keys : nat → Z) : alerts (list AlertNotification) :=
  rules ← list_rules;
  transaction (
    notifications ← eval_rules signals now (filter (λ rule, rule_enabled rule = true) rules);
    _ ← enqueue_all keys 0 now notifications;
    mret (true, notifications)).
End alerting.

(** ** The reference

    The alert of a rule and a subject: since when it is on, and when it was last notified. In
    each round it starts, goes on or ends, and the list says what is notified: [false] for an
    alert that is on, [true] for one that has ended. *)

Record Alert := { since : Z; notified : option Z }.
Definition next_alert (cooldown now : Z) (firing : bool) (a : option Alert) : option Alert * list bool :=
  match a, firing with
  | None, false => (None, [])
  | None, true => (Some {| since := now; notified := Some now |}, [false])
  | Some a, true =>
      if match notified a with Some last => cooldown <=? saturating_sub now last | None => true end
      then (Some {| since := since a; notified := Some now |}, [false]) else (Some a, [])
  | Some _, false => (None, [true])
  end.

Definition row_alert (row : EventRow) : Alert := {| since := er_started row; notified := er_last_notified row |}.
Definition alert_of (s : AlertCatalog) (id subject : rstr) : option Alert := (λ x, row_alert x.2) <$> active_event id subject s.
Definition is_firing (rule : AlertRule) (signals : list AlertSignal) (subject : rstr) : bool :=
  any (λ signal, fires rule signal && bool_decide (sig_subject signal = subject)) signals.
Definition about (rule : Z) (subject : rstr) (n : AlertNotification) : Prop :=
  ev_rule_id (n_event n) = rule ∧ ev_subject (n_event n) = subject.
Global Instance about_dec rule subject n : Decision (about rule subject n).
Proof. unfold about. apply _. Defined.
Definition notices (ns : list AlertNotification) (rule : Z) (subject : rstr) : list bool := n_resolved <$> filter (about rule subject) ns.

(** ** Invariant of rules and events *)

Section invariant.
Context {plat : Platform} {laws : PlatformLaws} {json : NotificationJson}.

Definition time_ok (t : Z) : Prop := 0 ≤ t ≤ CLOCK_MAX.
Definition rule_wf (rule : AlertRule) : Prop :=
  uuid_ok (rule_id rule) ∧ is_finite (threshold rule) = true ∧ 5 ≤ evaluation_window_seconds rule ≤ 86400 ∧
  30 ≤ cooldown_seconds rule ≤ 604800 ∧ time_ok (rule_created rule) ∧ time_ok (rule_updated rule).
Definition stored (s : AlertCatalog) (rule : AlertRule) : Prop :=
  alert_rules s !! uuid_string (rule_id rule) = Some (rule_row rule) ∧ rule_wf rule.
Definition event_wf (row : EventRow) : Prop :=
  (∃ r sev, uuid_ok r ∧ er_rule_id row = uuid_string r ∧ er_severity row = severity_to_string sev) ∧
  (er_active row = 0 ∨ er_active row = 1) ∧ is_finite (er_value row) = true ∧ is_finite (er_threshold row) = true ∧
  time_ok (er_started row) ∧ time_ok (er_updated row) ∧ (∀ t, er_resolved row = Some t → time_ok t) ∧
  (∀ t, er_last_notified row = Some t → time_ok t).

Record events_ok (s : AlertCatalog) : Prop := {
  eo_rules : ∀ k row, alert_rules s !! k = Some row → ∃ rule, k = uuid_string (rule_id rule) ∧ row = rule_row rule ∧ rule_wf rule;
  eo_events : ∀ id row, alert_events s !! id = Some row → 1 ≤ id ≤ last_event s ∧ event_wf row;
  eo_unique : ∀ id id' row row' k x, alert_events s !! id = Some row → alert_events s !! id' = Some row' →
              subject_of k x row = true → subject_of k x row' = true → id = id';
  eo_live : ∀ id row, alert_events s !! id = Some row → er_active row = 1 →
            ∃ rule, stored s rule ∧ er_rule_id row = uuid_string (rule_id rule) ∧ rule_enabled rule = true;
  eo_last : 0 ≤ last_event s;
}.

Lemma parse_rule_row rule : rule_wf rule → parse_rule (uuid_string (rule_id rule)) (rule_row rule) = Ok rule.
Proof using laws.
  intros (Hid & _ & Hw & Hc & Hcr & Hup). unfold parse_rule. rewrite uuid_parse_string by done. cbn [ok_or mbind result_bind rule_row rr_metric rr_comparator rr_severity].
  rewrite metric_round_trip, comparator_round_trip, severity_round_trip. cbn [ok_or mbind result_bind].
  unfold time_ok in *. unfold read_nonneg. cbn. rewrite !to_i64_clock by (unfold CLOCK_MAX in *; lia). rewrite !Z.max_r by lia.
  destruct rule as [i nm m c t tg w cd sv we em en cr up]. cbn. by destruct we, em, en.
Qed.

Lemma subject_of_true k x row : subject_of k x row = true ↔ er_rule_id row = k ∧ er_active row = 1 ∧ er_subject row = x.
Proof.
  unfold subject_of, active_of. rewrite !andb_true_iff, !bool_decide_eq_true, Z.eqb_eq. tauto.
Qed.
Lemma active_event_Some s k x id row : events_ok s →
  active_event k x s = Some (id, row) ↔ alert_events s !! id = Some row ∧ subject_of k x row = true.
Proof.
  intros Hok. unfold active_event. split.
  - intros H%head_Some_elem_of. by apply elem_of_map_to_list, map_lookup_filter_Some in H.
  - intros [H1 H2].
    assert ((id, row) ∈ map_to_list (filter (λ x0 : Z * EventRow, subject_of k x x0.2 = true) (alert_events s))) as Hin.
    { apply elem_of_map_to_list, map_lookup_filter_Some. done. }
    destruct (map_to_list _) as [|[id' row'] l] eqn:El; [by apply elem_of_nil in Hin|]. cbn.
    assert ((id', row') ∈ map_to_list (filter (λ x0 : Z * EventRow, subject_of k x x0.2 = true) (alert_events s))) as Hin' by (rewrite El; left).
    apply elem_of_map_to_list, map_lookup_filter_Some in Hin' as [H1' H2'].
    assert (id' = id) as -> by (eapply (eo_unique s Hok); done). congruence.
Qed.
Lemma active_event_None s k x :
  active_event k x s = None ↔ ∀ id row, alert_events s !! id = Some row → subject_of k x row = false.
Proof.
  unfold active_event. rewrite head_None, map_to_list_empty_iff, map_empty. split.
  - intros H id row Hr. specialize (H id). apply map_lookup_filter_None in H as [H|H]; [congruence|]. apply not_true_is_false. by apply H.
  - intros H id. apply map_lookup_filter_None. right. intros row Hr. cbn. by rewrite (H id row Hr).
Qed.

Lemma parse_event_row id row : event_wf row → ∃ e, parse_event id row = Ok e ∧ ev_id e = id ∧ er_rule_id row = uuid_string (ev_rule_id e) ∧
  uuid_ok (ev_rule_id e) ∧ ev_subject e = er_subject row ∧ ev_last_notified e = er_last_notified row ∧ ev_value e = er_value row ∧ ev_threshold e = er_threshold row.
Proof using laws.
  intros ((r & sev & Hr & Er & Es) & _ & _ & _ & _ & _ & _ & Hl). unfold parse_event. rewrite Er, Es, uuid_parse_string, severity_round_trip by done.
  cbn [ok_or mbind result_bind]. eexists. split; [done|]. cbn. split_and!; try done.
  destruct (er_last_notified row) as [t|]; [|done]. cbn. unfold read_nonneg. specialize (Hl t eq_refl). unfold time_ok in Hl. by rewrite Z.max_r by lia.
Qed.

Lemma active_event_agree s s' k x : events_ok s → events_ok s' →
  (∀ id row, subject_of k x row = true → alert_events s' !! id = Some row ↔ alert_events s !! id = Some row) →
  active_event k x s' = active_event k x s.
Proof.
  intros Hok Hok' H. destruct (active_event k x s) as [[id row]|] eqn:E.
  - apply active_event_Some in E as [E1 E2]; [|done]. apply active_event_Some; [done|]. split; [by apply H|done].
  - rewrite active_event_None in E. apply active_event_None. intros id row Hr. apply not_true_is_false. intros Hs.
    specialize (E id row (proj1 (H id row Hs) Hr)). congruence.
Qed.

(** ** One event changes *)

(** Rules and queue stay as they are. *)
Definition events_only (s s' : AlertCatalog) : Prop :=
  alert_rules s' = alert_rules s ∧ deliveries s' = deliveries s ∧ last_delivery s' = last_delivery s ∧ counters s' = counters s ∧
  last_event s ≤ last_event s'.
Lemma events_only_refl s : events_only s s.
Proof. by split_and!. Qed.
Lemma events_only_trans s1 s2 s3 : events_only s1 s2 → events_only s2 s3 → events_only s1 s3.
Proof. intros (A1 & A2 & A3 & A4 & A5) (B1 & B2 & B3 & B4 & B5). split_and!; congruence || lia. Qed.

(** The new row of [id] is for the same rule and subject. *)
Lemma event_changed s id row row' :
  events_ok s → alert_events s !! id = Some row → event_wf row' → er_rule_id row' = er_rule_id row → er_subject row' = er_subject row →
  (er_active row' = 1 → er_active row = 1) →
  let s' := set_events (<[id := row']> (alert_events s)) (last_event s) s in
  events_ok s' ∧ events_only s s' ∧
  (∀ k x, subject_of k x row = false → active_event k x s' = active_event k x s) ∧
  (∀ k x, subject_of k x row = true → active_event k x s' = if er_active row' =? 1 then Some (id, row') else None).
Proof.
  intros Hok Hrow Hwf Er Es Ea s'. pose proof Hok as [H1 H2 H3 H4 H5].
  assert (∀ k x, subject_of k x row' = true → subject_of k x row = true) as Hsub.
  { intros k x. rewrite !subject_of_true. intros (? & ? & ?). split_and!; [congruence|by apply Ea|congruence]. }
  assert (events_ok s') as Hok'.
  { split; cbn [alert_rules alert_events last_event set_events s']; [done| | | |done].
    - intros i r [[<- <-]|[_ Hr]]%lookup_insert_Some; [split; [by eapply H2|done]|by apply H2].
    - intros i j r r' k x Hr Hr' Hk Hk'. apply lookup_insert_Some in Hr, Hr'.
      destruct Hr as [[<- <-]|[Hi Hr]], Hr' as [[<- <-]|[Hj Hr']]; [done| | |by eapply (H3 i j)].
      + exfalso. apply Hj. eapply (H3 id j); [done|done|by apply Hsub|done].
      + exfalso. apply Hi. symmetry. eapply (H3 i id); [done|done|done|by apply Hsub].
    - intros i r [[<- <-]|[_ Hr]]%lookup_insert_Some Hact; [rewrite Er; apply (H4 id row Hrow); by apply Ea|by apply (H4 i r)]. }
  split; [done|]. split; [unfold events_only; split_and!; [done..|cbn; lia]|]. split.
  - intros k x Hk. apply active_event_agree; [done|done|]. intros i r Hr. cbn. rewrite lookup_insert_Some. split.
    + intros [[<- <-]|[_ ?]]; [|done]. rewrite (Hsub k x Hr) in Hk. done.
    + intros Hi. right. split; [|done]. intros <-. congruence.
  - intros k x Hk. apply subject_of_true in Hk as (E1 & E2 & E3). destruct (Z.eqb_spec (er_active row') 1) as [Ha|Ha].
    + apply active_event_Some; [done|]. cbn. rewrite lookup_insert_eq. split; [done|]. apply subject_of_true. split_and!; congruence.
    + apply active_event_None. intros i r Hr. apply not_true_is_false. intros Hs. cbn in Hr. apply lookup_insert_Some in Hr as [[<- <-]|[Hi Hr]].
      * apply subject_of_true in Hs. tauto.
      * apply Hi. symmetry. eapply (H3 i id); [done|done|exact Hs|]. by apply subject_of_true.
Qed.

Lemma event_inserted s row :
  events_ok s → event_wf row → er_active row = 1 → (∃ rule, stored s rule ∧ er_rule_id row = uuid_string (rule_id rule) ∧ rule_enabled rule = true) →
  active_event (er_rule_id row) (er_subject row) s = None →
  let s' := set_events (<[last_event s + 1 := row]> (alert_events s)) (last_event s + 1) s in
  events_ok s' ∧ events_only s s' ∧
  (∀ k x, subject_of k x row = false → active_event k x s' = active_event k x s) ∧
  active_event (er_rule_id row) (er_subject row) s' = Some (last_event s + 1, row).
Proof.
  intros Hok Hwf Ha Hrule Hnone s'. pose proof Hok as [H1 H2 H3 H4 H5]. rewrite active_event_None in Hnone.
  assert (alert_events s !! (last_event s + 1) = None) as Hnew.
  { destruct (alert_events s !! (last_event s + 1)) as [r|] eqn:Hr; [|done]. apply H2 in Hr as [? _]. lia. }
  assert (∀ k x, subject_of k x row = true → k = er_rule_id row ∧ x = er_subject row) as Hsub.
  { intros k x (? & _ & ?)%subject_of_true. done. }
  assert (events_ok s') as Hok'.
  { split; cbn [alert_rules alert_events last_event set_events s']; [done| | | |lia].
    - intros i r [[<- <-]|[_ Hr]]%lookup_insert_Some; [split; [lia|done]|]. apply H2 in Hr as [? ?]. split; [lia|done].
    - intros i j r r' k x Hr Hr' Hk Hk'. apply lookup_insert_Some in Hr, Hr'.
      destruct Hr as [[<- <-]|[Hi Hr]], Hr' as [[<- <-]|[Hj Hr']]; [done| | |by eapply (H3 i j)].
      + destruct (Hsub k x Hk) as [-> ->]. rewrite (Hnone j r' Hr') in Hk'. done.
      + destruct (Hsub k x Hk') as [-> ->]. rewrite (Hnone i r Hr) in Hk. done.
    - intros i r [[<- <-]|[_ Hr]]%lookup_insert_Some Hact; [done|by apply (H4 i r)]. }
  split; [done|]. split; [unfold events_only; split_and!; [done..|cbn; lia]|]. split.
  - intros k x Hk. apply active_event_agree; [done|done|]. intros i r Hr. cbn. rewrite lookup_insert_Some. split.
    + intros [[<- <-]|[_ ?]]; [|done]. congruence.
    + intros Hi. right. split; [|done]. intros <-. congruence.
  - apply active_event_Some; [done|]. cbn. rewrite lookup_insert_eq. split; [done|]. by apply subject_of_true.
Qed.

(** ** Signals *)

Definition of_rule (rule : AlertRule) (n : AlertNotification) : Prop :=
  ev_rule_id (n_event n) = rule_id rule ∧ notification_finite n ∧ n_webhook n = notify_webhook rule ∧ n_email n = notify_email rule.
Definition live_rule (s : AlertCatalog) (rule : AlertRule) : Prop := stored s rule ∧ rule_enabled rule = true.
Abbreviation uid rule := (uuid_string (rule_id rule)).

Lemma live_rule_events s s' rule : events_only s s' → live_rule s rule → live_rule s' rule.
Proof. intros (E & _) [[H1 H2] H3]. unfold live_rule, stored. rewrite E. done. Qed.

(** What a step for one rule does to its alert for [x], the others being as before. *)
Definition alert_step (rule : AlertRule) (now : Z) (firing : bool) (x : rstr) (s s' : AlertCatalog) (ns : list AlertNotification) : Prop :=
  (alert_of s' (uid rule) x, notices ns (rule_id rule) x) = next_alert (cooldown_seconds rule) now firing (alert_of s (uid rule) x).
Definition untouched (rule : AlertRule) (x : rstr) (s s' : AlertCatalog) (ns : list AlertNotification) : Prop :=
  active_event (uid rule) x s' = active_event (uid rule) x s ∧ notices ns (rule_id rule) x = [].
Definition other_rules (rule : AlertRule) (s s' : AlertCatalog) : Prop :=
  ∀ k x, k ≠ uid rule → active_event k x s' = active_event k x s.

Lemma notices_app ns ns' r x : notices (ns ++ ns') r x = notices ns r x ++ notices ns' r x.
Proof. unfold notices. by rewrite filter_app, fmap_app. Qed.
Lemma notices_one n r x : notices [n] r x = if decide (about r x n) then [n_resolved n] else [].
Proof. unfold notices, filter. cbn. by case_decide. Qed.

(** The outcome of a signal that fires: a step of the alert of its subject, and nothing else. *)
Definition signal_step (rule : AlertRule) (now : Z) (signal : AlertSignal) (s s' : AlertCatalog) (ns : list AlertNotification) : Prop :=
  events_ok s' ∧ events_only s s' ∧ Forall (of_rule rule) ns ∧ other_rules rule s s' ∧
  alert_step rule now true (sig_subject signal) s s' ns ∧ ∀ x, x ≠ sig_subject signal → untouched rule x s s' ns.

Lemma subject_of_ne k k' x x' row : subject_of k x row = true → (k', x') ≠ (k, x) → subject_of k' x' row = false.
Proof.
  intros (E1 & _ & E2)%subject_of_true Hne. apply not_true_is_false. intros (E3 & _ & E4)%subject_of_true. apply Hne. congruence.
Qed.

Lemma refresh_event_ok rule now signal s id row e :
  events_ok s → live_rule s rule → time_ok now → is_finite (sig_value signal) = true →
  active_event (uid rule) (sig_subject signal) s = Some (id, row) → parse_event id row = Ok e →
  ensures (refresh_event rule signal now e) s (λ out s', ∃ ns, out = Ok ns ∧ signal_step rule now signal s s' ns).
Proof using laws.
  intros Hok [[_ (Huid & _)] _] Hnow Hfin Ea He. pose proof Ea as [Hr Hs]%active_event_Some; [|done].
  pose proof (eo_events s Hok id row Hr) as [Hid Hew]. destruct (parse_event_row id row Hew) as (e' & He' & Eid & Er & Hru & Es & El & Ev & Et).
  rewrite He in He'. injection He' as <-. pose proof Hs as (S1 & S2 & S3)%subject_of_true.
  assert (ev_rule_id e = rule_id rule) as Erule by (apply uuid_string_inj; congruence).
  unfold refresh_event. cbn [ev_id]. set (due := match ev_last_notified e with Some last => _ | None => true end).
  set (when := if due then Some now else ev_last_notified e). do 2 db_step. rewrite Eid.
  set (row' := refresh_row (sig_value signal) (sig_message signal) now when row).
  assert (∀ t, when = Some t → time_ok t) as Hwhen.
  { intros t. subst when. destruct due; [by intros [= <-]|]. rewrite El. apply Hew. }
  assert (row_alert row' = {| since := er_started row; notified := when |}) as Enot.
  { unfold row_alert. cbn. f_equal. destruct when as [t|]; [|done]. cbn. specialize (Hwhen t eq_refl). unfold time_ok in Hwhen. by rewrite to_i64_clock by lia. }
  assert (event_wf row') as Hwf'.
  { destruct Hew as (A1 & A2 & A3 & A4 & A5 & A6 & A7 & A8). split_and!; try done.
    - cbn. unfold time_ok in *. rewrite to_i64_clock by lia. lia.
    - intros t Ht. apply Hwhen. apply (f_equal notified) in Enot. rewrite <- Ht. symmetry. exact Enot. }
  rewrite (alter_known _ id row) by done. fold row'.
  destruct (event_changed s id row row' Hok Hr Hwf' eq_refl eq_refl ltac:(done)) as (Hok' & Hon & Hoth & Hme).
  specialize (Hme _ _ Hs). cbn [er_active row' refresh_row] in Hme. rewrite (proj2 (Z.eqb_eq _ _) S2) in Hme.
  db_step. eexists. split; [done|]. split; [done|]. split; [done|]. split_and!.
  - destruct due; [|constructor]. constructor; [|constructor]. unfold of_rule, notify, notification_finite. cbn. rewrite Et. split_and!; try done. apply Hew.
  - intros k x Hk. apply Hoth, (subject_of_ne (uid rule) k (sig_subject signal) x); congruence.
  - unfold alert_step, alert_of. rewrite Hme, Ea. cbn [fmap option_fmap option_map snd]. rewrite Enot. cbn [next_alert row_alert notified since].
    rewrite <- El. fold due. subst when. destruct due; [|unfold row_alert; by rewrite <- El].
    rewrite notices_one, decide_True; [done|]. split; cbn; congruence.
  - intros x Hx. split; [apply Hoth, (subject_of_ne (uid rule) (uid rule) (sig_subject signal) x); congruence|].
    destruct due; [|done]. rewrite notices_one, decide_False; [done|]. intros [_ Hn]. cbn in Hn. congruence.
Qed.

Lemma open_event_ok rule now signal s :
  events_ok s → live_rule s rule → time_ok now → is_finite (sig_value signal) = true →
  active_event (uid rule) (sig_subject signal) s = None →
  ensures (open_event rule signal now) s (λ out s', ∃ ns, out = Ok ns ∧ signal_step rule now signal s s' ns).
Proof.
  intros Hok Hlive Hnow Hfin Ea. pose proof Hlive as [[Hrow (Huid & Hthr & Hwf)] Hen].
  unfold open_event, insert_event. set (row := Build_EventRow _ _ _ _ _ _ _ _ _ _ _ _). do 3 db_step. cbn [er_rule_id er_subject row]. rewrite Ea.
  rewrite bool_decide_true by done. cbn [db_ensure]. do 5 db_step. cbn [last_event set_events].
  assert (event_wf row) as Hwf'.
  { unfold time_ok in *. split_and!; cbn; rewrite ?to_i64_clock by lia; try done; [by exists (rule_id rule), (severity rule)|by right|by intros t [= <-]]. }
  destruct (event_inserted s row Hok Hwf' eq_refl) as (Hok' & Hon & Hoth & Hme); [by exists rule|done|].
  assert (subject_of (uid rule) (sig_subject signal) row = true) as Hs by by apply subject_of_true.
  db_step. eexists. split; [done|]. split; [done|]. split; [done|]. split_and!.
  - constructor; [|constructor]. by unfold of_rule, notify, notification_finite.
  - intros k x Hk. apply Hoth, (subject_of_ne (uid rule) k (sig_subject signal) x); congruence.
  - unfold alert_step, alert_of. cbn [er_rule_id er_subject row] in Hme. rewrite Hme, Ea. cbn [fmap option_fmap option_map next_alert snd].
    rewrite notices_one, decide_True by done. unfold row_alert. cbn. unfold time_ok in Hnow. by rewrite to_i64_clock by lia.
  - intros x Hx. split; [apply Hoth, (subject_of_ne (uid rule) (uid rule) (sig_subject signal) x); congruence|].
    rewrite notices_one, decide_False; [done|]. intros [_ Hn]. cbn in Hn. congruence.
Qed.

Lemma eval_signal_ok rule now signal s :
  events_ok s → live_rule s rule → time_ok now → is_finite (sig_value signal) = true →
  ensures (eval_signal rule now signal) s (λ out s', ∃ ns, out = Ok ns ∧ signal_step rule now signal s s' ns).
Proof using laws.
  intros Hok Hlive Hnow Hfin. unfold eval_signal. do 2 db_step.
  destruct (active_event (uid rule) (sig_subject signal) s) as [[id row]|] eqn:Ea; [|by apply open_event_ok].
  pose proof Ea as [Hr _]%active_event_Some; [|done]. destruct (parse_event_row id row (proj2 (eo_events s Hok id row Hr))) as (e & He & _).
  rewrite He. do 2 db_step. by eapply refresh_event_ok.
Qed.

Lemma next_alert_again cooldown now a : 0 < cooldown →
  next_alert cooldown now true (next_alert cooldown now true a).1 = ((next_alert cooldown now true a).1, []).
Proof.
  intros Hc. assert (cooldown <=? saturating_sub now now = false) as E by (apply Z.leb_gt; unfold saturating_sub; lia).
  destruct a as [a|]; cbn [next_alert fst notified]; [|by rewrite E].
  destruct (match notified a with Some last => _ | None => true end) eqn:Ed; cbn [next_alert fst notified]; [by rewrite E|by rewrite Ed].
Qed.

Lemma untouched_alert rule x s s' ns : untouched rule x s s' ns → alert_of s' (uid rule) x = alert_of s (uid rule) x.
Proof. intros [H _]. unfold alert_of. by rewrite H. Qed.
Lemma untouched_trans rule x s s1 s2 ns1 ns2 : untouched rule x s s1 ns1 → untouched rule x s1 s2 ns2 → untouched rule x s s2 (ns1 ++ ns2).
Proof. intros [A1 A2] [B1 B2]. split; [congruence|]. by rewrite notices_app, A2, B2. Qed.
Lemma step_untouched rule now f x s s1 s2 ns1 ns2 :
  alert_step rule now f x s s1 ns1 → untouched rule x s1 s2 ns2 → alert_step rule now f x s s2 (ns1 ++ ns2).
Proof.
  unfold alert_step. intros H Hu. rewrite (untouched_alert _ _ _ _ _ Hu), notices_app. destruct Hu as [_ ->]. by rewrite app_nil_r.
Qed.
Lemma untouched_step rule now f x s s1 s2 ns1 ns2 :
  untouched rule x s s1 ns1 → alert_step rule now f x s1 s2 ns2 → alert_step rule now f x s s2 (ns1 ++ ns2).
Proof.
  unfold alert_step. intros Hu H. rewrite <- (untouched_alert _ _ _ _ _ Hu), notices_app. destruct Hu as [_ ->]. by rewrite <- H.
Qed.
Lemma step_again rule now x s s1 s2 ns1 ns2 : 0 < cooldown_seconds rule →
  alert_step rule now true x s s1 ns1 → alert_step rule now true x s1 s2 ns2 → alert_step rule now true x s s2 (ns1 ++ ns2).
Proof.
  unfold alert_step. intros Hc H1 H2. rewrite notices_app.
  pose proof (next_alert_again (cooldown_seconds rule) now (alert_of s (uid rule) x) Hc) as Ha.
  rewrite <- H1 in Ha |- *. cbn [fst] in Ha. rewrite Ha in H2. injection H2 as -> ->. by rewrite app_nil_r.
Qed.

(** Steps for the subjects of [xs], and nothing else. *)
Definition subjects_step (rule : AlertRule) (now : Z) (f : bool) (xs : list rstr) (s s' : AlertCatalog) (ns : list AlertNotification) : Prop :=
  events_ok s' ∧ events_only s s' ∧ Forall (of_rule rule) ns ∧ other_rules rule s s' ∧
  ∀ x, if bool_decide (x ∈ xs) then alert_step rule now f x s s' ns else untouched rule x s s' ns.
Lemma subjects_none rule now f s : events_ok s → subjects_step rule now f [] s s [].
Proof. intros Hok. split_and!; [done|apply events_only_refl|constructor|done|]. intros x. by rewrite bool_decide_false by apply not_elem_of_nil. Qed.
Lemma other_rules_trans rule s s1 s2 : other_rules rule s s1 → other_rules rule s1 s2 → other_rules rule s s2.
Proof. intros H1 H2 k x Hk. rewrite H2 by done. by apply H1. Qed.

Lemma eval_signals_ok rule now signals : ∀ s,
  events_ok s → live_rule s rule → time_ok now → Forall (λ signal, is_finite (sig_value signal) = true) signals →
  ensures (eval_signals rule now signals) s (λ out s', ∃ ns, out = Ok ns ∧ subjects_step rule now true (sig_subject <$> signals) s s' ns).
Proof using laws.
  induction signals as [|signal signals IH]; intros s Hok Hlive Hnow Hfin; cbn [eval_signals].
  { db_step. exists []. split; [done|]. by apply subjects_none. }
  apply Forall_cons in Hfin as [Hf Hfin]. db_step. eapply ensures_mono; [by apply (eval_signal_ok rule now signal s)|]. cbv beta.
  intros out s1 (ns1 & -> & Hok1 & Hon1 & Hof1 & Hoth1 & Hst1 & Hun1). db_step.
  eapply ensures_mono; [apply (IH s1 Hok1); [by eapply live_rule_events|done|done]|]. cbv beta.
  intros out s2 (ns2 & -> & Hok2 & Hon2 & Hof2 & Hoth2 & Hx2). db_step. exists (ns1 ++ ns2). split; [done|].
  split_and!; [done|by eapply events_only_trans|by apply Forall_app|by eapply other_rules_trans|]. intros x. specialize (Hx2 x). rewrite fmap_cons.
  assert (0 < cooldown_seconds rule) as Hcd by (destruct Hlive as [[_ (_ & _ & _ & ? & _)] _]; lia).
  destruct (decide (x = sig_subject signal)) as [->|Hne].
  - rewrite bool_decide_true by by left. destruct (bool_decide (_ ∈ sig_subject <$> signals)); [by eapply step_again|by eapply step_untouched].
  - rewrite (bool_decide_ext (x ∈ _) (x ∈ sig_subject <$> signals)) by (rewrite elem_of_cons; naive_solver).
    destruct (bool_decide _); [by eapply untouched_step; [apply Hun1|]|by eapply untouched_trans; [apply Hun1|]].
Qed.

(** ** Resolution *)

Definition event_active (rule : AlertRule) (s : AlertCatalog) (e : AlertEvent) : Prop :=
  ∃ row, active_event (uid rule) (ev_subject e) s = Some (ev_id e, row) ∧ parse_event (ev_id e) row = Ok e.

Lemma resolve_event_ok rule now s e :
  events_ok s → live_rule s rule → time_ok now → event_active rule s e →
  ensures (resolve_event rule now e) s (λ out s', ∃ n, out = Ok n ∧ subjects_step rule now false [ev_subject e] s s' [n]).
Proof using laws.
  intros Hok [[_ (Huid & _)] _] Hnow (row & Ea & He). pose proof Ea as [Hr Hs]%active_event_Some; [|done].
  pose proof (eo_events s Hok _ row Hr) as [Hid Hew]. destruct (parse_event_row (ev_id e) row Hew) as (e' & He' & Eid & Er & Hru & Es & El & Ev & Et).
  rewrite He in He'. injection He' as <-. pose proof Hs as (S1 & S2 & S3)%subject_of_true.
  assert (ev_rule_id e = rule_id rule) as Erule by (apply uuid_string_inj; congruence).
  unfold resolve_event. cbn [ev_id ev_message]. do 2 db_step. rewrite (alter_known _ (ev_id e) row) by done. set (row' := resolve_row now _ row).
  assert (event_wf row') as Hwf'.
  { destruct Hew as (A1 & A2 & A3 & A4 & A5 & A6 & A7 & A8). unfold time_ok in *. split_and!; cbn; rewrite ?to_i64_clock by lia; try done; [by left|].
    by intros t [= <-]. }
  destruct (event_changed s (ev_id e) row row' Hok Hr Hwf' eq_refl eq_refl ltac:(done)) as (Hok' & Hon & Hoth & Hme).
  specialize (Hme _ _ Hs). cbn [er_active row' resolve_row Z.eqb] in Hme. db_step. eexists. split; [done|]. split_and!; [done|done| | |].
  - constructor; [|constructor]. unfold of_rule, notify, notification_finite. cbn. rewrite Ev, Et. split_and!; try done; apply Hew.
  - intros k x Hk. apply Hoth, (subject_of_ne (uid rule) k (ev_subject e) x); congruence.
  - intros x. destruct (decide (x = ev_subject e)) as [->|Hne].
    + rewrite bool_decide_true by by left. unfold alert_step, alert_of. rewrite Hme, Ea. cbn [fmap option_fmap option_map next_alert].
      rewrite notices_one, decide_True; [done|]. split; cbn; congruence.
    + rewrite bool_decide_false by (rewrite list_elem_of_singleton; congruence).
      split; [apply Hoth, (subject_of_ne (uid rule) (uid rule) (ev_subject e) x); congruence|].
      rewrite notices_one, decide_False; [done|]. intros [_ Hn]. cbn in Hn. congruence.
Qed.

Lemma resolve_events_ok rule now events : ∀ s,
  events_ok s → live_rule s rule → time_ok now → NoDup (ev_subject <$> events) → Forall (event_active rule s) events →
  ensures (resolve_events rule now events) s (λ out s', ∃ ns, out = Ok ns ∧ subjects_step rule now false (ev_subject <$> events) s s' ns).
Proof using laws.
  induction events as [|e events IH]; intros s Hok Hlive Hnow Hnd Hact; cbn [resolve_events].
  { db_step. exists []. split; [done|]. by apply subjects_none. }
  rewrite fmap_cons in Hnd. apply NoDup_cons in Hnd as [Hni Hnd]. apply Forall_cons in Hact as [He Hact].
  db_step. eapply ensures_mono; [by apply (resolve_event_ok rule now s e)|]. cbv beta. intros out s1 (n & -> & Hok1 & Hon1 & Hof1 & Hoth1 & Hx1). db_step.
  assert (∀ x, x ≠ ev_subject e → untouched rule x s s1 [n]) as Hun1.
  { intros x Hx. specialize (Hx1 x). rewrite bool_decide_false in Hx1; [done|]. rewrite list_elem_of_singleton. done. }
  eapply ensures_mono; [apply (IH s1 Hok1); [by eapply live_rule_events|done|done|]|].
  { apply Forall_forall. intros e' He'. rewrite Forall_forall in Hact. destruct (Hact e' He') as (row & Ha & Hp). exists row.
    split; [|done]. assert (ev_subject e' ≠ ev_subject e) as Hne by (intros E; apply Hni; rewrite <- E; by apply list_elem_of_fmap_2).
    by rewrite (proj1 (Hun1 (ev_subject e') Hne)). }
  cbv beta. intros out s2 (ns2 & -> & Hok2 & Hon2 & Hof2 & Hoth2 & Hx2). db_step. exists (n :: ns2). split; [done|].
  change (n :: ns2) with ([n] ++ ns2). split_and!; [done|by eapply events_only_trans|by apply Forall_app|by eapply other_rules_trans|].
  intros x. specialize (Hx2 x). rewrite fmap_cons. destruct (decide (x = ev_subject e)) as [->|Hne].
  - rewrite bool_decide_true by by left. rewrite bool_decide_false in Hx2 by done. eapply step_untouched; [|done].
    specialize (Hx1 (ev_subject e)). by rewrite bool_decide_true in Hx1 by by left.
  - rewrite (bool_decide_ext (x ∈ _) (x ∈ ev_subject <$> events)) by (rewrite elem_of_cons; naive_solver).
    destruct (bool_decide _); [by eapply untouched_step; [apply Hun1|]|by eapply untouched_trans; [apply Hun1|]].
Qed.

(** The active events of a rule, as they are read. *)
Lemma active_events_read rule s : events_ok s → live_rule s rule →
  ∃ events, collect (λ '(id, row), parse_event id row)
              (map_to_list (filter (λ x : Z * EventRow, active_of (uid rule) x.2 = true) (alert_events s))) = Ok events ∧
    Forall (event_active rule s) events ∧ NoDup (ev_subject <$> events) ∧
    ∀ x, is_Some (active_event (uid rule) x s) → x ∈ ev_subject <$> events.
Proof using laws.
  intros Hok Hlive. set (rows := map_to_list _).
  assert (∀ id row, (id, row) ∈ rows → alert_events s !! id = Some row ∧ er_rule_id row = uid rule ∧ er_active row = 1) as Hrows.
  { intros id row Hin. apply elem_of_map_to_list, map_lookup_filter_Some in Hin as [H1 H2]. unfold active_of in H2.
    apply andb_true_iff in H2 as [H2%bool_decide_eq_true H3%Z.eqb_eq]. done. }
  destruct (collect_succeeds (λ '(id, row), parse_event id row) rows) as (events & El & H2).
  { intros [id row] Hin. destruct (Hrows id row Hin) as (Hr & _). destruct (parse_event_row id row (proj2 (eo_events s Hok id row Hr))) as (e & He & _). eauto. }
  assert (Forall2 (λ x e, parse_event x.1 x.2 = Ok e ∧ ev_id e = x.1 ∧ ev_subject e = er_subject x.2) rows events) as H2'.
  { eapply Forall2_impl; [exact H2|]. intros [id row] e. cbn. clear. unfold parse_event. intros H. bind_as H r E1. bind_as H sev E2. by injection H as <-. }
  clear H2. rename H2' into H2. exists events. split; [done|].
  assert (Forall (event_active rule s) events) as Hact.
  { apply Forall_forall. intros e He. apply list_elem_of_lookup in He as [i Hi]. destruct (Forall2_lookup_r _ _ _ _ _ H2 Hi) as ([id row] & Hx & E1 & E2 & E3).
    cbn in *. destruct (Hrows id row) as (Hr & Er & Ea); [by eapply list_elem_of_lookup_2|]. exists row. rewrite E2. split; [|done].
    apply active_event_Some; [done|]. split; [done|]. rewrite E3. by apply subject_of_true. }
  split_and!; [done| |].
  - apply NoDup_alt. intros i j x Hi Hj. rewrite list_lookup_fmap in Hi, Hj. apply fmap_Some in Hi as (e & Hi & ->). apply fmap_Some in Hj as (e' & Hj & Es).
    destruct (Forall2_lookup_r _ _ _ _ _ H2 Hi) as ([id row] & Hx & E1 & E2 & E3). destruct (Forall2_lookup_r _ _ _ _ _ H2 Hj) as ([id' row'] & Hx' & E1' & E2' & E3').
    cbn in *. destruct (Hrows id row) as (Hr & Er & Ea); [by eapply list_elem_of_lookup_2|]. destruct (Hrows id' row') as (Hr' & Er' & Ea'); [by eapply list_elem_of_lookup_2|].
    assert (id = id') as <-.
    { eapply (eo_unique s Hok id id' row row' (uid rule) (ev_subject e)); try done; apply subject_of_true; split_and!; congruence. }
    eapply (NoDup_lookup (rows.*1) i j id); [apply NoDup_fst_map_to_list|rewrite list_lookup_fmap, Hx; done|rewrite list_lookup_fmap, Hx'; done].
  - intros x [[id row] Hx]. apply active_event_Some in Hx as [Hr Hs]; [|done]. apply subject_of_true in Hs as (E1 & E2 & E3).
    assert ((id, row) ∈ rows) as Hin.
    { apply elem_of_map_to_list, map_lookup_filter_Some. split; [done|]. unfold active_of. cbn. rewrite bool_decide_true by done. by rewrite E2. }
    apply list_elem_of_lookup in Hin as [i Hi]. destruct (Forall2_lookup_l _ _ _ _ _ H2 Hi) as (e & He & _ & _ & E). cbn in E.
    rewrite <- E3, <- E. apply list_elem_of_fmap_2. by eapply list_elem_of_lookup_2.
Qed.

Lemma is_firing_spec rule signals x :
  is_firing rule signals x = bool_decide (x ∈ sig_subject <$> filter (λ signal, fires rule signal = true) signals).
Proof.
  symmetry. destruct (is_firing rule signals x) eqn:E.
  - apply bool_decide_eq_true. apply existsb_exists in E as (signal & Hin & Hf). apply andb_true_iff in Hf as [Hf Hx%bool_decide_eq_true].
    rewrite <- Hx. apply list_elem_of_fmap_2, list_elem_of_filter. split; [done|]. by apply list_elem_of_In.
  - apply bool_decide_eq_false. intros Hin. apply list_elem_of_fmap in Hin as (signal & -> & Hin). apply list_elem_of_filter in Hin as [Hf Hin].
    assert (is_firing rule signals (sig_subject signal) = true); [|congruence]. apply existsb_exists. exists signal. split; [by apply list_elem_of_In|].
    by rewrite Hf, bool_decide_true.
Qed.

(** ** A round of one rule, and of all *)

Definition round (rule : AlertRule) (signals : list AlertSignal) (now : Z) (s s' : AlertCatalog) (ns : list AlertNotification) : Prop :=
  ∀ x, alert_step rule now (is_firing rule signals x) x s s' ns.

Lemma eval_rule_ok rule signals now s :
  events_ok s → live_rule s rule → time_ok now → Forall (λ signal, is_finite (sig_value signal) = true) signals →
  ensures (eval_rule signals now rule) s (λ out s', ∃ ns, out = Ok ns ∧ events_ok s' ∧ events_only s s' ∧ Forall (of_rule rule) ns ∧
    other_rules rule s s' ∧ round rule signals now s s' ns).
Proof using laws.
  intros Hok Hlive Hnow Hfin. unfold eval_rule. db_step. set (firing := filter _ signals).
  eapply ensures_mono; [apply (eval_signals_ok rule now firing s Hok Hlive Hnow); by apply Forall_filter_sub|]. cbv beta.
  intros out s1 (ns1 & -> & Hok1 & Hon1 & Hof1 & Hoth1 & Hx1). do 3 db_step. pose proof (live_rule_events s s1 rule Hon1 Hlive) as Hlive1.
  destruct (active_events_read rule s1 Hok1 Hlive1) as (events & El & Hact & Hnd & Hall). rewrite El. do 2 db_step.
  set (gone := filter _ events).
  assert (∀ x, x ∈ ev_subject <$> gone ↔ x ∈ ev_subject <$> events ∧ x ∉ sig_subject <$> firing) as Hgone.
  { intros x. subst gone. split.
    - intros (e & -> & [Hn He]%list_elem_of_filter)%list_elem_of_fmap. split; [by apply list_elem_of_fmap_2|done].
    - intros [(e & -> & He)%list_elem_of_fmap Hn]. apply list_elem_of_fmap_2, list_elem_of_filter. done. }
  eapply ensures_mono; [apply (resolve_events_ok rule now gone s1 Hok1 Hlive1 Hnow)|].
  - by apply NoDup_fmap_filter.
  - by apply Forall_filter_sub.
  - cbv beta. intros out s2 (ns2 & -> & Hok2 & Hon2 & Hof2 & Hoth2 & Hx2). db_step. exists (ns1 ++ ns2).
    split_and!; [done|done|by eapply events_only_trans|by apply Forall_app|by eapply other_rules_trans|].
    intros x. rewrite is_firing_spec. fold firing. specialize (Hx1 x). specialize (Hx2 x).
    destruct (bool_decide_reflect (x ∈ sig_subject <$> firing)) as [Hf|Hf].
    { eapply step_untouched; [done|]. rewrite bool_decide_false in Hx2; [done|]. rewrite Hgone. tauto. }
    eapply untouched_step; [done|]. destruct (bool_decide_reflect (x ∈ ev_subject <$> gone)) as [Hg|Hg]; [done|].
    assert (active_event (uid rule) x s1 = None) as En.
    { apply eq_None_not_Some. intros Hs. apply Hg, Hgone. split; [by apply Hall|done]. }
    destruct Hx2 as [E1 E2]. unfold alert_step, alert_of. by rewrite E1, En, E2.
Qed.

Lemma eval_rules_ok signals now rules : ∀ s,
  events_ok s → Forall (live_rule s) rules → NoDup (rule_id <$> rules) → time_ok now → Forall (λ signal, is_finite (sig_value signal) = true) signals →
  ensures (eval_rules signals now rules) s (λ out s', ∃ ns, out = Ok ns ∧ events_ok s' ∧ events_only s s' ∧
    Forall (λ n, ∃ rule, rule ∈ rules ∧ of_rule rule n) ns ∧
    (∀ rule, rule ∈ rules → round rule signals now s s' ns) ∧
    (∀ k x, (∀ rule, rule ∈ rules → k ≠ uid rule) → active_event k x s' = active_event k x s) ∧
    (∀ r x, r ∉ rule_id <$> rules → notices ns r x = [])).
Proof using laws.
  induction rules as [|rule rules IH]; intros s Hok Hlive Hnd Hnow Hfin; cbn [eval_rules].
  { db_step. exists []. split_and!; [done|done|apply events_only_refl|constructor|by intros ? ?%elem_of_nil|done|done]. }
  apply Forall_cons in Hlive as [Hrule Hlive]. rewrite fmap_cons in Hnd. apply NoDup_cons in Hnd as [Hni Hnd].
  db_step. eapply ensures_mono; [by apply (eval_rule_ok rule signals now s)|]. cbv beta. intros out s1 (ns1 & -> & Hok1 & Hon1 & Hof1 & Hoth1 & Hr1).
  assert (∀ r x, r ≠ rule_id rule → notices ns1 r x = []) as Hnone1.
  { intros r x Hne. unfold notices. replace (filter (about r x) ns1) with (@nil AlertNotification); [done|]. symmetry.
    clear -Hof1 Hne. induction Hof1 as [|n ns [Hn _] _ IH]; [done|]. rewrite filter_cons, decide_False; [done|]. intros [? _]. congruence. }
  assert (∀ rule', rule' ∈ rules → uid rule ≠ uid rule') as Hdiff.
  { intros rule' Hin E. apply Hni. rewrite Forall_forall in Hlive. destruct (Hlive rule' Hin) as [[_ (Hu & _)] _]. destruct Hrule as [[_ (Hu' & _)] _].
    rewrite (uuid_string_inj _ _ Hu' Hu E). by apply list_elem_of_fmap_2. }
  db_step. eapply ensures_mono; [apply (IH s1 Hok1); [|done|done|done]|].
  { eapply Forall_impl; [exact Hlive|]. intros r. by apply live_rule_events. }
  cbv beta. intros out s2 (ns2 & -> & Hok2 & Hon2 & Hof2 & Hr2 & Hoth2 & Hnone2). db_step. exists (ns1 ++ ns2).
  split_and!; [done|done|by eapply events_only_trans| | | |].
  - apply Forall_app. split; [eapply Forall_impl; [exact Hof1|]; intros n Hn; exists rule; split; [by left|done]|].
    eapply Forall_impl; [exact Hof2|]. intros n (r & Hr & Hn). exists r. split; [by right|done].
  - intros rule' [->|Hin]%elem_of_cons x.
    + eapply step_untouched; [apply Hr1|]. split; [by apply Hoth2|]. by apply Hnone2.
    + eapply untouched_step; [|by apply Hr2]. split; [apply Hoth1; intros E; by apply (Hdiff rule')|]. apply Hnone1. intros E. apply Hni. rewrite <- E.
      by apply list_elem_of_fmap_2.
  - intros k x Hk. rewrite Hoth2 by (intros r Hr; apply Hk; by right). apply Hoth1, Hk. by left.
  - intros r x Hr. rewrite fmap_cons, elem_of_cons in Hr. rewrite notices_app, Hnone1, Hnone2; [done|tauto|tauto].
Qed.

Lemma list_rules_ok s (Q : result AlertError (list AlertRule) → AlertCatalog → Prop) : events_ok s →
  (∀ rules, (∀ rule, rule ∈ rules ↔ stored s rule) → NoDup (rule_id <$> rules) → Q (Ok rules) s) → ensures list_rules s Q.
Proof using laws.
  intros Hok HQ. unfold list_rules. do 3 db_step. set (rows := merge_sort _ _).
  assert (rows ≡ₚ map_to_list (alert_rules s)) as Hp by apply merge_sort_Permutation.
  assert (∀ k row, (k, row) ∈ rows ↔ alert_rules s !! k = Some row) as Hin by (intros k row; by rewrite Hp, elem_of_map_to_list).
  assert (∀ k row, (k, row) ∈ rows → ∃ rule, parse_rule k row = Ok rule ∧ stored s rule ∧ k = uid rule) as Hrows.
  { intros k row Hr. apply Hin in Hr. destruct (eo_rules s Hok k row Hr) as (rule & -> & -> & Hwf). exists rule. split_and!; [by apply parse_rule_row|by split|done]. }
  destruct (collect_succeeds (λ '(id, row), parse_rule id row) rows) as (rules & El & H2).
  { intros [k row] Hr. destruct (Hrows k row Hr) as (rule & ? & _). eauto. }
  rewrite El. apply HQ.
  - intros rule. split.
    + intros Hr. apply list_elem_of_lookup in Hr as [i Hi]. destruct (Forall2_lookup_r _ _ _ _ _ H2 Hi) as ([k row] & Hx & E). cbn in E.
      destruct (Hrows k row) as (rule' & E' & Hs & _); [by eapply list_elem_of_lookup_2|]. congruence.
    + intros [Hr Hwf]. pose proof (proj2 (Hin _ _) Hr) as Hx. apply list_elem_of_lookup in Hx as [i Hi].
      destruct (Forall2_lookup_l _ _ _ _ _ H2 Hi) as (rule' & He & E). cbn in E. rewrite parse_rule_row in E by done. injection E as ->. by eapply list_elem_of_lookup_2.
  - apply NoDup_alt. intros i j r Hi Hj. rewrite list_lookup_fmap in Hi, Hj. apply fmap_Some in Hi as (a & Hi & ->). apply fmap_Some in Hj as (b & Hj & Eab).
    destruct (Forall2_lookup_r _ _ _ _ _ H2 Hi) as ([k row] & Hx & E). destruct (Forall2_lookup_r _ _ _ _ _ H2 Hj) as ([k' row'] & Hx' & E'). cbn in E, E'.
    destruct (Hrows k row) as (a' & Ea & _ & ->); [by eapply list_elem_of_lookup_2|]. destruct (Hrows k' row') as (b' & Eb & _ & ->); [by eapply list_elem_of_lookup_2|].
    assert (a' = a) as -> by congruence. assert (b' = b) as -> by congruence.
    eapply (NoDup_lookup (rows.*1) i j (uid a)); [rewrite Hp; apply NoDup_fst_map_to_list|by rewrite list_lookup_fmap, Hx|by rewrite list_lookup_fmap, Hx', Eab].
Qed.

(** ** Rules change *)

Lemma stored_unique s r1 r2 : stored s r1 → stored s r2 → uid r1 = uid r2 → r1 = r2.
Proof using laws.
  intros [H1 W1] [H2 W2] E. rewrite E, H2 in H1. assert (rule_row r2 = rule_row r1) as Er by congruence.
  pose proof (parse_rule_row r1 W1) as P1. rewrite E, <- Er, parse_rule_row in P1 by done. congruence.
Qed.

Definition no_alerts (s : AlertCatalog) (k : rstr) : Prop := ∀ id row, alert_events s !! id = Some row → active_of k row = false.
Lemma active_of_true k row : active_of k row = true ↔ er_rule_id row = k ∧ er_active row = 1.
Proof. unfold active_of. by rewrite andb_true_iff, bool_decide_eq_true, Z.eqb_eq. Qed.

Lemma persist_ok s rule : events_ok s → rule_wf rule → rule_enabled rule = true ∨ no_alerts s (uid rule) →
  events_ok (set_rules (<[uid rule := rule_row rule]> (alert_rules s)) s).
Proof using laws.
  intros Hok Hwf Hen. pose proof Hok as [H1 H2 H3 H4 H5]. split; cbn [alert_rules alert_events last_event set_rules]; try done.
  - intros k row [[<- <-]|[_ Hr]]%lookup_insert_Some; [by exists rule|by apply H1].
  - intros id row Hr Ha. destruct (H4 id row Hr Ha) as (r & [Hs Hw] & Er & Hre). destruct (decide (uid r = uid rule)) as [E|Hne].
    + destruct Hen as [Hen|Hno]; [|specialize (Hno id row Hr); rewrite (proj2 (active_of_true _ _)) in Hno; [done|by rewrite Er]].
      exists rule. split_and!; [|congruence|done]. split; [|done]. cbn. by rewrite lookup_insert_eq.
    + exists r. split_and!; [|done|done]. split; [|done]. cbn. by rewrite lookup_insert_ne.
Qed.

Lemma resolved_ok s k now reason : events_ok s → time_ok now →
  let s' := set_events ((λ row, if active_of k row then resolve_row now (er_message row ++ reason) row else row) <$> alert_events s) (last_event s) s in
  events_ok s' ∧ no_alerts s' k.
Proof.
  intros Hok Hnow s'. pose proof Hok as [H1 H2 H3 H4 H5].
  assert (∀ id row, alert_events s' !! id = Some row → ∃ old, alert_events s !! id = Some old ∧ er_rule_id row = er_rule_id old ∧ er_subject row = er_subject old ∧
            (er_active row = 1 → row = old ∧ active_of k old = false) ∧ event_wf row) as Hrow.
  { intros id row Hr. cbn in Hr. rewrite lookup_fmap in Hr. apply fmap_Some in Hr as (old & Ho & ->). exists old. split; [done|].
    destruct (H2 id old Ho) as [_ Hwf]. destruct (active_of k old) eqn:E; [|done]. split_and!; try done.
    destruct Hwf as (A1 & A2 & A3 & A4 & A5 & A6 & A7 & A8). unfold time_ok in *. split_and!; cbn; rewrite ?to_i64_clock by lia; try done; [by left|].
    by intros t [= <-]. }
  split; [split; cbn [alert_rules last_event set_events s']; [done| | | |done]|].
  - intros id row Hr. destruct (Hrow id row Hr) as (old & Ho & _ & _ & _ & Hwf). split; [by eapply H2|done].
  - intros id id' row row' k' x Hr Hr' Hs Hs'. destruct (Hrow id row Hr) as (old & Ho & _ & _ & Ha & _). destruct (Hrow id' row' Hr') as (old' & Ho' & _ & _ & Ha' & _).
    pose proof (proj1 (subject_of_true _ _ _) Hs) as (_ & E & _). pose proof (proj1 (subject_of_true _ _ _) Hs') as (_ & E' & _).
    destruct (Ha E) as [-> _]. destruct (Ha' E') as [-> _]. by eapply (H3 id id').
  - intros id row Hr Ha. destruct (Hrow id row Hr) as (old & Ho & _ & _ & Hact & _). destruct (Hact Ha) as [-> _]. by apply (H4 id).
  - intros id row Hr. destruct (Hrow id row Hr) as (old & Ho & _ & _ & Hact & _). apply not_true_is_false. intros Hx.
    pose proof (proj1 (active_of_true _ _) Hx) as [_ Ha]. destruct (Hact Ha) as [-> E]. congruence.
Qed.

Lemma rule_of_wf id request created now : uuid_ok id → time_ok created → time_ok now → validate_rule request = Ok tt → rule_wf (rule_of id request created now).
Proof.
  intros Hid Hc Hn Hv. unfold validate_rule in Hv. bind_as Hv u1 E1. bind_as Hv u2 E2. bind_as Hv u3 E3. bind_as Hv u4 E4.
  apply reject_if_Ok in E2, E3, E4. apply negb_false_iff in E2, E3, E4. apply andb_true_iff in E3 as [? ?], E4 as [? ?].
  repeat match goal with H : (_ <=? _) = true |- _ => apply Z.leb_le in H end. by unfold rule_wf, rule_of.
Qed.

(** The operations on rules keep the invariant and do not touch the queue. *)
Definition rules_step {A} (s : AlertCatalog) (out : result AlertError A) (s' : AlertCatalog) : Prop :=
  events_ok s' ∧ deliveries s' = deliveries s ∧ last_delivery s' = last_delivery s ∧ counters s' = counters s.

Lemma create_rule_ok request id now s : events_ok s → uuid_ok id → time_ok now → cr_enabled request = true ∨ alert_rules s !! uuid_string id = None →
  ensures (create_rule request id now) s (rules_step s).
Proof using laws.
  intros Hok Hid Hnow Hnew. unfold create_rule. do 2 db_step. destruct (validate_rule request) as [[]|e] eqn:Ev; [|done]. cbv beta iota zeta. unfold persist_rule. do 3 db_step.
  split_and!; [|done..]. apply persist_ok; [done|by apply rule_of_wf|]. destruct Hnew as [Hnew|Hnew]; [by left|right].
  intros i row Hr. apply not_true_is_false. intros [Er Ha]%active_of_true. destruct (eo_live s Hok i row Hr Ha) as (r & [Hs _] & E & _). cbn in Er. congruence.
Qed.
Lemma update_rule_ok id request now s : events_ok s → uuid_ok id → time_ok now → ensures (update_rule id request now) s (rules_step s).
Proof using laws.
  intros Hok Hid Hnow. unfold update_rule. do 2 db_step. destruct (validate_rule request) as [[]|e] eqn:Ev; [|done]. cbv beta iota zeta. db_step. unfold find_rule. do 2 db_step.
  destruct (alert_rules s !! uuid_string id) as [row|] eqn:Hrow; [|by do 2 db_step]. destruct (eo_rules s Hok _ _ Hrow) as (old & E & -> & Hwf).
  rewrite E, parse_rule_row by done. do 3 db_step. cbv zeta. unfold persist_rule, resolve_rule_events. do 3 db_step. cbn [rule_enabled rule_of rule_id].
  set (rule := rule_of id request (rule_created old) now). assert (rule_wf rule) as Hwf' by (apply rule_of_wf; [done|apply Hwf|done|done]).
  destruct (cr_enabled request) eqn:Een; cbn [negb].
  - do 2 db_step. split_and!; [|done..]. apply (persist_ok s rule); auto.
  - do 2 db_step. split_and!; [|done..]. destruct (resolved_ok s (uuid_string id) now (lit " (" ++ lit "rule disabled" ++ lit ")") Hok Hnow) as [H1 H2].
    exact (persist_ok _ rule H1 Hwf' (or_intror H2)).
Qed.
Lemma delete_rule_ok id now s : events_ok s → time_ok now → ensures (delete_rule id now) s (rules_step s).
Proof.
  intros Hok Hnow. unfold delete_rule, resolve_rule_events. do 6 db_step. db_step.
  destruct (resolved_ok s (uuid_string id) now (lit " (" ++ lit "rule deleted" ++ lit ")") Hok Hnow) as [[H1 H2 H3 H4 H5] Hno].
  split_and!; [|done..]. split; cbn [alert_rules alert_events last_event set_rules]; try done.
  - intros k row [_ Hr]%lookup_delete_Some. by apply H1.
  - intros i row Hr Ha. destruct (H4 i row Hr Ha) as (r & [Hs Hw] & Er & He). exists r. split_and!; [|done|done]. split; [|done]. cbn.
    rewrite lookup_delete_ne; [done|]. intros E. specialize (Hno i row Hr). rewrite (proj2 (active_of_true _ _)) in Hno; [done|]. split; [congruence|done].
Qed.

Lemma create_all_ok requests : ∀ ids i now s, events_ok s → (∀ j, uuid_ok (ids j)) → time_ok now → Forall (λ r, cr_enabled r = true) requests →
  ensures (create_all ids i now requests) s (rules_step s).
Proof using laws.
  induction requests as [|r requests IH]; intros ids i now s Hok Hids Hnow Hen; cbn [create_all]; [by db_step|].
  apply Forall_cons in Hen as [Hr Hen]. db_step. eapply ensures_mono; [apply (create_rule_ok r (ids i) now s); auto|]. cbv beta.
  intros [u|e] s1 (Hok1 & E1 & E2 & E3); [|done]. eapply ensures_mono; [by apply (IH ids (S i) now s1)|]. cbv beta. intros out s2 (Hok2 & F1 & F2 & F3).
  split_and!; [done|congruence..].
Qed.
Lemma create_missing_ok requests : ∀ ids i now s, events_ok s → (∀ j, uuid_ok (ids j)) → time_ok now → Forall (λ r, cr_enabled r = true) requests →
  ensures (create_missing ids i now requests) s (rules_step s).
Proof using laws.
  induction requests as [|r requests IH]; intros ids i now s Hok Hids Hnow Hen; cbn [create_missing]; [by db_step|].
  apply Forall_cons in Hen as [Hr Hen]. do 2 db_step. destruct (any _ _); [by apply IH|]. db_step.
  eapply ensures_mono; [apply (create_rule_ok r (ids i) now s); auto|]. cbv beta.
  intros [u|e] s1 (Hok1 & E1 & E2 & E3); [|done]. eapply ensures_mono; [by apply (IH ids (S i) now s1)|]. cbv beta. intros out s2 (Hok2 & F1 & F2 & F3).
  split_and!; [done|congruence..].
Qed.
Lemma ensure_defaults_ok ids now s : events_ok s → (∀ j, uuid_ok (ids j)) → time_ok now → ensures (ensure_defaults ids now) s (rules_step s).
Proof using laws.
  intros Hok Hids Hnow. unfold ensure_defaults. do 3 db_step.
  assert (ensures (if map_len (alert_rules s) =? 0 then create_all ids 0 now default_alert_rules else mret 0%nat) s (rules_step s)) as H.
  { destruct (_ =? _); [apply create_all_ok; [done|done|done|by repeat constructor]|by db_step]. }
  eapply ensures_mono; [exact H|]. cbv beta. intros [i|e] s1 (Hok1 & E1 & E2 & E3); [|done].
  eapply ensures_mono; [apply (create_missing_ok default_slo_rules ids i now s1); [done|done|done|by repeat constructor]|]. cbv beta.
  intros out s2 (Hok2 & F1 & F2 & F3). split_and!; [done|congruence..].
Qed.
End invariant.
