(* ===== verification/AlertSystem.v ===== *)
(** * Alerting: histories of the catalog ([alerting.rs])

    Rules, events and the queue together: the operations of the catalog in any order, on a clock
    that does not run backwards, with the ledger of what was sent, handed out and settled.
    UUIDs drawn for rules and lease tokens are new; signals have finite values. *)

From S2P Require Import Prelude DbMonad RustStr AdminAuth AlertTables AlertDelivery Alerting.
Local Open Scope Z_scope.
Set Default Proof Using "Type".

(** ** Evaluation and queue together *)

Section system.
Context {plat : Platform} {laws : PlatformLaws} {json : NotificationJson} {json_laws : NotificationJsonLaws}.
Abbreviation uid rule := (uuid_string (rule_id rule)).

Definition catalog_ok (s : AlertCatalog) (g : Ledger) (latest : Z) : Prop := events_ok s ∧ ledger_ok s g latest.

Lemma enqueue_all_ok ns : ∀ keys i s g now, ledger_ok s g now → Forall notification_finite ns →
  ensures (enqueue_all keys i now ns) s (λ out s',
    match out with
    | Ok _ => ledger_ok s' (send_all (last_delivery s) (ns ≫= plan) g) now ∧ last_delivery s' = last_delivery s + len (ns ≫= plan) ∧ same_alerts s s'
    | Err e => e = QueueFull ∨ e = PayloadTooLarge ∨ e = UniqueViolated
    end).
Proof using json_laws.
  induction ns as [|n ns IH]; intros keys i s g now Hok Hfin; cbn [enqueue_all].
  { db_step. cbn. rewrite len_nil. split_and!; [done|lia|done]. }
  apply Forall_cons in Hfin as [Hf Hfin]. db_step. eapply ensures_mono; [by apply (enqueue_ok keys i s g n now)|]. cbv beta.
  intros [j|e] s1; [|done]. intros (Hok1 & E1 & F1 & F2 & F3). eapply ensures_mono; [by apply (IH keys j s1 _ now Hok1)|]. cbv beta.
  intros [u|e] s2; [|done]. intros (Hok2 & E2 & G1 & G2 & G3). rewrite bind_cons, send_all_app, len_app, <- E1. split_and!; [done|lia|].
  unfold same_alerts. split_and!; congruence.
Qed.

(** What a round of evaluation means for every rule. *)
Definition evaluated (signals : list AlertSignal) (now : Z) (s s' : AlertCatalog) (ns : list AlertNotification) : Prop :=
  ∀ rule, stored s rule → ∀ x,
    (alert_of s' (uid rule) x, notices ns (rule_id rule) x) =
    if rule_enabled rule then next_alert (cooldown_seconds rule) now (is_firing rule signals x) (alert_of s (uid rule) x) else (None, []).

Lemma disabled_silent s rule x : events_ok s → stored s rule → rule_enabled rule = false → active_event (uid rule) x s = None.
Proof using laws.
  intros Hok Hs Hd. apply eq_None_not_Some. intros [[id row] Ha]. apply active_event_Some in Ha as [Hr Hx]; [|done].
  apply subject_of_true in Hx as (E & Hact & _). destruct (eo_live s Hok id row Hr Hact) as (r & Hrs & Er & Hre).
  rewrite (stored_unique s rule r) in Hd; [congruence|done|done|congruence].
Qed.

Lemma evaluate_ok signals now keys s g latest :
  catalog_ok s g latest → latest ≤ now → time_ok now → Forall (λ signal, is_finite (sig_value signal) = true) signals →
  ensures (evaluate signals now keys) s (λ out s',
    match out with
    | Ok ns => catalog_ok s' (send_all (last_delivery s) (ns ≫= plan) g) now ∧ alert_rules s' = alert_rules s ∧
               Forall (λ n, ∃ rule, live_rule s rule ∧ of_rule rule n) ns ∧ evaluated signals now s s' ns
    | Err e => s' = s ∧ (e = QueueFull ∨ e = PayloadTooLarge ∨ e = UniqueViolated)
    end).
Proof using laws json_laws.
  intros [Hok Hled] Hle Hnow Hfin. unfold evaluate. db_step. apply list_rules_ok; [done|]. intros rules Hin Hnd. do 2 db_step.
  set (enabled_rules := filter _ rules).
  assert (∀ rule, rule ∈ enabled_rules ↔ live_rule s rule) as Hen.
  { intros rule. unfold enabled_rules, live_rule. rewrite list_elem_of_filter, Hin. tauto. }
  eapply ensures_mono; [apply (eval_rules_ok signals now enabled_rules s Hok); [|by apply NoDup_fmap_filter|done|done]|].
  { apply Forall_forall. intros rule. apply Hen. }
  cbv beta. intros out s1 (ns & -> & Hok1 & Hon & Hfn & Hround & Hrest & Hquiet). pose proof Hon as (E1 & E2 & E3 & E4 & _). db_step.
  eapply ensures_mono; [apply (enqueue_all_ok ns keys 0 s1 g now)|].
  { eapply ledger_frame; [done..|]. by eapply ledger_mono. }
  { eapply Forall_impl; [exact Hfn|]. by intros n (_ & _ & _ & ? & _). }
  cbv beta. intros [u|e] s2; [|by split]. intros (Hled2 & El & G1 & G2 & G3). db_step. rewrite E3 in Hled2, El.
  split_and!; [|congruence|eapply Forall_impl; [exact Hfn|]; intros n (r & Hr & Hn); exists r; split; [by apply Hen|done]|].
  - split; [|done]. destruct Hok1 as [H1 H2 H3 H4 H5]. split; unfold stored; rewrite ?G1, ?G2, ?G3; done.
  - intros rule Hs x. assert (alert_of s2 (uid rule) x = alert_of s1 (uid rule) x) as Ea by (unfold alert_of, active_event; by rewrite G2). rewrite Ea.
    destruct (rule_enabled rule) eqn:Hre; [apply Hround, Hen; by split|].
    assert (∀ r, r ∈ enabled_rules → uid rule ≠ uid r) as Hne.
    { intros r [Hr Hre']%Hen E. rewrite (stored_unique s rule r Hs Hr E) in Hre. congruence. }
    unfold alert_of. rewrite Hrest by done. rewrite (disabled_silent s rule x Hok Hs Hre). rewrite Hquiet; [done|].
    intros (r & E & Hr)%list_elem_of_fmap. apply (Hne r Hr). by rewrite E.
Qed.

(** ** Histories *)

Definition empty_alerts : AlertCatalog :=
  {| alert_rules := ∅; alert_events := ∅; last_event := 0; deliveries := ∅; last_delivery := 0;
     counters := {| delivered_total := 0; failed_attempts_total := 0; dead_letter_total := 0 |} |}.
Definition empty_ledger : Ledger := {| sent := ∅; handed := []; settled := [] |}.

Definition after_evaluate (s : AlertCatalog) (r : result AlertError (list AlertNotification)) (g : Ledger) : Ledger :=
  match r with Ok ns => send_all (last_delivery s) (ns ≫= plan) g | Err _ => g end.
Definition after_claim (now : Z) (r : result AlertError (list NotificationDelivery)) (g : Ledger) : Ledger :=
  match r with Ok ds => hand_all (now + NOTIFICATION_DELIVERY_LEASE_SECONDS) ds g | Err _ => g end.
Definition outcome_of (d : NotificationDelivery) (now : Z) (st : NotificationDeliveryState) : Settled :=
  {| se_id := del_id d; se_token := del_lease_token d; se_at := now; se_state := st |}.
Definition after_acknowledge (d : NotificationDelivery) (now : Z) (r : result AlertError bool) (g : Ledger) : Ledger :=
  match r with Ok true => book (outcome_of d now DDelivered) g | _ => g end.
Definition after_fail (d : NotificationDelivery) (now : Z) (r : result AlertError (option NotificationDeliveryState)) (g : Ledger) : Ledger :=
  match r with Ok (Some st) => book (outcome_of d now st) g | _ => g end.

(** [alert_step s g now s' g']: one operation at time [now]. *)
Inductive catalog_step (s : AlertCatalog) (g : Ledger) (now : Z) : AlertCatalog → Ledger → Prop :=
  | step_open ids r s' : (∀ j, uuid_ok (ids j)) → ensure_defaults ids now s = Done (r, s') → catalog_step s g now s' g
  | step_create request id r s' : uuid_ok id → alert_rules s !! uuid_string id = None →
      create_rule request id now s = Done (r, s') → catalog_step s g now s' g
  | step_update id request r s' : uuid_ok id → update_rule id request now s = Done (r, s') → catalog_step s g now s' g
  | step_delete id r s' : delete_rule id now s = Done (r, s') → catalog_step s g now s' g
  | step_evaluate signals keys r s' : Forall (λ signal, is_finite (sig_value signal) = true) signals →
      evaluate signals now keys s = Done (r, s') → catalog_step s g now s' (after_evaluate s r g)
  | step_claim limit tokens r s' : fresh_tokens g tokens 0 64 →
      claim_notification_deliveries now limit tokens s = Done (r, s') → catalog_step s g now s' (after_claim now r g)
  | step_acknowledge d r s' : acknowledge_notification_delivery d now s = Done (r, s') → catalog_step s g now s' (after_acknowledge d now r g)
  | step_fail d error r s' : fail_notification_delivery d now error s = Done (r, s') → catalog_step s g now s' (after_fail d now r g)
  | step_retry id r s' : retry_notification_delivery id now s = Done (r, s') → catalog_step s g now s' g.

Inductive alert_history : AlertCatalog → Ledger → Z → Prop :=
  | history_start : alert_history empty_alerts empty_ledger 0
  | history_step s g latest now s' g' :
      alert_history s g latest → latest ≤ now → time_ok now → catalog_step s g now s' g' → alert_history s' g' now.

Lemma empty_ok : catalog_ok empty_alerts empty_ledger 0.
Proof.
  split.
  - split; cbn; intros; try done; by match goal with H : ∅ !! _ = Some _ |- _ => apply lookup_empty_Some in H end.
  - assert (∀ id, ¬ is_Some (sent empty_ledger !! id)) as Hs by (intros id [x H]; exact (lookup_empty_Some _ _ H)).
    assert (map_Forall (delivery_ok empty_ledger 0) (deliveries empty_alerts)) as Hd by apply map_Forall_empty.
    split; try done; try apply NoDup_nil_2; try (by intros x ?%elem_of_nil); by intros id ?%Hs.
Qed.

Lemma rules_step_ok {A} s s' g latest now (r : result AlertError A) :
  ledger_ok s g latest → latest ≤ now → rules_step s r s' → catalog_ok s' g now.
Proof.
  intros Hl Hle (Hok & E1 & E2 & E3). split; [done|]. eapply ledger_frame; [done..|]. by eapply ledger_mono.
Qed.

(** The operations of the queue leave rules and events alone. *)
Lemma same_alerts_refl s : same_alerts s s.
Proof. done. Qed.
Lemma same_alerts_trans s1 s2 s3 : same_alerts s1 s2 → same_alerts s2 s3 → same_alerts s1 s3.
Proof. intros (A1 & A2 & A3) (B1 & B2 & B3). split_and!; congruence. Qed.
Lemma same_alerts_ok s s' : same_alerts s s' → events_ok s → events_ok s'.
Proof. intros (E1 & E2 & E3) [H1 H2 H3 H4 H5]. split; unfold stored; rewrite ?E1, ?E2, ?E3; done. Qed.

Lemma acknowledge_frame d now s : ensures (acknowledge_notification_delivery d now) s (λ _ s', same_alerts s s').
Proof.
  unfold acknowledge_notification_delivery. do 3 db_step. destruct (deliveries s !! _) as [row|]; [|by db_step]. destruct (holds_lease _ _ _); by repeat db_step.
Qed.
Lemma fail_frame d now error s : ensures (fail_notification_delivery d now error) s (λ _ s', same_alerts s s').
Proof.
  unfold fail_notification_delivery. do 3 db_step. destruct (deliveries s !! _) as [row|]; [|by db_step]. destruct (holds_lease _ _ _); cbv zeta; by repeat db_step.
Qed.
Lemma retry_frame id now s : ensures (retry_notification_delivery id now) s (λ _ s', same_alerts s s').
Proof.
  unfold retry_notification_delivery. do 3 db_step. destruct (deliveries s !! _) as [row|]; [|by db_step]. do 2 db_step. destruct (ok_or _ _) as [st|e]; [|done].
  destruct (negb _); [by db_step|]. do 4 db_step; [|done]. cbv zeta. do 4 db_step. destruct (parse_notification_delivery_view _ _); [by db_step|done].
Qed.
Lemma claim_loop_frame ids : ∀ tokens i now s, ensures (claim_loop tokens i now ids) s (λ _ s', same_alerts s s').
Proof.
  induction ids as [|id ids IH]; intros tokens i now s; cbn [claim_loop]; [by db_step|]. do 2 db_step.
  destruct (deliveries s !! id) as [row|]; [|apply IH]. destruct (in_state DPending row); [|apply IH]. cbv zeta. do 4 db_step.
  destruct (parse_notification_delivery _ _); [|done]. db_step. eapply ensures_mono; [apply IH|]. cbv beta.
  intros [ds|e] s' Hs; [db_step|]; exact Hs.
Qed.
Lemma claim_frame now limit tokens s : ensures (claim_notification_deliveries now limit tokens) s (λ _ s', same_alerts s s').
Proof.
  unfold claim_notification_deliveries. destruct (limit =? 0); [by db_step|]. do 8 db_step. eapply ensures_mono; [apply claim_loop_frame|]. cbv beta.
  intros [ds|e] s' Hs; [db_step; exact Hs|done].
Qed.

(** Every operation keeps the invariant. *)
Lemma catalog_step_ok s g latest now s' g' :
  catalog_ok s g latest → latest ≤ now → time_ok now → catalog_step s g now s' g' → catalog_ok s' g' now.
Proof using laws json_laws.
  intros [Hok Hl] Hle Hnow Hstep. destruct Hstep as [ids r s' Hids E|rq id r s' Hid Hn E|id rq r s' Hid E|id r s' E|sg ks r s' Hf E|lim tk r s' Hf E|d r s' E|d er r s' E|id r s' E].
  - eapply rules_step_ok; [done|done|]. eapply (ensures_eq _ _ _ _ _ E). by apply ensure_defaults_ok.
  - eapply rules_step_ok; [done|done|]. eapply (ensures_eq _ _ _ _ _ E). apply create_rule_ok; auto.
  - eapply rules_step_ok; [done|done|]. eapply (ensures_eq _ _ _ _ _ E). by apply update_rule_ok.
  - eapply rules_step_ok; [done|done|]. eapply (ensures_eq _ _ _ _ _ E). by apply delete_rule_ok.
  - pose proof (ensures_eq _ _ _ _ _ E (evaluate_ok sg now ks s g latest (conj Hok Hl) Hle Hnow Hf)) as H. destruct r as [ns|e]; cbn in *.
    + apply H.
    + destruct H as [-> _]. split; [done|]. by eapply ledger_mono.
  - pose proof (ensures_eq _ _ _ _ _ E (claim_ok s g latest now lim tk Hl Hle Hnow Hf)) as (ds & -> & _ & _ & H).
    split; [|exact H]. eapply same_alerts_ok; [|exact Hok]. exact (ensures_eq _ _ _ _ _ E (claim_frame now lim tk s)).
  - split; [eapply same_alerts_ok; [|exact Hok]; exact (ensures_eq _ _ _ _ _ E (acknowledge_frame d now s))|].
    destruct (ensures_eq _ _ _ _ _ E (acknowledge_ok s g latest d now Hl Hle Hnow)) as [(-> & -> & _)|(-> & _ & H)]; [by eapply ledger_mono|exact H].
  - split; [eapply same_alerts_ok; [|exact Hok]; exact (ensures_eq _ _ _ _ _ E (fail_frame d now er s))|].
    destruct (ensures_eq _ _ _ _ _ E (fail_ok s g latest d now er Hl Hle Hnow)) as [(-> & -> & _)|(st & -> & _ & _ & H)]; [by eapply ledger_mono|exact H].
  - split; [eapply same_alerts_ok; [|exact Hok]; exact (ensures_eq _ _ _ _ _ E (retry_frame id now s))|].
    pose proof (ensures_eq _ _ _ _ _ E (retry_ok s g latest id now Hl Hle Hnow)) as H.
    destruct r as [[v| |st]|e]; [destruct H as (row & _ & _ & H); exact H|destruct H as [-> _]; by eapply ledger_mono..].
Qed.

Lemma alert_history_ok s g latest : alert_history s g latest → catalog_ok s g latest.
Proof using laws json_laws. induction 1 as [|s g latest now s' g' _ IH Hle Hnow Hstep]; [apply empty_ok|by eapply catalog_step_ok]. Qed.

(** ** Theorems *)

Lemma send_all_sent l : ∀ last g i x, l !! i = Some x → sent (send_all last l g) !! (last + 1 + Z.of_nat i) = Some x.
Proof.
  assert (∀ k last g id, id ≤ last → sent (send_all last k g) !! id = sent g !! id) as Hold.
  { induction k as [|y k IH]; intros last g id Hid; [done|]. cbn [send_all]. rewrite IH by lia. cbn. rewrite lookup_insert_ne; [done|lia]. }
  induction l as [|y l IH]; intros last g i x Hx; [done|]. destruct i as [|i]; cbn [send_all].
  - injection Hx as ->. rewrite Hold by lia. cbn. by rewrite Z.add_0_r, lookup_insert_eq.
  - rewrite <- (IH (last + 1) (send (last + 1) y g) i x Hx). f_equal. lia.
Qed.
Lemma send_all_log l : ∀ last g, handed (send_all last l g) = handed g ∧ settled (send_all last l g) = settled g.
Proof. induction l as [|y l IH]; intros last g; [done|]. cbn [send_all]. by destruct (IH (last + 1) (send (last + 1) y g)) as [-> ->]. Qed.

(** The rows of what was sent in a round. *)
Lemma sent_rows s s' g now latest l i c n :
  ledger_ok s g latest → ledger_ok s' (send_all (last_delivery s) l g) now → l !! i = Some (c, n) →
  ∃ row, deliveries s' !! (last_delivery s + 1 + Z.of_nat i) = Some row ∧ dr_channel row = channel_to_string c ∧ parse_notification (dr_payload row) = Some n.
Proof.
  intros Hl Hl' Hi. pose proof (send_all_sent l (last_delivery s) g i _ Hi) as Hs. set (id := last_delivery s + 1 + Z.of_nat i) in *.
  destruct (deliveries s' !! id) as [row|] eqn:Hrow.
  - exists row. split; [done|]. destruct (lo_rows _ _ _ Hl' id row Hrow) as [(c' & n' & Hs' & Hc & Hp) _]. split; congruence.
  - exfalso. destruct (lo_kept _ _ _ Hl' id) as (_ & t & (_ & x & Hx & Ex & _) & _); [by eexists|done|].
    destruct (send_all_log l (last_delivery s) g) as [_ E]. rewrite E in Hx. destruct (lo_settled _ _ _ Hl x Hx) as (h & Hh & Eh & _).
    pose proof (lo_ids _ _ _ Hl (h_id h) (lo_handed _ _ _ Hl h Hh)). unfold id in *. lia.
Qed.

(** C21. Alerts follow the signals. After any history, a round of evaluation ends, and either is refused
    and changes nothing, or the alert of every rule and subject and what is notified of it are what
    the reference [next_alert] says: it starts when a signal fires, ends when none does, is
    notified at both and again when the cooldown is over; a disabled rule has no alert. Every notification
    is of an enabled rule and has its channels, and the queue has a row for each of its channels. *)
Theorem alerts_follow_signals s g latest signals now keys :
  alert_history s g latest → latest ≤ now → time_ok now → Forall (λ signal, is_finite (sig_value signal) = true) signals →
  ∃ out s', evaluate signals now keys s = Done (out, s') ∧
    match out with
    | Ok ns =>
        (∀ rule x, stored s rule →
           (alert_of s' (uid rule) x, notices ns (rule_id rule) x) =
           if rule_enabled rule then next_alert (cooldown_seconds rule) now (is_firing rule signals x) (alert_of s (uid rule) x) else (None, [])) ∧
        (∀ n, n ∈ ns → ∃ rule, stored s rule ∧ rule_enabled rule = true ∧ ev_rule_id (n_event n) = rule_id rule ∧
           n_webhook n = notify_webhook rule ∧ n_email n = notify_email rule) ∧
        (∀ i c n, (ns ≫= plan) !! i = Some (c, n) → ∃ row, deliveries s' !! (last_delivery s + 1 + Z.of_nat i) = Some row ∧
           dr_channel row = channel_to_string c ∧ parse_notification (dr_payload row) = Some n)
    | Err e => s' = s ∧ (e = QueueFull ∨ e = PayloadTooLarge ∨ e = UniqueViolated)
    end.
Proof using laws json_laws.
  intros Hh Hle Hnow Hfin. pose proof (alert_history_ok _ _ _ Hh) as Hok.
  destruct (ensures_Done _ _ _ (evaluate_ok signals now keys s g latest Hok Hle Hnow Hfin)) as (out & s' & E & H). exists out, s'. split; [done|].
  destruct out as [ns|e]; [|done]. destruct H as ([_ Hl] & _ & Hof & Hev). split_and!.
  - intros rule x Hs. by apply Hev.
  - intros n Hn. rewrite Forall_forall in Hof. destruct (Hof n Hn) as (rule & [Hs Hen] & E1 & _ & E2 & E3). by exists rule.
  - intros i c n Hi. eapply sent_rows; [apply Hok|exact Hl|done].
Qed.

(** C22. At most one worker settles a delivery. After any history, an acknowledgement or a failure is
    accepted exactly from the worker that was handed the delivery last, while its lease runs and if it
    has not settled it yet, and changes nothing otherwise. A claim always succeeds, hands out
    each delivery once, with the channel and notification that were sent, and only deliveries that nobody works on. *)
Theorem deliveries_held_once s g latest now :
  alert_history s g latest → latest ≤ now → time_ok now →
  (∀ d, ∃ b s', acknowledge_notification_delivery d now s = Done (Ok b, s') ∧ (b = true ↔ holds g d now) ∧ (b = false → s' = s)) ∧
  (∀ d error, ∃ st s', fail_notification_delivery d now error s = Done (Ok st, s') ∧ (is_Some st ↔ holds g d now) ∧ (st = None → s' = s)) ∧
  (∀ limit tokens, fresh_tokens g tokens 0 64 → ∃ ds s', claim_notification_deliveries now limit tokens s = Done (Ok ds, s') ∧
     NoDup (del_id <$> ds) ∧ ∀ d, d ∈ ds → sent g !! del_id d = Some (del_channel d, del_notification d) ∧ unheld g (del_id d) now).
Proof using laws json_laws.
  intros Hh Hle Hnow. destruct (alert_history_ok _ _ _ Hh) as [_ Hl]. split_and!.
  - intros d. destruct (ensures_Done _ _ _ (acknowledge_ok s g latest d now Hl Hle Hnow)) as (out & s' & E & [(-> & -> & Hn)|(-> & Hy & _)]).
    + exists false, s. by split_and!.
    + exists true, s'. by split_and!.
  - intros d er. destruct (ensures_Done _ _ _ (fail_ok s g latest d now er Hl Hle Hnow)) as (out & s' & E & [(-> & -> & Hn)|(st & -> & _ & Hy & _)]).
    + exists None, s. split_and!; [done| |done]. split; [by intros [? ?]|done].
    + exists (Some st), s'. by split_and!.
  - intros limit tokens Hf. destruct (ensures_Done _ _ _ (claim_ok s g latest now limit tokens Hl Hle Hnow Hf)) as (out & s' & E & ds & -> & Hnd & Hd & _).
    by exists ds, s'.
Qed.

(** C23. Notifications are not lost. After any history, every delivery that was enqueued is a row of the
    queue that still holds its notification, or was delivered or given up more than thirty days ago. At most
    10000 deliveries wait, and the counters are the numbers of accepted outcomes. *)
Theorem notifications_not_lost s g latest :
  alert_history s g latest →
  (∀ id c n, sent g !! id = Some (c, n) →
     (∃ row, deliveries s !! id = Some row ∧ dr_channel row = channel_to_string c ∧ parse_notification (dr_payload row) = Some n) ∨
     (∃ t, is_closed g id t ∧ t + 30 * 24 * 60 * 60 < latest)) ∧
  outstanding s ≤ 10000 ∧
  counters s = {| delivered_total := settled_as DDelivered g; failed_attempts_total := settled_as DPending g + settled_as DDeadLetter g;
                  dead_letter_total := settled_as DDeadLetter g |}.
Proof using laws json_laws.
  intros Hh. destruct (alert_history_ok _ _ _ Hh) as [_ Hl]. split_and!; [|apply Hl|apply Hl].
  intros id c n Hs. destruct (deliveries s !! id) as [row|] eqn:Hrow.
  - left. exists row. split; [done|]. destruct (lo_rows _ _ _ Hl id row Hrow) as [(c' & n' & Hs' & Hc & Hp) _]. split; congruence.
  - right. by destruct (lo_kept _ _ _ Hl id) as (_ & t & Hc); [by eexists|done|exists t].
Qed.

(** ** The list of active alerts *)

Global Instance severity_desc_trans : Transitive (λ x y, Is_true (severity_desc x y)).
Proof.
  intros x y z. rewrite !Is_true_true. unfold severity_desc, updated_desc. cbv zeta.
  set (a := as_bytes _). set (b := as_bytes _). set (c := as_bytes _).
  destruct (bool_decide_reflect (a = b)) as [Eab|Nab], (bool_decide_reflect (b = c)) as [Ebc|Nbc], (bool_decide_reflect (a = c)) as [Eac|Nac];
    try (exfalso; congruence).
  - rewrite !Z.leb_le. lia.
  - by rewrite Eab.
  - by rewrite <- Ebc.
  - intros Hba Hcb. exfalso. apply Nab, lex_le_antisym; [by rewrite Eac|done].
  - intros Hba Hcb. by eapply lex_le_trans.
Qed.
Global Instance severity_desc_total : Total (λ x y, Is_true (severity_desc x y)).
Proof.
  intros x y. rewrite !Is_true_true. unfold severity_desc, updated_desc. cbv zeta. set (a := as_bytes _). set (b := as_bytes _).
  repeat case_bool_decide; try congruence; [rewrite !Z.leb_le; lia|destruct (lex_le_total a b); auto].
Qed.

Lemma parse_event_Ok id row e : parse_event id row = Ok e → ev_id e = id ∧ severity_from_str (er_severity row) = Some (ev_severity e).
Proof.
  unfold parse_event. intros E. bind_as E r Er. bind_as E sev Es. injection E as <-. cbn [ev_id ev_severity]. split; [done|].
  unfold ok_or in Es. by destruct (severity_from_str _); simplify_eq/=.
Qed.

(** C24. Critical alerts are listed last. The severity is compared as text, so the list of active
    alerts shows a critical alert only when it shows every active alert of lesser severity; a limit cuts
    off the critical ones first. *)
Theorem critical_listed_last s g latest limit :
  alert_history s g latest →
  ∃ l, list_events true limit s = Done (Ok l, s) ∧
    ∀ e, e ∈ l → ev_severity e = SeverityCritical →
    ∀ id row, alert_events s !! id = Some row → er_active row = 1 → er_severity row ≠ lit "critical" → id ∈ ev_id <$> l.
Proof using laws json_laws.
  intros Hh. destruct (alert_history_ok _ _ _ Hh) as [Hok _]. unfold list_events. cbv [mbind db_bind db_get db_lift].
  set (all := merge_sort _ _). set (k := Z.to_nat _).
  assert (∀ id row, (id, row) ∈ all ↔ alert_events s !! id = Some row ∧ er_active row = 1) as Hall.
  { intros id row. unfold all. rewrite merge_sort_Permutation, elem_of_map_to_list, map_lookup_filter_Some. done. }
  assert (StronglySorted (λ x y, Is_true (severity_desc x y)) all) as Hsorted by (apply StronglySorted_merge_sort; apply _).
  destruct (collect_succeeds (λ '(id, row), parse_event id row) (take k all)) as (l & -> & H2).
  { intros [id row] Hr. eapply elem_of_sublist in Hr; [|apply sublist_take]. apply Hall in Hr as [Hr _].
    destruct (parse_event_row id row) as (e & He & _); [by eapply eo_events|]. eauto. }
  exists l. split; [done|]. intros e He Hcrit id row Hrow Hact Hsev.
  apply list_elem_of_lookup in He as [i Hi]. destruct (Forall2_lookup_r _ _ _ _ _ H2 Hi) as ([ide rowe] & Hx & Ee). cbn in Ee.
  apply lookup_take_Some in Hx as [Hx Hik]. destruct (proj1 (list_elem_of_lookup _ _) (proj2 (Hall id row) (conj Hrow Hact))) as [j Hj].
  destruct (decide (j < k)%nat) as [Hjk|Hjk].
  - assert (take k all !! j = Some (id, row)) as Ht by (apply lookup_take_Some; done).
    destruct (Forall2_lookup_l _ _ _ _ _ H2 Ht) as (e' & He' & E'). cbn in E'. apply list_elem_of_fmap. exists e'. split; [|by eapply list_elem_of_lookup_2].
    by destruct (parse_event_Ok _ _ _ E').
  - exfalso. assert (i < j)%nat as Hij by lia. pose proof (StronglySorted_lookup _ all i j _ _ Hsorted Hij Hx Hj) as Hd. rewrite Is_true_true in Hd.
    assert (er_severity rowe = lit "critical") as Ec.
    { destruct (proj2 (eo_events s Hok ide rowe (proj1 (proj1 (Hall _ _) (list_elem_of_lookup_2 _ _ _ Hx))))) as ((r & sev & Hr & Er & Es) & _).
      apply parse_event_Ok in Ee as [_ Ee]. rewrite Es, severity_round_trip, Hcrit in Ee. injection Ee as ->. exact Es. }
    destruct (proj2 (eo_events s Hok id row Hrow)) as ((r & sev & _ & _ & Es) & _). unfold severity_desc in Hd. cbn [snd] in Hd. rewrite Ec, Es in Hd.
    destruct sev; [by vm_compute in Hd..|by rewrite Es in Hsev].
Qed.
End system.

(** ** Witnesses

    The text of a notification is the list of the numbers of its fields. *)

Definition sample_enc {A} `{Countable A} (a : A) : Z := Zpos (encode a).
Definition sample_dec {A} `{Countable A} (z : Z) : option A := match z with Zpos p => decode p | _ => None end.
Lemma sample_dec_enc {A} `{Countable A} (a : A) : sample_dec (sample_enc a) = Some a.
Proof. apply decode_encode. Qed.
Definition sample_float (x : f64) : Z * positive * Z :=
  match x with
  | SpecFloat.S754_zero b => (if b then 1 else 0, 1%positive, 0)
  | SpecFloat.S754_infinity b => (if b then 3 else 2, 1%positive, 0)
  | SpecFloat.S754_nan => (4, 1%positive, 0)
  | SpecFloat.S754_finite b m e => (if b then 6 else 5, m, e)
  end.
Definition sample_unfloat (x : Z * positive * Z) : f64 :=
  match x with
  | (k, m, e) => if k <? 2 then SpecFloat.S754_zero (k =? 1) else if k <? 4 then SpecFloat.S754_infinity (k =? 3)
                 else if k =? 4 then SpecFloat.S754_nan else SpecFloat.S754_finite (k =? 6) m e
  end.
Lemma sample_unfloat_float x : sample_unfloat (sample_float x) = x.
Proof. by destruct x as [[]|[]| |[] m e]. Qed.
#[local] Instance sample_float_countable : Countable f64 := inj_countable' sample_float sample_unfloat sample_unfloat_float.
#[local] Program Instance sample_severity_countable : Countable AlertSeverity :=
  inj_countable' (λ s, match s with SeverityInfo => 0 | SeverityWarning => 1 | SeverityCritical => 2 end)
    (λ n, if n =? 0 then SeverityInfo else if n =? 1 then SeverityWarning else SeverityCritical) _.
Next Obligation.
  by intros [].
Qed.

Definition sample_json_write (n : AlertNotification) : rstr :=
  let e := n_event n in
  [sample_enc (ev_id e); sample_enc (ev_rule_id e); sample_enc (ev_rule_name e); sample_enc (ev_severity e); sample_enc (ev_subject e);
   sample_enc (ev_active e); sample_enc (ev_value e); sample_enc (ev_threshold e); sample_enc (ev_message e); sample_enc (ev_started e);
   sample_enc (ev_updated e); sample_enc (ev_resolved e); sample_enc (ev_last_notified e);
   sample_enc (n_resolved n); sample_enc (n_webhook n); sample_enc (n_email n)].
Definition sample_json_read (l : rstr) : option AlertNotification :=
  match l with
  | [a; b; c; d; e; f; g; h; i; j; k; l; m; n; o; p] =>
      a ← sample_dec a; b ← sample_dec b; c ← sample_dec c; d ← sample_dec d; e ← sample_dec e; f ← sample_dec f; g ← sample_dec g;
      h ← sample_dec h; i ← sample_dec i; j ← sample_dec j; k ← sample_dec k; l ← sample_dec l; m ← sample_dec m;
      n ← sample_dec n; o ← sample_dec o; p ← sample_dec p;
      Some {| n_event := {| ev_id := a; ev_rule_id := b; ev_rule_name := c; ev_severity := d; ev_subject := e; ev_active := f; ev_value := g;
                            ev_threshold := h; ev_message := i; ev_started := j; ev_updated := k; ev_resolved := l; ev_last_notified := m |};
              n_resolved := n; n_webhook := o; n_email := p |}
  | _ => None
  end.
#[local] Instance sample_json : NotificationJson := {| notification_json := sample_json_write; parse_notification := sample_json_read |}.
#[local] Instance sample_json_laws : NotificationJsonLaws.
Proof.
  split. intros [[i1 i2 i3 i4 i5 i6 i7 i8 i9 i10 i11 i12 i13] r w m] _. cbn [notification_json parse_notification sample_json]. unfold sample_json_write, sample_json_read.
  cbn [n_event n_resolved n_webhook n_email ev_id ev_rule_id ev_rule_name ev_severity ev_subject ev_active ev_value ev_threshold ev_message ev_started
       ev_updated ev_resolved ev_last_notified]. rewrite !sample_dec_enc. cbn [mbind option_bind]. done.
Qed.

Definition after {A} (m : exec (result AlertError A * AlertCatalog)) : AlertCatalog := match m with Done (_, s) => s | Panic => empty_alerts end.
Definition sample_ids (i : nat) : Z := Z.of_nat i mod 64 + 1.
Definition sample_one : f64 := f64_of 4503599627370496 (-52).
Definition sample_signals : list AlertSignal :=
  [{| sig_metric := PolicyUnavailable; sig_subject := lit "web"; sig_value := sample_one; sig_message := lit "down"; sig_window := None |};
   {| sig_metric := ClientOffline; sig_subject := lit "edge"; sig_value := sample_one; sig_message := lit "gone"; sig_window := None |}].
Definition sample_open := ensure_defaults (plat := sample_platform) sample_ids 100 empty_alerts.
Definition sample_round := evaluate (plat := sample_platform) (json := sample_json) sample_signals 110 sample_ids (after sample_open).
Definition sample_sent : Ledger :=
  match sample_round with Done (r, _) => after_evaluate (after sample_open) r empty_ledger | Panic => empty_ledger end.
Definition sample_claim := claim_notification_deliveries (plat := sample_platform) (json := sample_json) 120 8 sample_ids (after sample_round).
Definition sample_held : Ledger := match sample_claim with Done (r, _) => after_claim 120 r sample_sent | Panic => empty_ledger end.

Lemma sample_alerts_opened : alert_history (plat := sample_platform) (json := sample_json) (after sample_open) empty_ledger 100.
Proof.
  assert (∃ r s, sample_open = Done (r, s)) as (r & s & E) by (eexists _, _; vm_compute; reflexivity). unfold after. rewrite E.
  eapply (history_step _ _ 0); [constructor|lia|split; vm_compute; discriminate|].
  eapply step_open; [|exact E]. intros j. unfold sample_ids, uuid_ok. pose proof (Z.mod_pos_bound (Z.of_nat j) 64). lia.
Qed.
Lemma sample_signals_finite : Forall (λ signal, is_finite (sig_value signal) = true) sample_signals.
Proof. by repeat constructor. Qed.
Lemma sample_evaluated : alert_history (plat := sample_platform) (json := sample_json) (after sample_round) sample_sent 110.
Proof.
  assert (∃ r s, sample_round = Done (r, s)) as (r & s & E) by (eexists _, _; vm_compute; reflexivity). unfold sample_sent, after. rewrite E.
  eapply (history_step _ _ 100); [exact sample_alerts_opened|lia|split; vm_compute; discriminate|].
  eapply step_evaluate; [exact sample_signals_finite|exact E].
Qed.
Lemma sample_claimed : alert_history (plat := sample_platform) (json := sample_json) (after sample_claim) sample_held 120.
Proof.
  assert (∃ r s, sample_claim = Done (r, s)) as (r & s & E) by (eexists _, _; vm_compute; reflexivity). unfold sample_held. unfold after at 1. rewrite E.
  eapply (history_step _ _ 110); [exact sample_evaluated|lia|split; vm_compute; discriminate|].
  eapply step_claim; [|exact E]. split.
  - intros j Hj. assert (handed sample_sent = []) as -> by (vm_compute; reflexivity). by intros ?%elem_of_nil.
  - intros j k Hj Hk Ejk. apply (uuid_string_inj (laws := sample_laws)) in Ejk; unfold sample_ids, uuid_ok in *;
      rewrite ?(Z.mod_small (Z.of_nat j)), ?(Z.mod_small (Z.of_nat k)) in * by lia; lia.
Qed.

Lemma alerts_follow_signals_witness :
  ∃ ns s', sample_round = Done (Ok ns, s') ∧ length ns = 2%nat ∧
    ∀ n, n ∈ ns → ∃ rule, stored (plat := sample_platform) (after sample_open) rule ∧ n_email n = notify_email rule.
Proof.
  destruct (alerts_follow_signals (laws := sample_laws) (json_laws := sample_json_laws) (after sample_open) empty_ledger 100 sample_signals 110 sample_ids
              sample_alerts_opened ltac:(lia) ltac:(split; vm_compute; discriminate) sample_signals_finite) as (out & s' & E & H).
  fold sample_round in E.
  assert (match sample_round with Done (Ok ns, _) => length ns =? 2 | _ => false end%nat = true) as Ec by (vm_compute; reflexivity).
  rewrite E in Ec. destruct out as [ns|e]; [|discriminate]. exists ns, s'. split; [exact E|]. apply Nat.eqb_eq in Ec. split; [exact Ec|].
  intros n Hn. destruct H as (_ & H & _). destruct (H n Hn) as (rule & Hs & _ & _ & _ & He). exists rule. split; [exact Hs|exact He].
Defined.

Definition sample_delivery : NotificationDelivery :=
  match sample_claim with
  | Done (Ok (d :: _), _) => d
  | _ => {| del_id := 0; del_idempotency_key := []; del_lease_token := []; del_channel := Webhook; del_attempts := 0;
            del_notification := {| n_event := {| ev_id := 0; ev_rule_id := 0; ev_rule_name := []; ev_severity := SeverityInfo; ev_subject := [];
              ev_active := true; ev_value := sample_one; ev_threshold := sample_one; ev_message := []; ev_started := 0; ev_updated := 0;
              ev_resolved := None; ev_last_notified := None |}; n_resolved := true; n_webhook := true; n_email := true |} |}
  end.
Lemma deliveries_held_once_witness :
  holds sample_held sample_delivery 130 ∧ ¬ holds sample_held sample_delivery 200.
Proof.
  destruct (deliveries_held_once (laws := sample_laws) (json_laws := sample_json_laws) _ _ 120 130 sample_claimed ltac:(lia) ltac:(split; vm_compute; discriminate)) as (Ha & _ & _).
  destruct (deliveries_held_once (laws := sample_laws) (json_laws := sample_json_laws) _ _ 120 200 sample_claimed ltac:(lia) ltac:(split; vm_compute; discriminate)) as (Hb & _ & _).
  destruct (Ha sample_delivery) as (b & s1 & E & Hiff & _). destruct (Hb sample_delivery) as (b' & s2 & E' & Hiff' & _).
  assert (∀ now want, match acknowledge_notification_delivery sample_delivery now (after sample_claim) with Done (Ok b, _) => Bool.eqb b want | _ => false end = true →
            ∀ b s, acknowledge_notification_delivery sample_delivery now (after sample_claim) = Done (Ok b, s) → b = want) as Hcase.
  { intros now want Hw c t Ht. rewrite Ht in Hw. by apply Bool.eqb_prop in Hw. }
  split.
  - apply Hiff. eapply (Hcase 130 true); [vm_compute; reflexivity|exact E].
  - intros Hx. apply Hiff' in Hx. rewrite (Hcase 200 false ltac:(vm_compute; reflexivity) b' s2 E') in Hx. discriminate.
Defined.

Lemma notifications_not_lost_witness : outstanding (after sample_claim) ≤ 10000 ∧ is_Some (sent sample_held !! 1).
Proof.
  destruct (notifications_not_lost (laws := sample_laws) (json_laws := sample_json_laws) _ _ 120 sample_claimed) as (_ & H & _).
  split; [exact H|]. eexists. vm_compute. reflexivity.
Defined.

(** One alert is critical and one is a warning: a list of length 1 shows the warning. *)
Lemma critical_listed_last_witness :
  ∃ e, list_events (plat := sample_platform) true 1 (after sample_round) = Done (Ok [e], after sample_round) ∧ ev_severity e = SeverityWarning.
Proof.
  destruct (critical_listed_last (laws := sample_laws) (json_laws := sample_json_laws) _ _ 110 1 sample_evaluated) as (l & E & _).
  assert (match list_events (plat := sample_platform) true 1 (after sample_round) with
          | Done (Ok [e], _) => bool_decide (ev_severity e = SeverityWarning) | _ => false end = true) as Ec by (vm_compute; reflexivity).
  rewrite E in Ec. destruct l as [|e [|e' l]]; [discriminate| |discriminate]. exists e. split; [exact E|]. by apply bool_decide_eq_true in Ec.
Defined.
