(* ===== verification/RemoteUpdate.v ===== *)
(** * Remote update contract ([crates/linklake-core/src/remote_update.rs])

    The closed set of update actions, the task snapshot and every message of
    the worker protocol with its validation. [semver::Version::parse] is a
    parameter (a test on strings). A [Uuid] is its 128-bit value; timestamps are
    [u64] and lease durations [u32] values in [Z]. *)

From S2P Require Import Prelude RustStr.
Local Open Scope Z_scope.

Definition REMOTE_UPDATE_CONTRACT_VERSION : Z := 1.
Definition REMOTE_UPDATE_CANCEL_CONFIRMATION : rstr := lit "CANCEL".
Definition REMOTE_UPDATE_MIN_LEASE_SECONDS : Z := 15.
Definition REMOTE_UPDATE_MAX_LEASE_SECONDS : Z := 300.
Definition REMOTE_UPDATE_DEFAULT_LEASE_SECONDS : Z := 60.
Definition REMOTE_UPDATE_RESTART_RESUME_SECONDS : Z := 30 * 60.
Definition REMOTE_UPDATE_MAX_CLAIM_ATTEMPTS : Z := 16.
Definition REMOTE_UPDATE_MAX_EVENTS_PER_TASK : Z := 128.
Definition REMOTE_UPDATE_MAX_IDEMPOTENCY_KEY_BYTES : Z := 128.
Definition REMOTE_UPDATE_MIN_IDEMPOTENCY_KEY_BYTES : Z := 8.
Definition REMOTE_UPDATE_MAX_REQUESTED_BY_BYTES : Z := 128.
Definition REMOTE_UPDATE_MAX_VERSION_BYTES : Z := 64.
Definition REMOTE_UPDATE_MAX_KEY_ID_BYTES : Z := 64.

(** ** Enumerations *)

Inductive RemoteUpdateAction := Check | Download | Apply | Status | Recover | Rollback.
Global Instance RemoteUpdateAction_eq_dec : EqDecision RemoteUpdateAction.
Proof. solve_decision. Defined.

Inductive RemoteUpdateTaskState :=
  | SQueued | SClaimed | SRunning | SCancelRequested | SSucceeded | SFailed | SCancelled.
Global Instance RemoteUpdateTaskState_eq_dec : EqDecision RemoteUpdateTaskState.
Proof. solve_decision. Defined.

Inductive RemoteUpdateStage :=
  | GQueued | GClaimed | GChecking | GDownloading | GApplying | GInspecting | GRecovering
  | GRollingBack | GAwaitingRestart | GCompleted | GFailed | GCancelled.
Global Instance RemoteUpdateStage_eq_dec : EqDecision RemoteUpdateStage.
Proof. solve_decision. Defined.

Inductive RemoteUpdateRecoveryState :=
  | RNone | RRetryable | RStatusRequired | RRollbackRequired | RRecovered | RFailedClosed.
Global Instance RemoteUpdateRecoveryState_eq_dec : EqDecision RemoteUpdateRecoveryState.
Proof. solve_decision. Defined.

Inductive RemoteUpdateEventKind :=
  | ECreated | EIdempotentReplay | EClaimed | ELeaseRenewed | EStageReported | ECancelRequested
  | ECancelled | ESucceeded | EFailed | ELeaseExpiredRequeued | ELeaseExpiredFailedClosed
  | ERestartReconciled.
Global Instance RemoteUpdateEventKind_eq_dec : EqDecision RemoteUpdateEventKind.
Proof. solve_decision. Defined.

Inductive RemoteUpdateErrorCode :=
  | ClientDisabled | InvalidRequest | ConfirmationRequired | TaskNotFound | TargetBusy
  | IdempotencyConflict | LeaseConflict | LeaseExpired | CodeInvalidTransition
  | InsecureControlChannel | LocalUpdateBusy | SignatureVerificationFailed
  | StableChannelRequired | DowngradeForbidden | ArtifactRejected | CheckFailed
  | DownloadFailed | ApplyFailed | StatusFailed | RecoveryFailed | RollbackFailed
  | CodeCancelled | CodeFailedClosed | Internal.
Global Instance RemoteUpdateErrorCode_eq_dec : EqDecision RemoteUpdateErrorCode.
Proof. solve_decision. Defined.

Inductive RemoteLocalUpdateState :=
  | LIdle | LScheduled | LInstalling | LSucceeded | LRolledBack | LFailed | LRecoveryRequired.
Inductive RemoteLocalUpdateOperation := OpApply | OpRollback.
Global Instance RemoteLocalUpdateState_eq_dec : EqDecision RemoteLocalUpdateState.
Proof. solve_decision. Defined.
Global Instance RemoteLocalUpdateOperation_eq_dec : EqDecision RemoteLocalUpdateOperation.
Proof. solve_decision. Defined.

Inductive RemoteUpdateContractError :=
  | InvalidIdempotencyKeyLength | InvalidIdempotencyKeyCharacter | InvalidLeaseDuration
  | ConfirmationMismatch | InvalidStage | ResultActionMismatch | InvalidRecoveryState
  | InvalidTransition | NilUuid | InvalidVersion | InvalidKeyId | InvalidSha256
  | InvalidTimestamp | InvalidLocalStatus | UnsupportedSchema | InvalidRequester
  | InvalidTaskSnapshot | InvalidClaim | InvalidTaskEvent.

(** ** Tables of the actions *)

Definition confirmation_phrase (a : RemoteUpdateAction) : rstr :=
  match a with
  | Check => lit "CHECK"
  | Download => lit "DOWNLOAD"
  | Apply => lit "UPDATE"
  | Status => lit "STATUS"
  | Recover => lit "RECOVER"
  | Rollback => lit "ROLLBACK"
  end.

Definition execution_stage (a : RemoteUpdateAction) : RemoteUpdateStage :=
  match a with
  | Check => GChecking
  | Download => GDownloading
  | Apply => GApplying
  | Status => GInspecting
  | Recover => GRecovering
  | Rollback => GRollingBack
  end.

Definition safe_to_requeue_after_lease_loss (a : RemoteUpdateAction) : bool :=
  match a with Check | Download | Status => true | _ => false end.
Definition changes_installation (a : RemoteUpdateAction) : bool :=
  match a with Apply | Recover | Rollback => true | _ => false end.
Definition requires_restart (a : RemoteUpdateAction) : bool :=
  match a with Apply | Rollback => true | _ => false end.

Definition is_terminal (s : RemoteUpdateTaskState) : bool :=
  match s with SSucceeded | SFailed | SCancelled => true | _ => false end.
Definition is_active (s : RemoteUpdateTaskState) : bool := negb (is_terminal s).

Definition valid_for_active_lease (g : RemoteUpdateStage) (a : RemoteUpdateAction) : bool :=
  bool_decide (g = GClaimed) || bool_decide (g = execution_stage a) ||
  (bool_decide (g = GAwaitingRestart) && requires_restart a).

Definition as_code (e : RemoteUpdateErrorCode) : rstr :=
  match e with
  | ClientDisabled => lit "remote_update_client_disabled"
  | InvalidRequest => lit "remote_update_invalid_request"
  | ConfirmationRequired => lit "remote_update_confirmation_required"
  | TaskNotFound => lit "remote_update_task_not_found"
  | TargetBusy => lit "remote_update_target_busy"
  | IdempotencyConflict => lit "remote_update_idempotency_conflict"
  | LeaseConflict => lit "remote_update_lease_conflict"
  | LeaseExpired => lit "remote_update_lease_expired"
  | CodeInvalidTransition => lit "remote_update_invalid_transition"
  | InsecureControlChannel => lit "remote_update_insecure_control_channel"
  | LocalUpdateBusy => lit "remote_update_local_update_busy"
  | SignatureVerificationFailed => lit "remote_update_signature_verification_failed"
  | StableChannelRequired => lit "remote_update_stable_channel_required"
  | DowngradeForbidden => lit "remote_update_downgrade_forbidden"
  | ArtifactRejected => lit "remote_update_artifact_rejected"
  | CheckFailed => lit "remote_update_check_failed"
  | DownloadFailed => lit "remote_update_download_failed"
  | ApplyFailed => lit "remote_update_apply_failed"
  | StatusFailed => lit "remote_update_status_failed"
  | RecoveryFailed => lit "remote_update_recovery_failed"
  | RollbackFailed => lit "remote_update_rollback_failed"
  | CodeCancelled => lit "remote_update_cancelled"
  | CodeFailedClosed => lit "remote_update_failed_closed"
  | Internal => lit "remote_update_internal"
  end.

(** ** Messages *)

Inductive RemoteUpdateResult :=
  | ResCheck (current_version latest_version : rstr) (update_available : bool) (signature_key_id : rstr)
  | ResDownloaded (version archive_sha256 binary_sha256 signature_key_id : rstr)
  | ResInstalled (operation_id : Z) (operation : RemoteLocalUpdateOperation)
      (from_version to_version installed_sha256 backup_sha256 : rstr) (verified_unix_seconds : Z)
  | ResStatus (state : RemoteLocalUpdateState) (operation : option RemoteLocalUpdateOperation)
      (from_version to_version : option rstr) (has_error : bool) (updated_unix_seconds : Z).
Global Instance RemoteUpdateResult_eq_dec : EqDecision RemoteUpdateResult.
Proof. solve_decision. Defined.

Record CreateRemoteUpdateTaskRequest := {
  cr_target_client_id : Z;
  cr_action : RemoteUpdateAction;
  cr_idempotency_key : rstr;
  cr_confirmation : rstr;
}.

Record RemoteUpdateRestartPlan := {
  pl_operation_id : Z;
  pl_operation : RemoteLocalUpdateOperation;
  pl_from_version : rstr;
  pl_to_version : rstr;
}.
Global Instance RemoteUpdateRestartPlan_eq_dec : EqDecision RemoteUpdateRestartPlan.
Proof. solve_decision. Defined.

Record RemoteUpdateRestartBinding := {
  b_operation_id : Z;
  b_operation : RemoteLocalUpdateOperation;
  b_from_version : rstr;
  b_to_version : rstr;
  prepared_unix_seconds : Z;
  resume_deadline_unix_seconds : Z;
}.

Record RemoteUpdateTask := {
  schema_version : Z;
  task_id : Z;
  target_client_id : Z;
  action : RemoteUpdateAction;
  state : RemoteUpdateTaskState;
  stage : RemoteUpdateStage;
  recovery_state : RemoteUpdateRecoveryState;
  requested_by : rstr;
  idempotency_key : rstr;
  attempt : Z;
  cancel_requested : bool;
  lease_owner : option Z;
  lease_deadline_unix_seconds : option Z;
  restart : option RemoteUpdateRestartBinding;
  result_ : option RemoteUpdateResult;
  error_code : option RemoteUpdateErrorCode;
  created_unix_seconds : Z;
  updated_unix_seconds : Z;
  completed_unix_seconds : option Z;
}.

Record RemoteUpdateTaskEvent := {
  ev_schema_version : Z;
  ev_event_id : Z;
  ev_task_id : Z;
  ev_sequence : Z;
  ev_kind : RemoteUpdateEventKind;
  ev_state : RemoteUpdateTaskState;
  ev_stage : RemoteUpdateStage;
  ev_recovery_state : RemoteUpdateRecoveryState;
  ev_error_code : option RemoteUpdateErrorCode;
  ev_created_unix_seconds : Z;
}.

Record RemoteUpdateTaskDetail := {
  d_task : RemoteUpdateTask;
  d_events : list RemoteUpdateTaskEvent;
}.

Record RemoteUpdateClaimRequest := { cq_worker_instance_id : Z; cq_requested_lease_seconds : Z }.

Record RemoteUpdateClaim := {
  c_task : RemoteUpdateTask;
  c_lease_token : Z;
  c_lease_deadline_unix_seconds : Z;
}.

Record RemoteUpdateLeaseRenewRequest := {
  rn_worker_instance_id : Z;
  rn_lease_token : Z;
  rn_requested_lease_seconds : Z;
  rn_stage : RemoteUpdateStage;
}.

Record RemoteUpdateLeaseRenewResponse := {
  rr_task_id : Z;
  rr_lease_deadline_unix_seconds : Z;
  rr_cancel_requested : bool;
}.

Record RemoteUpdateReconcileRequest := {
  rc_worker_instance_id : Z;
  rc_lease_token : Z;
  rc_action : RemoteUpdateAction;
  rc_plan : RemoteUpdateRestartPlan;
}.

Inductive RemoteUpdateReconcileState := ReconcileActive | ReconcileTerminal.

Record RemoteUpdateReconcileResponse := {
  rs_state : RemoteUpdateReconcileState;
  rs_task : RemoteUpdateTask;
}.

Inductive RemoteUpdateWorkerReport :=
  | Started (g : RemoteUpdateStage)
  | AwaitingRestart (plan : RemoteUpdateRestartPlan)
  | Succeeded (r : RemoteUpdateResult)
  | Failed (code : RemoteUpdateErrorCode) (recovery : RemoteUpdateRecoveryState)
  | Cancelled.

Record RemoteUpdateReportRequest := {
  rp_worker_instance_id : Z;
  rp_lease_token : Z;
  rp_report : RemoteUpdateWorkerReport;
}.

(** ** Validation that needs no version parser *)

Definition validate_idempotency_key (value : rstr) : result RemoteUpdateContractError unit :=
  if negb ((REMOTE_UPDATE_MIN_IDEMPOTENCY_KEY_BYTES <=? str_len value) &&
           (str_len value <=? REMOTE_UPDATE_MAX_IDEMPOTENCY_KEY_BYTES))
  then Err InvalidIdempotencyKeyLength
  else if negb (all (λ b, is_ascii_alphanumeric b || (b =? 45) || (b =? 95) || (b =? 46) || (b =? 58))
                  (as_bytes value))
  then Err InvalidIdempotencyKeyCharacter
  else Ok tt.

Definition validate_lease_seconds (value : Z) : result RemoteUpdateContractError unit :=
  if (REMOTE_UPDATE_MIN_LEASE_SECONDS <=? value) && (value <=? REMOTE_UPDATE_MAX_LEASE_SECONDS)
  then Ok tt else Err InvalidLeaseDuration.

Definition validate_non_nil_uuid (value : Z) : result RemoteUpdateContractError unit :=
  if value =? 0 then Err NilUuid else Ok tt.

Definition validate_key_id (value : rstr) : result RemoteUpdateContractError unit :=
  if bool_decide (value = []) || (REMOTE_UPDATE_MAX_KEY_ID_BYTES <? str_len value) ||
     negb (all (λ b, is_ascii_alphanumeric b || (b =? 45) || (b =? 95) || (b =? 46)) (as_bytes value))
  then Err InvalidKeyId else Ok tt.

Definition validate_sha256 (value : rstr) : result RemoteUpdateContractError unit :=
  if (str_len value =? 64) &&
     all (λ b, is_ascii_digit b || ((97 <=? b) && (b <=? 102))) (as_bytes value)
  then Ok tt else Err InvalidSha256.

Definition validate_failure_report (a : RemoteUpdateAction) (code : RemoteUpdateErrorCode)
    (recovery : RemoteUpdateRecoveryState) : result RemoteUpdateContractError unit :=
  if bool_decide (code = CodeCancelled) ||
     match recovery with RNone | RRecovered => true | _ => false end
  then Err InvalidRecoveryState
  else if bool_decide (code = CodeFailedClosed) && negb (bool_decide (recovery = RFailedClosed))
  then Err InvalidRecoveryState
  else
    let valid :=
      if changes_installation a
      then match recovery with RStatusRequired | RRollbackRequired | RFailedClosed => true | _ => false end
      else match recovery with RRetryable | RFailedClosed => true | _ => false end in
    if valid then Ok tt else Err InvalidRecoveryState.

Definition matches_action (r : RemoteUpdateResult) (a : RemoteUpdateAction) : bool :=
  match r, a with
  | ResCheck _ _ _ _, Check => true
  | ResDownloaded _ _ _ _, Download => true
  | ResInstalled _ OpApply _ _ _ _ _, Apply => true
  | ResStatus _ _ _ _ _ _, (Status | Recover) => true
  | ResInstalled _ OpRollback _ _ _ _ _, Rollback => true
  | _, _ => false
  end.

Definition matches_restart_plan (r : RemoteUpdateResult) (plan : RemoteUpdateRestartPlan) : bool :=
  match r with
  | ResInstalled oid op from to _ _ _ =>
      (oid =? pl_operation_id plan) && bool_decide (op = pl_operation plan) &&
      bool_decide (from = pl_from_version plan) && bool_decide (to = pl_to_version plan)
  | _ => false
  end.

(** The binding names the operation of the plan. *)
Definition binding_matches (b : RemoteUpdateRestartBinding) (plan : RemoteUpdateRestartPlan) : bool :=
  (b_operation_id b =? pl_operation_id plan) && bool_decide (b_operation b = pl_operation plan) &&
  bool_decide (b_from_version b = pl_from_version plan) && bool_decide (b_to_version b = pl_to_version plan).

Definition validate_create (r : CreateRemoteUpdateTaskRequest) : result RemoteUpdateContractError unit :=
  _ ← validate_non_nil_uuid (cr_target_client_id r);
  _ ← validate_idempotency_key (cr_idempotency_key r);
  if negb (bool_decide (cr_confirmation r = confirmation_phrase (cr_action r)))
  then Err ConfirmationMismatch else Ok tt.

Definition validate_cancel (confirmation : rstr) : result RemoteUpdateContractError unit :=
  if bool_decide (confirmation = REMOTE_UPDATE_CANCEL_CONFIRMATION) then Ok tt else Err ConfirmationMismatch.

Definition validate_claim_request (r : RemoteUpdateClaimRequest) : result RemoteUpdateContractError unit :=
  _ ← validate_non_nil_uuid (cq_worker_instance_id r);
  validate_lease_seconds (cq_requested_lease_seconds r).

Definition validate_renew_request (r : RemoteUpdateLeaseRenewRequest) (a : RemoteUpdateAction)
    : result RemoteUpdateContractError unit :=
  _ ← validate_non_nil_uuid (rn_worker_instance_id r);
  _ ← validate_non_nil_uuid (rn_lease_token r);
  _ ← validate_lease_seconds (rn_requested_lease_seconds r);
  if negb (valid_for_active_lease (rn_stage r) a) then Err InvalidStage else Ok tt.

Definition validate_renew_response (r : RemoteUpdateLeaseRenewResponse) (expected_task_id now : Z)
    (maximum_deadline : option Z) : result RemoteUpdateContractError unit :=
  _ ← validate_non_nil_uuid (rr_task_id r);
  if negb (rr_task_id r =? expected_task_id) || (rr_lease_deadline_unix_seconds r <=? now) ||
     match maximum_deadline with Some m => m <? rr_lease_deadline_unix_seconds r | None => false end
  then Err InvalidClaim else Ok tt.

(** The stages that a running task can be in. *)
Definition running_stage (g : RemoteUpdateStage) : bool :=
  match g with
  | GChecking | GDownloading | GApplying | GInspecting | GRecovering | GRollingBack
  | GAwaitingRestart => true
  | _ => false
  end.

Definition validate_event (e : RemoteUpdateTaskEvent) (expected_task_id : Z)
    : result RemoteUpdateContractError unit :=
  if negb (ev_schema_version e =? REMOTE_UPDATE_CONTRACT_VERSION) then Err UnsupportedSchema
  else
    _ ← validate_non_nil_uuid (ev_event_id e);
    _ ← validate_non_nil_uuid (ev_task_id e);
    if negb (ev_task_id e =? expected_task_id) || (ev_sequence e =? 0) || (ev_created_unix_seconds e =? 0)
    then Err InvalidTaskEvent
    else
      let stage_valid :=
        match ev_state e with
        | SQueued => bool_decide (ev_stage e = GQueued)
        | SClaimed => bool_decide (ev_stage e = GClaimed)
        | SRunning => running_stage (ev_stage e)
        | SCancelRequested => bool_decide (ev_stage e = GClaimed) || running_stage (ev_stage e)
        | SSucceeded => bool_decide (ev_stage e = GCompleted)
        | SFailed => bool_decide (ev_stage e = GFailed)
        | SCancelled => bool_decide (ev_stage e = GCancelled)
        end in
      if stage_valid then Ok tt else Err InvalidTaskEvent.

Section contract.
(** [Version::parse(..).is_ok()] of the [semver] package. *)
Context (version_parses : rstr → bool).

Definition validate_version (value : rstr) : result RemoteUpdateContractError unit :=
  if bool_decide (value = []) || (REMOTE_UPDATE_MAX_VERSION_BYTES <? str_len value) then Err InvalidVersion
  else
    let normalized := match value with c :: rest => if c =? 118 then rest else value | [] => value end in
    if version_parses normalized then Ok tt else Err InvalidVersion.

Definition validate_optional_version (value : option rstr) : result RemoteUpdateContractError unit :=
  match value with Some v => validate_version v | None => Ok tt end.

Definition validate_result (r : RemoteUpdateResult) : result RemoteUpdateContractError unit :=
  match r with
  | ResCheck current latest _ key_id =>
      _ ← validate_version current;
      _ ← validate_version latest;
      validate_key_id key_id
  | ResDownloaded version archive binary key_id =>
      _ ← validate_version version;
      _ ← validate_sha256 archive;
      _ ← validate_sha256 binary;
      validate_key_id key_id
  | ResInstalled operation_id _ from to installed backup verified =>
      _ ← validate_non_nil_uuid operation_id;
      _ ← validate_version from;
      _ ← validate_version to;
      _ ← validate_sha256 installed;
      _ ← validate_sha256 backup;
      if verified =? 0 then Err InvalidTimestamp else Ok tt
  | ResStatus st operation from to has_error updated =>
      _ ← validate_optional_version from;
      _ ← validate_optional_version to;
      if updated =? 0 then Err InvalidTimestamp
      else
        let fields_valid :=
          match st with
          | LIdle => bool_decide (operation = None) && bool_decide (to = None) && negb has_error
          | LScheduled | LInstalling | LSucceeded | LRolledBack =>
              bool_decide (is_Some operation) && bool_decide (is_Some from) &&
              bool_decide (is_Some to) && negb has_error
          | LFailed | LRecoveryRequired =>
              bool_decide (is_Some operation) && bool_decide (is_Some from) &&
              bool_decide (is_Some to) && has_error
          end in
        if negb fields_valid then Err InvalidLocalStatus else Ok tt
  end.

Definition validate_plan (p : RemoteUpdateRestartPlan) (a : RemoteUpdateAction)
    : result RemoteUpdateContractError unit :=
  _ ← validate_non_nil_uuid (pl_operation_id p);
  expected ← match a with
             | Apply => Ok OpApply
             | Rollback => Ok OpRollback
             | _ => Err InvalidTransition
             end;
  if negb (bool_decide (pl_operation p = expected)) then Err ResultActionMismatch
  else
    _ ← validate_version (pl_from_version p);
    validate_version (pl_to_version p).

Definition validate_binding (b : RemoteUpdateRestartBinding) (a : RemoteUpdateAction)
    (lease_deadline now : option Z) : result RemoteUpdateContractError unit :=
  let plan := {| pl_operation_id := b_operation_id b; pl_operation := b_operation b;
                 pl_from_version := b_from_version b; pl_to_version := b_to_version b |} in
  _ ← validate_plan plan a;
  if (resume_deadline_unix_seconds b =? 0) || (prepared_unix_seconds b =? 0) ||
     (resume_deadline_unix_seconds b <=? prepared_unix_seconds b) ||
     (REMOTE_UPDATE_RESTART_RESUME_SECONDS
        <? saturating_sub (resume_deadline_unix_seconds b) (prepared_unix_seconds b)) ||
     negb (bool_decide (lease_deadline = Some (resume_deadline_unix_seconds b))) ||
     match now with Some value => resume_deadline_unix_seconds b <=? value | None => false end
  then Err InvalidTimestamp else Ok tt.

Definition validate_report (r : RemoteUpdateWorkerReport) (a : RemoteUpdateAction)
    : result RemoteUpdateContractError unit :=
  match r with
  | Started g => if bool_decide (g = execution_stage a) then Ok tt else Err InvalidStage
  | AwaitingRestart plan => if requires_restart a then validate_plan plan a else Err InvalidTransition
  | Succeeded res => if matches_action res a then validate_result res else Err ResultActionMismatch
  | Failed code recovery => validate_failure_report a code recovery
  | Cancelled => Ok tt
  end.

Definition validate_for_task (r : RemoteUpdateWorkerReport) (a : RemoteUpdateAction)
    (current_stage : RemoteUpdateStage) (cancel_requested : bool) : result RemoteUpdateContractError unit :=
  _ ← validate_report r a;
  if match r with Cancelled => true | _ => false end &&
     (negb cancel_requested ||
      (negb (bool_decide (current_stage = GClaimed)) && negb (safe_to_requeue_after_lease_loss a)))
  then Err InvalidTransition else Ok tt.

Definition validate_report_request (r : RemoteUpdateReportRequest) (a : RemoteUpdateAction)
    : result RemoteUpdateContractError unit :=
  _ ← validate_non_nil_uuid (rp_worker_instance_id r);
  _ ← validate_non_nil_uuid (rp_lease_token r);
  validate_report (rp_report r) a.

(** The state-dependent consistency that ends [RemoteUpdateTask::validate]. *)
Definition lease_present (t : RemoteUpdateTask) : bool :=
  bool_decide (is_Some (lease_owner t)) && bool_decide (is_Some (lease_deadline_unix_seconds t)).
Definition active_payload_empty (t : RemoteUpdateTask) : bool :=
  bool_decide (result_ t = None) && bool_decide (error_code t = None) &&
  bool_decide (completed_unix_seconds t = None).
Definition no_restart (t : RemoteUpdateTask) : bool := match restart t with None => true | Some _ => false end.

Definition state_consistent (t : RemoteUpdateTask) : bool :=
  match state t with
  | SQueued =>
      bool_decide (stage t = GQueued) && negb (lease_present t) && no_restart t &&
      negb (cancel_requested t) && active_payload_empty t
  | SClaimed =>
      bool_decide (stage t = GClaimed) && lease_present t && no_restart t &&
      negb (cancel_requested t) && active_payload_empty t
  | SRunning =>
      (bool_decide (stage t = execution_stage (action t)) ||
       (bool_decide (stage t = GAwaitingRestart) && requires_restart (action t))) &&
      lease_present t && (bool_decide (stage t = GAwaitingRestart) || no_restart t) &&
      negb (cancel_requested t) && active_payload_empty t
  | SCancelRequested =>
      (bool_decide (stage t = GClaimed) || bool_decide (stage t = execution_stage (action t)) ||
       (bool_decide (stage t = GAwaitingRestart) && requires_restart (action t))) &&
      lease_present t && (bool_decide (stage t = GAwaitingRestart) || no_restart t) &&
      cancel_requested t && active_payload_empty t
  | SSucceeded =>
      bool_decide (stage t = GCompleted) && negb (lease_present t) && no_restart t &&
      bool_decide (is_Some (completed_unix_seconds t)) && bool_decide (error_code t = None) &&
      match result_ t with
      | Some r => matches_action r (action t) && is_ok (validate_result r)
      | None => false
      end &&
      bool_decide (recovery_state t = if bool_decide (action t = Recover) then RRecovered else RNone)
  | SFailed =>
      bool_decide (stage t = GFailed) && negb (lease_present t) && no_restart t &&
      bool_decide (is_Some (completed_unix_seconds t)) && bool_decide (result_ t = None) &&
      match error_code t with
      | Some code => is_ok (validate_report (Failed code (recovery_state t)) (action t))
      | None => false
      end
  | SCancelled =>
      bool_decide (stage t = GCancelled) && negb (lease_present t) && no_restart t &&
      cancel_requested t && bool_decide (is_Some (completed_unix_seconds t)) &&
      bool_decide (result_ t = None) && bool_decide (error_code t = Some CodeCancelled) &&
      bool_decide (recovery_state t = RNone)
  end.

Definition validate_task (t : RemoteUpdateTask) : result RemoteUpdateContractError unit :=
  if negb (schema_version t =? REMOTE_UPDATE_CONTRACT_VERSION) then Err UnsupportedSchema
  else
    _ ← validate_non_nil_uuid (task_id t);
    _ ← validate_non_nil_uuid (target_client_id t);
    _ ← validate_idempotency_key (idempotency_key t);
    if REMOTE_UPDATE_MAX_CLAIM_ATTEMPTS <? attempt t then Err InvalidTaskSnapshot
    else if bool_decide (requested_by t = []) ||
            (REMOTE_UPDATE_MAX_REQUESTED_BY_BYTES <? str_len (requested_by t)) ||
            any is_control (requested_by t)
    then Err InvalidRequester
    else if (created_unix_seconds t =? 0) || (updated_unix_seconds t <? created_unix_seconds t) ||
            match completed_unix_seconds t with
            | Some completed => completed <? updated_unix_seconds t
            | None => false
            end
    then Err InvalidTimestamp
    else
      _ ← match lease_owner t with Some owner => validate_non_nil_uuid owner | None => Ok tt end;
      if bool_decide (lease_deadline_unix_seconds t = Some 0) then Err InvalidTimestamp
      else
        _ ← match restart t with
            | Some b => validate_binding b (action t) (lease_deadline_unix_seconds t)
                          (Some (updated_unix_seconds t))
            | None => Ok tt
            end;
        if negb (eqb (bool_decide (stage t = GAwaitingRestart)) (negb (no_restart t)))
        then Err InvalidTaskSnapshot
        else if state_consistent t then Ok tt else Err InvalidTaskSnapshot.

(** The loop over the events, with [previous_sequence]. *)
Fixpoint validate_events (expected_task_id previous_sequence : Z) (events : list RemoteUpdateTaskEvent)
    : result RemoteUpdateContractError unit :=
  match events with
  | [] => Ok tt
  | e :: events =>
      _ ← validate_event e expected_task_id;
      if ev_sequence e <=? previous_sequence then Err InvalidTaskEvent
      else validate_events expected_task_id (ev_sequence e) events
  end.

Definition validate_detail (d : RemoteUpdateTaskDetail) (expected_task_id : Z)
    : result RemoteUpdateContractError unit :=
  _ ← validate_task (d_task d);
  if negb (task_id (d_task d) =? expected_task_id) || bool_decide (d_events d = []) ||
     (REMOTE_UPDATE_MAX_EVENTS_PER_TASK <? len (d_events d))
  then Err InvalidTaskEvent
  else
    _ ← validate_events expected_task_id 0 (d_events d);
    last ← ok_or (last (d_events d)) InvalidTaskEvent;
    if negb (bool_decide (ev_state last = state (d_task d))) ||
       negb (bool_decide (ev_stage last = stage (d_task d))) ||
       negb (bool_decide (ev_recovery_state last = recovery_state (d_task d))) ||
       negb (bool_decide (ev_error_code last = error_code (d_task d)))
    then Err InvalidTaskEvent else Ok tt.

Definition validate_claim (c : RemoteUpdateClaim) (expected_client_id expected_worker_instance_id now : Z)
    : result RemoteUpdateContractError unit :=
  _ ← validate_task (c_task c);
  _ ← validate_non_nil_uuid (c_lease_token c);
  if negb (target_client_id (c_task c) =? expected_client_id) ||
     negb (bool_decide (lease_owner (c_task c) = Some expected_worker_instance_id)) ||
     negb (bool_decide (state (c_task c) = SClaimed)) ||
     negb (bool_decide (stage (c_task c) = GClaimed)) ||
     negb (bool_decide (lease_deadline_unix_seconds (c_task c) = Some (c_lease_deadline_unix_seconds c))) ||
     (c_lease_deadline_unix_seconds c <=? now)
  then Err InvalidClaim else Ok tt.

Definition validate_reconcile_request (r : RemoteUpdateReconcileRequest)
    : result RemoteUpdateContractError unit :=
  _ ← validate_non_nil_uuid (rc_worker_instance_id r);
  _ ← validate_non_nil_uuid (rc_lease_token r);
  if negb (requires_restart (rc_action r)) then Err InvalidTransition
  else validate_plan (rc_plan r) (rc_action r).

Definition validate_reconcile_response (r : RemoteUpdateReconcileResponse)
    (expected_task_id expected_client_id : Z) (q : RemoteUpdateReconcileRequest) (now : Z)
    : result RemoteUpdateContractError unit :=
  let t := rs_task r in
  _ ← validate_reconcile_request q;
  _ ← validate_task t;
  _ ← validate_non_nil_uuid expected_task_id;
  _ ← validate_non_nil_uuid expected_client_id;
  if negb (task_id t =? expected_task_id) || negb (target_client_id t =? expected_client_id) ||
     negb (bool_decide (action t = rc_action q))
  then Err InvalidTaskSnapshot
  else
    let valid :=
      match rs_state r with
      | ReconcileActive =>
          match state t with SRunning | SCancelRequested => true | _ => false end &&
          bool_decide (stage t = GAwaitingRestart) &&
          bool_decide (lease_owner t = Some (rc_worker_instance_id q)) &&
          match lease_deadline_unix_seconds t with Some deadline => now <? deadline | None => false end &&
          match restart t with Some b => binding_matches b (rc_plan q) | None => false end
      | ReconcileTerminal =>
          match state t with
          | SSucceeded => match result_ t with Some res => matches_restart_plan res (rc_plan q) | None => false end
          | SFailed => true
          | _ => false
          end
      end in
    if valid then Ok tt else Err InvalidTaskSnapshot.

Definition validate_report_response (t : RemoteUpdateTask) (expected_task_id expected_client_id : Z)
    (expected_action : RemoteUpdateAction) (expected_report : RemoteUpdateWorkerReport)
    : result RemoteUpdateContractError unit :=
  _ ← validate_task t;
  _ ← validate_non_nil_uuid expected_client_id;
  if negb (task_id t =? expected_task_id) || negb (target_client_id t =? expected_client_id) ||
     negb (bool_decide (action t = expected_action))
  then Err InvalidTaskSnapshot
  else
    let response_matches :=
      match expected_report with
      | Started g => bool_decide (state t = SRunning) && bool_decide (stage t = g)
      | AwaitingRestart plan =>
          match state t with SRunning | SCancelRequested => true | _ => false end &&
          bool_decide (stage t = GAwaitingRestart) &&
          match restart t with Some b => binding_matches b plan | None => false end
      | Succeeded res => bool_decide (state t = SSucceeded) && bool_decide (result_ t = Some res)
      | Failed code recovery =>
          bool_decide (state t = SFailed) && bool_decide (error_code t = Some code) &&
          bool_decide (recovery_state t = recovery)
      | Cancelled => bool_decide (state t = SCancelled)
      end in
    if negb response_matches then Err InvalidTaskSnapshot else Ok tt.
End contract.
