(* ===== verification/UpdateTasks.v ===== *)
(** * Remote update tasks ([crates/linklake-server/src/update_tasks.rs])

    The persistent state machine of remote update tasks over the SQLite tables
    [update_tasks] and [update_task_events]. A transaction is a function from
    the stored tables to an error or a value and new tables: an error rolls back,
    so it carries no tables. A stored row is read through [read_task], which
    validates it, and written through the table's CHECK constraints and unique
    indexes; both can fail with a storage error, as in the code.

    Parameters: [semver] parsing, SHA-256, the JSON serialisation of a worker
    report, and the sequence of random UUIDs. *)

From S2P Require Import Prelude RustStr P2pProtocol RemoteUpdate.
Local Open Scope Z_scope.

Abbreviation I64_MAX := 9223372036854775807.
Definition MAX_REQUESTED_BY_BYTES : Z := 128.
Definition MAX_TASK_LIST_LIMIT : Z := 500.
Definition MAX_RETAINED_TASKS : Z := 100000.
Definition MAX_EVENTS_PER_TASK : Z := 128.
Definition MAX_CLAIM_ATTEMPTS : Z := 16.
Definition MAX_LEASE_EVENTS_PER_TASK : Z := 8.
Definition MAX_REPLAY_EVENTS_PER_TASK : Z := 4.
Definition MAX_RESTART_EVENTS_PER_TASK : Z := 4.

Inductive UpdateTaskError :=
  | UContract (e : RemoteUpdateContractError)
  | UTargetNotFound
  | UInvalidRequester
  | UTaskNotFound
  | UTargetBusy
  | UIdempotencyConflict
  | ULeaseConflict
  | ULeaseExpired
  | UInvalidTransition
  | UCapacityExceeded
  | UNotLeader
  | UStorage.

Record TerminalReportReplay := {
  tr_worker_instance_id : Z;
  tr_lease_token_sha256 : rstr;
  tr_report_sha256 : rstr;
}.

(** A row of [update_tasks]: the task columns, the request fingerprint, the
    digest of the lease token and the proof of the terminal report. *)
Record row := {
  r_task : RemoteUpdateTask;
  r_fingerprint : rstr;
  r_lease_token_sha256 : option rstr;
  r_replay : option TerminalReportReplay;
}.

Record catalog := {
  clients : gset Z;
  rows : gmap Z row;
  events : list RemoteUpdateTaskEvent;
  drawn : nat;
}.

(** ** Transactions *)

Definition tx (A : Type) : Type := catalog → result UpdateTaskError (A * catalog).

Global Instance tx_ret : MRet tx := λ A a c, Ok (a, c).
Global Instance tx_bind : MBind tx := λ A B k m c,
  match m c with Ok (a, c) => k a c | Err e => Err e end.

Definition fail {A} (e : UpdateTaskError) : tx A := λ _, Err e.
Definition get : tx catalog := λ c, Ok (c, c).
Definition put (c : catalog) : tx unit := λ _, Ok (tt, c).
Definition require {A} (o : option A) (e : UpdateTaskError) : tx A :=
  match o with Some a => mret a | None => fail e end.
Definition contract (r : result RemoteUpdateContractError unit) : tx unit :=
  match r with Ok _ => mret tt | Err e => fail (UContract e) end.
Definition guard_tx (b : bool) (e : UpdateTaskError) : tx unit := if b then mret tt else fail e.

Fixpoint for_each {A} (f : A → tx unit) (l : list A) : tx unit :=
  match l with [] => mret tt | a :: l => _ ← f a; for_each f l end.
Fixpoint traverse {A B} (f : A → tx B) (l : list A) : tx (list B) :=
  match l with [] => mret [] | a :: l => b ← f a; bs ← traverse f l; mret (b :: bs) end.

(** ** SQL text order and integer columns *)

Fixpoint insert_by {A} (lt : A → A → bool) (a : A) (l : list A) : list A :=
  match l with [] => [a] | b :: l' => if lt b a then b :: insert_by lt a l' else a :: l end.
Definition order_by {A} (lt : A → A → bool) (l : list A) : list A := foldr (insert_by lt) [] l.

Definition now_i64 (v : Z) : tx Z := if v <=? I64_MAX then mret v else fail UStorage.
Definition checked_deadline (now lease_seconds : Z) : tx Z :=
  require (checked_add U64_MAX now lease_seconds) UStorage.

Definition leased_state (s : RemoteUpdateTaskState) : bool :=
  match s with SClaimed | SRunning | SCancelRequested => true | _ => false end.

(** [LENGTH(x) = 64 AND x NOT GLOB '*[^0-9a-f]*']. *)
Definition sha256_text (s : rstr) : bool :=
  (len s =? 64) && all (λ c, is_ascii_digit c || ((97 <=? c) && (c <=? 102))) s.

(** The CHECK constraints of [update_tasks]; the sets of enum texts are the
    constructors of the types. *)
Definition schema_checks (w : row) : bool :=
  let t := r_task w in
  (0 <=? attempt t) &&
  (* lease columns are all null or all present *)
  ((bool_decide (lease_owner t = None) && bool_decide (r_lease_token_sha256 w = None) &&
    bool_decide (lease_deadline_unix_seconds t = None)) ||
   (bool_decide (is_Some (lease_owner t)) && match r_lease_token_sha256 w with Some s => sha256_text s | None => false end &&
    bool_decide (is_Some (lease_deadline_unix_seconds t)))) &&
  (* the restart binding belongs to the awaiting_restart stage *)
  eqb (bool_decide (stage t = GAwaitingRestart)) (negb (no_restart t)) &&
  (* a terminal proof belongs to a terminal state *)
  (match r_replay w with
   | None => true
   | Some p => is_terminal (state t) && sha256_text (tr_lease_token_sha256 p) && sha256_text (tr_report_sha256 p)
   end) &&
  (* state and stage *)
  match state t with
  | SQueued => bool_decide (stage t = GQueued)
  | SClaimed => bool_decide (stage t = GClaimed)
  | SRunning => running_stage (stage t)
  | SCancelRequested => bool_decide (stage t = GClaimed) || running_stage (stage t)
  | SSucceeded => bool_decide (stage t = GCompleted)
  | SFailed => bool_decide (stage t = GFailed)
  | SCancelled => bool_decide (stage t = GCancelled)
  end &&
  (* action and stage *)
  match stage t with
  | GQueued | GClaimed | GAwaitingRestart | GCompleted | GFailed | GCancelled => true
  | g => bool_decide (g = execution_stage (action t))
  end &&
  (* state and lease *)
  eqb (leased_state (state t)) (bool_decide (is_Some (lease_owner t))) &&
  (* state and outcome *)
  match state t with
  | SQueued | SClaimed | SRunning | SCancelRequested => active_payload_empty t
  | SSucceeded => bool_decide (is_Some (completed_unix_seconds t)) && bool_decide (is_Some (result_ t)) &&
                  bool_decide (error_code t = None)
  | SFailed => bool_decide (is_Some (completed_unix_seconds t)) && bool_decide (result_ t = None) &&
               bool_decide (is_Some (error_code t)) && negb (bool_decide (error_code t = Some CodeCancelled))
  | SCancelled => bool_decide (is_Some (completed_unix_seconds t)) && bool_decide (result_ t = None) &&
                  bool_decide (error_code t = Some CodeCancelled)
  end.

(** UNIQUE(requested_by, idempotency_key) and the partial unique index on the
    target of active tasks, against the other rows. *)
Definition unique_with (w : row) (others : gmap Z row) : bool :=
  forallb (λ v,
    negb (bool_decide (requested_by (r_task v) = requested_by (r_task w)) &&
          bool_decide (idempotency_key (r_task v) = idempotency_key (r_task w))) &&
    negb (is_active (state (r_task v)) && is_active (state (r_task w)) &&
          (target_client_id (r_task v) =? target_client_id (r_task w))))
    (map_to_list others).*2.

(** [hex_lower]: two lower-case digits per byte. *)
Definition hex_lower (bytes : list Z) : rstr := encode_hex bytes.

(** [enum_text] of an action: its serialised name. *)
Definition action_text (a : RemoteUpdateAction) : rstr :=
  match a with
  | Check => lit "check"
  | Download => lit "download"
  | Apply => lit "apply"
  | Status => lit "status"
  | Recover => lit "recover"
  | Rollback => lit "rollback"
  end.

(** ** Inversion of transactions *)

Lemma tx_bind_Ok {A B} (m : tx A) (k : A → tx B) c r :
  (m ≫= k) c = Ok r → ∃ a c1, m c = Ok (a, c1) ∧ k a c1 = Ok r.
Proof. unfold mbind, tx_bind. destruct (m c) as [[a c1]|]; [|done]. intros H. by exists a, c1. Qed.

Lemma get_Ok c a c' : get c = Ok (a, c') → a = c ∧ c' = c.
Proof. by intros [= <- <-]. Qed.
Lemma guard_tx_Ok b e c u c' : guard_tx b e c = Ok (u, c') → b = true ∧ c' = c.
Proof. unfold guard_tx. destruct b; [|done]. by intros [= _ <-]. Qed.
Lemma require_Ok {A} (o : option A) e c a c' : require o e c = Ok (a, c') → o = Some a ∧ c' = c.
Proof. unfold require. destruct o; [|done]. by intros [= <- <-]. Qed.
Lemma contract_Ok r c u c' : contract r c = Ok (u, c') → r = Ok tt ∧ c' = c.
Proof. unfold contract. destruct r as [[]|]; [|done]. by intros [= _ <-]. Qed.
Lemma ret_Ok {A} (a b : A) (c c' : catalog) : (mret a : tx A) c = Ok (b, c') → a = b ∧ c = c'.
Proof. by intros [= <- <-]. Qed.
Lemma now_i64_Ok v c a c' : now_i64 v c = Ok (a, c') → a = v ∧ c' = c ∧ v ≤ I64_MAX.
Proof. unfold now_i64. destruct (v <=? I64_MAX) eqn:E; [|done]. bool_prop. by intros [= <- <-]. Qed.

Ltac tx_step H :=
  lazymatch type of H with
  | (mbind _ _) _ = Ok _ =>
      let a := fresh "a" in let c1 := fresh "c" in let H1 := fresh "H" in
      apply tx_bind_Ok in H as (a & c1 & H1 & H); try tx_step H1
  | get _ = Ok _ => apply get_Ok in H as [-> ->]
  | guard_tx _ _ _ = Ok _ => apply guard_tx_Ok in H as [H ->]
  | require _ _ _ = Ok _ => apply require_Ok in H as [H ->]
  | contract _ _ = Ok _ => apply contract_Ok in H as [H ->]
  | (mret _) _ = Ok _ => apply ret_Ok in H as [<- <-]
  | now_i64 _ _ = Ok _ => let H2 := fresh "Hi" in apply now_i64_Ok in H as (-> & -> & H2)
  | fail _ _ = Ok _ => discriminate H
  end.
Ltac tx_steps H := repeat tx_step H.

Section catalog.
Set Default Proof Using "Type".
Context (version_parses : rstr → bool).
Context (sha256 : list Z → list Z).
Context (report_to_vec : RemoteUpdateWorkerReport → option (list Z)).
Context (uuid_v4 : nat → Z).

(** ** Digests *)

Definition request_fingerprint (q : CreateRemoteUpdateTaskRequest) (by_ : rstr) : rstr :=
  hex_lower (sha256 (as_bytes (lit "linklake-remote-update-request-v1") ++ [0] ++
                     to_be_bytes 16 (cr_target_client_id q) ++ as_bytes (action_text (cr_action q)) ++ [0] ++
                     as_bytes by_)).
Definition lease_token_sha256 (token : Z) : rstr :=
  hex_lower (sha256 (as_bytes (lit "linklake-remote-update-lease-v1") ++ [0] ++ to_be_bytes 16 token)).
Definition worker_report_sha256 (r : RemoteUpdateWorkerReport) : option rstr :=
  (λ encoded, hex_lower (sha256 (as_bytes (lit "linklake-remote-update-terminal-report-v1") ++ [0] ++ encoded)))
    <$> report_to_vec r.

(** ** Rows *)

(** [Uuid::new_v4()]. *)
Definition new_v4 : tx Z :=
  c ← get;
  _ ← put {| clients := clients c; rows := rows c; events := events c; drawn := S (drawn c) |};
  mret (uuid_v4 (drawn c)).

(** UPDATE of one row. *)
Definition write_row (w : row) : tx unit :=
  c ← get;
  if schema_checks w && unique_with w (delete (task_id (r_task w)) (rows c)) then
    put {| clients := clients c; rows := <[task_id (r_task w) := w]> (rows c);
           events := events c; drawn := drawn c |}
  else fail UStorage.

Definition validate_loaded_task (t : RemoteUpdateTask) : bool :=
  (attempt t <=? MAX_CLAIM_ATTEMPTS) && is_ok (validate_task version_parses t).

Definition read_task (w : row) : tx RemoteUpdateTask :=
  let t := r_task w in
  if match result_ t with Some r => is_ok (validate_result version_parses r) | None => true end &&
     validate_loaded_task t
  then mret t else fail UStorage.

Definition task_by_id (id : Z) : tx (option RemoteUpdateTask) :=
  c ← get;
  match rows c !! id with
  | None => mret None
  | Some w => t ← read_task w; mret (Some t)
  end.

Definition table (c : catalog) : list row := (map_to_list (rows c)).*2.

Definition task_by_idempotency_key (requested_by_ key : rstr) : tx (option RemoteUpdateTask) :=
  c ← get;
  match filter (λ w, requested_by (r_task w) = requested_by_ ∧ idempotency_key (r_task w) = key) (table c) with
  | [] => mret None
  | w :: _ => t ← read_task w; mret (Some t)
  end.

(** ORDER BY created_unix_seconds ASC, task_id ASC. *)
Definition by_created (v w : row) : bool :=
  (created_unix_seconds (r_task v) <? created_unix_seconds (r_task w)) ||
  ((created_unix_seconds (r_task v) =? created_unix_seconds (r_task w)) &&
   (task_id (r_task v) <? task_id (r_task w))).

(** ORDER BY lease_deadline_unix_seconds ASC, task_id ASC (NULL first). *)
Definition by_deadline (v w : row) : bool :=
  match lease_deadline_unix_seconds (r_task v), lease_deadline_unix_seconds (r_task w) with
  | None, Some _ => true
  | Some _, None => false
  | Some a, Some b => (a <? b) || ((a =? b) && (task_id (r_task v) <? task_id (r_task w)))
  | None, None => task_id (r_task v) <? task_id (r_task w)
  end.

Definition of_client (target : option Z) (w : row) : bool :=
  match target with Some x => target_client_id (r_task w) =? x | None => true end.

Definition oldest_queued_task (target : Z) : tx (option RemoteUpdateTask) :=
  c ← get;
  match order_by by_created
          (filter (λ w, of_client (Some target) w && bool_decide (state (r_task w) = SQueued) = true) (table c)) with
  | [] => mret None
  | w :: _ => t ← read_task w; mret (Some t)
  end.

Definition active_leased_tasks (target : option Z) : tx (list RemoteUpdateTask) :=
  c ← get;
  traverse read_task
    (order_by by_created
       (filter (λ w, of_client target w && leased_state (state (r_task w)) = true) (table c))).

Definition lease_over (now : Z) (t : RemoteUpdateTask) : bool :=
  match lease_deadline_unix_seconds t with None => true | Some deadline => deadline <=? now end.

Definition expired_leased_tasks (target : option Z) (now : Z) : tx (list RemoteUpdateTask) :=
  now ← now_i64 now;
  c ← get;
  traverse read_task
    (order_by by_deadline
       (filter (λ w, of_client target w && leased_state (state (r_task w)) && lease_over now (r_task w) = true)
          (table c))).

(** ** Events *)

Definition events_of (id : Z) (c : catalog) : list RemoteUpdateTaskEvent :=
  filter (λ e, ev_task_id e = id) (events c).

Definition append_event (t : RemoteUpdateTask) (kind : RemoteUpdateEventKind) (now : Z) : tx unit :=
  let sampled_limit :=
    match kind with
    | ELeaseRenewed => Some MAX_LEASE_EVENTS_PER_TASK
    | EIdempotentReplay => Some MAX_REPLAY_EVENTS_PER_TASK
    | ERestartReconciled => Some MAX_RESTART_EVENTS_PER_TASK
    | _ => None
    end in
  c ← get;
  let own := events_of (task_id t) c in
  let recorded := len (filter (λ e, ev_kind e = kind) own) in
  if match sampled_limit with Some limit => limit <=? recorded | None => false end then mret tt
  else if MAX_EVENTS_PER_TASK <=? len own then fail UCapacityExceeded
  else
    let sequence := foldr (λ e acc, Z.max (ev_sequence e) acc) 0 own + 1 in
    id ← new_v4;
    now ← now_i64 now;
    c ← get;
    (* INSERT: the primary key must be new *)
    _ ← guard_tx (negb (any (λ e, ev_event_id e =? id) (events c))) UStorage;
    put {| clients := clients c; rows := rows c; drawn := drawn c;
           events := events c ++
             [{| ev_schema_version := REMOTE_UPDATE_CONTRACT_VERSION; ev_event_id := id;
                 ev_task_id := task_id t; ev_sequence := sequence; ev_kind := kind;
                 ev_state := state t; ev_stage := stage t; ev_recovery_state := recovery_state t;
                 ev_error_code := error_code t; ev_created_unix_seconds := now |}] |}.

(** ** Transitions of one task *)

Definition with_lease (owner deadline : option Z) (b : option RemoteUpdateRestartBinding)
    (t : RemoteUpdateTask) : RemoteUpdateTask :=
  {| schema_version := schema_version t; task_id := task_id t; target_client_id := target_client_id t;
     action := action t; state := state t; stage := stage t; recovery_state := recovery_state t;
     requested_by := requested_by t; idempotency_key := idempotency_key t; attempt := attempt t;
     cancel_requested := cancel_requested t; lease_owner := owner;
     lease_deadline_unix_seconds := deadline; restart := b; result_ := result_ t;
     error_code := error_code t; created_unix_seconds := created_unix_seconds t;
     updated_unix_seconds := updated_unix_seconds t; completed_unix_seconds := completed_unix_seconds t |}.
Definition clear_task_lease : RemoteUpdateTask → RemoteUpdateTask := with_lease None None None.

Definition with_progress (s : RemoteUpdateTaskState) (g : RemoteUpdateStage) (now : Z)
    (t : RemoteUpdateTask) : RemoteUpdateTask :=
  {| schema_version := schema_version t; task_id := task_id t; target_client_id := target_client_id t;
     action := action t; state := s; stage := g; recovery_state := recovery_state t;
     requested_by := requested_by t; idempotency_key := idempotency_key t; attempt := attempt t;
     cancel_requested := cancel_requested t; lease_owner := lease_owner t;
     lease_deadline_unix_seconds := lease_deadline_unix_seconds t; restart := restart t;
     result_ := result_ t; error_code := error_code t; created_unix_seconds := created_unix_seconds t;
     updated_unix_seconds := now; completed_unix_seconds := completed_unix_seconds t |}.

Definition with_outcome (r : RemoteUpdateRecoveryState) (res : option RemoteUpdateResult)
    (code : option RemoteUpdateErrorCode) (completed : option Z) (t : RemoteUpdateTask) : RemoteUpdateTask :=
  {| schema_version := schema_version t; task_id := task_id t; target_client_id := target_client_id t;
     action := action t; state := state t; stage := stage t; recovery_state := r;
     requested_by := requested_by t; idempotency_key := idempotency_key t; attempt := attempt t;
     cancel_requested := cancel_requested t; lease_owner := lease_owner t;
     lease_deadline_unix_seconds := lease_deadline_unix_seconds t; restart := restart t;
     result_ := res; error_code := code; created_unix_seconds := created_unix_seconds t;
     updated_unix_seconds := updated_unix_seconds t; completed_unix_seconds := completed |}.

Definition with_cancel (t : RemoteUpdateTask) : RemoteUpdateTask :=
  {| schema_version := schema_version t; task_id := task_id t; target_client_id := target_client_id t;
     action := action t; state := state t; stage := stage t; recovery_state := recovery_state t;
     requested_by := requested_by t; idempotency_key := idempotency_key t; attempt := attempt t;
     cancel_requested := true; lease_owner := lease_owner t;
     lease_deadline_unix_seconds := lease_deadline_unix_seconds t; restart := restart t;
     result_ := result_ t; error_code := error_code t; created_unix_seconds := created_unix_seconds t;
     updated_unix_seconds := updated_unix_seconds t; completed_unix_seconds := completed_unix_seconds t |}.

Definition with_attempt (n : Z) (t : RemoteUpdateTask) : RemoteUpdateTask :=
  {| schema_version := schema_version t; task_id := task_id t; target_client_id := target_client_id t;
     action := action t; state := state t; stage := stage t; recovery_state := recovery_state t;
     requested_by := requested_by t; idempotency_key := idempotency_key t; attempt := n;
     cancel_requested := cancel_requested t; lease_owner := lease_owner t;
     lease_deadline_unix_seconds := lease_deadline_unix_seconds t; restart := restart t;
     result_ := result_ t; error_code := error_code t; created_unix_seconds := created_unix_seconds t;
     updated_unix_seconds := updated_unix_seconds t; completed_unix_seconds := completed_unix_seconds t |}.

Definition apply_lost_lease (t : RemoteUpdateTask) (now : Z) : RemoteUpdateTask * RemoteUpdateEventKind :=
  let cancellation_is_known_safe :=
    bool_decide (stage t = GClaimed) || safe_to_requeue_after_lease_loss (action t) in
  if cancel_requested t && cancellation_is_known_safe then
    (clear_task_lease (with_outcome RNone (result_ t) (Some CodeCancelled) (Some now)
                         (with_progress SCancelled GCancelled now t)), ECancelled)
  else if safe_to_requeue_after_lease_loss (action t) then
    (clear_task_lease (with_outcome RRetryable (result_ t) None (completed_unix_seconds t)
                         (with_progress SQueued GQueued now t)), ELeaseExpiredRequeued)
  else
    (clear_task_lease (with_outcome RFailedClosed (result_ t) (Some CodeFailedClosed) (Some now)
                         (with_progress SFailed GFailed now t)), ELeaseExpiredFailedClosed).

Definition apply_worker_report (t : RemoteUpdateTask) (report : RemoteUpdateWorkerReport) (now : Z)
    : result UpdateTaskError (RemoteUpdateTask * RemoteUpdateEventKind) :=
  match report with
  | Started g =>
      if negb (cancel_requested t) && bool_decide (stage t = GClaimed) &&
         bool_decide (g = execution_stage (action t))
      then Ok (with_progress SRunning g now t, EStageReported)
      else Err UInvalidTransition
  | AwaitingRestart plan =>
      if negb (cancel_requested t) && requires_restart (action t) &&
         bool_decide (stage t = execution_stage (action t))
      then
        match checked_add U64_MAX now REMOTE_UPDATE_RESTART_RESUME_SECONDS with
        | None => Err UStorage
        | Some resume_deadline =>
            match validate_plan version_parses plan (action t) with
            | Err e => Err (UContract e)
            | Ok _ =>
                Ok (with_lease (lease_owner t) (Some resume_deadline)
                      (Some {| b_operation_id := pl_operation_id plan; b_operation := pl_operation plan;
                               b_from_version := pl_from_version plan; b_to_version := pl_to_version plan;
                               prepared_unix_seconds := now;
                               resume_deadline_unix_seconds := resume_deadline |})
                      (with_progress SRunning GAwaitingRestart now t), EStageReported)
            end
        end
      else if requires_restart (action t) && bool_decide (stage t = GAwaitingRestart) &&
              match restart t with Some b => binding_matches b plan | None => false end
      then Ok (with_progress (state t) (stage t) now t, ERestartReconciled)
      else Err UInvalidTransition
  | Succeeded res =>
      if match state t with SRunning | SCancelRequested => true | _ => false end && running_stage (stage t)
      then Ok (clear_task_lease
                 (with_outcome (if bool_decide (action t = Recover) then RRecovered else RNone)
                    (Some res) None (Some now) (with_progress SSucceeded GCompleted now t)), ESucceeded)
      else Err UInvalidTransition
  | Failed code recovery =>
      if match state t with SRunning | SCancelRequested => true | _ => false end
      then Ok (clear_task_lease
                 (with_outcome recovery None (Some code) (Some now) (with_progress SFailed GFailed now t)),
               EFailed)
      else Err UInvalidTransition
  | Cancelled =>
      if cancel_requested t &&
         (bool_decide (stage t = GClaimed) || safe_to_requeue_after_lease_loss (action t))
      then Ok (clear_task_lease
                 (with_outcome RNone None (Some CodeCancelled) (Some now)
                    (with_progress SCancelled GCancelled now t)), ECancelled)
      else Err UInvalidTransition
  end.

Definition valid_renew_transition (current requested : RemoteUpdateStage) (a : RemoteUpdateAction) : bool :=
  (bool_decide (current = GClaimed) &&
   (bool_decide (requested = GClaimed) || bool_decide (requested = execution_stage a))) ||
  (bool_decide (current = execution_stage a) &&
   (bool_decide (requested = current) ||
    (bool_decide (requested = GAwaitingRestart) && changes_installation a))) ||
  (bool_decide (current = GAwaitingRestart) && bool_decide (requested = current)).

(** ** Persistence *)

(** The UPDATE of [persist_task_after_report]: the columns it sets come from
    the task, the others stay as stored. *)
Definition persist_task_after_report (t : RemoteUpdateTask) (replay : option TerminalReportReplay) : tx unit :=
  c ← get;
  _ ← match lease_deadline_unix_seconds t with Some d => now_i64 d | None => mret 0 end;
  _ ← now_i64 (updated_unix_seconds t);
  _ ← match completed_unix_seconds t with Some d => now_i64 d | None => mret 0 end;
  match rows c !! task_id t with
  | None => fail UStorage
  | Some w =>
      let old := r_task w in
      write_row
        {| r_task :=
             {| schema_version := schema_version old; task_id := task_id old;
                target_client_id := target_client_id old; action := action old;
                state := state t; stage := stage t; recovery_state := recovery_state t;
                requested_by := requested_by old; idempotency_key := idempotency_key old;
                attempt := attempt old; cancel_requested := cancel_requested t;
                lease_owner := lease_owner t;
                lease_deadline_unix_seconds := lease_deadline_unix_seconds t;
                restart := restart t; result_ := result_ t; error_code := error_code t;
                created_unix_seconds := created_unix_seconds old;
                updated_unix_seconds := updated_unix_seconds t;
                completed_unix_seconds := completed_unix_seconds t |};
           r_fingerprint := r_fingerprint w;
           r_lease_token_sha256 := match lease_owner t with None => None | Some _ => r_lease_token_sha256 w end;
           r_replay := replay |}
  end.

Definition reconcile_lost_lease (now : Z) (t : RemoteUpdateTask) : tx unit :=
  let '(t, kind) := apply_lost_lease t now in
  _ ← persist_task_after_report t None;
  append_event t kind now.

Definition reconcile_expired_leases (target : option Z) (now : Z) : tx unit :=
  tasks ← expired_leased_tasks target now;
  for_each (reconcile_lost_lease now) tasks.

(** ** Leases and replays *)

(** [constant_time_equal(a.as_bytes(), b.as_bytes())]; the server has its own
    copy of the comparison. *)
Definition bytes_equal (a b : rstr) : bool := constant_time_equal (as_bytes a) (as_bytes b).

Definition authorize_lease (t : RemoteUpdateTask) (worker lease_token now : Z) : tx unit :=
  c ← get;
  if negb (leased_state (state t)) || negb (bool_decide (lease_owner t = Some worker)) then fail ULeaseConflict
  else if lease_over now t then fail ULeaseExpired
  else
    stored ← require (r_lease_token_sha256 <$> rows c !! task_id t) UStorage;
    if match stored with Some s => bytes_equal s (lease_token_sha256 lease_token) | None => false end
    then mret tt else fail ULeaseConflict.

Definition terminal_report_replay (id : Z) : tx (option TerminalReportReplay) :=
  c ← get; mret (rows c !! id ≫= r_replay).

Definition replay_holder (stored : TerminalReportReplay) (worker lease_token : Z) : bool :=
  (tr_worker_instance_id stored =? worker) &&
  bytes_equal (tr_lease_token_sha256 stored) (lease_token_sha256 lease_token).

Definition replay_terminal_report (t : RemoteUpdateTask) (q : RemoteUpdateReportRequest) (now : Z)
    : tx RemoteUpdateTask :=
  stored ← terminal_report_replay (task_id t);
  stored ← require stored UInvalidTransition;
  _ ← guard_tx (replay_holder stored (rp_worker_instance_id q) (rp_lease_token q)) ULeaseConflict;
  presented ← require (worker_report_sha256 (rp_report q)) UStorage;
  _ ← guard_tx (bytes_equal (tr_report_sha256 stored) presented) UInvalidTransition;
  _ ← append_event t EIdempotentReplay now;
  mret t.

Definition validate_terminal_reconcile (t : RemoteUpdateTask) (stored : TerminalReportReplay)
    (q : RemoteUpdateReconcileRequest) : tx unit :=
  _ ← guard_tx (replay_holder stored (rc_worker_instance_id q) (rc_lease_token q)) ULeaseConflict;
  guard_tx (negb (bool_decide (state t = SSucceeded) &&
                  negb (match result_ t with Some r => matches_restart_plan r (rc_plan q) | None => false end)))
    UInvalidTransition.

Definition validate_active_reconcile (t : RemoteUpdateTask) (q : RemoteUpdateReconcileRequest) : tx unit :=
  b ← require (restart t) UInvalidTransition;
  guard_tx (bool_decide (stage t = GAwaitingRestart) && binding_matches b (rc_plan q)) UInvalidTransition.

Definition validate_worker_report_transition (r : RemoteUpdateWorkerReport) (a : RemoteUpdateAction)
    (g : RemoteUpdateStage) (cancel : bool) : tx unit :=
  match validate_for_task version_parses r a g cancel with
  | Ok _ => mret tt
  | Err InvalidTransition => fail UInvalidTransition
  | Err e => fail (UContract e)
  end.

Definition validate_requested_by (value : rstr) : tx unit :=
  guard_tx (negb (bool_decide (value = []) || (MAX_REQUESTED_BY_BYTES <? str_len value) ||
                  any is_control value)) UInvalidRequester.

(** ** Operations of the catalog *)

Definition create (q : CreateRemoteUpdateTaskRequest) (by_ : rstr) (now : Z) : tx RemoteUpdateTask :=
  _ ← contract (validate_create q);
  _ ← validate_requested_by by_;
  let fingerprint := request_fingerprint q by_ in
  c ← get;
  _ ← guard_tx (bool_decide (cr_target_client_id q ∈ clients c)) UTargetNotFound;
  existing ← task_by_idempotency_key by_ (cr_idempotency_key q);
  match existing with
  | Some existing =>
      stored ← require (r_fingerprint <$> rows c !! task_id existing) UStorage;
      _ ← guard_tx (bool_decide (stored = fingerprint)) UIdempotencyConflict;
      _ ← reconcile_expired_leases (Some (target_client_id existing)) now;
      found ← task_by_id (task_id existing);
      existing ← require found UTaskNotFound;
      _ ← append_event existing EIdempotentReplay now;
      mret existing
  | None =>
      _ ← reconcile_expired_leases (Some (cr_target_client_id q)) now;
      c ← get;
      _ ← guard_tx (negb (any (λ w, (target_client_id (r_task w) =? cr_target_client_id q) &&
                                    is_active (state (r_task w))) (table c))) UTargetBusy;
      _ ← guard_tx (map_len (rows c) <? MAX_RETAINED_TASKS) UCapacityExceeded;
      id ← new_v4;
      let t := {| schema_version := REMOTE_UPDATE_CONTRACT_VERSION; task_id := id;
                  target_client_id := cr_target_client_id q; action := cr_action q;
                  state := SQueued; stage := GQueued; recovery_state := RNone; requested_by := by_;
                  idempotency_key := cr_idempotency_key q; attempt := 0; cancel_requested := false;
                  lease_owner := None; lease_deadline_unix_seconds := None; restart := None;
                  result_ := None; error_code := None; created_unix_seconds := now;
                  updated_unix_seconds := now; completed_unix_seconds := None |} in
      _ ← now_i64 now;
      c ← get;
      (* INSERT: the primary key must be new *)
      _ ← guard_tx (bool_decide (rows c !! id = None)) UStorage;
      _ ← write_row {| r_task := t; r_fingerprint := fingerprint; r_lease_token_sha256 := None; r_replay := None |};
      _ ← append_event t ECreated now;
      mret t
  end.

(** ORDER BY created_unix_seconds DESC, task_id DESC LIMIT. *)
Definition list_tasks (target : option Z) (requested_limit now : Z) : tx (list RemoteUpdateTask) :=
  _ ← match target with Some x => contract (validate_non_nil_uuid x) | None => mret tt end;
  let limit := Z.max 1 (Z.min MAX_TASK_LIST_LIMIT requested_limit) in
  _ ← reconcile_expired_leases target now;
  c ← get;
  traverse read_task
    (take (Z.to_nat limit) (order_by (λ v w, by_created w v) (filter (λ w, of_client target w = true) (table c)))).

Definition detail (id now : Z) : tx RemoteUpdateTaskDetail :=
  _ ← contract (validate_non_nil_uuid id);
  found ← task_by_id id;
  t ← require found UTaskNotFound;
  _ ← reconcile_expired_leases (Some (target_client_id t)) now;
  found ← task_by_id id;
  t ← require found UTaskNotFound;
  c ← get;
  let sorted := order_by (λ v w, ev_sequence v <? ev_sequence w) (events_of id c) in
  let evs := drop (length sorted - Z.to_nat MAX_EVENTS_PER_TASK) sorted in
  let d := {| d_task := t; d_events := evs |} in
  if is_ok (validate_detail version_parses d id) then mret d else fail UStorage.

Definition reconcile_after_restart (now : Z) : tx unit :=
  tasks ← active_leased_tasks None;
  for_each (λ t,
    let lease_valid :=
      match lease_deadline_unix_seconds t with Some deadline => now <? deadline | None => false end &&
      bool_decide (is_Some (lease_owner t)) in
    if lease_valid then append_event t ERestartReconciled now
    else reconcile_lost_lease now t) tasks.

Definition sweep (now : Z) : tx unit := reconcile_expired_leases None now.

Definition claim (target : Z) (q : RemoteUpdateClaimRequest) (now : Z) : tx (option RemoteUpdateClaim) :=
  _ ← contract (validate_non_nil_uuid target);
  _ ← contract (validate_claim_request q);
  _ ← reconcile_expired_leases (Some target) now;
  queued ← oldest_queued_task target;
  match queued with
  | None => mret None
  | Some t =>
      if MAX_CLAIM_ATTEMPTS <=? attempt t then
        let t := with_outcome RFailedClosed (result_ t) (Some CodeFailedClosed) (Some now)
                   (with_progress SFailed GFailed now t) in
        _ ← persist_task_after_report t None;
        _ ← append_event t EFailed now;
        mret None
      else
        lease_token ← new_v4;
        lease_deadline ← checked_deadline now (cq_requested_lease_seconds q);
        n ← require (checked_add U32_MAX (attempt t) 1) UStorage;
        let t := with_attempt n
                   (with_lease (Some (cq_worker_instance_id q)) (Some lease_deadline) None
                      (with_outcome RNone (result_ t) (error_code t) (completed_unix_seconds t)
                         (with_progress SClaimed GClaimed now t))) in
        _ ← now_i64 lease_deadline;
        _ ← now_i64 now;
        c ← get;
        w ← require (rows c !! task_id t) UStorage;
        _ ← guard_tx (bool_decide (state (r_task w) = SQueued)) UStorage;
        _ ← write_row
              {| r_task := with_attempt n
                   (with_lease (lease_owner t) (lease_deadline_unix_seconds t) (restart (r_task w))
                      (with_outcome (recovery_state t) (result_ (r_task w)) (error_code (r_task w))
                         (completed_unix_seconds (r_task w)) (with_progress (state t) (stage t) now (r_task w))));
                 r_fingerprint := r_fingerprint w;
                 r_lease_token_sha256 := Some (lease_token_sha256 lease_token); r_replay := r_replay w |};
        _ ← append_event t EClaimed now;
        mret (Some {| c_task := t; c_lease_token := lease_token;
                      c_lease_deadline_unix_seconds := lease_deadline |})
  end.

(** [task_by_id] restricted to the tasks of the calling client. *)
Definition own_task (target id : Z) : tx RemoteUpdateTask :=
  found ← task_by_id id;
  t ← require found UTaskNotFound;
  _ ← guard_tx (target_client_id t =? target) UTaskNotFound;
  mret t.

Definition renew (target id : Z) (q : RemoteUpdateLeaseRenewRequest) (now : Z)
    : tx RemoteUpdateLeaseRenewResponse :=
  _ ← contract (validate_non_nil_uuid target);
  _ ← contract (validate_non_nil_uuid id);
  t ← own_task target id;
  _ ← contract (validate_renew_request q (action t));
  _ ← authorize_lease t (rn_worker_instance_id q) (rn_lease_token q) now;
  _ ← guard_tx (valid_renew_transition (stage t) (rn_stage q) (action t)) UInvalidTransition;
  requested_deadline ← checked_deadline now (rn_requested_lease_seconds q);
  deadline ← (if bool_decide (stage t = GAwaitingRestart) || bool_decide (rn_stage q = GAwaitingRestart) then
                b ← require (restart t) UInvalidTransition;
                mret (Z.min requested_deadline (resume_deadline_unix_seconds b))
              else mret requested_deadline);
  _ ← guard_tx (negb (deadline <=? now)) ULeaseExpired;
  let s := if cancel_requested t then SCancelRequested
           else if bool_decide (rn_stage q = GClaimed) then SClaimed else SRunning in
  let t := with_lease (lease_owner t) (Some deadline) (restart t) (with_progress s (rn_stage q) now t) in
  _ ← now_i64 deadline;
  _ ← now_i64 now;
  c ← get;
  w ← require (rows c !! task_id t) UStorage;
  _ ← write_row
        {| r_task := with_lease (lease_owner (r_task w)) (Some deadline) (restart (r_task w))
                       (with_progress s (rn_stage q) now (r_task w));
           r_fingerprint := r_fingerprint w; r_lease_token_sha256 := r_lease_token_sha256 w;
           r_replay := r_replay w |};
  _ ← append_event t ELeaseRenewed now;
  mret {| rr_task_id := id; rr_lease_deadline_unix_seconds := deadline;
          rr_cancel_requested := cancel_requested t |}.

Definition report (target id : Z) (q : RemoteUpdateReportRequest) (now : Z) : tx RemoteUpdateTask :=
  _ ← contract (validate_non_nil_uuid target);
  _ ← contract (validate_non_nil_uuid id);
  t ← own_task target id;
  _ ← contract (validate_report_request version_parses q (action t));
  if is_terminal (state t) then replay_terminal_report t q now
  else
    _ ← validate_worker_report_transition (rp_report q) (action t) (stage t) (cancel_requested t);
    _ ← authorize_lease t (rp_worker_instance_id q) (rp_lease_token q) now;
    match apply_worker_report t (rp_report q) now with
    | Err e => fail e
    | Ok (t, kind) =>
        replay ← (if is_terminal (state t) then
                    sha ← require (worker_report_sha256 (rp_report q)) UStorage;
                    mret (Some {| tr_worker_instance_id := rp_worker_instance_id q;
                                  tr_lease_token_sha256 := lease_token_sha256 (rp_lease_token q);
                                  tr_report_sha256 := sha |})
                  else mret None);
        _ ← persist_task_after_report t replay;
        _ ← append_event t kind now;
        mret t
    end.

Definition reconcile (target id : Z) (q : RemoteUpdateReconcileRequest) (now : Z)
    : tx RemoteUpdateReconcileResponse :=
  _ ← contract (validate_non_nil_uuid target);
  _ ← contract (validate_non_nil_uuid id);
  _ ← contract (validate_reconcile_request version_parses q);
  found ← task_by_id id;
  t ← require found UTaskNotFound;
  _ ← guard_tx ((target_client_id t =? target) && bool_decide (action t = rc_action q)) UTaskNotFound;
  _ ← reconcile_expired_leases (Some target) now;
  found ← task_by_id id;
  t ← require found UTaskNotFound;
  if is_terminal (state t) then
    stored ← terminal_report_replay id;
    stored ← require stored ULeaseConflict;
    _ ← validate_terminal_reconcile t stored q;
    mret {| rs_state := ReconcileTerminal; rs_task := t |}
  else
    _ ← authorize_lease t (rc_worker_instance_id q) (rc_lease_token q) now;
    _ ← validate_active_reconcile t q;
    mret {| rs_state := ReconcileActive; rs_task := t |}.

Definition cancel (id : Z) (confirmation : rstr) (now : Z) : tx RemoteUpdateTask :=
  _ ← contract (validate_non_nil_uuid id);
  _ ← contract (validate_cancel confirmation);
  found ← task_by_id id;
  t ← require found UTaskNotFound;
  _ ← reconcile_expired_leases (Some (target_client_id t)) now;
  found ← task_by_id id;
  t ← require found UTaskNotFound;
  if is_terminal (state t) || cancel_requested t then mret t
  else
    let '(t, kind) :=
      if bool_decide (state t = SQueued) then
        (clear_task_lease (with_outcome RNone (result_ t) (Some CodeCancelled) (Some now)
                             (with_progress SCancelled GCancelled now (with_cancel t))), ECancelled)
      else (with_progress SCancelRequested (stage t) now (with_cancel t), ECancelRequested) in
    _ ← persist_task_after_report t None;
    _ ← append_event t kind now;
    mret t.

(** Solvers that would otherwise try the digests as hypotheses. *)
Ltac forget_digests :=
  clear dependent sha256; clear dependent report_to_vec.
Ltac solve_task := forget_digests; naive_solver lia.

(** ** The transition system of one task *)

Abbreviation valid t := (validate_task version_parses t = Ok tt).

(** Columns that no transition changes. *)
Definition same_identity (t t' : RemoteUpdateTask) : Prop :=
  schema_version t' = schema_version t ∧ task_id t' = task_id t ∧
  target_client_id t' = target_client_id t ∧ action t' = action t ∧ requested_by t' = requested_by t ∧
  idempotency_key t' = idempotency_key t ∧ created_unix_seconds t' = created_unix_seconds t.

Definition claimed (worker deadline now : Z) (t : RemoteUpdateTask) : RemoteUpdateTask :=
  with_attempt (attempt t + 1)
    (with_lease (Some worker) (Some deadline) None
       (with_outcome RNone (result_ t) (error_code t) (completed_unix_seconds t)
          (with_progress SClaimed GClaimed now t))).
Definition exhausted (now : Z) (t : RemoteUpdateTask) : RemoteUpdateTask :=
  with_outcome RFailedClosed (result_ t) (Some CodeFailedClosed) (Some now) (with_progress SFailed GFailed now t).
Definition renewed (g : RemoteUpdateStage) (deadline now : Z) (t : RemoteUpdateTask) : RemoteUpdateTask :=
  with_lease (lease_owner t) (Some deadline) (restart t)
    (with_progress (if cancel_requested t then SCancelRequested
                    else if bool_decide (g = GClaimed) then SClaimed else SRunning) g now t).
Definition cancelled (now : Z) (t : RemoteUpdateTask) : RemoteUpdateTask :=
  if bool_decide (state t = SQueued) then
    clear_task_lease (with_outcome RNone (result_ t) (Some CodeCancelled) (Some now)
                        (with_progress SCancelled GCancelled now (with_cancel t)))
  else with_progress SCancelRequested (stage t) now (with_cancel t).

(** One step of a stored task at time [now]; the premises are what the
    operations check before they write. *)
Inductive task_step (now : Z) (t : RemoteUpdateTask) : RemoteUpdateTask → Prop :=
  | step_lost_lease :
      valid t → leased_state (state t) = true → lease_over now t = true →
      task_step now t (apply_lost_lease t now).1
  | step_claim worker deadline :
      valid t → state t = SQueued → attempt t < MAX_CLAIM_ATTEMPTS → worker ≠ 0 →
      now < deadline ≤ now + REMOTE_UPDATE_MAX_LEASE_SECONDS →
      task_step now t (claimed worker deadline now t)
  | step_exhausted :
      valid t → state t = SQueued → MAX_CLAIM_ATTEMPTS ≤ attempt t →
      task_step now t (exhausted now t)
  | step_renew g seconds deadline :
      valid t → leased_state (state t) = true → lease_over now t = false →
      valid_renew_transition (stage t) g (action t) = true → valid_for_active_lease g (action t) = true →
      REMOTE_UPDATE_MIN_LEASE_SECONDS ≤ seconds ≤ REMOTE_UPDATE_MAX_LEASE_SECONDS →
      (if bool_decide (stage t = GAwaitingRestart) || bool_decide (g = GAwaitingRestart)
       then ∃ b, restart t = Some b ∧ deadline = Z.min (now + seconds) (resume_deadline_unix_seconds b)
       else deadline = now + seconds) →
      now < deadline →
      task_step now t (renewed g deadline now t)
  | step_report r t' kind :
      valid t → leased_state (state t) = true → lease_over now t = false →
      validate_for_task version_parses r (action t) (stage t) (cancel_requested t) = Ok tt →
      apply_worker_report t r now = Ok (t', kind) →
      task_step now t t'
  | step_cancel :
      valid t → is_terminal (state t) = false → cancel_requested t = false →
      (leased_state (state t) = true → lease_over now t = false) →
      task_step now t (cancelled now t).

(** A task as [create] stores it. *)
Definition fresh_task (now : Z) (t : RemoteUpdateTask) : Prop :=
  valid t ∧ state t = SQueued ∧ attempt t = 0 ∧ created_unix_seconds t = now ∧ updated_unix_seconds t = now.

(** Every stored task of [c] is still stored in [c'], after some steps, and new
    tasks are fresh. *)
Definition keyed (c : catalog) : Prop := map_Forall (λ id w, task_id (r_task w) = id) (rows c).
Record evolves (now : Z) (c c' : catalog) : Prop := {
  ev_kept : ∀ id w, rows c !! id = Some w →
              ∃ w', rows c' !! id = Some w' ∧ rtc (task_step now) (r_task w) (r_task w');
  ev_new : ∀ id w', rows c' !! id = Some w' → rows c !! id = None →
              ∃ t0, fresh_task now t0 ∧ rtc (task_step now) t0 (r_task w');
  ev_keyed : keyed c → keyed c';
}.

Lemma evolves_refl now c : evolves now c c.
Proof. split; [|congruence|done]. intros id w Hw. by exists w. Qed.

Lemma evolves_rows now c c' : rows c' = rows c → evolves now c c'.
Proof. intros E. split; unfold keyed; rewrite E; [|congruence|done]. intros id w Hw. by exists w. Qed.

Lemma evolves_trans now c1 c2 c3 : evolves now c1 c2 → evolves now c2 c3 → evolves now c1 c3.
Proof.
  intros [K1 N1 I1] [K2 N2 I2]. split; [| |by auto].
  - intros id w Hw. destruct (K1 id w Hw) as (w2 & Hw2 & S1). destruct (K2 id w2 Hw2) as (w3 & Hw3 & S2).
    exists w3. split; [done|]. by etransitivity.
  - intros id w3 Hw3 Hnone. destruct (rows c2 !! id) as [w2|] eqn:Hw2; [|by eapply N2].
    destruct (N1 id w2 Hw2 Hnone) as (t0 & Hf & S1). destruct (K2 id w2 Hw2) as (w3' & Hw3' & S2).
    rewrite Hw3 in Hw3'. injection Hw3' as <-. exists t0. split; [done|]. by etransitivity.
Qed.

Lemma write_row_Ok w c u c' :
  write_row w c = Ok (u, c') → rows c' = <[task_id (r_task w) := w]> (rows c) ∧ schema_checks w = true.
Proof.
  unfold write_row. intros H. tx_step H. destruct (_ && _) eqn:E in H; [|done]. bool_prop.
  unfold put in H. injection H as <- <-. by split.
Qed.

Lemma new_v4_Ok c a c' : new_v4 c = Ok (a, c') → rows c' = rows c ∧ a = uuid_v4 (drawn c).
Proof. unfold new_v4. intros H. tx_steps H. unfold put in *. simplify_eq. done. Qed.

Lemma append_event_Ok t kind now c u c' : append_event t kind now c = Ok (u, c') → rows c' = rows c.
Proof.
  unfold append_event. intros H. tx_step H.
  destruct (match match kind with ELeaseRenewed => _ | _ => _ end with Some _ => _ | None => _ end); [by tx_step H|].
  destruct (MAX_EVENTS_PER_TASK <=? _); [done|]. tx_steps H. unfold put in *. simplify_eq.
  by match goal with Hv : new_v4 _ = _ |- _ => apply new_v4_Ok in Hv as [-> _] end.
Qed.

Lemma read_task_Ok w c t c' : read_task w c = Ok (t, c') → t = r_task w ∧ c' = c ∧ valid (r_task w).
Proof.
  unfold read_task, validate_loaded_task. intros H.
  destruct (validate_task version_parses (r_task w)) as [[]|]; cbn [is_ok] in H.
  - destruct (_ && (_ && true)); [|done]. by tx_step H.
  - rewrite !andb_false_r in H. done.
Qed.

Lemma task_by_id_Ok id c o c' :
  task_by_id id c = Ok (o, c') →
  c' = c ∧ match o with
           | Some t => ∃ w, rows c !! id = Some w ∧ t = r_task w ∧ valid t
           | None => rows c !! id = None
           end.
Proof.
  unfold task_by_id. intros H. tx_step H. destruct (rows c !! id) as [w|] eqn:Hw; [|by tx_step H].
  tx_step H. tx_step H. apply read_task_Ok in H0 as (-> & -> & Hv). split; [done|]. by exists w.
Qed.

Lemma own_task_Ok target id c t c' :
  own_task target id c = Ok (t, c') →
  c' = c ∧ target_client_id t = target ∧ ∃ w, rows c !! id = Some w ∧ t = r_task w ∧ valid t.
Proof.
  unfold own_task. intros H. tx_steps H. apply task_by_id_Ok in H0 as [-> Ho]. subst. bool_prop. done.
Qed.

(** Persisting a transition of the stored task writes exactly that task. *)
Lemma persist_Ok t replay c u c' w :
  persist_task_after_report t replay c = Ok (u, c') →
  rows c !! task_id t = Some w → same_identity (r_task w) t → attempt t = attempt (r_task w) →
  rows c' = <[task_id t := {| r_task := t; r_fingerprint := r_fingerprint w;
                              r_lease_token_sha256 := match lease_owner t with
                                                      | None => None
                                                      | Some _ => r_lease_token_sha256 w
                                                      end;
                              r_replay := replay |}]> (rows c).
Proof.
  unfold persist_task_after_report. intros H Hw (E1 & E2 & E3 & E4 & E5 & E6 & E7) E8. tx_step H.
  apply tx_bind_Ok in H as (d & c1 & H1 & H). apply tx_bind_Ok in H as (v & c2 & H2 & H).
  apply tx_bind_Ok in H as (e & c3 & H3 & H).
  assert (c1 = c) as ->.
  { destruct (lease_deadline_unix_seconds t); [by apply now_i64_Ok in H1 as (_ & -> & _)|by tx_step H1]. }
  apply now_i64_Ok in H2 as (_ & -> & _).
  assert (c3 = c) as ->.
  { destruct (completed_unix_seconds t); [by apply now_i64_Ok in H3 as (_ & -> & _)|by tx_step H3]. }
  rewrite Hw in H. apply write_row_Ok in H as [-> _]. cbn [r_task task_id]. rewrite <- E2.
  f_equal. f_equal. rewrite <- E1, <- E3, <- E4, <- E5, <- E6, <- E7, <- E8. by destruct t.
Qed.

(** A write that is one step of the stored task. *)
Lemma evolves_insert now c c' id w w' :
  rows c !! id = Some w → rows c' = <[id := w']> (rows c) → task_step now (r_task w) (r_task w') →
  task_id (r_task w') = task_id (r_task w) → evolves now c c'.
Proof.
  intros Hw Hc Hstep Hid. split.
  - intros j v Hv. rewrite Hc. destruct (decide (j = id)) as [->|Hne].
    + rewrite lookup_insert_eq. exists w'. split; [done|]. simplify_eq. by apply rtc_once.
    + rewrite lookup_insert_ne by done. by exists v.
  - intros j v Hv Hnone. rewrite Hc, lookup_insert_ne in Hv by congruence. congruence.
  - intros Hk j v. rewrite Hc. intros [[<- <-]|[Hne Hv]]%lookup_insert_Some; [rewrite Hid; by apply Hk|by apply Hk].
Qed.

Lemma apply_lost_lease_identity t now :
  same_identity t (apply_lost_lease t now).1 ∧ attempt (apply_lost_lease t now).1 = attempt t.
Proof. unfold apply_lost_lease. by repeat case_match. Qed.

Lemma same_identity_refl t : same_identity t t.
Proof. done. Qed.
Lemma same_identity_trans t1 t2 t3 : same_identity t1 t2 → same_identity t2 t3 → same_identity t1 t3.
Proof. unfold same_identity. intuition congruence. Qed.

(** What an operation does to the row of one task. *)
Record one_row_step (now id : Z) (t' : RemoteUpdateTask) (c c' : catalog) : Prop := {
  or_evolves : evolves now c c';
  or_written : ∃ w', rows c' !! id = Some w' ∧ r_task w' = t';
  or_others : ∀ j, j ≠ id → rows c' !! j = rows c !! j;
}.

(** A transition of the stored task, persisted with its event. *)
Lemma persist_step now t t' replay kind c c1 c' u v w :
  rows c !! task_id t = Some w → r_task w = t → task_step now t t' →
  same_identity t t' → attempt t' = attempt t →
  persist_task_after_report t' replay c = Ok (u, c1) → append_event t' kind now c1 = Ok (v, c') →
  one_row_step now (task_id t) t' c c'.
Proof.
  intros Hw Ht Hstep Hid Hat Hp He. apply append_event_Ok in He. pose proof Hid as (_ & Eid & _).
  pose proof (persist_Ok t' replay c u c1 w Hp) as Hrows. rewrite Eid, Ht in Hrows.
  specialize (Hrows Hw Hid Hat). rewrite <- He in Hrows. split.
  - eapply (evolves_insert now c c'); [exact Hw|exact Hrows|by cbn; rewrite Ht|cbn; by rewrite Ht].
  - rewrite Hrows, lookup_insert_eq. by eexists.
  - intros j Hne. by rewrite Hrows, lookup_insert_ne.
Qed.

Lemma reconcile_lost_lease_step now t c u c' w :
  rows c !! task_id t = Some w → r_task w = t → valid t → leased_state (state t) = true →
  lease_over now t = true → reconcile_lost_lease now t c = Ok (u, c') →
  one_row_step now (task_id t) (apply_lost_lease t now).1 c c'.
Proof.
  intros Hw Ht Hv Hl Hov. unfold reconcile_lost_lease. destruct (apply_lost_lease t now) as [t' kind] eqn:E.
  pose proof (apply_lost_lease_identity t now) as [Hid Hat]. rewrite E in Hid, Hat. cbn [fst] in *.
  intros H. apply tx_bind_Ok in H as (v & c1 & Hp & He).
  eapply (persist_step now t t'); try done.
  replace t' with (apply_lost_lease t now).1 by (by rewrite E). by constructor.
Qed.

Lemma insert_by_perm {A} (lt : A → A → bool) x l : insert_by lt x l ≡ₚ x :: l.
Proof.
  induction l as [|y l IH]; cbn [insert_by]; [done|]. case_match; [|done]. rewrite IH. apply Permutation_swap.
Qed.
Lemma order_by_perm {A} (lt : A → A → bool) l : order_by lt l ≡ₚ l.
Proof. induction l as [|x l IH]; [done|]. unfold order_by in *. cbn [foldr]. by rewrite insert_by_perm, IH. Qed.

Lemma elem_of_table c w : keyed c → w ∈ table c ↔ rows c !! task_id (r_task w) = Some w.
Proof.
  intros Hk. unfold table. rewrite list_elem_of_fmap. split.
  - intros ([id v] & -> & Hin). apply elem_of_map_to_list in Hin. cbn. by rewrite (Hk _ _ Hin).
  - intros Hw. exists (task_id (r_task w), w). split; [done|]. by apply elem_of_map_to_list.
Qed.

Lemma table_ids_NoDup c : keyed c → NoDup ((λ w, task_id (r_task w)) <$> table c).
Proof.
  intros Hk. unfold table. rewrite <- list_fmap_compose.
  replace (((λ w, task_id (r_task w)) ∘ snd) <$> map_to_list (rows c)) with (map_to_list (rows c)).*1;
    [apply NoDup_fst_map_to_list|].
  apply list_fmap_ext. intros i [id w] Hi. cbn. symmetry. apply Hk.
  apply elem_of_map_to_list. by eapply list_elem_of_lookup_2.
Qed.

Lemma traverse_read_Ok l c ts c' :
  traverse read_task l c = Ok (ts, c') → c' = c ∧ ts = r_task <$> l ∧ Forall (λ w, valid (r_task w)) l.
Proof.
  revert ts c'. induction l as [|w l IH]; intros ts c' H; cbn [traverse] in H.
  { tx_step H. by split_and!. }
  apply tx_bind_Ok in H as (t & c1 & H1 & H). apply read_task_Ok in H1 as (-> & -> & Hv).
  apply tx_bind_Ok in H as (ts' & c2 & H2 & H). destruct (IH ts' c2 H2) as (-> & -> & HF).
  apply ret_Ok in H as [<- <-]. split_and!; [done..|]. by constructor.
Qed.

(** [tasks] are the stored tasks of some rows, each row at most once. *)
Definition stored_tasks (c : catalog) (tasks : list RemoteUpdateTask) : Prop :=
  NoDup (task_id <$> tasks) ∧
  ∀ t, t ∈ tasks → valid t ∧ leased_state (state t) = true ∧ ∃ w, rows c !! task_id t = Some w ∧ r_task w = t.

Lemma selected_stored (P : row → bool) lt c ts c' :
  keyed c → (∀ w, P w = true → leased_state (state (r_task w)) = true) →
  traverse read_task (order_by lt (filter (λ w, P w = true) (table c))) c = Ok (ts, c') →
  c' = c ∧ stored_tasks c ts ∧ (∀ w, w ∈ table c → r_task w ∈ ts ↔ P w = true).
Proof.
  intros Hk HP H. apply traverse_read_Ok in H as (-> & -> & HF). split; [done|].
  assert (∀ w, w ∈ order_by lt (filter (λ w, P w = true) (table c)) ↔ P w = true ∧ w ∈ table c) as Hin.
  { intros w. by rewrite order_by_perm, list_elem_of_filter. }
  split; [split|].
  - rewrite order_by_perm. rewrite <- list_fmap_compose.
    eapply sublist_NoDup; [exact (table_ids_NoDup c Hk)|].
    apply fmap_sublist, sublist_filter.
  - intros t Ht. apply list_elem_of_fmap in Ht as (w & -> & Hw). rewrite Forall_forall in HF.
    pose proof (HF w Hw) as Hv. apply Hin in Hw as [HPw Hw]. apply elem_of_table in Hw; [|done].
    split_and!; [done|by apply HP|]. by exists w.
  - intros w Hw. split; [|intros HPw; apply list_elem_of_fmap_2; by apply Hin].
    intros (v & Ev & [HPv Hv]%Hin)%list_elem_of_fmap. apply elem_of_table in Hw, Hv; [|done..].
    rewrite Ev, Hv in Hw. by injection Hw as <-.
Qed.

(** A loop over distinct stored tasks in which each turn touches its own row. *)
Lemma for_each_stored now (f : RemoteUpdateTask → tx unit) (Q : RemoteUpdateTask → Prop) ts c u c' :
  (∀ t c u c' w, t ∈ ts → rows c !! task_id t = Some w → r_task w = t → valid t →
     leased_state (state t) = true → f t c = Ok (u, c') → ∃ t', Q t' ∧ one_row_step now (task_id t) t' c c') →
  stored_tasks c ts → for_each f ts c = Ok (u, c') →
  evolves now c c' ∧ (∀ id, id ∉ task_id <$> ts → rows c' !! id = rows c !! id) ∧
  (∀ t, t ∈ ts → ∃ w', rows c' !! task_id t = Some w' ∧ Q (r_task w')).
Proof.
  revert c. induction ts as [|t ts IH]; intros c Hf [Hnd Hst] H; cbn [for_each] in H.
  { tx_step H. split_and!; [apply evolves_refl|done|by intros t Ht%elem_of_nil]. }
  rewrite fmap_cons in Hnd. apply NoDup_cons in Hnd as [Hnin Hnd].
  apply tx_bind_Ok in H as (v & c1 & H1 & H).
  destruct (Hst t) as (Hv & Hl & w & Hw & Ht); [by apply elem_of_cons; left|].
  destruct (Hf t c v c1 w) as (t' & HQ & [He (w1 & Hw1 & Ht1) Hother]); [by apply elem_of_cons; left|done..|].
  destruct (IH c1) as (He' & Hother' & Hdone); [by intros; eapply Hf; [apply elem_of_cons; right|..]| |done|].
  { split; [done|]. intros s Hs. destruct (Hst s) as (? & ? & w' & Hw' & ?); [by apply elem_of_cons; right|].
    split_and!; [done|done|]. exists w'. split; [|done]. rewrite Hother; [done|].
    intros Eq. apply Hnin. rewrite <- Eq. by apply list_elem_of_fmap_2. }
  split_and!; [by eapply evolves_trans| |].
  - intros id Hid. rewrite fmap_cons, not_elem_of_cons in Hid. destruct Hid. by rewrite Hother', Hother.
  - intros s [->|Hs]%elem_of_cons; [|by apply Hdone].
    exists w1. rewrite Ht1. split; [|done]. by rewrite Hother'.
Qed.

Lemma lost_lease_released t now : leased_state (state (apply_lost_lease t now).1) = false.
Proof. unfold apply_lost_lease. by repeat case_match. Qed.

Lemma lost_leases_evolve now ts c u c' :
  stored_tasks c ts → (∀ t, t ∈ ts → lease_over now t = true) →
  for_each (reconcile_lost_lease now) ts c = Ok (u, c') →
  evolves now c c' ∧ (∀ id, id ∉ task_id <$> ts → rows c' !! id = rows c !! id) ∧
  (∀ t, t ∈ ts → ∃ w', rows c' !! task_id t = Some w' ∧ leased_state (state (r_task w')) = false).
Proof.
  intros Hst Hov H. apply (for_each_stored now _ (λ t, leased_state (state t) = false) ts c u c') in H; try done.
  intros t c1 v c2 w Hin Hw Ht Hv Hl H1. eexists. split; [apply lost_lease_released|].
  eapply reconcile_lost_lease_step; try done. by apply Hov.
Qed.

Lemma reconcile_expired_evolves target now c u c' :
  keyed c → reconcile_expired_leases target now c = Ok (u, c') →
  evolves now c c' ∧
  (∀ id w, rows c' !! id = Some w → of_client target w = true → leased_state (state (r_task w)) = true →
     lease_over now (r_task w) = false) ∧
  (∀ id, rows c !! id = None → rows c' !! id = None).
Proof.
  intros Hk. unfold reconcile_expired_leases, expired_leased_tasks. intros H.
  apply tx_bind_Ok in H as (ts & c1 & H1 & H). apply tx_bind_Ok in H1 as (n & c2 & Hn & H1).
  apply now_i64_Ok in Hn as (-> & -> & Hi). apply tx_bind_Ok in H1 as (c3 & c4 & Hg & H1).
  apply get_Ok in Hg as [-> ->].
  apply selected_stored in H1 as (-> & Hst & Hall); [|done|intros w Hw; by bool_prop].
  destruct (lost_leases_evolve now ts c u c' Hst) as (He & Hother & Hdone); [|done|].
  { intros t Ht. destruct (proj2 Hst t Ht) as (_ & _ & w & Hw & <-). apply Hall in Ht; [by bool_prop|].
    by apply elem_of_table. }
  split; [done|]. split; cycle 1.
  { intros id Hn. rewrite Hother; [done|]. intros (t & -> & Ht)%list_elem_of_fmap.
    apply Hst in Ht as (_ & _ & w & Hw & _). congruence. }
  intros id w Hw Hcl Hl. assert (keyed c') as Hk' by (by apply He).
  pose proof (Hk' _ _ Hw) as Hid. cbn in Hid. subst id.
  destruct (decide (task_id (r_task w) ∈ task_id <$> ts)) as [Hin|Hnin].
  - apply list_elem_of_fmap in Hin as (t & Eq & Ht). destruct (Hdone t Ht) as (w' & Hw' & Hl').
    rewrite <- Eq in Hw'. congruence.
  - apply not_true_is_false. intros Hover. apply Hnin. apply list_elem_of_fmap_2.
    rewrite Hother in Hw by done. apply Hall; [by apply elem_of_table|]. by rewrite Hcl, Hl, Hover.
Qed.

(** ** Validity of a task, by parts *)

Definition identity_ok (t : RemoteUpdateTask) : Prop :=
  schema_version t = REMOTE_UPDATE_CONTRACT_VERSION ∧ task_id t ≠ 0 ∧ target_client_id t ≠ 0 ∧
  validate_idempotency_key (idempotency_key t) = Ok tt ∧ requested_by t ≠ [] ∧
  str_len (requested_by t) ≤ REMOTE_UPDATE_MAX_REQUESTED_BY_BYTES ∧
  any is_control (requested_by t) = false ∧ created_unix_seconds t ≠ 0.
Definition times_ok (t : RemoteUpdateTask) : Prop :=
  created_unix_seconds t ≤ updated_unix_seconds t ∧
  ∀ completed, completed_unix_seconds t = Some completed → updated_unix_seconds t ≤ completed.
Definition lease_ok (t : RemoteUpdateTask) : Prop :=
  lease_owner t ≠ Some 0 ∧ lease_deadline_unix_seconds t ≠ Some 0.
Definition binding_ok (t : RemoteUpdateTask) : Prop :=
  (stage t = GAwaitingRestart ↔ is_Some (restart t)) ∧
  ∀ b, restart t = Some b →
    validate_binding version_parses b (action t) (lease_deadline_unix_seconds t)
      (Some (updated_unix_seconds t)) = Ok tt.

Lemma non_nil_Ok v : validate_non_nil_uuid v = Ok tt ↔ v ≠ 0.
Proof. unfold validate_non_nil_uuid. destruct (Z.eqb_spec v 0); by split. Qed.

Lemma option_test_false (o : option Z) f :
  match o with Some v => f v | None => false end = false ↔ ∀ v, o = Some v → f v = false.
Proof. destruct o; split; [by intros H v [= <-]|by intros H; apply H|by intros _ v|done]. Qed.
Lemma option_check_Ok {A} (o : option A) (f : A → result RemoteUpdateContractError unit) :
  match o with Some v => f v | None => Ok tt end = Ok tt ↔ ∀ v, o = Some v → f v = Ok tt.
Proof. destruct o; split; [by intros H v [= <-]|by intros H; apply H|by intros _ v|done]. Qed.
Lemma restart_stage_eqb (t : RemoteUpdateTask) :
  bool_decide (stage t = GAwaitingRestart) = negb (no_restart t) ↔
  (stage t = GAwaitingRestart ↔ is_Some (restart t)).
Proof.
  unfold no_restart. rewrite is_Some_alt. case_bool_decide; destruct (restart t); cbn; solve_task.
Qed.

Lemma validate_task_parts t :
  valid t ↔ identity_ok t ∧ attempt t ≤ MAX_CLAIM_ATTEMPTS ∧ times_ok t ∧ lease_ok t ∧ binding_ok t ∧
            state_consistent version_parses t = true.
Proof.
  unfold validate_task, identity_ok, times_ok, lease_ok, binding_ok.
  change REMOTE_UPDATE_MAX_CLAIM_ATTEMPTS with MAX_CLAIM_ATTEMPTS.
  rewrite !if_Err_Ok, !bind_unit_Ok, !if_Err_Ok, !bind_unit_Ok, !if_Err_Ok, !bind_unit_Ok, !if_Err_Ok.
  rewrite if_Ok_Err, !non_nil_Ok, !orb_false_iff, !negb_false_iff, !bool_decide_eq_false, Z.eqb_eq, !Z.ltb_ge,
    Z.eqb_neq, eqb_true_iff, restart_stage_eqb, option_test_false, !option_check_Ok.
  setoid_rewrite Z.ltb_ge. setoid_rewrite non_nil_Ok.
  assert ((∀ v, lease_owner t = Some v → v ≠ 0) ↔ lease_owner t ≠ Some 0) as ->
    by (split; [intros H E; by apply (H 0)|intros H v Hv ->; done]).
  split; intros; destruct_and!; split_and!; done.
Qed.
(** What validity says of a leased task. *)
Record leased_facts (t : RemoteUpdateTask) (owner deadline : Z) : Prop := {
  lf_owner : lease_owner t = Some owner;
  lf_deadline : lease_deadline_unix_seconds t = Some deadline;
  lf_result : result_ t = None;
  lf_error : error_code t = None;
  lf_completed : completed_unix_seconds t = None;
  lf_cancel : cancel_requested t = bool_decide (state t = SCancelRequested);
  lf_stage : (stage t = GClaimed ∧ state t ≠ SRunning) ∨
             (stage t = execution_stage (action t) ∧ state t ≠ SClaimed) ∨
             (stage t = GAwaitingRestart ∧ requires_restart (action t) = true ∧ state t ≠ SClaimed);
}.

Lemma valid_leased t :
  valid t → leased_state (state t) = true → ∃ owner deadline, leased_facts t owner deadline.
Proof.
  rewrite validate_task_parts. intros (_ & _ & _ & _ & _ & Hs) Hl. unfold state_consistent in Hs.
  assert (∃ owner deadline, lease_owner t = Some owner ∧ lease_deadline_unix_seconds t = Some deadline)
    as (o & d & Ho & Hd).
  { unfold lease_present in Hs. destruct (state t); try done; bool_prop;
      repeat match goal with H : is_Some _ |- _ => destruct H as [? ?] end; eauto. }
  exists o, d. unfold active_payload_empty in Hs.
  destruct (state t) eqn:E; try done; bool_prop; split; try done; rewrite ?E;
    rewrite ?bool_decide_eq_true_2, ?bool_decide_eq_false_2 by done; try done.
  all: repeat (match goal with H : _ ∨ _ |- _ => destruct H end; bool_prop);
    solve [by left | by right; left | by right; right].
Qed.

Lemma execution_not_special a :
  execution_stage a ≠ GAwaitingRestart ∧ execution_stage a ≠ GClaimed ∧ running_stage (execution_stage a) = true.
Proof. by destruct a. Qed.

(** A valid task has a restart binding exactly while it awaits the restart, and
    then the lease ends at the resume deadline. *)
Lemma valid_binding t b :
  valid t → restart t = Some b →
  stage t = GAwaitingRestart ∧ requires_restart (action t) = true ∧
  lease_deadline_unix_seconds t = Some (resume_deadline_unix_seconds b).
Proof.
  rewrite validate_task_parts. intros (_ & _ & _ & _ & [Hiff Hb] & _) Hr.
  split; [apply Hiff; by eexists|]. specialize (Hb b Hr). unfold validate_binding in Hb.
  rewrite bind_unit_Ok, if_Err_Ok in Hb. destruct Hb as (Hp & Hb & _). bool_prop. split; [|done].
  unfold validate_plan in Hp. by destruct (validate_non_nil_uuid _), (action t).
Qed.

(** ** Every transition keeps the task readable, but for one *)

(** The defect of a lease renewed while the task awaits its restart: the lease
    ends before the resume deadline of the binding. *)
Definition shortened_lease (t : RemoteUpdateTask) : Prop :=
  ∃ b d, stage t = GAwaitingRestart ∧ restart t = Some b ∧ lease_deadline_unix_seconds t = Some d ∧
    d < resume_deadline_unix_seconds b ∧
    valid (with_lease (lease_owner t) (Some (resume_deadline_unix_seconds b)) (restart t) t).

Lemma shortened_lease_invalid t : shortened_lease t → ¬ valid t.
Proof.
  intros (b & d & _ & Hb & Hd & Hlt & _) Hv. apply (valid_binding t b) in Hv as (_ & _ & E); [|done].
  rewrite Hd in E. injection E as ->. lia.
Qed.

Lemma identity_ok_same t t' : same_identity t t' → identity_ok t → identity_ok t'.
Proof. by intros (E1 & E2 & E3 & E4 & E5 & E6 & E7); unfold identity_ok; rewrite E1, E2, E3, E5, E6, E7. Qed.

Ltac task_cbn := cbn [schema_version task_id target_client_id action state stage recovery_state requested_by
  idempotency_key attempt cancel_requested lease_owner lease_deadline_unix_seconds restart result_ error_code
  created_unix_seconds updated_unix_seconds completed_unix_seconds with_lease with_progress with_outcome
  with_cancel with_attempt clear_task_lease] in *.

(** The clock of a transition. *)
Record at_time (now : Z) (t t' : RemoteUpdateTask) : Prop := {
  at_after : updated_unix_seconds t ≤ now;
  at_updated : updated_unix_seconds t' = now;
  at_completed : completed_unix_seconds t' = None ∨ completed_unix_seconds t' = Some now;
}.

Lemma valid_next now t t' :
  valid t → same_identity t t' → at_time now t t' → attempt t' ≤ MAX_CLAIM_ATTEMPTS → lease_ok t' →
  binding_ok t' → state_consistent version_parses t' = true → valid t'.
Proof.
  rewrite !validate_task_parts. intros (Hi & _ & Ht & _) Hsame [Hle Hu Hc] Ha Hl Hb Hs.
  pose proof Hsame as (_ & _ & _ & _ & _ & _ & Ecr). split_and!; [by eapply identity_ok_same|done| |done..].
  destruct Ht as [Ht _]. split; [lia|]. destruct Hc as [->| ->]; [done|]. intros ? [= <-]. lia.
Qed.

Lemma binding_ok_none t : restart t = None → stage t ≠ GAwaitingRestart → binding_ok t.
Proof. intros Hr Hg. split; rewrite Hr; [|done]. split; [done|]. by intros [? ?]. Qed.

Lemma valid_attempt t : valid t → attempt t ≤ MAX_CLAIM_ATTEMPTS.
Proof. rewrite validate_task_parts. by intros (_ & H & _). Qed.
Lemma valid_lease_ok t : valid t → lease_ok t.
Proof. rewrite validate_task_parts. by intros (_ & _ & _ & H & _). Qed.

(** Ends of a lease: nothing is left of it. *)
Lemma valid_released now t t' :
  valid t → same_identity t t' → at_time now t t' → attempt t' = attempt t → lease_owner t' = None →
  lease_deadline_unix_seconds t' = None → restart t' = None → stage t' ≠ GAwaitingRestart →
  state_consistent version_parses t' = true → valid t'.
Proof.
  intros Hv Hsame Ht Ha Ho Hd Hr Hg Hs. apply (valid_next now t t'); [done..| | | |done].
  - rewrite Ha. by apply valid_attempt.
  - unfold lease_ok. by rewrite Ho, Hd.
  - by apply binding_ok_none.
Qed.

Lemma lost_lease_valid now t :
  valid t → leased_state (state t) = true → updated_unix_seconds t ≤ now → valid (apply_lost_lease t now).1.
Proof.
  intros Hv Hl Hle. destruct (valid_leased t Hv Hl) as (o & d & []).
  pose proof (apply_lost_lease_identity t now) as [Hid Hat]. revert Hid Hat. unfold apply_lost_lease.
  destruct (cancel_requested t) eqn:Hc, (safe_to_requeue_after_lease_loss (action t)) eqn:Hsafe;
    rewrite ?orb_true_r, ?orb_false_r; cbn [andb fst]; repeat case_bool_decide; cbn [fst]; intros Hid Hat.
  all: apply (valid_released now t); [done|done| |done..|].
  all: try (split; task_cbn; [done|done|by auto]).
  all: unfold state_consistent, lease_present, active_payload_empty, no_restart; task_cbn.
  all: rewrite ?lf_result0, ?lf_error0, ?lf_completed0, ?Hc; try done.
  all: by destruct (action t).
Qed.

(** What validity says of a queued task. *)
Lemma valid_queued t :
  valid t → state t = SQueued →
  stage t = GQueued ∧ lease_present t = false ∧ restart t = None ∧ cancel_requested t = false ∧
  result_ t = None ∧ error_code t = None ∧ completed_unix_seconds t = None.
Proof.
  rewrite validate_task_parts. intros (_ & _ & _ & _ & _ & Hs) E. unfold state_consistent, active_payload_empty in Hs.
  rewrite E in Hs. bool_prop. unfold no_restart in *. destruct (restart t); by split_and!.
Qed.

Ltac consistent := unfold state_consistent, lease_present, active_payload_empty, no_restart; task_cbn.

Lemma claim_valid now worker deadline t :
  valid t → state t = SQueued → attempt t < MAX_CLAIM_ATTEMPTS → worker ≠ 0 → 0 < now < deadline →
  updated_unix_seconds t ≤ now → valid (claimed worker deadline now t).
Proof.
  intros Hv Hq Ha Hw Hn Hle. destruct (valid_queued t Hv Hq) as (Hg & Hlp & Hr & Hc & Hres & Herr & Hcomp).
  apply (valid_next now t); [done|done| | | | |]; unfold claimed; task_cbn.
  - split; task_cbn; [done|done|by left].
  - lia.
  - split; task_cbn; solve_task.
  - by apply binding_ok_none.
  - consistent. by rewrite Hc, Hres, Herr, Hcomp.
Qed.

Lemma exhausted_valid now t :
  valid t → state t = SQueued → updated_unix_seconds t ≤ now → valid (exhausted now t).
Proof.
  intros Hv Hq Hle. destruct (valid_queued t Hv Hq) as (Hg & Hlp & Hr & Hc & Hres & Herr & Hcomp).
  apply (valid_next now t); [done|done| | | | |]; unfold exhausted; task_cbn.
  - split; task_cbn; [done|done|by right].
  - by apply valid_attempt.
  - by apply valid_lease_ok in Hv.
  - by apply binding_ok_none.
  - unfold lease_present in Hlp. consistent. rewrite Hlp, Hr, Hres. by destruct (action t).
Qed.

(** A transition that keeps the owner of the lease. The binding, if any, must
    end with the lease and after [now]. *)
Lemma valid_kept now t t' :
  valid t → same_identity t t' → attempt t' = attempt t → leased_state (state t) = true →
  updated_unix_seconds t ≤ now → 0 < now → updated_unix_seconds t' = now → lease_owner t' = lease_owner t →
  (∃ d, lease_deadline_unix_seconds t' = Some d ∧ now < d) →
  result_ t' = None → error_code t' = None → completed_unix_seconds t' = None →
  cancel_requested t' = bool_decide (state t' = SCancelRequested) → leased_state (state t') = true →
  binding_ok t' →
  ((stage t' = GClaimed ∧ state t' ≠ SRunning) ∨
   (stage t' = execution_stage (action t) ∧ state t' ≠ SClaimed) ∨
   (stage t' = GAwaitingRestart ∧ requires_restart (action t) = true ∧ state t' ≠ SClaimed)) →
  valid t'.
Proof.
  intros Hv Hid Ha Hl Hle Hpos Hu Ho (d & Hd & Hnd) Hr He Hcm Hc Hl' Hb Hst.
  destruct (valid_leased t Hv Hl) as (o & d0 & F). pose proof Hid as (_ & _ & _ & Eac & _).
  apply (valid_next now t t'); [done|done| | | |done|].
  - split; [done|done|by left].
  - rewrite Ha. by apply valid_attempt.
  - apply valid_lease_ok in Hv as [Hv _]. split; [by rewrite Ho|]. rewrite Hd. intros [= ->]. lia.
  - consistent. rewrite Hr, He, Hcm, Hc, Ho, Hd, (lf_owner _ _ _ F), Eac.
    destruct Hb as [Hb _]. assert (stage t' ≠ GAwaitingRestart → restart t' = None) as Hnone.
    { intros Hne. destruct (restart t') eqn:E; [|done]. destruct Hne. by apply Hb. }
    destruct (execution_not_special (action t)) as (N1 & N2 & _).
    destruct Hst as [[Eg Es]|[[Eg Es]|(Eg & Erq & Es)]]; rewrite Eg in *;
      [rewrite Hnone by done|rewrite Hnone by done|rewrite Erq];
      rewrite !(bool_decide_eq_true_2 (is_Some _)) by done; destruct (state t'); try done;
      repeat case_bool_decide; first [done|congruence].
Qed.

(** Moving the clock of a binding that has not ended. *)
Lemma binding_ok_at t t' now :
  valid t → stage t' = stage t → action t' = action t → restart t' = restart t →
  (∀ b, restart t = Some b → lease_deadline_unix_seconds t' = Some (resume_deadline_unix_seconds b) ∧
                             now < resume_deadline_unix_seconds b) →
  updated_unix_seconds t' = now → binding_ok t'.
Proof.
  rewrite validate_task_parts. intros (_ & _ & _ & _ & [Hiff Hb] & _) Eg Ea Er Hd Eu.
  split; [by rewrite Eg, Er|]. intros b Hb'. rewrite Er in Hb'. specialize (Hb b Hb'). revert Hb.
  destruct (Hd b Hb') as [Hd' Hlt]. unfold validate_binding. rewrite Ea, Eu, Hd', !bind_unit_Ok, !if_Err_Ok.
  intros (Hp & Ht & _). split; [done|]. split; [|done]. bool_prop.
  repeat (apply orb_false_iff; split); try (by apply Z.eqb_neq); try (by apply Z.leb_gt); try (by apply Z.ltb_ge).
  by rewrite bool_decide_eq_true_2.
Qed.

Lemma lease_over_deadline now t d :
  lease_deadline_unix_seconds t = Some d → lease_over now t = false → now < d.
Proof. unfold lease_over. intros ->. by rewrite Z.leb_gt. Qed.

Lemma valid_binding_lease now t b :
  valid t → lease_over now t = false → restart t = Some b →
  lease_deadline_unix_seconds t = Some (resume_deadline_unix_seconds b) ∧ now < resume_deadline_unix_seconds b.
Proof.
  intros Hv Ho Hb. destruct (valid_binding t b Hv Hb) as (_ & _ & Hd). split; [done|].
  by eapply lease_over_deadline.
Qed.

Lemma cancel_valid now t :
  valid t → is_terminal (state t) = false → (leased_state (state t) = true → lease_over now t = false) →
  0 < now → updated_unix_seconds t ≤ now → valid (cancelled now t).
Proof.
  intros Hv Ht Hov Hpos Hle. unfold cancelled. case_bool_decide as Hq.
  - destruct (valid_queued t Hv Hq) as (Hg & Hlp & Hr & Hc & Hres & Herr & Hcomp).
    apply (valid_released now t); [done|done| |done..|].
    + split; task_cbn; [done|done|by right].
    + consistent. by rewrite Hres.
  - assert (leased_state (state t) = true) as Hl by (by destruct (state t)). specialize (Hov Hl).
    destruct (valid_leased t Hv Hl) as (o & d & F).
    apply (valid_kept now t); try done; task_cbn; try (by apply F).
    + exists d. split; [apply F|]. eapply lease_over_deadline; [apply F|done].
    + apply (binding_ok_at t _ now); try done. intros b Hb. exact (valid_binding_lease now t b Hv Hov Hb).
    + destruct (lf_stage _ _ _ F) as [[? ?]|[[? ?]|(? & ? & ?)]]; solve_task.
Qed.

(** The stage of a renewal: the current one, or the execution stage from the claim. *)
Lemma renew_transition_cases current g a :
  valid_renew_transition current g a = true →
  (current = GClaimed ∧ (g = GClaimed ∨ g = execution_stage a)) ∨
  (current = execution_stage a ∧ (g = current ∨ g = GAwaitingRestart)) ∨
  (current = GAwaitingRestart ∧ g = GAwaitingRestart).
Proof.
  unfold valid_renew_transition. rewrite !orb_true_iff, !andb_true_iff, !orb_true_iff, !andb_true_iff,
    !bool_decide_eq_true. solve_task.
Qed.

Lemma renew_valid now g deadline t :
  valid t → leased_state (state t) = true → valid_renew_transition (stage t) g (action t) = true →
  (g = GAwaitingRestart → is_Some (restart t)) →
  (∀ b, restart t = Some b → deadline = resume_deadline_unix_seconds b) →
  0 < now < deadline → updated_unix_seconds t ≤ now → valid (renewed g deadline now t).
Proof.
  intros Hv Hl Htr Hgr Hdl Hn Hle. destruct (valid_leased t Hv Hl) as (o & d & F).
  apply renew_transition_cases in Htr. pose proof (lf_cancel _ _ _ F) as Hc.
  destruct (execution_not_special (action t)) as (N1 & N2 & _).
  assert (stage t = GAwaitingRestart ↔ is_Some (restart t)) as Hiff.
  { apply validate_task_parts in Hv as (_ & _ & _ & _ & [? _] & _). done. }
  apply (valid_kept now t); try done; unfold renewed; task_cbn; try (by apply F); try lia.
  - exists deadline. split; [done|lia].
  - destruct (cancel_requested t); [by rewrite bool_decide_eq_true_2|]. by destruct (bool_decide (g = GClaimed)).
  - destruct (cancel_requested t); [done|]. by destruct (bool_decide (g = GClaimed)).
  - destruct (restart t) as [b|] eqn:Hb.
    + assert (stage t = GAwaitingRestart) as Hg by (by apply Hiff).
      eapply (binding_ok_at t); [done|..]; task_cbn; [|done|by rewrite Hb| |done].
      * rewrite Hg in *. solve_task.
      * intros b' Hb'. rewrite Hb in Hb'. injection Hb' as <-. rewrite <- (Hdl b) by done. split; [done|lia].
    + apply binding_ok_none; task_cbn; [done|]. intros ->. destruct (Hgr eq_refl). done.
  - destruct Htr as [(Ec & [-> | ->])|[(Ec & [-> | ->])|(Ec & ->)]].
    + left. split; [done|]. by destruct (cancel_requested t).
    + right; left. split; [done|]. destruct (cancel_requested t); [done|]. by rewrite bool_decide_eq_false_2.
    + right; left. split; [done|]. rewrite Ec. destruct (cancel_requested t); [done|].
      by rewrite bool_decide_eq_false_2.
    + apply Hiff in Hgr; [|done]. congruence.
    + destruct (restart t) as [b|] eqn:Hb; [|by destruct (proj1 Hiff Ec)].
      right; right. destruct (valid_binding t b Hv Hb) as (_ & Hrq & _). split_and!; [done..|].
      destruct (cancel_requested t); [done|]. by rewrite bool_decide_eq_false_2.
Qed.

Lemma renew_outcome now g seconds deadline t :
  valid t → leased_state (state t) = true → valid_renew_transition (stage t) g (action t) = true →
  (if bool_decide (stage t = GAwaitingRestart) || bool_decide (g = GAwaitingRestart)
   then ∃ b, restart t = Some b ∧ deadline = Z.min (now + seconds) (resume_deadline_unix_seconds b)
   else deadline = now + seconds) →
  0 < now < deadline → updated_unix_seconds t ≤ now →
  valid (renewed g deadline now t) ∨ shortened_lease (renewed g deadline now t).
Proof.
  intros Hv Hl Htr Hdl Hn Hle.
  assert (stage t = GAwaitingRestart ↔ is_Some (restart t)) as Hiff.
  { apply validate_task_parts in Hv as (_ & _ & _ & _ & [? _] & _). done. }
  destruct (restart t) as [b|] eqn:Hb.
  - assert (stage t = GAwaitingRestart) as Hg by (by apply Hiff).
    rewrite bool_decide_eq_true_2 in Hdl by done. destruct Hdl as (b' & [= <-] & Hd).
    assert (valid (renewed g (resume_deadline_unix_seconds b) now t)) as Hres.
    { apply renew_valid; try done; [intros b1 Hb1; congruence|lia]. }
    destruct (decide (deadline = resume_deadline_unix_seconds b)) as [->|Hne]; [by left|right].
    exists b, deadline. unfold renewed in *; task_cbn. split_and!; [|done|done|lia|].
    + apply renew_transition_cases in Htr. destruct (execution_not_special (action t)) as (N1 & N2 & _).
      rewrite Hg in *. solve_task.
    + rewrite Hb in *. exact Hres.
  - left. apply renew_valid; try done; [|congruence].
    intros ->. rewrite (bool_decide_eq_true_2 (GAwaitingRestart = _)), orb_true_r in Hdl by done.
    destruct Hdl as (b & ? & _). congruence.
Qed.

Lemma validate_for_task_report r a g c :
  validate_for_task version_parses r a g c = Ok tt → validate_report version_parses r a = Ok tt.
Proof. unfold validate_for_task. rewrite bind_unit_Ok. by intros [? _]. Qed.

Lemma report_identity t r now t' kind :
  apply_worker_report t r now = Ok (t', kind) →
  same_identity t t' ∧ attempt t' = attempt t ∧ updated_unix_seconds t' = now.
Proof. unfold apply_worker_report. intros H. repeat case_match; by simplify_eq. Qed.

(** A report that ends the task. *)
Lemma report_end_valid now t r t' kind :
  valid t → leased_state (state t) = true → validate_report version_parses r (action t) = Ok tt →
  apply_worker_report t r now = Ok (t', kind) → updated_unix_seconds t ≤ now → is_terminal (state t') = true →
  valid t'.
Proof.
  intros Hv Hl Hr H Hle Hterm. destruct (report_identity t r now t' kind H) as (Hid & Hat & Hu).
  assert (lease_owner t' = None ∧ lease_deadline_unix_seconds t' = None ∧ restart t' = None ∧
          stage t' ≠ GAwaitingRestart ∧ completed_unix_seconds t' = Some now ∧
          state_consistent version_parses t' = true) as (Ho & Hd & Hrs & Hg & Hcm & Hs).
  { clear Hid Hat Hu. unfold apply_worker_report in H. destruct r as [g|plan|res|code rec|].
    - case_match; [|done]. simplify_eq.
    - repeat case_match; simplify_eq; try done; task_cbn; by destruct (state t).
    - case_match; [|done]. simplify_eq. split_and!; try done. consistent. cbn [validate_report] in Hr.
      destruct (matches_action res (action t)) eqn:Em; [|done]. rewrite Hr. cbn.
      by case_bool_decide; rewrite bool_decide_eq_true_2.
    - case_match; [|done]. simplify_eq. split_and!; try done. consistent.
      change (validate_report version_parses (Failed code rec) (action t)) with
        (validate_failure_report (action t) code rec) in *. by rewrite Hr.
    - destruct (cancel_requested t) eqn:Hc; [|done]. case_match; [|done]. simplify_eq.
      split_and!; try done. consistent. by rewrite Hc. }
  apply (valid_released now t); try done. split; [done|done|by right].
Qed.

(** A report that keeps the lease. *)
Lemma report_kept_valid now t r t' kind :
  valid t → leased_state (state t) = true → lease_over now t = false →
  validate_report version_parses r (action t) = Ok tt →
  apply_worker_report t r now = Ok (t', kind) → 0 < now → updated_unix_seconds t ≤ now →
  is_terminal (state t') = false → valid t'.
Proof.
  intros Hv Hl Hov Hr H Hpos Hle Hterm. destruct (report_identity t r now t' kind H) as (Hid & Hat & Hu).
  destruct (valid_leased t Hv Hl) as (o & d & F). pose proof (lease_over_deadline _ _ _ (lf_deadline _ _ _ F) Hov).
  destruct (execution_not_special (action t)) as (N1 & N2 & _).
  assert (state t ≠ SCancelRequested ↔ cancel_requested t = false) as Hc.
  { rewrite (lf_cancel _ _ _ F). symmetry. apply bool_decide_eq_false. }
  unfold apply_worker_report in H. destruct r as [g|plan|res|code rec|].
  - destruct (_ && _) eqn:E in H; [|done]. bool_prop. injection H as <- <-. subst g.
    apply (valid_kept now t); try done; task_cbn; try (by apply F).
    + exists d. split; [apply F|done].
    + apply binding_ok_none; task_cbn; [|done]. destruct (restart t) as [b|] eqn:Hb; [|done].
      destruct (valid_binding t b Hv Hb). congruence.
    + solve_task.
  - destruct (_ && _) eqn:E in H; [|destruct (_ && _) eqn:E2 in H; [|done]].
    + bool_prop. unfold checked_add in H. destruct (_ <=? _); [|done].
      destruct (validate_plan _ _ _) as [[]|] eqn:Hp; [|done]. injection H as <- <-.
      apply (valid_kept now t); try done; task_cbn; try (by apply F).
      * eexists. split; [done|]. unfold REMOTE_UPDATE_RESTART_RESUME_SECONDS. lia.
      * split; task_cbn; [by split|]. intros b [= <-]. unfold validate_binding. destruct plan.
        cbn -[validate_plan] in *. rewrite Hp, bind_unit_Ok. split; [done|].
        rewrite bool_decide_eq_true_2 by done. unfold saturating_sub, REMOTE_UPDATE_RESTART_RESUME_SECONDS.
        repeat (zcase; try lia). done.
      * solve_task.
    + bool_prop. injection H as <- <-. apply (valid_kept now t); try done; task_cbn; try (by apply F).
      * exists d. split; [apply F|done].
      * apply (binding_ok_at t _ now); try done. intros b Hb. exact (valid_binding_lease now t b Hv Hov Hb).
  - case_match; [|done]. by injection H as <- <-.
  - case_match; [|done]. by injection H as <- <-.
  - case_match; [|done]. by injection H as <- <-.
Qed.

(** After a transition the task is readable, or its only defect is the
    shortened lease. *)
Lemma task_step_valid now t t' :
  task_step now t t' → 0 < now → updated_unix_seconds t ≤ now → valid t' ∨ shortened_lease t'.
Proof.
  intros Hstep Hpos Hle. destruct Hstep as [Hv Hl Hov|worker deadline Hv Hq Ha Hw Hd|Hv Hq Ha
    |g seconds deadline Hv Hl Hov Htr Hgl Hs Hd Hnd|r t' kind Hv Hl Hov Hr H|Hv Ht Hc Hov].
  - left. by apply lost_lease_valid.
  - left. apply claim_valid; try done. lia.
  - left. by apply exhausted_valid.
  - by apply (renew_outcome now g seconds).
  - left. apply validate_for_task_report in Hr. destruct (is_terminal (state t')) eqn:E.
    + by eapply report_end_valid.
    + by eapply report_kept_valid.
  - left. by apply cancel_valid.
Qed.

(** ** Every operation is a sequence of transitions *)

Lemma renewed_identity g d now t : same_identity t (renewed g d now t) ∧ attempt (renewed g d now t) = attempt t.
Proof. done. Qed.
Lemma cancelled_identity now t : same_identity t (cancelled now t) ∧ attempt (cancelled now t) = attempt t.
Proof. unfold cancelled. by case_bool_decide. Qed.

Lemma task_step_identity now t t' : task_step now t t' → same_identity t t' ∧ updated_unix_seconds t' = now.
Proof.
  destruct 1; try done.
  - split; [apply apply_lost_lease_identity|]. unfold apply_lost_lease. by repeat case_match.
  - by destruct (report_identity t r now t' kind) as (? & ? & ?).
  - split; [apply cancelled_identity|]. unfold cancelled. by case_bool_decide.
Qed.

Lemma task_steps_identity now t t' : rtc (task_step now) t t' → same_identity t t'.
Proof.
  induction 1 as [|t1 t2 t3 H _ IH]; [done|]. apply task_step_identity in H as [H _].
  by eapply same_identity_trans.
Qed.

Lemma authorize_lease_Ok t worker token now c u c' :
  authorize_lease t worker token now c = Ok (u, c') →
  c' = c ∧ leased_state (state t) = true ∧ lease_owner t = Some worker ∧ lease_over now t = false ∧
  ∃ w, rows c !! task_id t = Some w ∧
       as_bytes <$> r_lease_token_sha256 w = Some (as_bytes (lease_token_sha256 token)).
Proof.
  unfold authorize_lease. intros H. tx_step H. destruct (_ || _) eqn:E in H; [done|]. bool_prop.
  destruct (lease_over now t) eqn:Hov; [done|]. tx_step H.
  destruct (rows c !! task_id t) as [w|] eqn:Hw; [|done]. cbn in H2. injection H2 as <-.
  destruct (r_lease_token_sha256 w) as [s|] eqn:Hs; [|done].
  destruct (bytes_equal _ _) eqn:Hb; [|done]. tx_step H. split_and!; try done.
  exists w. split; [done|]. rewrite Hs. cbn. f_equal. by apply constant_time_equal_spec.
Qed.

Lemma sweep_evolves now c u c' : keyed c → sweep now c = Ok (u, c') → evolves now c c'.
Proof. intros Hk H. by apply reconcile_expired_evolves in H as [? _]. Qed.

Lemma traverse_read_same l c ts c' : traverse read_task l c = Ok (ts, c') → c' = c.
Proof. intros H. by apply traverse_read_Ok in H as [-> _]. Qed.

Lemma list_tasks_evolves target limit now c ts c' :
  keyed c → list_tasks target limit now c = Ok (ts, c') → evolves now c c'.
Proof.
  intros Hk. unfold list_tasks. intros H. apply tx_bind_Ok in H as (u & c1 & H1 & H).
  assert (c1 = c) as -> by (destruct target; by tx_step H1).
  apply tx_bind_Ok in H as (v & c2 & H2 & H). apply reconcile_expired_evolves in H2 as [He _]; [|done].
  tx_step H. by apply traverse_read_same in H as ->.
Qed.

Lemma detail_evolves id now c d c' : keyed c → detail id now c = Ok (d, c') → evolves now c c'.
Proof.
  intros Hk. unfold detail. intros H. tx_step H. tx_step H. apply task_by_id_Ok in H1 as [-> _].
  tx_step H. tx_step H. apply reconcile_expired_evolves in H2 as [He _]; [|done].
  tx_step H. apply task_by_id_Ok in H2 as [-> _]. tx_step H. tx_step H.
  case_match; [|done]. by tx_step H.
Qed.

(** What [reconcile_after_restart] tests of a leased task is that its lease is not over. *)
Lemma restart_lease_valid now t :
  valid t → leased_state (state t) = true →
  let lease_valid :=
    match lease_deadline_unix_seconds t with Some deadline => now <? deadline | None => false end &&
    bool_decide (is_Some (lease_owner t)) in
  lease_valid = negb (lease_over now t).
Proof.
  intros Hv Hl. destruct (valid_leased t Hv Hl) as (o & d & F). unfold lease_over.
  rewrite (lf_deadline _ _ _ F), (lf_owner _ _ _ F), bool_decide_eq_true_2, andb_true_r by done.
  by rewrite Z.ltb_antisym.
Qed.

Lemma reconcile_after_restart_evolves now c u c' :
  keyed c → reconcile_after_restart now c = Ok (u, c') → evolves now c c'.
Proof.
  intros Hk. unfold reconcile_after_restart, active_leased_tasks. intros H.
  apply tx_bind_Ok in H as (ts & c1 & H1 & H). apply tx_bind_Ok in H1 as (c2 & c3 & Hg & H1).
  apply get_Ok in Hg as [-> ->].
  apply selected_stored in H1 as (-> & Hst & _); [|done|intros w Hw; by bool_prop].
  apply (for_each_stored now _ (λ _, True) ts c u c') in H as [? _]; [done| |done].
  intros t c1 v c2 w _ Hw Ht Hv Hl H1. cbv zeta in H1.
  rewrite (restart_lease_valid now t Hv Hl) in H1. destruct (lease_over now t) eqn:Hov; cbn [negb] in H1; cycle 1.
  - apply append_event_Ok in H1. exists t. split; [done|]. split.
    + by apply evolves_rows.
    + exists w. by rewrite H1.
    + by intros j _; rewrite H1.
  - eexists. split; [done|]. by eapply reconcile_lost_lease_step.
Qed.

Lemma oldest_queued_Ok target c o c' :
  keyed c → oldest_queued_task target c = Ok (o, c') →
  c' = c ∧ ∀ t, o = Some t → valid t ∧ state t = SQueued ∧ target_client_id t = target ∧
                             ∃ w, rows c !! task_id t = Some w ∧ r_task w = t.
Proof.
  intros Hk. unfold oldest_queued_task. intros H. tx_step H.
  destruct (order_by _ _) as [|w l] eqn:E in H; [by tx_step H|].
  tx_step H. apply read_task_Ok in H0 as (-> & -> & Hv). tx_step H. split; [done|]. intros t [= <-].
  assert (w ∈ filter (λ w, of_client (Some target) w && bool_decide (state (r_task w) = SQueued) = true) (table c))
    as Hin by (rewrite <- (order_by_perm by_created), E; by apply elem_of_cons; left).
  apply list_elem_of_filter in Hin as [HP Hin]. apply elem_of_table in Hin; [|done].
  cbn [of_client] in HP. bool_prop. split_and!; [done..|]. by exists w.
Qed.

Lemma claim_lease_seconds q :
  validate_claim_request q = Ok tt →
  cq_worker_instance_id q ≠ 0 ∧
  REMOTE_UPDATE_MIN_LEASE_SECONDS ≤ cq_requested_lease_seconds q ≤ REMOTE_UPDATE_MAX_LEASE_SECONDS.
Proof.
  unfold validate_claim_request, validate_lease_seconds. rewrite bind_unit_Ok, if_Ok_Err, non_nil_Ok.
  intros [? ?]. bool_prop. done.
Qed.

(** What a claim grants: the oldest queued task of the client, after the
    expired leases were recovered. *)
Lemma claim_Ok target q now c r c' :
  keyed c → claim target q now c = Ok (Some r, c') →
  ∃ c0 w, evolves now c c0 ∧ rows c0 !! task_id (r_task w) = Some w ∧ valid (r_task w) ∧
    state (r_task w) = SQueued ∧ target_client_id (r_task w) = target ∧ attempt (r_task w) < MAX_CLAIM_ATTEMPTS ∧
    cq_worker_instance_id q ≠ 0 ∧
    REMOTE_UPDATE_MIN_LEASE_SECONDS ≤ cq_requested_lease_seconds q ≤ REMOTE_UPDATE_MAX_LEASE_SECONDS ∧
    c_lease_deadline_unix_seconds r = now + cq_requested_lease_seconds q ∧
    c_task r = claimed (cq_worker_instance_id q) (c_lease_deadline_unix_seconds r) now (r_task w) ∧
    c_lease_token r = uuid_v4 (drawn c0) ∧
    rows c' = <[task_id (r_task w) :=
                  {| r_task := c_task r; r_fingerprint := r_fingerprint w;
                     r_lease_token_sha256 := Some (lease_token_sha256 (c_lease_token r)); r_replay := r_replay w |}]>
                (rows c0).
Proof.
  intros Hk. unfold claim. intros H. tx_step H. tx_step H. tx_step H.
  apply reconcile_expired_evolves in H2 as [He _]; [|done]. exists c0.
  assert (keyed c0) as Hk0 by (by apply He). tx_step H.
  apply oldest_queued_Ok in H2 as [-> Ht]; [|done]. destruct a2 as [t|]; [|by apply ret_Ok in H as [? _]].
  destruct (Ht t eq_refl) as (Hv & Hq & Htg & w & Hw & <-). exists w.
  destruct (Z.leb_spec MAX_CLAIM_ATTEMPTS (attempt (r_task w))) as [Hat|Hat].
  { cbv zeta in H. do 2 apply tx_bind_Ok in H as (? & ? & _ & H). by apply ret_Ok in H as [? _]. }
  destruct (claim_lease_seconds q H1) as [Hwk Hsec].
  apply tx_bind_Ok in H as (token & c2 & Hnew & H). apply new_v4_Ok in Hnew as [Hr2 Htok].
  apply tx_bind_Ok in H as (dl & c3 & Hdl & H). unfold checked_deadline, checked_add in Hdl.
  destruct (_ <=? _) in Hdl; [|done]. tx_step Hdl. injection Hdl as <-.
  apply tx_bind_Ok in H as (n & c4 & Hn & H). unfold checked_add in Hn.
  destruct (_ <=? _) in Hn; [|done]. tx_step Hn. injection Hn as <-.
  cbv zeta in H. do 5 tx_step H. tx_step H. apply write_row_Ok in H4 as [Hrows _]. tx_step H.
  apply append_event_Ok in H4. apply ret_Ok in H as [E <-]. injection E as <-. task_cbn.
  rewrite Hr2, Hw in H2. injection H2 as <-. rewrite <- H4, Hr2 in Hrows.
  destruct (valid_queued (r_task w) Hv Hq) as (_ & _ & Hrs & _). rewrite Hrs in Hrows.
  split_and!; try done; apply Hsec.
Qed.

Lemma claim_evolves target q now c r c' : keyed c → claim target q now c = Ok (r, c') → evolves now c c'.
Proof.
  intros Hk H. destruct r as [r|].
  - destruct (claim_Ok target q now c r c' Hk H)
      as (c0 & w & He & Hw & Hv & Hq & _ & Hat & Hwk & Hsec & Hd & Ht & _ & Hrows).
    eapply evolves_trans; [exact He|]. eapply (evolves_insert now); [exact Hw|exact Hrows| |by rewrite Ht].
    cbn [r_task]. rewrite Ht, Hd. apply step_claim; try done. unfold REMOTE_UPDATE_MIN_LEASE_SECONDS in *. lia.
  - unfold claim in H. tx_step H. tx_step H. tx_step H.
    apply reconcile_expired_evolves in H2 as [He _]; [|done]. eapply evolves_trans; [exact He|].
    assert (keyed c0) as Hk0 by (by apply He). tx_step H.
    apply oldest_queued_Ok in H2 as [-> Ht]; [|done]. destruct a2 as [t|]; [|apply ret_Ok in H as [_ <-]; apply evolves_refl].
    destruct (Ht t eq_refl) as (Hv & Hq & _ & w & Hw & Hwt).
    destruct (Z.leb_spec MAX_CLAIM_ATTEMPTS (attempt t)) as [Hat|Hat].
    + cbv zeta in H. apply tx_bind_Ok in H as (v & c2 & Hp & H). apply tx_bind_Ok in H as (v' & c3 & Hev & H).
      apply ret_Ok in H as [_ <-]. eapply (persist_step now t (exhausted now t)); try done. by constructor.
    + cbv zeta in H. do 10 apply tx_bind_Ok in H as (? & ? & _ & H). by apply ret_Ok in H as [? _].
Qed.

Lemma renew_request_lease q a :
  validate_renew_request q a = Ok tt →
  REMOTE_UPDATE_MIN_LEASE_SECONDS ≤ rn_requested_lease_seconds q ≤ REMOTE_UPDATE_MAX_LEASE_SECONDS ∧
  valid_for_active_lease (rn_stage q) a = true.
Proof.
  unfold validate_renew_request, validate_lease_seconds. rewrite !bind_unit_Ok, if_Ok_Err, if_Err_Ok.
  intros (_ & _ & ? & ? & _). bool_prop. done.
Qed.

(** What a renewal checks of the stored task. *)
Definition renew_guards (now : Z) (g : RemoteUpdateStage) (seconds deadline : Z) (t : RemoteUpdateTask) : Prop :=
  leased_state (state t) = true ∧ lease_over now t = false ∧
  valid_renew_transition (stage t) g (action t) = true ∧
  REMOTE_UPDATE_MIN_LEASE_SECONDS ≤ seconds ≤ REMOTE_UPDATE_MAX_LEASE_SECONDS ∧
  (if bool_decide (stage t = GAwaitingRestart) || bool_decide (g = GAwaitingRestart)
   then ∃ b, restart t = Some b ∧ deadline = Z.min (now + seconds) (resume_deadline_unix_seconds b)
   else deadline = now + seconds) ∧ now < deadline.

(** The stored task after a successful renewal. *)
Lemma renew_Ok target id q now c r c' :
  keyed c → renew target id q now c = Ok (r, c') →
  ∃ w, rows c !! id = Some w ∧ target_client_id (r_task w) = target ∧ valid (r_task w) ∧
    lease_owner (r_task w) = Some (rn_worker_instance_id q) ∧
    as_bytes <$> r_lease_token_sha256 w = Some (as_bytes (lease_token_sha256 (rn_lease_token q))) ∧
    (∀ b, restart (r_task w) = Some b →
       rr_lease_deadline_unix_seconds r =
       Z.min (now + rn_requested_lease_seconds q) (resume_deadline_unix_seconds b)) ∧
    renew_guards now (rn_stage q) (rn_requested_lease_seconds q) (rr_lease_deadline_unix_seconds r) (r_task w) ∧
    let t' := renewed (rn_stage q) (rr_lease_deadline_unix_seconds r) now (r_task w) in
    task_step now (r_task w) t' ∧
    rows c' = <[id := {| r_task := t'; r_fingerprint := r_fingerprint w;
                         r_lease_token_sha256 := r_lease_token_sha256 w; r_replay := r_replay w |}]> (rows c).
Proof.
  intros Hk. unfold renew. intros H. tx_step H. tx_step H. tx_step H.
  apply own_task_Ok in H2 as (-> & Htgt & w & Hw & -> & Hv). tx_step H. tx_step H.
  apply authorize_lease_Ok in H3 as (-> & Hl & Ho & Hov & w' & Hw' & Htok).
  pose proof (Hk _ _ Hw) as Hid. cbn in Hid. rewrite Hid, Hw in Hw'. injection Hw' as <-.
  tx_step H. apply tx_bind_Ok in H as (dl & c3 & Hdl & H). unfold checked_deadline, checked_add in Hdl.
  destruct (_ <=? _) in Hdl; [|done]. tx_step Hdl. simplify_eq.
  apply tx_bind_Ok in H as (deadline & c4 & Hd & H).
  assert (c4 = c ∧ if bool_decide (stage (r_task w) = GAwaitingRestart) || bool_decide (rn_stage q = GAwaitingRestart)
          then ∃ b, restart (r_task w) = Some b ∧
                    deadline = Z.min (now + rn_requested_lease_seconds q) (resume_deadline_unix_seconds b)
          else deadline = now + rn_requested_lease_seconds q) as [-> Hdeadline].
  { destruct (_ || _) in Hd |- *; [|by tx_step Hd]. tx_step Hd. tx_step Hd. split; [done|]. by eexists. }
  tx_step H. cbv zeta in H. do 5 tx_step H. task_cbn.
  rewrite Hw in H5. injection H5 as <-.
  match goal with Hr : write_row _ _ = _ |- _ => apply write_row_Ok in Hr as [Hrows _] end.
  tx_step H. match goal with Hr : append_event _ _ _ _ = _ |- _ => apply append_event_Ok in Hr as Hev end.
  tx_step H. cbn [rr_lease_deadline_unix_seconds].
  destruct (renew_request_lease q (action (r_task w)) ltac:(done)) as [Hsec Hgl].
  exists w. split; [done|]. split; [done|]. split; [done|]. split; [done|]. split; [done|].
  split; [|split; [|split]].
  - intros b Hb. destruct (valid_binding _ b Hv Hb) as (Hg & _).
    rewrite bool_decide_eq_true_2 in Hdeadline by done. destruct Hdeadline as (b' & Hb' & ->). congruence.
  - bool_prop. split_and!; try done; lia.
  - bool_prop. by eapply (step_renew now (r_task w) (rn_stage q) (rn_requested_lease_seconds q)).
  - by rewrite Hev, Hrows.
Qed.

Lemma renew_evolves target id q now c r c' : keyed c → renew target id q now c = Ok (r, c') → evolves now c c'.
Proof.
  intros Hk H. destruct (renew_Ok target id q now c r c' Hk H) as (w & Hw & _ & _ & _ & _ & _ & _ & Hstep & Hrows).
  eapply (evolves_insert now); [exact Hw|exact Hrows|exact Hstep|done].
Qed.

Lemma terminal_report_replay_Ok id c o c' :
  terminal_report_replay id c = Ok (o, c') → c' = c ∧ o = rows c !! id ≫= r_replay.
Proof. unfold terminal_report_replay. intros H. by repeat tx_step H. Qed.

Lemma terminal_reconcile_Ok t stored q c u c' :
  validate_terminal_reconcile t stored q c = Ok (u, c') →
  c' = c ∧ replay_holder stored (rc_worker_instance_id q) (rc_lease_token q) = true ∧
  (state t = SSucceeded →
   match result_ t with Some res => matches_restart_plan res (rc_plan q) | None => false end = true).
Proof.
  unfold validate_terminal_reconcile. intros H. repeat tx_step H. split_and!; [done..|]. intros Hs.
  rewrite bool_decide_eq_true_2 in H by done. by destruct (match result_ t with Some _ => _ | None => _ end).
Qed.

Lemma active_reconcile_Ok t q c u c' :
  validate_active_reconcile t q c = Ok (u, c') →
  c' = c ∧ ∃ b, restart t = Some b ∧ stage t = GAwaitingRestart ∧ binding_matches b (rc_plan q) = true.
Proof.
  unfold validate_active_reconcile. intros H. repeat tx_step H. bool_prop. split; [done|]. by eexists.
Qed.

Lemma replay_terminal_report_rows t q now c r c' :
  replay_terminal_report t q now c = Ok (r, c') → rows c' = rows c.
Proof.
  unfold replay_terminal_report. intros H. tx_step H. apply terminal_report_replay_Ok in H0 as [-> _].
  do 5 tx_step H.
  match goal with Hr : append_event _ _ _ _ = _ |- _ => apply append_event_Ok in Hr end.
  by repeat tx_step H.
Qed.

Lemma worker_report_transition_Ok r a g b c u c' :
  validate_worker_report_transition r a g b c = Ok (u, c') →
  c' = c ∧ validate_for_task version_parses r a g b = Ok tt.
Proof.
  unfold validate_worker_report_transition. destruct (validate_for_task _ _ _ _ _) as [[]|[]]; try done.
  intros H. by tx_step H.
Qed.

(** The proof that a report leaves with the task it ends. *)
Definition report_proof (q : RemoteUpdateReportRequest) (t' : RemoteUpdateTask)
    (replay : option TerminalReportReplay) : Prop :=
  if is_terminal (state t') then
    ∃ sha, worker_report_sha256 (rp_report q) = Some sha ∧
      replay = Some {| tr_worker_instance_id := rp_worker_instance_id q;
                       tr_lease_token_sha256 := lease_token_sha256 (rp_lease_token q); tr_report_sha256 := sha |}
  else replay = None.

(** An accepted report either repeats the report that ended the task or is a
    transition of the leased task. *)
Lemma report_Ok target id q now c t' c' :
  keyed c → report target id q now c = Ok (t', c') →
  ∃ w, rows c !! id = Some w ∧ target_client_id (r_task w) = target ∧ valid (r_task w) ∧
    if is_terminal (state (r_task w)) then rows c' = rows c
    else lease_owner (r_task w) = Some (rp_worker_instance_id q) ∧
         as_bytes <$> r_lease_token_sha256 w = Some (as_bytes (lease_token_sha256 (rp_lease_token q))) ∧
         lease_over now (r_task w) = false ∧ leased_state (state (r_task w)) = true ∧
         validate_report version_parses (rp_report q) (action (r_task w)) = Ok tt ∧
         (∃ kind, apply_worker_report (r_task w) (rp_report q) now = Ok (t', kind)) ∧
         (∃ replay, report_proof q t' replay ∧
            rows c' = <[id := {| r_task := t'; r_fingerprint := r_fingerprint w;
                                 r_lease_token_sha256 := match lease_owner t' with
                                                         | None => None
                                                         | Some _ => r_lease_token_sha256 w
                                                         end;
                                 r_replay := replay |}]> (rows c)) ∧
         one_row_step now id t' c c'.
Proof.
  intros Hk. unfold report. intros H. tx_step H. tx_step H. tx_step H.
  apply own_task_Ok in H2 as (-> & Htgt & w & Hw & -> & Hv). tx_step H. exists w. split_and!; [done..|].
  pose proof (Hk _ _ Hw) as Hid. cbn in Hid.
  destruct (is_terminal (state (r_task w))) eqn:Hterm; [by eapply replay_terminal_report_rows|].
  tx_step H. apply worker_report_transition_Ok in H3 as [-> Hfor]. tx_step H.
  apply authorize_lease_Ok in H3 as (-> & Hl & Ho & Hov & w' & Hw' & Htok).
  rewrite Hid, Hw in Hw'. injection Hw' as <-.
  destruct (apply_worker_report (r_task w) (rp_report q) now) as [[t1 kind]|] eqn:Ha; [|done].
  apply tx_bind_Ok in H as (replay & c1 & Hrep & H).
  assert (c1 = c ∧ report_proof q t1 replay) as [-> Hproof].
  { unfold report_proof. case_match; [|by tx_step Hrep]. do 2 tx_step Hrep. split; [done|]. by eexists. }
  apply tx_bind_Ok in H as (v & c2 & Hp & H). apply tx_bind_Ok in H as (v' & c3 & Hev & H). tx_step H.
  destruct (report_identity _ _ _ _ _ Ha) as (Hsame & Hat & _). rewrite <- Hid in Hw |- *.
  split_and!; [done..|by eapply validate_for_task_report|by exists kind| |].
  { exists replay. split; [done|]. apply append_event_Ok in Hev. rewrite Hev. pose proof Hsame as (_ & <- & _).
    apply (persist_Ok t1 replay c v c2 w) in Hp; [done|by rewrite (proj1 (proj2 Hsame))|done..]. }
  eapply (persist_step now (r_task w)); try done. by eapply step_report.
Qed.

Lemma report_evolves target id q now c t' c' :
  keyed c → report target id q now c = Ok (t', c') → evolves now c c'.
Proof.
  intros Hk H. destruct (report_Ok target id q now c t' c' Hk H) as (w & _ & _ & _ & Hc). case_match.
  - by apply evolves_rows.
  - by destruct Hc as (_ & _ & _ & _ & _ & _ & _ & []).
Qed.

(** What a reconciliation answers. *)
Lemma reconcile_Ok target id q now c r c' :
  keyed c → reconcile target id q now c = Ok (r, c') →
  task_id (rs_task r) = id ∧ target_client_id (rs_task r) = target ∧ action (rs_task r) = rc_action q ∧
  valid (rs_task r) ∧ validate_reconcile_request version_parses q = Ok tt ∧ id ≠ 0 ∧ target ≠ 0 ∧
  match rs_state r with
  | ReconcileActive =>
      leased_state (state (rs_task r)) = true ∧ lease_owner (rs_task r) = Some (rc_worker_instance_id q) ∧
      lease_over now (rs_task r) = false ∧
      ∃ b, restart (rs_task r) = Some b ∧ stage (rs_task r) = GAwaitingRestart ∧
           binding_matches b (rc_plan q) = true
  | ReconcileTerminal =>
      is_terminal (state (rs_task r)) = true ∧
      (state (rs_task r) = SSucceeded →
       match result_ (rs_task r) with Some res => matches_restart_plan res (rc_plan q) | None => false end = true)
  end.
Proof.
  intros Hk. unfold reconcile. intros H. do 3 tx_step H. apply non_nil_Ok in H0, H1.
  tx_step H. apply task_by_id_Ok in H3 as [-> Ho]. tx_step H. subst. destruct Ho as (w0 & Hw0 & -> & _).
  tx_step H. bool_prop. tx_step H.
  match goal with Hr : reconcile_expired_leases _ _ _ = _ |- _ =>
    apply reconcile_expired_evolves in Hr as [He _]; [|done] end.
  destruct (ev_kept _ _ _ He id w0 Hw0) as (w & Hw & Hst). apply task_steps_identity in Hst as (_ & _ & Etg & Eac & _).
  assert (keyed c0) as Hk0 by (by apply He). pose proof (Hk0 _ _ Hw) as Hid. cbn in Hid.
  tx_step H. match goal with Hr : task_by_id _ _ = _ |- _ => apply task_by_id_Ok in Hr as [-> Ho] end.
  tx_step H. subst. destruct Ho as (w1 & Hw1 & -> & Hv). rewrite Hw in Hw1. injection Hw1 as <-.
  destruct (is_terminal (state (r_task w))) eqn:Hterm.
  - tx_step H. match goal with Hr : terminal_report_replay _ _ = _ |- _ => apply terminal_report_replay_Ok in Hr as [-> _] end.
    do 2 tx_step H.
    match goal with Hr : validate_terminal_reconcile _ _ _ _ = _ |- _ => apply terminal_reconcile_Ok in Hr as (-> & _ & Hres) end.
    tx_step H. cbn [rs_state rs_task]. split_and!; try done; congruence.
  - tx_step H. match goal with Hr : authorize_lease _ _ _ _ _ = _ |- _ =>
      apply authorize_lease_Ok in Hr as (-> & Hl & Ho & Hov & _) end.
    tx_step H. match goal with Hr : validate_active_reconcile _ _ _ = _ |- _ => apply active_reconcile_Ok in Hr as (-> & Hb) end.
    tx_step H. cbn [rs_state rs_task]. split_and!; try done; congruence.
Qed.

Lemma reconcile_evolves target id q now c r c' :
  keyed c → reconcile target id q now c = Ok (r, c') → evolves now c c'.
Proof.
  intros Hk. unfold reconcile. intros H. do 3 tx_step H. tx_step H. apply task_by_id_Ok in H3 as [-> _].
  tx_step H. tx_step H. tx_step H.
  match goal with Hr : reconcile_expired_leases _ _ _ = _ |- _ =>
    apply reconcile_expired_evolves in Hr as [He _]; [|done] end.
  tx_step H. match goal with Hr : task_by_id _ _ = _ |- _ => apply task_by_id_Ok in Hr as [-> _] end.
  tx_step H. case_match.
  - tx_step H. match goal with Hr : terminal_report_replay _ _ = _ |- _ => apply terminal_report_replay_Ok in Hr as [-> _] end.
    do 2 tx_step H.
    match goal with Hr : validate_terminal_reconcile _ _ _ _ = _ |- _ => apply terminal_reconcile_Ok in Hr as (-> & _) end.
    by tx_step H.
  - tx_step H. match goal with Hr : authorize_lease _ _ _ _ _ = _ |- _ => apply authorize_lease_Ok in Hr as [-> _] end.
    tx_step H. match goal with Hr : validate_active_reconcile _ _ _ = _ |- _ => apply active_reconcile_Ok in Hr as (-> & _) end.
    by tx_step H.
Qed.

Lemma cancel_evolves id conf now c t' c' :
  keyed c → cancel id conf now c = Ok (t', c') → evolves now c c'.
Proof.
  intros Hk. unfold cancel. intros H. do 3 tx_step H. apply task_by_id_Ok in H2 as [-> Ho].
  tx_step H. subst. destruct Ho as (w0 & Hw0 & -> & _). tx_step H.
  apply reconcile_expired_evolves in H2 as (He & Hfresh & _); [|done]. eapply evolves_trans; [exact He|].
  tx_step H. apply task_by_id_Ok in H2 as [-> Ho]. tx_step H. subst. destruct Ho as (w & Hw & -> & Hv).
  assert (keyed c0) as Hk0 by (by apply He).
  destruct (_ || _) eqn:E in H; [tx_step H; apply evolves_refl|]. bool_prop.
  assert (∃ kind v c2 v', persist_task_after_report (cancelled now (r_task w)) None c0 = Ok (v, c2) ∧
            append_event (cancelled now (r_task w)) kind now c2 = Ok (v', c')) as (kind & v & c2 & v' & Hp & Hev).
  { unfold cancelled. case_bool_decide; apply tx_bind_Ok in H as (v & c2 & Hp & H);
      apply tx_bind_Ok in H as (v' & c3 & Hev & H); tx_step H; by eexists _, _, _, _. }
  destruct (cancelled_identity now (r_task w)) as [Hid Hat]. pose proof (Hk0 _ _ Hw) as Hkey. cbn in Hkey.
  assert (rows c0 !! task_id (r_task w) = Some w) as Hw' by (by rewrite Hkey).
  eapply (persist_step now (r_task w)); try done.
  apply step_cancel; [done..|]. apply (Hfresh id w Hw).
  destruct (ev_kept _ _ _ He id w0 Hw0) as (w1 & Hw1 & Hst). rewrite Hw in Hw1. injection Hw1 as <-.
  apply task_steps_identity in Hst as (_ & _ & Et & _). cbn. apply Z.eqb_eq. congruence.
Qed.

Lemma task_by_idempotency_key_Ok by_ key c o c' :
  keyed c → task_by_idempotency_key by_ key c = Ok (o, c') →
  c' = c ∧ ∀ t, o = Some t → requested_by t = by_ ∧ idempotency_key t = key ∧
                             ∃ w, rows c !! task_id t = Some w ∧ r_task w = t.
Proof.
  intros Hk. unfold task_by_idempotency_key. intros H. tx_step H.
  destruct (filter _ _) as [|w l] eqn:E in H; [by tx_step H|].
  tx_step H. apply read_task_Ok in H0 as (-> & -> & Hv). tx_step H. split; [done|]. intros t [= <-].
  assert (w ∈ filter (λ w, requested_by (r_task w) = by_ ∧ idempotency_key (r_task w) = key) (table c))
    as Hin by (rewrite E; by apply elem_of_cons; left).
  apply list_elem_of_filter in Hin as [[HP HP'] Hin]. apply elem_of_table in Hin; [|done].
  split_and!; [done..|]. by exists w.
Qed.

(** A successful creation repeats a stored task, or stores a fresh one. *)
Definition queued_task (q : CreateRemoteUpdateTaskRequest) (by_ : rstr) (id now : Z) : RemoteUpdateTask :=
  {| schema_version := REMOTE_UPDATE_CONTRACT_VERSION; task_id := id;
     target_client_id := cr_target_client_id q; action := cr_action q;
     state := SQueued; stage := GQueued; recovery_state := RNone; requested_by := by_;
     idempotency_key := cr_idempotency_key q; attempt := 0; cancel_requested := false;
     lease_owner := None; lease_deadline_unix_seconds := None; restart := None;
     result_ := None; error_code := None; created_unix_seconds := now;
     updated_unix_seconds := now; completed_unix_seconds := None |}.

Lemma queued_task_valid q by_ id now c u c' :
  validate_create q = Ok tt → validate_requested_by by_ c = Ok (u, c') → id ≠ 0 → 0 < now →
  valid (queued_task q by_ id now).
Proof.
  unfold validate_create, validate_requested_by. rewrite !bind_unit_Ok. intros (Ht & Hk & _) Hby Hid Hn.
  apply guard_tx_Ok in Hby as [Hby _]. apply non_nil_Ok in Ht. bool_prop.
  apply validate_task_parts. split_and!; [|by cbn|split; cbn; [lia|done]|by split|by apply binding_ok_none|done].
  unfold identity_ok, queued_task. task_cbn. split_and!; try done. lia.
Qed.

Lemma evolves_create now c c' id w :
  rows c !! id = None → rows c' = <[id := w]> (rows c) → task_id (r_task w) = id → fresh_task now (r_task w) →
  evolves now c c'.
Proof.
  intros Hn Hc Hid Hf. split.
  - intros j v Hv. exists v. split; [|done]. rewrite Hc, lookup_insert_ne; [done|]. congruence.
  - intros j v Hv Hnone. rewrite Hc in Hv. apply lookup_insert_Some in Hv as [[<- <-]|[_ Hv]]; [by eexists|congruence].
  - intros Hk j v. rewrite Hc. by intros [[<- <-]|[Hne Hv]]%lookup_insert_Some; [|apply Hk].
Qed.

Lemma create_evolves q by_ now c t c' :
  keyed c → (∀ n, uuid_v4 n ≠ 0) → 0 < now → create q by_ now c = Ok (t, c') → evolves now c c'.
Proof.
  intros Hk Huuid Hn. unfold create. intros H. tx_step H. tx_step H.
  pose proof H1 as Hby. apply guard_tx_Ok in Hby as [_ ->]. cbv zeta in H. tx_step H. tx_step H.
  tx_step H. apply task_by_idempotency_key_Ok in H3 as [-> Hex]; [|done]. destruct a2 as [t0|].
  - tx_step H. tx_step H. tx_step H.
    match goal with Hr : reconcile_expired_leases _ _ _ = _ |- _ =>
      apply reconcile_expired_evolves in Hr as [He _]; [|done] end.
    eapply evolves_trans; [exact He|]. tx_step H.
    match goal with Hr : task_by_id _ _ = _ |- _ => apply task_by_id_Ok in Hr as [-> _] end.
    do 2 tx_step H. match goal with Hr : append_event _ _ _ _ = _ |- _ => apply append_event_Ok in Hr as Hev end.
    tx_step H. by apply evolves_rows.
  - tx_step H. match goal with Hr : reconcile_expired_leases _ _ _ = _ |- _ =>
      apply reconcile_expired_evolves in Hr as [He _]; [|done] end.
    eapply evolves_trans; [exact He|]. do 3 tx_step H. tx_step H.
    match goal with Hr : new_v4 _ = _ |- _ => apply new_v4_Ok in Hr as [Hrows Hid] end.
    eapply evolves_trans; [apply evolves_rows, Hrows|]. do 3 tx_step H.
    tx_step H. match goal with Hr : write_row _ _ = _ |- _ => apply write_row_Ok in Hr as [Hw _] end.
    tx_step H. match goal with Hr : append_event _ _ _ _ = _ |- _ => apply append_event_Ok in Hr as Hev end.
    tx_step H. bool_prop. cbn [r_task task_id] in Hw. rewrite <- Hev in Hw.
    eapply (evolves_create now); [exact H5|exact Hw|done|]. split_and!; try done.
    eapply (queued_task_valid q by_); try done. by rewrite Hid.
Qed.

(** ** Histories of committed operations *)

Inductive op :=
  | OpCreate (q : CreateRemoteUpdateTaskRequest) (by_ : rstr)
  | OpList (target : option Z) (limit : Z)
  | OpDetail (id : Z)
  | OpRestart
  | OpSweep
  | OpClaim (target : Z) (q : RemoteUpdateClaimRequest)
  | OpRenew (target id : Z) (q : RemoteUpdateLeaseRenewRequest)
  | OpReport (target id : Z) (q : RemoteUpdateReportRequest)
  | OpReconcile (target id : Z) (q : RemoteUpdateReconcileRequest)
  | OpCancel (id : Z) (confirmation : rstr).

Definition run (o : op) (now : Z) : tx unit :=
  match o with
  | OpCreate q by_ => _ ← create q by_ now; mret tt
  | OpList target limit => _ ← list_tasks target limit now; mret tt
  | OpDetail id => _ ← detail id now; mret tt
  | OpRestart => reconcile_after_restart now
  | OpSweep => sweep now
  | OpClaim target q => _ ← claim target q now; mret tt
  | OpRenew target id q => _ ← renew target id q now; mret tt
  | OpReport target id q => _ ← report target id q now; mret tt
  | OpReconcile target id q => _ ← reconcile target id q now; mret tt
  | OpCancel id confirmation => _ ← cancel id confirmation now; mret tt
  end.

(** [Database::with_transaction]: commit on success, roll back on an error. *)
Definition commit (o : op) (now : Z) (c : catalog) : catalog :=
  match run o now c with Ok (_, c') => c' | Err _ => c end.

Fixpoint run_history (h : list (op * Z)) (c : catalog) : catalog :=
  match h with [] => c | (o, now) :: h => run_history h (commit o now c) end.

(** The clock of a history starts after [start] and does not go back. *)
Fixpoint clock_ok (start : Z) (h : list (op * Z)) : Prop :=
  match h with [] => True | (_, now) :: h => 0 < now ∧ start ≤ now ∧ clock_ok now h end.

Lemma run_evolves o now c u c' :
  keyed c → (∀ n, uuid_v4 n ≠ 0) → 0 < now → run o now c = Ok (u, c') → evolves now c c'.
Proof.
  intros Hk Hu Hn. destruct o; cbn [run]; intros H; try tx_step H; try tx_step H;
    eauto using list_tasks_evolves, detail_evolves, reconcile_after_restart_evolves, sweep_evolves,
      claim_evolves, renew_evolves, report_evolves, reconcile_evolves, cancel_evolves, create_evolves.
Qed.

Lemma commit_evolves o now c :
  keyed c → (∀ n, uuid_v4 n ≠ 0) → 0 < now → evolves now c (commit o now c).
Proof.
  intros Hk Hu Hn. unfold commit. destruct (run o now c) as [[u c']|] eqn:H; [|apply evolves_refl].
  by eapply run_evolves.
Qed.

(** ** Invariants of the stored tasks *)

(** Actions that change the installation are handed out at most once. *)
Definition claimed_at_most_once (t : RemoteUpdateTask) : Prop :=
  changes_installation (action t) = true → attempt t ≤ 1 ∧ (state t = SQueued → attempt t ≤ 0).
Record task_inv (now : Z) (t : RemoteUpdateTask) : Prop := {
  ti_readable : valid t ∨ shortened_lease t;
  ti_updated : updated_unix_seconds t ≤ now;
  ti_once : claimed_at_most_once t;
}.

Lemma task_inv_later now now' t : now ≤ now' → task_inv now t → task_inv now' t.
Proof. intros Hle []. split; [done|lia|done]. Qed.

Lemma fresh_task_inv now t : fresh_task now t → task_inv now t.
Proof. intros (Hv & Hs & Ha & _ & Hu). split; [by left|lia|]. intros _. lia. Qed.

Lemma unsafe_not_requeued a : changes_installation a = true → safe_to_requeue_after_lease_loss a = false.
Proof. by destruct a. Qed.

Lemma task_step_once now t t' : task_step now t t' → claimed_at_most_once t → claimed_at_most_once t'.
Proof.
  intros Hs Ho. pose proof (task_step_identity now t t' Hs) as [(_ & _ & _ & Ea & _) _].
  unfold claimed_at_most_once in *. rewrite Ea. intros Hci. destruct (Ho Hci) as [H1 H0].
  destruct Hs as [Hv Hl Hov|worker deadline Hv Hq Ha Hw Hd|Hv Hq Ha
    |g seconds deadline Hv Hl Hov Htr Hgl Hs Hd Hnd|r t' kind Hv Hl Hov Hr H|Hv Ht Hc Hov].
  - destruct (apply_lost_lease_identity t now) as [_ ->]. split; [done|].
    unfold apply_lost_lease. rewrite (unsafe_not_requeued _ Hci). by repeat case_match.
  - unfold claimed. task_cbn. specialize (H0 Hq). split; [lia|done].
  - unfold exhausted. by task_cbn.
  - split; [done|]. unfold renewed. task_cbn. by repeat case_match.
  - destruct (report_identity _ _ _ _ _ H) as (_ & -> & _). split; [done|]. intros Hq.
    unfold apply_worker_report in H. repeat case_match; simplify_eq; task_cbn; try done;
      by rewrite Hq in Hl.
  - destruct (cancelled_identity now t) as [_ ->]. split; [done|]. unfold cancelled. by case_match.
Qed.

Lemma task_step_inv now t t' : 0 < now → task_step now t t' → task_inv now t → task_inv now t'.
Proof.
  intros Hn Hs [_ Hu Ho]. pose proof (task_step_identity now t t' Hs) as [_ Hu'].
  split; [by eapply task_step_valid|lia|by eapply task_step_once].
Qed.

Lemma task_steps_inv now t t' : 0 < now → rtc (task_step now) t t' → task_inv now t → task_inv now t'.
Proof. intros Hn. induction 1; eauto using task_step_inv. Qed.

Lemma evolves_inv now c c' :
  0 < now → evolves now c c' → map_Forall (λ _ w, task_inv now (r_task w)) (rows c) →
  map_Forall (λ _ w, task_inv now (r_task w)) (rows c').
Proof.
  intros Hn He Hc id w' Hw'. destruct (rows c !! id) as [w|] eqn:Hw.
  - destruct (ev_kept _ _ _ He id w Hw) as (w2 & Hw2 & Hst). rewrite Hw' in Hw2. injection Hw2 as <-.
    eapply task_steps_inv; [done|done|]. by apply (Hc id).
  - destruct (ev_new _ _ _ He id w' Hw' Hw) as (t0 & Hf & Hst).
    eapply task_steps_inv; [done|done|]. by apply fresh_task_inv.
Qed.

Lemma run_history_task_inv h start last c :
  (∀ n, uuid_v4 n ≠ 0) → keyed c → map_Forall (λ _ w, task_inv start (r_task w)) (rows c) → clock_ok start h →
  start ≤ last → Forall (λ o, o.2 ≤ last) h →
  map_Forall (λ _ w, task_inv last (r_task w)) (rows (run_history h c)).
Proof.
  intros Hu. revert start c. induction h as [|[o now] h IH]; intros start c Hk Hc Hclk Hle HF; cbn [run_history].
  - intros id w Hw. eapply task_inv_later; [done|]. by apply (Hc id).
  - apply Forall_cons in HF as [Ho HF]. destruct Hclk as (Hn & Hsn & Hclk). pose proof (commit_evolves o now c Hk Hu Hn) as He.
    apply (IH now); [by apply He| |done..]. apply (evolves_inv now c); [done..|].
    intros id w Hw. eapply task_inv_later; [done|]. by apply (Hc id).
Qed.

Fixpoint last_time (start : Z) (h : list (op * Z)) : Z :=
  match h with [] => start | (_, now) :: h => last_time now h end.
Lemma clock_last start h : clock_ok start h → start ≤ last_time start h ∧ Forall (λ o, o.2 ≤ last_time start h) h.
Proof.
  revert start. induction h as [|[o now] h IH]; intros start H; cbn; [by split; [lia|]|].
  destruct H as (_ & Hle & H). destruct (IH now H) as [H1 H2]. split; [lia|]. by constructor.
Qed.

Lemma empty_history_inv h c id w :
  (∀ n, uuid_v4 n ≠ 0) → rows c = ∅ → clock_ok 0 h → rows (run_history h c) !! id = Some w →
  task_inv (last_time 0 h) (r_task w).
Proof.
  intros Hu He Hclk. destruct (clock_last 0 h Hclk) as [H0 HF].
  apply (run_history_task_inv h 0); try done; unfold keyed; rewrite He; apply map_Forall_empty.
Qed.

(** A terminal task takes no step. *)
Lemma terminal_no_step now t t' : is_terminal (state t) = true → ¬ task_step now t t'.
Proof. intros Ht Hs. destruct Hs; destruct (state t); done. Qed.

Lemma terminal_steps now t t' : is_terminal (state t) = true → rtc (task_step now) t t' → t' = t.
Proof. intros Ht Hs. inversion Hs as [|? t1 ? H1]; subst; [done|]. by apply terminal_no_step in H1. Qed.

Lemma terminal_row_kept h start c id w :
  (∀ n, uuid_v4 n ≠ 0) → keyed c → clock_ok start h → rows c !! id = Some w →
  is_terminal (state (r_task w)) = true →
  ∃ w', rows (run_history h c) !! id = Some w' ∧ r_task w' = r_task w.
Proof.
  intros Hu. revert start c w. induction h as [|[o now] h IH]; intros start c w Hk Hclk Hw Ht; cbn [run_history].
  { by exists w. }
  destruct Hclk as (Hn & _ & Hclk). pose proof (commit_evolves o now c Hk Hu Hn) as He.
  destruct (ev_kept _ _ _ He id w Hw) as (w1 & Hw1 & Hst). apply terminal_steps in Hst; [|done].
  destruct (IH now (commit o now c) w1) as (w2 & Hw2 & E2); [by apply He|done|done|by rewrite Hst|].
  exists w2. split; [done|congruence].
Qed.

(** ** Uniqueness *)

(** [m] keeps [P] when it commits. *)
Definition preserves {A} (P : catalog → Prop) (m : tx A) : Prop := ∀ c a c', P c → m c = Ok (a, c') → P c'.

Definition rows_unique (c : catalog) : Prop :=
  keyed c ∧
  ∀ i j v w, rows c !! i = Some v → rows c !! j = Some w → i ≠ j →
    ¬ (requested_by (r_task v) = requested_by (r_task w) ∧
       idempotency_key (r_task v) = idempotency_key (r_task w)) ∧
    ¬ (is_active (state (r_task v)) = true ∧ is_active (state (r_task w)) = true ∧
       target_client_id (r_task v) = target_client_id (r_task w)).

Lemma unique_with_spec w others :
  unique_with w others = true → ∀ i v, others !! i = Some v →
  ¬ (requested_by (r_task v) = requested_by (r_task w) ∧ idempotency_key (r_task v) = idempotency_key (r_task w)) ∧
  ¬ (is_active (state (r_task v)) = true ∧ is_active (state (r_task w)) = true ∧
     target_client_id (r_task v) = target_client_id (r_task w)).
Proof.
  unfold unique_with. rewrite forallb_forall. intros H i v Hv.
  assert (In v (map_to_list others).*2) as Hin.
  { apply list_elem_of_In, list_elem_of_fmap. exists (i, v). split; [done|]. by apply elem_of_map_to_list. }
  specialize (H v Hin). apply andb_true_iff in H as [H1 H2]. apply negb_true_iff in H1, H2.
  split; [intros [E1 E2]|intros (E1 & E2 & E3)].
  - by rewrite !bool_decide_eq_true_2 in H1.
  - rewrite E1, E2, E3, Z.eqb_refl in H2. done.
Qed.

Lemma write_row_unique w : preserves rows_unique (write_row w).
Proof.
  intros c u c' [Hk Hun] H. unfold write_row in H. tx_step H. destruct (_ && _) eqn:E in H; [|done]. bool_prop.
  unfold put in H. injection H as <- <-. cbn [rows] in *.
  match goal with Hu : unique_with _ _ = true |- _ => pose proof (unique_with_spec _ _ Hu) as Hw end.
  split; unfold keyed; cbn [rows].
  - intros j v. by intros [[<- <-]|[Hne Hv]]%lookup_insert_Some; [|apply Hk].
  - intros i j v1 v2 [[<- <-]|[Hi Hv1]]%lookup_insert_Some [[<- <-]|[Hj Hv2]]%lookup_insert_Some Hne.
    + done.
    + specialize (Hw j v2). rewrite lookup_delete_ne in Hw by done. destruct (Hw Hv2) as [N1 N2].
      split; [intros [E1 E2]; by apply N1|]. intros (E1 & E2 & E3). by apply N2.
    + specialize (Hw i v1). rewrite lookup_delete_ne in Hw by done. by apply Hw.
    + by apply (Hun i j).
Qed.

Lemma preserves_ret {A} P (a : A) : preserves P (mret a).
Proof. intros c b c' Hc H. by tx_step H. Qed.
Lemma preserves_fail {A} P e : preserves P (@fail A e).
Proof. by intros c b c' Hc H. Qed.
Lemma preserves_get P : preserves P get.
Proof. intros c b c' Hc H. by tx_step H. Qed.
Lemma preserves_guard P b e : preserves P (guard_tx b e).
Proof. intros c u c' Hc H. by tx_step H. Qed.
Lemma preserves_require {A} P (o : option A) e : preserves P (require o e).
Proof. intros c u c' Hc H. by tx_step H. Qed.
Lemma preserves_contract P r : preserves P (contract r).
Proof. intros c u c' Hc H. by tx_step H. Qed.
Lemma preserves_now P v : preserves P (now_i64 v).
Proof. intros c u c' Hc H. by tx_step H. Qed.
Lemma preserves_bind {A B} P (m : tx A) (k : A → tx B) :
  preserves P m → (∀ a, preserves P (k a)) → preserves P (m ≫= k).
Proof. intros Hm Hk c b c' Hc H. apply tx_bind_Ok in H as (a & c1 & H1 & H). eapply Hk; [|done]. by eapply Hm. Qed.
Lemma preserves_for_each {A} P (f : A → tx unit) l : (∀ a, preserves P (f a)) → preserves P (for_each f l).
Proof. intros Hf. induction l; cbn [for_each]; auto using preserves_ret, preserves_bind. Qed.
Lemma preserves_traverse {A B} P (f : A → tx B) l : (∀ a, preserves P (f a)) → preserves P (traverse f l).
Proof. intros Hf. induction l; cbn [traverse]; auto using preserves_ret, preserves_bind. Qed.

Lemma rows_unique_rows c c' : rows c' = rows c → rows_unique c → rows_unique c'.
Proof. unfold rows_unique, keyed. by intros ->. Qed.
Lemma new_v4_unique : preserves rows_unique new_v4.
Proof. intros c a c' Hc H. apply new_v4_Ok in H as [H _]. by eapply rows_unique_rows. Qed.
Lemma append_event_unique t kind now : preserves rows_unique (append_event t kind now).
Proof. intros c a c' Hc H. apply append_event_Ok in H. by eapply rows_unique_rows. Qed.

Ltac preserving :=
  repeat first
    [ apply write_row_unique | apply new_v4_unique | apply append_event_unique
    | apply preserves_ret | apply preserves_fail | apply preserves_get | apply preserves_guard
    | apply preserves_require | apply preserves_contract | apply preserves_now
    | apply preserves_for_each; intros ? | apply preserves_traverse; intros ?
    | apply preserves_bind; [|intros ?] | progress cbv zeta | case_match ].

Lemma persist_unique t replay : preserves rows_unique (persist_task_after_report t replay).
Proof. unfold persist_task_after_report. preserving. Qed.

Lemma run_unique o now : preserves rows_unique (run o now).
Proof.
  destruct o; cbn [run];
    unfold create, list_tasks, detail, reconcile_after_restart, sweep, claim, renew, report, reconcile, cancel,
      own_task, replay_terminal_report, terminal_report_replay, validate_terminal_reconcile,
      validate_active_reconcile, validate_worker_report_transition, validate_requested_by, authorize_lease,
      oldest_queued_task, active_leased_tasks, reconcile_expired_leases, expired_leased_tasks,
      reconcile_lost_lease, task_by_id, task_by_idempotency_key, read_task, checked_deadline;
    preserving; try apply persist_unique; preserving.
Qed.

Lemma history_unique h c : rows_unique c → rows_unique (run_history h c).
Proof.
  revert c. induction h as [|[o now] h IH]; intros c Hc; cbn [run_history]; [done|]. apply IH. unfold commit.
  destruct (run o now c) as [[u c']|] eqn:H; [|done]. by eapply run_unique.
Qed.

(** ** An unreadable row *)

Lemma read_task_Err w c : ¬ valid (r_task w) → read_task w c = Err UStorage.
Proof.
  intros Hv. unfold read_task, validate_loaded_task.
  destruct (validate_task version_parses (r_task w)) as [[]|]; [done|]. cbn [is_ok]. by rewrite !andb_false_r.
Qed.

Lemma read_task_cases w c : read_task w c = Ok (r_task w, c) ∨ read_task w c = Err UStorage.
Proof. unfold read_task. case_match; [by left|by right]. Qed.

Lemma traverse_read_Err l w c : w ∈ l → ¬ valid (r_task w) → traverse read_task l c = Err UStorage.
Proof.
  induction l as [|v l IH]; [by intros Hin%elem_of_nil|]. intros Hin Hv. cbn [traverse]. unfold mbind, tx_bind.
  destruct (read_task_cases v c) as [Ev|Ev]; rewrite Ev; [|done].
  apply elem_of_cons in Hin as [->|Hin]; [by rewrite read_task_Err in Ev|]. by rewrite IH.
Qed.

(** A leased row that cannot be read stops the recovery of expired leases. *)
Lemma reconcile_expired_Err target now c id w :
  keyed c → rows c !! id = Some w → of_client target w = true → leased_state (state (r_task w)) = true →
  lease_over now (r_task w) = true → now ≤ I64_MAX → ¬ valid (r_task w) →
  reconcile_expired_leases target now c = Err UStorage.
Proof.
  intros Hk Hw Hcl Hl Ho Hn Hv. unfold reconcile_expired_leases, expired_leased_tasks, mbind, tx_bind, now_i64.
  rewrite (proj2 (Z.leb_le now I64_MAX)) by done. cbn [get mret tx_ret].
  rewrite (traverse_read_Err _ w); [done| |done]. rewrite order_by_perm, list_elem_of_filter.
  split; [by rewrite Hcl, Hl, Ho|]. apply elem_of_table; [done|]. by rewrite (Hk _ _ Hw).
Qed.

(** ** Idempotent creation *)

Lemma history_keeps_identity h start c id w :
  (∀ n, uuid_v4 n ≠ 0) → keyed c → clock_ok start h → rows c !! id = Some w →
  keyed (run_history h c) ∧ ∃ w', rows (run_history h c) !! id = Some w' ∧ same_identity (r_task w) (r_task w').
Proof.
  intros Hu. revert start c w. induction h as [|[o now] h IH]; intros start c w Hk Hclk Hw; cbn [run_history].
  { split; [done|]. by exists w. }
  destruct Hclk as (Hn & _ & Hclk). pose proof (commit_evolves o now c Hk Hu Hn) as He.
  destruct (ev_kept _ _ _ He id w Hw) as (w1 & Hw1 & Hst). apply task_steps_identity in Hst.
  destruct (IH now (commit o now c) w1) as (Hk' & w2 & Hw2 & E2); [by apply He|done|done|].
  split; [done|]. exists w2. split; [done|]. by eapply same_identity_trans.
Qed.

(** What a successful creation returns: the stored task of the key. *)
Lemma create_Ok q by_ now c t c' :
  keyed c → create q by_ now c = Ok (t, c') →
  (∃ w, rows c' !! task_id t = Some w ∧ r_task w = t ∧ requested_by t = by_ ∧
        idempotency_key t = cr_idempotency_key q) ∧
  ((∃ id w, rows c !! id = Some w ∧ requested_by (r_task w) = by_ ∧
            idempotency_key (r_task w) = cr_idempotency_key q) →
   (∃ v, rows c !! task_id t = Some v ∧ requested_by (r_task v) = by_ ∧
         idempotency_key (r_task v) = cr_idempotency_key q) ∧
   ∀ id, rows c !! id = None → rows c' !! id = None).
Proof.
  intros Hk. unfold create. intros H. tx_step H. tx_step H.
  pose proof H1 as Hby. apply guard_tx_Ok in Hby as [_ ->]. cbv zeta in H. tx_step H. tx_step H.
  apply tx_bind_Ok in H as (found & c1 & Hfound & H). pose proof Hfound as Hlook.
  apply task_by_idempotency_key_Ok in Hfound as [-> Hex]; [|done]. destruct found as [t0|].
  - destruct (Hex t0 eq_refl) as (E1 & E2 & w0 & Hw0 & Hwt). tx_step H. tx_step H. tx_step H.
    match goal with Hr : reconcile_expired_leases _ _ _ = _ |- _ =>
      apply reconcile_expired_evolves in Hr as (He & _ & Hnone); [|done] end.
    destruct (ev_kept _ _ _ He _ w0 Hw0) as (w1 & Hw1 & Hst). apply task_steps_identity in Hst.
    rewrite Hwt in Hst. destruct Hst as (_ & Eid & _ & _ & Eby & Ekey & _).
    tx_step H. match goal with Hr : task_by_id _ _ = _ |- _ => apply task_by_id_Ok in Hr as [-> Ho] end.
    tx_step H. subst. destruct Ho as (w2 & Hw2 & -> & _). rewrite Hw1 in Hw2. injection Hw2 as <-.
    tx_step H. match goal with Hr : append_event _ _ _ _ = _ |- _ => apply append_event_Ok in Hr as Hev end.
    tx_step H. split.
    + exists w1. rewrite Hev, Eid. split_and!; congruence.
    + intros _. rewrite Eid, Hw0. split; [exists w0; split_and!; congruence|]. intros id Hn. rewrite Hev. by apply Hnone.
  - tx_step H. match goal with Hr : reconcile_expired_leases _ _ _ = _ |- _ =>
      apply reconcile_expired_evolves in Hr as [He _]; [|done] end.
    do 3 tx_step H. tx_step H.
    match goal with Hr : new_v4 _ = _ |- _ => apply new_v4_Ok in Hr as [Hrows Hid] end. do 3 tx_step H.
    tx_step H. match goal with Hr : write_row _ _ = _ |- _ => apply write_row_Ok in Hr as [Hw _] end.
    tx_step H. match goal with Hr : append_event _ _ _ _ = _ |- _ => apply append_event_Ok in Hr as Hev end.
    tx_step H. cbn [r_task task_id] in Hw. rewrite <- Hev in Hw. cbn [task_id requested_by idempotency_key]. split.
    + rewrite Hw, lookup_insert_eq. by eexists.
    + intros (id & w & Hin & Ew1 & Ew2). exfalso. unfold task_by_idempotency_key in Hlook. tx_step Hlook.
      destruct (filter _ _) as [|v l] eqn:E in Hlook; [|tx_step Hlook; by apply ret_Ok in Hlook as [? _]].
      apply (not_elem_of_nil w). rewrite <- E. apply list_elem_of_filter. split; [done|].
      apply elem_of_table; [done|]. by rewrite (Hk _ _ Hin).
Qed.

(** ** Claims *)

(** In every history of operations on an empty catalog with a clock that
    does not go back, each stored task passes the validation that reading it
    performs, except for one defect: a task that awaits its restart and whose
    lease was renewed to end before the resume deadline. *)
Theorem stored_tasks_readable_or_shortened h c id w :
  (∀ n, uuid_v4 n ≠ 0) → rows c = ∅ → clock_ok 0 h → rows (run_history h c) !! id = Some w →
  validate_task version_parses (r_task w) = Ok tt ∨ shortened_lease (r_task w).
Proof.
  intros Hu He Hclk Hw. by destruct (empty_history_inv h c id w Hu He Hclk Hw).
Qed.

(** In every such history an action that changes the installation (apply,
    recover, rollback) is claimed at most once: a lost lease never makes it
    available to another worker. *)
Theorem installation_change_claimed_once h c id w :
  (∀ n, uuid_v4 n ≠ 0) → rows c = ∅ → clock_ok 0 h → rows (run_history h c) !! id = Some w →
  changes_installation (action (r_task w)) = true →
  attempt (r_task w) ≤ 1 ∧ (state (r_task w) = SQueued → attempt (r_task w) ≤ 0).
Proof.
  intros Hu He Hclk Hw. by destruct (empty_history_inv h c id w Hu He Hclk Hw).
Qed.

(** A task that has succeeded, failed or been cancelled is never changed
    again by any history of operations. *)
Theorem terminal_tasks_never_change h start c id w :
  (∀ n, uuid_v4 n ≠ 0) → keyed c → clock_ok start h → rows c !! id = Some w →
  is_terminal (state (r_task w)) = true →
  ∃ w', rows (run_history h c) !! id = Some w' ∧ r_task w' = r_task w.
Proof. apply terminal_row_kept. Qed.

(** In every history of operations on an empty catalog, no client has two
    active tasks and no requester has two tasks under one idempotency key. *)
Theorem one_active_task_per_client h c i j v w :
  rows c = ∅ → rows (run_history h c) !! i = Some v → rows (run_history h c) !! j = Some w → i ≠ j →
  ¬ (requested_by (r_task v) = requested_by (r_task w) ∧ idempotency_key (r_task v) = idempotency_key (r_task w)) ∧
  ¬ (is_active (state (r_task v)) = true ∧ is_active (state (r_task w)) = true ∧
     target_client_id (r_task v) = target_client_id (r_task w)).
Proof.
  intros He Hv Hw. apply (history_unique h c); [|done..]. split; unfold keyed; rewrite He; [apply map_Forall_empty|].
  intros ? ? ? ? Hx. by rewrite lookup_empty in Hx.
Qed.

(** A worker report is accepted only from the client the task belongs to;
    on an unfinished task it needs the current owner's identity, the digest of
    the lease token and an unexpired lease, and its effect is exactly the
    reported transition on that one row. On a finished task it changes nothing
    stored. *)
Theorem report_needs_lease target id q now c t' c' :
  keyed c → report target id q now c = Ok (t', c') →
  ∃ w, rows c !! id = Some w ∧ target_client_id (r_task w) = target ∧
    if is_terminal (state (r_task w)) then rows c' = rows c
    else lease_owner (r_task w) = Some (rp_worker_instance_id q) ∧
         as_bytes <$> r_lease_token_sha256 w = Some (as_bytes (lease_token_sha256 (rp_lease_token q))) ∧
         lease_over now (r_task w) = false ∧
         (∃ kind, apply_worker_report (r_task w) (rp_report q) now = Ok (t', kind)) ∧
         (∃ w', rows c' !! id = Some w' ∧ r_task w' = t') ∧
         (∀ j, j ≠ id → rows c' !! j = rows c !! j).
Proof.
  intros Hk H. destruct (report_Ok target id q now c t' c' Hk H) as (w & Hw & Ht & _ & Hc).
  exists w. split_and!; [done..|]. destruct (is_terminal _); [done|].
  destruct Hc as (Ho & Htok & Hov & _ & _ & Hap & _ & [_ Hwr Hoth]). by split_and!.
Qed.

(** A sweep that commits leaves no leased task whose lease is over. *)
Theorem sweep_recovers_expired_leases now c u c' id w :
  keyed c → sweep now c = Ok (u, c') → rows c' !! id = Some w → leased_state (state (r_task w)) = true →
  lease_over now (r_task w) = false.
Proof. intros Hk H Hw Hl. apply reconcile_expired_evolves in H as (_ & H & _); [|done]. by eapply H. Qed.

(** C35. Renewing the lease of a task that awaits its restart to a time before
    the resume deadline commits a row that no longer validates: reading the
    task fails with a storage error, and once that lease is over every sweep
    of the whole catalog and every claim of the client fail with it too. *)
Theorem renewal_awaiting_restart_blocks_recovery target id q now c r c' w b now' :
  keyed c → renew target id q now c = Ok (r, c') → rows c !! id = Some w → restart (r_task w) = Some b →
  now + rn_requested_lease_seconds q < resume_deadline_unix_seconds b →
  now + rn_requested_lease_seconds q ≤ now' ≤ I64_MAX →
  task_by_id id c' = Err UStorage ∧ sweep now' c' = Err UStorage ∧
  ∀ q', validate_claim_request q' = Ok tt → claim target q' now' c' = Err UStorage.
Proof.
  intros Hk H Hw Hb Hlt Hnow. pose proof (ev_keyed _ _ _ (renew_evolves _ _ _ _ _ _ _ Hk H) Hk) as Hk'.
  destruct (renew_Ok target id q now c r c' Hk H) as (w0 & Hw0 & Ht & Hv & _ & _ & Hd & _ & Hstep & Hrows).
  rewrite Hw in Hw0. injection Hw0 as <-. specialize (Hd b Hb).
  set (w' := {| r_task := _ |}) in Hrows.
  assert (rows c' !! id = Some w') as Hw' by (by rewrite Hrows, lookup_insert_eq).
  assert (¬ valid (r_task w')) as Hinv.
  { intros Hv'. apply (valid_binding _ b) in Hv' as (_ & _ & E); [|done]. injection E as E. lia. }
  assert (leased_state (state (r_task w')) = true) as Hl by (unfold w', renewed; task_cbn; by repeat case_match).
  assert (lease_over now' (r_task w') = true) as Ho by (unfold lease_over; cbn; apply Z.leb_le; lia).
  split_and!.
  - unfold task_by_id, mbind, tx_bind. cbn [get]. by rewrite Hw', read_task_Err.
  - eapply (reconcile_expired_Err None now' c' id w'); try done. lia.
  - intros q' Hq'. apply validate_task_parts in Hv as ((_ & _ & Hnz & _) & _). rewrite Ht in Hnz.
    apply non_nil_Ok in Hnz. unfold claim, mbind, tx_bind, contract. rewrite Hnz, Hq'. cbn [mret tx_ret].
    rewrite (reconcile_expired_Err (Some target) now' c' id w'); try done; [|lia]. cbn. by apply Z.eqb_eq.
Qed.

(** Creation is idempotent: after a task was created under a key, and
    whatever operations were committed since, creating again under the same
    requester and key returns that same task and stores no new one. *)
Theorem create_idempotent q q' by_ now now' h c t t' c1 c2 :
  (∀ n, uuid_v4 n ≠ 0) → rows_unique c → clock_ok now h → cr_idempotency_key q' = cr_idempotency_key q →
  create q by_ now c = Ok (t, c1) → create q' by_ now' (run_history h c1) = Ok (t', c2) →
  task_id t' = task_id t ∧ ∀ id, rows (run_history h c1) !! id = None → rows c2 !! id = None.
Proof.
  intros Hu Hc Hclk Ekey H1 H2. pose proof (create_Ok _ _ _ _ _ _ (proj1 Hc) H1) as [(w1 & Hw1 & Ht1 & Eb1 & Ek1) _].
  assert (rows_unique c1) as Hc1 by (eapply (run_unique (OpCreate q by_) now c tt); [done|]; cbn; unfold mbind, tx_bind; by rewrite H1).
  destruct (history_keeps_identity h now c1 _ w1 Hu (proj1 Hc1) Hclk Hw1) as (Hkh & w & Hw & Hid).
  rewrite Ht1 in Hid. destruct Hid as (_ & _ & _ & _ & Eb & Ek & _).
  destruct (create_Ok _ _ _ _ _ _ Hkh H2) as [(w2 & Hw2 & Ht2 & Eb2 & Ek2) Hold].
  destruct Hold as [Hin Hnone]; [exists (task_id t), w; split_and!; congruence|]. split; [|done].
  destruct (decide (task_id t' = task_id t)) as [|Hne]; [done|exfalso].
  destruct Hin as (v & Hv & Ev1 & Ev2). apply (history_unique h) in Hc1 as [_ Hun].
  destruct (Hun _ _ _ _ Hv Hw Hne) as [Hkey _]. apply Hkey. split; congruence.
Qed.
(** The snapshot after a report shows what was reported. *)
Lemma report_answer t r now t' kind :
  valid t → leased_state (state t) = true → apply_worker_report t r now = Ok (t', kind) →
  match r with
  | Started g => bool_decide (state t' = SRunning) && bool_decide (stage t' = g)
  | AwaitingRestart plan =>
      match state t' with SRunning | SCancelRequested => true | _ => false end &&
      bool_decide (stage t' = GAwaitingRestart) &&
      match restart t' with Some b => binding_matches b plan | None => false end
  | Succeeded res => bool_decide (state t' = SSucceeded) && bool_decide (result_ t' = Some res)
  | Failed code recovery =>
      bool_decide (state t' = SFailed) && bool_decide (error_code t' = Some code) &&
      bool_decide (recovery_state t' = recovery)
  | Cancelled => bool_decide (state t' = SCancelled)
  end = true.
Proof.
  intros Hv Hl H. unfold apply_worker_report in H. destruct r as [g|plan|res|code rec|].
  - case_match; [|done]. injection H as <- <-. task_cbn. by rewrite !bool_decide_eq_true_2.
  - destruct (_ && _) eqn:E in H; [|destruct (_ && _) eqn:E2 in H; [|done]].
    + destruct (checked_add _ _ _); [|done]. destruct (validate_plan _ _ _); [|done]. injection H as <- <-.
      task_cbn. unfold binding_matches. cbn. by rewrite Z.eqb_refl, !bool_decide_eq_true_2.
    + injection H as <- <-. task_cbn. bool_prop. rewrite (bool_decide_eq_true_2 (stage t = _)) by done.
      destruct (valid_leased t Hv Hl) as (o & d & F). destruct (restart t); [|done].
      destruct (execution_not_special (action t)) as (N1 & N2 & _).
      destruct (lf_stage _ _ _ F) as [[Hs _]|[[Hs _]|(_ & _ & Hs)]]; [congruence..|].
      destruct (state t); try done; rewrite !andb_true_l; done.
  - case_match; [|done]. injection H as <- <-. task_cbn. by rewrite !bool_decide_eq_true_2.
  - case_match; [|done]. injection H as <- <-. task_cbn. by rewrite !bool_decide_eq_true_2.
  - case_match; [|done]. injection H as <- <-. task_cbn. by rewrite !bool_decide_eq_true_2.
Qed.

(** A client accepts what the server grants: the answer to a successful
    claim passes the client's own validation at that time, and the digest of
    the granted token is what the server stores for the task. *)
Theorem claim_accepted_by_client target q now c r c' :
  keyed c → (∀ n, uuid_v4 n ≠ 0) → 0 < now → map_Forall (λ _ w, task_inv now (r_task w)) (rows c) →
  claim target q now c = Ok (Some r, c') →
  validate_claim version_parses r target (cq_worker_instance_id q) now = Ok tt ∧
  ∃ w, rows c' !! task_id (c_task r) = Some w ∧ r_task w = c_task r ∧
       r_lease_token_sha256 w = Some (lease_token_sha256 (c_lease_token r)).
Proof.
  intros Hk Hu Hn Hinv H. destruct (claim_Ok target q now c r c' Hk H)
    as (c0 & w & He & Hw & Hv & Hq & Htg & Hat & Hwk & Hsec & Hd & Ht & Htok & Hrows).
  destruct (evolves_inv now c c0 Hn He Hinv _ _ Hw) as [_ Hup _].
  assert (now < c_lease_deadline_unix_seconds r) as Hlt.
  { rewrite Hd. unfold REMOTE_UPDATE_MIN_LEASE_SECONDS in *. lia. }
  split; [|eexists; rewrite Ht in Hrows |- *; by rewrite Hrows, lookup_insert_eq].
  unfold validate_claim. rewrite !bind_unit_Ok, if_Err_Ok. split; [|split; [|split; [|done]]].
  - rewrite Ht. by apply claim_valid.
  - apply non_nil_Ok. by rewrite Htok.
  - rewrite Ht. unfold claimed. task_cbn. rewrite Htg, Z.eqb_refl, !bool_decide_eq_true_2 by done.
    cbn. by apply Z.leb_gt.
Qed.

(** The client accepts the answer to a report: an accepted report on an
    unfinished task returns a valid snapshot that carries exactly what was
    reported. *)
Theorem report_accepted_by_client target id q now c t' c' w :
  keyed c → 0 < now → map_Forall (λ _ w, task_inv now (r_task w)) (rows c) →
  rows c !! id = Some w → is_terminal (state (r_task w)) = false →
  report target id q now c = Ok (t', c') →
  validate_report_response version_parses t' id target (action (r_task w)) (rp_report q) = Ok tt.
Proof.
  intros Hk Hn Hinv Hw Hterm H. destruct (report_Ok target id q now c t' c' Hk H) as (w0 & Hw0 & Htg & Hv & Hc).
  rewrite Hw in Hw0. injection Hw0 as <-. rewrite Hterm in Hc.
  destruct Hc as (_ & _ & Hov & Hl & Hrep & (kind & Hap) & _). destruct (Hinv id w Hw) as [_ Hup _].
  destruct (report_identity _ _ _ _ _ Hap) as ((_ & Eid & Etg & Eac & _) & _).
  assert (valid t') as Hv'.
  { destruct (is_terminal (state t')) eqn:E; [by eapply report_end_valid|by eapply report_kept_valid]. }
  pose proof (Hk _ _ Hw) as Hid. cbn in Hid. unfold validate_report_response.
  apply validate_task_parts in Hv' as Hparts. destruct Hparts as ((_ & _ & Hnz & _) & _).
  rewrite Hv'. cbn [mbind result_bind]. rewrite (proj2 (non_nil_Ok target)) by congruence. cbn.
  rewrite Eid, Etg, Eac, Hid, Htg, !Z.eqb_refl, bool_decide_eq_true_2 by done. cbn [negb orb].
  rewrite (report_answer _ _ _ _ _ Hv Hl Hap). done.
Qed.

(** The client accepts the answer to a reconciliation after its restart,
    unless the task was cancelled. *)
Theorem reconcile_accepted_by_client target id q now c r c' :
  keyed c → reconcile target id q now c = Ok (r, c') → state (rs_task r) ≠ SCancelled →
  validate_reconcile_response version_parses r id target q now = Ok tt.
Proof.
  intros Hk H Hnc. destruct (reconcile_Ok target id q now c r c' Hk H)
    as (Hid & Htg & Hac & Hv & Hreq & Hidnz & Htgnz & Hshape).
  unfold validate_reconcile_response. rewrite !bind_unit_Ok, if_Err_Ok, if_Ok_Err, Hid, Htg, Hac, !Z.eqb_refl,
    (bool_decide_eq_true_2 (rc_action q = _)), !non_nil_Ok by done. split_and!; try done.
  destruct (rs_state r); [|destruct Hshape as [Ht Hs]; destruct (state (rs_task r)); try done; by apply Hs].
  destruct Hshape as (Hl & Ho & Hov & b & Hb & Hg & Hm).
  destruct (valid_leased _ Hv Hl) as (o & d & F). rewrite Hb, Hm, Hg, Ho, !bool_decide_eq_true_2 by done.
  rewrite (lf_deadline _ _ _ F). pose proof (lease_over_deadline _ _ _ (lf_deadline _ _ _ F) Hov) as Hlt.
  apply Z.ltb_lt in Hlt. rewrite Hlt. destruct (execution_not_special (action (rs_task r))) as (N1 & N2 & _).
  destruct (lf_stage _ _ _ F) as [[Hs _]|[[Hs _]|(_ & _ & Hs)]]; [congruence..|].
  by destruct (state (rs_task r)).
Qed.
End catalog.

(** ** A concrete run *)

Definition demo_version (v : rstr) : bool := negb (bool_decide (v = [])).
Definition demo_sha256 (message : list Z) : list Z := replicate 31 0 ++ [foldr Z.add 0 message mod 256].
Definition demo_json (r : RemoteUpdateWorkerReport) : option (list Z) :=
  Some [match r with Started _ => 1 | AwaitingRestart _ => 2 | Succeeded _ => 3 | Failed _ _ => 4 | Cancelled => 5 end].
Definition demo_uuid (n : nat) : Z := Z.of_nat n + 100.

Abbreviation demo_run := (run_history demo_version demo_sha256 demo_json demo_uuid).

Definition demo_empty : catalog := {| clients := {[ 1 ]}; rows := ∅; events := []; drawn := 0 |}.
Definition demo_create : CreateRemoteUpdateTaskRequest :=
  {| cr_target_client_id := 1; cr_action := Apply; cr_idempotency_key := lit "apply-0001";
     cr_confirmation := lit "UPDATE" |}.
Definition demo_plan : RemoteUpdateRestartPlan :=
  {| pl_operation_id := 9; pl_operation := OpApply; pl_from_version := lit "1.0.0"; pl_to_version := lit "1.1.0" |}.
Definition demo_report (r : RemoteUpdateWorkerReport) : RemoteUpdateReportRequest :=
  {| rp_worker_instance_id := 7; rp_lease_token := 102; rp_report := r |}.
Definition demo_renewal : RemoteUpdateLeaseRenewRequest :=
  {| rn_worker_instance_id := 7; rn_lease_token := 102; rn_requested_lease_seconds := 60; rn_stage := GAwaitingRestart |}.

(** Create, claim and start an update, then wait for the restart; or fail. *)
Definition demo_started : list (op * Z) :=
  [(OpCreate demo_create (lit "ops"), 1000);
   (OpClaim 1 {| cq_worker_instance_id := 7; cq_requested_lease_seconds := 60 |}, 1010);
   (OpReport 1 100 (demo_report (Started GApplying)), 1020)].
Definition demo_awaiting : list (op * Z) :=
  demo_started ++ [(OpReport 1 100 (demo_report (AwaitingRestart demo_plan)), 1030)].
Definition demo_failed : list (op * Z) :=
  demo_started ++ [(OpReport 1 100 (demo_report (Failed ApplyFailed RStatusRequired)), 1030)].
Definition demo_retry : CreateRemoteUpdateTaskRequest :=
  {| cr_target_client_id := 1; cr_action := Check; cr_idempotency_key := lit "check-0001";
     cr_confirmation := lit "CHECK" |}.

Lemma demo_uuid_not_nil n : demo_uuid n ≠ 0.
Proof. unfold demo_uuid. lia. Qed.
Ltac decided := apply (bool_decide_unpack _); vm_compute; exact I.

Lemma stored_tasks_readable_or_shortened_witness :
  ∃ w, rows (demo_run demo_awaiting demo_empty) !! 100 = Some w ∧
       (validate_task demo_version (r_task w) = Ok tt ∨ shortened_lease demo_version (r_task w)).
Proof.
  destruct (rows (demo_run demo_awaiting demo_empty) !! 100) as [w|] eqn:E; [|by vm_compute in E].
  exists w. split; [done|]. refine (stored_tasks_readable_or_shortened _ _ _ _ _ _ 100 w demo_uuid_not_nil _ _ E);
    [done|cbn; lia].
Defined.

Lemma installation_change_claimed_once_witness :
  ∃ w, rows (demo_run demo_failed demo_empty) !! 100 = Some w ∧ attempt (r_task w) = 1 ∧
       (attempt (r_task w) ≤ 1 ∧ (state (r_task w) = SQueued → attempt (r_task w) ≤ 0)).
Proof.
  destruct (rows (demo_run demo_failed demo_empty) !! 100) as [w|] eqn:E; [|by vm_compute in E].
  exists w. split; [done|]. split; [vm_compute in E; by injection E as <-|].
  refine (installation_change_claimed_once _ _ _ _ _ _ 100 w demo_uuid_not_nil _ _ E _);
    [done|cbn; lia|]. vm_compute in E. by injection E as <-.
Defined.

Lemma terminal_tasks_never_change_witness :
  ∃ w w', rows (demo_run demo_failed demo_empty) !! 100 = Some w ∧
    rows (demo_run [(OpCreate demo_retry (lit "ops"), 1040); (OpSweep, 5000); (OpCancel 100 (lit "CANCEL"), 5001)]
            (demo_run demo_failed demo_empty)) !! 100 = Some w' ∧ r_task w' = r_task w.
Proof.
  destruct (rows (demo_run demo_failed demo_empty) !! 100) as [w|] eqn:E; [|by vm_compute in E].
  exists w. destruct (terminal_tasks_never_change demo_version demo_sha256 demo_json demo_uuid
    [(OpCreate demo_retry (lit "ops"), 1040); (OpSweep, 5000); (OpCancel 100 (lit "CANCEL"), 5001)] 1030
    (demo_run demo_failed demo_empty) 100 w) as (w' & Hw' & Ht); [exact demo_uuid_not_nil|decided|cbn; lia|exact E|vm_compute in E; by injection E as <-|].
  exists w'. split; [reflexivity|]. split; [exact Hw'|exact Ht].
Defined.

Lemma one_active_task_per_client_witness :
  ∃ v w, rows (demo_run (demo_failed ++ [(OpCreate demo_retry (lit "ops"), 1040)]) demo_empty) !! 100 = Some v ∧
    rows (demo_run (demo_failed ++ [(OpCreate demo_retry (lit "ops"), 1040)]) demo_empty) !! 106 = Some w ∧
    ¬ (requested_by (r_task v) = requested_by (r_task w) ∧ idempotency_key (r_task v) = idempotency_key (r_task w)) ∧
    ¬ (is_active (state (r_task v)) = true ∧ is_active (state (r_task w)) = true ∧
       target_client_id (r_task v) = target_client_id (r_task w)).
Proof.
  destruct (rows (demo_run (demo_failed ++ [(OpCreate demo_retry (lit "ops"), 1040)]) demo_empty) !! 100)
    as [v|] eqn:E; [|by vm_compute in E].
  destruct (rows (demo_run (demo_failed ++ [(OpCreate demo_retry (lit "ops"), 1040)]) demo_empty) !! 106)
    as [w|] eqn:F; [|by vm_compute in F].
  exists v, w. split; [done|]. split; [done|].
  by refine (one_active_task_per_client _ _ _ _ _ _ 100 106 v w _ E F _).
Defined.

Lemma report_needs_lease_witness :
  ∃ t' c', report demo_version demo_sha256 demo_json demo_uuid 1 100 (demo_report (AwaitingRestart demo_plan))
             1030 (demo_run demo_started demo_empty) = Ok (t', c') ∧
    ∃ w, rows (demo_run demo_started demo_empty) !! 100 = Some w ∧ target_client_id (r_task w) = 1 ∧
      if is_terminal (state (r_task w)) then rows c' = rows (demo_run demo_started demo_empty)
      else lease_owner (r_task w) = Some 7 ∧
           as_bytes <$> r_lease_token_sha256 w = Some (as_bytes (lease_token_sha256 demo_sha256 102)) ∧
           lease_over 1030 (r_task w) = false ∧
           (∃ kind, apply_worker_report demo_version (r_task w) (AwaitingRestart demo_plan) 1030 = Ok (t', kind)) ∧
           (∃ w', rows c' !! 100 = Some w' ∧ r_task w' = t') ∧
           (∀ j, j ≠ 100 → rows c' !! j = rows (demo_run demo_started demo_empty) !! j).
Proof.
  destruct (report demo_version demo_sha256 demo_json demo_uuid 1 100 (demo_report (AwaitingRestart demo_plan))
              1030 (demo_run demo_started demo_empty)) as [[t' c']|] eqn:E; [|by vm_compute in E].
  exists t', c'. split; [done|]. refine (report_needs_lease _ _ _ _ 1 100 _ 1030 _ t' c' _ E). decided.
Defined.

Lemma sweep_recovers_expired_leases_witness :
  ∃ c' w, sweep demo_version demo_uuid 1050 (demo_run demo_started demo_empty) = Ok (tt, c') ∧
    rows c' !! 100 = Some w ∧ lease_over 1050 (r_task w) = false.
Proof.
  destruct (sweep demo_version demo_uuid 1050 (demo_run demo_started demo_empty)) as [[[] c']|] eqn:E;
    [|by vm_compute in E].
  destruct (rows c' !! 100) as [w|] eqn:F.
  - exists c', w. split; [done|]. split; [done|].
    refine (sweep_recovers_expired_leases _ _ 1050 _ tt c' 100 w _ E F _); [decided|].
    vm_compute in E. injection E as <-. vm_compute in F. by injection F as <-.
  - vm_compute in E. injection E as <-. vm_compute in F. discriminate F.
Defined.

(** An update that awaits its restart, renewed once: the sweep fails from then on. *)
Lemma renewal_awaiting_restart_blocks_recovery_witness :
  ∃ r c', renew demo_version demo_sha256 demo_uuid 1 100 demo_renewal 1040 (demo_run demo_awaiting demo_empty) = Ok (r, c') ∧
    task_by_id demo_version 100 c' = Err UStorage ∧ sweep demo_version demo_uuid 1100 c' = Err UStorage ∧
    ∀ q', validate_claim_request q' = Ok tt → claim demo_version demo_sha256 demo_uuid 1 q' 1100 c' = Err UStorage.
Proof.
  destruct (renew demo_version demo_sha256 demo_uuid 1 100 demo_renewal 1040 (demo_run demo_awaiting demo_empty))
    as [[r c']|] eqn:E; [|by vm_compute in E].
  destruct (rows (demo_run demo_awaiting demo_empty) !! 100) as [w|] eqn:F; [|by vm_compute in F].
  destruct (restart (r_task w)) as [b|] eqn:G; [|vm_compute in F; by injection F as <-].
  assert (resume_deadline_unix_seconds b = 2830) as Hb.
  { vm_compute in F. injection F as <-. vm_compute in G. by injection G as <-. }
  exists r, c'. split; [reflexivity|].
  refine (renewal_awaiting_restart_blocks_recovery _ _ _ 1 100 _ 1040 _ r c' w b 1100 _ E F G _ _);
    [decided|rewrite Hb; reflexivity|clear; vm_compute; split; discriminate].
Defined.

Lemma create_idempotent_witness :
  ∃ t c1 t' c2, create demo_version demo_sha256 demo_uuid demo_create (lit "ops") 1000 demo_empty = Ok (t, c1) ∧
    create demo_version demo_sha256 demo_uuid demo_create (lit "ops") 1200
      (demo_run (drop 1 demo_failed) c1) = Ok (t', c2) ∧
    task_id t' = task_id t ∧ ∀ id, rows (demo_run (drop 1 demo_failed) c1) !! id = None → rows c2 !! id = None.
Proof.
  destruct (create demo_version demo_sha256 demo_uuid demo_create (lit "ops") 1000 demo_empty)
    as [[t c1]|] eqn:E; [|by vm_compute in E].
  destruct (create demo_version demo_sha256 demo_uuid demo_create (lit "ops") 1200
      (demo_run (drop 1 demo_failed) c1)) as [[t' c2]|] eqn:F.
  - exists t, c1, t', c2. split; [reflexivity|]. split; [exact F|].
    refine (create_idempotent _ _ _ _ demo_create demo_create _ 1000 1200 _ demo_empty t t' c1 c2
              demo_uuid_not_nil _ _ _ E F); [|clear; cbn; lia|reflexivity].
    clear. split; [apply map_Forall_empty|]. intros i j v w H. by rewrite (lookup_empty i : rows demo_empty !! i = None) in H.
  - vm_compute in E. injection E as <- <-. vm_compute in F. discriminate F.
Defined.

(** The invariant of a run, by its clock. *)
Lemma demo_task_inv h now :
  clock_ok 0 h → Forall (λ o, o.2 ≤ now) h → 0 < now →
  map_Forall (λ _ w, task_inv demo_version now (r_task w)) (rows (demo_run h demo_empty)).
Proof.
  intros Hclk Hle Hn. apply (run_history_task_inv _ _ _ _ h 0 now); try done.
  all: first [exact demo_uuid_not_nil|lia|apply map_Forall_empty].
Qed.

Lemma claim_accepted_by_client_witness :
  ∃ r c', claim demo_version demo_sha256 demo_uuid 1 {| cq_worker_instance_id := 7; cq_requested_lease_seconds := 60 |}
            1010 (demo_run (take 1 demo_started) demo_empty) = Ok (Some r, c') ∧
    validate_claim demo_version r 1 7 1010 = Ok tt ∧
    ∃ w, rows c' !! task_id (c_task r) = Some w ∧ r_task w = c_task r ∧
         r_lease_token_sha256 w = Some (lease_token_sha256 demo_sha256 (c_lease_token r)).
Proof.
  destruct (claim demo_version demo_sha256 demo_uuid 1 {| cq_worker_instance_id := 7; cq_requested_lease_seconds := 60 |}
            1010 (demo_run (take 1 demo_started) demo_empty)) as [[[r|] c']|] eqn:E;
    [|vm_compute in E; discriminate E|vm_compute in E; discriminate E].
  exists r, c'. split; [reflexivity|].
  refine (claim_accepted_by_client _ _ _ 1 _ 1010 _ r c' _ demo_uuid_not_nil _ _ E);
    [decided|reflexivity|apply demo_task_inv; [clear; cbn; lia|decided|reflexivity]].
Defined.

Lemma report_accepted_by_client_witness :
  ∃ t' c', report demo_version demo_sha256 demo_json demo_uuid 1 100 (demo_report (AwaitingRestart demo_plan))
             1030 (demo_run demo_started demo_empty) = Ok (t', c') ∧
    validate_report_response demo_version t' 100 1 Apply (AwaitingRestart demo_plan) = Ok tt.
Proof.
  destruct (report demo_version demo_sha256 demo_json demo_uuid 1 100 (demo_report (AwaitingRestart demo_plan))
              1030 (demo_run demo_started demo_empty)) as [[t' c']|] eqn:E; [|vm_compute in E; discriminate E].
  destruct (rows (demo_run demo_started demo_empty) !! 100) as [w|] eqn:F; [|vm_compute in F; discriminate F].
  exists t', c'. split; [reflexivity|].
  assert (action (r_task w) = Apply ∧ is_terminal (state (r_task w)) = false) as [<- Ht].
  { clear E. vm_compute in F. by injection F as <-. }
  refine (report_accepted_by_client _ _ _ _ 1 100 _ 1030 _ t' c' w _ _ _ F Ht E);
    [decided|reflexivity|apply demo_task_inv; [clear; cbn; lia|decided|reflexivity]].
Defined.

Lemma reconcile_accepted_by_client_witness :
  ∃ r c', reconcile demo_version demo_sha256 demo_uuid 1 100
            {| rc_worker_instance_id := 7; rc_lease_token := 102; rc_action := Apply; rc_plan := demo_plan |}
            1500 (demo_run demo_awaiting demo_empty) = Ok (r, c') ∧
    validate_reconcile_response demo_version r 100 1
      {| rc_worker_instance_id := 7; rc_lease_token := 102; rc_action := Apply; rc_plan := demo_plan |} 1500 = Ok tt.
Proof.
  destruct (reconcile demo_version demo_sha256 demo_uuid 1 100
            {| rc_worker_instance_id := 7; rc_lease_token := 102; rc_action := Apply; rc_plan := demo_plan |}
            1500 (demo_run demo_awaiting demo_empty)) as [[r c']|] eqn:E; [|vm_compute in E; discriminate E].
  exists r, c'. split; [reflexivity|].
  refine (reconcile_accepted_by_client _ _ _ 1 100 _ 1500 _ r c' _ E _); [decided|].
  vm_compute in E. injection E as <- _. discriminate.
Defined.
