(* ===== verification/UpdateLifecycle.v ===== *)
(** * The life cycle of remote update tasks ([crates/linklake-server/src/update_tasks.rs])

    A specification of the update catalog that does not use its transition
    functions: [transition] says, event by event, when a task may change and
    every column it has afterwards; [row_step] adds what becomes of the columns
    that guard the lease; [lifecycle] says which events each operation causes,
    on which rows. The theorem of the file is that every operation of
    [UpdateTasks], in every history, does exactly that: it first takes back the
    leases of its scope that have ended, all of them and no other, and then
    causes its own event, or none, on one row. *)

From S2P Require Import Prelude RustStr P2pProtocol RemoteUpdate UpdateTasks.
Local Open Scope Z_scope.

(** ** What the actions are *)

(** The stage in which an action is carried out. *)
Inductive works : RemoteUpdateAction → RemoteUpdateStage → Prop :=
  | works_check : works Check GChecking
  | works_download : works Download GDownloading
  | works_apply : works Apply GApplying
  | works_status : works Status GInspecting
  | works_recover : works Recover GRecovering
  | works_rollback : works Rollback GRollingBack.

(** Actions that may be run again when nobody knows how far they got. *)
Definition repeatable (a : RemoteUpdateAction) : Prop := a = Check ∨ a = Download ∨ a = Status.

(** Actions that end with a restart of the client. *)
Inductive restarts : RemoteUpdateAction → RemoteLocalUpdateOperation → Prop :=
  | restarts_apply : restarts Apply OpApply
  | restarts_rollback : restarts Rollback OpRollback.

(** The result that belongs to an action. *)
Definition result_of (a : RemoteUpdateAction) (r : RemoteUpdateResult) : Prop :=
  match r with
  | ResCheck _ _ _ _ => a = Check
  | ResDownloaded _ _ _ _ => a = Download
  | ResInstalled _ o _ _ _ _ _ => restarts a o
  | ResStatus _ _ _ _ _ _ => a = Status ∨ a = Recover
  end.

(** The recovery a failed action may ask for. *)
Definition failure_of (a : RemoteUpdateAction) (code : RemoteUpdateErrorCode) (r : RemoteUpdateRecoveryState) : Prop :=
  code ≠ CodeCancelled ∧ (code = CodeFailedClosed → r = RFailedClosed) ∧
  (r = RFailedClosed ∨ (repeatable a ∧ r = RRetryable) ∨
   (¬ repeatable a ∧ (r = RStatusRequired ∨ r = RRollbackRequired))).

(** ** What a task shows *)

Definition held (t : RemoteUpdateTask) : Prop := state t = SClaimed ∨ state t = SRunning ∨ state t = SCancelRequested.
Definition ended (t : RemoteUpdateTask) : Prop := state t = SSucceeded ∨ state t = SFailed ∨ state t = SCancelled.
Definition lease_ended (now : Z) (t : RemoteUpdateTask) : Prop :=
  ∃ d, lease_deadline_unix_seconds t = Some d ∧ d ≤ now.
Definition lease_live (now : Z) (t : RemoteUpdateTask) : Prop :=
  ∃ d, lease_deadline_unix_seconds t = Some d ∧ now < d.
Definition lease_is (owner deadline : option Z) (b : option RemoteUpdateRestartBinding) (t : RemoteUpdateTask) : Prop :=
  lease_owner t = owner ∧ lease_deadline_unix_seconds t = deadline ∧ restart t = b.
Definition same_lease (t t' : RemoteUpdateTask) : Prop :=
  lease_is (lease_owner t) (lease_deadline_unix_seconds t) (restart t) t'.
Definition outcome_is (res : option RemoteUpdateResult) (code : option RemoteUpdateErrorCode) (completed : option Z)
    (t : RemoteUpdateTask) : Prop :=
  result_ t = res ∧ error_code t = code ∧ completed_unix_seconds t = completed.

(** [t'] is [t], changed at [now] to the given state, stage, recovery, number of
    claims and cancellation mark. *)
Definition becomes (now : Z) (t t' : RemoteUpdateTask) (s : RemoteUpdateTaskState) (g : RemoteUpdateStage)
    (r : RemoteUpdateRecoveryState) (claims : Z) (cancel : bool) : Prop :=
  same_identity t t' ∧ updated_unix_seconds t' = now ∧ state t' = s ∧ stage t' = g ∧ recovery_state t' = r ∧
  attempt t' = claims ∧ cancel_requested t' = cancel.

(** ** Events *)

Inductive event :=
  | LeaseLost
  | ClaimedBy (worker token seconds : Z)
  | ClaimsUsedUp
  | RenewedBy (worker token seconds : Z) (g : RemoteUpdateStage)
  | ReportedBy (worker token : Z) (r : RemoteUpdateWorkerReport)
  | CancelAsked.

(** A task can be cancelled without harm when its action was not begun or is
    repeatable. *)
Definition harmless (t : RemoteUpdateTask) : Prop := stage t = GClaimed ∨ repeatable (action t).

(** The deadline of a lease renewed at [now]: a task that awaits its restart
    never outlives the deadline of the restart. *)
Definition renewed_until (now seconds deadline : Z) (t : RemoteUpdateTask) : Prop :=
  match restart t with
  | Some b => deadline = Z.min (now + seconds) (resume_deadline_unix_seconds b)
  | None => deadline = now + seconds
  end.

Definition binding_of (plan : RemoteUpdateRestartPlan) (now : Z) : RemoteUpdateRestartBinding :=
  {| b_operation_id := pl_operation_id plan; b_operation := pl_operation plan;
     b_from_version := pl_from_version plan; b_to_version := pl_to_version plan;
     prepared_unix_seconds := now; resume_deadline_unix_seconds := now + 1800 |}.
Definition binds (b : RemoteUpdateRestartBinding) (plan : RemoteUpdateRestartPlan) : Prop :=
  b_operation_id b = pl_operation_id plan ∧ b_operation b = pl_operation plan ∧
  b_from_version b = pl_from_version plan ∧ b_to_version b = pl_to_version plan.

Inductive transition (now : Z) (t t' : RemoteUpdateTask) : event → Prop :=
  | lost_cancelled :
      held t → lease_ended now t → cancel_requested t = true → harmless t →
      becomes now t t' SCancelled GCancelled RNone (attempt t) true → lease_is None None None t' →
      outcome_is None (Some CodeCancelled) (Some now) t' → transition now t t' LeaseLost
  | lost_requeued :
      held t → lease_ended now t → cancel_requested t = false → repeatable (action t) →
      becomes now t t' SQueued GQueued RRetryable (attempt t) false → lease_is None None None t' →
      outcome_is None None None t' → transition now t t' LeaseLost
  | lost_failed :
      held t → lease_ended now t → ¬ repeatable (action t) → (cancel_requested t = true → stage t ≠ GClaimed) →
      becomes now t t' SFailed GFailed RFailedClosed (attempt t) (cancel_requested t) → lease_is None None None t' →
      outcome_is None (Some CodeFailedClosed) (Some now) t' → transition now t t' LeaseLost
  | claimed_by worker token seconds :
      state t = SQueued → attempt t < 16 → worker ≠ 0 → 15 ≤ seconds ≤ 300 →
      becomes now t t' SClaimed GClaimed RNone (attempt t + 1) false →
      lease_is (Some worker) (Some (now + seconds)) None t' →
      outcome_is None None None t' → transition now t t' (ClaimedBy worker token seconds)
  | claims_used_up :
      state t = SQueued → 16 ≤ attempt t →
      becomes now t t' SFailed GFailed RFailedClosed (attempt t) false → same_lease t t' →
      outcome_is None (Some CodeFailedClosed) (Some now) t' → transition now t t' ClaimsUsedUp
  | renewed_by worker token seconds g deadline :
      held t → lease_live now t → 15 ≤ seconds ≤ 300 →
      g = stage t ∨ (stage t = GClaimed ∧ works (action t) g) →
      renewed_until now seconds deadline t → now < deadline →
      becomes now t t' (if cancel_requested t then SCancelRequested
                        else if bool_decide (g = GClaimed) then SClaimed else SRunning)
        g (recovery_state t) (attempt t) (cancel_requested t) →
      lease_is (lease_owner t) (Some deadline) (restart t) t' →
      outcome_is None None None t' → transition now t t' (RenewedBy worker token seconds g)
  | reported_started worker token g :
      held t → lease_live now t → cancel_requested t = false → stage t = GClaimed → works (action t) g →
      becomes now t t' SRunning g (recovery_state t) (attempt t) false → same_lease t t' →
      outcome_is None None None t' → transition now t t' (ReportedBy worker token (Started g))
  | reported_restart worker token plan :
      held t → lease_live now t → cancel_requested t = false → works (action t) (stage t) →
      restarts (action t) (pl_operation plan) →
      becomes now t t' SRunning GAwaitingRestart (recovery_state t) (attempt t) false →
      lease_is (lease_owner t) (Some (now + 1800)) (Some (binding_of plan now)) t' →
      outcome_is None None None t' → transition now t t' (ReportedBy worker token (AwaitingRestart plan))
  | reported_restart_again worker token plan b :
      held t → lease_live now t → stage t = GAwaitingRestart → restart t = Some b → binds b plan →
      becomes now t t' (state t) GAwaitingRestart (recovery_state t) (attempt t) (cancel_requested t) →
      same_lease t t' →
      outcome_is None None None t' → transition now t t' (ReportedBy worker token (AwaitingRestart plan))
  | reported_succeeded worker token r :
      held t → lease_live now t → works (action t) (stage t) ∨ stage t = GAwaitingRestart → result_of (action t) r →
      becomes now t t' SSucceeded GCompleted (if bool_decide (action t = Recover) then RRecovered else RNone)
        (attempt t) (cancel_requested t) → lease_is None None None t' →
      outcome_is (Some r) None (Some now) t' → transition now t t' (ReportedBy worker token (Succeeded r))
  | reported_failed worker token code r :
      held t → lease_live now t → state t ≠ SClaimed → failure_of (action t) code r →
      becomes now t t' SFailed GFailed r (attempt t) (cancel_requested t) → lease_is None None None t' →
      outcome_is None (Some code) (Some now) t' → transition now t t' (ReportedBy worker token (Failed code r))
  | reported_cancelled worker token :
      held t → lease_live now t → cancel_requested t = true → harmless t →
      becomes now t t' SCancelled GCancelled RNone (attempt t) true → lease_is None None None t' →
      outcome_is None (Some CodeCancelled) (Some now) t' → transition now t t' (ReportedBy worker token Cancelled)
  | cancelled_queued :
      state t = SQueued →
      becomes now t t' SCancelled GCancelled RNone (attempt t) true → lease_is None None None t' →
      outcome_is None (Some CodeCancelled) (Some now) t' → transition now t t' CancelAsked
  | cancel_noted :
      held t → lease_live now t → cancel_requested t = false →
      becomes now t t' SCancelRequested (stage t) (recovery_state t) (attempt t) true → same_lease t t' →
      outcome_is None None None t' → transition now t t' CancelAsked.

Section lifecycle.
Set Default Proof Using "Type".
Context (version_parses : rstr → bool).
Context (sha256 : list Z → list Z).
Context (report_to_vec : RemoteUpdateWorkerReport → option (list Z)).
Context (uuid_v4 : nat → Z).

Abbreviation digest := (lease_token_sha256 sha256).
Abbreviation valid t := (validate_task version_parses t = Ok tt).

(** ** Rows *)

(** The caller is the worker that holds the lease and shows its token. *)
Definition holds (worker token : Z) (w : row) : Prop :=
  lease_owner (r_task w) = Some worker ∧ as_bytes <$> r_lease_token_sha256 w = Some (as_bytes (digest token)).

(** The proof kept of the report that ended a task. *)
Definition proof_kept (worker token : Z) (r : RemoteUpdateWorkerReport) (w : row) : Prop :=
  ∃ p, r_replay w = Some p ∧ tr_worker_instance_id p = worker ∧ tr_lease_token_sha256 p = digest token ∧
       worker_report_sha256 sha256 report_to_vec r = Some (tr_report_sha256 p).

Record row_step (now : Z) (e : event) (w w' : row) : Prop := {
  rs_holder : match e with
              | RenewedBy worker token _ _ | ReportedBy worker token _ => holds worker token w
              | _ => True
              end;
  rs_transition : transition now (r_task w) (r_task w') e;
  rs_fingerprint : r_fingerprint w' = r_fingerprint w;
  rs_token : r_lease_token_sha256 w' =
             match lease_owner (r_task w') with
             | None => None
             | Some _ => match e with ClaimedBy _ token _ => Some (digest token) | _ => r_lease_token_sha256 w end
             end;
  rs_proof : match e with
             | ReportedBy worker token r =>
                 (ended (r_task w') → proof_kept worker token r w') ∧ (held (r_task w') → r_replay w' = None)
             | ClaimedBy _ _ _ | RenewedBy _ _ _ _ => r_replay w' = r_replay w
             | _ => r_replay w' = None
             end;
}.

(** The row of a task as its creation stores it. *)
Definition created_row (q : CreateRemoteUpdateTaskRequest) (by_ : rstr) (now id : Z) (w : row) : Prop :=
  let t := r_task w in
  task_id t = id ∧ target_client_id t = cr_target_client_id q ∧ action t = cr_action q ∧ requested_by t = by_ ∧
  idempotency_key t = cr_idempotency_key q ∧ state t = SQueued ∧ stage t = GQueued ∧ recovery_state t = RNone ∧
  attempt t = 0 ∧ cancel_requested t = false ∧ lease_is None None None t ∧ outcome_is None None None t ∧
  created_unix_seconds t = now ∧ updated_unix_seconds t = now ∧
  r_fingerprint w = request_fingerprint sha256 q by_ ∧ r_lease_token_sha256 w = None ∧ r_replay w = None.

(** ** Operations *)

(** The task of an idempotency key. *)
Definition has_key (q : CreateRemoteUpdateTaskRequest) (by_ : rstr) (w : row) : Prop :=
  requested_by (r_task w) = by_ ∧ idempotency_key (r_task w) = cr_idempotency_key q.

(** The clients whose ended leases an operation takes back. *)
Definition recovers (o : op) (c : catalog) (client : Z) : Prop :=
  match o with
  | OpCreate q by_ =>
      (∃ id w, rows c !! id = Some w ∧ has_key q by_ w ∧ client = target_client_id (r_task w)) ∨
      ((∀ id w, rows c !! id = Some w → ¬ has_key q by_ w) ∧ client = cr_target_client_id q)
  | OpList None _ | OpRestart | OpSweep => True
  | OpList (Some target) _ | OpClaim target _ | OpReconcile target _ _ => client = target
  | OpDetail id | OpCancel id _ => ∃ w, rows c !! id = Some w ∧ client = target_client_id (r_task w)
  | OpRenew _ _ _ | OpReport _ _ _ => False
  end.

(** All ended leases of the scope are taken back, and no other row changes. *)
Definition recovered (scope : Z → Prop) (now : Z) (c c' : catalog) : Prop :=
  ∀ id, match rows c !! id with
        | None => rows c' !! id = None
        | Some w =>
            let due := scope (target_client_id (r_task w)) ∧ held (r_task w) ∧ lease_ended now (r_task w) in
            ∃ w', rows c' !! id = Some w' ∧ ((due ∧ row_step now LeaseLost w w') ∨ (¬ due ∧ w' = w))
        end.

(** One row changes, by one event. *)
Definition one_event (now id : Z) (e : event) (w : row) (c c' : catalog) : Prop :=
  ∃ w', rows c' = <[id := w']> (rows c) ∧ row_step now e w w'.

(** What the operation itself then does. *)
Definition own_effect (o : op) (now : Z) (c c' : catalog) : Prop :=
  match o with
  | OpList _ _ | OpDetail _ | OpRestart | OpSweep | OpReconcile _ _ _ => rows c' = rows c
  | OpCreate q by_ =>
      ((∃ id w, rows c !! id = Some w ∧ has_key q by_ w) ∧ rows c' = rows c) ∨
      ((∀ id w, rows c !! id = Some w → ¬ has_key q by_ w ∧
          (target_client_id (r_task w) = cr_target_client_id q → ended (r_task w))) ∧
       ∃ id w, rows c !! id = None ∧ rows c' = <[id := w]> (rows c) ∧ created_row q by_ now id w)
  | OpClaim target q =>
      ((∀ id w, rows c !! id = Some w → target_client_id (r_task w) = target → state (r_task w) ≠ SQueued) ∧
       rows c' = rows c) ∨
      ∃ id w, rows c !! id = Some w ∧ target_client_id (r_task w) = target ∧
        ((∃ n, one_event now id (ClaimedBy (cq_worker_instance_id q) (uuid_v4 n) (cq_requested_lease_seconds q)) w c c') ∨
         one_event now id ClaimsUsedUp w c c')
  | OpRenew target id q =>
      ∃ w, rows c !! id = Some w ∧ target_client_id (r_task w) = target ∧
        one_event now id (RenewedBy (rn_worker_instance_id q) (rn_lease_token q) (rn_requested_lease_seconds q)
                            (rn_stage q)) w c c'
  | OpReport target id q =>
      ∃ w, rows c !! id = Some w ∧ target_client_id (r_task w) = target ∧
        ((ended (r_task w) ∧ rows c' = rows c) ∨
         one_event now id (ReportedBy (rp_worker_instance_id q) (rp_lease_token q) (rp_report q)) w c c')
  | OpCancel id _ =>
      ∃ w, rows c !! id = Some w ∧
        (((ended (r_task w) ∨ cancel_requested (r_task w) = true) ∧ rows c' = rows c) ∨
         (¬ ended (r_task w) ∧ one_event now id CancelAsked w c c'))
  end.

(** A committed operation takes back the ended leases of its scope and then has
    its own effect; one that fails changes nothing. *)
Definition lifecycle (o : op) (now : Z) (c c' : catalog) : Prop :=
  match run version_parses sha256 report_to_vec uuid_v4 o now c with
  | Err _ => c' = c
  | Ok _ => ∃ c1, recovered (recovers o c) now c c1 ∧ own_effect o now c1 c'
  end.

(** ** The tests of the code *)

Lemma held_leased t : leased_state (state t) = true ↔ held t.
Proof. unfold held. destruct (state t); cbn; naive_solver. Qed.
Lemma ended_terminal t : is_terminal (state t) = true ↔ ended t.
Proof. unfold ended. destruct (state t); cbn; naive_solver. Qed.
Lemma repeatable_safe a : safe_to_requeue_after_lease_loss a = true ↔ repeatable a.
Proof. unfold repeatable. destruct a; cbn; naive_solver. Qed.
Lemma repeatable_unsafe a : safe_to_requeue_after_lease_loss a = false ↔ ¬ repeatable a.
Proof. rewrite <- repeatable_safe. by destruct (safe_to_requeue_after_lease_loss a). Qed.
Lemma works_execution a g : works a g ↔ g = execution_stage a.
Proof. split; [by destruct 1|intros ->; destruct a; constructor]. Qed.
Lemma harmless_safe t :
  bool_decide (stage t = GClaimed) || safe_to_requeue_after_lease_loss (action t) = true ↔ harmless t.
Proof. unfold harmless. by rewrite orb_true_iff, bool_decide_eq_true, repeatable_safe. Qed.
Lemma restarts_plan p a : validate_plan version_parses p a = Ok tt → restarts a (pl_operation p).
Proof.
  unfold validate_plan. destruct (validate_non_nil_uuid _); [|done].
  destruct a; cbn; try done; case_bool_decide as E; try done; intros _; rewrite E; constructor.
Qed.
Lemma result_matches r a : matches_action r a = true → result_of a r.
Proof. destruct r, a; cbn; try done; repeat case_match; try done; first [by left|by right|constructor]. Qed.
Lemma failure_reported a code r : validate_failure_report a code r = Ok tt → failure_of a code r.
Proof.
  unfold validate_failure_report, failure_of, repeatable.
  destruct a, r; cbn; repeat case_bool_decide; cbn; naive_solver.
Qed.
Lemma binds_matches b p : binding_matches b p = true ↔ binds b p.
Proof. unfold binding_matches, binds. rewrite !andb_true_iff, !bool_decide_eq_true, Z.eqb_eq. naive_solver. Qed.

Lemma lease_ended_over now t d : lease_deadline_unix_seconds t = Some d → lease_over now t = true ↔ lease_ended now t.
Proof. unfold lease_over, lease_ended. intros ->. rewrite Z.leb_le. naive_solver. Qed.
Lemma lease_live_over now t d : lease_deadline_unix_seconds t = Some d → lease_over now t = false ↔ lease_live now t.
Proof. unfold lease_over, lease_live. intros ->. rewrite Z.leb_gt. naive_solver. Qed.

(** ** The transition functions follow the life cycle *)

Lemma outcome_empty t owner deadline : leased_facts t owner deadline → outcome_is None None None t.
Proof. by intros []. Qed.

Lemma lost_lease_transition now t :
  valid t → leased_state (state t) = true → lease_over now t = true →
  transition now t (apply_lost_lease t now).1 LeaseLost.
Proof.
  intros Hv Hl Hov. destruct (valid_leased _ _ Hv Hl) as (o & d & F). pose proof Hl as Hh%held_leased.
  pose proof (proj1 (lease_ended_over now t d (lf_deadline _ _ _ F)) Hov) as He.
  pose proof (lf_result _ _ _ F) as Er. pose proof (lf_completed _ _ _ F) as Ec.
  unfold apply_lost_lease. destruct (cancel_requested t) eqn:Hc; cbn [andb].
  - destruct (_ || _) eqn:E; [apply harmless_safe in E|].
    + by apply lost_cancelled.
    + apply orb_false_iff in E as [Eg Ea]. rewrite Ea. bool_prop. apply lost_failed; try done.
      by apply repeatable_unsafe.
  - destruct (safe_to_requeue_after_lease_loss (action t)) eqn:Ea.
    + apply lost_requeued; try done; by apply repeatable_safe.
    + apply lost_failed; try done; [by apply repeatable_unsafe|congruence].
Qed.

Lemma claim_transition now worker token seconds t :
  valid t → state t = SQueued → attempt t < MAX_CLAIM_ATTEMPTS → worker ≠ 0 →
  REMOTE_UPDATE_MIN_LEASE_SECONDS ≤ seconds ≤ REMOTE_UPDATE_MAX_LEASE_SECONDS →
  transition now t (claimed worker (now + seconds) now t) (ClaimedBy worker token seconds).
Proof.
  intros Hv Hq Ha Hw Hs. destruct (valid_queued _ _ Hv Hq) as (Hg & _ & Hr & Hc & Hres & Herr & Hcomp).
  by apply claimed_by.
Qed.

Lemma exhausted_transition now t :
  valid t → state t = SQueued → MAX_CLAIM_ATTEMPTS ≤ attempt t → transition now t (exhausted now t) ClaimsUsedUp.
Proof.
  intros Hv Hq Ha. destruct (valid_queued _ _ Hv Hq) as (Hg & _ & Hr & Hc & Hres & Herr & Hcomp).
  by apply claims_used_up.
Qed.

Lemma cancel_transition now t :
  valid t → is_terminal (state t) = false → cancel_requested t = false →
  (leased_state (state t) = true → lease_over now t = false) → transition now t (cancelled now t) CancelAsked.
Proof.
  intros Hv Ht Hc Hov. unfold cancelled. case_bool_decide as Hq.
  - destruct (valid_queued _ _ Hv Hq) as (_ & _ & _ & _ & Hres & _). by apply cancelled_queued.
  - assert (leased_state (state t) = true) as Hl by (by destruct (state t)). specialize (Hov Hl).
    destruct (valid_leased _ _ Hv Hl) as (o & d & F). pose proof (outcome_empty _ _ _ F) as (? & ? & ?).
    apply cancel_noted; try done; [by apply held_leased|by eapply lease_live_over, Hov; apply F].
Qed.

(** A valid task has a restart binding exactly while it awaits the restart. *)
Lemma valid_restart_stage t : valid t → stage t = GAwaitingRestart ↔ is_Some (restart t).
Proof. intros Hv. by apply validate_task_parts in Hv as (_ & _ & _ & _ & [? _] & _). Qed.

Lemma renew_transition now worker token seconds g deadline t :
  valid t → leased_state (state t) = true → lease_over now t = false →
  valid_renew_transition (stage t) g (action t) = true →
  REMOTE_UPDATE_MIN_LEASE_SECONDS ≤ seconds ≤ REMOTE_UPDATE_MAX_LEASE_SECONDS →
  (if bool_decide (stage t = GAwaitingRestart) || bool_decide (g = GAwaitingRestart)
   then ∃ b, restart t = Some b ∧ deadline = Z.min (now + seconds) (resume_deadline_unix_seconds b)
   else deadline = now + seconds) → now < deadline →
  transition now t (renewed g deadline now t) (RenewedBy worker token seconds g).
Proof.
  intros Hv Hl Hov Htr Hs Hd Hlt. destruct (valid_leased _ _ Hv Hl) as (o & d & F).
  pose proof (valid_restart_stage t Hv) as Hst. pose proof (outcome_empty _ _ _ F) as (? & ? & ?).
  apply (renewed_by now t _ worker token seconds g deadline); try done.
  - by apply held_leased.
  - by eapply lease_live_over, Hov; apply F.
  - apply renew_transition_cases in Htr as [(Eg & [-> | ->])|[(Eg & [-> | ->])|(Eg & ->)]]; try (by left).
    + right. split; [done|]. by apply works_execution.
    + left. rewrite (bool_decide_eq_true_2 (GAwaitingRestart = _)), orb_true_r in Hd by done.
      destruct Hd as (b & Hb & _). symmetry. apply Hst. by exists b.
  - unfold renewed_until. destruct (restart t) as [b|] eqn:Hb.
    + rewrite bool_decide_eq_true_2 in Hd by (apply Hst; by exists b). by destruct Hd as (b' & [= <-] & Hd).
    + destruct (_ || _) in Hd; [|done]. by destruct Hd as (b & ? & _).
Qed.

Lemma report_transition now worker token t r t' kind :
  valid t → leased_state (state t) = true → lease_over now t = false →
  validate_report version_parses r (action t) = Ok tt → apply_worker_report version_parses t r now = Ok (t', kind) →
  transition now t t' (ReportedBy worker token r).
Proof.
  intros Hv Hl Hov Hr H. destruct (valid_leased _ _ Hv Hl) as (o & d & F). pose proof Hl as Hh%held_leased.
  pose proof (proj1 (lease_live_over now t d (lf_deadline _ _ _ F)) Hov) as Hlv.
  pose proof (outcome_empty _ _ _ F) as (Er & Ee & Ec). unfold apply_worker_report in H.
  destruct r as [g|plan|res|code rec|].
  - destruct (_ && _) eqn:E in H; [|done]. bool_prop. injection H as <- <-.
    apply reported_started; try done. by apply works_execution.
  - destruct (_ && _) eqn:E in H; [|destruct (_ && _) eqn:E2 in H; [|done]].
    + bool_prop. unfold checked_add in H. destruct (_ <=? _); [|done].
      destruct (validate_plan _ _ _) as [[]|] eqn:Hp; [|done]. injection H as <- <-.
      apply reported_restart; try done; [by apply works_execution|by apply (restarts_plan plan)].
    + destruct (restart t) as [b|] eqn:Hb; [|by rewrite andb_false_r in E2]. bool_prop. injection H as <- <-.
      by apply (reported_restart_again _ _ _ worker token plan b); [..|apply binds_matches| | |].
  - destruct (_ && _) eqn:E in H; [|done]. bool_prop. injection H as <- <-. cbn [validate_report] in Hr.
    destruct (matches_action res (action t)) eqn:Em; [|done]. apply reported_succeeded; try done.
    + destruct (lf_stage _ _ _ F) as [[Eg _]|[[Eg _]|(Eg & _)]]; [|left; by apply works_execution|by right].
      match goal with Hrs : running_stage _ = true |- _ => by rewrite Eg in Hrs end.
    + by apply result_matches.
  - destruct (match state t with SRunning | SCancelRequested => true | _ => false end) eqn:E; [|done].
    injection H as <- <-. apply reported_failed; try done; [by destruct (state t)|].
    by apply failure_reported.
  - destruct (_ && _) eqn:E in H; [|done]. apply andb_true_iff in E as [Hc E]. injection H as <- <-.
    apply reported_cancelled; try done; by apply harmless_safe.
Qed.

(** ** Taking back ended leases *)

Definition lost_row (now : Z) (w : row) : row :=
  {| r_task := (apply_lost_lease (r_task w) now).1; r_fingerprint := r_fingerprint w;
     r_lease_token_sha256 := None; r_replay := None |}.

Lemma lost_row_step now w :
  valid (r_task w) → leased_state (state (r_task w)) = true → lease_over now (r_task w) = true →
  row_step now LeaseLost w (lost_row now w).
Proof.
  intros Hv Hl Hov. split; [done|by apply lost_lease_transition|done| |done]. cbn [r_task lost_row r_lease_token_sha256].
  unfold apply_lost_lease. by repeat case_match.
Qed.

Lemma reconcile_lost_lease_row now c u c' w :
  rows c !! task_id (r_task w) = Some w → reconcile_lost_lease uuid_v4 now (r_task w) c = Ok (u, c') →
  rows c' = <[task_id (r_task w) := lost_row now w]> (rows c).
Proof.
  intros Hw. unfold reconcile_lost_lease, lost_row.
  pose proof (apply_lost_lease_identity (r_task w) now) as [Hid Hat].
  assert (lease_owner (apply_lost_lease (r_task w) now).1 = None) as Ho
    by (unfold apply_lost_lease; by repeat case_match).
  destruct (apply_lost_lease (r_task w) now) as [t' kind]. cbn [fst] in *.
  intros H. apply tx_bind_Ok in H as (v & c1 & Hp & He). apply append_event_Ok in He. rewrite He.
  pose proof Hid as (_ & Eid & _). apply (persist_Ok _ _ _ _ _ w) in Hp as ->; [|by rewrite Eid|done|done].
  by rewrite Eid, Ho.
Qed.

(** A loop over distinct stored tasks in which each turn rewrites its own row. *)
Lemma for_each_rows (f : RemoteUpdateTask → tx unit) (g : row → row) ts c u c' :
  (∀ c u c' w, rows c !! task_id (r_task w) = Some w → r_task w ∈ ts → valid (r_task w) →
     leased_state (state (r_task w)) = true → f (r_task w) c = Ok (u, c') →
     rows c' = <[task_id (r_task w) := g w]> (rows c)) →
  stored_tasks version_parses c ts → for_each f ts c = Ok (u, c') →
  ∀ id, rows c' !! id = (λ w, if decide (id ∈ task_id <$> ts) then g w else w) <$> rows c !! id.
Proof.
  revert c. induction ts as [|t ts IH]; intros c Hf [Hnd Hst] H id; cbn [for_each] in H.
  { tx_step H. cbn. by destruct (rows c !! id). }
  rewrite fmap_cons in Hnd. apply NoDup_cons in Hnd as [Hnin Hnd]. apply tx_bind_Ok in H as (v & c1 & H1 & H).
  destruct (Hst t) as (Hv & Hl & w & Hw & <-); [by left|]. apply Hf in H1; [|done|by left|done..].
  rewrite (IH c1); cycle 1.
  { intros c2 u2 c3 w2 Hw2 Hin. apply Hf; [done|by right]. }
  { split; [done|]. intros s Hs. destruct (Hst s) as (? & ? & w' & Hw' & ?); [by right|].
    split_and!; [done..|]. exists w'. split; [|done]. rewrite H1, lookup_insert_ne; [done|].
    intros Eq. apply Hnin. rewrite Eq. by apply list_elem_of_fmap_2. }
  { done. }
  rewrite H1, fmap_cons. destruct (decide (id = task_id (r_task w))) as [->|Hne].
  - rewrite lookup_insert_eq, Hw. cbn. rewrite decide_False by done. by rewrite decide_True by (by left).
  - rewrite lookup_insert_ne by done. destruct (rows c !! id) as [x|]; [|done]. cbn. f_equal.
    by destruct (decide (id ∈ task_id <$> ts)); destruct (decide (id ∈ _ :: _)) as [Hi|Hi];
      rewrite elem_of_cons in Hi; try tauto.
Qed.

(** Rows of the table and their tasks in a selection. *)
Lemma selected_id (P : row → bool) ts c id w :
  keyed c → stored_tasks version_parses c ts → (∀ w, w ∈ table c → r_task w ∈ ts ↔ P w = true) →
  rows c !! id = Some w → id ∈ task_id <$> ts ↔ P w = true.
Proof.
  intros Hk [_ Hst] Hall Hw. pose proof (Hk _ _ Hw) as Hid. cbn in Hid. subst id.
  rewrite <- Hall by (by apply elem_of_table). split; [|by apply list_elem_of_fmap_2].
  intros (t & Et & Ht)%list_elem_of_fmap. destruct (Hst t Ht) as (_ & _ & v & Hv & <-).
  rewrite <- Et, Hw in Hv. by injection Hv as ->.
Qed.

(** The rows of a scan are the held tasks whose lease has ended. *)
Lemma expired_row now w :
  valid (r_task w) → leased_state (state (r_task w)) = true →
  lease_over now (r_task w) = true ↔ lease_ended now (r_task w).
Proof. intros Hv Hl. destruct (valid_leased _ _ Hv Hl) as (o & d & F). by eapply lease_ended_over; apply F. Qed.

Lemma ended_expired now w :
  held (r_task w) → lease_ended now (r_task w) →
  leased_state (state (r_task w)) && lease_over now (r_task w) = true.
Proof.
  intros Hh He. rewrite (proj2 (held_leased _) Hh). pose proof He as (d & Hd & _). by apply (lease_ended_over _ _ d).
Qed.

Lemma of_client_scope target w :
  of_client target w = true ↔ match target with Some x => target_client_id (r_task w) = x | None => True end.
Proof. unfold of_client. destruct target; [apply Z.eqb_eq|done]. Qed.

(** Recovery by rows: a scan that rewrites the selected rows. *)
Lemma recovered_rows (scope : Z → Prop) now c c' (sel : row → bool) :
  (∀ id, rows c' !! id = (λ w, if sel w then lost_row now w else w) <$> rows c !! id) →
  (∀ id w, rows c !! id = Some w → sel w = true →
     scope (target_client_id (r_task w)) ∧ valid (r_task w) ∧ leased_state (state (r_task w)) = true ∧
     lease_over now (r_task w) = true) →
  (∀ id w, rows c !! id = Some w → scope (target_client_id (r_task w)) → held (r_task w) →
     lease_ended now (r_task w) → sel w = true) →
  recovered scope now c c'.
Proof.
  intros Hrows Hsel Hall id. rewrite Hrows. destruct (rows c !! id) as [w|] eqn:Hw; [|done]. cbn.
  destruct (sel w) eqn:Es; (eexists; split; [done|]); [left|right].
  - destruct (Hsel id w Hw Es) as (Hs & Hv & Hl & Hov). split; [|by apply lost_row_step].
    split_and!; [done|by apply held_leased|]. by apply expired_row.
  - split; [|done]. intros (Hs & Hh & He). by rewrite (Hall id w) in Es.
Qed.

Lemma reconcile_expired_recovered target now c u c' :
  keyed c → reconcile_expired_leases version_parses uuid_v4 target now c = Ok (u, c') →
  recovered (λ client, match target with Some x => client = x | None => True end) now c c' ∧ keyed c'.
Proof.
  intros Hk H. split; [|by apply (reconcile_expired_evolves _ _ _ _ _ _ _ Hk) in H as [[] _]; auto].
  unfold reconcile_expired_leases, expired_leased_tasks in H.
  apply tx_bind_Ok in H as (ts & c1 & H1 & H). apply tx_bind_Ok in H1 as (n & c2 & Hn & H1).
  apply now_i64_Ok in Hn as (-> & -> & Hi). apply tx_bind_Ok in H1 as (c3 & c4 & Hg & H1).
  apply get_Ok in Hg as [-> ->].
  apply selected_stored in H1 as (-> & Hst & Hall); [|done|intros w Hw; by bool_prop].
  set (sel := λ w, of_client target w && leased_state (state (r_task w)) && lease_over now (r_task w)) in *.
  pose proof (for_each_rows _ (lost_row now) ts c u c'
    ltac:(intros; by eapply reconcile_lost_lease_row) Hst H) as Hrows.
  apply (recovered_rows _ now c c' sel).
  - intros id. rewrite Hrows. destruct (rows c !! id) as [w|] eqn:Hw; [|done]. cbn. f_equal.
    pose proof (selected_id sel ts c id w Hk Hst Hall Hw) as Hin.
    destruct (decide _) as [Hd|Hd], (sel w); try done; [by apply Hin in Hd|by destruct Hd; apply Hin].
  - intros id w Hw Hs. pose proof Hs as Hsel. unfold sel in Hsel. bool_prop.
    pose proof (proj2 (Hall w ltac:(apply elem_of_table; [done|]; by rewrite (Hk _ _ Hw))) Hs) as Ht.
    apply Hst in Ht as (Hv & _). split_and!; [by apply of_client_scope|done..].
  - intros id w Hw Hs Hh He. unfold sel. rewrite <- andb_assoc, ended_expired by done.
    by rewrite (proj2 (of_client_scope target w) Hs).
Qed.

Lemma reconcile_after_restart_recovered now c u c' :
  keyed c → reconcile_after_restart version_parses uuid_v4 now c = Ok (u, c') → recovered (λ _, True) now c c'.
Proof.
  intros Hk. unfold reconcile_after_restart, active_leased_tasks. intros H.
  apply tx_bind_Ok in H as (ts & c1 & H1 & H). apply tx_bind_Ok in H1 as (c2 & c3 & Hg & H1).
  apply get_Ok in Hg as [-> ->].
  apply selected_stored in H1 as (-> & Hst & Hall); [|done|intros w Hw; by bool_prop].
  set (sel := λ w, leased_state (state (r_task w)) && lease_over now (r_task w)).
  assert (∀ id, rows c' !! id =
    (λ w, if decide (id ∈ task_id <$> ts) then (if lease_over now (r_task w) then lost_row now w else w) else w)
      <$> rows c !! id) as Hrows.
  { eapply for_each_rows; [|done|exact H]. intros c1 v c2 w Hw _ Hv Hl H1. cbv beta zeta in H1.
    rewrite (restart_lease_valid _ now _ Hv Hl) in H1. destruct (lease_over now (r_task w)); cbn [negb] in H1.
    - by apply reconcile_lost_lease_row in H1.
    - apply append_event_Ok in H1. by rewrite H1, insert_id. }
  assert (∀ id w, rows c !! id = Some w → id ∈ task_id <$> ts ↔ leased_state (state (r_task w)) = true) as Hin.
  { intros id w Hw. by apply (selected_id _ ts c id w Hk Hst Hall). }
  apply (recovered_rows _ now c c' sel).
  - intros id. rewrite Hrows. destruct (rows c !! id) as [w|] eqn:Hw; [|done]. cbn. f_equal.
    specialize (Hin id w Hw). unfold sel. destruct (decide _) as [Hd|Hd].
    + by rewrite (proj1 Hin Hd).
    + destruct (leased_state _); [by destruct Hd; apply Hin|done].
  - intros id w Hw Hs. unfold sel in Hs. bool_prop. split_and!; try done.
    apply Hin in Hw as Ht. pose proof (proj2 Ht ltac:(done)) as (t & Et & Hm)%list_elem_of_fmap.
    destruct (proj2 Hst t Hm) as (Hv & _ & v & Hv' & <-). rewrite <- Et, Hw in Hv'. by injection Hv' as ->.
  - intros id w _ _ Hh He. by apply ended_expired.
Qed.

Lemma recovered_none now c : recovered (λ _, False) now c c.
Proof. intros id. destruct (rows c !! id) as [w|]; [|done]. exists w. split; [done|]. right. split; [tauto|done]. Qed.

Lemma recovered_scope (P Q : Z → Prop) now c c' : (∀ x, P x ↔ Q x) → recovered P now c c' → recovered Q now c c'.
Proof.
  intros HPQ H id. specialize (H id). destruct (rows c !! id) as [w|]; [|done]. cbv zeta in *.
  destruct H as (w' & Hw' & H). exists w'. by rewrite <- HPQ.
Qed.

Lemma transition_identity now t t' e : transition now t t' e → same_identity t t'.
Proof. destruct 1; match goal with H : becomes _ _ _ _ _ _ _ _ |- _ => exact (proj1 H) end. Qed.

(** Recovery keeps what identifies the tasks. *)
Lemma recovered_identity scope now c c' id w' :
  recovered scope now c c' → rows c' !! id = Some w' →
  ∃ w, rows c !! id = Some w ∧ same_identity (r_task w) (r_task w').
Proof.
  intros H Hw'. specialize (H id). destruct (rows c !! id) as [w|]; [|congruence]. exists w. split; [done|].
  destruct H as (w1 & Hw1 & H). rewrite Hw' in Hw1. injection Hw1 as <-.
  destruct H as [[_ Hstep]|[_ ->]]; [|done]. by apply (transition_identity now _ _ LeaseLost), Hstep.
Qed.

(** ** The operations *)

Abbreviation recovery target now c c1 :=
  (recovered (λ client, match target with Some x => client = x | None => True end) now c c1).

Lemma list_tasks_recovered target limit now c ts c' :
  keyed c → list_tasks version_parses uuid_v4 target limit now c = Ok (ts, c') → recovery target now c c'.
Proof.
  intros Hk. unfold list_tasks. intros H. apply tx_bind_Ok in H as (u & c1 & H1 & H).
  assert (c1 = c) as -> by (destruct target; by tx_step H1).
  apply tx_bind_Ok in H as (v & c2 & H2 & H). apply reconcile_expired_recovered in H2 as [He _]; [|done].
  tx_step H. by apply traverse_read_same in H as ->.
Qed.

Lemma detail_recovered id now c d c' :
  keyed c → detail version_parses uuid_v4 id now c = Ok (d, c') →
  ∃ w, rows c !! id = Some w ∧ recovered (λ client, client = target_client_id (r_task w)) now c c'.
Proof.
  intros Hk. unfold detail. intros H. tx_step H. tx_step H. apply task_by_id_Ok in H1 as [-> Ho].
  tx_step H. subst. destruct Ho as (w & Hw & -> & _). exists w. split; [done|].
  tx_step H. apply reconcile_expired_recovered in H1 as [He _]; [|done].
  tx_step H. apply task_by_id_Ok in H1 as [-> _]. tx_step H. tx_step H. case_match; [|done]. by tx_step H.
Qed.

Lemma reconcile_recovered target id q now c r c' :
  keyed c → reconcile version_parses sha256 uuid_v4 target id q now c = Ok (r, c') →
  recovered (λ client, client = target) now c c'.
Proof.
  intros Hk. unfold reconcile. intros H. do 3 tx_step H. tx_step H. apply task_by_id_Ok in H3 as [-> _].
  tx_step H. tx_step H. tx_step H.
  match goal with Hr : reconcile_expired_leases _ _ _ _ _ = _ |- _ =>
    apply reconcile_expired_recovered in Hr as [He _]; [|done] end.
  tx_step H. match goal with Hr : task_by_id _ _ _ = _ |- _ => apply task_by_id_Ok in Hr as [-> _] end.
  tx_step H. case_match.
  - tx_step H. match goal with Hr : terminal_report_replay _ _ = _ |- _ => apply terminal_report_replay_Ok in Hr as [-> _] end.
    do 2 tx_step H.
    match goal with Hr : validate_terminal_reconcile _ _ _ _ _ = _ |- _ => apply terminal_reconcile_Ok in Hr as (-> & _) end.
    by tx_step H.
  - tx_step H. match goal with Hr : authorize_lease _ _ _ _ _ _ = _ |- _ => apply authorize_lease_Ok in Hr as [-> _] end.
    tx_step H. match goal with Hr : validate_active_reconcile _ _ _ = _ |- _ => apply active_reconcile_Ok in Hr as (-> & _) end.
    by tx_step H.
Qed.

Lemma renew_effect target id q now c r c' :
  keyed c → renew version_parses sha256 uuid_v4 target id q now c = Ok (r, c') → own_effect (OpRenew target id q) now c c'.
Proof.
  intros Hk H. destruct (renew_Ok _ _ _ target id q now c r c' Hk H)
    as (w & Hw & Ht & Hv & Ho & Htok & _ & (Hl & Hov & Htr & Hs & Hd & Hlt) & _ & Hrows).
  exists w. split_and!; [done..|]. eexists. split; [exact Hrows|]. split; cbn [r_task r_fingerprint r_replay].
  - done.
  - by apply renew_transition.
  - done.
  - cbn [r_lease_token_sha256]. change (lease_owner (renewed _ _ _ (r_task w))) with (lease_owner (r_task w)). by rewrite Ho.
  - done.
Qed.

Lemma report_effect target id q now c t' c' :
  keyed c → report version_parses sha256 report_to_vec uuid_v4 target id q now c = Ok (t', c') →
  own_effect (OpReport target id q) now c c'.
Proof.
  intros Hk H. destruct (report_Ok _ _ _ _ target id q now c t' c' Hk H) as (w & Hw & Ht & Hv & Hc).
  exists w. split_and!; [done..|]. destruct (is_terminal (state (r_task w))) eqn:Hterm.
  - left. split; [by apply ended_terminal|done].
  - right. destruct Hc as (Ho & Htok & Hov & Hl & Hr & (kind & Hap) & (replay & Hproof & Hrows) & _).
    eexists. split; [exact Hrows|]. split; cbn [r_task r_fingerprint r_replay r_lease_token_sha256]; try done.
    + by eapply report_transition.
    + unfold report_proof in Hproof. unfold proof_kept. rewrite <- ended_terminal, <- held_leased.
      cbn [r_replay]. destruct (state t'); cbn in *; destruct Hproof as (sha & Hsha & ->) || subst; split; try done;
        by eexists.
Qed.

Lemma cancel_effect id conf now c t' c' :
  keyed c → cancel version_parses uuid_v4 id conf now c = Ok (t', c') →
  ∃ c1, recovered (recovers (OpCancel id conf) c) now c c1 ∧ own_effect (OpCancel id conf) now c1 c'.
Proof.
  intros Hk. unfold cancel. intros H. do 3 tx_step H. apply task_by_id_Ok in H2 as [-> Ho].
  tx_step H. subst. destruct Ho as (w0 & Hw0 & -> & _). tx_step H.
  pose proof H2 as (_ & Hfresh & _)%reconcile_expired_evolves; [|done].
  apply reconcile_expired_recovered in H2 as [He Hk0]; [|done]. exists c0. split.
  { eapply recovered_scope, He. intros x. cbn. split; [intros ->; by exists w0|]. intros (w & Hw & ->). congruence. }
  tx_step H. apply task_by_id_Ok in H2 as [-> Ho]. tx_step H. subst. destruct Ho as (w & Hw & -> & Hv).
  exists w. split; [done|].
  destruct (_ || _) eqn:E in H.
  { left. tx_step H. split; [|done]. apply orb_true_iff in E as [E|E]; [left; by apply ended_terminal|by right]. }
  right. apply orb_false_iff in E as [Et Ec]. split; [by rewrite <- ended_terminal, Et|].
  assert (∃ kind v c2 v', persist_task_after_report (cancelled now (r_task w)) None c0 = Ok (v, c2) ∧
            append_event uuid_v4 (cancelled now (r_task w)) kind now c2 = Ok (v', c')) as (kind & v & c2 & v' & Hp & Hev).
  { unfold cancelled. case_bool_decide; apply tx_bind_Ok in H as (v & c2 & Hp & H);
      apply tx_bind_Ok in H as (v' & c3 & Hev & H); tx_step H; by eexists _, _, _, _. }
  apply append_event_Ok in Hev. destruct (cancelled_identity now (r_task w)) as [Hid Hat].
  pose proof Hid as (_ & Eid & _). pose proof (Hk0 _ _ Hw) as Hkey. cbn in Hkey.
  apply (persist_Ok _ _ _ _ _ w) in Hp; [|by rewrite Eid, Hkey|done..]. rewrite <- Hev, Eid, Hkey in Hp.
  eexists. split; [exact Hp|]. split; cbn [r_task r_fingerprint r_replay r_lease_token_sha256]; try done.
  apply cancel_transition; [done..|]. intros Hl. eapply (Hfresh id w Hw); [|done]. cbn. apply Z.eqb_eq.
  destruct (recovered_identity _ _ _ _ _ _ He Hw) as (w1 & Hw1 & _ & _ & Etg & _). congruence.
Qed.

Lemma oldest_queued_none target c c' :
  keyed c → oldest_queued_task version_parses target c = Ok (None, c') →
  ∀ id w, rows c !! id = Some w → target_client_id (r_task w) = target → state (r_task w) ≠ SQueued.
Proof.
  intros Hk. unfold oldest_queued_task. intros H id w Hw Ht Hq. tx_step H.
  destruct (order_by _ _) as [|v l] eqn:E in H; [|tx_step H; by apply ret_Ok in H as [? _]].
  apply (not_elem_of_nil w). rewrite <- E, order_by_perm. apply list_elem_of_filter. split.
  - cbn [of_client]. by rewrite Ht, Z.eqb_refl, bool_decide_eq_true_2.
  - apply elem_of_table; [done|]. by rewrite (Hk _ _ Hw).
Qed.

Lemma claim_effect target q now c r c' :
  keyed c → claim version_parses sha256 uuid_v4 target q now c = Ok (r, c') →
  ∃ c1, recovered (λ client, client = target) now c c1 ∧ own_effect (OpClaim target q) now c1 c'.
Proof.
  intros Hk. unfold claim. intros H. tx_step H. tx_step H. tx_step H.
  apply reconcile_expired_recovered in H2 as [He Hk0]; [|done]. exists c0. split; [done|]. tx_step H.
  pose proof H2 as [-> Ht]%oldest_queued_Ok; [|done]. destruct a2 as [t|].
  2: { left. split; [by eapply oldest_queued_none|]. by apply ret_Ok in H as [_ <-]. }
  right. destruct (Ht t eq_refl) as (Hv & Hq & Htg & w & Hw & <-). exists (task_id (r_task w)), w. split_and!; [done..|].
  destruct (Z.leb_spec MAX_CLAIM_ATTEMPTS (attempt (r_task w))) as [Hat|Hat].
  - right. cbv zeta in H. apply tx_bind_Ok in H as (v & c2 & Hp & H). apply tx_bind_Ok in H as (v' & c3 & Hev & H).
    apply ret_Ok in H as [_ <-]. apply append_event_Ok in Hev. apply (persist_Ok _ _ _ _ _ w) in Hp; [|done..].
    rewrite <- Hev in Hp. eexists. split; [exact Hp|].
    split; cbn [r_task r_fingerprint r_replay r_lease_token_sha256]; try done. by apply exhausted_transition.
  - left. destruct (claim_lease_seconds q H1) as [Hwk Hsec].
    apply tx_bind_Ok in H as (token & c2 & Hnew & H). apply new_v4_Ok in Hnew as [Hr2 Htok].
    apply tx_bind_Ok in H as (dl & c3 & Hdl & H). unfold checked_deadline, checked_add in Hdl.
    destruct (_ <=? _) in Hdl; [|done]. tx_step Hdl. injection Hdl as <-.
    apply tx_bind_Ok in H as (n & c4 & Hn & H). unfold checked_add in Hn.
    destruct (_ <=? _) in Hn; [|done]. tx_step Hn. injection Hn as <-.
    cbv zeta in H. do 5 tx_step H. tx_step H. match goal with Hr : write_row _ _ = _ |- _ => apply write_row_Ok in Hr as [Hrows _] end.
    tx_step H. match goal with Hr : append_event _ _ _ _ _ = _ |- _ => apply append_event_Ok in Hr as Hev end.
    apply ret_Ok in H as [_ <-]. cbn [task_id with_attempt with_lease with_outcome with_progress] in *.
    match goal with Hr : rows _ !! _ = Some _ |- _ => rewrite Hr2, Hw in Hr; injection Hr as <- end.
    rewrite <- Hev, Hr2 in Hrows. exists (drawn c0). eexists. split; [exact Hrows|].
    split; cbn [r_task r_fingerprint r_replay r_lease_token_sha256]; try done; [|by rewrite Htok].
    destruct (valid_queued _ _ Hv Hq) as (_ & _ & Hrs & _). rewrite Hrs.
    by apply (claim_transition now _ _ (cq_requested_lease_seconds q) (r_task w)).
Qed.

Lemma key_lookup_none q by_ c c' :
  keyed c → task_by_idempotency_key version_parses by_ (cr_idempotency_key q) c = Ok (None, c') →
  ∀ id w, rows c !! id = Some w → ¬ has_key q by_ w.
Proof.
  intros Hk. unfold task_by_idempotency_key. intros H id w Hw Hkey. tx_step H.
  destruct (filter _ _) as [|v l] eqn:E in H; [|tx_step H; by apply ret_Ok in H as [? _]].
  apply (not_elem_of_nil w). rewrite <- E. apply list_elem_of_filter. split; [exact Hkey|].
  apply elem_of_table; [done|]. by rewrite (Hk _ _ Hw).
Qed.

Lemma has_key_same q by_ v w : same_identity (r_task v) (r_task w) → has_key q by_ w → has_key q by_ v.
Proof. unfold has_key. intros (_ & _ & _ & _ & -> & -> & _). done. Qed.

(** No task of the client is unfinished. *)
Lemma no_active_task target c :
  keyed c → negb (any (λ w, (target_client_id (r_task w) =? target) && is_active (state (r_task w))) (table c)) = true →
  ∀ id w, rows c !! id = Some w → target_client_id (r_task w) = target → ended (r_task w).
Proof.
  intros Hk H id w Hw Ht. apply ended_terminal. apply negb_true_iff in H.
  destruct (is_terminal (state (r_task w))) eqn:E; [done|exfalso].
  assert (any (λ w, (target_client_id (r_task w) =? target) && is_active (state (r_task w))) (table c) = true) as Ha;
    [|congruence].
  apply existsb_exists. exists w. split; [|unfold is_active; by rewrite Ht, Z.eqb_refl, E].
  apply list_elem_of_In, elem_of_table; [done|]. by rewrite (Hk _ _ Hw).
Qed.

Lemma create_effect q by_ now c t c' :
  rows_unique c → create version_parses sha256 uuid_v4 q by_ now c = Ok (t, c') →
  ∃ c1, recovered (recovers (OpCreate q by_) c) now c c1 ∧ own_effect (OpCreate q by_) now c1 c'.
Proof.
  intros [Hk Hun]. unfold create. intros H. tx_step H. tx_step H.
  pose proof H1 as Hby. apply guard_tx_Ok in Hby as [_ ->]. cbv zeta in H. tx_step H. tx_step H.
  apply tx_bind_Ok in H as (found & c1 & Hfound & H). pose proof Hfound as Hnone.
  apply task_by_idempotency_key_Ok in Hfound as [-> Hex]; [|done]. destruct found as [t0|].
  - destruct (Hex t0 eq_refl) as (E1 & E2 & w0 & Hw0 & <-). tx_step H. tx_step H. tx_step H.
    match goal with Hr : reconcile_expired_leases _ _ _ _ _ = _ |- _ =>
      apply reconcile_expired_recovered in Hr as [He Hk1]; [|done] end.
    eexists. split; [eapply recovered_scope, He|].
    { intros x. split; [intros ->; left; by exists (task_id (r_task w0)), w0|].
      intros [(id & w & Hw & Hkey & ->)|[Hno _]]; [|by destruct (Hno _ _ Hw0)].
      destruct (decide (id = task_id (r_task w0))) as [->|Hne]; [congruence|].
      destruct (Hun _ _ _ _ Hw Hw0 Hne) as [[] _]. destruct Hkey. split; congruence. }
    tx_step H. match goal with Hr : task_by_id _ _ _ = _ |- _ => apply task_by_id_Ok in Hr as [-> Ho] end.
    tx_step H. subst. destruct Ho as (w2 & Hw2 & -> & _).
    tx_step H. match goal with Hr : append_event _ _ _ _ _ = _ |- _ => apply append_event_Ok in Hr as Hev end.
    tx_step H. left. split; [|done]. exists (task_id (r_task w0)), w2. split; [done|].
    destruct (recovered_identity _ _ _ _ _ _ He Hw2) as (w1 & Hw1 & _ & _ & _ & _ & Eb & Ekey & _).
    rewrite Hw0 in Hw1. injection Hw1 as <-. split; congruence.
  - pose proof (key_lookup_none q by_ _ _ Hk Hnone) as Hno. tx_step H.
    match goal with Hr : reconcile_expired_leases _ _ _ _ _ = _ |- _ =>
      apply reconcile_expired_recovered in Hr as [He Hk1]; [|done] end.
    eexists. split; [eapply recovered_scope, He|].
    { intros x. split; [by right|]. intros [(id & w & Hw & Hkey & _)|[_ ->]]; [by destruct (Hno id w)|done]. }
    do 3 tx_step H. tx_step H.
    match goal with Hr : new_v4 _ _ = _ |- _ => apply new_v4_Ok in Hr as [Hrows Hid] end. do 3 tx_step H.
    tx_step H. match goal with Hr : write_row _ _ = _ |- _ => apply write_row_Ok in Hr as [Hw _] end.
    tx_step H. match goal with Hr : append_event _ _ _ _ _ = _ |- _ => apply append_event_Ok in Hr as Hev end.
    tx_step H. cbn [r_task task_id] in Hw. rewrite <- Hev in Hw. right. split.
    + intros id w Hin. destruct (recovered_identity _ _ _ _ _ _ He Hin) as (w1 & Hw1 & Hsame). split.
      * intros Hkey. eapply (Hno id w1 Hw1). by eapply has_key_same.
      * by eapply no_active_task.
    + rewrite Hrows in *. bool_prop. by eexists _, _.
Qed.

Lemma run_lifecycle o now c u c' :
  rows_unique c → run version_parses sha256 report_to_vec uuid_v4 o now c = Ok (u, c') →
  ∃ c1, recovered (recovers o c) now c c1 ∧ own_effect o now c1 c'.
Proof.
  intros Hc. pose proof (proj1 Hc) as Hk. destruct o; cbn [run]; intros H;
    try (apply tx_bind_Ok in H as (a & c1 & H & [_ <-]%ret_Ok)).
  - by apply create_effect in H.
  - exists c1. split; [|done]. apply list_tasks_recovered in H; [|done]. by destruct target.
  - exists c1. split; [|done]. apply detail_recovered in H as (w & Hw & H); [|done].
    eapply recovered_scope, H. intros x. cbn. split; [intros ->; by exists w|]. intros (v & Hv & ->). congruence.
  - exists c'. split; [|done]. by apply reconcile_after_restart_recovered in H.
  - exists c'. split; [|done]. by apply reconcile_expired_recovered in H as [? _].
  - by apply claim_effect in H.
  - exists c. split; [apply recovered_none|]. by apply renew_effect in H.
  - exists c. split; [apply recovered_none|]. by apply report_effect in H.
  - exists c1. split; [|done]. by apply reconcile_recovered in H.
  - by apply cancel_effect in H.
Qed.

(** C6. After every history of operations on an empty catalog, each operation
    does exactly what the life cycle of the tasks says. A committed operation
    takes back, of the clients it is about, every lease that has ended and no
    other: a cancelled task that did no harm is cancelled, a repeatable action
    is queued again, anything else fails closed. Then it has its own effect on
    one row: a claim leases a queued task to the worker, a renewal or a report
    is only accepted of the worker that holds the live lease and shows its
    token, and takes the task to the state the event names; a report on an
    ended task, a repeated creation or cancellation and every reading operation
    change no row. An operation that fails changes nothing at all. *)
Theorem operations_follow_lifecycle h c o now :
  rows c = ∅ →
  let c1 := run_history version_parses sha256 report_to_vec uuid_v4 h c in
  lifecycle o now c1 (commit version_parses sha256 report_to_vec uuid_v4 o now c1).
Proof.
  intros He c1. assert (rows_unique c1) as Hun.
  { apply history_unique. split; unfold keyed; rewrite He; [apply map_Forall_empty|].
    intros i j v w H. by rewrite lookup_empty in H. }
  unfold lifecycle, commit. destruct (run _ _ _ _ o now c1) as [[u c']|] eqn:H; [|done].
  by eapply run_lifecycle.
Qed.
End lifecycle.

(** ** A concrete run: an update that reports, and one whose lease ends *)

Abbreviation demo_commit := (commit demo_version demo_sha256 demo_json demo_uuid).
Abbreviation demo_lifecycle := (lifecycle demo_version demo_sha256 demo_json demo_uuid).
Definition demo_restart : op := OpReport 1 100 (demo_report (AwaitingRestart demo_plan)).
Definition demo_state (c : catalog) : option RemoteUpdateTaskState := state ∘ r_task <$> rows c !! 100.

Lemma operations_follow_lifecycle_witness :
  demo_lifecycle demo_restart 1030 (demo_run demo_started demo_empty)
    (demo_commit demo_restart 1030 (demo_run demo_started demo_empty)) ∧
  demo_state (demo_commit demo_restart 1030 (demo_run demo_started demo_empty)) = Some SRunning ∧
  demo_lifecycle OpSweep 5000 (demo_run demo_awaiting demo_empty)
    (demo_commit OpSweep 5000 (demo_run demo_awaiting demo_empty)) ∧
  demo_state (demo_commit OpSweep 5000 (demo_run demo_awaiting demo_empty)) = Some SFailed.
Proof.
  split; [refine (operations_follow_lifecycle demo_version demo_sha256 demo_json demo_uuid
                    demo_started demo_empty demo_restart 1030 _); reflexivity|].
  split; [vm_compute; reflexivity|].
  split; [refine (operations_follow_lifecycle demo_version demo_sha256 demo_json demo_uuid
                    demo_awaiting demo_empty OpSweep 5000 _); reflexivity|].
  vm_compute; reflexivity.
Defined.
