(* ===== verification/BackendPool.v ===== *)
(** * The HTTP backend pool

    [http_backend_pool.rs] of the server: the metadata of the connections kept
    open to the backends of HTTP routes. It decides which connection carries a
    request, when a connection is evicted and how an announced shutdown (GOAWAY)
    drains one. A connection is its 64-bit identifier; [Instant]s and [Duration]s
    are nanoseconds.

    The methods pass the pool explicitly. The three [loop]s run with the number
    of connections plus one as fuel; running out of it is [Panic], which the
    theorems exclude together with the [expect] of [acquire]. *)

From S2P Require Import Prelude.

Local Open Scope Z_scope.
Set Default Proof Using "Type".

(** ** Data *)

Inductive BackendProtocol := Http1 | Http2.

Inductive BackendTrustKey :=
  | System
  | Profile (name : list Z).

Inductive BackendSecurity :=
  | Plaintext
  | Tls (server_name : list Z) (trust : BackendTrustKey).

(** The isolation key of a connection. [policy_id] is a [Uuid]. *)
Record OriginKey := {
  policy_id : Z;
  authority : list Z;
  protocol : BackendProtocol;
  security : BackendSecurity;
}.

Global Instance BackendProtocol_eq_dec : EqDecision BackendProtocol.
Proof. solve_decision. Defined.
Global Instance BackendTrustKey_eq_dec : EqDecision BackendTrustKey.
Proof. solve_decision. Defined.
Global Instance BackendSecurity_eq_dec : EqDecision BackendSecurity.
Proof. solve_decision. Defined.
Global Instance OriginKey_eq_dec : EqDecision OriginKey.
Proof. solve_decision. Defined.

Inductive BackendConnectionMode :=
  | Exclusive
  | Multiplexed (max_concurrent_streams : Z).

Definition capacity (self : BackendConnectionMode) : Z :=
  match self with
  | Exclusive => 1
  | Multiplexed max_concurrent_streams => max_concurrent_streams
  end.

Record BackendPoolLimits := {
  max_connections : Z;
  max_connections_per_origin : Z;
  idle_timeout : Z;
}.

Inductive BackendPoolLimitsError := OriginLimitExceedsGlobalLimit | ZeroIdleTimeout.

Definition limits_new (max_connections max_connections_per_origin idle_timeout : Z)
    : result BackendPoolLimitsError BackendPoolLimits :=
  if max_connections <? max_connections_per_origin then Err OriginLimitExceedsGlobalLimit
  else if idle_timeout =? 0 then Err ZeroIdleTimeout
  else Ok {| max_connections := max_connections;
             max_connections_per_origin := max_connections_per_origin;
             idle_timeout := idle_timeout |}.

Definition limits_default : BackendPoolLimits :=
  {| max_connections := 512; max_connections_per_origin := 8; idle_timeout := 30 * 1000000000 |}.

Inductive BackendRemovalReason :=
  | GlobalCapacity | OriginCapacity | IdleTimeout | PolicyInvalidated | Disconnected | GoAway.

Record BackendRemoval := {
  removed_id : Z;
  removed_origin : OriginKey;
  reason : BackendRemovalReason;
}.

Record BackendRegistration := {
  registered_id : Z;
  removals : list BackendRemoval;
}.

Record BackendLease := {
  leased_id : Z;
  leased_origin : OriginKey;
}.

Inductive BackendRegisterError := CapacityBusy.

Record BackendPoolSnapshot := {
  connections : Z;
  origins : Z;
  snapshot_streams : Z;
  draining_connections : Z;
}.

Record BackendEntry := {
  origin : OriginKey;
  mode : BackendConnectionMode;
  active_streams : Z;
  last_activity : Z;
  draining : bool;
}.

Definition available (self : BackendEntry) : bool :=
  negb self.(draining) && (self.(active_streams) <? capacity self.(mode)).

Definition entry_idle (self : BackendEntry) : bool := self.(active_streams) =? 0.

Record BackendPoolState := {
  limits : BackendPoolLimits;
  next_connection_id : Z;
  entries : gmap Z BackendEntry;
}.

Definition pool_new (limits : BackendPoolLimits) : BackendPoolState :=
  {| limits := limits; next_connection_id := 1; entries := ∅ |}.

Definition with_entries (self : BackendPoolState) (m : gmap Z BackendEntry) : BackendPoolState :=
  {| limits := self.(limits); next_connection_id := self.(next_connection_id); entries := m |}.

(** ** Queries *)

Definition connection_count_for_origin (self : BackendPoolState) (o : OriginKey) : Z :=
  map_count (λ entry, bool_decide (entry.(origin) = o)) self.(entries).

(** The idle connection with the least [(last_activity, connection_id)]. *)
Definition oldest_idle (self : BackendPoolState) (o : option OriginKey) : option Z :=
  fst <$> min_by_key (λ c : Z * BackendEntry, [c.2.(last_activity); c.1])
    (filter (λ c : Z * BackendEntry,
        Is_true (entry_idle c.2 &&
          match o with None => true | Some o => bool_decide (c.2.(origin) = o) end))
      (map_to_list self.(entries))).

Definition pool_contains (self : BackendPoolState) (connection_id : Z) : bool :=
  bool_decide (is_Some (self.(entries) !! connection_id)).

(** [iter().sum::<usize>()]. *)
Fixpoint sum_usize (l : list Z) (acc : Z) : exec Z :=
  match l with [] => Done acc | x :: l => acc ← usize_add acc x; sum_usize l acc end.

Definition snapshot (self : BackendPoolState) : exec BackendPoolSnapshot :=
  let values := (map_to_list self.(entries)).*2 in
  streams ← sum_usize (active_streams <$> values) 0;
  Done {| connections := map_len self.(entries);
          origins := len (remove_dups (origin <$> values));
          snapshot_streams := streams;
          draining_connections := map_count draining self.(entries) |}.

(** ** Operations *)

Definition remove (self : BackendPoolState) (connection_id : Z) (why : BackendRemovalReason)
    : option BackendRemoval * BackendPoolState :=
  match self.(entries) !! connection_id with
  | None => (None, self)
  | Some entry =>
      (Some {| removed_id := connection_id; removed_origin := entry.(origin); reason := why |},
       with_entries self (delete connection_id self.(entries)))
  end.

(** [while full { evict the oldest idle connection }]. *)
Fixpoint evict_while (fuel : nat) (full : BackendPoolState → bool) (o : option OriginKey)
    (why : BackendRemovalReason) (self : BackendPoolState) (removed : list BackendRemoval)
    : exec (result BackendRegisterError (list BackendRemoval) * BackendPoolState) :=
  match fuel with
  | O => Panic
  | S fuel =>
      if full self then
        match oldest_idle self o with
        | None => Done (Err CapacityBusy, self)
        | Some connection_id =>
            let '(removal, self) := remove self connection_id why in
            evict_while fuel full o why self
              (removed ++ match removal with Some r => [r] | None => [] end)
        end
      else Done (Ok removed, self)
  end.

Definition origin_full (o : OriginKey) (self : BackendPoolState) : bool :=
  self.(limits).(max_connections_per_origin) <=? connection_count_for_origin self o.

Definition pool_full (self : BackendPoolState) : bool :=
  self.(limits).(max_connections) <=? map_len self.(entries).

Definition prepare_registration (self : BackendPoolState) (o : OriginKey)
    : exec (result BackendRegisterError (list BackendRemoval) * BackendPoolState) :=
  let fuel := S (size self.(entries)) in
  '(r, self) ← evict_while fuel (origin_full o) (Some o) OriginCapacity self [];
  match r with
  | Err e => Done (Err e, self)
  | Ok removed => evict_while fuel pool_full None GlobalCapacity self removed
  end.

(** The [loop] of [next_available_connection_id]. *)
Fixpoint next_id_loop (fuel : nat) (self : BackendPoolState) : exec (Z * BackendPoolState) :=
  match fuel with
  | O => Panic
  | S fuel =>
      let connection_id := Z.max self.(next_connection_id) 1 in
      let self := {| limits := self.(limits);
                     next_connection_id := Z.max ((connection_id + 1) mod 2 ^ 64) 1;
                     entries := self.(entries) |} in
      if bool_decide (is_Some (self.(entries) !! connection_id)) then next_id_loop fuel self
      else Done (connection_id, self)
  end.

Definition next_available_connection_id (self : BackendPoolState) : exec (Z * BackendPoolState) :=
  next_id_loop (S (size self.(entries))) self.

Definition register (self : BackendPoolState) (o : OriginKey) (m : BackendConnectionMode) (now : Z)
    : exec (result BackendRegisterError BackendRegistration * BackendPoolState) :=
  '(r, self) ← prepare_registration self o;
  match r with
  | Err e => Done (Err e, self)
  | Ok removals =>
      '(connection_id, self) ← next_available_connection_id self;
      let entry := {| origin := o; mode := m; active_streams := 0;
                      last_activity := now; draining := false |} in
      Done (Ok {| registered_id := connection_id; removals := removals |},
            with_entries self (<[connection_id := entry]> self.(entries)))
  end.

(** The available connection to the origin with the least
    [(active_streams, Reverse(last_activity), connection_id)]. *)
Definition select (self : BackendPoolState) (o : OriginKey) : option Z :=
  fst <$> min_by_key (λ c : Z * BackendEntry,
      [c.2.(active_streams); - c.2.(last_activity); c.1])
    (filter (λ c : Z * BackendEntry,
        Is_true (bool_decide (c.2.(origin) = o) && available c.2))
      (map_to_list self.(entries))).

Definition acquire (self : BackendPoolState) (o : OriginKey) (now : Z)
    : exec (option BackendLease * BackendPoolState) :=
  match select self o with
  | None => Done (None, self)
  | Some connection_id =>
      entry ← expect (self.(entries) !! connection_id);
      streams ← usize_add entry.(active_streams) 1;
      let entry := {| origin := entry.(origin); mode := entry.(mode);
                      active_streams := streams; last_activity := now;
                      draining := entry.(draining) |} in
      Done (Some {| leased_id := connection_id; leased_origin := entry.(origin) |},
            with_entries self (<[connection_id := entry]> self.(entries)))
  end.

Definition release (self : BackendPoolState) (connection_id now : Z)
    : option BackendRemoval * BackendPoolState :=
  match self.(entries) !! connection_id with
  | None => (None, self)
  | Some entry =>
      if entry.(active_streams) =? 0 then (None, self)
      else
        let entry := {| origin := entry.(origin); mode := entry.(mode);
                        active_streams := entry.(active_streams) - 1; last_activity := now;
                        draining := entry.(draining) |} in
        let self := with_entries self (<[connection_id := entry]> self.(entries)) in
        if entry.(draining) && (entry.(active_streams) =? 0)
        then remove self connection_id GoAway
        else (None, self)
  end.

Definition mark_goaway (self : BackendPoolState) (connection_id : Z)
    : option BackendRemoval * BackendPoolState :=
  match self.(entries) !! connection_id with
  | None => (None, self)
  | Some entry =>
      if entry.(active_streams) =? 0 then remove self connection_id GoAway
      else
        let entry := {| origin := entry.(origin); mode := entry.(mode);
                        active_streams := entry.(active_streams);
                        last_activity := entry.(last_activity); draining := true |} in
        (None, with_entries self (<[connection_id := entry]> self.(entries)))
  end.

Definition disconnected (self : BackendPoolState) (connection_id : Z)
    : option BackendRemoval * BackendPoolState := remove self connection_id Disconnected.

(** [connection_ids.into_iter().filter_map(|id| self.remove(id, why)).collect()]. *)
Fixpoint remove_all (self : BackendPoolState) (connection_ids : list Z) (why : BackendRemovalReason)
    : list BackendRemoval * BackendPoolState :=
  match connection_ids with
  | [] => ([], self)
  | connection_id :: connection_ids =>
      let '(removal, self) := remove self connection_id why in
      let '(removals, self) := remove_all self connection_ids why in
      (match removal with Some r => r :: removals | None => removals end, self)
  end.

Definition select_ids (p : BackendEntry → bool) (self : BackendPoolState) : list Z :=
  (filter (λ c : Z * BackendEntry, Is_true (p c.2)) (map_to_list self.(entries))).*1.

Definition invalidate_policy (self : BackendPoolState) (id : Z)
    : list BackendRemoval * BackendPoolState :=
  remove_all self (select_ids (λ entry, entry.(origin).(policy_id) =? id) self) PolicyInvalidated.

(** [now.checked_duration_since(last).is_some_and(|idle| idle >= timeout)]. *)
Definition idle_for (timeout now last : Z) : bool := (last <=? now) && (timeout <=? now - last).

Definition prune_idle (self : BackendPoolState) (now : Z)
    : list BackendRemoval * BackendPoolState :=
  remove_all self
    (select_ids (λ entry, entry_idle entry &&
        idle_for self.(limits).(idle_timeout) now entry.(last_activity)) self)
    IdleTimeout.

(** ** Sequences of operations *)

Inductive pool_op :=
  | OpRegister (o : OriginKey) (m : BackendConnectionMode) (now : Z)
  | OpPrepare (o : OriginKey)
  | OpAcquire (o : OriginKey) (now : Z)
  | OpRelease (connection_id now : Z)
  | OpGoaway (connection_id : Z)
  | OpDisconnected (connection_id : Z)
  | OpInvalidate (policy : Z)
  | OpPrune (now : Z).

Definition pool_step (self : BackendPoolState) (op : pool_op) : exec BackendPoolState :=
  match op with
  | OpRegister o m now => '(_, s) ← register self o m now; Done s
  | OpPrepare o => '(_, s) ← prepare_registration self o; Done s
  | OpAcquire o now => '(_, s) ← acquire self o now; Done s
  | OpRelease id now => Done (release self id now).2
  | OpGoaway id => Done (mark_goaway self id).2
  | OpDisconnected id => Done (disconnected self id).2
  | OpInvalidate policy => Done (invalidate_policy self policy).2
  | OpPrune now => Done (prune_idle self now).2
  end.

Fixpoint pool_run (self : BackendPoolState) (ops : list pool_op) : exec BackendPoolState :=
  match ops with
  | [] => Done self
  | op :: ops => self ← pool_step self op; pool_run self ops
  end.

(** ** Well-formed pools *)

(** What [NonZeroUsize] and [BackendPoolLimits::new] give. *)
Definition limits_ok (l : BackendPoolLimits) : Prop :=
  1 ≤ l.(max_connections_per_origin) ≤ l.(max_connections) ∧ l.(max_connections) ≤ USIZE_MAX ∧
  0 < l.(idle_timeout).

Definition mode_ok (m : BackendConnectionMode) : Prop := 1 ≤ capacity m ≤ USIZE_MAX.

Definition entry_ok (e : BackendEntry) : Prop :=
  mode_ok e.(mode) ∧ 0 ≤ e.(active_streams) ≤ capacity e.(mode) ∧
  (e.(draining) = true → 0 < e.(active_streams)).

Record pool_ok (s : BackendPoolState) : Prop := {
  ok_limits : limits_ok s.(limits);
  ok_next : 1 ≤ s.(next_connection_id) ≤ U64_MAX;
  ok_ids : ∀ id e, s.(entries) !! id = Some e → 1 ≤ id ≤ U64_MAX ∧ entry_ok e;
  ok_len : map_len s.(entries) ≤ s.(limits).(max_connections);
  ok_origin : ∀ o, connection_count_for_origin s o ≤ s.(limits).(max_connections_per_origin);
}.

Definition op_ok (op : pool_op) : Prop :=
  match op with OpRegister _ m _ => mode_ok m | _ => True end.

(** ** Counting under updates of one connection *)

Definition of_origin (o : OriginKey) (e : BackendEntry) : Z :=
  if bool_decide (e.(origin) = o) then 1 else 0.

Lemma count_delete s id e o :
  s.(entries) !! id = Some e →
  connection_count_for_origin (with_entries s (delete id s.(entries))) o =
  connection_count_for_origin s o - of_origin o e.
Proof.
  intros He. unfold connection_count_for_origin, map_count. cbn.
  rewrite (map_sum_delete _ s.(entries) id e He). unfold of_origin. lia.
Qed.

Lemma of_origin_bounds o e : 0 ≤ of_origin o e ≤ 1.
Proof. unfold of_origin. case_bool_decide; lia. Qed.

Lemma pool_ok_remove s id e :
  pool_ok s → s.(entries) !! id = Some e → pool_ok (with_entries s (delete id s.(entries))).
Proof.
  intros [Hl Hn Hi Hlen Ho] He. constructor; cbn; [done|done| | |].
  - intros j f [_ Hj]%lookup_delete_Some. eauto.
  - rewrite (map_len_delete_sub _ _ e) by done. lia.
  - intros o. rewrite (count_delete _ _ e) by done. pose proof (of_origin_bounds o e).
    specialize (Ho o). lia.
Qed.

(** Changing streams, times or the draining mark of a connection. *)
Lemma pool_ok_update s id e e' :
  pool_ok s → s.(entries) !! id = Some e → e'.(origin) = e.(origin) → entry_ok e' →
  pool_ok (with_entries s (<[id := e']> s.(entries))).
Proof.
  intros [Hl Hn Hi Hlen Ho] He Heo Hok. constructor; cbn; [done|done| | |].
  - intros j f. destruct (decide (j = id)) as [->|Hne].
    + rewrite lookup_insert_eq. intros [= <-]. split; [by eapply Hi|done].
    + rewrite lookup_insert_ne by done. eauto.
  - rewrite <- map_sum_len, (map_sum_replace _ _ id e), map_sum_len by done. lia.
  - intros o. specialize (Ho o). unfold connection_count_for_origin, map_count in *. cbn.
    rewrite (map_sum_replace _ _ id e) by done. rewrite Heo. lia.
Qed.

Lemma pool_ok_new l : limits_ok l → pool_ok (pool_new l).
Proof.
  intros H. pose proof H as (? & ? & ?). constructor; [done|cbn; lia|done|..].
  - cbn [pool_new entries limits]. rewrite <- map_sum_len, map_sum_empty. lia.
  - intros o. unfold connection_count_for_origin, map_count. cbn. rewrite map_sum_empty. lia.
Qed.

Lemma remove_pool_ok s id why : pool_ok s → pool_ok (remove s id why).2.
Proof.
  intros H. unfold remove. destruct (_ !! id) as [e|] eqn:E; [|done]. by eapply pool_ok_remove.
Qed.

Lemma remove_all_pool_ok s ids why : pool_ok s → pool_ok (remove_all s ids why).2.
Proof.
  revert s. induction ids as [|id ids IH]; intros s H; simpl; [done|].
  pose proof (remove_pool_ok s id why H) as H1. destruct (remove s id why) as [r s1].
  specialize (IH s1 H1). by destruct (remove_all s1 ids why).
Qed.

(** ** Choice of a connection *)

(** Candidates are exactly the connections that satisfy the filter. *)
Lemma elem_of_candidates (p : Z * BackendEntry → bool) (m : gmap Z BackendEntry) id e :
  (id, e) ∈ filter (λ c, Is_true (p c)) (map_to_list m) ↔ m !! id = Some e ∧ p (id, e) = true.
Proof. rewrite list_elem_of_filter, elem_of_map_to_list, Is_true_true. naive_solver. Qed.

Section choose.
Context (key : Z * BackendEntry → list Z) (p : Z * BackendEntry → bool).

Definition choose (m : gmap Z BackendEntry) : option Z :=
  fst <$> min_by_key key (filter (λ c, Is_true (p c)) (map_to_list m)).

Lemma choose_Some m id :
  choose m = Some id →
  ∃ e, m !! id = Some e ∧ p (id, e) = true ∧
    ∀ j f, m !! j = Some f → p (j, f) = true → lex_le (key (id, e)) (key (j, f)) = true.
Proof.
  unfold choose. intros ([? e] & Hm & ->)%fmap_Some. apply min_by_key_Some in Hm as [Hin Hall].
  apply elem_of_candidates in Hin as [? ?]. exists e. split; [done|]. split; [done|].
  intros j f Hj Hp. rewrite Forall_forall in Hall. by apply (Hall (j, f)), elem_of_candidates.
Qed.

Lemma choose_None m : choose m = None ↔ ∀ j f, m !! j = Some f → p (j, f) = false.
Proof.
  unfold choose. etrans; [apply fmap_None|]. etrans; [apply min_by_key_None|]. split.
  - intros E j f Hj. destruct (p (j, f)) eqn:Hp; [|done].
    assert (Hin : (j, f) ∈ filter (λ c, Is_true (p c)) (map_to_list m)) by by apply elem_of_candidates.
    rewrite E in Hin. by apply elem_of_nil in Hin.
  - intros H. destruct (filter _ _) as [|[j f] l] eqn:E; [done|].
    assert (Hin : (j, f) ∈ filter (λ c, Is_true (p c)) (map_to_list m)) by (rewrite E; left).
    apply elem_of_candidates in Hin as [Hj Hp]. rewrite (H j f Hj) in Hp. done.
Qed.
End choose.

Definition matches (o : option OriginKey) (e : BackendEntry) : bool :=
  match o with None => true | Some o => bool_decide (e.(origin) = o) end.

Lemma oldest_idle_Some s o id :
  oldest_idle s o = Some id →
  ∃ e, s.(entries) !! id = Some e ∧ e.(active_streams) = 0 ∧ matches o e = true ∧
    ∀ j f, s.(entries) !! j = Some f → f.(active_streams) = 0 → matches o f = true →
      lex_le [e.(last_activity); id] [f.(last_activity); j] = true.
Proof.
  intros (e & He & Hp & Hmin)%choose_Some. cbn in Hp, Hmin. apply andb_true_iff in Hp as [Hi Ho].
  exists e. split; [done|]. split; [by apply Z.eqb_eq|]. split; [done|].
  intros j f Hj Hf Hm. apply Hmin; [done|]. apply andb_true_iff. split; [by apply Z.eqb_eq|done].
Qed.

Lemma oldest_idle_None s o :
  oldest_idle s o = None ↔
  ∀ j f, s.(entries) !! j = Some f → matches o f = true → f.(active_streams) ≠ 0.
Proof.
  unfold oldest_idle. etrans; [apply (choose_None _ _ s.(entries))|]. cbn. split.
  - intros H j f Hj Hm E. specialize (H j f Hj). apply andb_false_iff in H as [H|H].
    + by apply Z.eqb_neq in H.
    + unfold matches in Hm. congruence.
  - intros H j f Hj. apply andb_false_iff. destruct (matches o f) eqn:E; [left|right; done].
    apply Z.eqb_neq. eauto.
Qed.

(** [e], under [id], is preferred to every other available connection of its origin. *)
Definition best_available (s : BackendPoolState) (o : OriginKey) (id : Z) (e : BackendEntry) : Prop :=
  s.(entries) !! id = Some e ∧ e.(origin) = o ∧ available e = true ∧
  ∀ j f, s.(entries) !! j = Some f → f.(origin) = o → available f = true →
    lex_le [e.(active_streams); - e.(last_activity); id] [f.(active_streams); - f.(last_activity); j] = true.

Lemma select_Some s o id : select s o = Some id → ∃ e, best_available s o id e.
Proof.
  intros (e & He & Hp & Hmin)%choose_Some. cbn in Hp, Hmin. apply andb_true_iff in Hp as [Ho Ha].
  apply bool_decide_eq_true_1 in Ho. exists e. split; [done|]. split; [done|]. split; [done|].
  intros j f Hj Hf Hv. apply Hmin; [done|]. apply andb_true_iff. split; [by apply bool_decide_eq_true_2|done].
Qed.

Lemma select_None s o :
  select s o = None ↔ ∀ j f, s.(entries) !! j = Some f → f.(origin) = o → available f = false.
Proof.
  unfold select. etrans; [apply (choose_None _ _ s.(entries))|]. cbn. split.
  - intros H j f Hj Hm. specialize (H j f Hj). apply andb_false_iff in H as [H|H]; [|done].
    by apply bool_decide_eq_false_1 in H.
  - intros H j f Hj. apply andb_false_iff. case_bool_decide; [right; eauto|by left].
Qed.

(** ** Eviction *)

Definition evicted (s : BackendPoolState) (id : Z) (why : BackendRemovalReason)
    : exec (result BackendRegisterError (list BackendRemoval) * BackendPoolState) :=
  match s.(entries) !! id with
  | Some e => Done (Ok [{| removed_id := id; removed_origin := e.(origin); reason := why |}],
                    with_entries s (delete id s.(entries)))
  | None => Panic
  end.

(** What [prepare_registration] amounts to: at most one connection leaves. *)
Definition prepare_reference (s : BackendPoolState) (o : OriginKey)
    : exec (result BackendRegisterError (list BackendRemoval) * BackendPoolState) :=
  if origin_full o s then
    match oldest_idle s (Some o) with
    | None => Done (Err CapacityBusy, s)
    | Some id => evicted s id OriginCapacity
    end
  else if pool_full s then
    match oldest_idle s None with
    | None => Done (Err CapacityBusy, s)
    | Some id => evicted s id GlobalCapacity
    end
  else Done (Ok [], s).

Lemma evict_while_skip fuel full o why s acc :
  full s = false → evict_while (S fuel) full o why s acc = Done (Ok acc, s).
Proof. intros H. simpl. by rewrite H. Qed.

Lemma evict_while_stuck fuel full o why s acc :
  full s = true → oldest_idle s o = None → evict_while (S fuel) full o why s acc = Done (Err CapacityBusy, s).
Proof. intros H E. simpl. by rewrite H, E. Qed.

Lemma evict_while_once fuel full o why s id e :
  full s = true → oldest_idle s o = Some id → s.(entries) !! id = Some e →
  full (with_entries s (delete id s.(entries))) = false →
  evict_while (S (S fuel)) full o why s [] = evicted s id why.
Proof.
  intros H E He Hf. cbn [evict_while]. rewrite H, E. unfold remove, evicted. rewrite He.
  cbn [evict_while]. by rewrite Hf.
Qed.

Lemma size_pos s id (e : BackendEntry) : s.(entries) !! id = Some e → ∃ n, size s.(entries) = S n.
Proof.
  intros He. destruct (size s.(entries)) eqn:E; [|eauto].
  apply map_size_empty_iff in E. rewrite E in He. by rewrite lookup_empty in He.
Qed.

Lemma origin_full_delete s o id e :
  pool_ok s → s.(entries) !! id = Some e → e.(origin) = o →
  origin_full o (with_entries s (delete id s.(entries))) = false.
Proof.
  intros H He Ho. unfold origin_full. apply Z.leb_gt. rewrite (count_delete _ _ e) by done. cbn.
  pose proof (ok_origin s H o). unfold of_origin. rewrite bool_decide_eq_true_2 by done. lia.
Qed.

Lemma pool_full_delete s id e :
  pool_ok s → s.(entries) !! id = Some e → pool_full (with_entries s (delete id s.(entries))) = false.
Proof.
  intros H He. unfold pool_full. apply Z.leb_gt. cbn. rewrite (map_len_delete_sub _ _ e) by done.
  pose proof (ok_len s H). lia.
Qed.

Lemma prepare_registration_reference s o :
  pool_ok s → prepare_registration s o = prepare_reference s o.
Proof.
  intros H. unfold prepare_registration, prepare_reference.
  destruct (origin_full o s) eqn:Fo.
  - destruct (oldest_idle s (Some o)) as [id|] eqn:E; [|by rewrite evict_while_stuck].
    destruct (oldest_idle_Some _ _ _ E) as (e & He & _ & Hm & _).
    apply bool_decide_eq_true_1 in Hm. destruct (size_pos _ _ _ He) as [n ->].
    rewrite (evict_while_once _ _ _ _ _ _ e) by (done || by eapply origin_full_delete).
    unfold evicted. rewrite He. cbn [mbind exec_bind].
    apply evict_while_skip. by eapply pool_full_delete.
  - rewrite evict_while_skip by done. cbn [mbind exec_bind]. destruct (pool_full s) eqn:Fp.
    + destruct (oldest_idle s None) as [id|] eqn:E; [|by rewrite evict_while_stuck].
      destruct (oldest_idle_Some _ _ _ E) as (e & He & _ & _ & _).
      destruct (size_pos _ _ _ He) as [n ->].
      by rewrite (evict_while_once _ _ _ _ _ _ e) by (done || by eapply pool_full_delete).
    + by rewrite evict_while_skip.
Qed.

(** ** Fresh identifiers *)

(** The [k]-th identifier tried from [start] on, in a cycle through all of
    [1..=u64::MAX]. *)
Definition tried (start : Z) (k : nat) : Z := (start - 1 + Z.of_nat k) mod U64_MAX + 1.

Lemma tried_range start k : 1 ≤ tried start k ≤ U64_MAX.
Proof. unfold tried. pose proof (Z.mod_pos_bound (start - 1 + Z.of_nat k) U64_MAX). lia. Qed.

Lemma tried_0 start : 1 ≤ start ≤ U64_MAX → tried start 0 = start.
Proof. intros H. unfold tried. rewrite Z.mod_small; lia. Qed.

(** [wrapping_add(1).max(1)]. *)
Lemma tried_1 start : 1 ≤ start ≤ U64_MAX → tried start 1 = Z.max ((start + 1) mod 2 ^ 64) 1.
Proof.
  intros H. unfold tried. destruct (decide (start = U64_MAX)) as [->|Hne]; [done|].
  rewrite !Z.mod_small by lia. lia.
Qed.

Lemma tried_S start k : 1 ≤ start ≤ U64_MAX → tried start (S k) = tried (tried start 1) k.
Proof.
  intros H. unfold tried at 1 2 3. f_equal. rewrite Z.add_simpl_r.
  rewrite Z.add_mod_idemp_l by lia. f_equal. lia.
Qed.

Lemma tried_inj start j k :
  Z.of_nat j < U64_MAX → Z.of_nat k < U64_MAX → tried start j = tried start k → j = k.
Proof.
  unfold tried. intros Hj Hk E.
  assert (E' : (start - 1 + Z.of_nat j) mod U64_MAX = (start - 1 + Z.of_nat k) mod U64_MAX) by lia.
  pose proof (Z.div_mod (start - 1 + Z.of_nat j) U64_MAX).
  pose proof (Z.div_mod (start - 1 + Z.of_nat k) U64_MAX). lia.
Qed.

Definition set_next (s : BackendPoolState) (next : Z) : BackendPoolState :=
  {| limits := s.(limits); next_connection_id := next; entries := s.(entries) |}.

Lemma next_id_loop_cases fuel s :
  1 ≤ s.(next_connection_id) ≤ U64_MAX →
  (∃ k, next_id_loop fuel s = Done (tried s.(next_connection_id) k,
                                    set_next s (tried s.(next_connection_id) (S k))) ∧
        s.(entries) !! tried s.(next_connection_id) k = None) ∨
  (∀ k, (k < fuel)%nat → is_Some (s.(entries) !! tried s.(next_connection_id) k)).
Proof.
  revert s. induction fuel as [|fuel IH]; intros s H; [right; lia|]. cbn [next_id_loop].
  rewrite (Z.max_l _ 1) by lia. rewrite <- tried_1 by done. cbn [entries].
  case_bool_decide as Hd.
  - destruct (IH (set_next s (tried s.(next_connection_id) 1)) (tried_range _ _)) as [(k & E & Hk)|Hall].
    + left. exists (S k). cbn [set_next next_connection_id entries limits] in *.
      rewrite <- !tried_S in E by done. rewrite <- tried_S in Hk by done. by split.
    + right. cbn [set_next next_connection_id entries] in Hall. intros [|k] Hk.
      * by rewrite tried_0.
      * rewrite tried_S by done. apply Hall. lia.
  - left. exists 0%nat. rewrite tried_0 by done. split; [done|]. by apply eq_None_not_Some.
Qed.

(** An identifier is free within one round more than there are connections. *)
Lemma next_available_fresh s :
  1 ≤ s.(next_connection_id) ≤ U64_MAX → map_len s.(entries) < U64_MAX →
  ∃ k, next_available_connection_id s =
         Done (tried s.(next_connection_id) k, set_next s (tried s.(next_connection_id) (S k))) ∧
       s.(entries) !! tried s.(next_connection_id) k = None.
Proof.
  intros H Hlen. unfold next_available_connection_id.
  destruct (next_id_loop_cases (S (size s.(entries))) s H) as [?|Hall]; [done|exfalso].
  set (n := S (size s.(entries))) in *. unfold map_len in Hlen.
  assert (Hnd : NoDup (tried s.(next_connection_id) <$> seq 0 n)).
  { apply NoDup_fmap_2_strong; [|apply NoDup_seq]. intros j k Hj Hk.
    apply elem_of_seq in Hj, Hk. apply tried_inj; lia. }
  assert (Hsub : list_to_set (tried s.(next_connection_id) <$> seq 0 n) ⊆ dom s.(entries)).
  { intros x. rewrite elem_of_list_to_set, list_elem_of_fmap. intros (k & -> & Hk).
    apply elem_of_dom, Hall. apply elem_of_seq in Hk. lia. }
  apply subseteq_size in Hsub. rewrite size_list_to_set in Hsub by done.
  rewrite length_fmap, length_seq, size_dom in Hsub. lia.
Qed.

(** ** Preservation *)

Lemma prepare_outcome s o :
  pool_ok s →
  ∃ r s', prepare_registration s o = Done (r, s') ∧ pool_ok s' ∧
    s'.(limits) = s.(limits) ∧
    match r with
    | Err CapacityBusy => s' = s
    | Ok _ => origin_full o s' = false ∧ pool_full s' = false
    end.
Proof.
  intros H. rewrite prepare_registration_reference by done. unfold prepare_reference.
  destruct (origin_full o s) eqn:Fo; [|destruct (pool_full s) eqn:Fp].
  - destruct (oldest_idle s (Some o)) as [id|] eqn:E; [|by eexists (Err _), _].
    destruct (oldest_idle_Some _ _ _ E) as (e & He & _ & Hm & _). apply bool_decide_eq_true_1 in Hm.
    unfold evicted. rewrite He. eexists (Ok _), _. split; [done|].
    split; [by eapply pool_ok_remove|]. split; [done|].
    split; [by eapply origin_full_delete|by eapply pool_full_delete].
  - destruct (oldest_idle s None) as [id|] eqn:E; [|by eexists (Err _), _].
    destruct (oldest_idle_Some _ _ _ E) as (e & He & _ & _ & _).
    unfold evicted. rewrite He. eexists (Ok _), _. split; [done|].
    split; [by eapply pool_ok_remove|]. split; [done|]. split; [|by eapply pool_full_delete].
    unfold origin_full in *. apply Z.leb_gt in Fo. apply Z.leb_gt.
    rewrite (count_delete _ _ e) by done. pose proof (of_origin_bounds o e). cbn. lia.
  - by eexists (Ok _), _.
Qed.

Definition fresh_entry (o : OriginKey) (m : BackendConnectionMode) (now : Z) : BackendEntry :=
  {| origin := o; mode := m; active_streams := 0; last_activity := now; draining := false |}.

Lemma pool_ok_insert s id next o m now :
  pool_ok s → mode_ok m → 1 ≤ id ≤ U64_MAX → 1 ≤ next ≤ U64_MAX → s.(entries) !! id = None →
  origin_full o s = false → pool_full s = false →
  pool_ok (with_entries (set_next s next) (<[id := fresh_entry o m now]> s.(entries))).
Proof.
  intros [Hl Hn Hi Hlen Ho] Hm Hid Hnext Hf Fo Fp. apply Z.leb_gt in Fo, Fp.
  constructor; cbn; [done|done| | |].
  - intros j f. destruct (decide (j = id)) as [->|Hne].
    + rewrite lookup_insert_eq. intros [= <-]. split; [done|]. split; [done|].
      split; [unfold mode_ok in Hm; cbn; lia|done].
    + rewrite lookup_insert_ne by done. eauto.
  - rewrite <- map_sum_len, map_sum_insert, map_sum_len by done. lia.
  - intros o'. unfold connection_count_for_origin, map_count in *. cbn.
    rewrite map_sum_insert by done. cbn. specialize (Ho o'). case_bool_decide; subst; lia.
Qed.

Lemma register_outcome s o m now :
  pool_ok s → mode_ok m →
  ∃ r s', register s o m now = Done (r, s') ∧ pool_ok s' ∧ s'.(limits) = s.(limits) ∧
    match r with
    | Err CapacityBusy => s' = s ∧ ∃ why, prepare_reference s o = Done (Err why, s)
    | Ok reg => ∃ s1, prepare_reference s o = Done (Ok reg.(removals), s1) ∧
        s1.(entries) !! reg.(registered_id) = None ∧
        s'.(entries) = <[reg.(registered_id) := fresh_entry o m now]> s1.(entries)
    end.
Proof.
  intros H Hm. unfold register. destruct (prepare_outcome s o H) as (r & s1 & E & H1 & Hl & Hr).
  rewrite E. cbn [mbind exec_bind]. rewrite prepare_registration_reference in E by done.
  destruct r as [rs|[]].
  - destruct Hr as [Fo Fp]. destruct (next_available_fresh s1 (ok_next s1 H1)) as (k & Ek & Hk).
    { apply Z.leb_gt in Fp. pose proof (ok_limits s1 H1) as (_ & ? & _). lia. }
    rewrite Ek. cbn [mbind exec_bind]. eexists (Ok _), _. split; [done|].
    split; [apply (pool_ok_insert s1); auto using tried_range|].
    split; [done|]. by exists s1.
  - subst s1. eexists (Err _), _. do 4 (split; [done|]). by eexists.
Qed.

Lemma available_room s id e :
  pool_ok s → s.(entries) !! id = Some e → available e = true →
  0 ≤ e.(active_streams) < capacity e.(mode) ∧ capacity e.(mode) ≤ USIZE_MAX ∧ e.(draining) = false.
Proof.
  intros H He Ha. destruct (ok_ids s H _ _ He) as [_ (Hm & Hs & _)]. unfold mode_ok in Hm.
  apply andb_true_iff in Ha as [Hd Hc]. apply negb_true_iff in Hd. apply Z.ltb_lt in Hc.
  split_and!; [lia..|done].
Qed.

Definition leased (e : BackendEntry) (now : Z) : BackendEntry :=
  {| origin := e.(origin); mode := e.(mode); active_streams := e.(active_streams) + 1;
     last_activity := now; draining := e.(draining) |}.

Lemma acquire_outcome s o now :
  pool_ok s →
  match select s o with
  | None => acquire s o now = Done (None, s)
  | Some id => ∃ e, best_available s o id e ∧
      acquire s o now = Done (Some {| leased_id := id; leased_origin := o |},
                              with_entries s (<[id := leased e now]> s.(entries)))
  end.
Proof.
  intros H. unfold acquire. destruct (select s o) as [id|] eqn:E; [|done].
  destruct (select_Some _ _ _ E) as [e Hb]. exists e. split; [done|].
  destruct Hb as (He & Ho & Ha & _). destruct (available_room s id e H He Ha) as (? & ? & ?).
  rewrite He. cbn [expect mbind exec_bind]. rewrite usize_add_Done by lia. by subst o.
Qed.

Lemma acquire_pool_ok s o now r s' : pool_ok s → acquire s o now = Done (r, s') → pool_ok s'.
Proof.
  intros H E. pose proof (acquire_outcome s o now H) as Ho. destruct (select s o) as [id|].
  - destruct Ho as (e & (He & Heo & Ha & _) & E'). rewrite E' in E. injection E as <- <-.
    destruct (available_room s id e H He Ha) as (? & ? & Hd).
    eapply pool_ok_update; [done|done|done|].
    destruct (ok_ids s H _ _ He) as [_ (Hm & _)]. split; [done|]. cbn. split; [lia|]. congruence.
  - rewrite Ho in E. by injection E as <- <-.
Qed.

Lemma release_pool_ok s id now : pool_ok s → pool_ok (release s id now).2.
Proof.
  intros H. unfold release. destruct (_ !! id) as [e|] eqn:He; [|done].
  destruct (Z.eqb_spec e.(active_streams) 0) as [|Hne]; [done|]. cbv zeta.
  destruct (ok_ids s H _ _ He) as [_ (Hm & Hs & Hd)]. cbn [draining active_streams].
  destruct (e.(draining) && (e.(active_streams) - 1 =? 0)) eqn:Ed.
  - unfold remove. cbn. rewrite lookup_insert_eq. cbn. unfold with_entries. cbn.
    rewrite delete_insert_eq. by eapply (pool_ok_remove s).
  - eapply pool_ok_update; [done..|]. split; [done|]. cbn. split; [lia|].
    intros Hdr. rewrite Hdr in Ed. apply Z.eqb_neq in Ed. lia.
Qed.

Lemma mark_goaway_pool_ok s id : pool_ok s → pool_ok (mark_goaway s id).2.
Proof.
  intros H. unfold mark_goaway. destruct (_ !! id) as [e|] eqn:He; [|done].
  destruct (Z.eqb_spec e.(active_streams) 0) as [|Hne]; [by apply remove_pool_ok|].
  destruct (ok_ids s H _ _ He) as [_ (Hm & Hs & Hd)].
  eapply pool_ok_update; [done..|]. split; [done|]. cbn. lia.
Qed.

Lemma remove_limits s id why : (remove s id why).2.(limits) = s.(limits).
Proof. unfold remove. by destruct (_ !! id). Qed.

Lemma remove_all_limits s ids why : (remove_all s ids why).2.(limits) = s.(limits).
Proof.
  revert s. induction ids as [|id ids IH]; intros s; simpl; [done|].
  pose proof (remove_limits s id why) as Hr. destruct (remove s id why) as [r s1].
  specialize (IH s1). destruct (remove_all s1 ids why). cbn in *. congruence.
Qed.

Lemma release_limits s id now : (release s id now).2.(limits) = s.(limits).
Proof. unfold release. repeat case_match; try done. by rewrite remove_limits. Qed.

Lemma mark_goaway_limits s id : (mark_goaway s id).2.(limits) = s.(limits).
Proof. unfold mark_goaway. repeat case_match; try done. apply remove_limits. Qed.

Lemma acquire_done s o now :
  pool_ok s → ∃ r s', acquire s o now = Done (r, s') ∧ pool_ok s' ∧ s'.(limits) = s.(limits).
Proof.
  intros H. pose proof (acquire_outcome s o now H) as Ha.
  destruct (acquire s o now) as [[r s']|] eqn:E.
  - exists r, s'. split; [done|]. split; [by eapply acquire_pool_ok|].
    destruct (select s o); [destruct Ha as (e & _ & Ha)|]; by injection Ha as -> ->.
  - destruct (select s o); [by destruct Ha as (e & _ & Ha)|done].
Qed.

(** Every operation returns, without a panic, and keeps the pool well formed. *)
Lemma backend_step_ok s op :
  pool_ok s → op_ok op →
  ∃ s', pool_step s op = Done s' ∧ pool_ok s' ∧ s'.(limits) = s.(limits).
Proof.
  intros H Ho. destruct op as [o m now|o|o now|id now|id|id|policy|now]; cbn [pool_step].
  - destruct (register_outcome s o m now H Ho) as (r & s' & -> & ? & ? & _). eauto.
  - destruct (prepare_outcome s o H) as (r & s' & -> & ? & ? & _). eauto.
  - destruct (acquire_done s o now H) as (r & s' & -> & ? & ?). eauto.
  - eauto using release_pool_ok, release_limits.
  - eauto using mark_goaway_pool_ok, mark_goaway_limits.
  - eauto using remove_pool_ok, remove_limits.
  - eauto using remove_all_pool_ok, remove_all_limits.
  - eauto using remove_all_pool_ok, remove_all_limits.
Qed.

Lemma backend_run_ok s ops :
  pool_ok s → Forall op_ok ops →
  ∃ s', pool_run s ops = Done s' ∧ pool_ok s' ∧ s'.(limits) = s.(limits).
Proof.
  intros H Hops. revert s H. induction Hops as [|op ops Ho _ IH]; intros s H; simpl; [eauto|].
  destruct (backend_step_ok s op H Ho) as (s1 & -> & H1 & E1). cbn.
  destruct (IH s1 H1) as (s2 & -> & H2 & E2). exists s2. split_and!; congruence.
Qed.

(** ** What an operation does to one connection *)

Lemma remove_lookup s id why j :
  (remove s id why).2.(entries) !! j = if decide (j = id) then None else s.(entries) !! j.
Proof.
  unfold remove. destruct (s.(entries) !! id) as [e|] eqn:E; cbn; case_decide; subst; auto.
  - apply lookup_delete_eq.
  - by apply lookup_delete_ne.
Qed.

Lemma remove_all_lookup s ids why j :
  (remove_all s ids why).2.(entries) !! j = if decide (j ∈ ids) then None else s.(entries) !! j.
Proof.
  revert s. induction ids as [|id ids IH]; intros s; simpl; [done|].
  pose proof (remove_lookup s id why j) as Hr. destruct (remove s id why) as [r s1].
  specialize (IH s1). destruct (remove_all s1 ids why) as [rs s2]. cbn in *. rewrite IH, Hr.
  repeat case_decide; set_solver.
Qed.

Lemma elem_of_select_ids p s id :
  id ∈ select_ids p s ↔ ∃ e, s.(entries) !! id = Some e ∧ p e = true.
Proof.
  unfold select_ids. rewrite list_elem_of_fmap. split.
  - intros ([j e] & -> & [? ?]%(elem_of_candidates (λ c, p c.2))). eauto.
  - intros (e & He & Hp). exists (id, e). split; [done|]. by apply (elem_of_candidates (λ c, p c.2)).
Qed.

Lemma prepare_lookup s o r s' id e :
  pool_ok s → prepare_registration s o = Done (r, s') → s.(entries) !! id = Some e →
  0 < e.(active_streams) → s'.(entries) !! id = Some e.
Proof.
  intros H E He Hs. rewrite prepare_registration_reference in E by done.
  assert (Hev : ∀ o' why j, oldest_idle s o' = Some j → evicted s j why = Done (r, s') →
                s'.(entries) !! id = Some e).
  { intros o' why j (f & Hj & Hf & _)%oldest_idle_Some. unfold evicted. rewrite Hj.
    intros [= <- <-]. cbn. rewrite lookup_delete_ne; [done|]. intros ->. simplify_eq. lia. }
  unfold prepare_reference in E. repeat case_match; simplify_eq; eauto.
Qed.

(** The operations that end a connection whatever its streams. *)
Definition severs (op : pool_op) (id : Z) (e : BackendEntry) : bool :=
  match op with
  | OpDisconnected j => j =? id
  | OpInvalidate policy => e.(origin).(policy_id) =? policy
  | _ => false
  end.

(** How an operation changes the streams of a connection in use. *)
Definition moves (op : pool_op) (id : Z) (e e' : BackendEntry) : Prop :=
  match op with
  | OpAcquire o _ => e' = e ∨ (e'.(active_streams) = e.(active_streams) + 1 ∧ available e = true)
  | OpRelease j _ => if j =? id then e'.(active_streams) = e.(active_streams) - 1 else e' = e
  | _ => e'.(active_streams) = e.(active_streams)
  end.

(** A connection in use is still there, for the same origin, and stays draining. *)
Definition survives (op : pool_op) (id : Z) (e : BackendEntry) (s' : BackendPoolState) : Prop :=
  ∃ e', s'.(entries) !! id = Some e' ∧ e'.(origin) = e.(origin) ∧ e'.(mode) = e.(mode) ∧
        (e.(draining) = true → e'.(draining) = true) ∧ moves op id e e'.

Lemma survives_unchanged op id e s' :
  s'.(entries) !! id = Some e → moves op id e e → survives op id e s'.
Proof. intros Hl Hm. exists e. by split_and!. Qed.

Lemma acquire_busy s o now r s' id e :
  pool_ok s → acquire s o now = Done (r, s') → s.(entries) !! id = Some e →
  survives (OpAcquire o now) id e s'.
Proof.
  intros H E He. pose proof (acquire_outcome s o now H) as Ha. destruct (select s o) as [j|].
  - destruct Ha as (f & (Hj & _ & Hav & _) & Ea). rewrite Ea in E. injection E as <- <-.
    destruct (decide (j = id)) as [->|Hne].
    + simplify_eq. exists (leased e now). cbn. rewrite lookup_insert_eq. split_and!; auto.
    + apply survives_unchanged; cbn; [by rewrite lookup_insert_ne|auto].
  - rewrite Ha in E. injection E as <- <-. apply survives_unchanged; cbn; auto.
Qed.

Lemma release_other s j now id :
  j ≠ id → (release s j now).2.(entries) !! id = s.(entries) !! id.
Proof.
  intros Hne. unfold release. destruct (s.(entries) !! j) as [f|] eqn:Hj; [|done].
  destruct (_ =? 0); [done|]. cbn zeta.
  destruct (_ && _); [rewrite remove_lookup, decide_False by done|]; cbn; by rewrite lookup_insert_ne.
Qed.

Lemma release_busy s now id e :
  s.(entries) !! id = Some e → 0 < e.(active_streams) →
  survives (OpRelease id now) id e (release s id now).2 ∨
  ((release s id now).2.(entries) !! id = None ∧ e.(draining) = true ∧ e.(active_streams) = 1).
Proof.
  intros He Hs. unfold release. rewrite He, (proj2 (Z.eqb_neq _ _)) by lia. cbn [draining active_streams].
  destruct (_ && _) eqn:Hd; cbn zeta.
  - right. apply andb_true_iff in Hd as [Hd Ha]. apply Z.eqb_eq in Ha.
    rewrite remove_lookup, decide_True by done. split_and!; [done..|lia].
  - left. eexists. cbn. rewrite lookup_insert_eq, Z.eqb_refl. by split_and!.
Qed.

Lemma mark_goaway_busy s j id e :
  s.(entries) !! id = Some e → 0 < e.(active_streams) → survives (OpGoaway j) id e (mark_goaway s j).2.
Proof.
  intros He Hs. unfold mark_goaway. destruct (decide (j = id)) as [->|Hne].
  - rewrite He, (proj2 (Z.eqb_neq _ _)) by lia. eexists. cbn. rewrite lookup_insert_eq. by split_and!.
  - apply survives_unchanged; [|done]. destruct (s.(entries) !! j) as [f|] eqn:Hj; [|done].
    destruct (_ =? 0); [by rewrite remove_lookup, decide_False by done|]. cbn. by rewrite lookup_insert_ne.
Qed.

Lemma remove_ids_busy s p why id e :
  s.(entries) !! id = Some e → p e = false →
  (remove_all s (select_ids p s) why).2.(entries) !! id = Some e.
Proof.
  intros He Hp. rewrite remove_all_lookup, decide_False; [done|].
  intros (f & Hf & Hpf)%elem_of_select_ids. congruence.
Qed.

Lemma register_busy s o m now r s' id e :
  pool_ok s → mode_ok m → register s o m now = Done (r, s') → s.(entries) !! id = Some e →
  0 < e.(active_streams) → s'.(entries) !! id = Some e.
Proof.
  intros H Hm E He Hs. destruct (register_outcome s o m now H Hm) as (r1 & s1 & Er & _ & _ & Hr).
  rewrite Er in E. injection E as -> ->. destruct r as [reg|[]]; [|by destruct Hr as [-> _]].
  destruct Hr as (s2 & Ep & Hf & ->). rewrite <- prepare_registration_reference in Ep by done.
  pose proof (prepare_lookup _ _ _ _ _ _ H Ep He Hs) as Hl. rewrite lookup_insert_ne; congruence.
Qed.

(** No operation but the severing ones takes away a connection in use, save the
    release of the last stream of a draining one. *)
Lemma busy_step s op s' id e :
  pool_ok s → op_ok op → pool_step s op = Done s' → s.(entries) !! id = Some e →
  0 < e.(active_streams) → severs op id e = false →
  survives op id e s' ∨
  (s'.(entries) !! id = None ∧ e.(draining) = true ∧ e.(active_streams) = 1 ∧
   ∃ now, op = OpRelease id now).
Proof.
  intros H Ho E He Hs Hsev. destruct op as [o m now|o|o now|j now|j|j|policy|now]; cbn [pool_step] in E.
  - bind_inv E. destruct r as [r s1]. injection E as <-. left.
    apply survives_unchanged; [by eapply register_busy|done].
  - bind_inv E. destruct r as [r s1]. injection E as <-. left.
    apply survives_unchanged; [by eapply prepare_lookup|done].
  - bind_inv E. destruct r as [r s1]. injection E as <-. left. by eapply acquire_busy.
  - injection E as <-. destruct (decide (j = id)) as [->|Hne].
    + destruct (release_busy s now id e He Hs) as [?|(? & ? & ?)]; [by left|right]. eauto.
    + left. apply survives_unchanged; [by rewrite release_other|]. cbn.
      by rewrite (proj2 (Z.eqb_neq j id)).
  - injection E as <-. left. by apply mark_goaway_busy.
  - injection E as <-. left. apply survives_unchanged; [|done]. apply Z.eqb_neq in Hsev.
    unfold disconnected. by rewrite remove_lookup, decide_False by congruence.
  - injection E as <-. left. apply survives_unchanged; [|done]. by apply remove_ids_busy.
  - injection E as <-. left. apply survives_unchanged; [|done]. apply remove_ids_busy; [done|].
    apply andb_false_iff. left. apply Z.eqb_neq. lia.
Qed.

(** ** Draining *)

Definition is_release (id : Z) (op : pool_op) : bool :=
  match op with OpRelease j _ => j =? id | _ => false end.

Definition releases (id : Z) (ops : list pool_op) : Z :=
  foldr (λ op n, (if is_release id op then 1 else 0) + n) 0 ops.

(** The connection is gone after some first part of the operations. *)
Definition gone_within (s : BackendPoolState) (ops : list pool_op) (id : Z) : Prop :=
  ∃ first rest s1, ops = first ++ rest ∧ pool_run s first = Done s1 ∧ s1.(entries) !! id = None.

Lemma gone_cons s op ops s1 id :
  pool_step s op = Done s1 → gone_within s1 ops id → gone_within s (op :: ops) id.
Proof.
  intros E (first & rest & s2 & -> & Hr & Hg). exists (op :: first), rest, s2.
  split; [done|]. split; [|done]. simpl. by rewrite E.
Qed.

Lemma gone_now s op ops s1 id :
  pool_step s op = Done s1 → s1.(entries) !! id = None → gone_within s (op :: ops) id.
Proof. intros E Hg. apply (gone_cons s op ops s1 id E). by exists [], ops, s1. Qed.

Lemma severed_gone s op s' id e :
  pool_step s op = Done s' → s.(entries) !! id = Some e → severs op id e = true →
  s'.(entries) !! id = None.
Proof.
  intros E He Hsev. destruct op as [| | | | |j|policy|]; try done; injection E as <-.
  - apply Z.eqb_eq in Hsev as ->. unfold disconnected. by rewrite remove_lookup, decide_True.
  - unfold invalidate_policy. rewrite remove_all_lookup, decide_True; [done|].
    apply elem_of_select_ids. eauto.
Qed.

Lemma moves_draining op id e e' :
  e.(draining) = true → moves op id e e' →
  e'.(active_streams) = e.(active_streams) - (if is_release id op then 1 else 0).
Proof.
  intros Hd Hm. destruct op as [| | |j now| | | |]; cbn in *; try lia.
  - destruct Hm as [->|[_ Ha]]; [lia|]. unfold available in Ha. by rewrite Hd in Ha.
  - destruct (j =? id); [lia|]. subst. lia.
Qed.

(** A draining connection loses one stream with each of its releases, gains none,
    and is gone when the last one is released. *)
Lemma draining_run s ops s' id e :
  pool_ok s → Forall op_ok ops → pool_run s ops = Done s' → s.(entries) !! id = Some e →
  e.(draining) = true →
  gone_within s ops id ∨
  ∃ e', s'.(entries) !! id = Some e' ∧ e'.(active_streams) = e.(active_streams) - releases id ops ∧
        0 < e'.(active_streams).
Proof.
  intros H Hops. revert s e H. induction Hops as [|op ops Ho _ IH]; intros s e H E He Hd.
  - injection E as <-. right. exists e. unfold releases. cbn [foldr].
    destruct (ok_ids s H _ _ He) as [_ (_ & _ & Hp)]. split_and!; [done|lia|auto].
  - destruct (backend_step_ok s op H Ho) as (s1 & E1 & H1 & _). simpl in E. rewrite E1 in E. cbn in E.
    destruct (ok_ids s H _ _ He) as [_ (_ & _ & Hp)].
    destruct (severs op id e) eqn:Hsev; [left; by eapply gone_now; [|eapply severed_gone]|].
    destruct (busy_step s op s1 id e H Ho E1 He (Hp Hd) Hsev) as [(e1 & He1 & _ & _ & Hd1 & Hm)|(Hg & _)].
    + apply moves_draining in Hm; [|done]. destruct (IH s1 e1 H1 E He1 (Hd1 Hd)) as [?|(e' & ? & ? & ?)].
      * left. by eapply gone_cons.
      * right. exists e'. unfold releases in *. cbn [foldr]. split_and!; [done|lia|done].
    + left. by eapply gone_now.
Qed.

(** ** Properties *)

(** The states a pool goes through, with limits as [BackendPoolLimits::new] accepts them. *)
Definition reachable (s : BackendPoolState) : Prop :=
  ∃ a b t l ops, 1 ≤ a ≤ USIZE_MAX ∧ 1 ≤ b ≤ USIZE_MAX ∧ 0 ≤ t ∧ limits_new a b t = Ok l ∧
    Forall op_ok ops ∧ pool_run (pool_new l) ops = Done s.

Lemma limits_new_ok a b t l :
  1 ≤ a ≤ USIZE_MAX → 1 ≤ b ≤ USIZE_MAX → 0 ≤ t → limits_new a b t = Ok l →
  limits_ok l ∧ l.(max_connections) = a ∧ l.(max_connections_per_origin) = b.
Proof.
  unfold limits_new. intros Ha Hb Ht. repeat zcase; intros [= <-]; unfold limits_ok; cbn; split_and!; lia.
Qed.

Lemma reachable_ok s : reachable s → pool_ok s.
Proof.
  intros (a & b & t & l & ops & Ha & Hb & Ht & Hl & Hops & E).
  destruct (limits_new_ok a b t l Ha Hb Ht Hl) as [Hok _].
  destruct (backend_run_ok _ _ (pool_ok_new l Hok) Hops) as (s' & E' & ? & _). congruence.
Qed.

(** C37. Whatever is done with a pool, no operation panics or loops forever, and
    the pool stays within its limits: in all, per origin, and in the streams of each
    connection; a draining connection still has streams. *)
Theorem pool_limits_hold (a b t : Z) (l : BackendPoolLimits) (ops : list pool_op) :
  1 ≤ a ≤ USIZE_MAX → 1 ≤ b ≤ USIZE_MAX → 0 ≤ t → limits_new a b t = Ok l → Forall op_ok ops →
  ∃ s, pool_run (pool_new l) ops = Done s ∧ map_len s.(entries) ≤ a ∧
    (∀ o, connection_count_for_origin s o ≤ b) ∧
    ∀ id e, s.(entries) !! id = Some e →
      1 ≤ id ≤ U64_MAX ∧ 0 ≤ e.(active_streams) ≤ capacity e.(mode) ∧
      (e.(draining) = true → 0 < e.(active_streams)).
Proof.
  intros Ha Hb Ht Hl Hops. destruct (limits_new_ok a b t l Ha Hb Ht Hl) as (Hok & <- & <-).
  destruct (backend_run_ok _ _ (pool_ok_new l Hok) Hops) as (s & E & H & El).
  exists s. split; [done|]. cbn in El. rewrite <- El. split; [apply H|]. split; [apply H|].
  intros id e He. by destruct (ok_ids s H id e He) as [? (_ & ? & ?)].
Qed.

(** C38. Registering always returns. It evicts at most one connection, as the
    straight-line [prepare_reference] does, stores the new one under an identifier not
    in use, and a refusal leaves the pool as it was. *)
Theorem register_terminates (s : BackendPoolState) (o : OriginKey) (m : BackendConnectionMode) (now : Z) :
  reachable s → mode_ok m →
  ∃ r s', register s o m now = Done (r, s') ∧
    match r with
    | Err e => prepare_reference s o = Done (Err e, s) ∧ s' = s
    | Ok reg => ∃ s1, prepare_reference s o = Done (Ok reg.(removals), s1) ∧
        (length reg.(removals) ≤ 1)%nat ∧ s1.(entries) !! reg.(registered_id) = None ∧
        s'.(entries) = <[reg.(registered_id) := fresh_entry o m now]> s1.(entries)
    end.
Proof.
  intros H%reachable_ok Hm. destruct (register_outcome s o m now H Hm) as (r & s' & E & _ & _ & Hr).
  exists r, s'. split; [done|]. destruct r as [reg|[]].
  - destruct Hr as (s1 & Ep & Hf & Es). exists s1. split_and!; try done.
    unfold prepare_reference, evicted in Ep. repeat case_match; try discriminate Ep;
      injection Ep as <- _; simpl; lia.
  - destruct Hr as (-> & [] & Ep). done.
Qed.

(** [acquire] lends the least loaded available connection to exactly the origin
    asked for (the most recently used one, then the oldest identifier, on a tie) and
    refuses only when every connection to that origin is draining or at capacity. *)
Theorem acquire_least_loaded (s : BackendPoolState) (o : OriginKey) (now : Z) :
  reachable s →
  (∃ id e, best_available s o id e ∧
     acquire s o now = Done (Some {| leased_id := id; leased_origin := o |},
                             with_entries s (<[id := leased e now]> s.(entries)))) ∨
  ((∀ id e, s.(entries) !! id = Some e → e.(origin) = o →
      e.(draining) = true ∨ capacity e.(mode) ≤ e.(active_streams)) ∧
   acquire s o now = Done (None, s)).
Proof.
  intros H%reachable_ok. pose proof (acquire_outcome s o now H) as Ha.
  destruct (select s o) as [id|] eqn:E.
  - left. exists id. done.
  - right. split; [|done]. intros id e He Ho. pose proof (proj1 (select_None s o) E id e He Ho) as Hv.
    apply andb_false_iff in Hv as [Hv|Hv]; [left; by apply negb_false_iff|right; by apply Z.ltb_ge].
Qed.

(** A connection with streams is never evicted: an operation that is not its
    disconnection or the invalidation of its policy keeps it, with exactly the streams
    acquired and not released, or was the release of the last stream of a draining one. *)
Theorem busy_connection_survives (s : BackendPoolState) (op : pool_op) (s' : BackendPoolState)
    (id : Z) (e : BackendEntry) :
  reachable s → op_ok op → pool_step s op = Done s' → s.(entries) !! id = Some e →
  0 < e.(active_streams) → severs op id e = false →
  survives op id e s' ∨
  (s'.(entries) !! id = None ∧ e.(draining) = true ∧ e.(active_streams) = 1 ∧
   ∃ now, op = OpRelease id now).
Proof. intros H%reachable_ok. by apply busy_step. Qed.

(** A connection that announced its shutdown goes away: whatever else happens,
    once it has been released as often as it had streams it has left the pool. *)
Theorem goaway_drains (s : BackendPoolState) (ops : list pool_op) (id : Z) (e : BackendEntry) :
  reachable s → s.(entries) !! id = Some e → Forall op_ok ops →
  e.(active_streams) ≤ releases id ops →
  gone_within (mark_goaway s id).2 ops id.
Proof.
  intros H%reachable_ok He Hops Hn. pose proof (mark_goaway_pool_ok s id H) as H1.
  destruct (backend_run_ok _ _ H1 Hops) as (s' & E & _). revert H1 E. unfold mark_goaway. rewrite He.
  destruct (Z.eqb_spec e.(active_streams) 0) as [|Hne]; cbn [snd]; intros H1 E.
  - exists [], ops, (remove s id GoAway).2. split; [done|]. split; [done|].
    by rewrite remove_lookup, decide_True.
  - destruct (draining_run _ ops s' id _ H1 Hops E (lookup_insert_eq _ _ _) eq_refl)
      as [?|(e' & _ & Hs & Hp)]; [done|]. cbn in Hs. lia.
Qed.

(** ** Witnesses *)

Definition ex_origin (policy : Z) : OriginKey :=
  {| policy_id := policy; authority := [97; 58; 56; 48]; protocol := Http2; security := Plaintext |}.

Definition ex_ops : list pool_op :=
  [OpRegister (ex_origin 1) (Multiplexed 2) 10; OpRegister (ex_origin 2) Exclusive 11;
   OpAcquire (ex_origin 1) 12; OpAcquire (ex_origin 1) 13].

Definition ex_limits : BackendPoolLimits :=
  {| max_connections := 2; max_connections_per_origin := 1; idle_timeout := 30 |}.

Definition ex_pool : BackendPoolState :=
  match pool_run (pool_new ex_limits) ex_ops with Done s => s | Panic => pool_new ex_limits end.

Lemma ex_reachable : reachable ex_pool.
Proof.
  exists 2, 1, 30, ex_limits, ex_ops. do 3 (split; [lia|]). split; [reflexivity|].
  split; [|vm_compute; reflexivity]. repeat constructor; cbn; lia.
Qed.

Lemma pool_limits_hold_witness :
  ∃ s, pool_run (pool_new ex_limits) ex_ops = Done s ∧ map_len s.(entries) ≤ 2.
Proof.
  destruct (pool_limits_hold 2 1 30 ex_limits ex_ops) as (s & E & H & _);
    [lia|lia|lia|reflexivity|repeat constructor; cbn; lia|]. by exists s.
Defined.

Lemma register_terminates_witness :
  ∃ r s', register ex_pool (ex_origin 3) Exclusive 20 = Done (r, s') ∧ is_ok r = true.
Proof.
  destruct (register_terminates ex_pool (ex_origin 3) Exclusive 20 ex_reachable) as (r & s' & E & _);
    [unfold mode_ok; cbn; lia|]. exists r, s'. split; [exact E|].
  vm_compute in E. injection E as <- _. reflexivity.
Defined.

Lemma acquire_least_loaded_witness :
  acquire ex_pool (ex_origin 1) 20 = Done (None, ex_pool).
Proof.
  destruct (acquire_least_loaded ex_pool (ex_origin 1) 20 ex_reachable) as [(id & e & _ & E)|[_ E]];
    [|exact E]. exfalso. vm_compute in E. discriminate E.
Defined.

Definition ex_busy : BackendEntry :=
  {| origin := ex_origin 1; mode := Multiplexed 2; active_streams := 2;
     last_activity := 13; draining := false |}.

Lemma busy_connection_survives_witness :
  ∃ s', pool_step ex_pool (OpPrune 1000) = Done s' ∧ survives (OpPrune 1000) 1 ex_busy s'.
Proof.
  eexists. split; [reflexivity|].
  destruct (busy_connection_survives ex_pool (OpPrune 1000) (prune_idle ex_pool 1000).2 1 ex_busy
              ex_reachable I eq_refl) as [H|(_ & E & _)];
    [vm_compute; reflexivity|cbn; lia|reflexivity|exact H|discriminate E].
Defined.

Lemma goaway_drains_witness :
  gone_within (mark_goaway ex_pool 1).2 [OpRelease 1 20; OpPrune 25; OpRelease 1 30] 1.
Proof.
  apply (goaway_drains ex_pool _ 1 ex_busy ex_reachable).
  - vm_compute. reflexivity.
  - repeat constructor.
  - cbn. lia.
Defined.
