(* ===== verification/Lifecycle.v ===== *)
(** * Lifecycle of the server ([lifecycle.rs])

    The phases a server goes through, behind one mutex: each method is one step.
    Times are Unix seconds, [timeout] a [Duration] in whole seconds. *)

From S2P Require Import Prelude.

Local Open Scope Z_scope.
Set Default Proof Using "Type".

Inductive LifecyclePhase := Starting | Ready | Draining | Stopping.
Global Instance LifecyclePhase_eq_dec : EqDecision LifecyclePhase.
Proof. solve_decision. Defined.

(** [LifecycleSnapshot] has the same fields. *)
Record LifecycleState := {
  phase : LifecyclePhase;
  startup_complete : bool;
  phase_changed_unix_seconds : Z;
  drain_deadline_unix_seconds : option Z;
}.

Inductive LifecycleTransitionError := StartupIncomplete | ServerStopping.

Definition snapshot_of (state : LifecycleState) : LifecycleState := state.

Definition lifecycle_new (now : Z) : LifecycleState :=
  {| phase := Starting; startup_complete := false; phase_changed_unix_seconds := now;
     drain_deadline_unix_seconds := None |}.

Definition mark_ready (now : Z) (state : LifecycleState) : LifecycleState :=
  if bool_decide (state.(phase) = Starting) then
    {| phase := Ready; startup_complete := true; phase_changed_unix_seconds := now;
       drain_deadline_unix_seconds := None |}
  else state.

Definition begin_drain (now timeout : Z) (state : LifecycleState)
    : result LifecycleTransitionError LifecycleState * LifecycleState :=
  match state.(phase) with
  | Starting => (Err StartupIncomplete, state)
  | Stopping => (Err ServerStopping, state)
  | Ready | Draining =>
      let state := {| phase := Draining; startup_complete := state.(startup_complete);
                      phase_changed_unix_seconds := now;
                      drain_deadline_unix_seconds := Some (saturating_add U64_MAX now timeout) |} in
      (Ok (snapshot_of state), state)
  end.

Definition resume (now : Z) (state : LifecycleState)
    : result LifecycleTransitionError LifecycleState * LifecycleState :=
  match state.(phase) with
  | Starting => (Err StartupIncomplete, state)
  | Stopping => (Err ServerStopping, state)
  | Ready => (Ok (snapshot_of state), state)
  | Draining =>
      let state := {| phase := Ready; startup_complete := state.(startup_complete);
                      phase_changed_unix_seconds := now; drain_deadline_unix_seconds := None |} in
      (Ok (snapshot_of state), state)
  end.

Definition begin_stopping (now : Z) (state : LifecycleState) : LifecycleState :=
  {| phase := Stopping; startup_complete := state.(startup_complete);
     phase_changed_unix_seconds := now; drain_deadline_unix_seconds := None |}.

Definition accepts_new_work (state : LifecycleState) : bool := bool_decide (state.(phase) = Ready).
Definition is_live (state : LifecycleState) : bool := negb (bool_decide (state.(phase) = Stopping)).
Definition is_ready (state : LifecycleState) : bool := accepts_new_work state.

(** ** Histories *)

Inductive lifecycle_call :=
  | CallReady (now : Z)
  | CallDrain (now timeout : Z)
  | CallResume (now : Z)
  | CallStop (now : Z).

Definition apply_call (state : LifecycleState) (c : lifecycle_call) : LifecycleState :=
  match c with
  | CallReady now => mark_ready now state
  | CallDrain now timeout => (begin_drain now timeout state).2
  | CallResume now => (resume now state).2
  | CallStop now => begin_stopping now state
  end.

Definition apply_calls (state : LifecycleState) (cs : list lifecycle_call) : LifecycleState :=
  foldl apply_call state cs.

Definition is_ready_call (c : lifecycle_call) : bool := match c with CallReady _ => true | _ => false end.
Definition is_stop_call (c : lifecycle_call) : bool := match c with CallStop _ => true | _ => false end.

(** The calls after the first [mark_ready]. *)
Fixpoint after_ready (cs : list lifecycle_call) : list lifecycle_call :=
  match cs with
  | [] => []
  | c :: cs => if is_ready_call c then cs else after_ready cs
  end.

(** The deadline of the last drain that no resume followed. *)
Definition pending_drain (cs : list lifecycle_call) : option Z :=
  foldl (λ d c, match c with
                | CallDrain now timeout => Some (saturating_add U64_MAX now timeout)
                | CallResume _ => None
                | _ => d
                end) None cs.

(** The phase a history leads to, read off the calls. *)
Definition phase_by_history (cs : list lifecycle_call) : LifecyclePhase :=
  if any is_stop_call cs then Stopping
  else if negb (any is_ready_call cs) then Starting
  else if bool_decide (is_Some (pending_drain (after_ready cs))) then Draining else Ready.

Lemma apply_calls_stopping cs s :
  s.(phase) = Stopping →
  (apply_calls s cs).(phase) = Stopping ∧ (apply_calls s cs).(startup_complete) = s.(startup_complete) ∧
  (s.(drain_deadline_unix_seconds) = None → (apply_calls s cs).(drain_deadline_unix_seconds) = None).
Proof.
  revert s. induction cs as [|c cs IH]; intros s Hs; [done|]. unfold apply_calls in *. cbn [foldl].
  destruct c; cbn [apply_call]; unfold mark_ready, begin_drain, resume; rewrite ?Hs; cbn;
    try (by apply IH). destruct (IH (begin_stopping now s) eq_refl) as (? & ? & Hd). split_and!; [done..|]. intros _. by apply Hd.
Qed.

(** From a ready or draining state, the deadline is that of the pending drain. *)
Definition running (s : LifecycleState) (d : option Z) : Prop :=
  s.(startup_complete) = true ∧ s.(drain_deadline_unix_seconds) = d ∧
  s.(phase) = if bool_decide (is_Some d) then Draining else Ready.

Lemma running_calls cs s d :
  running s d → any is_stop_call cs = false →
  running (apply_calls s cs)
    (foldl (λ d c, match c with
                   | CallDrain now timeout => Some (saturating_add U64_MAX now timeout)
                   | CallResume _ => None
                   | _ => d
                   end) d cs).
Proof.
  revert s d. induction cs as [|c cs IH]; intros s d Hr Hstop; [done|].
  cbn in Hstop. apply orb_false_iff in Hstop as [Hc Hstop]. unfold apply_calls in *. cbn [foldl].
  apply IH; [|done]. destruct Hr as (Hs & Hd & Hp).
  destruct c as [now|now timeout|now|now]; cbn [apply_call]; [| | |done].
  - unfold mark_ready. rewrite bool_decide_eq_false_2; [done|]. rewrite Hp. by case_bool_decide.
  - unfold begin_drain. rewrite Hp. by case_bool_decide.
  - unfold resume. rewrite Hp. case_bool_decide as Hd'; [done|].
    cbn. split; [done|]. split; [|done]. rewrite Hd. destruct d; [exfalso; eauto|done].
Qed.

Lemma starting_calls cs s :
  s.(phase) = Starting → s.(startup_complete) = false → s.(drain_deadline_unix_seconds) = None →
  any is_stop_call cs = false →
  let s' := apply_calls s cs in
  if any is_ready_call cs then running s' (pending_drain (after_ready cs)) else s' = s.
Proof.
  revert s. induction cs as [|c cs IH]; intros s Hp Hs Hd Hstop; [done|].
  cbn in Hstop. apply orb_false_iff in Hstop as [Hc Hstop]. unfold apply_calls in *. cbn [foldl].
  destruct c as [now|now timeout|now|now]; cbn -[foldl]; [| | |done].
  - apply running_calls; [|done]. unfold mark_ready. by rewrite Hp.
  - unfold begin_drain. rewrite Hp. by apply IH.
  - unfold resume. rewrite Hp. by apply IH.
Qed.

Lemma stop_split cs :
  any is_stop_call cs = true → ∃ pre now post, cs = pre ++ CallStop now :: post ∧ any is_stop_call pre = false.
Proof.
  induction cs as [|c cs IH]; [done|]. cbn. destruct (is_stop_call c) eqn:Ec.
  - intros _. destruct c; try done. by exists [], now, cs.
  - intros H. destruct (IH H) as (pre & now & post & -> & Hp). exists (c :: pre), now, post.
    split; [done|]. cbn. by rewrite Ec.
Qed.

(** After any calls, the phase is what the history says: stopping for good once
    stopped, else starting until ready, else draining exactly while a drain is pending;
    a deadline is set exactly while draining, and it is that of the pending drain. *)
Theorem lifecycle_follows_history (now : Z) (cs : list lifecycle_call) :
  let s := apply_calls (lifecycle_new now) cs in
  s.(phase) = phase_by_history cs ∧
  s.(drain_deadline_unix_seconds) =
    (if bool_decide (s.(phase) = Draining) then pending_drain (after_ready cs) else None) ∧
  (accepts_new_work s = true → s.(startup_complete) = true).
Proof.
  cbn zeta. unfold phase_by_history. destruct (any is_stop_call cs) eqn:Hstop.
  - destruct (stop_split cs Hstop) as (pre & t & post & -> & _).
    unfold apply_calls. rewrite foldl_app. cbn [foldl apply_call].
    destruct (apply_calls_stopping post (begin_stopping t (foldl apply_call (lifecycle_new now) pre)) eq_refl)
      as (Hp & _ & Hd). unfold apply_calls in *. unfold accepts_new_work. rewrite Hp, (Hd eq_refl). done.
  - pose proof (starting_calls cs (lifecycle_new now) eq_refl eq_refl eq_refl Hstop) as H. cbn zeta in H.
    destruct (any is_ready_call cs); [|by rewrite H].
    destruct H as (Hs & Hd & Hp). unfold accepts_new_work. rewrite Hp, Hs, Hd. split; [done|].
    split; [|done]. case_bool_decide as Hpd; [done|]. cbn.
    destruct (pending_drain (after_ready cs)); [exfalso; eauto|done].
Qed.
