(* ===== verification/HaTables.v ===== *)
(** * The coordination database

    The SQLite tables that the instances of a cluster share: members, the leader
    row and the fencing sequence ([ha_coordination.rs]), port ownership
    ([public_port_ownership.rs]), job leases ([job_leases.rs]), target health
    ([target_health.rs]) and fleet generations with their conflicts
    ([fleet_coordination.rs]). A row is the struct the code reads it into; [Uuid]s are
    128-bit integers, times are Unix seconds.

    A transaction takes the tables to an error or a value and new tables, so an
    error rolls back. Every statement that reads SQLite's clock takes the reading
    as an argument, and no order between readings is assumed unless stated. *)

From S2P Require Import Prelude RustStr.

Local Open Scope Z_scope.
Set Default Proof Using "Type".

(** The largest [i64], bound of an INTEGER column. *)
Definition I64_MAX : Z := 9223372036854775807.

(** ** Rows *)

Record HaMember := {
  m_instance_id : rstr;
  m_incarnation_id : rstr;
  m_started : Z;
  m_last_seen : Z;
  m_lease_until : Z;
  m_metadata_json : rstr;
}.

Record LeadershipLease := {
  l_instance_id : rstr;
  l_incarnation_id : rstr;
  l_fencing_token : Z;
  l_acquired : Z;
  l_renewed : Z;
  l_lease_until : Z;
}.

Inductive PublicPortProtocol := PortTcp | PortUdp.
Global Instance PublicPortProtocol_eq_dec : EqDecision PublicPortProtocol.
Proof. solve_decision. Defined.
Global Instance PublicPortProtocol_countable : Countable PublicPortProtocol.
Proof.
  refine (inj_countable' (λ p, match p with PortTcp => true | PortUdp => false end)
            (λ b, if b : bool then PortTcp else PortUdp) _). by intros [].
Defined.

Record PublicPortLease := {
  p_protocol : PublicPortProtocol;
  p_public_port : Z;
  p_lease_id : Z;
  p_owner_instance_id : rstr;
  p_owner_incarnation_id : rstr;
  p_fencing_token : Z;
  p_policy_id : Z;
  p_acquired : Z;
  p_renewed : Z;
  p_lease_until : Z;
}.

Record JobLease := {
  j_job_key : rstr;
  j_job_kind : rstr;
  j_lease_id : Z;
  j_owner_instance_id : rstr;
  j_owner_incarnation_id : rstr;
  j_fencing_token : Z;
  j_acquired : Z;
  j_renewed : Z;
  j_lease_until : Z;
  j_last_completed : option Z;
  j_last_error_code : option rstr;
}.

Record TargetHealth := {
  h_target_key : rstr;
  h_member_alive : bool;
  h_control_channel_healthy : bool;
  h_application_healthy : bool;
  h_effective_healthy : bool;
  h_consecutive_successes : Z;
  h_consecutive_failures : Z;
  h_weight : Z;
  h_revision : Z;
  h_last_probe : option Z;
  h_last_transition : Z;
  h_last_error_summary : option rstr;
}.

Inductive FleetSyncState := SyncPending | SyncApplying | SyncReady | SyncConflicted | SyncFailed.
Global Instance FleetSyncState_eq_dec : EqDecision FleetSyncState.
Proof. solve_decision. Defined.

Inductive FleetConflictState := ConflictOpen | ConflictResolved.
Global Instance FleetConflictState_eq_dec : EqDecision FleetConflictState.
Proof. solve_decision. Defined.

Record FleetGeneration := {
  g_source_instance_id : rstr;
  g_generation : Z;
  g_revision : rstr;
  g_owner_instance_id : rstr;
  g_owner_incarnation_id : rstr;
  g_fencing_token : Z;
  g_resource_count : Z;
  g_sync_state : FleetSyncState;
  g_sync_progress : Z;
  g_updated : Z;
}.

Record FleetConflict := {
  c_conflict_id : Z;
  c_source_instance_id : rstr;
  c_generation : Z;
  c_resource_kind : rstr;
  c_resource_id : rstr;
  c_owner_instance_id : option rstr;
  c_conflict_code : rstr;
  c_detail_summary : rstr;
  c_state : FleetConflictState;
  c_detected : Z;
  c_resolved : option Z;
  c_resolution : option rstr;
}.

(** ** Tables *)

Record Database := {
  ha_members : gmap rstr HaMember;
  ha_leader : option LeadershipLease;
  next_token : Z;
  public_port_ownership : gmap (PublicPortProtocol * Z) PublicPortLease;
  job_leases : gmap rstr JobLease;
  target_health : gmap rstr TargetHealth;
  fleet_generations : gmap rstr FleetGeneration;
  fleet_conflicts : gmap Z FleetConflict;
}.

(** The tables as the schemas create them. *)
Definition db_empty : Database :=
  {| ha_members := ∅; ha_leader := None; next_token := 1;
     public_port_ownership := ∅; job_leases := ∅; target_health := ∅;
     fleet_generations := ∅; fleet_conflicts := ∅ |}.

Definition set_members (db : Database) m : Database :=
  {| ha_members := m; ha_leader := db.(ha_leader); next_token := db.(next_token);
     public_port_ownership := db.(public_port_ownership); job_leases := db.(job_leases);
     target_health := db.(target_health);
     fleet_generations := db.(fleet_generations); fleet_conflicts := db.(fleet_conflicts) |}.
Definition set_leader (db : Database) l token : Database :=
  {| ha_members := db.(ha_members); ha_leader := l; next_token := token;
     public_port_ownership := db.(public_port_ownership); job_leases := db.(job_leases);
     target_health := db.(target_health);
     fleet_generations := db.(fleet_generations); fleet_conflicts := db.(fleet_conflicts) |}.
Definition set_ports (db : Database) m : Database :=
  {| ha_members := db.(ha_members); ha_leader := db.(ha_leader); next_token := db.(next_token);
     public_port_ownership := m; job_leases := db.(job_leases); target_health := db.(target_health);
     fleet_generations := db.(fleet_generations); fleet_conflicts := db.(fleet_conflicts) |}.
Definition set_jobs (db : Database) m : Database :=
  {| ha_members := db.(ha_members); ha_leader := db.(ha_leader); next_token := db.(next_token);
     public_port_ownership := db.(public_port_ownership); job_leases := m;
     target_health := db.(target_health);
     fleet_generations := db.(fleet_generations); fleet_conflicts := db.(fleet_conflicts) |}.
Definition set_health (db : Database) m : Database :=
  {| ha_members := db.(ha_members); ha_leader := db.(ha_leader); next_token := db.(next_token);
     public_port_ownership := db.(public_port_ownership); job_leases := db.(job_leases);
     target_health := m;
     fleet_generations := db.(fleet_generations); fleet_conflicts := db.(fleet_conflicts) |}.

Definition set_fleet (db : Database) generations conflicts : Database :=
  {| ha_members := db.(ha_members); ha_leader := db.(ha_leader); next_token := db.(next_token);
     public_port_ownership := db.(public_port_ownership); job_leases := db.(job_leases);
     target_health := db.(target_health);
     fleet_generations := generations; fleet_conflicts := conflicts |}.

(** ** Errors *)

Inductive CoordError :=
  | InstanceIdRequired | InstanceIdTooLong | InstanceIdControl
  | MetadataTooLong | MetadataInvalid | MetadataNotObject
  | LeaseTooShort | LeaseTooLong | LeaderLeaseExceedsMember
  | ClockNegative | IntegerRange | InvalidRow | RowDisappeared | TokenExhausted
  | AnotherIncarnationActive | MemberLeaseRequired
  | FenceNotPositive | FenceStale
  | PortOutOfRange | NewerFencingToken | FencingTokenReused
  | IdentifierRequired | IdentifierTooLong | IdentifierControl
  | JobKindMismatch | JobLeaseStale
  | ThresholdOutOfRange | StaleTimeoutOutOfRange
  | WeightOutOfRange | RevisionOutOfRange | ErrorSummaryEmpty | RevisionConflict
  | SummaryRequired | ProgressTooLarge | ProgressMismatch
  | GenerationTooLarge | ResourceCountTooLarge | ConflictIdNil
  | BoundToAnotherRevision | BoundToAnotherCount | ProgressBackwards | TransitionInvalid
  | OpenConflicts | GenerationMissing | GenerationStale | GenerationDisappeared
  | BoundToAnotherConflict | ResolvedDifferently | ConflictChanged
  | EnvNotInteger | EnvOutOfRange | HeartbeatTooLong | NotLeader.

(** [anyhow::ensure!(cond, error)]. *)
Definition ensure (b : bool) (e : CoordError) : result CoordError unit := if b then Ok tt else Err e.

Lemma ensure_Ok b e u : ensure b e = Ok u → b = true.
Proof. by destruct b. Qed.

(** ** Integer columns and the clock *)

Definition as_i64 (value : Z) : result CoordError Z :=
  if value <=? I64_MAX then Ok value else Err IntegerRange.

(** [positive] and [nonnegative] on a column that is read. *)
Definition positive (value : Z) : result CoordError Z := if 0 <? value then Ok value else Err InvalidRow.
Definition nonnegative (value : Z) : result CoordError Z :=
  if 0 <=? value then Ok value else Err InvalidRow.

(** [sqlite_now]: the clock is an [i64] that must not be negative. *)
Definition sqlite_now (clock : Z) : result CoordError Z :=
  if 0 <=? clock then Ok clock else Err ClockNegative.

(** What holds of every row that the code wrote, so that it can be read back. *)
Definition leader_row_ok (l : LeadershipLease) : Prop :=
  1 ≤ l.(l_fencing_token) ∧ 0 ≤ l.(l_acquired) ∧ 0 ≤ l.(l_renewed) ∧ 0 ≤ l.(l_lease_until).
Definition port_row_ok (p : PublicPortLease) : Prop :=
  1 ≤ p.(p_public_port) ≤ U16_MAX ∧ 1 ≤ p.(p_fencing_token) ∧
  0 ≤ p.(p_acquired) ∧ 0 ≤ p.(p_renewed) ∧ 0 ≤ p.(p_lease_until).
Definition job_row_ok (j : JobLease) : Prop :=
  1 ≤ j.(j_fencing_token) ∧ 0 ≤ j.(j_acquired) ∧ 0 ≤ j.(j_renewed) ∧ 0 ≤ j.(j_lease_until) ∧
  (∀ t, j.(j_last_completed) = Some t → 0 ≤ t).
Definition health_row_ok (h : TargetHealth) : Prop :=
  0 ≤ h.(h_consecutive_successes) ≤ U32_MAX ∧ 0 ≤ h.(h_consecutive_failures) ≤ U32_MAX ∧
  1 ≤ h.(h_weight) ≤ U32_MAX ∧ 0 ≤ h.(h_revision) ∧
  (∀ t, h.(h_last_probe) = Some t → 0 ≤ t) ∧ 0 ≤ h.(h_last_transition).

Definition generation_row_ok (g : FleetGeneration) : Prop :=
  0 ≤ g.(g_generation) ∧ 1 ≤ g.(g_fencing_token) ∧ 0 ≤ g.(g_resource_count) ∧
  0 ≤ g.(g_sync_progress) ≤ 100 ∧ 0 ≤ g.(g_updated).
Definition conflict_row_ok (c : FleetConflict) : Prop :=
  0 ≤ c.(c_generation) ∧ 0 ≤ c.(c_detected) ∧ (∀ t, c.(c_resolved) = Some t → 0 ≤ t).

Lemma sqlite_now_Ok clock now : sqlite_now clock = Ok now → now = clock ∧ 0 ≤ clock.
Proof. unfold sqlite_now. zcase; intros [=]. lia. Qed.
Lemma sqlite_now_nonneg clock : 0 ≤ clock → sqlite_now clock = Ok clock.
Proof. intros H. unfold sqlite_now. zcase; [done|lia]. Qed.
Lemma as_i64_Ok v w : as_i64 v = Ok w → w = v ∧ v ≤ I64_MAX.
Proof. unfold as_i64. zcase; intros [=]. lia. Qed.
Lemma as_i64_small v : v ≤ I64_MAX → as_i64 v = Ok v.
Proof. intros H. unfold as_i64. zcase; [done|lia]. Qed.
Lemma positive_Ok v w : positive v = Ok w ↔ w = v ∧ 1 ≤ v.
Proof. unfold positive. zcase; split; naive_solver lia. Qed.
Lemma positive_pos v : 1 ≤ v → positive v = Ok v.
Proof. intros. by apply positive_Ok. Qed.
Lemma nonnegative_Ok v w : nonnegative v = Ok w ↔ w = v ∧ 0 ≤ v.
Proof. unfold nonnegative. zcase; split; naive_solver lia. Qed.
Lemma nonnegative_nonneg v : 0 ≤ v → nonnegative v = Ok v.
Proof. intros. by apply nonnegative_Ok. Qed.
Lemma ensure_true b e : b = true → ensure b e = Ok tt.
Proof. by intros ->. Qed.

(** Peel a transaction that succeeded: every check of it passed. *)
Ltac tx_inv H :=
  repeat (bind_inv H; repeat match goal with
    | E : ensure _ _ = Ok ?u |- _ => apply ensure_Ok in E; try clear u
    | E : sqlite_now _ = Ok _ |- _ => apply sqlite_now_Ok in E as [-> ?]
    | E : as_i64 _ = Ok ?w |- _ => apply as_i64_Ok in E as [-> ?]
    end).

(** [SELECT key .. ORDER BY key LIMIT n] of expired rows, then DELETE of them. *)
Section prune.
Context {K : Type} `{Countable K} {A : Type} (lease_until : A → Z) (order : A → list Z).

Definition expired_batch (n : nat) (now : Z) (m : gmap K A) : list K :=
  (take n (merge_sort (λ a b : K * A, Is_true (lex_le (order a.2) (order b.2)))
             (filter (λ c : K * A, Is_true (lease_until c.2 <=? now)) (map_to_list m)))).*1.

Definition prune_batch (n : nat) (now : Z) (m : gmap K A) : Z * gmap K A :=
  let keys := expired_batch n now m in (len keys, foldr delete m keys).

Lemma prune_batch_lookup n now m k :
  (prune_batch n now m).2 !! k = if decide (k ∈ expired_batch n now m) then None else m !! k.
Proof using Type.
  cbn. induction (expired_batch n now m) as [|j l IH]; cbn.
  - rewrite decide_False; [done|]. apply not_elem_of_nil.
  - destruct (decide (k = j)) as [->|Hne].
    + rewrite lookup_delete_eq, decide_True by left. done.
    + rewrite lookup_delete_ne, IH by done. repeat case_decide; set_solver.
Qed.

Lemma elem_of_expired_batch n now m k :
  k ∈ expired_batch n now m → ∃ a, m !! k = Some a ∧ lease_until a ≤ now.
Proof using Type.
  unfold expired_batch. rewrite list_elem_of_fmap. intros ([j a] & -> & Hin).
  apply elem_of_take in Hin as (i & Hi & _). apply list_elem_of_lookup_2 in Hi.
  rewrite merge_sort_Permutation in Hi. apply list_elem_of_filter in Hi as [Hp Hm].
  apply elem_of_map_to_list in Hm. exists a. split; [done|]. apply Is_true_true, Z.leb_le in Hp. done.
Qed.

(** Only expired rows go; the others are as they were. *)
Lemma prune_batch_Some n now m k a :
  (prune_batch n now m).2 !! k = Some a → m !! k = Some a.
Proof using Type. rewrite prune_batch_lookup. by case_decide. Qed.

Lemma prune_batch_live n now m k a :
  m !! k = Some a → now < lease_until a → (prune_batch n now m).2 !! k = Some a.
Proof using Type.
  intros Hk Hl. rewrite prune_batch_lookup, decide_False; [done|].
  intros (b & Hb & Hle)%elem_of_expired_batch. simplify_eq. lia.
Qed.
End prune.

(** [EXPIRED_LEASE_BATCH_SIZE]. *)
Definition EXPIRED_LEASE_BATCH_SIZE : nat := 128.
