(* ===== verification/HaCoordination.v ===== *)
(** * Members, leader election and fencing ([ha_coordination.rs])

    Each instance of the server holds a member lease; one member at a time holds
    the leader lease, under a fencing token drawn from a sequence that only grows.
    Writes to the other tables check the token in their own transaction.

    JSON parsing and printing are a parameter ([JsonLib]). *)

From S2P Require Import Prelude RustStr HaTables.

Local Open Scope Z_scope.
Set Default Proof Using "Type".

Definition MAX_INSTANCE_ID_BYTES : Z := 128.
Definition MAX_METADATA_JSON_BYTES : Z := 16 * 1024.
Definition MAX_MEMBER_LEASE_SECONDS : Z := 5 * 60.
Definition MAX_LEADER_LEASE_SECONDS : Z := 2 * 60.

(** What the code uses of [serde_json]. *)
Class JsonLib := {
  json : Type;
  from_str : rstr → option json;
  is_object : json → bool;
  json_to_string : json → rstr;
}.

(** Printing a value and parsing it gives a value of the same kind. *)
Class JsonLaws (J : JsonLib) : Prop :=
  from_str_to_string : ∀ v, ∃ w, from_str (json_to_string v) = Some w ∧ is_object w = is_object v.

Record HaCoordinator := {
  instance_id : rstr;
  incarnation_id : rstr;
  metadata_json : rstr;
  member_lease_seconds : Z;
  leader_lease_seconds : Z;
}.

(** ** Opening *)

Definition validate_instance_id (instance_id : rstr) : result CoordError unit :=
  _ ← ensure (negb (str_len instance_id =? 0)) InstanceIdRequired;
  _ ← ensure (str_len instance_id <=? MAX_INSTANCE_ID_BYTES) InstanceIdTooLong;
  ensure (negb (any is_control instance_id)) InstanceIdControl.

Definition lease_seconds (seconds maximum : Z) : result CoordError Z :=
  _ ← ensure (2 <=? seconds) LeaseTooShort;
  _ ← ensure (seconds <=? maximum) LeaseTooLong;
  Ok seconds.

Section json.
Context {J : JsonLib}.

Definition validate_metadata_json (metadata_json : rstr) : result CoordError unit :=
  _ ← ensure (str_len metadata_json <=? MAX_METADATA_JSON_BYTES) MetadataTooLong;
  value ← ok_or (from_str metadata_json) MetadataInvalid;
  ensure (is_object value) MetadataNotObject.

Definition normalize_metadata_json (metadata_json : rstr) : result CoordError rstr :=
  _ ← validate_metadata_json metadata_json;
  value ← ok_or (from_str metadata_json) MetadataInvalid;
  let normalized := json_to_string value in
  _ ← ensure (str_len normalized <=? MAX_METADATA_JSON_BYTES) MetadataTooLong;
  Ok normalized.

(** [uuid] is the text of a random [Uuid]; leases are whole seconds. *)
Definition coordinator_open (instance metadata uuid : rstr) (member_lease leader_lease : Z)
    : result CoordError HaCoordinator :=
  let instance := trim instance in
  _ ← validate_instance_id instance;
  metadata ← normalize_metadata_json metadata;
  member ← lease_seconds member_lease MAX_MEMBER_LEASE_SECONDS;
  leader ← lease_seconds leader_lease MAX_LEADER_LEASE_SECONDS;
  _ ← ensure (leader <=? member) LeaderLeaseExceedsMember;
  Ok {| instance_id := instance; incarnation_id := uuid; metadata_json := metadata;
        member_lease_seconds := member; leader_lease_seconds := leader |}.

(** ** Rows *)

Definition sqlite_member_row (row : HaMember) : result CoordError HaMember :=
  _ ← map_err (λ _, InvalidRow) (validate_metadata_json row.(m_metadata_json));
  _ ← nonnegative row.(m_started);
  _ ← nonnegative row.(m_last_seen);
  _ ← nonnegative row.(m_lease_until);
  Ok row.

Definition read_sqlite_member (db : Database) (instance : rstr) : result CoordError (option HaMember) :=
  match db.(ha_members) !! instance with
  | None => Ok None
  | Some row => m ← sqlite_member_row row; Ok (Some m)
  end.

Definition sqlite_leader_row (row : LeadershipLease) : result CoordError LeadershipLease :=
  _ ← positive row.(l_fencing_token);
  _ ← nonnegative row.(l_acquired);
  _ ← nonnegative row.(l_renewed);
  _ ← nonnegative row.(l_lease_until);
  Ok row.

Definition read_sqlite_leader (db : Database) : result CoordError (option LeadershipLease) :=
  match db.(ha_leader) with
  | None => Ok None
  | Some row => l ← sqlite_leader_row row; Ok (Some l)
  end.

(** The member row of this very process is leased beyond [now]. *)
Definition member_active (db : Database) (instance incarnation : rstr) (now : Z) : bool :=
  match db.(ha_members) !! instance with
  | Some row => bool_decide (row.(m_incarnation_id) = incarnation) && (now <? row.(m_lease_until))
  | None => false
  end.

Definition sqlite_member_is_active (db : Database) (instance incarnation : rstr) (now : Z)
    : result CoordError bool :=
  _ ← as_i64 now; Ok (member_active db instance incarnation now).

(** ** Members *)

Definition register_or_renew_member (self : HaCoordinator) (clock : Z) (db : Database)
    : result CoordError (HaMember * Database) :=
  now ← sqlite_now clock;
  let lease_until := saturating_add U64_MAX now self.(member_lease_seconds) in
  current ← read_sqlite_member db self.(instance_id);
  started ←
    match current with
    | Some current =>
        if bool_decide (current.(m_incarnation_id) = self.(incarnation_id))
        then Ok current.(m_started)
        else if now <? current.(m_lease_until) then Err AnotherIncarnationActive
        else Ok now
    | None => Ok now
    end;
  _ ← as_i64 now;
  _ ← as_i64 lease_until;
  let row := {| m_instance_id := self.(instance_id); m_incarnation_id := self.(incarnation_id);
                m_started := started; m_last_seen := now; m_lease_until := lease_until;
                m_metadata_json := self.(metadata_json) |} in
  let db := set_members db (<[self.(instance_id) := row]> db.(ha_members)) in
  member ← read_sqlite_member db self.(instance_id);
  member ← ok_or member RowDisappeared;
  Ok (member, db).

(** Rows in the order of their instance identifiers. *)
Definition active_members (clock : Z) (db : Database) : result CoordError (list HaMember) :=
  collect sqlite_member_row
    (merge_sort (λ a b, Is_true (lex_le (as_bytes a.(m_instance_id)) (as_bytes b.(m_instance_id))))
      (filter (λ row, Is_true (clock <? row.(m_lease_until))) (map_to_list db.(ha_members)).*2)).

Definition prune_expired_members (clock : Z) (db : Database) : Z * Database :=
  let '(n, members) :=
    prune_batch m_lease_until (λ row, row.(m_lease_until) :: as_bytes row.(m_instance_id))
      EXPIRED_LEASE_BATCH_SIZE clock db.(ha_members) in
  (n, set_members db members).

(** ** Leadership *)

(** [UPDATE ha_leader SET renewed, lease_until WHERE ..], then the row. *)
Definition renew_sqlite_leader (self : HaCoordinator) (fencing_token now : Z) (db : Database)
    : result CoordError (option LeadershipLease * Database) :=
  let lease_until := saturating_add U64_MAX now self.(leader_lease_seconds) in
  _ ← as_i64 fencing_token;
  _ ← as_i64 now;
  _ ← as_i64 lease_until;
  match db.(ha_leader) with
  | None => Ok (None, db)
  | Some row =>
      if bool_decide (row.(l_instance_id) = self.(instance_id)) &&
         bool_decide (row.(l_incarnation_id) = self.(incarnation_id)) &&
         (row.(l_fencing_token) =? fencing_token) && (now <? row.(l_lease_until)) then
        let row := {| l_instance_id := row.(l_instance_id); l_incarnation_id := row.(l_incarnation_id);
                      l_fencing_token := row.(l_fencing_token); l_acquired := row.(l_acquired);
                      l_renewed := now; l_lease_until := lease_until |} in
        let db := set_leader db (Some row) db.(next_token) in
        leader ← read_sqlite_leader db;
        leader ← ok_or leader RowDisappeared;
        Ok (Some leader, db)
      else Ok (None, db)
  end.

(** [UPDATE ha_fencing_sequence .. RETURNING next_token - 1]. The sequence past
    the largest integer is no longer an integer, and reading it fails. *)
Definition draw_token (db : Database) : result CoordError (Z * Database) :=
  if db.(next_token) <? I64_MAX
  then token ← positive db.(next_token); Ok (token, set_leader db db.(ha_leader) (db.(next_token) + 1))
  else Err TokenExhausted.

Definition acquire_new_leadership (self : HaCoordinator) (now : Z) (db : Database)
    : result CoordError (option LeadershipLease * Database) :=
  '(token, db) ← draw_token db;
  let lease_until := saturating_add U64_MAX now self.(leader_lease_seconds) in
  _ ← as_i64 token;
  _ ← as_i64 now;
  _ ← as_i64 lease_until;
  let lease := {| l_instance_id := self.(instance_id); l_incarnation_id := self.(incarnation_id);
                  l_fencing_token := token; l_acquired := now; l_renewed := now;
                  l_lease_until := lease_until |} in
  Ok (Some lease, set_leader db (Some lease) db.(next_token)).

Definition try_acquire_leadership (self : HaCoordinator) (clock : Z) (db : Database)
    : result CoordError (option LeadershipLease * Database) :=
  now ← sqlite_now clock;
  mine ← sqlite_member_is_active db self.(instance_id) self.(incarnation_id) now;
  _ ← ensure mine MemberLeaseRequired;
  current ← read_sqlite_leader db;
  match current with
  | None => acquire_new_leadership self now db
  | Some current =>
      active ← sqlite_member_is_active db current.(l_instance_id) current.(l_incarnation_id) now;
      if active && bool_decide (current.(l_instance_id) = self.(instance_id)) &&
         bool_decide (current.(l_incarnation_id) = self.(incarnation_id)) &&
         (now <? current.(l_lease_until))
      then renew_sqlite_leader self current.(l_fencing_token) now db
      else if active && (now <? current.(l_lease_until)) then Ok (None, db)
      else acquire_new_leadership self now db
  end.

Definition renew_leadership (self : HaCoordinator) (fencing_token clock : Z) (db : Database)
    : result CoordError (option LeadershipLease * Database) :=
  now ← sqlite_now clock;
  mine ← sqlite_member_is_active db self.(instance_id) self.(incarnation_id) now;
  if (mine : bool) then renew_sqlite_leader self fencing_token now db else Ok (None, db).

(** The leader row and its member row are both leased beyond [clock]. *)
Definition leader_live (db : Database) (row : LeadershipLease) (clock : Z) : bool :=
  (clock <? row.(l_lease_until)) && member_active db row.(l_instance_id) row.(l_incarnation_id) clock.

Definition current_leader (clock : Z) (db : Database) : result CoordError (option LeadershipLease) :=
  match db.(ha_leader) with
  | Some row => if leader_live db row clock then l ← sqlite_leader_row row; Ok (Some l) else Ok None
  | None => Ok None
  end.

(** The [EXISTS] query of the fence. *)
Definition fence_holds (self : HaCoordinator) (fencing_token clock : Z) (db : Database) : bool :=
  match db.(ha_leader) with
  | Some row =>
      bool_decide (row.(l_instance_id) = self.(instance_id)) &&
      bool_decide (row.(l_incarnation_id) = self.(incarnation_id)) &&
      (row.(l_fencing_token) =? fencing_token) && leader_live db row clock
  | None => false
  end.

Definition assert_sqlite_transaction_fence (self : HaCoordinator) (fencing_token clock : Z) (db : Database)
    : result CoordError unit :=
  _ ← ensure (0 <? fencing_token) FenceNotPositive;
  _ ← as_i64 fencing_token;
  ensure (fence_holds self fencing_token clock db) FenceStale.

(** ** Recovery after an exit without release

    [claimed] is the answer of [claim_sqlite_ha_recovery], which grants the
    recovery once per data directory lock. *)

Definition expire_member (row : HaMember) : HaMember :=
  {| m_instance_id := row.(m_instance_id); m_incarnation_id := row.(m_incarnation_id);
     m_started := row.(m_started); m_last_seen := row.(m_last_seen); m_lease_until := 0;
     m_metadata_json := row.(m_metadata_json) |}.
Definition expire_leader (row : LeadershipLease) : LeadershipLease :=
  {| l_instance_id := row.(l_instance_id); l_incarnation_id := row.(l_incarnation_id);
     l_fencing_token := row.(l_fencing_token); l_acquired := row.(l_acquired);
     l_renewed := row.(l_renewed); l_lease_until := 0 |}.
Definition expire_port (row : PublicPortLease) : PublicPortLease :=
  {| p_protocol := row.(p_protocol); p_public_port := row.(p_public_port);
     p_lease_id := row.(p_lease_id); p_owner_instance_id := row.(p_owner_instance_id);
     p_owner_incarnation_id := row.(p_owner_incarnation_id);
     p_fencing_token := row.(p_fencing_token); p_policy_id := row.(p_policy_id);
     p_acquired := row.(p_acquired); p_renewed := row.(p_renewed); p_lease_until := 0 |}.
Definition expire_job (row : JobLease) : JobLease :=
  {| j_job_key := row.(j_job_key); j_job_kind := row.(j_job_kind); j_lease_id := row.(j_lease_id);
     j_owner_instance_id := row.(j_owner_instance_id);
     j_owner_incarnation_id := row.(j_owner_incarnation_id);
     j_fencing_token := row.(j_fencing_token); j_acquired := row.(j_acquired);
     j_renewed := row.(j_renewed); j_lease_until := 0;
     j_last_completed := row.(j_last_completed); j_last_error_code := row.(j_last_error_code) |}.

Definition recover_stale_sqlite_leases (claimed : bool) (db : Database) : bool * Database :=
  if claimed then
    (true, {| ha_members := expire_member <$> db.(ha_members);
              ha_leader := expire_leader <$> db.(ha_leader);
              next_token := db.(next_token);
              public_port_ownership := expire_port <$> db.(public_port_ownership);
              job_leases := expire_job <$> db.(job_leases);
              target_health := db.(target_health);
              fleet_generations := db.(fleet_generations); fleet_conflicts := db.(fleet_conflicts) |})
  else (false, db).

(** ** The invariant of the database *)

Definition member_row_ok (m : HaMember) : Prop :=
  validate_metadata_json m.(m_metadata_json) = Ok tt ∧
  0 ≤ m.(m_started) ∧ 0 ≤ m.(m_last_seen) ∧ 0 ≤ m.(m_lease_until).

(** What [coordinator_open] returns. *)
Definition coordinator_ok (self : HaCoordinator) : Prop :=
  validate_metadata_json self.(metadata_json) = Ok tt ∧
  2 ≤ self.(leader_lease_seconds) ≤ self.(member_lease_seconds) ∧
  self.(member_lease_seconds) ≤ MAX_MEMBER_LEASE_SECONDS ∧
  self.(leader_lease_seconds) ≤ MAX_LEADER_LEASE_SECONDS.

(** A row under [token] belongs to a past leader or to the present one. *)
Definition held_by (db : Database) (token : Z) (instance incarnation : rstr) : Prop :=
  token < db.(next_token) ∧
  ∀ l, db.(ha_leader) = Some l → l.(l_fencing_token) = token →
    l.(l_instance_id) = instance ∧ l.(l_incarnation_id) = incarnation.

Record db_ok (db : Database) : Prop := {
  ok_next : 1 ≤ db.(next_token) ≤ I64_MAX;
  ok_members : ∀ k m, db.(ha_members) !! k = Some m → m.(m_instance_id) = k ∧ member_row_ok m;
  ok_leader : ∀ l, db.(ha_leader) = Some l →
    l.(l_fencing_token) + 1 = db.(next_token) ∧ leader_row_ok l;
  ok_ports : ∀ k p, db.(public_port_ownership) !! k = Some p →
    (p.(p_protocol), p.(p_public_port)) = k ∧ port_row_ok p ∧
    held_by db p.(p_fencing_token) p.(p_owner_instance_id) p.(p_owner_incarnation_id);
  ok_jobs : ∀ k j, db.(job_leases) !! k = Some j →
    j.(j_job_key) = k ∧ job_row_ok j ∧
    held_by db j.(j_fencing_token) j.(j_owner_instance_id) j.(j_owner_incarnation_id);
  ok_health : ∀ k h, db.(target_health) !! k = Some h → h.(h_target_key) = k ∧ health_row_ok h;
  ok_generations : ∀ k g, db.(fleet_generations) !! k = Some g →
    g.(g_source_instance_id) = k ∧ generation_row_ok g ∧
    held_by db g.(g_fencing_token) g.(g_owner_instance_id) g.(g_owner_incarnation_id);
  ok_conflicts : ∀ k c, db.(fleet_conflicts) !! k = Some c → c.(c_conflict_id) = k ∧ conflict_row_ok c;
}.

(** ** What a fenced operation promises

    An operation on the shared tables under [token]: it succeeds only for the live
    leader, does not touch members or leadership, and keeps the invariant. *)
Class FencedOp {A} (self : HaCoordinator) (token : Z)
    (op : Database → result CoordError (A * Database)) : Prop := {
  fenced_check : ∀ db a db', op db = Ok (a, db') → ∃ clock, fence_holds self token clock db = true;
  fenced_frame : ∀ db a db', op db = Ok (a, db') →
    db'.(ha_members) = db.(ha_members) ∧ db'.(ha_leader) = db.(ha_leader) ∧
    db'.(next_token) = db.(next_token);
  fenced_ok : ∀ db a db', db_ok db → op db = Ok (a, db') → db_ok db';
}.

(** ** Lemmas *)

Lemma db_ok_empty : db_ok db_empty.
Proof. by constructor. Qed.

Lemma member_row_read m : member_row_ok m → sqlite_member_row m = Ok m.
Proof.
  intros (Hm & H1 & H2 & H3). unfold sqlite_member_row. rewrite Hm. cbn.
  by rewrite !nonnegative_nonneg by done.
Qed.

Lemma leader_row_read l : leader_row_ok l → sqlite_leader_row l = Ok l.
Proof.
  intros (H0 & H1 & H2 & H3). unfold sqlite_leader_row.
  by rewrite positive_pos, !nonnegative_nonneg by done.
Qed.

Lemma leader_row_Ok l l' : sqlite_leader_row l = Ok l' → l' = l ∧ leader_row_ok l.
Proof.
  unfold sqlite_leader_row. intros H. repeat bind_inv H. injection H as <-.
  rewrite positive_Ok, !nonnegative_Ok in *. unfold leader_row_ok. naive_solver.
Qed.

Lemma fence_holds_leader self token clock db :
  fence_holds self token clock db = true →
  ∃ l, db.(ha_leader) = Some l ∧ l.(l_instance_id) = self.(instance_id) ∧
    l.(l_incarnation_id) = self.(incarnation_id) ∧ l.(l_fencing_token) = token ∧
    leader_live db l clock = true.
Proof.
  unfold fence_holds. destruct (db.(ha_leader)) as [l|]; [|done]. intros H.
  rewrite !andb_true_iff, !bool_decide_eq_true, Z.eqb_eq in H. exists l. naive_solver.
Qed.

Lemma fence_token_current self token clock db :
  db_ok db → fence_holds self token clock db = true → token + 1 = db.(next_token).
Proof.
  intros H (l & Hl & _ & _ & <- & _)%fence_holds_leader. by apply (ok_leader db H).
Qed.

Lemma assert_fence_Ok self token clock db u :
  assert_sqlite_transaction_fence self token clock db = Ok u →
  0 < token ∧ token ≤ I64_MAX ∧ fence_holds self token clock db = true.
Proof.
  unfold assert_sqlite_transaction_fence. intros H. tx_inv H.
  split; [by apply Z.ltb_lt|done].
Qed.

Lemma assert_fence_holds self token clock db :
  0 < token ≤ I64_MAX → fence_holds self token clock db = true →
  assert_sqlite_transaction_fence self token clock db = Ok tt.
Proof.
  intros Ht H. unfold assert_sqlite_transaction_fence. rewrite (ensure_true (0 <? token)) by (apply Z.ltb_lt; lia).
  cbn. rewrite as_i64_small by lia. cbn. by rewrite H.
Qed.

(** A row written by the process that passes the fence is its own. *)
Lemma fence_held_by self token clock db :
  db_ok db → fence_holds self token clock db = true →
  held_by db token self.(instance_id) self.(incarnation_id).
Proof.
  intros H Hf. pose proof (fence_token_current _ _ _ _ H Hf).
  destruct (fence_holds_leader _ _ _ _ Hf) as (l & Hl & ? & ? & ? & _).
  split; [lia|]. intros l' Hl' _. rewrite Hl in Hl'. injection Hl' as <-. done.
Qed.

(** Rows stay held across changes of the leader row. *)
Lemma held_by_same db db' token i c :
  db'.(next_token) = db.(next_token) →
  (∀ l', db'.(ha_leader) = Some l' → ∃ l, db.(ha_leader) = Some l ∧
     l.(l_fencing_token) = l'.(l_fencing_token) ∧ l.(l_instance_id) = l'.(l_instance_id) ∧
     l.(l_incarnation_id) = l'.(l_incarnation_id)) →
  held_by db token i c → held_by db' token i c.
Proof.
  intros Hn Hl [Ht Hh]. split; [lia|]. intros l' Hl' Et.
  destruct (Hl l' Hl') as (l & El & Ef & Ei & Ec). rewrite <- Ei, <- Ec. apply (Hh l El). congruence.
Qed.

Lemma held_by_new db token i c l :
  held_by db token i c → l.(l_fencing_token) = db.(next_token) →
  held_by (set_leader db (Some l) (db.(next_token) + 1)) token i c.
Proof. intros [Ht _] El. split; cbn; [lia|]. intros l' [= <-] E. lia. Qed.

(** Fenced writes change one table at a time. *)
Lemma db_ok_set_ports db m :
  db_ok db →
  (∀ k p, m !! k = Some p → (p.(p_protocol), p.(p_public_port)) = k ∧ port_row_ok p ∧
     held_by db p.(p_fencing_token) p.(p_owner_instance_id) p.(p_owner_incarnation_id)) →
  db_ok (set_ports db m).
Proof. intros [] H. by constructor. Qed.
Lemma db_ok_set_jobs db m :
  db_ok db →
  (∀ k j, m !! k = Some j → j.(j_job_key) = k ∧ job_row_ok j ∧
     held_by db j.(j_fencing_token) j.(j_owner_instance_id) j.(j_owner_incarnation_id)) →
  db_ok (set_jobs db m).
Proof. intros [] H. by constructor. Qed.
Lemma db_ok_set_health db m :
  db_ok db → (∀ k h, m !! k = Some h → h.(h_target_key) = k ∧ health_row_ok h) →
  db_ok (set_health db m).
Proof. intros [] H. by constructor. Qed.
Lemma db_ok_set_fleet db gs cs :
  db_ok db →
  (∀ k g, gs !! k = Some g → g.(g_source_instance_id) = k ∧ generation_row_ok g ∧
     held_by db g.(g_fencing_token) g.(g_owner_instance_id) g.(g_owner_incarnation_id)) →
  (∀ k c, cs !! k = Some c → c.(c_conflict_id) = k ∧ conflict_row_ok c) →
  db_ok (set_fleet db gs cs).
Proof. intros [] H H'. by constructor. Qed.
Lemma db_ok_set_members db m :
  db_ok db → (∀ k r, m !! k = Some r → r.(m_instance_id) = k ∧ member_row_ok r) →
  db_ok (set_members db m).
Proof. intros [] H. by constructor. Qed.

(** A leader row with the same token and owner. *)
Lemma db_ok_touch_leader db l l' :
  db_ok db → db.(ha_leader) = Some l → l'.(l_fencing_token) = l.(l_fencing_token) →
  l'.(l_instance_id) = l.(l_instance_id) → l'.(l_incarnation_id) = l.(l_incarnation_id) →
  leader_row_ok l' → db_ok (set_leader db (Some l') db.(next_token)).
Proof.
  intros [Hn Hm Hl Hp Hj Hh Hg Hf] El Et Ei Ec Hok.
  assert (Hheld : ∀ t i c, held_by db t i c → held_by (set_leader db (Some l') db.(next_token)) t i c).
  { intros t i c. apply held_by_same; [done|]. cbn. intros x [= <-]. exists l. done. }
  constructor; cbn; [done|done| | | |done| |done].
  - intros x [= <-]. split; [|done]. rewrite Et. by apply Hl.
  - intros k p Hk. destruct (Hp k p Hk) as (? & ? & ?). auto.
  - intros k j Hk. destruct (Hj k j Hk) as (? & ? & ?). auto.
  - intros k g Hk. destruct (Hg k g Hk) as (? & ? & ?). auto.
Qed.

Lemma db_ok_new_leader db l :
  db_ok db → l.(l_fencing_token) = db.(next_token) → db.(next_token) < I64_MAX → leader_row_ok l →
  db_ok (set_leader db (Some l) (db.(next_token) + 1)).
Proof.
  intros [Hn Hm Hl Hp Hj Hh Hg Hf] Et Hb Hok. constructor; cbn; [lia|done| | | |done| |done].
  - intros x [= <-]. split; [lia|done].
  - intros k p Hk. destruct (Hp k p Hk) as (? & ? & ?). auto using held_by_new.
  - intros k j Hk. destruct (Hj k j Hk) as (? & ? & ?). auto using held_by_new.
  - intros k g Hk. destruct (Hg k g Hk) as (? & ? & ?). auto using held_by_new.
Qed.

(** *** Operations *)

Lemma register_member_ok self clock db m db' :
  db_ok db → coordinator_ok self → register_or_renew_member self clock db = Ok (m, db') →
  db_ok db' ∧ db'.(ha_leader) = db.(ha_leader) ∧ db'.(next_token) = db.(next_token).
Proof.
  intros H (Hm & Hs & _) E. unfold register_or_renew_member in E. tx_inv E.
  injection E as _ <-. split; [|done]. apply db_ok_set_members; [done|].
  intros k row. destruct (decide (k = self.(instance_id))) as [->|Hne].
  - rewrite lookup_insert_eq. intros [= <-]. split; [done|]. split; [done|]. cbn.
    unfold saturating_add. split; [|lia].
    unfold read_sqlite_member in E0. destruct (db.(ha_members) !! instance_id self) as [row|] eqn:Er.
    + destruct (ok_members db H _ _ Er) as [_ Hr]. rewrite member_row_read in E0 by done.
      injection E0 as <-. destruct Hr as (_ & ? & _). repeat case_match; simplify_eq; lia.
    + injection E0 as <-. simplify_eq. lia.
  - rewrite lookup_insert_ne by done. apply (ok_members db H).
Qed.

Lemma read_leader_Some db l t r :
  read_sqlite_leader (set_leader db (Some l) t) = Ok r → r = Some l ∧ leader_row_ok l.
Proof.
  unfold read_sqlite_leader. cbn. intros E. bind_inv E. injection E as <-.
  by match goal with E : sqlite_leader_row _ = Ok _ |- _ => apply leader_row_Ok in E as [-> ?] end.
Qed.

Lemma renew_leader_ok self token now db r db' :
  db_ok db → coordinator_ok self → 0 ≤ now →
  renew_sqlite_leader self token now db = Ok (r, db') →
  db_ok db' ∧ db'.(next_token) = db.(next_token) ∧
  match r with
  | None => db' = db
  | Some l => db'.(ha_leader) = Some l ∧ l.(l_fencing_token) = token ∧
      ∃ old, db.(ha_leader) = Some old ∧ old.(l_fencing_token) = token ∧ now < old.(l_lease_until) ∧
        old.(l_instance_id) = self.(instance_id) ∧ old.(l_incarnation_id) = self.(incarnation_id) ∧
        l.(l_instance_id) = self.(instance_id) ∧ l.(l_incarnation_id) = self.(incarnation_id) ∧
        l.(l_lease_until) = now + self.(leader_lease_seconds) ∧ db'.(ha_members) = db.(ha_members)
  end.
Proof.
  intros H (_ & Hs & _) Hnow E. unfold renew_sqlite_leader in E. tx_inv E.
  destruct (db.(ha_leader)) as [old|] eqn:El; [|by injection E as <- <-].
  destruct (_ && _) eqn:Ec in E; [|by injection E as <- <-].
  rewrite !andb_true_iff, !bool_decide_eq_true, Z.eqb_eq, Z.ltb_lt in Ec.
  destruct Ec as [[[Ei Ec] <-] Hlt]. tx_inv E. injection E as <- <-.
  match goal with E : read_sqlite_leader _ = Ok _ |- _ => apply read_leader_Some in E as [-> Hok] end.
  match goal with E : ok_or _ _ = Ok _ |- _ => injection E as <- end. split; [by eapply db_ok_touch_leader|]. split; [done|].
  cbn. split; [done|]. split; [done|]. exists old. split_and!; try done.
  unfold saturating_add, I64_MAX in *. lia.
Qed.

Lemma acquire_new_ok self now db r db' :
  db_ok db → coordinator_ok self → 0 ≤ now →
  acquire_new_leadership self now db = Ok (r, db') →
  db_ok db' ∧ ∃ l, r = Some l ∧ db'.(ha_leader) = Some l ∧ l.(l_fencing_token) = db.(next_token) ∧
    db'.(next_token) = db.(next_token) + 1 ∧ db'.(ha_members) = db.(ha_members) ∧
    l.(l_instance_id) = self.(instance_id) ∧ l.(l_incarnation_id) = self.(incarnation_id) ∧
    l.(l_lease_until) = now + self.(leader_lease_seconds).
Proof.
  intros H (_ & Hs & _) Hnow E. unfold acquire_new_leadership, draw_token in E.
  destruct (Z.ltb_spec db.(next_token) I64_MAX) as [Hb|]; [|done].
  pose proof (ok_next db H). rewrite positive_pos in E by lia. cbn [mbind result_bind] in E. tx_inv E.
  injection E as <- <-. split.
  - apply (db_ok_new_leader db); [done|done|done|]. unfold leader_row_ok, saturating_add. cbn. lia.
  - eexists. split; [done|]. cbn. split_and!; try done. unfold saturating_add in *. unfold I64_MAX in *. lia.
Qed.

(** [self] is the leader of [db'] under [token], newly or as it was in [db]. *)
Definition led (self : HaCoordinator) (token : Z) (db db' : Database) : Prop :=
  (∃ l, db'.(ha_leader) = Some l ∧ l.(l_fencing_token) = token ∧
     l.(l_instance_id) = self.(instance_id) ∧ l.(l_incarnation_id) = self.(incarnation_id)) ∧
  (db'.(next_token) = db.(next_token) + 1 ∨
   db'.(next_token) = db.(next_token) ∧
   ∃ old, db.(ha_leader) = Some old ∧ old.(l_fencing_token) = token ∧
     old.(l_instance_id) = self.(instance_id) ∧ old.(l_incarnation_id) = self.(incarnation_id)).

Lemma renew_led self token now db l db' :
  db_ok db → coordinator_ok self → 0 ≤ now →
  renew_sqlite_leader self token now db = Ok (Some l, db') →
  l.(l_fencing_token) = token ∧ led self token db db'.
Proof.
  intros H Hs Hnow E. destruct (renew_leader_ok _ _ _ _ _ _ H Hs Hnow E) as (_ & Hn & El & Et & old & Hr).
  split; [done|]. split.
  - exists l. naive_solver.
  - right. split; [done|]. exists old. naive_solver.
Qed.

Lemma acquire_led self now db l db' :
  db_ok db → coordinator_ok self → 0 ≤ now →
  acquire_new_leadership self now db = Ok (Some l, db') → led self l.(l_fencing_token) db db'.
Proof.
  intros H Hs Hnow E. destruct (acquire_new_ok _ _ _ _ _ H Hs Hnow E) as (_ & l' & El & Hr).
  injection El as <-. split; [exists l; naive_solver|left; naive_solver].
Qed.

Lemma try_acquire_ok self clock db r db' :
  db_ok db → coordinator_ok self → try_acquire_leadership self clock db = Ok (r, db') →
  db_ok db' ∧ match r with None => db' = db | Some l => led self l.(l_fencing_token) db db' end.
Proof.
  intros H Hs E. unfold try_acquire_leadership in E. tx_inv E.
  assert (Hacq : acquire_new_leadership self clock db = Ok (r, db') →
            db_ok db' ∧ match r with None => db' = db | Some l => led self l.(l_fencing_token) db db' end).
  { intros Ea. destruct (acquire_new_ok _ _ _ _ _ H Hs ltac:(done) Ea) as [? (l & -> & _)].
    split; [done|]. by eapply acquire_led. }
  match type of E with match ?c with _ => _ end = _ => destruct c as [current|]; [|by apply Hacq] end.
  tx_inv E. destruct (_ && _ && _) eqn:Ec in E.
  - destruct (renew_leader_ok _ _ _ _ _ _ H Hs ltac:(done) E) as (? & _ & Hr). split; [done|].
    destruct r as [l|]; [|done]. destruct (renew_led _ _ _ _ _ _ H Hs ltac:(done) E) as [Et Hled].
    by rewrite Et.
  - destruct (_ && _) eqn:Ed in E; [by injection E as <- <-|by apply Hacq].
Qed.

Lemma renew_leadership_ok self token clock db r db' :
  db_ok db → coordinator_ok self → renew_leadership self token clock db = Ok (r, db') →
  db_ok db' ∧ match r with None => db' = db | Some l => led self l.(l_fencing_token) db db' end.
Proof.
  intros H Hs E. unfold renew_leadership in E. tx_inv E.
  match type of E with (if ?b then _ else _) = _ => destruct b; [|by injection E as <- <-] end.
  destruct (renew_leader_ok _ _ _ _ _ _ H Hs ltac:(done) E) as (? & _ & Hr). split; [done|].
  destruct r as [l|]; [|done]. destruct (renew_led _ _ _ _ _ _ H Hs ltac:(done) E) as [Et Hled].
  by rewrite Et.
Qed.

Lemma prune_members_ok clock db :
  db_ok db → db_ok (prune_expired_members clock db).2.
Proof.
  intros H. apply db_ok_set_members; [done|]. intros k m Hk.
  apply (prune_batch_Some m_lease_until) in Hk. by apply (ok_members db H).
Qed.

Lemma recover_ok claimed db : db_ok db → db_ok (recover_stale_sqlite_leases claimed db).2.
Proof.
  intros [Hn Hm Hl Hp Hj Hh Hg Hf]. destruct claimed; [|done].
  assert (Hheld : ∀ t i c, held_by db t i c → held_by (recover_stale_sqlite_leases true db).2 t i c).
  { intros t i c. apply held_by_same; [done|]. cbn. intros l' (l & El & ->)%fmap_Some. by exists l. }
  constructor; cbn [recover_stale_sqlite_leases snd ha_members ha_leader next_token
                    public_port_ownership job_leases target_health fleet_generations fleet_conflicts];
    [done| | | | |done| |done].
  - intros k m. rewrite lookup_fmap. intros (m' & Hk & ->)%fmap_Some.
    destruct (Hm k m' Hk) as [? (? & ? & ? & ?)]. done.
  - intros l (l' & El & ->)%fmap_Some. destruct (Hl l' El) as [? (? & ? & ? & ?)]. done.
  - intros k p. rewrite lookup_fmap. intros (p' & Hk & ->)%fmap_Some.
    destruct (Hp k p' Hk) as (? & (? & ? & ? & ? & ?) & ?). split_and!; auto. done.
  - intros k j. rewrite lookup_fmap. intros (j' & Hk & ->)%fmap_Some.
    destruct (Hj k j' Hk) as (? & (? & ? & ? & ? & ?) & ?). split_and!; auto. done.
  - intros k g Hk. destruct (Hg k g Hk) as (? & ? & ?). auto.
Qed.

(** *** Opening *)

Lemma coordinator_open_ok `{!JsonLaws J} instance metadata uuid member leader self :
  coordinator_open instance metadata uuid member leader = Ok self → coordinator_ok self.
Proof.
  unfold coordinator_open. intros E. tx_inv E. injection E as <-. unfold coordinator_ok. cbn.
  repeat match goal with E : lease_seconds _ _ = Ok _ |- _ => unfold lease_seconds in E; tx_inv E; simplify_eq end.
  match goal with E : normalize_metadata_json _ = Ok _ |- _ => unfold normalize_metadata_json in E; tx_inv E; simplify_eq end.
  bool_prop. split; [|lia]. unfold validate_metadata_json.
  match goal with E : validate_metadata_json _ = Ok _ |- _ => unfold validate_metadata_json in E; tx_inv E end.
  rewrite (ensure_true (_ <=? _)) by by apply Z.leb_le. cbn.
  simplify_eq. match goal with E : is_object ?v = true |- _ =>
    destruct (from_str_to_string v) as (x & -> & Hx); cbn; by rewrite Hx, E end.
Qed.

(** *** Failover *)

(** C34. Failover: when the leader's lease or its member lease has run out, a member
    with a live lease obtains the leadership under a fresh token, and passes the fence
    with it until one of its two leases runs out. *)
Theorem failover_succeeds (self : HaCoordinator) (clock : Z) (db : Database) (m : HaMember) :
  db_ok db → coordinator_ok self → 0 ≤ clock →
  db.(ha_members) !! self.(instance_id) = Some m → m.(m_incarnation_id) = self.(incarnation_id) →
  clock < m.(m_lease_until) → (∀ l, db.(ha_leader) = Some l → leader_live db l clock = false) →
  db.(next_token) < I64_MAX → clock + self.(leader_lease_seconds) ≤ I64_MAX →
  ∃ l db', try_acquire_leadership self clock db = Ok (Some l, db') ∧
    l.(l_fencing_token) = db.(next_token) ∧
    ∀ c, c < m.(m_lease_until) → c < clock + self.(leader_lease_seconds) →
      fence_holds self l.(l_fencing_token) c db' = true.
Proof.
  intros H Hs Hc Hm Hinc Hlive Hdead Hn Hi64.
  assert (Hmine : sqlite_member_is_active db self.(instance_id) self.(incarnation_id) clock = Ok true).
  { unfold sqlite_member_is_active, member_active. destruct Hs as (_ & ? & _).
    rewrite as_i64_small, Hm by lia. cbn. by rewrite bool_decide_eq_true_2, (proj2 (Z.ltb_lt _ _) Hlive). }
  assert (Hacq : try_acquire_leadership self clock db = acquire_new_leadership self clock db).
  { unfold try_acquire_leadership. rewrite sqlite_now_nonneg by done. cbn [mbind result_bind].
    rewrite Hmine. cbn [mbind result_bind ensure]. unfold read_sqlite_leader.
    destruct (db.(ha_leader)) as [l|] eqn:El; [|done].
    rewrite leader_row_read by (by destruct (ok_leader db H l El)). cbn [mbind result_bind].
    unfold sqlite_member_is_active. destruct Hs as (_ & ? & _). rewrite as_i64_small by lia. cbn [mbind result_bind].
    specialize (Hdead l eq_refl). unfold leader_live in Hdead. apply andb_false_iff in Hdead as [->| ->].
    - by rewrite !andb_false_r.
    - done. }
  rewrite Hacq. destruct (acquire_new_leadership self clock db) as [[r db']|e] eqn:E.
  - destruct (acquire_new_ok _ _ _ _ _ H Hs Hc E) as (_ & l & -> & El' & Et & _ & Em & Ei & Ec & Eu).
    exists l, db'. split; [done|]. split; [done|]. intros c Hc1 Hc2. unfold fence_holds. rewrite El'.
    rewrite Ei, Ec, !bool_decide_eq_true_2, Z.eqb_refl by done. cbn. unfold leader_live, member_active.
    rewrite Ei, Ec, Em, Hm, bool_decide_eq_true_2, Eu by done. cbn. apply andb_true_iff. split; by apply Z.ltb_lt.
  - exfalso. unfold acquire_new_leadership, draw_token in E. pose proof (ok_next db H).
    destruct Hs as (_ & ? & _).
    rewrite (proj2 (Z.ltb_lt _ _) Hn), positive_pos in E by lia. cbn [mbind result_bind] in E.
    rewrite saturating_add_small in E by (unfold I64_MAX in *; lia). rewrite !as_i64_small in E by lia. done.
Qed.

End json.

(** A transaction that passed the fence check. *)
Ltac fence_inv :=
  match goal with
  | E : assert_sqlite_transaction_fence _ _ _ _ = Ok _ |- _ =>
      apply assert_fence_Ok in E as (? & ? & ?)
  end.

(** ** An example cluster

    A JSON library that takes every text for a value and those that start with a
    brace for objects; two processes and the database after the first one has become
    the leader. *)

Definition ex_json : JsonLib :=
  {| json := rstr; from_str := Some; is_object := starts_with 123; json_to_string := λ s, s |}.

Lemma ex_json_laws : JsonLaws ex_json.
Proof. intros v. by exists v. Qed.

Definition ex_process (name uuid : rstr) : HaCoordinator :=
  {| instance_id := name; incarnation_id := uuid; metadata_json := lit "{}";
     member_lease_seconds := 60; leader_lease_seconds := 30 |}.

Lemma ex_process_ok name uuid : @coordinator_ok ex_json (ex_process name uuid).
Proof. split; [reflexivity|]. unfold MAX_MEMBER_LEASE_SECONDS, MAX_LEADER_LEASE_SECONDS. cbn. lia. Qed.

Definition ex_a : HaCoordinator := ex_process (lit "a") (lit "uuid-a").
Definition ex_b : HaCoordinator := ex_process (lit "b") (lit "uuid-b").

Definition run_or {A} (r : result CoordError (A * Database)) (db : Database) : Database :=
  match r with Ok (_, db) => db | Err _ => db end.

Definition ex_members : Database :=
  let db := run_or (@register_or_renew_member ex_json ex_a 100 db_empty) db_empty in
  run_or (@register_or_renew_member ex_json ex_b 110 db) db.

Definition ex_led : Database := run_or (try_acquire_leadership ex_a 120 ex_members) ex_members.

Lemma run_or_ok {J : JsonLib} {A} (r : result CoordError (A * Database)) db :
  db_ok db → (∀ a db', r = Ok (a, db') → db_ok db') → db_ok (run_or r db).
Proof. intros H Hr. destruct r as [[a db']|]; [by eapply Hr|done]. Qed.

Lemma ex_members_ok : @db_ok ex_json ex_members.
Proof.
  apply run_or_ok; [apply run_or_ok; [apply db_ok_empty|]|]; intros m db' E;
    eapply (@register_member_ok ex_json) in E as [H _]; eauto using ex_process_ok, @db_ok_empty.
  apply run_or_ok; [apply db_ok_empty|]. intros m' db'' E'.
  eapply (@register_member_ok ex_json) in E' as [H _]; eauto using ex_process_ok, @db_ok_empty.
Qed.

Lemma ex_led_ok : @db_ok ex_json ex_led.
Proof.
  apply run_or_ok; [apply ex_members_ok|]. intros r db' E.
  by destruct (@try_acquire_ok ex_json _ _ _ _ _ ex_members_ok (ex_process_ok _ _) E).
Qed.

(** The leader's lease ended at 150; its member lease at 160. *)
Lemma failover_succeeds_witness :
  ∃ l db', try_acquire_leadership ex_b 155 ex_led = Ok (Some l, db') ∧ l.(l_fencing_token) = 2.
Proof.
  destruct (ex_led.(ha_members) !! lit "b") as [m|] eqn:Em; [|vm_compute in Em; discriminate Em].
  pose proof Em as Em'. vm_compute in Em'. injection Em' as Em'.
  destruct (@failover_succeeds ex_json ex_b 155 ex_led m ex_led_ok (ex_process_ok _ _)) as (l & db' & E & Et & _).
  - lia.
  - exact Em.
  - rewrite <- Em'. reflexivity.
  - rewrite <- Em'. cbn. lia.
  - intros l El. vm_compute in El. injection El as <-. vm_compute. reflexivity.
  - vm_compute. reflexivity.
  - unfold I64_MAX. cbn. lia.
  - exists l, db'. split; [exact E|]. rewrite Et. vm_compute. reflexivity.
Defined.
