(* ===== verification/PortOwnership.v ===== *)
(** * Ownership of public ports ([public_port_ownership.rs])

    A public TCP or UDP port is served by one process at a time: the leader, under
    a lease in the table [public_port_ownership]. *)

From S2P Require Import Prelude RustStr HaTables HaCoordination.

Local Open Scope Z_scope.
Set Default Proof Using "Type".

Definition protocol_as_str (self : PublicPortProtocol) : rstr :=
  match self with PortTcp => lit "tcp" | PortUdp => lit "udp" end.

Definition protocol_from_str (value : rstr) : option PublicPortProtocol :=
  if bool_decide (value = lit "tcp") then Some PortTcp
  else if bool_decide (value = lit "udp") then Some PortUdp
  else None.

Record PublicPortOwnership := { po_coordinator : HaCoordinator; po_lease_seconds : Z }.

Definition ownership_open (coordinator : HaCoordinator) (lease : Z) : result CoordError PublicPortOwnership :=
  seconds ← lease_seconds lease (5 * 60);
  Ok {| po_coordinator := coordinator; po_lease_seconds := seconds |}.

Definition validate_port_and_fence (public_port fencing_token : Z) : result CoordError unit :=
  _ ← ensure (0 <? public_port) PortOutOfRange;
  ensure (0 <? fencing_token) FenceNotPositive.

Inductive ClaimMode := Conflict | Fresh.

Definition port_claim_mode (current : option PublicPortLease) (instance incarnation : rstr)
    (fencing_token now : Z) : result CoordError ClaimMode :=
  match current with
  | None => Ok Fresh
  | Some current =>
      if fencing_token <? current.(p_fencing_token) then Err NewerFencingToken
      else if current.(p_fencing_token) <? fencing_token then Ok Fresh
      else
        _ ← ensure (bool_decide (current.(p_owner_instance_id) = instance) &&
                    bool_decide (current.(p_owner_incarnation_id) = incarnation)) FencingTokenReused;
        if current.(p_lease_until) <=? now then Ok Fresh else Ok Conflict
  end.

Definition sqlite_lease_row (row : PublicPortLease) : result CoordError PublicPortLease :=
  _ ← ensure ((0 <? row.(p_public_port)) && (row.(p_public_port) <=? U16_MAX)) InvalidRow;
  _ ← positive row.(p_fencing_token);
  _ ← nonnegative row.(p_acquired);
  _ ← nonnegative row.(p_renewed);
  _ ← nonnegative row.(p_lease_until);
  Ok row.

Definition read_sqlite_lease (db : Database) (protocol : PublicPortProtocol) (public_port : Z)
    : result CoordError (option PublicPortLease) :=
  match db.(public_port_ownership) !! (protocol, public_port) with
  | None => Ok None
  | Some row => l ← sqlite_lease_row row; Ok (Some l)
  end.

(** [lease_id] is a random [Uuid]. *)
Definition port_acquire (self : PublicPortOwnership) (protocol : PublicPortProtocol)
    (public_port policy_id lease_id now_clock fence_clock fencing_token : Z) (db : Database)
    : result CoordError (option PublicPortLease * Database) :=
  _ ← validate_port_and_fence public_port fencing_token;
  now ← sqlite_now now_clock;
  _ ← assert_sqlite_transaction_fence self.(po_coordinator) fencing_token fence_clock db;
  current ← read_sqlite_lease db protocol public_port;
  mode ← port_claim_mode current self.(po_coordinator).(instance_id)
           self.(po_coordinator).(incarnation_id) fencing_token now;
  match mode with
  | Conflict => Ok (None, db)
  | Fresh =>
      let lease_until := saturating_add U64_MAX now self.(po_lease_seconds) in
      _ ← as_i64 fencing_token;
      _ ← as_i64 now;
      _ ← as_i64 lease_until;
      let row := {| p_protocol := protocol; p_public_port := public_port; p_lease_id := lease_id;
                    p_owner_instance_id := self.(po_coordinator).(instance_id);
                    p_owner_incarnation_id := self.(po_coordinator).(incarnation_id);
                    p_fencing_token := fencing_token; p_policy_id := policy_id;
                    p_acquired := now; p_renewed := now; p_lease_until := lease_until |} in
      let db := set_ports db (<[(protocol, public_port) := row]> db.(public_port_ownership)) in
      lease ← read_sqlite_lease db protocol public_port;
      lease ← ok_or lease RowDisappeared;
      Ok (Some lease, db)
  end.

(** The columns a renewal or release must match. *)
Definition port_row_is (row : PublicPortLease) (self : PublicPortOwnership)
    (policy_id lease_id fencing_token : Z) : bool :=
  (row.(p_lease_id) =? lease_id) &&
  bool_decide (row.(p_owner_instance_id) = self.(po_coordinator).(instance_id)) &&
  bool_decide (row.(p_owner_incarnation_id) = self.(po_coordinator).(incarnation_id)) &&
  (row.(p_fencing_token) =? fencing_token) && (row.(p_policy_id) =? policy_id).

Definition port_renew (self : PublicPortOwnership) (protocol : PublicPortProtocol)
    (public_port policy_id lease_id fence_clock now_clock fencing_token : Z) (db : Database)
    : result CoordError (option PublicPortLease * Database) :=
  _ ← validate_port_and_fence public_port fencing_token;
  _ ← assert_sqlite_transaction_fence self.(po_coordinator) fencing_token fence_clock db;
  now ← sqlite_now now_clock;
  let lease_until := saturating_add U64_MAX now self.(po_lease_seconds) in
  _ ← as_i64 fencing_token;
  _ ← as_i64 now;
  _ ← as_i64 lease_until;
  match db.(public_port_ownership) !! (protocol, public_port) with
  | None => Ok (None, db)
  | Some row =>
      if port_row_is row self policy_id lease_id fencing_token && (now <? row.(p_lease_until)) then
        let row := {| p_protocol := row.(p_protocol); p_public_port := row.(p_public_port);
                      p_lease_id := row.(p_lease_id);
                      p_owner_instance_id := row.(p_owner_instance_id);
                      p_owner_incarnation_id := row.(p_owner_incarnation_id);
                      p_fencing_token := row.(p_fencing_token); p_policy_id := row.(p_policy_id);
                      p_acquired := row.(p_acquired); p_renewed := now;
                      p_lease_until := lease_until |} in
        let db := set_ports db (<[(protocol, public_port) := row]> db.(public_port_ownership)) in
        lease ← read_sqlite_lease db protocol public_port;
        lease ← ok_or lease RowDisappeared;
        Ok (Some lease, db)
      else Ok (None, db)
  end.

Definition port_release (self : PublicPortOwnership) (protocol : PublicPortProtocol)
    (public_port policy_id lease_id fence_clock fencing_token : Z) (db : Database)
    : result CoordError (bool * Database) :=
  _ ← validate_port_and_fence public_port fencing_token;
  _ ← assert_sqlite_transaction_fence self.(po_coordinator) fencing_token fence_clock db;
  _ ← as_i64 fencing_token;
  match db.(public_port_ownership) !! (protocol, public_port) with
  | None => Ok (false, db)
  | Some row =>
      if port_row_is row self policy_id lease_id fencing_token
      then Ok (true, set_ports db (delete (protocol, public_port) db.(public_port_ownership)))
      else Ok (false, db)
  end.

(** The leases of the live leader: the joins of [active]. *)
Definition port_is_active (db : Database) (clock : Z) (row : PublicPortLease) : bool :=
  match db.(ha_leader) with
  | Some leader =>
      bool_decide (leader.(l_instance_id) = row.(p_owner_instance_id)) &&
      bool_decide (leader.(l_incarnation_id) = row.(p_owner_incarnation_id)) &&
      (leader.(l_fencing_token) =? row.(p_fencing_token)) &&
      (clock <? row.(p_lease_until)) && (clock <? leader.(l_lease_until)) &&
      member_active db row.(p_owner_instance_id) row.(p_owner_incarnation_id) clock
  | None => false
  end.

Definition port_order (row : PublicPortLease) : list Z :=
  as_bytes (protocol_as_str row.(p_protocol)) ++ [row.(p_public_port)].

Definition ports_active (clock : Z) (db : Database) : result CoordError (list PublicPortLease) :=
  collect sqlite_lease_row
    (merge_sort (λ a b, Is_true (lex_le (port_order a) (port_order b)))
      (filter (λ row, Is_true (port_is_active db clock row))
        (map_to_list db.(public_port_ownership)).*2)).

Definition ports_prune_expired (clock : Z) (db : Database) : Z * Database :=
  let '(n, ports) :=
    prune_batch p_lease_until (λ row, row.(p_lease_until) :: port_order row)
      EXPIRED_LEASE_BATCH_SIZE clock db.(public_port_ownership) in
  (n, set_ports db ports).

(** ** Ports as fenced operations *)

Section fenced.
Context {J : JsonLib}.

Lemma lease_row_Ok row row' : sqlite_lease_row row = Ok row' → row' = row ∧ port_row_ok row.
Proof.
  unfold sqlite_lease_row. intros H. tx_inv H. injection H as <-. bool_prop.
  rewrite positive_Ok, !nonnegative_Ok in *. unfold port_row_ok. naive_solver lia.
Qed.

Lemma lease_row_read row : port_row_ok row → sqlite_lease_row row = Ok row.
Proof.
  intros (Hp & Ht & H1 & H2 & H3). unfold sqlite_lease_row.
  rewrite ensure_true by (apply andb_true_iff; split; [apply Z.ltb_lt|apply Z.leb_le]; lia). cbn.
  by rewrite positive_pos, !nonnegative_nonneg by done.
Qed.

Lemma read_lease_db_ok db protocol port :
  db_ok db → read_sqlite_lease db protocol port = Ok (db.(public_port_ownership) !! (protocol, port)).
Proof.
  intros H. unfold read_sqlite_lease. destruct (_ !! _) as [row|] eqn:E; [|done].
  destruct (ok_ports db H _ _ E) as (_ & Hr & _). by rewrite lease_row_read.
Qed.

(** Reading back a row that was just written. *)
Lemma read_lease_written db protocol port row r :
  read_sqlite_lease (set_ports db (<[(protocol, port) := row]> db.(public_port_ownership))) protocol port
    = Ok r → r = Some row ∧ port_row_ok row.
Proof.
  unfold read_sqlite_lease. cbn. rewrite lookup_insert_eq. intros E. bind_inv E. injection E as <-.
  by match goal with E : sqlite_lease_row _ = Ok _ |- _ => apply lease_row_Ok in E as [-> ?] end.
Qed.

(** A row of the fence's owner keeps the invariant. *)
Lemma port_write_ok self token clock db k row :
  db_ok db → fence_holds self token clock db = true → port_row_ok row →
  (row.(p_protocol), row.(p_public_port)) = k → row.(p_fencing_token) = token →
  row.(p_owner_instance_id) = self.(instance_id) → row.(p_owner_incarnation_id) = self.(incarnation_id) →
  db_ok (set_ports db (<[k := row]> db.(public_port_ownership))).
Proof.
  intros H Hf Hr Hk Ht Hi Hc. apply db_ok_set_ports; [done|]. intros k' p.
  destruct (decide (k' = k)) as [->|Hne].
  - rewrite lookup_insert_eq. intros [= <-]. rewrite Ht, Hi, Hc. eauto using fence_held_by.
  - rewrite lookup_insert_ne by done. apply (ok_ports db H).
Qed.

Lemma port_row_is_true row self policy id token :
  port_row_is row self policy id token = true →
  row.(p_lease_id) = id ∧ row.(p_policy_id) = policy ∧ row.(p_fencing_token) = token ∧
  row.(p_owner_instance_id) = self.(po_coordinator).(instance_id) ∧
  row.(p_owner_incarnation_id) = self.(po_coordinator).(incarnation_id).
Proof. unfold port_row_is. rewrite !andb_true_iff, !bool_decide_eq_true, !Z.eqb_eq. naive_solver. Qed.

(** The three outcomes of a port operation: the table as it was, one row written
    for the owner of the fence, or one row deleted. *)
Definition port_effect (self : HaCoordinator) (token : Z) (db db' : Database) : Prop :=
  db' = db ∨
  (∃ k row, db' = set_ports db (<[k := row]> db.(public_port_ownership)) ∧ port_row_ok row ∧
     (db_ok db → (row.(p_protocol), row.(p_public_port)) = k) ∧ row.(p_fencing_token) = token ∧
     row.(p_owner_instance_id) = self.(instance_id) ∧ row.(p_owner_incarnation_id) = self.(incarnation_id)) ∨
  (∃ k, db' = set_ports db (delete k db.(public_port_ownership))).

Lemma port_effect_fenced {A} self token (op : Database → result CoordError (A * Database)) :
  (∀ db a db', op db = Ok (a, db') →
     (∃ clock, fence_holds self token clock db = true) ∧ port_effect self token db db') →
  FencedOp self token op.
Proof.
  intros Hop. split; intros db a db'.
  - intros E. by destruct (Hop _ _ _ E).
  - intros E. destruct (Hop _ _ _ E) as [_ [->|[(k & row & -> & _)|(k & ->)]]]; done.
  - intros H E. destruct (Hop _ _ _ E) as [[clock Hf] [->|[(k & row & -> & ? & ? & ? & ? & ?)|(k & ->)]]].
    + done.
    + eapply port_write_ok; eauto.
    + apply db_ok_set_ports; [done|]. intros j p [_ Hp]%lookup_delete_Some. by apply (ok_ports db H).
Qed.

Lemma port_acquire_shape self protocol port policy id c1 c2 token db a db' :
  port_acquire self protocol port policy id c1 c2 token db = Ok (a, db') →
  fence_holds self.(po_coordinator) token c2 db = true ∧
  port_effect self.(po_coordinator) token db db' ∧
  match a with
  | None => db' = db
  | Some row => db' = set_ports db (<[(protocol, port) := row]> db.(public_port_ownership)) ∧
      row.(p_lease_id) = id ∧ row.(p_policy_id) = policy ∧ row.(p_fencing_token) = token ∧
      row.(p_lease_until) = c1 + self.(po_lease_seconds)
  end.
Proof.
  unfold port_acquire. intros E. tx_inv E. fence_inv. split; [done|].
  match type of E with match ?m with _ => _ end = _ => destruct m end.
  - injection E as <- <-. split; [by left|done].
  - tx_inv E. injection E as <- <-.
    match goal with E : read_sqlite_lease (set_ports _ _) _ _ = Ok _ |- _ =>
      apply read_lease_written in E as [-> Hok] end.
    match goal with E : ok_or _ _ = Ok _ |- _ => injection E as <- end. split.
    + right. left. eexists _, _. split; [done|]. done.
    + cbn. split_and!; try done. unfold saturating_add in *. unfold I64_MAX in *. lia.
Qed.

Lemma port_renew_shape self protocol port policy id c1 c2 token db a db' :
  port_renew self protocol port policy id c1 c2 token db = Ok (a, db') →
  fence_holds self.(po_coordinator) token c1 db = true ∧
  port_effect self.(po_coordinator) token db db' ∧
  match a with
  | None => db' = db
  | Some row => ∃ old, db.(public_port_ownership) !! (protocol, port) = Some old ∧
      port_row_is old self policy id token = true ∧ c2 < old.(p_lease_until) ∧
      db' = set_ports db (<[(protocol, port) := row]> db.(public_port_ownership)) ∧
      row.(p_lease_id) = id
  end.
Proof.
  unfold port_renew. intros E. tx_inv E. fence_inv. split; [done|].
  destruct (_ !! _) as [old|] eqn:Ho; [|by injection E as <- <-; split; [left|]].
  destruct (_ && _) eqn:Ec in E; [|by injection E as <- <-; split; [left|]].
  apply andb_true_iff in Ec as [Hr Hlt]. apply Z.ltb_lt in Hlt.
  destruct (port_row_is_true _ _ _ _ _ Hr) as (? & ? & ? & ? & ?). tx_inv E. injection E as <- <-.
  match goal with E : read_sqlite_lease (set_ports _ _) _ _ = Ok _ |- _ =>
    apply read_lease_written in E as [-> Hok] end.
  match goal with E : ok_or _ _ = Ok _ |- _ => injection E as <- end. split.
  - right. left. eexists _, _. split; [done|]. split; [done|]. split; [|done].
    intros Hdb. by destruct (ok_ports db Hdb _ _ Ho).
  - exists old. done.
Qed.

Global Instance port_acquire_fenced self protocol port policy id c1 c2 token :
  FencedOp self.(po_coordinator) token (port_acquire self protocol port policy id c1 c2 token).
Proof. apply port_effect_fenced. intros db a db' (? & ? & _)%port_acquire_shape. eauto. Qed.

Global Instance port_renew_fenced self protocol port policy id c1 c2 token :
  FencedOp self.(po_coordinator) token (port_renew self protocol port policy id c1 c2 token).
Proof. apply port_effect_fenced. intros db a db' (? & ? & _)%port_renew_shape. eauto. Qed.

Global Instance port_release_fenced self protocol port policy id c1 token :
  FencedOp self.(po_coordinator) token (port_release self protocol port policy id c1 token).
Proof.
  apply port_effect_fenced. unfold port_release. intros db a db' E. tx_inv E. fence_inv.
  split; [eauto|]. destruct (_ !! _) as [old|]; [|injection E as <- <-; by left].
  destruct (port_row_is _ _ _ _ _); injection E as <- <-; [|by left].
  right. right. by exists (protocol, port).
Qed.

Lemma prune_ports_ok clock db : db_ok db → db_ok (ports_prune_expired clock db).2.
Proof.
  intros H. apply db_ok_set_ports; [done|]. intros k p Hk.
  apply (prune_batch_Some p_lease_until) in Hk. by apply (ok_ports db H).
Qed.

(** The row a fresh claim writes. *)
Definition fresh_port_lease (self : PublicPortOwnership) (protocol : PublicPortProtocol)
    (port policy id now token : Z) : PublicPortLease :=
  {| p_protocol := protocol; p_public_port := port; p_lease_id := id;
     p_owner_instance_id := self.(po_coordinator).(instance_id);
     p_owner_incarnation_id := self.(po_coordinator).(incarnation_id);
     p_fencing_token := token; p_policy_id := policy; p_acquired := now; p_renewed := now;
     p_lease_until := now + self.(po_lease_seconds) |}.

(** Under the fence a stored row is the caller's own or of a past leader, so the
    claim cannot fail. *)
Lemma port_claim_mode_fenced self token c now db k row :
  db_ok db → fence_holds self token c db = true → db.(public_port_ownership) !! k = Some row →
  port_claim_mode (Some row) self.(instance_id) self.(incarnation_id) token now =
    Ok (if (row.(p_fencing_token) =? token) && (now <? row.(p_lease_until)) then Conflict else Fresh).
Proof.
  intros H Hf Hk. destruct (ok_ports db H _ _ Hk) as (_ & _ & Hlt & Hown).
  pose proof (fence_token_current _ _ _ _ H Hf) as Hn.
  destruct (fence_holds_leader _ _ _ _ Hf) as (l & Hl & Hi & Hc & Ht & _). cbn.
  destruct (Z.ltb_spec token row.(p_fencing_token)); [lia|].
  destruct (Z.ltb_spec row.(p_fencing_token) token).
  - by rewrite (proj2 (Z.eqb_neq row.(p_fencing_token) token)) by lia.
  - assert (Et : row.(p_fencing_token) = token) by lia. rewrite Et, Z.eqb_refl. cbn.
    destruct (Hown l Hl) as [<- <-]; [lia|]. rewrite Hi, Hc, !bool_decide_eq_true_2 by done. cbn.
    by destruct (Z.leb_spec row.(p_lease_until) now), (Z.ltb_spec now row.(p_lease_until)); try lia.
Qed.

(** An unexpired lease under the same leadership holds the port. *)
Definition port_taken (db : Database) (protocol : PublicPortProtocol) (port token now : Z) : bool :=
  match db.(public_port_ownership) !! (protocol, port) with
  | Some row => (row.(p_fencing_token) =? token) && (now <? row.(p_lease_until))
  | None => false
  end.

Lemma port_acquire_decided (self : PublicPortOwnership) (protocol : PublicPortProtocol)
    (port policy id now c token : Z) (db : Database) :
  db_ok db → fence_holds self.(po_coordinator) token c db = true →
  1 ≤ port ≤ U16_MAX → 0 ≤ now → 0 ≤ self.(po_lease_seconds) → now + self.(po_lease_seconds) ≤ I64_MAX →
  let fresh := fresh_port_lease self protocol port policy id now token in
  port_acquire self protocol port policy id now c token db =
    if port_taken db protocol port token now
    then Ok (None, db)
    else Ok (Some fresh, set_ports db (<[(protocol, port) := fresh]> db.(public_port_ownership))).
Proof.
  intros H Hf Hport Hnow Hs Hi64 fresh. pose proof (fence_token_current _ _ _ _ H Hf) as Hn.
  pose proof (ok_next db H). destruct (fence_holds_leader _ _ _ _ Hf) as (l & Hl & _ & _ & Ht & _).
  destruct (ok_leader db H l Hl) as [_ [Hpos _]].
  unfold port_acquire, validate_port_and_fence.
  rewrite !(ensure_true (0 <? _)) by (apply Z.ltb_lt; lia). cbn [mbind result_bind].
  rewrite sqlite_now_nonneg, assert_fence_holds, read_lease_db_ok by (done || lia). cbn [mbind result_bind].
  assert (Em : port_claim_mode (db.(public_port_ownership) !! (protocol, port))
      self.(po_coordinator).(instance_id) self.(po_coordinator).(incarnation_id) token now =
    Ok (if port_taken db protocol port token now then Conflict else Fresh)).
  { unfold port_taken. destruct (_ !! _) as [row|] eqn:Er; [|done].
    by apply (port_claim_mode_fenced _ _ c _ db (protocol, port)). }
  rewrite Em. cbn [mbind result_bind]. destruct (port_taken db protocol port token now); [done|].
  rewrite saturating_add_small by (unfold I64_MAX in *; lia). rewrite !as_i64_small by lia.
  cbn [mbind result_bind]. fold (fresh_port_lease self protocol port policy id now token). fold fresh.
  unfold read_sqlite_lease. cbn [set_ports public_port_ownership]. rewrite lookup_insert_eq.
  rewrite lease_row_read by (unfold port_row_ok; cbn; lia). done.
Qed.

(** With a valid fence, a claim of a port is decided and never fails: it is
    refused exactly while an unexpired lease under the same leadership holds the
    port, and otherwise writes a fresh lease, taking over from earlier leaders. *)
Theorem port_claim_decided (self : PublicPortOwnership) (protocol : PublicPortProtocol)
    (port policy id now c token : Z) (db : Database) :
  db_ok db → fence_holds self.(po_coordinator) token c db = true →
  1 ≤ port ≤ U16_MAX → 0 ≤ now → 0 ≤ self.(po_lease_seconds) → now + self.(po_lease_seconds) ≤ I64_MAX →
  let fresh := fresh_port_lease self protocol port policy id now token in
  port_acquire self protocol port policy id now c token db =
    if port_taken db protocol port token now
    then Ok (None, db)
    else Ok (Some fresh, set_ports db (<[(protocol, port) := fresh]> db.(public_port_ownership))).
Proof. apply port_acquire_decided. Qed.
End fenced.

Lemma port_claim_decided_witness :
  ∃ row db', port_acquire {| po_coordinator := ex_a; po_lease_seconds := 20 |} PortTcp 443 7 9 125 125 1 ex_led
    = Ok (Some row, db').
Proof.
  pose proof (@port_claim_decided ex_json {| po_coordinator := ex_a; po_lease_seconds := 20 |}
    PortTcp 443 7 9 125 125 1 ex_led ex_led_ok) as H.
  eexists _, _. etrans; [apply H|vm_compute; reflexivity];
    [vm_compute; reflexivity|lia|lia|cbn; lia|cbn; unfold I64_MAX; lia].
Defined.
