(* ===== verification/JobLeases.v ===== *)
(** * Leases of background jobs ([job_leases.rs])

    A job that must run in one process at a time is executed under a lease in
    [job_leases], which also records its last completion or error. *)

From S2P Require Import Prelude RustStr HaTables HaCoordination PortOwnership.

Local Open Scope Z_scope.
Set Default Proof Using "Type".

Definition MAX_JOB_KEY_BYTES : Z := 256.
Definition MAX_JOB_KIND_BYTES : Z := 64.
Definition MAX_ERROR_CODE_BYTES : Z := 128.

Record JobLeases := { jl_coordinator : HaCoordinator; jl_lease_seconds : Z }.

Definition jobs_open (coordinator : HaCoordinator) (lease : Z) : result CoordError JobLeases :=
  seconds ← lease_seconds lease (5 * 60);
  Ok {| jl_coordinator := coordinator; jl_lease_seconds := seconds |}.

Definition renewal_interval (self : JobLeases) : Z := Z.max (self.(jl_lease_seconds) / 3) 1.

Definition normalize_identifier (value : rstr) (maximum : Z) : result CoordError rstr :=
  let value := trim value in
  _ ← ensure (negb (str_len value =? 0)) IdentifierRequired;
  _ ← ensure (str_len value <=? maximum) IdentifierTooLong;
  _ ← ensure (negb (any is_control value)) IdentifierControl;
  Ok value.

Definition job_claim_mode (current : option JobLease) (job_kind instance incarnation : rstr)
    (fencing_token now : Z) : result CoordError ClaimMode :=
  match current with
  | None => Ok Fresh
  | Some current =>
      _ ← ensure (bool_decide (current.(j_job_kind) = job_kind)) JobKindMismatch;
      if fencing_token <? current.(j_fencing_token) then Err NewerFencingToken
      else if current.(j_fencing_token) <? fencing_token then Ok Fresh
      else
        _ ← ensure (bool_decide (current.(j_owner_instance_id) = instance) &&
                    bool_decide (current.(j_owner_incarnation_id) = incarnation)) FencingTokenReused;
        if current.(j_lease_until) <=? now then Ok Fresh else Ok Conflict
  end.

Definition sqlite_job_row (row : JobLease) : result CoordError JobLease :=
  _ ← positive row.(j_fencing_token);
  _ ← nonnegative row.(j_acquired);
  _ ← nonnegative row.(j_renewed);
  _ ← nonnegative row.(j_lease_until);
  _ ← match row.(j_last_completed) with Some t => nonnegative t | None => Ok 0 end;
  Ok row.

Definition read_sqlite_job (db : Database) (job_key : rstr) : result CoordError (option JobLease) :=
  match db.(job_leases) !! job_key with
  | None => Ok None
  | Some row => j ← sqlite_job_row row; Ok (Some j)
  end.

Definition assert_sqlite_transaction_lease (self : JobLeases) (lease : JobLease)
    (fence_clock now_clock : Z) (db : Database) : result CoordError unit :=
  _ ← assert_sqlite_transaction_fence self.(jl_coordinator) lease.(j_fencing_token) fence_clock db;
  current ← read_sqlite_job db lease.(j_job_key);
  now ← sqlite_now now_clock;
  ensure
    match current with
    | Some current =>
        (current.(j_lease_id) =? lease.(j_lease_id)) &&
        bool_decide (current.(j_job_kind) = lease.(j_job_kind)) &&
        bool_decide (current.(j_owner_instance_id) = self.(jl_coordinator).(instance_id)) &&
        bool_decide (current.(j_owner_incarnation_id) = self.(jl_coordinator).(incarnation_id)) &&
        (current.(j_fencing_token) =? lease.(j_fencing_token)) && (now <? current.(j_lease_until))
    | None => false
    end JobLeaseStale.

(** [INSERT .. ON CONFLICT(job_key) DO UPDATE]: an existing row keeps its kind
    and its last completion. *)
Definition job_upsert (row : JobLease) (db : Database) : Database :=
  let stored :=
    match db.(job_leases) !! row.(j_job_key) with
    | None => row
    | Some old =>
        {| j_job_key := old.(j_job_key); j_job_kind := old.(j_job_kind);
           j_lease_id := row.(j_lease_id); j_owner_instance_id := row.(j_owner_instance_id);
           j_owner_incarnation_id := row.(j_owner_incarnation_id);
           j_fencing_token := row.(j_fencing_token); j_acquired := row.(j_acquired);
           j_renewed := row.(j_renewed); j_lease_until := row.(j_lease_until);
           j_last_completed := old.(j_last_completed); j_last_error_code := None |}
    end in
  set_jobs db (<[row.(j_job_key) := stored]> db.(job_leases)).

(** [lease_id] is a random [Uuid]. *)
Definition job_acquire (self : JobLeases) (job_key job_kind : rstr)
    (lease_id fence_clock now_clock fencing_token : Z) (db : Database)
    : result CoordError (option JobLease * Database) :=
  job_key ← normalize_identifier job_key MAX_JOB_KEY_BYTES;
  job_kind ← normalize_identifier job_kind MAX_JOB_KIND_BYTES;
  _ ← ensure (0 <? fencing_token) FenceNotPositive;
  _ ← assert_sqlite_transaction_fence self.(jl_coordinator) fencing_token fence_clock db;
  now ← sqlite_now now_clock;
  current ← read_sqlite_job db job_key;
  mode ← job_claim_mode current job_kind self.(jl_coordinator).(instance_id)
           self.(jl_coordinator).(incarnation_id) fencing_token now;
  match mode with
  | Conflict => Ok (None, db)
  | Fresh =>
      let lease_until := saturating_add U64_MAX now self.(jl_lease_seconds) in
      _ ← as_i64 fencing_token;
      _ ← as_i64 now;
      _ ← as_i64 lease_until;
      let db := job_upsert
        {| j_job_key := job_key; j_job_kind := job_kind; j_lease_id := lease_id;
           j_owner_instance_id := self.(jl_coordinator).(instance_id);
           j_owner_incarnation_id := self.(jl_coordinator).(incarnation_id);
           j_fencing_token := fencing_token; j_acquired := now; j_renewed := now;
           j_lease_until := lease_until; j_last_completed := None; j_last_error_code := None |} db in
      lease ← read_sqlite_job db job_key;
      lease ← ok_or lease RowDisappeared;
      Ok (Some lease, db)
  end.

(** The columns a renewal or completion must match. *)
Definition job_row_is (row : JobLease) (self : JobLeases) (job_kind : rstr)
    (lease_id fencing_token : Z) : bool :=
  bool_decide (row.(j_job_kind) = job_kind) && (row.(j_lease_id) =? lease_id) &&
  bool_decide (row.(j_owner_instance_id) = self.(jl_coordinator).(instance_id)) &&
  bool_decide (row.(j_owner_incarnation_id) = self.(jl_coordinator).(incarnation_id)) &&
  (row.(j_fencing_token) =? fencing_token).

Definition job_renew (self : JobLeases) (job_key job_kind : rstr)
    (lease_id fence_clock now_clock fencing_token : Z) (db : Database)
    : result CoordError (option JobLease * Database) :=
  job_key ← normalize_identifier job_key MAX_JOB_KEY_BYTES;
  job_kind ← normalize_identifier job_kind MAX_JOB_KIND_BYTES;
  _ ← ensure (0 <? fencing_token) FenceNotPositive;
  _ ← assert_sqlite_transaction_fence self.(jl_coordinator) fencing_token fence_clock db;
  now ← sqlite_now now_clock;
  let lease_until := saturating_add U64_MAX now self.(jl_lease_seconds) in
  _ ← as_i64 fencing_token;
  _ ← as_i64 now;
  _ ← as_i64 lease_until;
  match db.(job_leases) !! job_key with
  | None => Ok (None, db)
  | Some row =>
      if job_row_is row self job_kind lease_id fencing_token && (now <? row.(j_lease_until)) then
        let row := {| j_job_key := row.(j_job_key); j_job_kind := row.(j_job_kind);
                      j_lease_id := row.(j_lease_id);
                      j_owner_instance_id := row.(j_owner_instance_id);
                      j_owner_incarnation_id := row.(j_owner_incarnation_id);
                      j_fencing_token := row.(j_fencing_token); j_acquired := row.(j_acquired);
                      j_renewed := now; j_lease_until := lease_until;
                      j_last_completed := row.(j_last_completed);
                      j_last_error_code := row.(j_last_error_code) |} in
        let db := set_jobs db (<[job_key := row]> db.(job_leases)) in
        lease ← read_sqlite_job db job_key;
        lease ← ok_or lease RowDisappeared;
        Ok (Some lease, db)
      else Ok (None, db)
  end.

Definition job_finish (self : JobLeases) (job_key job_kind : rstr) (error_code : option rstr)
    (lease_id fence_clock now_clock fencing_token : Z) (db : Database)
    : result CoordError (bool * Database) :=
  job_key ← normalize_identifier job_key MAX_JOB_KEY_BYTES;
  job_kind ← normalize_identifier job_kind MAX_JOB_KIND_BYTES;
  _ ← ensure (0 <? fencing_token) FenceNotPositive;
  _ ← assert_sqlite_transaction_fence self.(jl_coordinator) fencing_token fence_clock db;
  now ← sqlite_now now_clock;
  _ ← as_i64 fencing_token;
  _ ← as_i64 now;
  match db.(job_leases) !! job_key with
  | None => Ok (false, db)
  | Some row =>
      if job_row_is row self job_kind lease_id fencing_token && (now <? row.(j_lease_until)) then
        let row := {| j_job_key := row.(j_job_key); j_job_kind := row.(j_job_kind);
                      j_lease_id := row.(j_lease_id);
                      j_owner_instance_id := row.(j_owner_instance_id);
                      j_owner_incarnation_id := row.(j_owner_incarnation_id);
                      j_fencing_token := row.(j_fencing_token); j_acquired := row.(j_acquired);
                      j_renewed := now; j_lease_until := now;
                      j_last_completed :=
                        match error_code with None => Some now | Some _ => row.(j_last_completed) end;
                      j_last_error_code := error_code |} in
        Ok (true, set_jobs db (<[job_key := row]> db.(job_leases)))
      else Ok (false, db)
  end.

Definition job_complete (self : JobLeases) (job_key job_kind : rstr)
    (lease_id fence_clock now_clock fencing_token : Z) (db : Database)
    : result CoordError (bool * Database) :=
  job_finish self job_key job_kind None lease_id fence_clock now_clock fencing_token db.

Definition job_fail (self : JobLeases) (job_key job_kind error_code : rstr)
    (lease_id fence_clock now_clock fencing_token : Z) (db : Database)
    : result CoordError (bool * Database) :=
  error_code ← normalize_identifier error_code MAX_ERROR_CODE_BYTES;
  job_finish self job_key job_kind (Some error_code) lease_id fence_clock now_clock fencing_token db.

(** The leases of the live leader: the joins of [active]. *)
Definition job_is_active (db : Database) (clock : Z) (row : JobLease) : bool :=
  match db.(ha_leader) with
  | Some leader =>
      bool_decide (leader.(l_instance_id) = row.(j_owner_instance_id)) &&
      bool_decide (leader.(l_incarnation_id) = row.(j_owner_incarnation_id)) &&
      (leader.(l_fencing_token) =? row.(j_fencing_token)) &&
      (clock <? row.(j_lease_until)) && (clock <? leader.(l_lease_until)) &&
      member_active db row.(j_owner_instance_id) row.(j_owner_incarnation_id) clock
  | None => false
  end.

Definition jobs_active (clock : Z) (db : Database) : result CoordError (list JobLease) :=
  collect sqlite_job_row
    (merge_sort (λ a b, Is_true (lex_le (as_bytes a.(j_job_key)) (as_bytes b.(j_job_key))))
      (filter (λ row, Is_true (job_is_active db clock row)) (map_to_list db.(job_leases)).*2)).

(** ** Jobs as fenced operations *)

Lemma job_row_Ok row row' : sqlite_job_row row = Ok row' → row' = row ∧ job_row_ok row.
Proof.
  unfold sqlite_job_row. intros H. repeat bind_inv H. injection H as <-.
  rewrite positive_Ok, !nonnegative_Ok in *. unfold job_row_ok. split_and!; try naive_solver.
  intros t Et. rewrite Et in *.
  match goal with E : nonnegative t = Ok _ |- _ => apply nonnegative_Ok in E; lia end.
Qed.

Lemma job_row_read row : job_row_ok row → sqlite_job_row row = Ok row.
Proof.
  intros (Ht & H1 & H2 & H3 & H4). unfold sqlite_job_row.
  rewrite positive_pos, !nonnegative_nonneg by done. cbn.
  destruct (j_last_completed row) as [t|]; [|done]. by rewrite nonnegative_nonneg by auto.
Qed.

Lemma job_row_is_true row self kind id token :
  job_row_is row self kind id token = true →
  row.(j_job_kind) = kind ∧ row.(j_lease_id) = id ∧ row.(j_fencing_token) = token ∧
  row.(j_owner_instance_id) = self.(jl_coordinator).(instance_id) ∧
  row.(j_owner_incarnation_id) = self.(jl_coordinator).(incarnation_id).
Proof. unfold job_row_is. rewrite !andb_true_iff, !bool_decide_eq_true, !Z.eqb_eq. naive_solver. Qed.

Lemma normalize_identifier_Ok value maximum v : normalize_identifier value maximum = Ok v → v = trim value.
Proof. unfold normalize_identifier. intros E. tx_inv E. by injection E as <-. Qed.

(** The part of the database invariant that is about job rows alone. *)
Definition jobs_readable (db : Database) : Prop :=
  ∀ k j, db.(job_leases) !! k = Some j → j.(j_job_key) = k ∧ job_row_ok j.

(** The outcomes of a job operation: the table as it was, or one row written for
    the owner of the fence. [id] and [until] are the lease identifier and the expiry
    of the row, [old] the row it replaces. *)
Definition job_effect (self : HaCoordinator) (token : Z) (key : rstr) (db db' : Database)
    (row : JobLease) : Prop :=
  db' = set_jobs db (<[key := row]> db.(job_leases)) ∧
  (jobs_readable db → row.(j_job_key) = key ∧ job_row_ok row) ∧ row.(j_fencing_token) = token ∧
  row.(j_owner_instance_id) = self.(instance_id) ∧ row.(j_owner_incarnation_id) = self.(incarnation_id).

(** What [job_acquire] writes. *)
Lemma job_acquire_shape self key kind id c1 c2 token db a db' :
  job_acquire self key kind id c1 c2 token db = Ok (a, db') →
  fence_holds self.(jl_coordinator) token c1 db = true ∧
  match a with
  | None => db' = db
  | Some row => job_effect self.(jl_coordinator) token (trim key) db db' row ∧ row.(j_lease_id) = id
  end.
Proof.
  unfold job_acquire. intros E. tx_inv E. fence_inv. split; [done|].
  repeat match goal with E : normalize_identifier _ _ = Ok _ |- _ => apply normalize_identifier_Ok in E as -> end.
  match type of E with match ?m with _ => _ end = _ => destruct m end; [by injection E as <- <-|].
  tx_inv E. injection E as <- <-.
  match goal with E : read_sqlite_job (job_upsert _ _) _ = Ok _ |- _ =>
    revert E; unfold read_sqlite_job, job_upsert; cbn; rewrite lookup_insert_eq; intros E; bind_inv E end.
  match goal with E : sqlite_job_row _ = Ok _ |- _ => apply job_row_Ok in E as [-> Hok] end.
  match goal with E : Ok _ = Ok ?x |- _ => injection E as <- end.
  match goal with E : ok_or _ _ = Ok _ |- _ => injection E as <- end.
  destruct (db.(job_leases) !! trim key) as [old|] eqn:Ho; cbn in *; split; [split; [done|]|done|split; [done|]|done];
    (split; [|done]); intros Hdb; (split; [|done]); [|done].
  by destruct (Hdb _ _ Ho).
Qed.

Lemma job_renew_shape self key kind id c1 c2 token db a db' :
  job_renew self key kind id c1 c2 token db = Ok (a, db') →
  fence_holds self.(jl_coordinator) token c1 db = true ∧
  match a with
  | None => db' = db
  | Some row => job_effect self.(jl_coordinator) token (trim key) db db' row ∧ row.(j_lease_id) = id ∧
      ∃ old, db.(job_leases) !! trim key = Some old ∧ old.(j_lease_id) = id ∧ c2 < old.(j_lease_until)
  end.
Proof.
  unfold job_renew. intros E. tx_inv E. fence_inv. split; [done|].
  repeat match goal with E : normalize_identifier _ _ = Ok _ |- _ => apply normalize_identifier_Ok in E as -> end.
  destruct (_ !! _) as [old|] eqn:Ho; [|by injection E as <- <-].
  destruct (_ && _) eqn:Ec in E; [|by injection E as <- <-].
  apply andb_true_iff in Ec as [Hr Hlt]. apply Z.ltb_lt in Hlt.
  destruct (job_row_is_true _ _ _ _ _ Hr) as (? & ? & ? & ? & ?). tx_inv E. injection E as <- <-.
  match goal with E : read_sqlite_job (set_jobs _ _) _ = Ok _ |- _ =>
    revert E; unfold read_sqlite_job; cbn; rewrite lookup_insert_eq; intros E; bind_inv E end.
  match goal with E : sqlite_job_row _ = Ok _ |- _ => apply job_row_Ok in E as [-> Hok] end.
  match goal with E : Ok _ = Ok ?x |- _ => injection E as <- end.
  match goal with E : ok_or _ _ = Ok _ |- _ => injection E as <- end.
  split; [split; [done|]|by eauto].
  split; [|done]. intros Hdb. split; [|done]. by destruct (Hdb _ _ Ho).
Qed.

Lemma job_finish_shape self key kind code id c1 c2 token db a db' :
  job_finish self key kind code id c1 c2 token db = Ok (a, db') →
  fence_holds self.(jl_coordinator) token c1 db = true ∧
  match a with
  | false => db' = db
  | true => ∃ row old, job_effect self.(jl_coordinator) token (trim key) db db' row ∧
      row.(j_lease_id) = id ∧ row.(j_lease_until) = c2 ∧ row.(j_last_error_code) = code ∧
      row.(j_last_completed) = match code with None => Some c2 | Some _ => old.(j_last_completed) end ∧
      db.(job_leases) !! trim key = Some old ∧ old.(j_lease_id) = id ∧ c2 < old.(j_lease_until)
  end.
Proof.
  unfold job_finish. intros E. tx_inv E. fence_inv. split; [done|].
  repeat match goal with E : normalize_identifier _ _ = Ok _ |- _ => apply normalize_identifier_Ok in E as -> end.
  destruct (_ !! _) as [old|] eqn:Ho; [|by injection E as <- <-].
  destruct (_ && _) eqn:Ec in E; [|by injection E as <- <-].
  apply andb_true_iff in Ec as [Hr Hlt]. apply Z.ltb_lt in Hlt.
  destruct (job_row_is_true _ _ _ _ _ Hr) as (? & ? & ? & ? & ?). injection E as <- <-.
  eexists _, old. split; [split; [done|]|by destruct code; split_and!].
  split; [|done]. intros Hdb. destruct (Hdb _ _ Ho) as (? & (? & ? & ? & ? & Hcomp)).
  split; [done|]. unfold job_row_ok. cbn. split_and!; try (done || lia).
  intros t. destruct code; [by apply Hcomp|]. intros [= <-]. done.
Qed.

Section fenced.
Context {J : JsonLib}.

Lemma db_ok_jobs_readable db : db_ok db → jobs_readable db.
Proof. intros H k j Hk. by destruct (ok_jobs db H k j Hk) as (? & ? & _). Qed.

Lemma read_job_db_ok db key : db_ok db → read_sqlite_job db key = Ok (db.(job_leases) !! key).
Proof.
  intros H. unfold read_sqlite_job. destruct (_ !! _) as [row|] eqn:E; [|done].
  destruct (ok_jobs db H _ _ E) as (_ & Hr & _). by rewrite job_row_read.
Qed.

Lemma job_effect_ok self token key c db db' row :
  db_ok db → fence_holds self token c db = true → job_effect self token key db db' row → db_ok db'.
Proof.
  intros H Hf (-> & Hr & Ht & Hi & Hc). apply db_ok_set_jobs; [done|]. intros k j.
  destruct (decide (k = key)) as [->|Hne].
  - rewrite lookup_insert_eq. intros [= <-]. destruct (Hr (db_ok_jobs_readable db H)). rewrite Ht, Hi, Hc. eauto using fence_held_by.
  - rewrite lookup_insert_ne by done. apply (ok_jobs db H).
Qed.

Lemma job_effect_fenced {A} self token (op : Database → result CoordError (A * Database)) :
  (∀ db a db', op db = Ok (a, db') →
     (∃ clock, fence_holds self token clock db = true) ∧
     (db' = db ∨ ∃ key row, job_effect self token key db db' row)) →
  FencedOp self token op.
Proof.
  intros Hop. split; intros db a db'.
  - intros E. by destruct (Hop _ _ _ E).
  - intros E. by destruct (Hop _ _ _ E) as [_ [->|(key & row & -> & _)]].
  - intros H E. destruct (Hop _ _ _ E) as [[c Hf] [->|(key & row & Heff)]]; [done|].
    by eapply job_effect_ok.
Qed.

Global Instance job_acquire_fenced self key kind id c1 c2 token :
  FencedOp self.(jl_coordinator) token (job_acquire self key kind id c1 c2 token).
Proof. apply job_effect_fenced. intros db [row|] db' [? ?]%job_acquire_shape; naive_solver. Qed.

Global Instance job_renew_fenced self key kind id c1 c2 token :
  FencedOp self.(jl_coordinator) token (job_renew self key kind id c1 c2 token).
Proof. apply job_effect_fenced. intros db [row|] db' [? ?]%job_renew_shape; naive_solver. Qed.

Global Instance job_finish_fenced self key kind code id c1 c2 token :
  FencedOp self.(jl_coordinator) token (job_finish self key kind code id c1 c2 token).
Proof. apply job_effect_fenced. intros db [|] db' [? ?]%job_finish_shape; naive_solver. Qed.

Global Instance job_complete_fenced self key kind id c1 c2 token :
  FencedOp self.(jl_coordinator) token (job_complete self key kind id c1 c2 token).
Proof. exact (job_finish_fenced self key kind None id c1 c2 token). Qed.

Global Instance job_fail_fenced self key kind code id c1 c2 token :
  FencedOp self.(jl_coordinator) token (job_fail self key kind code id c1 c2 token).
Proof.
  apply job_effect_fenced. unfold job_fail. intros db a db' E. tx_inv E.
  apply job_finish_shape in E. destruct a; naive_solver.
Qed.
End fenced.

(** ** A lease is finished once *)

(** What may happen to the jobs after [id] was finished at [done_at]: claims draw
    other identifiers and no clock reading is older. *)
Inductive jobs_step (id done_at : Z) : Database → Database → Prop :=
  | js_acquire self key kind id' c1 c2 token a db db' :
      id' ≠ id → done_at ≤ c2 → job_acquire self key kind id' c1 c2 token db = Ok (a, db') →
      jobs_step id done_at db db'
  | js_renew self key kind id' c1 c2 token a db db' :
      done_at ≤ c2 → job_renew self key kind id' c1 c2 token db = Ok (a, db') → jobs_step id done_at db db'
  | js_finish self key kind code id' c1 c2 token a db db' :
      done_at ≤ c2 → job_finish self key kind code id' c1 c2 token db = Ok (a, db') →
      jobs_step id done_at db db'
  | js_recover claimed db : jobs_step id done_at db (recover_stale_sqlite_leases claimed db).2
  | js_other db db' : db'.(job_leases) = db.(job_leases) → jobs_step id done_at db db'.

(** The lease [id] of the job is gone or expired. *)
Definition spent (id done_at : Z) (key : rstr) (db : Database) : Prop :=
  ∀ row, db.(job_leases) !! key = Some row → row.(j_lease_id) = id → row.(j_lease_until) ≤ done_at.

Lemma spent_write id done_at key k db row :
  spent id done_at key db → (k = key → row.(j_lease_id) = id → row.(j_lease_until) ≤ done_at) →
  spent id done_at key (set_jobs db (<[k := row]> db.(job_leases))).
Proof.
  intros Hs Hr r. cbn. destruct (decide (k = key)) as [->|Hne].
  - rewrite lookup_insert_eq. intros [= <-]. by apply Hr.
  - rewrite lookup_insert_ne by done. apply Hs.
Qed.

Lemma spent_step id done_at key db db' :
  0 ≤ done_at → spent id done_at key db → jobs_step id done_at db db' → spent id done_at key db'.
Proof.
  intros H0 Hs Hstep. destruct Hstep as
    [self k kind id' c1 c2 token a db db' Hid Hc E|self k kind id' c1 c2 token a db db' Hc E
    |self k kind code id' c1 c2 token a db db' Hc E|claimed db|db db' E].
  - apply job_acquire_shape in E as [_ E]. destruct a as [row|]; [|by subst].
    destruct E as [(-> & _) Ei]. apply spent_write; [done|]. intros _ ?. congruence.
  - apply job_renew_shape in E as [_ E]. destruct a as [row|]; [|by subst].
    destruct E as [(-> & _) (Ei & old & Ho & Eo & Hlt)]. apply spent_write; [done|]. intros <- Er.
    assert (j_lease_until old ≤ done_at) by (apply (Hs old Ho); congruence). lia.
  - apply job_finish_shape in E as [_ E]. destruct a; [|by subst].
    destruct E as (row & old & (-> & _) & Ei & _ & _ & _ & Ho & Eo & Hlt).
    apply spent_write; [done|]. intros <- Er.
    assert (j_lease_until old ≤ done_at) by (apply (Hs old Ho); congruence). lia.
  - destruct claimed; [|done]. intros row. cbn. rewrite lookup_fmap.
    intros (old & _ & ->)%fmap_Some _. done.
  - intros row. rewrite E. apply Hs.
Qed.

Lemma spent_rtc id done_at key db db' :
  0 ≤ done_at → spent id done_at key db → rtc (jobs_step id done_at) db db' → spent id done_at key db'.
Proof. intros H0 Hs Hr. induction Hr; [done|]. eauto using spent_step. Qed.

(** A job lease is finished at most once: whatever happens after it was
    completed or failed, no later completion, failure or renewal under the same lease
    identifier has an effect, as long as the clock does not go back and identifiers
    are not drawn twice. *)
Theorem job_finished_once (self self' : JobLeases) (key kind key' kind' : rstr) (code code' : option rstr)
    (id c1 now token c1' now' token' : Z) (db db1 db2 : Database) :
  job_finish self key kind code id c1 now token db = Ok (true, db1) →
  rtc (jobs_step id now) db1 db2 → trim key' = trim key → 0 ≤ now ≤ now' →
  (∀ b db3, job_finish self' key' kind' code' id c1' now' token' db2 = Ok (b, db3) → b = false ∧ db3 = db2) ∧
  (∀ r db3, job_renew self' key' kind' id c1' now' token' db2 = Ok (r, db3) → r = None ∧ db3 = db2).
Proof.
  intros (_ & row & old & (-> & _) & Ei & Eu & _)%job_finish_shape Hsteps Hkey Hnow.
  assert (Hs : spent id now (trim key) db2).
  { eapply spent_rtc; [lia| |exact Hsteps]. intros r. cbn. rewrite lookup_insert_eq. intros [= <-]. lia. }
  split; intros r db3 E.
  - apply job_finish_shape in E as [_ E]. destruct r; [|by subst].
    destruct E as (row' & old' & _ & _ & _ & _ & _ & Ho & Eo & Hlt). rewrite Hkey in Ho.
    specialize (Hs old' Ho Eo). lia.
  - apply job_renew_shape in E as [_ E]. destruct r as [r|]; [|by subst].
    destruct E as (_ & _ & old' & Ho & Eo & Hlt). rewrite Hkey in Ho. specialize (Hs old' Ho Eo). lia.
Qed.

Definition ex_jobs : JobLeases := {| jl_coordinator := ex_a; jl_lease_seconds := 20 |}.
Definition ex_job_db : Database :=
  run_or (job_acquire ex_jobs (lit "backup") (lit "backup") 9 125 125 1 ex_led) ex_led.
Definition ex_job_done : Database :=
  run_or (job_finish ex_jobs (lit "backup") (lit "backup") None 9 126 126 1 ex_job_db) ex_job_db.

Lemma job_finished_once_witness :
  ∃ b db3, job_finish ex_jobs (lit "backup") (lit "backup") None 9 127 127 1 ex_job_done = Ok (b, db3) ∧ b = false.
Proof.
  destruct (job_finished_once ex_jobs ex_jobs (lit "backup") (lit "backup") (lit "backup") (lit "backup")
    None None 9 126 126 1 127 127 1 ex_job_db ex_job_done ex_job_done) as [H _];
    [vm_compute; reflexivity|apply rtc_refl|reflexivity|lia|].
  eexists _, _. split; [vm_compute; reflexivity|].
  refine (proj1 (H _ _ _)). vm_compute. reflexivity.
Defined.
