(* ===== verification/TargetHealth.v ===== *)
(** * Health of targets ([target_health.rs])

    The leader probes the targets of tunnels and stores what it sees. A target
    becomes effectively healthy after enough successes in a row and unhealthy after
    enough failures in a row; a record that is not refreshed in time counts as
    unhealthy wherever it is read. *)

From S2P Require Import Prelude RustStr HaTables HaCoordination.

Local Open Scope Z_scope.
Set Default Proof Using "Type".

Definition MAX_TARGET_KEY_BYTES : Z := 256.
Definition MAX_ERROR_SUMMARY_BYTES : nat := 320.
Definition MAX_WEIGHT : Z := 1000000.
Definition MAX_REVISION : Z := I64_MAX.

Record TargetHealthObservation := {
  o_target_key : rstr;
  o_member_alive : bool;
  o_control_channel_healthy : bool;
  o_application_healthy : bool;
  o_weight : Z;
  o_revision : Z;
  o_error_summary : option rstr;
}.

Record TargetHealthUpdate := {
  accepted : bool;
  duplicate : bool;
  previous_effective_healthy : bool;
  health : TargetHealth;
}.

Record TargetHealthCatalog := {
  th_coordinator : HaCoordinator;
  success_threshold : Z;
  failure_threshold : Z;
  stale_after_seconds : Z;
}.

(** [stale_after] in whole seconds. *)
Definition health_open (coordinator : HaCoordinator) (success failure stale_after : Z)
    : result CoordError TargetHealthCatalog :=
  _ ← ensure ((1 <=? success) && (success <=? 1000)) ThresholdOutOfRange;
  _ ← ensure ((1 <=? failure) && (failure <=? 1000)) ThresholdOutOfRange;
  _ ← ensure ((1 <=? stale_after) && (stale_after <=? 86400)) StaleTimeoutOutOfRange;
  Ok {| th_coordinator := coordinator; success_threshold := success;
        failure_threshold := failure; stale_after_seconds := stale_after |}.

(** ** Normalisation *)

Definition normalize_target_key (value : rstr) : result CoordError rstr :=
  let value := trim value in
  _ ← ensure (negb (str_len value =? 0)) IdentifierRequired;
  _ ← ensure (str_len value <=? MAX_TARGET_KEY_BYTES) IdentifierTooLong;
  _ ← ensure (negb (any is_control value)) IdentifierControl;
  Ok value.

(** Carriage return, line feed and tab become spaces; the bound counts
    characters. *)
Definition normalize_error_summary (value : rstr) : result CoordError rstr :=
  let summary := (λ c, if (c =? 13) || (c =? 10) || (c =? 9) then 32 else c) <$> trim value in
  let summary :=
    if Z.of_nat MAX_ERROR_SUMMARY_BYTES <? len summary
    then take MAX_ERROR_SUMMARY_BYTES summary else summary in
  _ ← ensure (negb (str_len summary =? 0)) ErrorSummaryEmpty;
  Ok summary.

Definition normalize_observation (o : TargetHealthObservation) : result CoordError TargetHealthObservation :=
  key ← normalize_target_key o.(o_target_key);
  _ ← ensure ((1 <=? o.(o_weight)) && (o.(o_weight) <=? MAX_WEIGHT)) WeightOutOfRange;
  _ ← ensure (o.(o_revision) <=? MAX_REVISION) RevisionOutOfRange;
  summary ← match o.(o_error_summary) with
            | Some s => s ← normalize_error_summary s; Ok (Some s)
            | None => Ok None
            end;
  Ok {| o_target_key := key; o_member_alive := o.(o_member_alive);
        o_control_channel_healthy := o.(o_control_channel_healthy);
        o_application_healthy := o.(o_application_healthy); o_weight := o.(o_weight);
        o_revision := o.(o_revision); o_error_summary := summary |}.

(** ** Transitions *)

Definition instantaneous_healthy (o : TargetHealthObservation) : bool :=
  o.(o_member_alive) && o.(o_control_channel_healthy) && o.(o_application_healthy).

Definition apply_staleness (h : TargetHealth) (now stale_after_seconds : Z) : TargetHealth :=
  let stale := match h.(h_last_probe) with
               | None => true
               | Some last => stale_after_seconds <=? saturating_sub now last
               end in
  if stale then
    {| h_target_key := h.(h_target_key); h_member_alive := h.(h_member_alive);
       h_control_channel_healthy := h.(h_control_channel_healthy);
       h_application_healthy := h.(h_application_healthy); h_effective_healthy := false;
       h_consecutive_successes := h.(h_consecutive_successes);
       h_consecutive_failures := h.(h_consecutive_failures); h_weight := h.(h_weight);
       h_revision := h.(h_revision); h_last_probe := h.(h_last_probe);
       h_last_transition := h.(h_last_transition); h_last_error_summary := h.(h_last_error_summary) |}
  else h.

(** The record an accepted observation leaves. *)
Definition observed (o : TargetHealthObservation) (effective : bool)
    (successes failures now transition_at : Z) : TargetHealth :=
  {| h_target_key := o.(o_target_key); h_member_alive := o.(o_member_alive);
     h_control_channel_healthy := o.(o_control_channel_healthy);
     h_application_healthy := o.(o_application_healthy); h_effective_healthy := effective;
     h_consecutive_successes := successes; h_consecutive_failures := failures;
     h_weight := o.(o_weight); h_revision := o.(o_revision); h_last_probe := Some now;
     h_last_transition := transition_at; h_last_error_summary := o.(o_error_summary) |}.

Definition new_health (o : TargetHealthObservation) (effective : bool) (now : Z) : TargetHealth :=
  observed o effective (if instantaneous_healthy o then 1 else 0)
    (if instantaneous_healthy o then 0 else 1) now now.

Definition same_observation (current : TargetHealth) (o : TargetHealthObservation) : bool :=
  (o.(o_revision) =? current.(h_revision)) &&
  eqb current.(h_member_alive) o.(o_member_alive) &&
  eqb current.(h_control_channel_healthy) o.(o_control_channel_healthy) &&
  eqb current.(h_application_healthy) o.(o_application_healthy) &&
  (current.(h_weight) =? o.(o_weight)) &&
  bool_decide (current.(h_last_error_summary) = o.(o_error_summary)).

Definition calculate_update (current : option TargetHealth) (o : TargetHealthObservation)
    (now success_threshold failure_threshold : Z) : result CoordError TargetHealthUpdate :=
  match current with
  | None =>
      let effective := (success_threshold <=? 1) && instantaneous_healthy o in
      Ok {| accepted := true; duplicate := false; previous_effective_healthy := false;
            health := new_health o effective now |}
  | Some current =>
      if o.(o_revision) <? current.(h_revision) then
        Ok {| accepted := false; duplicate := false;
              previous_effective_healthy := current.(h_effective_healthy); health := current |}
      else if o.(o_revision) =? current.(h_revision) then
        _ ← ensure (same_observation current o) RevisionConflict;
        Ok {| accepted := false; duplicate := true;
              previous_effective_healthy := current.(h_effective_healthy); health := current |}
      else
        let '(successes, failures, effective) :=
          if instantaneous_healthy o then
            let successes :=
              Z.min (saturating_add U32_MAX current.(h_consecutive_successes) 1) success_threshold in
            (successes, 0, current.(h_effective_healthy) || (success_threshold <=? successes))
          else
            let failures :=
              Z.min (saturating_add U32_MAX current.(h_consecutive_failures) 1) failure_threshold in
            (0, failures, current.(h_effective_healthy) && (failures <? failure_threshold)) in
        let transition_at :=
          if eqb effective current.(h_effective_healthy) then current.(h_last_transition) else now in
        Ok {| accepted := true; duplicate := false;
              previous_effective_healthy := current.(h_effective_healthy);
              health := observed o effective successes failures now transition_at |}
  end.

(** ** The table *)

(** [sqlite_row]: a 32-bit count, a positive weight, nonnegative times. *)
Definition sqlite_u32 (value : Z) : result CoordError Z :=
  if (0 <=? value) && (value <=? U32_MAX) then Ok value else Err InvalidRow.
Definition sqlite_positive_u32 (value : Z) : result CoordError Z :=
  v ← sqlite_u32 value; if v =? 0 then Err InvalidRow else Ok v.

Definition sqlite_health_row (row : TargetHealth) : result CoordError TargetHealth :=
  _ ← sqlite_u32 row.(h_consecutive_successes);
  _ ← sqlite_u32 row.(h_consecutive_failures);
  _ ← sqlite_positive_u32 row.(h_weight);
  _ ← nonnegative row.(h_revision);
  _ ← match row.(h_last_probe) with Some t => nonnegative t | None => Ok 0 end;
  _ ← nonnegative row.(h_last_transition);
  Ok row.

Definition read_sqlite_health (db : Database) (key : rstr) : result CoordError (option TargetHealth) :=
  match db.(target_health) !! key with
  | None => Ok None
  | Some row => h ← sqlite_health_row row; Ok (Some h)
  end.

(** [INSERT .. ON CONFLICT(target_key) DO UPDATE] of all columns. *)
Definition write_sqlite (h : TargetHealth) (db : Database) : result CoordError Database :=
  _ ← as_i64 h.(h_revision);
  _ ← match h.(h_last_probe) with Some t => as_i64 t | None => Ok 0 end;
  _ ← as_i64 h.(h_last_transition);
  Ok (set_health db (<[h.(h_target_key) := h]> db.(target_health))).

Definition observe (self : TargetHealthCatalog) (o : TargetHealthObservation)
    (fence_clock now_clock fencing_token : Z) (db : Database)
    : result CoordError (TargetHealthUpdate * Database) :=
  o ← normalize_observation o;
  _ ← ensure (0 <? fencing_token) FenceNotPositive;
  _ ← assert_sqlite_transaction_fence self.(th_coordinator) fencing_token fence_clock db;
  now ← sqlite_now now_clock;
  current ← read_sqlite_health db o.(o_target_key);
  let current := (λ h, apply_staleness h now self.(stale_after_seconds)) <$> current in
  update ← calculate_update current o now self.(success_threshold) self.(failure_threshold);
  if update.(accepted) then db ← write_sqlite update.(health) db; Ok (update, db)
  else Ok (update, db).

(** [now_clock] is [database_unix_seconds]. *)
Definition health_get (self : TargetHealthCatalog) (key : rstr) (now_clock : Z) (db : Database)
    : result CoordError (option TargetHealth) :=
  key ← normalize_target_key key;
  h ← read_sqlite_health db key;
  match h with
  | None => Ok None
  | Some h => now ← sqlite_now now_clock; Ok (Some (apply_staleness h now self.(stale_after_seconds)))
  end.

Definition health_list (self : TargetHealthCatalog) (now_clock : Z) (db : Database)
    : result CoordError (list TargetHealth) :=
  rows ← collect sqlite_health_row
    (merge_sort (λ a b, Is_true (lex_le (as_bytes a.(h_target_key)) (as_bytes b.(h_target_key))))
      (map_to_list db.(target_health)).*2);
  now ← sqlite_now now_clock;
  Ok (map (λ h, apply_staleness h now self.(stale_after_seconds)) rows).

(** ** Health as a fenced operation *)

(** What [health_open] returns. *)
Definition catalog_ok (self : TargetHealthCatalog) : Prop :=
  1 ≤ self.(success_threshold) ≤ 1000 ∧ 1 ≤ self.(failure_threshold) ≤ 1000 ∧
  1 ≤ self.(stale_after_seconds) ≤ 86400.

Lemma health_open_ok coordinator s f t self :
  health_open coordinator s f t = Ok self → catalog_ok self ∧ self.(th_coordinator) = coordinator.
Proof.
  unfold health_open. intros E. tx_inv E. injection E as <-. bool_prop. unfold catalog_ok. cbn. split; [lia|done].
Qed.

Lemma health_row_read h : health_row_ok h → sqlite_health_row h = Ok h.
Proof.
  intros (H1 & H2 & H3 & H4 & H5 & H6). unfold sqlite_health_row, sqlite_positive_u32, sqlite_u32.
  rewrite !(proj2 (andb_true_iff _ _)) by (split; apply Z.leb_le; lia). cbn.
  rewrite (proj2 (Z.eqb_neq h.(h_weight) 0)) by lia. cbn.
  rewrite (nonnegative_nonneg h.(h_revision)), (nonnegative_nonneg h.(h_last_transition)) by lia. cbn.
  destruct h.(h_last_probe) as [t|]; [|done]. by rewrite nonnegative_nonneg by auto.
Qed.

Lemma apply_staleness_row h now t : health_row_ok h → health_row_ok (apply_staleness h now t).
Proof. unfold apply_staleness. destruct (match _ with Some _ => _ | None => _ end); done. Qed.

Lemma apply_staleness_same h now t :
  let h' := apply_staleness h now t in
  h'.(h_revision) = h.(h_revision) ∧ h'.(h_target_key) = h.(h_target_key) ∧
  (h'.(h_effective_healthy) = true → h' = h ∧ ∃ last, h.(h_last_probe) = Some last ∧ now - last < t).
Proof.
  cbn. unfold apply_staleness. destruct (match _ with Some _ => _ | None => _ end) eqn:E; [done|].
  split; [done|]. split; [done|]. intros _. split; [done|].
  destruct (h.(h_last_probe)) as [last|]; [|done]. exists last. split; [done|].
  apply Z.leb_gt in E. unfold saturating_sub in E. lia.
Qed.

Lemma normalize_observation_Ok o o' :
  normalize_observation o = Ok o' →
  o'.(o_revision) = o.(o_revision) ∧ o'.(o_weight) = o.(o_weight) ∧ 1 ≤ o.(o_weight) ≤ MAX_WEIGHT ∧
  o'.(o_target_key) = trim o.(o_target_key) ∧ instantaneous_healthy o' = instantaneous_healthy o.
Proof.
  unfold normalize_observation, normalize_target_key. intros E. tx_inv E. injection E as <-.
  match goal with E : (_ ← _; _) = Ok _ |- _ => tx_inv E; injection E as <- end. bool_prop. cbn. done.
Qed.

(** An observation newer than the record is accepted, with the record it leaves. *)
Lemma calculate_update_newer h o now s f :
  h.(h_revision) < o.(o_revision) →
  ∃ eff succ fl at_, calculate_update (Some h) o now s f =
    Ok {| accepted := true; duplicate := false; previous_effective_healthy := h.(h_effective_healthy);
          health := observed o eff succ fl now at_ |} ∧
    (at_ = now ∨ at_ = h.(h_last_transition)) ∧
    (succ, fl, eff) =
      if instantaneous_healthy o then
        let n := Z.min (saturating_add U32_MAX h.(h_consecutive_successes) 1) s in
        (n, 0, h.(h_effective_healthy) || (s <=? n))
      else
        let n := Z.min (saturating_add U32_MAX h.(h_consecutive_failures) 1) f in
        (0, n, h.(h_effective_healthy) && (n <? f)).
Proof.
  intros Hr. unfold calculate_update.
  rewrite (proj2 (Z.ltb_ge _ _)), (proj2 (Z.eqb_neq o.(o_revision) _)) by lia.
  destruct (instantaneous_healthy o); eexists _, _, _, _; (split; [reflexivity|]);
    (split; [destruct (eqb _ _); auto|done]).
Qed.

Lemma calculate_update_row current o now s f u :
  (∀ h, current = Some h → health_row_ok h) → 1 ≤ s ≤ 1000 → 1 ≤ f ≤ 1000 → 0 ≤ now →
  0 ≤ o.(o_revision) → 1 ≤ o.(o_weight) ≤ MAX_WEIGHT →
  calculate_update current o now s f = Ok u → u.(accepted) = true →
  health_row_ok u.(health) ∧ u.(health).(h_target_key) = o.(o_target_key).
Proof.
  intros Hc Hs Hf Hnow Hrev Hw E Ha. unfold MAX_WEIGHT in Hw. destruct current as [h|].
  - destruct (Hc h eq_refl) as (H1 & H2 & H3 & H4 & H5 & H6).
    destruct (Z.lt_ge_cases h.(h_revision) o.(o_revision)) as [Hlt|Hge].
    + destruct (calculate_update_newer h o now s f Hlt) as (eff & succ & fl & at_ & Eu & Hat & Et).
      rewrite Eu in E. injection E as <-. cbn. split; [|done]. unfold health_row_ok, saturating_add in *. cbn.
      destruct (instantaneous_healthy o); injection Et as -> -> _; split_and!; try lia; by intros t [= <-].
    + unfold calculate_update in E. destruct (Z.ltb_spec o.(o_revision) h.(h_revision)); [by injection E as <-|].
      rewrite (proj2 (Z.eqb_eq o.(o_revision) h.(h_revision))) in E by lia. tx_inv E. by injection E as <-.
  - injection E as <-. cbn. split; [|done]. unfold health_row_ok. cbn.
    destruct (instantaneous_healthy o); split_and!; try lia; by intros t [= <-].
Qed.

(** What a successful [observe] did. *)
Lemma observe_shape self o c1 c2 token db u db' :
  observe self o c1 c2 token db = Ok (u, db') →
  ∃ o', normalize_observation o = Ok o' ∧ fence_holds self.(th_coordinator) token c1 db = true ∧ 0 ≤ c2 ∧
  ∃ current, read_sqlite_health db o'.(o_target_key) = Ok current ∧
    calculate_update ((λ h, apply_staleness h c2 self.(stale_after_seconds)) <$> current) o' c2
      self.(success_threshold) self.(failure_threshold) = Ok u ∧
    db' = (if u.(accepted)
           then set_health db (<[u.(health).(h_target_key) := u.(health)]> db.(target_health)) else db).
Proof.
  unfold observe. intros E. bind_inv E. rename r into o'. exists o'. split; [done|]. tx_inv E.
  match goal with E : assert_sqlite_transaction_fence _ _ _ _ = Ok _ |- _ =>
    apply assert_fence_Ok in E as (? & ? & ?) end.
  split; [done|]. split; [done|]. eexists. split; [done|].
  match type of E with (if ?b then _ else _) = _ => destruct b eqn:Ha end.
  - tx_inv E. injection E as <- <-. split; [done|]. rewrite Ha.
    match goal with E : write_sqlite _ _ = Ok _ |- _ => unfold write_sqlite in E; tx_inv E; by injection E as <- end.
  - injection E as <- <-. split; [done|]. by rewrite Ha.
Qed.

Section fenced.
Context {J : JsonLib}.

Lemma read_health_db_ok db key : db_ok db → read_sqlite_health db key = Ok (db.(target_health) !! key).
Proof.
  intros H. unfold read_sqlite_health. destruct (_ !! _) as [row|] eqn:E; [|done].
  destruct (ok_health db H _ _ E) as [_ Hr]. by rewrite health_row_read.
Qed.

Lemma observe_fenced self o c1 c2 token :
  catalog_ok self → 0 ≤ o.(o_revision) → FencedOp self.(th_coordinator) token (observe self o c1 c2 token).
Proof.
  intros (Hs & Hf & _) Hrev. split; intros db u db'.
  - intros (o' & _ & Hfe & _)%observe_shape. eauto.
  - intros (o' & _ & _ & _ & cur & _ & _ & ->)%observe_shape. by destruct (accepted u).
  - intros H (o' & Hn & _ & Hc & cur & Hcur & Hu & ->)%observe_shape.
    destruct (normalize_observation_Ok _ _ Hn) as (Er & Ew & Hw & _ & _).
    rewrite read_health_db_ok in Hcur by done. injection Hcur as <-.
    destruct (accepted u) eqn:Ha; [|done]. apply db_ok_set_health; [done|].
    assert (Hrow : health_row_ok u.(health)).
    { refine (proj1 (calculate_update_row _ _ _ _ _ _ _ Hs Hf Hc _ _ Hu Ha)); [|lia|lia].
      intros h (h' & Hk & ->)%fmap_Some. apply apply_staleness_row. by destruct (ok_health db H _ _ Hk). }
    intros k h. destruct (decide (k = u.(health).(h_target_key))) as [->|Hne].
    + rewrite lookup_insert_eq. intros [= <-]. done.
    + rewrite lookup_insert_ne by done. apply (ok_health db H).
Qed.
End fenced.

(** ** Revisions *)

Lemma read_health_Some db key cur :
  read_sqlite_health db key = Ok cur → cur = db.(target_health) !! key.
Proof.
  unfold read_sqlite_health. destruct (_ !! _) as [row|]; [|by intros [= <-]].
  unfold sqlite_health_row. intros E. repeat bind_inv E. injection E as <-.
  match goal with E : (_ ← _; _) = Ok _ |- _ => repeat bind_inv E; by injection E as -> end.
Qed.

Lemma calculate_update_cases current o now s f u :
  calculate_update current o now s f = Ok u →
  if match current with Some h => h.(h_revision) <? o.(o_revision) | None => true end
  then u.(accepted) = true ∧ u.(health).(h_revision) = o.(o_revision) ∧
       u.(health).(h_target_key) = o.(o_target_key) ∧ u.(health).(h_last_probe) = Some now
  else u.(accepted) = false ∧ Some u.(health) = current ∧
       u.(duplicate) = match current with Some h => o.(o_revision) =? h.(h_revision) | None => false end.
Proof.
  destruct current as [h|]; [|by intros [= <-]].
  destruct (Z.ltb_spec h.(h_revision) o.(o_revision)) as [Hlt|Hge].
  - destruct (calculate_update_newer h o now s f Hlt) as (? & ? & ? & ? & -> & _). by intros [= <-].
  - unfold calculate_update. destruct (Z.ltb_spec o.(o_revision) h.(h_revision)).
    + intros [= <-]. cbn. by rewrite (proj2 (Z.eqb_neq _ _)) by lia.
    + rewrite (proj2 (Z.eqb_eq o.(o_revision) h.(h_revision))) by lia. intros E. tx_inv E. by injection E as <-.
Qed.

Lemma observe_newest (self : TargetHealthCatalog) (o : TargetHealthObservation)
    (c1 c2 token : Z) (db : Database) (u : TargetHealthUpdate) (db' : Database) :
  observe self o c1 c2 token db = Ok (u, db') →
  let key := trim o.(o_target_key) in
  (∀ k, k ≠ key → db'.(target_health) !! k = db.(target_health) !! k) ∧
  if match db.(target_health) !! key with Some h => h.(h_revision) <? o.(o_revision) | None => true end
  then u.(accepted) = true ∧ db'.(target_health) !! key = Some u.(health) ∧
       u.(health).(h_revision) = o.(o_revision)
  else u.(accepted) = false ∧ db' = db ∧
       u.(duplicate) = match db.(target_health) !! key with
                       | Some h => o.(o_revision) =? h.(h_revision) | None => false end.
Proof.
  intros (o' & Hn & _ & _ & cur & Hcur & Hu & ->)%observe_shape key.
  destruct (normalize_observation_Ok _ _ Hn) as (Er & _ & _ & Ek & _). fold key in Ek.
  apply read_health_Some in Hcur. rewrite Ek in Hcur. subst cur.
  apply calculate_update_cases in Hu. rewrite <- Er. unfold health_row_ok in *.
  assert (Ec : match (λ h, apply_staleness h c2 self.(stale_after_seconds)) <$> db.(target_health) !! key with
               | Some h => h.(h_revision) <? o'.(o_revision) | None => true end =
               match db.(target_health) !! key with
               | Some h => h.(h_revision) <? o'.(o_revision) | None => true end).
  { destruct (_ !! key) as [h|]; [|done]. cbn. by destruct (apply_staleness_same h c2 self.(stale_after_seconds)) as [-> _]. }
  rewrite Ec in Hu. destruct (match _ with Some h => _ | None => _ end).
  - destruct Hu as (Ha & Hr & Hk & _). rewrite Ha, Hk, Ek. cbn. split.
    + intros k Hne. by rewrite lookup_insert_ne.
    + by rewrite lookup_insert_eq.
  - destruct Hu as (Ha & _ & Hd). rewrite Ha. split; [done|]. split; [done|]. split; [done|]. rewrite Hd.
    destruct (_ !! key) as [h|]; [|done]. cbn. by destruct (apply_staleness_same h c2 self.(stale_after_seconds)) as [-> _].
Qed.

(** The newest revision wins: an observation is stored exactly when its target
    has no record or an older one, and then under its own revision; otherwise nothing
    is written, and a repetition is recognised as such. No other target is touched. *)
Theorem observe_newest_wins (self : TargetHealthCatalog) (o : TargetHealthObservation)
    (c1 c2 token : Z) (db : Database) (u : TargetHealthUpdate) (db' : Database) :
  observe self o c1 c2 token db = Ok (u, db') →
  let key := trim o.(o_target_key) in
  (∀ k, k ≠ key → db'.(target_health) !! k = db.(target_health) !! k) ∧
  if match db.(target_health) !! key with Some h => h.(h_revision) <? o.(o_revision) | None => true end
  then u.(accepted) = true ∧ db'.(target_health) !! key = Some u.(health) ∧
       u.(health).(h_revision) = o.(o_revision)
  else u.(accepted) = false ∧ db' = db ∧
       u.(duplicate) = match db.(target_health) !! key with
                       | Some h => o.(o_revision) =? h.(h_revision) | None => false end.
Proof. apply observe_newest. Qed.

(** ** Hysteresis *)

(** [n] equal results in a row at the end of a history, and anywhere in it. *)
Definition ends_with_run (b : bool) (n : nat) (bs : list bool) : Prop := ∃ pre, bs = pre ++ replicate n b.
Definition has_run (b : bool) (n : nat) (bs : list bool) : Prop :=
  ∃ pre post, bs = pre ++ replicate n b ++ post.

(** The specification: at some point [s] successes came in a row, and [f] failures
    in a row have not come since. *)
Definition healthy_by_history (s f : nat) (bs : list bool) : Prop :=
  ∃ before after, bs = before ++ replicate s true ++ after ∧ ¬ has_run false f after.

(** Equal results at the end of a history. *)
Definition trailing (b : bool) (bs : list bool) : nat :=
  foldl (λ n x, if eqb x b then S n else O) O bs.

Lemma trailing_snoc b bs x : trailing b (bs ++ [x]) = if eqb x b then S (trailing b bs) else O.
Proof. unfold trailing. by rewrite foldl_app. Qed.

Lemma replicate_snoc {A} n (x : A) : replicate (S n) x = replicate n x ++ [x].
Proof. induction n as [|n IH]; [done|]. cbn. by f_equal. Qed.

Lemma trailing_run b bs n : (n ≤ trailing b bs)%nat ↔ ends_with_run b n bs.
Proof.
  unfold ends_with_run. revert n. induction bs as [|x bs IH] using rev_ind; intros n.
  - cbn. split.
    + intros Hn. assert (n = 0%nat) as -> by lia. by exists [].
    + intros [pre E]. destruct n as [|n]; [lia|]. by destruct pre.
  - rewrite trailing_snoc. destruct n as [|n].
    + split; [intros _|intros; lia]. exists (bs ++ [x]). cbn. by rewrite app_nil_r.
    + destruct (eqb x b) eqn:Ex.
      * apply eqb_prop in Ex as ->. rewrite <- Nat.succ_le_mono, IH. split; intros [pre E].
        -- exists pre. by rewrite E, replicate_snoc, app_assoc.
        -- exists pre. rewrite replicate_snoc, app_assoc in E. by apply app_inj_tail in E as [-> _].
      * split; [lia|]. intros [pre E]. rewrite replicate_snoc, app_assoc in E.
        apply app_inj_tail in E as [_ ->]. by rewrite eqb_reflx in Ex.
Qed.

Lemma has_run_snoc b n bs x :
  has_run b n (bs ++ [x]) ↔ has_run b n bs ∨ ends_with_run b n (bs ++ [x]).
Proof.
  split.
  - intros (pre & post & E). destruct post as [|y post] using rev_ind.
    + right. exists pre. by rewrite app_nil_r in E.
    + left. exists pre, post. rewrite !app_assoc in E. apply app_inj_tail in E as [-> _].
      by rewrite !app_assoc.
  - intros [(pre & post & ->)|[pre E]].
    + exists pre, (post ++ [x]). by rewrite !app_assoc.
    + exists pre, []. by rewrite app_nil_r.
Qed.

Lemma healthy_snoc_true s f bs :
  (1 ≤ f)%nat →
  healthy_by_history s f (bs ++ [true]) ↔
  healthy_by_history s f bs ∨ ends_with_run true s (bs ++ [true]).
Proof.
  intros Hf. split.
  - intros (before & after & E & Hno). destruct after as [|y after _] using rev_ind.
    + right. exists before. by rewrite app_nil_r in E.
    + left. rewrite !app_assoc in E. apply app_inj_tail in E as [-> <-].
      exists before, after. split; [by rewrite app_assoc|]. intros Hr. apply Hno, has_run_snoc. by left.
  - intros [(before & after & -> & Hno)|[pre E]].
    + exists before, (after ++ [true]). split; [by rewrite !app_assoc|].
      rewrite has_run_snoc. intros [?|Hr]; [done|]. apply trailing_run in Hr. rewrite trailing_snoc in Hr. cbn in Hr. lia.
    + exists pre, []. split; [by rewrite app_nil_r|]. intros (a & b & E'). destruct f as [|f]; [lia|].
      by destruct a.
Qed.

(** A run of failures at the end lies after every run of successes. *)
Lemma trailing_after_run s before after :
  (1 ≤ s)%nat → trailing false (before ++ replicate s true ++ after) = trailing false after.
Proof.
  intros Hs. destruct s as [|s]; [lia|]. induction after as [|x after IH] using rev_ind.
  - rewrite app_nil_r, replicate_snoc, app_assoc. apply trailing_snoc.
  - rewrite !app_assoc, !trailing_snoc. destruct (eqb x false); [|done]. by rewrite <- IH, !app_assoc.
Qed.

Lemma healthy_snoc_false s f bs :
  (1 ≤ s)%nat →
  healthy_by_history s f (bs ++ [false]) ↔
  healthy_by_history s f bs ∧ (trailing false (bs ++ [false]) < f)%nat.
Proof.
  intros Hs. split.
  - intros (before & after & E & Hno). destruct after as [|y after _] using rev_ind.
    { destruct s as [|s]; [lia|]. rewrite app_nil_r, replicate_snoc, app_assoc in E.
      by apply app_inj_tail in E as [_ ?]. }
    rewrite !app_assoc in E. apply app_inj_tail in E as [-> <-]. split.
    + exists before, after. split; [by rewrite app_assoc|]. intros Hr. apply Hno, has_run_snoc. by left.
    + destruct (decide (f ≤ trailing false ((before ++ replicate s true) ++ after ++ [false]))%nat) as [Hle|]; [|rewrite <- app_assoc; lia].
      exfalso. apply Hno, has_run_snoc. right. apply trailing_run.
      by rewrite <- app_assoc, trailing_after_run in Hle.
  - intros [(before & after & -> & Hno) Hlt]. exists before, (after ++ [false]).
    split; [by rewrite !app_assoc|]. rewrite has_run_snoc. intros [?|Hr]; [done|].
    apply trailing_run in Hr. rewrite <- !app_assoc, trailing_after_run in Hlt by done. lia.
Qed.

(** *** Sequences of probes *)

Record probe := {
  pr_observation : TargetHealthObservation;
  pr_fence_clock : Z;
  pr_now : Z;
  pr_token : Z;
}.

Fixpoint observe_all (self : TargetHealthCatalog) (probes : list probe) (db : Database)
    : result CoordError Database :=
  match probes with
  | [] => Ok db
  | p :: probes =>
      '(_, db) ← observe self p.(pr_observation) p.(pr_fence_clock) p.(pr_now) p.(pr_token) db;
      observe_all self probes db
  end.

Definition outcome (p : probe) : bool := instantaneous_healthy p.(pr_observation).

(** Probes of one target, with growing revisions and no gap that makes the record
    stale; [last] is the revision and time of the one before. *)
Fixpoint in_time (key : rstr) (stale : Z) (last : option (Z * Z)) (probes : list probe) : Prop :=
  match probes with
  | [] => True
  | p :: probes =>
      trim p.(pr_observation).(o_target_key) = key ∧
      match last with
      | None => True
      | Some (rev, t) => rev < p.(pr_observation).(o_revision) ∧ p.(pr_now) - t < stale
      end ∧
      in_time key stale (Some (p.(pr_observation).(o_revision), p.(pr_now))) probes
  end.

(** The record of a target says what its history says. *)
Definition tracks (self : TargetHealthCatalog) (bs : list bool) (h : TargetHealth) : Prop :=
  let s := Z.to_nat self.(success_threshold) in
  let f := Z.to_nat self.(failure_threshold) in
  h.(h_consecutive_successes) = Z.of_nat (Nat.min (trailing true bs) s) ∧
  h.(h_consecutive_failures) = Z.of_nat (Nat.min (trailing false bs) f) ∧
  (h.(h_effective_healthy) = true ↔ healthy_by_history s f bs).

Lemma observed_tracks self bs h o now at_ eff succ fl :
  catalog_ok self → tracks self bs h →
  (succ, fl, eff) =
    (if instantaneous_healthy o then
       let n := Z.min (saturating_add U32_MAX h.(h_consecutive_successes) 1) self.(success_threshold) in
       (n, 0, h.(h_effective_healthy) || (self.(success_threshold) <=? n))
     else
       let n := Z.min (saturating_add U32_MAX h.(h_consecutive_failures) 1) self.(failure_threshold) in
       (0, n, h.(h_effective_healthy) && (n <? self.(failure_threshold)))) →
  tracks self (bs ++ [instantaneous_healthy o]) (observed o eff succ fl now at_).
Proof.
  intros (Hs & Hf & _) (H1 & H2 & H3) E. unfold tracks, saturating_add in *. cbn -[Nat.min].
  destruct (instantaneous_healthy o); injection E as -> -> ->; rewrite !trailing_snoc; cbn -[Nat.min];
    (split; [lia|]); (split; [lia|]).
  - rewrite healthy_snoc_true, <- H3, <- trailing_run, trailing_snoc, orb_true_iff, Z.leb_le by lia.
    cbn -[Nat.min]. split; (intros [?|?]; [by left|right; lia]).
  - rewrite healthy_snoc_false, <- H3, trailing_snoc, andb_true_iff, Z.ltb_lt by lia.
    cbn -[Nat.min]. split; (intros [? ?]; split; [done|lia]).
Qed.

(** An unknown target is one with an empty history. *)
Definition unknown (o : TargetHealthObservation) : TargetHealth := observed o false 0 0 0 0.

Lemma unknown_tracks self o : catalog_ok self → tracks self [] (unknown o).
Proof.
  intros (Hs & Hf & _). split; [done|]. split; [done|]. cbn. split; [done|].
  intros (before & after & E & _). symmetry in E. apply app_nil in E as [_ E]. apply app_nil in E as [E _].
  destruct (Z.to_nat self.(success_threshold)) eqn:Es; [lia|done].
Qed.

Lemma first_update o now s f u :
  1 ≤ s → 1 ≤ f → calculate_update None o now s f = Ok u →
  ∃ eff succ fl, u.(health) = observed o eff succ fl now now ∧
    (succ, fl, eff) =
      if instantaneous_healthy o then
        let n := Z.min (saturating_add U32_MAX 0 1) s in (n, 0, false || (s <=? n))
      else let n := Z.min (saturating_add U32_MAX 0 1) f in (0, n, false && (n <? f)).
Proof.
  intros Hs Hf [= <-]. unfold new_health. cbn. eexists _, _, _. split; [done|].
  unfold saturating_add. destruct (instantaneous_healthy o); cbn.
  - rewrite andb_true_r. f_equal; [f_equal; lia|]. destruct (Z.leb_spec s 1), (Z.leb_spec s (Z.min (Z.min U32_MAX (0 + 1)) s)); lia || done.
  - rewrite andb_false_r. f_equal. f_equal. lia.
Qed.

Lemma fresh_not_stale h now last t :
  h.(h_last_probe) = Some last → now - last < t → 1 ≤ t → apply_staleness h now t = h.
Proof.
  intros E Ht H1. unfold apply_staleness. rewrite E. unfold saturating_sub.
  by rewrite (proj2 (Z.leb_gt _ _)) by lia.
Qed.

(** One timely probe extends the history. *)
Lemma observe_tracks self p db db' u key bs last :
  catalog_ok self →
  observe self p.(pr_observation) p.(pr_fence_clock) p.(pr_now) p.(pr_token) db = Ok (u, db') →
  in_time key self.(stale_after_seconds) last [p] →
  match db.(target_health) !! key with
  | None => bs = [] ∧ last = None
  | Some h => tracks self bs h ∧ ∃ t, last = Some (h.(h_revision), t) ∧ h.(h_last_probe) = Some t
  end →
  ∃ h, db'.(target_health) !! key = Some h ∧ tracks self (bs ++ [outcome p]) h ∧
    h.(h_revision) = p.(pr_observation).(o_revision) ∧ h.(h_last_probe) = Some p.(pr_now).
Proof.
  intros Hc Hobs (Hk & Ht & _) Hdb. pose proof (observe_newest _ _ _ _ _ _ _ _ Hobs) as [_ Hw].
  rewrite Hk in Hw. apply observe_shape in Hobs as (o' & Hn & _ & _ & cur & Hcur & Hu & _).
  destruct (normalize_observation_Ok _ _ Hn) as (Er & _ & _ & Ek & Ei). rewrite Hk in Ek.
  apply read_health_Some in Hcur. rewrite Ek in Hcur. subst cur. unfold outcome. rewrite <- Ei.
  pose proof Hc as (Hs & Hf & Hst). destruct (db.(target_health) !! key) as [h|] eqn:Eh.
  - destruct Hdb as [Htr (t & -> & Hlast)]. destruct Ht as [Hrev Hgap].
    rewrite (proj2 (Z.ltb_lt _ _) Hrev) in Hw. destruct Hw as (_ & Hrow & Hr').
    exists (health u). split; [done|]. cbn [fmap option_fmap option_map] in Hu.
    rewrite (fresh_not_stale h _ t) in Hu by (done || lia).
    destruct (calculate_update_newer h o' (pr_now p) self.(success_threshold) self.(failure_threshold))
      as (eff & succ & fl & at_ & Eu & _ & Et); [lia|].
    rewrite Eu in Hu. injection Hu as <-. cbn. split; [|done]. by eapply observed_tracks.
  - destruct Hdb as [-> ->]. destruct Hw as (_ & Hrow & Hr'). exists (health u). split; [done|].
    cbn [fmap option_fmap option_map] in Hu. destruct (first_update o' (pr_now p) self.(success_threshold)
      self.(failure_threshold) u) as (eff & succ & fl & Eh' & Et); [lia|lia|done|].
    rewrite Eh' in *. split; [|done].
    apply (observed_tracks self [] (unknown o')); [done|by apply unknown_tracks|done].
Qed.

Lemma observe_all_tracks self probes db db' key bs last :
  catalog_ok self → in_time key self.(stale_after_seconds) last probes →
  match db.(target_health) !! key with
  | None => bs = [] ∧ last = None
  | Some h => tracks self bs h ∧ ∃ t, last = Some (h.(h_revision), t) ∧ h.(h_last_probe) = Some t
  end →
  observe_all self probes db = Ok db' →
  match db'.(target_health) !! key with
  | None => bs ++ (outcome <$> probes) = []
  | Some h => tracks self (bs ++ (outcome <$> probes)) h
  end.
Proof.
  intros Hc. revert db bs last. induction probes as [|p probes IH]; intros db bs last Ht Hdb E.
  - injection E as <-. rewrite app_nil_r. destruct (_ !! key); naive_solver.
  - cbn [observe_all] in E. destruct (observe _ _ _ _ _ _) as [[u db1]|] eqn:Eo; [|done]. cbn in E.
    destruct Ht as (Hk & Hl & Ht).
    destruct (observe_tracks self p db db1 u key bs last Hc Eo) as (h & Eh & Htr & Er & Ep); [done|done|].
    rewrite fmap_cons, cons_middle, app_assoc. eapply (IH db1); [exact Ht| |exact E].
    rewrite Eh. split; [done|]. exists (pr_now p). by rewrite Er.
Qed.

(** Hysteresis: after timely probes of a target, its record is effectively
    healthy exactly when at some point [success_threshold] probes in a row succeeded
    and [failure_threshold] in a row have not failed since; the counters are the
    lengths of the current runs, cut at the thresholds. *)
Theorem health_follows_history (self : TargetHealthCatalog) (probes : list probe)
    (db db' : Database) (key : rstr) :
  catalog_ok self → db.(target_health) !! key = None →
  in_time key self.(stale_after_seconds) None probes → probes ≠ [] →
  observe_all self probes db = Ok db' →
  ∃ h, db'.(target_health) !! key = Some h ∧
    let s := Z.to_nat self.(success_threshold) in
    let f := Z.to_nat self.(failure_threshold) in
    let bs := outcome <$> probes in
    (h.(h_effective_healthy) = true ↔ healthy_by_history s f bs) ∧
    h.(h_consecutive_successes) = Z.of_nat (Nat.min (trailing true bs) s) ∧
    h.(h_consecutive_failures) = Z.of_nat (Nat.min (trailing false bs) f).
Proof.
  intros Hc Hn Ht Hne E. pose proof (observe_all_tracks self probes db db' key [] None Hc Ht) as H.
  rewrite Hn in H. specialize (H (conj eq_refl eq_refl) E). cbn [app] in H.
  destruct (db'.(target_health) !! key) as [h|]; [|by apply fmap_nil_inv in H].
  exists h. destruct H as (? & ? & ?). done.
Qed.

(** ** Witnesses *)

Definition ex_catalog : TargetHealthCatalog :=
  {| th_coordinator := ex_a; success_threshold := 2; failure_threshold := 2; stale_after_seconds := 10 |}.

Definition ex_observation (up : bool) (revision : Z) : TargetHealthObservation :=
  {| o_target_key := lit " db:1 "; o_member_alive := true; o_control_channel_healthy := true;
     o_application_healthy := up; o_weight := 1; o_revision := revision; o_error_summary := None |}.

Definition ex_probe (up : bool) (revision now : Z) : probe :=
  {| pr_observation := ex_observation up revision; pr_fence_clock := now; pr_now := now; pr_token := 1 |}.

Definition ex_probes : list probe := [ex_probe true 1 125; ex_probe true 2 126; ex_probe false 3 127].

Lemma observe_newest_wins_witness :
  ∃ u db', observe ex_catalog (ex_observation true 1) 125 125 1 ex_led = Ok (u, db') ∧ u.(accepted) = true.
Proof.
  eexists _, _. split; [vm_compute; reflexivity|].
  refine (proj1 (proj2 (observe_newest_wins ex_catalog (ex_observation true 1) 125 125 1 ex_led _ _ _))).
  vm_compute. reflexivity.
Defined.

Definition ex_probed : Database :=
  match observe_all ex_catalog ex_probes ex_led with Ok db => db | Err _ => ex_led end.

Lemma health_follows_history_witness :
  ∃ h, ex_probed.(target_health) !! lit "db:1" = Some h ∧ h.(h_effective_healthy) = true.
Proof.
  destruct (health_follows_history ex_catalog ex_probes ex_led ex_probed (lit "db:1")) as (h & Eh & Hh & _).
  - unfold catalog_ok. cbn. lia.
  - vm_compute. reflexivity.
  - cbn. repeat split; lia.
  - discriminate.
  - vm_compute. reflexivity.
  - exists h. split; [exact Eh|]. apply Hh. exists [], [false]. split; [reflexivity|].
    intros (pre & post & E). change (Z.to_nat (failure_threshold ex_catalog)) with 2%nat in E.
    apply (f_equal length) in E. rewrite !length_app, length_replicate in E. cbn in E. lia.
Defined.
