(* ===== verification/FleetCoordination.v ===== *)
(** * Fleet generations and conflicts ([fleet_coordination.rs])

    Each source of fleet resources has one row with its newest generation and the
    progress of its synchronisation; conflicts found on the way are kept in a ledger.
    Both are written under the fence of the leader. *)

From S2P Require Import Prelude RustStr HaTables HaCoordination JobLeases.

Local Open Scope Z_scope.
Set Default Proof Using "Type".

Definition MAX_REVISION_BYTES : Z := 256.
Definition MAX_RESOURCE_KIND_BYTES : Z := 64.
Definition MAX_RESOURCE_ID_BYTES : Z := 256.
Definition MAX_CONFLICT_CODE_BYTES : Z := 96.
Definition MAX_DETAIL_SUMMARY_CHARS : Z := 512.
Definition MAX_RESOLUTION_CHARS : Z := 512.

(** ** Data *)

Definition sync_state_as_str (self : FleetSyncState) : rstr :=
  match self with
  | SyncPending => lit "pending"
  | SyncApplying => lit "applying"
  | SyncReady => lit "ready"
  | SyncConflicted => lit "conflicted"
  | SyncFailed => lit "failed"
  end.

Definition sync_state_from_str (value : rstr) : option FleetSyncState :=
  if bool_decide (value = lit "pending") then Some SyncPending
  else if bool_decide (value = lit "applying") then Some SyncApplying
  else if bool_decide (value = lit "ready") then Some SyncReady
  else if bool_decide (value = lit "conflicted") then Some SyncConflicted
  else if bool_decide (value = lit "failed") then Some SyncFailed
  else None.

Definition conflict_state_as_str (self : FleetConflictState) : rstr :=
  match self with ConflictOpen => lit "open" | ConflictResolved => lit "resolved" end.

Definition conflict_state_from_str (value : rstr) : option FleetConflictState :=
  if bool_decide (value = lit "open") then Some ConflictOpen
  else if bool_decide (value = lit "resolved") then Some ConflictResolved
  else None.

Record FleetGenerationInput := {
  gi_source_instance_id : rstr;
  gi_generation : Z;
  gi_revision : rstr;
  gi_resource_count : Z;
  gi_sync_state : FleetSyncState;
  gi_sync_progress : Z;
}.

Record FleetGenerationUpdate := {
  gu_accepted : bool;
  gu_duplicate : bool;
  gu_generation : FleetGeneration;
}.

Record FleetConflictInput := {
  ci_conflict_id : Z;
  ci_source_instance_id : rstr;
  ci_generation : Z;
  ci_resource_kind : rstr;
  ci_resource_id : rstr;
  ci_owner_instance_id : option rstr;
  ci_conflict_code : rstr;
  ci_detail_summary : rstr;
}.

Record FleetConflictWrite := { cw_duplicate : bool; cw_conflict : FleetConflict }.

Record FleetCoordination := { fc_coordinator : HaCoordinator }.

(** ** Normalisation *)

(** The loop of [normalize_summary]; [output] is kept with its last character
    first. *)
Fixpoint summary_loop (maximum : Z) (output : rstr) (previous_space : bool) (s : rstr) : rstr :=
  match s with
  | [] => rev output
  | c :: s =>
      let c := if is_control c then 32 else c in
      let '(output, previous_space) :=
        if is_whitespace c then
          if previous_space then (output, previous_space) else (32 :: output, true)
        else (c :: output, false) in
      if maximum <=? len output then rev output else summary_loop maximum output previous_space s
  end.

Definition normalize_summary (value : rstr) (maximum : Z) : result CoordError rstr :=
  let output := trim (summary_loop maximum [] false (trim value)) in
  _ ← ensure (negb (str_len output =? 0)) SummaryRequired;
  Ok output.

Definition validate_sync_state (state : FleetSyncState) (progress : Z) : result CoordError unit :=
  _ ← ensure (progress <=? 100) ProgressTooLarge;
  match state with
  | SyncPending => ensure (progress =? 0) ProgressMismatch
  | SyncApplying => ensure (progress <? 100) ProgressMismatch
  | SyncReady => ensure (progress =? 100) ProgressMismatch
  | SyncConflicted | SyncFailed => Ok tt
  end.

Definition normalize_generation_input (input : FleetGenerationInput)
    : result CoordError FleetGenerationInput :=
  source ← normalize_identifier input.(gi_source_instance_id) MAX_INSTANCE_ID_BYTES;
  revision ← normalize_identifier input.(gi_revision) MAX_REVISION_BYTES;
  _ ← ensure (input.(gi_generation) <=? I64_MAX) GenerationTooLarge;
  _ ← ensure (input.(gi_resource_count) <=? I64_MAX) ResourceCountTooLarge;
  _ ← validate_sync_state input.(gi_sync_state) input.(gi_sync_progress);
  Ok {| gi_source_instance_id := source; gi_generation := input.(gi_generation);
        gi_revision := revision; gi_resource_count := input.(gi_resource_count);
        gi_sync_state := input.(gi_sync_state); gi_sync_progress := input.(gi_sync_progress) |}.

Definition normalize_conflict_input (input : FleetConflictInput)
    : result CoordError FleetConflictInput :=
  _ ← ensure (negb (input.(ci_conflict_id) =? 0)) ConflictIdNil;
  source ← normalize_identifier input.(ci_source_instance_id) MAX_INSTANCE_ID_BYTES;
  kind ← normalize_identifier input.(ci_resource_kind) MAX_RESOURCE_KIND_BYTES;
  id ← normalize_identifier input.(ci_resource_id) MAX_RESOURCE_ID_BYTES;
  owner ← match input.(ci_owner_instance_id) with
          | Some owner => owner ← normalize_identifier owner MAX_INSTANCE_ID_BYTES; Ok (Some owner)
          | None => Ok None
          end;
  code ← normalize_identifier input.(ci_conflict_code) MAX_CONFLICT_CODE_BYTES;
  detail ← normalize_summary input.(ci_detail_summary) MAX_DETAIL_SUMMARY_CHARS;
  _ ← ensure (input.(ci_generation) <=? I64_MAX) GenerationTooLarge;
  Ok {| ci_conflict_id := input.(ci_conflict_id); ci_source_instance_id := source;
        ci_generation := input.(ci_generation); ci_resource_kind := kind; ci_resource_id := id;
        ci_owner_instance_id := owner; ci_conflict_code := code; ci_detail_summary := detail |}.

(** ** Transitions *)

Definition valid_state_transition (current next : FleetSyncState) : bool :=
  bool_decide (current = next) ||
  match current, next with
  | SyncPending, SyncApplying | SyncPending, SyncConflicted | SyncPending, SyncFailed
  | SyncApplying, SyncReady | SyncApplying, SyncConflicted | SyncApplying, SyncFailed
  | SyncConflicted, SyncApplying | SyncConflicted, SyncReady | SyncConflicted, SyncFailed => true
  | _, _ => false
  end.

Definition same_owner (current : FleetGeneration) (instance incarnation : rstr) : bool :=
  bool_decide (current.(g_owner_instance_id) = instance) &&
  bool_decide (current.(g_owner_incarnation_id) = incarnation).

Definition calculate_generation_update (current : option FleetGeneration) (input : FleetGenerationInput)
    (instance incarnation : rstr) (fencing_token now : Z) : result CoordError FleetGenerationUpdate :=
  let written :=
    {| gu_accepted := true; gu_duplicate := false;
       gu_generation :=
         {| g_source_instance_id := input.(gi_source_instance_id);
            g_generation := input.(gi_generation); g_revision := input.(gi_revision);
            g_owner_instance_id := instance; g_owner_incarnation_id := incarnation;
            g_fencing_token := fencing_token; g_resource_count := input.(gi_resource_count);
            g_sync_state := input.(gi_sync_state); g_sync_progress := input.(gi_sync_progress);
            g_updated := now |} |} in
  match current with
  | None => Ok written
  | Some current =>
      if input.(gi_generation) <? current.(g_generation) then
        Ok {| gu_accepted := false; gu_duplicate := false; gu_generation := current |}
      else if input.(gi_generation) =? current.(g_generation) then
        _ ← ensure (bool_decide (input.(gi_revision) = current.(g_revision))) BoundToAnotherRevision;
        _ ← ensure (input.(gi_resource_count) =? current.(g_resource_count)) BoundToAnotherCount;
        _ ← ensure (current.(g_sync_progress) <=? input.(gi_sync_progress)) ProgressBackwards;
        _ ← ensure (valid_state_transition current.(g_sync_state) input.(gi_sync_state)) TransitionInvalid;
        _ ← ensure (negb (fencing_token <? current.(g_fencing_token))) NewerFencingToken;
        _ ← ensure (negb (current.(g_fencing_token) =? fencing_token) ||
                    same_owner current instance incarnation) FencingTokenReused;
        if bool_decide (current.(g_sync_state) = input.(gi_sync_state)) &&
           (current.(g_sync_progress) =? input.(gi_sync_progress)) &&
           same_owner current instance incarnation &&
           (current.(g_fencing_token) =? fencing_token)
        then Ok {| gu_accepted := false; gu_duplicate := true; gu_generation := current |}
        else Ok written
      else Ok written
  end.

Definition new_conflict (input : FleetConflictInput) (now : Z) : FleetConflict :=
  {| c_conflict_id := input.(ci_conflict_id); c_source_instance_id := input.(ci_source_instance_id);
     c_generation := input.(ci_generation); c_resource_kind := input.(ci_resource_kind);
     c_resource_id := input.(ci_resource_id); c_owner_instance_id := input.(ci_owner_instance_id);
     c_conflict_code := input.(ci_conflict_code); c_detail_summary := input.(ci_detail_summary);
     c_state := ConflictOpen; c_detected := now; c_resolved := None; c_resolution := None |}.

Definition conflict_is (current : FleetConflict) (input : FleetConflictInput) : bool :=
  bool_decide (current.(c_source_instance_id) = input.(ci_source_instance_id)) &&
  (current.(c_generation) =? input.(ci_generation)) &&
  bool_decide (current.(c_resource_kind) = input.(ci_resource_kind)) &&
  bool_decide (current.(c_resource_id) = input.(ci_resource_id)) &&
  bool_decide (current.(c_owner_instance_id) = input.(ci_owner_instance_id)) &&
  bool_decide (current.(c_conflict_code) = input.(ci_conflict_code)) &&
  bool_decide (current.(c_detail_summary) = input.(ci_detail_summary)).

Definition ensure_conflict_identity (current : FleetConflict) (input : FleetConflictInput)
    : result CoordError unit :=
  ensure (conflict_is current input) BoundToAnotherConflict.

(** ** Rows *)

Definition sqlite_progress (value : Z) : result CoordError Z :=
  if (0 <=? value) && (value <=? 100) then Ok value else Err InvalidRow.

Definition sqlite_generation_row (row : FleetGeneration) : result CoordError FleetGeneration :=
  _ ← nonnegative row.(g_generation);
  _ ← positive row.(g_fencing_token);
  _ ← nonnegative row.(g_resource_count);
  _ ← ok_or (sync_state_from_str (sync_state_as_str row.(g_sync_state))) InvalidRow;
  _ ← sqlite_progress row.(g_sync_progress);
  _ ← nonnegative row.(g_updated);
  Ok row.

Definition sqlite_conflict_row (row : FleetConflict) : result CoordError FleetConflict :=
  _ ← nonnegative row.(c_generation);
  _ ← ok_or (conflict_state_from_str (conflict_state_as_str row.(c_state))) InvalidRow;
  _ ← nonnegative row.(c_detected);
  _ ← match row.(c_resolved) with Some t => t ← nonnegative t; Ok (Some t) | None => Ok None end;
  Ok row.

Definition read_sqlite_generation (db : Database) (source : rstr)
    : result CoordError (option FleetGeneration) :=
  match db.(fleet_generations) !! source with
  | None => Ok None
  | Some row => g ← sqlite_generation_row row; Ok (Some g)
  end.

Definition read_sqlite_conflict (db : Database) (conflict_id : Z)
    : result CoordError (option FleetConflict) :=
  match db.(fleet_conflicts) !! conflict_id with
  | None => Ok None
  | Some row => c ← sqlite_conflict_row row; Ok (Some c)
  end.

Definition write_sqlite_generation (db : Database) (g : FleetGeneration) : result CoordError Database :=
  _ ← as_i64 g.(g_generation);
  _ ← as_i64 g.(g_fencing_token);
  _ ← as_i64 g.(g_resource_count);
  _ ← as_i64 g.(g_updated);
  Ok (set_fleet db (<[g.(g_source_instance_id) := g]> db.(fleet_generations)) db.(fleet_conflicts)).

(** [COUNT] of the open conflicts of one generation of a source. *)
Definition open_conflict (source : rstr) (generation : Z) (c : FleetConflict) : bool :=
  bool_decide (c.(c_source_instance_id) = source) && (c.(c_generation) =? generation) &&
  bool_decide (c.(c_state) = ConflictOpen).

Definition ensure_no_open_conflicts_for_ready_sqlite (db : Database) (g : FleetGeneration)
    : result CoordError unit :=
  if bool_decide (g.(g_sync_state) ≠ SyncReady) then Ok tt
  else
    _ ← as_i64 g.(g_generation);
    ensure (map_count (open_conflict g.(g_source_instance_id) g.(g_generation))
              db.(fleet_conflicts) =? 0) OpenConflicts.

Definition ensure_sqlite_generation_matches (db : Database) (source : rstr) (generation : Z)
    : result CoordError unit :=
  current ← read_sqlite_generation db source;
  current ← ok_or current GenerationMissing;
  ensure (current.(g_generation) =? generation) GenerationStale.

Definition write_sqlite_conflict (db : Database) (c : FleetConflict) : result CoordError Database :=
  _ ← as_i64 c.(c_generation);
  _ ← as_i64 c.(c_detected);
  _ ← match c.(c_resolved) with Some t => t ← as_i64 t; Ok (Some t) | None => Ok None end;
  Ok (set_fleet db db.(fleet_generations) (<[c.(c_conflict_id) := c]> db.(fleet_conflicts))).

(** The columns that [UPDATE fleet_generations] sets; [clock] is SQLite's clock at
    the statement. *)
Definition conflicted_generation (row : FleetGeneration) (instance incarnation : rstr)
    (fencing_token clock : Z) : FleetGeneration :=
  {| g_source_instance_id := row.(g_source_instance_id); g_generation := row.(g_generation);
     g_revision := row.(g_revision); g_owner_instance_id := instance;
     g_owner_incarnation_id := incarnation; g_fencing_token := fencing_token;
     g_resource_count := row.(g_resource_count); g_sync_state := SyncConflicted;
     g_sync_progress := row.(g_sync_progress); g_updated := clock |}.

Definition mark_sqlite_generation_conflicted (db : Database) (source : rstr) (generation : Z)
    (instance incarnation : rstr) (fencing_token clock : Z) : result CoordError Database :=
  _ ← as_i64 generation;
  _ ← as_i64 fencing_token;
  match db.(fleet_generations) !! source with
  | Some row =>
      if row.(g_generation) =? generation then
        let row := conflicted_generation row instance incarnation fencing_token clock in
        Ok (set_fleet db (<[source := row]> db.(fleet_generations)) db.(fleet_conflicts))
      else Err GenerationDisappeared
  | None => Err GenerationDisappeared
  end.

Definition update_sqlite_conflict_resolution (db : Database) (c : FleetConflict)
    : result CoordError Database :=
  _ ← match c.(c_resolved) with Some t => t ← as_i64 t; Ok (Some t) | None => Ok None end;
  match db.(fleet_conflicts) !! c.(c_conflict_id) with
  | Some row =>
      if bool_decide (row.(c_state) = ConflictOpen) then
        let row :=
          {| c_conflict_id := row.(c_conflict_id); c_source_instance_id := row.(c_source_instance_id);
             c_generation := row.(c_generation); c_resource_kind := row.(c_resource_kind);
             c_resource_id := row.(c_resource_id); c_owner_instance_id := row.(c_owner_instance_id);
             c_conflict_code := row.(c_conflict_code); c_detail_summary := row.(c_detail_summary);
             c_state := c.(c_state); c_detected := row.(c_detected); c_resolved := c.(c_resolved);
             c_resolution := c.(c_resolution) |} in
        Ok (set_fleet db db.(fleet_generations) (<[c.(c_conflict_id) := row]> db.(fleet_conflicts)))
      else Err ConflictChanged
  | None => Err ConflictChanged
  end.

(** ** Operations *)

Definition record_generation (self : FleetCoordination) (input : FleetGenerationInput)
    (fence_clock now_clock fencing_token : Z) (db : Database)
    : result CoordError (FleetGenerationUpdate * Database) :=
  input ← normalize_generation_input input;
  _ ← ensure (0 <? fencing_token) FenceNotPositive;
  _ ← assert_sqlite_transaction_fence self.(fc_coordinator) fencing_token fence_clock db;
  now ← sqlite_now now_clock;
  current ← read_sqlite_generation db input.(gi_source_instance_id);
  update ← calculate_generation_update current input self.(fc_coordinator).(instance_id)
             self.(fc_coordinator).(incarnation_id) fencing_token now;
  if update.(gu_accepted) then
    _ ← ensure_no_open_conflicts_for_ready_sqlite db update.(gu_generation);
    db ← write_sqlite_generation db update.(gu_generation);
    Ok (update, db)
  else Ok (update, db).

Definition record_conflict (self : FleetCoordination) (input : FleetConflictInput)
    (fence_clock now_clock mark_clock fencing_token : Z) (db : Database)
    : result CoordError (FleetConflictWrite * Database) :=
  input ← normalize_conflict_input input;
  _ ← ensure (0 <? fencing_token) FenceNotPositive;
  _ ← assert_sqlite_transaction_fence self.(fc_coordinator) fencing_token fence_clock db;
  _ ← ensure_sqlite_generation_matches db input.(ci_source_instance_id) input.(ci_generation);
  current ← read_sqlite_conflict db input.(ci_conflict_id);
  match current with
  | Some current =>
      _ ← ensure_conflict_identity current input;
      Ok ({| cw_duplicate := true; cw_conflict := current |}, db)
  | None =>
      now ← sqlite_now now_clock;
      let conflict := new_conflict input now in
      db ← write_sqlite_conflict db conflict;
      db ← mark_sqlite_generation_conflicted db conflict.(c_source_instance_id) conflict.(c_generation)
             self.(fc_coordinator).(instance_id) self.(fc_coordinator).(incarnation_id)
             fencing_token mark_clock;
      Ok ({| cw_duplicate := false; cw_conflict := conflict |}, db)
  end.

Definition resolve_conflict (self : FleetCoordination) (conflict_id : Z) (resolution : rstr)
    (fence_clock now_clock fencing_token : Z) (db : Database)
    : result CoordError (option FleetConflictWrite * Database) :=
  resolution ← normalize_summary resolution MAX_RESOLUTION_CHARS;
  _ ← ensure (0 <? fencing_token) FenceNotPositive;
  _ ← assert_sqlite_transaction_fence self.(fc_coordinator) fencing_token fence_clock db;
  conflict ← read_sqlite_conflict db conflict_id;
  match conflict with
  | None => Ok (None, db)
  | Some conflict =>
      if bool_decide (conflict.(c_state) = ConflictResolved) then
        _ ← ensure (bool_decide (conflict.(c_resolution) = Some resolution)) ResolvedDifferently;
        Ok (Some {| cw_duplicate := true; cw_conflict := conflict |}, db)
      else
        now ← sqlite_now now_clock;
        let conflict :=
          {| c_conflict_id := conflict.(c_conflict_id);
             c_source_instance_id := conflict.(c_source_instance_id);
             c_generation := conflict.(c_generation); c_resource_kind := conflict.(c_resource_kind);
             c_resource_id := conflict.(c_resource_id);
             c_owner_instance_id := conflict.(c_owner_instance_id);
             c_conflict_code := conflict.(c_conflict_code);
             c_detail_summary := conflict.(c_detail_summary); c_state := ConflictResolved;
             c_detected := conflict.(c_detected); c_resolved := Some now;
             c_resolution := Some resolution |} in
        db ← update_sqlite_conflict_resolution db conflict;
        Ok (Some {| cw_duplicate := false; cw_conflict := conflict |}, db)
  end.

Definition generations (db : Database) : result CoordError (list FleetGeneration) :=
  collect sqlite_generation_row
    (merge_sort (λ a b, Is_true (lex_le (as_bytes a.(g_source_instance_id)) (as_bytes b.(g_source_instance_id))))
      (map_to_list db.(fleet_generations)).*2).

(** Newest first, then by identifier. *)
Definition conflicts (source : option rstr) (state : option FleetConflictState) (db : Database)
    : result CoordError (list FleetConflict) :=
  source ← match source with
           | Some source => source ← normalize_identifier source MAX_INSTANCE_ID_BYTES; Ok (Some source)
           | None => Ok None
           end;
  collect sqlite_conflict_row
    (merge_sort (λ a b, Is_true (lex_le [- a.(c_detected); a.(c_conflict_id)]
                                        [- b.(c_detected); b.(c_conflict_id)]))
      (filter (λ c, Is_true (from_option (λ s, bool_decide (s = c.(c_source_instance_id))) true source &&
                             from_option (λ s, bool_decide (s = c.(c_state))) true state))
        (map_to_list db.(fleet_conflicts)).*2)).

(** ** What an operation does to the tables *)

(** Within one generation, a state follows a state. *)
Definition sync_step (a b : FleetSyncState) : Prop :=
  valid_state_transition a b = true ∨ b = SyncConflicted.

(** [g'] is the same generation further on, or a newer one. *)
Definition generation_le (g g' : FleetGeneration) : Prop :=
  g.(g_generation) < g'.(g_generation) ∨
  g.(g_generation) = g'.(g_generation) ∧ g.(g_revision) = g'.(g_revision) ∧
  g.(g_resource_count) = g'.(g_resource_count) ∧ g.(g_sync_progress) ≤ g'.(g_sync_progress) ∧
  rtc sync_step g.(g_sync_state) g'.(g_sync_state).

(** Written by the process that passes the fence under [token]. *)
Definition owned (self : HaCoordinator) (token : Z) (g : FleetGeneration) : Prop :=
  g.(g_fencing_token) = token ∧ g.(g_owner_instance_id) = self.(instance_id) ∧
  g.(g_owner_incarnation_id) = self.(incarnation_id).

(** [c'] is [c] with its resolution. *)
Definition conflict_resolved (c c' : FleetConflict) : Prop :=
  c.(c_state) = ConflictOpen ∧
  ∃ now resolution, 0 ≤ now ∧
    c' = {| c_conflict_id := c.(c_conflict_id); c_source_instance_id := c.(c_source_instance_id);
            c_generation := c.(c_generation); c_resource_kind := c.(c_resource_kind);
            c_resource_id := c.(c_resource_id); c_owner_instance_id := c.(c_owner_instance_id);
            c_conflict_code := c.(c_conflict_code); c_detail_summary := c.(c_detail_summary);
            c_state := ConflictResolved; c_detected := c.(c_detected); c_resolved := Some now;
            c_resolution := Some resolution |}.

Definition has_open (source : rstr) (generation : Z) (cs : gmap Z FleetConflict) : Prop :=
  ∃ id c, cs !! id = Some c ∧ open_conflict source generation c = true.

Inductive fleet_effect (self : HaCoordinator) (token : Z) (db : Database) : Database → Prop :=
  | fe_same : fleet_effect self token db db
  | fe_generation g :
      generation_row_ok g → owned self token g →
      (∀ old, db.(fleet_generations) !! g.(g_source_instance_id) = Some old → generation_le old g) →
      (g.(g_sync_state) = SyncReady → ¬ has_open g.(g_source_instance_id) g.(g_generation) db.(fleet_conflicts)) →
      fleet_effect self token db
        (set_fleet db (<[g.(g_source_instance_id) := g]> db.(fleet_generations)) db.(fleet_conflicts))
  | fe_conflict k old g c :
      db.(fleet_generations) !! k = Some old → db.(fleet_conflicts) !! c.(c_conflict_id) = None →
      (generation_row_ok old → generation_row_ok g) → owned self token g → conflict_row_ok c →
      g.(g_source_instance_id) = old.(g_source_instance_id) → generation_le old g →
      g.(g_sync_state) = SyncConflicted →
      c.(c_source_instance_id) = k → c.(c_generation) = g.(g_generation) →
      fleet_effect self token db
        (set_fleet db (<[k := g]> db.(fleet_generations)) (<[c.(c_conflict_id) := c]> db.(fleet_conflicts)))
  | fe_resolve old c :
      db.(fleet_conflicts) !! old.(c_conflict_id) = Some old → conflict_resolved old c →
      fleet_effect self token db
        (set_fleet db db.(fleet_generations) (<[old.(c_conflict_id) := c]> db.(fleet_conflicts))).

(** ** Rows read back *)

Lemma sync_state_round_trip s : sync_state_from_str (sync_state_as_str s) = Some s.
Proof. by destruct s. Qed.
Lemma conflict_state_round_trip s : conflict_state_from_str (conflict_state_as_str s) = Some s.
Proof. by destruct s. Qed.

Lemma sqlite_progress_Ok v w : sqlite_progress v = Ok w ↔ w = v ∧ 0 ≤ v ≤ 100.
Proof. unfold sqlite_progress. repeat zcase; cbn; naive_solver lia. Qed.

Lemma generation_row_Ok row row' :
  sqlite_generation_row row = Ok row' → row' = row ∧ generation_row_ok row.
Proof.
  unfold sqlite_generation_row. intros H. repeat bind_inv H. injection H as <-.
  rewrite positive_Ok, !nonnegative_Ok, sqlite_progress_Ok in *. unfold generation_row_ok. naive_solver.
Qed.

Lemma generation_row_read row : generation_row_ok row → sqlite_generation_row row = Ok row.
Proof.
  intros (H1 & H2 & H3 & H4 & H5). unfold sqlite_generation_row.
  rewrite positive_pos, !nonnegative_nonneg, sync_state_round_trip by done. cbn.
  by rewrite (proj2 (sqlite_progress_Ok _ (g_sync_progress row))).
Qed.

Lemma conflict_row_Ok row row' : sqlite_conflict_row row = Ok row' → row' = row ∧ conflict_row_ok row.
Proof.
  unfold sqlite_conflict_row. intros H. repeat bind_inv H. injection H as <-.
  rewrite !nonnegative_Ok in *. unfold conflict_row_ok. split_and!; try naive_solver.
  intros t Et. rewrite Et in *. match goal with E : (_ ← nonnegative t; _) = Ok _ |- _ => bind_inv E end.
  match goal with E : nonnegative t = Ok _ |- _ => apply nonnegative_Ok in E; lia end.
Qed.

Lemma conflict_row_read row : conflict_row_ok row → sqlite_conflict_row row = Ok row.
Proof.
  intros (H1 & H2 & H3). unfold sqlite_conflict_row.
  rewrite !nonnegative_nonneg, conflict_state_round_trip by done. cbn.
  destruct (c_resolved row) as [t|]; [|done]. by rewrite nonnegative_nonneg by auto.
Qed.

Lemma read_generation_Ok db source r :
  read_sqlite_generation db source = Ok r →
  r = db.(fleet_generations) !! source ∧ (∀ g, r = Some g → generation_row_ok g).
Proof.
  unfold read_sqlite_generation. destruct (_ !! _) as [row|]; [|by intros [= <-]].
  intros H. bind_inv H. injection H as <-.
  match goal with E : sqlite_generation_row _ = Ok _ |- _ => apply generation_row_Ok in E as [-> ?] end.
  split; [done|]. by intros g [= <-].
Qed.

Lemma read_conflict_Ok db id r :
  read_sqlite_conflict db id = Ok r →
  r = db.(fleet_conflicts) !! id ∧ (∀ c, r = Some c → conflict_row_ok c).
Proof.
  unfold read_sqlite_conflict. destruct (_ !! _) as [row|]; [|by intros [= <-]].
  intros H. bind_inv H. injection H as <-.
  match goal with E : sqlite_conflict_row _ = Ok _ |- _ => apply conflict_row_Ok in E as [-> ?] end.
  split; [done|]. by intros g [= <-].
Qed.

(** ** Order of generations *)

Lemma generation_le_refl g : generation_le g g.
Proof. right. split_and!; [done..|lia|apply rtc_refl]. Qed.

Lemma generation_le_trans g1 g2 g3 : generation_le g1 g2 → generation_le g2 g3 → generation_le g1 g3.
Proof.
  intros [H1|(E1 & R1 & C1 & P1 & S1)] [H2|(E2 & R2 & C2 & P2 & S2)]; try (left; lia).
  right. split_and!; [congruence..|lia|by etrans].
Qed.

(** ** Shapes of the operations *)

Lemma calculate_update_Ok current input instance incarnation token now u :
  calculate_generation_update current input instance incarnation token now = Ok u →
  (u.(gu_accepted) = false ∧ current = Some u.(gu_generation)) ∨
  (u.(gu_accepted) = true ∧
   u.(gu_generation) =
     {| g_source_instance_id := input.(gi_source_instance_id);
        g_generation := input.(gi_generation); g_revision := input.(gi_revision);
        g_owner_instance_id := instance; g_owner_incarnation_id := incarnation;
        g_fencing_token := token; g_resource_count := input.(gi_resource_count);
        g_sync_state := input.(gi_sync_state); g_sync_progress := input.(gi_sync_progress);
        g_updated := now |} ∧
   ∀ old, current = Some old → generation_le old u.(gu_generation)).
Proof.
  unfold calculate_generation_update. cbv zeta. destruct current as [old|]; [|intros [= <-]; by right].
  destruct (Z.ltb_spec input.(gi_generation) old.(g_generation)); [intros [= <-]; by left|].
  destruct (Z.eqb_spec input.(gi_generation) old.(g_generation)).
  - intros E. tx_inv E. destruct (_ && _) eqn:Ed in E; injection E as <-; [by left|].
    right. split_and!; [done..|]. intros old' [= <-]. right. bool_prop. cbn.
    split_and!; [done..|lia|]. apply rtc_once. by left.
  - intros [= <-]. right. split_and!; [done..|]. intros old' [= <-]. left. cbn. lia.
Qed.

(** The unsigned fields of the inputs. *)
Definition generation_input_typed (input : FleetGenerationInput) : Prop :=
  0 ≤ input.(gi_generation) ∧ 0 ≤ input.(gi_resource_count) ∧ 0 ≤ input.(gi_sync_progress).

Lemma normalize_generation_input_Ok input input' :
  normalize_generation_input input = Ok input' → generation_input_typed input →
  0 ≤ input'.(gi_generation) ∧ 0 ≤ input'.(gi_resource_count) ∧ 0 ≤ input'.(gi_sync_progress) ≤ 100.
Proof.
  unfold normalize_generation_input. intros E (H1 & H2 & H3). tx_inv E. injection E as <-. cbn.
  match goal with E : validate_sync_state _ _ = Ok _ |- _ => unfold validate_sync_state in E; tx_inv E end.
  bool_prop. lia.
Qed.

Lemma no_open_Ok db g u :
  ensure_no_open_conflicts_for_ready_sqlite db g = Ok u → g.(g_sync_state) = SyncReady →
  ¬ has_open g.(g_source_instance_id) g.(g_generation) db.(fleet_conflicts).
Proof.
  unfold ensure_no_open_conflicts_for_ready_sqlite. intros E Hr. rewrite bool_decide_eq_false_2 in E by naive_solver.
  tx_inv E. apply Z.eqb_eq in E. intros (id & c & Hc & Ho).
  pose proof (map_count_pos _ _ _ _ Hc Ho). lia.
Qed.

Lemma record_generation_shape self input c1 c2 token db u db' :
  generation_input_typed input → record_generation self input c1 c2 token db = Ok (u, db') →
  fence_holds self.(fc_coordinator) token c1 db = true ∧ fleet_effect self.(fc_coordinator) token db db' ∧
  (u.(gu_accepted) = false → db' = db).
Proof.
  intros Ht E. unfold record_generation in E. tx_inv E. fence_inv. split; [done|].
  match goal with E : normalize_generation_input _ = Ok _ |- _ =>
    destruct (normalize_generation_input_Ok _ _ E Ht) as (? & ? & ?) end.
  match goal with E : read_sqlite_generation _ _ = Ok _ |- _ => apply read_generation_Ok in E as [-> _] end.
  match goal with E : calculate_generation_update _ _ _ _ _ _ = Ok _ |- _ =>
    apply calculate_update_Ok in E as [[Ea _]|(Ea & Eg & Hle)] end; rewrite Ea in E.
  - injection E as <- <-. split; [constructor|done].
  - tx_inv E. injection E as <- <-. split; [|congruence].
    match goal with E : write_sqlite_generation _ _ = Ok _ |- _ => unfold write_sqlite_generation in E; tx_inv E;
      injection E as <- end.
    constructor; [rewrite Eg; unfold generation_row_ok; cbn; lia|by rewrite Eg| |by eapply no_open_Ok].
    rewrite Eg in *. cbn in *. done.
Qed.

Lemma mark_conflicted_Ok db source generation instance incarnation token clock db' :
  mark_sqlite_generation_conflicted db source generation instance incarnation token clock = Ok db' →
  ∃ old, db.(fleet_generations) !! source = Some old ∧ old.(g_generation) = generation ∧
    db' = set_fleet db (<[source := conflicted_generation old instance incarnation token clock]>
                          db.(fleet_generations)) db.(fleet_conflicts).
Proof.
  unfold mark_sqlite_generation_conflicted. intros E. tx_inv E.
  destruct (_ !! _) as [old|] eqn:Hold in E; [|done].
  destruct (Z.eqb_spec old.(g_generation) generation) as [Heq|]; [|done]. injection E as <-. by exists old.
Qed.

Lemma record_conflict_shape self input c1 c2 c3 token db w db' :
  0 ≤ input.(ci_generation) → 0 ≤ c3 → record_conflict self input c1 c2 c3 token db = Ok (w, db') →
  fence_holds self.(fc_coordinator) token c1 db = true ∧ fleet_effect self.(fc_coordinator) token db db' ∧
  (w.(cw_duplicate) = true → db' = db).
Proof.
  intros Hg Hc3 E. unfold record_conflict in E. tx_inv E. fence_inv. split; [done|].
  match goal with E : normalize_conflict_input _ = Ok ?i |- _ =>
    assert (0 ≤ i.(ci_generation)) by (unfold normalize_conflict_input in E; tx_inv E; by injection E as <-) end.
  match goal with E : read_sqlite_conflict _ _ = Ok _ |- _ => apply read_conflict_Ok in E as [-> _] end.
  destruct (_ !! _) as [current|] eqn:Hcur in E.
  { tx_inv E. injection E as <- <-. split; [constructor|done]. }
  tx_inv E. injection E as <- <-. split; [|done].
  match goal with E : write_sqlite_conflict _ _ = Ok _ |- _ => unfold write_sqlite_conflict in E; tx_inv E;
    injection E as <- end.
  match goal with E : mark_sqlite_generation_conflicted _ _ _ _ _ _ _ = Ok _ |- _ =>
    apply mark_conflicted_Ok in E as (old & Hold & Heq & ->) end.
  eapply (fe_conflict _ _ db _ old _ (new_conflict _ c2)); cbn; try done.
  - intros (? & ? & ? & ? & ?). unfold generation_row_ok. cbn. bool_prop. lia.
  - right. cbn. split_and!; [done..|]. apply rtc_once. by right.
Qed.

Lemma resolve_conflict_shape self id resolution c1 c2 token db w db' :
  (∀ c, db.(fleet_conflicts) !! id = Some c → c.(c_conflict_id) = id) →
  resolve_conflict self id resolution c1 c2 token db = Ok (w, db') →
  fence_holds self.(fc_coordinator) token c1 db = true ∧ fleet_effect self.(fc_coordinator) token db db'.
Proof.
  intros Hid E. unfold resolve_conflict in E. tx_inv E. fence_inv. split; [done|].
  match goal with E : read_sqlite_conflict _ _ = Ok _ |- _ => apply read_conflict_Ok in E as [-> _] end.
  destruct (_ !! _) as [old|] eqn:Hold in E; [|injection E as <- <-; constructor].
  destruct (bool_decide _) eqn:Hs in E; [tx_inv E; injection E as <- <-; constructor|].
  tx_inv E. injection E as <- <-. apply bool_decide_eq_false_1 in Hs. pose proof (Hid _ Hold) as Eid.
  match goal with E : update_sqlite_conflict_resolution _ _ = Ok _ |- _ =>
    unfold update_sqlite_conflict_resolution in E; cbn in E; tx_inv E; rewrite Eid, Hold in E;
    rewrite bool_decide_eq_true_2 in E by (by destruct (c_state old)); injection E as <- end.
  rewrite <- Eid. rewrite <- Eid in Hold at 1. eapply fe_resolve; [done|]. split; [by destruct (c_state old)|].
  by eexists _, _.
Qed.

(** ** Histories *)

Section fenced.
Context {J : JsonLib}.

Lemma fleet_effect_ok self token c db db' :
  db_ok db → fence_holds self token c db = true → fleet_effect self token db db' → db_ok db'.
Proof.
  intros H Hf Heff. pose proof (fence_held_by _ _ _ _ H Hf) as Hheld.
  destruct Heff as [|g Hg (Et & Ei & Ec) _ _|k old g cf Hold _ Hg (Et & Ei & Ec) Hc Es _ _ _ _|old cf Hold Hres].
  - done.
  - apply db_ok_set_fleet; [done| |apply (ok_conflicts db H)]. intros k' g'.
    rewrite lookup_insert_Some. intros [[<- <-]|[_ Hk]]; [|by apply (ok_generations db H)].
    rewrite Et, Ei, Ec. done.
  - destruct (ok_generations db H _ _ Hold) as (Ek & Hok & _).
    apply db_ok_set_fleet; [done| |].
    + intros k' g'. rewrite lookup_insert_Some. intros [[<- <-]|[_ Hk]]; [|by apply (ok_generations db H)].
      rewrite Et, Ei, Ec, Es. auto.
    + intros k' c'. rewrite lookup_insert_Some. intros [[<- <-]|[_ Hk]]; [done|by apply (ok_conflicts db H)].
  - apply db_ok_set_fleet; [done|apply (ok_generations db H)|]. intros k' c'. rewrite lookup_insert_Some.
    intros [[<- <-]|[_ Hk]]; [|by apply (ok_conflicts db H)].
    destruct (ok_conflicts db H _ _ Hold) as [_ (? & ? & _)]. destruct Hres as (_ & now & r & Hnow & ->).
    split; [done|]. unfold conflict_row_ok. cbn. split_and!; [done..|]. by intros t [= <-].
Qed.

Lemma fleet_effect_fenced {A} self token (op : Database → result CoordError (A * Database)) :
  (∀ db a db', op db = Ok (a, db') → (∃ clock, fence_holds self token clock db = true) ∧
     db'.(ha_members) = db.(ha_members) ∧ db'.(ha_leader) = db.(ha_leader) ∧
     db'.(next_token) = db.(next_token) ∧ (db_ok db → fleet_effect self token db db')) →
  FencedOp self token op.
Proof.
  intros Hop. split; intros db a db'.
  - intros E. by destruct (Hop _ _ _ E).
  - intros E. by destruct (Hop _ _ _ E) as (_ & ? & ? & ? & _).
  - intros H E. destruct (Hop _ _ _ E) as ([c Hf] & _ & _ & _ & Heff). eapply fleet_effect_ok; eauto.
Qed.

Lemma fleet_effect_frame self token db db' :
  fleet_effect self token db db' →
  db'.(ha_members) = db.(ha_members) ∧ db'.(ha_leader) = db.(ha_leader) ∧ db'.(next_token) = db.(next_token).
Proof. by intros []. Qed.

Global Instance record_generation_fenced self input c1 c2 token :
  generation_input_typed input → FencedOp self.(fc_coordinator) token (record_generation self input c1 c2 token).
Proof.
  intros Ht. apply fleet_effect_fenced. intros db a db' (? & Heff & _)%record_generation_shape; [|done].
  destruct (fleet_effect_frame _ _ _ _ Heff) as (? & ? & ?). eauto 10.
Qed.

Global Instance record_conflict_fenced self input c1 c2 c3 token :
  0 ≤ input.(ci_generation) → 0 ≤ c3 →
  FencedOp self.(fc_coordinator) token (record_conflict self input c1 c2 c3 token).
Proof.
  intros Hg Hc. apply fleet_effect_fenced. intros db a db' (? & Heff & _)%record_conflict_shape; [|done..].
  destruct (fleet_effect_frame _ _ _ _ Heff) as (? & ? & ?). eauto 10.
Qed.

Global Instance resolve_conflict_fenced self id resolution c1 c2 token :
  FencedOp self.(fc_coordinator) token (resolve_conflict self id resolution c1 c2 token).
Proof.
  apply fleet_effect_fenced. intros db a db' E.
  assert (Hf : fence_holds self.(fc_coordinator) token c1 db = true ∧
    db'.(ha_members) = db.(ha_members) ∧ db'.(ha_leader) = db.(ha_leader) ∧ db'.(next_token) = db.(next_token)).
  { unfold resolve_conflict in E. tx_inv E. fence_inv. split; [done|].
    match type of E with match ?c with _ => _ end = _ => destruct c as [cf|]; [|by injection E as <- <-] end.
    destruct (bool_decide _) in E; [by tx_inv E; injection E as <- <-|]. tx_inv E. injection E as <- <-.
    match goal with E : update_sqlite_conflict_resolution _ _ = Ok _ |- _ =>
      unfold update_sqlite_conflict_resolution in E; cbn in E; tx_inv E;
      destruct (_ !! _) as [row|] in E; [|done]; destruct (bool_decide _) in E; [|done]; by injection E as <- end. }
  destruct Hf as (Hf & ? & ? & ?). split_and!; [by eauto|done..|]. intros Hdb.
  eapply resolve_conflict_shape; [|done]. intros c Hc. by destruct (ok_conflicts db Hdb _ _ Hc).
Qed.

(** One transaction on the fleet tables, or anything that leaves them alone. *)
Inductive fleet_step : Database → Database → Prop :=
  | fs_generation self input c1 c2 token u db db' :
      generation_input_typed input → record_generation self input c1 c2 token db = Ok (u, db') →
      fleet_step db db'
  | fs_conflict self input c1 c2 c3 token w db db' :
      0 ≤ input.(ci_generation) → 0 ≤ c3 → record_conflict self input c1 c2 c3 token db = Ok (w, db') →
      fleet_step db db'
  | fs_resolve self id resolution c1 c2 token w db db' :
      resolve_conflict self id resolution c1 c2 token db = Ok (w, db') → fleet_step db db'
  | fs_other db db' :
      db_ok db' → db'.(fleet_generations) = db.(fleet_generations) →
      db'.(fleet_conflicts) = db.(fleet_conflicts) → fleet_step db db'.

Lemma fleet_step_effect db db' :
  db_ok db → fleet_step db db' →
  db_ok db' ∧
  ((∃ self token c, fence_holds self token c db = true ∧ fleet_effect self token db db') ∨
   (db'.(fleet_generations) = db.(fleet_generations) ∧ db'.(fleet_conflicts) = db.(fleet_conflicts))).
Proof.
  intros H Hs. destruct Hs as [self input c1 c2 token u db db' Ht E|self input c1 c2 c3 token w db db' Hg Hc E
    |self id resolution c1 c2 token w db db' E|db db' H' ? ?]; [| | |by auto].
  - apply record_generation_shape in E as (? & ? & _); [|done]. eauto 8 using fleet_effect_ok.
  - apply record_conflict_shape in E as (? & ? & _); [|done..]. eauto 8 using fleet_effect_ok.
  - apply resolve_conflict_shape in E as (? & ?); [by eauto 8 using fleet_effect_ok|].
    intros c Hc. by destruct (ok_conflicts db H _ _ Hc).
Qed.

(** A property of the tables that every effect keeps holds in every history. *)
Lemma fleet_history (P : gmap rstr FleetGeneration → gmap Z FleetConflict → Prop) db db' :
  (∀ self token c d d', db_ok d → fence_holds self token c d = true → fleet_effect self token d d' →
     P d.(fleet_generations) d.(fleet_conflicts) → P d'.(fleet_generations) d'.(fleet_conflicts)) →
  db_ok db → rtc fleet_step db db' →
  P db.(fleet_generations) db.(fleet_conflicts) → P db'.(fleet_generations) db'.(fleet_conflicts).
Proof.
  intros Heff H Hr. induction Hr as [|d d1 d2 Hs _ IH]; [done|]. intros HP.
  destruct (fleet_step_effect _ _ H Hs) as [H1 [(self & token & c & Hf & He)|[Eg Ec]]].
  - apply IH; [done|]. eapply (Heff self token c d d1 H Hf He HP).
  - apply IH; [done|]. by rewrite Eg, Ec.
Qed.

(** In every history of the fleet tables, a source keeps its row and moves only
    forward: to a newer generation, or within one generation under the same revision
    and resource count, with progress that never decreases and states that follow the
    allowed transitions or a recorded conflict; the fencing token of the writer never
    decreases. *)
Theorem fleet_generations_advance (db db' : Database) (source : rstr) (g : FleetGeneration) :
  db_ok db → rtc fleet_step db db' → db.(fleet_generations) !! source = Some g →
  ∃ g', db'.(fleet_generations) !! source = Some g' ∧ generation_le g g' ∧
    g.(g_fencing_token) ≤ g'.(g_fencing_token).
Proof.
  intros H Hr Hg. apply (fleet_history (λ gs _, ∃ g', gs !! source = Some g' ∧ generation_le g g' ∧
    g.(g_fencing_token) ≤ g'.(g_fencing_token)) db db'); [|done|done|by eauto using generation_le_refl, Z.le_refl].
  intros self token c d d' Hd Hf Heff (g1 & Hg1 & Hle & Ht). pose proof (fence_token_current _ _ _ _ Hd Hf) as Htok.
  assert (Hnew : ∀ new, owned self token new → g.(g_fencing_token) ≤ new.(g_fencing_token)).
  { intros new (-> & _). destruct (ok_generations d Hd _ _ Hg1) as (_ & _ & Hlt & _). lia. }
  destruct Heff as [|new _ Hown Hold _|k old new cf Hold _ _ Hown _ _ Hleo _ _ _|old cf _ _].
  - by exists g1.
  - cbn. destruct (decide (new.(g_source_instance_id) = source)) as [<-|Hne].
    + rewrite lookup_insert_eq. exists new. split; [done|]. specialize (Hold g1 Hg1).
      eauto using generation_le_trans.
    + rewrite lookup_insert_ne by done. by exists g1.
  - cbn. destruct (decide (k = source)) as [<-|Hne].
    + rewrite Hold in Hg1. injection Hg1 as <-. rewrite lookup_insert_eq. exists new. split; [done|].
      eauto using generation_le_trans.
    + rewrite lookup_insert_ne by done. by exists g1.
  - by exists g1.
Qed.

(** In every history that starts with an empty database, a generation that is
    ready has no open conflict. *)
Theorem ready_without_open_conflicts (db : Database) (source : rstr) (g : FleetGeneration)
    (id : Z) (c : FleetConflict) :
  rtc fleet_step db_empty db → db.(fleet_generations) !! source = Some g → g.(g_sync_state) = SyncReady →
  db.(fleet_conflicts) !! id = Some c → open_conflict source g.(g_generation) c = false.
Proof.
  intros Hr Hg Hs Hc. apply not_true_is_false. intros Ho. revert source g id c Hg Hs Hc Ho.
  apply (fleet_history (λ gs cs, ∀ source g id c, gs !! source = Some g → g.(g_sync_state) = SyncReady →
    cs !! id = Some c → open_conflict source g.(g_generation) c = true → False) db_empty db); [|apply db_ok_empty|done|done].
  clear db Hr. intros self token clock d d' Hd _ Heff HP.
  destruct Heff as [|new _ _ _ Hno|k old new cf Hold Hnone _ _ _ _ Hle Hst <- Egen|old cf Hold (Ho & now & r & _ & ->)];
    [done| | |]; intros source g id c; cbn; rewrite ?lookup_insert_Some.
  - intros [[<- <-]|[_ Hg]] Hs Hc Hopen; [|by eapply HP]. apply Hno; [done|]. by exists id, c.
  - intros [[<- <-]|[Hne Hg]] Hs; [congruence|]. intros [[<- <-]|[_ Hc]] Hopen; [|by eapply HP].
    unfold open_conflict in Hopen. bool_prop. congruence.
  - intros Hg Hs [[<- <-]|[_ Hc]] Hopen; [|by eapply HP]. unfold open_conflict in Hopen. cbn in Hopen.
    bool_prop. done.
Qed.

(** The conflict ledger only grows, and a conflict changes once: in every history
    a recorded conflict keeps what identifies it, and is unchanged or, if it was open,
    resolved; once resolved it never changes. *)
Theorem conflict_ledger_final (db db' : Database) (id : Z) (c : FleetConflict) :
  db_ok db → rtc fleet_step db db' → db.(fleet_conflicts) !! id = Some c →
  ∃ c', db'.(fleet_conflicts) !! id = Some c' ∧ (c' = c ∨ conflict_resolved c c').
Proof.
  intros H Hr Hc.
  apply (fleet_history (λ _ cs, ∃ c', cs !! id = Some c' ∧ (c' = c ∨ conflict_resolved c c')) db db');
    [|done|done|by eauto].
  intros self token clock d d' Hd _ Heff (c1 & Hc1 & Hcase).
  destruct Heff as [|new _ _ _ _|k old new cf _ Hnone _ _ _ _ _ _ _ _|old cf Hold Hres]; [by eauto..| |]; cbn.
  - exists c1. rewrite lookup_insert_ne; [done|]. intros E. congruence.
  - destruct (decide (old.(c_conflict_id) = id)) as [<-|Hne].
    + rewrite lookup_insert_eq. exists cf. split; [done|]. right. rewrite Hold in Hc1. injection Hc1 as <-.
      destruct Hcase as [<-|(_ & now & r & _ & ->)]; [done|]. by destruct Hres.
    + rewrite lookup_insert_ne by done. by exists c1.
Qed.
End fenced.

(** ** Summaries *)

Lemma trim_start_drops s : ∃ p, s = p ++ trim_start s.
Proof.
  induction s as [|c s [p IH]]; [by exists []|]. cbn. destruct (is_whitespace c); [|by exists []].
  exists (c :: p). cbn. by rewrite <- IH.
Qed.

Lemma trim_infix s : ∃ p q, s = p ++ trim s ++ q.
Proof.
  unfold trim, trim_end. destruct (trim_start_drops s) as [p Hp].
  destruct (trim_start_drops (rev (trim_start s))) as [q Hq]. exists p, (rev q).
  rewrite <- rev_app_distr, <- Hq, rev_involutive. done.
Qed.

(** A character of a summary is a plain space or neither control nor white space. *)
Definition summary_char (c : Z) : Prop := c = 32 ∨ is_control c = false ∧ is_whitespace c = false.

Lemma summary_loop_chars maximum output b s :
  Forall summary_char output → len output < maximum → 0 < maximum →
  Forall summary_char (summary_loop maximum output b s) ∧ len (summary_loop maximum output b s) ≤ maximum.
Proof.
  revert output b. induction s as [|c s IH]; intros output b Hout Hlen Hmax; cbn [summary_loop].
  { unfold len in *. rewrite length_rev. split; [by apply Forall_rev|lia]. }
  set (d := if is_control c then 32 else c).
  destruct (if is_whitespace d then _ else _) as [output' b'] eqn:E.
  assert (Forall summary_char output' ∧ len output' ≤ len output + 1) as [Hout' Hlen'].
  { destruct (is_whitespace d) eqn:Ew; [destruct b|]; injection E as <- <-; rewrite ?len_cons.
    - split; [done|lia].
    - split; [constructor; [by left|done]|lia].
    - split; [|lia]. constructor; [|done]. right. subst d. by destruct (is_control c) eqn:?. }
  destruct (Z.leb_spec maximum (len output')).
  - unfold len in *. rewrite length_rev. split; [by apply Forall_rev|lia].
  - apply IH; [done..|lia].
Qed.

(** No two spaces in a row; [b] says that a space precedes. *)
Fixpoint single_spaced (b : bool) (s : rstr) : Prop :=
  match s with
  | [] => True
  | c :: s => if c =? 32 then b = false ∧ single_spaced true s else single_spaced false s
  end.

Lemma single_spaced_weaken b s : single_spaced b s → single_spaced false s.
Proof. destruct s as [|c s]; [done|]. cbn. zcase; naive_solver. Qed.

Lemma single_spaced_app b s t :
  single_spaced b (s ++ t) ↔ single_spaced b s ∧ single_spaced (if s is [] then b else bool_decide (last s = Some 32)) t.
Proof.
  revert b. induction s as [|c s IH]; intros b; cbn [app single_spaced]; [naive_solver|].
  rewrite last_cons. destruct (Z.eqb_spec c 32) as [->|Hc]; rewrite IH; clear IH.
  - destruct s as [|d s]; cbn [last]; [by rewrite bool_decide_eq_true_2 by done; naive_solver|].
    destruct (last (d :: s)) eqn:El; [naive_solver|]. by apply last_None in El.
  - destruct s as [|d s]; cbn [last]; [rewrite bool_decide_eq_false_2 by congruence; naive_solver|].
    destruct (last (d :: s)) eqn:El; [naive_solver|]. by apply last_None in El.
Qed.

Lemma single_spaced_infix p s q : single_spaced false (p ++ s ++ q) → single_spaced false s.
Proof.
  rewrite single_spaced_app. intros [_ H]. apply single_spaced_weaken in H.
  rewrite single_spaced_app in H. tauto.
Qed.

Lemma summary_loop_spaced maximum output b s :
  single_spaced false (rev output) → b = bool_decide (head output = Some 32) →
  single_spaced false (summary_loop maximum output b s).
Proof.
  revert output b. induction s as [|c s IH]; intros output b Hout Hb; cbn [summary_loop]; [done|].
  set (d := if is_control c then 32 else c).
  destruct (if is_whitespace d then _ else _) as [output' b'] eqn:E.
  assert (Hrev : ∀ x, single_spaced false (rev (x :: output)) ↔ (x = 32 → b = false)).
  { intros x. cbn [rev]. rewrite single_spaced_app, Hb. cbn [single_spaced].
    destruct output as [|y o]; cbn [rev head].
    - rewrite bool_decide_eq_false_2 by done. destruct (Z.eqb_spec x 32); naive_solver.
    - destruct (rev o ++ [y]) as [|z l] eqn:El; [by apply app_nil in El as [_ ?]|]. rewrite <- El, last_snoc.
      destruct (Z.eqb_spec x 32); naive_solver. }
  assert (single_spaced false (rev output') ∧ b' = bool_decide (head output' = Some 32)) as [Hout' Hb'].
  { destruct (is_whitespace d) eqn:Ew; [destruct b eqn:Eb|]; injection E as <- <-.
    - done.
    - split; [by apply Hrev|]. symmetry. by apply bool_decide_eq_true_2.
    - split; [apply Hrev; intros ->; done|]. symmetry. apply bool_decide_eq_false_2. intros [= Ed].
      rewrite Ed in Ew. done. }
  destruct (maximum <=? len output'); [done|]. by apply IH.
Qed.

(** A single-spaced text that fits passes through the loop. *)
Lemma summary_loop_id maximum output b s :
  Forall summary_char s → single_spaced b s → len output + len s ≤ maximum →
  summary_loop maximum output b s = rev output ++ s.
Proof.
  revert output b. induction s as [|c s IH]; intros output b Hs Hb Hlen; cbn [summary_loop].
  { by rewrite app_nil_r. }
  inversion Hs as [|? ? Hc Hs']; subst. rewrite len_cons in Hlen. pose proof (len_nonneg s).
  assert (Hcons : ∀ b', single_spaced b' s →
    (if maximum <=? len (c :: output) then rev (c :: output) else summary_loop maximum (c :: output) b' s) =
    rev output ++ c :: s).
  { intros b' Hb'. rewrite len_cons. destruct (Z.leb_spec maximum (1 + len output)).
    - assert (s = []) as -> by (apply len_0_nil; lia). done.
    - rewrite IH by (rewrite ?len_cons; done || lia). cbn. by rewrite <- app_assoc. }
  cbn in Hb. destruct Hc as [->|[Hctl Hws]].
  - destruct Hb as [-> Hb]. exact (Hcons true Hb).
  - rewrite Hctl, Hws. destruct (Z.eqb_spec c 32) as [->|]; [done|]. exact (Hcons false Hb).
Qed.

Lemma trim_start_idemp s : trim_start (trim_start s) = trim_start s.
Proof. induction s as [|c s IH]; [done|]. cbn. destruct (is_whitespace c) eqn:E; [done|]. cbn. by rewrite E. Qed.

Lemma trim_start_head s c t : trim_start s = c :: t → is_whitespace c = false.
Proof. induction s as [|d s IH]; [done|]. cbn. destruct (is_whitespace d) eqn:E; [done|]. by intros [= -> _]. Qed.

Lemma trim_idemp s : trim (trim s) = trim s.
Proof.
  unfold trim. assert (Hs : trim_start (trim_end (trim_start s)) = trim_end (trim_start s)).
  { unfold trim_end. destruct (trim_start_drops (rev (trim_start s))) as [p Hp].
    set (r := trim_start (rev (trim_start s))) in *. apply (f_equal (@rev Z)) in Hp.
    rewrite rev_involutive, rev_app_distr in Hp. destruct (rev r) as [|c t] eqn:Er; [done|].
    cbn in Hp. apply trim_start_head in Hp. by apply trim_start_id. }
  rewrite Hs. unfold trim_end. by rewrite rev_involutive, trim_start_idemp.
Qed.

(** A summary is bounded, free of control characters and of runs of white space,
    and stable: normalising it again gives it back, so a repeated request compares
    equal to the stored text. *)
Theorem summary_normal_form (value : rstr) (maximum : Z) (s : rstr) :
  0 < maximum → normalize_summary value maximum = Ok s →
  1 ≤ len s ≤ maximum ∧ Forall (λ c, is_control c = false) s ∧ single_spaced false s ∧
  normalize_summary s maximum = Ok s.
Proof.
  intros Hmax E. unfold normalize_summary in E. tx_inv E. injection E as <-.
  set (o := summary_loop maximum [] false (trim value)) in *.
  destruct (summary_loop_chars maximum [] false (trim value)) as [Hch Hlen]; [done|by rewrite len_nil|done|].
  assert (Hsp : single_spaced false o) by by apply summary_loop_spaced.
  fold o in Hch, Hlen. destruct (trim_infix o) as (p & q & Eo). rewrite Eo in Hch, Hsp.
  apply single_spaced_infix in Hsp. rewrite !Forall_app in Hch. destruct Hch as (_ & Hch & _).
  assert (Hl : len (trim o) ≤ maximum).
  { rewrite Eo, !len_app in Hlen. pose proof (len_nonneg p). pose proof (len_nonneg q). lia. }
  assert (Hnn : trim o ≠ []) by (intros Et; rewrite Et in *; done).
  split_and!; [|done| |done|].
  - destruct (trim o); [done|]. rewrite len_cons. pose proof (len_nonneg l). lia.
  - eapply Forall_impl; [exact Hch|]. by intros c [->|[? _]].
  - unfold normalize_summary. rewrite trim_idemp, summary_loop_id by (done || by rewrite len_nil). cbn [rev app].
    rewrite trim_idemp, ensure_true by done. done.
Qed.

(** ** Witnesses *)

Definition ex_fleet : FleetCoordination := {| fc_coordinator := ex_a |}.
Definition ex_generation (generation : Z) (state : FleetSyncState) (progress : Z) : FleetGenerationInput :=
  {| gi_source_instance_id := lit "edge"; gi_generation := generation; gi_revision := lit "r1";
     gi_resource_count := 3; gi_sync_state := state; gi_sync_progress := progress |}.
Definition ex_conflict_input : FleetConflictInput :=
  {| ci_conflict_id := 77; ci_source_instance_id := lit "edge"; ci_generation := 1;
     ci_resource_kind := lit "tunnel"; ci_resource_id := lit "t1"; ci_owner_instance_id := None;
     ci_conflict_code := lit "port_taken"; ci_detail_summary := lit "port 443 is taken" |}.

Definition ex_applying : Database :=
  run_or (record_generation ex_fleet (ex_generation 1 SyncApplying 40) 125 125 1 ex_led) ex_led.
Definition ex_conflicted : Database :=
  run_or (record_conflict ex_fleet ex_conflict_input 126 126 126 1 ex_applying) ex_applying.
Definition ex_resolved : Database :=
  run_or (resolve_conflict ex_fleet 77 (lit "moved to 8443") 127 127 1 ex_conflicted) ex_conflicted.
Definition ex_ready : Database :=
  run_or (record_generation ex_fleet (ex_generation 1 SyncReady 100) 128 128 1 ex_resolved) ex_resolved.

Lemma run_or_step {A} (r : result CoordError (A * Database)) db db' :
  run_or r db = db' → is_ok r = true → ∃ a, r = Ok (a, db').
Proof. destruct r as [[a d]|]; [|done]. intros <- _. by exists a. Qed.

Lemma ex_fleet_history :
  @fleet_step ex_json ex_led ex_applying ∧ @fleet_step ex_json ex_applying ex_conflicted ∧
  @fleet_step ex_json ex_conflicted ex_resolved ∧ @fleet_step ex_json ex_resolved ex_ready.
Proof.
  split_and!.
  - edestruct (run_or_step _ _ ex_applying eq_refl) as [u E]; [vm_compute; reflexivity|].
    eapply fs_generation; [|exact E]. unfold generation_input_typed. cbn. lia.
  - edestruct (run_or_step _ _ ex_conflicted eq_refl) as [u E]; [vm_compute; reflexivity|].
    eapply fs_conflict; [| |exact E]; cbn; lia.
  - edestruct (run_or_step _ _ ex_resolved eq_refl) as [u E]; [vm_compute; reflexivity|].
    by eapply fs_resolve.
  - edestruct (run_or_step _ _ ex_ready eq_refl) as [u E]; [vm_compute; reflexivity|].
    eapply fs_generation; [|exact E]. unfold generation_input_typed. cbn. lia.
Qed.

Lemma ex_fleet_ready : rtc (@fleet_step ex_json) db_empty ex_ready.
Proof.
  destruct ex_fleet_history as (H1 & H2 & H3 & H4).
  eapply rtc_l; [apply fs_other; [exact ex_led_ok|vm_compute; reflexivity..]|].
  eapply rtc_l; [exact H1|]. eapply rtc_l; [exact H2|]. eapply rtc_l; [exact H3|]. by apply rtc_once.
Qed.

Lemma ex_applying_ok : @db_ok ex_json ex_applying.
Proof. destruct ex_fleet_history as [H _]. by destruct (fleet_step_effect _ _ ex_led_ok H). Qed.

Lemma fleet_generations_advance_witness :
  ∃ g', ex_ready.(fleet_generations) !! lit "edge" = Some g' ∧ (1 < g'.(g_generation) ∨ 40 ≤ g'.(g_sync_progress)).
Proof.
  destruct (ex_applying.(fleet_generations) !! lit "edge") as [g|] eqn:Eg; [|vm_compute in Eg; discriminate Eg].
  destruct (@fleet_generations_advance ex_json ex_applying ex_ready (lit "edge") g) as (g' & Hg' & Hle & _).
  - exact ex_applying_ok.
  - destruct ex_fleet_history as (_ & H2 & H3 & H4).
    eapply rtc_l; [exact H2|]. eapply rtc_l; [exact H3|]. by apply rtc_once.
  - exact Eg.
  - vm_compute in Eg. injection Eg as <-. exists g'. split; [exact Hg'|].
    destruct Hle as [Hlt|(_ & _ & _ & Hp & _)]; [left; exact Hlt|right; exact Hp].
Defined.

Lemma ready_without_open_conflicts_witness :
  ∃ c, ex_ready.(fleet_conflicts) !! 77 = Some c ∧ open_conflict (lit "edge") 1 c = false.
Proof.
  destruct (ex_ready.(fleet_generations) !! lit "edge") as [g|] eqn:Eg; [|vm_compute in Eg; discriminate Eg].
  destruct (ex_ready.(fleet_conflicts) !! 77) as [c|] eqn:Ec; [|vm_compute in Ec; discriminate Ec].
  exists c. split; [done|].
  pose proof (@ready_without_open_conflicts ex_json ex_ready (lit "edge") g 77 c ex_fleet_ready Eg) as H.
  vm_compute in Eg. injection Eg as <-. exact (H eq_refl Ec).
Defined.

Lemma conflict_ledger_final_witness :
  ∃ c', ex_ready.(fleet_conflicts) !! 77 = Some c' ∧ c'.(c_conflict_code) = lit "port_taken".
Proof.
  destruct (ex_conflicted.(fleet_conflicts) !! 77) as [c|] eqn:Ec; [|vm_compute in Ec; discriminate Ec].
  destruct ex_fleet_history as (H1 & H2 & H3 & H4).
  destruct (fleet_step_effect _ _ ex_applying_ok H2) as [Hok _].
  destruct (@conflict_ledger_final ex_json ex_conflicted ex_ready 77 c Hok) as (c' & Hc' & Hcase).
  - eapply rtc_l; [exact H3|]. by apply rtc_once.
  - exact Ec.
  - exists c'. split; [done|]. vm_compute in Ec. injection Ec as <-.
    destruct Hcase as [->|(_ & now & r & _ & ->)]; reflexivity.
Defined.

Lemma summary_normal_form_witness :
  normalize_summary (lit "moved to") 512 = Ok (lit "moved to").
Proof.
  refine (proj2 (proj2 (proj2 (summary_normal_form (lit "  moved   to ") 512 (lit "moved to") _ _)))).
  - lia.
  - vm_compute. reflexivity.
Defined.
