(* ===== verification/HaSystem.v ===== *)
(** * The cluster: leader election composed with the fenced writes

    Any number of processes run the operations of [HaCoordination], [PortOwnership],
    [JobLeases], [TargetHealth] and [FleetCoordination] on one database, each a transaction, in any order
    and with any clock readings. The whole refines a small specification: epochs that
    only grow, each held by one process, with writes only by the holder of the current
    one. *)

From S2P Require Import Prelude RustStr HaTables HaCoordination PortOwnership JobLeases TargetHealth FleetCoordination.

Local Open Scope Z_scope.
Set Default Proof Using "Type".

(** ** Specification *)

Abbreviation process := (rstr * rstr)%type.

(** What a process learns: that it leads under a token, or that it wrote under one. *)
Inductive ha_event :=
  | Led (who : process) (token : Z)
  | Wrote (who : process) (token : Z).

Definition event_token (e : ha_event) : Z := match e with Led _ t | Wrote _ t => t end.
Definition event_who (e : ha_event) : process := match e with Led w _ | Wrote w _ => w end.

Record epochs := { epoch : Z; holder : option process }.

Inductive epoch_step : epochs → option ha_event → epochs → Prop :=
  | es_idle s : epoch_step s None s
  | es_grant s who :
      epoch_step s (Some (Led who (s.(epoch) + 1))) {| epoch := s.(epoch) + 1; holder := Some who |}
  | es_confirm s who : s.(holder) = Some who → epoch_step s (Some (Led who s.(epoch))) s
  | es_write s who : s.(holder) = Some who → epoch_step s (Some (Wrote who s.(epoch))) s.

(** ** The cluster *)

Definition identity (self : HaCoordinator) : process := (self.(instance_id), self.(incarnation_id)).

Section system.
Context {J : JsonLib}.

(** The transactions on the other tables that succeed, with the process and the token they run under. *)
Inductive fenced_write : HaCoordinator → Z → Database → Database → Prop :=
  | write_port_acquire self protocol port policy id c1 c2 token a db db' :
      port_acquire self protocol port policy id c1 c2 token db = Ok (a, db') → fenced_write (po_coordinator self) token db db'
  | write_port_renew self protocol port policy id c1 c2 token a db db' :
      port_renew self protocol port policy id c1 c2 token db = Ok (a, db') → fenced_write (po_coordinator self) token db db'
  | write_port_release self protocol port policy id c1 token a db db' :
      port_release self protocol port policy id c1 token db = Ok (a, db') → fenced_write (po_coordinator self) token db db'
  | write_job_acquire self key kind id c1 c2 token a db db' :
      job_acquire self key kind id c1 c2 token db = Ok (a, db') → fenced_write (jl_coordinator self) token db db'
  | write_job_renew self key kind id c1 c2 token a db db' :
      job_renew self key kind id c1 c2 token db = Ok (a, db') → fenced_write (jl_coordinator self) token db db'
  | write_job_complete self key kind id c1 c2 token a db db' :
      job_complete self key kind id c1 c2 token db = Ok (a, db') → fenced_write (jl_coordinator self) token db db'
  | write_job_fail self key kind code id c1 c2 token a db db' :
      job_fail self key kind code id c1 c2 token db = Ok (a, db') → fenced_write (jl_coordinator self) token db db'
  | write_observe self o c1 c2 token a db db' : catalog_ok self → 0 ≤ o.(o_revision) →
      observe self o c1 c2 token db = Ok (a, db') → fenced_write (th_coordinator self) token db db'
  | write_generation self input c1 c2 token a db db' : generation_input_typed input →
      record_generation self input c1 c2 token db = Ok (a, db') → fenced_write (fc_coordinator self) token db db'
  | write_conflict self input c1 c2 c3 token a db db' : 0 ≤ input.(ci_generation) → 0 ≤ c3 →
      record_conflict self input c1 c2 c3 token db = Ok (a, db') → fenced_write (fc_coordinator self) token db db'
  | write_resolution self id resolution c1 c2 token a db db' :
      resolve_conflict self id resolution c1 c2 token db = Ok (a, db') → fenced_write (fc_coordinator self) token db db'.

Inductive ha_step : Database → option ha_event → Database → Prop :=
  | step_member self clock m db db' :
      coordinator_ok self → register_or_renew_member self clock db = Ok (m, db') → ha_step db None db'
  | step_acquire self clock l db db' :
      coordinator_ok self → try_acquire_leadership self clock db = Ok (Some l, db') →
      ha_step db (Some (Led (identity self) l.(l_fencing_token))) db'
  | step_refused self clock db db' :
      coordinator_ok self → try_acquire_leadership self clock db = Ok (None, db') → ha_step db None db'
  | step_renew self token clock l db db' :
      coordinator_ok self → renew_leadership self token clock db = Ok (Some l, db') →
      ha_step db (Some (Led (identity self) l.(l_fencing_token))) db'
  | step_not_renewed self token clock db db' :
      coordinator_ok self → renew_leadership self token clock db = Ok (None, db') → ha_step db None db'
  | step_prune_members clock db : ha_step db None (prune_expired_members clock db).2
  | step_prune_ports clock db : ha_step db None (ports_prune_expired clock db).2
  | step_recover claimed db : ha_step db None (recover_stale_sqlite_leases claimed db).2
  | step_write self token db db' : fenced_write self token db db' →
      ha_step db (Some (Wrote (identity self) token)) db'.

Definition opt_event (e : option ha_event) : list ha_event :=
  match e with Some e => [e] | None => [] end.

Inductive ha_run : Database → list ha_event → Database → Prop :=
  | run_nil db : ha_run db [] db
  | run_step db e db1 es db2 : ha_step db e db1 → ha_run db1 es db2 → ha_run db (opt_event e ++ es) db2.

(** The epoch is the last token drawn; its holder is the owner of the leader row. *)
Definition epochs_of (db : Database) : epochs :=
  {| epoch := db.(next_token) - 1;
     holder := (λ l, (l.(l_instance_id), l.(l_incarnation_id))) <$> db.(ha_leader) |}.

(** ** Refinement *)

(** Every write keeps what [FencedOp] promises. *)
Lemma fenced_op_run {A} self token (op : Database → result CoordError (A * Database)) a db db' :
  FencedOp self token op → op db = Ok (a, db') →
  (∃ clock, fence_holds self token clock db = true) ∧ db'.(ha_leader) = db.(ha_leader) ∧ db'.(next_token) = db.(next_token) ∧
  (db_ok db → db_ok db').
Proof.
  intros Hf E. destruct (fenced_frame _ _ _ E) as (_ & ? & ?). split_and!; [by eapply fenced_check|done|done|].
  intros Hdb. by eapply fenced_ok.
Qed.
Lemma fenced_write_run self token db db' :
  fenced_write self token db db' →
  (∃ clock, fence_holds self token clock db = true) ∧ db'.(ha_leader) = db.(ha_leader) ∧ db'.(next_token) = db.(next_token) ∧
  (db_ok db → db_ok db').
Proof.
  destruct 1; (eapply fenced_op_run; [|eassumption]); try apply _;
    [by apply observe_fenced|by apply record_generation_fenced|by apply record_conflict_fenced].
Qed.

Lemma epochs_same db db' :
  db'.(ha_leader) = db.(ha_leader) → db'.(next_token) = db.(next_token) → epochs_of db' = epochs_of db.
Proof. intros El En. unfold epochs_of. by rewrite El, En. Qed.

Lemma led_epoch_step self token db db' :
  db_ok db' → led self token db db' → epoch_step (epochs_of db) (Some (Led (identity self) token)) (epochs_of db').
Proof.
  intros H' ((l & El & Et & Ei & Ec) & Hcase). destruct (ok_leader db' H' l El) as [Hn _].
  assert (Eh : epochs_of db' = {| epoch := token; holder := Some (identity self) |}).
  { unfold epochs_of, identity. rewrite El. cbn. rewrite Ei, Ec. f_equal. lia. }
  destruct Hcase as [Hg|(En & old & Eo & Eto & Eio & Eco)].
  - rewrite Eh. replace token with (epoch (epochs_of db) + 1) by (cbn; lia). constructor.
  - assert (E : epochs_of db = epochs_of db').
    { rewrite Eh. unfold epochs_of, identity. rewrite Eo. cbn. rewrite Eio, Eco. f_equal. lia. }
    rewrite E. replace token with (epoch (epochs_of db')) by by rewrite Eh. constructor. by rewrite Eh.
Qed.

Lemma ha_step_refines db e db' :
  db_ok db → ha_step db e db' → db_ok db' ∧ epoch_step (epochs_of db) e (epochs_of db').
Proof.
  intros H Hstep. destruct Hstep as
    [self clock m db db' Hs E|self clock l db db' Hs E|self clock db db' Hs E|self token clock l db db' Hs E
    |self token clock db db' Hs E|clock db|clock db|claimed db|self token db db' Hw].
  - destruct (register_member_ok _ _ _ _ _ H Hs E) as (H' & El & En). split; [done|].
    rewrite (epochs_same db db') by done. constructor.
  - destruct (try_acquire_ok _ _ _ _ _ H Hs E) as [H' Hl]. split; [done|]. by apply led_epoch_step.
  - destruct (try_acquire_ok _ _ _ _ _ H Hs E) as [H' ->]. split; [done|]. constructor.
  - destruct (renew_leadership_ok _ _ _ _ _ _ H Hs E) as [H' Hl]. split; [done|]. by apply led_epoch_step.
  - destruct (renew_leadership_ok _ _ _ _ _ _ H Hs E) as [H' ->]. split; [done|]. constructor.
  - split; [by apply prune_members_ok|constructor].
  - split; [by apply prune_ports_ok|constructor].
  - split; [by apply recover_ok|]. destruct claimed; [|constructor].
    replace (epochs_of (recover_stale_sqlite_leases true db).2) with (epochs_of db); [constructor|].
    unfold epochs_of. cbn. by destruct (ha_leader db).
  - destruct (fenced_write_run _ _ _ _ Hw) as ([c Hfence] & El & En & Hok).
    split; [by apply Hok|]. rewrite (epochs_same db db') by done.
    pose proof (fence_token_current _ _ _ _ H Hfence) as Ht.
    destruct (fence_holds_leader _ _ _ _ Hfence) as (l & Hl & Hi & Hc & _ & _).
    replace token with (epoch (epochs_of db)) by (cbn; lia). constructor.
    unfold epochs_of, identity. rewrite Hl. cbn. by rewrite Hi, Hc.
Qed.

Lemma ha_run_ok db es db' : db_ok db → ha_run db es db' → db_ok db'.
Proof.
  intros H Hr. induction Hr as [|db e db1 es db2 Hs _ IH]; [done|].
  apply IH. by eapply (ha_step_refines _ _ _ H Hs).
Qed.
End system.

(** ** Consequences of the specification *)

Inductive epoch_run : epochs → list ha_event → epochs → Prop :=
  | er_nil s : epoch_run s [] s
  | er_step s e s1 es s2 : epoch_step s e s1 → epoch_run s1 es s2 → epoch_run s (opt_event e ++ es) s2.

(** Later events carry no smaller token, and one token has one process. *)
Definition in_order (es : list ha_event) : Prop :=
  ∀ i j e1 e2, (i < j)%nat → es !! i = Some e1 → es !! j = Some e2 →
    event_token e1 ≤ event_token e2 ∧ (event_token e1 = event_token e2 → event_who e1 = event_who e2).

(** Events from [s] on are not older than its epoch, and those of it are of its holder. *)
Definition after_epoch (s : epochs) (es : list ha_event) : Prop :=
  Forall (λ e, s.(epoch) ≤ event_token e ∧
               (event_token e = s.(epoch) → s.(holder) = Some (event_who e))) es.

Lemma after_epoch_step s e s1 es :
  epoch_step s e s1 → after_epoch s1 es → after_epoch s es.
Proof.
  intros Hs H. destruct Hs as [s|s who|s who Hh|s who Hh]; try done.
  eapply Forall_impl; [exact H|]. cbn. intros e [? ?]. split; [lia|]. lia.
Qed.

Lemma epoch_run_after s es s' : epoch_run s es s' → after_epoch s es ∧ in_order es.
Proof.
  induction 1 as [s|s e s1 es s2 Hs Hr [IHa IHo]]; [split; [constructor|]; by intros i j e1 e2 _|].
  pose proof (after_epoch_step _ _ _ _ Hs IHa) as Ha.
  destruct e as [e|]; [|done]. cbn [opt_event app].
  (* the new event carries the epoch that follows it, in the name of its holder *)
  assert (He : s1.(epoch) = event_token e ∧ s1.(holder) = Some (event_who e)).
  { inversion Hs; subst; cbn; auto. }
  split.
  - constructor; [|done]. inversion Hs; subst; cbn; split; try done; lia.
  - intros [|i] [|j] e1 e2 Hij H1 H2; try lia.
    + injection H1 as <-. cbn in H2. apply list_elem_of_lookup_2 in H2.
      unfold after_epoch in IHa. rewrite Forall_forall in IHa. destruct (IHa e2 H2) as [Hle Heq].
      destruct He as [Het Heh]. rewrite Het in Hle, Heq. split; [done|]. intros E.
      specialize (Heq (eq_sym E)). congruence.
    + apply (IHo i j); [lia|done|done].
Qed.

Section properties.
Context {J : JsonLib}.

(** C1. The cluster refines the epoch specification: from a well-formed database,
    every transaction of every process, on members, leadership, ports, jobs, target
    health, fleet generations and conflicts, is a step of it, and keeps the database well
    formed. So a transaction on those tables succeeds only for the holder of the current epoch. *)
Theorem cluster_refines_epochs (db : Database) (e : option ha_event) (db' : Database) :
  db_ok db → ha_step db e db' → db_ok db' ∧ epoch_step (epochs_of db) e (epochs_of db').
Proof. apply ha_step_refines. Qed.

Lemma ha_run_epochs db es db' : db_ok db → ha_run db es db' → epoch_run (epochs_of db) es (epochs_of db').
Proof.
  intros H Hr. induction Hr as [|db e db1 es db2 Hs _ IH]; [constructor|].
  destruct (ha_step_refines _ _ _ H Hs) as [H1 Hs1]. econstructor; [exact Hs1|by apply IH].
Qed.

(** C8. Fencing: in every history of the cluster, whatever the clocks say, tokens
    never decrease and a token belongs to one process. So once a process leads under a
    token, no process leads or writes under an older one again. *)
Theorem fencing_in_every_history (es : list ha_event) (db : Database) :
  ha_run db_empty es db → in_order es.
Proof. intros Hr. apply (epoch_run_after _ _ _ (ha_run_epochs _ _ _ db_ok_empty Hr)). Qed.

(** A query over the rows of a table reads them all. *)
Lemma collect_all_rows {K} `{Countable K} {A} (f : A → result CoordError A) (R : relation A)
    `{!∀ x y, Decision (R x y)} (m : gmap K A) :
  (∀ k a, m !! k = Some a → f a = Ok a) →
  collect f (merge_sort R (map_to_list m).*2) = Ok (merge_sort R (map_to_list m).*2).
Proof.
  intros Hf. apply collect_id, Forall_forall. intros a Ha. rewrite merge_sort_Permutation in Ha.
  apply list_elem_of_fmap in Ha as ([k b] & -> & Hk). apply elem_of_map_to_list in Hk. by eapply Hf.
Qed.

Lemma collect_rows {K} `{Countable K} {A} (f : A → result CoordError A) (R : relation A)
    `{!∀ x y, Decision (R x y)} (P : A → Prop) `{!∀ x, Decision (P x)} (m : gmap K A) :
  (∀ k a, m !! k = Some a → f a = Ok a) →
  collect f (merge_sort R (filter P (map_to_list m).*2)) = Ok (merge_sort R (filter P (map_to_list m).*2)).
Proof.
  intros Hf. apply collect_id, Forall_forall. intros a Ha. rewrite merge_sort_Permutation in Ha.
  apply list_elem_of_filter in Ha as [_ Ha]. apply list_elem_of_fmap in Ha as ([k b] & -> & Hk).
  apply elem_of_map_to_list in Hk. by eapply Hf.
Qed.

(** C36. Every row the cluster ever stored can be read back: in every history, the
    queries for members, the leader, ports, jobs, target health and fleet tables succeed. *)
Theorem cluster_rows_readable (es : list ha_event) (db : Database) (self : TargetHealthCatalog) (clock : Z) :
  ha_run db_empty es db → 0 ≤ clock →
  is_ok (active_members clock db) = true ∧ is_ok (current_leader clock db) = true ∧
  is_ok (ports_active clock db) = true ∧ is_ok (jobs_active clock db) = true ∧
  is_ok (health_list self clock db) = true ∧ is_ok (generations db) = true ∧
  is_ok (conflicts None None db) = true.
Proof.
  intros Hr Hc. pose proof (ha_run_ok _ _ _ db_ok_empty Hr) as H. split_and!.
  - unfold active_members. rewrite collect_rows; [done|]. intros k m Hk.
    apply member_row_read. by destruct (ok_members db H k m Hk).
  - unfold current_leader. destruct (db.(ha_leader)) as [l|] eqn:El; [|done].
    destruct (leader_live db l clock); [|done]. rewrite leader_row_read; [done|]. by destruct (ok_leader db H l El).
  - unfold ports_active. rewrite collect_rows; [done|]. intros k p Hk.
    apply lease_row_read. by destruct (ok_ports db H k p Hk) as (? & ? & _).
  - unfold jobs_active. rewrite collect_rows; [done|]. intros k j Hk.
    apply job_row_read. by destruct (ok_jobs db H k j Hk) as (? & ? & _).
  - unfold health_list. rewrite collect_all_rows; [by rewrite sqlite_now_nonneg|]. intros k h Hk.
    apply health_row_read. by destruct (ok_health db H k h Hk).
  - unfold generations. rewrite collect_all_rows; [done|]. intros k g Hk.
    apply generation_row_read. by destruct (ok_generations db H k g Hk) as (? & ? & _).
  - unfold conflicts. cbn [mbind result_bind]. rewrite collect_rows; [done|]. intros k c Hk.
    apply conflict_row_read. by destruct (ok_conflicts db H k c Hk).
Qed.

(** While a leader and its member lease are live, no other process takes the
    leadership, and no other process passes the fence, with any token. *)
Theorem live_leader_excludes (self : HaCoordinator) (l : LeadershipLease) (clock : Z) (db : Database) :
  db_ok db → coordinator_ok self → db.(ha_leader) = Some l → leader_live db l clock = true →
  (l.(l_instance_id), l.(l_incarnation_id)) ≠ identity self →
  (∀ r db', try_acquire_leadership self clock db = Ok (r, db') → r = None ∧ db' = db) ∧
  (∀ token c, fence_holds self token c db = false).
Proof.
  intros H Hs El Hlive Hne. split.
  - intros r db' E. unfold try_acquire_leadership in E. tx_inv E.
    match goal with E : read_sqlite_leader _ = Ok _ |- _ =>
      unfold read_sqlite_leader in E; rewrite El, leader_row_read in E by (by destruct (ok_leader db H l El));
      injection E as <- end.
    tx_inv E. apply andb_true_iff in Hlive as [Ht Hm].
    match goal with E : sqlite_member_is_active _ _ _ _ = Ok ?b |- _ =>
      unfold sqlite_member_is_active in E; tx_inv E; rewrite Hm in E; injection E as <- end.
    rewrite Ht in E. cbn in E. rewrite andb_true_r in E.
    destruct (bool_decide _ && bool_decide _) eqn:Eb; [|by injection E as <- <-].
    apply andb_true_iff in Eb as [?%bool_decide_eq_true_1 ?%bool_decide_eq_true_1].
    exfalso. apply Hne. unfold identity. congruence.
  - intros token c. unfold fence_holds. rewrite El. apply not_true_is_false. intros Hb.
    rewrite !andb_true_iff, !bool_decide_eq_true in Hb. apply Hne. unfold identity. naive_solver congruence.
Qed.

End properties.

(** ** Witnesses *)

Definition ex_ports : PublicPortOwnership := {| po_coordinator := ex_a; po_lease_seconds := 20 |}.
Definition ex_written : Database := run_or (port_acquire ex_ports PortTcp 443 7 9 125 125 1 ex_led) ex_led.

Lemma ex_write_step : @ha_step ex_json ex_led (Some (Wrote (identity ex_a) 1)) ex_written.
Proof.
  apply step_write. eapply (write_port_acquire ex_ports PortTcp 443 7 9 125 125). vm_compute. reflexivity.
Qed.

Lemma cluster_refines_epochs_witness :
  epoch_step (epochs_of ex_led) (Some (Wrote (identity ex_a) 1)) (epochs_of ex_written).
Proof. exact (proj2 (@cluster_refines_epochs ex_json _ _ _ ex_led_ok ex_write_step)). Defined.

Lemma ex_history : @ha_run ex_json db_empty [Led (identity ex_a) 1; Wrote (identity ex_a) 1] ex_written.
Proof.
  eapply (run_step _ None); [eapply (step_member ex_a 100); [apply ex_process_ok|vm_compute; reflexivity]|].
  eapply (run_step _ None); [eapply (step_member ex_b 110); [apply ex_process_ok|vm_compute; reflexivity]|].
  eapply (run_step _ (Some (Led (identity ex_a) 1)) _ [Wrote (identity ex_a) 1]).
  { eapply (step_acquire ex_a 120 (default _ ex_led.(ha_leader))); [apply ex_process_ok|vm_compute; reflexivity]. }
  eapply (run_step _ (Some (Wrote (identity ex_a) 1)) _ []); [exact ex_write_step|constructor].
  Unshelve. exact {| l_instance_id := []; l_incarnation_id := []; l_fencing_token := 1; l_acquired := 0;
                     l_renewed := 0; l_lease_until := 0 |}.
Qed.

Lemma fencing_in_every_history_witness : in_order [Led (identity ex_a) 1; Wrote (identity ex_a) 1].
Proof. exact (@fencing_in_every_history ex_json _ _ ex_history). Defined.

Lemma cluster_rows_readable_witness : is_ok (ports_active 130 ex_written) = true.
Proof.
  assert (Hc : 0 ≤ 130) by lia.
  exact (proj1 (proj2 (proj2 (@cluster_rows_readable ex_json _ _ ex_catalog 130 ex_history Hc)))).
Defined.

Lemma live_leader_excludes_witness :
  try_acquire_leadership ex_b 125 ex_led = Ok (None, ex_led).
Proof.
  destruct (ex_led.(ha_leader)) as [l|] eqn:El; [|vm_compute in El; discriminate El].
  destruct (@live_leader_excludes ex_json ex_b l 125 ex_led ex_led_ok (ex_process_ok _ _) El) as [H _].
  - vm_compute in El. injection El as <-. vm_compute. reflexivity.
  - vm_compute in El. injection El as <-. vm_compute. discriminate.
  - destruct (try_acquire_leadership ex_b 125 ex_led) as [[r db']|e] eqn:E.
    + destruct (H r db' eq_refl) as [-> ->]. reflexivity.
    + exfalso. vm_compute in E. discriminate E.
Defined.
