(* ===== verification/HaRuntime.v ===== *)
(** * The runtime of a cluster member ([ha_runtime.rs])

    Configuration from the environment, the heartbeat that renews the member and
    leader leases, and the cells through which the rest of the process learns that
    it leads.

    The environment is a function from names to the values [env::var] finds. Between
    the two transactions of a heartbeat other processes may commit; [between] stands
    for what they do. *)

From S2P Require Import Prelude RustStr HaTables HaCoordination PortOwnership JobLeases TargetHealth FleetCoordination HaSystem.

Local Open Scope Z_scope.
Set Default Proof Using "Type".

Definition DEFAULT_MEMBER_LEASE_SECONDS : Z := 30.
Definition DEFAULT_LEADER_LEASE_SECONDS : Z := 15.
Definition DEFAULT_HEARTBEAT_SECONDS : Z := 5.
Definition DEFAULT_RESOURCE_LEASE_SECONDS : Z := 15.
Definition DEFAULT_JOB_LEASE_SECONDS : Z := 30.
Definition DEFAULT_TARGET_SUCCESS_THRESHOLD : Z := 2.
Definition DEFAULT_TARGET_FAILURE_THRESHOLD : Z := 3.
Definition DEFAULT_TARGET_STALE_AFTER_SECONDS : Z := 30.
Definition RUNTIME_EVENT_CAPACITY : nat := 64.

(** ** Configuration *)

Record HaRuntimeConfig := {
  cfg_instance_id : rstr;
  cfg_metadata_json : rstr;
  cfg_member_lease : Z;
  cfg_leader_lease : Z;
  cfg_heartbeat : Z;
  cfg_resource_lease : Z;
  cfg_job_lease : Z;
  cfg_target_success_threshold : Z;
  cfg_target_failure_threshold : Z;
  cfg_target_stale_after : Z;
}.

Definition environment := rstr → option rstr.

(** A variable that is set to something other than white space. *)
Definition trimmed_var (env : environment) (name : rstr) : option rstr :=
  value ← env name; let value := trim value in if str_len value =? 0 then None else Some value.

Definition parse_bounded (max : Z) (env : environment) (name : rstr) (default minimum maximum : Z)
    : result CoordError Z :=
  value ← match env name with
          | Some value => ok_or (parse_uint max (trim value)) EnvNotInteger
          | None => Ok default
          end;
  _ ← ensure ((minimum <=? value) && (value <=? maximum)) EnvOutOfRange;
  Ok value.

Definition parse_duration : environment → rstr → Z → Z → Z → result CoordError Z := parse_bounded U64_MAX.
Definition parse_u32 : environment → rstr → Z → Z → Z → result CoordError Z := parse_bounded U32_MAX.

Definition from_environment (env : environment) (default_instance_id : rstr)
    : result CoordError HaRuntimeConfig :=
  let instance := default default_instance_id (trimmed_var env (lit "LINKLAKE_HA_INSTANCE_ID")) in
  let metadata := default (lit "{}") (trimmed_var env (lit "LINKLAKE_HA_METADATA_JSON")) in
  member ← parse_duration env (lit "LINKLAKE_HA_MEMBER_LEASE_SECONDS") DEFAULT_MEMBER_LEASE_SECONDS 5 300;
  leader ← parse_duration env (lit "LINKLAKE_HA_LEADER_LEASE_SECONDS") DEFAULT_LEADER_LEASE_SECONDS 3 120;
  heartbeat ← parse_duration env (lit "LINKLAKE_HA_HEARTBEAT_SECONDS") DEFAULT_HEARTBEAT_SECONDS 1 60;
  resource ← parse_duration env (lit "LINKLAKE_HA_RESOURCE_LEASE_SECONDS") DEFAULT_RESOURCE_LEASE_SECONDS 2 300;
  job ← parse_duration env (lit "LINKLAKE_HA_JOB_LEASE_SECONDS") DEFAULT_JOB_LEASE_SECONDS 2 300;
  _ ← ensure (leader <=? member) LeaderLeaseExceedsMember;
  _ ← ensure ((heartbeat <? leader) && (heartbeat <? member) && (heartbeat <? resource) &&
              (heartbeat <? job)) HeartbeatTooLong;
  success ← parse_u32 env (lit "LINKLAKE_TARGET_HEALTH_SUCCESS_THRESHOLD") DEFAULT_TARGET_SUCCESS_THRESHOLD 1 1000;
  failure ← parse_u32 env (lit "LINKLAKE_TARGET_HEALTH_FAILURE_THRESHOLD") DEFAULT_TARGET_FAILURE_THRESHOLD 1 1000;
  stale ← parse_duration env (lit "LINKLAKE_TARGET_HEALTH_STALE_SECONDS") DEFAULT_TARGET_STALE_AFTER_SECONDS 1 86400;
  Ok {| cfg_instance_id := instance; cfg_metadata_json := metadata; cfg_member_lease := member;
        cfg_leader_lease := leader; cfg_heartbeat := heartbeat; cfg_resource_lease := resource;
        cfg_job_lease := job; cfg_target_success_threshold := success;
        cfg_target_failure_threshold := failure; cfg_target_stale_after := stale |}.

(** ** State *)

Record HaRuntimeEvent := {
  ev_at : Z;
  ev_code : rstr;
  ev_severity : rstr;
  ev_message : rstr;
  ev_fencing_token : option Z;
}.

Inductive LeadershipTransition := Gained | Retained | Lost | Follower.

Record HaRuntime := {
  coordinator : HaCoordinator;
  public_ports : PublicPortOwnership;
  jobs : JobLeases;
  rt_target_health : TargetHealthCatalog;
  fleet : FleetCoordination;
  leadership_tx : option LeadershipLease;
  leader : bool;
  rt_fencing_token : Z;
  events : list HaRuntimeEvent;
  heartbeat : Z;
}.

Definition set_cells (self : HaRuntime) (tx : option LeadershipLease) (is_leader : bool) (token : Z) : HaRuntime :=
  {| coordinator := self.(coordinator); public_ports := self.(public_ports); jobs := self.(jobs);
     rt_target_health := self.(rt_target_health); fleet := self.(fleet); leadership_tx := tx;
     leader := is_leader; rt_fencing_token := token; events := self.(events);
     heartbeat := self.(heartbeat) |}.

(** The stores of the three cells, in single steps. *)
Definition store_leader (self : HaRuntime) (b : bool) : HaRuntime :=
  set_cells self self.(leadership_tx) b self.(rt_fencing_token).
Definition store_token (self : HaRuntime) (token : Z) : HaRuntime :=
  set_cells self self.(leadership_tx) self.(leader) token.
Definition send_replace (self : HaRuntime) (tx : option LeadershipLease) : HaRuntime :=
  set_cells self tx self.(leader) self.(rt_fencing_token).

Definition record_event (self : HaRuntime) (at_ : Z) (code severity message : rstr) (token : option Z) : HaRuntime :=
  let event := {| ev_at := at_; ev_code := code; ev_severity := severity; ev_message := message;
                  ev_fencing_token := token |} in
  {| coordinator := self.(coordinator); public_ports := self.(public_ports); jobs := self.(jobs);
     rt_target_health := self.(rt_target_health); fleet := self.(fleet);
     leadership_tx := self.(leadership_tx); leader := self.(leader);
     rt_fencing_token := self.(rt_fencing_token);
     events := take RUNTIME_EVENT_CAPACITY (event :: self.(events)); heartbeat := self.(heartbeat) |}.

Definition recent_events (self : HaRuntime) (limit : nat) : list HaRuntimeEvent := take limit self.(events).

Definition clear_leadership (self : HaRuntime) : bool * HaRuntime :=
  (self.(leader), send_replace (store_token (store_leader self false) 0) None).

Definition publish_leadership (self : HaRuntime) (leadership : option LeadershipLease) : HaRuntime :=
  match leadership with
  | Some lease =>
      store_leader (store_token (send_replace self (Some lease)) lease.(l_fencing_token)) true
  | None => (clear_leadership self).2
  end.

Definition is_leader (self : HaRuntime) : bool := self.(leader).
Definition leadership (self : HaRuntime) : option LeadershipLease := self.(leadership_tx).

(** The token is loaded first, the flag second. *)
Definition fencing_token_loads (token : Z) (flag : bool) : result CoordError Z :=
  _ ← ensure (flag && (0 <? token)) NotLeader; Ok token.
Definition fencing_token (self : HaRuntime) : result CoordError Z :=
  fencing_token_loads self.(rt_fencing_token) (is_leader self).

(** ** Operations *)

Section json.
Context {J : JsonLib}.

(** [uuid] is the random identifier of the incarnation. *)
Definition runtime_open (config : HaRuntimeConfig) (uuid : rstr) : result CoordError HaRuntime :=
  coordinator ← coordinator_open config.(cfg_instance_id) config.(cfg_metadata_json) uuid
                  config.(cfg_member_lease) config.(cfg_leader_lease);
  public_ports ← ownership_open coordinator config.(cfg_resource_lease);
  jobs ← jobs_open coordinator config.(cfg_job_lease);
  health ← health_open coordinator config.(cfg_target_success_threshold)
             config.(cfg_target_failure_threshold) config.(cfg_target_stale_after);
  Ok {| coordinator := coordinator; public_ports := public_ports; jobs := jobs;
        rt_target_health := health; fleet := {| fc_coordinator := coordinator |};
        leadership_tx := None; leader := false; rt_fencing_token := 0; events := [];
        heartbeat := config.(cfg_heartbeat) |}.

Definition token_of (self : HaRuntime) : option Z := l_fencing_token <$> leadership self.

(** The member was renewed and the leader lease asked for; [c1] and [c2] are the
    clocks of the two transactions, [at_] the one of the event. An error leaves what
    was committed before it. *)
Definition bootstrap (claimed : bool) (c1 c2 at_ : Z) (between : Database → Database)
    (self : HaRuntime) (db : Database)
    : result CoordError (HaMember * LeadershipTransition) * HaRuntime * Database :=
  let db := (recover_stale_sqlite_leases claimed db).2 in
  match register_or_renew_member self.(coordinator) c1 db with
  | Err e => (Err e, self, db)
  | Ok (member, db) =>
      let db := between db in
      match try_acquire_leadership self.(coordinator) c2 db with
      | Err e => (Err e, self, db)
      | Ok (lease, db) =>
          let transition := match lease with Some _ => Gained | None => Follower end in
          let self := publish_leadership self lease in
          let self :=
            match leadership self with
            | Some lease => record_event self at_ (lit "leader_acquired") (lit "info")
                              (lit "HA leadership acquired") (Some lease.(l_fencing_token))
            | None => record_event self at_ (lit "follower_started") (lit "info")
                        (lit "HA instance is a follower") None
            end in
          (Ok (member, transition), self, db)
      end
  end.

(** The second transaction of a refresh. *)
Definition refresh_leadership (self : HaRuntime) (c2 : Z) (db : Database)
    : result CoordError (option LeadershipLease * Database) :=
  match leadership self with
  | Some lease => renew_leadership self.(coordinator) lease.(l_fencing_token) c2 db
  | None => try_acquire_leadership self.(coordinator) c2 db
  end.

Definition transition_of (previous next : option LeadershipLease) : LeadershipTransition :=
  match previous, next with
  | None, None => Follower
  | None, Some _ => Gained
  | Some _, None => Lost
  | Some _, Some _ => Retained
  end.

Definition refresh (c1 c2 at_ : Z) (between : Database → Database) (self : HaRuntime) (db : Database)
    : result CoordError LeadershipTransition * HaRuntime * Database :=
  match register_or_renew_member self.(coordinator) c1 db with
  | Err e => (Err e, self, db)
  | Ok (_, db) =>
      let db := between db in
      let previous := leadership self in
      match refresh_leadership self c2 db with
      | Err e => (Err e, self, db)
      | Ok (next, db) =>
          let transition := transition_of previous next in
          let self := publish_leadership self next in
          let self :=
            match transition with
            | Gained => record_event self at_ (lit "leader_acquired") (lit "info")
                          (lit "HA leadership acquired") (token_of self)
            | Lost => record_event self at_ (lit "leader_lost") (lit "warning")
                        (lit "HA leadership was lost and mutating work is fenced")
                        (l_fencing_token <$> previous)
            | Retained | Follower => self
            end in
          (Ok transition, self, db)
      end
  end.

(** What was committed when a refresh is cut off by its timeout. *)
Inductive cut := CutBeforeMember | CutBeforeLeadership | CutBeforePublish.

Definition refresh_cut (at_cut : cut) (c1 c2 : Z) (between : Database → Database) (self : HaRuntime)
    (db : Database) : Database :=
  match at_cut with
  | CutBeforeMember => db
  | CutBeforeLeadership =>
      match register_or_renew_member self.(coordinator) c1 db with
      | Ok (_, db) => between db
      | Err _ => db
      end
  | CutBeforePublish => (refresh c1 c2 0 between self db).2
  end.

(** One round of the heartbeat loop; [timed_out] says that the timeout fired, and
    where. *)
Definition heartbeat_round (timed_out : option cut) (c1 c2 at_ : Z) (between : Database → Database)
    (self : HaRuntime) (db : Database) : HaRuntime * Database :=
  match timed_out with
  | Some at_cut =>
      (record_event (clear_leadership self).2 at_ (lit "heartbeat_timeout") (lit "warning")
         (lit "HA heartbeat timed out; leadership was cleared") None,
       refresh_cut at_cut c1 c2 between self db)
  | None =>
      match refresh c1 c2 at_ between self db with
      | (Ok _, self, db) => (self, db)
      | (Err _, self, db) =>
          (record_event (clear_leadership self).2 at_ (lit "heartbeat_failed") (lit "warning")
             (lit "HA heartbeat failed; leadership was cleared") None, db)
      end
  end.

(** One round of the maintenance loop: the leader prunes expired members and, unless
    a shutdown was requested or the leadership is gone by then, expired ports. *)
Definition maintenance_round (c1 c2 : Z) (shutdown leader_after : bool) (between : Database → Database)
    (self : HaRuntime) (db : Database) : Database :=
  if is_leader self then
    let db := between (prune_expired_members c1 db).2 in
    if shutdown then db
    else if leader_after then (ports_prune_expired c2 db).2 else db
  else db.

(** ** Histories of a process

    What one process does, with what the others commit before and in between. *)

Inductive runtime_op :=
  | Bootstrap (claimed : bool) (c1 c2 at_ : Z) (before between : Database → Database)
  | Heartbeat (timed_out : option cut) (c1 c2 at_ : Z) (before between : Database → Database)
  | Maintenance (c1 c2 : Z) (shutdown leader_after : bool) (before between : Database → Database)
  | Shutdown (before : Database → Database).

Definition runtime_apply (op : runtime_op) (s : HaRuntime * Database) : HaRuntime * Database :=
  let '(self, db) := s in
  match op with
  | Bootstrap claimed c1 c2 at_ before between =>
      let '(_, self, db) := bootstrap claimed c1 c2 at_ between self (before db) in (self, db)
  | Heartbeat timed_out c1 c2 at_ before between =>
      heartbeat_round timed_out c1 c2 at_ between self (before db)
  | Maintenance c1 c2 shutdown leader_after before between =>
      (self, maintenance_round c1 c2 shutdown leader_after between self (before db))
  | Shutdown before => ((clear_leadership self).2, before db)
  end.

Definition runtime_run (ops : list runtime_op) (s : HaRuntime * Database) : HaRuntime * Database :=
  fold_left (λ s op, runtime_apply op s) ops s.

(** Other processes only run transactions of the cluster. *)
Definition transactions (f : Database → Database) : Prop := ∀ db, ∃ es, ha_run db es (f db).

Definition op_transactions (op : runtime_op) : Prop :=
  match op with
  | Bootstrap _ _ _ _ before between | Heartbeat _ _ _ _ before between
  | Maintenance _ _ _ _ before between => transactions before ∧ transactions between
  | Shutdown before => transactions before
  end.

(** ** The cells hold granted tokens *)

Definition granted (self : HaRuntime) (es : list ha_event) (token : Z) : Prop :=
  Led (identity self.(coordinator)) token ∈ es.

(** The cells after any of their stores. *)
Definition cells_ok (es : list ha_event) (self : HaRuntime) : Prop :=
  (self.(rt_fencing_token) = 0 ∨ granted self es self.(rt_fencing_token)) ∧
  (∀ l, self.(leadership_tx) = Some l → granted self es l.(l_fencing_token)).

Lemma cells_ok_store_leader es self b : cells_ok es self → cells_ok es (store_leader self b).
Proof. done. Qed.
Lemma cells_ok_store_token es self token :
  token = 0 ∨ granted self es token → cells_ok es self → cells_ok es (store_token self token).
Proof. intros Ht [_ Hl]. by split. Qed.
Lemma cells_ok_send_replace es self tx :
  (∀ l, tx = Some l → granted self es l.(l_fencing_token)) → cells_ok es self → cells_ok es (send_replace self tx).
Proof. intros Ht [Hl _]. by split. Qed.
Lemma cells_ok_record es self a b c d e : cells_ok es self → cells_ok es (record_event self a b c d e).
Proof. done. Qed.

Lemma cells_ok_clear es self : cells_ok es self → cells_ok es (clear_leadership self).2.
Proof.
  intros H. apply cells_ok_send_replace; [done|]. apply cells_ok_store_token; [by left|].
  by apply cells_ok_store_leader.
Qed.

Lemma cells_ok_publish es self next :
  (∀ l, next = Some l → granted self es l.(l_fencing_token)) → cells_ok es self →
  cells_ok es (publish_leadership self next).
Proof.
  intros Hn H. destruct next as [l|]; [|by apply cells_ok_clear]. specialize (Hn l eq_refl).
  apply cells_ok_store_leader, cells_ok_store_token; [by right|].
  apply cells_ok_send_replace; [|done]. by intros ? [= <-].
Qed.

Lemma cells_ok_more es es' self : cells_ok es self → cells_ok (es ++ es') self.
Proof. unfold cells_ok, granted. intros [H1 H2]. split; [|intros l E; specialize (H2 l E)]; set_solver. Qed.

Lemma ha_run_app db es db1 es' db2 : ha_run db es db1 → ha_run db1 es' db2 → ha_run db (es ++ es') db2.
Proof.
  intros H1 H2. induction H1 as [|db e db1' es db2' Hs _ IH]; [done|]. rewrite <- app_assoc.
  econstructor; [exact Hs|by apply IH].
Qed.

Lemma ha_run_step db e db' : ha_step db e db' → ha_run db (opt_event e) db'.
Proof. intros Hs. rewrite <- (app_nil_r (opt_event e)). econstructor; [exact Hs|constructor]. Qed.

(** The database has a history that granted what the cells hold. *)
Definition runtime_inv (self : HaRuntime) (db : Database) : Prop :=
  coordinator_ok self.(coordinator) ∧ ∃ es, ha_run db_empty es db ∧ cells_ok es self.

Lemma runtime_inv_db self db es db' : runtime_inv self db → ha_run db es db' → runtime_inv self db'.
Proof.
  intros (Hc & es0 & Hr & Hcells) Hr'. split; [done|]. exists (es0 ++ es).
  eauto using ha_run_app, cells_ok_more.
Qed.

Lemma runtime_inv_cells self self' db :
  self'.(coordinator) = self.(coordinator) → (∀ es, cells_ok es self → cells_ok es self') →
  runtime_inv self db → runtime_inv self' db.
Proof. intros Ec Hs (Hc & es & Hr & Hcells). split; [by rewrite Ec|]. eauto. Qed.

Lemma runtime_inv_publish self next db es db' :
  runtime_inv self db → ha_run db es db' →
  (∀ l, next = Some l → Led (identity self.(coordinator)) l.(l_fencing_token) ∈ es) →
  runtime_inv (publish_leadership self next) db'.
Proof.
  intros (Hc & es0 & Hr & Hcells) Hr' Hn. split; [by destruct next|]. exists (es0 ++ es).
  split; [by eapply ha_run_app|]. apply cells_ok_publish; [|by apply cells_ok_more].
  intros l El. specialize (Hn l El). unfold granted. set_solver.
Qed.

Lemma runtime_inv_clear self db : runtime_inv self db → runtime_inv (clear_leadership self).2 db.
Proof. apply runtime_inv_cells; [done|]. intros es. apply cells_ok_clear. Qed.

Lemma runtime_inv_record self db a b c d e : runtime_inv self db → runtime_inv (record_event self a b c d e) db.
Proof. by apply runtime_inv_cells. Qed.

Lemma runtime_inv_transactions self db f : runtime_inv self db → transactions f → runtime_inv self (f db).
Proof. intros H Hf. destruct (Hf db) as [es Hr]. by eapply runtime_inv_db. Qed.

Lemma runtime_inv_member self c db m db' :
  runtime_inv self db → register_or_renew_member self.(coordinator) c db = Ok (m, db') → runtime_inv self db'.
Proof. intros H E. eapply runtime_inv_db; [done|]. eapply ha_run_step, step_member; [apply H|exact E]. Qed.

(** The leadership transaction of this process and what it publishes. *)
Lemma runtime_inv_acquire self c db next db' :
  runtime_inv self db → try_acquire_leadership self.(coordinator) c db = Ok (next, db') →
  runtime_inv (publish_leadership self next) db'.
Proof.
  intros H E. destruct next as [l|].
  - eapply runtime_inv_publish; [done|eapply ha_run_step, step_acquire; [apply H|exact E]|].
    intros ? [= <-]. apply list_elem_of_here.
  - eapply runtime_inv_publish; [done|eapply ha_run_step, step_refused; [apply H|exact E]|done].
Qed.

Lemma runtime_inv_renew self token c db next db' :
  runtime_inv self db → renew_leadership self.(coordinator) token c db = Ok (next, db') →
  runtime_inv (publish_leadership self next) db'.
Proof.
  intros H E. destruct next as [l|].
  - eapply runtime_inv_publish; [done|eapply ha_run_step, step_renew; [apply H|exact E]|].
    intros ? [= <-]. apply list_elem_of_here.
  - eapply runtime_inv_publish; [done|eapply ha_run_step, step_not_renewed; [apply H|exact E]|done].
Qed.

Lemma runtime_inv_refresh_leadership self c db next db' :
  runtime_inv self db → refresh_leadership self c db = Ok (next, db') →
  runtime_inv (publish_leadership self next) db'.
Proof.
  intros H. unfold refresh_leadership. destruct (leadership self); eauto using runtime_inv_renew, runtime_inv_acquire.
Qed.

Lemma runtime_inv_refresh c1 c2 at_ between self db :
  transactions between → runtime_inv self db →
  runtime_inv (refresh c1 c2 at_ between self db).1.2 (refresh c1 c2 at_ between self db).2 ∧
  runtime_inv self (refresh c1 c2 at_ between self db).2.
Proof.
  intros Hb H. unfold refresh. destruct (register_or_renew_member _ _ _) as [[m db1]|e] eqn:Em; [|done].
  pose proof (runtime_inv_transactions _ _ _ (runtime_inv_member _ _ _ _ _ H Em) Hb) as H1.
  destruct (refresh_leadership _ _ _) as [[next db2]|e] eqn:El; [|done]. cbn.
  pose proof (runtime_inv_refresh_leadership _ _ _ _ _ H1 El) as H2. split.
  - destruct (transition_of _ _); auto using runtime_inv_record.
  - unfold refresh_leadership in El. destruct H1 as (Hc & es & Hr & Hcells).
    assert (∃ e, ha_step (between db1) e db2) as [e Hs].
    { destruct (leadership self), next; eexists; eauto using step_acquire, step_refused, step_renew, step_not_renewed. }
    eapply runtime_inv_db; [|by apply ha_run_step]. split; eauto.
Qed.

Lemma runtime_inv_cut at_cut c1 c2 between self db :
  transactions between → runtime_inv self db → runtime_inv self (refresh_cut at_cut c1 c2 between self db).
Proof.
  intros Hb H. destruct at_cut; cbn; [done| |by apply runtime_inv_refresh].
  destruct (register_or_renew_member _ _ _) as [[m db1]|e] eqn:Em; [|done].
  eauto using runtime_inv_transactions, runtime_inv_member.
Qed.

Lemma runtime_inv_heartbeat timed_out c1 c2 at_ between self db :
  transactions between → runtime_inv self db →
  let r := heartbeat_round timed_out c1 c2 at_ between self db in runtime_inv r.1 r.2.
Proof.
  intros Hb H. unfold heartbeat_round. destruct timed_out as [at_cut|]; cbn zeta.
  - apply runtime_inv_record, runtime_inv_clear. by apply runtime_inv_cut.
  - destruct (runtime_inv_refresh c1 c2 at_ between self db Hb H) as [H1 _].
    destruct (refresh c1 c2 at_ between self db) as [[[tr|e] self'] db']; cbn in *; [done|].
    by apply runtime_inv_record, runtime_inv_clear.
Qed.

Lemma runtime_inv_bootstrap claimed c1 c2 at_ between self db :
  transactions between → runtime_inv self db →
  let r := bootstrap claimed c1 c2 at_ between self db in runtime_inv r.1.2 r.2.
Proof.
  intros Hb H. cbn zeta. unfold bootstrap.
  assert (H0 : runtime_inv self (recover_stale_sqlite_leases claimed db).2).
  { eapply runtime_inv_db; [done|]. apply ha_run_step, step_recover. }
  destruct (register_or_renew_member _ _ _) as [[m db1]|e] eqn:Em; [|done].
  pose proof (runtime_inv_transactions _ _ _ (runtime_inv_member _ _ _ _ _ H0 Em) Hb) as H1.
  destruct (try_acquire_leadership _ _ _) as [[next db2]|e] eqn:El; [|done]. cbn.
  pose proof (runtime_inv_acquire _ _ _ _ _ H1 El) as H2.
  destruct (leadership _); by apply runtime_inv_record.
Qed.

Lemma runtime_inv_maintenance c1 c2 shutdown leader_after between self db :
  transactions between → runtime_inv self db →
  runtime_inv self (maintenance_round c1 c2 shutdown leader_after between self db).
Proof.
  intros Hb H. unfold maintenance_round. destruct (is_leader self); [|done].
  assert (H1 : runtime_inv self (between (prune_expired_members c1 db).2)).
  { apply runtime_inv_transactions; [|done]. eapply runtime_inv_db; [done|]. apply ha_run_step, step_prune_members. }
  destruct shutdown; [done|]. destruct leader_after; [|done].
  eapply runtime_inv_db; [done|]. apply ha_run_step, step_prune_ports.
Qed.

Lemma runtime_inv_apply op self db :
  op_transactions op → runtime_inv self db →
  let r := runtime_apply op (self, db) in runtime_inv r.1 r.2.
Proof.
  intros Hop H. destruct op as [claimed c1 c2 at_ before between|to c1 c2 at_ before between
    |c1 c2 sd la before between|before]; cbn -[bootstrap heartbeat_round maintenance_round clear_leadership] in *.
  - destruct Hop as [H1 H2]. pose proof (runtime_inv_bootstrap claimed c1 c2 at_ between self (before db) H2
      (runtime_inv_transactions _ _ _ H H1)) as Hb. by destruct (bootstrap _ _ _ _ _ _ _) as [[r self'] db'].
  - destruct Hop as [H1 H2]. apply runtime_inv_heartbeat; [done|]. by apply runtime_inv_transactions.
  - destruct Hop as [H1 H2]. apply runtime_inv_maintenance; [done|]. by apply runtime_inv_transactions.
  - apply runtime_inv_clear. by apply runtime_inv_transactions.
Qed.

Lemma runtime_inv_run ops s :
  Forall op_transactions ops → runtime_inv s.1 s.2 → runtime_inv (runtime_run ops s).1 (runtime_run ops s).2.
Proof.
  revert s. induction ops as [|op ops IH]; intros [self db] Hops H; [done|].
  inversion Hops; subst. apply IH; [done|]. by apply runtime_inv_apply.
Qed.

(** ** A leader can write *)

(** [l] was just granted or renewed at [now]: the row, and the member row behind it. *)
Definition freshly_led (self : HaCoordinator) (now : Z) (db' : Database) (l : LeadershipLease) : Prop :=
  db'.(ha_leader) = Some l ∧ l.(l_instance_id) = self.(instance_id) ∧
  l.(l_incarnation_id) = self.(incarnation_id) ∧ 1 ≤ l.(l_fencing_token) ∧
  l.(l_lease_until) = now + self.(leader_lease_seconds) ∧
  member_active db' self.(instance_id) self.(incarnation_id) now = true.

Lemma renewed_freshly self token now db l db' :
  db_ok db → coordinator_ok self → 0 ≤ now →
  member_active db self.(instance_id) self.(incarnation_id) now = true →
  renew_sqlite_leader self token now db = Ok (Some l, db') → freshly_led self now db' l.
Proof.
  intros H Hs Hnow Hm E. destruct (renew_leader_ok _ _ _ _ _ _ H Hs Hnow E) as (H' & _ & El & _ & old & Hr).
  destruct Hr as (_ & _ & _ & _ & _ & Ei & Ec & Eu & Em). destruct (ok_leader db' H' l El) as [_ [? _]].
  split_and!; try done. by unfold member_active; rewrite Em.
Qed.

Lemma acquired_freshly self now db l db' :
  db_ok db → coordinator_ok self → 0 ≤ now →
  member_active db self.(instance_id) self.(incarnation_id) now = true →
  acquire_new_leadership self now db = Ok (Some l, db') → freshly_led self now db' l.
Proof.
  intros H Hs Hnow Hm E. destruct (acquire_new_ok _ _ _ _ _ H Hs Hnow E) as (H' & l' & El' & El & Et & En & Em & Hr).
  injection El' as <-. destruct Hr as (Ei & Ec & Eu). destruct (ok_leader db' H' l El) as [_ [? _]].
  split_and!; try done. by unfold member_active; rewrite Em.
Qed.

Ltac active_inv :=
  match goal with E : (_ ← as_i64 _; Ok (member_active _ _ _ _)) = Ok _ |- _ => tx_inv E; injection E as <- end.

Lemma refresh_freshly self now db l db' :
  db_ok db → coordinator_ok self.(coordinator) →
  refresh_leadership self now db = Ok (Some l, db') → freshly_led self.(coordinator) now db' l.
Proof.
  intros H Hs E. unfold refresh_leadership in E. destruct (leadership self) as [old|].
  - unfold renew_leadership, sqlite_member_is_active in E. tx_inv E. active_inv.
    match type of E with (if ?b then _ else _) = _ => destruct b eqn:Em; [|done] end. by eapply renewed_freshly.
  - unfold try_acquire_leadership, sqlite_member_is_active in E. tx_inv E. active_inv.
    match type of E with match ?c with _ => _ end = _ => destruct c as [current|]; [|by eapply acquired_freshly] end.
    tx_inv E. destruct (_ && _ && _) eqn:Ec in E; [by eapply renewed_freshly|].
    destruct (_ && _) in E; [done|by eapply acquired_freshly].
Qed.

Lemma freshly_led_fence self now db l c :
  freshly_led self now db l →
  ∃ m, db.(ha_members) !! self.(instance_id) = Some m ∧ now < m.(m_lease_until) ∧
    (c < m.(m_lease_until) → c < now + self.(leader_lease_seconds) →
     fence_holds self l.(l_fencing_token) c db = true).
Proof.
  intros (El & Ei & Ec & _ & Eu & Hm). unfold member_active in Hm.
  destruct (_ !! _) as [m|] eqn:Em in Hm; [|done]. bool_prop. exists m. split_and!; [done..|].
  intros Hc1 Hc2. unfold fence_holds, leader_live, member_active. rewrite El, Ei, Ec, Em, Eu.
  rewrite !bool_decide_eq_true_2, Z.eqb_refl by done. cbn. by rewrite !(proj2 (Z.ltb_lt _ _)) by lia.
Qed.

(** After a heartbeat the process takes itself for the leader only when it can
    write: a round that fails or times out clears the leadership, and a token that is
    left passes the fence at the time of the round and until the leader lease of the
    round or the member lease runs out. *)
Theorem heartbeat_fails_closed (timed_out : option cut) (c1 c2 at_ : Z) (between : Database → Database)
    (self : HaRuntime) (db : Database) :
  db_ok db → coordinator_ok self.(coordinator) → transactions between →
  let r := heartbeat_round timed_out c1 c2 at_ between self db in
  match fencing_token r.1 with
  | Ok token =>
      timed_out = None ∧ ∃ m, r.2.(ha_members) !! self.(coordinator).(instance_id) = Some m ∧
        c2 < m.(m_lease_until) ∧
        ∀ c, c < m.(m_lease_until) → c < c2 + self.(coordinator).(leader_lease_seconds) →
          fence_holds self.(coordinator) token c r.2 = true
  | Err _ => is_leader r.1 = false ∧ leadership r.1 = None
  end.
Proof.
  intros H Hs Hb. cbn zeta. unfold heartbeat_round. destruct timed_out as [k|]; [done|]. unfold refresh.
  destruct (register_or_renew_member _ _ _) as [[m0 db1]|e] eqn:Em; [|done].
  destruct (register_member_ok _ _ _ _ _ H Hs Em) as [H1 _].
  assert (H2 : db_ok (between db1)) by (destruct (Hb db1) as [es Hr]; by eapply ha_run_ok).
  destruct (refresh_leadership _ _ _) as [[next db2]|e] eqn:El; [|done].
  destruct next as [l|]; [|by destruct (leadership self)].
  pose proof (refresh_freshly _ _ _ _ _ H2 Hs El) as Hl.
  assert (Ht : fencing_token (publish_leadership self (Some l)) = Ok l.(l_fencing_token)).
  { unfold fencing_token, fencing_token_loads. cbn. destruct Hl as (_ & _ & _ & Hpos & _).
    by rewrite (proj2 (Z.ltb_lt 0 _)) by lia. }
  assert (Hgoal : ∃ m, db2.(ha_members) !! self.(coordinator).(instance_id) = Some m ∧ c2 < m.(m_lease_until) ∧
    ∀ c, c < m.(m_lease_until) → c < c2 + self.(coordinator).(leader_lease_seconds) →
      fence_holds self.(coordinator) l.(l_fencing_token) c db2 = true).
  { destruct (freshly_led_fence _ _ _ _ 0 Hl) as (m & Hm & Hlt & _). exists m. split_and!; [done..|].
    intros c Hc1 Hc2. destruct (freshly_led_fence _ _ _ _ c Hl) as (m' & Hm' & _ & Hf). simplify_eq. auto. }
  unfold transition_of. destruct (leadership self); cbn [fst snd].
  - rewrite Ht. done.
  - change (fencing_token (record_event ?x _ _ _ _ _)) with (fencing_token x). rewrite Ht. done.
Qed.

Lemma coordinator_apply op s : (runtime_apply op s).1.(coordinator) = s.1.(coordinator).
Proof.
  destruct s as [self db]. destruct op as [claimed c1 c2 at_ before between|to c1 c2 at_ before between
    |c1 c2 sd la before between|before]; cbn; [| |done|done].
  - unfold bootstrap. destruct (register_or_renew_member _ _ _) as [[m db1]|e]; [|done].
    destruct (try_acquire_leadership _ _ _) as [[[l|] db2]|e]; done.
  - unfold heartbeat_round, refresh. destruct to; [done|].
    destruct (register_or_renew_member _ _ _) as [[m db1]|e]; [|done].
    destruct (refresh_leadership _ _ _) as [[[l|] db2]|e]; [| |done]; by destruct (leadership self).
Qed.

Lemma coordinator_run ops s : (runtime_run ops s).1.(coordinator) = s.1.(coordinator).
Proof.
  revert s. induction ops as [|op ops IH]; intros s; [done|]. etrans; [apply IH|apply coordinator_apply].
Qed.

(** A process acts only under tokens that the database granted to it: whatever it
    and the other processes do, every token its cells ever show, read together with
    any state of the leader flag, was granted to it in the history of the database, in
    which tokens are ordered and belong to one process each. *)
Theorem runtime_tokens_granted `{!JsonLaws J} (config : HaRuntimeConfig) (uuid : rstr) (rt : HaRuntime)
    (ops : list runtime_op) (es0 : list ha_event) (db : Database) :
  runtime_open config uuid = Ok rt → ha_run db_empty es0 db → Forall op_transactions ops →
  let s := runtime_run ops (rt, db) in
  ∃ es, ha_run db_empty es s.2 ∧ in_order es ∧
    ∀ flag token, fencing_token_loads s.1.(rt_fencing_token) flag = Ok token →
      Led (identity rt.(coordinator)) token ∈ es.
Proof.
  intros Ho Hr Hops. cbn zeta.
  assert (H0 : runtime_inv rt db).
  { unfold runtime_open in Ho. tx_inv Ho. injection Ho as <-. split; [by eapply coordinator_open_ok|].
    exists es0. split; [done|]. split; [by left|done]. }
  pose proof (runtime_inv_run ops (rt, db) Hops H0) as (_ & es & Hes & Htok & _). exists es. split; [done|].
  split; [by apply (epoch_run_after _ _ _ (ha_run_epochs _ _ _ db_ok_empty Hes))|].
  intros flag token E. unfold fencing_token_loads in E. tx_inv E. injection E as <-. bool_prop.
  destruct Htok as [Hz|Hg]; [lia|]. unfold granted in Hg. by rewrite coordinator_run in Hg.
Qed.

(** The bounds that [from_environment] establishes. *)
Definition config_ok (c : HaRuntimeConfig) : Prop :=
  5 ≤ c.(cfg_member_lease) ≤ 300 ∧ 3 ≤ c.(cfg_leader_lease) ≤ 120 ∧ c.(cfg_leader_lease) ≤ c.(cfg_member_lease) ∧
  2 ≤ c.(cfg_resource_lease) ≤ 300 ∧ 2 ≤ c.(cfg_job_lease) ≤ 300 ∧
  1 ≤ c.(cfg_heartbeat) < Z.min (Z.min c.(cfg_leader_lease) c.(cfg_member_lease))
                                (Z.min c.(cfg_resource_lease) c.(cfg_job_lease)) ∧
  1 ≤ c.(cfg_target_success_threshold) ≤ 1000 ∧ 1 ≤ c.(cfg_target_failure_threshold) ≤ 1000 ∧
  1 ≤ c.(cfg_target_stale_after) ≤ 86400.

Lemma parse_bounded_Ok max env name d lo hi v : parse_bounded max env name d lo hi = Ok v → lo ≤ v ≤ hi.
Proof. unfold parse_bounded. intros E. tx_inv E. injection E as <-. bool_prop. lia. Qed.

Lemma from_environment_Ok env d c : from_environment env d = Ok c → config_ok c.
Proof.
  unfold from_environment, parse_duration, parse_u32. intros E. tx_inv E. injection E as <-.
  repeat match goal with E : parse_bounded _ _ _ _ _ _ = Ok _ |- _ => apply parse_bounded_Ok in E end.
  bool_prop. unfold config_ok. cbn. lia.
Qed.

Lemma lease_seconds_Ok s m : 2 ≤ s ≤ m → lease_seconds s m = Ok s.
Proof. intros H. unfold lease_seconds. by rewrite !ensure_true by (apply Z.leb_le; lia). Qed.

(** A configuration that the environment yields is accepted by every component of
    the runtime: the process starts unless its instance name or metadata is invalid,
    and its heartbeat is shorter than each lease it has to renew. *)
Theorem configured_runtime_opens (env : environment) (name uuid : rstr) (config : HaRuntimeConfig) :
  from_environment env name = Ok config →
  validate_instance_id (trim config.(cfg_instance_id)) = Ok tt →
  is_ok (normalize_metadata_json config.(cfg_metadata_json)) = true →
  ∃ rt, runtime_open config uuid = Ok rt ∧ rt.(leader) = false ∧
    rt.(heartbeat) < rt.(coordinator).(leader_lease_seconds) ≤ rt.(coordinator).(member_lease_seconds) ∧
    rt.(heartbeat) < rt.(public_ports).(po_lease_seconds) ∧ rt.(heartbeat) < rt.(jobs).(jl_lease_seconds).
Proof.
  intros E Hi Hm. apply from_environment_Ok in E.
  destruct E as (H1 & H2 & H3 & H4 & H5 & H6 & H7 & H8 & H9).
  unfold runtime_open, coordinator_open, ownership_open, jobs_open, health_open.
  rewrite Hi. destruct (normalize_metadata_json _) as [metadata|]; [|done]. cbn [mbind result_bind].
  rewrite !lease_seconds_Ok by (unfold MAX_MEMBER_LEASE_SECONDS, MAX_LEADER_LEASE_SECONDS; lia). cbn [mbind result_bind].
  rewrite (ensure_true (_ <=? _)) by (apply Z.leb_le; lia). cbn [mbind result_bind].
  rewrite !(ensure_true (_ && _)) by (apply andb_true_iff; split; apply Z.leb_le; lia). cbn [mbind result_bind].
  eexists. split; [done|]. cbn. lia.
Qed.

End json.

(** ** Witnesses *)

Definition ex_env : environment := λ name,
  if bool_decide (name = lit "LINKLAKE_HA_INSTANCE_ID") then Some (lit " a ")
  else if bool_decide (name = lit "LINKLAKE_HA_HEARTBEAT_SECONDS") then Some (lit "4")
  else None.

Definition ex_config : HaRuntimeConfig :=
  match from_environment ex_env (lit "node") with
  | Ok c => c
  | Err _ => {| cfg_instance_id := []; cfg_metadata_json := []; cfg_member_lease := 0; cfg_leader_lease := 0;
                cfg_heartbeat := 0; cfg_resource_lease := 0; cfg_job_lease := 0; cfg_target_success_threshold := 0;
                cfg_target_failure_threshold := 0; cfg_target_stale_after := 0 |}
  end.

Lemma configured_runtime_opens_witness :
  ∃ rt, @runtime_open ex_json ex_config (lit "uuid-a") = Ok rt ∧ rt.(leader) = false.
Proof.
  destruct (@configured_runtime_opens ex_json ex_env (lit "node") (lit "uuid-a") ex_config) as (rt & E & Hl & _).
  - vm_compute. reflexivity.
  - vm_compute. reflexivity.
  - vm_compute. reflexivity.
  - exists rt. split; [exact E|exact Hl].
Defined.

Lemma transactions_id `{J : JsonLib} : transactions (λ db, db).
Proof. intros db. exists []. constructor. Qed.

Definition ex_runtime : HaRuntime :=
  {| coordinator := ex_a; public_ports := {| po_coordinator := ex_a; po_lease_seconds := 15 |};
     jobs := {| jl_coordinator := ex_a; jl_lease_seconds := 30 |};
     rt_target_health := {| th_coordinator := ex_a; success_threshold := 2; failure_threshold := 3;
                            stale_after_seconds := 30 |};
     fleet := {| fc_coordinator := ex_a |}; leadership_tx := ex_led.(ha_leader); leader := true;
     rt_fencing_token := 1; events := []; heartbeat := 5 |}.

(** The leader of the example renews at 125. *)
Lemma heartbeat_fails_closed_witness :
  let r := @heartbeat_round ex_json None 125 125 125 (λ db, db) ex_runtime ex_led in
  fencing_token r.1 = Ok 1 ∧ fence_holds ex_a 1 125 r.2 = true.
Proof.
  pose proof (@heartbeat_fails_closed ex_json None 125 125 125 (λ db, db) ex_runtime ex_led ex_led_ok
    (ex_process_ok _ _) transactions_id) as H.
  cbn zeta in H |- *. set (r := heartbeat_round None 125 125 125 _ ex_runtime ex_led) in *.
  assert (E : fencing_token r.1 = Ok 1) by (vm_compute; reflexivity). rewrite E in H.
  destruct H as (_ & m & _ & Hlt & Hf). split; [exact E|].
  apply Hf; [exact Hlt|]. vm_compute. reflexivity.
Defined.

Definition ex_opened : HaRuntime :=
  match @runtime_open ex_json ex_config (lit "uuid-a") with Ok rt => rt | Err _ => ex_runtime end.
Definition ex_ops : list runtime_op :=
  [Bootstrap true 100 100 100 (λ db, db) (λ db, db); Heartbeat None 105 105 105 (λ db, db) (λ db, db)].

Lemma runtime_tokens_granted_witness :
  ∃ es, @ha_run ex_json db_empty es (@runtime_run ex_json ex_ops (ex_opened, db_empty)).2 ∧
    Led (identity ex_opened.(coordinator)) 1 ∈ es.
Proof.
  destruct (@runtime_tokens_granted ex_json ex_json_laws ex_config (lit "uuid-a") ex_opened ex_ops [] db_empty)
    as (es & Hr & _ & Ht).
  - vm_compute. reflexivity.
  - constructor.
  - repeat constructor; apply transactions_id.
  - exists es. split; [exact Hr|]. apply (Ht true). vm_compute. reflexivity.
Defined.
