(* ===== verification/PortPolicy.v ===== *)
(** * Which public ports may be used, and their leases

    [public_port_policy.rs]: the allowed and reserved ports of the server and the
    provider of dynamic TCP ports; [public_port_lease.rs]: the lease that a listener
    holds while it serves a public port.

    A listener is known by the port of its address. Every attempt to claim a port is a
    transaction with its own clock readings, random lease identifier and whatever
    other processes committed before it; a [moment] holds these. *)

From S2P Require Import Prelude RustStr PublicPorts HaTables HaCoordination PortOwnership JobLeases TargetHealth FleetCoordination HaSystem HaRuntime.

Local Open Scope Z_scope.
Set Default Proof Using "Type".

Definition DEFAULT_PUBLIC_PORTS : rstr := lit "32000-32999".
Definition DEFAULT_RESERVED_TCP_PORTS : rstr := lit "22".

(** ** The policy *)

Record PublicPortPolicy := {
  tcp_allowed : PortRanges;
  udp_allowed : PortRanges;
  tcp_reserved : PortRanges;
  udp_reserved : PortRanges;
}.

Record PublicPortPolicyView := {
  v_tcp_allowed : rstr;
  v_udp_allowed : rstr;
  v_tcp_reserved : rstr;
  v_udp_reserved : rstr;
}.

Inductive PolicyError :=
  | BadRanges (e : PortRangesError)
  | NoTcpPort
  | NoUdpPort.

Definition policy_allows (allowed reserved : PortRanges) (port : Z) : bool :=
  contains allowed port && negb (contains reserved port).
Definition allows_tcp (self : PublicPortPolicy) (port : Z) : bool :=
  policy_allows self.(tcp_allowed) self.(tcp_reserved) port.
Definition allows_udp (self : PublicPortPolicy) (port : Z) : bool :=
  policy_allows self.(udp_allowed) self.(udp_reserved) port.

Definition policy_view (self : PublicPortPolicy) : PublicPortPolicyView :=
  {| v_tcp_allowed := expression self.(tcp_allowed); v_udp_allowed := expression self.(udp_allowed);
     v_tcp_reserved := expression self.(tcp_reserved); v_udp_reserved := expression self.(udp_reserved) |}.

(** [PortRanges::parse(..).expect(..)] of a literal. *)
Definition schema_migration : exec PublicPortPolicy :=
  match parse (lit "1-65535") with
  | Ok all => Done {| tcp_allowed := all; udp_allowed := all; tcp_reserved := PublicPorts.empty;
                      udp_reserved := PublicPorts.empty |}
  | Err _ => Panic
  end.

(** The first of the names that is set to something other than white space. *)
Fixpoint environment_value (env : environment) (names : list rstr) : option rstr :=
  match names with
  | [] => None
  | name :: names =>
      match trimmed_var env name with
      | Some value => Some value
      | None => environment_value env names
      end
  end.

(** [(range.start..=range.end).any(..)] over every range. *)
Definition range_ports (r : PortRange) : list Z := seqZ (start r) (end_ r - start r + 1).
Definition has_available_port (allowed reserved : PortRanges) : bool :=
  existsb (λ range, existsb (λ port, negb (contains reserved port)) (range_ports range)) (ranges allowed).

Definition policy_from_environment (env : environment) (tcp_listeners udp_listeners : list Z)
    : result PolicyError PublicPortPolicy :=
  let common := default DEFAULT_PUBLIC_PORTS
    (environment_value env [lit "LINKLAKE_PUBLIC_PORT_RANGES"; lit "LINKLAKE_PUBLIC_PORT_RANGE"]) in
  tcp_allowed ← map_err BadRanges
    (parse (default common (environment_value env [lit "LINKLAKE_TCP_PUBLIC_PORTS"])));
  udp_allowed ← map_err BadRanges
    (parse (default common (environment_value env [lit "LINKLAKE_UDP_PUBLIC_PORTS"])));
  tcp_reserved ← map_err BadRanges
    (parse_optional (default DEFAULT_RESERVED_TCP_PORTS
                       (environment_value env [lit "LINKLAKE_RESERVED_TCP_PORTS"])));
  let tcp_reserved := including_ports tcp_reserved tcp_listeners in
  udp_reserved ← map_err BadRanges
    (parse_optional (default [] (environment_value env [lit "LINKLAKE_RESERVED_UDP_PORTS"])));
  let udp_reserved := including_ports udp_reserved udp_listeners in
  _ ← reject_if (negb (has_available_port tcp_allowed tcp_reserved)) NoTcpPort;
  _ ← reject_if (negb (has_available_port udp_allowed udp_reserved)) NoUdpPort;
  Ok {| tcp_allowed := tcp_allowed; udp_allowed := udp_allowed; tcp_reserved := tcp_reserved;
        udp_reserved := udp_reserved |}.

(** ** Dynamic TCP ports *)

Inductive DynamicPortLeaseError := Exhausted | Unavailable.

(** The circumstances of one attempt. *)
Record moment := {
  at_now : Z;
  at_fence : Z;
  at_lease_id : Z;
  at_others : Database → Database;
}.

Record HaDynamicPortLease := {
  dl_ownership : PublicPortOwnership;
  dl_lease : PublicPortLease;
  dl_renewal_interval : Z;
  dl_released : bool;
}.

(** [u32] addition. *)
Definition u32_add (a b : Z) : exec Z := if a + b <=? U32_MAX then Done (a + b) else Panic.

Definition dynamic_port (cursor offset : Z) : exec Z :=
  s ← u32_add (cursor - 1) offset; Done (s `mod` U16_MAX + 1).

(** The loop over the offsets from [offset] on; the result has the database and, after
    a success, the value stored to the cursor. *)
Fixpoint acquire_tcp_loop (n : nat) (moments : Z → moment) (rt : HaRuntime) (policy : PublicPortPolicy)
    (policy_id fencing_token cursor offset : Z) (db : Database)
    : exec (result DynamicPortLeaseError HaDynamicPortLease * option Z * Database) :=
  match n with
  | O => Done (Err Exhausted, None, db)
  | S n =>
      port ← dynamic_port cursor offset;
      if allows_tcp policy port then
        let m := moments offset in
        let db := m.(at_others) db in
        match port_acquire rt.(public_ports) PortTcp port policy_id m.(at_lease_id) m.(at_now)
                m.(at_fence) fencing_token db with
        | Err _ => Done (Err Unavailable, None, db)
        | Ok (None, db) =>
            acquire_tcp_loop n moments rt policy policy_id fencing_token cursor (offset + 1) db
        | Ok (Some lease, db) =>
            let next := Z.max ((port + 1) `mod` 65536) 1 in
            Done (Ok {| dl_ownership := rt.(public_ports); dl_lease := lease;
                        dl_renewal_interval := rt.(heartbeat); dl_released := false |}, Some next, db)
        end
      else acquire_tcp_loop n moments rt policy policy_id fencing_token cursor (offset + 1) db
  end.

(** [next_tcp] is the shared cursor; [fetch_add] wraps. *)
Definition acquire_tcp (moments : Z → moment) (rt : HaRuntime) (policy : PublicPortPolicy)
    (policy_id next_tcp : Z) (db : Database)
    : exec (result DynamicPortLeaseError HaDynamicPortLease * Z * Database) :=
  match fencing_token rt with
  | Err _ => Done (Err Unavailable, next_tcp, db)
  | Ok token =>
      let cursor := Z.max next_tcp 1 in
      let next_tcp := (next_tcp + 1) `mod` 4294967296 in
      '(r, stored, db) ← acquire_tcp_loop (Z.to_nat U16_MAX) moments rt policy policy_id token cursor 0 db;
      Done (r, default next_tcp stored, db)
  end.

(** [rt] is the runtime at the call. *)
Definition dynamic_renew (self : HaDynamicPortLease) (rt : HaRuntime) (fence_clock now_clock : Z) (db : Database)
    : result DynamicPortLeaseError unit * Database :=
  if self.(dl_released) then (Err Unavailable, db)
  else if match fencing_token rt with
          | Ok token => negb (token =? self.(dl_lease).(p_fencing_token))
          | Err _ => true
          end
  then (Err Unavailable, db)
  else
    let l := self.(dl_lease) in
    match port_renew self.(dl_ownership) l.(p_protocol) l.(p_public_port) l.(p_policy_id) l.(p_lease_id)
            fence_clock now_clock l.(p_fencing_token) db with
    | Ok (Some _, db) => (Ok tt, db)
    | Ok (None, db) => (Err Unavailable, db)
    | Err _ => (Err Unavailable, db)
    end.

Definition dynamic_release (self : HaDynamicPortLease) (fence_clock : Z) (db : Database)
    : result DynamicPortLeaseError unit * Database :=
  if self.(dl_released) then (Ok tt, db)
  else
    let l := self.(dl_lease) in
    match port_release self.(dl_ownership) l.(p_protocol) l.(p_public_port) l.(p_policy_id) l.(p_lease_id)
            fence_clock l.(p_fencing_token) db with
    | Ok (_, db) => (Ok tt, db)
    | Err _ => (Err Unavailable, db)
    end.

(** ** The lease of a listener *)

Record HaPublicPortLease := {
  pl_ownership : PublicPortOwnership;
  pl_lease : option PublicPortLease;
  pl_heartbeat : Z;
  pl_expected_fencing_token : Z;
}.

Definition public_port_acquire (rt : HaRuntime) (protocol : PublicPortProtocol)
    (public_port policy_id : Z) (m : moment) (db : Database)
    : result CoordError (option HaPublicPortLease * Database) :=
  token ← fencing_token rt;
  '(lease, db) ← port_acquire rt.(public_ports) protocol public_port policy_id m.(at_lease_id) m.(at_now)
                   m.(at_fence) token (m.(at_others) db);
  Ok (option_map (λ lease, {| pl_ownership := rt.(public_ports); pl_lease := Some lease;
                              pl_heartbeat := rt.(heartbeat); pl_expected_fencing_token := token |}) lease, db).

(** [leadership] is the value of the watch channel. *)
Definition leadership_matches (self : HaPublicPortLease) (leadership : option LeadershipLease) : bool :=
  match leadership with
  | Some lease => lease.(l_fencing_token) =? self.(pl_expected_fencing_token)
  | None => false
  end.

Definition public_port_renew (self : HaPublicPortLease) (leadership : option LeadershipLease)
    (fence_clock now_clock : Z) (db : Database) : result CoordError (bool * Database) :=
  if leadership_matches self leadership then
    match self.(pl_lease) with
    | Some l =>
        '(r, db) ← port_renew self.(pl_ownership) l.(p_protocol) l.(p_public_port) l.(p_policy_id)
                     l.(p_lease_id) fence_clock now_clock l.(p_fencing_token) db;
        Ok (match r with Some _ => true | None => false end, db)
    | None => Ok (false, db)
    end
  else Ok (false, db).

Definition release_inner (self : HaPublicPortLease) (fence_clock : Z) (db : Database)
    : HaPublicPortLease * Database :=
  match self.(pl_lease) with
  | None => (self, db)
  | Some l =>
      let self := {| pl_ownership := self.(pl_ownership); pl_lease := None;
                     pl_heartbeat := self.(pl_heartbeat);
                     pl_expected_fencing_token := self.(pl_expected_fencing_token) |} in
      match port_release self.(pl_ownership) l.(p_protocol) l.(p_public_port) l.(p_policy_id) l.(p_lease_id)
              fence_clock l.(p_fencing_token) db with
      | Ok (_, db) => (self, db)
      | Err _ => (self, db)
      end
  end.

(** What the supervisor of a listener wakes up for: a stop request, a change of the
    leadership ([None] inside when the channel is closed), or its own heartbeat, whose
    renewal may time out. *)
Inductive wakeup :=
  | StopRequested
  | LeadershipChanged (value : option (option LeadershipLease))
  | HeartbeatTick (leadership : option LeadershipLease) (timed_out : bool) (fence_clock now_clock : Z).

(** One round of the loop: [None] goes on, [Some b] leaves it, [b] saying that the
    listener was told to stop. *)
Definition supervise_round (self : HaPublicPortLease) (w : wakeup) (db : Database)
    : option bool * Database :=
  match w with
  | StopRequested => (Some false, db)
  | LeadershipChanged None => (Some true, db)
  | LeadershipChanged (Some value) =>
      if leadership_matches self value then (None, db) else (Some true, db)
  | HeartbeatTick leadership timed_out fence_clock now_clock =>
      if timed_out then (Some true, db)
      else
        match public_port_renew self leadership fence_clock now_clock db with
        | Ok (true, db) => (None, db)
        | Ok (false, db) => (Some true, db)
        | Err _ => (Some true, db)
        end
  end.

(** The task: [leadership] is the value at its start, each wake-up comes with what
    others committed before it, and [release_clock] is the fence clock of the release.
    The result says whether the task has ended and whether it stopped the listener. *)
Fixpoint supervise_loop (self : HaPublicPortLease) (ws : list (wakeup * (Database → Database))) (db : Database)
    : option bool * Database :=
  match ws with
  | [] => (None, db)
  | (w, others) :: ws =>
      match supervise_round self w (others db) with
      | (None, db) => supervise_loop self ws db
      | (Some stop, db) => (Some stop, db)
      end
  end.

Definition spawn_supervisor (self : HaPublicPortLease) (leadership : option LeadershipLease)
    (ws : list (wakeup * (Database → Database))) (release_clock : Z) (db : Database)
    : option bool * HaPublicPortLease * Database :=
  if leadership_matches self leadership then
    match supervise_loop self ws db with
    | (None, db) => (None, self, db)
    | (Some stop, db) => let '(self, db) := release_inner self release_clock db in (Some stop, self, db)
    end
  else let '(self, db) := release_inner self release_clock db in (Some true, self, db).

(** ** The policy is usable and protects the server's own ports *)

Lemma parse_wf e r : parse e = Ok r → wf_ranges r.
Proof.
  unfold parse. intros E. bind_inv E. injection E as <-.
  match goal with E : parse_ranges _ _ = Ok _ |- _ => apply parse_ranges_Ok in E as [(_ & ? & _)|(_ & segs & _ & Hok & ->)] end;
    [done|]. by apply normalize_ranges_ok.
Qed.

Lemma wf_empty : wf_ranges {| ranges := [] |}.
Proof. split; constructor. Qed.

Lemma parse_optional_wf e r : parse_optional e = Ok r → wf_ranges r.
Proof.
  unfold parse_optional. intros E. bind_inv E. injection E as <-.
  match goal with E : parse_ranges _ _ = Ok _ |- _ =>
    apply parse_ranges_Ok in E as [(_ & _ & ->)|(_ & segs & _ & Hok & ->)] end;
    [apply wf_empty|]. by apply normalize_ranges_ok.
Qed.

Definition u16s (ports : list Z) : Prop := Forall (λ p, 0 ≤ p ≤ U16_MAX) ports.

Lemma including_ports_covers r ports :
  wf_ranges r → u16s ports →
  wf_ranges (including_ports r ports) ∧ ∀ p, p ∈ ports → p ≠ 0 → contains (including_ports r ports) p = true.
Proof.
  intros [Hok _] Hports. set (singles := (λ port, {| start := port; end_ := port |}) <$> List.filter (λ p, negb (p =? 0)) ports).
  assert (Hs : Forall range_ok singles).
  { apply Forall_fmap, Forall_forall. intros p (Hp & Hnz)%list_elem_of_In%filter_In.
    apply list_elem_of_In in Hp. unfold u16s in Hports. rewrite Forall_forall in Hports.
    specialize (Hports p Hp). apply negb_true_iff, Z.eqb_neq in Hnz. unfold range_ok. cbn. lia. }
  destruct (normalize_ranges_ok (ranges r ++ singles)) as [Hwf Hcov]; [by apply Forall_app|].
  split; [exact Hwf|]. intros p Hp Hnz. apply (contains_covers _ _ Hwf). cbn [ranges]. apply Hcov, covers_app. right.
  apply Exists_exists. exists {| start := p; end_ := p |}. split; [|cbn; lia].
  apply list_elem_of_fmap. exists p. split; [done|]. apply list_elem_of_In, filter_In. split; [by apply list_elem_of_In|].
  by apply negb_true_iff, Z.eqb_neq.
Qed.

Lemma has_available_port_spec allowed reserved :
  wf_ranges allowed →
  has_available_port allowed reserved = true ↔ ∃ p, policy_allows allowed reserved p = true.
Proof.
  intros Hwf. unfold has_available_port, policy_allows. rewrite existsb_exists. split.
  - intros (r & Hr & Hp). apply existsb_exists in Hp as (p & Hp & Hres). exists p.
    apply andb_true_iff. split; [|done]. apply (contains_covers _ _ Hwf), Exists_exists. exists r.
    apply list_elem_of_In in Hr, Hp. apply elem_of_seqZ in Hp. split; [done|lia].
  - intros [p Hp]. apply andb_true_iff in Hp as [Hc Hres]. apply (contains_covers _ _ Hwf) in Hc.
    apply Exists_exists in Hc as (r & Hr & Hle). exists r. split; [by apply list_elem_of_In|].
    apply existsb_exists. exists p. split; [|done]. apply list_elem_of_In, elem_of_seqZ. lia.
Qed.

(** A policy read from the environment always has a TCP and a UDP port to offer,
    and never offers a port on which the server itself listens. *)
Theorem policy_usable_and_safe (env : environment) (tcp_listeners udp_listeners : list Z)
    (policy : PublicPortPolicy) :
  u16s tcp_listeners → u16s udp_listeners →
  policy_from_environment env tcp_listeners udp_listeners = Ok policy →
  (∃ p, 1 ≤ p ≤ U16_MAX ∧ allows_tcp policy p = true) ∧ (∃ p, 1 ≤ p ≤ U16_MAX ∧ allows_udp policy p = true) ∧
  (∀ p, p ∈ tcp_listeners → allows_tcp policy p = false) ∧
  (∀ p, p ∈ udp_listeners → allows_udp policy p = false).
Proof.
  intros Ht Hu E. unfold policy_from_environment in E. repeat bind_inv E. injection E as <-.
  unfold allows_tcp, allows_udp. cbn [tcp_allowed udp_allowed tcp_reserved udp_reserved].
  repeat match goal with E : map_err _ ?x = Ok _ |- _ =>
    destruct x eqn:?; [injection E as <-|done] end.
  repeat match goal with
    | E : parse _ = Ok _ |- _ => apply parse_wf in E
    | E : parse_optional _ = Ok _ |- _ => apply parse_optional_wf in E
    | E : reject_if _ _ = Ok _ |- _ => apply reject_if_Ok, negb_false_iff in E; apply has_available_port_spec in E; [|done]
    end.
  assert (Hbound : ∀ a r p, wf_ranges a → policy_allows a r p = true → 1 ≤ p ≤ U16_MAX).
  { intros ar rr p Hwf Hp. apply andb_true_iff in Hp as [Hc _]. apply (contains_covers _ _ Hwf) in Hc.
    apply Exists_exists in Hc as (rg & Hrg & Hle). destruct Hwf as [Hok _]. rewrite Forall_forall in Hok.
    specialize (Hok rg Hrg). unfold range_ok in Hok. lia. }
  assert (Hres : ∀ a r ports p, wf_ranges r → u16s ports → p ∈ ports →
    policy_allows a (including_ports r ports) p = false).
  { intros ar rr ports p Hwf Hports Hp. unfold policy_allows. destruct (decide (p = 0)) as [->|Hnz]; [done|].
    destruct (including_ports_covers rr ports Hwf Hports) as [_ Hc]. by rewrite (Hc p Hp Hnz), andb_false_r. }
  match goal with E : ∃ p, policy_allows _ _ p = true, E' : ∃ p, policy_allows _ _ p = true |- _ =>
    destruct E as [p1 Hp1], E' as [p2 Hp2] end.
  split_and!; [exists p1|exists p2| |].
  1-2: eauto.
  all: intros p Hp; apply Hres; assumption.
Qed.

(** ** Dynamic ports are found *)

Lemma dynamic_port_Done cursor offset :
  1 ≤ cursor → 0 ≤ offset → cursor - 1 + offset ≤ U32_MAX →
  dynamic_port cursor offset = Done ((cursor - 1 + offset) `mod` U16_MAX + 1).
Proof. intros. unfold dynamic_port, u32_add. by rewrite (proj2 (Z.leb_le _ _)). Qed.

(** The offsets reach every port. *)
Lemma dynamic_port_onto cursor p :
  1 ≤ p ≤ U16_MAX → ∃ offset, 0 ≤ offset < U16_MAX ∧ (cursor - 1 + offset) `mod` U16_MAX + 1 = p.
Proof.
  intros Hp. exists ((p - cursor) `mod` U16_MAX). split; [apply Z.mod_pos_bound; lia|].
  rewrite Zplus_mod_idemp_r. replace (cursor - 1 + (p - cursor)) with (p - 1) by lia.
  rewrite Z.mod_small by lia. lia.
Qed.

Section dynamic.
Context {J : JsonLib} (rt : HaRuntime) (policy : PublicPortPolicy) (moments : Z → moment).
Context (policy_id token : Z) (db : Database).

(** The process leads throughout and nobody interferes. *)
Record undisturbed : Prop := {
  un_db : db_ok db;
  un_others : ∀ i, (moments i).(at_others) db = db;
  un_fence : ∀ i, fence_holds rt.(public_ports).(po_coordinator) token (moments i).(at_fence) db = true;
  un_now : ∀ i, 0 ≤ (moments i).(at_now);
  un_lease : 0 ≤ rt.(public_ports).(po_lease_seconds);
  un_range : ∀ i, (moments i).(at_now) + rt.(public_ports).(po_lease_seconds) ≤ I64_MAX;
}.

(** The row that the attempt at offset [i] writes for [port]. *)
Definition claimed_port (i port : Z) : PublicPortLease :=
  fresh_port_lease rt.(public_ports) PortTcp port policy_id (moments i).(at_lease_id) (moments i).(at_now) token.

(** The port of offset [i] is allowed and free at its attempt. *)
Definition offered (cursor i : Z) : bool :=
  let port := (cursor - 1 + i) `mod` U16_MAX + 1 in
  allows_tcp policy port && negb (port_taken db PortTcp port token (moments i).(at_now)).

(** What the loop returns when it stops at offset [i] or finds nothing. *)
Definition loop_result (cursor : Z) (i : option Z)
    : result DynamicPortLeaseError HaDynamicPortLease * option Z * Database :=
  match i with
  | Some i =>
      let port := (cursor - 1 + i) `mod` U16_MAX + 1 in
      let row := claimed_port i port in
      (Ok {| dl_ownership := rt.(public_ports); dl_lease := row; dl_renewal_interval := rt.(heartbeat);
             dl_released := false |},
       Some (Z.max ((port + 1) `mod` 65536) 1),
       set_ports db (<[(PortTcp, port) := row]> db.(public_port_ownership)))
  | None => (Err Exhausted, None, db)
  end.

(** The loop is a search for the first port on offer. *)
Lemma acquire_tcp_loop_find n cursor offset :
  undisturbed → 1 ≤ cursor → 0 ≤ offset → cursor - 1 + offset + Z.of_nat n ≤ U32_MAX + 1 →
  acquire_tcp_loop n moments rt policy policy_id token cursor offset db =
    Done (loop_result cursor (List.find (offered cursor) (seqZ offset (Z.of_nat n)))).
Proof.
  intros Hun Hc. revert offset. induction n as [|n IH]; intros offset Ho Hn; [done|].
  cbn [acquire_tcp_loop]. rewrite dynamic_port_Done by lia. cbn [mbind exec_bind].
  rewrite seqZ_cons by lia. replace (Z.pred (Z.of_nat (S n))) with (Z.of_nat n) by lia. cbn [List.find].
  set (port := (cursor - 1 + offset) `mod` U16_MAX + 1).
  assert (Hport : 1 ≤ port ≤ U16_MAX) by (pose proof (Z.mod_pos_bound (cursor - 1 + offset) U16_MAX); lia).
  change (offered cursor offset) with
    (allows_tcp policy port && negb (port_taken db PortTcp port token (moments offset).(at_now))).
  destruct (allows_tcp policy port); cbn [andb]; [|apply IH; lia].
  rewrite (un_others Hun), port_acquire_decided by (apply Hun || done).
  destruct (port_taken _ _ _ _ _); cbn [negb]; [apply IH; lia|done].
Qed.

(** A dynamic TCP port is found whenever there is one: while the process leads and
    nobody interferes, the search never panics or fails, returns a lease of an allowed
    port that was free, stored in the database, or else reports exhaustion after every
    allowed port has been seen taken. *)
Theorem dynamic_port_search (next_tcp : Z) :
  undisturbed → fencing_token rt = Ok token → 0 ≤ next_tcp ≤ U32_MAX - U16_MAX →
  match acquire_tcp moments rt policy policy_id next_tcp db with
  | Done (Ok lease, next, db') =>
      ∃ i port, 0 ≤ i < U16_MAX ∧ 1 ≤ port ≤ U16_MAX ∧ allows_tcp policy port = true ∧
        port_taken db PortTcp port token (moments i).(at_now) = false ∧
        lease.(dl_lease) = claimed_port i port ∧ 1 ≤ next ≤ U16_MAX ∧
        db' = set_ports db (<[(PortTcp, port) := claimed_port i port]> db.(public_port_ownership))
  | Done (Err e, next, db') =>
      e = Exhausted ∧ db' = db ∧
      ∀ port, 1 ≤ port ≤ U16_MAX → allows_tcp policy port = true →
        ∃ i, 0 ≤ i < U16_MAX ∧ port_taken db PortTcp port token (moments i).(at_now) = true
  | Panic => False
  end.
Proof.
  intros Hun Ht Hnext. unfold acquire_tcp. rewrite Ht.
  rewrite acquire_tcp_loop_find by (done || lia). cbn [mbind exec_bind].
  set (cursor := Z.max next_tcp 1). destruct (List.find _ _) as [i|] eqn:Ef.
  - apply List.find_some in Ef as [Hi Hoff]. apply list_elem_of_In, elem_of_seqZ in Hi.
    apply andb_true_iff in Hoff as [Ha Hf]. apply negb_true_iff in Hf. cbn [loop_result default from_option id].
    set (port := (cursor - 1 + i) `mod` U16_MAX + 1) in *.
    pose proof (Z.mod_pos_bound (cursor - 1 + i) U16_MAX ltac:(lia)).
    pose proof (Z.mod_pos_bound (port + 1) 65536 ltac:(lia)).
    exists i, port. split_and!; [lia|lia|lia|lia|done|done|done|lia|lia|done].
  - cbn [loop_result]. split_and!; [done..|]. intros port Hp Ha.
    destruct (dynamic_port_onto cursor port Hp) as (i & Hi & Eport). exists i. split; [done|].
    pose proof (List.find_none _ _ Ef i) as Hn. unfold offered in Hn. rewrite Eport, Ha in Hn.
    apply negb_false_iff. apply Hn, list_elem_of_In, elem_of_seqZ. lia.
Qed.
End dynamic.

(** ** A listener serves only under its lease *)

(** A wake-up after which the listener of [self] goes on: the leadership is still the
    one it started under, and at a heartbeat the database had its unexpired lease, with
    the fence of its owner intact. *)
Definition confirmed (self : HaPublicPortLease) (w : wakeup) : Prop :=
  match w with
  | StopRequested => False
  | LeadershipChanged value => ∃ l, value = Some (Some l) ∧ l.(l_fencing_token) = self.(pl_expected_fencing_token)
  | HeartbeatTick leadership timed_out fence_clock now_clock =>
      timed_out = false ∧ leadership_matches self leadership = true ∧
      ∃ lease db old, self.(pl_lease) = Some lease ∧
        fence_holds self.(pl_ownership).(po_coordinator) lease.(p_fencing_token) fence_clock db = true ∧
        db.(public_port_ownership) !! (lease.(p_protocol), lease.(p_public_port)) = Some old ∧
        old.(p_lease_id) = lease.(p_lease_id) ∧ now_clock < old.(p_lease_until)
  end.

Lemma supervise_round_on self w db db' : supervise_round self w db = (None, db') → confirmed self w.
Proof.
  destruct w as [|[[l|]|]|leadership [|] c1 c2]; cbn; try done.
  - destruct (Z.eqb_spec l.(l_fencing_token) self.(pl_expected_fencing_token)); [|done]. eauto.
  - unfold public_port_renew. destruct (leadership_matches self leadership); [|done].
    destruct (self.(pl_lease)) as [lease|] eqn:El; [|done].
    destruct (port_renew _ _ _ _ _ _ _ _ _) as [[[row|] db1]|e] eqn:Er; [|done..]. intros _.
    apply (@port_renew_shape ex_json) in Er as (Hf & _ & old & Ho & Hr & Hlt & _ & _).
    apply port_row_is_true in Hr as (Hid & _). split_and!; [done..|]. by exists lease, db, old.
Qed.

Lemma supervise_round_stop self w db db' : supervise_round self w db = (Some false, db') → w = StopRequested.
Proof.
  destruct w as [|[value|]|leadership [|] c1 c2]; cbn; try done.
  - by destruct (leadership_matches self value).
  - by destruct (public_port_renew self leadership c1 c2 db) as [[[|] ?]|?].
Qed.

(** A listener that is still running has had its lease confirmed at every
    heartbeat and under every change of leadership; any other wake-up ends its task,
    which gives the lease up and, unless it was asked to stop, stops the listener. *)
Theorem listener_serves_under_lease (self : HaPublicPortLease) (leadership : option LeadershipLease)
    (ws : list (wakeup * (Database → Database))) (release_clock : Z) (db : Database) :
  match spawn_supervisor self leadership ws release_clock db with
  | (None, self', _) => self' = self ∧ leadership_matches self leadership = true ∧ Forall (confirmed self) ws.*1
  | (Some stopped, self', _) => self'.(pl_lease) = None ∧ (stopped = false → StopRequested ∈ ws.*1)
  end.
Proof.
  assert (Hrel : ∀ c d, (release_inner self c d).1.(pl_lease) = None).
  { intros c d. unfold release_inner. destruct (pl_lease self) as [l|] eqn:El; [|done].
    by destruct (port_release _ _ _ _ _ _ _ _) as [[? ?]|?]. }
  assert (Hloop : ∀ d, match supervise_loop self ws d with
    | (None, _) => Forall (confirmed self) ws.*1
    | (Some stopped, _) => stopped = false → StopRequested ∈ ws.*1
    end).
  { induction ws as [|[w others] ws IH]; intros d; cbn; [constructor|].
    destruct (supervise_round self w (others d)) as [[stopped|] d'] eqn:Er.
    - intros ->. apply supervise_round_stop in Er as ->. left.
    - apply supervise_round_on in Er. specialize (IH d'). destruct (supervise_loop self ws d') as [[s|] d''].
      + intros Hs. right. by apply IH.
      + by constructor. }
  unfold spawn_supervisor. destruct (leadership_matches self leadership).
  - specialize (Hloop db). destruct (supervise_loop self ws db) as [[s|] d]; [|done].
    specialize (Hrel release_clock d). destruct (release_inner self release_clock d). by split.
  - specialize (Hrel release_clock db). destruct (release_inner self release_clock db). by split.
Qed.

(** ** Witnesses *)

Definition ex_policy : PublicPortPolicy :=
  match policy_from_environment (λ _, None) [443; 32000] [443] with
  | Ok p => p
  | Err _ => {| tcp_allowed := PublicPorts.empty; udp_allowed := PublicPorts.empty;
                tcp_reserved := PublicPorts.empty; udp_reserved := PublicPorts.empty |}
  end.

Lemma policy_usable_and_safe_witness : allows_tcp ex_policy 32000 = false ∧ ∃ p, allows_udp ex_policy p = true.
Proof.
  destruct (policy_usable_and_safe (λ _, None) [443; 32000] [443] ex_policy) as (_ & (p & _ & Hp) & Ht & _).
  - repeat constructor; lia.
  - repeat constructor; lia.
  - vm_compute. reflexivity.
  - split; [|by exists p]. apply Ht. apply list_elem_of_further, list_elem_of_here.
Defined.

Definition ex_moments : Z → moment := λ i,
  {| at_now := 125; at_fence := 125; at_lease_id := 9 + i; at_others := λ db, db |}.

Lemma ex_undisturbed : @undisturbed ex_json ex_runtime ex_moments 1 ex_led.
Proof.
  constructor; [exact ex_led_ok|done| |done|done|done]. intros i. vm_compute. reflexivity.
Qed.

Lemma dynamic_port_search_witness :
  ∃ lease next db', acquire_tcp ex_moments ex_runtime ex_policy 7 1 ex_led = Done (Ok lease, next, db') ∧
    allows_tcp ex_policy lease.(dl_lease).(p_public_port) = true.
Proof.
  pose proof (@dynamic_port_search ex_json ex_runtime ex_policy ex_moments 7 1 ex_led 1 ex_undisturbed) as H.
  destruct (acquire_tcp ex_moments ex_runtime ex_policy 7 1 ex_led) as [[[[lease|e] next] db']|] eqn:E.
  - destruct H as (i & port & _ & _ & Ha & _ & El & _); [vm_compute; reflexivity|lia|].
    exists lease, next, db'. split; [reflexivity|]. rewrite El. exact Ha.
  - exfalso. vm_compute in E. discriminate E.
  - exfalso. vm_compute in E. discriminate E.
Defined.
