(* ===== verification/TrafficControl.v ===== *)
(** * Traffic control of forwarding policies ([traffic_control.rs])

    For each policy: filters on the source address, a weekly schedule, a daily quota
    and a limit on connections per minute. Settings and usage are SQL tables, the
    connection windows are in memory.

    Lists in JSON columns go through a parameter ([JsonColumns]). *)

From S2P Require Import Prelude RustStr NetAddr NetPrint EgressPolicy HaTables.

Local Open Scope Z_scope.
Set Default Proof Using "Type".

(** ** Data *)

Inductive TrafficPolicyKind :=
  | KindTcp | KindUdp | KindHttp | KindSni | KindSecret | KindSocks5 | KindHttpProxy | KindPortGroup.

Global Instance TrafficPolicyKind_eq_dec : EqDecision TrafficPolicyKind.
Proof. solve_decision. Defined.

Definition kind_as_str (self : TrafficPolicyKind) : rstr :=
  match self with
  | KindTcp => lit "tcp"
  | KindUdp => lit "udp"
  | KindHttp => lit "http"
  | KindSni => lit "sni"
  | KindSecret => lit "secret"
  | KindSocks5 => lit "socks5"
  | KindHttpProxy => lit "http_proxy"
  | KindPortGroup => lit "port_group"
  end.

Definition kind_parse (value : rstr) : option TrafficPolicyKind :=
  if bool_decide (value = lit "tcp") then Some KindTcp
  else if bool_decide (value = lit "udp") then Some KindUdp
  else if bool_decide (value = lit "http") then Some KindHttp
  else if bool_decide (value = lit "sni") then Some KindSni
  else if bool_decide (value = lit "secret") then Some KindSecret
  else if bool_decide (value = lit "socks5") then Some KindSocks5
  else if bool_decide (value = lit "http_proxy") || bool_decide (value = lit "http-proxy") then Some KindHttpProxy
  else if bool_decide (value = lit "port_group") || bool_decide (value = lit "ports") then Some KindPortGroup
  else None.

Lemma kind_round_trip k : kind_parse (kind_as_str k) = Some k.
Proof. by destruct k. Qed.

Global Instance TrafficPolicyKind_countable : Countable TrafficPolicyKind.
Proof. exact (inj_countable kind_as_str kind_parse kind_round_trip). Defined.

Record TrafficUsageEvent := {
  event_id : Z;
  event_kind : TrafficPolicyKind;
  event_policy_id : Z;
  event_bytes : Z;
}.

Record UpsertTrafficControl := {
  allowed_cidrs : list rstr;
  denied_cidrs : list rstr;
  max_connections_per_minute : option Z;
  daily_quota_bytes : option Z;
  active_weekdays_utc : list Z;
  start_minute_utc : option Z;
  end_minute_utc : option Z;
  enabled : bool;
}.

Record TrafficControlRecord := {
  tr_kind : TrafficPolicyKind;
  tr_policy_id : Z;
  tr_settings : UpsertTrafficControl;
  tr_used_today_bytes : Z;
  tr_updated : Z;
}.

Inductive TrafficDecision := Allowed | SourceDenied | OutsideSchedule | RateLimited | QuotaExceeded.
Global Instance TrafficDecision_eq_dec : EqDecision TrafficDecision.
Proof. solve_decision. Defined.

Inductive TrafficError :=
  | InvalidQuery | BadJson | NotReadBack | ValueOutOfRange
  | CidrInvalid | CidrPrefixInvalid | TooManyCidrs | RateInvalid | QuotaInvalid | WeekdayInvalid
  | ScheduleIncomplete | MinuteInvalid
  | EventIdNil | EventMismatch.

(** [anyhow::ensure!] *)
Definition check (b : bool) (e : TrafficError) : result TrafficError unit := if b then Ok tt else Err e.

(** What the code uses of [serde_json] on [Vec<String>] and [Vec<u8>]. *)
Class JsonColumns := {
  strings_to_string : list rstr → rstr;
  strings_from_str : rstr → option (list rstr);
  numbers_to_string : list Z → rstr;
  numbers_from_str : rstr → option (list Z);
}.
Class JsonColumnLaws (J : JsonColumns) : Prop := {
  strings_round_trip : ∀ l, strings_from_str (strings_to_string l) = Some l;
  numbers_round_trip : ∀ l, Forall (λ n, 0 ≤ n ≤ U8_MAX) l → numbers_from_str (numbers_to_string l) = Some l;
}.

(** ** Integers in SQLite columns *)

Inductive sqlite_value := SqlNull | SqlInteger (value : Z) | SqlBlob (bytes : list Z).

Definition encode_sqlite_u64 (value : Z) : sqlite_value :=
  if value <=? I64_MAX then SqlInteger value else SqlBlob (to_be_bytes 8 value).

Definition decode_sqlite_u64 (value : sqlite_value) : result TrafficError Z :=
  match value with
  | SqlInteger value => if 0 <=? value then Ok value else Err InvalidQuery
  | SqlBlob bytes => if (length bytes =? 8)%nat then Ok (from_be_bytes bytes) else Err InvalidQuery
  | SqlNull => Err InvalidQuery
  end.

(** ** CIDR blocks *)

Record Cidr := { cidr_address : IpAddr; cidr_prefix : Z }.

Definition ip_bits (a : IpAddr) : Z := match a with V4 _ => 32 | V6 _ => 128 end.

Definition cidr_normalized (self : Cidr) : rstr :=
  print_ip self.(cidr_address) ++ [ch_slash] ++ to_string self.(cidr_prefix).

Definition parse_cidr (value : rstr) : result TrafficError Cidr :=
  match split_once ch_slash (trim value) with
  | Some (address, prefix) =>
      address ← ok_or (parse_ip address) CidrInvalid;
      prefix ← ok_or (parse_uint U8_MAX prefix) CidrInvalid;
      _ ← check (prefix <=? ip_bits address) CidrPrefixInvalid;
      Ok {| cidr_address := address; cidr_prefix := prefix |}
  | None =>
      address ← ok_or (parse_ip (trim value)) CidrInvalid;
      Ok {| cidr_address := address; cidr_prefix := ip_bits address |}
  end.

Definition cidr_contains (cidr : Cidr) (source : IpAddr) : bool :=
  match cidr.(cidr_address), source with
  | V4 network, V4 source =>
      let mask := prefix_mask 32 cidr.(cidr_prefix) in Z.land network mask =? Z.land source mask
  | V6 network, V6 source =>
      let mask := prefix_mask 128 cidr.(cidr_prefix) in Z.land network mask =? Z.land source mask
  | _, _ => false
  end.

Definition cidr_matches (value : rstr) (source : IpAddr) : bool :=
  match parse_cidr value with Ok cidr => cidr_contains cidr source | Err _ => false end.

Definition normalize_cidrs (values : list rstr) : result TrafficError (list rstr) :=
  collect (λ value, cidr ← parse_cidr value; Ok (cidr_normalized cidr)) values.

(** ** Settings *)

Definition is_none_or {A} (o : option A) (p : A → bool) : bool :=
  match o with Some a => p a | None => true end.
Definition is_some {A} (o : option A) : bool := match o with Some _ => true | None => false end.

Definition validate (request : UpsertTrafficControl) : result TrafficError unit :=
  _ ← check ((len request.(allowed_cidrs) <=? 64) && (len request.(denied_cidrs) <=? 64)) TooManyCidrs;
  _ ← normalize_cidrs request.(allowed_cidrs);
  _ ← normalize_cidrs request.(denied_cidrs);
  _ ← check (is_none_or request.(max_connections_per_minute) (λ v, (1 <=? v) && (v <=? 1000000))) RateInvalid;
  _ ← check (is_none_or request.(daily_quota_bytes) (λ v, 1024 <=? v)) QuotaInvalid;
  _ ← check (forallb (λ v, v <=? 6) request.(active_weekdays_utc)) WeekdayInvalid;
  _ ← check (eqb (is_some request.(start_minute_utc)) (is_some request.(end_minute_utc))) ScheduleIncomplete;
  check (is_none_or request.(start_minute_utc) (λ v, v <? 1440) &&
         is_none_or request.(end_minute_utc) (λ v, v <? 1440)) MinuteInvalid.

(** [Vec::dedup]. *)
Fixpoint dedup_after (x : Z) (l : list Z) : list Z :=
  match l with
  | [] => []
  | y :: l => if x =? y then dedup_after x l else y :: dedup_after y l
  end.
Definition dedup (l : list Z) : list Z :=
  match l with [] => [] | x :: l => x :: dedup_after x l end.

(** [sort_unstable] and [dedup]. *)
Definition normal_weekdays (l : list Z) : list Z := dedup (merge_sort Z.le l).

Definition normalized_settings (request : UpsertTrafficControl) : result TrafficError UpsertTrafficControl :=
  _ ← validate request;
  allowed ← normalize_cidrs request.(allowed_cidrs);
  denied ← normalize_cidrs request.(denied_cidrs);
  Ok {| allowed_cidrs := allowed; denied_cidrs := denied;
        max_connections_per_minute := request.(max_connections_per_minute);
        daily_quota_bytes := request.(daily_quota_bytes);
        active_weekdays_utc := normal_weekdays request.(active_weekdays_utc);
        start_minute_utc := request.(start_minute_utc); end_minute_utc := request.(end_minute_utc);
        enabled := request.(enabled) |}.

Definition utc_day (now : Z) : Z := now / 86400.

Definition schedule_allows (settings : UpsertTrafficControl) (now : Z) : bool :=
  let day := now / 86400 in
  let weekday := (day + 3) mod 7 in
  if negb (bool_decide (settings.(active_weekdays_utc) = [])) &&
     negb (bool_decide (weekday ∈ settings.(active_weekdays_utc))) then false
  else
    match settings.(start_minute_utc), settings.(end_minute_utc) with
    | Some start, Some end_ =>
        let minute := now mod 86400 / 60 in
        if start =? end_ then true
        else if start <? end_ then (start <=? minute) && (minute <? end_)
        else (start <=? minute) || (minute <? end_)
    | _, _ => true
    end.

(** ** Tables *)

Record control_row := {
  cr_allowed : rstr;
  cr_denied : rstr;
  cr_rate : option Z;
  cr_quota : sqlite_value;
  cr_weekdays : rstr;
  cr_start : option Z;
  cr_end : option Z;
  cr_enabled : bool;
  cr_updated : Z;
}.

(** The text columns of an event. *)
Record usage_row := { ur_kind : rstr; ur_policy : Z; ur_bytes : rstr; ur_day : Z }.

Record TrafficTables := {
  traffic_controls : gmap (TrafficPolicyKind * Z) control_row;
  traffic_daily_usage : gmap (TrafficPolicyKind * Z * Z) sqlite_value;
  traffic_usage_events : gmap Z usage_row;
}.

Record TrafficControlCatalog := {
  tables : TrafficTables;
  connection_windows : gmap (TrafficPolicyKind * Z) (list Z);
}.

Definition catalog_open (tables : TrafficTables) : TrafficControlCatalog :=
  {| tables := tables; connection_windows := ∅ |}.

(** [SELECT COALESCE((SELECT bytes ..), 0)]. *)
Definition usage (t : TrafficTables) (kind : TrafficPolicyKind) (policy_id day : Z) : result TrafficError Z :=
  decode_sqlite_u64 (default (SqlInteger 0) (t.(traffic_daily_usage) !! (kind, policy_id, day))).

(** ** Operations *)

Section json.
Context {J : JsonColumns}.

Definition read_settings (row : control_row) : result TrafficError UpsertTrafficControl :=
  quota ← match row.(cr_quota) with
          | SqlNull => Ok None
          | value => bytes ← decode_sqlite_u64 value; Ok (Some bytes)
          end;
  allowed ← ok_or (strings_from_str row.(cr_allowed)) BadJson;
  denied ← ok_or (strings_from_str row.(cr_denied)) BadJson;
  weekdays ← ok_or (numbers_from_str row.(cr_weekdays)) BadJson;
  Ok {| allowed_cidrs := allowed; denied_cidrs := denied; max_connections_per_minute := row.(cr_rate);
        daily_quota_bytes := quota; active_weekdays_utc := weekdays; start_minute_utc := row.(cr_start);
        end_minute_utc := row.(cr_end); enabled := row.(cr_enabled) |}.

Definition traffic_get (t : TrafficTables) (kind : TrafficPolicyKind) (policy_id now : Z)
    : result TrafficError (option TrafficControlRecord) :=
  match t.(traffic_controls) !! (kind, policy_id) with
  | None => Ok None
  | Some row =>
      settings ← read_settings row;
      used ← usage t kind policy_id (utc_day now);
      Ok (Some {| tr_kind := kind; tr_policy_id := policy_id; tr_settings := settings;
                  tr_used_today_bytes := used; tr_updated := row.(cr_updated) |})
  end.

(** The row that is written; binding a [u64] parameter fails past the largest [i64]. *)
Definition settings_row (settings : UpsertTrafficControl) (now : Z) : result TrafficError control_row :=
  _ ← check (now <=? I64_MAX) ValueOutOfRange;
  Ok {| cr_allowed := strings_to_string settings.(allowed_cidrs);
        cr_denied := strings_to_string settings.(denied_cidrs);
        cr_rate := settings.(max_connections_per_minute);
        cr_quota := match settings.(daily_quota_bytes) with Some q => encode_sqlite_u64 q | None => SqlNull end;
        cr_weekdays := numbers_to_string settings.(active_weekdays_utc);
        cr_start := settings.(start_minute_utc); cr_end := settings.(end_minute_utc);
        cr_enabled := settings.(enabled); cr_updated := now |}.

(** The second component is the catalog afterwards, also when the call fails. *)
Definition traffic_upsert (self : TrafficControlCatalog) (kind : TrafficPolicyKind) (policy_id : Z)
    (request : UpsertTrafficControl) (now : Z)
    : result TrafficError TrafficControlRecord * TrafficControlCatalog :=
  match (settings ← normalized_settings request; settings_row settings now) with
  | Err e => (Err e, self)
  | Ok row =>
      let t := {| traffic_controls := <[(kind, policy_id) := row]> self.(tables).(traffic_controls);
                  traffic_daily_usage := self.(tables).(traffic_daily_usage);
                  traffic_usage_events := self.(tables).(traffic_usage_events) |} in
      let self := {| tables := t; connection_windows := delete (kind, policy_id) self.(connection_windows) |} in
      (record ← traffic_get t kind policy_id now; ok_or record NotReadBack, self)
  end.

Definition traffic_delete (self : TrafficControlCatalog) (kind : TrafficPolicyKind) (policy_id : Z)
    : bool * TrafficControlCatalog :=
  (is_some (self.(tables).(traffic_controls) !! (kind, policy_id)),
   {| tables := {| traffic_controls := delete (kind, policy_id) self.(tables).(traffic_controls);
                   traffic_daily_usage := self.(tables).(traffic_daily_usage);
                   traffic_usage_events := self.(tables).(traffic_usage_events) |};
      connection_windows := delete (kind, policy_id) self.(connection_windows) |}).

Definition reset_runtime_state (self : TrafficControlCatalog) : TrafficControlCatalog :=
  {| tables := self.(tables); connection_windows := ∅ |}.

(** The loop that pops connections older than a minute. *)
Fixpoint pop_expired (window : list Z) (now : Z) : list Z :=
  match window with
  | timestamp :: rest => if saturating_add U64_MAX timestamp 60 <=? now then pop_expired rest now else window
  | [] => []
  end.

Definition set_window (self : TrafficControlCatalog) key window : TrafficControlCatalog :=
  {| tables := self.(tables); connection_windows := <[key := window]> self.(connection_windows) |}.

Definition source_denied (settings : UpsertTrafficControl) (source : IpAddr) : bool :=
  existsb (λ cidr, cidr_matches cidr source) settings.(denied_cidrs) ||
  (negb (bool_decide (settings.(allowed_cidrs) = [])) &&
   negb (existsb (λ cidr, cidr_matches cidr source) settings.(allowed_cidrs))).

Definition authorize (self : TrafficControlCatalog) (kind : TrafficPolicyKind) (policy_id : Z)
    (source : IpAddr) (now : Z) : result TrafficError TrafficDecision * TrafficControlCatalog :=
  match traffic_get self.(tables) kind policy_id now with
  | Err e => (Err e, self)
  | Ok None => (Ok Allowed, self)
  | Ok (Some record) =>
      let settings := record.(tr_settings) in
      if negb settings.(enabled) then (Ok Allowed, self)
      else if source_denied settings source then (Ok SourceDenied, self)
      else if negb (schedule_allows settings now) then (Ok OutsideSchedule, self)
      else if match settings.(daily_quota_bytes) with
              | Some quota => quota <=? record.(tr_used_today_bytes)
              | None => false
              end then (Ok QuotaExceeded, self)
      else
        match settings.(max_connections_per_minute) with
        | Some limit =>
            let window := pop_expired (default [] (self.(connection_windows) !! (kind, policy_id))) now in
            if limit <=? len window then (Ok RateLimited, set_window self (kind, policy_id) window)
            else (Ok Allowed, set_window self (kind, policy_id) (window ++ [now]))
        | None => (Ok Allowed, self)
        end
  end.
End json.

(** One transaction: the event is inserted unless its identifier is known, what is
    stored must be this event, and a new one is added to the usage of the day. *)
Definition record_usage_event (t : TrafficTables) (event : TrafficUsageEvent) (now : Z)
    : result TrafficError TrafficTables :=
  _ ← check (negb (event.(event_id) =? 0)) EventIdNil;
  let day := utc_day now in
  let row := {| ur_kind := kind_as_str event.(event_kind); ur_policy := event.(event_policy_id);
                ur_bytes := to_string event.(event_bytes); ur_day := day |} in
  let inserted := negb (is_some (t.(traffic_usage_events) !! event.(event_id))) in
  let events := if inserted then <[event.(event_id) := row]> t.(traffic_usage_events)
                else t.(traffic_usage_events) in
  stored ← ok_or (events !! event.(event_id)) InvalidQuery;
  _ ← check (bool_decide (stored.(ur_kind) = kind_as_str event.(event_kind)) &&
             (stored.(ur_policy) =? event.(event_policy_id)) &&
             bool_decide (stored.(ur_bytes) = to_string event.(event_bytes))) EventMismatch;
  if inserted then
    used ← usage t event.(event_kind) event.(event_policy_id) day;
    let total := saturating_add U64_MAX used event.(event_bytes) in
    Ok {| traffic_controls := t.(traffic_controls);
          traffic_daily_usage := <[(event.(event_kind), event.(event_policy_id), day) := encode_sqlite_u64 total]>
                                   t.(traffic_daily_usage);
          traffic_usage_events := events |}
  else Ok {| traffic_controls := t.(traffic_controls); traffic_daily_usage := t.(traffic_daily_usage);
             traffic_usage_events := events |}.

(** ** Integers *)

Lemma decode_encode_u64 v : 0 ≤ v ≤ U64_MAX → decode_sqlite_u64 (encode_sqlite_u64 v) = Ok v.
Proof.
  intros Hv. unfold encode_sqlite_u64. destruct (Z.leb_spec v I64_MAX); cbn [decode_sqlite_u64].
  - by rewrite (proj2 (Z.leb_le 0 v)) by lia.
  - rewrite length_to_be_bytes. cbn [Nat.eqb]. by rewrite from_to_be_bytes by (cbn; lia).
Qed.

Lemma check_Ok b e u : check b e = Ok u → b = true.
Proof. by destruct b. Qed.
Lemma check_true b e : b = true → check b e = Ok tt.
Proof. by intros ->. Qed.

Ltac checks_inv H :=
  repeat (bind_inv H; repeat match goal with E : check _ _ = Ok ?u |- _ => apply check_Ok in E; try clear u end).

(** ** Usage is counted once *)

Abbreviation usage_call := (TrafficUsageEvent * Z)%type.

(** The calls that were the first with their identifier. *)
Fixpoint first_uses (seen : gset Z) (calls : list usage_call) : list usage_call :=
  match calls with
  | [] => []
  | (e, now) :: calls =>
      if bool_decide (e.(event_id) = 0) || bool_decide (e.(event_id) ∈ seen) then first_uses seen calls
      else (e, now) :: first_uses ({[ e.(event_id) ]} ∪ seen) calls
  end.

Definition charge (kind : TrafficPolicyKind) (policy_id day : Z) (c : usage_call) : Z :=
  if bool_decide ((c.1.(event_kind), c.1.(event_policy_id), utc_day c.2) = (kind, policy_id, day))
  then c.1.(event_bytes) else 0.
Definition charged (kind : TrafficPolicyKind) (policy_id day : Z) (calls : list usage_call) : Z :=
  foldr (λ c, Z.add (charge kind policy_id day c)) 0 calls.

(** A call that fails leaves the tables as they were. *)
Definition record_all (t : TrafficTables) (calls : list usage_call) : TrafficTables :=
  fold_left (λ t c, match record_usage_event t c.1 c.2 with Ok t' => t' | Err _ => t end) calls t.

(** The usage of every day is what [base] says, up to the largest [u64]. *)
Definition usage_is (base : TrafficPolicyKind → Z → Z → Z) (t : TrafficTables) : Prop :=
  ∀ kind policy day, usage t kind policy day = Ok (Z.min U64_MAX (base kind policy day)).

Lemma usage_insert t kind policy day v controls events k p d :
  0 ≤ v ≤ U64_MAX →
  usage {| traffic_controls := controls;
           traffic_daily_usage := <[(kind, policy, day) := encode_sqlite_u64 v]> t.(traffic_daily_usage);
           traffic_usage_events := events |} k p d =
    if bool_decide ((kind, policy, day) = (k, p, d)) then Ok v else usage t k p d.
Proof.
  intros Hv. unfold usage. cbn [traffic_daily_usage]. case_bool_decide as E.
  - rewrite <- E, lookup_insert_eq. cbn. by apply decode_encode_u64.
  - by rewrite lookup_insert_ne.
Qed.

Lemma record_usage_known t e now :
  is_some (t.(traffic_usage_events) !! e.(event_id)) = true →
  match record_usage_event t e now with Ok t' => t' = t | Err _ => True end.
Proof.
  intros Hs. unfold record_usage_event. destruct (check _ _) as [u|]; [|done]. cbn [mbind result_bind].
  rewrite Hs. cbn [negb]. destruct (ok_or _ _) as [stored|]; [|done]. cbn [mbind result_bind].
  destruct (check _ _); [|done]. cbn. by destruct t.
Qed.

Lemma record_usage_fresh t e now used :
  e.(event_id) ≠ 0 → t.(traffic_usage_events) !! e.(event_id) = None →
  usage t e.(event_kind) e.(event_policy_id) (utc_day now) = Ok used →
  record_usage_event t e now = Ok
    {| traffic_controls := t.(traffic_controls);
       traffic_daily_usage :=
         <[(e.(event_kind), e.(event_policy_id), utc_day now) :=
             encode_sqlite_u64 (saturating_add U64_MAX used e.(event_bytes))]> t.(traffic_daily_usage);
       traffic_usage_events :=
         <[e.(event_id) := {| ur_kind := kind_as_str e.(event_kind); ur_policy := e.(event_policy_id);
                              ur_bytes := to_string e.(event_bytes); ur_day := utc_day now |}]>
           t.(traffic_usage_events) |}.
Proof.
  intros Hid Hn Hu. unfold record_usage_event. rewrite (proj2 (Z.eqb_neq _ _) Hid). cbn [negb check mbind result_bind].
  rewrite Hn. cbn [is_some negb]. rewrite lookup_insert_eq. cbn [ok_or mbind result_bind ur_kind ur_policy ur_bytes].
  rewrite !bool_decide_eq_true_2, Z.eqb_refl by done. cbn [andb check mbind result_bind]. by rewrite Hu.
Qed.

Definition event_typed (c : usage_call) : Prop := 0 ≤ c.1.(event_bytes) ≤ U64_MAX.

Lemma usage_after t e now base :
  event_typed (e, now) → (∀ k p d, 0 ≤ base k p d) → usage_is base t →
  e.(event_id) ≠ 0 → t.(traffic_usage_events) !! e.(event_id) = None →
  ∃ t', record_usage_event t e now = Ok t' ∧
    dom t'.(traffic_usage_events) = {[ e.(event_id) ]} ∪ dom t.(traffic_usage_events) ∧
    usage_is (λ k p d, base k p d + charge k p d (e, now)) t'.
Proof.
  intros Ht Hb Hu Hid Hn. unfold event_typed in Ht. cbn in Ht.
  eexists. split; [apply (record_usage_fresh _ _ _ _ Hid Hn (Hu _ _ _))|]. cbn. split; [by rewrite dom_insert_L|].
  intros k p d. specialize (Hb (event_kind e) (event_policy_id e) (utc_day now)) as Hb'.
  rewrite usage_insert by (unfold saturating_add; lia). unfold charge. cbn [fst snd]. case_bool_decide as E.
  - injection E as <- <- <-. f_equal. unfold saturating_add. lia.
  - rewrite (Hu k p d). f_equal. lia.
Qed.

Lemma usage_record_all t calls base seen :
  Forall event_typed calls → (∀ k p d, 0 ≤ base k p d) → usage_is base t →
  dom t.(traffic_usage_events) = seen →
  usage_is (λ k p d, base k p d + charged k p d (first_uses seen calls)) (record_all t calls).
Proof.
  revert t base seen. induction calls as [|[e now] calls IH]; intros t base seen Hty Hb Hu Hd.
  { intros k p d. cbn. rewrite (Hu k p d). f_equal. f_equal. lia. }
  inversion Hty as [|? ? He Hty']; subst. cbn [record_all fold_left first_uses].
  destruct (bool_decide (e.(event_id) = 0)) eqn:Ez; cbn [orb].
  { apply bool_decide_eq_true_1 in Ez. cbn [fst snd].
    assert (Er : record_usage_event t e now = Err EventIdNil) by (unfold record_usage_event; by rewrite Ez).
    rewrite Er. by apply IH. }
  apply bool_decide_eq_false_1 in Ez. case_bool_decide as Hin.
  - apply elem_of_dom in Hin as [row Hrow].
    pose proof (record_usage_known t e now) as Hk. rewrite Hrow in Hk. specialize (Hk eq_refl). cbn [fst snd].
    destruct (record_usage_event t e now) as [t'|]; [subst t'|]; by apply IH.
  - apply not_elem_of_dom in Hin. destruct (usage_after t e now base He Hb Hu Ez Hin) as (t' & Er & Hd' & Hu').
    assert (Hb' : ∀ k p d, 0 ≤ base k p d + charge k p d (e, now)).
    { intros k p d. specialize (Hb k p d). unfold charge, event_typed in *. cbn in *. case_bool_decide; lia. }
    cbn [fst snd]. rewrite Er. intros k p d. specialize (IH t' _ _ Hty' Hb' Hu' Hd' k p d).
    unfold record_all in IH. rewrite IH. unfold charged. cbn [foldr]. f_equal. f_equal. lia.
Qed.

(** Traffic is counted exactly once: whatever events are reported, how often and
    in which order, the usage of a policy on a day is the sum of the bytes of the
    distinct events first reported on that day, up to the largest [u64]; repeated or
    conflicting reports change nothing. *)
Theorem usage_counted_once (t : TrafficTables) (calls : list usage_call) (kind : TrafficPolicyKind)
    (policy_id day : Z) :
  t.(traffic_daily_usage) = ∅ → t.(traffic_usage_events) = ∅ → Forall event_typed calls →
  usage (record_all t calls) kind policy_id day =
    Ok (Z.min U64_MAX (charged kind policy_id day (first_uses ∅ calls))).
Proof.
  intros Hu He Hty. rewrite (usage_record_all t calls (λ _ _ _, 0) ∅); [done|done|done| |].
  - intros k p d. unfold usage. by rewrite Hu, lookup_empty.
  - by rewrite He, dom_empty_L.
Qed.

(** ** CIDR blocks *)

(** Membership in a block, without masks. *)
Definition in_block (network source bits prefix : Z) : bool :=
  network / 2 ^ (bits - prefix) =? source / 2 ^ (bits - prefix).

Lemma masked_in_block w p n a :
  0 ≤ p ≤ w → 0 ≤ a < 2 ^ w → 0 ≤ n < 2 ^ w →
  (Z.land n (prefix_mask w p) =? Z.land a (prefix_mask w p)) = in_block n a w p.
Proof.
  intros Hp Ha Hn. rewrite !land_prefix_mask by done. unfold in_block.
  assert (0 < 2 ^ (w - p)) by (apply Z.pow_pos_nonneg; lia).
  destruct (Z.eqb_spec (n / 2 ^ (w - p)) (a / 2 ^ (w - p))) as [->|Hne]; [apply Z.eqb_refl|].
  apply Z.eqb_neq. nia.
Qed.

Definition cidr_ok (c : Cidr) : Prop :=
  ip_ok c.(cidr_address) ∧ 0 ≤ c.(cidr_prefix) ≤ ip_bits c.(cidr_address).

Lemma parse_cidr_ok value c : parse_cidr value = Ok c → cidr_ok c.
Proof.
  unfold parse_cidr. destruct (split_once _ _) as [[address prefix]|]; intros E; checks_inv E; injection E as <-;
    split; cbn.
  - match goal with E : ok_or (parse_ip _) _ = Ok _ |- _ =>
      destruct (parse_ip _) eqn:Ep in E; [|done]; injection E as <- end.
    by eapply parse_ip_ok.
  - match goal with E : ok_or (parse_uint _ _) _ = Ok _ |- _ =>
      destruct (parse_uint _ _) as [v|] eqn:Ev in E; [|done]; injection E as <- end.
    apply parse_uint_bound in Ev; [|lia]. bool_prop. lia.
  - match goal with E : ok_or (parse_ip _) _ = Ok _ |- _ =>
      destruct (parse_ip _) eqn:Ep in E; [|done]; injection E as <- end.
    by eapply parse_ip_ok.
  - destruct r; cbn; lia.
Qed.

(** The printed text has no slash and no white space. *)
Definition ip_char (c : Z) : Prop := c ≠ ch_slash ∧ is_whitespace c = false.

Lemma hex_digit_char d : 0 ≤ d < 16 → ip_char (hex_digit d).
Proof.
  intros H. assert (Hd : d ∈ seqZ 0 16) by (apply elem_of_seqZ; lia). clear H. revert d Hd.
  apply Forall_forall. unfold ip_char. repeat (constructor; [split; [done|reflexivity]|]). constructor.
Qed.

Lemma hex_digits_chars fuel n : 0 ≤ n → Forall ip_char (hex_digits fuel n).
Proof.
  revert n. induction fuel as [|f IH]; intros n Hn; cbn [hex_digits]; [constructor|].
  pose proof (Z.mod_pos_bound n 16 ltac:(lia)). destruct (Z.ltb_spec n 16).
  - constructor; [by apply hex_digit_char|constructor].
  - apply Forall_app. split; [apply IH, Z.div_pos; lia|]. constructor; [by apply hex_digit_char|constructor].
Qed.

Lemma join_forall (P : Z → Prop) sep l : Forall P sep → Forall (Forall P) l → Forall P (join sep l).
Proof.
  intros Hs. induction l as [|s l IH]; intros Hl; [constructor|]. inversion Hl; subst.
  destruct l; [done|]. cbn [join]. rewrite !Forall_app. auto.
Qed.

Lemma to_string_chars n : 0 ≤ n → Forall ip_char (to_string n).
Proof.
  intros Hn. eapply Forall_impl; [by apply to_string_digits|]. cbn. intros c Hc. split.
  - apply (digit_not c ch_slash Hc). lia.
  - by apply digit_no_ws.
Qed.

Lemma print_ipv4_chars x : Forall ip_char (print_ipv4 x).
Proof.
  apply join_forall; [by repeat constructor|]. apply Forall_fmap. eapply Forall_impl; [apply to_be_bytes_ok|].
  cbn. intros b Hb. apply to_string_chars. unfold byte_ok in Hb. lia.
Qed.

Lemma fmt_subslice_chars gs : Forall segment_ok gs → Forall ip_char (fmt_subslice gs).
Proof.
  intros Hgs. apply join_forall; [by repeat constructor|]. apply Forall_fmap. eapply Forall_impl; [exact Hgs|].
  intros g Hg. apply (hex_digits_chars 4). unfold segment_ok in Hg. lia.
Qed.

Lemma print_ip_chars a : Forall ip_char (print_ip a).
Proof.
  destruct a as [x|x]; cbn [print_ip]; [apply print_ipv4_chars|]. unfold print_ipv6.
  pose proof (ipv6_segments_ok x) as Hok. destruct (_ =? 65535).
  - apply Forall_app. split; [|apply print_ipv4_chars]. repeat (constructor; [split; [done|reflexivity]|]). constructor.
  - destruct (1 <? _)%nat; [|by apply fmt_subslice_chars]. rewrite !Forall_app. split_and!.
    + by apply fmt_subslice_chars, Forall_take.
    + repeat (constructor; [split; [done|reflexivity]|]). constructor.
    + by apply fmt_subslice_chars, Forall_drop.
Qed.

Lemma parse_cidr_normalized c : cidr_ok c → parse_cidr (cidr_normalized c) = Ok c.
Proof.
  intros [Hip Hp]. unfold parse_cidr, cidr_normalized. destruct c as [a p]. cbn [cidr_address cidr_prefix] in *.
  pose proof (print_ip_chars a) as Ha. pose proof (to_string_chars p ltac:(lia)) as Hpc.
  assert (Hws : no_ws (print_ip a ++ [ch_slash] ++ to_string p)).
  { unfold no_ws. rewrite !Forall_app. split_and!; [| by repeat constructor|];
      (eapply Forall_impl; [eassumption|]; by intros c [_ ?]). }
  rewrite trim_no_ws by done. cbn [app]. rewrite split_once_app.
  2: { eapply Forall_impl; [exact Ha|]. by intros c [? _]. }
  rewrite parse_print_ip by done. cbn [ok_or mbind result_bind].
  rewrite parse_uint_to_string; [|destruct a; cbn in Hp; lia|lia]. cbn [ok_or mbind result_bind].
  by rewrite (check_true (_ <=? _)) by (apply Z.leb_le; lia).
Qed.

(** ** Normalisation of settings *)

Lemma elem_of_dedup_after x l y : y ∈ x :: dedup_after x l ↔ y ∈ x :: l.
Proof.
  revert x. induction l as [|z l IH]; intros x; cbn [dedup_after]; [done|].
  destruct (Z.eqb_spec x z) as [->|Hne].
  - rewrite IH. set_solver.
  - rewrite (elem_of_cons _ y x), IH. set_solver.
Qed.

Lemma elem_of_dedup l y : y ∈ dedup l ↔ y ∈ l.
Proof. destruct l as [|x l]; [done|]. apply elem_of_dedup_after. Qed.

Lemma dedup_sorted l : StronglySorted Z.le l → StronglySorted Z.lt (dedup l).
Proof.
  destruct l as [|x l]; [constructor|]. cbn [dedup]. revert x. induction l as [|y l IH]; intros x Hs.
  - repeat constructor.
  - inversion Hs as [|? ? Hs' Hx]; subst. inversion Hx as [|? ? Hxy Hx']; subst. cbn [dedup_after].
    destruct (Z.eqb_spec x y) as [->|Hne]; [by apply IH|].
    pose proof (IH y Hs') as Hd. constructor; [done|]. apply Forall_forall. intros z Hz.
    apply (proj1 (elem_of_dedup_after y l z)) in Hz. inversion Hs' as [|? ? _ Hy]; subst.
    apply elem_of_cons in Hz as [->|Hz]; [lia|]. rewrite Forall_forall in Hy. specialize (Hy z Hz). lia.
Qed.

Lemma dedup_strict l : StronglySorted Z.lt l → dedup l = l.
Proof.
  destruct l as [|x l]; [done|]. cbn [dedup]. revert x. induction l as [|y l IH]; intros x Hs; [done|].
  inversion Hs as [|? ? Hs' Hx]; subst. inversion Hx; subst. cbn [dedup_after].
  rewrite (proj2 (Z.eqb_neq x y)) by lia. f_equal. by apply IH.
Qed.

Lemma merge_sort_id (l : list Z) : StronglySorted Z.le l → merge_sort Z.le l = l.
Proof.
  intros Hs. apply (StronglySorted_unique Z.le); [|done|apply merge_sort_Permutation].
  apply (StronglySorted_merge_sort Z.le).
Qed.

Lemma elem_of_normal_weekdays l d : d ∈ normal_weekdays l ↔ d ∈ l.
Proof. unfold normal_weekdays. by rewrite elem_of_dedup, merge_sort_Permutation. Qed.

Lemma normal_weekdays_idemp l : normal_weekdays (normal_weekdays l) = normal_weekdays l.
Proof.
  assert (Hs : StronglySorted Z.lt (normal_weekdays l)).
  { apply dedup_sorted, (StronglySorted_merge_sort Z.le). }
  unfold normal_weekdays at 1. rewrite merge_sort_id; [by apply dedup_strict|].
  clear -Hs. induction Hs as [|x k _ IH Hx]; constructor; [done|]. eapply Forall_impl; [exact Hx|]. cbn. lia.
Qed.

Lemma normalize_cidrs_matches vs ws source :
  normalize_cidrs vs = Ok ws →
  existsb (λ c, cidr_matches c source) ws = existsb (λ c, cidr_matches c source) vs ∧ length ws = length vs ∧
  normalize_cidrs ws = Ok ws.
Proof.
  unfold normalize_cidrs. intros E. apply collect_Ok in E.
  induction E as [|v w vs ws Hv _ (IH1 & IH2 & IH3)]; [done|]. bind_inv Hv. injection Hv as <-.
  match goal with E : parse_cidr _ = Ok _ |- _ => rename E into Hp end.
  pose proof (parse_cidr_normalized _ (parse_cidr_ok _ _ Hp)) as Hn. cbn [existsb collect length].
  unfold cidr_matches at 1 3. rewrite Hp, Hn, IH1, IH2. cbn [mbind result_bind]. by rewrite IH3.
Qed.

Lemma validate_Ok r u :
  validate r = Ok u →
  len r.(allowed_cidrs) ≤ 64 ∧ len r.(denied_cidrs) ≤ 64 ∧
  is_none_or r.(max_connections_per_minute) (λ v, (1 <=? v) && (v <=? 1000000)) = true ∧
  is_none_or r.(daily_quota_bytes) (λ v, 1024 <=? v) = true ∧
  (∀ d, d ∈ r.(active_weekdays_utc) → d ≤ 6) ∧
  eqb (is_some r.(start_minute_utc)) (is_some r.(end_minute_utc)) = true ∧
  is_none_or r.(start_minute_utc) (λ v, v <? 1440) && is_none_or r.(end_minute_utc) (λ v, v <? 1440) = true.
Proof.
  unfold validate. intros E. checks_inv E.
  match goal with E : forallb _ _ = true |- _ => rewrite forallb_forall in E; rename E into Hw end.
  match goal with E : _ && (len _ <=? 64) = true |- _ => apply andb_true_iff in E as [Hl1%Z.leb_le Hl2%Z.leb_le] end.
  split_and!; try done. intros d Hd. apply Z.leb_le, Hw. by apply list_elem_of_In.
Qed.

Lemma validate_intro r ws ws' :
  normalize_cidrs r.(allowed_cidrs) = Ok ws → normalize_cidrs r.(denied_cidrs) = Ok ws' →
  len r.(allowed_cidrs) ≤ 64 → len r.(denied_cidrs) ≤ 64 →
  is_none_or r.(max_connections_per_minute) (λ v, (1 <=? v) && (v <=? 1000000)) = true →
  is_none_or r.(daily_quota_bytes) (λ v, 1024 <=? v) = true →
  (∀ d, d ∈ r.(active_weekdays_utc) → d ≤ 6) →
  eqb (is_some r.(start_minute_utc)) (is_some r.(end_minute_utc)) = true →
  is_none_or r.(start_minute_utc) (λ v, v <? 1440) && is_none_or r.(end_minute_utc) (λ v, v <? 1440) = true →
  validate r = Ok tt.
Proof.
  intros Ha Hd Hl1 Hl2 Hr Hq Hw Hs Hm. unfold validate. rewrite Ha, Hd, Hr, Hq, Hs, Hm.
  rewrite !(proj2 (Z.leb_le _ _)) by done. cbn.
  assert (forallb (λ v, v <=? 6) r.(active_weekdays_utc) = true) as ->; [|done].
  apply forallb_forall. intros d Hd'. apply Z.leb_le, Hw. by apply list_elem_of_In.
Qed.

Lemma normalized_settings_meaning (request settings : UpsertTrafficControl) :
  normalized_settings request = Ok settings →
  (∀ source, source_denied settings source = source_denied request source) ∧
  (∀ now, schedule_allows settings now = schedule_allows request now) ∧
  settings.(max_connections_per_minute) = request.(max_connections_per_minute) ∧
  settings.(daily_quota_bytes) = request.(daily_quota_bytes) ∧ settings.(enabled) = request.(enabled) ∧
  normalized_settings settings = Ok settings.
Proof.
  intros E. unfold normalized_settings in E. bind_inv E. bind_inv E. bind_inv E. injection E as <-.
  match goal with E : validate _ = Ok _ |- _ => apply validate_Ok in E as (Hl1 & Hl2 & Hr & Hq & Hw & Hs & Hm) end.
  match goal with E : normalize_cidrs request.(allowed_cidrs) = Ok _ |- _ => rename E into Ha end.
  match goal with E : normalize_cidrs request.(denied_cidrs) = Ok _ |- _ => rename E into Hd end.
  destruct (normalize_cidrs_matches _ _ (V4 0) Ha) as (_ & Hla & Hna).
  destruct (normalize_cidrs_matches _ _ (V4 0) Hd) as (_ & Hld & Hnd).
  split_and!; try done.
  - intros source. unfold source_denied. cbn [allowed_cidrs denied_cidrs].
    destruct (normalize_cidrs_matches _ _ source Ha) as (-> & _). destruct (normalize_cidrs_matches _ _ source Hd) as (-> & _).
    f_equal. f_equal. f_equal. apply bool_decide_ext. rewrite <- !length_zero_iff_nil, Hla. done.
  - intros now. unfold schedule_allows. cbn [active_weekdays_utc start_minute_utc end_minute_utc].
    assert (bool_decide (normal_weekdays request.(active_weekdays_utc) = []) =
            bool_decide (request.(active_weekdays_utc) = [])) as ->.
    { apply bool_decide_ext. split; intros E; apply elem_of_nil_inv; intros d Hd'.
      - apply elem_of_normal_weekdays in Hd'. rewrite E in Hd'. by apply not_elem_of_nil in Hd'.
      - apply elem_of_normal_weekdays in Hd'. rewrite E in Hd'. by apply not_elem_of_nil in Hd'. }
    by rewrite (bool_decide_ext _ _ (elem_of_normal_weekdays request.(active_weekdays_utc) ((now / 86400 + 3) mod 7))).
  - set (s := {| allowed_cidrs := _ |}).
    assert (Hv : validate s = Ok tt).
    { eapply validate_intro; cbn; try done; try (unfold len in *; lia).
      intros d Hd'. apply Hw. by apply elem_of_normal_weekdays. }
    unfold normalized_settings. rewrite Hv. cbn [mbind result_bind s allowed_cidrs denied_cidrs].
    rewrite Hna, Hnd. cbn [mbind result_bind s active_weekdays_utc]. by rewrite normal_weekdays_idemp.
Qed.

(** Normalising settings does not change their meaning and is stable: the stored
    settings deny the same sources and follow the same schedule as the requested ones,
    keep limit and quota, and are their own normal form. *)
Theorem normalized_settings_equivalent (request settings : UpsertTrafficControl) :
  normalized_settings request = Ok settings →
  (∀ source, source_denied settings source = source_denied request source) ∧
  (∀ now, schedule_allows settings now = schedule_allows request now) ∧
  settings.(max_connections_per_minute) = request.(max_connections_per_minute) ∧
  settings.(daily_quota_bytes) = request.(daily_quota_bytes) ∧ settings.(enabled) = request.(enabled) ∧
  normalized_settings settings = Ok settings.
Proof. apply normalized_settings_meaning. Qed.

(** ** Rate limiting *)

Section rate.
Context {J : JsonColumns}.

Abbreviation connection := (IpAddr * Z)%type.

(** Calls of [authorize] for one policy, one after the other. *)
Fixpoint authorize_all (self : TrafficControlCatalog) (kind : TrafficPolicyKind) (policy_id : Z)
    (calls : list connection) : list (result TrafficError TrafficDecision) :=
  match calls with
  | [] => []
  | (source, now) :: calls =>
      let '(d, self) := authorize self kind policy_id source now in
      d :: authorize_all self kind policy_id calls
  end.

(** The checks before the rate limit. *)
Definition filters (settings : UpsertTrafficControl) (used : Z) (source : IpAddr) (now : Z)
    : option TrafficDecision :=
  if source_denied settings source then Some SourceDenied
  else if negb (schedule_allows settings now) then Some OutsideSchedule
  else if match settings.(daily_quota_bytes) with Some quota => quota <=? used | None => false end
  then Some QuotaExceeded
  else None.

(** The number of connections among [times] in the minute that ends at [now]. *)
Definition in_last_minute (now : Z) (times : list Z) : Z := len (filter (λ t, now - 60 < t ≤ now) times).

(** The specification: [admitted] are the times of the connections admitted so far, and
    a connection that passes the filters is admitted while fewer than [limit] of them
    lie in the last minute. *)
Fixpoint admissions (settings : UpsertTrafficControl) (used : Z → Z) (limit : Z) (admitted : list Z)
    (calls : list connection) : list TrafficDecision :=
  match calls with
  | [] => []
  | (source, now) :: calls =>
      match filters settings (used now) source now with
      | Some d => d :: admissions settings used limit admitted calls
      | None =>
          if limit <=? in_last_minute now admitted
          then RateLimited :: admissions settings used limit admitted calls
          else Allowed :: admissions settings used limit (admitted ++ [now]) calls
      end
  end.

(** The times of the connections that were admitted. *)
Definition admitted_times (calls : list connection) (ds : list TrafficDecision) : list Z :=
  (filter (λ c : connection * TrafficDecision, c.2 = Allowed) (zip calls ds)).*1.*2.

(** The clock does not go back, and stays a minute away from the largest [u64]. *)
Definition clock_ok (last : Z) (calls : list connection) : Prop :=
  StronglySorted Z.le (last :: calls.*2) ∧ Forall (λ t, 0 ≤ t ≤ U64_MAX - 60) calls.*2.

Lemma clock_ok_cons last source now calls :
  clock_ok last ((source, now) :: calls) → last ≤ now ∧ 0 ≤ now ≤ U64_MAX - 60 ∧ clock_ok now calls.
Proof.
  unfold clock_ok. cbn [fmap list_fmap snd]. intros [Hs Hb]. inversion Hs as [|? ? Hs' Hl]; subst.
  inversion Hl; subst. inversion Hb; subst. done.
Qed.

Lemma pop_expired_sorted window now :
  StronglySorted Z.le window → Forall (λ t, 0 ≤ t ≤ U64_MAX - 60 ∧ t ≤ now) window →
  pop_expired window now = filter (λ t, now - 60 < t ≤ now) window.
Proof.
  intros Hs Hb. induction Hs as [|t window Hs IH Ht]; [done|]. inversion Hb as [|? ? Hbt Hb']; subst.
  cbn [pop_expired]. rewrite saturating_add_small by lia. destruct (Z.leb_spec (t + 60) now).
  - rewrite filter_cons_False by lia. by apply IH.
  - symmetry. apply filter_all. constructor; [lia|]. rewrite Forall_forall in Ht, Hb' |- *.
    intros x Hx. specialize (Ht x Hx). specialize (Hb' x Hx). lia.
Qed.

(** The window holds the admitted connections that were not yet a minute old. *)
Definition window_of (last : Z) (admitted : list Z) : list Z := filter (λ t, last - 60 < t ≤ last) admitted.

Definition admitted_ok (last : Z) (admitted : list Z) : Prop :=
  StronglySorted Z.le admitted ∧ Forall (λ t, 0 ≤ t ≤ U64_MAX - 60 ∧ t ≤ last) admitted.

Lemma admitted_ok_later last now admitted : last ≤ now → admitted_ok last admitted → admitted_ok now admitted.
Proof. intros Hl [Hs Hb]. split; [done|]. eapply Forall_impl; [exact Hb|]. cbn. lia. Qed.

Lemma StronglySorted_filter (P : Z → Prop) `{!∀ x, Decision (P x)} l :
  StronglySorted Z.le l → StronglySorted Z.le (filter P l).
Proof.
  induction 1 as [|x l _ IH Hx]; [constructor|]. rewrite filter_cons. case_decide; [|done].
  constructor; [done|]. by apply Forall_filter_sub.
Qed.

Lemma pop_window last now admitted :
  last ≤ now → admitted_ok last admitted → pop_expired (window_of last admitted) now = window_of now admitted.
Proof.
  intros Hl [Hs Hb]. rewrite pop_expired_sorted.
  - unfold window_of. rewrite list_filter_filter. apply filter_ext_Forall. clear Hs.
    eapply Forall_impl; [exact Hb|]. cbn. lia.
  - by apply StronglySorted_filter.
  - apply Forall_filter_sub. eapply Forall_impl; [exact Hb|]. cbn. lia.
Qed.

Lemma admitted_ok_snoc now admitted :
  0 ≤ now ≤ U64_MAX - 60 → admitted_ok now admitted → admitted_ok now (admitted ++ [now]).
Proof.
  intros Hn [Hs Hb]. split; [|apply Forall_app; split; [done|]; constructor; [lia|constructor]].
  clear Hn. induction Hs as [|x l Hs IH Hx]; [repeat constructor|]. inversion Hb as [|? ? Hbx Hb']; subst.
  cbn [app]. constructor; [by apply IH|]. apply Forall_app. split; [done|]. constructor; [lia|constructor].
Qed.

Lemma window_of_snoc now admitted : window_of now (admitted ++ [now]) = window_of now admitted ++ [now].
Proof. unfold window_of. rewrite filter_app. f_equal. rewrite filter_cons_True by lia. done. Qed.

(** One call under settings with a rate limit. *)
Lemma authorize_gate self kind policy_id source now settings used updated limit :
  traffic_get self.(tables) kind policy_id now =
    Ok (Some {| tr_kind := kind; tr_policy_id := policy_id; tr_settings := settings;
                tr_used_today_bytes := used; tr_updated := updated |}) →
  settings.(enabled) = true → settings.(max_connections_per_minute) = Some limit →
  authorize self kind policy_id source now =
    match filters settings used source now with
    | Some d => (Ok d, self)
    | None =>
        let window := pop_expired (default [] (self.(connection_windows) !! (kind, policy_id))) now in
        if limit <=? len window then (Ok RateLimited, set_window self (kind, policy_id) window)
        else (Ok Allowed, set_window self (kind, policy_id) (window ++ [now]))
    end.
Proof.
  intros Hg He Hl. unfold authorize, filters. rewrite Hg. cbn [tr_settings tr_used_today_bytes]. rewrite He, Hl. cbn [negb].
  destruct (source_denied settings source); [done|]. destruct (negb (schedule_allows settings now)); [done|].
  by destruct (match settings.(daily_quota_bytes) with Some q => _ | None => _ end).
Qed.

Lemma authorize_all_admissions self kind policy_id settings used updated limit calls last admitted :
  (∀ now, traffic_get self.(tables) kind policy_id now =
     Ok (Some {| tr_kind := kind; tr_policy_id := policy_id; tr_settings := settings;
                 tr_used_today_bytes := used now; tr_updated := updated |})) →
  settings.(enabled) = true → settings.(max_connections_per_minute) = Some limit →
  clock_ok last calls → admitted_ok last admitted →
  default [] (self.(connection_windows) !! (kind, policy_id)) = window_of last admitted →
  authorize_all self kind policy_id calls = Ok <$> admissions settings used limit admitted calls.
Proof.
  intros Hg He Hl. revert self last admitted Hg.
  induction calls as [|[source now] calls IH]; intros self last admitted Hg Hclock Had Hw; [done|].
  apply clock_ok_cons in Hclock as (Hle & Hnow & Hclock). cbn [authorize_all admissions].
  rewrite (authorize_gate _ _ _ _ _ _ _ _ _ (Hg now) He Hl). rewrite Hw, (pop_window last now) by done.
  pose proof (admitted_ok_later last now admitted Hle Had) as Had'.
  destruct (filters settings (used now) source now) as [d|].
  - cbn [fmap list_fmap]. f_equal. apply (IH self last); [done| |done|done].
    destruct Hclock as [Hs Hb]. split; [|done]. inversion Hs as [|? ? Hs' Hn]; subst. constructor; [done|].
    eapply Forall_impl; [exact Hn|]. cbn. lia.
  - cbv zeta. change (len (window_of now admitted)) with (in_last_minute now admitted).
    destruct (limit <=? in_last_minute now admitted); cbn [fmap list_fmap]; f_equal.
    + apply (IH _ now); [done..|]. cbn. by rewrite lookup_insert_eq.
    + apply (IH _ now); [done|done|by apply admitted_ok_snoc|]. cbn. by rewrite lookup_insert_eq, window_of_snoc.
Qed.

(** No minute has more than [limit] admissions. *)
Definition minute_bounded (limit : Z) (times : list Z) : Prop := ∀ t, in_last_minute t times ≤ limit.

Lemma in_last_minute_snoc t times now :
  in_last_minute t (times ++ [now]) = in_last_minute t times + (if decide (t - 60 < now ≤ t) then 1 else 0).
Proof.
  unfold in_last_minute. rewrite filter_app, len_app. f_equal. cbn. by case_decide.
Qed.

Lemma in_last_minute_later now t times :
  now ≤ t → Forall (λ x, x ≤ now) times → in_last_minute t times ≤ in_last_minute now times.
Proof.
  intros Ht Hb. unfold in_last_minute. induction Hb as [|x times Hx _ IH]; [done|].
  rewrite !filter_cons. repeat case_decide; rewrite ?len_cons; lia.
Qed.

Lemma admissions_bounded settings used limit admitted calls last :
  0 ≤ limit → clock_ok last calls → Forall (λ x, x ≤ last) admitted → minute_bounded limit admitted →
  minute_bounded limit (admitted ++ admitted_times calls (admissions settings used limit admitted calls)).
Proof.
  intros Hlim. revert last admitted. induction calls as [|[source now] calls IH]; intros last admitted Hclock Hb Hm.
  { cbn. by rewrite app_nil_r. }
  apply clock_ok_cons in Hclock as (Hle & _ & Hclock). cbn [admissions].
  assert (Hb' : Forall (λ x, x ≤ now) admitted) by (eapply Forall_impl; [exact Hb|]; cbn; lia).
  assert (Hskip : ∀ d ds, d ≠ Allowed → admitted_times ((source, now) :: calls) (d :: ds) = admitted_times calls ds).
  { intros d ds Hd. unfold admitted_times. cbn [zip]. by rewrite filter_cons_False. }
  destruct (filters settings (used now) source now) as [d|] eqn:Ef.
  - rewrite Hskip; [by apply (IH now)|]. unfold filters in Ef. repeat case_match; by simplify_eq.
  - destruct (Z.leb_spec limit (in_last_minute now admitted)) as [|Hlt]; [rewrite Hskip by done; by apply (IH now)|].
    unfold admitted_times. cbn [zip]. rewrite filter_cons_True by done. cbn [fmap list_fmap fst snd].
    fold (admitted_times calls (admissions settings used limit (admitted ++ [now]) calls)).
    rewrite cons_middle, app_assoc. apply (IH now); [done| |].
    + apply Forall_app. split; [done|]. by repeat constructor.
    + intros t. rewrite in_last_minute_snoc. specialize (Hm t). case_decide; [|lia].
      pose proof (in_last_minute_later now t admitted ltac:(lia) Hb'). lia.
Qed.

(** The rate limit is exact: for calls under one set of enabled settings, with a
    clock that does not go back and starting without a window, the decisions are those
    of the specification, and in no minute are more than the allowed number of
    connections admitted. *)
Theorem rate_limit_exact (self : TrafficControlCatalog) (kind : TrafficPolicyKind) (policy_id : Z)
    (settings : UpsertTrafficControl) (used : Z → Z) (updated limit : Z) (calls : list connection) :
  (∀ now, traffic_get self.(tables) kind policy_id now =
     Ok (Some {| tr_kind := kind; tr_policy_id := policy_id; tr_settings := settings;
                 tr_used_today_bytes := used now; tr_updated := updated |})) →
  settings.(enabled) = true → settings.(max_connections_per_minute) = Some limit → 0 ≤ limit →
  self.(connection_windows) !! (kind, policy_id) = None → clock_ok 0 calls →
  let decisions := admissions settings used limit [] calls in
  authorize_all self kind policy_id calls = Ok <$> decisions ∧
  ∀ t, in_last_minute t (admitted_times calls decisions) ≤ limit.
Proof.
  intros Hg He Hl Hlim Hw Hclock. cbn zeta. split.
  - eapply (authorize_all_admissions _ _ _ _ _ _ _ _ 0 []); try done; [|by rewrite Hw].
    split; constructor.
  - apply (admissions_bounded settings used limit [] calls 0); [done|done|constructor|]. by intros t.
Qed.
End rate.

(** ** What the settings mean *)

(** A CIDR entry admits exactly the addresses of its own family that share the
    prefix of its network. *)
Theorem cidr_matches_block (value : rstr) (c : Cidr) (source : IpAddr) :
  parse_cidr value = Ok c → ip_ok source →
  cidr_matches value source =
    match c.(cidr_address), source with
    | V4 network, V4 s => in_block network s 32 c.(cidr_prefix)
    | V6 network, V6 s => in_block network s 128 c.(cidr_prefix)
    | _, _ => false
    end.
Proof.
  intros Hc Hs. pose proof (parse_cidr_ok _ _ Hc) as [Ha Hp]. unfold cidr_matches. rewrite Hc. unfold cidr_contains.
  destruct (cidr_address c) as [n|n], source as [s|s]; try done; cbn in Ha, Hs, Hp; by apply masked_in_block; lia.
Qed.

(** [minute] lies in the window that starts at [start] and wraps around at midnight. *)
Definition in_window (start end_ minute : Z) : bool :=
  (start =? end_) || ((minute - start) mod 1440 <? (end_ - start) mod 1440).

(** The schedule admits a time exactly when its weekday is active, with Thursday,
    1 January 1970 as day 3, and its minute lies in the window, which may span
    midnight. *)
Theorem schedule_reference (request settings : UpsertTrafficControl) (now : Z) :
  normalized_settings request = Ok settings → 0 ≤ now →
  (∀ v, request.(start_minute_utc) = Some v → 0 ≤ v) → (∀ v, request.(end_minute_utc) = Some v → 0 ≤ v) →
  schedule_allows settings now =
    bool_decide (request.(active_weekdays_utc) = [] ∨ (utc_day now + 3) mod 7 ∈ request.(active_weekdays_utc)) &&
    match request.(start_minute_utc), request.(end_minute_utc) with
    | Some start, Some end_ => in_window start end_ (now mod 86400 / 60)
    | _, _ => true
    end.
Proof.
  intros E Hn Hs0 He0. unfold normalized_settings in E. bind_inv E. bind_inv E. bind_inv E. injection E as <-.
  match goal with E : validate _ = Ok _ |- _ => apply validate_Ok in E as (_ & _ & _ & _ & _ & _ & Hm) end.
  unfold schedule_allows, utc_day. cbn [active_weekdays_utc start_minute_utc end_minute_utc].
  set (ws := request.(active_weekdays_utc)). set (d := (now / 86400 + 3) mod 7).
  assert (Hw : negb (bool_decide (normal_weekdays ws = [])) && negb (bool_decide (d ∈ normal_weekdays ws)) =
               negb (bool_decide (ws = [] ∨ d ∈ ws))).
  { assert (Hnil : normal_weekdays ws = [] ↔ ws = []).
    { split; intros E; apply elem_of_nil_inv; intros x Hx; apply elem_of_normal_weekdays in Hx; rewrite E in Hx;
        by apply not_elem_of_nil in Hx. }
    pose proof (elem_of_normal_weekdays ws d). repeat case_bool_decide; naive_solver. }
  rewrite Hw. destruct (bool_decide (ws = [] ∨ d ∈ ws)); [|done]. cbn [negb andb].
  destruct request.(start_minute_utc) as [s|]; [|done]. destruct request.(end_minute_utc) as [e|]; [|done].
  specialize (Hs0 s eq_refl). specialize (He0 e eq_refl). cbn in Hm. bool_prop.
  set (m := now mod 86400 / 60).
  assert (Hmin : 0 ≤ m < 1440).
  { subst m. pose proof (Z.mod_pos_bound now 86400 ltac:(lia)). split; [apply Z.div_pos; lia|].
    apply Z.div_lt_upper_bound; lia. }
  clearbody m. unfold in_window. destruct (Z.eqb_spec s e); [done|]. cbn [orb].
  assert (Hmod : ∀ x, 0 ≤ x < 1440 → (x - s) mod 1440 = if s <=? x then x - s else x - s + 1440).
  { intros x Hx. destruct (Z.leb_spec s x); [apply Z.mod_small; lia|].
    symmetry. apply (Z.mod_unique _ _ (-1)); lia. }
  rewrite !Hmod by lia. repeat zcase; cbn; try done; lia.
Qed.

Section stored.
Context {J : JsonColumns} `{!JsonColumnLaws J}.

Lemma read_settings_row settings now row :
  Forall (λ n, 0 ≤ n ≤ U8_MAX) settings.(active_weekdays_utc) →
  (∀ q, settings.(daily_quota_bytes) = Some q → 0 ≤ q ≤ U64_MAX) →
  settings_row settings now = Ok row → read_settings row = Ok settings ∧ row.(cr_updated) = now.
Proof using JsonColumnLaws0.
  intros Hw Hq E. unfold settings_row in E. checks_inv E. injection E as <-. split; [|done].
  unfold read_settings. cbn. rewrite !strings_round_trip, numbers_round_trip by done. cbn.
  destruct (daily_quota_bytes settings) as [q|] eqn:Eq; cbn; [|by destruct settings; simplify_eq/=].
  pose proof (decode_encode_u64 q (Hq q eq_refl)) as Hd.
  destruct (encode_sqlite_u64 q) eqn:Ee; [done| |]; cbn in Hd |- *; rewrite Hd; cbn; by destruct settings; simplify_eq/=.
Qed.

(** Settings are read back as they were accepted: an update with valid settings
    succeeds, and from then on every query returns the normalised settings, with quotas
    over the whole [u64] range, and no connection window is left over. *)
Theorem upsert_then_get (self : TrafficControlCatalog) (kind : TrafficPolicyKind) (policy_id : Z)
    (request settings : UpsertTrafficControl) (now : Z) :
  normalized_settings request = Ok settings → 0 ≤ now ≤ I64_MAX →
  Forall (λ n, 0 ≤ n) request.(active_weekdays_utc) →
  (∀ q, request.(daily_quota_bytes) = Some q → 0 ≤ q ≤ U64_MAX) →
  (∀ day, is_ok (usage self.(tables) kind policy_id day) = true) →
  ∃ record self', traffic_upsert self kind policy_id request now = (Ok record, self') ∧
    record.(tr_settings) = settings ∧ self'.(connection_windows) !! (kind, policy_id) = None ∧
    ∀ at_, ∃ used, usage self.(tables) kind policy_id (utc_day at_) = Ok used ∧
      traffic_get self'.(tables) kind policy_id at_ =
        Ok (Some {| tr_kind := kind; tr_policy_id := policy_id; tr_settings := settings;
                    tr_used_today_bytes := used; tr_updated := now |}).
Proof using JsonColumnLaws0.
  intros Hn Hnow Hw Hq Hu. pose proof Hn as Hn'. unfold normalized_settings in Hn'.
  bind_inv Hn'. bind_inv Hn'. bind_inv Hn'. injection Hn' as Es.
  match goal with E : validate _ = Ok _ |- _ => apply validate_Ok in E as (_ & _ & _ & _ & Hw6 & _) end.
  assert (Hws : Forall (λ n, 0 ≤ n ≤ U8_MAX) settings.(active_weekdays_utc)).
  { rewrite <- Es. cbn. apply Forall_forall. intros d Hd. rewrite elem_of_normal_weekdays in Hd.
    specialize (Hw6 d Hd). rewrite Forall_forall in Hw. specialize (Hw d Hd). cbn in Hw. lia. }
  assert (Hqs : ∀ q, settings.(daily_quota_bytes) = Some q → 0 ≤ q ≤ U64_MAX) by by rewrite <- Es.
  assert (Hrow : ∃ row, settings_row settings now = Ok row).
  { unfold settings_row. rewrite (check_true (_ <=? _)) by (apply Z.leb_le; lia). by eexists. }
  destruct Hrow as [row Hrow]. destruct (read_settings_row _ _ _ Hws Hqs Hrow) as [Hread Hup].
  unfold traffic_upsert. rewrite Hn. cbn [mbind result_bind]. rewrite Hrow.
  set (t := {| traffic_controls := _ |}).
  assert (Hget : ∀ at_, ∃ used, usage self.(tables) kind policy_id (utc_day at_) = Ok used ∧
    traffic_get t kind policy_id at_ = Ok (Some {| tr_kind := kind; tr_policy_id := policy_id;
      tr_settings := settings; tr_used_today_bytes := used; tr_updated := now |})).
  { intros at_. specialize (Hu (utc_day at_)).
    destruct (usage self.(tables) kind policy_id (utc_day at_)) as [used|] eqn:Eu; [|done]. exists used. split; [done|].
    unfold traffic_get, t. cbn [traffic_controls]. rewrite lookup_insert_eq, Hread. cbn [mbind result_bind].
    fold t. change (usage t kind policy_id (utc_day at_)) with (usage self.(tables) kind policy_id (utc_day at_)).
    rewrite Eu. cbn. by rewrite Hup. }
  destruct (Hget now) as (used & _ & Eg). eexists _, _. rewrite Eg. cbn [mbind result_bind ok_or].
  split; [done|]. cbn [tr_settings connection_windows tables]. split; [done|].
  split; [apply lookup_delete_eq|]. exact Hget.
Qed.
End stored.

(** ** Witnesses *)

Definition ex_event (id bytes : Z) : TrafficUsageEvent :=
  {| event_id := id; event_kind := KindTcp; event_policy_id := 7; event_bytes := bytes |}.
Definition ex_calls : list usage_call :=
  [(ex_event 1 100, 50); (ex_event 2 20, 60); (ex_event 1 100, 90000); (ex_event 2 30, 70); (ex_event 0 5, 80)].
Definition ex_tables : TrafficTables :=
  {| traffic_controls := ∅; traffic_daily_usage := ∅; traffic_usage_events := ∅ |}.

Lemma usage_counted_once_witness :
  usage (record_all ex_tables ex_calls) KindTcp 7 0 = Ok 120.
Proof.
  rewrite (usage_counted_once ex_tables ex_calls KindTcp 7 0); [vm_compute; reflexivity|reflexivity|reflexivity|].
  repeat constructor; vm_compute; congruence.
Defined.

Definition ex_request : UpsertTrafficControl :=
  {| allowed_cidrs := [lit " 10.0.0.0/8 "; lit "2001:DB8::/32"]; denied_cidrs := [lit "10.1.2.3"];
     max_connections_per_minute := Some 1; daily_quota_bytes := Some U64_MAX;
     active_weekdays_utc := [4; 3; 4]; start_minute_utc := Some 1380; end_minute_utc := Some 60;
     enabled := true |}.
Definition ex_settings : UpsertTrafficControl :=
  {| allowed_cidrs := [lit "10.0.0.0/8"; lit "2001:db8::/32"]; denied_cidrs := [lit "10.1.2.3/32"];
     max_connections_per_minute := Some 1; daily_quota_bytes := Some U64_MAX;
     active_weekdays_utc := [3; 4]; start_minute_utc := Some 1380; end_minute_utc := Some 60;
     enabled := true |}.
Lemma ex_normalized : normalized_settings ex_request = Ok ex_settings.
Proof. vm_compute. reflexivity. Qed.

Lemma normalized_settings_equivalent_witness : normalized_settings ex_settings = Ok ex_settings.
Proof. apply (normalized_settings_equivalent ex_request ex_settings ex_normalized). Defined.

Lemma cidr_matches_block_witness :
  cidr_matches (lit "10.0.0.0/8") (V4 167838211) = true ∧ cidr_matches (lit "10.0.0.0/8") (V6 167838211) = false.
Proof.
  split.
  - rewrite (cidr_matches_block (lit "10.0.0.0/8") {| cidr_address := V4 167772160; cidr_prefix := 8 |} (V4 167838211));
      [vm_compute; reflexivity|vm_compute; reflexivity|vm_compute; split; congruence].
  - rewrite (cidr_matches_block (lit "10.0.0.0/8") {| cidr_address := V4 167772160; cidr_prefix := 8 |} (V6 167838211));
      [vm_compute; reflexivity|vm_compute; reflexivity|vm_compute; split; congruence].
Defined.

(** 23:30 on the first day lies in the window, noon does not. *)
Lemma schedule_reference_witness :
  schedule_allows ex_settings 84600 = true ∧ schedule_allows ex_settings 43200 = false.
Proof.
  split.
  - rewrite (schedule_reference ex_request ex_settings 84600 ex_normalized);
      [vm_compute; reflexivity|lia|intros v [= <-]; lia|intros v [= <-]; lia].
  - rewrite (schedule_reference ex_request ex_settings 43200 ex_normalized);
      [vm_compute; reflexivity|lia|intros v [= <-]; lia|intros v [= <-]; lia].
Defined.

(** Lists as columns: each string after its length. *)
Fixpoint ex_decode (fuel : nat) (l : rstr) : option (list rstr) :=
  match fuel, l with
  | _, [] => Some []
  | O, _ => None
  | S fuel, n :: l => (λ r, take (Z.to_nat n) l :: r) <$> ex_decode fuel (drop (Z.to_nat n) l)
  end.
Definition ex_encode (l : list rstr) : rstr := l ≫= λ s, Z.of_nat (length s) :: s.
Global Instance ex_columns : JsonColumns := {|
  strings_to_string := ex_encode;
  strings_from_str := λ s, ex_decode (length s) s;
  numbers_to_string := λ l, l;
  numbers_from_str := Some;
|}.
Lemma ex_encode_cons s l : ex_encode (s :: l) = Z.of_nat (length s) :: s ++ ex_encode l.
Proof. done. Qed.
Lemma ex_decode_encode l fuel : (length (ex_encode l) ≤ fuel)%nat → ex_decode fuel (ex_encode l) = Some l.
Proof.
  revert fuel. induction l as [|s l IH]; intros fuel H; [by destruct fuel|].
  rewrite ex_encode_cons in *. cbn [length] in H. rewrite length_app in H.
  destruct fuel as [|fuel]; [lia|]. cbn. rewrite Nat2Z.id, drop_app_length, take_app_length.
  by rewrite IH by lia.
Qed.
Lemma ex_columns_laws : JsonColumnLaws ex_columns.
Proof. split; [|done]. intros l. apply (ex_decode_encode l). apply Nat.le_refl. Qed.

Lemma upsert_then_get_witness :
  ∃ record self', traffic_upsert (catalog_open ex_tables) KindTcp 7 ex_request 5 = (Ok record, self') ∧
    record.(tr_settings) = ex_settings.
Proof.
  destruct (@upsert_then_get ex_columns ex_columns_laws (catalog_open ex_tables) KindTcp 7 ex_request ex_settings 5
    ex_normalized) as (record & self' & E & Er & _).
  - vm_compute. split; congruence.
  - vm_compute. repeat constructor; congruence.
  - intros q [= <-]. vm_compute. split; congruence.
  - reflexivity.
  - exists record, self'. exact (conj E Er).
Defined.

Definition ex_catalog : TrafficControlCatalog := (traffic_upsert (catalog_open ex_tables) KindTcp 7 ex_request 5).2.
Definition ex_connections : list (IpAddr * Z) :=
  [(V4 167838212, 20000); (V4 167838211, 82800); (V4 167838212, 82801); (V4 167838212, 82859); (V4 167838212, 82861)].

Lemma ex_clock_ok : clock_ok 0 ex_connections.
Proof.
  split; cbn [ex_connections fmap list_fmap snd].
  - repeat constructor; lia.
  - repeat (apply Forall_cons; split; [vm_compute; split; congruence|]). apply Forall_nil_2.
Qed.

Lemma rate_limit_exact_witness :
  authorize_all ex_catalog KindTcp 7 ex_connections =
    [Ok OutsideSchedule; Ok SourceDenied; Ok Allowed; Ok RateLimited; Ok Allowed].
Proof.
  destruct (rate_limit_exact ex_catalog KindTcp 7 ex_settings (λ _, 0) 5 1 ex_connections) as [E _].
  - intros now. unfold ex_catalog. vm_compute (traffic_upsert _ _ _ _ _). reflexivity.
  - reflexivity.
  - reflexivity.
  - lia.
  - vm_compute. reflexivity.
  - exact ex_clock_ok.
  - rewrite E. vm_compute. reflexivity.
Defined.
