(* ===== verification/TrafficUsage.v ===== *)
(** * Metering of traffic ([traffic_usage_meter.rs], [traffic_usage_spool.rs])

    Every connection has a meter. A meter collects bytes in memory and stages them as
    events in a durable spool; workers upload the spooled events to the traffic
    catalog, which counts each event once.

    Each lock-protected section is one atomic step, and a history is any interleaving
    of the steps of all meters and workers. What a transaction or an upload reports is
    an input, including the case that it took effect and failed all the same. Locks are
    not poisoned. *)

From S2P Require Import Prelude RustStr NetAddr NetPrint TrafficControl.

Local Open Scope Z_scope.
Set Default Proof Using "Type".

(** ** Data *)

Definition CHECKPOINT_BYTES : Z := 64 * 1024.

Inductive UsageError :=
  | SpoolFailed | AccountingClosing | SpoolEventIdNil | SpoolMismatch | StorageFailed | BadSpoolRow
  | UploadFailed | DrainTimedOut.

(** The columns of a spooled event; the list of rows is in the order of [sequence]. *)
Record spool_row := { sr_id : Z; sr_kind : rstr; sr_policy : Z; sr_bytes : rstr }.

Record PendingUsage := { bytes : Z; staged : option TrafficUsageEvent }.

Record TrafficUsageMeter := {
  kind : TrafficPolicyKind;
  policy_id : Z;
  pending : PendingUsage;
  registered : bool;
}.

(** [meters] holds weak references, by the identity of the meter. *)
Record TrafficUsageSpool := {
  rows : list spool_row;
  faulted : bool;
  closing : bool;
  meters : list Z;
  active_meters : Z;
}.

(** A running [pump]: what is left of its batch, the event it is about to acknowledge. *)
Record Worker := { todo : list TrafficUsageEvent; acking : option TrafficUsageEvent; uploaded : Z }.

(** [live] are the meters some connection still holds, [drawn] counts the random
    identifiers used so far. *)
Record System := {
  spool : TrafficUsageSpool;
  live : gmap Z TrafficUsageMeter;
  next_meter : Z;
  workers : gmap Z Worker;
  store : TrafficControlCatalog;
  drawn : nat;
}.

(** How a transaction ends: [CommitUnknown] takes effect but reports an error. *)
Inductive commit_fate := Committed | RolledBack | CommitUnknown.

(** ** The spool *)

Definition set_rows (self : TrafficUsageSpool) (r : list spool_row) : TrafficUsageSpool :=
  {| rows := r; faulted := self.(faulted); closing := self.(closing); meters := self.(meters);
     active_meters := self.(active_meters) |}.
Definition set_faulted (self : TrafficUsageSpool) (b : bool) : TrafficUsageSpool :=
  {| rows := self.(rows); faulted := b; closing := self.(closing); meters := self.(meters);
     active_meters := self.(active_meters) |}.
Definition set_registry (self : TrafficUsageSpool) (l : list Z) (n : Z) : TrafficUsageSpool :=
  {| rows := self.(rows); faulted := self.(faulted); closing := self.(closing); meters := l;
     active_meters := n |}.

(** The rows are what an earlier process left behind. *)
Definition spool_open (r : list spool_row) : TrafficUsageSpool :=
  {| rows := r; faulted := false; closing := false; meters := []; active_meters := 0 |}.

Definition mark_fault (self : TrafficUsageSpool) : TrafficUsageSpool := set_faulted self true.

Definition close_admission (self : TrafficUsageSpool) : TrafficUsageSpool :=
  {| rows := self.(rows); faulted := self.(faulted); closing := true; meters := self.(meters);
     active_meters := self.(active_meters) |}.

Definition ensure_healthy (self : TrafficUsageSpool) : result UsageError unit :=
  if self.(faulted) then Err SpoolFailed else Ok tt.
Definition ensure_forwarding (self : TrafficUsageSpool) : result UsageError unit :=
  _ ← ensure_healthy self;
  if self.(closing) then Err AccountingClosing else Ok tt.

(** [fetch_add] and [fetch_sub] wrap around. *)
Definition register_meter (self : TrafficUsageSpool) (is_live : Z → bool) (meter : Z) : bool * TrafficUsageSpool :=
  if self.(closing) then (false, self)
  else (true, set_registry self (filter (λ m, is_live m = true) self.(meters) ++ [meter])
                ((self.(active_meters) + 1) mod 2 ^ 64)).
Definition finish_meter (self : TrafficUsageSpool) : TrafficUsageSpool :=
  set_registry self self.(meters) ((self.(active_meters) - 1) mod 2 ^ 64).

Definition row_of (event : TrafficUsageEvent) : spool_row :=
  {| sr_id := event.(event_id); sr_kind := kind_as_str event.(event_kind);
     sr_policy := event.(event_policy_id); sr_bytes := to_string event.(event_bytes) |}.

Definition row_is (event : TrafficUsageEvent) (row : spool_row) : bool :=
  (row.(sr_id) =? event.(event_id)) && bool_decide (row.(sr_kind) = kind_as_str event.(event_kind)) &&
  (row.(sr_policy) =? event.(event_policy_id)) && bool_decide (row.(sr_bytes) = to_string event.(event_bytes)).

Definition row_with_id (id : Z) (r : list spool_row) : option spool_row :=
  List.find (λ row, row.(sr_id) =? id) r.

(** [INSERT OR IGNORE], then the stored row must be this event. *)
Definition enqueue_inner (fate : commit_fate) (event : TrafficUsageEvent) (self : TrafficUsageSpool)
    : result UsageError unit * TrafficUsageSpool :=
  if event.(event_id) =? 0 then (Err SpoolEventIdNil, self)
  else if event.(event_bytes) =? 0 then (Ok tt, self)
  else
    let after := match row_with_id event.(event_id) self.(rows) with
                 | Some _ => self.(rows)
                 | None => self.(rows) ++ [row_of event]
                 end in
    match fate, row_with_id event.(event_id) after with
    | RolledBack, _ | _, None => (Err StorageFailed, self)
    | _, Some saved =>
        if negb (row_is event saved) then (Err SpoolMismatch, self)
        else (match fate with Committed => Ok tt | _ => Err StorageFailed end, set_rows self after)
    end.

Definition enqueue (fate : commit_fate) (event : TrafficUsageEvent) (self : TrafficUsageSpool)
    : result UsageError unit * TrafficUsageSpool :=
  match enqueue_inner fate event self with
  | (Ok u, self) => (Ok u, self)
  | (Err e, self) => (Err e, set_faulted self true)
  end.

Definition pending_count (self : TrafficUsageSpool) : Z := len self.(rows).

Definition event_of (row : spool_row) : result UsageError TrafficUsageEvent :=
  kind ← ok_or (kind_parse row.(sr_kind)) BadSpoolRow;
  bytes ← ok_or (parse_uint U64_MAX row.(sr_bytes)) BadSpoolRow;
  Ok {| event_id := row.(sr_id); event_kind := kind; event_policy_id := row.(sr_policy); event_bytes := bytes |}.

Definition batch (self : TrafficUsageSpool) : result UsageError (list TrafficUsageEvent) :=
  collect event_of (take 64 self.(rows)).

Definition acknowledge (fate : commit_fate) (event : TrafficUsageEvent) (self : TrafficUsageSpool)
    : result UsageError unit * TrafficUsageSpool :=
  let after := set_rows self (filter (λ row, row_is event row = false) self.(rows)) in
  match fate with
  | Committed => (Ok tt, after)
  | RolledBack => (Err StorageFailed, self)
  | CommitUnknown => (Err StorageFailed, after)
  end.

(** ** Meters *)

Section supply.
(** The identifiers [Uuid::new_v4] returns, in order. *)
Context (new_v4 : nat → Z).

Definition set_pending (self : TrafficUsageMeter) (b : Z) (e : option TrafficUsageEvent) : TrafficUsageMeter :=
  {| kind := self.(kind); policy_id := self.(policy_id); pending := {| bytes := b; staged := e |};
     registered := self.(registered) |}.

(** The loop of [flush_locked], with the number of identifiers drawn. *)
Fixpoint flush_loop (fuel : nat) (fate : nat → commit_fate) (n : nat) (self : TrafficUsageMeter)
    (sp : TrafficUsageSpool) : exec (result UsageError unit * TrafficUsageMeter * TrafficUsageSpool * nat) :=
  match fuel with
  | O => Panic
  | S fuel =>
      let p := self.(pending) in
      let '(next, n) :=
        match p.(staged) with
        | Some event => (Some event, n)
        | None =>
            if p.(bytes) =? 0 then (None, n)
            else (Some {| event_id := new_v4 n; event_kind := self.(kind); event_policy_id := self.(policy_id);
                          event_bytes := p.(bytes) |}, S n)
        end in
      match next with
      | None => Done (Ok tt, self, sp, n)
      | Some event =>
          match enqueue (fate 0%nat) event sp with
          | (Err e, sp) => Done (Err e, set_pending self p.(bytes) (Some event), sp, n)
          | (Ok _, sp) =>
              flush_loop fuel (λ i, fate (S i)) n
                (set_pending self (saturating_sub p.(bytes) event.(event_bytes)) None) sp
          end
      end
  end.

(** A staged event, the rest, and the exit. *)
Definition flush_locked : (nat → commit_fate) → nat → TrafficUsageMeter → TrafficUsageSpool →
    exec (result UsageError unit * TrafficUsageMeter * TrafficUsageSpool * nat) := flush_loop 3.

Definition checkpoint := flush_locked.

Definition ensure_open (sp : TrafficUsageSpool) : result UsageError unit := ensure_forwarding sp.

Definition add (fate : nat → commit_fate) (amount : Z) (n : nat) (self : TrafficUsageMeter)
    (sp : TrafficUsageSpool) : exec (result UsageError unit * TrafficUsageMeter * TrafficUsageSpool * nat) :=
  let self := set_pending self (saturating_add U64_MAX self.(pending).(bytes) amount) self.(pending).(staged) in
  if CHECKPOINT_BYTES <=? self.(pending).(bytes) then
    '(r, self, sp, n) ← flush_locked fate n self sp;
    Done (_ ← r; ensure_open sp, self, sp, n)
  else Done (ensure_open sp, self, sp, n).

(** ** The system *)

Definition set_meter (s : System) (id : Z) (m : TrafficUsageMeter) (sp : TrafficUsageSpool) (n : nat) : System :=
  {| spool := sp; live := <[id := m]> s.(live); next_meter := s.(next_meter); workers := s.(workers);
     store := s.(store); drawn := n |}.
Definition set_spool (s : System) (sp : TrafficUsageSpool) : System :=
  {| spool := sp; live := s.(live); next_meter := s.(next_meter); workers := s.(workers);
     store := s.(store); drawn := s.(drawn) |}.
Definition set_workers (s : System) (w : gmap Z Worker) : System :=
  {| spool := s.(spool); live := s.(live); next_meter := s.(next_meter); workers := w;
     store := s.(store); drawn := s.(drawn) |}.
Definition set_store (s : System) (c : TrafficControlCatalog) : System :=
  {| spool := s.(spool); live := s.(live); next_meter := s.(next_meter); workers := s.(workers);
     store := c; drawn := s.(drawn) |}.

Definition strong (s : System) (id : Z) : bool := is_some (s.(live) !! id).

Definition meter_new (k : TrafficPolicyKind) (p : Z) (s : System) : System :=
  let id := s.(next_meter) in
  let '(ok, sp) := register_meter s.(spool) (strong s) id in
  {| spool := sp;
     live := <[id := {| kind := k; policy_id := p; pending := {| bytes := 0; staged := None |};
                        registered := ok |}]> s.(live);
     next_meter := id + 1; workers := s.(workers); store := s.(store); drawn := s.(drawn) |}.

Definition meter_add (fate : nat → commit_fate) (id amount : Z) (s : System)
    : exec (result UsageError unit * System) :=
  match s.(live) !! id with
  | None => Done (Ok tt, s)
  | Some m => '(r, m, sp, n) ← add fate amount s.(drawn) m s.(spool); Done (r, set_meter s id m sp n)
  end.

Definition meter_checkpoint (fate : nat → commit_fate) (id : Z) (s : System)
    : exec (result UsageError unit * System) :=
  match s.(live) !! id with
  | None => Done (Ok tt, s)
  | Some m => '(r, m, sp, n) ← checkpoint fate s.(drawn) m s.(spool); Done (r, set_meter s id m sp n)
  end.

(** The last reference goes: [Drop]. *)
Definition meter_drop (fate : nat → commit_fate) (id : Z) (s : System) : exec System :=
  match s.(live) !! id with
  | None => Done s
  | Some m =>
      '(r, m, sp, n) ← checkpoint fate s.(drawn) m s.(spool);
      let sp := if is_ok r then sp else mark_fault sp in
      let sp := if m.(registered) then finish_meter sp else sp in
      Done {| spool := sp; live := delete id s.(live); next_meter := s.(next_meter);
              workers := s.(workers); store := s.(store); drawn := n |}
  end.

(** What the wrapped stream answers to a poll. *)
Inductive io_result := IoPending | IoReady (amount : Z) | IoError.

(** [poll_read] and [poll_write]: the stream is not polled when the spool is closed;
    the flag tells whether it was. *)
Definition metered_poll (fate : nat → commit_fate) (id : Z) (inner : io_result) (s : System)
    : exec (result UsageError io_result * bool * System) :=
  match ensure_open s.(spool) with
  | Err e => Done (Err e, false, s)
  | Ok _ =>
      match inner with
      | IoReady amount =>
          '(r, s) ← meter_add fate id amount s;
          Done (_ ← r; Ok inner, true, s)
      | _ => Done (Ok inner, true, s)
      end
  end.

(** The loop over the registered meters that are still live. *)
Fixpoint checkpoint_all (fate : Z → nat → commit_fate) (ids : list Z) (s : System)
    : exec (result UsageError unit * System) :=
  match ids with
  | [] => Done (Ok tt, s)
  | id :: ids =>
      '(r, s) ← meter_checkpoint (fate id) id s;
      match r with Ok _ => checkpoint_all fate ids s | Err e => Done (Err e, s) end
  end.
Definition checkpoint_active (fate : Z → nat → commit_fate) (s : System)
    : exec (result UsageError unit * System) :=
  let active := filter (λ id, strong s id = true) s.(spool).(meters) in
  checkpoint_all fate active (set_spool s (set_registry s.(spool) active s.(spool).(active_meters))).

(** ** Workers *)

Inductive upload_fate := Uploaded | UploadLost | UploadUnknown.

(** [pump] up to the batch. *)
Definition pump_begin (fate : Z → nat → commit_fate) (w : Z) (s : System)
    : exec (result UsageError unit * System) :=
  '(r, s) ← checkpoint_active fate s;
  Done match (_ ← r; batch s.(spool)) with
       | Err e => (Err e, s)
       | Ok b => (Ok tt, set_workers s (<[w := {| todo := b; acking := None; uploaded := 0 |}]> s.(workers)))
       end.

Definition stop_worker (w : Z) (s : System) : System := set_workers s (delete w s.(workers)).

(** [enqueue_usage_event] for the next event of the batch; an error ends the pump. *)
Definition pump_upload (fate : upload_fate) (w now : Z) (s : System) : result UsageError unit * System :=
  match s.(workers) !! w with
  | Some {| todo := event :: rest; acking := None; uploaded := n |} =>
      match fate, record_usage_event s.(store).(tables) event now with
      | UploadLost, _ | _, Err _ => (Err UploadFailed, stop_worker w s)
      | Uploaded, Ok t =>
          (Ok tt, set_workers (set_store s {| tables := t; connection_windows := s.(store).(connection_windows) |})
                    (<[w := {| todo := rest; acking := Some event; uploaded := n |}]> s.(workers)))
      | UploadUnknown, Ok t =>
          (Err UploadFailed,
           stop_worker w (set_store s {| tables := t; connection_windows := s.(store).(connection_windows) |}))
      end
  | _ => (Ok tt, s)
  end.

Definition pump_ack (fate : commit_fate) (w : Z) (s : System) : result UsageError unit * System :=
  match s.(workers) !! w with
  | Some {| todo := rest; acking := Some event; uploaded := n |} =>
      match acknowledge fate event s.(spool) with
      | (Err e, sp) => (Err e, stop_worker w (set_spool s sp))
      | (Ok _, sp) =>
          (Ok tt, set_workers (set_spool s sp)
                    (<[w := {| todo := rest; acking := None; uploaded := n + 1 |}]> s.(workers)))
      end
  | _ => (Ok tt, s)
  end.

(** What happens during one [pump] that nothing else interrupts. *)
Record pump_fates := {
  pf_flush : Z → nat → commit_fate;
  pf_upload : nat → upload_fate;
  pf_ack : nat → commit_fate;
  pf_now : nat → Z;
}.

Fixpoint pump_loop (n i : nat) (f : pump_fates) (w : Z) (s : System) : result UsageError unit * System :=
  match n with
  | O => (Ok tt, s)
  | S n =>
      match pump_upload (f.(pf_upload) i) w (f.(pf_now) i) s with
      | (Err e, s) => (Err e, s)
      | (Ok _, s) =>
          match pump_ack (f.(pf_ack) i) w s with
          | (Err e, s) => (Err e, s)
          | (Ok _, s) => pump_loop n (S i) f w s
          end
      end
  end.

(** With SQLite [drain_pending_usage] has nothing to do. *)
Definition pump (f : pump_fates) (w : Z) (s : System) : exec (result UsageError Z * System) :=
  '(r, s) ← pump_begin f.(pf_flush) w s;
  match r with
  | Err e => Done (Err e, s)
  | Ok _ =>
      let n := match s.(workers) !! w with Some k => length k.(todo) | None => 0%nat end in
      let '(r, s) := pump_loop n 0 f w s in
      let count := match s.(workers) !! w with Some k => k.(uploaded) | None => 0 end in
      Done (_ ← r; Ok count, stop_worker w s)
  end.

(** One round of [drain]: whether the deadline has passed before it, what the pump
    meets, whether the timeout cut it. *)
Record drain_round := { dr_expired : bool; dr_pump : pump_fates; dr_cut : bool }.

Fixpoint drain (rounds : list drain_round) (w : Z) (s : System) : exec (result UsageError unit * System) :=
  if pending_count s.(spool) =? 0 then Done (ensure_healthy s.(spool), s)
  else
    match rounds with
    | [] => Panic
    | round :: rounds =>
        if round.(dr_expired) then Done (Err DrainTimedOut, s)
        else
          '(r, s) ← pump round.(dr_pump) w s;
          match r with
          | Ok _ => drain rounds w s
          | Err _ => if round.(dr_cut) then Done (Err DrainTimedOut, s) else drain rounds w s
          end
    end.

(** The process dies and a new one opens the same database. *)
Definition restart (s : System) : System :=
  {| spool := spool_open s.(spool).(rows); live := ∅; next_meter := s.(next_meter); workers := ∅;
     store := catalog_open s.(store).(tables); drawn := s.(drawn) |}.

End supply.

(** ** What is saved *)

Definition row_bytes (k : TrafficPolicyKind) (p : Z) (row : spool_row) : Z :=
  if bool_decide (row.(sr_kind) = kind_as_str k) && (row.(sr_policy) =? p)
  then default 0 (parse_uint U64_MAX row.(sr_bytes)) else 0.

(** The events of the spool and of the catalog, each once. *)
Definition spooled (r : list spool_row) : gmap Z spool_row :=
  list_to_map ((λ row, (row.(sr_id), row)) <$> r).
Definition ledger (t : TrafficTables) : gmap Z spool_row :=
  map_imap (λ id r, Some {| sr_id := id; sr_kind := r.(ur_kind); sr_policy := r.(ur_policy);
                            sr_bytes := r.(ur_bytes) |}) t.(traffic_usage_events).
Definition saved (s : System) : gmap Z spool_row := spooled s.(spool).(rows) ∪ ledger s.(store).(tables).

Definition total (k : TrafficPolicyKind) (p : Z) (m : gmap Z spool_row) : Z := map_sum (λ _, row_bytes k p) m.

(** The bytes the meters of a policy hold in memory. *)
Definition metered (k : TrafficPolicyKind) (p : Z) (m : TrafficUsageMeter) : Z :=
  if bool_decide ((m.(kind), m.(policy_id)) = (k, p)) then m.(pending).(bytes) else 0.
Definition in_memory (k : TrafficPolicyKind) (p : Z) (s : System) : Z := map_sum (λ _, metered k p) s.(live).

(** The usage of a day that the recorded events add up to. *)
Definition day_usage (t : TrafficTables) (k : TrafficPolicyKind) (p day : Z) : Z :=
  map_sum (λ id r, if r.(ur_day) =? day
                   then row_bytes k p {| sr_id := id; sr_kind := r.(ur_kind); sr_policy := r.(ur_policy);
                                         sr_bytes := r.(ur_bytes) |} else 0) t.(traffic_usage_events).

(** ** Histories *)

(** Bytes that were forwarded, by policy. *)
Abbreviation traffic_log := (list (TrafficPolicyKind * Z * Z)).

Inductive usage_op :=
  | OpNew (k : TrafficPolicyKind) (p : Z)
  | OpAdd (fate : nat → commit_fate) (id amount : Z)
  | OpPoll (fate : nat → commit_fate) (id : Z) (inner : io_result)
  | OpCheckpoint (fate : nat → commit_fate) (id : Z)
  | OpDrop (fate : nat → commit_fate) (id : Z)
  | OpClose
  | OpCheckpointActive (fate : Z → nat → commit_fate)
  | OpBegin (fate : Z → nat → commit_fate) (w : Z)
  | OpUpload (fate : upload_fate) (w now : Z)
  | OpAck (fate : commit_fate) (w : Z)
  | OpEnd (w : Z)
  (** Settings are changed, or a connection is authorized. *)
  | OpSettings (controls : gmap (TrafficPolicyKind * Z) control_row) (windows : gmap (TrafficPolicyKind * Z) (list Z))
  | OpRestart.

Definition forwarded (s : System) (id amount : Z) : traffic_log :=
  match s.(live) !! id with Some m => [(m.(kind), m.(policy_id), amount)] | None => [] end.

Definition set_settings (s : System) controls windows : System :=
  set_store s
    {| tables := {| traffic_controls := controls;
                    traffic_daily_usage := s.(store).(tables).(traffic_daily_usage);
                    traffic_usage_events := s.(store).(tables).(traffic_usage_events) |};
       connection_windows := windows |}.

Definition apply_op (new_v4 : nat → Z) (op : usage_op) (s : System) : exec (System * traffic_log) :=
  match op with
  | OpNew k p => Done (meter_new k p s, [])
  | OpAdd fate id amount =>
      '(_, s') ← meter_add new_v4 fate id amount s; Done (s', forwarded s id amount)
  | OpPoll fate id inner =>
      '(_, polled, s') ← metered_poll new_v4 fate id inner s;
      Done (s', match polled, inner with true, IoReady amount => forwarded s id amount | _, _ => [] end)
  | OpCheckpoint fate id => '(_, s') ← meter_checkpoint new_v4 fate id s; Done (s', [])
  | OpDrop fate id => s' ← meter_drop new_v4 fate id s; Done (s', [])
  | OpClose => Done (set_spool s (close_admission s.(spool)), [])
  | OpCheckpointActive fate => '(_, s') ← checkpoint_active new_v4 fate s; Done (s', [])
  | OpBegin fate w => '(_, s') ← pump_begin new_v4 fate w s; Done (s', [])
  | OpUpload fate w now => Done ((pump_upload fate w now s).2, [])
  | OpAck fate w => Done ((pump_ack fate w s).2, [])
  | OpEnd w => Done (stop_worker w s, [])
  | OpSettings controls windows => Done (set_settings s controls windows, [])
  | OpRestart => Done (restart s, [])
  end.

Fixpoint run_ops (new_v4 : nat → Z) (ops : list usage_op) (s : System) : exec (System * traffic_log) :=
  match ops with
  | [] => Done (s, [])
  | op :: ops =>
      '(s, l) ← apply_op new_v4 op s;
      '(s, l') ← run_ops new_v4 ops s;
      Done (s, l ++ l')
  end.

(** A fresh installation. *)
Definition system_empty : System :=
  {| spool := spool_open []; live := ∅; next_meter := 0; workers := ∅;
     store := catalog_open {| traffic_controls := ∅; traffic_daily_usage := ∅; traffic_usage_events := ∅ |};
     drawn := 0 |}.

Definition traffic_of (k : TrafficPolicyKind) (p : Z) (l : traffic_log) : Z :=
  foldr (λ x acc, (if bool_decide (x.1 = (k, p)) then x.2 else 0) + acc) 0 l.

Definition op_typed (op : usage_op) : bool :=
  match op with
  | OpAdd _ _ amount | OpPoll _ _ (IoReady amount) => (0 <=? amount) && (amount <=? U64_MAX)
  | _ => true
  end.
Definition is_restart (op : usage_op) : bool := match op with OpRestart => true | _ => false end.

(** ** The invariant

    [issued] are the events ever staged; [crashed] tells whether the process died. *)

Definition weight (k : TrafficPolicyKind) (p : Z) (e : TrafficUsageEvent) : Z :=
  if bool_decide ((e.(event_kind), e.(event_policy_id)) = (k, p)) then e.(event_bytes) else 0.
Definition issued_sum (k : TrafficPolicyKind) (p : Z) (issued : gmap Z TrafficUsageEvent) : Z :=
  map_sum (λ _, weight k p) issued.

Definition staged_bytes (m : TrafficUsageMeter) : Z :=
  match m.(pending).(staged) with Some e => e.(event_bytes) | None => 0 end.
Definition net (k : TrafficPolicyKind) (p : Z) (m : TrafficUsageMeter) : Z :=
  if bool_decide ((m.(kind), m.(policy_id)) = (k, p)) then m.(pending).(bytes) - staged_bytes m else 0.

Definition issued_ok (new_v4 : nat → Z) (n : nat) (issued : gmap Z TrafficUsageEvent) : Prop :=
  ∀ id e, issued !! id = Some e →
    e.(event_id) = id ∧ id ≠ 0 ∧ 0 < e.(event_bytes) ≤ U64_MAX ∧ ∃ i, (i < n)%nat ∧ id = new_v4 i.

Definition row_issued (issued : gmap Z TrafficUsageEvent) (row : spool_row) : Prop :=
  (row_of <$> issued) !! row.(sr_id) = Some row.
Definition rows_ok (issued : gmap Z TrafficUsageEvent) (r : list spool_row) : Prop :=
  NoDup (sr_id <$> r) ∧ Forall (row_issued issued) r.

Definition meter_ok (issued : gmap Z TrafficUsageEvent) (fault : bool) (m : TrafficUsageMeter) : Prop :=
  0 ≤ m.(pending).(bytes) ≤ U64_MAX ∧
  ∀ e, m.(pending).(staged) = Some e →
    fault = true ∧ issued !! e.(event_id) = Some e ∧
    (e.(event_kind), e.(event_policy_id)) = (m.(kind), m.(policy_id)) ∧ e.(event_bytes) ≤ m.(pending).(bytes).

Definition store_ok (issued : gmap Z TrafficUsageEvent) (t : TrafficTables) : Prop :=
  ledger t ⊆ row_of <$> issued ∧ usage_is (day_usage t) t.

Definition worker_ok (issued : gmap Z TrafficUsageEvent) (t : TrafficTables) (w : Worker) : Prop :=
  Forall (λ e, issued !! e.(event_id) = Some e) w.(todo) ∧
  ∀ e, w.(acking) = Some e → issued !! e.(event_id) = Some e ∧ e.(event_id) ∈ dom t.(traffic_usage_events).

Record system_inv (new_v4 : nat → Z) (crashed : bool) (l : traffic_log) (issued : gmap Z TrafficUsageEvent)
    (s : System) : Prop := {
  inv_issued : issued_ok new_v4 s.(drawn) issued;
  inv_rows : rows_ok issued s.(spool).(rows);
  inv_store : store_ok issued s.(store).(tables);
  inv_meters : ∀ id m, s.(live) !! id = Some m →
    meter_ok issued s.(spool).(faulted) m ∧ id < s.(next_meter) ∧
    (m.(registered) = true → id ∈ s.(spool).(meters)) ∧ (m.(registered) = false → s.(spool).(closing) = true);
  inv_active : s.(spool).(active_meters) = map_count registered s.(live) mod 2 ^ 64;
  inv_workers : ∀ w k, s.(workers) !! w = Some k → worker_ok issued s.(store).(tables) k;
  inv_saved : crashed = false → s.(spool).(faulted) = false →
    ∀ id, id ∈ dom issued → id ∈ sr_id <$> s.(spool).(rows) ∨ id ∈ dom s.(store).(tables).(traffic_usage_events);
  inv_sum : ∀ k p, map_sum (λ _, net k p) s.(live) + issued_sum k p issued ≤ traffic_of k p l;
  inv_exact : crashed = false → s.(spool).(faulted) = false → ∀ k p, traffic_of k p l ≤ U64_MAX →
    map_sum (λ _, net k p) s.(live) + issued_sum k p issued = traffic_of k p l;
}.

(** ** Rows *)

Lemma kind_as_str_inj k k' : kind_as_str k = kind_as_str k' → k = k'.
Proof. intros E. pose proof (kind_round_trip k) as H. rewrite E, kind_round_trip in H. by injection H. Qed.

Lemma row_bytes_row_of k p e : 0 ≤ e.(event_bytes) ≤ U64_MAX → row_bytes k p (row_of e) = weight k p e.
Proof.
  intros He. unfold row_bytes, weight, row_of. cbn [sr_kind sr_policy sr_bytes].
  rewrite parse_uint_to_string by (done || lia). cbn [default].
  destruct (Z.eqb_spec e.(event_policy_id) p); repeat case_bool_decide; simplify_eq/=; try done;
    by (apply kind_as_str_inj in H; simplify_eq/=).
Qed.

Lemma row_is_row_of e : row_is e (row_of e) = true.
Proof. unfold row_is, row_of. cbn. by rewrite !Z.eqb_refl, !bool_decide_eq_true_2. Qed.

Lemma row_is_inv e row : row_is e row = true → row = row_of e.
Proof.
  unfold row_is. intros H. bool_prop. destruct row. cbn [sr_id sr_kind sr_policy sr_bytes] in *. subst. reflexivity.
Qed.

Lemma event_of_row_of e : 0 ≤ e.(event_bytes) ≤ U64_MAX → event_of (row_of e) = Ok e.
Proof.
  intros He. unfold event_of, row_of. cbn [sr_id sr_kind sr_policy sr_bytes].
  rewrite kind_round_trip. cbn [ok_or mbind result_bind]. rewrite parse_uint_to_string by (done || lia). cbn. by destruct e.
Qed.

Lemma row_issued_Some issued row :
  row_issued issued row ↔ ∃ e, issued !! row.(sr_id) = Some e ∧ row = row_of e.
Proof.
  unfold row_issued. rewrite lookup_fmap_Some. split; intros (e & H1 & H2); exists e; by split.
Qed.

Lemma row_issued_row_of issued e : issued !! e.(event_id) = Some e → row_issued issued (row_of e).
Proof. intros H. apply row_issued_Some. by exists e. Qed.

Lemma row_issued_mono issued issued' row : issued ⊆ issued' → row_issued issued row → row_issued issued' row.
Proof.
  intros Hs (e & He & ->)%row_issued_Some. apply row_issued_Some. exists e. split; [|done].
  by eapply lookup_weaken.
Qed.

Lemma row_with_id_Some id r row : row_with_id id r = Some row → row ∈ r ∧ row.(sr_id) = id.
Proof.
  unfold row_with_id. intros H. apply find_some in H as [Hin Hid]. rewrite list_elem_of_In. by apply Z.eqb_eq in Hid.
Qed.

Lemma row_with_id_None id r : row_with_id id r = None → id ∉ sr_id <$> r.
Proof.
  unfold row_with_id. intros H (row & -> & Hin)%list_elem_of_fmap.
  apply list_elem_of_In in Hin. pose proof (find_none _ _ H _ Hin) as Hn. cbn in Hn. lia.
Qed.

Lemma row_with_id_snoc r row : row.(sr_id) ∉ sr_id <$> r → row_with_id row.(sr_id) (r ++ [row]) = Some row.
Proof.
  unfold row_with_id. induction r as [|x r IH]; cbn; [by rewrite Z.eqb_refl|].
  rewrite not_elem_of_cons. intros [Hn Hr]. rewrite (proj2 (Z.eqb_neq _ _)) by congruence. by apply IH.
Qed.

(** ** Staging events *)

Definition row_ids (sp : TrafficUsageSpool) : list Z := sr_id <$> sp.(rows).

(** What staging leaves alone. *)
Definition spool_grows (sp sp' : TrafficUsageSpool) : Prop :=
  sp'.(closing) = sp.(closing) ∧ sp'.(meters) = sp.(meters) ∧ sp'.(active_meters) = sp.(active_meters) ∧
  (sp.(faulted) = true → sp'.(faulted) = true) ∧ ∀ id, id ∈ row_ids sp → id ∈ row_ids sp'.

Global Instance spool_grows_po : PreOrder spool_grows.
Proof. split; [done|]. intros a b c (?&?&?&?&?) (?&?&?&?&?). split_and!; try congruence; auto. Qed.

Lemma rows_ok_mono issued issued' r : issued ⊆ issued' → rows_ok issued r → rows_ok issued' r.
Proof. intros Hs [Hn Hr]. split; [done|]. eapply Forall_impl; [exact Hr|]. intros row. by apply row_issued_mono. Qed.

(** Staging an issued event stores it, or reports an error and marks the fault. *)
Lemma enqueue_issued fate issued e sp :
  rows_ok issued sp.(rows) → issued !! e.(event_id) = Some e → e.(event_id) ≠ 0 → e.(event_bytes) ≠ 0 →
  ∃ r sp', enqueue fate e sp = (r, sp') ∧ rows_ok issued sp'.(rows) ∧ spool_grows sp sp' ∧
    (is_ok r = true ∧ sp'.(faulted) = sp.(faulted) ∧ e.(event_id) ∈ row_ids sp' ∨
     is_ok r = false ∧ sp'.(faulted) = true).
Proof.
  intros [Hnd Hrows] He Hid Hb. unfold enqueue, enqueue_inner.
  rewrite (proj2 (Z.eqb_neq _ _) Hid), (proj2 (Z.eqb_neq _ _) Hb).
  destruct (row_with_id e.(event_id) sp.(rows)) as [row|] eqn:E.
  - rewrite E. apply row_with_id_Some in E as [Hin Hrid].
    assert (row = row_of e) as ->.
    { rewrite Forall_forall in Hrows. specialize (Hrows row Hin) as (e' & He' & ->)%row_issued_Some.
      rewrite Hrid in He'. congruence. }
    rewrite row_is_row_of. cbn [negb].
    assert (Hm : e.(event_id) ∈ row_ids sp) by (apply list_elem_of_fmap; by exists (row_of e)).
    destruct fate; eexists _, _; (split; [reflexivity|]); (split; [by split|]);
      (split; [by split_and!|]); [by left|by right..].
  - apply row_with_id_None in E. change (e.(event_id)) with (row_of e).(sr_id) at 1. cbn [row_with_id].
    change e.(event_id) with (row_of e).(sr_id) in *.
    rewrite row_with_id_snoc by done. rewrite row_is_row_of. cbn [negb].
    assert (Hok : rows_ok issued (sp.(rows) ++ [row_of e])).
    { split; [|apply Forall_app; split; [done|]; by apply Forall_singleton, row_issued_row_of].
      rewrite fmap_app. apply NoDup_app. split_and!; [done| |by apply NoDup_singleton].
      intros id Hin Hs. apply list_elem_of_singleton in Hs as ->. done. }
    assert (Hg : ∀ id, id ∈ row_ids sp → id ∈ row_ids (set_rows sp (sp.(rows) ++ [row_of e]))).
    { intros id Hin. unfold row_ids. cbn. rewrite fmap_app. apply elem_of_app. by left. }
    assert (Hm : (row_of e).(sr_id) ∈ row_ids (set_rows sp (sp.(rows) ++ [row_of e]))).
    { unfold row_ids. cbn. rewrite fmap_app. apply elem_of_app. right. by left. }
    destruct fate; eexists _, _; (split; [reflexivity|]); (split; [done || by split|]);
      (split; [by split_and!|]); [by left|by right..].
Qed.

(** ** Flushing a meter *)

Lemma meter_ok_mono issued issued' b b' m :
  issued ⊆ issued' → (b = true → b' = true) → meter_ok issued b m → meter_ok issued' b' m.
Proof.
  intros Hs Hb [Hm Hst]. split; [done|]. intros e E. destruct (Hst e E) as (? & ? & ? & ?).
  split_and!; [auto|by eapply lookup_weaken|done|done].
Qed.

Lemma net_nonneg issued b k p m : meter_ok issued b m → 0 ≤ net k p m.
Proof.
  intros [Hb Hst]. unfold net, staged_bytes. case_bool_decide; [|done].
  destruct (m.(pending).(staged)) as [e|] eqn:E; [|lia]. destruct (Hst e eq_refl) as (_ & _ & _ & ?). lia.
Qed.

Definition same_meter (m m' : TrafficUsageMeter) : Prop :=
  m'.(kind) = m.(kind) ∧ m'.(policy_id) = m.(policy_id) ∧ m'.(registered) = m.(registered).

Section supply_lemmas.
Context (new_v4 : nat → Z) (Hinj : ∀ i j, new_v4 i = new_v4 j → i = j) (Hnil : ∀ n, new_v4 n ≠ 0).
Set Default Proof Using "All".

(** What a flush does, with the events it issues. *)
Record flushed (issued : gmap Z TrafficUsageEvent) (m : TrafficUsageMeter) (sp : TrafficUsageSpool)
    (m' : TrafficUsageMeter) (sp' : TrafficUsageSpool) (n' : nat)
    (issued' : gmap Z TrafficUsageEvent) : Prop := {
  fl_issued : issued ⊆ issued';
  fl_issued_ok : issued_ok new_v4 n' issued';
  fl_rows : rows_ok issued' sp'.(rows);
  fl_grows : spool_grows sp sp';
  fl_meter : meter_ok issued' sp'.(faulted) m';
  fl_same : same_meter m m';
  fl_sum : ∀ k p, net k p m' + issued_sum k p issued' = net k p m + issued_sum k p issued;
  fl_saved : sp'.(faulted) = false → ∀ id, id ∈ dom issued' → id ∈ dom issued ∨ id ∈ row_ids sp';
}.

(** It empties the meter, or reports an error and marks the fault. *)
Definition flush_result (r : result UsageError unit) (m' : TrafficUsageMeter) (sp sp' : TrafficUsageSpool) : Prop :=
  is_ok r = true ∧ m'.(pending) = {| bytes := 0; staged := None |} ∧ sp'.(faulted) = sp.(faulted) ∨
  is_ok r = false ∧ sp'.(faulted) = true.

Lemma flushed_id issued m sp n :
  issued_ok new_v4 n issued → rows_ok issued sp.(rows) → meter_ok issued sp.(faulted) m →
  flushed issued m sp m sp n issued.
Proof. split; try done. auto. Qed.

Lemma issued_ok_insert n issued e :
  issued_ok new_v4 n issued → e.(event_id) = new_v4 n → 0 < e.(event_bytes) ≤ U64_MAX →
  issued !! new_v4 n = None ∧ issued_ok new_v4 (S n) (<[new_v4 n := e]> issued).
Proof.
  intros Hi He Hb. split.
  - destruct (issued !! new_v4 n) as [e'|] eqn:E; [|done]. destruct (Hi _ _ E) as (_ & _ & _ & i & Hlt & Hn).
    apply Hinj in Hn. lia.
  - intros id e' [[<- <-]|[Hne H]]%lookup_insert_Some.
    + split_and!; [done|apply Hnil|lia|lia|]. exists n. split; [lia|done].
    + destruct (Hi _ _ H) as (? & ? & ? & i & ? & ?). split_and!; [done|done|lia|lia|]. exists i. split; [lia|done].
Qed.

(** Nothing staged: the bytes become one new event. *)
Lemma flush_unstaged fuel fate issued n m sp :
  issued_ok new_v4 n issued → rows_ok issued sp.(rows) → meter_ok issued sp.(faulted) m →
  m.(pending).(staged) = None →
  ∃ r m' sp' n' issued', flush_loop new_v4 (S (S fuel)) fate n m sp = Done (r, m', sp', n') ∧
    flushed issued m sp m' sp' n' issued' ∧ flush_result r m' sp sp'.
Proof.
  intros Hi Hr Hm Hs. pose proof Hm as [Hb _]. destruct m as [mk mp [b st] reg]. cbn in Hs, Hb. subst st.
  cbn [flush_loop pending staged bytes kind policy_id]. destruct (Z.eqb_spec b 0) as [->|Hb0].
  { exists (Ok tt), {| kind := mk; policy_id := mp; pending := {| bytes := 0; staged := None |}; registered := reg |}, sp, n, issued.
    split; [done|]. split; [by apply flushed_id|by left]. }
  set (e := {| event_id := new_v4 n |}).
  destruct (issued_ok_insert n issued e Hi eq_refl ltac:(cbn; lia)) as [Hnone Hi'].
  set (issued' := <[new_v4 n := e]> issued) in *.
  assert (Hsub : issued ⊆ issued') by by apply insert_subseteq.
  assert (Hsum : ∀ k p, issued_sum k p issued' = weight k p e + issued_sum k p issued).
  { intros k p. unfold issued_sum, issued'. by rewrite map_sum_insert. }
  destruct (enqueue_issued (fate 0%nat) issued' e sp) as (r & sp' & -> & Hr' & Hg & Hres);
    [by eapply rows_ok_mono|apply lookup_insert_eq|apply Hnil|cbn; lia|].
  assert (Hdom : ∀ id, id ∈ dom issued' → id ∈ dom issued ∨ id = new_v4 n).
  { intros id. unfold issued'. rewrite dom_insert. set_solver. }
  destruct Hres as [(Hok & Hf & Hin)|(Hok & Hf)]; (destruct r as [u|err]; [|]; try done).
  - cbn [set_pending pending bytes event_bytes staged e]. unfold saturating_sub. rewrite Z.sub_diag, Z.max_id.
    cbn [Z.eqb]. exists (Ok tt), {| kind := mk; policy_id := mp; pending := {| bytes := 0; staged := None |}; registered := reg |}, sp', (S n), issued'.
    split; [done|]. split; [split; try done|by left].
    + intros k p. rewrite Hsum. unfold net, staged_bytes, weight. cbn. case_bool_decide; lia.
    + intros _ id [Hd| ->]%Hdom; [by left|by right].
  - exists (Err err), {| kind := mk; policy_id := mp; pending := {| bytes := b; staged := Some e |}; registered := reg |}, sp', (S n), issued'.
    split; [done|]. split; [split; try done|by right].
    + split; [done|]. intros e' [= <-]. split_and!; [done|apply lookup_insert_eq|done|cbn; lia].
    + intros k p. rewrite Hsum. unfold net, staged_bytes, weight. cbn. case_bool_decide; lia.
    + congruence.
Qed.

(** A flush ends, within three rounds. *)
Lemma flush_ends fate issued n m sp :
  issued_ok new_v4 n issued → rows_ok issued sp.(rows) → meter_ok issued sp.(faulted) m →
  ∃ r m' sp' n' issued', flush_locked new_v4 fate n m sp = Done (r, m', sp', n') ∧
    flushed issued m sp m' sp' n' issued' ∧ flush_result r m' sp sp'.
Proof.
  intros Hi Hr Hm. unfold flush_locked. destruct (m.(pending).(staged)) as [e|] eqn:Es; [|by apply flush_unstaged].
  destruct Hm as [Hb Hst]. destruct (Hst e Es) as (Hf & He & Hkp & Hle).
  destruct (Hi _ _ He) as (_ & Hid & Hpos & _).
  destruct (enqueue_issued (fate 0%nat) issued e sp Hr He Hid) as (r & sp1 & Eq & Hr1 & Hg1 & Hres); [lia|].
  assert (Hf1 : sp1.(faulted) = true) by (destruct Hres as [(_ & -> & _)|[_ ->]]; done).
  remember 2%nat as two eqn:E2. cbn [flush_loop]. rewrite Es, Eq.
  destruct Hres as [(Hok & _ & Hin)|(Hok & _)]; (destruct r as [u|err]; [|]; try done).
  - set (m1 := set_pending m _ None).
    assert (Hm1 : meter_ok issued sp1.(faulted) m1).
    { split; [|done]. cbn. unfold saturating_sub. lia. }
    subst two. destruct (flush_unstaged 0 (λ i, fate (S i)) issued n m1 sp1 Hi Hr1 Hm1 eq_refl)
      as (r & m' & sp' & n' & issued' & E & [[? ? ? Hg ? Hsame Hsum ?] Hres]).
    exists r, m', sp', n', issued'. split; [exact E|]. split; [split; try done|].
    + by etrans.
    + intros k p. rewrite Hsum. unfold net, staged_bytes, m1, set_pending. cbn. rewrite Es.
      unfold saturating_sub. case_bool_decide; lia.
    + destruct Hres as [(? & ? & ?)|?]; [left|by right]. split_and!; [done|done|congruence].
  - exists (Err err), (set_pending m m.(pending).(bytes) (Some e)), sp1, n, issued. split; [done|]. split; [split; try done|by right].
    + split; [done|]. intros e' [= <-]. done.
    + intros k p. unfold net, staged_bytes, set_pending. cbn. by rewrite Es.
    + intros ?. auto.
Qed.

(** ** Steps preserve the invariant *)

Lemma traffic_of_app k p l l' : traffic_of k p (l ++ l') = traffic_of k p l + traffic_of k p l'.
Proof using. unfold traffic_of. induction l as [|x l IH]; cbn; [done|]. rewrite IH. lia. Qed.

Lemma worker_ok_mono issued issued' t w : issued ⊆ issued' → worker_ok issued t w → worker_ok issued' t w.
Proof.
  intros Hs [Ht Ha]. split.
  - eapply Forall_impl; [exact Ht|]. intros e He. cbn in *. by eapply lookup_weaken.
  - intros e E. destruct (Ha e E). split; [by eapply lookup_weaken|done].
Qed.

Lemma store_ok_mono issued issued' t : issued ⊆ issued' → store_ok issued t → store_ok issued' t.
Proof. intros Hs [Hl Hu]. split; [|done]. etrans; [exact Hl|]. by apply map_fmap_mono. Qed.

(** The flags that stop the forwarding. *)
Definition sticky (s s' : System) : Prop :=
  (s.(spool).(faulted) = true → s'.(spool).(faulted) = true) ∧
  (s.(spool).(closing) = true → s'.(spool).(closing) = true).

Lemma sticky_refl s : sticky s s.
Proof. by split. Qed.
Lemma sticky_trans s s' s'' : sticky s s' → sticky s' s'' → sticky s s''.
Proof. intros [? ?] [? ?]. split; auto. Qed.
Lemma sticky_grows s id m sp n : spool_grows s.(spool) sp → sticky s (set_meter s id m sp n).
Proof. intros (Hc & _ & _ & Hf & _). split; cbn; [done|]. by rewrite Hc. Qed.

(** A meter that counted [d] and was then flushed. *)
Lemma meter_step crashed l d issued s id m m1 m' sp' n' issued' :
  system_inv new_v4 crashed l issued s → s.(live) !! id = Some m → same_meter m m1 →
  flushed issued m1 s.(spool) m' sp' n' issued' →
  (∀ k p, 0 ≤ traffic_of k p d ∧ net k p m1 ≤ net k p m + traffic_of k p d) →
  (∀ k p, s.(spool).(faulted) = false → traffic_of k p (l ++ d) ≤ U64_MAX → 
     net k p m1 = net k p m + traffic_of k p d) →
  system_inv new_v4 crashed (l ++ d) issued' (set_meter s id m' sp' n').
Proof.
  intros Hinv Hm Hsame [Hsub Hi Hr (Hc & Hreg & Hact & Hfault & Hids) Hm' Hsame' Hsum Hsaved] Hle Hex.
  destruct Hinv as [_ _ Hst Hmet Ha Hw Hsv Hs Hx].
  assert (Hsame2 : same_meter m m') by (destruct Hsame as (?&?&?), Hsame' as (?&?&?); split_and!; congruence).
  assert (Hnf : sp'.(faulted) = false → s.(spool).(faulted) = false).
  { intros Hf. destruct (s.(spool).(faulted)); [|done]. by rewrite Hfault in Hf. }
  assert (Hnet : ∀ k p, map_sum (λ _, net k p) (<[id := m']> s.(live)) + issued_sum k p issued' =
                        map_sum (λ _, net k p) s.(live) + issued_sum k p issued + (net k p m1 - net k p m)).
  { intros k p. rewrite (map_sum_replace _ _ _ _ m' Hm). specialize (Hsum k p). lia. }
  split; cbn [set_meter spool live next_meter workers store drawn]; try done.
  - by eapply store_ok_mono.
  - intros i x [[<- <-]|[Hne Hx']]%lookup_insert_Some.
    + destruct (Hmet _ _ Hm) as (_ & ? & Hrg & Hcl). rewrite Hreg, Hc. destruct Hsame2 as (_ & _ & ->). by split_and!.
    + destruct (Hmet _ _ Hx') as (? & ? & Hrg & Hcl). rewrite Hreg, Hc. split_and!; [by eapply meter_ok_mono|done..].
  - rewrite Hact, Ha. f_equal. unfold map_count. rewrite (map_sum_replace _ _ _ _ m' Hm).
    destruct Hsame2 as (_ & _ & ->). lia.
  - intros w k Hk. eapply worker_ok_mono; [exact Hsub|]. by eapply Hw.
  - intros Hcr Hf j Hj. destruct (Hsaved Hf j Hj) as [Hd|Hd]; [|by left].
    destruct (Hsv Hcr (Hnf Hf) j Hd) as [?|?]; [left; by apply Hids|by right].
  - intros k p. rewrite Hnet, traffic_of_app. specialize (Hs k p). destruct (Hle k p). lia.
  - intros Hcr Hf k p Hmax. rewrite Hnet. rewrite (Hex k p (Hnf Hf) Hmax). rewrite traffic_of_app in *.
    destruct (Hle k p). rewrite (Hx Hcr (Hnf Hf) k p) by lia. lia.
Qed.

Lemma checkpoint_step fate crashed l issued s id :
  system_inv new_v4 crashed l issued s →
  ∃ r s' issued', meter_checkpoint new_v4 fate id s = Done (r, s') ∧ system_inv new_v4 crashed l issued' s' ∧
    (is_ok r = true ∧ s'.(spool).(faulted) = s.(spool).(faulted) ∧
       (∀ m, s'.(live) !! id = Some m → m.(pending) = {| bytes := 0; staged := None |}) ∨
     is_ok r = false ∧ s'.(spool).(faulted) = true) ∧
    (∀ j, j ≠ id → s'.(live) !! j = s.(live) !! j) ∧ s'.(spool).(meters) = s.(spool).(meters) ∧
    s'.(spool).(closing) = s.(spool).(closing) ∧ s'.(store) = s.(store) ∧ s'.(workers) = s.(workers) ∧
    dom s'.(live) = dom s.(live).
Proof.
  intros Hinv. unfold meter_checkpoint, checkpoint. destruct (s.(live) !! id) as [m|] eqn:Hm.
  2:{ exists (Ok tt), s, issued. split_and!; try done. left. split_and!; try done. congruence. }
  pose proof Hinv as [Hi Hr _ Hmet _ _ _ _ _]. destruct (Hmet _ _ Hm) as (Hmok & _).
  destruct (flush_ends fate issued s.(drawn) m s.(spool) Hi Hr Hmok)
    as (r & m' & sp' & n' & issued' & -> & Hfl & Hres). cbn [mbind exec_bind].
  pose proof (fl_grows _ _ _ _ _ _ _ Hfl) as (Hc & Hreg & _).
  exists r, (set_meter s id m' sp' n'), issued'. split_and!; try done.
  - rewrite <- (app_nil_r l). eapply (meter_step crashed l []); try done; cbn; intros; lia.
  - cbn. destruct Hres as [(? & Hp & ?)|?]; [left|by right]. split_and!; [done|done|].
    intros m2. rewrite lookup_insert_eq. by intros [= <-].
  - intros j Hj. cbn. by rewrite lookup_insert_ne.
  - cbn. rewrite dom_insert_L. apply elem_of_dom_2 in Hm. set_solver.
Qed.

(** What a counted amount does to a meter. *)
Lemma counted issued b m amount :
  meter_ok issued b m → 0 ≤ amount →
  let m1 := set_pending m (saturating_add U64_MAX m.(pending).(bytes) amount) m.(pending).(staged) in
  let d := [(m.(kind), m.(policy_id), amount)] in
  meter_ok issued b m1 ∧
  (∀ k p, 0 ≤ traffic_of k p d ∧ net k p m1 ≤ net k p m + traffic_of k p d) ∧
  (∀ k p, m.(pending).(bytes) + amount ≤ U64_MAX → net k p m1 = net k p m + traffic_of k p d).
Proof.
  intros [Hb Hst] Ha. cbn zeta. split_and!.
  - split; [cbn; unfold saturating_add; lia|]. intros e E. destruct (Hst e E) as (? & ? & ? & ?).
    split_and!; try done. cbn. unfold saturating_add. lia.
  - intros k p. unfold traffic_of, net, staged_bytes. cbn. unfold saturating_add. case_bool_decide; lia.
  - intros k p Hle. unfold traffic_of, net, staged_bytes. cbn. unfold saturating_add. case_bool_decide; lia.
Qed.

(** While nothing failed, what is in memory is part of the traffic. *)
Lemma bytes_le_traffic crashed l issued s id m :
  system_inv new_v4 crashed l issued s → s.(spool).(faulted) = false → s.(live) !! id = Some m →
  m.(pending).(bytes) ≤ traffic_of m.(kind) m.(policy_id) l.
Proof.
  intros [Hi _ _ Hmet _ _ _ Hs _] Hf Hm. specialize (Hs m.(kind) m.(policy_id)).
  assert (Hn : net m.(kind) m.(policy_id) m = m.(pending).(bytes)).
  { destruct (Hmet _ _ Hm) as ((_ & Hst) & _). unfold net, staged_bytes. rewrite bool_decide_eq_true_2 by done.
    destruct (m.(pending).(staged)) as [e|] eqn:E; [|lia]. destruct (Hst e eq_refl). congruence. }
  pose proof (map_sum_lookup_le (λ _, net m.(kind) m.(policy_id)) s.(live) id m) as Hle. cbn in Hle.
  rewrite Hn in Hle.
  assert (0 ≤ issued_sum m.(kind) m.(policy_id) issued).
  { apply map_sum_nonneg. intros j e He. destruct (Hi _ _ He) as (_ & _ & ? & _). unfold weight. case_bool_decide; lia. }
  enough (m.(pending).(bytes) ≤ map_sum (λ _, net m.(kind) m.(policy_id)) s.(live)) by lia.
  apply Hle; [|done]. intros j x Hx. destruct (Hmet _ _ Hx) as (Hok & _). by eapply net_nonneg.
Qed.

Lemma add_step fate crashed l issued s id amount :
  system_inv new_v4 crashed l issued s → 0 ≤ amount →
  ∃ r s' issued', meter_add new_v4 fate id amount s = Done (r, s') ∧
    system_inv new_v4 crashed (l ++ forwarded s id amount) issued' s' ∧ sticky s s'.
Proof.
  intros Hinv Ha. unfold meter_add, forwarded. destruct (s.(live) !! id) as [m|] eqn:Hm.
  2:{ exists (Ok tt), s, issued. rewrite app_nil_r. split_and!; [done|done|apply sticky_refl]. }
  pose proof Hinv as [Hi Hr _ Hmet _ _ _ _ _]. destruct (Hmet _ _ Hm) as (Hmok & _).
  destruct (counted _ _ _ _ Hmok Ha) as (Hm1 & Hle & Hex). unfold add. cbn zeta. set (m1 := set_pending m _ _) in *.
  assert (Hex' : ∀ k p, s.(spool).(faulted) = false → traffic_of k p (l ++ [(m.(kind), m.(policy_id), amount)]) ≤ U64_MAX →
    net k p m1 = net k p m + traffic_of k p [(m.(kind), m.(policy_id), amount)]).
  { intros k p Hf Hmax. destruct (decide ((m.(kind), m.(policy_id)) = (k, p))) as [[= <- <-]|Hne].
    - apply Hex. pose proof (bytes_le_traffic _ _ _ _ _ _ Hinv Hf Hm). rewrite traffic_of_app in Hmax.
      unfold traffic_of in Hmax at 2. cbn in Hmax. rewrite bool_decide_eq_true_2 in Hmax by done. lia.
    - unfold net, traffic_of. cbn. by rewrite !bool_decide_eq_false_2 by done. }
  destruct (CHECKPOINT_BYTES <=? _).
  - destruct (flush_ends fate issued s.(drawn) m1 s.(spool) Hi Hr Hm1)
      as (r & m' & sp' & n' & issued' & -> & Hfl & Hres). cbn [mbind exec_bind].
    eexists _, _, issued'. split; [reflexivity|]. split; [|by eapply sticky_grows, fl_grows].
    eapply (meter_step _ _ _ _ _ _ m m1); try eassumption. done.
  - cbn [mbind exec_bind]. eexists _, _, issued. split; [reflexivity|]. split; [|by apply sticky_grows].
    eapply (meter_step _ _ _ _ _ _ m m1); try eassumption; [done|]. by apply flushed_id.
Qed.

Lemma fault_step crashed l issued s :
  system_inv new_v4 crashed l issued s → system_inv new_v4 crashed l issued (set_spool s (mark_fault s.(spool))).
Proof.
  intros [? ? ? Hmet ? ? ? ? ?]. split; cbn; try done.
  intros id m Hm. destruct (Hmet id m Hm) as (Hok & ? & ? & ?). split_and!; try done.
  by apply (meter_ok_mono issued issued s.(spool).(faulted)).
Qed.

(** A meter goes whose bytes are settled, or lost under the fault. *)
Lemma remove_step crashed l issued s id m :
  system_inv new_v4 crashed l issued s → s.(live) !! id = Some m →
  (s.(spool).(faulted) = false → m.(pending) = {| bytes := 0; staged := None |}) →
  system_inv new_v4 crashed l issued
    {| spool := if m.(registered) then finish_meter s.(spool) else s.(spool); live := delete id s.(live);
       next_meter := s.(next_meter); workers := s.(workers); store := s.(store); drawn := s.(drawn) |}.
Proof.
  intros [Hi Hr Hst Hmet Ha Hw Hsv Hs Hx] Hm Hp. destruct (Hmet _ _ Hm) as (Hmok & _).
  set (sp := if m.(registered) then _ else _).
  assert (Hsp : sp.(rows) = s.(spool).(rows) ∧ sp.(faulted) = s.(spool).(faulted) ∧ sp.(meters) = s.(spool).(meters) ∧
    sp.(closing) = s.(spool).(closing)).
  { unfold sp. by destruct (m.(registered)). }
  destruct Hsp as (Er & Ef & Em & Ec).
  assert (Hd : ∀ k p, map_sum (λ _, net k p) s.(live) = net k p m + map_sum (λ _, net k p) (delete id s.(live))).
  { intros k p. by rewrite (map_sum_delete _ _ _ _ Hm). }
  split; cbn; try done; rewrite ?Er, ?Ef; try done.
  - intros j x Hj. apply lookup_delete_Some in Hj as [_ Hj]. rewrite Em, Ec. by apply Hmet.
  - unfold map_count. assert (map_sum (λ _ a, if registered a then 1 else 0) s.(live) =
      (if m.(registered) then 1 else 0) + map_sum (λ _ a, if registered a then 1 else 0) (delete id s.(live))) as E
      by by rewrite (map_sum_delete _ _ _ _ Hm).
    unfold map_count in Ha. unfold sp. destruct (m.(registered)); cbn [finish_meter set_registry active_meters]; rewrite Ha, E.
    + rewrite Zminus_mod_idemp_l. f_equal. lia.
    + done.
  - intros k p. specialize (Hs k p). rewrite Hd in Hs. pose proof (net_nonneg _ _ k p _ Hmok). lia.
  - intros Hc Hf k p Hmax. rewrite <- (Hx Hc Hf k p Hmax), Hd. specialize (Hp Hf).
    enough (net k p m = 0) by lia. unfold net, staged_bytes. rewrite Hp. cbn. by case_bool_decide.
Qed.

Lemma drop_step fate crashed l issued s id :
  system_inv new_v4 crashed l issued s →
  ∃ s' issued', meter_drop new_v4 fate id s = Done s' ∧ system_inv new_v4 crashed l issued' s' ∧ sticky s s'.
Proof.
  intros Hinv. destruct (checkpoint_step fate _ _ _ _ id Hinv) as (r & s1 & issued' & E & Hinv1 & Hres & _ & _ & Hcl & _).
  unfold meter_drop, meter_checkpoint in *. destruct (s.(live) !! id) as [m|] eqn:Hm; [|by exists s, issued].
  destruct (checkpoint new_v4 fate s.(drawn) m s.(spool)) as [[[[r' m'] sp'] n']|]; [|done].
  cbn [mbind exec_bind] in *. injection E as -> <-. eexists _, issued'. split; [reflexivity|].
  assert (Hst : sticky s (set_meter s id m' sp' n')).
  { split; [|by rewrite Hcl]. intros Hf. by destruct Hres as [(_ & -> & _)|[_ ->]]. }
  split; [|destruct Hst; destruct (is_ok r), (m'.(registered)); by split].
  rewrite <- (delete_insert_eq s.(live) id m').
  destruct (is_ok r) eqn:Er.
  - apply (remove_step _ _ _ _ id m' Hinv1); cbn; [apply lookup_insert_eq|].
    destruct Hres as [(_ & _ & Hp)|[? _]]; [|done]. intros _. apply Hp, lookup_insert_eq.
  - apply (remove_step _ _ _ _ id m' (fault_step _ _ _ _ Hinv1)); cbn; [apply lookup_insert_eq|done].
Qed.

Lemma new_step crashed l issued s k p :
  system_inv new_v4 crashed l issued s → system_inv new_v4 crashed l issued (meter_new k p s).
Proof.
  intros [Hi Hr Hst Hmet Ha Hw Hsv Hs Hx]. unfold meter_new, register_meter. set (id := s.(next_meter)).
  assert (Hn : s.(live) !! id = None).
  { destruct (s.(live) !! id) as [m|] eqn:E; [|done]. destruct (Hmet _ _ E) as (_ & Hlt & _). unfold id in Hlt. lia. }
  assert (Hnet : ∀ k' p' reg, map_sum (λ _, net k' p')
    (<[id := {| kind := k; policy_id := p; pending := {| bytes := 0; staged := None |}; registered := reg |}]> s.(live)) =
    map_sum (λ _, net k' p') s.(live)).
  { intros k' p' reg. rewrite map_sum_insert by done. unfold net, staged_bytes. cbn. by case_bool_decide. }
  destruct (s.(spool).(closing)) eqn:Ecl; split; cbn; rewrite ?Ecl; try done; try (intros; by rewrite Hnet + (intros; rewrite Hnet; by apply Hx)).
  - intros j x [[<- <-]|[_ Hj]]%lookup_insert_Some; [split_and!; [by split|lia|done|done]|].
    destruct (Hmet _ _ Hj) as (? & ? & ? & ?). split_and!; [done|lia|done|done].
  - unfold map_count in *. by rewrite Ha, map_sum_insert by done.
  - intros j x [[<- <-]|[_ Hj]]%lookup_insert_Some.
    + split_and!; [by split|lia| |done]. intros _. apply elem_of_app. right. by left.
    + destruct (Hmet _ _ Hj) as (? & ? & Hreg & ?). split_and!; [done|lia| |done]. intros Hrg. apply elem_of_app. left.
      apply list_elem_of_filter. split; [|by apply Hreg]. unfold strong. by rewrite Hj.
  - unfold map_count in *. rewrite Ha, map_sum_insert, Zplus_mod_idemp_l by done. cbn. f_equal. lia.
Qed.

(** Only the flags and the registry change, and every live meter stays registered. *)
Lemma registry_step crashed l issued s sp :
  system_inv new_v4 crashed l issued s → sp.(rows) = s.(spool).(rows) → sp.(faulted) = s.(spool).(faulted) →
  sp.(active_meters) = s.(spool).(active_meters) → (s.(spool).(closing) = true → sp.(closing) = true) →
  (∀ id, id ∈ s.(spool).(meters) → strong s id = true → id ∈ sp.(meters)) →
  system_inv new_v4 crashed l issued (set_spool s sp).
Proof.
  intros [Hi Hr Hst Hmet Ha Hw Hsv Hs Hx] E1 E2 E3 Hcl Hreg. split; cbn; rewrite ?E1, ?E2, ?E3; try done.
  intros id m Hm. destruct (Hmet _ _ Hm) as (? & ? & Hin & ?). split_and!; [done|done| |by auto]. intros Hrg.
  apply Hreg; [by apply Hin|]. unfold strong. by rewrite Hm.
Qed.

Definition settled (s : System) (id : Z) : Prop :=
  ∀ m, s.(live) !! id = Some m → m.(pending) = {| bytes := 0; staged := None |}.

Lemma checkpoint_all_step fate ids crashed l issued s :
  system_inv new_v4 crashed l issued s →
  ∃ r s' issued', checkpoint_all new_v4 fate ids s = Done (r, s') ∧ system_inv new_v4 crashed l issued' s' ∧
    (is_ok r = true ∧ s'.(spool).(faulted) = s.(spool).(faulted) ∧
       (∀ id, id ∈ ids ∨ settled s id → settled s' id) ∨
     is_ok r = false ∧ s'.(spool).(faulted) = true) ∧
    s'.(spool).(meters) = s.(spool).(meters) ∧ s'.(spool).(closing) = s.(spool).(closing) ∧
    s'.(store) = s.(store) ∧ s'.(workers) = s.(workers) ∧ dom s'.(live) = dom s.(live).
Proof.
  revert issued s. induction ids as [|id ids IH]; intros issued s Hinv; cbn [checkpoint_all].
  { exists (Ok tt), s, issued. split_and!; try done. left. split_and!; try done.
    intros id [Hin|?]; [by apply not_elem_of_nil in Hin|done]. }
  destruct (checkpoint_step (fate id) _ _ _ _ id Hinv)
    as (r & s1 & issued1 & -> & Hinv1 & Hres & Hother & Hm1 & Hc1 & Hst1 & Hw1 & Hd1). cbn [mbind exec_bind].
  destruct Hres as [(Hok & Hf & Hset)|(Hok & Hf)]; (destruct r as [u|err]; try done).
  - destruct (IH issued1 s1 Hinv1) as (r & s2 & issued2 & E & Hinv2 & Hres & Hm2 & Hc2 & Hst2 & Hw2 & Hd2).
    exists r, s2, issued2. split_and!; try done; try congruence.
    destruct Hres as [(? & ? & Hall)|?]; [left|by right]. split_and!; [done|congruence|].
    intros j [[->|Hj]%elem_of_cons|Hj]; apply Hall; [by right|by left|]. destruct (decide (j = id)) as [->|Hne]; [by right|].
    right. intros m. rewrite Hother by done. apply Hj.
  - exists (Err err), s1, issued1. split_and!; try done. by right.
Qed.

Lemma checkpoint_active_step fate crashed l issued s :
  system_inv new_v4 crashed l issued s →
  ∃ r s' issued', checkpoint_active new_v4 fate s = Done (r, s') ∧ system_inv new_v4 crashed l issued' s' ∧
    (is_ok r = true ∧ s'.(spool).(faulted) = s.(spool).(faulted) ∧
       (∀ id m, s'.(live) !! id = Some m → m.(registered) = true → settled s' id) ∨
     is_ok r = false ∧ s'.(spool).(faulted) = true) ∧
    s'.(spool).(closing) = s.(spool).(closing) ∧ s'.(store) = s.(store) ∧ s'.(workers) = s.(workers) ∧
    dom s'.(live) = dom s.(live).
Proof.
  intros Hinv. unfold checkpoint_active. set (active := filter _ _).
  set (s0 := set_spool s (set_registry s.(spool) active s.(spool).(active_meters))).
  assert (Hinv0 : system_inv new_v4 crashed l issued s0).
  { apply registry_step; try done. intros id Hin Hs. by apply list_elem_of_filter. }
  destruct (checkpoint_all_step fate active _ _ _ _ Hinv0)
    as (r & s' & issued' & -> & Hinv' & Hres & Hm & Hc & Hst & Hw & Hd).
  exists r, s', issued'. split_and!; try done.
  destruct Hres as [(? & ? & Hall)|?]; [left|by right]. split_and!; [done|done|].
  intros id m Hlive Hreg. apply Hall. left. destruct Hinv' as [_ _ _ Hmet _ _ _ _ _].
  destruct (Hmet _ _ Hlive) as (_ & _ & Hin & _). specialize (Hin Hreg). by rewrite Hm in Hin.
Qed.

(** ** Uploads *)

Lemma ledger_lookup t id row :
  ledger t !! id = Some row ↔ ∃ r, t.(traffic_usage_events) !! id = Some r ∧
    row = {| sr_id := id; sr_kind := r.(ur_kind); sr_policy := r.(ur_policy); sr_bytes := r.(ur_bytes) |}.
Proof using.
  unfold ledger. rewrite map_lookup_imap. destruct (t.(traffic_usage_events) !! id) as [r|]; cbn.
  - split; [intros [= <-]; by exists r|intros (r' & [= <-] & ->); done].
  - split; [done|intros (r' & ? & _); done].
Qed.

(** The catalog accepts every issued event, however often it is uploaded. *)
Lemma record_issued issued n t e now :
  store_ok issued t → issued_ok new_v4 n issued → issued !! e.(event_id) = Some e →
  ∃ t', record_usage_event t e now = Ok t' ∧ store_ok issued t' ∧
    dom t'.(traffic_usage_events) = {[ e.(event_id) ]} ∪ dom t.(traffic_usage_events).
Proof.
  intros [Hl Hu] Hi He. destruct (Hi _ _ He) as (_ & Hid & Hb & _).
  destruct (t.(traffic_usage_events) !! e.(event_id)) as [row|] eqn:E.
  - assert (Hrow : ledger t !! e.(event_id) = Some (row_of e)).
    { destruct (ledger t !! e.(event_id)) as [x|] eqn:Ex.
      - pose proof (lookup_weaken _ _ _ _ Ex Hl) as Hx. rewrite lookup_fmap, He in Hx. done.
      - exfalso. assert (Hc : is_Some (ledger t !! e.(event_id))).
        { eexists. apply ledger_lookup. by exists row. }
        rewrite Ex in Hc. by destruct Hc. }
    apply ledger_lookup in Hrow as (r' & E' & Eq). rewrite E in E'. injection E' as <-.
    unfold row_of in Eq. injection Eq as Ek Ep Eb.
    exists t. split_and!; [|done|apply elem_of_dom_2 in E; set_solver].
    unfold record_usage_event. rewrite (proj2 (Z.eqb_neq _ _) Hid). cbn [negb check mbind result_bind].
    rewrite E. cbn [is_some negb]. rewrite E. cbn [ok_or mbind result_bind].
    rewrite <- Ek, <- Ep, <- Eb, !bool_decide_eq_true_2, Z.eqb_refl by done. cbn. by destruct t.
  - destruct (usage_after t e now (day_usage t)) as (t' & Er & Hd & Hu'); try done.
    { unfold event_typed. cbn. lia. }
    { intros k p d. apply map_sum_nonneg. intros id r _. destruct (_ =? _); [|done].
      unfold row_bytes. destruct (_ && _); [|done]. cbn [sr_bytes]. destruct (parse_uint _ _) as [v|] eqn:Ev; [|done].
      apply parse_uint_bound in Ev; [cbn; lia|done]. }
    rewrite (record_usage_fresh t e now _ Hid E (Hu _ _ _)) in Er. injection Er as Et.
    exists t'. split_and!; [|split|done].
    + rewrite <- Et. by apply record_usage_fresh.
    + rewrite <- Et. apply map_subseteq_spec. intros id row Hrow.
      apply ledger_lookup in Hrow as (r & Hr & ->). cbn in Hr.
      apply lookup_insert_Some in Hr as [[<- <-]|[Hne Hr]]; cbn.
      * rewrite lookup_fmap, He. done.
      * apply (lookup_weaken _ _ _ _ (proj2 (ledger_lookup t id _) (ex_intro _ r (conj Hr eq_refl))) Hl).
    + intros k p d. rewrite (Hu' k p d). f_equal. f_equal. rewrite <- Et. unfold day_usage.
      cbn [traffic_usage_events]. rewrite map_sum_insert by done. cbn [ur_day ur_kind ur_policy ur_bytes].
      change ({| sr_id := _; sr_kind := kind_as_str _; sr_policy := _; sr_bytes := _ |}) with (row_of e).
      rewrite row_bytes_row_of by lia. unfold charge, weight. cbn [fst snd].
      destruct (Z.eqb_spec (utc_day now) d); repeat case_bool_decide; simplify_eq; lia.
Qed.

Lemma batch_issued issued n sp :
  issued_ok new_v4 n issued → rows_ok issued sp.(rows) →
  ∃ b, batch sp = Ok b ∧ take 64 sp.(rows) = row_of <$> b ∧ Forall (λ e, issued !! e.(event_id) = Some e) b.
Proof.
  intros Hi [_ Hr]. unfold batch.
  assert (Ht : Forall (row_issued issued) (take 64 sp.(rows))) by by apply Forall_take.
  clear Hr. induction Ht as [|row r (e & He & ->)%row_issued_Some _ IH].
  { exists []. by split_and!; try constructor. }
  destruct IH as (b & Eb & Er & Hb). exists (e :: b). cbn [collect fmap list_fmap]. cbn in He.
  destruct (Hi _ _ He) as (_ & _ & ? & _). rewrite event_of_row_of by lia. cbn [mbind result_bind]. rewrite Eb. cbn.
  split_and!; [done|by f_equal|by constructor].
Qed.

Lemma set_worker_step crashed l issued s w k :
  system_inv new_v4 crashed l issued s → worker_ok issued s.(store).(tables) k →
  system_inv new_v4 crashed l issued (set_workers s (<[w := k]> s.(workers))).
Proof.
  intros [Hi Hr Hst Hmet Ha Hw Hsv Hs Hx] Hk. split; cbn; try done.
  intros w' k' [[<- <-]|[_ H]]%lookup_insert_Some; [done|by eapply Hw].
Qed.

Lemma stop_step crashed l issued s w :
  system_inv new_v4 crashed l issued s → system_inv new_v4 crashed l issued (stop_worker w s).
Proof.
  intros [Hi Hr Hst Hmet Ha Hw Hsv Hs Hx]. split; cbn; try done.
  intros w' k' [_ H]%lookup_delete_Some. by eapply Hw.
Qed.

Lemma begin_step fate crashed l issued s w :
  system_inv new_v4 crashed l issued s →
  ∃ r s' issued', pump_begin new_v4 fate w s = Done (r, s') ∧ system_inv new_v4 crashed l issued' s' ∧
    sticky s s' ∧ (∀ id, is_Some (s'.(live) !! id) → is_Some (s.(live) !! id)) ∧
    match r with
    | Err _ => True
    | Ok _ => s'.(spool).(faulted) = s.(spool).(faulted) ∧ s'.(spool).(closing) = s.(spool).(closing) ∧
        (∀ id m, s'.(live) !! id = Some m → m.(registered) = true → settled s' id) ∧
        ∃ b, s'.(workers) !! w = Some {| todo := b; acking := None; uploaded := 0 |} ∧
             take 64 s'.(spool).(rows) = row_of <$> b
    end.
Proof.
  intros Hinv. unfold pump_begin. destruct (checkpoint_active_step fate _ _ _ _ Hinv)
    as (r & s1 & issued1 & -> & Hinv1 & Hres & Hc & _ & _ & Hd). cbn [mbind exec_bind].
  assert (Hst : sticky s s1).
  { split; [|by rewrite Hc]. intros Hf. by destruct Hres as [(_ & -> & _)|[_ ->]]. }
  assert (Hl : ∀ id, is_Some (s1.(live) !! id) → is_Some (s.(live) !! id)).
  { intros id. by rewrite <- !elem_of_dom, Hd. }
  destruct r as [u|e]; cbn [mbind result_bind]; [|by eexists _, _, issued1].
  destruct Hres as [(_ & Hf & Hset)|[? _]]; [|done].
  destruct (batch_issued _ _ _ (inv_issued _ _ _ _ _ Hinv1) (inv_rows _ _ _ _ _ Hinv1)) as (b & -> & Hrows & Hb).
  eexists _, _, issued1. split; [reflexivity|]. split_and!; try done; [by apply set_worker_step|].
  exists b. cbn. by rewrite lookup_insert_eq.
Qed.

(** Only the recorded events grow. *)
Lemma store_step crashed l issued s c :
  system_inv new_v4 crashed l issued s → store_ok issued c.(tables) →
  dom s.(store).(tables).(traffic_usage_events) ⊆ dom c.(tables).(traffic_usage_events) →
  system_inv new_v4 crashed l issued (set_store s c).
Proof.
  intros [Hi Hr Hst Hmet Ha Hw Hsv Hs Hx] Hc Hd. split; cbn; try done.
  - intros w k Hk. destruct (Hw w k Hk) as [? Hack]. split; [done|]. intros e E. destruct (Hack e E). split; [done|set_solver].
  - intros Hcr Hf id Hid. destruct (Hsv Hcr Hf id Hid); [by left|right; set_solver].
Qed.

Lemma upload_step fate w now crashed l issued s :
  system_inv new_v4 crashed l issued s → system_inv new_v4 crashed l issued (pump_upload fate w now s).2.
Proof.
  intros Hinv. unfold pump_upload. destruct (s.(workers) !! w) as [[[|e rest] [a|] n]|] eqn:Ew; try done.
  destruct (inv_workers _ _ _ _ _ Hinv _ _ Ew) as [Ht _]. cbn in Ht. inversion Ht as [|? ? He Hrest]; subst.
  destruct (record_issued _ _ _ e now (inv_store _ _ _ _ _ Hinv) (inv_issued _ _ _ _ _ Hinv) He) as (t & -> & Hst & Hd).
  set (c := {| tables := t; connection_windows := _ |}).
  assert (Hinv' : system_inv new_v4 crashed l issued (set_store s c)).
  { apply store_step; [done|done|]. cbn. rewrite Hd. set_solver. }
  destruct fate; cbn [snd]; [|by apply stop_step|by apply stop_step].
  change (workers s) with (workers (set_store s c)). apply set_worker_step; [done|]. split; [done|].
  intros e' [= <-]. split; [done|]. cbn. rewrite Hd. set_solver.
Qed.


Lemma acknowledged_ok issued sp e :
  rows_ok issued sp.(rows) → issued !! e.(event_id) = Some e →
  rows_ok issued (filter (λ row, row_is e row = false) sp.(rows)) ∧
  ∀ id, id ∈ sr_id <$> sp.(rows) → id = e.(event_id) ∨ id ∈ sr_id <$> filter (λ row, row_is e row = false) sp.(rows).
Proof.
  intros [Hn Hr] He. split.
  - split; [by apply NoDup_fmap_filter|by apply Forall_filter_sub].
  - intros id (row & -> & Hin)%list_elem_of_fmap. destruct (row_is e row) eqn:E.
    + left. apply row_is_inv in E as ->. done.
    + right. apply list_elem_of_fmap. exists row. split; [done|]. by apply list_elem_of_filter.
Qed.

Lemma ack_step fate w crashed l issued s :
  system_inv new_v4 crashed l issued s → system_inv new_v4 crashed l issued (pump_ack fate w s).2.
Proof.
  intros Hinv. unfold pump_ack. destruct (s.(workers) !! w) as [[rest [e|] n]|] eqn:Ew; try done.
  destruct (inv_workers _ _ _ _ _ Hinv _ _ Ew) as [Ht Hack]. destruct (Hack e eq_refl) as [He Hd]. cbn in Ht.
  destruct (acknowledged_ok _ _ _ (inv_rows _ _ _ _ _ Hinv) He) as [Hr' Hids].
  unfold acknowledge. set (sp := set_rows s.(spool) _).
  assert (Hinv' : system_inv new_v4 crashed l issued (set_spool s sp)).
  { destruct Hinv as [Hi Hr Hst Hmet Ha Hw Hsv Hs Hx]. split; cbn; try done.
    intros Hcr Hf id Hid. destruct (Hsv Hcr Hf id Hid) as [Hin|?]; [|by right].
    destruct (Hids id Hin) as [->|?]; [by right|by left]. }
  assert (Hk : worker_ok issued s.(store).(tables) {| todo := rest; acking := None; uploaded := n + 1 |}) by by split.
  destruct fate; cbn [snd]; [|by apply stop_step, registry_step|by apply stop_step].
  by apply (set_worker_step _ _ _ (set_spool s sp)).
Qed.

Lemma settings_step crashed l issued s controls windows :
  system_inv new_v4 crashed l issued s → system_inv new_v4 crashed l issued (set_settings s controls windows).
Proof. intros Hinv. pose proof (inv_store _ _ _ _ _ Hinv) as [? ?]. by apply store_step. Qed.

Lemma restart_step crashed l issued s :
  system_inv new_v4 crashed l issued s → system_inv new_v4 true l issued (restart s).
Proof.
  intros [Hi Hr Hst Hmet Ha Hw Hsv Hs Hx]. split; cbn; try done.
  intros k p. rewrite map_sum_empty. specialize (Hs k p).
  assert (0 ≤ map_sum (λ _, net k p) s.(live)); [|lia].
  apply map_sum_nonneg. intros id m Hm. destruct (Hmet _ _ Hm) as (? & _). by eapply net_nonneg.
Qed.

Lemma upload_sticky fate w now s : sticky s (pump_upload fate w now s).2.
Proof.
  unfold pump_upload. destruct (s.(workers) !! w) as [[[|e rest] [a|] n]|]; try done.
  by destruct fate, (record_usage_event s.(store).(tables) e now).
Qed.

Lemma ack_sticky fate w s : sticky s (pump_ack fate w s).2.
Proof. unfold pump_ack. destruct (s.(workers) !! w) as [[rest [e|] n]|]; try done. by destruct fate. Qed.

Lemma new_sticky k p s : sticky s (meter_new k p s).
Proof. unfold meter_new, register_meter. by destruct (s.(spool).(closing)) eqn:E. Qed.

Lemma checkpoint_active_sticky s (r : result UsageError unit) s' :
  (is_ok r = true ∧ s'.(spool).(faulted) = s.(spool).(faulted) ∧
     (∀ id m, s'.(live) !! id = Some m → m.(registered) = true → settled s' id) ∨
   is_ok r = false ∧ s'.(spool).(faulted) = true) →
  s'.(spool).(closing) = s.(spool).(closing) → sticky s s'.
Proof. intros Hres Hc. split; [|by rewrite Hc]. intros Hf. by destruct Hres as [(_ & -> & _)|[_ ->]]. Qed.

Lemma apply_step op crashed l issued s :
  system_inv new_v4 crashed l issued s → op_typed op = true →
  ∃ s' d issued', apply_op new_v4 op s = Done (s', d) ∧
    system_inv new_v4 (crashed || is_restart op) (l ++ d) issued' s' ∧ (is_restart op = false → sticky s s').
Proof.
  intros Hinv Hty.
  assert (Hquiet : ∀ s' issued' b, system_inv new_v4 (crashed || b) l issued' s' → (b = false → sticky s s') →
    ∃ s'' d issued'', Done (s', []) = Done (s'', d) ∧ system_inv new_v4 (crashed || b) (l ++ d) issued'' s'' ∧
      (b = false → sticky s s'')).
  { intros s' issued' b ? ?. exists s', [], issued'. by rewrite app_nil_r. }
  assert (Hadd : ∀ fate id amount, (0 <=? amount) && (amount <=? U64_MAX) = true →
    ∃ r s' issued', meter_add new_v4 fate id amount s = Done (r, s') ∧
      system_inv new_v4 (crashed || false) (l ++ forwarded s id amount) issued' s' ∧ sticky s s').
  { intros fate id amount Ha. bool_prop. rewrite orb_false_r. by apply (add_step fate crashed l issued). }
  destruct op; cbn [apply_op is_restart]; cbn in Hty.
  - apply (Hquiet _ issued); [rewrite orb_false_r; by apply new_step|]. intros _. apply new_sticky.
  - destruct (Hadd fate id amount Hty) as (r & s' & issued' & -> & ? & ?). by eexists _, _, issued'.
  - unfold metered_poll. destruct (ensure_open s.(spool)) as [u|e].
    2:{ apply (Hquiet _ issued); [by rewrite orb_false_r|done]. }
    destruct inner as [|amount|]; try (apply (Hquiet _ issued); [by rewrite orb_false_r|done]).
    destruct (Hadd fate id amount Hty) as (r & s' & issued' & -> & ? & ?). by eexists _, _, issued'.
  - destruct (checkpoint_step fate _ _ _ _ id Hinv) as (r & s' & issued' & -> & ? & Hres & _ & _ & Hc & _).
    apply (Hquiet _ issued'); [by rewrite orb_false_r|]. intros _. split; [|by rewrite Hc].
    intros Hf. by destruct Hres as [(_ & -> & _)|[_ ->]].
  - destruct (drop_step fate _ _ _ _ id Hinv) as (s' & issued' & -> & ? & ?). apply (Hquiet _ issued'); [by rewrite orb_false_r|done].
  - apply (Hquiet _ issued); [rewrite orb_false_r; by apply registry_step|done].
  - destruct (checkpoint_active_step fate _ _ _ _ Hinv) as (r & s' & issued' & -> & ? & Hres & Hc & _).
    apply (Hquiet _ issued'); [by rewrite orb_false_r|]. intros _. by eapply checkpoint_active_sticky.
  - destruct (begin_step fate _ _ _ _ w Hinv) as (r & s' & issued' & -> & ? & ? & _).
    apply (Hquiet _ issued'); [by rewrite orb_false_r|done].
  - apply (Hquiet _ issued); [rewrite orb_false_r; by apply upload_step|]. intros _. apply upload_sticky.
  - apply (Hquiet _ issued); [rewrite orb_false_r; by apply ack_step|]. intros _. apply ack_sticky.
  - apply (Hquiet _ issued); [rewrite orb_false_r; by apply stop_step|done].
  - apply (Hquiet _ issued); [rewrite orb_false_r; by apply settings_step|done].
  - apply (Hquiet _ issued); [rewrite orb_true_r; by eapply restart_step|done].
Qed.

Lemma run_steps ops crashed l issued s :
  system_inv new_v4 crashed l issued s → forallb op_typed ops = true →
  ∃ s' d issued', run_ops new_v4 ops s = Done (s', d) ∧
    system_inv new_v4 (crashed || existsb is_restart ops) (l ++ d) issued' s' ∧
    (existsb is_restart ops = false → sticky s s').
Proof.
  revert crashed l issued s. induction ops as [|op ops IH]; intros crashed l issued s Hinv Hty; cbn in *.
  { exists s, [], issued. by rewrite app_nil_r, orb_false_r. }
  bool_prop. destruct (apply_step op _ _ _ _ Hinv) as (s1 & d1 & issued1 & -> & Hinv1 & Hs1); [done|]. cbn.
  destruct (IH _ _ _ _ Hinv1) as (s2 & d2 & issued2 & -> & Hinv2 & Hs2); [done|]. cbn.
  exists s2, (d1 ++ d2), issued2. rewrite app_assoc, orb_assoc. split_and!; [done|done|].
  intros [? ?]%orb_false_iff. eapply sticky_trans; auto.
Qed.

(** ** What is saved, in terms of the issued events *)

Definition saved_id (s : System) (id : Z) : Prop :=
  id ∈ sr_id <$> s.(spool).(rows) ∨ id ∈ dom s.(store).(tables).(traffic_usage_events).

Lemma spooled_lookup issued r id row :
  rows_ok issued r → spooled r !! id = Some row ↔ row ∈ r ∧ row.(sr_id) = id.
Proof.
  intros [Hn _]. unfold spooled. rewrite <- elem_of_list_to_map.
  - rewrite list_elem_of_fmap. split; [intros (x & [= -> ->] & ?)|intros [? <-]; exists row]; done.
  - rewrite <- list_fmap_compose. exact Hn.
Qed.

Lemma saved_sub crashed l issued s : system_inv new_v4 crashed l issued s → saved s ⊆ row_of <$> issued.
Proof.
  intros Hinv. apply map_subseteq_spec. intros id row H. unfold saved in H.
  apply lookup_union_Some_raw in H as [H|[_ H]].
  - apply (spooled_lookup issued) in H as [Hin <-]; [|apply (inv_rows _ _ _ _ _ Hinv)].
    destruct (inv_rows _ _ _ _ _ Hinv) as [_ Hr]. rewrite Forall_forall in Hr. by apply Hr.
  - destruct (inv_store _ _ _ _ _ Hinv) as [Hl _]. by eapply lookup_weaken.
Qed.

Lemma saved_dom crashed l issued s id :
  system_inv new_v4 crashed l issued s → is_Some (saved s !! id) ↔ saved_id s id.
Proof.
  intros Hinv. unfold saved, saved_id. rewrite lookup_union_is_Some. f_equiv.
  - split.
    + intros [row H]. apply (spooled_lookup issued) in H as [Hin <-]; [|apply (inv_rows _ _ _ _ _ Hinv)].
      apply list_elem_of_fmap. by exists row.
    + intros (row & -> & Hin)%list_elem_of_fmap. exists row.
      by apply (spooled_lookup issued); [apply (inv_rows _ _ _ _ _ Hinv)|].
  - rewrite elem_of_dom. unfold ledger. rewrite map_lookup_imap.
    destruct (s.(store).(tables).(traffic_usage_events) !! id); cbn; by rewrite <- ?not_eq_None_Some.
Qed.

(** What is saved is determined by the identifiers. *)
Lemma saved_same crashed l issued s crashed' l' s' :
  system_inv new_v4 crashed l issued s → system_inv new_v4 crashed' l' issued s' →
  (∀ id, saved_id s' id ↔ saved_id s id) → saved s' = saved s.
Proof.
  intros H H' Hids. apply map_eq. intros id.
  pose proof (saved_dom _ _ _ _ id H) as Hd. pose proof (saved_dom _ _ _ _ id H') as Hd'. specialize (Hids id).
  destruct (saved s !! id) as [row|] eqn:E, (saved s' !! id) as [row'|] eqn:E'; try done.
  - pose proof (lookup_weaken _ _ _ _ E (saved_sub _ _ _ _ H)).
    pose proof (lookup_weaken _ _ _ _ E' (saved_sub _ _ _ _ H')). congruence.
  - exfalso. destruct (proj2 Hd' (proj2 Hids (proj1 Hd (ex_intro _ row eq_refl)))). congruence.
  - exfalso. destruct (proj2 Hd (proj1 Hids (proj1 Hd' (ex_intro _ row' eq_refl)))). congruence.
Qed.

Lemma total_issued crashed l issued s k p :
  system_inv new_v4 crashed l issued s → total k p (row_of <$> issued) = issued_sum k p issued.
Proof.
  intros Hinv. unfold total, issued_sum. rewrite map_sum_fmap.
  apply Z.le_antisymm; apply map_sum_le; intros id e He; destruct (inv_issued _ _ _ _ _ Hinv _ _ He) as (_ & _ & ? & _);
    rewrite row_bytes_row_of by lia; lia.
Qed.

Lemma row_bytes_nonneg k p row : 0 ≤ row_bytes k p row.
Proof using.
  unfold row_bytes. destruct (_ && _); [|done]. destruct (parse_uint _ _) as [v|] eqn:E; [|done].
  by apply parse_uint_bound in E as [? _].
Qed.

Lemma saved_le crashed l issued s k p :
  system_inv new_v4 crashed l issued s → total k p (saved s) ≤ traffic_of k p l.
Proof.
  intros Hinv. pose proof (inv_sum _ _ _ _ _ Hinv k p).
  assert (total k p (saved s) ≤ total k p (row_of <$> issued)).
  { apply map_sum_subseteq; [by eapply saved_sub|]. intros. apply row_bytes_nonneg. }
  rewrite (total_issued _ _ _ _ k p Hinv) in *.
  assert (0 ≤ map_sum (λ _, net k p) s.(live)); [|lia].
  apply map_sum_nonneg. intros id m Hm. destruct (inv_meters _ _ _ _ _ Hinv _ _ Hm) as (? & _). by eapply net_nonneg.
Qed.

Lemma saved_exact l issued s k p :
  system_inv new_v4 false l issued s → s.(spool).(faulted) = false → traffic_of k p l ≤ U64_MAX →
  traffic_of k p l = in_memory k p s + total k p (saved s).
Proof.
  intros Hinv Hf Hmax. rewrite <- (inv_exact _ _ _ _ _ Hinv eq_refl Hf k p Hmax). f_equal.
  - unfold in_memory. assert (Hm : ∀ id m, s.(live) !! id = Some m → net k p m = metered k p m).
    { intros id m Hm. destruct (inv_meters _ _ _ _ _ Hinv _ _ Hm) as ((_ & Hst) & _).
      unfold net, metered, staged_bytes. destruct (m.(pending).(staged)) as [e|]; [|case_bool_decide; lia].
      destruct (Hst e eq_refl). congruence. }
    apply Z.le_antisymm; apply map_sum_le; intros id m Hl; rewrite (Hm id m Hl); lia.
  - rewrite <- (total_issued _ _ _ _ k p Hinv). f_equal. apply (anti_symm (⊆)).
    2:{ by eapply saved_sub. }
    apply map_subseteq_spec. intros id row Hrow. assert (Hid : id ∈ dom issued).
    { apply elem_of_dom. rewrite lookup_fmap in Hrow. by destruct (issued !! id). }
    pose proof (inv_saved _ _ _ _ _ Hinv eq_refl Hf id Hid) as Hs. apply (saved_dom _ _ _ _ id Hinv) in Hs as [row' Hr].
    pose proof (lookup_weaken _ _ _ _ Hr (saved_sub _ _ _ _ Hinv)). congruence.
Qed.

Lemma empty_inv : system_inv new_v4 false [] ∅ system_empty.
Proof.
  split; cbn; try done.
  split; constructor.
Qed.

(** ** Running the pump *)

(** The loop of a pump with any outcome. *)
Lemma pump_loop_step n i f w crashed l issued s :
  system_inv new_v4 crashed l issued s →
  let '(r, s') := pump_loop n i f w s in
  system_inv new_v4 crashed l issued s' ∧ s'.(live) = s.(live) ∧
  s'.(spool).(faulted) = s.(spool).(faulted) ∧ s'.(spool).(closing) = s.(spool).(closing).
Proof.
  revert i s. induction n as [|n IH]; intros i s Hinv; cbn [pump_loop]; [done|].
  pose proof (upload_step (f.(pf_upload) i) w (f.(pf_now) i) _ _ _ _ Hinv) as H1.
  assert (Hk1 : (pump_upload (f.(pf_upload) i) w (f.(pf_now) i) s).2.(live) = s.(live) ∧
                (pump_upload (f.(pf_upload) i) w (f.(pf_now) i) s).2.(spool) = s.(spool)).
  { unfold pump_upload. destruct (s.(workers) !! w) as [[[|e rest] [a|] u]|]; try done.
    by destruct (f.(pf_upload) i), (record_usage_event s.(store).(tables) e (f.(pf_now) i)). }
  destruct (pump_upload _ _ _ s) as [[u|e] s1]; cbn in *; [|destruct Hk1 as [? ->]; by split_and!].
  pose proof (ack_step (f.(pf_ack) i) w _ _ _ _ H1) as H2.
  assert (Hk2 : (pump_ack (f.(pf_ack) i) w s1).2.(live) = s1.(live) ∧
                (pump_ack (f.(pf_ack) i) w s1).2.(spool).(faulted) = s1.(spool).(faulted) ∧
                (pump_ack (f.(pf_ack) i) w s1).2.(spool).(closing) = s1.(spool).(closing)).
  { unfold pump_ack. destruct (s1.(workers) !! w) as [[rest [e|] v]|]; try done. by destruct (f.(pf_ack) i). }
  destruct Hk1 as [El Es]. rewrite El, Es in Hk2.
  destruct (pump_ack _ _ s1) as [[v|e] s2]; cbn in *; [|by split_and!; destruct Hk2 as (? & ? & ?)].
  specialize (IH (S i) s2 H2). destruct (pump_loop n (S i) f w s2) as [r s3].
  destruct IH as (? & -> & -> & ->), Hk2 as (-> & -> & ->). done.
Qed.

Lemma pump_step f w crashed l issued s :
  system_inv new_v4 crashed l issued s →
  ∃ r s' issued', pump new_v4 f w s = Done (r, s') ∧ system_inv new_v4 crashed l issued' s' ∧ sticky s s' ∧
    (is_ok r = true → s'.(spool).(faulted) = s.(spool).(faulted) ∧ s'.(spool).(closing) = s.(spool).(closing) ∧
       ∀ id m, s'.(live) !! id = Some m → m.(registered) = true → settled s' id).
Proof.
  intros Hinv. unfold pump. destruct (begin_step f.(pf_flush) _ _ _ _ w Hinv)
    as (r & s1 & issued1 & -> & Hinv1 & Hst & _ & Hok). cbn [mbind exec_bind].
  destruct r as [u|e]; [|by eexists _, _, issued1]. destruct Hok as (Hf & Hc & Hset & _).
  set (n := match s1.(workers) !! w with Some _ => _ | None => _ end).
  pose proof (pump_loop_step n 0 f w _ _ _ _ Hinv1) as Hloop. destruct (pump_loop n 0 f w s1) as [r s2].
  destruct Hloop as (Hinv2 & El & Ef & Ec).
  eexists _, (stop_worker w s2), issued1. split; [reflexivity|]. split_and!.
  - by apply stop_step.
  - split; cbn; rewrite ?Ef, ?Ec; apply Hst.
  - intros _. cbn. rewrite Ef, Ec. split_and!; [done|done|]. unfold settled. cbn. rewrite El. exact Hset.
Qed.

(** A pump that nothing disturbs. *)
Definition pump_good (f : pump_fates) : Prop :=
  (∀ id i, f.(pf_flush) id i = Committed) ∧ (∀ i, f.(pf_upload) i = Uploaded) ∧ ∀ i, f.(pf_ack) i = Committed.

Lemma filter_row_of e rest :
  NoDup (sr_id <$> row_of e :: rest) → filter (λ row, row_is e row = false) (row_of e :: rest) = rest.
Proof.
  intros [Hx _]%NoDup_cons. rewrite filter_cons. rewrite row_is_row_of. rewrite decide_False by done.
  apply filter_all. apply Forall_forall. intros row Hin. destruct (row_is e row) eqn:E; [|done].
  apply row_is_inv in E as ->. exfalso. apply Hx. apply list_elem_of_fmap. by exists (row_of e).
Qed.

Lemma pump_loop_good b i f w rest u crashed l issued s :
  system_inv new_v4 crashed l issued s → pump_good f →
  s.(workers) !! w = Some {| todo := b; acking := None; uploaded := u |} →
  s.(spool).(rows) = (row_of <$> b) ++ rest →
  ∃ s', pump_loop (length b) i f w s = (Ok tt, s') ∧ system_inv new_v4 crashed l issued s' ∧
    s'.(spool).(rows) = rest ∧ s'.(live) = s.(live) ∧ s'.(spool).(faulted) = s.(spool).(faulted) ∧
    ∀ id, saved_id s' id ↔ saved_id s id.
Proof.
  intros Hinv (_ & Hup & Hack). revert i u s Hinv. induction b as [|e b IH]; intros i u s Hinv Hw Hr.
  { exists s. by split_and!. }
  cbn [length pump_loop].
  pose proof (upload_step (f.(pf_upload) i) w (f.(pf_now) i) _ _ _ _ Hinv) as H1.
  destruct (inv_workers _ _ _ _ _ Hinv _ _ Hw) as [Ht _]. cbn in Ht. inversion Ht as [|? ? He _]; subst.
  destruct (record_issued _ _ _ e (f.(pf_now) i) (inv_store _ _ _ _ _ Hinv) (inv_issued _ _ _ _ _ Hinv) He)
    as (t & Et & Hst & Hd).
  unfold pump_upload in *. rewrite Hw, Hup, Et in *. cbn [snd] in H1.
  set (s1 := set_workers _ _) in *.
  pose proof (ack_step (f.(pf_ack) i) w _ _ _ _ H1) as H2.
  assert (Hw1 : s1.(workers) !! w = Some {| todo := b; acking := Some e; uploaded := u |}) by apply lookup_insert_eq.
  assert (Hr1 : filter (λ row, row_is e row = false) s.(spool).(rows) = (row_of <$> b) ++ rest).
  { rewrite Hr. apply filter_row_of. destruct (inv_rows _ _ _ _ _ Hinv) as [Hn _]. by rewrite Hr in Hn. }
  unfold pump_ack, acknowledge in *. rewrite Hw1, Hack in *. cbn [snd] in H2.
  match type of H2 with system_inv _ _ _ _ ?x => set (s2 := x) in * end.
  destruct (IH (S i) (u + 1) s2 H2) as (s' & -> & Hinv' & Hr' & El & Ef & Hids).
  - apply lookup_insert_eq.
  - exact Hr1.
  - exists s'. split_and!; try done. intros id. rewrite Hids. unfold saved_id. cbn. rewrite Hr1, Hr, Hd. cbn [fmap list_fmap app].
    change (sr_id (row_of e)) with e.(event_id). set_solver.
Qed.

Lemma checkpoint_no_meters fate s :
  s.(live) = ∅ → ∃ s', checkpoint_active new_v4 fate s = Done (Ok tt, s') ∧
    s'.(spool).(rows) = s.(spool).(rows) ∧ s'.(spool).(faulted) = s.(spool).(faulted) ∧ s'.(live) = ∅ ∧
    s'.(store) = s.(store).
Proof.
  intros Hl. unfold checkpoint_active. assert (filter (λ id, strong s id = true) s.(spool).(meters) = []) as ->.
  { apply elem_of_nil_inv. intros id [Hs _]%list_elem_of_filter. unfold strong in Hs. by rewrite Hl in Hs. }
  cbn. by eexists.
Qed.

(** Without meters it uploads the first 64 rows. *)
Lemma pump_good_step f w crashed l issued s :
  system_inv new_v4 crashed l issued s → pump_good f → s.(live) = ∅ →
  ∃ n s', pump new_v4 f w s = Done (Ok n, s') ∧ system_inv new_v4 crashed l issued s' ∧ s'.(live) = ∅ ∧
    s'.(spool).(rows) = drop 64 s.(spool).(rows) ∧ s'.(spool).(faulted) = s.(spool).(faulted) ∧
    ∀ id, saved_id s' id ↔ saved_id s id.
Proof.
  intros Hinv Hg Hl. unfold pump, pump_begin.
  destruct (checkpoint_no_meters f.(pf_flush) s Hl) as (s1 & E & Er & Ef & El & Es).
  assert (Hinv1 : system_inv new_v4 crashed l issued s1).
  { unfold checkpoint_active in E. assert (filter (λ id, strong s id = true) s.(spool).(meters) = []) as Hnil'.
    { apply elem_of_nil_inv. intros id [Hs _]%list_elem_of_filter. unfold strong in Hs. by rewrite Hl in Hs. }
    rewrite Hnil' in E. cbn in E. injection E as <-. apply registry_step; try done.
    intros id _ Hs. unfold strong in Hs. by rewrite Hl in Hs. }
  rewrite E. cbn [mbind exec_bind result_bind].
  destruct (batch_issued _ _ _ (inv_issued _ _ _ _ _ Hinv1) (inv_rows _ _ _ _ _ Hinv1)) as (b & -> & Hb & Hall).
  set (s2 := set_workers _ _).
  assert (Hinv2 : system_inv new_v4 crashed l issued s2) by by apply set_worker_step.
  assert (Hw2 : s2.(workers) !! w = Some {| todo := b; acking := None; uploaded := 0 |}) by apply lookup_insert_eq.
  rewrite Hw2. cbn [todo].
  destruct (pump_loop_good b 0 f w (drop 64 s1.(spool).(rows)) 0 _ _ _ _ Hinv2 Hg Hw2) as (s3 & -> & Hinv3 & Hr3 & El3 & Ef3 & Hids).
  { cbn. by rewrite <- Hb, take_drop. }
  cbn [mbind result_bind]. eexists _, (stop_worker w s3). split; [reflexivity|]. split_and!.
  - by apply stop_step.
  - cbn. rewrite El3. done.
  - cbn. by rewrite Hr3, Er.
  - cbn. by rewrite Ef3.
  - intros id. rewrite (Hids id). unfold saved_id. cbn. by rewrite Er, Es.
Qed.

(** Rounds with time left in which nothing fails. *)
Definition round_good (round : drain_round) : Prop := round.(dr_expired) = false ∧ pump_good round.(dr_pump).

Lemma drain_good rounds w crashed l issued s :
  system_inv new_v4 crashed l issued s → s.(live) = ∅ → Forall round_good rounds →
  len s.(spool).(rows) ≤ 64 * len rounds →
  ∃ s', drain new_v4 rounds w s = Done (ensure_healthy s.(spool), s') ∧ system_inv new_v4 crashed l issued s' ∧
    s'.(spool).(rows) = [] ∧ s'.(live) = ∅ ∧ s'.(spool).(faulted) = s.(spool).(faulted) ∧
    ∀ id, saved_id s' id ↔ saved_id s id.
Proof.
  revert s. induction rounds as [|round rounds IH]; intros s Hinv Hl Hg Hlen; cbn [drain];
    unfold pending_count; destruct (Z.eqb_spec (len s.(spool).(rows)) 0) as [E|E].
  - exists s. split_and!; try done. apply length_zero_iff_nil. unfold len in E. lia.
  - unfold len in *. cbn in Hlen. lia.
  - exists s. split_and!; try done. apply length_zero_iff_nil. unfold len in E. lia.
  - inversion Hg as [|? ? [He Hp] Hg']; subst. rewrite He.
    destruct (pump_good_step round.(dr_pump) w _ _ _ _ Hinv Hp Hl) as (n & s1 & -> & Hinv1 & Hl1 & Hr1 & Hf1 & Hids1).
    cbn [mbind exec_bind]. destruct (IH s1 Hinv1 Hl1 Hg') as (s' & -> & Hinv' & Hr' & Hl' & Hf' & Hids').
    { rewrite Hr1. unfold len in *. rewrite length_drop. cbn in Hlen. lia. }
    exists s'. split_and!; try done.
    + unfold ensure_healthy. by rewrite Hf1.
    + congruence.
    + intros id. by rewrite Hids'.
Qed.

(** ** Conservation of traffic *)

(** C2. Metering never panics and never counts a byte twice, in any interleaving of
    connections, uploads, failed or repeated transactions and restarts: the events saved
    for a policy never exceed the bytes forwarded for it, and the usage of each day is
    what its recorded events add up to. As long as the spool is not faulted and the
    process did not restart, nothing is missing either: the bytes forwarded are exactly
    those held by the meters and those saved. The counter of active meters is right. *)
Theorem usage_conserved (ops : list usage_op) :
  forallb op_typed ops = true →
  ∃ s l, run_ops new_v4 ops system_empty = Done (s, l) ∧
    (∀ k p, total k p (saved s) ≤ traffic_of k p l) ∧
    (∀ k p day, usage s.(store).(tables) k p day = Ok (Z.min U64_MAX (day_usage s.(store).(tables) k p day))) ∧
    (existsb is_restart ops = false → s.(spool).(faulted) = false → ∀ k p, traffic_of k p l ≤ U64_MAX →
       traffic_of k p l = in_memory k p s + total k p (saved s)) ∧
    s.(spool).(active_meters) = map_count registered s.(live) mod 2 ^ 64.
Proof.
  intros Hty. destruct (run_steps ops _ _ _ _ empty_inv Hty) as (s & l & issued & E & Hinv & _). cbn in Hinv.
  exists s, l. split_and!; [done| | | |].
  - intros k p. by eapply saved_le.
  - apply (inv_store _ _ _ _ _ Hinv).
  - intros Hr Hf k p Hmax. rewrite Hr in Hinv. by eapply saved_exact.
  - apply (inv_active _ _ _ _ _ Hinv).
Qed.

(** C32. Draining finishes and loses nothing: once the connections are gone, rounds in
    which nothing fails empty the spool, 64 events per round, and every saved event is
    then recorded; without fault and restart the recorded events add up to the bytes
    forwarded. *)
Theorem drain_records_all (ops : list usage_op) (s : System) (l : traffic_log) (rounds : list drain_round) (w : Z) :
  forallb op_typed ops = true → run_ops new_v4 ops system_empty = Done (s, l) → s.(live) = ∅ →
  Forall round_good rounds → len s.(spool).(rows) ≤ 64 * len rounds →
  ∃ s', drain new_v4 rounds w s = Done (ensure_healthy s.(spool), s') ∧ s'.(spool).(rows) = [] ∧
    ledger s'.(store).(tables) = saved s ∧
    (existsb is_restart ops = false → s.(spool).(faulted) = false → ∀ k p, traffic_of k p l ≤ U64_MAX →
       total k p (ledger s'.(store).(tables)) = traffic_of k p l).
Proof.
  intros Hty E Hl Hg Hlen. destruct (run_steps ops _ _ _ _ empty_inv Hty) as (s0 & l0 & issued & E0 & Hinv & _).
  rewrite E in E0. injection E0 as <- <-. cbn in Hinv.
  destruct (drain_good rounds w _ _ _ _ Hinv Hl Hg Hlen) as (s' & Ed & Hinv' & Hr & Hl' & Hf & Hids).
  assert (Hs : ledger s'.(store).(tables) = saved s).
  { rewrite <- (saved_same _ _ _ _ _ _ _ Hinv Hinv' Hids). unfold saved. rewrite Hr. cbn. by rewrite (left_id_L ∅ (∪)). }
  exists s'. split_and!; try done. intros Hres Hfl k p Hmax. rewrite Hres in Hinv.
  rewrite Hs, (saved_exact _ _ _ k p Hinv Hfl Hmax). unfold in_memory. by rewrite Hl, map_sum_empty.
Qed.

(** A fault or the closing of the accounting is final: from then on, until a
    restart, connections forward nothing more, whatever else happens. *)
Theorem forwarding_stops (before after : list usage_op) (s : System) (l : traffic_log) :
  forallb op_typed (before ++ after) = true → run_ops new_v4 before system_empty = Done (s, l) →
  is_ok (ensure_open s.(spool)) = false →
  forallb (λ op, match op with OpRestart | OpAdd _ _ _ => false | _ => true end) after = true →
  ∃ s', run_ops new_v4 after s = Done (s', []) ∧ is_ok (ensure_open s'.(spool)) = false.
Proof.
  intros Hty E Hclosed Hops. rewrite forallb_app in Hty. bool_prop.
  destruct (run_steps before _ _ _ _ empty_inv) as (s0 & l0 & issued & E0 & Hinv & _); [done|].
  rewrite E in E0. injection E0 as <- <-. cbn in Hinv. clear E. rename H0 into Hta. clear H.
  revert Hinv Hclosed. generalize (existsb is_restart before) as crashed. revert l issued s.
  induction after as [|op after IH]; intros l issued s crashed Hinv Hclosed; cbn; [by exists s|].
  cbn in Hops, Hta. bool_prop. destruct (apply_step op _ _ _ _ Hinv) as (s1 & d & issued1 & E1 & Hinv1 & Hst); [done|].
  assert (Hnr : is_restart op = false) by by destruct op. specialize (Hst Hnr).
  assert (Hc1 : is_ok (ensure_open s1.(spool)) = false).
  { destruct Hst as [Hf Hc]. unfold ensure_open, ensure_forwarding, ensure_healthy in *.
    destruct (s.(spool).(faulted)); [by rewrite Hf|]. cbn in Hclosed. destruct (s.(spool).(closing)); [|done].
    rewrite Hc by done. by destruct (s1.(spool).(faulted)). }
  assert (Hd : d = []).
  { destruct op; try done; cbn [apply_op] in E1; unfold metered_poll, mbind, exec_bind in E1;
      [by injection E1|..|by injection E1]; repeat case_match; first [congruence|done]. }
  subst d. rewrite E1. cbn [mbind exec_bind]. destruct (IH ltac:(done) ltac:(done) _ _ _ _ Hinv1 Hc1) as (s' & -> & ?).
  exists s'. by split.
Qed.

End supply_lemmas.

(** ** Witnesses *)

Definition ex_uuid (n : nat) : Z := Z.of_nat n + 1.
Lemma ex_uuid_inj i j : ex_uuid i = ex_uuid j → i = j.
Proof. unfold ex_uuid. lia. Qed.
Lemma ex_uuid_nil n : ex_uuid n ≠ 0.
Proof. unfold ex_uuid. lia. Qed.

(** Two connections; an upload that took effect but was reported lost is repeated. *)
Definition ex_history : list usage_op :=
  [OpNew KindTcp 7; OpAdd (λ _, Committed) 0 70000; OpNew KindTcp 7; OpPoll (λ _, Committed) 1 (IoReady 30);
   OpBegin (λ _ _, Committed) 5; OpUpload UploadUnknown 5 100; OpPoll (λ _, Committed) 1 (IoReady 4);
   OpBegin (λ _ _, Committed) 6; OpUpload Uploaded 6 100; OpAck Committed 6].
Definition ex_gone : list usage_op := ex_history ++ [OpDrop (λ _, Committed) 1; OpDrop (λ _, Committed) 0].

Definition ex_state (ops : list usage_op) : System :=
  match run_ops ex_uuid ops system_empty with Done (s, _) => s | Panic => system_empty end.
Definition ex_log (ops : list usage_op) : traffic_log :=
  match run_ops ex_uuid ops system_empty with Done (_, l) => l | Panic => [] end.
Lemma ex_runs ops : is_ok (match run_ops ex_uuid ops system_empty with Done _ => Ok tt | Panic => Err tt end) = true →
  run_ops ex_uuid ops system_empty = Done (ex_state ops, ex_log ops).
Proof. unfold ex_state, ex_log. by destruct (run_ops ex_uuid ops system_empty) as [[s l]|]. Qed.

Lemma ex_ran ops s l : run_ops ex_uuid ops system_empty = Done (s, l) → s = ex_state ops ∧ l = ex_log ops.
Proof. unfold ex_state, ex_log. by intros ->. Qed.

Lemma usage_conserved_witness :
  traffic_of KindTcp 7 (ex_log ex_history) =
    in_memory KindTcp 7 (ex_state ex_history) + total KindTcp 7 (saved (ex_state ex_history)).
Proof.
  destruct (usage_conserved ex_uuid ex_uuid_inj ex_uuid_nil ex_history eq_refl) as (s & l & E & _ & _ & Hx & _).
  apply ex_ran in E as [-> ->].
  apply Hx; [vm_compute; reflexivity|vm_compute; reflexivity|vm_compute; discriminate].
Defined.

Definition ex_fates : pump_fates :=
  {| pf_flush := λ _ _, Committed; pf_upload := λ _, Uploaded; pf_ack := λ _, Committed; pf_now := λ _, 200 |}.

Lemma drain_records_all_witness :
  ∃ s', drain ex_uuid [{| dr_expired := false; dr_pump := ex_fates; dr_cut := false |}] 9 (ex_state ex_gone) = Done (Ok tt, s') ∧
    total KindTcp 7 (ledger s'.(store).(tables)) = traffic_of KindTcp 7 (ex_log ex_gone).
Proof.
  destruct (drain_records_all ex_uuid ex_uuid_inj ex_uuid_nil ex_gone (ex_state ex_gone) (ex_log ex_gone)
    [{| dr_expired := false; dr_pump := ex_fates; dr_cut := false |}] 9) as (s' & E & _ & _ & Hx).
  - vm_compute. reflexivity.
  - apply ex_runs. vm_compute. reflexivity.
  - vm_compute. reflexivity.
  - constructor; [|constructor]. split; [reflexivity|]. split; [reflexivity|split; reflexivity].
  - vm_compute. discriminate.
  - exists s'. split.
    + rewrite E. vm_compute. reflexivity.
    + apply Hx; [vm_compute; reflexivity|vm_compute; reflexivity|vm_compute; discriminate].
Defined.

Lemma forwarding_stops_witness :
  ∃ s', run_ops ex_uuid [OpPoll (λ _, Committed) 1 (IoReady 50); OpDrop (λ _, Committed) 1]
          (ex_state (ex_history ++ [OpClose])) = Done (s', []).
Proof.
  destruct (forwarding_stops ex_uuid ex_uuid_inj ex_uuid_nil (ex_history ++ [OpClose])
    [OpPoll (λ _, Committed) 1 (IoReady 50); OpDrop (λ _, Committed) 1]
    (ex_state (ex_history ++ [OpClose])) (ex_log (ex_history ++ [OpClose]))) as (s' & E & _).
  - vm_compute. reflexivity.
  - apply ex_runs. vm_compute. reflexivity.
  - vm_compute. reflexivity.
  - vm_compute. reflexivity.
  - exists s'. exact E.
Defined.
