(* ===== verification/TrafficAdmission.v ===== *)
(** * Admission of connections ([traffic_usage_meter.rs], [authorize_traffic])

    Before a connection is admitted the server saves what the running connections
    have counted, uploads the spool until it is empty and only then asks the traffic
    catalog. All the while the other connections go on forwarding bytes, and other
    workers upload: the function awaits in between. So the call is a process with a
    program counter ([phase]) that takes small steps, and a run is a list of turns in
    which the steps of the call and the operations of everybody else
    ([TrafficUsage.usage_op]) alternate in any way. What the environment answers to a
    step (the state of the server, the fate of a transaction or an upload, the clock,
    the ten seconds running out) comes with the turn. *)

From S2P Require Import Prelude RustStr NetAddr NetPrint HaTables Lifecycle HaRuntime TrafficControl TrafficUsage.

Local Open Scope Z_scope.
Set Default Proof Using "Type".

(** ** The call *)

(** The parts of [AppState] that admission reads. *)
Record AppView := { lifecycle : LifecycleState; ha_runtime : HaRuntime.HaRuntime }.

Definition accepts_public_work (state : AppView) : bool :=
  accepts_new_work state.(lifecycle) && is_leader state.(ha_runtime).

Inductive AdmissionError :=
  | UsageFailed (e : UsageError) | AdmissionClosed | AdmissionTimedOut | LeadershipChanged | NoLeadership | CatalogFailed.

(** Where the call is; after the first check it knows the fencing token it started with. *)
Inductive phase :=
  | PStart
  | PLock (token : Z)                       (* waits for the admission lock *)
  | PTake (token : Z)                       (* is about to list the running meters *)
  | PCheckpoint (token : Z) (ids : list Z)  (* saves the listed meters, one by one *)
  | PLoop (token : Z)                       (* looks whether events are pending *)
  | PPump (token : Z)                       (* [pump]: lists the running meters *)
  | PFlush (token : Z) (ids : list Z)       (* [pump]: saves them, then takes a batch *)
  | PSend (token : Z)                       (* [pump]: uploads the next event *)
  | PAck (token : Z)                        (* [pump]: acknowledges it *)
  | PReady (token : Z)
  | PDecide (token : Z)
  | PCheck (token : Z) (d : TrafficDecision)
  | PAnswer (r : result AdmissionError TrafficDecision).

(** What a step of the call meets. *)
Record choice := {
  ch_view : AppView;
  ch_commit : nat → commit_fate;
  ch_upload : upload_fate;
  ch_now : Z;
  ch_timeout : bool;
}.

(** The meters [checkpoint_active] is going to save. *)
Definition running_meters (s : System) : list Z := filter (λ id, strong s id = true) s.(spool).(meters).
Definition retain_running (s : System) : System :=
  set_spool s (set_registry s.(spool) (running_meters s) s.(spool).(active_meters)).

(** The phases inside [tokio::time::timeout]. *)
Definition timed (ph : phase) : bool :=
  match ph with PStart | PCheck _ _ | PAnswer _ => false | _ => true end.

Section process.
Context {J : JsonColumns}.
Context (new_v4 : nat → Z).
(** The call: its worker and its arguments. *)
Context (w : Z) (k : TrafficPolicyKind) (p : Z) (source : IpAddr).

Definition refuse (e : AdmissionError) (s : System) : exec (phase * System) := Done (PAnswer (Err e), s).

(** One step of [authorize_traffic]. *)
Definition authorize_traffic (c : choice) (ph : phase) (s : System) : exec (phase * System) :=
  if timed ph && c.(ch_timeout) then refuse AdmissionTimedOut (stop_worker w s)
  else
  match ph with
  | PStart =>
      match fencing_token c.(ch_view).(ha_runtime) with
      | Err _ => refuse NoLeadership s
      | Ok token => if accepts_public_work c.(ch_view) then Done (PLock token, s) else refuse AdmissionClosed s
      end
  | PLock token =>
      match ensure_forwarding s.(spool) with
      | Err e => refuse (UsageFailed e) s
      | Ok _ => Done (PTake token, s)
      end
  | PTake token => Done (PCheckpoint token (running_meters s), retain_running s)
  | PCheckpoint token [] => Done (PLoop token, s)
  | PCheckpoint token (id :: ids) =>
      '(r, s) ← meter_checkpoint new_v4 c.(ch_commit) id s;
      match r with Err e => refuse (UsageFailed e) s | Ok _ => Done (PCheckpoint token ids, s) end
  | PLoop token => if pending_count s.(spool) =? 0 then Done (PReady token, s) else Done (PPump token, s)
  | PPump token => Done (PFlush token (running_meters s), retain_running s)
  | PFlush token (id :: ids) =>
      '(r, s) ← meter_checkpoint new_v4 c.(ch_commit) id s;
      match r with Err e => refuse (UsageFailed e) s | Ok _ => Done (PFlush token ids, s) end
  | PFlush token [] =>
      match batch s.(spool) with
      | Err e => refuse (UsageFailed e) s
      | Ok b =>
          Done (PSend token, set_workers s (<[w := {| todo := b; acking := None; uploaded := 0 |}]> s.(workers)))
      end
  | PSend token =>
      match s.(workers) !! w with
      | Some {| todo := _ :: _ |} =>
          match pump_upload c.(ch_upload) w c.(ch_now) s with
          | (Err e, s) => refuse (UsageFailed e) s
          | (Ok _, s) => Done (PAck token, s)
          end
      | _ => Done (PLoop token, stop_worker w s)
      end
  | PAck token =>
      match pump_ack (c.(ch_commit) 0%nat) w s with
      | (Err e, s) => refuse (UsageFailed e) s
      | (Ok _, s) => Done (PSend token, s)
      end
  | PReady token =>
      match ensure_forwarding s.(spool) with
      | Err e => refuse (UsageFailed e) s
      | Ok _ => Done (PDecide token, s)
      end
  | PDecide token =>
      let '(d, catalog) := authorize s.(store) k p source c.(ch_now) in
      match d with
      | Err _ => refuse CatalogFailed (set_store s catalog)
      | Ok d => Done (PCheck token d, set_store s catalog)
      end
  | PCheck token d =>
      match ensure_forwarding s.(spool) with
      | Err e => refuse (UsageFailed e) s
      | Ok _ =>
          if accepts_public_work c.(ch_view) then
            match fencing_token c.(ch_view).(ha_runtime) with
            | Err _ => refuse NoLeadership s
            | Ok token' => if token' =? token then Done (PAnswer (Ok d), s) else refuse LeadershipChanged s
            end
          else refuse LeadershipChanged s
      end
  | PAnswer r => Done (PAnswer r, s)
  end.

(** ** Turns *)

Inductive turn := Mine (c : choice) | Theirs (op : usage_op).

Definition take_turn (t : turn) (ph : phase) (s : System) : exec (phase * System * traffic_log) :=
  match t with
  | Mine c => '(ph, s) ← authorize_traffic c ph s; Done (ph, s, [])
  | Theirs op => '(s, l) ← apply_op new_v4 op s; Done (ph, s, l)
  end.

Fixpoint run_turns (turns : list turn) (ph : phase) (s : System) : exec (phase * System * traffic_log) :=
  match turns with
  | [] => Done (ph, s, [])
  | t :: turns =>
      '(ph, s, l) ← take_turn t ph s;
      '(ph, s, l') ← run_turns turns ph s;
      Done (ph, s, l ++ l')
  end.

(** The others forward amounts of bytes and do not restart the process. *)
Definition turn_ok (t : turn) : bool :=
  match t with Mine _ => true | Theirs op => op_typed op && negb (is_restart op) end.
End process.

(** ** Bytes in memory since a moment *)

(** What the meters of a policy hold beyond [base]. *)
Definition beyond (k : TrafficPolicyKind) (p : Z) (base : Z → Z) (id : Z) (m : TrafficUsageMeter) : Z :=
  if bool_decide ((m.(kind), m.(policy_id)) = (k, p)) then Z.max 0 (m.(pending).(bytes) - base id) else 0.
Definition excess (k : TrafficPolicyKind) (p : Z) (base : Z → Z) (s : System) : Z :=
  map_sum (beyond k p base) s.(live).

Lemma beyond_nonneg k p base id m : 0 ≤ beyond k p base id m.
Proof. unfold beyond. case_bool_decide; lia. Qed.

(** Every meter of [s'] is empty or holds no more than in [s]. *)
Definition shrunk (s s' : System) : Prop :=
  ∀ id m', s'.(live) !! id = Some m' →
    m'.(pending).(bytes) ≤ 0 ∨
    ∃ m, s.(live) !! id = Some m ∧ same_meter m m' ∧ m'.(pending).(bytes) ≤ m.(pending).(bytes).

Lemma map_sum_shrunk {A} (f : Z → A → Z) (m m' : gmap Z A) :
  (∀ i x, 0 ≤ f i x) →
  (∀ i x', m' !! i = Some x' → f i x' ≤ 0 ∨ ∃ x, m !! i = Some x ∧ f i x' ≤ f i x) →
  map_sum f m' ≤ map_sum f m.
Proof.
  intros Hf. revert m. induction m' as [|i x' m' Hi IH] using map_ind; intros m Hm.
  { rewrite map_sum_empty. apply map_sum_nonneg. intros. apply Hf. }
  rewrite map_sum_insert by done.
  destruct (Hm i x' (lookup_insert_eq _ _ _)) as [Hx|(x & Hx & Hle)].
  - enough (map_sum f m' ≤ map_sum f m) by lia. apply IH. intros j y Hj. apply Hm.
    rewrite lookup_insert_ne; [done|]. congruence.
  - rewrite (map_sum_delete f m i x Hx). enough (map_sum f m' ≤ map_sum f (delete i m)) by lia.
    apply IH. intros j y Hj. assert (i ≠ j) as Hne by congruence.
    destruct (Hm j y) as [?|(z & Hz & ?)]; [by rewrite lookup_insert_ne|by left|].
    right. exists z. by rewrite lookup_delete_ne.
Qed.

Lemma excess_shrunk k p base s s' :
  (∀ id, 0 ≤ base id) → shrunk s s' → excess k p base s' ≤ excess k p base s.
Proof.
  intros Hb Hs. apply map_sum_shrunk; [intros; apply beyond_nonneg|]. intros id m' Hm'.
  destruct (Hs id m' Hm') as [E|(m & Hm & (Ek & Ep & _) & Hle)]; [left|right; exists m; split; [done|]]; unfold beyond.
  - specialize (Hb id). case_bool_decide; lia.
  - rewrite Ek, Ep. case_bool_decide; lia.
Qed.

Lemma shrunk_refl s s' : s'.(live) = s.(live) → shrunk s s'.
Proof. intros E id m. rewrite E. intros Hm. right. exists m. by split_and!. Qed.

Lemma shrunk_trans s1 s2 s3 : shrunk s1 s2 → shrunk s2 s3 → shrunk s1 s3.
Proof.
  intros H1 H2 id m3 Hm3. destruct (H2 id m3 Hm3) as [?|(m2 & Hm2 & (?&?&?) & ?)]; [by left|].
  destruct (H1 id m2 Hm2) as [E|(m1 & Hm1 & (?&?&?) & ?)].
  - left. lia.
  - right. exists m1. split; [done|]. split; [unfold same_meter; split_and!; congruence|lia].
Qed.

(** A flush only takes bytes away. *)
Definition meter_counts (m : TrafficUsageMeter) : Prop :=
  0 ≤ m.(pending).(bytes) ∧ ∀ e, m.(pending).(staged) = Some e → 0 ≤ e.(event_bytes).

Lemma flush_loop_shrinks new_v4 fuel fate n m sp r m' sp' n' :
  meter_counts m → flush_loop new_v4 fuel fate n m sp = Done (r, m', sp', n') →
  same_meter m m' ∧ m'.(pending).(bytes) ≤ m.(pending).(bytes).
Proof.
  revert fate n m sp. induction fuel as [|fuel IH]; intros fate n m sp [Hb Hs] H; cbn [flush_loop] in H; [done|].
  destruct (m.(pending).(staged)) as [e|] eqn:Es; [|destruct (Z.eqb_spec m.(pending).(bytes) 0)].
  - destruct (enqueue _ e sp) as [[u|err] sp1]; [|injection H as _ <- _ _; cbn; split; [done|lia]].
    specialize (Hs e eq_refl). apply IH in H as [(?&?&?) Hle]; [|split; cbn; [unfold saturating_sub; lia|done]].
    split; [done|]. cbn in Hle. unfold saturating_sub in Hle. lia.
  - injection H as _ <- _ _. split; [done|lia].
  - destruct (enqueue _ _ sp) as [[u|err] sp1]; [|injection H as _ <- _ _; cbn; split; [done|lia]].
    apply IH in H as [(?&?&?) Hle]; [|split; cbn; [unfold saturating_sub; lia|done]].
    split; [done|]. cbn in Hle. unfold saturating_sub in Hle. lia.
Qed.

Lemma meter_ok_counts new_v4 n issued b m : issued_ok new_v4 n issued → meter_ok issued b m → meter_counts m.
Proof.
  intros Hi [Hb Hs]. split; [lia|]. intros e E. destruct (Hs e E) as (_ & He & _). destruct (Hi _ _ He) as (_ & _ & ? & _). lia.
Qed.

Definition counting (s : System) : Prop := ∀ id m, s.(live) !! id = Some m → meter_counts m.
Lemma inv_counting new_v4 crashed l issued s : system_inv new_v4 crashed l issued s → counting s.
Proof.
  intros Hinv id m Hm. destruct (inv_meters _ _ _ _ _ Hinv id m Hm) as (Hok & _).
  eapply meter_ok_counts; [by apply Hinv|done].
Qed.

Lemma insert_shrunk s id m m' sp n :
  s.(live) !! id = Some m → same_meter m m' → m'.(pending).(bytes) ≤ m.(pending).(bytes) →
  shrunk s (set_meter s id m' sp n).
Proof.
  intros Hm Hsame Hle j x. cbn. intros [[<- <-]|[_ Hx]]%lookup_insert_Some; right; [by exists m|]. exists x. by split_and!.
Qed.

Lemma checkpoint_shrunk new_v4 fate id s r s' :
  counting s → meter_checkpoint new_v4 fate id s = Done (r, s') → shrunk s s'.
Proof.
  intros Hc. unfold meter_checkpoint, checkpoint, flush_locked. destruct (s.(live) !! id) as [m|] eqn:Hm.
  - destruct (flush_loop _ _ _ _ m _) as [[[[r1 m'] sp'] n']|] eqn:E; [|done]. cbn [mbind exec_bind].
    intros [= <- <-]. apply flush_loop_shrinks in E as [? ?]; [|by eapply Hc]. by eapply insert_shrunk.
  - intros [= <- <-]. by apply shrunk_refl.
Qed.

(** ** What a step of anybody may do to the meters and the catalog *)

Abbreviation recorded s := (traffic_usage_events (tables (store s))).

Record progress (s s' : System) (d : traffic_log) : Prop := {
  pg_excess : ∀ k p base, (∀ id, 0 ≤ base id) → excess k p base s' ≤ excess k p base s + traffic_of k p d;
  pg_next : s.(next_meter) ≤ s'.(next_meter);
  pg_ids : ∀ id, is_Some (s'.(live) !! id) → is_Some (s.(live) !! id) ∨ s.(next_meter) ≤ id;
  pg_recorded : recorded s ⊆ recorded s';
  pg_traffic : ∀ k p, 0 ≤ traffic_of k p d;
}.

Lemma progress_quiet s s' :
  shrunk s s' → s'.(next_meter) = s.(next_meter) → (∀ id, is_Some (s'.(live) !! id) → is_Some (s.(live) !! id)) →
  recorded s ⊆ recorded s' → progress s s' [].
Proof.
  intros Hs Hn Hi Hr. split; [|lia|by auto|done|done]. intros k p base Hb. pose proof (excess_shrunk k p base s s' Hb Hs).
  cbn. lia.
Qed.

Lemma progress_live s s' :
  s'.(live) = s.(live) → s'.(next_meter) = s.(next_meter) → recorded s ⊆ recorded s' → progress s s' [].
Proof. intros El En Hr. apply progress_quiet; [by apply shrunk_refl|done|by rewrite El|done]. Qed.

Lemma progress_trans s1 s2 s3 d1 d2 : progress s1 s2 d1 → progress s2 s3 d2 → progress s1 s3 (d1 ++ d2).
Proof.
  intros [X1 N1 I1 R1 T1] [X2 N2 I2 R2 T2]. split.
  - intros k p base Hb. rewrite traffic_of_app. specialize (X1 k p base Hb). specialize (X2 k p base Hb). lia.
  - lia.
  - intros id Hid. destruct (I2 id Hid) as [H|H]; [|right; lia]. by apply I1.
  - by etrans.
  - intros k p. rewrite traffic_of_app. specialize (T1 k p). specialize (T2 k p). lia.
Qed.

Lemma checkpoint_progress new_v4 fate id s r s' :
  counting s → meter_checkpoint new_v4 fate id s = Done (r, s') → progress s s' [].
Proof.
  intros Hc H. pose proof (checkpoint_shrunk new_v4 fate id s r s' Hc H) as Hs. revert H.
  unfold meter_checkpoint, checkpoint, flush_locked. destruct (s.(live) !! id) as [m|] eqn:Hm.
  - destruct (flush_loop _ _ _ _ m _) as [[[[r1 m'] sp'] n']|]; [|done]. cbn [mbind exec_bind].
    intros [= <- <-]. apply progress_quiet; [done|done| |done]. intros j. cbn.
    destruct (decide (j = id)) as [->|]; [by rewrite Hm|by rewrite lookup_insert_ne].
  - intros [= <- <-]. by apply progress_live.
Qed.

Lemma record_usage_grows t e now t' :
  record_usage_event t e now = Ok t' → t.(traffic_usage_events) ⊆ t'.(traffic_usage_events).
Proof.
  unfold record_usage_event. destruct (check _ _); [|done]. cbn [mbind result_bind].
  destruct (t.(traffic_usage_events) !! e.(event_id)) as [row|] eqn:E; cbn [is_some negb]; intros H.
  - rewrite E in H. cbn [ok_or mbind result_bind] in H.
    match type of H with context [check ?b ?x] => destruct (check b x); [|done] end. by injection H as <-.
  - rewrite lookup_insert_eq in H. cbn [ok_or mbind result_bind] in H.
    match type of H with context [check ?b ?x] => destruct (check b x); [|done] end. cbn [mbind result_bind] in H.
    match type of H with context [usage ?a ?b ?c ?d] => destruct (usage a b c d); [|done] end. injection H as <-. by apply insert_subseteq.
Qed.

Lemma upload_progress fate w now s : progress s (pump_upload fate w now s).2 [].
Proof.
  unfold pump_upload. destruct (s.(workers) !! w) as [[[|e rest] [a|] n]|]; try by apply progress_live.
  destruct (record_usage_event s.(store).(tables) e now) as [t|] eqn:E; destruct fate; try by apply progress_live.
  all: apply record_usage_grows in E; by apply progress_live.
Qed.

Lemma ack_progress fate w s : progress s (pump_ack fate w s).2 [].
Proof.
  unfold pump_ack. destruct (s.(workers) !! w) as [[rest [e|] n]|]; try by apply progress_live.
  destruct fate; by apply progress_live.
Qed.

Lemma authorize_tables `{!JsonColumns} c k p source now : (authorize c k p source now).2.(tables) = c.(tables).
Proof. unfold authorize. repeat case_match; done. Qed.

Section supply_progress.
Context (new_v4 : nat → Z) (Hinj : ∀ i j, new_v4 i = new_v4 j → i = j) (Hnil : ∀ n, new_v4 n ≠ 0).
Set Default Proof Using "All".

Lemma checkpoint_all_progress fate ids crashed l issued s r s' :
  system_inv new_v4 crashed l issued s → checkpoint_all new_v4 fate ids s = Done (r, s') → progress s s' [].
Proof.
  revert issued s. induction ids as [|id ids IH]; intros issued s Hinv; cbn [checkpoint_all].
  { intros [= <- <-]. by apply progress_live. }
  destruct (checkpoint_step new_v4 Hinj Hnil (fate id) _ _ _ _ id Hinv) as (r1 & s1 & issued1 & E & Hinv1 & _).
  rewrite E. cbn [mbind exec_bind].
  pose proof (checkpoint_progress new_v4 _ _ _ _ _ (inv_counting _ _ _ _ _ Hinv) E) as H1.
  destruct r1 as [u|err]; [|by intros [= <- <-]]. intros H. apply (IH issued1) in H; [|done].
  exact (progress_trans _ _ _ _ _ H1 H).
Qed.

Lemma retain_inv crashed l issued s :
  system_inv new_v4 crashed l issued s → system_inv new_v4 crashed l issued (retain_running s).
Proof. intros Hinv. apply registry_step; try done. intros id Hin Hs. by apply list_elem_of_filter. Qed.

Lemma checkpoint_active_progress fate crashed l issued s r s' :
  system_inv new_v4 crashed l issued s → checkpoint_active new_v4 fate s = Done (r, s') → progress s s' [].
Proof.
  intros Hinv H. assert (progress s (retain_running s) []) as H1 by by apply progress_live.
  unfold checkpoint_active in H. eapply checkpoint_all_progress in H; [|by apply retain_inv].
  exact (progress_trans _ _ _ _ _ H1 H).
Qed.

(** A meter that counted. *)
Lemma add_progress fate id amount crashed l issued s r s' :
  system_inv new_v4 crashed l issued s → 0 ≤ amount → meter_add new_v4 fate id amount s = Done (r, s') →
  progress s s' (forwarded s id amount).
Proof.
  intros Hinv Ha. unfold meter_add, forwarded. destruct (s.(live) !! id) as [m|] eqn:Hm.
  2:{ intros [= <- <-]. by apply progress_live. }
  destruct (inv_counting _ _ _ _ _ Hinv id m Hm) as [Hb Hs].
  unfold add. cbn zeta. set (m1 := set_pending m _ _).
  assert (Hm1 : meter_counts m1) by (split; cbn; [unfold saturating_add; lia|done]).
  assert (Hgoal : ∀ m' sp n, same_meter m1 m' → m'.(pending).(bytes) ≤ m1.(pending).(bytes) →
    progress s (set_meter s id m' sp n) [(m.(kind), m.(policy_id), amount)]).
  { intros m' sp n (Ek & Ep & _) Hle. split; cbn; [|lia| |done|].
    - intros k p base Hbase. unfold excess. cbn. rewrite (map_sum_replace _ _ _ _ m' Hm).
      unfold traffic_of, beyond. cbn. rewrite Ek, Ep. cbn. cbn in Hle. unfold saturating_add in Hle.
      case_bool_decide; lia.
    - intros j. destruct (decide (j = id)) as [->|]; [rewrite Hm; by left|rewrite lookup_insert_ne by done; by left].
    - intros k p. unfold traffic_of. cbn. case_bool_decide; lia. }
  destruct (CHECKPOINT_BYTES <=? _).
  - unfold flush_locked. destruct (flush_loop _ _ _ _ m1 _) as [[[[r1 m'] sp'] n']|] eqn:E; [|done].
    cbn [mbind exec_bind]. intros [= <- <-]. apply flush_loop_shrinks in E as [? ?]; [|done]. by apply Hgoal.
  - cbn [mbind exec_bind]. intros [= <- <-]. by apply Hgoal.
Qed.

Lemma new_progress k p s : s.(live) !! s.(next_meter) = None → progress s (meter_new k p s) [].
Proof.
  intros Hn. unfold meter_new. destruct (register_meter _ _ _) as [ok sp].
  split; cbn; [|lia| |done|done].
  - intros k' p' base Hb. unfold excess. cbn. rewrite map_sum_insert by done. unfold beyond at 1. cbn.
    specialize (Hb s.(next_meter)). case_bool_decide; lia.
  - intros id. destruct (decide (id = s.(next_meter))) as [->|]; [right; lia|rewrite lookup_insert_ne by done; by left].
Qed.

Lemma drop_progress fate id crashed l issued s s' :
  system_inv new_v4 crashed l issued s → meter_drop new_v4 fate id s = Done s' → progress s s' [].
Proof.
  intros Hinv. unfold meter_drop. destruct (s.(live) !! id) as [m|] eqn:Hm; [|intros [= <-]; by apply progress_live].
  destruct (checkpoint _ _ _ m _) as [[[[r m'] sp'] n']|]; [|done]. cbn [mbind exec_bind]. intros [= <-].
  apply progress_quiet; cbn; [|done| |done].
  - intros j x. cbn. intros [Hne Hx]%lookup_delete_Some. right. exists x. by split_and!.
  - intros j. destruct (decide (j = id)) as [->|]; [rewrite lookup_delete_eq; by intros []|by rewrite lookup_delete_ne].
Qed.

Lemma apply_progress op crashed l issued s s' d :
  system_inv new_v4 crashed l issued s → op_typed op = true → is_restart op = false →
  apply_op new_v4 op s = Done (s', d) → progress s s' d.
Proof.
  intros Hinv Hty Hnr. destruct op; cbn [apply_op]; try done; intros H.
  - injection H as <- <-. apply new_progress. destruct (s.(live) !! s.(next_meter)) as [m|] eqn:E; [|done].
    destruct (inv_meters _ _ _ _ _ Hinv _ _ E) as (_ & ? & _). lia.
  - destruct (meter_add _ _ _ _ _) as [[r s1]|] eqn:E; [|done]. cbn in H. injection H as <- <-. cbn in Hty. bool_prop.
    eapply add_progress; [done| |done]. lia.
  - unfold metered_poll in H. destruct (ensure_open s.(spool)); [|injection H as <- <-; by apply progress_live].
    destruct inner as [|amount|]; [injection H as <- <-; by apply progress_live| |injection H as <- <-; by apply progress_live].
    destruct (meter_add _ _ _ _ _) as [[r s1]|] eqn:E; [|done]. cbn in H. injection H as <- <-. cbn in Hty. bool_prop.
    eapply add_progress; [done| |done]. lia.
  - destruct (meter_checkpoint _ _ _ _) as [[r s1]|] eqn:E; [|done]. cbn in H. injection H as <- <-.
    eapply checkpoint_progress; [by eapply inv_counting|done].
  - destruct (meter_drop _ _ _ _) as [s1|] eqn:E; [|done]. cbn in H. injection H as <- <-. by eapply drop_progress.
  - injection H as <- <-. by apply progress_live.
  - destruct (checkpoint_active _ _ _) as [[r s1]|] eqn:E; [|done]. cbn in H. injection H as <- <-.
    by eapply checkpoint_active_progress.
  - unfold pump_begin in H. destruct (checkpoint_active _ _ _) as [[r s1]|] eqn:E; [|done]. cbn in H.
    pose proof (checkpoint_active_progress _ _ _ _ _ _ _ Hinv E) as H1. destruct r as [u|e]; cbn in H; [|by injection H as <- <-].
    destruct (batch s1.(spool)); cbn in H; injection H as <- <-; [|done].
    eapply (progress_trans _ _ _ [] []); [exact H1|by apply progress_live].
  - injection H as <- <-. apply upload_progress.
  - injection H as <- <-. apply ack_progress.
  - injection H as <- <-. by apply progress_live.
  - injection H as <- <-. by apply progress_live.
Qed.

(** ** One turn *)

Lemma own_step `{!JsonColumns} w k p source c ph crashed l issued s :
  system_inv new_v4 crashed l issued s →
  ∃ ph' s' issued', authorize_traffic new_v4 w k p source c ph s = Done (ph', s') ∧
    system_inv new_v4 crashed l issued' s' ∧ sticky s s' ∧ progress s s' [].
Proof.
  intros Hinv.
  assert (Hdone : ∀ (ph' : phase) s' issued', system_inv new_v4 crashed l issued' s' → sticky s s' → progress s s' [] →
    ∃ ph1 s1 issued1, Done (ph', s') = Done (ph1, s1) ∧
      system_inv new_v4 crashed l issued1 s1 ∧ sticky s s1 ∧ progress s s1 []).
  { intros ph' s' issued' ? ? ?. by exists ph', s', issued'. }
  assert (Hsame : ∀ ph' : phase, ∃ ph1 s1 issued1, Done (ph', s) = Done (ph1, s1) ∧
      system_inv new_v4 crashed l issued1 s1 ∧ sticky s s1 ∧ progress s s1 []).
  { intros ph'. apply (Hdone _ _ issued); [done|done|by apply progress_live]. }
  assert (Hcheck : ∀ id next, ∃ ph1 s1 issued1,
    ('(r, s) ← meter_checkpoint new_v4 c.(ch_commit) id s;
     match r with Err e => refuse (UsageFailed e) s | Ok _ => Done (next, s) end) = Done (ph1, s1) ∧
    system_inv new_v4 crashed l issued1 s1 ∧ sticky s s1 ∧ progress s s1 []).
  { intros id next. destruct (checkpoint_step new_v4 Hinj Hnil c.(ch_commit) _ _ _ _ id Hinv)
      as (r & s1 & issued1 & E & Hinv1 & Hres & _ & _ & Hc & _).
    pose proof (checkpoint_progress _ _ _ _ _ _ (inv_counting _ _ _ _ _ Hinv) E) as Hp.
    assert (sticky s s1) by (split; [intros Hf; by destruct Hres as [(_ & -> & _)|[_ ->]]|by rewrite Hc]).
    rewrite E. cbn [mbind exec_bind]. destruct r; by apply (Hdone _ s1 issued1). }
  unfold authorize_traffic. destruct (timed ph && _).
  { apply (Hdone _ _ issued); [by apply stop_step|done|by apply progress_live]. }
  destruct ph as [|token|token|token [|id ids]|token|token|token [|id ids]|token|token|token|token|token d|r]; try apply Hsame.
  - destruct (fencing_token _); [|apply Hsame]. destruct (accepts_public_work _); apply Hsame.
  - destruct (ensure_forwarding _); apply Hsame.
  - apply (Hdone _ _ issued); [by apply retain_inv|done|by apply progress_live].
  - apply Hcheck.
  - destruct (_ =? _); apply Hsame.
  - apply (Hdone _ _ issued); [by apply retain_inv|done|by apply progress_live].
  - destruct (batch_issued new_v4 Hinj Hnil _ _ _ (inv_issued _ _ _ _ _ Hinv) (inv_rows _ _ _ _ _ Hinv)) as (b & -> & _ & Hb).
    apply (Hdone _ _ issued); [by apply set_worker_step|done|by apply progress_live].
  - apply Hcheck.
  - pose proof (upload_step new_v4 Hinj Hnil c.(ch_upload) w c.(ch_now) _ _ _ _ Hinv) as Hu.
    pose proof (upload_sticky new_v4 Hinj Hnil c.(ch_upload) w c.(ch_now) s) as Hus.
    pose proof (upload_progress c.(ch_upload) w c.(ch_now) s) as Hup.
    destruct (s.(workers) !! w) as [[[|e rest] a u]|];
      try (apply (Hdone _ _ issued); [by apply stop_step|done|by apply progress_live]).
    destruct (pump_upload _ _ _ s) as [[v|err] s1]; by apply (Hdone _ s1 issued).
  - pose proof (ack_step new_v4 Hinj Hnil (c.(ch_commit) 0%nat) w _ _ _ _ Hinv) as Hu.
    pose proof (ack_sticky new_v4 Hinj Hnil (c.(ch_commit) 0%nat) w s) as Hus.
    pose proof (ack_progress (c.(ch_commit) 0%nat) w s) as Hup.
    destruct (pump_ack _ _ s) as [[v|err] s1]; by apply (Hdone _ s1 issued).
  - destruct (ensure_forwarding _); apply Hsame.
  - pose proof (authorize_tables s.(store) k p source c.(ch_now)) as Ht.
    destruct (authorize s.(store) k p source c.(ch_now)) as [r cat]. cbn in Ht.
    assert (system_inv new_v4 crashed l issued (set_store s cat)) as Hs.
    { apply store_step; try done; rewrite Ht; [apply Hinv|done]. }
    destruct r; (apply (Hdone _ _ issued); [done|done|apply progress_live; try done]); cbn; by rewrite Ht.
  - destruct (ensure_forwarding _); [|apply Hsame]. destruct (accepts_public_work _); [|apply Hsame].
    destruct (fencing_token _); [|apply Hsame]. destruct (_ =? _); apply Hsame.
Qed.

Lemma turn_step `{!JsonColumns} w k p source t ph crashed l issued s :
  system_inv new_v4 crashed l issued s → turn_ok t = true →
  ∃ ph' s' d issued', take_turn new_v4 w k p source t ph s = Done (ph', s', d) ∧
    system_inv new_v4 crashed (l ++ d) issued' s' ∧ sticky s s' ∧ progress s s' d.
Proof.
  intros Hinv Hok. destruct t as [c|op]; cbn [take_turn turn_ok] in *.
  - destruct (own_step w k p source c ph _ _ _ _ Hinv) as (ph' & s' & issued' & -> & ? & ? & ?).
    exists ph', s', [], issued'. by rewrite app_nil_r.
  - bool_prop. destruct (apply_step new_v4 Hinj Hnil op _ _ _ _ Hinv) as (s' & d & issued' & E & Hinv' & Hst); [done|].
    rewrite E. exists ph, s', d, issued'. match goal with H : is_restart op = false |- _ => rewrite H, orb_false_r in Hinv' end.
    split_and!; [done|done|by apply Hst|by eapply apply_progress].
Qed.
End supply_progress.

(** ** The bytes forwarded before a moment *)

(** [la] is the traffic up to the moment the call listed the meters, [base] what they
    held then and have not been seen to save since, [ids] the meters still to save. *)
Record tracked (la : traffic_log) (base : Z → Z) (ids : list Z) (l : traffic_log) (s : System) : Prop := {
  tk_base : ∀ id, 0 ≤ base id;
  tk_known : ∀ id, base id ≠ 0 → id < s.(next_meter);
  tk_excess : ∀ k p, traffic_of k p la + excess k p base s ≤ traffic_of k p l;
  tk_ids : ∀ id, is_Some (s.(live) !! id) → base id ≠ 0 → id ∈ ids ∨ s.(spool).(closing) = true;
}.

Lemma tracked_step la base ids l s s' d :
  tracked la base ids l s → progress s s' d → sticky s s' → tracked la base ids (l ++ d) s'.
Proof.
  intros [Hb Hk Hx Hi] [Px Pn Pi _ _] [_ Hc]. split.
  - done.
  - intros id Hid. specialize (Hk id Hid). lia.
  - intros k p. rewrite traffic_of_app. specialize (Hx k p). specialize (Px k p base Hb). lia.
  - intros id Hl Hid. destruct (Pi id Hl) as [Hl'|Hge]; [|specialize (Hk id Hid); lia].
    destruct (Hi id Hl' Hid); [by left|right; auto].
Qed.

(** What the meters hold now. *)
Definition held_bytes (s : System) (id : Z) : Z :=
  match s.(live) !! id with Some m => m.(pending).(bytes) | None => 0 end.

Lemma tracked_start new_v4 crashed l issued s :
  system_inv new_v4 crashed l issued s → tracked l (held_bytes s) (running_meters s) l (retain_running s).
Proof.
  intros Hinv. split; cbn.
  - intros id. unfold held_bytes. destruct (s.(live) !! id) as [m|] eqn:E; [|done].
    destruct (inv_counting _ _ _ _ _ Hinv id m E). lia.
  - intros id. unfold held_bytes. destruct (s.(live) !! id) as [m|] eqn:E; [|done].
    by destruct (inv_meters _ _ _ _ _ Hinv id m E) as (_ & ? & _).
  - intros k p. enough (excess k p (held_bytes s) (retain_running s) ≤ 0) by lia.
    unfold excess. cbn. etrans; [apply (map_sum_shrunk _ ∅)|by rewrite map_sum_empty].
    + intros. apply beyond_nonneg.
    + intros id m Hm. left. unfold beyond, held_bytes. rewrite Hm. case_bool_decide; lia.
  - intros id [m Hm] _. destruct (inv_meters _ _ _ _ _ Hinv id m Hm) as (_ & _ & Hr & Hcl).
    destruct (m.(registered)); [left|right; by apply Hcl].
    apply list_elem_of_filter. split; [unfold strong; by rewrite Hm|by apply Hr].
Qed.

(** A meter was saved: nothing of before is left in it. *)
Lemma tracked_saved la base id ids l s :
  tracked la base (id :: ids) l s → (∀ m, s.(live) !! id = Some m → m.(pending).(bytes) = 0) →
  tracked la (λ j, if decide (j = id) then 0 else base j) ids l s.
Proof.
  intros [Hb Hk Hx Hi] Hz. split.
  - intros j. by case_decide.
  - intros j. case_decide; [done|]. apply Hk.
  - intros k p. specialize (Hx k p). enough (excess k p (λ j, if decide (j = id) then 0 else base j) s ≤ excess k p base s) by lia.
    apply map_sum_le. intros j m Hm. unfold beyond. specialize (Hb j). destruct (decide (j = id)) as [->|]; [|done].
    rewrite (Hz m Hm). case_bool_decide; lia.
  - intros j Hl. case_decide as Hj; [done|]. intros Hn. destruct (Hi j Hl Hn) as [Hin|?]; [|by right].
    left. apply elem_of_cons in Hin as [?|?]; done.
Qed.

(** With every meter saved and the spool empty, the catalog has all of it. *)
Lemma tracked_recorded new_v4 (Hinj : ∀ i j, new_v4 i = new_v4 j → i = j) (Hnil : ∀ n, new_v4 n ≠ 0) la base l issued s :
  system_inv new_v4 false l issued s → tracked la base [] l s → s.(spool).(rows) = [] →
  s.(spool).(faulted) = false → s.(spool).(closing) = false →
  ∀ k p, traffic_of k p l ≤ U64_MAX → traffic_of k p la ≤ total k p (ledger s.(store).(tables)).
Proof.
  intros Hinv [Hb Hk Hx Hi] Hr Hf Hc k p Hmax. specialize (Hx k p).
  rewrite (saved_exact new_v4 Hinj Hnil _ _ _ k p Hinv Hf Hmax) in Hx. unfold saved in Hx. rewrite Hr in Hx. cbn in Hx.
  rewrite (left_id_L ∅ (∪)) in Hx. enough (in_memory k p s ≤ excess k p base s) by lia.
  apply map_sum_le. intros id m Hm. unfold metered, beyond.
  assert (base id = 0) as ->; [|case_bool_decide; lia].
  destruct (decide (base id = 0)) as [|Hn]; [done|]. destruct (Hi id ltac:(by eexists) Hn) as [Hin|?]; [|congruence].
  by apply not_elem_of_nil in Hin.
Qed.

(** The catalog never loses an event. *)
Lemma ledger_grows s s' k p :
  recorded s ⊆ recorded s' → total k p (ledger s.(store).(tables)) ≤ total k p (ledger s'.(store).(tables)).
Proof.
  intros Hr. apply map_sum_subseteq; [|intros; apply row_bytes_nonneg].
  apply map_subseteq_spec. intros id row (r & Hrow & ->)%ledger_lookup. apply ledger_lookup. exists r.
  split; [by eapply lookup_weaken|done].
Qed.

Lemma ledger_le new_v4 (Hinj : ∀ i j, new_v4 i = new_v4 j → i = j) (Hnil : ∀ n, new_v4 n ≠ 0) crashed l issued s k p :
  system_inv new_v4 crashed l issued s → total k p (ledger s.(store).(tables)) ≤ traffic_of k p l.
Proof.
  intros Hinv. pose proof (inv_sum _ _ _ _ _ Hinv k p).
  assert (total k p (ledger s.(store).(tables)) ≤ total k p (row_of <$> issued)).
  { apply map_sum_subseteq; [apply (inv_store _ _ _ _ _ Hinv)|]. intros. apply row_bytes_nonneg. }
  rewrite (total_issued new_v4 Hinj Hnil _ _ _ _ k p Hinv) in *.
  assert (0 ≤ map_sum (λ _, net k p) s.(live)); [|lia].
  apply map_sum_nonneg. intros id m Hm. destruct (inv_meters _ _ _ _ _ Hinv _ _ Hm) as (? & _). by eapply net_nonneg.
Qed.

(** ** The history of a call *)

Section history.
Context {J : JsonColumns}.
Context (new_v4 : nat → Z) (Hinj : ∀ i j, new_v4 i = new_v4 j → i = j) (Hnil : ∀ n, new_v4 n ≠ 0).
Context (w : Z) (k : TrafficPolicyKind) (p : Z) (source : IpAddr).
(** The state in which the call starts, and the traffic before it. *)
Context (s0 : System) (l0 : traffic_log).

Abbreviation run turns := (run_turns new_v4 w k p source turns PStart s0).

(** In one of these turns the call saw that the server leads, under this token. *)
Definition saw_leader (turns : list turn) (token : Z) : Prop :=
  ∃ c, Mine c ∈ turns ∧ fencing_token c.(ch_view).(ha_runtime) = Ok token ∧ accepts_public_work c.(ch_view) = true.

(** After [before] the call listed the meters, after [mid] it asked the catalog: what had
    been forwarded by the first moment is recorded at the second. *)
Definition decided_on (turns : list turn) (d : TrafficDecision) : Prop :=
  ∃ before c1 mid c2 after token sa da sd dd,
    turns = before ++ Mine c1 :: mid ++ Mine c2 :: after ∧
    run before = Done (PTake token, sa, da) ∧ run (before ++ Mine c1 :: mid) = Done (PDecide token, sd, dd) ∧
    (authorize sd.(store) k p source c2.(ch_now)).1 = Ok d ∧
    (∀ k' p', traffic_of k' p' (l0 ++ dd) ≤ U64_MAX →
       traffic_of k' p' (l0 ++ da) ≤ total k' p' (ledger sd.(store).(tables))) ∧
    (∀ k' p', total k' p' (ledger sd.(store).(tables)) ≤ traffic_of k' p' (l0 ++ dd)) ∧
    saw_leader before token ∧ saw_leader after token.

(** ** The invariant of a call *)

(** The call has listed the meters. *)
Definition listed (turns : list turn) (token : Z) (da : traffic_log) : Prop :=
  ∃ before c1 mid sa, turns = before ++ Mine c1 :: mid ∧ run before = Done (PTake token, sa, da) ∧
    saw_leader before token.

(** Forwarding has stopped, or the catalog has the traffic of before. *)
Definition caught_up (la l : traffic_log) (s : System) : Prop :=
  is_ok (ensure_forwarding s.(spool)) = true →
  ∀ k' p', traffic_of k' p' l ≤ U64_MAX → traffic_of k' p' la ≤ total k' p' (ledger s.(store).(tables)).

Definition phase_inv (turns : list turn) (ph : phase) (s : System) (d : traffic_log) : Prop :=
  match ph with
  | PStart | PAnswer (Err _) => True
  | PLock token | PTake token => saw_leader turns token
  | PCheckpoint token ids =>
      ∃ da base, listed turns token da ∧ tracked (l0 ++ da) base ids (l0 ++ d) s
  | PLoop token | PPump token | PFlush token _ | PSend token | PAck token =>
      ∃ da base, listed turns token da ∧ tracked (l0 ++ da) base [] (l0 ++ d) s
  | PReady token | PDecide token => ∃ da, listed turns token da ∧ caught_up (l0 ++ da) (l0 ++ d) s
  | PCheck token dec =>
      ∃ before c1 mid c2 after sa da sd dd,
        turns = before ++ Mine c1 :: mid ++ Mine c2 :: after ∧
        run before = Done (PTake token, sa, da) ∧ run (before ++ Mine c1 :: mid) = Done (PDecide token, sd, dd) ∧
        (authorize sd.(store) k p source c2.(ch_now)).1 = Ok dec ∧
        (is_ok (ensure_forwarding s.(spool)) = true → ∀ k' p', traffic_of k' p' (l0 ++ dd) ≤ U64_MAX →
           traffic_of k' p' (l0 ++ da) ≤ total k' p' (ledger sd.(store).(tables))) ∧
        (∀ k' p', total k' p' (ledger sd.(store).(tables)) ≤ traffic_of k' p' (l0 ++ dd)) ∧
        saw_leader before token
  | PAnswer (Ok dec) => decided_on turns dec
  end.

Lemma forwarding_sticky s s' :
  sticky s s' → is_ok (ensure_forwarding s'.(spool)) = true → is_ok (ensure_forwarding s.(spool)) = true.
Proof.
  intros [Hf Hc]. unfold ensure_forwarding, ensure_healthy. destruct (s.(spool).(faulted)); [by rewrite Hf|].
  cbn. destruct (s.(spool).(closing)); [|done]. rewrite Hc by done. by destruct (s'.(spool).(faulted)).
Qed.

Lemma forwarding_open s :
  is_ok (ensure_forwarding s.(spool)) = true → s.(spool).(faulted) = false ∧ s.(spool).(closing) = false.
Proof.
  unfold ensure_forwarding, ensure_healthy. destruct (s.(spool).(faulted)); [done|]. cbn.
  by destruct (s.(spool).(closing)).
Qed.

Lemma saw_leader_app turns turns' token : saw_leader turns token → saw_leader (turns ++ turns') token.
Proof. intros (c & Hin & ?). exists c. split; [apply elem_of_app; by left|done]. Qed.

Lemma listed_app turns t token da : listed turns token da → listed (turns ++ [t]) token da.
Proof.
  intros (before & c1 & mid & sa & -> & ?). exists before, c1, (mid ++ [t]), sa. by rewrite <- app_assoc.
Qed.

(** A turn that leaves the call where it is. *)
Lemma phase_inv_step turns t ph s s' d d1 :
  phase_inv turns ph s d → progress s s' d1 → sticky s s' → phase_inv (turns ++ [t]) ph s' (d ++ d1).
Proof.
  intros H Hp Hs. assert (∀ la, caught_up la (l0 ++ d) s → caught_up la (l0 ++ d ++ d1) s') as Hcaught.
  { intros la Hc Hf k' p' Hmax. rewrite app_assoc, traffic_of_app in Hmax. pose proof (pg_traffic _ _ _ Hp k' p').
    etrans; [apply Hc; [by eapply forwarding_sticky|lia]|]. apply ledger_grows, Hp. }
  assert (∀ la base ids, tracked la base ids (l0 ++ d) s → tracked la base ids (l0 ++ d ++ d1) s') as Htracked.
  { intros la base ids Ht. rewrite app_assoc. by eapply tracked_step. }
  destruct ph as [|token|token|token ids|token|token|token ids|token|token|token|token|token dec|[dec|e]];
    cbn [phase_inv] in *; try done; try (by apply saw_leader_app).
  all: try (destruct H as (da & base & Hl & Ht); exists da, base; split; [by apply listed_app|by apply Htracked]).
  all: try (destruct H as (da & Hl & Ht); exists da; split; [by apply listed_app|by apply Hcaught]).
  - destruct H as (before & c1 & mid & c2 & after & sa & da & sd & dd & -> & H1 & H2 & H3 & H4 & H5 & H6).
    exists before, c1, mid, c2, (after ++ [t]), sa, da, sd, dd. split_and!; try done.
    + by rewrite <- !app_assoc, app_comm_cons, <- !app_assoc.
    + intros Hf. apply H4. by eapply forwarding_sticky.
  - destruct H as (before & c1 & mid & c2 & after & token & sa & da & sd & dd & -> & H1 & H2 & H3 & H4 & H5 & H6 & H7).
    exists before, c1, mid, c2, (after ++ [t]), token, sa, da, sd, dd. split_and!; try done.
    + by rewrite <- !app_assoc, app_comm_cons, <- !app_assoc.
    + by apply saw_leader_app.
Qed.

Set Default Proof Using "All".

Lemma listed_now turns token sa da c :
  run turns = Done (PTake token, sa, da) → saw_leader turns token → listed (turns ++ [Mine c]) token da.
Proof. intros H Hl. by exists turns, c, [], sa. Qed.

Lemma saw_leader_now turns c token :
  fencing_token c.(ch_view).(ha_runtime) = Ok token → accepts_public_work c.(ch_view) = true →
  saw_leader (turns ++ [Mine c]) token.
Proof. intros. exists c. split; [|done]. apply elem_of_app. right. by left. Qed.

(** The pending events are looked at when all of the meters have been saved. *)
Lemma empty_caught_up issued la base l s :
  system_inv new_v4 false l issued s → tracked la base [] l s → pending_count s.(spool) = 0 → caught_up la l s.
Proof.
  intros Hinv Ht Hz Hf k' p' Hmax. apply forwarding_open in Hf as [Hf Hc].
  eapply (tracked_recorded new_v4 Hinj Hnil); try done.
  apply length_zero_iff_nil. unfold pending_count, len in Hz. lia.
Qed.

(** A step of the call. *)
Lemma phase_inv_own turns c ph s d ph' s' issued :
  run turns = Done (ph, s, d) → system_inv new_v4 false (l0 ++ d) issued s → phase_inv turns ph s d →
  authorize_traffic new_v4 w k p source c ph s = Done (ph', s') → phase_inv (turns ++ [Mine c]) ph' s' d.
Proof.
  intros Hrun Hinv Hph H. destruct (own_step new_v4 Hinj Hnil w k p source c ph _ _ _ _ Hinv) as (ph1 & s1 & issued1 & E & Hinv1 & Hst & Hpr).
  rewrite H in E. injection E as <- <-.
  pose proof (phase_inv_step turns (Mine c) ph s s' d [] Hph Hpr Hst) as Hnext. rewrite app_nil_r in Hnext.
  unfold authorize_traffic in H. destruct (timed ph && _); [by injection H as <- <-|].
  assert (Hcheck : ∀ id next, ('(r, s) ← meter_checkpoint new_v4 c.(ch_commit) id s;
      match r with Err e => refuse (UsageFailed e) s | Ok _ => Done (next, s) end) = Done (ph', s') →
    phase_inv (turns ++ [Mine c]) ph' s' d ∨
    (ph' = next ∧ ∀ m, s'.(live) !! id = Some m → m.(pending).(bytes) = 0)).
  { intros id next Hm. destruct (checkpoint_step new_v4 Hinj Hnil c.(ch_commit) _ _ _ _ id Hinv)
      as (r & s1 & issued2 & E & _ & Hres & _).
    rewrite E in Hm. cbn [mbind exec_bind] in Hm. destruct r as [u|e]; injection Hm as <- <-; [right|by left].
    split; [done|]. intros m Hm. destruct Hres as [(_ & _ & Hz)|[? _]]; [by rewrite (Hz m Hm)|done]. }
  destruct ph as [|token|token|token [|id ids]|token|token|token [|id ids]|token|token|token|token|token dec|r].
  - destruct (fencing_token c.(ch_view).(ha_runtime)) as [token|] eqn:Et; [|by injection H as <- <-].
    destruct (accepts_public_work c.(ch_view)) eqn:Ea; injection H as <- <-; [|done]. by apply saw_leader_now.
  - destruct (ensure_forwarding _); by injection H as <- <-.
  - injection H as <- <-. exists d, (held_bytes s). split; [by eapply listed_now|]. by eapply tracked_start.
  - injection H as <- <-. exact Hnext.
  - apply Hcheck in H as [?|[-> Hz]]; [done|]. destruct Hnext as (da & base & Hl & Ht). exists da. eexists. split; [done|].
    by eapply tracked_saved.
  - destruct (Z.eqb_spec (pending_count s.(spool)) 0) as [Hz|]; injection H as <- <-; [|exact Hnext].
    destruct Hnext as (da & base & Hl & Ht). exists da. split; [done|]. by eapply empty_caught_up.
  - injection H as <- <-. exact Hnext.
  - destruct (batch s.(spool)); injection H as <- <-; [exact Hnext|done].
  - apply Hcheck in H as [?|[-> _]]; done.
  - destruct (s.(workers) !! w) as [[[|e rest] a u]|]; try (injection H as <- <-; exact Hnext).
    destruct (pump_upload _ _ _ s) as [[v|err] s1]; injection H as <- <-; [exact Hnext|done].
  - destruct (pump_ack _ _ s) as [[v|err] s1]; injection H as <- <-; [exact Hnext|done].
  - destruct (ensure_forwarding _); by injection H as <- <-.
  - destruct (authorize s.(store) k p source c.(ch_now)) as [[dec|err] cat] eqn:Ea; injection H as <- <-; [|done].
    destruct Hph as (da & (before & c1 & mid & sa & -> & Hb & Hlead) & Hcnt).
    exists before, c1, mid, c, [], sa, da, s, d. split_and!; try done.
    + by rewrite <- app_assoc.
    + by rewrite Ea.
    + intros k' p'. by eapply (ledger_le new_v4 Hinj Hnil).
  - destruct (ensure_forwarding s.(spool)) eqn:Ef; [|by injection H as <- <-].
    destruct (accepts_public_work c.(ch_view)) eqn:Ea; [|by injection H as <- <-].
    destruct (fencing_token c.(ch_view).(ha_runtime)) as [token'|] eqn:Et; [|by injection H as <- <-].
    destruct (Z.eqb_spec token' token) as [->|]; injection H as <- <-; [|done].
    destruct Hph as (before & c1 & mid & c2 & after & sa & da & sd & dd & -> & H1 & H2 & H3 & H4 & H5 & H6).
    exists before, c1, mid, c2, (after ++ [Mine c]), token, sa, da, sd, dd. split_and!; try done.
    + by rewrite <- !app_assoc, app_comm_cons, <- !app_assoc.
    + apply H4. by rewrite Ef.
    + by apply saw_leader_now.
  - injection H as <- <-. exact Hnext.
Qed.

Lemma run_turns_snoc turns t ph s :
  run_turns new_v4 w k p source (turns ++ [t]) ph s =
  ('(ph, s, l) ← run_turns new_v4 w k p source turns ph s;
   '(ph, s, l') ← take_turn new_v4 w k p source t ph s; Done (ph, s, l ++ l')).
Proof.
  revert ph s. induction turns as [|u turns IH]; intros ph s; cbn [run_turns app].
  - cbn. destruct (take_turn _ _ _ _ _ t ph s) as [[[ph1 s1] l1]|]; [|done]. cbn. by rewrite app_nil_r.
  - destruct (take_turn _ _ _ _ _ u ph s) as [[[ph1 s1] l1]|]; [|done]. cbn [mbind exec_bind]. rewrite IH.
    destruct (run_turns _ _ _ _ _ turns ph1 s1) as [[[ph2 s2] l2]|]; [|done]. cbn [mbind exec_bind].
    destruct (take_turn _ _ _ _ _ t ph2 s2) as [[[ph3 s3] l3]|]; [|done]. cbn. by rewrite app_assoc.
Qed.

(** Every call runs, and keeps the invariant. *)
Lemma run_phase_inv issued0 turns :
  system_inv new_v4 false l0 issued0 s0 → forallb turn_ok turns = true →
  ∃ ph s d issued, run turns = Done (ph, s, d) ∧ system_inv new_v4 false (l0 ++ d) issued s ∧ phase_inv turns ph s d.
Proof.
  intros Hinv0. induction turns as [|t turns IH] using rev_ind; intros Hok.
  { exists PStart, s0, [], issued0. by rewrite app_nil_r. }
  rewrite forallb_app in Hok. cbn in Hok. bool_prop. destruct IH as (ph & s & d & issued & Hrun & Hinv & Hph); [done|].
  rewrite run_turns_snoc, Hrun. cbn [mbind exec_bind].
  destruct (turn_step new_v4 Hinj Hnil w k p source t ph _ _ _ _ Hinv) as (ph' & s' & d' & issued' & E & Hinv' & Hst & Hpr); [done|].
  rewrite E. cbn [mbind exec_bind]. exists ph', s', (d ++ d'), issued'. rewrite app_assoc. split_and!; [done|done|].
  destruct t as [c|op]; cbn [take_turn] in E.
  - destruct (authorize_traffic _ _ _ _ _ c ph s) as [[ph1 s1]|] eqn:Ea; [|done]. cbn in E. injection E as <- <- <-.
    rewrite app_nil_r. by eapply phase_inv_own.
  - destruct (apply_op new_v4 op s) as [[s1 d1]|]; [|done]. cbn in E. injection E as <- <- <-. by eapply phase_inv_step.
Qed.
End history.

(** ** The call ends

    While the others pause, the call gets through: each round of the loop uploads at
    least one event, and saving a meter leaves nothing to save in it. *)

Definition idle (m : TrafficUsageMeter) : bool :=
  (m.(pending).(bytes) =? 0) && negb (is_some m.(pending).(staged)).
(** Events to upload; a meter with bytes becomes two at most. *)
Definition work (s : System) : Z :=
  len s.(spool).(rows) + map_sum (λ _ m, if idle m then 0 else 2) s.(live).

Lemma work_nonneg s : 0 ≤ work s.
Proof.
  unfold work, len. assert (0 ≤ map_sum (λ _ m, if idle m then 0 else 2) s.(live)); [|lia].
  apply map_sum_nonneg. intros id m _. by destruct (idle m).
Qed.

Lemma enqueue_rows fate e sp r sp' : enqueue fate e sp = (r, sp') → len sp.(rows) ≤ len sp'.(rows) ≤ len sp.(rows) + 1.
Proof.
  unfold enqueue, enqueue_inner, len. intros H.
  repeat case_match; simplify_eq; cbn in *; rewrite ?length_app; cbn; lia.
Qed.

Lemma flush_loop_rows new_v4 fuel fate n m sp r m' sp' n' :
  flush_loop new_v4 fuel fate n m sp = Done (r, m', sp', n') →
  len sp.(rows) ≤ len sp'.(rows) ∧
  (is_ok r = true → idle m' = true ∧ len sp'.(rows) ≤ len sp.(rows) + (if idle m then 0 else Z.of_nat fuel - 1)).
Proof.
  revert fate n m sp. induction fuel as [|fuel IH]; intros fate n m sp H; cbn [flush_loop] in H; [done|].
  unfold idle. destruct (m.(pending).(staged)) as [e|] eqn:Es; [|destruct (Z.eqb_spec m.(pending).(bytes) 0) as [Eb|Eb]].
  - rewrite andb_false_r. destruct (enqueue _ e sp) as [[u|err] sp1] eqn:Eq; apply enqueue_rows in Eq.
    + assert (fuel ≠ 0%nat) by (by destruct fuel). apply IH in H as [Hle Hok]. split; [lia|]. intros Hr. destruct (Hok Hr) as [? Hrows]. split; [done|].
      destruct (idle _) in Hrows; lia.
    + injection H as <- _ <- _. split; [lia|done].
  - injection H as <- <- <- _. split; [lia|]. intros _. rewrite Es, Eb. split; [done|]. cbn. lia.
  - destruct (enqueue _ _ sp) as [[u|err] sp1] eqn:Eq; apply enqueue_rows in Eq.
    + assert (fuel ≠ 0%nat) by (by destruct fuel). apply IH in H as [Hle Hok]. split; [lia|]. intros Hr. destruct (Hok Hr) as [? Hrows]. split; [done|]. cbn.
      destruct (idle _) in Hrows; lia.
    + injection H as <- _ <- _. split; [lia|done].
Qed.

Lemma checkpoint_work new_v4 fate id s r s' :
  meter_checkpoint new_v4 fate id s = Done (r, s') →
  len s.(spool).(rows) ≤ len s'.(spool).(rows) ∧ (is_ok r = true → work s' ≤ work s).
Proof.
  unfold meter_checkpoint, checkpoint, flush_locked. destruct (s.(live) !! id) as [m|] eqn:Hm.
  - destruct (flush_loop _ _ _ _ m _) as [[[[r1 m'] sp'] n']|] eqn:E; [|done]. cbn [mbind exec_bind].
    intros [= <- <-]. apply flush_loop_rows in E as [Hle Hok]. split; [done|]. intros Hr. destruct (Hok Hr) as [Hi Hrows].
    unfold work. cbn. rewrite (map_sum_replace _ _ _ _ m' Hm), Hi. destruct (idle m); lia.
  - intros [= <- <-]. split; [done|lia].
Qed.

Section ending.
Context {J : JsonColumns}.
Context (new_v4 : nat → Z) (Hinj : ∀ i j, new_v4 i = new_v4 j → i = j) (Hnil : ∀ n, new_v4 n ≠ 0).
Context (w : Z) (k : TrafficPolicyKind) (p : Z) (source : IpAddr).
Context (crashed : bool) (l : traffic_log).
Set Default Proof Using "All".

Abbreviation step := (authorize_traffic new_v4 w k p source).
Definition good (s : System) : Prop := ∃ issued, system_inv new_v4 crashed l issued s.

(** Whatever the steps of the call meet, they lead to [P], or to an answer. *)
Inductive leads_to (P : phase → System → Prop) : phase → System → Prop :=
  | lt_answer r s : leads_to P (PAnswer r) s
  | lt_here ph s : P ph s → leads_to P ph s
  | lt_step ph s : (∀ c ph' s', step c ph s = Done (ph', s') → leads_to P ph' s') → leads_to P ph s.

Lemma leads_to_trans (P Q : phase → System → Prop) ph s :
  leads_to P ph s → (∀ ph s, P ph s → leads_to Q ph s) → leads_to Q ph s.
Proof. intros H HQ. induction H as [|ph s H|ph s _ IH]; [by constructor|by apply HQ|by apply lt_step]. Qed.

(** A step of a phase: the ten seconds run out, or what the phase does. *)
Lemma lt_phase P ph s :
  timed ph = true →
  (∀ c ph' s', c.(ch_timeout) = false → step c ph s = Done (ph', s') → leads_to P ph' s') → leads_to P ph s.
Proof.
  intros Ht H. apply lt_step. intros c ph' s' E. destruct (c.(ch_timeout)) eqn:Ec; [|by eapply H].
  unfold authorize_traffic in E. rewrite Ht, Ec in E. injection E as <- <-. constructor.
Qed.

Lemma step_good c ph s ph' s' : good s → step c ph s = Done (ph', s') → good s'.
Proof.
  intros [issued Hinv] H. destruct (own_step new_v4 Hinj Hnil w k p source c ph _ _ _ _ Hinv) as (? & ? & issued' & E & ? & _).
  rewrite H in E. injection E as <- <-. by exists issued'.
Qed.

Lemma check_leads P token d s : leads_to P (PCheck token d) s.
Proof.
  apply lt_step. intros c ph' s'. unfold authorize_traffic. cbn [timed andb].
  repeat case_match; intros [= <- <-]; constructor.
Qed.
Lemma decide_leads P token s : leads_to P (PDecide token) s.
Proof.
  apply lt_step. intros c ph' s'. unfold authorize_traffic. destruct (_ && _); [intros [= <- <-]; constructor|].
  destruct (authorize _ _ _ _ _) as [[d|] cat]; intros [= <- <-]; [apply check_leads|constructor].
Qed.
Lemma decision_leads P token s : leads_to P (PReady token) s.
Proof.
  apply lt_step. intros c ph' s'. unfold authorize_traffic. destruct (_ && _); [intros [= <- <-]; constructor|].
  destruct (ensure_forwarding _); intros [= <- <-]; [apply decide_leads|constructor].
Qed.

(** Back at the loop with no more than this to do. *)
Definition back (token n : Z) (ph : phase) (s : System) : Prop := ph = PLoop token ∧ good s ∧ work s ≤ n.

Lemma upload_keeps fate now s :
  let s' := (pump_upload fate w now s).2 in s'.(spool) = s.(spool) ∧ s'.(live) = s.(live) ∧ work s' = work s.
Proof.
  cbn zeta. assert ((pump_upload fate w now s).2.(spool) = s.(spool) ∧ (pump_upload fate w now s).2.(live) = s.(live)) as [E1 E2].
  { unfold pump_upload. destruct (s.(workers) !! w) as [[[|e rest] [a|] u]|]; try done.
    by destruct fate, (record_usage_event s.(store).(tables) e now). }
  split_and!; [done|done|]. unfold work. by rewrite E1, E2.
Qed.

Lemma ack_work fate s s' v :
  pump_ack fate w s = (Ok v, s') →
  work s' ≤ work s ∧
  (∀ rest e u, s.(workers) !! w = Some {| todo := rest; acking := Some e; uploaded := u |} →
     s'.(workers) !! w = Some {| todo := rest; acking := None; uploaded := u + 1 |} ∧
     (row_of e ∈ s.(spool).(rows) → work s' ≤ work s - 1)) ∧
  (∀ rest u, s.(workers) !! w = Some {| todo := rest; acking := None; uploaded := u |} → s' = s).
Proof.
  unfold pump_ack. destruct (s.(workers) !! w) as [[rest [e|] u]|] eqn:Ew; [|intros [= <- <-]; split_and!; [lia|by intros ? ? ? [=]|done]..].
  unfold acknowledge. destruct fate; intros [= <- <-]. unfold work. cbn.
  pose proof (length_filter (λ row, row_is e row = false) s.(spool).(rows)) as Hle. split_and!; [unfold len; lia| |by intros ? ? [=]].
  intros ? ? ? [= <- <- <-]. split; [apply lookup_insert_eq|]. intros Hin. unfold len.
  enough (length (filter (λ row, row_is e row = false) s.(spool).(rows)) < length s.(spool).(rows))%nat by lia.
  apply (length_filter_lt _ _ _ Hin). by rewrite row_is_row_of.
Qed.

(** One upload and its acknowledgement. *)
Lemma send_one P token e b u s :
  good s → s.(workers) !! w = Some {| todo := e :: b; acking := None; uploaded := u |} →
  (∀ s', good s' → s'.(workers) !! w = Some {| todo := b; acking := None; uploaded := u + 1 |} →
     work s' ≤ work s → (row_of e ∈ s.(spool).(rows) → work s' ≤ work s - 1) → leads_to P (PSend token) s') →
  leads_to P (PSend token) s.
Proof.
  intros Hg Hw Hnext. apply lt_phase; [done|]. intros c ph1 s1 Hc E. pose proof (step_good _ _ _ _ _ Hg E) as Hg1.
  unfold authorize_traffic in E. rewrite Hc, Hw in E. cbn [timed andb] in E.
  pose proof (upload_keeps c.(ch_upload) c.(ch_now) s) as (Esp & _ & Ework). cbn zeta in Esp, Ework.
  assert (∀ v s2, pump_upload c.(ch_upload) w c.(ch_now) s = (Ok v, s2) →
    s2.(workers) !! w = Some {| todo := b; acking := Some e; uploaded := u |}) as Hack.
  { intros v s2. unfold pump_upload. rewrite Hw. repeat case_match; intros [= _ <-]; apply lookup_insert_eq. }
  destruct (pump_upload _ _ _ s) as [[v|err] s2]; injection E as <- <-; [|constructor]. cbn in Esp, Ework.
  specialize (Hack v s2 eq_refl).
  apply lt_phase; [done|]. intros c1 ph2 s3 Hc1 E. pose proof (step_good _ _ _ _ _ Hg1 E) as Hg2.
  unfold authorize_traffic in E. rewrite Hc1 in E. cbn [timed andb] in E.
  destruct (pump_ack (c1.(ch_commit) 0%nat) w s2) as [[v'|err] s4] eqn:Ea; injection E as <- <-; [|constructor].
  apply ack_work in Ea as (Hle & Hk & _). destruct (Hk _ _ _ Hack) as [Hw' Hlt]. rewrite Esp in Hlt.
  apply Hnext; [done|done|lia|]. intros Hin. specialize (Hlt Hin). lia.
Qed.

Lemma send_batch token b u s n :
  good s → s.(workers) !! w = Some {| todo := b; acking := None; uploaded := u |} → work s ≤ n →
  leads_to (back token n) (PSend token) s.
Proof.
  revert u s. induction b as [|e b IH]; intros u s Hg Hw Hn.
  - apply lt_phase; [done|]. intros c ph1 s1 Hc E. pose proof (step_good _ _ _ _ _ Hg E) as Hg1.
    unfold authorize_traffic in E. rewrite Hc, Hw in E. injection E as <- <-. by apply lt_here.
  - eapply send_one; [done..|]. intros s' Hg' Hw' Hle _. eapply IH; [done..|]. lia.
Qed.

(** Wherever the batch is, the call comes back to the loop. *)
Lemma send_leads token s : good s → leads_to (back token (work s)) (PSend token) s.
Proof.
  intros Hg. destruct (s.(workers) !! w) as [[b [a|] u]|] eqn:Hw; [|by eapply send_batch|].
  - destruct b as [|e b].
    { apply lt_phase; [done|]. intros c ph1 s1 Hc E. pose proof (step_good _ _ _ _ _ Hg E) as Hg1.
      unfold authorize_traffic in E. rewrite Hc, Hw in E. injection E as <- <-. by apply lt_here. }
    apply lt_phase; [done|]. intros c ph1 s1 Hc E. unfold authorize_traffic in E. rewrite Hc, Hw in E. cbn [timed andb] in E.
    unfold pump_upload in E. rewrite Hw in E. injection E as <- <-.
    apply lt_phase; [done|]. intros c1 ph2 s3 Hc1 E. pose proof (step_good _ _ _ _ _ Hg E) as Hg2.
    unfold authorize_traffic in E. rewrite Hc1 in E. cbn [timed andb] in E.
    destruct (pump_ack (c1.(ch_commit) 0%nat) w s) as [[v'|err] s4] eqn:Ea; injection E as <- <-; [|constructor].
    apply ack_work in Ea as (Hle & Hk & _). destruct (Hk _ _ _ Hw) as [Hw' _]. by eapply send_batch.
  - apply lt_phase; [done|]. intros c ph1 s1 Hc E. pose proof (step_good _ _ _ _ _ Hg E) as Hg1.
    unfold authorize_traffic in E. rewrite Hc, Hw in E. injection E as <- <-. by apply lt_here.
Qed.

(** A round of the pump that finds events uploads one of them. *)
Lemma flush_leads token ids s n :
  good s → work s ≤ n → s.(spool).(rows) ≠ [] → leads_to (back token (n - 1)) (PFlush token ids) s.
Proof.
  revert s. induction ids as [|id ids IH]; intros s Hg Hn Hr; (apply lt_phase; [done|]); intros c ph1 s1 Hc E;
    pose proof (step_good _ _ _ _ _ Hg E) as Hg1; unfold authorize_traffic in E; rewrite Hc in E; cbn [timed andb] in E.
  - destruct Hg as [issued Hinv].
    destruct (batch_issued new_v4 Hinj Hnil _ _ _ (inv_issued _ _ _ _ _ Hinv) (inv_rows _ _ _ _ _ Hinv)) as (b & Eb & Hb & _).
    rewrite Eb in E. injection E as <- <-. destruct b as [|e b].
    { destruct s.(spool).(rows); [done|discriminate Hb]. }
    eapply send_one; [done|apply lookup_insert_eq|]. intros s' Hg' Hw' _ Hlt. eapply send_batch; [done..|].
    etrans; [apply Hlt|]; [cbn|by unfold work in *; cbn in *; lia].
    destruct s.(spool).(rows) as [|row rows]; [done|]. cbn in Hb. injection Hb as -> _. by left.
  - destruct (meter_checkpoint new_v4 c.(ch_commit) id s) as [[r s2]|] eqn:Em; [|done]. cbn [mbind exec_bind] in E.
    apply checkpoint_work in Em as [Hrows Hok]. destruct r as [v|err]; injection E as <- <-; [|constructor].
    apply IH; [done|specialize (Hok eq_refl); lia|]. intros Enil. rewrite Enil in Hrows. unfold len in Hrows.
    destruct s.(spool).(rows); [done|cbn in Hrows; lia].
Qed.

Abbreviation answered := (λ (_ : phase) (_ : System), False).

Lemma loop_leads token s : good s → leads_to answered (PLoop token) s.
Proof.
  remember (Z.to_nat (work s)) as n eqn:En. assert (work s ≤ Z.of_nat n) as Hn by (pose proof (work_nonneg s); lia).
  clear En. revert s Hn. induction n as [|n IH]; intros s Hn Hg; (apply lt_phase; [done|]); intros c ph1 s1 Hc E;
    unfold authorize_traffic in E; rewrite Hc in E; cbn [timed andb] in E;
    destruct (Z.eqb_spec (pending_count s.(spool)) 0) as [Hz|Hz]; injection E as <- <-; try apply decision_leads.
  - unfold work in Hn. assert (0 ≤ map_sum (λ _ m, if idle m then 0 else 2) s.(live)).
    { apply map_sum_nonneg. intros id m _. by destruct (idle m). }
    unfold pending_count, len in *. lia.
  - apply lt_phase; [done|]. intros c1 ph1 s1 Hc1 E. pose proof (step_good _ _ _ _ _ Hg E) as Hg1.
    unfold authorize_traffic in E. rewrite Hc1 in E. injection E as <- <-.
    eapply leads_to_trans; [apply (flush_leads token _ _ (Z.of_nat (S n)))|]; [done|done| |].
    + cbn. intros Enil. apply Hz. unfold pending_count. by rewrite Enil.
    + intros ph2 s2 (-> & Hg2 & Hw2). apply IH; [lia|done].
Qed.

(** From wherever it is, the call answers. *)
Lemma call_leads ph s : good s → leads_to answered ph s.
Proof.
  intros Hg.
  assert (Hcheckpoint : ∀ token ids s, good s → leads_to answered (PCheckpoint token ids) s).
  { clear s Hg. intros token ids. induction ids as [|id ids IH]; intros s Hg; (apply lt_phase; [done|]); intros c ph1 s1 Hc E;
      pose proof (step_good _ _ _ _ _ Hg E) as Hg1; unfold authorize_traffic in E; rewrite Hc in E; cbn [timed andb] in E.
    - injection E as <- <-. by apply loop_leads.
    - destruct (meter_checkpoint _ _ _ _) as [[r s2]|]; [|done]. cbn [mbind exec_bind] in E.
      destruct r; injection E as <- <-; [by apply IH|constructor]. }
  assert (Hsend : ∀ token s, good s → leads_to answered (PSend token) s).
  { intros token s1 Hg1. eapply leads_to_trans; [by apply send_leads|]. intros ph2 s2 (-> & ? & _). by apply loop_leads. }
  assert (Hflush : ∀ token ids s, good s → leads_to answered (PFlush token ids) s).
  { clear s Hg. intros token ids. induction ids as [|id ids IH]; intros s Hg; (apply lt_phase; [done|]); intros c ph1 s1 Hc E;
      pose proof (step_good _ _ _ _ _ Hg E) as Hg1; unfold authorize_traffic in E; rewrite Hc in E; cbn [timed andb] in E.
    - destruct (batch s.(spool)); injection E as <- <-; [by apply Hsend|constructor].
    - destruct (meter_checkpoint _ _ _ _) as [[r s2]|]; [|done]. cbn [mbind exec_bind] in E.
      destruct r; injection E as <- <-; [by apply IH|constructor]. }
  assert (Htake : ∀ token s, good s → leads_to answered (PTake token) s).
  { intros token s1 Hg1. apply lt_phase; [done|]. intros c ph2 s2 Hc E. pose proof (step_good _ _ _ _ _ Hg1 E).
    unfold authorize_traffic in E. rewrite Hc in E. injection E as <- <-. by apply Hcheckpoint. }
  assert (Hlock : ∀ token s, good s → leads_to answered (PLock token) s).
  { intros token s1 Hg1. apply lt_phase; [done|]. intros c ph2 s2 Hc E.
    unfold authorize_traffic in E. rewrite Hc in E. cbn [timed andb] in E.
    destruct (ensure_forwarding _); injection E as <- <-; [by apply Htake|constructor]. }
  destruct ph as [|token|token|token ids|token|token|token ids|token|token|token|token|token d|r];
    try by eauto using loop_leads, decision_leads, decide_leads, check_leads, lt_answer.
  - apply lt_step. intros c ph1 s1. unfold authorize_traffic. cbn [timed andb].
    repeat case_match; intros [= <- <-]; [by apply Hlock|constructor..].
  - apply lt_phase; [done|]. intros c ph2 s2 Hc E. pose proof (step_good _ _ _ _ _ Hg E).
    unfold authorize_traffic in E. rewrite Hc in E. injection E as <- <-. by apply Hflush.
  - apply lt_phase; [done|]. intros c ph2 s2 Hc E. pose proof (step_good _ _ _ _ _ Hg E).
    unfold authorize_traffic in E. rewrite Hc in E. cbn [timed andb] in E.
    destruct (pump_ack _ _ s) as [[v|err] s3]; injection E as <- <-; [by apply Hsend|constructor].
Qed.

(** The turns the call takes in a row, with whatever each of them meets. *)
Lemma leads_answer ph s :
  good s → leads_to answered ph s → ∀ cs : nat → choice, ∃ n r s',
    run_turns new_v4 w k p source ((λ i, Mine (cs i)) <$> seq 0 n) ph s = Done (PAnswer r, s', []).
Proof.
  intros Hg H. induction H as [r s|ph s []|ph s H IH]; intros cs; [by exists 0%nat, r, s|].
  destruct Hg as [issued Hinv].
  destruct (own_step new_v4 Hinj Hnil w k p source (cs 0%nat) ph _ _ _ _ Hinv) as (ph' & s' & issued' & E & Hinv' & _).
  destruct (IH (cs 0%nat) ph' s' E ltac:(by exists issued') (λ i, cs (S i))) as (n & r & s'' & Hrun).
  exists (S n), r, s''. cbn [seq fmap list_fmap run_turns take_turn]. rewrite E. cbn [mbind exec_bind].
  rewrite <- seq_shift, <- list_fmap_compose. unfold compose. rewrite Hrun. done.
Qed.
End ending.

(** ** Admission sees the traffic *)

Section admission.
Context {J : JsonColumns}.
Context (new_v4 : nat → Z) (Hinj : ∀ i j, new_v4 i = new_v4 j → i = j) (Hnil : ∀ n, new_v4 n ≠ 0).
Set Default Proof Using "All".

(** C9. Admission decides on the traffic that had been forwarded when it looked. A call
    starts after any history without restart, and its steps alternate in any way with what
    the other connections and workers do. When it answers with a decision, it was leading
    before it listed the running meters and after it asked the catalog, under one fencing
    token; and the catalog it asked had recorded, for every policy, at least the bytes
    forwarded up to the moment the meters were listed, and never more than those forwarded
    up to the question. Bytes forwarded in between need not be counted. The call never
    panics; and from every point, when it takes its turns and the others pause, it answers,
    whatever fails on the way. *)
Theorem admission_sees_traffic (ops : list usage_op) (s : System) (l : traffic_log)
    (w : Z) (k : TrafficPolicyKind) (p : Z) (source : IpAddr) (turns : list turn) :
  forallb op_typed ops = true → existsb is_restart ops = false → run_ops new_v4 ops system_empty = Done (s, l) →
  forallb turn_ok turns = true →
  ∃ ph s' d, run_turns new_v4 w k p source turns PStart s = Done (ph, s', d) ∧
    (∀ decision, ph = PAnswer (Ok decision) → decided_on new_v4 w k p source s l turns decision) ∧
    ∀ cs : nat → choice, ∃ n r s'',
      run_turns new_v4 w k p source ((λ i, Mine (cs i)) <$> seq 0 n) ph s' = Done (PAnswer r, s'', []).
Proof.
  intros Hty Hnr E Hok. destruct (run_steps new_v4 Hinj Hnil ops _ _ _ _ (empty_inv new_v4 Hinj Hnil) Hty) as (s0 & l0 & issued & E0 & Hinv & _).
  rewrite E in E0. injection E0 as <- <-. cbn in Hinv. rewrite Hnr in Hinv.
  destruct (run_phase_inv new_v4 Hinj Hnil w k p source s l issued turns Hinv Hok) as (ph & s' & d & issued' & Hrun & Hinv' & Hph).
  exists ph, s', d. split_and!; [done| |].
  - by intros decision ->.
  - assert (good new_v4 false (l ++ d) s') as Hg by by exists issued'. intros cs.
    eapply leads_answer; [done..|]. by eapply call_leads.
Qed.
End admission.

(** ** A call between two connections *)

Definition ex_app : AppView :=
  {| lifecycle := mark_ready 1 (lifecycle_new 0); ha_runtime := store_leader (store_token ex_runtime 3) true |}.
Definition ex_choice : choice :=
  {| ch_view := ex_app; ch_commit := λ _, Committed; ch_upload := Uploaded; ch_now := 300; ch_timeout := false |}.

(** While the call saves the first meter, the second connection forwards 50 bytes; 8 more
    follow while the batch is uploaded. *)
Definition ex_turns : list turn :=
  [Mine ex_choice; Mine ex_choice; Mine ex_choice; Mine ex_choice; Theirs (OpPoll (λ _, Committed) 1 (IoReady 50))] ++
  replicate 5 (Mine ex_choice) ++ [Theirs (OpPoll (λ _, Committed) 1 (IoReady 8))] ++ replicate 15 (Mine ex_choice).

Definition ex_answer : option (phase * traffic_log) :=
  match run_turns ex_uuid 9 KindTcp 7 (V4 1) ex_turns PStart (ex_state ex_history) with
  | Done (ph, _, d) => Some (ph, d)
  | Panic => None
  end.

Lemma admission_sees_traffic_witness :
  ex_answer = Some (PAnswer (Ok Allowed), [(KindTcp, 7, 50); (KindTcp, 7, 8)]) ∧
  decided_on ex_uuid 9 KindTcp 7 (V4 1) (ex_state ex_history) (ex_log ex_history) ex_turns Allowed.
Proof.
  assert (E : ex_answer = Some (PAnswer (Ok Allowed), [(KindTcp, 7, 50); (KindTcp, 7, 8)])) by (vm_compute; reflexivity).
  split; [exact E|].
  destruct (admission_sees_traffic ex_uuid ex_uuid_inj ex_uuid_nil ex_history (ex_state ex_history) (ex_log ex_history)
    9 KindTcp 7 (V4 1) ex_turns) as (ph & s' & d & Hrun & Hx & _).
  - vm_compute. reflexivity.
  - vm_compute. reflexivity.
  - apply ex_runs. vm_compute. reflexivity.
  - vm_compute. reflexivity.
  - apply Hx. unfold ex_answer in E. rewrite Hrun in E. by injection E as -> _.
Defined.
