(* ===== verification/TunnelTables.v ===== *)
(** * Tunnel policies: data and validation ([tunnel_catalog.rs])

    The records of TCP and UDP tunnels, SOCKS5 and HTTP proxies and port groups, their
    SQLite tables, and the checks of a request. The SOCKS5 and the HTTP proxy have the same fields and
    share their records here. *)

From S2P Require Import Prelude DbMonad RustStr RustText NetAddr PortMapping TargetPool AdminAuth TrafficControl PortPolicy.
Local Open Scope Z_scope.
Set Default Proof Using "Type".

Definition DEFAULT_MAX_CONNECTIONS : Z := 64.
Definition DEFAULT_MAX_SESSIONS : Z := 256.
Definition MAX_UDP_SESSIONS : Z := 4096.
Definition DEFAULT_UDP_IDLE_TIMEOUT_SECONDS : Z := 120.
Definition MIN_UDP_IDLE_TIMEOUT_SECONDS : Z := 30.
Definition MAX_UDP_IDLE_TIMEOUT_SECONDS : Z := 3600.
Definition MIN_BANDWIDTH_LIMIT_BPS : Z := 1024.
Definition MAX_BANDWIDTH_LIMIT_BPS : Z := 1000000000.

(** ** Records *)

Record CreateTcpTunnelPolicy := {
  ct_client : Z; ct_name : rstr; ct_port : Z; ct_target : rstr; ct_max_connections : option Z; ct_bandwidth : option Z;
}.
Record TcpTunnelPolicy := {
  tcp_id : Z; tcp_client : Z; tcp_name : rstr; tcp_port : Z; tcp_target : rstr; tcp_max_connections : Z;
  tcp_bandwidth : option Z; tcp_enabled : bool;
}.
Record TcpTunnelRuntimePolicy := {
  trt_policy_id : Z; trt_policy_kind : TrafficPolicyKind; trt_max_connections : Z; trt_bandwidth : option Z;
}.

(** [CreateSocks5ProxyPolicy] and [CreateHttpProxyPolicy]. *)
Record CreateProxyPolicy := {
  cp_client : Z; cp_name : rstr; cp_port : Z; cp_username : rstr; cp_max_connections : option Z; cp_bandwidth : option Z;
  cp_private : bool;
}.
(** [Socks5ProxyPolicy] and [HttpProxyPolicy]. *)
Record ProxyPolicy := {
  px_id : Z; px_client : Z; px_name : rstr; px_port : Z; px_username : rstr; px_max_connections : Z; px_bandwidth : option Z;
  px_private : bool; px_enabled : bool;
}.
Record CreatedProxyPolicy := { created_policy : ProxyPolicy; created_password : rstr }.
Record ProxyRuntimePolicy := {
  prt_policy_id : Z; prt_username : rstr; prt_password_hash : rstr; prt_max_connections : Z; prt_bandwidth : option Z;
  prt_private : bool;
}.

Record CreateUdpTunnelPolicy := {
  cu_client : Z; cu_name : rstr; cu_port : Z; cu_target : rstr; cu_max_sessions : option Z; cu_idle : option Z;
  cu_bandwidth : option Z;
}.
Record UdpTunnelPolicy := {
  udp_id : Z; udp_client : Z; udp_name : rstr; udp_port : Z; udp_target : rstr; udp_max_sessions : Z; udp_idle : Z;
  udp_bandwidth : option Z; udp_enabled : bool;
}.
Record UdpTunnelRuntimePolicy := {
  urt_policy_id : Z; urt_policy_kind : TrafficPolicyKind; urt_max_sessions : Z; urt_idle : Z; urt_bandwidth : option Z;
}.

Inductive PortGroupProtocol := GroupTcp | GroupUdp.
Global Instance PortGroupProtocol_eq_dec : EqDecision PortGroupProtocol.
Proof. solve_decision. Defined.
Definition group_as_str (p : PortGroupProtocol) : rstr := match p with GroupTcp => lit "tcp" | GroupUdp => lit "udp" end.
Definition group_parse (value : rstr) : option PortGroupProtocol :=
  if bool_decide (value = lit "tcp") then Some GroupTcp else if bool_decide (value = lit "udp") then Some GroupUdp else None.
Lemma protocol_round_trip p : group_parse (group_as_str p) = Some p.
Proof. by destruct p. Qed.
Global Instance protocol_as_str_inj : Inj (=) (=) group_as_str.
Proof. intros p q E. apply (f_equal group_parse) in E. rewrite !protocol_round_trip in E. by injection E. Qed.

Record CreatePortGroupPolicy := {
  cg_client : Z; cg_name : rstr; cg_protocol : PortGroupProtocol; cg_public_ports : rstr; cg_target_host : rstr;
  cg_target_ports : rstr; cg_max_connections : option Z; cg_max_sessions : option Z; cg_idle : option Z; cg_bandwidth : option Z;
}.
Record PortGroupPolicy := {
  pg_id : Z; pg_client : Z; pg_name : rstr; pg_protocol : PortGroupProtocol; pg_public_ports : rstr; pg_target_host : rstr;
  pg_target_ports : rstr; pg_mapping_count : Z; pg_max_connections : Z; pg_max_sessions : Z; pg_idle : Z; pg_bandwidth : option Z;
  pg_enabled : bool;
}.
Record PortGroupMapping := { gm_public_port : Z; gm_target_port : Z; gm_target_addr : rstr }.

(** ** Errors *)

(** The messages of [validate_policy] and of the operations on TCP tunnels. *)
Inductive TcpPolicyError := TcpInvalidName | TcpInvalidPort | TcpInvalidTarget | TcpInvalidLimit | TcpInvalidBandwidth | TcpPortAssigned | TcpDatabase.
(** [Socks5PolicyError] and [HttpProxyPolicyError]. *)
Inductive ProxyPolicyError :=
  | ProxyInvalidName | ProxyInvalidPublicPort | ProxyInvalidUsername | ProxyInvalidConnectionLimit | ProxyInvalidBandwidthLimit
  | ProxyDuplicateName | ProxyDuplicatePublicPort | ProxyDatabase.
Inductive UdpPolicyError :=
  | UdpInvalidName | UdpInvalidPublicPort | UdpInvalidTarget | UdpInvalidSessionLimit | UdpInvalidIdleTimeout
  | UdpInvalidBandwidthLimit | UdpDuplicatePublicPort | UdpDatabase.
Inductive PortGroupPolicyError :=
  | GroupInvalidName | GroupInvalidPorts (e : PortMappingError) | GroupInvalidTargetHost | GroupInvalidConnectionLimit
  | GroupInvalidSessionLimit | GroupInvalidIdleTimeout | GroupInvalidBandwidthLimit | GroupDuplicateName
  | GroupDuplicatePublicPort | GroupDatabase.

(** ** Tables *)

Record TcpRow := {
  tr_client : rstr; tr_name : rstr; tr_port : Z; tr_target : rstr; tr_max_connections : Z; tr_bandwidth : option Z; tr_enabled : Z;
}.
Record UdpRow := {
  ur_client : rstr; ur_name : rstr; ur_port : Z; ur_target : rstr; ur_max_sessions : Z; ur_idle : Z; ur_bandwidth : option Z;
  ur_enabled : Z;
}.
Record ProxyRow := {
  pr_client : rstr; pr_name : rstr; pr_port : Z; pr_username : rstr; pr_password_hash : rstr; pr_max_connections : Z;
  pr_bandwidth : option Z; pr_private : Z; pr_enabled : Z;
}.
Record GroupRow := {
  gr_client : rstr; gr_name : rstr; gr_protocol : rstr; gr_public_ports : rstr; gr_target_host : rstr; gr_target_ports : rstr;
  gr_mapping_count : Z; gr_max_connections : Z; gr_max_sessions : Z; gr_idle : Z; gr_bandwidth : option Z; gr_enabled : Z;
}.
Record MappingRow := { mr_policy : rstr; mr_protocol : rstr; mr_public_port : Z; mr_target_port : Z; mr_target_addr : rstr }.

(** The tables by primary key; the mappings in the order of their row ids. *)
Record TunnelTables := {
  tcp_tunnels : gmap rstr TcpRow;
  udp_tunnels : gmap rstr UdpRow;
  socks5_proxies : gmap rstr ProxyRow;
  http_proxies : gmap rstr ProxyRow;
  port_groups : gmap rstr GroupRow;
  group_mappings : list MappingRow;
}.
Definition set_tcp (t : gmap rstr TcpRow) (s : TunnelTables) : TunnelTables :=
  {| tcp_tunnels := t; udp_tunnels := udp_tunnels s; socks5_proxies := socks5_proxies s; http_proxies := http_proxies s;
     port_groups := port_groups s; group_mappings := group_mappings s |}.
Definition set_udp (t : gmap rstr UdpRow) (s : TunnelTables) : TunnelTables :=
  {| tcp_tunnels := tcp_tunnels s; udp_tunnels := t; socks5_proxies := socks5_proxies s; http_proxies := http_proxies s;
     port_groups := port_groups s; group_mappings := group_mappings s |}.
Definition set_socks5 (t : gmap rstr ProxyRow) (s : TunnelTables) : TunnelTables :=
  {| tcp_tunnels := tcp_tunnels s; udp_tunnels := udp_tunnels s; socks5_proxies := t; http_proxies := http_proxies s;
     port_groups := port_groups s; group_mappings := group_mappings s |}.
Definition set_http (t : gmap rstr ProxyRow) (s : TunnelTables) : TunnelTables :=
  {| tcp_tunnels := tcp_tunnels s; udp_tunnels := udp_tunnels s; socks5_proxies := socks5_proxies s; http_proxies := t;
     port_groups := port_groups s; group_mappings := group_mappings s |}.
Definition set_groups (t : gmap rstr GroupRow) (l : list MappingRow) (s : TunnelTables) : TunnelTables :=
  {| tcp_tunnels := tcp_tunnels s; udp_tunnels := udp_tunnels s; socks5_proxies := socks5_proxies s; http_proxies := http_proxies s;
     port_groups := t; group_mappings := l |}.

(** ** Validation *)

Definition within (lo hi n : Z) : bool := (lo <=? n) && (n <=? hi).
Definition bandwidth_valid (limit : option Z) : bool :=
  match limit with Some limit => within MIN_BANDWIDTH_LIMIT_BPS MAX_BANDWIDTH_LIMIT_BPS limit | None => true end.

Definition validate_policy (ports : PublicPortPolicy) (request : CreateTcpTunnelPolicy) : result TcpPolicyError unit :=
  _ ← reject_if (negb (negb (bool_decide (trim (ct_name request) = [])) && (str_len (ct_name request) <=? 80))) TcpInvalidName;
  _ ← reject_if (negb (allows_tcp ports (ct_port request))) TcpInvalidPort;
  _ ← reject_if (negb ((str_len (ct_target request) <=? 4096) && is_ok (parse_target_pool (trim (ct_target request))))) TcpInvalidTarget;
  _ ← reject_if (negb (within 1 1024 (default DEFAULT_MAX_CONNECTIONS (ct_max_connections request)))) TcpInvalidLimit;
  reject_if (negb (bandwidth_valid (ct_bandwidth request))) TcpInvalidBandwidth.

(** The name of a proxy or a UDP tunnel. *)
Definition name_invalid (name : rstr) : bool := bool_decide (name = []) || (80 <? str_len name) || any is_control name.
Definition username_byte (b : Z) : bool := is_ascii_alphanumeric b || (b =? ch_dot) || (b =? 95) || (b =? ch_minus).
Definition username_invalid (requested : rstr) : bool :=
  let username := trim requested in
  negb (bool_decide (username = requested)) || bool_decide (username = []) || (64 <? str_len username) ||
  negb (all username_byte (as_bytes username)).

Definition validate_socks5_policy (ports : PublicPortPolicy) (request : CreateProxyPolicy) : result ProxyPolicyError unit :=
  _ ← reject_if (name_invalid (trim (cp_name request))) ProxyInvalidName;
  _ ← reject_if (negb (allows_tcp ports (cp_port request)) || negb (allows_udp ports (cp_port request))) ProxyInvalidPublicPort;
  _ ← reject_if (username_invalid (cp_username request)) ProxyInvalidUsername;
  _ ← reject_if (negb (within 1 1024 (default DEFAULT_MAX_CONNECTIONS (cp_max_connections request)))) ProxyInvalidConnectionLimit;
  reject_if (negb (bandwidth_valid (cp_bandwidth request))) ProxyInvalidBandwidthLimit.
Definition validate_http_proxy_policy (ports : PublicPortPolicy) (request : CreateProxyPolicy) : result ProxyPolicyError unit :=
  _ ← reject_if (name_invalid (trim (cp_name request))) ProxyInvalidName;
  _ ← reject_if (negb (allows_tcp ports (cp_port request))) ProxyInvalidPublicPort;
  _ ← reject_if (username_invalid (cp_username request)) ProxyInvalidUsername;
  _ ← reject_if (negb (within 1 1024 (default DEFAULT_MAX_CONNECTIONS (cp_max_connections request)))) ProxyInvalidConnectionLimit;
  reject_if (negb (bandwidth_valid (cp_bandwidth request))) ProxyInvalidBandwidthLimit.

Definition validate_udp_policy (ports : PublicPortPolicy) (request : CreateUdpTunnelPolicy) : result UdpPolicyError unit :=
  _ ← reject_if (name_invalid (trim (cu_name request))) UdpInvalidName;
  _ ← reject_if (negb (allows_udp ports (cu_port request))) UdpInvalidPublicPort;
  let target := trim (cu_target request) in
  _ ← reject_if (negb (bool_decide (target = cu_target request)) || (4096 <? str_len target) || negb (is_ok (parse_target_pool target))) UdpInvalidTarget;
  _ ← reject_if (negb (within 1 MAX_UDP_SESSIONS (default DEFAULT_MAX_SESSIONS (cu_max_sessions request)))) UdpInvalidSessionLimit;
  _ ← reject_if (negb (within MIN_UDP_IDLE_TIMEOUT_SECONDS MAX_UDP_IDLE_TIMEOUT_SECONDS (default DEFAULT_UDP_IDLE_TIMEOUT_SECONDS (cu_idle request)))) UdpInvalidIdleTimeout;
  reject_if (negb (bandwidth_valid (cu_bandwidth request))) UdpInvalidBandwidthLimit.

Definition valid_target_host (value : rstr) : bool :=
  if bool_decide (value = []) || (253 <? str_len value) || any is_ascii_whitespace (as_bytes value) || contains_char ch_slash value ||
     contains_char ch_lbracket value || contains_char ch_rbracket value
  then false
  else if bool_decide (is_Some (parse_ip value)) then true
  else if contains_char ch_colon value then false
  else all valid_dns_label (split ch_dot value).
Definition target_addr (host : rstr) (port : Z) : rstr :=
  if bool_decide (is_Some (parse_ipv6 host)) then [ch_lbracket] ++ host ++ [ch_rbracket; ch_colon] ++ to_string port
  else host ++ [ch_colon] ++ to_string port.

Definition allows_group (ports : PublicPortPolicy) (protocol : PortGroupProtocol) (port : Z) : bool :=
  match protocol with GroupTcp => allows_tcp ports port | GroupUdp => allows_udp ports port end.
Definition validate_port_group_policy (ports : PublicPortPolicy) (request : CreatePortGroupPolicy) : result PortGroupPolicyError ParsedPortMappings :=
  let name := trim (cg_name request) in
  _ ← reject_if (bool_decide (name = []) || (64 <? str_len name)) GroupInvalidName;
  _ ← reject_if (negb (valid_target_host (trim (cg_target_host request)))) GroupInvalidTargetHost;
  _ ← reject_if (negb (within 1 1024 (default DEFAULT_MAX_CONNECTIONS (cg_max_connections request)))) GroupInvalidConnectionLimit;
  _ ← reject_if (bool_decide (cg_max_sessions request = Some 0) ||
                 match cg_max_sessions request with Some value => MAX_UDP_SESSIONS <? value | None => false end) GroupInvalidSessionLimit;
  _ ← reject_if (match cg_idle request with Some value => negb (within MIN_UDP_IDLE_TIMEOUT_SECONDS MAX_UDP_IDLE_TIMEOUT_SECONDS value) | None => false end)
        GroupInvalidIdleTimeout;
  _ ← reject_if (negb (bandwidth_valid (cg_bandwidth request))) GroupInvalidBandwidthLimit;
  parsed ← map_err GroupInvalidPorts (parse_port_mappings (cg_public_ports request) (cg_target_ports request) 1 U16_MAX MAX_PORT_MAPPINGS);
  _ ← reject_if (negb (all (λ pair, allows_group ports (cg_protocol request) (public_port pair)) (pairs parsed))) (GroupInvalidPorts PME_PortOutOfRange);
  Ok parsed.

(** ** The policy of a request *)

Definition requested_tcp (ports : PublicPortPolicy) (id : Z) (enabled : bool) (request : CreateTcpTunnelPolicy) : result TcpPolicyError TcpTunnelPolicy :=
  _ ← validate_policy ports request;
  Ok {| tcp_id := id; tcp_client := ct_client request; tcp_name := trim (ct_name request); tcp_port := ct_port request;
        tcp_target := trim (ct_target request); tcp_max_connections := default DEFAULT_MAX_CONNECTIONS (ct_max_connections request);
        tcp_bandwidth := ct_bandwidth request; tcp_enabled := enabled |}.
Definition requested_udp (ports : PublicPortPolicy) (id : Z) (enabled : bool) (request : CreateUdpTunnelPolicy) : result UdpPolicyError UdpTunnelPolicy :=
  _ ← validate_udp_policy ports request;
  Ok {| udp_id := id; udp_client := cu_client request; udp_name := trim (cu_name request); udp_port := cu_port request;
        udp_target := trim (cu_target request); udp_max_sessions := default DEFAULT_MAX_SESSIONS (cu_max_sessions request);
        udp_idle := default DEFAULT_UDP_IDLE_TIMEOUT_SECONDS (cu_idle request); udp_bandwidth := cu_bandwidth request; udp_enabled := enabled |}.
Definition proxy_of (id : Z) (enabled : bool) (request : CreateProxyPolicy) : ProxyPolicy :=
  {| px_id := id; px_client := cp_client request; px_name := trim (cp_name request); px_port := cp_port request;
     px_username := trim (cp_username request); px_max_connections := default DEFAULT_MAX_CONNECTIONS (cp_max_connections request);
     px_bandwidth := cp_bandwidth request; px_private := cp_private request; px_enabled := enabled |}.
Definition requested_socks5 (ports : PublicPortPolicy) (id : Z) (enabled : bool) (request : CreateProxyPolicy) : result ProxyPolicyError ProxyPolicy :=
  _ ← validate_socks5_policy ports request; Ok (proxy_of id enabled request).
Definition requested_http_proxy (ports : PublicPortPolicy) (id : Z) (enabled : bool) (request : CreateProxyPolicy) : result ProxyPolicyError ProxyPolicy :=
  _ ← validate_http_proxy_policy ports request; Ok (proxy_of id enabled request).
Definition requested_port_group (ports : PublicPortPolicy) (id : Z) (enabled : bool) (request : CreatePortGroupPolicy) : result PortGroupPolicyError PortGroupPolicy :=
  parsed ← validate_port_group_policy ports request;
  Ok {| pg_id := id; pg_client := cg_client request; pg_name := trim (cg_name request); pg_protocol := cg_protocol request;
        pg_public_ports := public_ports parsed; pg_target_host := trim (cg_target_host request); pg_target_ports := target_ports parsed;
        pg_mapping_count := len (pairs parsed); pg_max_connections := default DEFAULT_MAX_CONNECTIONS (cg_max_connections request);
        pg_max_sessions := default DEFAULT_MAX_SESSIONS (cg_max_sessions request);
        pg_idle := default DEFAULT_UDP_IDLE_TIMEOUT_SECONDS (cg_idle request); pg_bandwidth := cg_bandwidth request; pg_enabled := enabled |}.
