(* ===== verification/TunnelCatalog.v ===== *)
(** * Tunnel policies: the catalog ([tunnel_catalog.rs])

    The operations of [TunnelCatalog] on its tables. A statement fails on a unique column or
    a row that does not convert; other failures of the storage, and the columns added to old
    databases, are not modelled. [ports] is the field [public_port_policy]. *)

From S2P Require Import Prelude DbMonad RustStr RustText NetAddr PortMapping TargetPool P2pProtocol AdminAuth TrafficControl PortPolicy TunnelTables.
Local Open Scope Z_scope.
Set Default Proof Using "Type".

(** ** Queries *)

(** [SELECT 1 FROM t WHERE public_port = p], or with [AND id <> except]. *)
Definition other (except : option rstr) (id : rstr) : bool :=
  match except with Some e => negb (bool_decide (id = e)) | None => true end.
Definition used {R} (port : R → Z) (p : Z) (except : option rstr) (t : gmap rstr R) : bool :=
  any (λ x : rstr * R, (port x.2 =? p) && other except x.1) (map_to_list t).
(** The same on [port_group_mappings], for one protocol or for any. *)
Definition mapped (protocol : option PortGroupProtocol) (p : Z) (except : option rstr) (l : list MappingRow) : bool :=
  any (λ m, match protocol with Some q => bool_decide (mr_protocol m = group_as_str q) | None => true end &&
            (mr_public_port m =? p) && other except (mr_policy m)) l.
Definition present {R} (id : rstr) (t : gmap rstr R) : bool := bool_decide (is_Some (t !! id)).
(** [UPDATE .. WHERE id = ?] and [DELETE .. WHERE id = ?] report the rows they changed. *)
Definition by_port {R} (port : R → Z) (t : gmap rstr R) : list (rstr * R) :=
  merge_sort (λ x y : rstr * R, port x.2 <=? port y.2) (map_to_list t).

(** [row.get] into an unsigned type. *)
Definition get_uint (max n : Z) : option Z := if within 0 max n then Some n else None.
Definition get_limit (n : option Z) : option (option Z) :=
  match n with Some n => Some <$> get_uint 9223372036854775807 n | None => Some None end.

Section catalog.
Context {plat : Platform}.

(** ** TCP tunnels *)

Definition read_tcp (id : rstr) (row : TcpRow) : option TcpTunnelPolicy :=
  id ← uuid_parse id;
  client ← uuid_parse (tr_client row);
  port ← get_uint U16_MAX (tr_port row);
  max ← get_uint U16_MAX (tr_max_connections row);
  bandwidth ← get_limit (tr_bandwidth row);
  Some {| tcp_id := id; tcp_client := client; tcp_name := tr_name row; tcp_port := port; tcp_target := tr_target row;
          tcp_max_connections := max; tcp_bandwidth := bandwidth; tcp_enabled := negb (tr_enabled row =? 0) |}.
Definition tcp_row (p : TcpTunnelPolicy) (enabled : Z) : TcpRow :=
  {| tr_client := uuid_string (tcp_client p); tr_name := tcp_name p; tr_port := tcp_port p; tr_target := tcp_target p;
     tr_max_connections := tcp_max_connections p; tr_bandwidth := tcp_bandwidth p; tr_enabled := enabled |}.

Definition create_tcp (ports : PublicPortPolicy) (request : CreateTcpTunnelPolicy) (id : Z) : db TcpPolicyError TunnelTables TcpTunnelPolicy :=
  _ ← db_lift (validate_policy ports request);
  in_use ← db_get (λ s, used pr_port (ct_port request) None (socks5_proxies s) || used pr_port (ct_port request) None (http_proxies s) ||
                        mapped (Some GroupTcp) (ct_port request) None (group_mappings s));
  _ ← db_ensure (negb in_use) TcpPortAssigned;
  policy ← db_lift (requested_tcp ports id true request);
  clash ← db_get (λ s, present (uuid_string id) (tcp_tunnels s) || used tr_port (tcp_port policy) None (tcp_tunnels s));
  _ ← db_ensure (negb clash) TcpDatabase;
  _ ← db_put (λ s, set_tcp (<[uuid_string id := tcp_row policy 1]> (tcp_tunnels s)) s);
  mret policy.
Definition list_tcp : db TcpPolicyError TunnelTables (list TcpTunnelPolicy) :=
  rows ← db_get (λ s, by_port tr_port (tcp_tunnels s));
  db_lift (collect (λ '(id, row), ok_or (read_tcp id row) TcpDatabase) rows).
Definition tcp_policy_by_id (id : Z) : db TcpPolicyError TunnelTables (option TcpTunnelPolicy) :=
  row ← db_get (λ s, tcp_tunnels s !! uuid_string id);
  match row with
  | None => mret None
  | Some row => policy ← db_lift (ok_or (read_tcp (uuid_string id) row) TcpDatabase); mret (Some policy)
  end.
Definition update_tcp (ports : PublicPortPolicy) (id : Z) (request : CreateTcpTunnelPolicy) : db TcpPolicyError TunnelTables (option TcpTunnelPolicy) :=
  _ ← db_lift (validate_policy ports request);
  current ← tcp_policy_by_id id;
  match current with
  | None => mret None
  | Some current =>
      let me := Some (uuid_string id) in
      in_use ← db_get (λ s, used tr_port (ct_port request) me (tcp_tunnels s) || used pr_port (ct_port request) None (socks5_proxies s) ||
                            used pr_port (ct_port request) None (http_proxies s) || mapped (Some GroupTcp) (ct_port request) me (group_mappings s));
      _ ← db_ensure (negb in_use) TcpPortAssigned;
      policy ← db_lift (requested_tcp ports id (tcp_enabled current) request);
      clash ← db_get (λ s, used tr_port (tcp_port policy) me (tcp_tunnels s));
      _ ← db_ensure (negb clash) TcpDatabase;
      _ ← db_put (λ s, set_tcp (alter (λ row, tcp_row policy (tr_enabled row)) (uuid_string id) (tcp_tunnels s)) s);
      mret (Some policy)
  end.
Definition set_tcp_enabled (id : Z) (enabled : bool) : db TcpPolicyError TunnelTables bool :=
  found ← db_get (λ s, present (uuid_string id) (tcp_tunnels s));
  _ ← db_put (λ s, set_tcp (alter (λ row, {| tr_client := tr_client row; tr_name := tr_name row; tr_port := tr_port row; tr_target := tr_target row;
        tr_max_connections := tr_max_connections row; tr_bandwidth := tr_bandwidth row; tr_enabled := sql_bool enabled |}) (uuid_string id) (tcp_tunnels s)) s);
  mret found.
Definition delete_tcp (id : Z) : db TcpPolicyError TunnelTables bool :=
  found ← db_get (λ s, present (uuid_string id) (tcp_tunnels s));
  _ ← db_put (λ s, set_tcp (delete (uuid_string id) (tcp_tunnels s)) s);
  mret found.

(** [JOIN port_group_mappings m ON m.policy_id = p.id]: the first group of this client, protocol and name that
    is enabled and maps the port to the target. *)
Definition group_for (client : Z) (protocol : PortGroupProtocol) (name : rstr) (port : Z) (target : rstr) (s : TunnelTables) : option (rstr * GroupRow) :=
  head (filter (λ x : rstr * GroupRow,
    (bool_decide (gr_client x.2 = uuid_string client) && bool_decide (gr_protocol x.2 = group_as_str protocol) && bool_decide (gr_name x.2 = name) &&
     (gr_enabled x.2 =? 1) &&
     any (λ m, bool_decide (mr_policy m = x.1) && (mr_public_port m =? port) && bool_decide (mr_target_addr m = target)) (group_mappings s)) = true)
    (map_to_list (port_groups s))).

Definition tcp_runtime (id : rstr) (kind : TrafficPolicyKind) (max : Z) (bandwidth : option Z) : result TcpPolicyError TcpTunnelRuntimePolicy :=
  id ← ok_or (uuid_parse id) TcpDatabase;
  Ok {| trt_policy_id := id; trt_policy_kind := kind; trt_max_connections := to_u64 max; trt_bandwidth := to_u64 <$> bandwidth |}.
Definition runtime_policy (client : Z) (name : rstr) (port : Z) (target : rstr) : db TcpPolicyError TunnelTables (option TcpTunnelRuntimePolicy) :=
  row ← db_get (λ s, head (filter (λ x : rstr * TcpRow,
          (bool_decide (tr_client x.2 = uuid_string client) && bool_decide (tr_name x.2 = name) && (tr_port x.2 =? port) &&
           bool_decide (tr_target x.2 = target) && (tr_enabled x.2 =? 1)) = true) (map_to_list (tcp_tunnels s))));
  match row with
  | Some (id, row) => policy ← db_lift (tcp_runtime id KindTcp (tr_max_connections row) (tr_bandwidth row)); mret (Some policy)
  | None =>
      group ← db_get (group_for client GroupTcp name port target);
      match group with
      | Some (id, row) => policy ← db_lift (tcp_runtime id KindPortGroup (gr_max_connections row) (gr_bandwidth row)); mret (Some policy)
      | None => mret None
      end
  end.

(** ** Proxies *)

Definition read_proxy (id : rstr) (row : ProxyRow) : option ProxyPolicy :=
  id ← uuid_parse id;
  client ← uuid_parse (pr_client row);
  port ← get_uint U16_MAX (pr_port row);
  max ← get_uint U16_MAX (pr_max_connections row);
  bandwidth ← get_limit (pr_bandwidth row);
  Some {| px_id := id; px_client := client; px_name := pr_name row; px_port := port; px_username := pr_username row;
          px_max_connections := max; px_bandwidth := bandwidth; px_private := negb (pr_private row =? 0); px_enabled := negb (pr_enabled row =? 0) |}.
Definition proxy_row (p : ProxyPolicy) (hash : rstr) (enabled : Z) : ProxyRow :=
  {| pr_client := uuid_string (px_client p); pr_name := px_name p; pr_port := px_port p; pr_username := px_username p; pr_password_hash := hash;
     pr_max_connections := px_max_connections p; pr_bandwidth := px_bandwidth p; pr_private := sql_bool (px_private p); pr_enabled := enabled |}.
(** [client_id = ? AND name = ?], and with [AND id <> except]. *)
Definition named (client : rstr) (name : rstr) (except : option rstr) (t : gmap rstr ProxyRow) : bool :=
  any (λ x : rstr * ProxyRow, bool_decide (pr_client x.2 = client) && bool_decide (pr_name x.2 = name) && other except x.1) (map_to_list t).
Definition proxy_by_id (id : Z) (t : TunnelTables → gmap rstr ProxyRow) : db ProxyPolicyError TunnelTables (option ProxyPolicy) :=
  row ← db_get (λ s, t s !! uuid_string id);
  match row with
  | None => mret None
  | Some row => policy ← db_lift (ok_or (read_proxy (uuid_string id) row) ProxyDatabase); mret (Some policy)
  end.
Definition set_proxy_row_enabled (enabled : bool) (row : ProxyRow) : ProxyRow :=
  {| pr_client := pr_client row; pr_name := pr_name row; pr_port := pr_port row; pr_username := pr_username row; pr_password_hash := pr_password_hash row;
     pr_max_connections := pr_max_connections row; pr_bandwidth := pr_bandwidth row; pr_private := pr_private row; pr_enabled := sql_bool enabled |}.
(** The enabled proxy of a client, name and port. *)
Definition proxy_for (client : Z) (name : rstr) (port : Z) (t : gmap rstr ProxyRow) : option (rstr * ProxyRow) :=
  head (filter (λ x : rstr * ProxyRow,
    (bool_decide (pr_client x.2 = uuid_string client) && bool_decide (pr_name x.2 = name) && (pr_port x.2 =? port) && (pr_enabled x.2 =? 1)) = true)
    (map_to_list t)).
Definition proxy_runtime (found : option (rstr * ProxyRow)) : result ProxyPolicyError (option ProxyRuntimePolicy) :=
  match found with
  | None => Ok None
  | Some (id, row) =>
      id ← ok_or (uuid_parse id) ProxyDatabase;
      Ok (Some {| prt_policy_id := id; prt_username := pr_username row; prt_password_hash := pr_password_hash row;
                  prt_max_connections := to_u64 (pr_max_connections row); prt_bandwidth := to_u64 <$> pr_bandwidth row;
                  prt_private := negb (pr_private row =? 0) |})
  end.
Definition hash_proxy_password (password : list Z) : rstr := encode_hex (sha256 password).
(** The passwords of SOCKS5 proxies; those of HTTP proxies are checked by [http_proxy_password_matches] of [HttpMessage]. *)
Definition socks5_password_matches (password : list Z) (expected_hash : rstr) : bool :=
  if negb (len password =? 68) || negb (bool_decide (take 4 password = lit "llp_")) || negb (all is_ascii_hexdigit (drop 4 password)) then false
  else bool_decide (hash_proxy_password password = expected_hash).

Definition create_socks5 (ports : PublicPortPolicy) (request : CreateProxyPolicy) (a b id : Z) : db ProxyPolicyError TunnelTables CreatedProxyPolicy :=
  _ ← db_lift (validate_socks5_policy ports request);
  in_use ← db_get (λ s, used tr_port (cp_port request) None (tcp_tunnels s) || used ur_port (cp_port request) None (udp_tunnels s) ||
                        used pr_port (cp_port request) None (http_proxies s) || mapped None (cp_port request) None (group_mappings s));
  _ ← db_ensure (negb in_use) ProxyDuplicatePublicPort;
  let password := lit "llp_" ++ uuid_simple a ++ uuid_simple b in
  policy ← db_lift (requested_socks5 ports id true request);
  clash ← db_get (λ s, present (uuid_string id) (socks5_proxies s) || used pr_port (px_port policy) None (socks5_proxies s) ||
                       named (uuid_string (px_client policy)) (px_name policy) None (socks5_proxies s));
  match clash with
  | false =>
      _ ← db_put (λ s, set_socks5 (<[uuid_string id := proxy_row policy (hash_proxy_password (as_bytes password)) 1]> (socks5_proxies s)) s);
      mret {| created_policy := policy; created_password := password |}
  | true =>
      port_exists ← db_get (λ s, used pr_port (cp_port request) None (socks5_proxies s));
      db_fail (match port_exists with true => ProxyDuplicatePublicPort | false => ProxyDuplicateName end)
  end.
Definition list_socks5 : db ProxyPolicyError TunnelTables (list ProxyPolicy) :=
  rows ← db_get (λ s, by_port pr_port (socks5_proxies s));
  db_lift (collect (λ '(id, row), ok_or (read_proxy id row) ProxyDatabase) rows).
Definition set_socks5_enabled (id : Z) (enabled : bool) : db ProxyPolicyError TunnelTables bool :=
  found ← db_get (λ s, present (uuid_string id) (socks5_proxies s));
  _ ← db_put (λ s, set_socks5 (alter (set_proxy_row_enabled enabled) (uuid_string id) (socks5_proxies s)) s);
  mret found.
Definition socks5_policy_by_id (id : Z) : db ProxyPolicyError TunnelTables (option ProxyPolicy) := proxy_by_id id socks5_proxies.
Definition delete_socks5 (id : Z) : db ProxyPolicyError TunnelTables (option ProxyPolicy) :=
  policy ← socks5_policy_by_id id;
  _ ← (if bool_decide (is_Some policy) then db_put (λ s, set_socks5 (delete (uuid_string id) (socks5_proxies s)) s) else mret tt);
  mret policy.
Definition update_socks5 (ports : PublicPortPolicy) (id : Z) (request : CreateProxyPolicy) : db ProxyPolicyError TunnelTables (option ProxyPolicy) :=
  _ ← db_lift (validate_socks5_policy ports request);
  current ← socks5_policy_by_id id;
  match current with
  | None => mret None
  | Some current =>
      let me := Some (uuid_string id) in
      duplicate_name ← db_get (λ s, named (uuid_string (cp_client request)) (trim (cp_name request)) me (socks5_proxies s));
      _ ← db_ensure (negb duplicate_name) ProxyDuplicateName;
      in_use ← db_get (λ s, used tr_port (cp_port request) None (tcp_tunnels s) || used ur_port (cp_port request) None (udp_tunnels s) ||
                            used pr_port (cp_port request) None (http_proxies s) || used pr_port (cp_port request) me (socks5_proxies s) ||
                            mapped None (cp_port request) me (group_mappings s));
      _ ← db_ensure (negb in_use) ProxyDuplicatePublicPort;
      policy ← db_lift (requested_socks5 ports id (px_enabled current) request);
      clash ← db_get (λ s, used pr_port (px_port policy) me (socks5_proxies s) || named (uuid_string (px_client policy)) (px_name policy) me (socks5_proxies s));
      _ ← db_ensure (negb clash) ProxyDatabase;
      _ ← db_put (λ s, set_socks5 (alter (λ row, proxy_row policy (pr_password_hash row) (pr_enabled row)) (uuid_string id) (socks5_proxies s)) s);
      mret (Some policy)
  end.
Definition socks5_runtime_policy (client : Z) (name : rstr) (port : Z) : db ProxyPolicyError TunnelTables (option ProxyRuntimePolicy) :=
  found ← db_get (λ s, proxy_for client name port (socks5_proxies s)); db_lift (proxy_runtime found).

Definition create_http_proxy (ports : PublicPortPolicy) (request : CreateProxyPolicy) (a b id : Z) : db ProxyPolicyError TunnelTables CreatedProxyPolicy :=
  _ ← db_lift (validate_http_proxy_policy ports request);
  in_use ← db_get (λ s, used tr_port (cp_port request) None (tcp_tunnels s) || used pr_port (cp_port request) None (socks5_proxies s) ||
                        mapped (Some GroupTcp) (cp_port request) None (group_mappings s));
  _ ← db_ensure (negb in_use) ProxyDuplicatePublicPort;
  let password := lit "llh_" ++ uuid_simple a ++ uuid_simple b in
  policy ← db_lift (requested_http_proxy ports id true request);
  clash ← db_get (λ s, present (uuid_string id) (http_proxies s) || used pr_port (px_port policy) None (http_proxies s) ||
                       named (uuid_string (px_client policy)) (px_name policy) None (http_proxies s));
  match clash with
  | false =>
      _ ← db_put (λ s, set_http (<[uuid_string id := proxy_row policy (hash_proxy_password (as_bytes password)) 1]> (http_proxies s)) s);
      mret {| created_policy := policy; created_password := password |}
  | true =>
      port_exists ← db_get (λ s, used pr_port (cp_port request) None (http_proxies s));
      db_fail (match port_exists with true => ProxyDuplicatePublicPort | false => ProxyDuplicateName end)
  end.
Definition list_http_proxies : db ProxyPolicyError TunnelTables (list ProxyPolicy) :=
  rows ← db_get (λ s, by_port pr_port (http_proxies s));
  db_lift (collect (λ '(id, row), ok_or (read_proxy id row) ProxyDatabase) rows).
Definition set_http_proxy_enabled (id : Z) (enabled : bool) : db ProxyPolicyError TunnelTables bool :=
  found ← db_get (λ s, present (uuid_string id) (http_proxies s));
  _ ← db_put (λ s, set_http (alter (set_proxy_row_enabled enabled) (uuid_string id) (http_proxies s)) s);
  mret found.
Definition http_proxy_policy_by_id (id : Z) : db ProxyPolicyError TunnelTables (option ProxyPolicy) := proxy_by_id id http_proxies.
Definition delete_http_proxy (id : Z) : db ProxyPolicyError TunnelTables (option ProxyPolicy) :=
  policy ← http_proxy_policy_by_id id;
  _ ← (if bool_decide (is_Some policy) then db_put (λ s, set_http (delete (uuid_string id) (http_proxies s)) s) else mret tt);
  mret policy.
Definition update_http_proxy (ports : PublicPortPolicy) (id : Z) (request : CreateProxyPolicy) : db ProxyPolicyError TunnelTables (option ProxyPolicy) :=
  _ ← db_lift (validate_http_proxy_policy ports request);
  current ← http_proxy_policy_by_id id;
  match current with
  | None => mret None
  | Some current =>
      let me := Some (uuid_string id) in
      duplicate_name ← db_get (λ s, named (uuid_string (cp_client request)) (trim (cp_name request)) me (http_proxies s));
      _ ← db_ensure (negb duplicate_name) ProxyDuplicateName;
      in_use ← db_get (λ s, used tr_port (cp_port request) None (tcp_tunnels s) || used pr_port (cp_port request) None (socks5_proxies s) ||
                            used pr_port (cp_port request) me (http_proxies s) || mapped (Some GroupTcp) (cp_port request) me (group_mappings s));
      _ ← db_ensure (negb in_use) ProxyDuplicatePublicPort;
      policy ← db_lift (requested_http_proxy ports id (px_enabled current) request);
      clash ← db_get (λ s, used pr_port (px_port policy) me (http_proxies s) || named (uuid_string (px_client policy)) (px_name policy) me (http_proxies s));
      _ ← db_ensure (negb clash) ProxyDatabase;
      _ ← db_put (λ s, set_http (alter (λ row, proxy_row policy (pr_password_hash row) (pr_enabled row)) (uuid_string id) (http_proxies s)) s);
      mret (Some policy)
  end.
Definition http_proxy_runtime_policy (client : Z) (name : rstr) (port : Z) : db ProxyPolicyError TunnelTables (option ProxyRuntimePolicy) :=
  found ← db_get (λ s, proxy_for client name port (http_proxies s)); db_lift (proxy_runtime found).

(** ** UDP tunnels *)

Definition read_udp (id : rstr) (row : UdpRow) : option UdpTunnelPolicy :=
  id ← uuid_parse id;
  client ← uuid_parse (ur_client row);
  port ← get_uint U16_MAX (ur_port row);
  max ← get_uint U16_MAX (ur_max_sessions row);
  idle ← get_uint U32_MAX (ur_idle row);
  bandwidth ← get_limit (ur_bandwidth row);
  Some {| udp_id := id; udp_client := client; udp_name := ur_name row; udp_port := port; udp_target := ur_target row; udp_max_sessions := max;
          udp_idle := idle; udp_bandwidth := bandwidth; udp_enabled := negb (ur_enabled row =? 0) |}.
Definition udp_row (p : UdpTunnelPolicy) (enabled : Z) : UdpRow :=
  {| ur_client := uuid_string (udp_client p); ur_name := udp_name p; ur_port := udp_port p; ur_target := udp_target p;
     ur_max_sessions := udp_max_sessions p; ur_idle := udp_idle p; ur_bandwidth := udp_bandwidth p; ur_enabled := enabled |}.

Definition create_udp (ports : PublicPortPolicy) (request : CreateUdpTunnelPolicy) (id : Z) : db UdpPolicyError TunnelTables UdpTunnelPolicy :=
  _ ← db_lift (validate_udp_policy ports request);
  in_use ← db_get (λ s, used pr_port (cu_port request) None (socks5_proxies s) || mapped (Some GroupUdp) (cu_port request) None (group_mappings s));
  _ ← db_ensure (negb in_use) UdpDuplicatePublicPort;
  policy ← db_lift (requested_udp ports id true request);
  clash ← db_get (λ s, present (uuid_string id) (udp_tunnels s) || used ur_port (udp_port policy) None (udp_tunnels s));
  _ ← db_ensure (negb clash) UdpDuplicatePublicPort;
  _ ← db_put (λ s, set_udp (<[uuid_string id := udp_row policy 1]> (udp_tunnels s)) s);
  mret policy.
Definition list_udp : db UdpPolicyError TunnelTables (list UdpTunnelPolicy) :=
  rows ← db_get (λ s, by_port ur_port (udp_tunnels s));
  db_lift (collect (λ '(id, row), ok_or (read_udp id row) UdpDatabase) rows).
Definition udp_policy_by_id (id : Z) : db UdpPolicyError TunnelTables (option UdpTunnelPolicy) :=
  row ← db_get (λ s, udp_tunnels s !! uuid_string id);
  match row with
  | None => mret None
  | Some row => policy ← db_lift (ok_or (read_udp (uuid_string id) row) UdpDatabase); mret (Some policy)
  end.
Definition update_udp (ports : PublicPortPolicy) (id : Z) (request : CreateUdpTunnelPolicy) : db UdpPolicyError TunnelTables (option UdpTunnelPolicy) :=
  _ ← db_lift (validate_udp_policy ports request);
  current ← udp_policy_by_id id;
  match current with
  | None => mret None
  | Some current =>
      let me := Some (uuid_string id) in
      in_use ← db_get (λ s, used ur_port (cu_port request) me (udp_tunnels s) || used pr_port (cu_port request) None (socks5_proxies s) ||
                            mapped (Some GroupUdp) (cu_port request) me (group_mappings s));
      _ ← db_ensure (negb in_use) UdpDuplicatePublicPort;
      policy ← db_lift (requested_udp ports id (udp_enabled current) request);
      clash ← db_get (λ s, used ur_port (udp_port policy) me (udp_tunnels s));
      _ ← db_ensure (negb clash) UdpDatabase;
      _ ← db_put (λ s, set_udp (alter (λ row, udp_row policy (ur_enabled row)) (uuid_string id) (udp_tunnels s)) s);
      mret (Some policy)
  end.
Definition set_udp_enabled (id : Z) (enabled : bool) : db UdpPolicyError TunnelTables bool :=
  found ← db_get (λ s, present (uuid_string id) (udp_tunnels s));
  _ ← db_put (λ s, set_udp (alter (λ row, {| ur_client := ur_client row; ur_name := ur_name row; ur_port := ur_port row; ur_target := ur_target row;
        ur_max_sessions := ur_max_sessions row; ur_idle := ur_idle row; ur_bandwidth := ur_bandwidth row; ur_enabled := sql_bool enabled |})
        (uuid_string id) (udp_tunnels s)) s);
  mret found.
Definition delete_udp (id : Z) : db UdpPolicyError TunnelTables bool :=
  found ← db_get (λ s, present (uuid_string id) (udp_tunnels s));
  _ ← db_put (λ s, set_udp (delete (uuid_string id) (udp_tunnels s)) s);
  mret found.
Definition udp_runtime (id : rstr) (kind : TrafficPolicyKind) (max idle : Z) (bandwidth : option Z) : result UdpPolicyError UdpTunnelRuntimePolicy :=
  id ← ok_or (uuid_parse id) UdpDatabase;
  Ok {| urt_policy_id := id; urt_policy_kind := kind; urt_max_sessions := to_u64 max; urt_idle := to_u64 idle; urt_bandwidth := to_u64 <$> bandwidth |}.
Definition udp_runtime_policy (client : Z) (name : rstr) (port : Z) (target : rstr) : db UdpPolicyError TunnelTables (option UdpTunnelRuntimePolicy) :=
  row ← db_get (λ s, head (filter (λ x : rstr * UdpRow,
          (bool_decide (ur_client x.2 = uuid_string client) && bool_decide (ur_name x.2 = name) && (ur_port x.2 =? port) &&
           bool_decide (ur_target x.2 = target) && (ur_enabled x.2 =? 1)) = true) (map_to_list (udp_tunnels s))));
  match row with
  | Some (id, row) => policy ← db_lift (udp_runtime id KindUdp (ur_max_sessions row) (ur_idle row) (ur_bandwidth row)); mret (Some policy)
  | None =>
      group ← db_get (group_for client GroupUdp name port target);
      match group with
      | Some (id, row) => policy ← db_lift (udp_runtime id KindPortGroup (gr_max_sessions row) (gr_idle row) (gr_bandwidth row)); mret (Some policy)
      | None => mret None
      end
  end.

(** ** Port groups *)

Definition read_group (id : rstr) (row : GroupRow) : option PortGroupPolicy :=
  id ← uuid_parse id;
  client ← uuid_parse (gr_client row);
  protocol ← group_parse (gr_protocol row);
  count ← get_uint U64_MAX (gr_mapping_count row);
  max ← get_uint U16_MAX (gr_max_connections row);
  sessions ← get_uint U16_MAX (gr_max_sessions row);
  idle ← get_uint U32_MAX (gr_idle row);
  bandwidth ← get_limit (gr_bandwidth row);
  Some {| pg_id := id; pg_client := client; pg_name := gr_name row; pg_protocol := protocol; pg_public_ports := gr_public_ports row;
          pg_target_host := gr_target_host row; pg_target_ports := gr_target_ports row; pg_mapping_count := count; pg_max_connections := max;
          pg_max_sessions := sessions; pg_idle := idle; pg_bandwidth := bandwidth; pg_enabled := negb (gr_enabled row =? 0) |}.
Definition group_row (p : PortGroupPolicy) (enabled : Z) : GroupRow :=
  {| gr_client := uuid_string (pg_client p); gr_name := pg_name p; gr_protocol := group_as_str (pg_protocol p); gr_public_ports := pg_public_ports p;
     gr_target_host := pg_target_host p; gr_target_ports := pg_target_ports p; gr_mapping_count := pg_mapping_count p;
     gr_max_connections := pg_max_connections p; gr_max_sessions := pg_max_sessions p; gr_idle := pg_idle p; gr_bandwidth := pg_bandwidth p;
     gr_enabled := enabled |}.
Definition mapping_row (id : Z) (protocol : PortGroupProtocol) (host : rstr) (pair : PortPair) : MappingRow :=
  {| mr_policy := uuid_string id; mr_protocol := group_as_str protocol; mr_public_port := public_port pair; mr_target_port := target_port pair;
     mr_target_addr := target_addr host (target_port pair) |}.

(** The port of a group, taken by another policy. *)
Definition group_conflict (protocol : PortGroupProtocol) (port : Z) (except : option rstr) (s : TunnelTables) : bool :=
  match protocol with
  | GroupTcp => used tr_port port None (tcp_tunnels s) || used pr_port port None (socks5_proxies s) || used pr_port port None (http_proxies s) ||
                mapped (Some GroupTcp) port except (group_mappings s)
  | GroupUdp => used ur_port port None (udp_tunnels s) || used pr_port port None (socks5_proxies s) || mapped (Some GroupUdp) port except (group_mappings s)
  end.
Fixpoint check_pairs (protocol : PortGroupProtocol) (except : option rstr) (l : list PortPair) : db PortGroupPolicyError TunnelTables unit :=
  match l with
  | [] => mret tt
  | mapping :: l =>
      conflict ← db_get (group_conflict protocol (public_port mapping) except);
      _ ← db_ensure (negb conflict) GroupDuplicatePublicPort;
      check_pairs protocol except l
  end.
(** [UNIQUE(protocol, public_port)] and [PRIMARY KEY(policy_id, public_port)]. *)
Definition mapping_clash (m : MappingRow) (l : list MappingRow) : bool :=
  any (λ x, (mr_public_port x =? mr_public_port m) &&
            (bool_decide (mr_protocol x = mr_protocol m) || bool_decide (mr_policy x = mr_policy m))) l.
Fixpoint insert_pairs (id : Z) (protocol : PortGroupProtocol) (host : rstr) (l : list PortPair) : db PortGroupPolicyError TunnelTables unit :=
  match l with
  | [] => mret tt
  | mapping :: l =>
      let m := mapping_row id protocol host mapping in
      clash ← db_get (λ s, mapping_clash m (group_mappings s));
      _ ← db_ensure (negb clash) GroupDatabase;
      _ ← db_put (λ s, set_groups (port_groups s) (group_mappings s ++ [m]) s);
      insert_pairs id protocol host l
  end.
(** [UNIQUE(client_id, protocol, name)]. *)
Definition group_named (client protocol name : rstr) (except : option rstr) (t : gmap rstr GroupRow) : bool :=
  any (λ x : rstr * GroupRow, bool_decide (gr_client x.2 = client) && bool_decide (gr_protocol x.2 = protocol) && bool_decide (gr_name x.2 = name) &&
                              other except x.1) (map_to_list t).

Definition create_port_group (ports : PublicPortPolicy) (request : CreatePortGroupPolicy) (id : Z) : db PortGroupPolicyError TunnelTables PortGroupPolicy :=
  parsed ← db_lift (validate_port_group_policy ports request);
  policy ← db_lift (requested_port_group ports id true request);
  transaction (
    _ ← check_pairs (cg_protocol request) None (pairs parsed);
    clash ← db_get (λ s, present (uuid_string id) (port_groups s) ||
                         group_named (uuid_string (pg_client policy)) (group_as_str (pg_protocol policy)) (pg_name policy) None (port_groups s));
    _ ← db_ensure (negb clash) GroupDuplicateName;
    _ ← db_put (λ s, set_groups (<[uuid_string id := group_row policy 1]> (port_groups s)) (group_mappings s) s);
    _ ← insert_pairs id (pg_protocol policy) (trim (cg_target_host request)) (pairs parsed);
    mret (true, policy)).
(** [ORDER BY protocol, public_ports]. *)
Definition group_order (x y : rstr * GroupRow) : bool :=
  let a := as_bytes (gr_protocol x.2) in
  let b := as_bytes (gr_protocol y.2) in
  if bool_decide (a = b) then lex_le (as_bytes (gr_public_ports x.2)) (as_bytes (gr_public_ports y.2)) else lex_le a b.
Definition list_port_groups : db PortGroupPolicyError TunnelTables (list PortGroupPolicy) :=
  rows ← db_get (λ s, merge_sort group_order (map_to_list (port_groups s)));
  db_lift (collect (λ '(id, row), ok_or (read_group id row) GroupDatabase) rows).
Definition port_group_by_id (id : Z) : db PortGroupPolicyError TunnelTables (option PortGroupPolicy) :=
  row ← db_get (λ s, port_groups s !! uuid_string id);
  match row with
  | None => mret None
  | Some row => policy ← db_lift (ok_or (read_group (uuid_string id) row) GroupDatabase); mret (Some policy)
  end.
Definition delete_mappings (id : Z) (s : TunnelTables) : TunnelTables :=
  set_groups (port_groups s) (filter (λ m, mr_policy m ≠ uuid_string id) (group_mappings s)) s.
Definition update_port_group (ports : PublicPortPolicy) (id : Z) (request : CreatePortGroupPolicy) : db PortGroupPolicyError TunnelTables (option PortGroupPolicy) :=
  parsed ← db_lift (validate_port_group_policy ports request);
  current ← port_group_by_id id;
  match current with
  | None => mret None
  | Some current =>
      let me := Some (uuid_string id) in
      duplicate_name ← db_get (λ s, group_named (uuid_string (cg_client request)) (group_as_str (cg_protocol request)) (trim (cg_name request)) me (port_groups s));
      _ ← db_ensure (negb duplicate_name) GroupDuplicateName;
      policy ← db_lift (requested_port_group ports id (pg_enabled current) request);
      transaction (
        _ ← check_pairs (cg_protocol request) me (pairs parsed);
        clash ← db_get (λ s, group_named (uuid_string (pg_client policy)) (group_as_str (pg_protocol policy)) (pg_name policy) me (port_groups s));
        _ ← db_ensure (negb clash) GroupDuplicateName;
        _ ← db_put (λ s, set_groups (alter (λ row, group_row policy (gr_enabled row)) (uuid_string id) (port_groups s)) (group_mappings s) s);
        _ ← db_put (delete_mappings id);
        _ ← insert_pairs id (pg_protocol policy) (trim (cg_target_host request)) (pairs parsed);
        mret (true, Some policy))
  end.
(** [ORDER BY rowid]. *)
Definition port_group_mappings (id : Z) : db PortGroupPolicyError TunnelTables (list PortGroupMapping) :=
  rows ← db_get (λ s, filter (λ m, mr_policy m = uuid_string id) (group_mappings s));
  db_lift (collect (λ m, ok_or (public ← get_uint U16_MAX (mr_public_port m); target ← get_uint U16_MAX (mr_target_port m);
                                Some {| gm_public_port := public; gm_target_port := target; gm_target_addr := mr_target_addr m |}) GroupDatabase) rows).
Definition set_port_group_enabled (id : Z) (enabled : bool) : db PortGroupPolicyError TunnelTables bool :=
  found ← db_get (λ s, present (uuid_string id) (port_groups s));
  _ ← db_put (λ s, set_groups (alter (λ row, {| gr_client := gr_client row; gr_name := gr_name row; gr_protocol := gr_protocol row;
        gr_public_ports := gr_public_ports row; gr_target_host := gr_target_host row; gr_target_ports := gr_target_ports row;
        gr_mapping_count := gr_mapping_count row; gr_max_connections := gr_max_connections row; gr_max_sessions := gr_max_sessions row;
        gr_idle := gr_idle row; gr_bandwidth := gr_bandwidth row; gr_enabled := sql_bool enabled |}) (uuid_string id) (port_groups s)) (group_mappings s) s);
  mret found.
Definition delete_port_group (id : Z) : db PortGroupPolicyError TunnelTables (option PortGroupPolicy) :=
  policy ← port_group_by_id id;
  match policy with
  | None => mret None
  | Some policy => transaction (
      _ ← db_put (delete_mappings id);
      _ ← db_put (λ s, set_groups (delete (uuid_string id) (port_groups s)) (group_mappings s) s);
      mret (true, Some policy))
  end.

(** ** Opening *)

(** [validate_existing_public_ports], the tables having been created: [false] is a refusal to start. *)
Definition validate_existing_public_ports (ports : PublicPortPolicy) (s : TunnelTables) : bool :=
  let each {R} (port : R → Z) (t : gmap rstr R) (allowed : Z → bool) :=
    all (λ x : rstr * R, within 0 U16_MAX (port x.2) && allowed (port x.2)) (map_to_list t) in
  each tr_port (tcp_tunnels s) (allows_tcp ports) && each pr_port (http_proxies s) (allows_tcp ports) &&
  each ur_port (udp_tunnels s) (allows_udp ports) &&
  each pr_port (socks5_proxies s) (λ p, allows_tcp ports p && allows_udp ports p) &&
  all (λ m, within 0 U16_MAX (mr_public_port m) &&
            match group_parse (mr_protocol m) with Some p => allows_group ports p (mr_public_port m) | None => false end) (group_mappings s).
End catalog.
