(* ===== verification/TunnelPorts.v ===== *)
(** * Tunnel policies: who owns which public port ([tunnel_catalog.rs])

    A TCP port is taken by a TCP tunnel, a proxy or a TCP port group, a UDP port by a UDP tunnel,
    a SOCKS5 proxy or a UDP port group. The tables only make ports unique within one kind; the
    queries before each statement do so across kinds. *)

From S2P Require Import Prelude DbMonad RustStr RustText NetAddr PortMapping TargetPool AdminAuth TrafficControl PortPolicy TunnelTables TunnelCatalog.
Local Open Scope Z_scope.
Set Default Proof Using "Type".

(** ** Owners *)

Inductive OwnerKind := OTcp | OUdp | OSocks5 | OHttp | OGroup.
Definition Owner : Type := OwnerKind * rstr.

Definition owns (s : TunnelTables) (proto : PortGroupProtocol) (o : Owner) (p : Z) : Prop :=
  match o.1 with
  | OTcp => proto = GroupTcp ∧ ∃ r, tcp_tunnels s !! o.2 = Some r ∧ tr_port r = p
  | OUdp => proto = GroupUdp ∧ ∃ r, udp_tunnels s !! o.2 = Some r ∧ ur_port r = p
  | OSocks5 => ∃ r, socks5_proxies s !! o.2 = Some r ∧ pr_port r = p
  | OHttp => proto = GroupTcp ∧ ∃ r, http_proxies s !! o.2 = Some r ∧ pr_port r = p
  | OGroup => ∃ m, m ∈ group_mappings s ∧ mr_policy m = o.2 ∧ mr_protocol m = group_as_str proto ∧ mr_public_port m = p
  end.
Definition exclusive (s : TunnelTables) : Prop := ∀ proto o o' p, owns s proto o p → owns s proto o' p → o = o'.

(** ** What the queries say *)

Lemma any_false {A} (f : A → bool) l : any f l = false ↔ ∀ x, x ∈ l → f x = false.
Proof. rewrite any_false_Forall, Forall_forall. done. Qed.
Lemma other_false except k : other except k = false ↔ except = Some k.
Proof.
  unfold other. destruct except as [e|]; [|done]. rewrite negb_false_iff, bool_decide_eq_true. split; [by intros ->|by intros [= ->]].
Qed.
Lemma used_false {R} (port : R → Z) p except t :
  used port p except t = false ↔ ∀ k r, t !! k = Some r → port r = p → except = Some k.
Proof.
  unfold used. rewrite any_false. split.
  - intros H k r Hr Hp. specialize (H (k, r)). rewrite elem_of_map_to_list in H. specialize (H Hr). cbn in H.
    rewrite (proj2 (Z.eqb_eq _ _) Hp) in H. by apply other_false in H.
  - intros H [k r] Hr%elem_of_map_to_list. cbn. destruct (Z.eqb_spec (port r) p) as [E|]; [|done]. by apply other_false, (H k r).
Qed.
Lemma mapped_false proto p except l :
  mapped proto p except l = false ↔
  ∀ m, m ∈ l → mr_public_port m = p → (∀ q, proto = Some q → mr_protocol m = group_as_str q) → except = Some (mr_policy m).
Proof.
  unfold mapped. rewrite any_false. split.
  - intros H m Hm Hp Hq. specialize (H m Hm). rewrite (proj2 (Z.eqb_eq _ _) Hp), andb_true_r in H. apply other_false.
    destruct proto as [q|]; [|done]. by rewrite bool_decide_true in H by (by apply Hq).
  - intros H m Hm. destruct (Z.eqb_spec (mr_public_port m) p) as [E|]; [|by rewrite andb_false_r]. rewrite andb_true_r.
    destruct proto as [q|]; [case_bool_decide|]; try done; cbn; apply other_false, (H m Hm E); intros q' Eq; congruence.
Qed.

(** The owners of a port after one row or group was written. *)
Lemma exclusive_grow s s' o0 (new : PortGroupProtocol → Z → Prop) :
  exclusive s → (∀ proto o p, owns s' proto o p → owns s proto o p ∨ (o = o0 ∧ new proto p)) →
  (∀ proto o p, new proto p → owns s proto o p → o = o0) → exclusive s'.
Proof.
  intros Hex Hgrow Hnew proto o o' p Ho Ho'. destruct (Hgrow _ _ _ Ho) as [H|[-> H]], (Hgrow _ _ _ Ho') as [H'|[-> H']]; [by eapply Hex| | |done].
  - by apply (Hnew proto o p).
  - symmetry. by apply (Hnew proto o' p).
Qed.
Lemma exclusive_shrink s s' : exclusive s → (∀ proto o p, owns s' proto o p → owns s proto o p) → exclusive s'.
Proof. intros Hex H proto o o' p Ho Ho'. by eapply Hex; apply H. Qed.

Ltac owner_case o := destruct o as [[] ?]; unfold owns in *; cbn in *.
Lemma owns_set_tcp s k r proto o p :
  owns (set_tcp (<[k := r]> (tcp_tunnels s)) s) proto o p → owns s proto o p ∨ (o = (OTcp, k) ∧ proto = GroupTcp ∧ p = tr_port r).
Proof.
  owner_case o; auto. intros (-> & r' & [[-> ->]|[_ Hr]]%lookup_insert_Some & <-); [by right|left; eauto].
Qed.
Lemma owns_set_udp s k r proto o p :
  owns (set_udp (<[k := r]> (udp_tunnels s)) s) proto o p → owns s proto o p ∨ (o = (OUdp, k) ∧ proto = GroupUdp ∧ p = ur_port r).
Proof.
  owner_case o; auto. intros (-> & r' & [[-> ->]|[_ Hr]]%lookup_insert_Some & <-); [by right|left; eauto].
Qed.
Lemma owns_set_socks5 s k r proto o p :
  owns (set_socks5 (<[k := r]> (socks5_proxies s)) s) proto o p → owns s proto o p ∨ (o = (OSocks5, k) ∧ p = pr_port r).
Proof.
  owner_case o; auto. intros (r' & [[-> ->]|[_ Hr]]%lookup_insert_Some & <-); [by right|left; eauto].
Qed.
Lemma owns_set_http s k r proto o p :
  owns (set_http (<[k := r]> (http_proxies s)) s) proto o p → owns s proto o p ∨ (o = (OHttp, k) ∧ proto = GroupTcp ∧ p = pr_port r).
Proof.
  owner_case o; auto. intros (-> & r' & [[-> ->]|[_ Hr]]%lookup_insert_Some & <-); [by right|left; eauto].
Qed.
Lemma owns_delete s k proto o p :
  (owns (set_tcp (delete k (tcp_tunnels s)) s) proto o p → owns s proto o p) ∧ (owns (set_udp (delete k (udp_tunnels s)) s) proto o p → owns s proto o p) ∧
  (owns (set_socks5 (delete k (socks5_proxies s)) s) proto o p → owns s proto o p) ∧ (owns (set_http (delete k (http_proxies s)) s) proto o p → owns s proto o p).
Proof.
  split_and!; owner_case o; auto.
  - intros (-> & r & [_ Hr]%lookup_delete_Some & <-). eauto.
  - intros (-> & r & [_ Hr]%lookup_delete_Some & <-). eauto.
  - intros (r & [_ Hr]%lookup_delete_Some & <-). eauto.
  - intros (-> & r & [_ Hr]%lookup_delete_Some & <-). eauto.
Qed.

(** ** The invariant *)

Section invariant.
Context {plat : Platform} {laws : PlatformLaws}.

Definition port_ok (p : Z) : Prop := 0 ≤ p ≤ U16_MAX.
Definition tunnel_limits_ok (max hi : Z) (bandwidth : option Z) : Prop := 1 ≤ max ≤ hi ∧ bandwidth_valid bandwidth = true.
Definition tcp_wf (ports : PublicPortPolicy) (p : TcpTunnelPolicy) : Prop :=
  uuid_ok (tcp_id p) ∧ uuid_ok (tcp_client p) ∧ port_ok (tcp_port p) ∧ allows_tcp ports (tcp_port p) = true ∧
  tunnel_limits_ok (tcp_max_connections p) 1024 (tcp_bandwidth p).
Definition udp_wf (ports : PublicPortPolicy) (p : UdpTunnelPolicy) : Prop :=
  uuid_ok (udp_id p) ∧ uuid_ok (udp_client p) ∧ port_ok (udp_port p) ∧ allows_udp ports (udp_port p) = true ∧
  tunnel_limits_ok (udp_max_sessions p) 4096 (udp_bandwidth p) ∧ 30 ≤ udp_idle p ≤ 3600.
Definition proxy_wf (p : ProxyPolicy) : Prop :=
  uuid_ok (px_id p) ∧ uuid_ok (px_client p) ∧ port_ok (px_port p) ∧ tunnel_limits_ok (px_max_connections p) 1024 (px_bandwidth p).
Definition group_wf (ports : PublicPortPolicy) (p : PortGroupPolicy) (parsed : ParsedPortMappings) : Prop :=
  uuid_ok (pg_id p) ∧ uuid_ok (pg_client p) ∧ tunnel_limits_ok (pg_max_connections p) 1024 (pg_bandwidth p) ∧ 1 ≤ pg_max_sessions p ≤ 4096 ∧
  30 ≤ pg_idle p ≤ 3600 ∧ parse_port_mappings (pg_public_ports p) (pg_target_ports p) 1 U16_MAX MAX_PORT_MAPPINGS = Ok parsed ∧
  pg_mapping_count p = len (pairs parsed) ∧ Forall (λ x, allows_group ports (pg_protocol p) (public_port x) = true) (pairs parsed).

Definition tcp_stored (s : TunnelTables) (p : TcpTunnelPolicy) : Prop :=
  tcp_tunnels s !! uuid_string (tcp_id p) = Some (tcp_row p (sql_bool (tcp_enabled p))).
Definition udp_stored (s : TunnelTables) (p : UdpTunnelPolicy) : Prop :=
  udp_tunnels s !! uuid_string (udp_id p) = Some (udp_row p (sql_bool (udp_enabled p))).
Definition group_stored (s : TunnelTables) (p : PortGroupPolicy) (parsed : ParsedPortMappings) : Prop :=
  port_groups s !! uuid_string (pg_id p) = Some (group_row p (sql_bool (pg_enabled p))) ∧
  filter (λ m, mr_policy m = uuid_string (pg_id p)) (group_mappings s) = mapping_row (pg_id p) (pg_protocol p) (pg_target_host p) <$> pairs parsed.

Record tunnels_ok (ports : PublicPortPolicy) (s : TunnelTables) : Prop := {
  to_tcp : ∀ k r, tcp_tunnels s !! k = Some r → ∃ p, k = uuid_string (tcp_id p) ∧ r = tcp_row p (sql_bool (tcp_enabled p)) ∧ tcp_wf ports p;
  to_udp : ∀ k r, udp_tunnels s !! k = Some r → ∃ p, k = uuid_string (udp_id p) ∧ r = udp_row p (sql_bool (udp_enabled p)) ∧ udp_wf ports p;
  to_socks5 : ∀ k r, socks5_proxies s !! k = Some r → ∃ p h, k = uuid_string (px_id p) ∧ r = proxy_row p h (sql_bool (px_enabled p)) ∧ proxy_wf p ∧
              allows_tcp ports (px_port p) = true ∧ allows_udp ports (px_port p) = true;
  to_http : ∀ k r, http_proxies s !! k = Some r → ∃ p h, k = uuid_string (px_id p) ∧ r = proxy_row p h (sql_bool (px_enabled p)) ∧ proxy_wf p ∧
            allows_tcp ports (px_port p) = true;
  to_groups : ∀ k r, port_groups s !! k = Some r → ∃ p parsed, k = uuid_string (pg_id p) ∧ r = group_row p (sql_bool (pg_enabled p)) ∧
              group_wf ports p parsed ∧ group_stored s p parsed;
  to_mappings : ∀ m, m ∈ group_mappings s → is_Some (port_groups s !! mr_policy m);
  to_ids : ∀ k, is_Some (port_groups s !! k) →
           tcp_tunnels s !! k = None ∧ udp_tunnels s !! k = None ∧ socks5_proxies s !! k = None ∧ http_proxies s !! k = None;
  to_exclusive : exclusive s;
}.

(** ** Rows read back *)

Lemma get_uint_ok max n : 0 ≤ n ≤ max → get_uint max n = Some n.
Proof. intros H. unfold get_uint, within. rewrite (proj2 (Z.leb_le _ _)), (proj2 (Z.leb_le _ _)) by lia. done. Qed.
Lemma bandwidth_range b n : bandwidth_valid b = true → b = Some n → 1024 ≤ n ≤ 1000000000.
Proof.
  intros H ->. unfold bandwidth_valid, within in H. apply andb_true_iff in H as [H1%Z.leb_le H2%Z.leb_le].
  unfold MIN_BANDWIDTH_LIMIT_BPS, MAX_BANDWIDTH_LIMIT_BPS in *. lia.
Qed.
Lemma get_limit_ok b : bandwidth_valid b = true → get_limit b = Some b.
Proof.
  intros H. destruct b as [n|]; [|done]. pose proof (bandwidth_range _ _ H eq_refl). cbn. by rewrite get_uint_ok by lia.
Qed.
Lemma sql_bool_read b : negb (sql_bool b =? 0) = b.
Proof. by destruct b. Qed.

Lemma read_tcp_row ports p : tcp_wf ports p → read_tcp (uuid_string (tcp_id p)) (tcp_row p (sql_bool (tcp_enabled p))) = Some p.
Proof using laws.
  intros (H1 & H2 & H3 & _ & H4 & H5). unfold read_tcp. cbn. rewrite !uuid_parse_string by done. cbn.
  rewrite !get_uint_ok by (unfold port_ok in *; lia). cbn. rewrite get_limit_ok by done. cbn. rewrite sql_bool_read. by destruct p.
Qed.
Lemma read_udp_row ports p : udp_wf ports p → read_udp (uuid_string (udp_id p)) (udp_row p (sql_bool (udp_enabled p))) = Some p.
Proof using laws.
  intros (H1 & H2 & H3 & _ & [H4 H5] & H6). unfold read_udp. cbn. rewrite !uuid_parse_string by done. cbn.
  rewrite !get_uint_ok by (unfold port_ok in *; lia). cbn. rewrite get_limit_ok by done. cbn. rewrite sql_bool_read. by destruct p.
Qed.
Lemma read_proxy_row p h : proxy_wf p → read_proxy (uuid_string (px_id p)) (proxy_row p h (sql_bool (px_enabled p))) = Some p.
Proof using laws.
  intros (H1 & H2 & H3 & H4 & H5). unfold read_proxy. cbn. rewrite !uuid_parse_string by done. cbn.
  rewrite !get_uint_ok by (unfold port_ok in *; lia). cbn. rewrite get_limit_ok by done. cbn. rewrite !sql_bool_read. by destruct p.
Qed.
Lemma parsed_count pe te parsed : parse_port_mappings pe te 1 U16_MAX MAX_PORT_MAPPINGS = Ok parsed →
  NoDup (public_port <$> pairs parsed) ∧ len (pairs parsed) ≤ 256 ∧
  Forall (λ x, 1 ≤ public_port x ≤ U16_MAX ∧ 1 ≤ target_port x ≤ U16_MAX) (pairs parsed) ∧
  parse_port_mappings (public_ports parsed) (target_ports parsed) 1 U16_MAX MAX_PORT_MAPPINGS = Ok parsed.
Proof.
  intros H. apply parse_port_mappings_canonical in H as (H1 & H2 & H3 & H4 & H5 & H6); [|lia..|unfold MAX_PORT_MAPPINGS; lia].
  split; [done|]. split; [unfold MAX_PORT_MAPPINGS in H3; lia|]. split; [|done].
  apply parse_port_set_inv in H4 as ((_ & F1 & _) & _); [|unfold MAX_PORT_MAPPINGS; lia].
  apply parse_port_set_inv in H5 as ((_ & F2 & _) & _); [|unfold MAX_PORT_MAPPINGS; lia].
  rewrite Forall_fmap in F1, F2. rewrite Forall_forall in *. intros x Hx. split; [by apply F1|by apply F2].
Qed.
Lemma read_group_row ports p parsed : group_wf ports p parsed → read_group (uuid_string (pg_id p)) (group_row p (sql_bool (pg_enabled p))) = Some p.
Proof using laws.
  intros (H1 & H2 & [H3 H4] & H5 & H6 & H7 & H8 & _). apply parsed_count in H7 as (_ & H7 & _). pose proof (len_nonneg (pairs parsed)).
  unfold read_group. cbn. rewrite !uuid_parse_string by done. cbn. rewrite protocol_round_trip. cbn.
  rewrite !get_uint_ok by lia. cbn. rewrite get_limit_ok by done. cbn. rewrite sql_bool_read. by destruct p.
Qed.

(** ** One row is written *)

Lemma tcp_put ports s p :
  tunnels_ok ports s → tcp_wf ports p → port_groups s !! uuid_string (tcp_id p) = None →
  (∀ o, owns s GroupTcp o (tcp_port p) → o = (OTcp, uuid_string (tcp_id p))) →
  tunnels_ok ports (set_tcp (<[uuid_string (tcp_id p) := tcp_row p (sql_bool (tcp_enabled p))]> (tcp_tunnels s)) s).
Proof.
  intros [H1 H2 H3 H4 H5 H6 H7 H8] Hwf Hid Hfree. split; cbn; try done.
  - intros k r [[<- <-]|[_ Hr]]%lookup_insert_Some; [by exists p|by apply H1].
  - intros k Hk. destruct (H7 k Hk) as (A1 & A2). split; [|done]. apply lookup_insert_None. split; [done|]. intros <-. rewrite Hid in Hk. by destruct Hk.
  - eapply exclusive_grow; [exact H8|intros proto o q; apply owns_set_tcp|]. intros proto o q [-> ->] Ho. by apply Hfree.
Qed.
Lemma udp_put ports s p :
  tunnels_ok ports s → udp_wf ports p → port_groups s !! uuid_string (udp_id p) = None →
  (∀ o, owns s GroupUdp o (udp_port p) → o = (OUdp, uuid_string (udp_id p))) →
  tunnels_ok ports (set_udp (<[uuid_string (udp_id p) := udp_row p (sql_bool (udp_enabled p))]> (udp_tunnels s)) s).
Proof.
  intros [H1 H2 H3 H4 H5 H6 H7 H8] Hwf Hid Hfree. split; cbn; try done.
  - intros k r [[<- <-]|[_ Hr]]%lookup_insert_Some; [by exists p|by apply H2].
  - intros k Hk. destruct (H7 k Hk) as (A1 & A2 & A3). split_and!; try apply A3; [done|]. apply lookup_insert_None. split; [done|]. intros <-. rewrite Hid in Hk. by destruct Hk.
  - eapply exclusive_grow; [exact H8|intros proto o q; apply owns_set_udp|]. intros proto o q [-> ->] Ho. by apply Hfree.
Qed.
Lemma socks5_put ports s p h :
  tunnels_ok ports s → proxy_wf p → allows_tcp ports (px_port p) = true → allows_udp ports (px_port p) = true →
  port_groups s !! uuid_string (px_id p) = None →
  (∀ proto o, owns s proto o (px_port p) → o = (OSocks5, uuid_string (px_id p))) →
  tunnels_ok ports (set_socks5 (<[uuid_string (px_id p) := proxy_row p h (sql_bool (px_enabled p))]> (socks5_proxies s)) s).
Proof.
  intros [H1 H2 H3 H4 H5 H6 H7 H8] Hwf Ht Hu Hid Hfree. split; cbn; try done.
  - intros k r [[<- <-]|[_ Hr]]%lookup_insert_Some; [by exists p, h|by apply H3].
  - intros k Hk. destruct (H7 k Hk) as (A1 & A2 & A3 & A4). split_and!; try done. apply lookup_insert_None. split; [done|]. intros <-. rewrite Hid in Hk. by destruct Hk.
  - eapply (exclusive_grow _ _ _ (λ _ q, q = px_port p)); [exact H8|intros proto o q; apply owns_set_socks5|]. intros proto o q -> Ho. by eapply Hfree.
Qed.
Lemma http_put ports s p h :
  tunnels_ok ports s → proxy_wf p → allows_tcp ports (px_port p) = true → port_groups s !! uuid_string (px_id p) = None →
  (∀ o, owns s GroupTcp o (px_port p) → o = (OHttp, uuid_string (px_id p))) →
  tunnels_ok ports (set_http (<[uuid_string (px_id p) := proxy_row p h (sql_bool (px_enabled p))]> (http_proxies s)) s).
Proof.
  intros [H1 H2 H3 H4 H5 H6 H7 H8] Hwf Ht Hid Hfree. split; cbn; try done.
  - intros k r [[<- <-]|[_ Hr]]%lookup_insert_Some; [by exists p, h|by apply H4].
  - intros k Hk. destruct (H7 k Hk) as (A1 & A2 & A3 & A4). split_and!; try done. apply lookup_insert_None. split; [done|]. intros <-. rewrite Hid in Hk. by destruct Hk.
  - eapply exclusive_grow; [exact H8|intros proto o q; apply owns_set_http|]. intros proto o q [-> ->] Ho. by apply Hfree.
Qed.

Lemma rows_delete ports s k : tunnels_ok ports s →
  tunnels_ok ports (set_tcp (delete k (tcp_tunnels s)) s) ∧ tunnels_ok ports (set_udp (delete k (udp_tunnels s)) s) ∧
  tunnels_ok ports (set_socks5 (delete k (socks5_proxies s)) s) ∧ tunnels_ok ports (set_http (delete k (http_proxies s)) s).
Proof.
  intros [H1 H2 H3 H4 H5 H6 H7 H8].
  split_and!; (split; cbn; try done; [intros k' r [_ Hr]%lookup_delete_Some; eauto
    |intros k' Hk'; destruct (H7 k' Hk') as (A1 & A2 & A3 & A4); split_and!; try done; rewrite lookup_delete_None; auto
    |eapply exclusive_shrink; [exact H8|intros proto o p; apply (owns_delete s k proto o p)]]).
Qed.

(** ** Free ports *)

Lemma tcp_owner s p o e1 e2 e3 e4 :
  used tr_port p e1 (tcp_tunnels s) = false → used pr_port p e2 (socks5_proxies s) = false → used pr_port p e3 (http_proxies s) = false →
  mapped (Some GroupTcp) p e4 (group_mappings s) = false → owns s GroupTcp o p →
  match o.1 with OTcp => e1 | OSocks5 => e2 | OHttp => e3 | OGroup => e4 | OUdp => None end = Some o.2.
Proof.
  rewrite !used_false, mapped_false. intros H1 H2 H3 H4 Ho. owner_case o.
  - destruct Ho as (_ & r & Hr & E). eauto.
  - by destruct Ho.
  - destruct Ho as (r & Hr & E). eauto.
  - destruct Ho as (_ & r & Hr & E). eauto.
  - destruct Ho as (m & Hm & <- & Ep & Eq). apply H4; [done|done|]. by intros q [= <-].
Qed.
Lemma udp_owner s p o e1 e2 e3 :
  used ur_port p e1 (udp_tunnels s) = false → used pr_port p e2 (socks5_proxies s) = false → mapped (Some GroupUdp) p e3 (group_mappings s) = false →
  owns s GroupUdp o p → match o.1 with OUdp => e1 | OSocks5 => e2 | OGroup => e3 | _ => None end = Some o.2.
Proof.
  rewrite !used_false, mapped_false. intros H1 H2 H3 Ho. owner_case o.
  - by destruct Ho.
  - destruct Ho as (_ & r & Hr & E). eauto.
  - destruct Ho as (r & Hr & E). eauto.
  - by destruct Ho.
  - destruct Ho as (m & Hm & <- & Ep & Eq). apply H3; [done|done|]. by intros q [= <-].
Qed.
Lemma mapped_any p e l proto : mapped None p e l = false → mapped (Some proto) p e l = false.
Proof. rewrite !mapped_false. intros H m Hm Hp _. by apply H. Qed.
Lemma not_a_group ports s k proto p : tunnels_ok ports s → port_groups s !! k = None → ¬ owns s proto (OGroup, k) p.
Proof. intros Hok Hn (m & Hm & E & _). cbn in E. destruct (to_mappings _ _ Hok m Hm) as [r Hr]. congruence. Qed.

(** ** Operations *)

Definition keeps_tunnels {E A} (ports : PublicPortPolicy) (s : TunnelTables) (out : result E A) (s' : TunnelTables) : Prop :=
  tunnels_ok ports s' ∧ ∀ e, out = Err e → s' = s.
Lemma keeps_same {E A} ports s (out : result E A) : tunnels_ok ports s → keeps_tunnels ports s out s.
Proof. by split. Qed.
Lemma keeps_ok {E A} ports s s' (a : A) : tunnels_ok ports s' → keeps_tunnels (E := E) ports s (Ok a) s'.
Proof. by split. Qed.

Definition unused_id (s : TunnelTables) (k : rstr) : Prop :=
  tcp_tunnels s !! k = None ∧ udp_tunnels s !! k = None ∧ socks5_proxies s !! k = None ∧ http_proxies s !! k = None ∧ port_groups s !! k = None.

Lemma requested_tcp_wf ports id enabled request : uuid_ok id → uuid_ok (ct_client request) → port_ok (ct_port request) →
  validate_policy ports request = Ok tt → ∃ p, requested_tcp ports id enabled request = Ok p ∧ tcp_wf ports p ∧ tcp_id p = id ∧ tcp_port p = ct_port request ∧ tcp_enabled p = enabled.
Proof.
  intros Hid Hc Hp Hv. unfold requested_tcp. rewrite Hv. eexists. split; [done|]. split; [|done]. unfold validate_policy in Hv.
  bind_as Hv u1 E1. bind_as Hv u2 E2. bind_as Hv u3 E3. bind_as Hv u4 E4. apply reject_if_Ok in E2, E4, Hv.
  apply negb_false_iff in E2, E4, Hv. apply andb_true_iff in E4 as [E4%Z.leb_le E5%Z.leb_le]. unfold tcp_wf, tunnel_limits_ok. cbn. by split_and!.
Qed.
Lemma requested_udp_wf ports id enabled request : uuid_ok id → uuid_ok (cu_client request) → port_ok (cu_port request) →
  validate_udp_policy ports request = Ok tt → ∃ p, requested_udp ports id enabled request = Ok p ∧ udp_wf ports p ∧ udp_id p = id ∧ udp_port p = cu_port request ∧ udp_enabled p = enabled.
Proof.
  intros Hid Hc Hp Hv. unfold requested_udp. rewrite Hv. eexists. split; [done|]. split; [|done]. unfold validate_udp_policy in Hv. cbv zeta in Hv.
  bind_as Hv u1 E1. bind_as Hv u2 E2. bind_as Hv u3 E3. bind_as Hv u4 E4. bind_as Hv u5 E5. apply reject_if_Ok in E2, E4, E5, Hv.
  apply negb_false_iff in E2, E4, E5, Hv. apply andb_true_iff in E4 as [E4%Z.leb_le E6%Z.leb_le], E5 as [E5%Z.leb_le E7%Z.leb_le].
  unfold udp_wf, tunnel_limits_ok. cbn. by split_and!.
Qed.
Lemma proxy_of_wf id enabled request : uuid_ok id → uuid_ok (cp_client request) → port_ok (cp_port request) →
  within 1 1024 (default DEFAULT_MAX_CONNECTIONS (cp_max_connections request)) = true → bandwidth_valid (cp_bandwidth request) = true →
  proxy_wf (proxy_of id enabled request).
Proof. intros Hid Hc Hp [H1%Z.leb_le H2%Z.leb_le]%andb_true_iff Hb. unfold proxy_wf, tunnel_limits_ok. cbn. by split_and!. Qed.
Lemma requested_socks5_wf ports id enabled request : uuid_ok id → uuid_ok (cp_client request) → port_ok (cp_port request) →
  validate_socks5_policy ports request = Ok tt → requested_socks5 ports id enabled request = Ok (proxy_of id enabled request) ∧
  proxy_wf (proxy_of id enabled request) ∧ allows_tcp ports (cp_port request) = true ∧ allows_udp ports (cp_port request) = true.
Proof.
  intros Hid Hc Hp Hv. unfold requested_socks5. rewrite Hv. split; [done|]. unfold validate_socks5_policy in Hv.
  bind_as Hv u1 E1. bind_as Hv u2 E2. bind_as Hv u3 E3. bind_as Hv u4 E4. apply reject_if_Ok in E2, E4, Hv.
  apply orb_false_iff in E2 as [E2 E5]. apply negb_false_iff in E2, E4, E5, Hv. split; [by apply proxy_of_wf|done].
Qed.
Lemma requested_http_wf ports id enabled request : uuid_ok id → uuid_ok (cp_client request) → port_ok (cp_port request) →
  validate_http_proxy_policy ports request = Ok tt → requested_http_proxy ports id enabled request = Ok (proxy_of id enabled request) ∧
  proxy_wf (proxy_of id enabled request) ∧ allows_tcp ports (cp_port request) = true.
Proof.
  intros Hid Hc Hp Hv. unfold requested_http_proxy. rewrite Hv. split; [done|]. unfold validate_http_proxy_policy in Hv.
  bind_as Hv u1 E1. bind_as Hv u2 E2. bind_as Hv u3 E3. bind_as Hv u4 E4. apply reject_if_Ok in E2, E4, Hv.
  apply negb_false_iff in E2, E4, Hv. split; [by apply proxy_of_wf|done].
Qed.

Ltac checks H := repeat match type of H with negb _ = true => apply negb_true_iff in H | _ || _ = false => apply orb_false_iff in H as [H ?] end.

Lemma create_tcp_ok ports s request id :
  tunnels_ok ports s → uuid_ok id → uuid_ok (ct_client request) → port_ok (ct_port request) → unused_id s (uuid_string id) →
  ensures (create_tcp ports request id) s (keeps_tunnels ports s).
Proof.
  intros Hok Hid Hc Hp (_ & _ & _ & _ & Hg). unfold create_tcp. do 2 db_step. destruct (validate_policy ports request) as [[]|e] eqn:Hv; [|by apply keeps_same].
  do 4 db_step; [|by apply keeps_same]. do 2 db_step.
  destruct (requested_tcp_wf ports id true request Hid Hc Hp Hv) as (p & -> & Hwf & Ei & Ep & Ee).
  do 4 db_step; [|by apply keeps_same]. do 3 db_step. checks H. checks H0. apply keeps_ok.
  rewrite <- Ei in *. replace 1 with (sql_bool (tcp_enabled p)) by by rewrite Ee. apply tcp_put; [done|done|done|].
  intros o Ho. rewrite Ep in *. exfalso. pose proof (tcp_owner s (ct_port request) o None None None None) as Hx. destruct o as [[] k]; cbn in Hx; by discriminate Hx.
Qed.
Lemma update_tcp_ok ports s request id :
  tunnels_ok ports s → uuid_ok id → uuid_ok (ct_client request) → port_ok (ct_port request) → ensures (update_tcp ports id request) s (keeps_tunnels ports s).
Proof using laws.
  intros Hok Hid Hc Hp. unfold update_tcp. do 2 db_step. destruct (validate_policy ports request) as [[]|e] eqn:Hv; [|by apply keeps_same].
  db_step. unfold tcp_policy_by_id. do 2 db_step. destruct (tcp_tunnels s !! uuid_string id) as [row|] eqn:Hrow; [|db_step; by apply keeps_same].
  destruct (to_tcp _ _ Hok _ _ Hrow) as (old & Eid & -> & Hwf0). rewrite Eid, (read_tcp_row ports) by done. cbn [ok_or]. do 3 db_step. cbv zeta. rewrite <- Eid.
  do 4 db_step; [|by apply keeps_same]. do 2 db_step.
  destruct (requested_tcp_wf ports id (tcp_enabled old) request Hid Hc Hp Hv) as (p & -> & Hwf & Ei & Ep & Ee).
  do 4 db_step; [|by apply keeps_same]. do 3 db_step. checks H. apply keeps_ok.
  rewrite (alter_known _ _ _ _ Hrow). cbn [tr_enabled tcp_row]. rewrite <- Ee. rewrite <- Ei in *.
  assert (port_groups s !! uuid_string (tcp_id p) = None) as Hg.
  { apply eq_None_not_Some. intros Hk. destruct (to_ids _ _ Hok _ Hk) as [Hx _]. congruence. }
  apply tcp_put; [done|done|done|]. intros o Ho. rewrite Ep in *.
  pose proof (tcp_owner s (ct_port request) o _ None None _ H ltac:(done) ltac:(done) ltac:(eassumption) Ho) as Hx.
  destruct o as [[] k]; cbn in Hx; try discriminate Hx; injection Hx as <-; [done|]. by apply (not_a_group ports) in Ho.
Qed.
Lemma set_tcp_enabled_ok ports s id enabled : tunnels_ok ports s → ensures (set_tcp_enabled id enabled) s (keeps_tunnels ports s).
Proof.
  intros Hok. unfold set_tcp_enabled. do 5 db_step. apply keeps_ok. destruct (tcp_tunnels s !! uuid_string id) as [row|] eqn:Hrow.
  - rewrite (alter_known _ _ _ _ Hrow). destruct (to_tcp _ _ Hok _ _ Hrow) as (old & Eid & -> & Hwf).
    set (p := {| tcp_id := tcp_id old; tcp_client := tcp_client old; tcp_name := tcp_name old; tcp_port := tcp_port old; tcp_target := tcp_target old;
                 tcp_max_connections := tcp_max_connections old; tcp_bandwidth := tcp_bandwidth old; tcp_enabled := enabled |}). rewrite Eid.
    apply (tcp_put ports s p); [done|done| |].
    + apply eq_None_not_Some. intros Hk. cbn in Hk. rewrite <- Eid in Hk. destruct (to_ids _ _ Hok _ Hk) as [Hx _]. congruence.
    + intros o Ho. apply (to_exclusive _ _ Hok GroupTcp _ _ _ Ho). split; [done|]. cbn. rewrite <- Eid. eauto.
  - rewrite alter_id by (intros r Hr; congruence). by destruct s.
Qed.
Lemma delete_tcp_ok ports s id : tunnels_ok ports s → ensures (delete_tcp id) s (keeps_tunnels ports s).
Proof. intros Hok. unfold delete_tcp. do 5 db_step. apply keeps_ok. by apply rows_delete. Qed.

Lemma create_udp_ok ports s request id :
  tunnels_ok ports s → uuid_ok id → uuid_ok (cu_client request) → port_ok (cu_port request) → unused_id s (uuid_string id) →
  ensures (create_udp ports request id) s (keeps_tunnels ports s).
Proof.
  intros Hok Hid Hc Hp (_ & _ & _ & _ & Hg). unfold create_udp. do 2 db_step. destruct (validate_udp_policy ports request) as [[]|e] eqn:Hv; [|by apply keeps_same].
  do 4 db_step; [|by apply keeps_same]. do 2 db_step.
  destruct (requested_udp_wf ports id true request Hid Hc Hp Hv) as (p & -> & Hwf & Ei & Ep & Ee).
  do 4 db_step; [|by apply keeps_same]. do 3 db_step. checks H. checks H0. apply keeps_ok.
  rewrite <- Ei in *. replace 1 with (sql_bool (udp_enabled p)) by by rewrite Ee. apply udp_put; [done|done|done|].
  intros o Ho. rewrite Ep in *. exfalso. pose proof (udp_owner s (cu_port request) o None None None) as Hx. destruct o as [[] k]; cbn in Hx; by discriminate Hx.
Qed.
Lemma update_udp_ok ports s request id :
  tunnels_ok ports s → uuid_ok id → uuid_ok (cu_client request) → port_ok (cu_port request) → ensures (update_udp ports id request) s (keeps_tunnels ports s).
Proof using laws.
  intros Hok Hid Hc Hp. unfold update_udp. do 2 db_step. destruct (validate_udp_policy ports request) as [[]|e] eqn:Hv; [|by apply keeps_same].
  db_step. unfold udp_policy_by_id. do 2 db_step. destruct (udp_tunnels s !! uuid_string id) as [row|] eqn:Hrow; [|db_step; by apply keeps_same].
  destruct (to_udp _ _ Hok _ _ Hrow) as (old & Eid & -> & Hwf0). rewrite Eid, (read_udp_row ports) by done. cbn [ok_or]. do 3 db_step. cbv zeta. rewrite <- Eid.
  do 4 db_step; [|by apply keeps_same]. do 2 db_step.
  destruct (requested_udp_wf ports id (udp_enabled old) request Hid Hc Hp Hv) as (p & -> & Hwf & Ei & Ep & Ee).
  do 4 db_step; [|by apply keeps_same]. do 3 db_step. checks H. apply keeps_ok.
  rewrite (alter_known _ _ _ _ Hrow). cbn [ur_enabled udp_row]. rewrite <- Ee. rewrite <- Ei in *.
  assert (port_groups s !! uuid_string (udp_id p) = None) as Hg.
  { apply eq_None_not_Some. intros Hk. destruct (to_ids _ _ Hok _ Hk) as (_ & Hx & _). congruence. }
  apply udp_put; [done|done|done|]. intros o Ho. rewrite Ep in *.
  pose proof (udp_owner s (cu_port request) o _ None _ H ltac:(done) ltac:(eassumption) Ho) as Hx.
  destruct o as [[] k]; cbn in Hx; try discriminate Hx; injection Hx as <-; [done|]. by apply (not_a_group ports) in Ho.
Qed.
Lemma set_udp_enabled_ok ports s id enabled : tunnels_ok ports s → ensures (set_udp_enabled id enabled) s (keeps_tunnels ports s).
Proof.
  intros Hok. unfold set_udp_enabled. do 5 db_step. apply keeps_ok. destruct (udp_tunnels s !! uuid_string id) as [row|] eqn:Hrow.
  - rewrite (alter_known _ _ _ _ Hrow). destruct (to_udp _ _ Hok _ _ Hrow) as (old & Eid & -> & Hwf).
    set (p := {| udp_id := udp_id old; udp_client := udp_client old; udp_name := udp_name old; udp_port := udp_port old; udp_target := udp_target old;
                 udp_max_sessions := udp_max_sessions old; udp_idle := udp_idle old; udp_bandwidth := udp_bandwidth old; udp_enabled := enabled |}). rewrite Eid.
    apply (udp_put ports s p); [done|done| |].
    + apply eq_None_not_Some. intros Hk. cbn in Hk. rewrite <- Eid in Hk. destruct (to_ids _ _ Hok _ Hk) as (_ & Hx & _). congruence.
    + intros o Ho. apply (to_exclusive _ _ Hok GroupUdp _ _ _ Ho). split; [done|]. cbn. rewrite <- Eid. eauto.
  - rewrite alter_id by (intros r Hr; congruence). by destruct s.
Qed.
Lemma delete_udp_ok ports s id : tunnels_ok ports s → ensures (delete_udp id) s (keeps_tunnels ports s).
Proof. intros Hok. unfold delete_udp. do 5 db_step. apply keeps_ok. by apply rows_delete. Qed.

(** A SOCKS5 proxy needs its port for both protocols. *)
Lemma socks5_free ports s p k e :
  tunnels_ok ports s → port_groups s !! k = None →
  used tr_port p None (tcp_tunnels s) = false → used ur_port p None (udp_tunnels s) = false → used pr_port p None (http_proxies s) = false →
  used pr_port p e (socks5_proxies s) = false → mapped None p e (group_mappings s) = false → (∀ k', e = Some k' → k' = k) →
  ∀ proto o, owns s proto o p → o = (OSocks5, k).
Proof.
  intros Hok Hg H1 H2 H3 H4 H5 He proto o Ho.
  assert (match o.1 with OSocks5 | OGroup => e | _ => None end = Some o.2) as Hx.
  { destruct proto; [pose proof (tcp_owner s p o _ _ _ _ H1 H4 H3 (mapped_any _ _ _ _ H5) Ho) as Hx|pose proof (udp_owner s p o _ _ _ H2 H4 (mapped_any _ _ _ _ H5) Ho) as Hx];
      destruct o as [[] ?]; exact Hx. }
  destruct o as [[] k']; cbn in Hx; try discriminate Hx; apply He in Hx as ->; [done|]. by apply (not_a_group ports) in Ho.
Qed.
Lemma create_socks5_ok ports s request a b id :
  tunnels_ok ports s → uuid_ok id → uuid_ok (cp_client request) → port_ok (cp_port request) → unused_id s (uuid_string id) →
  ensures (create_socks5 ports request a b id) s (keeps_tunnels ports s).
Proof.
  intros Hok Hid Hc Hp (_ & _ & _ & _ & Hg). unfold create_socks5. do 2 db_step. destruct (validate_socks5_policy ports request) as [[]|e] eqn:Hv; [|by apply keeps_same].
  do 4 db_step; [|by apply keeps_same]. cbv zeta. do 2 db_step.
  destruct (requested_socks5_wf ports id true request Hid Hc Hp Hv) as (-> & Hwf & Ht & Hu). do 2 db_step.
  match goal with |- ensures (if ?c then _ else _) _ _ => destruct c eqn:Hclash end; [do 3 db_step; by apply keeps_same|]. do 3 db_step. checks H. checks Hclash. apply keeps_ok.
  apply (socks5_put ports s (proxy_of id true request)); [done|done|done|done|done|]. by eapply socks5_free.
Qed.
Lemma update_socks5_ok ports s request id :
  tunnels_ok ports s → uuid_ok id → uuid_ok (cp_client request) → port_ok (cp_port request) → ensures (update_socks5 ports id request) s (keeps_tunnels ports s).
Proof using laws.
  intros Hok Hid Hc Hp. unfold update_socks5. do 2 db_step. destruct (validate_socks5_policy ports request) as [[]|e] eqn:Hv; [|by apply keeps_same].
  db_step. unfold socks5_policy_by_id, proxy_by_id. do 2 db_step. destruct (socks5_proxies s !! uuid_string id) as [row|] eqn:Hrow; [|db_step; by apply keeps_same].
  destruct (to_socks5 _ _ Hok _ _ Hrow) as (old & h & Eid & -> & Hwf0 & _). rewrite Eid, read_proxy_row by done. cbn [ok_or]. do 3 db_step. cbv zeta. rewrite <- Eid.
  do 4 db_step; [|by apply keeps_same]. do 4 db_step; [|by apply keeps_same]. do 2 db_step.
  destruct (requested_socks5_wf ports id (px_enabled old) request Hid Hc Hp Hv) as (-> & Hwf & Ht & Hu).
  do 4 db_step; [|by apply keeps_same]. do 3 db_step. checks H0. apply keeps_ok. rewrite (alter_known _ _ _ _ Hrow). cbn [pr_enabled pr_password_hash proxy_row].
  assert (port_groups s !! uuid_string id = None) as Hg.
  { apply eq_None_not_Some. intros Hk. destruct (to_ids _ _ Hok _ Hk) as (_ & _ & Hx & _). congruence. }
  apply (socks5_put ports s (proxy_of id (px_enabled old) request)); [done|done|done|done|done|]. apply (socks5_free ports s _ _ (Some (uuid_string id))); try done. intros k' Hk'. by injection Hk'.
Qed.
Lemma set_socks5_enabled_ok ports s id enabled : tunnels_ok ports s → ensures (set_socks5_enabled id enabled) s (keeps_tunnels ports s).
Proof.
  intros Hok. unfold set_socks5_enabled. do 5 db_step. apply keeps_ok. destruct (socks5_proxies s !! uuid_string id) as [row|] eqn:Hrow.
  - rewrite (alter_known _ _ _ _ Hrow). destruct (to_socks5 _ _ Hok _ _ Hrow) as (old & h & Eid & -> & Hwf & Ht & Hu).
    set (p := {| px_id := px_id old; px_client := px_client old; px_name := px_name old; px_port := px_port old; px_username := px_username old;
                 px_max_connections := px_max_connections old; px_bandwidth := px_bandwidth old; px_private := px_private old; px_enabled := enabled |}). rewrite Eid.
    apply (socks5_put ports s p); [done..| |].
    + apply eq_None_not_Some. intros Hk. cbn in Hk. rewrite <- Eid in Hk. destruct (to_ids _ _ Hok _ Hk) as (_ & _ & Hx & _). congruence.
    + intros proto o Ho. apply (to_exclusive _ _ Hok proto _ _ _ Ho). cbn. rewrite <- Eid. eexists. split; [exact Hrow|done].
  - rewrite alter_id by (intros r Hr; congruence). by destruct s.
Qed.
Lemma delete_socks5_ok ports s id : tunnels_ok ports s → ensures (delete_socks5 id) s (keeps_tunnels ports s).
Proof using laws.
  intros Hok. unfold delete_socks5, socks5_policy_by_id, proxy_by_id. do 3 db_step. destruct (socks5_proxies s !! uuid_string id) as [row|] eqn:Hrow.
  - destruct (to_socks5 _ _ Hok _ _ Hrow) as (old & h & Eid & -> & Hwf & _). rewrite Eid, read_proxy_row by done. cbn [ok_or]. do 4 db_step.
    rewrite bool_decide_true by by eexists. do 2 db_step. apply keeps_ok. by apply rows_delete.
  - do 2 db_step. rewrite bool_decide_false by by intros []. do 2 db_step. by apply keeps_same.
Qed.

Lemma http_free ports s p k e :
  tunnels_ok ports s → port_groups s !! k = None →
  used tr_port p None (tcp_tunnels s) = false → used pr_port p None (socks5_proxies s) = false → used pr_port p e (http_proxies s) = false →
  mapped (Some GroupTcp) p e (group_mappings s) = false → (∀ k', e = Some k' → k' = k) →
  ∀ o, owns s GroupTcp o p → o = (OHttp, k).
Proof.
  intros Hok Hg H1 H2 H3 H4 He o Ho. pose proof (tcp_owner s p o _ _ _ _ H1 H2 H3 H4 Ho) as Hx.
  destruct o as [[] k']; cbn in Hx; try discriminate Hx; apply He in Hx as ->; [done|]. by apply (not_a_group ports) in Ho.
Qed.
Lemma create_http_ok ports s request a b id :
  tunnels_ok ports s → uuid_ok id → uuid_ok (cp_client request) → port_ok (cp_port request) → unused_id s (uuid_string id) →
  ensures (create_http_proxy ports request a b id) s (keeps_tunnels ports s).
Proof.
  intros Hok Hid Hc Hp (_ & _ & _ & _ & Hg). unfold create_http_proxy. do 2 db_step. destruct (validate_http_proxy_policy ports request) as [[]|e] eqn:Hv; [|by apply keeps_same].
  do 4 db_step; [|by apply keeps_same]. cbv zeta. do 2 db_step.
  destruct (requested_http_wf ports id true request Hid Hc Hp Hv) as (-> & Hwf & Ht). do 2 db_step.
  match goal with |- ensures (if ?c then _ else _) _ _ => destruct c eqn:Hclash end; [do 3 db_step; by apply keeps_same|]. do 3 db_step. checks H. checks Hclash. apply keeps_ok.
  apply (http_put ports s (proxy_of id true request)); [done|done|done|done|]. by eapply http_free.
Qed.
Lemma update_http_ok ports s request id :
  tunnels_ok ports s → uuid_ok id → uuid_ok (cp_client request) → port_ok (cp_port request) → ensures (update_http_proxy ports id request) s (keeps_tunnels ports s).
Proof using laws.
  intros Hok Hid Hc Hp. unfold update_http_proxy. do 2 db_step. destruct (validate_http_proxy_policy ports request) as [[]|e] eqn:Hv; [|by apply keeps_same].
  db_step. unfold http_proxy_policy_by_id, proxy_by_id. do 2 db_step. destruct (http_proxies s !! uuid_string id) as [row|] eqn:Hrow; [|db_step; by apply keeps_same].
  destruct (to_http _ _ Hok _ _ Hrow) as (old & h & Eid & -> & Hwf0 & _). rewrite Eid, read_proxy_row by done. cbn [ok_or]. do 3 db_step. cbv zeta. rewrite <- Eid.
  do 4 db_step; [|by apply keeps_same]. do 4 db_step; [|by apply keeps_same]. do 2 db_step.
  destruct (requested_http_wf ports id (px_enabled old) request Hid Hc Hp Hv) as (-> & Hwf & Ht).
  do 4 db_step; [|by apply keeps_same]. do 3 db_step. checks H0. apply keeps_ok. rewrite (alter_known _ _ _ _ Hrow). cbn [pr_enabled pr_password_hash proxy_row].
  assert (port_groups s !! uuid_string id = None) as Hg.
  { apply eq_None_not_Some. intros Hk. destruct (to_ids _ _ Hok _ Hk) as (_ & _ & _ & Hx). congruence. }
  apply (http_put ports s (proxy_of id (px_enabled old) request)); [done|done|done|done|]. apply (http_free ports s _ _ (Some (uuid_string id))); try done. intros k' Hk'. by injection Hk'.
Qed.
Lemma set_http_enabled_ok ports s id enabled : tunnels_ok ports s → ensures (set_http_proxy_enabled id enabled) s (keeps_tunnels ports s).
Proof.
  intros Hok. unfold set_http_proxy_enabled. do 5 db_step. apply keeps_ok. destruct (http_proxies s !! uuid_string id) as [row|] eqn:Hrow.
  - rewrite (alter_known _ _ _ _ Hrow). destruct (to_http _ _ Hok _ _ Hrow) as (old & h & Eid & -> & Hwf & Ht).
    set (p := {| px_id := px_id old; px_client := px_client old; px_name := px_name old; px_port := px_port old; px_username := px_username old;
                 px_max_connections := px_max_connections old; px_bandwidth := px_bandwidth old; px_private := px_private old; px_enabled := enabled |}). rewrite Eid.
    apply (http_put ports s p); [done..| |].
    + apply eq_None_not_Some. intros Hk. cbn in Hk. rewrite <- Eid in Hk. destruct (to_ids _ _ Hok _ Hk) as (_ & _ & _ & Hx). congruence.
    + intros o Ho. apply (to_exclusive _ _ Hok GroupTcp _ _ _ Ho). split; [done|]. cbn. rewrite <- Eid. eexists. split; [exact Hrow|done].
  - rewrite alter_id by (intros r Hr; congruence). by destruct s.
Qed.
Lemma delete_http_ok ports s id : tunnels_ok ports s → ensures (delete_http_proxy id) s (keeps_tunnels ports s).
Proof using laws.
  intros Hok. unfold delete_http_proxy, http_proxy_policy_by_id, proxy_by_id. do 3 db_step. destruct (http_proxies s !! uuid_string id) as [row|] eqn:Hrow.
  - destruct (to_http _ _ Hok _ _ Hrow) as (old & h & Eid & -> & Hwf & _). rewrite Eid, read_proxy_row by done. cbn [ok_or]. do 4 db_step.
    rewrite bool_decide_true by by eexists. do 2 db_step. apply keeps_ok. by apply rows_delete.
  - do 2 db_step. rewrite bool_decide_false by by intros []. do 2 db_step. by apply keeps_same.
Qed.

(** ** Port groups *)

Lemma group_conflict_false proto p me s o : group_conflict proto p me s = false → owns s proto o p → o.1 = OGroup ∧ me = Some o.2.
Proof.
  unfold group_conflict. intros H Ho. destruct proto; checks H.
  - pose proof (tcp_owner s p o None None None me) as Hx. destruct o as [[] k]; cbn in Hx; try (by discriminate Hx). split; [done|]. by apply Hx.
  - pose proof (udp_owner s p o None None me) as Hx. destruct o as [[] k]; cbn in Hx; try (by discriminate Hx). split; [done|]. by apply Hx.
Qed.
Lemma used_true {R} (port : R → Z) p except t : used port p except t = true → ∃ k r, t !! k = Some r ∧ port r = p ∧ except ≠ Some k.
Proof.
  unfold used, any. rewrite existsb_exists. intros ([k r] & Hin & [Hp%Z.eqb_eq Ho]%andb_true_iff). apply list_elem_of_In, elem_of_map_to_list in Hin.
  exists k, r. split_and!; [done|done|]. intros E%other_false. cbn in *. congruence.
Qed.
Lemma mapped_true q p except l : mapped (Some q) p except l = true → ∃ m, m ∈ l ∧ mr_protocol m = group_as_str q ∧ mr_public_port m = p ∧ except ≠ Some (mr_policy m).
Proof.
  unfold mapped, any. rewrite existsb_exists. intros (m & Hin & [[Hq%bool_decide_eq_true Hp%Z.eqb_eq]%andb_true_iff Ho]%andb_true_iff). apply list_elem_of_In in Hin.
  exists m. split_and!; [done..|]. intros E%other_false. congruence.
Qed.
(** A conflict is another owner of the port. *)
Lemma group_conflict_true proto p me s : group_conflict proto p me s = true → ∃ o, owns s proto o p ∧ ∀ k, me = Some k → o ≠ (OGroup, k).
Proof.
  unfold group_conflict. intros H. destruct proto.
  - apply orb_true_iff in H as [[[H|H]%orb_true_iff|H]%orb_true_iff|H].
    + apply used_true in H as (k & r & Hr & E & _). exists (OTcp, k). split; [|done]. split; [done|]. eauto.
    + apply used_true in H as (k & r & Hr & E & _). exists (OSocks5, k). split; [|done]. cbn. eauto.
    + apply used_true in H as (k & r & Hr & E & _). exists (OHttp, k). split; [|done]. split; [done|]. eauto.
    + apply mapped_true in H as (m & Hm & Eq & Ep & Hn). exists (OGroup, mr_policy m). split; [by exists m|]. intros k Ek Eo. congruence.
  - apply orb_true_iff in H as [[H|H]%orb_true_iff|H].
    + apply used_true in H as (k & r & Hr & E & _). exists (OUdp, k). split; [|done]. split; [done|]. eauto.
    + apply used_true in H as (k & r & Hr & E & _). exists (OSocks5, k). split; [|done]. cbn. eauto.
    + apply mapped_true in H as (m & Hm & Eq & Ep & Hn). exists (OGroup, mr_policy m). split; [by exists m|]. intros k Ek Eo. congruence.
Qed.

Lemma check_pairs_ok proto me l : ∀ s, ensures (check_pairs proto me l) s (λ out s', s' = s ∧
  match out with
  | Ok _ => Forall (λ x, group_conflict proto (public_port x) me s = false) l
  | Err e => e = GroupDuplicatePublicPort ∧ Exists (λ x, group_conflict proto (public_port x) me s = true) l
  end).
Proof.
  induction l as [|x l IH]; intros s; cbn [check_pairs]; [by db_step|]. do 4 db_step.
  - eapply ensures_mono; [apply IH|]. cbv beta. intros [u|e] s' [-> H']; [|by destruct H'; split_and!; [..|by right]].
    split; [done|]. constructor; [by apply negb_true_iff|done].
  - split_and!; [done|done|]. left. by apply negb_false_iff.
Qed.

Lemma insert_pairs_ok id proto host l : ∀ s,
  NoDup (public_port <$> l) →
  (∀ m x, m ∈ group_mappings s → x ∈ l → mr_public_port m = public_port x → mr_protocol m ≠ group_as_str proto ∧ mr_policy m ≠ uuid_string id) →
  ensures (insert_pairs id proto host l) s (λ out s', out = Ok tt ∧
    s' = set_groups (port_groups s) (group_mappings s ++ (mapping_row id proto host <$> l)) s).
Proof.
  induction l as [|x l IH]; intros s Hnd Hfree; cbn [insert_pairs].
  { db_step. split; [done|]. rewrite app_nil_r. by destruct s. }
  rewrite fmap_cons in Hnd. apply NoDup_cons in Hnd as [Hni Hnd]. cbv zeta. do 4 db_step; [do 2 db_step|].
  - eapply ensures_mono; [apply IH; [done|]|].
    + cbn [group_mappings set_groups]. intros m y [Hm|Hm]%elem_of_app Hy E; [apply (Hfree m y); [done|by right|done]|].
      apply list_elem_of_singleton in Hm as ->. cbn in E. exfalso. apply Hni. rewrite E. by apply list_elem_of_fmap_2.
    + cbv beta. intros out s' [-> ->]. split; [done|]. unfold set_groups. cbn. by rewrite <- app_assoc.
  - exfalso. apply negb_false_iff in H. unfold mapping_clash, any in H. apply existsb_exists in H as (m & Hm%list_elem_of_In & [Ep%Z.eqb_eq Hor]%andb_true_iff).
    destruct (Hfree m x Hm ltac:(by left) Ep) as [H1 H2]. cbn in Hor. apply orb_true_iff in Hor as [H|H]; by apply bool_decide_eq_true in H.
Qed.

Definition others_of (k : rstr) (l : list MappingRow) : list MappingRow := filter (λ m, mr_policy m ≠ k) l.
Lemma others_of_elem k l m : m ∈ others_of k l ↔ mr_policy m ≠ k ∧ m ∈ l.
Proof. unfold others_of. by rewrite list_elem_of_filter. Qed.
Lemma filter_others k k' l : k' ≠ k → filter (λ m, mr_policy m = k') (others_of k l) = filter (λ m, mr_policy m = k') l.
Proof.
  intros Hne. apply list_filter_filter_l. intros m. congruence.
Qed.
Lemma filter_others_self k l : filter (λ m, mr_policy m = k) (others_of k l) = [].
Proof. unfold others_of. rewrite list_filter_filter.  induction l as [|m l IH]; [done|]. rewrite filter_cons, decide_False by tauto. exact IH. Qed.
Lemma filter_rows id proto host k l :
  filter (λ m, mr_policy m = k) (mapping_row id proto host <$> l) = if decide (uuid_string id = k) then mapping_row id proto host <$> l else [].
Proof.
  induction l as [|x l IH]; [by case_decide|]. rewrite fmap_cons, filter_cons, IH. cbn. by repeat case_decide.
Qed.

Definition with_group (s : TunnelTables) (p : PortGroupPolicy) (parsed : ParsedPortMappings) : TunnelTables :=
  set_groups (<[uuid_string (pg_id p) := group_row p (sql_bool (pg_enabled p))]> (port_groups s))
    (others_of (uuid_string (pg_id p)) (group_mappings s) ++ (mapping_row (pg_id p) (pg_protocol p) (pg_target_host p) <$> pairs parsed)) s.

Lemma owns_with_group s p parsed proto o q :
  owns (with_group s p parsed) proto o q →
  owns s proto o q ∨ (o = (OGroup, uuid_string (pg_id p)) ∧ proto = pg_protocol p ∧ q ∈ public_port <$> pairs parsed).
Proof.
  owner_case o; auto. intros (m & [Hm|Hm]%elem_of_app & E1 & E2 & E3).
  - apply others_of_elem in Hm as [_ Hm]. left. by exists m.
  - right. apply list_elem_of_fmap in Hm as (x & -> & Hx). cbn in *. subst. split; [done|]. split; [by apply (inj group_as_str)|]. by apply list_elem_of_fmap_2.
Qed.

Lemma group_put ports s p parsed :
  tunnels_ok ports s → group_wf ports p parsed →
  tcp_tunnels s !! uuid_string (pg_id p) = None → udp_tunnels s !! uuid_string (pg_id p) = None →
  socks5_proxies s !! uuid_string (pg_id p) = None → http_proxies s !! uuid_string (pg_id p) = None →
  (∀ x o, x ∈ pairs parsed → owns s (pg_protocol p) o (public_port x) → o = (OGroup, uuid_string (pg_id p))) →
  tunnels_ok ports (with_group s p parsed).
Proof using laws.
  intros [H1 H2 H3 H4 H5 H6 H7 H8] Hwf T1 T2 T3 T4 Hfree. split; cbn; try done.
  - intros k r [[<- <-]|[Hne Hr]]%lookup_insert_Some.
    + exists p, parsed. split_and!; [done..|]. split; [cbn; by rewrite lookup_insert_eq|]. cbn. by rewrite filter_app, filter_others_self, filter_rows, decide_True.
    + destruct (H5 k r Hr) as (p' & parsed' & -> & -> & Hwf' & Hs1 & Hs2). exists p', parsed'. split_and!; [done..|]. split; cbn.
      * by rewrite lookup_insert_ne.
      * rewrite filter_app, filter_others, filter_rows, decide_False by done. by rewrite app_nil_r.
  - intros m [Hm|Hm]%elem_of_app.
    + apply others_of_elem in Hm as [Hne Hm]. rewrite lookup_insert_ne by done. by apply H6.
    + apply list_elem_of_fmap in Hm as (x & -> & _). cbn. by rewrite lookup_insert_eq.
  - intros k Hk. destruct (decide (k = uuid_string (pg_id p))) as [->|Hne]; [done|]. apply H7. by rewrite lookup_insert_ne in Hk.
  - eapply exclusive_grow; [exact H8|intros proto o q; apply owns_with_group|]. intros proto o q [-> (x & -> & Hx)%list_elem_of_fmap] Ho. by apply (Hfree x).
Qed.
Lemma group_delete ports s k :
  tunnels_ok ports s → tunnels_ok ports (set_groups (delete k (port_groups s)) (others_of k (group_mappings s)) s).
Proof.
  intros [H1 H2 H3 H4 H5 H6 H7 H8]. split; cbn; try done.
  - intros k' r [Hne Hr]%lookup_delete_Some. destruct (H5 k' r Hr) as (p & parsed & -> & -> & Hwf & Hs1 & Hs2). exists p, parsed. split_and!; [done..|]. split; cbn.
    + by rewrite lookup_delete_ne.
    + by rewrite filter_others.
  - intros m [Hne Hm]%others_of_elem. rewrite lookup_delete_ne by done. by apply H6.
  - intros k' [r [_ Hr]%lookup_delete_Some]. apply H7. by eexists.
  - eapply exclusive_shrink; [exact H8|]. intros proto o q. owner_case o; auto. intros (m & [_ Hm]%others_of_elem & ?). by exists m.
Qed.

Lemma owns_grow s p parsed proto o q :
  (∀ m, m ∈ group_mappings s → mr_policy m ≠ uuid_string (pg_id p)) → owns s proto o q → owns (with_group s p parsed) proto o q.
Proof.
  intros Hn. owner_case o; auto. intros (m & Hm & ?). exists m. split; [|done]. apply elem_of_app. left. apply others_of_elem. auto.
Qed.
Lemma owns_new s p parsed q :
  q ∈ public_port <$> pairs parsed → owns (with_group s p parsed) (pg_protocol p) (OGroup, uuid_string (pg_id p)) q.
Proof.
  intros (x & -> & Hx)%list_elem_of_fmap. exists (mapping_row (pg_id p) (pg_protocol p) (pg_target_host p) x). split; [|done].
  apply elem_of_app. right. by apply list_elem_of_fmap_2.
Qed.

Definition group_request_ok (request : CreatePortGroupPolicy) : Prop :=
  uuid_ok (cg_client request) ∧ ∀ v, cg_max_sessions request = Some v → 0 ≤ v.
Lemma requested_group_wf ports id enabled request parsed : uuid_ok id → group_request_ok request →
  validate_port_group_policy ports request = Ok parsed →
  ∃ p, requested_port_group ports id enabled request = Ok p ∧ group_wf ports p parsed ∧ pg_id p = id ∧ pg_protocol p = cg_protocol request ∧
    pg_target_host p = trim (cg_target_host request) ∧ pg_enabled p = enabled ∧ pg_client p = cg_client request ∧ pg_name p = trim (cg_name request).
Proof.
  intros Hid [Hc Hs] Hv. unfold requested_port_group. rewrite Hv. eexists. split; [done|]. split; [|done]. unfold validate_port_group_policy in Hv. cbv zeta in Hv.
  bind_as Hv u1 E1. bind_as Hv u2 E2. bind_as Hv u3 E3. bind_as Hv u4 E4. bind_as Hv u5 E5. bind_as Hv u6 E6. bind_as Hv pm E7. bind_as Hv u8 E8. injection Hv as ->.
  apply reject_if_Ok in E3, E4, E5, E6, E8. apply negb_false_iff in E3, E6, E8. apply andb_true_iff in E3 as [E3%Z.leb_le E9%Z.leb_le].
  apply orb_false_iff in E4 as [E4%bool_decide_eq_false E10].
  destruct (parse_port_mappings _ _ _ _ _) as [pm|e] eqn:Ep in E7; [|done]. cbn in E7. injection E7 as ->. apply parsed_count in Ep as (_ & _ & _ & Ep).
  unfold group_wf, tunnel_limits_ok. cbn. split_and!; try done.
  - destruct (cg_max_sessions request) as [v|]; [|done]. cbn. specialize (Hs v eq_refl). destruct (decide (v = 0)) as [->|]; [done|lia].
  - destruct (cg_max_sessions request) as [v|]; [|done]. cbn. apply Z.ltb_ge in E10. unfold MAX_UDP_SESSIONS in E10. lia.
  - destruct (cg_idle request) as [v|]; [|done]. cbn. apply negb_false_iff, andb_true_iff in E5 as [E5%Z.leb_le _]. exact E5.
  - destruct (cg_idle request) as [v|]; [|done]. cbn. apply negb_false_iff, andb_true_iff in E5 as [_ E5%Z.leb_le]. exact E5.
  - by apply all_Forall.
Qed.

(** Why a port group is refused. *)
Definition group_refused (ports : PublicPortPolicy) (s : TunnelTables) (me : option rstr) (request : CreatePortGroupPolicy) (e : PortGroupPolicyError) : Prop :=
  validate_port_group_policy ports request = Err e ∨
  (e = GroupDuplicatePublicPort ∧ ∃ parsed x o, validate_port_group_policy ports request = Ok parsed ∧ x ∈ pairs parsed ∧
     owns s (cg_protocol request) o (public_port x) ∧ ∀ k, me = Some k → o ≠ (OGroup, k)) ∨
  (e = GroupDuplicateName ∧
     group_named (uuid_string (cg_client request)) (group_as_str (cg_protocol request)) (trim (cg_name request)) me (port_groups s) = true).

Lemma pairs_conflict ports s me request parsed :
  validate_port_group_policy ports request = Ok parsed →
  Exists (λ x, group_conflict (cg_protocol request) (public_port x) me s = true) (pairs parsed) → group_refused ports s me request GroupDuplicatePublicPort.
Proof.
  intros Hv (x & Hx & H)%Exists_exists. apply group_conflict_true in H as (o & Ho & Hn). right. left. split; [done|]. by exists parsed, x, o.
Qed.

Lemma create_port_group_ok ports s request id :
  tunnels_ok ports s → uuid_ok id → group_request_ok request → unused_id s (uuid_string id) →
  ensures (create_port_group ports request id) s (λ out s', tunnels_ok ports s' ∧
    match out with
    | Ok p => ∃ parsed, validate_port_group_policy ports request = Ok parsed ∧ pg_id p = id ∧ pg_protocol p = cg_protocol request ∧
        pg_target_host p = trim (cg_target_host request) ∧ pg_enabled p = true ∧ s' = with_group s p parsed
    | Err e => s' = s ∧ group_refused ports s None request e
    end).
Proof using laws.
  intros Hok Hid Hrq (T1 & T2 & T3 & T4 & Hg). unfold create_port_group. do 2 db_step. destruct (validate_port_group_policy ports request) as [parsed|e] eqn:Hv; [|by split_and!; [..|left]].
  do 2 db_step. destruct (requested_group_wf ports id true request parsed Hid Hrq Hv) as (p & -> & Hwf & Ei & Eq & Eh & Ee & Ec & En). do 2 db_step.
  eapply ensures_mono; [apply check_pairs_ok|]. cbv beta. intros [[]|e] s1 [-> Hc]; [|destruct Hc as [-> Hc]; split_and!; [done|done|by eapply pairs_conflict]].
  do 4 db_step.
  2:{ split_and!; [done|done|]. right. right. split; [done|]. rewrite Ec, Eq, En in H. apply negb_false_iff, orb_true_iff in H as [H|H]; [|done].
      unfold present in H. rewrite Hg in H. by apply bool_decide_eq_true in H as []. }
  do 3 db_step. rewrite Forall_forall in Hc.
  assert (∀ x o, x ∈ pairs parsed → owns s (pg_protocol p) o (public_port x) → False) as Hfree.
  { intros x o Hx Ho. rewrite Eq in Ho. by destruct (group_conflict_false _ _ _ _ _ (Hc x Hx) Ho). }
  assert (∀ m, m ∈ group_mappings s → mr_policy m ≠ uuid_string id) as Hnone.
  { intros m Hm E. destruct (to_mappings _ _ Hok m Hm) as [r Hr]. congruence. }
  pose proof Hwf as (_ & _ & _ & _ & _ & Hpm & _). apply parsed_count in Hpm as (Hnd & _).
  eapply ensures_mono; [apply insert_pairs_ok; [done|]|].
  { cbn [group_mappings set_groups]. intros m x Hm Hx E. split; [|by apply Hnone]. intros Epr. apply (Hfree x (OGroup, mr_policy m) Hx). by exists m. }
  cbv beta. intros out s1 [-> ->]. db_step.
  assert (others_of (uuid_string id) (group_mappings s) = group_mappings s) as Eall by (apply filter_all, Forall_forall; exact Hnone).
  match goal with |- tunnels_ok _ ?t ∧ _ => assert (t = with_group s p parsed) as -> end.
  { unfold with_group. rewrite Ei, Eall, Ee, Eh. done. }
  split; [|by exists parsed]. apply group_put; rewrite ?Ei; try done. intros x o Hx Ho. by apply Hfree in Ho.
Qed.

Lemma update_port_group_ok ports s request id :
  tunnels_ok ports s → uuid_ok id → group_request_ok request →
  ensures (update_port_group ports id request) s (λ out s', tunnels_ok ports s' ∧
    match out with
    | Ok None => s' = s ∧ port_groups s !! uuid_string id = None
    | Ok (Some p) => ∃ parsed, validate_port_group_policy ports request = Ok parsed ∧ pg_id p = id ∧ s' = with_group s p parsed
    | Err e => s' = s ∧ group_refused ports s (Some (uuid_string id)) request e
    end).
Proof using laws.
  intros Hok Hid Hrq. unfold update_port_group. do 2 db_step. destruct (validate_port_group_policy ports request) as [parsed|e] eqn:Hv; [|by split_and!; [..|left]].
  db_step. unfold port_group_by_id. do 2 db_step. destruct (port_groups s !! uuid_string id) as [row|] eqn:Hrow; [|db_step; by split_and!].
  destruct (to_groups _ _ Hok _ _ Hrow) as (old & parsed0 & Eid & -> & Hwf0 & _). rewrite Eid, (read_group_row ports old parsed0) by done. cbn [ok_or]. do 3 db_step. cbv zeta. rewrite <- Eid.
  do 4 db_step; [|split_and!; [done|done|]; right; right; split; [done|by apply negb_false_iff]]. do 2 db_step.
  destruct (requested_group_wf ports id (pg_enabled old) request parsed Hid Hrq Hv) as (p & -> & Hwf & Ei & Eq & Eh & Ee & Ec & En). do 2 db_step.
  eapply ensures_mono; [apply check_pairs_ok|]. cbv beta. intros [[]|e] s1 [-> Hc]; [|destruct Hc as [-> Hc]; split_and!; [done|done|by eapply pairs_conflict]].
  do 4 db_step; [|split_and!; [done|done|]; right; right; split; [done|]; rewrite Ec, Eq, En in H0; by apply negb_false_iff].
  do 5 db_step. rewrite Forall_forall in Hc.
  assert (∀ x o, x ∈ pairs parsed → owns s (pg_protocol p) o (public_port x) → o = (OGroup, uuid_string id)) as Hfree.
  { intros [x y] [ok k] Hx Ho. rewrite Eq in Ho. destruct (group_conflict_false _ _ _ _ _ (Hc _ Hx) Ho) as [E1 E2]. cbn in E1, E2. congruence. }
  pose proof Hwf as (_ & _ & _ & _ & _ & Hpm & _). apply parsed_count in Hpm as (Hnd & _).
  eapply ensures_mono; [apply insert_pairs_ok; [done|]|].
  { cbn [group_mappings set_groups delete_mappings]. intros m x [Hn Hm]%others_of_elem Hx E. split; [|done]. intros Epr.
    assert ((OGroup, mr_policy m) = (OGroup, uuid_string id)) as [= ?] by (apply (Hfree x); [done|by exists m]). done. }
  cbv beta. intros out s1 [-> ->]. db_step.
  destruct (to_ids _ _ Hok (uuid_string id)) as (T1 & T2 & T3 & T4); [by eexists|].
  match goal with |- tunnels_ok _ ?t ∧ _ => assert (t = with_group s p parsed) as -> end.
  { unfold with_group, delete_mappings, others_of. cbn. rewrite (alter_known _ _ _ _ Hrow), Ei, Ee, Eh. done. }
  split; [|by exists parsed]. apply group_put; rewrite ?Ei; done.
Qed.
Lemma set_port_group_enabled_ok ports s id enabled : tunnels_ok ports s → ensures (set_port_group_enabled id enabled) s (keeps_tunnels ports s).
Proof.
  intros Hok. unfold set_port_group_enabled. do 5 db_step. apply keeps_ok. destruct (port_groups s !! uuid_string id) as [row|] eqn:Hrow.
  - rewrite (alter_known _ _ _ _ Hrow). pose proof Hok as [H1 H2 H3 H4 H5 H6 H7 H8]. split; cbn; try done.
    + intros k r [[<- <-]|[Hne Hr]]%lookup_insert_Some.
      * destruct (H5 _ _ Hrow) as (p & parsed & Eid & -> & Hwf & Hs1 & Hs2). 
        exists {| pg_id := pg_id p; pg_client := pg_client p; pg_name := pg_name p; pg_protocol := pg_protocol p; pg_public_ports := pg_public_ports p;
                  pg_target_host := pg_target_host p; pg_target_ports := pg_target_ports p; pg_mapping_count := pg_mapping_count p; pg_max_connections := pg_max_connections p;
                  pg_max_sessions := pg_max_sessions p; pg_idle := pg_idle p; pg_bandwidth := pg_bandwidth p; pg_enabled := enabled |}, parsed.
        split_and!; [done..|]. split; [|done]. cbn. by rewrite Eid, lookup_insert_eq.
      * destruct (H5 k r Hr) as (p & parsed & -> & -> & Hwf & Hs1 & Hs2). exists p, parsed. split_and!; [done..|]. split; [|done]. cbn. by rewrite lookup_insert_ne.
    + intros m Hm. destruct (decide (mr_policy m = uuid_string id)) as [->|Hne]; [by rewrite lookup_insert_eq|]. rewrite lookup_insert_ne by done. by apply H6.
    + intros k Hk. apply H7. destruct (decide (k = uuid_string id)) as [->|Hne]; [by eexists|]. by rewrite lookup_insert_ne in Hk.
  - rewrite alter_id by (intros r Hr; congruence). by destruct s.
Qed.
Lemma delete_port_group_ok ports s id : tunnels_ok ports s → ensures (delete_port_group id) s (keeps_tunnels ports s).
Proof using laws.
  intros Hok. unfold delete_port_group, port_group_by_id. do 3 db_step. destruct (port_groups s !! uuid_string id) as [row|] eqn:Hrow; [|do 2 db_step; by apply keeps_same].
  destruct (to_groups _ _ Hok _ _ Hrow) as (old & parsed & Eid & -> & Hwf & _). rewrite Eid, (read_group_row ports old parsed) by done. cbn [ok_or]. do 8 db_step. rewrite <- Eid.
  apply keeps_ok. exact (group_delete ports s (uuid_string id) Hok).
Qed.
End invariant.
