(* ===== verification/TunnelSystem.v ===== *)
(** * Tunnel policies: histories of the catalog ([tunnel_catalog.rs])

    The operations in any order, with restarts under other port policies; the identifiers that
    are drawn are new. The bundles that the policy service applies to these tables are not among the
    operations. *)

From S2P Require Import Prelude DbMonad RustStr RustText NetAddr PortMapping TargetPool AdminAuth TrafficControl PortPolicy TunnelTables TunnelCatalog TunnelPorts.
Local Open Scope Z_scope.
Set Default Proof Using "Type".

Section system.
Context {plat : Platform} {laws : PlatformLaws}.

Definition empty_tunnels : TunnelTables :=
  {| tcp_tunnels := ∅; udp_tunnels := ∅; socks5_proxies := ∅; http_proxies := ∅; port_groups := ∅; group_mappings := [] |}.

Inductive TunnelOp :=
  | OpCreateTcp (request : CreateTcpTunnelPolicy) (id : Z) | OpUpdateTcp (id : Z) (request : CreateTcpTunnelPolicy)
  | OpEnableTcp (id : Z) (enabled : bool) | OpDeleteTcp (id : Z)
  | OpCreateUdp (request : CreateUdpTunnelPolicy) (id : Z) | OpUpdateUdp (id : Z) (request : CreateUdpTunnelPolicy)
  | OpEnableUdp (id : Z) (enabled : bool) | OpDeleteUdp (id : Z)
  | OpCreateSocks5 (request : CreateProxyPolicy) (a b id : Z) | OpUpdateSocks5 (id : Z) (request : CreateProxyPolicy)
  | OpEnableSocks5 (id : Z) (enabled : bool) | OpDeleteSocks5 (id : Z)
  | OpCreateHttp (request : CreateProxyPolicy) (a b id : Z) | OpUpdateHttp (id : Z) (request : CreateProxyPolicy)
  | OpEnableHttp (id : Z) (enabled : bool) | OpDeleteHttp (id : Z)
  | OpCreateGroup (request : CreatePortGroupPolicy) (id : Z) | OpUpdateGroup (id : Z) (request : CreatePortGroupPolicy)
  | OpEnableGroup (id : Z) (enabled : bool) | OpDeleteGroup (id : Z).

(** Arguments have their types, and a new identifier is not in use. *)
Definition tunnel_op_ok (s : TunnelTables) (op : TunnelOp) : Prop :=
  match op with
  | OpCreateTcp request id => uuid_ok id ∧ uuid_ok (ct_client request) ∧ port_ok (ct_port request) ∧ unused_id s (uuid_string id)
  | OpUpdateTcp id request => uuid_ok id ∧ uuid_ok (ct_client request) ∧ port_ok (ct_port request)
  | OpCreateUdp request id => uuid_ok id ∧ uuid_ok (cu_client request) ∧ port_ok (cu_port request) ∧ unused_id s (uuid_string id)
  | OpUpdateUdp id request => uuid_ok id ∧ uuid_ok (cu_client request) ∧ port_ok (cu_port request)
  | OpCreateSocks5 request _ _ id | OpCreateHttp request _ _ id =>
      uuid_ok id ∧ uuid_ok (cp_client request) ∧ port_ok (cp_port request) ∧ unused_id s (uuid_string id)
  | OpUpdateSocks5 id request | OpUpdateHttp id request => uuid_ok id ∧ uuid_ok (cp_client request) ∧ port_ok (cp_port request)
  | OpCreateGroup request id => uuid_ok id ∧ group_request_ok request ∧ unused_id s (uuid_string id)
  | OpUpdateGroup id request => uuid_ok id ∧ group_request_ok request
  | _ => True
  end.

(** The tables after an operation, and whether it failed. *)
Definition ended {E A} (m : exec (result E A * TunnelTables)) : exec (bool * TunnelTables) :=
  match m with Done (Ok _, s) => Done (true, s) | Done (Err _, s) => Done (false, s) | Panic => Panic end.
Definition perform_tunnel (ports : PublicPortPolicy) (op : TunnelOp) (s : TunnelTables) : exec (bool * TunnelTables) :=
  match op with
  | OpCreateTcp request id => ended (create_tcp ports request id s)
  | OpUpdateTcp id request => ended (update_tcp ports id request s)
  | OpEnableTcp id enabled => ended (set_tcp_enabled id enabled s)
  | OpDeleteTcp id => ended (delete_tcp id s)
  | OpCreateUdp request id => ended (create_udp ports request id s)
  | OpUpdateUdp id request => ended (update_udp ports id request s)
  | OpEnableUdp id enabled => ended (set_udp_enabled id enabled s)
  | OpDeleteUdp id => ended (delete_udp id s)
  | OpCreateSocks5 request a b id => ended (create_socks5 ports request a b id s)
  | OpUpdateSocks5 id request => ended (update_socks5 ports id request s)
  | OpEnableSocks5 id enabled => ended (set_socks5_enabled id enabled s)
  | OpDeleteSocks5 id => ended (delete_socks5 id s)
  | OpCreateHttp request a b id => ended (create_http_proxy ports request a b id s)
  | OpUpdateHttp id request => ended (update_http_proxy ports id request s)
  | OpEnableHttp id enabled => ended (set_http_proxy_enabled id enabled s)
  | OpDeleteHttp id => ended (delete_http_proxy id s)
  | OpCreateGroup request id => ended (create_port_group ports request id s)
  | OpUpdateGroup id request => ended (update_port_group ports id request s)
  | OpEnableGroup id enabled => ended (set_port_group_enabled id enabled s)
  | OpDeleteGroup id => ended (delete_port_group id s)
  end.

Inductive tunnel_history : PublicPortPolicy → TunnelTables → Prop :=
  | tunnels_start ports : tunnel_history ports empty_tunnels
  | tunnels_call ports s op ok s' :
      tunnel_history ports s → tunnel_op_ok s op → perform_tunnel ports op s = Done (ok, s') → tunnel_history ports s'
  | tunnels_open ports ports' s :
      tunnel_history ports s → validate_existing_public_ports ports' s = true → tunnel_history ports' s.

Lemma keeps_ended {E A} ports s (m : db E TunnelTables A) : ensures m s (keeps_tunnels ports s) →
  ∃ ok s', ended (m s) = Done (ok, s') ∧ tunnels_ok ports s' ∧ (ok = false → s' = s).
Proof.
  intros (out & s' & E1 & Hok & Herr)%ensures_Done. rewrite E1. destruct out as [a|e]; [by exists true, s'|]. exists false, s'. split_and!; [done|done|]. intros _. by eapply Herr.
Qed.
Lemma perform_tunnel_ok ports s op : tunnels_ok ports s → tunnel_op_ok s op →
  ∃ ok s', perform_tunnel ports op s = Done (ok, s') ∧ tunnels_ok ports s' ∧ (ok = false → s' = s).
Proof using laws.
  intros Hok Hop. destruct op; cbn [perform_tunnel tunnel_op_ok] in *; destruct_and?; apply keeps_ended.
  - by apply create_tcp_ok.
  - by apply update_tcp_ok.
  - by apply set_tcp_enabled_ok.
  - by apply delete_tcp_ok.
  - by apply create_udp_ok.
  - by apply update_udp_ok.
  - by apply set_udp_enabled_ok.
  - by apply delete_udp_ok.
  - by apply create_socks5_ok.
  - by apply update_socks5_ok.
  - by apply set_socks5_enabled_ok.
  - by apply delete_socks5_ok.
  - by apply create_http_ok.
  - by apply update_http_ok.
  - by apply set_http_enabled_ok.
  - by apply delete_http_ok.
  - eapply ensures_mono; [by apply create_port_group_ok|]. cbv beta. intros [p|e] s' [Hok' Hr]; split; try done. by destruct Hr as [-> _].
  - eapply ensures_mono; [by apply update_port_group_ok|]. cbv beta. intros [p|e] s' [Hok' Hr]; split; try done. by destruct Hr as [-> _].
  - by apply set_port_group_enabled_ok.
  - by apply delete_port_group_ok.
Qed.

Lemma empty_tunnels_ok ports : tunnels_ok ports empty_tunnels.
Proof.
  split; cbn; try (by intros k r H%lookup_empty_Some); try (by intros m ?%elem_of_nil); try (by intros k [r ?%lookup_empty_Some]).
  intros proto o o' p Ho. exfalso. owner_case o.
  - destruct Ho as (_ & r & Hr & _). by apply lookup_empty_Some in Hr.
  - destruct Ho as (_ & r & Hr & _). by apply lookup_empty_Some in Hr.
  - destruct Ho as (r & Hr & _). by apply lookup_empty_Some in Hr.
  - destruct Ho as (_ & r & Hr & _). by apply lookup_empty_Some in Hr.
  - destruct Ho as (m & Hm & _). by apply elem_of_nil in Hm.
Qed.

Lemma each_allowed {R} (port : R → Z) (t : gmap rstr R) allowed :
  all (λ x : rstr * R, within 0 U16_MAX (port x.2) && allowed (port x.2)) (map_to_list t) = true → ∀ k r, t !! k = Some r → allowed (port r) = true.
Proof.
  intros H%all_Forall k r Hr. rewrite Forall_forall in H. specialize (H (k, r) (proj2 (elem_of_map_to_list _ _ _) Hr)). by apply andb_true_iff in H as [_ H].
Qed.
Lemma reopen_ok ports ports' s : tunnels_ok ports s → validate_existing_public_ports ports' s = true → tunnels_ok ports' s.
Proof using laws.
  intros [H1 H2 H3 H4 H5 H6 H7 H8] Hv. unfold validate_existing_public_ports in Hv. apply andb_true_iff in Hv as [Hv V5]. apply andb_true_iff in Hv as [Hv V4].
  apply andb_true_iff in Hv as [Hv V3]. apply andb_true_iff in Hv as [V1 V2]. split; try done.
  - intros k r Hr. pose proof (each_allowed _ _ _ V1 k r Hr) as Ha. destruct (H1 k r Hr) as (p & -> & -> & W1 & W2 & W3 & _ & W4). exists p. by split_and!.
  - intros k r Hr. pose proof (each_allowed _ _ _ V3 k r Hr) as Ha. destruct (H2 k r Hr) as (p & -> & -> & W1 & W2 & W3 & _ & W4). exists p. by split_and!.
  - intros k r Hr. pose proof (each_allowed pr_port (socks5_proxies s) (λ p, allows_tcp ports' p && allows_udp ports' p) V4 k r Hr) as Ha. destruct (H3 k r Hr) as (p & h & -> & -> & Hwf & _). apply andb_true_iff in Ha as [A1 A2].
    exists p, h. by split_and!.
  - intros k r Hr. pose proof (each_allowed _ _ _ V2 k r Hr) as Ha. destruct (H4 k r Hr) as (p & h & -> & -> & Hwf & _). exists p, h. by split_and!.
  - intros k r Hr. destruct (H5 k r Hr) as (p & parsed & -> & -> & (W1 & W2 & W3 & W4 & W5 & W6 & W7 & _) & Hs1 & Hs2). exists p, parsed.
    split; [done|]. split; [done|]. split; [|done]. do 7 (split; [done|]). apply Forall_forall. intros x Hx. apply all_Forall in V5. rewrite Forall_forall in V5.
    specialize (V5 (mapping_row (pg_id p) (pg_protocol p) (pg_target_host p) x)). cbn [mr_protocol mapping_row mr_public_port] in V5.
    rewrite protocol_round_trip in V5. apply andb_true_iff in V5 as [_ V5]; [done|].
    apply (list_elem_of_fmap_2 (mapping_row (pg_id p) (pg_protocol p) (pg_target_host p))) in Hx. rewrite <- Hs2 in Hx. by apply list_elem_of_filter in Hx as [_ Hx].
Qed.
Lemma tunnel_history_ok ports s : tunnel_history ports s → tunnels_ok ports s.
Proof using laws.
  induction 1 as [ports|ports s op ok s' _ IH Hop E|ports ports' s _ IH Hv]; [apply empty_tunnels_ok| |by eapply reopen_ok].
  destruct (perform_tunnel_ok ports s op IH Hop) as (ok' & t & E' & Hok & _). congruence.
Qed.

(** ** Theorems *)

Lemma owner_allowed ports s proto o p : tunnels_ok ports s → owns s proto o p → 0 ≤ p ≤ U16_MAX ∧ allows_group ports proto p = true.
Proof.
  intros Hok Ho. owner_case o.
  - destruct Ho as (-> & r & Hr & <-). destruct (to_tcp _ _ Hok _ _ Hr) as (q & _ & -> & _ & _ & W & Ha & _). done.
  - destruct Ho as (-> & r & Hr & <-). destruct (to_udp _ _ Hok _ _ Hr) as (q & _ & -> & _ & _ & W & Ha & _). done.
  - destruct Ho as (r & Hr & <-). destruct (to_socks5 _ _ Hok _ _ Hr) as (q & h & _ & -> & (_ & _ & W & _) & Ht & Hu). split; [done|]. by destruct proto.
  - destruct Ho as (-> & r & Hr & <-). destruct (to_http _ _ Hok _ _ Hr) as (q & h & _ & -> & (_ & _ & W & _) & Ht). done.
  - destruct Ho as (m & Hm & E & Epr & <-). destruct (to_mappings _ _ Hok m Hm) as [r Hr].
    destruct (to_groups _ _ Hok _ _ Hr) as (q & parsed & Eid & _ & (_ & _ & _ & _ & _ & Hpm & _ & Hall) & _ & Hs).
    assert (m ∈ mapping_row (pg_id q) (pg_protocol q) (pg_target_host q) <$> pairs parsed) as Hx by (rewrite <- Hs; apply list_elem_of_filter; done).
    apply list_elem_of_fmap in Hx as (x & -> & Hx). cbn in Epr |- *. apply (inj group_as_str) in Epr as <-. apply parsed_count in Hpm as (_ & _ & Hp & _).
    rewrite Forall_forall in Hall, Hp. split; [|by apply Hall]. specialize (Hp x Hx). lia.
Qed.

Lemma fresh_mappings ports s k : tunnels_ok ports s → port_groups s !! k = None → ∀ m, m ∈ group_mappings s → mr_policy m ≠ k.
Proof. intros Hok Hk m Hm E. destruct (to_mappings _ _ Hok m Hm) as [r Hr]. congruence. Qed.

(** C29. Public ports are exclusive. After any history of operations and restarts, a TCP port and a UDP port
    belong to at most one policy, of whatever kind, and every port in use is open to policies. Every
    operation ends, and one that fails changes nothing. The operations are those of the catalog; a bundle that
    the policy service applies writes the same tables and is not among them. *)
Theorem tunnel_ports_exclusive ports s :
  tunnel_history ports s →
  (∀ proto o o' p, owns s proto o p → owns s proto o' p → o = o') ∧
  (∀ proto o p, owns s proto o p → 0 ≤ p ≤ U16_MAX ∧ allows_group ports proto p = true) ∧
  (∀ op, tunnel_op_ok s op → ∃ ok s', perform_tunnel ports op s = Done (ok, s') ∧ (ok = false → s' = s)).
Proof using laws.
  intros Hok%tunnel_history_ok. split_and!.
  - apply (to_exclusive _ _ Hok).
  - intros proto o p. by apply owner_allowed.
  - intros op Hop. destruct (perform_tunnel_ok ports s op Hok Hop) as (ok & s' & E & _ & H). by exists ok, s'.
Qed.

(** C31. A port group is created or the refusal is right. After any history, creating a port group stores it with
    exactly the mappings of its expressions and leaves every other owner alone, or fails because the
    request is invalid, one of its ports has an owner, or the name is taken. *)
Theorem port_group_created_or_refused ports s request id :
  tunnel_history ports s → uuid_ok id → group_request_ok request → unused_id s (uuid_string id) →
  ∃ out s', create_port_group ports request id s = Done (out, s') ∧
    match out with
    | Ok p => ∃ parsed, validate_port_group_policy ports request = Ok parsed ∧
        port_groups s' = <[uuid_string id := group_row p 1]> (port_groups s) ∧
        group_mappings s' = group_mappings s ++ (mapping_row id (cg_protocol request) (trim (cg_target_host request)) <$> pairs parsed) ∧
        ∀ proto o q, owns s' proto o q ↔ owns s proto o q ∨ (o = (OGroup, uuid_string id) ∧ proto = cg_protocol request ∧ q ∈ public_port <$> pairs parsed)
    | Err e => s' = s ∧ group_refused ports s None request e
    end.
Proof using laws.
  intros Hok%tunnel_history_ok Hid Hrq Hnew. destruct (ensures_Done _ _ _ (create_port_group_ok ports s request id Hok Hid Hrq Hnew)) as (out & s' & E & _ & H).
  exists out, s'. split; [done|]. destruct out as [p|e]; [|done]. destruct H as (parsed & Hv & Ei & Eq & Eh & Ee & ->). exists parsed.
  assert (∀ m, m ∈ group_mappings s → mr_policy m ≠ uuid_string id) as Hnone by (apply fresh_mappings with ports; [done|apply Hnew]).
  unfold with_group at 1 2. cbn [port_groups group_mappings set_groups]. rewrite Ei, Ee, Eh, Eq.
  replace (others_of (uuid_string id) (group_mappings s)) with (group_mappings s) by (symmetry; by apply filter_all, Forall_forall).
  split_and!; [done..|]. intros proto o q. rewrite <- Ei, <- Eq. split; [apply owns_with_group|]. intros [Ho|(-> & -> & Hq)]; [|by apply owns_new].
  apply owns_grow; [by rewrite Ei|done].
Qed.
(** ** What the data plane is granted *)

(** [o] is the enabled policy that lets a client expose a target on a TCP port under a name: a TCP tunnel
    with these fields, or a port group whose expressions pair the port with the target. *)
Definition tcp_grant (s : TunnelTables) (client : Z) (name : rstr) (port : Z) (target : rstr) (o : Owner) (t : TcpTunnelRuntimePolicy) : Prop :=
  match o.1 with
  | OTcp => ∃ row p, tcp_tunnels s !! o.2 = Some row ∧ read_tcp o.2 row = Some p ∧
      tcp_client p = client ∧ tcp_name p = name ∧ tcp_port p = port ∧ tcp_target p = target ∧ tcp_enabled p = true ∧
      t = {| trt_policy_id := tcp_id p; trt_policy_kind := KindTcp; trt_max_connections := tcp_max_connections p; trt_bandwidth := tcp_bandwidth p |}
  | OGroup => ∃ row p parsed x, port_groups s !! o.2 = Some row ∧ read_group o.2 row = Some p ∧
      parse_port_mappings (pg_public_ports p) (pg_target_ports p) 1 U16_MAX MAX_PORT_MAPPINGS = Ok parsed ∧ x ∈ pairs parsed ∧
      pg_client p = client ∧ pg_name p = name ∧ pg_protocol p = GroupTcp ∧ public_port x = port ∧ target_addr (pg_target_host p) (target_port x) = target ∧
      pg_enabled p = true ∧
      t = {| trt_policy_id := pg_id p; trt_policy_kind := KindPortGroup; trt_max_connections := pg_max_connections p; trt_bandwidth := pg_bandwidth p |}
  | _ => False
  end.

(** A stored group with its mappings, in terms of the policy that is read. *)
Lemma group_read ports s k row p : tunnels_ok ports s → port_groups s !! k = Some row → read_group k row = Some p →
  ∃ parsed, k = uuid_string (pg_id p) ∧ row = group_row p (sql_bool (pg_enabled p)) ∧ group_wf ports p parsed ∧ group_stored s p parsed.
Proof using laws.
  intros Hok Hrow Hread. destruct (to_groups _ _ Hok _ _ Hrow) as (p' & parsed & -> & -> & Hwf & Hs). rewrite (read_group_row ports p' parsed) in Hread by done.
  injection Hread as <-. by exists parsed.
Qed.
Lemma group_mapping s p parsed m : group_stored s p parsed →
  (m ∈ group_mappings s ∧ mr_policy m = uuid_string (pg_id p)) ↔ ∃ x, x ∈ pairs parsed ∧ m = mapping_row (pg_id p) (pg_protocol p) (pg_target_host p) x.
Proof.
  intros [_ Hs]. rewrite (and_comm (m ∈ _)). rewrite <- (list_elem_of_filter (λ m, mr_policy m = uuid_string (pg_id p))), Hs, list_elem_of_fmap.
  split; intros (x & ? & ?); by exists x.
Qed.
Lemma tcp_grant_owns ports s client name port target o t : tunnels_ok ports s → tcp_grant s client name port target o t → owns s GroupTcp o port.
Proof using laws.
  intros Hok. destruct o as [[] k]; try done.
  - intros (row & p & Hrow & Hread & _ & _ & <- & _). split; [done|]. exists row. split; [done|]. cbn in Hrow, Hread.
    destruct (to_tcp _ _ Hok _ _ Hrow) as (q & -> & -> & Hwf). rewrite (read_tcp_row ports) in Hread by done. by injection Hread as <-.
  - intros (row & p & parsed & x & Hrow & Hread & Hp & Hx & _ & _ & Eq & <- & _). destruct (group_read ports s k row p Hok Hrow Hread) as (pa & Ek & -> & Hwf & Hs).
    assert (pa = parsed) as -> by (destruct Hwf as (_ & _ & _ & _ & _ & Hp' & _); congruence).
    exists (mapping_row (pg_id p) (pg_protocol p) (pg_target_host p) x). cbn in Ek |- *. rewrite Eq. split_and!; try done. rewrite <- Eq.
    eapply (proj2 (group_mapping _ _ _ _ Hs)). by exists x.
Qed.
Lemma tcp_grant_unique ports s client name port target o o' t t' : tunnels_ok ports s →
  tcp_grant s client name port target o t → tcp_grant s client name port target o' t' → t = t'.
Proof using laws.
  intros Hok H H'. assert (o = o') as <- by (by eapply (to_exclusive _ _ Hok); eapply tcp_grant_owns).
  destruct o as [[] k]; try done; unfold tcp_grant in H, H'; cbn in H, H'.
  - destruct H as (row & p & Hrow & Hread & _ & _ & _ & _ & _ & ->), H' as (row' & p' & Hrow' & Hread' & _ & _ & _ & _ & _ & ->). congruence.
  - destruct H as (row & p & ? & ? & Hrow & Hread & _ & _ & _ & _ & _ & _ & _ & _ & ->), H' as (row' & p' & ? & ? & Hrow' & Hread' & _ & _ & _ & _ & _ & _ & _ & _ & ->). congruence.
Qed.

(** The first row of a table that a query selects. *)
Lemma head_filter_Some {R} (f : rstr * R → bool) (t : gmap rstr R) k r :
  head (filter (λ x, f x = true) (map_to_list t)) = Some (k, r) → t !! k = Some r ∧ f (k, r) = true.
Proof.
  intros H%head_Some_elem_of. by apply list_elem_of_filter in H as [Hf Hr%elem_of_map_to_list].
Qed.
Lemma head_filter_None {R} (f : rstr * R → bool) (t : gmap rstr R) k r :
  head (filter (λ x, f x = true) (map_to_list t)) = None → t !! k = Some r → f (k, r) = true → False.
Proof.
  intros H%head_None Hr Hf. assert ((k, r) ∈ filter (λ x, f x = true) (map_to_list t)) as Hin; [|rewrite H in Hin; by apply elem_of_nil in Hin].
  apply list_elem_of_filter. split; [done|]. by apply elem_of_map_to_list.
Qed.
Lemma sql_bool_one b : (sql_bool b =? 1) = b.
Proof. by destruct b. Qed.
Lemma limit_u64 b : bandwidth_valid b = true → to_u64 <$> b = b.
Proof. intros H. destruct b as [n|]; [|done]. pose proof (bandwidth_range _ _ H eq_refl). cbn. by rewrite to_u64_small by lia. Qed.

Lemma tcp_selected ports s k r client name port target : tunnels_ok ports s → uuid_ok client → tcp_tunnels s !! k = Some r →
  (bool_decide (tr_client r = uuid_string client) && bool_decide (tr_name r = name) && (tr_port r =? port) && bool_decide (tr_target r = target) && (tr_enabled r =? 1)) = true →
  ∃ t, tcp_runtime k KindTcp (tr_max_connections r) (tr_bandwidth r) = Ok t ∧ tcp_grant s client name port target (OTcp, k) t.
Proof using laws.
  intros Hok Hc Hr Hf. destruct (to_tcp _ _ Hok _ _ Hr) as (p & Ek & -> & Hwf). pose proof Hwf as (H1 & H2 & _ & _ & H4 & H5). cbn in Hf.
  rewrite !andb_true_iff, !bool_decide_eq_true, Z.eqb_eq, sql_bool_one in Hf. destruct Hf as ((((E1 & <-) & <-) & <-) & E5). apply uuid_string_inj in E1 as <-; [|done..].
  unfold tcp_runtime. rewrite Ek. cbn. rewrite uuid_parse_string, to_u64_small, limit_u64 by (done || lia). eexists. split; [done|].
  exists (tcp_row p (sql_bool (tcp_enabled p))), p. cbn. rewrite (read_tcp_row ports) by done. by rewrite <- Ek.
Qed.
Lemma group_selected ports s k r client name port target : tunnels_ok ports s → uuid_ok client → port_groups s !! k = Some r →
  (bool_decide (gr_client r = uuid_string client) && bool_decide (gr_protocol r = group_as_str GroupTcp) && bool_decide (gr_name r = name) && (gr_enabled r =? 1) &&
   any (λ m, bool_decide (mr_policy m = k) && (mr_public_port m =? port) && bool_decide (mr_target_addr m = target)) (group_mappings s)) = true →
  ∃ t, tcp_runtime k KindPortGroup (gr_max_connections r) (gr_bandwidth r) = Ok t ∧ tcp_grant s client name port target (OGroup, k) t.
Proof using laws.
  intros Hok Hc Hr Hf. destruct (to_groups _ _ Hok _ _ Hr) as (p & parsed & Ek & -> & Hwf & Hs). pose proof Hwf as (H1 & H2 & [H3 H4] & _ & _ & H5 & _).
  cbn [group_row gr_client gr_protocol gr_name gr_enabled fst snd] in Hf.
  rewrite !andb_true_iff, !bool_decide_eq_true, sql_bool_one in Hf. destruct Hf as ((((E1 & E2) & <-) & E4) & E5). apply uuid_string_inj in E1 as <-; [|done..].
  apply (inj group_as_str) in E2. unfold any in E5. apply existsb_exists in E5 as (m & Hm%list_elem_of_In & E5). rewrite !andb_true_iff, !bool_decide_eq_true, Z.eqb_eq in E5.
  destruct E5 as [[Em Ep] Et]. destruct (proj1 (group_mapping s p parsed m Hs)) as (x & Hx & ->); [by rewrite <- Ek|]. cbn in Ep, Et. subst port target.
  unfold tcp_runtime. rewrite Ek. cbn. rewrite uuid_parse_string, to_u64_small, limit_u64 by (done || lia). eexists. split; [done|].
  exists (group_row p (sql_bool (pg_enabled p))), p, parsed, x. cbn. rewrite (read_group_row ports p parsed) by done. rewrite <- Ek. by split_and!.
Qed.

Lemma tcp_grant_selects ports s k client name port target t : tunnels_ok ports s → tcp_grant s client name port target (OTcp, k) t →
  ∃ r, tcp_tunnels s !! k = Some r ∧
    (bool_decide (tr_client r = uuid_string client) && bool_decide (tr_name r = name) && (tr_port r =? port) && bool_decide (tr_target r = target) && (tr_enabled r =? 1)) = true.
Proof using laws.
  intros Hok (r & p & Hr & Hread & <- & <- & <- & <- & Ee & _). cbn in Hr, Hread. exists r. split; [done|]. destruct (to_tcp _ _ Hok _ _ Hr) as (q & -> & -> & Hwf).
  rewrite (read_tcp_row ports) in Hread by done. injection Hread as <-. cbn. by rewrite !bool_decide_true, Z.eqb_refl, Ee.
Qed.
Lemma group_grant_selects ports s k client name port target t : tunnels_ok ports s → tcp_grant s client name port target (OGroup, k) t →
  ∃ r, port_groups s !! k = Some r ∧
    (bool_decide (gr_client r = uuid_string client) && bool_decide (gr_protocol r = group_as_str GroupTcp) && bool_decide (gr_name r = name) && (gr_enabled r =? 1) &&
     any (λ m, bool_decide (mr_policy m = k) && (mr_public_port m =? port) && bool_decide (mr_target_addr m = target)) (group_mappings s)) = true.
Proof using laws.
  intros Hok (r & p & parsed & x & Hr & Hread & Hp & Hx & <- & <- & Eq & <- & <- & Ee & _). cbn in Hr, Hread. exists r. split; [done|].
  destruct (group_read ports s k r p Hok Hr Hread) as (pa & Ek & -> & Hwf & Hs). assert (pa = parsed) as -> by (destruct Hwf as (_ & _ & _ & _ & _ & Hp' & _); congruence).
  destruct (proj2 (group_mapping _ _ _ _ Hs) (ex_intro _ x (conj Hx eq_refl))) as [Hm _]. cbn. rewrite !bool_decide_true, Ee by (done || by rewrite Eq). cbn.
  apply existsb_exists. eexists. split; [by apply list_elem_of_In|]. cbn. by rewrite !bool_decide_true, Z.eqb_refl.
Qed.

(** The data plane is granted exactly what is stored. After any history, the lookup for an incoming TCP
    tunnel succeeds without changing anything, and grants a policy with its limits if and only if
    that is the enabled TCP tunnel or port group with this client, name, port and target. *)
Theorem tcp_runtime_exact ports s client name port target :
  tunnel_history ports s → uuid_ok client →
  ∃ g, runtime_policy client name port target s = Done (Ok g, s) ∧
    ∀ t, g = Some t ↔ ∃ o, tcp_grant s client name port target o t.
Proof using laws.
  intros Hok%tunnel_history_ok Hc.
  assert (∀ g, (∀ t, g = Some t → ∃ o, tcp_grant s client name port target o t) → (g = None → ∀ o t, ¬ tcp_grant s client name port target o t) →
            ∀ t, g = Some t ↔ ∃ o, tcp_grant s client name port target o t) as Hiff.
  { intros g Hs Hn t. split; [apply Hs|]. intros [o Ho]. destruct g as [t'|]; [|by destruct (Hn eq_refl o t)]. destruct (Hs t' eq_refl) as [o' Ho'].
    f_equal. by eapply tcp_grant_unique. }
  unfold runtime_policy, mbind, db_bind, db_get.
  match goal with |- context [head ?l] => destruct (head l) as [[k r]|] eqn:Hh end.
  - apply (head_filter_Some (λ x : rstr * TcpRow, _)) in Hh as [Hr Hf]. destruct (tcp_selected ports s k r client name port target Hok Hc Hr Hf) as (t & Et & Hg).
    cbn. rewrite Et. exists (Some t). split; [done|]. apply Hiff; [|done]. intros ? [= <-]. by eexists.
  - destruct (group_for client GroupTcp name port target s) as [[k r]|] eqn:Hgr; unfold group_for in Hgr.
    + apply (head_filter_Some (λ x : rstr * GroupRow, _)) in Hgr as [Hr Hf]. destruct (group_selected ports s k r client name port target Hok Hc Hr Hf) as (t & Et & Hg).
      cbn. rewrite Et. exists (Some t). split; [done|]. apply Hiff; [|done]. intros ? [= <-]. by eexists.
    + exists None. split; [done|]. apply Hiff; [done|]. intros _ [[] k] t Hg; try exact Hg.
      * destruct (tcp_grant_selects ports s k client name port target t Hok Hg) as (r & Hr & Hf). by eapply (head_filter_None (λ x : rstr * TcpRow, _)).
      * destruct (group_grant_selects ports s k client name port target t Hok Hg) as (r & Hr & Hf). by eapply (head_filter_None (λ x : rstr * GroupRow, _)).
Qed.
End system.

(** ** Witnesses *)

Definition sample_group : CreatePortGroupPolicy :=
  {| cg_client := 3; cg_name := lit "web"; cg_protocol := GroupTcp; cg_public_ports := lit "32001-32003"; cg_target_host := lit "127.0.0.1";
     cg_target_ports := lit "8000-8002"; cg_max_connections := None; cg_max_sessions := None; cg_idle := None; cg_bandwidth := None |}.
Definition sample_overlap : CreatePortGroupPolicy :=
  {| cg_client := 3; cg_name := lit "api"; cg_protocol := GroupTcp; cg_public_ports := lit "32003,32005"; cg_target_host := lit "127.0.0.1";
     cg_target_ports := lit "9000,9001"; cg_max_connections := None; cg_max_sessions := None; cg_idle := None; cg_bandwidth := None |}.
Definition sample_tunnels : TunnelTables :=
  match create_port_group (plat := sample_platform) ex_policy sample_group 5 empty_tunnels with Done (_, s) => s | Panic => empty_tunnels end.

Lemma Done_pair {A B} (a a' : A) (b b' : B) : Done (a, b) = Done (a', b') → a = a' ∧ b = b'.
Proof. by intros [= -> ->]. Qed.
Lemma Ok_eq {E A} (a a' : A) : Ok (E := E) a = Ok a' → a = a'.
Proof. by intros [= ->]. Qed.
Lemma sample_group_ok : group_request_ok sample_group ∧ group_request_ok sample_overlap.
Proof. by repeat split. Qed.
Lemma sample_tunnels_history : tunnel_history (plat := sample_platform) ex_policy sample_tunnels.
Proof.
  assert (∃ ok s, perform_tunnel (plat := sample_platform) ex_policy (OpCreateGroup sample_group 5) empty_tunnels = Done (ok, s) ∧ sample_tunnels = s) as (ok & s & E & ->)
    by (eexists _, _; split; [vm_compute; reflexivity|vm_compute; reflexivity]).
  eapply tunnels_call; [apply tunnels_start| |exact E]. clear E. split; [split; vm_compute; discriminate|]. split; [apply sample_group_ok|]. repeat split.
Qed.

Lemma tunnel_ports_exclusive_witness :
  owns sample_tunnels GroupTcp (OGroup, uuid_string (Platform := sample_platform) 5) 32003 ∧
  (∀ o, owns sample_tunnels GroupTcp o 32003 → o = (OGroup, uuid_string (Platform := sample_platform) 5)) ∧ allows_tcp ex_policy 32003 = true.
Proof.
  assert (owns sample_tunnels GroupTcp (OGroup, uuid_string (Platform := sample_platform) 5) 32003) as H.
  { eexists. split; [apply list_elem_of_lookup; exists 2%nat; vm_compute; reflexivity|]. split_and!; vm_compute; reflexivity. }
  destruct (tunnel_ports_exclusive (laws := sample_laws) ex_policy sample_tunnels sample_tunnels_history) as (H1 & H2 & _).
  split_and!; [exact H|intros o Ho; exact (H1 _ _ _ _ Ho H)|exact (proj2 (H2 _ _ _ H))].
Defined.
Lemma port_group_created_or_refused_witness :
  create_port_group (plat := sample_platform) ex_policy sample_overlap 6 sample_tunnels = Done (Err GroupDuplicatePublicPort, sample_tunnels).
Proof.
  destruct (port_group_created_or_refused (laws := sample_laws) ex_policy sample_tunnels sample_overlap 6 sample_tunnels_history) as (out & s' & E & H);
    [done|apply sample_group_ok|repeat split; vm_compute; reflexivity|].
  assert (∃ s, create_port_group (plat := sample_platform) ex_policy sample_overlap 6 sample_tunnels = Done (Err GroupDuplicatePublicPort, s)) as [s E']
    by (eexists; vm_compute; reflexivity).
  rewrite E' in E. apply Done_pair in E as [<- <-]. destruct H as [-> _]. exact E'.
Defined.
Lemma tcp_runtime_exact_witness :
  ∃ t, runtime_policy (plat := sample_platform) 3 (lit "web") 32002 (lit "127.0.0.1:8001") sample_tunnels = Done (Ok (Some t), sample_tunnels) ∧
    trt_policy_id t = 5 ∧ ∃ o, tcp_grant (plat := sample_platform) sample_tunnels 3 (lit "web") 32002 (lit "127.0.0.1:8001") o t.
Proof.
  destruct (tcp_runtime_exact (laws := sample_laws) ex_policy sample_tunnels 3 (lit "web") 32002 (lit "127.0.0.1:8001") sample_tunnels_history) as (g & E & H); [done|].
  assert (∃ t s, runtime_policy (plat := sample_platform) 3 (lit "web") 32002 (lit "127.0.0.1:8001") sample_tunnels = Done (Ok (Some t), s) ∧ trt_policy_id t = 5)
    as (t & s & E' & Ht) by (eexists _, _; split; vm_compute; reflexivity).
  rewrite E' in E. apply Done_pair in E as [E ->]. exists t. split; [exact E'|]. split; [exact Ht|]. apply H. apply Ok_eq in E. symmetry. exact E.
Defined.
