(* ===== verification/SecretTunnels.v ===== *)
(** * Secret tunnels ([secret_tunnel_catalog.rs])

    Tunnels without a public port: a visitor reaches the provider with an access key, of which the
    table holds the SHA-256. A statement fails on a unique column or a row that does not convert;
    other failures of the storage are not modelled. *)

From S2P Require Import Prelude DbMonad RustStr RustText NetAddr TargetPool P2pProtocol AdminAuth PortPolicy TunnelTables TunnelCatalog TunnelPorts.
Local Open Scope Z_scope.
Set Default Proof Using "Type".

Definition SECRET_DEFAULT_MAX_CONNECTIONS : Z := 32.
Definition SECRET_MAX_CONNECTIONS : Z := 1024.

Record CreateSecretTunnelPolicy := {
  cs_provider : Z; cs_allowed : option Z; cs_name : rstr; cs_target : rstr; cs_max_connections : option Z; cs_bandwidth : option Z;
}.
Record SecretTunnelPolicy := {
  sp_id : Z; sp_provider : Z; sp_allowed : option Z; sp_name : rstr; sp_target : rstr; sp_max_connections : Z; sp_bandwidth : option Z;
  sp_enabled : bool;
}.
Record CreatedSecretTunnelPolicy := { created_secret : SecretTunnelPolicy; access_key : rstr }.
Record SecretTunnelRuntimePolicy := {
  srt_policy_id : Z; srt_provider : Z; srt_target : rstr; srt_max_connections : Z; srt_bandwidth : option Z;
}.
Inductive SecretPolicyError :=
  | SecretInvalidName | SecretInvalidTarget | SecretInvalidConnectionLimit | SecretInvalidBandwidthLimit | SecretDuplicateName | SecretDatabase.

Record SecretRow := {
  se_provider : rstr; se_allowed : option rstr; se_name : rstr; se_target : rstr; se_key_hash : rstr; se_max_connections : Z;
  se_bandwidth : option Z; se_enabled : Z;
}.
Abbreviation SecretCatalog := (gmap rstr SecretRow).
Abbreviation secrets := (db SecretPolicyError SecretCatalog).

Definition validate_secret_policy (request : CreateSecretTunnelPolicy) : result SecretPolicyError unit :=
  _ ← reject_if (name_invalid (trim (cs_name request))) SecretInvalidName;
  let target := trim (cs_target request) in
  _ ← reject_if (negb (bool_decide (target = cs_target request)) || (4096 <? str_len target) || negb (is_ok (parse_target_pool target))) SecretInvalidTarget;
  _ ← reject_if (negb (within 1 SECRET_MAX_CONNECTIONS (default SECRET_DEFAULT_MAX_CONNECTIONS (cs_max_connections request)))) SecretInvalidConnectionLimit;
  reject_if (negb (bandwidth_valid (cs_bandwidth request))) SecretInvalidBandwidthLimit.

(** The policy that [create] and [update] store. *)
Definition secret_of (id : Z) (enabled : bool) (request : CreateSecretTunnelPolicy) : SecretTunnelPolicy :=
  {| sp_id := id; sp_provider := cs_provider request; sp_allowed := cs_allowed request; sp_name := trim (cs_name request);
     sp_target := trim (cs_target request); sp_max_connections := default SECRET_DEFAULT_MAX_CONNECTIONS (cs_max_connections request);
     sp_bandwidth := cs_bandwidth request; sp_enabled := enabled |}.
(** [requested_policy], for the policies of a Fleet bundle. *)
Definition requested_secret (id : Z) (enabled : bool) (request : CreateSecretTunnelPolicy) : result SecretPolicyError SecretTunnelPolicy :=
  _ ← validate_secret_policy request;
  Ok {| sp_id := id; sp_provider := cs_provider request; sp_allowed := cs_allowed request; sp_name := trim (cs_name request);
        sp_target := cs_target request; sp_max_connections := default SECRET_DEFAULT_MAX_CONNECTIONS (cs_max_connections request);
        sp_bandwidth := cs_bandwidth request; sp_enabled := enabled |}.

Definition valid_access_key (value : rstr) : bool :=
  (str_len value =? 68) && bool_decide (take 4 value = lit "lls_") && all is_ascii_hexdigit (as_bytes (drop 4 value)).

Section catalog.
Context {plat : Platform}.

Definition hash_access_key (value : rstr) : rstr := encode_hex (sha256 (as_bytes value)).

Definition read_secret (id : rstr) (row : SecretRow) : option SecretTunnelPolicy :=
  id ← uuid_parse id;
  provider ← uuid_parse (se_provider row);
  allowed ← match se_allowed row with None => Some None | Some text => Some <$> uuid_parse text end;
  max ← get_uint U16_MAX (se_max_connections row);
  bandwidth ← get_limit (se_bandwidth row);
  Some {| sp_id := id; sp_provider := provider; sp_allowed := allowed; sp_name := se_name row; sp_target := se_target row;
          sp_max_connections := max; sp_bandwidth := bandwidth; sp_enabled := negb (se_enabled row =? 0) |}.
Definition read_secret_runtime (id : rstr) (row : SecretRow) : result SecretPolicyError SecretTunnelRuntimePolicy :=
  id ← ok_or (uuid_parse id) SecretDatabase;
  provider ← ok_or (uuid_parse (se_provider row)) SecretDatabase;
  Ok {| srt_policy_id := id; srt_provider := provider; srt_target := se_target row; srt_max_connections := to_u64 (se_max_connections row);
        srt_bandwidth := to_u64 <$> se_bandwidth row |}.
Definition secret_row (p : SecretTunnelPolicy) (hash : rstr) (enabled : Z) : SecretRow :=
  {| se_provider := uuid_string (sp_provider p); se_allowed := uuid_string <$> sp_allowed p; se_name := sp_name p; se_target := sp_target p;
     se_key_hash := hash; se_max_connections := sp_max_connections p; se_bandwidth := sp_bandwidth p; se_enabled := enabled |}.

(** [UNIQUE(provider_client_id, name)], and with [id <> except]. *)
Definition secret_named (provider name : rstr) (except : option rstr) (t : SecretCatalog) : bool :=
  any (λ x : rstr * SecretRow, bool_decide (se_provider x.2 = provider) && bool_decide (se_name x.2 = name) && other except x.1) (map_to_list t).
(** [access_key_hash TEXT NOT NULL UNIQUE]. *)
Definition key_hashed (hash : rstr) (t : SecretCatalog) : bool :=
  any (λ x : rstr * SecretRow, bool_decide (se_key_hash x.2 = hash)) (map_to_list t).

(** [a] and [b] are the random parts of the key, [id] the new identifier. *)
Definition create_secret (request : CreateSecretTunnelPolicy) (a b id : Z) : secrets CreatedSecretTunnelPolicy :=
  _ ← db_lift (validate_secret_policy request);
  let key := lit "lls_" ++ uuid_simple a ++ uuid_simple b in
  let policy := secret_of id true request in
  let row := secret_row policy (hash_access_key key) 1 in
  clash ← db_get (λ t, present (uuid_string id) t || secret_named (se_provider row) (se_name row) None t || key_hashed (se_key_hash row) t);
  _ ← db_ensure (negb clash) SecretDuplicateName;
  _ ← db_put (<[uuid_string id := row]>);
  mret {| created_secret := policy; access_key := key |}.
(** [ORDER BY name]. *)
Definition list_secrets : secrets (list SecretTunnelPolicy) :=
  rows ← db_get (λ t, merge_sort (λ x y : rstr * SecretRow, lex_le (as_bytes (se_name x.2)) (as_bytes (se_name y.2))) (map_to_list t));
  db_lift (collect (λ '(id, row), ok_or (read_secret id row) SecretDatabase) rows).
Definition set_secret_enabled (id : Z) (enabled : bool) : secrets bool :=
  found ← db_get (present (uuid_string id));
  _ ← db_put (alter (λ row, {| se_provider := se_provider row; se_allowed := se_allowed row; se_name := se_name row; se_target := se_target row;
        se_key_hash := se_key_hash row; se_max_connections := se_max_connections row; se_bandwidth := se_bandwidth row;
        se_enabled := sql_bool enabled |}) (uuid_string id));
  mret found.
Definition secret_by_id (id : Z) : secrets (option SecretTunnelPolicy) :=
  row ← db_get (λ t : SecretCatalog, t !! uuid_string id);
  match row with
  | None => mret None
  | Some row => policy ← db_lift (ok_or (read_secret (uuid_string id) row) SecretDatabase); mret (Some policy)
  end.
Definition delete_secret (id : Z) : secrets (option SecretTunnelPolicy) :=
  policy ← secret_by_id id;
  _ ← (if bool_decide (is_Some policy) then db_put (delete (uuid_string id)) else mret tt);
  mret policy.
Definition update_secret (id : Z) (request : CreateSecretTunnelPolicy) : secrets (option SecretTunnelPolicy) :=
  _ ← db_lift (validate_secret_policy request);
  current ← secret_by_id id;
  match current with
  | None => mret None
  | Some current =>
      let me := Some (uuid_string id) in
      duplicate ← db_get (secret_named (uuid_string (cs_provider request)) (trim (cs_name request)) me);
      _ ← db_ensure (negb duplicate) SecretDuplicateName;
      let policy := secret_of id (sp_enabled current) request in
      clash ← db_get (secret_named (uuid_string (sp_provider policy)) (sp_name policy) me);
      _ ← db_ensure (negb clash) SecretDatabase;
      _ ← db_put (alter (λ row, secret_row policy (se_key_hash row) (se_enabled row)) (uuid_string id));
      mret (Some policy)
  end.

Definition provider_runtime_policy (provider : Z) (name target : rstr) : secrets (option SecretTunnelRuntimePolicy) :=
  row ← db_get (λ t : SecretCatalog, head (filter (λ x : rstr * SecretRow,
          (bool_decide (se_provider x.2 = uuid_string provider) && bool_decide (se_name x.2 = name) && bool_decide (se_target x.2 = target) &&
           (se_enabled x.2 =? 1)) = true) (map_to_list t)));
  match row with
  | None => mret None
  | Some (id, row) => policy ← db_lift (read_secret_runtime id row); mret (Some policy)
  end.
(** The row that the key opens for this visitor. *)
Definition opened_by (key_hash visitor : rstr) (x : rstr * SecretRow) : bool :=
  bool_decide (se_key_hash x.2 = key_hash) && (se_enabled x.2 =? 1) &&
  match se_allowed x.2 with None => true | Some allowed => bool_decide (allowed = visitor) end.
Definition access_runtime_policy (visitor : Z) (key : rstr) : secrets (option SecretTunnelRuntimePolicy) :=
  if negb (valid_access_key key) then mret None
  else
    row ← db_get (λ t : SecretCatalog, head (filter (λ x, opened_by (hash_access_key key) (uuid_string visitor) x = true) (map_to_list t)));
    match row with
    | None => mret None
    | Some (id, row) => policy ← db_lift (read_secret_runtime id row); mret (Some policy)
    end.
End catalog.

(** ** Specification *)

(** The policies in force, each with the key that was given out for it. *)
Abbreviation Held := (gmap rstr (SecretTunnelPolicy * rstr)).

Section specification.
Context {plat : Platform}.

Inductive SecretOp :=
  | SecCreate (request : CreateSecretTunnelPolicy) (a b id : Z)
  | SecUpdate (id : Z) (request : CreateSecretTunnelPolicy)
  | SecEnable (id : Z) (enabled : bool)
  | SecDelete (id : Z)
  | SecAccess (visitor : Z) (key : rstr).
Inductive SecretOutcome := SecCreated (c : CreatedSecretTunnelPolicy) | SecPolicy (p : option SecretTunnelPolicy) | SecFound (b : bool) | SecRuntime (r : option SecretTunnelRuntimePolicy).

Definition perform_secret (op : SecretOp) : secrets SecretOutcome :=
  match op with
  | SecCreate request a b id => c ← create_secret request a b id; mret (SecCreated c)
  | SecUpdate id request => p ← update_secret id request; mret (SecPolicy p)
  | SecEnable id enabled => b ← set_secret_enabled id enabled; mret (SecFound b)
  | SecDelete id => p ← delete_secret id; mret (SecPolicy p)
  | SecAccess visitor key => r ← access_runtime_policy visitor key; mret (SecRuntime r)
  end.
Definition enabled_as (enabled : bool) (p : SecretTunnelPolicy) : SecretTunnelPolicy :=
  {| sp_id := sp_id p; sp_provider := sp_provider p; sp_allowed := sp_allowed p; sp_name := sp_name p; sp_target := sp_target p;
     sp_max_connections := sp_max_connections p; sp_bandwidth := sp_bandwidth p; sp_enabled := enabled |}.
(** What an operation means; a key lasts as long as its policy. *)
Definition held_step (op : SecretOp) (out : result SecretPolicyError SecretOutcome) (h : Held) : Held :=
  match op, out with
  | SecCreate _ _ _ id, Ok (SecCreated c) => <[uuid_string id := (created_secret c, access_key c)]> h
  | SecUpdate id _, Ok (SecPolicy (Some p)) => alter (λ x, (p, x.2)) (uuid_string id) h
  | SecEnable id enabled, Ok _ => alter (λ x, (enabled_as enabled x.1, x.2)) (uuid_string id) h
  | SecDelete id, Ok _ => delete (uuid_string id) h
  | _, _ => h
  end.

Definition secret_request_ok (request : CreateSecretTunnelPolicy) : Prop :=
  uuid_ok (cs_provider request) ∧ ∀ v, cs_allowed request = Some v → uuid_ok v.
Definition secret_op_ok (op : SecretOp) : Prop :=
  match op with
  | SecCreate request a b id => uuid_ok a ∧ uuid_ok b ∧ uuid_ok id ∧ secret_request_ok request
  | SecUpdate id request => uuid_ok id ∧ secret_request_ok request
  | _ => True
  end.
Inductive secret_history : SecretCatalog → Held → Prop :=
  | secrets_none : secret_history ∅ ∅
  | secrets_call (t t' : SecretCatalog) (h : Held) (op : SecretOp) (out : result SecretPolicyError SecretOutcome) :
      secret_history t h → secret_op_ok op → perform_secret op t = Done (out, t') → secret_history t' (held_step op out h).

Definition runtime_of (p : SecretTunnelPolicy) : SecretTunnelRuntimePolicy :=
  {| srt_policy_id := sp_id p; srt_provider := sp_provider p; srt_target := sp_target p; srt_max_connections := sp_max_connections p;
     srt_bandwidth := sp_bandwidth p |}.
(** The form of a key: [lls_] and 64 hexadecimal digits. *)
Definition key_form (key : rstr) : Prop := ∃ digits, key = lit "lls_" ++ digits ∧ length digits = 64%nat ∧ Forall (λ c, is_ascii_hexdigit c = true) digits.
(** [key] opens the policy [p] for [visitor]: it has the form of a key and hashes as the key given out for [p]. *)
Definition opens (h : Held) (visitor : Z) (key : rstr) (p : SecretTunnelPolicy) : Prop :=
  key_form key ∧ sp_enabled p = true ∧ (sp_allowed p = None ∨ sp_allowed p = Some visitor) ∧
  ∃ given, h !! uuid_string (sp_id p) = Some (p, given) ∧ hash_access_key given = hash_access_key key.
(** A key that [create_secret] makes. *)
Definition made_key (key : rstr) : Prop := ∃ a b, uuid_ok a ∧ uuid_ok b ∧ key = lit "lls_" ++ uuid_simple a ++ uuid_simple b.
End specification.
(** [Uuid::simple] prints 32 hexadecimal digits. *)
Class SimpleUuids {plat : Platform} : Prop := {
  uuid_simple_digits : ∀ id, uuid_ok id → length (uuid_simple id) = 32%nat ∧ Forall (λ c, is_ascii_hexdigit c = true) (uuid_simple id);
}.

(** ** The invariant *)

Section invariant.
Context {plat : Platform} {laws : PlatformLaws}.

Definition secret_wf (p : SecretTunnelPolicy) : Prop :=
  uuid_ok (sp_id p) ∧ uuid_ok (sp_provider p) ∧ (∀ v, sp_allowed p = Some v → uuid_ok v) ∧ tunnel_limits_ok (sp_max_connections p) 1024 (sp_bandwidth p).
Definition stored_row (x : SecretTunnelPolicy * rstr) : SecretRow := secret_row x.1 (hash_access_key x.2) (sql_bool (sp_enabled x.1)).

Record secrets_ok (t : SecretCatalog) (h : Held) : Prop := {
  so_rows : t = stored_row <$> h;
  so_wf : ∀ k x, h !! k = Some x → k = uuid_string (sp_id x.1) ∧ secret_wf x.1;
  so_keys : ∀ k k' x x', h !! k = Some x → h !! k' = Some x' → hash_access_key x.2 = hash_access_key x'.2 → k = k';
  so_names : ∀ k k' x x', h !! k = Some x → h !! k' = Some x' → sp_provider x.1 = sp_provider x'.1 → sp_name x.1 = sp_name x'.1 → k = k';
}.

Lemma hexdigit_range c : is_ascii_hexdigit c = true → 0 ≤ c < 128.
Proof. unfold is_ascii_hexdigit, is_ascii_digit. intros. bool_prop. lia. Qed.
Lemma hex_is_ascii l : Forall (λ c, is_ascii_hexdigit c = true) l → is_ascii l = true.
Proof.
  intros H. unfold is_ascii. apply all_Forall. eapply Forall_impl; [exact H|]. intros c Hc%hexdigit_range. apply andb_true_iff. split; [apply Z.leb_le|apply Z.ltb_lt]; lia.
Qed.
Lemma hex_bytes_only l : Forall (λ c, is_ascii_hexdigit c = true) (as_bytes l) → as_bytes l = l.
Proof.
  induction l as [|c l IH]; [done|]. rewrite as_bytes_cons. intros [Hc Hl]%Forall_app. rewrite (IH Hl). clear IH Hl. revert Hc. unfold encode_utf8.
  destruct (Z.ltb_spec c 128) as [|Hge]; [done|]. assert (∀ a b, 128 ≤ a → 0 ≤ b → is_ascii_hexdigit (a + b) = true → False) as Hbad.
  { intros a b Ha Hb Hx%hexdigit_range. lia. }
  destruct (c <? 2048); [|destruct (c <? 65536)]; intros [Hx _]%Forall_cons; exfalso; (eapply Hbad; [| |exact Hx]); [lia| |lia| |lia|]; apply Z.div_pos; lia.
Qed.
Lemma valid_access_key_form key : valid_access_key key = true ↔ key_form key.
Proof.
  unfold valid_access_key, key_form. rewrite !andb_true_iff, Z.eqb_eq, bool_decide_eq_true, all_Forall. split.
  - intros [[Hn Hp] Hd]. pose proof (hex_bytes_only _ Hd) as Eb. exists (drop 4 key). rewrite Eb in Hd. split_and!; [|..|done].
    + by rewrite <- Hp, take_drop.
    + rewrite <- (take_drop 4 key), Hp in Hn. unfold str_len in Hn. rewrite as_bytes_app, Eb in Hn. unfold len in Hn. rewrite length_app in Hn.
      replace (length (as_bytes (lit "lls_"))) with 4%nat in Hn by reflexivity. lia.
  - intros (digits & -> & Hl & Hd). assert (as_bytes digits = digits) as Eb by by apply as_bytes_ascii, hex_is_ascii.
    change (drop 4 (lit "lls_" ++ digits)) with digits. change (take 4 (lit "lls_" ++ digits)) with (lit "lls_").
    rewrite Eb. split_and!; [|done|done]. unfold str_len. rewrite as_bytes_app, Eb. unfold len. rewrite length_app, Hl. reflexivity.
Qed.
Lemma made_key_form {simple : SimpleUuids} key : made_key key → key_form key.
Proof.
  intros (a & b & [La Da]%uuid_simple_digits & [Lb Db]%uuid_simple_digits & ->). exists (uuid_simple a ++ uuid_simple b).
  split_and!; [done|by rewrite length_app, La, Lb|by apply Forall_app].
Qed.

Lemma read_secret_row p hash : secret_wf p → read_secret (uuid_string (sp_id p)) (secret_row p hash (sql_bool (sp_enabled p))) = Some p.
Proof using laws.
  intros (H1 & H2 & H3 & H4 & H5). unfold read_secret. cbn. rewrite !uuid_parse_string by done. cbn.
  assert ((match uuid_string <$> sp_allowed p with None => Some None | Some text => Some <$> uuid_parse text end) = Some (sp_allowed p)) as ->.
  { destruct (sp_allowed p) as [v|]; [|done]. cbn. by rewrite uuid_parse_string by by apply H3. }
  cbn. rewrite get_uint_ok by lia. cbn. rewrite get_limit_ok by done. cbn. rewrite sql_bool_read. by destruct p.
Qed.
Lemma read_secret_runtime_row p hash : secret_wf p →
  read_secret_runtime (uuid_string (sp_id p)) (secret_row p hash (sql_bool (sp_enabled p))) = Ok (runtime_of p).
Proof using laws.
  intros (H1 & H2 & H3 & H4 & H5). unfold read_secret_runtime. cbn. rewrite !uuid_parse_string by done. cbn. rewrite to_u64_small by lia.
  assert (to_u64 <$> sp_bandwidth p = sp_bandwidth p) as ->; [|done].
  destruct (sp_bandwidth p) as [n|] eqn:Eb; [|done]. pose proof (bandwidth_range _ _ H5 eq_refl). cbn. by rewrite to_u64_small by lia.
Qed.
Lemma secret_of_wf id enabled request : uuid_ok id → secret_request_ok request → validate_secret_policy request = Ok tt → secret_wf (secret_of id enabled request).
Proof.
  intros Hid [Hp Ha] Hv. unfold validate_secret_policy in Hv. cbv zeta in Hv. bind_as Hv u1 E1. bind_as Hv u2 E2. bind_as Hv u3 E3.
  apply reject_if_Ok in E3, Hv. apply negb_false_iff in E3, Hv. unfold within in E3. apply andb_true_iff in E3 as [E3%Z.leb_le E4%Z.leb_le].
  by split_and!.
Qed.

Lemma secret_named_false (provider name : rstr) (except : option rstr) (t : SecretCatalog) : secret_named provider name except t = false ↔
  ∀ k r, t !! k = Some r → se_provider r = provider → se_name r = name → except = Some k.
Proof.
  unfold secret_named. rewrite any_false. split.
  - intros H k r Hr E1 E2. specialize (H (k, r)). rewrite elem_of_map_to_list in H. specialize (H Hr). cbn in H.
    rewrite !bool_decide_true in H by done. by apply other_false in H.
  - intros H [k r] Hr%elem_of_map_to_list. cbn. repeat case_bool_decide; try done. cbn. by apply other_false, (H k r).
Qed.
Lemma key_hashed_false (hash : rstr) (t : SecretCatalog) : key_hashed hash t = false ↔ ∀ k r, t !! k = Some r → se_key_hash r ≠ hash.
Proof.
  unfold key_hashed. rewrite any_false. split.
  - intros H k r Hr. specialize (H (k, r)). rewrite elem_of_map_to_list in H. specialize (H Hr). by apply bool_decide_eq_false in H.
  - intros H [k r] Hr%elem_of_map_to_list. apply bool_decide_eq_false, (H k r Hr).
Qed.

Lemma secrets_ok_put t h k x : secrets_ok t h → k = uuid_string (sp_id x.1) → secret_wf x.1 →
  (∀ k' x', h !! k' = Some x' → k' ≠ k → hash_access_key x'.2 ≠ hash_access_key x.2 ∧ (sp_provider x'.1 = sp_provider x.1 → sp_name x'.1 ≠ sp_name x.1)) →
  secrets_ok (<[k := stored_row x]> t) (<[k := x]> h).
Proof.
  intros [-> H2 H3 H4] Hk Hwf Hfree. split.
  - by rewrite fmap_insert.
  - intros k' x' [[<- <-]|[_ Hx]]%lookup_insert_Some; [done|by apply H2].
  - intros k1 k2 x1 x2 [[<- <-]|[N1 Hx1]]%lookup_insert_Some [[<- <-]|[N2 Hx2]]%lookup_insert_Some E; [done|..|by eapply H3].
    + destruct (Hfree k2 x2 Hx2 ltac:(done)) as [F _]. congruence.
    + destruct (Hfree k1 x1 Hx1 ltac:(done)) as [F _]. congruence.
  - intros k1 k2 x1 x2 [[<- <-]|[N1 Hx1]]%lookup_insert_Some [[<- <-]|[N2 Hx2]]%lookup_insert_Some E E'; [done|..|by eapply H4].
    + destruct (Hfree k2 x2 Hx2 ltac:(done)) as [_ F]. by destruct F.
    + destruct (Hfree k1 x1 Hx1 ltac:(done)) as [_ F]. by destruct F.
Qed.
Lemma secrets_ok_delete t h k : secrets_ok t h → secrets_ok (delete k t) (delete k h).
Proof.
  intros [-> H2 H3 H4]. split; [by rewrite fmap_delete|..].
  - intros k' x [_ Hx]%lookup_delete_Some. by apply H2.
  - intros k1 k2 x1 x2 [_ Hx1]%lookup_delete_Some [_ Hx2]%lookup_delete_Some. by apply H3.
  - intros k1 k2 x1 x2 [_ Hx1]%lookup_delete_Some [_ Hx2]%lookup_delete_Some. by apply H4.
Qed.
Lemma secrets_lookup t h k : secrets_ok t h → t !! k = stored_row <$> h !! k.
Proof. intros [-> _ _ _]. apply lookup_fmap. Qed.
Lemma secret_by_id_ok t h id : secrets_ok t h → ensures (secret_by_id id) t (λ out t', t' = t ∧ out = Ok (fst <$> h !! uuid_string id)).
Proof using laws.
  intros Hok. unfold secret_by_id. do 2 db_step. rewrite (secrets_lookup _ _ _ Hok). destruct (h !! uuid_string id) as [x|] eqn:Hx; cbn [fmap option_fmap option_map]; [|by db_step].
  destruct (so_wf _ _ Hok _ _ Hx) as [Ek Hwf]. rewrite Ek. unfold stored_row. rewrite read_secret_row by done. cbn [ok_or]. by do 3 db_step.
Qed.

Lemma perform_secret_ok t h op : secrets_ok t h → secret_op_ok op →
  ensures (perform_secret op) t (λ out t', secrets_ok t' (held_step op out h) ∧ (is_ok out = false → t' = t)).
Proof using laws.
  intros Hok Hop. destruct op as [request a b id|id request|id enabled|id|visitor key]; cbn [perform_secret secret_op_ok] in *.
  - destruct Hop as (_ & _ & Hid & Hrq). unfold create_secret. do 3 db_step. destruct (validate_secret_policy request) as [[]|e] eqn:Hv; [|done]. cbv zeta. do 4 db_step; [|done].
    do 4 db_step. split; [|done]. apply negb_true_iff, orb_false_iff in H as [H Hh]. apply orb_false_iff in H as [_ Hn].
    rewrite secret_named_false in Hn. rewrite key_hashed_false in Hh. cbn [held_step created_secret access_key].
    apply (secrets_ok_put t h _ (secret_of id true request, _) Hok); [done|by apply secret_of_wf|]. intros k' x' Hx' Hne.
    assert (t !! k' = Some (stored_row x')) as Ht by (by rewrite (secrets_lookup _ _ _ Hok), Hx'). split.
    + intros E. apply (Hh _ _ Ht). exact E.
    + intros E1 E2. specialize (Hn _ _ Ht). cbn in Hn. rewrite E1, E2 in Hn. by specialize (Hn eq_refl eq_refl).
  - destruct Hop as [Hid Hrq]. unfold update_secret. do 3 db_step. destruct (validate_secret_policy request) as [[]|e] eqn:Hv; [|done]. db_step.
    eapply ensures_mono; [by apply (secret_by_id_ok t h)|]. cbv beta. intros out t' [-> ->]. destruct (h !! uuid_string id) as [x|] eqn:Hx; cbn [fmap option_fmap option_map].
    2:{ by do 2 db_step. }
    cbv zeta. do 4 db_step; [|done]. do 4 db_step; [|done]. do 4 db_step. split; [|done]. cbn [held_step].
    destruct (so_wf _ _ Hok _ _ Hx) as [_ _]. apply negb_true_iff in H. rewrite secret_named_false in H.
    rewrite (alter_known t _ (stored_row x)) by (by rewrite (secrets_lookup _ _ _ Hok), Hx). rewrite (alter_known h _ x) by done.
    apply (secrets_ok_put t h _ (secret_of id (sp_enabled x.1) request, x.2) Hok); [done|by apply secret_of_wf|]. intros k' x' Hx' Hne. cbn [fst snd]. split.
    + intros E. apply Hne. by eapply (so_keys _ _ Hok).
    + intros E1 E2. assert (t !! k' = Some (stored_row x')) as Ht by (by rewrite (secrets_lookup _ _ _ Hok), Hx'). specialize (H _ _ Ht). cbn in H. rewrite E1, E2 in H.
      specialize (H eq_refl eq_refl). congruence.
  - unfold set_secret_enabled. do 7 db_step. split; [|done]. cbn [held_step]. destruct (h !! uuid_string id) as [x|] eqn:Hx.
    + rewrite (alter_known t _ (stored_row x)) by (by rewrite (secrets_lookup _ _ _ Hok), Hx). rewrite (alter_known h _ x) by done.
      destruct (so_wf _ _ Hok _ _ Hx) as [Ek Hwf]. apply (secrets_ok_put t h _ (enabled_as enabled x.1, x.2) Hok); [done|done|]. intros k' x' Hx' Hne. split.
      * intros E. apply Hne. by eapply (so_keys _ _ Hok).
      * intros E1 E2. apply Hne. by eapply (so_names _ _ Hok).
    + rewrite !alter_id; [done|by intros ? ?; congruence|]. intros r Hr. rewrite (secrets_lookup _ _ _ Hok), Hx in Hr. done.
  - unfold delete_secret. do 2 db_step. eapply ensures_mono; [by apply (secret_by_id_ok t h)|]. cbv beta. intros out t' [-> ->]. db_step.
    destruct (h !! uuid_string id) as [x|] eqn:Hx; cbn [fmap option_fmap option_map].
    + rewrite bool_decide_true by by eexists. do 3 db_step. split; [|done]. by apply secrets_ok_delete.
    + rewrite bool_decide_false by by intros []. do 3 db_step. split; [|done]. cbn [held_step]. by rewrite delete_id.
  - unfold access_runtime_policy. db_step. destruct (valid_access_key key); cbn [negb]; [|by do 2 db_step]. do 2 db_step. match goal with |- ensures (match ?y with _ => _ end) _ _ => destruct y as [[k r]|] end; [|by do 2 db_step].
    do 2 db_step. destruct (read_secret_runtime k r); [|done]. by do 2 db_step.
Qed.
Lemma secret_history_ok t h : secret_history t h → secrets_ok t h.
Proof using laws.
  induction 1 as [|t t' h op out _ IH Hop E].
  - split; [by rewrite fmap_empty|..]; intros * H; by apply lookup_empty_Some in H.
  - by destruct (ensures_eq _ _ _ _ _ E (perform_secret_ok t h op IH Hop)) as [Hok _].
Qed.

Lemma alter_made (f : SecretTunnelPolicy * rstr → SecretTunnelPolicy * rstr) (k : rstr) (h : Held) :
  (∀ x, (f x).2 = x.2) → map_Forall (λ _ x, made_key x.2) h → map_Forall (λ _ x, made_key x.2) (alter f k h).
Proof using Type.
  intros Hf Hh j x. rewrite lookup_alter_Some. intros [(_ & y & Hy & ->)|[_ Hx]]; [rewrite Hf|]; by eapply Hh.
Qed.
Lemma held_step_made t op out t' h : secret_op_ok op → perform_secret op t = Done (out, t') →
  map_Forall (λ _ x, made_key x.2) h → map_Forall (λ _ x, made_key x.2) (held_step op out h).
Proof using Type.
  intros Hop E Hh. destruct op as [request a b id|id request|id enabled|id|visitor key]; cbn [held_step secret_op_ok] in *.
  - destruct out as [[c|p|b'|rt]|e]; try done. apply map_Forall_insert_2; [|done]. cbn.
    assert (ensures (perform_secret (SecCreate request a b id)) t (λ out _, ∀ c, out = Ok (SecCreated c) → access_key c = lit "lls_" ++ uuid_simple a ++ uuid_simple b)) as Hc.
    { cbn [perform_secret]. unfold create_secret. do 3 db_step. destruct (validate_secret_policy request) as [[]|e]; [|done]. cbv zeta. do 4 db_step; [|done].
      do 4 db_step. by intros c' [= <-]. }
    rewrite (ensures_eq _ _ _ _ _ E Hc c eq_refl). destruct Hop as (? & ? & _). by exists a, b.
  - destruct out as [[c|[p|]|b'|rt]|e]; try done. by apply alter_made.
  - destruct out as [o|e]; [|done]. by apply alter_made.
  - destruct out as [o|e]; [|done]. by apply map_Forall_delete.
  - by destruct out.
Qed.
Lemma secret_history_made t h : secret_history t h → map_Forall (λ _ x, made_key x.2) h.
Proof using Type. induction 1 as [|t t' h op out _ IH Hop E]; [apply map_Forall_empty|by eapply held_step_made]. Qed.

(** The lookup of a key on tables that represent [h]. *)
Lemma access_runtime_exact (t : SecretCatalog) (h : Held) (visitor : Z) (key : rstr) :
  secrets_ok t h → uuid_ok visitor →
  ∃ g, access_runtime_policy visitor key t = Done (Ok g, t) ∧
    (∀ rt, g = Some rt ↔ ∃ p, opens h visitor key p ∧ rt = runtime_of p) ∧
    (∀ p p', opens h visitor key p → opens h visitor key p' → p = p').
Proof using laws.
  intros Hok Hvis.
  assert (∀ p p', opens h visitor key p → opens h visitor key p' → p = p') as Huniq.
  { intros p p' (_ & _ & _ & given & Hp & E) (_ & _ & _ & given' & Hp' & E'). rewrite <- E' in E. pose proof (so_keys _ _ Hok _ _ _ _ Hp Hp' E) as Ek. congruence. }
  assert (∀ k x, h !! k = Some x → opened_by (hash_access_key key) (uuid_string visitor) (k, stored_row x) = true ↔
            sp_enabled x.1 = true ∧ (sp_allowed x.1 = None ∨ sp_allowed x.1 = Some visitor) ∧ hash_access_key x.2 = hash_access_key key) as Hopen.
  { intros k x Hx. destruct (so_wf _ _ Hok _ _ Hx) as [_ (_ & _ & Ha & _)]. unfold opened_by, stored_row, secret_row. cbn. rewrite !andb_true_iff, bool_decide_eq_true.
    assert ((sql_bool (sp_enabled x.1) =? 1) = sp_enabled x.1) as -> by (by destruct (sp_enabled x.1)).
    destruct (sp_allowed x.1) as [v|]; cbn; [|naive_solver]. rewrite bool_decide_eq_true. split; [|naive_solver].
    intros [[? ?] E]. apply uuid_string_inj in E; [naive_solver|by apply Ha|done]. }
  unfold access_runtime_policy. destruct (valid_access_key key) eqn:Hv; cbn [negb].
  2:{ exists None. split; [done|]. split; [|done]. intros rt. split; [done|]. intros (p & (Hv' & _) & _). apply valid_access_key_form in Hv'. congruence. }
  apply valid_access_key_form in Hv.
  unfold mbind, db_bind, db_get. match goal with |- context [head ?l] => destruct (head l) as [[k r]|] eqn:Hh end.
  - apply head_Some_elem_of, list_elem_of_filter in Hh as [Hf Hr%elem_of_map_to_list]. rewrite (secrets_lookup _ _ _ Hok) in Hr.
    destruct (h !! k) as [[p given]|] eqn:Hx; [|done]. cbn in Hr. injection Hr as <-. apply (Hopen k (p, given) Hx) in Hf. destruct (so_wf _ _ Hok _ _ Hx) as [Ek Hwf]. cbn in Ek, Hwf, Hf.
    assert (opens h visitor key p) as Hp by (destruct Hf as (? & ? & ?); split_and!; [done..|]; exists given; by rewrite <- Ek).
    cbn. unfold stored_row. cbn [fst snd]. rewrite Ek, read_secret_runtime_row by done. exists (Some (runtime_of p)). split; [done|]. split; [|done]. intros rt. split.
    + intros [= <-]. by exists p.
    + intros (p' & Hp' & ->). by rewrite (Huniq p' p Hp' Hp).
  - exists None. split; [done|]. split; [|done]. intros rt. split; [done|]. intros (p & (_ & He & Ha & given & Hx & E) & _). apply head_None in Hh.
    assert ((uuid_string (sp_id p), stored_row (p, given)) ∈ filter (λ x, opened_by (hash_access_key key) (uuid_string visitor) x = true) (map_to_list t)) as Hin; [|rewrite Hh in Hin; by apply elem_of_nil in Hin].
    apply list_elem_of_filter. split; [by apply (Hopen _ _ Hx)|]. apply elem_of_map_to_list. by rewrite (secrets_lookup _ _ _ Hok), Hx.
Qed.

(** ** Theorem *)

(** C28. An access key opens exactly what it was given out for. After any history of operations the lookup of a
    visitor's key succeeds without changing anything, and returns a policy with its limits if and only if
    that policy is in force and enabled, the key has the form of a key and hashes as the one given out when the
    policy was created, and the visitor is the client it is restricted to, if any. At most one policy is returned for a key. The key that
    creation gave out for a policy opens it, as long as the policy stands and is enabled. *)
Theorem secret_access_exact {simple : SimpleUuids} (t : SecretCatalog) (h : Held) (visitor : Z) (key : rstr) :
  secret_history t h → uuid_ok visitor →
  ∃ g, access_runtime_policy visitor key t = Done (Ok g, t) ∧
    (∀ rt, g = Some rt ↔ ∃ p, opens h visitor key p ∧ rt = runtime_of p) ∧
    (∀ p p', opens h visitor key p → opens h visitor key p' → p = p') ∧
    (∀ p, h !! uuid_string (sp_id p) = Some (p, key) → sp_enabled p = true → sp_allowed p = None ∨ sp_allowed p = Some visitor → g = Some (runtime_of p)).
Proof using laws.
  intros Hh Hv. destruct (access_runtime_exact t h visitor key (secret_history_ok _ _ Hh) Hv) as (g & E & H & Hu).
  exists g. split_and!; [done..|]. intros p Hp He Ha. apply H. exists p. split; [|done]. split_and!; [|done|done|by exists key].
  apply made_key_form. by apply (secret_history_made _ _ Hh _ _ Hp).
Qed.
End invariant.

(** ** Witnesses *)

Definition sample_secret_request : CreateSecretTunnelPolicy :=
  {| cs_provider := 34; cs_allowed := None; cs_name := lit "ssh"; cs_target := lit "127.0.0.1:22"; cs_max_connections := None; cs_bandwidth := None |}.
Definition simple_digits (id : Z) : rstr := (λ i, hex_char (id / 16 ^ Z.of_nat i mod 16)) <$> rev (seq 0 32).
Definition hex_platform : Platform := {|
  uuid_string := uuid_string (Platform := sample_platform); uuid_parse := uuid_parse (Platform := sample_platform); uuid_simple := simple_digits;
  sha256 := sha256 (Platform := sample_platform); argon2_hash := argon2_hash (Platform := sample_platform);
  argon2_verify := argon2_verify (Platform := sample_platform); hmac_sha1 := hmac_sha1 (Platform := sample_platform) |}.
Lemma hex_laws : PlatformLaws (H := hex_platform).
Proof.
  split; [apply (uuid_parse_string (PlatformLaws := sample_laws))|apply (uuid_string_plain (PlatformLaws := sample_laws))|
    apply (argon2_verifies (PlatformLaws := sample_laws))|apply (sha256_digest (PlatformLaws := sample_laws))|apply (hmac_digest (PlatformLaws := sample_laws))].
Defined.
Lemma hex_simple : SimpleUuids (plat := hex_platform).
Proof.
  split. intros id _. cbn [uuid_simple hex_platform]. unfold simple_digits. split; [by rewrite length_fmap, length_rev, length_seq|].
  apply Forall_fmap, Forall_forall. intros i _. apply hex_char_digit. apply Z.mod_pos_bound. lia.
Defined.
Definition sample_access_key : rstr := lit "lls_" ++ simple_digits 3141 ++ simple_digits 2718.
Definition sample_secret_create : SecretOp := SecCreate sample_secret_request 3141 2718 5.
Definition sample_secrets : SecretCatalog * Held :=
  match perform_secret (plat := hex_platform) sample_secret_create ∅ with
  | Done (out, t) => (t, held_step (plat := hex_platform) sample_secret_create out ∅)
  | Panic => (∅, ∅)
  end.
Lemma sample_create_ok : secret_op_ok sample_secret_create.
Proof.
  assert (∀ n, 0 ≤ n ≤ 10000 → uuid_ok n) as Hu by (intros n Hn; unfold uuid_ok; lia).
  cbn [secret_op_ok sample_secret_create]. split; [apply Hu; lia|]. split; [apply Hu; lia|]. split; [apply Hu; lia|]. split; [apply Hu; cbn; lia|]. intros v H. inversion H.
Qed.
Lemma sample_secrets_history : secret_history (plat := hex_platform) sample_secrets.1 sample_secrets.2.
Proof.
  unfold sample_secrets. destruct (perform_secret (plat := hex_platform) sample_secret_create ∅) as [[out t]|] eqn:E; [|vm_compute in E; discriminate].
  eapply secrets_call; [apply secrets_none|exact sample_create_ok|exact E].
Qed.
Lemma secret_access_exact_witness :
  ∃ p, sample_secrets.2 !! lit "5" = Some (p, sample_access_key) ∧ sp_provider p = 34 ∧
    access_runtime_policy (plat := hex_platform) 9 sample_access_key sample_secrets.1 = Done (Ok (Some (runtime_of p)), sample_secrets.1).
Proof.
  destruct (secret_access_exact (laws := hex_laws) (simple := hex_simple) sample_secrets.1 sample_secrets.2 9 sample_access_key sample_secrets_history) as (g & E & _ & _ & H);
    [split; vm_compute; discriminate|].
  assert (∃ p, sample_secrets.2 !! lit "5" = Some (p, sample_access_key) ∧ sp_provider p = 34 ∧ sp_id p = 5 ∧ sp_enabled p = true ∧ sp_allowed p = None) as (p & Hp & Hpr & Hid & He & Ha)
    by (eexists; split_and!; vm_compute; reflexivity).
  exists p. split; [exact Hp|]. split; [exact Hpr|]. rewrite E, (H p); [reflexivity| |exact He|by left]. rewrite Hid. exact Hp.
Defined.
