(* ===== verification/P2pNodes.v ===== *)
(** * Addresses of peers ([p2p_node_catalog.rs])

    The candidates by which a client can be reached directly, as registered last. The JSON codecs
    are parameters. *)

From S2P Require Import Prelude DbMonad RustStr RustText NetAddr NetPrint AdminAuth TunnelCatalog.
Local Open Scope Z_scope.
Set Default Proof Using "Type".

Definition MAX_CANDIDATES : Z := 8.

Inductive P2pTransport := P2pTcp | IrohQuic.
Record P2pCandidate := { transport : P2pTransport; endpoint : rstr; priority : Z }.
Inductive P2pMappingBehavior := EndpointIndependent | DestinationDependent | MappingBlocked | MappingUnknown.
Record P2pNetworkProfile := {
  udp_v4 : bool; udp_v6 : bool; mapping_behavior : P2pMappingBehavior; global_v4 : option rstr; global_v6 : option rstr; port_mapping : bool;
}.
Record P2pIrohAddress := { endpoint_id : rstr; direct_addresses : list rstr; relay_url : option rstr; network : option P2pNetworkProfile }.
Record P2pNodeRecord := { node_client : Z; node_candidates : list P2pCandidate; node_updated : Z }.

(** ** Socket addresses *)

Inductive SocketAddr := SocketV4 (ip port : Z) | SocketV6 (ip port scope : Z).
(** A number with any count of digits. *)
Definition read_decimal (max : Z) : rstr → option (Z * rstr) := λ s, read_number 10 (length s) true max s.
Definition read_port : rstr → option (Z * rstr) := λ s, '(_, s) ← read_given_char ch_colon s; read_decimal U16_MAX s.
Definition read_scope_id : rstr → option (Z * rstr) := λ s, '(_, s) ← read_given_char 37 s; read_decimal U32_MAX s.
Definition read_socket_v4 : rstr → option (SocketAddr * rstr) := λ s,
  '(ip, s) ← read_ipv4_addr s; '(port, s) ← read_port s; Some (SocketV4 ip port, s).
Definition read_socket_v6 : rstr → option (SocketAddr * rstr) := λ s,
  '(_, s) ← read_given_char 91 s;
  '(ip, s) ← read_ipv6_addr s;
  let '(scope, s) := match read_scope_id s with Some x => x | None => (0, s) end in
  '(_, s) ← read_given_char 93 s;
  '(port, s) ← read_port s;
  Some (SocketV6 ip port scope, s).
Definition parse_socket : rstr → option SocketAddr :=
  parse_with (λ s, match read_socket_v4 s with Some x => Some x | None => read_socket_v6 s end).
Definition parse_socket_v4 : rstr → option SocketAddr := parse_with read_socket_v4.
Definition parse_socket_v6 : rstr → option SocketAddr := parse_with read_socket_v6.
Definition print_socket (a : SocketAddr) : rstr :=
  match a with
  | SocketV4 ip port => print_ipv4 ip ++ [ch_colon] ++ to_string port
  | SocketV6 ip port scope => [91] ++ print_ipv6 ip ++ (if scope =? 0 then [] else [37] ++ to_string scope) ++ [93; ch_colon] ++ to_string port
  end.

Example socket_v4 : parse_socket (lit "127.0.0.1:080") = Some (SocketV4 2130706433 80) ∧ print_socket (SocketV4 2130706433 80) = lit "127.0.0.1:80".
Proof. split; vm_compute; reflexivity. Qed.
Example socket_v6 : parse_socket (lit "[fe80::1%07]:443") = Some (SocketV6 338288524927261089654018896841347694593 443 7) ∧
  print_socket (SocketV6 338288524927261089654018896841347694593 443 7) = lit "[fe80::1%7]:443".
Proof. split; vm_compute; reflexivity. Qed.
Example socket_port_range : parse_socket (lit "10.0.0.1:65536") = None ∧ parse_socket (lit "10.0.0.1") = None.
Proof. split; vm_compute; reflexivity. Qed.

(** ** The catalog *)

Class NodeJson := {
  candidates_to_json : list P2pCandidate → rstr;
  candidates_from_json : rstr → option (list P2pCandidate);
  iroh_to_json : P2pIrohAddress → rstr;
  iroh_from_json : rstr → option P2pIrohAddress;
}.
Class NodeJsonLaws `{NodeJson} := { candidates_round_trip : ∀ l, candidates_from_json (candidates_to_json l) = Some l }.

Record NodeRow := { candidates_json : rstr; updated_unix : Z }.
Inductive NodeError := InvalidCandidateCount | InvalidCandidate | InvalidIrohCandidate | DuplicateCandidate | NodeOutOfRange | NodeDatabase.
Abbreviation NodeCatalog := (gmap rstr NodeRow).
Abbreviation node_db := (db NodeError NodeCatalog).

Section nodes.
Context {plat : Platform} {json : NodeJson}.

Definition none_or {A} (f : A → bool) (o : option A) : bool := match o with Some a => f a | None => true end.
(** The condition on an Iroh address. *)
Definition valid_iroh (a : P2pIrohAddress) : bool :=
  negb (bool_decide (endpoint_id a = [])) && (str_len (endpoint_id a) <=? 128) &&
  negb (bool_decide (direct_addresses a = [])) && (len (direct_addresses a) <=? MAX_CANDIDATES) &&
  all (λ value, bool_decide (is_Some (parse_socket value))) (direct_addresses a) &&
  none_or (λ network, none_or (λ value, bool_decide (is_Some (parse_socket_v4 value))) (global_v4 network) &&
                      none_or (λ value, bool_decide (is_Some (parse_socket_v6 value))) (global_v6 network)) (network a) &&
  none_or (λ value, bool_decide (is_Some (strip_prefix (lit "https://") value)) && (str_len value <=? 512)) (relay_url a).

(** The normal form of an endpoint, and the text by which it is told from others. *)
Definition normalize_candidate (c : P2pCandidate) : result NodeError (rstr * P2pCandidate) :=
  match transport c with
  | P2pTcp =>
      address ← ok_or (parse_socket (endpoint c)) InvalidCandidate;
      Ok (lit "tcp:" ++ print_socket address, {| transport := P2pTcp; endpoint := print_socket address; priority := priority c |})
  | IrohQuic =>
      address ← ok_or (iroh_from_json (endpoint c)) InvalidIrohCandidate;
      _ ← reject_if (negb (valid_iroh address)) InvalidIrohCandidate;
      let normalized := iroh_to_json address in
      Ok (lit "iroh:" ++ normalized, {| transport := IrohQuic; endpoint := normalized; priority := priority c |})
  end.
(** The loop; [endpoints] is the set of texts so far. *)
Fixpoint normalize_loop (endpoints : gset rstr) (l : list P2pCandidate) : result NodeError (list P2pCandidate) :=
  match l with
  | [] => Ok []
  | c :: l =>
      '(text, c) ← normalize_candidate c;
      _ ← reject_if (bool_decide (text ∈ endpoints)) DuplicateCandidate;
      rest ← normalize_loop ({[text]} ∪ endpoints) l;
      Ok (c :: rest)
  end.
Definition normalize_candidates (l : list P2pCandidate) : result NodeError (list P2pCandidate) :=
  _ ← reject_if (negb (negb (bool_decide (l = [])) && (len l <=? MAX_CANDIDATES))) InvalidCandidateCount;
  normalize_loop ∅ l.

(** [sort_by_key] is stable, as is [merge_sort]. *)
Definition by_priority (l : list P2pCandidate) : list P2pCandidate := merge_sort (λ x y : P2pCandidate, priority x <=? priority y) l.

Definition node_upsert (client : Z) (l : list P2pCandidate) (now : Z) : node_db P2pNodeRecord :=
  normalized ← db_lift (normalize_candidates l);
  let sorted := by_priority normalized in
  _ ← db_ensure (now <=? 9223372036854775807) NodeOutOfRange;
  _ ← db_put (<[uuid_string client := {| candidates_json := candidates_to_json sorted; updated_unix := now |}]>);
  mret {| node_client := client; node_candidates := sorted; node_updated := now |}.
Definition read_node (client : Z) (row : NodeRow) : option P2pNodeRecord :=
  l ← candidates_from_json (candidates_json row);
  updated ← get_uint U64_MAX (updated_unix row);
  Some {| node_client := client; node_candidates := l; node_updated := updated |}.
Definition node_get (client : Z) : node_db (option P2pNodeRecord) :=
  row ← db_get (λ t : NodeCatalog, t !! uuid_string client);
  match row with
  | None => mret None
  | Some row => node ← db_lift (ok_or (read_node client row) NodeDatabase); mret (Some node)
  end.
(** [ORDER BY updated_unix_seconds DESC]. *)
Definition node_list : node_db (list P2pNodeRecord) :=
  rows ← db_get (λ t : NodeCatalog, merge_sort (λ x y : rstr * NodeRow, updated_unix y.2 <=? updated_unix x.2) (map_to_list t));
  db_lift (collect (λ '(client, row), ok_or (client ← uuid_parse client; read_node client row) NodeDatabase) rows).
End nodes.
