(* ===== verification/P2pControl.v ===== *)
(** * Sessions between peers ([p2p_control.rs])

    A visitor with an access key is offered a ticket, a session key and the addresses of the
    provider; the provider shows the ticket and gets the same session key, once. The handlers
    run on the registry of clients, the catalogs of secret tunnels and of addresses, and the
    map of pending sessions. An error is a reply with its message. Audit records are not
    modelled; the healthy target of the tunnel and whether a relay is registered, which
    [secret_tunnel.rs] decides, are arguments. *)

From S2P Require Import Prelude DbMonad RustStr RustText P2pProtocol AdminAuth ClientRegistry SecretTunnels P2pNodes.
Local Open Scope Z_scope.
Set Default Proof Using "Type".

Definition NODE_FRESHNESS_SECONDS : Z := 120.
Definition TICKET_LIFETIME_SECONDS : Z := 30.

Record PendingP2pSession := { pending_expires : Z; pending_psk : list Z }.
Inductive P2pFallbackReason := NoCandidate | DirectTimeout | DirectRefused | AuthenticationFailed | ProtocolError.

(** The answers that are not errors. *)
Inductive P2pReply :=
  | P2pNodeRegistered
  | P2pFallbackRecorded
  | P2pDirectSuccessRecorded
  | P2pSessionOffer (ticket : rstr) (noise_psk : list Z) (candidates : list P2pCandidate) (relay_available : bool)
  | P2pTicketValid (session visitor : Z) (target : rstr) (noise_psk : list Z).

(** What the handlers share of [AppState]. *)
Record P2pState := {
  p_registry : ClientRegistry;
  p_secrets : SecretCatalog;
  p_nodes : NodeCatalog;
  p_sessions : gmap Z PendingP2pSession;
  session_offers : Z;
  direct_connections : Z;
  relay_fallbacks : Z;
}.
Definition set_p2p_registry (r : ClientRegistry) (s : P2pState) : P2pState :=
  {| p_registry := r; p_secrets := p_secrets s; p_nodes := p_nodes s; p_sessions := p_sessions s; session_offers := session_offers s;
     direct_connections := direct_connections s; relay_fallbacks := relay_fallbacks s |}.
Definition set_p2p_secrets (t : SecretCatalog) (s : P2pState) : P2pState :=
  {| p_registry := p_registry s; p_secrets := t; p_nodes := p_nodes s; p_sessions := p_sessions s; session_offers := session_offers s;
     direct_connections := direct_connections s; relay_fallbacks := relay_fallbacks s |}.
Definition set_p2p_nodes (t : NodeCatalog) (s : P2pState) : P2pState :=
  {| p_registry := p_registry s; p_secrets := p_secrets s; p_nodes := t; p_sessions := p_sessions s; session_offers := session_offers s;
     direct_connections := direct_connections s; relay_fallbacks := relay_fallbacks s |}.
Definition set_p2p_sessions (m : gmap Z PendingP2pSession) (s : P2pState) : P2pState :=
  {| p_registry := p_registry s; p_secrets := p_secrets s; p_nodes := p_nodes s; p_sessions := m; session_offers := session_offers s;
     direct_connections := direct_connections s; relay_fallbacks := relay_fallbacks s |}.
(** [fetch_add(1)] on the three counters. *)
Definition count_up (n : Z) : Z := (n + 1) mod 18446744073709551616.
Definition count_offer (s : P2pState) : P2pState :=
  {| p_registry := p_registry s; p_secrets := p_secrets s; p_nodes := p_nodes s; p_sessions := p_sessions s; session_offers := count_up (session_offers s);
     direct_connections := direct_connections s; relay_fallbacks := relay_fallbacks s |}.
Definition count_direct (s : P2pState) : P2pState :=
  {| p_registry := p_registry s; p_secrets := p_secrets s; p_nodes := p_nodes s; p_sessions := p_sessions s; session_offers := session_offers s;
     direct_connections := count_up (direct_connections s); relay_fallbacks := relay_fallbacks s |}.
Definition count_fallback (s : P2pState) : P2pState :=
  {| p_registry := p_registry s; p_secrets := p_secrets s; p_nodes := p_nodes s; p_sessions := p_sessions s; session_offers := session_offers s;
     direct_connections := direct_connections s; relay_fallbacks := count_up (relay_fallbacks s) |}.

Class TicketJson := {
  claims_to_vec : P2pTicketClaims → result unit (list Z);
  claims_from_slice : list Z → option P2pTicketClaims;
}.
Class TicketJsonLaws `{TicketJson} := {
  claims_bytes : ∀ c v, claims_to_vec c = Ok v → bytes_ok v;
  claims_round_trip : ∀ c v, claims_to_vec c = Ok v → claims_from_slice v = Some c;
}.

Abbreviation control := (db rstr P2pState).

(** ** Handlers *)

Section handlers.
Context {plat : Platform} {column : TagColumn} {nodes_json : NodeJson} {ticket_json : TicketJson}.
(** [state.enrollment_token.as_bytes()]. *)
Context (secret : list Z).

(** A step on one of the stores; its error is a value. *)
Definition within_store {E T A} (get : P2pState → T) (set : T → P2pState → P2pState) (m : db E T A) : control (result E A) := λ s,
  match m (get s) with Done (out, t) => Done (Ok out, set t s) | Panic => Panic end.

Definition node_is_fresh (updated now : Z) : bool := saturating_sub now updated <=? NODE_FRESHNESS_SECONDS.

(** [now] and [disk] are the clock and the fate of the write when the client is touched. *)
Definition authenticated (client : Z) (token : rstr) (now : Z) (disk : bool) : control bool :=
  out ← within_store p_registry set_p2p_registry (authenticate_and_touch client token now disk);
  mret (match out with Ok Authenticated => true | _ => false end).
Definition require_client (client : Z) (token : rstr) (now : Z) (disk : bool) : control unit :=
  ok ← authenticated client token now disk;
  db_ensure ok (lit "invalid client credentials").

Definition register_node (client : Z) (token : rstr) (candidates : list P2pCandidate) (touch : Z) (disk : bool) (now : Z) : control P2pReply :=
  _ ← require_client client token touch disk;
  out ← within_store p_nodes set_p2p_nodes (node_upsert client candidates now);
  _ ← db_ensure (is_ok out) (lit "invalid P2P node candidates");
  mret P2pNodeRegistered.
Definition report_fallback (client : Z) (token : rstr) (touch : Z) (disk : bool) : control P2pReply :=
  _ ← require_client client token touch disk;
  _ ← db_put count_fallback;
  mret P2pFallbackRecorded.
Definition report_direct_success (provider : Z) (token : rstr) (touch : Z) (disk : bool) : control P2pReply :=
  _ ← require_client provider token touch disk;
  _ ← db_put count_direct;
  mret P2pDirectSuccessRecorded.

Definition purge_expired_sessions (sessions : gmap Z PendingP2pSession) (now : Z) : gmap Z PendingP2pSession :=
  filter (λ x : Z * PendingP2pSession, now < pending_expires x.2) sessions.
Definition pending_session_count (now : Z) : control Z :=
  _ ← db_put (λ s, set_p2p_sessions (purge_expired_sessions (p_sessions s) now) s);
  db_get (λ s, Z.of_nat (size (p_sessions s))).

(** [request_session] up to the choice of a target: the policy and the addresses of its provider. *)
Definition ask_session (visitor : Z) (token key : rstr) (touch : Z) (disk : bool) (now : Z) : control (SecretTunnelRuntimePolicy * list P2pCandidate) :=
  _ ← require_client visitor token touch disk;
  found ← within_store p_secrets set_p2p_secrets (access_runtime_policy visitor key);
  policy ← db_lift (ok_or (match found with Ok policy => policy | Err _ => None end) (lit "invalid or unauthorized P2P access key"));
  node ← within_store p_nodes set_p2p_nodes (node_get (srt_provider policy));
  mret (policy, match node with
                | Ok (Some node) => if node_is_fresh (node_updated node) now then node_candidates node else []
                | _ => []
                end).
(** The rest of it: [session] is the new identifier, [psk] the random key. *)
Definition claims_for (policy : SecretTunnelRuntimePolicy) (visitor : Z) (target : rstr) (now expires session : Z) : P2pTicketClaims :=
  {| session_id := session; provider_client_id := srt_provider policy; visitor_client_id := visitor; target_addr := target;
     issued_unix_seconds := now; expires_unix_seconds := expires; protocol_version := P2P_PROTOCOL_VERSION |}.
Definition offer_session (policy : SecretTunnelRuntimePolicy) (candidates : list P2pCandidate) (visitor now : Z) (target : option rstr) (session : Z)
    (psk : option (list Z)) (relay : bool) : control P2pReply :=
  target ← db_lift (ok_or target (lit "secret tunnel has no healthy target"));
  expires ← db_exec (usize_add now TICKET_LIFETIME_SECONDS);
  let claims := claims_for policy visitor target now expires session in
  ticket ← db_lift (match issue_ticket sha256 claims_to_vec claims secret with Ok ticket => Ok ticket | Err _ => Err (lit "could not issue P2P ticket") end);
  psk ← db_lift (ok_or psk (lit "could not generate P2P session key"));
  _ ← db_put (λ s, set_p2p_sessions (<[session := {| pending_expires := expires_unix_seconds claims; pending_psk := psk |}]>
                                  (purge_expired_sessions (p_sessions s) now)) s);
  _ ← db_put count_offer;
  mret (P2pSessionOffer ticket psk candidates relay).
Definition request_session (visitor : Z) (token key : rstr) (touch : Z) (disk : bool) (now : Z) (target : option rstr) (session : Z)
    (psk : option (list Z)) (relay : bool) : control P2pReply :=
  '(policy, candidates) ← ask_session visitor token key touch disk now;
  offer_session policy candidates visitor now target session psk relay.

Definition ticket_matches_provider (claims : P2pTicketClaims) (provider : Z) : bool := provider_client_id claims =? provider.
(** [validate_ticket] up to the session. *)
Definition check_ticket (provider : Z) (token ticket : rstr) (touch : Z) (disk : bool) (now : Z) : control P2pTicketClaims :=
  _ ← require_client provider token touch disk;
  claims ← db_lift (match verify_ticket sha256 claims_from_slice ticket secret now with Ok claims => Ok claims | Err _ => Err (lit "invalid or expired P2P ticket") end);
  _ ← db_ensure (ticket_matches_provider claims provider) (lit "P2P ticket belongs to another provider");
  mret claims.
Definition consume_session (session now : Z) : control (option (list Z)) :=
  found ← db_get (λ s, p_sessions s !! session);
  _ ← db_put (λ s, set_p2p_sessions (delete session (p_sessions s)) s);
  mret (match found with Some p => if now <? pending_expires p then Some (pending_psk p) else None | None => None end).
Definition deliver_session (claims : P2pTicketClaims) (now : Z) : control P2pReply :=
  psk ← consume_session (session_id claims) now;
  psk ← db_lift (ok_or psk (lit "P2P ticket was already consumed"));
  mret (P2pTicketValid (session_id claims) (visitor_client_id claims) (target_addr claims) psk).
Definition validate_ticket (provider : Z) (token ticket : rstr) (touch : Z) (disk : bool) (now : Z) : control P2pReply :=
  claims ← check_ticket provider token ticket touch disk now;
  deliver_session claims now.
End handlers.

Definition fallback_reason_name (reason : P2pFallbackReason) : rstr :=
  match reason with
  | NoCandidate => lit "no_candidate"
  | DirectTimeout => lit "direct_timeout"
  | DirectRefused => lit "direct_refused"
  | AuthenticationFailed => lit "authentication_failed"
  | ProtocolError => lit "protocol_error"
  end.

(** ** Histories

    A request waits for the choice of a target after it was checked, and other tasks may run
    between the check of a ticket and the removal of its session; each part is one step. *)

(** A request that was checked: who asked, with which key, what was in force, and what was found. *)
Record Asking := { ak_visitor : Z; ak_key : rstr; ak_held : Held; ak_policy : SecretTunnelRuntimePolicy; ak_candidates : list P2pCandidate; ak_now : Z }.
(** A ticket that was checked. *)
Record Shown := { sh_provider : Z; sh_ticket : rstr; sh_claims : P2pTicketClaims; sh_now : Z }.
Record Offer := { of_asking : Asking; of_claims : P2pTicketClaims; of_ticket : rstr; of_psk : list Z }.
Record Delivery := { dl_shown : Shown; dl_psk : list Z }.
Definition of_session (o : Offer) : Z := session_id (of_claims o).
Definition dl_session (d : Delivery) : Z := session_id (sh_claims (dl_shown d)).

Record P2pWorld := {
  w_state : P2pState;
  w_held : Held;
  w_asking : list Asking;
  w_shown : list Shown;
  w_offers : list Offer;
  w_delivered : list Delivery;
  w_clock : Z;
}.
Definition empty_p2p : P2pWorld :=
  {| w_state := {| p_registry := {| clients := ∅; rows := ∅ |}; p_secrets := ∅; p_nodes := ∅; p_sessions := ∅; session_offers := 0;
                   direct_connections := 0; relay_fallbacks := 0 |};
     w_held := ∅; w_asking := []; w_shown := []; w_offers := []; w_delivered := []; w_clock := 0 |}.
Definition with_state (s : P2pState) (clock : Z) (w : P2pWorld) : P2pWorld :=
  {| w_state := s; w_held := w_held w; w_asking := w_asking w; w_shown := w_shown w; w_offers := w_offers w; w_delivered := w_delivered w; w_clock := clock |}.

Section histories.
Context {plat : Platform} {laws : PlatformLaws} {column : TagColumn} {nodes_json : NodeJson} {ticket_json : TicketJson}.
Context (secret : list Z).

Inductive p2p_step (w : P2pWorld) : P2pWorld → Prop :=
  | step_secret op out t :
      secret_op_ok op → perform_secret op (p_secrets (w_state w)) = Done (out, t) →
      p2p_step w {| w_state := set_p2p_secrets t (w_state w); w_held := held_step op out (w_held w); w_asking := w_asking w; w_shown := w_shown w;
                    w_offers := w_offers w; w_delivered := w_delivered w; w_clock := w_clock w |}
  | step_clients r : p2p_step w (with_state (set_p2p_registry r (w_state w)) (w_clock w) w)
  | step_register client token l touch disk now out s :
      w_clock w ≤ now → register_node client token l touch disk now (w_state w) = Done (out, s) → p2p_step w (with_state s now w)
  | step_fallback client token touch disk out s :
      report_fallback client token touch disk (w_state w) = Done (out, s) → p2p_step w (with_state s (w_clock w) w)
  | step_direct client token touch disk out s :
      report_direct_success client token touch disk (w_state w) = Done (out, s) → p2p_step w (with_state s (w_clock w) w)
  | step_count now out s :
      w_clock w ≤ now → pending_session_count now (w_state w) = Done (out, s) → p2p_step w (with_state s now w)
  | step_ask visitor token key touch disk now policy candidates s :
      uuid_ok visitor → w_clock w ≤ now → ask_session visitor token key touch disk now (w_state w) = Done (Ok (policy, candidates), s) →
      p2p_step w {| w_state := s; w_held := w_held w;
                    w_asking := {| ak_visitor := visitor; ak_key := key; ak_held := w_held w; ak_policy := policy; ak_candidates := candidates; ak_now := now |} :: w_asking w;
                    w_shown := w_shown w; w_offers := w_offers w; w_delivered := w_delivered w; w_clock := now |}
  | step_refuse visitor token key touch disk now message s :
      w_clock w ≤ now → ask_session visitor token key touch disk now (w_state w) = Done (Err message, s) → p2p_step w (with_state s now w)
  | step_offer a target session psk relay claims ticket candidates s :
      a ∈ w_asking w → session ∉ of_session <$> w_offers w →
      claims = claims_for (ak_policy a) (ak_visitor a) target (ak_now a) (ak_now a + TICKET_LIFETIME_SECONDS) session →
      offer_session secret (ak_policy a) (ak_candidates a) (ak_visitor a) (ak_now a) (Some target) session (Some psk) relay (w_state w) =
        Done (Ok (P2pSessionOffer ticket psk candidates relay), s) →
      p2p_step w {| w_state := s; w_held := w_held w; w_asking := w_asking w; w_shown := w_shown w;
                    w_offers := {| of_asking := a; of_claims := claims; of_ticket := ticket; of_psk := psk |} :: w_offers w;
                    w_delivered := w_delivered w; w_clock := w_clock w |}
  | step_no_offer a target session psk relay message s :
      a ∈ w_asking w → offer_session secret (ak_policy a) (ak_candidates a) (ak_visitor a) (ak_now a) target session psk relay (w_state w) = Done (Err message, s) →
      p2p_step w (with_state s (w_clock w) w)
  | step_show provider token ticket touch disk now claims s :
      w_clock w ≤ now → check_ticket secret provider token ticket touch disk now (w_state w) = Done (Ok claims, s) →
      p2p_step w {| w_state := s; w_held := w_held w; w_asking := w_asking w;
                    w_shown := {| sh_provider := provider; sh_ticket := ticket; sh_claims := claims; sh_now := now |} :: w_shown w;
                    w_offers := w_offers w; w_delivered := w_delivered w; w_clock := now |}
  | step_not_shown provider token ticket touch disk now message s :
      w_clock w ≤ now → check_ticket secret provider token ticket touch disk now (w_state w) = Done (Err message, s) → p2p_step w (with_state s now w)
  | step_deliver x session visitor target psk s :
      x ∈ w_shown w → deliver_session (sh_claims x) (sh_now x) (w_state w) = Done (Ok (P2pTicketValid session visitor target psk), s) →
      p2p_step w {| w_state := s; w_held := w_held w; w_asking := w_asking w; w_shown := w_shown w; w_offers := w_offers w;
                    w_delivered := {| dl_shown := x; dl_psk := psk |} :: w_delivered w; w_clock := w_clock w |}
  | step_not_delivered x message s :
      x ∈ w_shown w → deliver_session (sh_claims x) (sh_now x) (w_state w) = Done (Err message, s) → p2p_step w (with_state s (w_clock w) w).

Inductive p2p_history : P2pWorld → Prop :=
  | p2p_start : p2p_history empty_p2p
  | p2p_more w w' : p2p_history w → p2p_step w w' → p2p_history w'.

(** The request was allowed: the key opened the policy that was in force. *)
Definition authorised (a : Asking) : Prop := ∃ p, opens (ak_held a) (ak_visitor a) (ak_key a) p ∧ ak_policy a = runtime_of p.
Definition offer_made (o : Offer) : Prop :=
  authorised (of_asking o) ∧ issue_ticket sha256 claims_to_vec (of_claims o) secret = Ok (of_ticket o) ∧
  of_claims o = claims_for (ak_policy (of_asking o)) (ak_visitor (of_asking o)) (target_addr (of_claims o)) (ak_now (of_asking o))
                  (ak_now (of_asking o) + TICKET_LIFETIME_SECONDS) (of_session o).
(** The provider of [x] showed a ticket with these claims. *)
Definition shown_ok (x : Shown) : Prop :=
  verify_ticket sha256 claims_from_slice (sh_ticket x) secret (sh_now x) = Ok (sh_claims x) ∧ provider_client_id (sh_claims x) = sh_provider x.

Record p2p_ok (w : P2pWorld) : Prop := {
  po_secrets : secret_history (p_secrets (w_state w)) (w_held w);
  po_asking : ∀ a, a ∈ w_asking w → authorised a ∧ ak_now a ≤ w_clock w;
  po_shown : ∀ x, x ∈ w_shown w → shown_ok x ∧ sh_now x ≤ w_clock w;
  po_offers : ∀ o, o ∈ w_offers w → offer_made o ∧ ak_now (of_asking o) ≤ w_clock w;
  po_once : NoDup (of_session <$> w_offers w);
  po_pending : ∀ k p, p_sessions (w_state w) !! k = Some p →
    (∃ o, o ∈ w_offers w ∧ of_session o = k ∧ pending_psk p = of_psk o ∧ pending_expires p = expires_unix_seconds (of_claims o)) ∧ k ∉ dl_session <$> w_delivered w;
  po_delivered : ∀ d, d ∈ w_delivered w → shown_ok (dl_shown d) ∧
    ∃ o, o ∈ w_offers w ∧ of_session o = dl_session d ∧ dl_psk d = of_psk o ∧ sh_now (dl_shown d) < expires_unix_seconds (of_claims o);
  po_delivered_once : NoDup (dl_session <$> w_delivered w);
  (** A session waits until it is delivered or over. *)
  po_waiting : ∀ o, o ∈ w_offers w → w_clock w < expires_unix_seconds (of_claims o) → of_session o ∉ dl_session <$> w_delivered w →
    p_sessions (w_state w) !! of_session o = Some {| pending_expires := expires_unix_seconds (of_claims o); pending_psk := of_psk o |};
}.

(** ** What handlers leave alone *)

Definition quietly {A} (m : control A) : Prop :=
  ∀ s out s', m s = Done (out, s') → p_secrets s' = p_secrets s ∧ p_sessions s' = p_sessions s.
Lemma quietly_bind {A B} (m : control A) (f : A → control B) : quietly m → (∀ a, quietly (f a)) → quietly (m ≫= f).
Proof.
  intros Hm Hf s out s'. unfold mbind, db_bind. destruct (m s) as [[[a|e] s1]|] eqn:E; [|by intros [= <- <-]; eapply Hm|done].
  intros E'. destruct (Hm _ _ _ E) as [<- <-]. by eapply Hf.
Qed.
Lemma quietly_ret {A} (a : A) : quietly (mret a).
Proof. by intros s out s' [= <- <-]. Qed.
Lemma quietly_lift {A} (r : result rstr A) : quietly (db_lift r).
Proof. by intros s out s' [= <- <-]. Qed.
Lemma quietly_ensure c e : quietly (db_ensure c e).
Proof. intros s out s'. by destruct c; intros [= <- <-]. Qed.
Lemma quietly_store {E T A} (get : P2pState → T) set (m : db E T A) :
  (∀ t s, p_secrets (set t s) = p_secrets s ∧ p_sessions (set t s) = p_sessions s) → quietly (within_store get set m).
Proof. intros H s out s'. unfold within_store. destruct (m (get s)) as [[r t]|]; [|done]. intros [= <- <-]. apply H. Qed.
Lemma quietly_put f : (∀ s, p_secrets (f s) = p_secrets s ∧ p_sessions (f s) = p_sessions s) → quietly (db_put f).
Proof. intros H s out s' [= <- <-]. apply H. Qed.
Lemma quietly_require client token now disk : quietly (require_client client token now disk).
Proof.
  apply quietly_bind; [|intros ?; apply quietly_ensure]. apply quietly_bind; [by apply quietly_store|intros ?; apply quietly_ret].
Qed.
Lemma access_same (visitor : Z) (key : rstr) (t t' : SecretCatalog) out : access_runtime_policy visitor key t = Done (out, t') → t' = t.
Proof.
  unfold access_runtime_policy. destruct (negb _); [by intros [= _ <-]|]. unfold mbind, db_bind, db_get. cbv beta iota.
  match goal with |- context [head ?l] => destruct (head l) as [[k r]|] end; [|by intros [= _ <-]]. unfold db_lift. destruct (read_secret_runtime k r); by intros [= _ <-].
Qed.
Lemma quietly_access (visitor : Z) (key : rstr) : quietly (within_store p_secrets set_p2p_secrets (access_runtime_policy visitor key)).
Proof.
  intros s out s'. unfold within_store. destruct (access_runtime_policy _ _ _) as [[r t]|] eqn:E; [|done]. intros [= <- <-]. by apply access_same in E.
Qed.
Lemma quietly_ask (visitor : Z) (token key : rstr) (touch : Z) (disk : bool) (now : Z) : quietly (ask_session visitor token key touch disk now).
Proof.
  apply quietly_bind; [apply quietly_require|]. intros _. apply quietly_bind; [apply quietly_access|]. intros found. apply quietly_bind; [apply quietly_lift|]. intros policy.
  apply quietly_bind; [by apply quietly_store|]. intros node. apply quietly_ret.
Qed.
Lemma quietly_check (provider : Z) (token ticket : rstr) (touch : Z) (disk : bool) (now : Z) : quietly (check_ticket secret provider token ticket touch disk now).
Proof.
  apply quietly_bind; [apply quietly_require|]. intros _. apply quietly_bind; [apply quietly_lift|]. intros claims. apply quietly_bind; [apply quietly_ensure|]. intros _. apply quietly_ret.
Qed.
Lemma quietly_register client token l touch disk now : quietly (register_node client token l touch disk now).
Proof.
  apply quietly_bind; [apply quietly_require|]. intros _. apply quietly_bind; [by apply quietly_store|]. intros out. apply quietly_bind; [apply quietly_ensure|].
  intros _. apply quietly_ret.
Qed.
Lemma quietly_reports client token touch disk : quietly (report_fallback client token touch disk) ∧ quietly (report_direct_success client token touch disk).
Proof.
  split; (apply quietly_bind; [apply quietly_require|]); intros _; (apply quietly_bind; [by apply quietly_put|]); intros _; apply quietly_ret.
Qed.

(** ** What they do *)

(** The result of a bind, taken apart. *)
Lemma control_bind {A B} (m : control A) (f : A → control B) s b s' :
  (m ≫= f) s = Done (Ok b, s') → ∃ a s1, m s = Done (Ok a, s1) ∧ f a s1 = Done (Ok b, s').
Proof. unfold mbind, db_bind. destruct (m s) as [[[a|e] s1]|]; [|done|done]. intros H. by exists a, s1. Qed.

Lemma ask_authorised (visitor : Z) (token key : rstr) (touch : Z) (disk : bool) (now : Z) policy candidates s s' h :
  ask_session visitor token key touch disk now s = Done (Ok (policy, candidates), s') → secrets_ok (p_secrets s) h → uuid_ok visitor →
  ∃ p, opens h visitor key p ∧ policy = runtime_of p.
Proof using laws.
  intros E Hok Hv. apply control_bind in E as (u & s1 & E1 & E). apply quietly_require in E1 as [E1 _]. apply control_bind in E as (found & s2 & E2 & E).
  apply control_bind in E as (policy' & s3 & E3 & E). apply control_bind in E as (node & s4 & E4 & E). injection E as <- _ _. rewrite <- E1 in Hok.
  destruct (access_runtime_exact _ h visitor key Hok Hv) as (g & Eg & Hg & _). unfold within_store in E2. rewrite Eg in E2. injection E2 as <- _.
  unfold db_lift in E3. destruct g as [g|]; [|done]. cbn in E3. injection E3 as <- _. by apply Hg.
Qed.
Lemma check_shown provider token ticket touch disk now claims s s' :
  check_ticket secret provider token ticket touch disk now s = Done (Ok claims, s') →
  verify_ticket sha256 claims_from_slice ticket secret now = Ok claims ∧ provider_client_id claims = provider.
Proof.
  intros E. apply control_bind in E as (u & s1 & _ & E). apply control_bind in E as (c & s2 & E2 & E). apply control_bind in E as (u' & s3 & E3 & E).
  injection E as <- _. unfold db_lift in E2. destruct (verify_ticket _ _ _ _ _) as [c'|]; [|done]. injection E2 as -> _. split; [done|].
  unfold db_ensure, ticket_matches_provider in E3. destruct (Z.eqb_spec (provider_client_id c) provider); done.
Qed.
Lemma purge_lookup m now k p : purge_expired_sessions m now !! k = Some p ↔ m !! k = Some p ∧ now < pending_expires p.
Proof. unfold purge_expired_sessions. by rewrite map_lookup_filter_Some. Qed.

(** ** The invariant is kept *)

(** A step that at most drops sessions that are over. *)
Lemma p2p_ok_drop w s clock : p2p_ok w → w_clock w ≤ clock → p_secrets s = p_secrets (w_state w) →
  (∀ k p, p_sessions s !! k = Some p → p_sessions (w_state w) !! k = Some p) →
  (∀ k p, p_sessions (w_state w) !! k = Some p → clock < pending_expires p → p_sessions s !! k = Some p) → p2p_ok (with_state s clock w).
Proof.
  intros [H1 H2 H3 H4 H5 H6 H7 H8 H9] Hle Es Hsub Hkeep. split; cbn; try done.
  - by rewrite Es.
  - intros a Ha. destruct (H2 a Ha). split; [done|lia].
  - intros x Hx. destruct (H3 x Hx). split; [done|lia].
  - intros o Ho. destruct (H4 o Ho). split; [done|lia].
  - intros k p Hp. by apply H6, Hsub.
  - intros o Ho Hlt Hn. apply Hkeep; [|done]. apply H9; [done|lia|done].
Qed.
Lemma p2p_ok_quiet w s clock : p2p_ok w → w_clock w ≤ clock → p_secrets s = p_secrets (w_state w) ∧ p_sessions s = p_sessions (w_state w) → p2p_ok (with_state s clock w).
Proof. intros Hok Hle [E1 E2]. apply p2p_ok_drop; [done|done|done|by rewrite E2|by rewrite E2]. Qed.
Lemma p2p_ok_asking w a clock : p2p_ok w → authorised a → ak_now a ≤ clock → w_clock w ≤ clock → ∀ s, p_secrets s = p_secrets (w_state w) ∧ p_sessions s = p_sessions (w_state w) →
  p2p_ok {| w_state := s; w_held := w_held w; w_asking := a :: w_asking w; w_shown := w_shown w; w_offers := w_offers w; w_delivered := w_delivered w; w_clock := clock |}.
Proof.
  intros Hok Ha Hn Hle s Hs. destruct (p2p_ok_quiet w s clock Hok Hle Hs) as [H1 H2 H3 H4 H5 H6 H7 H8 H9]. split; try done.
  intros a' [->|Ha']%elem_of_cons; [done|by apply H2].
Qed.
Lemma p2p_ok_shown w x clock : p2p_ok w → shown_ok x → sh_now x ≤ clock → w_clock w ≤ clock → ∀ s, p_secrets s = p_secrets (w_state w) ∧ p_sessions s = p_sessions (w_state w) →
  p2p_ok {| w_state := s; w_held := w_held w; w_asking := w_asking w; w_shown := x :: w_shown w; w_offers := w_offers w; w_delivered := w_delivered w; w_clock := clock |}.
Proof.
  intros Hok Hx Hn Hle s Hs. destruct (p2p_ok_quiet w s clock Hok Hle Hs) as [H1 H2 H3 H4 H5 H6 H7 H8 H9]. split; try done.
  intros x' [->|Hx']%elem_of_cons; [done|by apply H3].
Qed.
Lemma p2p_ok_secret w op out t : p2p_ok w → secret_op_ok op → perform_secret op (p_secrets (w_state w)) = Done (out, t) →
  p2p_ok {| w_state := set_p2p_secrets t (w_state w); w_held := held_step op out (w_held w); w_asking := w_asking w; w_shown := w_shown w;
            w_offers := w_offers w; w_delivered := w_delivered w; w_clock := w_clock w |}.
Proof. intros [H1 H2 H3 H4 H5 H6 H7 H8 H9] Hop E. split; try done. by eapply secrets_call. Qed.

(** The outcome of an offer. *)
Lemma offer_effect policy candidates visitor now target session psk relay s out s' :
  offer_session secret policy candidates visitor now target session psk relay s = Done (out, s') →
  p_secrets s' = p_secrets s ∧
  match out with
  | Ok (P2pSessionOffer ticket key l r) => ∃ addr, target = Some addr ∧ psk = Some key ∧
      issue_ticket sha256 claims_to_vec (claims_for policy visitor addr now (now + TICKET_LIFETIME_SECONDS) session) secret = Ok ticket ∧
      p_sessions s' = <[session := {| pending_expires := now + TICKET_LIFETIME_SECONDS; pending_psk := key |}]> (purge_expired_sessions (p_sessions s) now)
  | Ok _ => False
  | Err _ => p_sessions s' = p_sessions s
  end.
Proof.
  unfold offer_session, mbind, db_bind, db_lift, db_exec, db_put, mret, db_ret. destruct target as [addr|]; cbn [ok_or]; [|by intros [= <- <-]].
  unfold usize_add. destruct (_ <=? _); [|done]. destruct (issue_ticket _ _ _ _) as [ticket|] eqn:Ei; [|by intros [= <- <-]].
  destruct psk as [key|]; cbn [ok_or]; [|by intros [= <- <-]]. intros [= <- <-]. split; [done|]. by exists addr.
Qed.
Lemma deliver_effect claims now s out s' : deliver_session claims now s = Done (out, s') →
  p_secrets s' = p_secrets s ∧ p_sessions s' = delete (session_id claims) (p_sessions s) ∧
  match out with
  | Ok reply => ∃ p, p_sessions s !! session_id claims = Some p ∧ now < pending_expires p ∧
      reply = P2pTicketValid (session_id claims) (visitor_client_id claims) (target_addr claims) (pending_psk p)
  | Err _ => ∀ p, p_sessions s !! session_id claims = Some p → pending_expires p ≤ now
  end.
Proof.
  unfold deliver_session, consume_session, mbind, db_bind, db_lift, db_get, db_put, mret, db_ret. destruct (p_sessions s !! session_id claims) as [p|] eqn:Ep.
  - destruct (Z.ltb_spec now (pending_expires p)); cbn [ok_or]; intros [= <- <-]; (split; [done|]); (split; [done|]); [by exists p|]. by intros ? [= <-].
  - cbn [ok_or]. intros [= <- <-]. split; [done|]. by split.
Qed.

Lemma p2p_ok_offer w a target session psk ticket s :
  p2p_ok w → a ∈ w_asking w → session ∉ of_session <$> w_offers w → p_secrets s = p_secrets (w_state w) →
  issue_ticket sha256 claims_to_vec (claims_for (ak_policy a) (ak_visitor a) target (ak_now a) (ak_now a + TICKET_LIFETIME_SECONDS) session) secret = Ok ticket →
  p_sessions s = <[session := {| pending_expires := ak_now a + TICKET_LIFETIME_SECONDS; pending_psk := psk |}]>
                   (purge_expired_sessions (p_sessions (w_state w)) (ak_now a)) →
  p2p_ok {| w_state := s; w_held := w_held w; w_asking := w_asking w; w_shown := w_shown w;
            w_offers := {| of_asking := a; of_claims := claims_for (ak_policy a) (ak_visitor a) target (ak_now a) (ak_now a + TICKET_LIFETIME_SECONDS) session;
                           of_ticket := ticket; of_psk := psk |} :: w_offers w;
            w_delivered := w_delivered w; w_clock := w_clock w |}.
Proof.
  intros [H1 H2 H3 H4 H5 H6 H7 H8 H9] Ha Hfresh Es Et Em. destruct (H2 a Ha) as [Hau Hle].
  assert (session ∉ dl_session <$> w_delivered w) as Hnd.
  { intros (d & -> & Hd)%list_elem_of_fmap. destruct (H7 d Hd) as (_ & o & Ho & E & _). apply Hfresh. rewrite <- E. by apply list_elem_of_fmap_2. }
  split; cbn; try done.
  - by rewrite Es.
  - intros o [->|Ho]%elem_of_cons; [|by apply H4]. split; [|done]. by split_and!.
  - constructor; done.
  - intros k p. rewrite Em. intros [[<- <-]|[Hne Hp]]%lookup_insert_Some.
    + split; [|done]. eexists. split; [by left|]. done.
    + apply purge_lookup in Hp as [Hp _]. destruct (H6 k p Hp) as [(o & Ho & ?) Hn]. split; [|done]. exists o. split; [by right|done].
  - intros d Hd. destruct (H7 d Hd) as (Hs & o & Ho & ?). split; [done|]. exists o. split; [by right|done].
  - intros o [->|Ho]%elem_of_cons Hlt Hn; rewrite Em; cbn; [by rewrite lookup_insert_eq|]. specialize (H9 o Ho Hlt Hn).
    rewrite lookup_insert_ne; [apply purge_lookup; split; [done|cbn; lia]|]. intros ->. apply Hfresh. by apply list_elem_of_fmap_2.
Qed.
Lemma p2p_ok_deliver w x p s :
  p2p_ok w → x ∈ w_shown w → p_sessions (w_state w) !! session_id (sh_claims x) = Some p → sh_now x < pending_expires p →
  p_secrets s = p_secrets (w_state w) → p_sessions s = delete (session_id (sh_claims x)) (p_sessions (w_state w)) →
  p2p_ok {| w_state := s; w_held := w_held w; w_asking := w_asking w; w_shown := w_shown w; w_offers := w_offers w;
            w_delivered := {| dl_shown := x; dl_psk := pending_psk p |} :: w_delivered w; w_clock := w_clock w |}.
Proof.
  intros [H1 H2 H3 H4 H5 H6 H7 H8 H9] Hx Hp Hlt Es Em. destruct (H6 _ _ Hp) as [(o & Ho & Eo & Epsk & Eexp) Hnd]. split; cbn; try done.
  - by rewrite Es.
  - intros k q. rewrite Em. intros [Hne Hq]%lookup_delete_Some. destruct (H6 k q Hq) as [Hof Hn]. split; [done|]. intros [E|E]%elem_of_cons; [|done]. by apply Hne.
  - intros d [->|Hd]%elem_of_cons; [|by apply H7]. split; [by apply H3|]. exists o. split_and!; try done. cbn. lia.
  - constructor; done.
  - intros o' Ho' Hlt' Hn. apply not_elem_of_cons in Hn as [Hne Hn]. rewrite Em, lookup_delete_ne by (intros E; by apply Hne). by apply H9.
Qed.

Lemma p2p_step_ok w w' : p2p_ok w → p2p_step w w' → p2p_ok w'.
Proof using laws.
  intros Hok Hstep. destruct Hstep as [op out t Hop E|r|client token l touch disk now out s Hle E|client token touch disk out s E|client token touch disk out s E
    |now out s Hle E|visitor token key touch disk now policy candidates s Hv Hle E|visitor token key touch disk now message s Hle E
    |a target session psk relay claims ticket candidates s Ha Hf -> E|a target session psk relay message s Ha E|provider token ticket touch disk now claims s Hle E
    |provider token ticket touch disk now message s Hle E|x session visitor target psk s Hx E|x message s Hx E].
  - by eapply p2p_ok_secret.
  - by apply p2p_ok_quiet.
  - apply p2p_ok_quiet; [done|done|by eapply quietly_register].
  - apply p2p_ok_quiet; [done|done|by eapply (proj1 (quietly_reports _ _ _ _))].
  - apply p2p_ok_quiet; [done|done|by eapply (proj2 (quietly_reports _ _ _ _))].
  - injection E as _ <-. apply p2p_ok_drop; [done|done|done|by intros k p [? _]%purge_lookup|]. intros k p Hp Hlt. by apply purge_lookup.
  - apply p2p_ok_asking; [done| |done|done|by eapply quietly_ask]. eapply ask_authorised; [done|by apply secret_history_ok, po_secrets|done].
  - apply p2p_ok_quiet; [done|done|by eapply quietly_ask].
  - apply offer_effect in E as (Es & addr & [= <-] & _ & Et & Em). by apply p2p_ok_offer.
  - apply offer_effect in E as (Es & Em). by apply p2p_ok_quiet.
  - apply p2p_ok_shown; [done| |done|done|by eapply quietly_check]. by eapply check_shown.
  - apply p2p_ok_quiet; [done|done|by eapply quietly_check].
  - apply deliver_effect in E as (Es & Em & p & Hp & Hlt & [= _ _ _ ->]). by apply p2p_ok_deliver.
  - apply deliver_effect in E as (Es & Em & Hexp). destruct (po_shown _ Hok x Hx) as [_ Hle]. apply p2p_ok_drop; [done|lia|done|..].
    + intros k p. rewrite Em. by intros [_ Hp]%lookup_delete_Some.
    + intros k p Hp Hlt. rewrite Em, lookup_delete_ne; [done|]. intros <-. specialize (Hexp p Hp). lia.
Qed.
Lemma p2p_history_ok w : p2p_history w → p2p_ok w.
Proof using laws.
  induction 1 as [|w w' _ IH Hs]; [|by eapply p2p_step_ok]. split; cbn; try (by intros ? ?%elem_of_nil).
  - constructor.
  - constructor.
  - intros k p Hp. by apply lookup_empty_Some in Hp.
  - constructor.
Qed.

(** ** Theorem *)

Context {ticket_laws : TicketJsonLaws}.

Lemma offer_verifies o now : offer_made o →
  verify_ticket sha256 claims_from_slice (of_ticket o) secret now =
    if now <? ak_now (of_asking o) then Err NotYetValid else if expires_unix_seconds (of_claims o) <=? now then Err Expired else Ok (of_claims o).
Proof using laws ticket_laws.
  intros (_ & Ei & Ec).
  rewrite (verify_issued_ticket sha256 unit claims_to_vec claims_from_slice (λ m, proj2 (sha256_digest m)) claims_bytes claims_round_trip _ _ _ now Ei).
  rewrite Ec. done.
Qed.
Lemma offer_unique w o o' : p2p_ok w → o ∈ w_offers w → o' ∈ w_offers w → of_session o = of_session o' → o = o'.
Proof.
  intros Hok Ho Ho' E. apply list_elem_of_lookup in Ho as [i Hi]. apply list_elem_of_lookup in Ho' as [j Hj]. pose proof (po_once _ Hok) as Hnd.
  assert (i = j) as <-; [|congruence]. eapply NoDup_lookup; [exact Hnd|by rewrite list_lookup_fmap, Hi|]. by rewrite list_lookup_fmap, Hj, E.
Qed.

(** C27. A peer session joins the two ends it was made for, once. In every interleaving of handlers, whatever
    tickets are shown: a session is delivered at most once, before its end, with the session key that was
    offered to a visitor whose access key opened an enabled policy; and if the ticket is the one of an offer,
    it is delivered to the provider of that policy, with the visitor and the target of the offer. While a
    session is neither delivered nor over, its provider can have it: an authenticated provider that shows the ticket gets it,
    and after it was delivered gets a refusal. *)
Theorem p2p_session_joins_once (w : P2pWorld) :
  p2p_history w →
  NoDup (dl_session <$> w_delivered w) ∧
  (∀ d, d ∈ w_delivered w → ∃ o, o ∈ w_offers w ∧ dl_session d = of_session o ∧ dl_psk d = of_psk o ∧
     authorised (of_asking o) ∧ sh_now (dl_shown d) < expires_unix_seconds (of_claims o)) ∧
  (∀ d o, d ∈ w_delivered w → o ∈ w_offers w → sh_ticket (dl_shown d) = of_ticket o →
     sh_claims (dl_shown d) = of_claims o ∧ dl_psk d = of_psk o ∧ sh_provider (dl_shown d) = srt_provider (ak_policy (of_asking o))) ∧
  (∀ o token touch disk now s, o ∈ w_offers w → w_clock w ≤ now < expires_unix_seconds (of_claims o) →
     require_client (srt_provider (ak_policy (of_asking o))) token touch disk (w_state w) = Done (Ok tt, s) →
     ∃ s', validate_ticket secret (srt_provider (ak_policy (of_asking o))) token (of_ticket o) touch disk now (w_state w) =
       Done (if bool_decide (of_session o ∈ dl_session <$> w_delivered w) then Err (lit "P2P ticket was already consumed")
             else Ok (P2pTicketValid (of_session o) (ak_visitor (of_asking o)) (target_addr (of_claims o)) (of_psk o)), s')).
Proof using laws ticket_laws.
  intros Hok%p2p_history_ok. split_and!.
  - apply (po_delivered_once _ Hok).
  - intros d Hd. destruct (po_delivered _ Hok d Hd) as (_ & o & Ho & E & Ep & Hlt). exists o. split_and!; try done. by apply (po_offers _ Hok o Ho).
  - intros d o Hd Ho Et. destruct (po_delivered _ Hok d Hd) as ([Hv Hpr] & o' & Ho' & E & Ep & _). destruct (po_offers _ Hok o Ho) as [Hm _].
    rewrite Et, (offer_verifies o) in Hv by done. destruct (_ <? _); [done|]. destruct (_ <=? _); [done|]. injection Hv as Hv. assert (o' = o) as ->.
    { apply (offer_unique w); [done|done|done|]. unfold dl_session in E. rewrite E, <- Hv. done. }
    split_and!; [done|done|]. rewrite <- Hpr, <- Hv. destruct Hm as (_ & _ & ->). done.
  - intros o token touch disk now s Ho Hn Ha. destruct (po_offers _ Hok o Ho) as [Hm Hle]. pose proof (quietly_require _ _ _ _ _ _ _ Ha) as [_ Es].
    unfold validate_ticket, check_ticket, mbind, db_bind. rewrite Ha. unfold db_lift. rewrite (offer_verifies o) by done. rewrite (proj2 (Z.ltb_ge _ _)), (proj2 (Z.leb_gt _ _)) by lia.
    assert (ticket_matches_provider (of_claims o) (srt_provider (ak_policy (of_asking o))) = true) as ->.
    { destruct Hm as (_ & _ & ->). unfold ticket_matches_provider. cbn. apply Z.eqb_refl. }
    unfold db_ensure, mret, db_ret, deliver_session, consume_session, mbind, db_bind, db_get, db_put, db_lift, mret, db_ret. rewrite Es.
    case_bool_decide as Hd.
    + assert (p_sessions (w_state w) !! session_id (of_claims o) = None) as -> by (apply eq_None_not_Some; intros [p Hp]; by destruct (po_pending _ Hok _ _ Hp)).
      cbn [ok_or]. by eexists.
    + pose proof (po_waiting _ Hok o Ho ltac:(lia) Hd) as Hp. unfold of_session in Hp. rewrite Hp. cbn [pending_expires pending_psk].
      rewrite (proj2 (Z.ltb_lt _ _)) by lia. cbn [ok_or]. eexists. do 3 f_equal. destruct Hm as (_ & _ & ->). done.
Qed.
End histories.

(** ** Witnesses *)

#[local] Instance sample_nodes_json : NodeJson :=
  {| candidates_to_json := λ _, []; candidates_from_json := λ _, Some []; iroh_to_json := λ _, []; iroh_from_json := λ _, None |}.
Definition sample_peer : Z := 34.
Definition sample_peer_token : rstr := lit "llc_33".
Definition sample_session_claims : P2pTicketClaims :=
  {| session_id := 77; provider_client_id := 34; visitor_client_id := 34; target_addr := lit "127.0.0.1:22"; issued_unix_seconds := 1010;
     expires_unix_seconds := 1040; protocol_version := 1 |}.
#[local] Instance sample_ticket_json : TicketJson :=
  {| claims_to_vec := λ c, if bool_decide (c = sample_session_claims) then Ok [123; 125] else Err tt;
     claims_from_slice := λ v, if bool_decide (v = [123; 125]) then Some sample_session_claims else None |}.
#[local] Instance sample_ticket_laws : TicketJsonLaws.
Proof.
  split; cbn; intros c v; case_bool_decide as Hc; try done; intros [= <-].
  - repeat constructor; vm_compute; congruence.
  - by rewrite Hc.
Defined.
Definition run_state {A} (m : exec (result rstr A * P2pState)) : P2pState := match m with Done (_, s) => s | Panic => w_state empty_p2p end.

Definition sample_clients : P2pWorld := with_state (set_p2p_registry sample_registry (w_state empty_p2p)) 0 empty_p2p.
Definition sample_tunnel : P2pWorld :=
  match perform_secret (plat := hex_platform) sample_secret_create ∅ with
  | Done (out, t) => {| w_state := set_p2p_secrets t (w_state sample_clients); w_held := held_step (plat := hex_platform) sample_secret_create out ∅; w_asking := []; w_shown := [];
                        w_offers := []; w_delivered := []; w_clock := 0 |}
  | Panic => sample_clients
  end.
Definition sample_ask := ask_session (plat := hex_platform) (column := sample_column) 34 sample_peer_token sample_access_key 1010 true 1010 (w_state sample_tunnel).
Definition sample_asking : Asking :=
  {| ak_visitor := 34; ak_key := sample_access_key; ak_held := w_held sample_tunnel;
     ak_policy := match sample_ask with Done (Ok (policy, _), _) => policy | _ => runtime_of (secret_of 0 false sample_secret_request) end; ak_candidates := []; ak_now := 1010 |}.
Definition sample_asked : P2pWorld :=
  {| w_state := run_state sample_ask; w_held := w_held sample_tunnel; w_asking := [sample_asking]; w_shown := []; w_offers := []; w_delivered := []; w_clock := 1010 |}.
Definition sample_psk : list Z := replicate 32 9.
Definition sample_offering :=
  offer_session (plat := hex_platform) [1; 2; 3] (ak_policy sample_asking) [] 34 1010 (Some (lit "127.0.0.1:22")) 77 (Some sample_psk) false (w_state sample_asked).
Definition sample_ticket : rstr := match sample_offering with Done (Ok (P2pSessionOffer ticket _ _ _), _) => ticket | _ => [] end.
Definition sample_offer : Offer := {| of_asking := sample_asking; of_claims := sample_session_claims; of_ticket := sample_ticket; of_psk := sample_psk |}.
Definition sample_offered : P2pWorld :=
  {| w_state := run_state sample_offering; w_held := w_held sample_tunnel; w_asking := [sample_asking]; w_shown := []; w_offers := [sample_offer]; w_delivered := [];
     w_clock := 1010 |}.

Abbreviation sample_p2p_history := (p2p_history (plat := hex_platform) (column := sample_column) (nodes_json := sample_nodes_json) (ticket_json := sample_ticket_json) [1; 2; 3]).
Lemma sample_tunnel_history : sample_p2p_history sample_tunnel.
Proof.
  eapply p2p_more; [eapply p2p_more; [apply p2p_start|apply (step_clients _ _ sample_registry)]|]. fold sample_clients. unfold sample_tunnel.
  destruct (perform_secret (plat := hex_platform) sample_secret_create ∅) as [[out t]|] eqn:E; [|vm_compute in E; discriminate].
  refine (step_secret _ sample_clients sample_secret_create out t sample_create_ok E).
Qed.
Lemma sample_asked_history : sample_p2p_history sample_asked.
Proof.
  eapply p2p_more; [exact sample_tunnel_history|].
  refine (step_ask _ sample_tunnel 34 sample_peer_token sample_access_key 1010 true 1010 (ak_policy sample_asking) [] (run_state sample_ask) _ _ _).
  - split; vm_compute; discriminate.
  - vm_compute. discriminate.
  - vm_compute. reflexivity.
Qed.
Lemma sample_offered_history : sample_p2p_history sample_offered.
Proof.
  eapply p2p_more; [exact sample_asked_history|].
  refine (step_offer _ sample_asked sample_asking (lit "127.0.0.1:22") 77 sample_psk false sample_session_claims sample_ticket [] (run_state sample_offering) _ _ _ _).
  - apply list_elem_of_here.
  - apply not_elem_of_nil.
  - vm_compute. reflexivity.
  - vm_compute. reflexivity.
Qed.

Lemma p2p_session_joins_once_witness :
  ∃ s', validate_ticket (plat := hex_platform) (column := sample_column) [1; 2; 3] 34 sample_peer_token sample_ticket 1020 true 1039 (w_state sample_offered) =
    Done (Ok (P2pTicketValid 77 34 (lit "127.0.0.1:22") sample_psk), s').
Proof.
  destruct (p2p_session_joins_once (laws := hex_laws) (ticket_laws := sample_ticket_laws) [1; 2; 3] sample_offered sample_offered_history) as (_ & _ & _ & H).
  assert (∃ s, require_client (plat := hex_platform) (column := sample_column) 34 sample_peer_token 1020 true (w_state sample_offered) = Done (Ok tt, s)) as [s Es]
    by (eexists; vm_compute; reflexivity).
  apply (H sample_offer sample_peer_token 1020 true 1039 s); [apply list_elem_of_here|split; vm_compute; [discriminate|reflexivity]|exact Es].
Defined.
