(* ===== verification/Routes.v ===== *)
(** * Routes by host name ([http_route_catalog.rs] and [sni_route_catalog.rs])

    Each catalog maps host names to the targets of clients. A statement fails on a unique column or a row
    that does not convert; other failures of the storage and the columns added to old databases are not modelled. *)

From S2P Require Import Prelude DbMonad RustStr RustText NetAddr TargetPool SniTunnel AdminAuth PortPolicy TunnelTables TunnelCatalog TunnelPorts.
Local Open Scope Z_scope.
Set Default Proof Using "Type".

Definition ROUTE_DEFAULT_MAX_CONNECTIONS : Z := 64.

(** ** HTTP routes *)

Inductive GrpcBackendTransport := H2c | GrpcTls.
Record CreateHttpRoutePolicy := {
  ch_client : Z; ch_name : rstr; ch_hostname : rstr; ch_target : rstr; ch_max_connections : option Z;
  ch_transport : GrpcBackendTransport; ch_server_name : option rstr; ch_trust_profile : option rstr;
}.
Record HttpRoutePolicy := {
  hr_id : Z; hr_client : Z; hr_name : rstr; hr_hostname : rstr; hr_target : rstr; hr_max_connections : Z;
  hr_transport : GrpcBackendTransport; hr_server_name : option rstr; hr_trust_profile : option rstr; hr_enabled : bool;
}.
Inductive GrpcBackendTrust := TrustSystem | TrustProfile (profile : rstr).
Record GrpcBackendTlsPolicy := { server_name : rstr; trust : GrpcBackendTrust }.
Inductive GrpcBackendRuntimeTransport := RuntimeH2c | RuntimeTls (p : GrpcBackendTlsPolicy).
Record HttpRouteRuntimePolicy := { hrt_policy_id : Z; hrt_max_connections : Z; grpc_backend : GrpcBackendRuntimeTransport }.
Inductive CreateHttpRouteError :=
  | RouteInvalidName | RouteInvalidHostname | RouteDuplicateHostname | RouteInvalidTarget | RouteInvalidConnectionLimit | RouteInvalidGrpcBackend | RouteDatabase.

Record HttpRouteRow := {
  hw_client : rstr; hw_name : rstr; hw_hostname : rstr; hw_target : rstr; hw_max_connections : Z; hw_transport : rstr;
  hw_server_name : option rstr; hw_trust_profile : option rstr; hw_enabled : Z;
}.
Abbreviation HttpRouteCatalog := (gmap rstr HttpRouteRow).
Abbreviation http_routes := (db CreateHttpRouteError HttpRouteCatalog).

Definition grpc_backend_transport_name (t : GrpcBackendTransport) : rstr := match t with H2c => lit "h2c" | GrpcTls => lit "tls" end.
Definition parse_grpc_backend_transport (value : rstr) : option GrpcBackendTransport :=
  if bool_decide (value = lit "h2c") then Some H2c else if bool_decide (value = lit "tls") then Some GrpcTls else None.

Definition valid_tls_server_name (value : rstr) : bool :=
  negb (bool_decide (value = [])) && (str_len value <=? 253) && is_ascii value && negb (bool_decide (is_Some (parse_ip value))) &&
  all valid_dns_label (split ch_dot value).
Definition profile_byte (b : Z) : bool := is_ascii_alphanumeric b || (b =? ch_minus) || (b =? 95).
Definition valid_trust_profile (value : rstr) : bool :=
  negb (bool_decide (value = [])) && (str_len value <=? 64) && negb (bool_decide (value = lit ".")) && negb (bool_decide (value = lit "..")) &&
  all profile_byte (as_bytes value).

(** [as_deref().map(str::trim).filter(|value| !value.is_empty())]. *)
Definition given (value : option rstr) : option rstr :=
  value ← value; if bool_decide (trim value = []) then None else Some (trim value).
Definition normalize_grpc_backend (request : CreateHttpRoutePolicy) : result CreateHttpRouteError (option rstr * option rstr) :=
  let server_name := given (ch_server_name request) in
  let trust_profile := given (ch_trust_profile request) in
  match ch_transport request with
  | H2c =>
      _ ← reject_if (bool_decide (is_Some server_name) || bool_decide (is_Some trust_profile)) RouteInvalidGrpcBackend;
      Ok (None, None)
  | GrpcTls =>
      server_name ← ok_or (value ← server_name; if valid_tls_server_name value then Some value else None) RouteInvalidGrpcBackend;
      trust_profile ← match trust_profile with
                      | None => Ok None
                      | Some value => if valid_trust_profile value then Ok (Some value) else Err RouteInvalidGrpcBackend
                      end;
      Ok (Some (to_ascii_lowercase server_name), trust_profile)
  end.
Definition grpc_backend_runtime (transport : rstr) (server_name' trust_profile : option rstr) : result CreateHttpRouteError GrpcBackendRuntimeTransport :=
  match parse_grpc_backend_transport transport with
  | Some H2c =>
      _ ← reject_if (negb (bool_decide (server_name' = None) && bool_decide (trust_profile = None))) RouteInvalidGrpcBackend;
      Ok RuntimeH2c
  | Some GrpcTls =>
      name ← ok_or (value ← server_name'; if valid_tls_server_name value then Some value else None) RouteInvalidGrpcBackend;
      trust ← match trust_profile with
              | Some profile => if valid_trust_profile profile then Ok (TrustProfile profile) else Err RouteInvalidGrpcBackend
              | None => Ok TrustSystem
              end;
      Ok (RuntimeTls {| server_name := name; trust := trust |})
  | None => Err RouteInvalidGrpcBackend
  end.

Definition validate_http_route (request : CreateHttpRoutePolicy) (hostname : rstr) : result CreateHttpRouteError unit :=
  _ ← reject_if (bool_decide (trim (ch_name request) = []) || (80 <? str_len (ch_name request))) RouteInvalidName;
  _ ← reject_if (bool_decide (hostname = [])) RouteInvalidHostname;
  _ ← reject_if (negb (is_ok (parse_target_pool (trim (ch_target request)))) || (4096 <? str_len (ch_target request))) RouteInvalidTarget;
  _ ← reject_if (negb (within 1 1024 (default ROUTE_DEFAULT_MAX_CONNECTIONS (ch_max_connections request)))) RouteInvalidConnectionLimit;
  _ ← normalize_grpc_backend request;
  Ok tt.
Definition requested_http_route (id : Z) (enabled : bool) (request : CreateHttpRoutePolicy) : result CreateHttpRouteError HttpRoutePolicy :=
  hostname ← ok_or (normalize_hostname (ch_hostname request)) RouteInvalidHostname;
  _ ← validate_http_route request hostname;
  '(name, profile) ← normalize_grpc_backend request;
  Ok {| hr_id := id; hr_client := ch_client request; hr_name := trim (ch_name request); hr_hostname := hostname; hr_target := trim (ch_target request);
        hr_max_connections := default ROUTE_DEFAULT_MAX_CONNECTIONS (ch_max_connections request); hr_transport := ch_transport request;
        hr_server_name := name; hr_trust_profile := profile; hr_enabled := enabled |}.
Definition http_enabled_as (enabled : bool) (p : HttpRoutePolicy) : HttpRoutePolicy :=
  {| hr_id := hr_id p; hr_client := hr_client p; hr_name := hr_name p; hr_hostname := hr_hostname p; hr_target := hr_target p;
     hr_max_connections := hr_max_connections p; hr_transport := hr_transport p; hr_server_name := hr_server_name p; hr_trust_profile := hr_trust_profile p;
     hr_enabled := enabled |}.

(** [COUNT] of rows with this host name, with [id <> except]. *)
Definition hosted {R} (host : R → rstr) (hostname : rstr) (except : option rstr) (t : gmap rstr R) : bool :=
  any (λ x : rstr * R, bool_decide (host x.2 = hostname) && other except x.1) (map_to_list t).

Section http.
Context {plat : Platform}.

Definition http_route_row (p : HttpRoutePolicy) (enabled : Z) : HttpRouteRow :=
  {| hw_client := uuid_string (hr_client p); hw_name := hr_name p; hw_hostname := hr_hostname p; hw_target := hr_target p;
     hw_max_connections := hr_max_connections p; hw_transport := grpc_backend_transport_name (hr_transport p); hw_server_name := hr_server_name p;
     hw_trust_profile := hr_trust_profile p; hw_enabled := enabled |}.
Definition read_http_route_policy (id : rstr) (row : HttpRouteRow) : option HttpRoutePolicy :=
  id ← uuid_parse id;
  client ← uuid_parse (hw_client row);
  max ← get_uint U16_MAX (hw_max_connections row);
  transport ← parse_grpc_backend_transport (hw_transport row);
  Some {| hr_id := id; hr_client := client; hr_name := hw_name row; hr_hostname := hw_hostname row; hr_target := hw_target row; hr_max_connections := max;
          hr_transport := transport; hr_server_name := hw_server_name row; hr_trust_profile := hw_trust_profile row; hr_enabled := negb (hw_enabled row =? 0) |}.

Definition create_http_route (request : CreateHttpRoutePolicy) (id : Z) : http_routes HttpRoutePolicy :=
  policy ← db_lift (requested_http_route id true request);
  duplicate ← db_get (hosted hw_hostname (hr_hostname policy) None);
  _ ← db_ensure (negb duplicate) RouteDuplicateHostname;
  clash ← db_get (λ t, present (uuid_string id) t || hosted hw_hostname (hr_hostname policy) None t);
  _ ← db_ensure (negb clash) RouteDatabase;
  _ ← db_put (<[uuid_string id := http_route_row policy 1]>);
  mret policy.
(** [ORDER BY hostname]. *)
Definition list_http_routes : http_routes (list HttpRoutePolicy) :=
  rows ← db_get (λ t, merge_sort (λ x y : rstr * HttpRouteRow, lex_le (as_bytes (hw_hostname x.2)) (as_bytes (hw_hostname y.2))) (map_to_list t));
  db_lift (collect (λ '(id, row), ok_or (read_http_route_policy id row) RouteDatabase) rows).
Definition http_route_by_id (id : Z) : http_routes (option HttpRoutePolicy) :=
  row ← db_get (λ t : HttpRouteCatalog, t !! uuid_string id);
  match row with
  | None => mret None
  | Some row => policy ← db_lift (ok_or (read_http_route_policy (uuid_string id) row) RouteDatabase); mret (Some policy)
  end.
Definition update_http_route (id : Z) (request : CreateHttpRoutePolicy) : http_routes (option HttpRoutePolicy) :=
  policy ← db_lift (requested_http_route id true request);
  current ← http_route_by_id id;
  match current with
  | None => mret None
  | Some current =>
      let me := Some (uuid_string id) in
      duplicate ← db_get (hosted hw_hostname (hr_hostname policy) me);
      _ ← db_ensure (negb duplicate) RouteDuplicateHostname;
      let policy := http_enabled_as (hr_enabled current) policy in
      clash ← db_get (hosted hw_hostname (hr_hostname policy) me);
      _ ← db_ensure (negb clash) RouteDatabase;
      _ ← db_put (alter (λ row, http_route_row policy (hw_enabled row)) (uuid_string id));
      mret (Some policy)
  end.
Definition set_http_route_enabled (id : Z) (enabled : bool) : http_routes bool :=
  found ← db_get (present (uuid_string id));
  _ ← db_put (alter (λ row, {| hw_client := hw_client row; hw_name := hw_name row; hw_hostname := hw_hostname row; hw_target := hw_target row;
        hw_max_connections := hw_max_connections row; hw_transport := hw_transport row; hw_server_name := hw_server_name row;
        hw_trust_profile := hw_trust_profile row; hw_enabled := sql_bool enabled |}) (uuid_string id));
  mret found.
Definition delete_http_route (id : Z) : http_routes bool :=
  found ← db_get (present (uuid_string id));
  _ ← db_put (delete (uuid_string id));
  mret found.
Definition enabled_hostname_exists (hostname : rstr) : http_routes bool :=
  hostname ← db_lift (ok_or (normalize_hostname hostname) RouteInvalidHostname);
  db_get (λ t : HttpRouteCatalog, any (λ x : rstr * HttpRouteRow, bool_decide (hw_hostname x.2 = hostname) && (hw_enabled x.2 =? 1)) (map_to_list t)).
Definition http_route_for (client : Z) (name hostname target : rstr) (x : rstr * HttpRouteRow) : bool :=
  bool_decide (hw_client x.2 = uuid_string client) && bool_decide (hw_name x.2 = name) && bool_decide (hw_hostname x.2 = hostname) &&
  bool_decide (hw_target x.2 = target) && (hw_enabled x.2 =? 1).
Definition http_route_runtime (id : rstr) (row : HttpRouteRow) : result CreateHttpRouteError HttpRouteRuntimePolicy :=
  _ ← reject_if (negb (within 1 1024 (hw_max_connections row))) RouteInvalidConnectionLimit;
  id ← ok_or (uuid_parse id) RouteDatabase;
  backend ← grpc_backend_runtime (hw_transport row) (hw_server_name row) (hw_trust_profile row);
  Ok {| hrt_policy_id := id; hrt_max_connections := hw_max_connections row; grpc_backend := backend |}.
Definition http_runtime_policy (client : Z) (name hostname target : rstr) : http_routes (option HttpRouteRuntimePolicy) :=
  hostname ← db_lift (ok_or (normalize_hostname hostname) RouteInvalidHostname);
  row ← db_get (λ t : HttpRouteCatalog, head (filter (λ x, http_route_for client name hostname target x = true) (map_to_list t)));
  match row with
  | None => mret None
  | Some (id, row) => policy ← db_lift (http_route_runtime id row); mret (Some policy)
  end.
End http.

(** ** SNI routes *)

Record CreateSniRoutePolicy := {
  cn_client : Z; cn_name : rstr; cn_hostname : rstr; cn_target : rstr; cn_max_connections : option Z; cn_bandwidth : option Z;
}.
Record SniRoutePolicy := {
  sn_id : Z; sn_client : Z; sn_name : rstr; sn_hostname : rstr; sn_target : rstr; sn_max_connections : Z; sn_bandwidth : option Z; sn_enabled : bool;
}.
Record SniRouteRuntimePolicy := { snt_policy_id : Z; snt_max_connections : Z; snt_bandwidth : option Z }.
Inductive SniRoutePolicyError :=
  | SniInvalidName | SniInvalidHostname | SniInvalidTarget | SniInvalidConnectionLimit | SniInvalidBandwidthLimit | SniDuplicateHostname | SniDatabase.
Record SniRouteRow := {
  nw_client : rstr; nw_name : rstr; nw_hostname : rstr; nw_target : rstr; nw_max_connections : Z; nw_bandwidth : option Z; nw_enabled : Z;
}.
Abbreviation SniRouteCatalog := (gmap rstr SniRouteRow).
Abbreviation sni_routes := (db SniRoutePolicyError SniRouteCatalog).

Definition validate_sni_route (request : CreateSniRoutePolicy) : result SniRoutePolicyError unit :=
  _ ← reject_if (bool_decide (trim (cn_name request) = []) || (80 <? str_len (cn_name request))) SniInvalidName;
  let target := trim (cn_target request) in
  _ ← reject_if (negb (bool_decide (target = cn_target request)) || (4096 <? str_len target) || negb (is_ok (parse_target_pool target))) SniInvalidTarget;
  _ ← reject_if (negb (within 1 1024 (default ROUTE_DEFAULT_MAX_CONNECTIONS (cn_max_connections request)))) SniInvalidConnectionLimit;
  reject_if (negb (bandwidth_valid (cn_bandwidth request))) SniInvalidBandwidthLimit.
Definition requested_sni_route (id : Z) (enabled : bool) (request : CreateSniRoutePolicy) : result SniRoutePolicyError SniRoutePolicy :=
  hostname ← ok_or (normalize_hostname (cn_hostname request)) SniInvalidHostname;
  _ ← validate_sni_route request;
  Ok {| sn_id := id; sn_client := cn_client request; sn_name := trim (cn_name request); sn_hostname := hostname; sn_target := trim (cn_target request);
        sn_max_connections := default ROUTE_DEFAULT_MAX_CONNECTIONS (cn_max_connections request); sn_bandwidth := cn_bandwidth request; sn_enabled := enabled |}.
Definition sni_enabled_as (enabled : bool) (p : SniRoutePolicy) : SniRoutePolicy :=
  {| sn_id := sn_id p; sn_client := sn_client p; sn_name := sn_name p; sn_hostname := sn_hostname p; sn_target := sn_target p;
     sn_max_connections := sn_max_connections p; sn_bandwidth := sn_bandwidth p; sn_enabled := enabled |}.

Section sni.
Context {plat : Platform}.

Definition sni_route_row (p : SniRoutePolicy) (enabled : Z) : SniRouteRow :=
  {| nw_client := uuid_string (sn_client p); nw_name := sn_name p; nw_hostname := sn_hostname p; nw_target := sn_target p;
     nw_max_connections := sn_max_connections p; nw_bandwidth := sn_bandwidth p; nw_enabled := enabled |}.
Definition read_sni_route (id : rstr) (row : SniRouteRow) : option SniRoutePolicy :=
  id ← uuid_parse id;
  client ← uuid_parse (nw_client row);
  max ← get_uint U16_MAX (nw_max_connections row);
  bandwidth ← get_limit (nw_bandwidth row);
  Some {| sn_id := id; sn_client := client; sn_name := nw_name row; sn_hostname := nw_hostname row; sn_target := nw_target row; sn_max_connections := max;
          sn_bandwidth := bandwidth; sn_enabled := negb (nw_enabled row =? 0) |}.

Definition create_sni_route (request : CreateSniRoutePolicy) (id : Z) : sni_routes SniRoutePolicy :=
  policy ← db_lift (requested_sni_route id true request);
  exists_ ← db_get (hosted nw_hostname (sn_hostname policy) None);
  _ ← db_ensure (negb exists_) SniDuplicateHostname;
  clash ← db_get (λ t, present (uuid_string id) t || hosted nw_hostname (sn_hostname policy) None t);
  _ ← db_ensure (negb clash) SniDatabase;
  _ ← db_put (<[uuid_string id := sni_route_row policy 1]>);
  mret policy.
Definition list_sni_routes : sni_routes (list SniRoutePolicy) :=
  rows ← db_get (λ t, merge_sort (λ x y : rstr * SniRouteRow, lex_le (as_bytes (nw_hostname x.2)) (as_bytes (nw_hostname y.2))) (map_to_list t));
  db_lift (collect (λ '(id, row), ok_or (read_sni_route id row) SniDatabase) rows).
Definition sni_route_by_id (id : Z) : sni_routes (option SniRoutePolicy) :=
  row ← db_get (λ t : SniRouteCatalog, t !! uuid_string id);
  match row with
  | None => mret None
  | Some row => policy ← db_lift (ok_or (read_sni_route (uuid_string id) row) SniDatabase); mret (Some policy)
  end.
Definition update_sni_route (id : Z) (request : CreateSniRoutePolicy) : sni_routes (option SniRoutePolicy) :=
  policy ← db_lift (requested_sni_route id true request);
  current ← sni_route_by_id id;
  match current with
  | None => mret None
  | Some current =>
      let me := Some (uuid_string id) in
      duplicate ← db_get (hosted nw_hostname (sn_hostname policy) me);
      _ ← db_ensure (negb duplicate) SniDuplicateHostname;
      let policy := sni_enabled_as (sn_enabled current) policy in
      clash ← db_get (hosted nw_hostname (sn_hostname policy) me);
      _ ← db_ensure (negb clash) SniDatabase;
      _ ← db_put (alter (λ row, sni_route_row policy (nw_enabled row)) (uuid_string id));
      mret (Some policy)
  end.
Definition set_sni_route_enabled (id : Z) (enabled : bool) : sni_routes bool :=
  found ← db_get (present (uuid_string id));
  _ ← db_put (alter (λ row, {| nw_client := nw_client row; nw_name := nw_name row; nw_hostname := nw_hostname row; nw_target := nw_target row;
        nw_max_connections := nw_max_connections row; nw_bandwidth := nw_bandwidth row; nw_enabled := sql_bool enabled |}) (uuid_string id));
  mret found.
Definition delete_sni_route (id : Z) : sni_routes (option SniRoutePolicy) :=
  policy ← sni_route_by_id id;
  _ ← (if bool_decide (is_Some policy) then db_put (delete (uuid_string id)) else mret tt);
  mret policy.
Definition sni_route_for (client : Z) (name hostname target : rstr) (x : rstr * SniRouteRow) : bool :=
  bool_decide (nw_client x.2 = uuid_string client) && bool_decide (nw_name x.2 = name) && bool_decide (nw_hostname x.2 = hostname) &&
  bool_decide (nw_target x.2 = target) && (nw_enabled x.2 =? 1).
Definition sni_runtime_policy (client : Z) (name hostname target : rstr) : sni_routes (option SniRouteRuntimePolicy) :=
  hostname ← db_lift (ok_or (normalize_hostname hostname) SniInvalidHostname);
  row ← db_get (λ t : SniRouteCatalog, head (filter (λ x, sni_route_for client name hostname target x = true) (map_to_list t)));
  match row with
  | None => mret None
  | Some (id, row) =>
      id ← db_lift (ok_or (uuid_parse id) SniDatabase);
      mret (Some {| snt_policy_id := id; snt_max_connections := to_u64 (nw_max_connections row); snt_bandwidth := to_u64 <$> nw_bandwidth row |})
  end.
End sni.
