(* ===== verification/RouteSystem.v ===== *)
(** * Routes by host name: histories ([http_route_catalog.rs] and [sni_route_catalog.rs])

    Both catalogs refine a map from identifiers to policies in which host names are unique, and
    what the data plane looks up is what that map says. *)

From S2P Require Import Prelude DbMonad RustStr RustText NetAddr TargetPool SniTunnel AdminAuth PortPolicy TunnelTables TunnelCatalog TunnelPorts Routes.
Local Open Scope Z_scope.
Set Default Proof Using "Type".

(** ** Addresses and letter case

    Parsing an address does not depend on the case of its letters. *)

Definition lowers {A} (r : rstr → option (A * rstr)) : Prop :=
  ∀ s, r (to_ascii_lowercase s) = (λ x, (x.1, to_ascii_lowercase x.2)) <$> r s.
Lemma lower_cases c : lower_char c = c ∨ (65 ≤ c ≤ 90 ∧ lower_char c = c + 32).
Proof. unfold lower_char, is_ascii_upper. destruct (Z.leb_spec 65 c), (Z.leb_spec c 90); cbn; [right|left..]; lia. Qed.
Lemma lower_digit radix c : to_digit radix (lower_char c) = to_digit radix c.
Proof.
  destruct (lower_cases c) as [->|[Hc ->]]; [done|]. unfold to_digit, is_ascii_digit, is_ascii_lower, is_ascii_upper.
  repeat (zcase; cbn [andb mbind option_bind]; try lia); try done; try (f_equal; lia).
Qed.
Lemma lower_eqb c d : ¬ (97 ≤ d ≤ 122) → ¬ (65 ≤ d ≤ 90) → (lower_char c =? d) = (c =? d).
Proof. intros H1 H2. destruct (lower_cases c) as [->|[Hc ->]]; [done|]. rewrite (proj2 (Z.eqb_neq _ _)), (proj2 (Z.eqb_neq _ _)) by lia. done. Qed.
Lemma lower_read_digits radix k acc n s :
  read_digits radix k acc n (to_ascii_lowercase s) = (λ '(r, c, t), (r, c, to_ascii_lowercase t)) <$> read_digits radix k acc n s.
Proof.
  revert acc n. induction s as [|c s IH]; intros acc n; [done|]. cbn [to_ascii_lowercase fmap list_fmap read_digits]. rewrite lower_digit.
  destruct (to_digit radix c); [|done]. destruct (_ <? _)%nat; [done|]. apply IH.
Qed.
Lemma lower_starts c s : ¬ (97 ≤ c ≤ 122) → ¬ (65 ≤ c ≤ 90) → starts_with c (to_ascii_lowercase s) = starts_with c s.
Proof. intros H1 H2. destruct s as [|d s]; [done|]. cbn. by apply lower_eqb. Qed.
Lemma lowers_number radix k zero max : lowers (read_number radix k zero max).
Proof.
  intros s. unfold read_number. rewrite lower_read_digits, lower_starts by lia. destruct (read_digits _ _ _ _ s) as [[[r c] t]|]; [|done]. cbn.
  destruct (_ =? 0)%nat; [done|]. destruct (negb zero && _ && _); [done|]. by destruct (r <=? max).
Qed.
Lemma lowers_char c : ¬ (97 ≤ c ≤ 122) → ¬ (65 ≤ c ≤ 90) → lowers (read_given_char c).
Proof. intros H1 H2 s. destruct s as [|d s]; [done|]. cbn. rewrite lower_eqb by done. by destruct (d =? c). Qed.
Lemma lowers_bind {A B} (r : rstr → option (A * rstr)) (k : A → rstr → option (B * rstr)) :
  lowers r → (∀ a, lowers (k a)) → lowers (λ s, '(a, t) ← r s; k a t).
Proof. intros Hr Hk s. rewrite Hr. destruct (r s) as [[a t]|]; [|done]. cbn. apply Hk. Qed.
Lemma lowers_ret {A} (a : A) : lowers (λ s, Some (a, s)).
Proof. done. Qed.
Lemma lowers_separator {A} i (inner : rstr → option (A * rstr)) sep : ¬ (97 ≤ sep ≤ 122) → ¬ (65 ≤ sep ≤ 90) → lowers inner → lowers (read_separator sep i inner).
Proof.
  intros H1 H2 Hi s. unfold read_separator. destruct (_ <? _)%nat; [|apply Hi]. exact (lowers_bind _ (λ _, inner) (lowers_char sep H1 H2) (λ _, Hi) s).
Qed.
Lemma lowers_ipv4 : lowers read_ipv4_addr.
Proof.
  assert (∀ i, lowers (read_separator ch_dot i (read_number 10 3 false U8_MAX))) as Ho by (intros i; apply lowers_separator; [lia..|apply lowers_number]).
  unfold read_ipv4_addr. repeat (apply lowers_bind; [apply Ho|intros ?]). apply lowers_ret.
Qed.
Lemma lower_read_groups n i limit s :
  read_groups n i limit (to_ascii_lowercase s) = let '(gs, v4, t) := read_groups n i limit s in (gs, v4, to_ascii_lowercase t).
Proof.
  revert i s. induction n as [|n IH]; intros i s; [done|]. cbn [read_groups].
  rewrite (lowers_separator i read_ipv4_addr ch_colon) by (lia || apply lowers_ipv4).
  rewrite (lowers_separator i (read_number 16 4 true U16_MAX) ch_colon) by (lia || apply lowers_number).
  assert (∀ o : option (Z * rstr), (if (i <? limit - 1)%nat then (λ x : Z * rstr, (x.1, to_ascii_lowercase x.2)) <$> o else None) =
            (λ x : Z * rstr, (x.1, to_ascii_lowercase x.2)) <$> (if (i <? limit - 1)%nat then o else None)) as -> by (intros o; by destruct (_ <? _)%nat).
  destruct (if (i <? limit - 1)%nat then _ else _) as [[v4 rest]|]; [done|]. cbn.
  destruct (read_separator ch_colon i (read_number 16 4 true U16_MAX) s) as [[g rest]|]; [|done]. cbn. rewrite IH. by destruct (read_groups n (S i) limit rest) as [[gs v4] t].
Qed.
Lemma lowers_ipv6 : lowers read_ipv6_addr.
Proof.
  intros s. unfold read_ipv6_addr. rewrite lower_read_groups. destruct (read_groups 8 0 8 s) as [[hd v4] t]. destruct (_ =? _)%nat; [done|]. destruct v4; [done|].
  assert (lowers (read_given_char ch_colon)) as Hc by (apply lowers_char; lia). rewrite Hc. destruct (read_given_char ch_colon t) as [[[] t1]|]; [|done]. cbn.
  rewrite Hc. destruct (read_given_char ch_colon t1) as [[[] t2]|]; [|done]. cbn. rewrite lower_read_groups.
  by destruct (read_groups _ 0 _ t2) as [[tl b] t3].
Qed.
Lemma parse_ip_lower s : parse_ip (to_ascii_lowercase s) = parse_ip s.
Proof.
  unfold parse_ip, parse_with. rewrite lowers_ipv4. destruct (read_ipv4_addr s) as [[x r]|]; cbn; [by destruct r|].
  rewrite lowers_ipv6. destruct (read_ipv6_addr s) as [[x r]|]; cbn; [by destruct r|done].
Qed.

Lemma lower_split s : split ch_dot (to_ascii_lowercase s) = to_ascii_lowercase <$> split ch_dot s.
Proof.
  induction s as [|c s IH]; [done|]. cbn [to_ascii_lowercase fmap list_fmap split]. change (lower_char <$> s) with (to_ascii_lowercase s). rewrite lower_eqb by lia.
  rewrite IH. destruct (c =? ch_dot); [done|]. by destruct (split ch_dot s).
Qed.
Lemma split_parts_Forall (P : Z → Prop) sep s : Forall P s → Forall (Forall P) (split sep s).
Proof.
  induction 1 as [|c s Hc _ IH]; [by repeat constructor|]. cbn. destruct (c =? sep); [by constructor|]. destruct (split sep s) as [|p ps]; [by repeat constructor|].
  apply Forall_cons in IH as [? ?]. by repeat constructor.
Qed.
Lemma lower_len s : len (to_ascii_lowercase s) = len s.
Proof. unfold len, to_ascii_lowercase. by rewrite length_fmap. Qed.
Lemma lower_ascii s : is_ascii s = true → is_ascii (to_ascii_lowercase s) = true.
Proof.
  unfold is_ascii. rewrite !all_Forall. intros H. apply Forall_fmap. eapply Forall_impl; [exact H|]. cbn. intros c Hc. apply andb_true_iff in Hc as [H1%Z.leb_le H2%Z.ltb_lt].
  apply andb_true_iff. rewrite Z.leb_le, Z.ltb_lt. destruct (lower_cases c) as [->|[? ->]]; lia.
Qed.
Lemma lower_alphanumeric c : is_ascii_alphanumeric c = true → is_ascii_alphanumeric (lower_char c) = true.
Proof.
  destruct (lower_cases c) as [->|[Hc ->]]; [done|]. intros _. unfold is_ascii_alphanumeric, is_ascii_lower. rewrite !orb_true_iff. right.
  apply andb_true_iff. rewrite !Z.leb_le. lia.
Qed.
Lemma lower_label l : is_ascii l = true → valid_dns_label l = true → valid_dns_label (to_ascii_lowercase l) = true.
Proof.
  intros Ha. unfold valid_dns_label, str_len. rewrite !as_bytes_ascii by (done || by apply lower_ascii). rewrite !andb_true_iff. intros ((((H1 & H2) & H3) & H4) & H5).
  assert (ends_with ch_minus (to_ascii_lowercase l) = ends_with ch_minus l) as E.
  { unfold ends_with. rewrite <- (lower_starts ch_minus (rev l)) by lia. f_equal. unfold to_ascii_lowercase. symmetry. apply map_rev. }
  rewrite E, lower_starts by lia. split_and!; try done.
  - apply negb_true_iff, bool_decide_eq_false in H1. apply negb_true_iff, bool_decide_eq_false. by destruct l.
  - by rewrite lower_len.
  - apply all_Forall, Forall_fmap. apply all_Forall in H5. eapply Forall_impl; [exact H5|]. cbn. intros c [Hc|Hc]%orb_true_iff; apply orb_true_iff.
    + left. by apply lower_alphanumeric.
    + right. by rewrite lower_eqb by lia.
Qed.
Lemma valid_tls_lower v : valid_tls_server_name v = true → valid_tls_server_name (to_ascii_lowercase v) = true.
Proof.
  unfold valid_tls_server_name. rewrite !andb_true_iff. intros ((((H1 & H2) & H3) & H4) & H5). rewrite parse_ip_lower, lower_split. split_and!; try done.
  - apply negb_true_iff, bool_decide_eq_false in H1. apply negb_true_iff, bool_decide_eq_false. by destruct v.
  - unfold str_len in *. rewrite as_bytes_ascii in * by (done || by apply lower_ascii). by rewrite lower_len.
  - by apply lower_ascii.
  - apply all_Forall, Forall_fmap. apply all_Forall in H5. unfold is_ascii in H3. apply all_Forall, (split_parts_Forall _ ch_dot) in H3.
    apply Forall_forall. intros l Hl. rewrite Forall_forall in H3, H5. cbn. apply lower_label; [|by apply H5]. unfold is_ascii. by apply all_Forall, H3.
Qed.

(** ** A table that represents a map of policies *)

Section table.
Context {P R : Type} (row : P → R) (key host : P → rstr) (hostr : R → rstr) (wf : P → Prop).
Context (row_host : ∀ p, hostr (row p) = host p).

Record routes_ok (t : gmap rstr R) (h : gmap rstr P) : Prop := {
  ro_rows : t = row <$> h;
  ro_wf : ∀ k p, h !! k = Some p → k = key p ∧ wf p;
  ro_hosts : ∀ k k' p p', h !! k = Some p → h !! k' = Some p' → host p = host p' → k = k';
}.
Lemma routes_empty : routes_ok ∅ ∅.
Proof. split; [by rewrite fmap_empty|..]; intros * H; by apply lookup_empty_Some in H. Qed.
Lemma routes_lookup t h k : routes_ok t h → t !! k = row <$> h !! k.
Proof. intros [-> _ _]. apply lookup_fmap. Qed.
Lemma routes_put t h k p : routes_ok t h → k = key p → wf p → (∀ k' p', h !! k' = Some p' → host p' = host p → k' = k) →
  routes_ok (<[k := row p]> t) (<[k := p]> h).
Proof.
  intros [-> H2 H3] Hk Hwf Hfree. split; [by rewrite fmap_insert|..].
  - intros k' p' [[<- <-]|[_ Hp]]%lookup_insert_Some; [done|by apply H2].
  - intros k1 k2 p1 p2 [[<- <-]|[N1 Hp1]]%lookup_insert_Some [[<- <-]|[N2 Hp2]]%lookup_insert_Some E; [done|..|by eapply H3].
    + symmetry. by eapply Hfree.
    + by eapply Hfree.
Qed.
Lemma routes_delete t h k : routes_ok t h → routes_ok (delete k t) (delete k h).
Proof.
  intros [-> H2 H3]. split; [by rewrite fmap_delete|..].
  - intros k' p [_ Hp]%lookup_delete_Some. by apply H2.
  - intros k1 k2 p1 p2 [_ Hp1]%lookup_delete_Some [_ Hp2]%lookup_delete_Some. by apply H3.
Qed.
(** An update in place that keeps the identifier and the host. *)
Lemma routes_alter t h k (f : R → R) (g : P → P) : routes_ok t h → (∀ p, wf p → f (row p) = row (g p) ∧ key (g p) = key p ∧ host (g p) = host p ∧ wf (g p)) →
  routes_ok (alter f k t) (alter g k h).
Proof.
  intros Hok Hg. destruct (h !! k) as [p|] eqn:Hp.
  - destruct (ro_wf _ _ Hok k p Hp) as [Hk Hwf]. destruct (Hg p Hwf) as (E1 & E2 & E3 & E4).
    rewrite (alter_known t k (row p)) by (by rewrite (routes_lookup _ _ _ Hok), Hp). rewrite (alter_known h k p) by done. rewrite E1.
    apply routes_put; [done|congruence|done|]. intros k' p' Hp' E. eapply (ro_hosts _ _ Hok); [done|done|congruence].
  - rewrite !alter_id; [done|by intros ? ?; congruence|]. intros r Hr. by rewrite (routes_lookup _ _ _ Hok), Hp in Hr.
Qed.
Lemma hosted_free t h hostname except : routes_ok t h → hosted hostr hostname except t = false →
  ∀ k p, h !! k = Some p → host p = hostname → except = Some k.
Proof using row_host.
  intros Hok. unfold hosted. rewrite any_false. intros H k p Hp E. specialize (H (k, row p)). rewrite elem_of_map_to_list, (routes_lookup _ _ _ Hok), Hp in H.
  specialize (H eq_refl). cbn in H. rewrite row_host, bool_decide_true in H by done. by apply other_false in H.
Qed.
(** The first row that a query selects. *)
Lemma routes_found t h (f : rstr * R → bool) : routes_ok t h →
  match head (filter (λ x, f x = true) (map_to_list t)) with
  | Some (k, r) => ∃ p, h !! k = Some p ∧ r = row p ∧ f (k, row p) = true
  | None => ∀ k p, h !! k = Some p → f (k, row p) = false
  end.
Proof.
  intros Hok. destruct (head _) as [[k r]|] eqn:E.
  - apply head_Some_elem_of, list_elem_of_filter in E as [Hf Hr%elem_of_map_to_list]. rewrite (routes_lookup _ _ _ Hok) in Hr.
    destruct (h !! k) as [p|] eqn:Hp; [|done]. injection Hr as <-. by exists p.
  - intros k p Hp. apply head_None in E. destruct (f (k, row p)) eqn:Hf; [|done].
    assert ((k, row p) ∈ filter (λ x, f x = true) (map_to_list t)) as Hin; [|rewrite E in Hin; by apply elem_of_nil in Hin].
    apply list_elem_of_filter. split; [done|]. apply elem_of_map_to_list. by rewrite (routes_lookup _ _ _ Hok), Hp.
Qed.
End table.

(** ** Histories of either catalog *)

Inductive RouteOp (Q : Type) :=
  | RouteCreate (request : Q) (id : Z)
  | RouteUpdate (id : Z) (request : Q)
  | RouteEnable (id : Z) (enabled : bool)
  | RouteDelete (id : Z).
Arguments RouteCreate {Q}. Arguments RouteUpdate {Q}. Arguments RouteEnable {Q}. Arguments RouteDelete {Q}.

Section histories.
Context {plat : Platform} {Q P R E : Type}.
Context (perform : RouteOp Q → db E (gmap rstr R) (option P)) (enabled_as : bool → P → P) (request_ok : Q → Prop).

(** What an operation means for the policies in force. *)
Definition route_step (op : RouteOp Q) (out : result E (option P)) (h : gmap rstr P) : gmap rstr P :=
  match op, out with
  | RouteCreate _ id, Ok (Some p) | RouteUpdate id _, Ok (Some p) => <[uuid_string id := p]> h
  | RouteEnable id enabled, Ok _ => alter (enabled_as enabled) (uuid_string id) h
  | RouteDelete id, Ok _ => delete (uuid_string id) h
  | _, _ => h
  end.
Definition route_op_ok (op : RouteOp Q) : Prop :=
  match op with RouteCreate request id | RouteUpdate id request => uuid_ok id ∧ request_ok request | _ => True end.
Inductive route_history : gmap rstr R → gmap rstr P → Prop :=
  | routes_none : route_history ∅ ∅
  | routes_call t t' h op out : route_history t h → route_op_ok op → perform op t = Done (out, t') → route_history t' (route_step op out h).

(** An invariant that every operation keeps holds in every history. *)
Lemma route_history_ind_ok (ok : gmap rstr R → gmap rstr P → Prop) :
  ok ∅ ∅ → (∀ t h op, ok t h → route_op_ok op → ensures (perform op) t (λ out t', ok t' (route_step op out h))) → ∀ t h, route_history t h → ok t h.
Proof. intros H0 Hs t h. induction 1 as [|t t' h op out _ IH Hop E']; [done|]. exact (ensures_eq _ _ _ _ _ E' (Hs t h op IH Hop)). Qed.

(** The specification keeps what was asked for: the request of each route and whether it is enabled. *)
Definition demand_step (op : RouteOp Q) (out : result E (option P)) (d : gmap rstr (Q * bool)) : gmap rstr (Q * bool) :=
  match op, out with
  | RouteCreate request id, Ok (Some _) => <[uuid_string id := (request, true)]> d
  | RouteUpdate id request, Ok (Some _) => alter (λ x, (request, x.2)) (uuid_string id) d
  | RouteEnable id enabled, Ok _ => alter (λ x, (x.1, enabled)) (uuid_string id) d
  | RouteDelete id, Ok _ => delete (uuid_string id) d
  | _, _ => d
  end.
Inductive demand_history : gmap rstr R → gmap rstr (Q * bool) → Prop :=
  | demands_none : demand_history ∅ ∅
  | demands_call t t' d op out : demand_history t d → route_op_ok op → perform op t = Done (out, t') → demand_history t' (demand_step op out d).

(** The policies in force are those that the requests ask for. *)
Context (requested : Z → bool → Q → result E P) (enabled : P → bool).
Definition demanded (x : option (Q * bool)) (k : rstr) (p : option P) : Prop :=
  match x, p with
  | Some (q, b), Some p => ∃ id, uuid_ok id ∧ request_ok q ∧ k = uuid_string id ∧ requested id b q = Ok p
  | None, None => True
  | _, _ => False
  end.
Definition answers (op : RouteOp Q) (out : result E (option P)) (h : gmap rstr P) : Prop :=
  match op, out with
  | RouteCreate request id, Ok (Some p) => requested id true request = Ok p
  | RouteUpdate id request, Ok (Some p) => ∃ q, h !! uuid_string id = Some q ∧ requested id (enabled q) request = Ok p
  | _, _ => True
  end.
Lemma demand_history_policies :
  (∀ t h op out t', route_history t h → route_op_ok op → perform op t = Done (out, t') → answers op out h) →
  (∀ id b b' q p, requested id b q = Ok p → enabled p = b ∧ requested id b' q = Ok (enabled_as b' p)) →
  ∀ t d, demand_history t d → ∃ h, route_history t h ∧ ∀ k, demanded (d !! k) k (h !! k).
Proof.
  intros Hans Hreq t d. induction 1 as [|t t' d op out _ (h & Hh & IH) Hop E']; [exists ∅; split; [constructor|]; intros k; by rewrite !lookup_empty|].
  pose proof (Hans _ _ _ _ _ Hh Hop E') as Ha. exists (route_step op out h). split; [by econstructor|]. intros k.
  destruct op as [request id|id request|id b|id], out as [o|e]; cbn [route_step demand_step answers route_op_ok] in *; try apply IH.
  - destruct o as [p|]; [|apply IH]. destruct (decide (k = uuid_string id)) as [->|Hne]; [rewrite !lookup_insert_eq|rewrite !lookup_insert_ne by done; apply IH].
    destruct Hop. by exists id.
  - destruct o as [p|]; [|apply IH]. destruct (decide (k = uuid_string id)) as [->|Hne]; [|rewrite lookup_insert_ne, lookup_alter_ne by done; apply IH].
    rewrite lookup_insert_eq, lookup_alter_eq. destruct Ha as (q & Hq & Hp). specialize (IH (uuid_string id)). rewrite Hq in IH.
    destruct (d !! uuid_string id) as [[q0 b]|]; [|done]. cbn in *. destruct IH as (id0 & _ & _ & _ & H0). destruct (Hreq _ _ true _ _ H0) as [<- _].
    destruct Hop. by exists id.
  - destruct (decide (k = uuid_string id)) as [->|Hne]; [|rewrite !lookup_alter_ne by done; apply IH]. rewrite !lookup_alter_eq. specialize (IH (uuid_string id)).
    destruct (d !! uuid_string id) as [[q0 b0]|], (h !! uuid_string id) as [p|]; try done. cbn in *. destruct IH as (id0 & ? & ? & ? & H0). exists id0. split_and!; try done. by apply (Hreq _ b0).
  - destruct (decide (k = uuid_string id)) as [->|Hne]; [by rewrite !lookup_delete_eq|rewrite !lookup_delete_ne by done; apply IH].
Qed.
End histories.

Section http.
Context {plat : Platform} {laws : PlatformLaws}.

Definition perform_http (op : RouteOp CreateHttpRoutePolicy) : http_routes (option HttpRoutePolicy) :=
  match op with
  | RouteCreate request id => p ← create_http_route request id; mret (Some p)
  | RouteUpdate id request => update_http_route id request
  | RouteEnable id enabled => _ ← set_http_route_enabled id enabled; mret None
  | RouteDelete id => _ ← delete_http_route id; mret None
  end.
Definition perform_sni (op : RouteOp CreateSniRoutePolicy) : sni_routes (option SniRoutePolicy) :=
  match op with
  | RouteCreate request id => p ← create_sni_route request id; mret (Some p)
  | RouteUpdate id request => update_sni_route id request
  | RouteEnable id enabled => _ ← set_sni_route_enabled id enabled; mret None
  | RouteDelete id => delete_sni_route id
  end.
Definition http_history : HttpRouteCatalog → gmap rstr HttpRoutePolicy → Prop := route_history perform_http http_enabled_as (λ request, uuid_ok (ch_client request)).
Definition sni_history : SniRouteCatalog → gmap rstr SniRoutePolicy → Prop := route_history perform_sni sni_enabled_as (λ request, uuid_ok (cn_client request)).

(** The backend of a route at run time. *)
Definition backend_of (p : HttpRoutePolicy) : GrpcBackendRuntimeTransport :=
  match hr_transport p, hr_server_name p with
  | GrpcTls, Some name => RuntimeTls {| server_name := name; trust := match hr_trust_profile p with Some profile => TrustProfile profile | None => TrustSystem end |}
  | _, _ => RuntimeH2c
  end.
Definition http_runtime_of (p : HttpRoutePolicy) : HttpRouteRuntimePolicy :=
  {| hrt_policy_id := hr_id p; hrt_max_connections := hr_max_connections p; grpc_backend := backend_of p |}.
Definition sni_runtime_of (p : SniRoutePolicy) : SniRouteRuntimePolicy :=
  {| snt_policy_id := sn_id p; snt_max_connections := sn_max_connections p; snt_bandwidth := sn_bandwidth p |}.

Definition http_wf (p : HttpRoutePolicy) : Prop :=
  uuid_ok (hr_id p) ∧ uuid_ok (hr_client p) ∧ 1 ≤ hr_max_connections p ≤ 1024 ∧
  grpc_backend_runtime (grpc_backend_transport_name (hr_transport p)) (hr_server_name p) (hr_trust_profile p) = Ok (backend_of p).
Definition sni_wf (p : SniRoutePolicy) : Prop := uuid_ok (sn_id p) ∧ uuid_ok (sn_client p) ∧ tunnel_limits_ok (sn_max_connections p) 1024 (sn_bandwidth p).
Definition http_stored (p : HttpRoutePolicy) : HttpRouteRow := http_route_row p (sql_bool (hr_enabled p)).
Definition sni_stored (p : SniRoutePolicy) : SniRouteRow := sni_route_row p (sql_bool (sn_enabled p)).
Definition http_ok := routes_ok http_stored (λ p, uuid_string (hr_id p)) hr_hostname http_wf.
Definition sni_ok := routes_ok sni_stored (λ p, uuid_string (sn_id p)) sn_hostname sni_wf.

Lemma transport_round_trip t : parse_grpc_backend_transport (grpc_backend_transport_name t) = Some t.
Proof. by destruct t. Qed.
Lemma read_http_row p : http_wf p → read_http_route_policy (uuid_string (hr_id p)) (http_stored p) = Some p.
Proof using laws.
  intros (H1 & H2 & H3 & _). unfold read_http_route_policy. cbn [http_stored http_route_row hw_client hw_max_connections hw_transport hw_enabled hw_name hw_hostname hw_target hw_server_name hw_trust_profile].
  rewrite !uuid_parse_string by done. cbn [mbind option_bind]. rewrite get_uint_ok by lia. cbn [mbind option_bind]. rewrite transport_round_trip. cbn [mbind option_bind]. rewrite sql_bool_read. by destruct p.
Qed.
Lemma read_sni_row p : sni_wf p → read_sni_route (uuid_string (sn_id p)) (sni_stored p) = Some p.
Proof using laws.
  intros (H1 & H2 & H3 & H4). unfold read_sni_route. cbn. rewrite !uuid_parse_string by done. cbn. rewrite get_uint_ok by lia. cbn. rewrite get_limit_ok by done. cbn.
  rewrite sql_bool_read. by destruct p.
Qed.
(** Settings that are accepted for a backend are accepted again when the route is used. *)
Lemma grpc_accepted request name profile : normalize_grpc_backend request = Ok (name, profile) →
  ∃ b, grpc_backend_runtime (grpc_backend_transport_name (ch_transport request)) name profile = Ok b ∧
    b = match ch_transport request, name with
        | GrpcTls, Some n => RuntimeTls {| server_name := n; trust := match profile with Some profile => TrustProfile profile | None => TrustSystem end |}
        | _, _ => RuntimeH2c
        end.
Proof.
  unfold normalize_grpc_backend, grpc_backend_runtime. rewrite transport_round_trip. destruct (ch_transport request); cbv zeta.
  - intros H. bind_as H u E. injection H as <- <-. by eexists.
  - intros H. bind_as H v E. bind_as H tp E2. injection H as <- <-. destruct (given (ch_server_name request)) as [w|]; [|done]. cbn in E.
    destruct (valid_tls_server_name w) eqn:Ev; [|done]. cbn in E. injection E as ->. cbn [mbind option_bind]. rewrite valid_tls_lower by done. cbn [ok_or mbind result_bind].
    destruct (given (ch_trust_profile request)) as [x|]; [destruct (valid_trust_profile x) eqn:Ex; [|done]|]; injection E2 as <-; [rewrite Ex|]; by eexists.
Qed.
Lemma requested_http_route_wf id enabled request p : uuid_ok id → uuid_ok (ch_client request) → requested_http_route id enabled request = Ok p →
  http_wf p ∧ hr_id p = id ∧ hr_enabled p = enabled ∧ normalize_hostname (ch_hostname request) = Some (hr_hostname p).
Proof.
  intros Hid Hc H. unfold requested_http_route in H. bind_as H host E1. bind_as H u E2. bind_as H gp E3. destruct gp as [name profile]. injection H as <-.
  destruct (grpc_accepted request name profile E3) as (b & Eb & ->). unfold validate_http_route in E2. bind_as E2 u1 F1. bind_as E2 u2 F2. bind_as E2 u3 F3. bind_as E2 u4 F4.
  apply reject_if_Ok, negb_false_iff in F4. unfold within in F4. apply andb_true_iff in F4 as [F4%Z.leb_le F5%Z.leb_le].
  destruct (normalize_hostname (ch_hostname request)) as [n|]; [|done]. cbn in E1. injection E1 as ->. split; [|done]. split_and!; cbn; try done.
Qed.
Lemma requested_sni_route_wf id enabled request p : uuid_ok id → uuid_ok (cn_client request) → requested_sni_route id enabled request = Ok p →
  sni_wf p ∧ sn_id p = id ∧ sn_enabled p = enabled.
Proof.
  intros Hid Hc H. unfold requested_sni_route in H. bind_as H host E1. bind_as H u E2. injection H as <-. unfold validate_sni_route in E2. cbv zeta in E2.
  bind_as E2 u1 F1. bind_as E2 u2 F2. bind_as E2 u3 F3. apply reject_if_Ok, negb_false_iff in F3, E2. unfold within in F3. apply andb_true_iff in F3 as [F3%Z.leb_le F4%Z.leb_le].
  split; [|done]. by split_and!.
Qed.

Lemma http_by_id_ok t h id : http_ok t h → ensures (http_route_by_id id) t (λ out t', t' = t ∧ out = Ok (h !! uuid_string id)).
Proof using laws.
  intros Hok. unfold http_route_by_id. do 2 db_step. rewrite (routes_lookup _ _ _ _ _ _ _ Hok). destruct (h !! uuid_string id) as [p|] eqn:Hp; cbn [fmap option_fmap option_map]; [|by db_step].
  destruct (ro_wf _ _ _ _ _ _ Hok _ _ Hp) as [Ek Hwf]. rewrite Ek, read_http_row by done. cbn [ok_or]. by do 3 db_step.
Qed.
Lemma sni_by_id_ok t h id : sni_ok t h → ensures (sni_route_by_id id) t (λ out t', t' = t ∧ out = Ok (h !! uuid_string id)).
Proof using laws.
  intros Hok. unfold sni_route_by_id. do 2 db_step. rewrite (routes_lookup _ _ _ _ _ _ _ Hok). destruct (h !! uuid_string id) as [p|] eqn:Hp; cbn [fmap option_fmap option_map]; [|by db_step].
  destruct (ro_wf _ _ _ _ _ _ Hok _ _ Hp) as [Ek Hwf]. rewrite Ek, read_sni_row by done. cbn [ok_or]. by do 3 db_step.
Qed.
Lemma perform_http_ok t h op : http_ok t h → route_op_ok (λ request, uuid_ok (ch_client request)) op →
  ensures (perform_http op) t (λ out t', http_ok t' (route_step http_enabled_as op out h)).
Proof using laws.
  intros Hok Hop. destruct op as [request id|id request|id enabled|id]; cbn [perform_http route_op_ok] in *.
  - destruct Hop as [Hid Hc]. unfold create_http_route. do 3 db_step. destruct (requested_http_route id true request) as [p|] eqn:Er; [|done]. do 4 db_step; [|done]. do 4 db_step; [|done]. do 4 db_step.
    destruct (requested_http_route_wf id true request p Hid Hc Er) as (Hwf & Ei & Ee & _). apply negb_true_iff in H. cbn [route_step].
    replace (http_route_row p 1) with (http_stored p) by (unfold http_stored; by rewrite Ee). apply routes_put; [done|by rewrite Ei|done|].
    intros k' p' Hp' E. by pose proof (hosted_free _ _ _ hw_hostname _ (λ _, eq_refl) _ _ _ _ Hok H k' p' Hp' E).
  - destruct Hop as [Hid Hc]. unfold update_http_route. do 2 db_step. destruct (requested_http_route id true request) as [p|] eqn:Er; [|done]. db_step.
    eapply ensures_mono; [by apply (http_by_id_ok t h)|]. cbv beta. intros out t' [-> ->]. destruct (h !! uuid_string id) as [q|] eqn:Hq; [|by db_step].
    cbv zeta. do 4 db_step; [|done]. do 4 db_step; [|done]. do 3 db_step. destruct (requested_http_route_wf id true request p Hid Hc Er) as (Hwf & Ei & _). apply negb_true_iff in H. cbn [route_step].
    rewrite (alter_known t _ (http_stored q)) by (by rewrite (routes_lookup _ _ _ _ _ _ _ Hok), Hq).
    apply (routes_put http_stored _ _ _ t h _ (http_enabled_as (hr_enabled q) p) Hok); [cbn; by rewrite Ei|done|]. intros k' p' Hp' E.
    pose proof (hosted_free _ _ _ hw_hostname _ (λ _, eq_refl) _ _ _ _ Hok H k' p' Hp' E). congruence.
  - unfold set_http_route_enabled. do 7 db_step. cbn [route_step]. by apply routes_alter.
  - unfold delete_http_route. do 7 db_step. by apply routes_delete.
Qed.
Lemma perform_sni_ok t h op : sni_ok t h → route_op_ok (λ request, uuid_ok (cn_client request)) op →
  ensures (perform_sni op) t (λ out t', sni_ok t' (route_step sni_enabled_as op out h)).
Proof using laws.
  intros Hok Hop. destruct op as [request id|id request|id enabled|id]; cbn [perform_sni route_op_ok] in *.
  - destruct Hop as [Hid Hc]. unfold create_sni_route. do 3 db_step. destruct (requested_sni_route id true request) as [p|] eqn:Er; [|done]. do 4 db_step; [|done]. do 4 db_step; [|done]. do 4 db_step.
    destruct (requested_sni_route_wf id true request p Hid Hc Er) as (Hwf & Ei & Ee). apply negb_true_iff in H. cbn [route_step].
    replace (sni_route_row p 1) with (sni_stored p) by (unfold sni_stored; by rewrite Ee). apply routes_put; [done|by rewrite Ei|done|].
    intros k' p' Hp' E. by pose proof (hosted_free _ _ _ nw_hostname _ (λ _, eq_refl) _ _ _ _ Hok H k' p' Hp' E).
  - destruct Hop as [Hid Hc]. unfold update_sni_route. do 2 db_step. destruct (requested_sni_route id true request) as [p|] eqn:Er; [|done]. db_step.
    eapply ensures_mono; [by apply (sni_by_id_ok t h)|]. cbv beta. intros out t' [-> ->]. destruct (h !! uuid_string id) as [q|] eqn:Hq; [|by db_step].
    cbv zeta. do 4 db_step; [|done]. do 4 db_step; [|done]. do 3 db_step. destruct (requested_sni_route_wf id true request p Hid Hc Er) as (Hwf & Ei & _). apply negb_true_iff in H. cbn [route_step].
    rewrite (alter_known t _ (sni_stored q)) by (by rewrite (routes_lookup _ _ _ _ _ _ _ Hok), Hq).
    apply (routes_put sni_stored _ _ _ t h _ (sni_enabled_as (sn_enabled q) p) Hok); [cbn; by rewrite Ei|done|]. intros k' p' Hp' E.
    pose proof (hosted_free _ _ _ nw_hostname _ (λ _, eq_refl) _ _ _ _ Hok H k' p' Hp' E). congruence.
  - unfold set_sni_route_enabled. do 7 db_step. cbn [route_step]. by apply routes_alter.
  - unfold delete_sni_route. db_step. eapply ensures_mono; [by apply (sni_by_id_ok t h)|]. cbv beta. intros out t' [-> ->]. db_step.
    destruct (h !! uuid_string id) as [q|] eqn:Hq.
    + rewrite bool_decide_true by by eexists. do 2 db_step. by apply routes_delete.
    + rewrite bool_decide_false by by intros []. do 2 db_step. cbn [route_step]. by rewrite delete_id.
Qed.
Lemma http_history_ok t h : http_history t h → http_ok t h.
Proof using laws. apply route_history_ind_ok; [apply routes_empty|apply perform_http_ok]. Qed.
Lemma sni_history_ok t h : sni_history t h → sni_ok t h.
Proof using laws. apply route_history_ind_ok; [apply routes_empty|apply perform_sni_ok]. Qed.

(** ** What is served *)

Definition http_policy_serves (h : gmap rstr HttpRoutePolicy) (client : Z) (name host target : rstr) (rt : HttpRouteRuntimePolicy) : Prop :=
  ∃ k p, h !! k = Some p ∧ hr_client p = client ∧ hr_name p = name ∧ hr_hostname p = host ∧ hr_target p = target ∧ hr_enabled p = true ∧ rt = http_runtime_of p.
Definition sni_policy_serves (h : gmap rstr SniRoutePolicy) (client : Z) (name host target : rstr) (rt : SniRouteRuntimePolicy) : Prop :=
  ∃ k p, h !! k = Some p ∧ sn_client p = client ∧ sn_name p = name ∧ sn_hostname p = host ∧ sn_target p = target ∧ sn_enabled p = true ∧ rt = sni_runtime_of p.

(** A query on a unique host, and the specification of what it finds. *)
Lemma found_serves {P R T : Type} (row : P → R) (key host : P → rstr) (wf : P → Prop) (t : gmap rstr R) (h : gmap rstr P)
    (f : rstr * R → bool) (sel : P → Prop) (rt : P → T) (hostname : rstr) :
  routes_ok row key host wf t h → (∀ k p, h !! k = Some p → f (k, row p) = true ↔ sel p) → (∀ p, sel p → host p = hostname) →
  match head (filter (λ x, f x = true) (map_to_list t)) with
  | Some (k, r) => ∃ p, h !! k = Some p ∧ r = row p ∧ ∀ a, Some (rt p) = Some a ↔ ∃ k p, h !! k = Some p ∧ sel p ∧ a = rt p
  | None => ∀ a, None = Some a ↔ ∃ k p, h !! k = Some p ∧ sel p ∧ a = rt p
  end.
Proof.
  intros Hok Hf Hh. pose proof (routes_found _ _ _ _ t h f Hok) as Hr. destruct (head _) as [[k r]|].
  - destruct Hr as (p & Hp & -> & Hs). apply (Hf k p Hp) in Hs. exists p. split_and!; [done..|]. intros a. split; [intros [= <-]; by exists k, p|].
    intros (k' & p' & Hp' & Hs' & ->). assert (k = k') as <- by (eapply (ro_hosts _ _ _ _ _ _ Hok); [done|done|by rewrite (Hh p Hs), (Hh p' Hs')]). congruence.
  - intros a. split; [done|]. intros (k' & p' & Hp' & Hs' & ->). apply (Hf k' p' Hp') in Hs'. rewrite (Hr k' p' Hp') in Hs'. done.
Qed.

Lemma http_lookup_exact t h (client : Z) (name hostname target host : rstr) : http_ok t h → uuid_ok client → normalize_hostname hostname = Some host →
  ∃ g, http_runtime_policy client name hostname target t = Done (Ok g, t) ∧ ∀ rt, g = Some rt ↔ http_policy_serves h client name host target rt.
Proof using laws.
  intros Hok Hc Hn. unfold http_runtime_policy, mbind, db_bind, db_lift, db_get. rewrite Hn. cbn [ok_or].
  assert (∀ k p, h !! k = Some p → http_route_for client name host target (k, http_stored p) = true ↔
            hr_client p = client ∧ hr_name p = name ∧ hr_hostname p = host ∧ hr_target p = target ∧ hr_enabled p = true) as Hf.
  { intros k p Hp. destruct (ro_wf _ _ _ _ _ _ Hok _ _ Hp) as [_ (_ & Hcl & _)]. unfold http_route_for, http_stored. cbn. rewrite !andb_true_iff, !bool_decide_eq_true.
    assert ((sql_bool (hr_enabled p) =? 1) = hr_enabled p) as -> by (by destruct (hr_enabled p)). split; [|naive_solver].
    intros ((((E & ?) & ?) & ?) & ?). apply uuid_string_inj in E; done. }
  pose proof (found_serves _ _ _ _ t h _ _ http_runtime_of host Hok Hf ltac:(naive_solver)) as H.
  destruct (head (filter (λ x, http_route_for client name host target x = true) (map_to_list t))) as [[k r]|].
  - destruct H as (p & Hp & -> & H). destruct (ro_wf _ _ _ _ _ _ Hok _ _ Hp) as [-> (Hid & _ & Hm & Hg)]. unfold http_route_runtime, within. cbn [http_stored http_route_row hw_max_connections hw_transport hw_server_name hw_trust_profile].
    rewrite (proj2 (Z.leb_le 1 _)), (proj2 (Z.leb_le _ 1024)) by lia. cbn [andb negb reject_if mbind result_bind]. rewrite uuid_parse_string by done. cbn [ok_or mbind result_bind]. rewrite Hg.
    exists (Some (http_runtime_of p)). split; [done|]. intros rt. rewrite H. unfold http_policy_serves. naive_solver.
  - exists None. split; [done|]. intros rt. rewrite H. unfold http_policy_serves. naive_solver.
Qed.
Lemma sni_lookup_exact t h (client : Z) (name hostname target host : rstr) : sni_ok t h → uuid_ok client → normalize_hostname hostname = Some host →
  ∃ g, sni_runtime_policy client name hostname target t = Done (Ok g, t) ∧ ∀ rt, g = Some rt ↔ sni_policy_serves h client name host target rt.
Proof using laws.
  intros Hok Hc Hn. unfold sni_runtime_policy, mbind, db_bind, db_lift, db_get. rewrite Hn. cbn [ok_or].
  assert (∀ k p, h !! k = Some p → sni_route_for client name host target (k, sni_stored p) = true ↔
            sn_client p = client ∧ sn_name p = name ∧ sn_hostname p = host ∧ sn_target p = target ∧ sn_enabled p = true) as Hf.
  { intros k p Hp. destruct (ro_wf _ _ _ _ _ _ Hok _ _ Hp) as [_ (_ & Hcl & _)]. unfold sni_route_for, sni_stored. cbn. rewrite !andb_true_iff, !bool_decide_eq_true.
    assert ((sql_bool (sn_enabled p) =? 1) = sn_enabled p) as -> by (by destruct (sn_enabled p)). split; [|naive_solver].
    intros ((((E & ?) & ?) & ?) & ?). apply uuid_string_inj in E; done. }
  pose proof (found_serves _ _ _ _ t h _ _ sni_runtime_of host Hok Hf ltac:(naive_solver)) as H.
  destruct (head (filter (λ x, sni_route_for client name host target x = true) (map_to_list t))) as [[k r]|].
  - destruct H as (p & Hp & -> & H). destruct (ro_wf _ _ _ _ _ _ Hok _ _ Hp) as [-> (Hid & _ & Hm & Hb)]. rewrite uuid_parse_string by done. cbn [ok_or].
    exists (Some (sni_runtime_of p)). split.
    + unfold sni_runtime_of, sni_stored, sni_route_row. cbn [nw_max_connections nw_bandwidth]. rewrite to_u64_small by lia.
      assert (to_u64 <$> sn_bandwidth p = sn_bandwidth p) as ->; [|done].
      destruct (sn_bandwidth p) as [n|]; [|done]. pose proof (bandwidth_range _ _ Hb eq_refl). cbn. by rewrite to_u64_small by lia.
    + intros rt. rewrite H. unfold sni_policy_serves. naive_solver.
  - exists None. split; [done|]. intros rt. rewrite H. unfold sni_policy_serves. naive_solver.
Qed.

Lemma hostname_exists_exact t h (hostname host : rstr) : http_ok t h → normalize_hostname hostname = Some host →
  ∃ b, enabled_hostname_exists hostname t = Done (Ok b, t) ∧ (b = true ↔ ∃ k p, h !! k = Some p ∧ hr_hostname p = host ∧ hr_enabled p = true).
Proof.
  intros Hok Hn. unfold enabled_hostname_exists, mbind, db_bind, db_lift, db_get. rewrite Hn. cbn [ok_or]. eexists. split; [done|]. unfold any. rewrite existsb_exists. split.
  - intros ([k r] & Hr%list_elem_of_In%elem_of_map_to_list & Hb). rewrite (routes_lookup _ _ _ _ _ _ _ Hok) in Hr. destruct (h !! k) as [p|] eqn:Hp; [|done]. injection Hr as <-.
    cbn in Hb. apply andb_true_iff in Hb as [E%bool_decide_eq_true He]. exists k, p. split_and!; [done|done|]. by destruct (hr_enabled p).
  - intros (k & p & Hp & <- & He). exists (k, http_stored p). split; [apply list_elem_of_In, elem_of_map_to_list; by rewrite (routes_lookup _ _ _ _ _ _ _ Hok), Hp|].
    cbn. by rewrite bool_decide_true, He.
Qed.

(** ** Requests *)

Definition http_demands : HttpRouteCatalog → gmap rstr (CreateHttpRoutePolicy * bool) → Prop := demand_history perform_http (λ request, uuid_ok (ch_client request)).
Definition sni_demands : SniRouteCatalog → gmap rstr (CreateSniRoutePolicy * bool) → Prop := demand_history perform_sni (λ request, uuid_ok (cn_client request)).

(** The backend that a request asks for. *)
Definition requested_backend (q : CreateHttpRoutePolicy) : GrpcBackendRuntimeTransport :=
  match ch_transport q with
  | H2c => RuntimeH2c
  | GrpcTls => RuntimeTls {| server_name := to_ascii_lowercase (trim (default [] (ch_server_name q)));
                             trust := match trim (default [] (ch_trust_profile q)) with [] => TrustSystem | profile => TrustProfile profile end |}
  end.
(** Two spellings of one host. *)
Definition same_host (a b : rstr) : Prop := ∃ host, normalize_hostname a = Some host ∧ normalize_hostname b = Some host.
(** The enabled route of this client, name and target for a spelling of this host, as it was asked for. *)
Definition http_serves (d : gmap rstr (CreateHttpRoutePolicy * bool)) (client : Z) (name hostname target : rstr) (rt : HttpRouteRuntimePolicy) : Prop :=
  ∃ q, uuid_ok (hrt_policy_id rt) ∧ d !! uuid_string (hrt_policy_id rt) = Some (q, true) ∧ ch_client q = client ∧ trim (ch_name q) = name ∧
    same_host (ch_hostname q) hostname ∧ trim (ch_target q) = target ∧
    hrt_max_connections rt = default 64 (ch_max_connections q) ∧ grpc_backend rt = requested_backend q.
Definition sni_serves (d : gmap rstr (CreateSniRoutePolicy * bool)) (client : Z) (name hostname target : rstr) (rt : SniRouteRuntimePolicy) : Prop :=
  ∃ q, uuid_ok (snt_policy_id rt) ∧ d !! uuid_string (snt_policy_id rt) = Some (q, true) ∧ cn_client q = client ∧ trim (cn_name q) = name ∧
    same_host (cn_hostname q) hostname ∧ trim (cn_target q) = target ∧
    snt_max_connections rt = default 64 (cn_max_connections q) ∧ snt_bandwidth rt = cn_bandwidth q.

(** What a stored policy has of its request. *)
Lemma requested_http_fields id b q p : requested_http_route id b q = Ok p →
  hr_id p = id ∧ hr_client p = ch_client q ∧ hr_name p = trim (ch_name q) ∧ normalize_hostname (ch_hostname q) = Some (hr_hostname p) ∧ hr_target p = trim (ch_target q) ∧
  hr_max_connections p = default 64 (ch_max_connections q) ∧ hr_enabled p = b ∧ backend_of p = requested_backend q.
Proof.
  intros H. unfold requested_http_route in H. bind_as H host E1. bind_as H u E2. bind_as H gp E3. destruct gp as [name profile]. injection H as <-. cbn.
  destruct (normalize_hostname (ch_hostname q)) as [n|]; [|done]. cbn in E1. injection E1 as ->. split_and!; try done.
  unfold backend_of, requested_backend. cbn. unfold normalize_grpc_backend in E3. cbv zeta in E3. destruct (ch_transport q).
  - bind_as E3 u' E4. by injection E3 as <- <-.
  - bind_as E3 v E4. bind_as E3 tp E5. injection E3 as <- <-. unfold given in *. destruct (ch_server_name q) as [sv|]; [|done]. cbn [mbind option_bind default] in *.
    destruct (bool_decide (trim sv = [])); [done|]. cbn [mbind option_bind] in E4. destruct (valid_tls_server_name (trim sv)); [|done]. cbn in E4. injection E4 as <-. do 2 f_equal.
    destruct (ch_trust_profile q) as [tv|]; cbn in E5 |- *; [change (rev (trim_start (rev (trim_start tv)))) with (trim tv)|by injection E5 as <-].
    destruct (bool_decide (trim tv = [])) eqn:Et; [apply bool_decide_eq_true in Et; rewrite Et; by injection E5 as <-|].
    apply bool_decide_eq_false in Et. destruct (valid_trust_profile (trim tv)); [|done]. injection E5 as <-. by destruct (trim tv).
Qed.
Lemma requested_sni_fields id b q p : requested_sni_route id b q = Ok p →
  sn_id p = id ∧ sn_client p = cn_client q ∧ sn_name p = trim (cn_name q) ∧ normalize_hostname (cn_hostname q) = Some (sn_hostname p) ∧ sn_target p = trim (cn_target q) ∧
  sn_max_connections p = default 64 (cn_max_connections q) ∧ sn_enabled p = b ∧ sn_bandwidth p = cn_bandwidth q.
Proof.
  intros H. unfold requested_sni_route in H. bind_as H host E1. bind_as H u E2. injection H as <-. cbn.
  destruct (normalize_hostname (cn_hostname q)) as [n|]; [|done]. cbn in E1. by injection E1 as ->.
Qed.
Lemma http_enabled_request id b b' q p : requested_http_route id b q = Ok p → requested_http_route id b' q = Ok (http_enabled_as b' p).
Proof.
  unfold requested_http_route. intros H. bind_as H host E1. bind_as H u E2. bind_as H gp E3. destruct gp as [name profile]. injection H as <-. cbn [mbind result_bind].
  by rewrite E2.
Qed.
Lemma sni_enabled_request id b b' q p : requested_sni_route id b q = Ok p → requested_sni_route id b' q = Ok (sni_enabled_as b' p).
Proof.
  unfold requested_sni_route. intros H. bind_as H host E1. bind_as H u E2. by injection H as <-.
Qed.
Lemma http_demand_policies t d : http_demands t d →
  ∃ h, http_ok t h ∧ ∀ k, demanded (λ q, uuid_ok (ch_client q)) requested_http_route (d !! k) k (h !! k).
Proof using laws.
  intros Hd. destruct (demand_history_policies perform_http http_enabled_as (λ q, uuid_ok (ch_client q)) requested_http_route hr_enabled) with (t := t) (d := d) as (h & Hh & Hk); [| |done|].
  - intros t0 h op out t1 Hh Hop E. apply http_history_ok in Hh. destruct op as [request id|id request|id b|id]; [..|done|done];
      refine (ensures_eq _ _ _ _ (λ out _, answers requested_http_route hr_enabled _ out h) E _); cbn [perform_http answers].
    + unfold create_http_route. do 3 db_step. destruct (requested_http_route id true request) as [p|] eqn:Er; [|done]. do 4 db_step; [|done]. do 4 db_step; [|done]. by do 4 db_step.
    + unfold update_http_route. do 2 db_step. destruct (requested_http_route id true request) as [p|] eqn:Er; [|done]. db_step.
      eapply ensures_mono; [by apply (http_by_id_ok t0 h)|]. cbv beta. intros out' t' [-> ->]. destruct (h !! uuid_string id) as [q|] eqn:Hq; [|by db_step].
      cbv zeta. do 4 db_step; [|done]. do 4 db_step; [|done]. do 3 db_step. exists q. split; [done|]. by eapply http_enabled_request.
  - intros id b b' q p Hr. split; [by apply requested_http_fields in Hr as (_ & _ & _ & _ & _ & _ & ? & _)|by eapply http_enabled_request].
  - exists h. split; [by apply http_history_ok|done].
Qed.
Lemma sni_demand_policies t d : sni_demands t d →
  ∃ h, sni_ok t h ∧ ∀ k, demanded (λ q, uuid_ok (cn_client q)) requested_sni_route (d !! k) k (h !! k).
Proof using laws.
  intros Hd. destruct (demand_history_policies perform_sni sni_enabled_as (λ q, uuid_ok (cn_client q)) requested_sni_route sn_enabled) with (t := t) (d := d) as (h & Hh & Hk); [| |done|].
  - intros t0 h op out t1 Hh Hop E. apply sni_history_ok in Hh. destruct op as [request id|id request|id b|id]; [..|done|done];
      refine (ensures_eq _ _ _ _ (λ out _, answers requested_sni_route sn_enabled _ out h) E _); cbn [perform_sni answers].
    + unfold create_sni_route. do 3 db_step. destruct (requested_sni_route id true request) as [p|] eqn:Er; [|done]. do 4 db_step; [|done]. do 4 db_step; [|done]. by do 4 db_step.
    + unfold update_sni_route. do 2 db_step. destruct (requested_sni_route id true request) as [p|] eqn:Er; [|done]. db_step.
      eapply ensures_mono; [by apply (sni_by_id_ok t0 h)|]. cbv beta. intros out' t' [-> ->]. destruct (h !! uuid_string id) as [q|] eqn:Hq; [|by db_step].
      cbv zeta. do 4 db_step; [|done]. do 4 db_step; [|done]. do 3 db_step. exists q. split; [done|]. by eapply sni_enabled_request.
  - intros id b b' q p Hr. split; [by apply requested_sni_fields in Hr as (_ & _ & _ & _ & _ & _ & ? & _)|by eapply sni_enabled_request].
  - exists h. split; [by apply sni_history_ok|done].
Qed.

(** The policies of both sides of a lookup. *)
Lemma demanded_some {Q P E} (request_ok : Q → Prop) (requested : Z → bool → Q → result E P) (d : gmap rstr (Q * bool)) (h : gmap rstr P) (k : rstr) q b :
  (∀ k, demanded request_ok requested (d !! k) k (h !! k)) → d !! k = Some (q, b) →
  ∃ id p, uuid_ok id ∧ k = uuid_string id ∧ h !! k = Some p ∧ requested id b q = Ok p.
Proof using Type. intros Hk Hd. specialize (Hk k). rewrite Hd in Hk. destruct (h !! k) as [p|]; [|done]. destruct Hk as (id & ? & _ & ? & ?). by exists id, p. Qed.
Lemma demanded_policy {Q P E} (request_ok : Q → Prop) (requested : Z → bool → Q → result E P) (d : gmap rstr (Q * bool)) (h : gmap rstr P) (k : rstr) p :
  (∀ k, demanded request_ok requested (d !! k) k (h !! k)) → h !! k = Some p →
  ∃ id q b, uuid_ok id ∧ k = uuid_string id ∧ d !! k = Some (q, b) ∧ requested id b q = Ok p.
Proof using Type. intros Hk Hh. specialize (Hk k). rewrite Hh in Hk. destruct (d !! k) as [[q b]|]; [|done]. destruct Hk as (id & ? & _ & ? & ?). by exists id, q, b. Qed.

Lemma http_serves_iff (d : gmap rstr (CreateHttpRoutePolicy * bool)) (h : gmap rstr HttpRoutePolicy) (client : Z) (name hostname target host : rstr) rt : (∀ k, demanded (λ q, uuid_ok (ch_client q)) requested_http_route (d !! k) k (h !! k)) →
  normalize_hostname hostname = Some host → http_policy_serves h client name host target rt ↔ http_serves d client name hostname target rt.
Proof using laws.
  intros Hk Hn. split.
  - intros (k & p & Hp & <- & <- & <- & <- & He & ->). destruct (demanded_policy _ _ _ _ _ _ Hk Hp) as (id & q & b & Hid & -> & Hq & Hr).
    destruct (requested_http_fields _ _ _ _ Hr) as (<- & ? & ? & ? & ? & ? & <- & ?). rewrite He in Hq. exists q. split_and!; try done. by exists (hr_hostname p).
  - intros (q & Hid & Hq & <- & <- & (host' & H1 & H2) & <- & Hm & Hb). destruct (demanded_some _ _ _ _ _ _ _ Hk Hq) as (id & p & Hid' & E & Hp & Hr).
    apply uuid_string_inj in E; [|done..]. destruct (requested_http_fields _ _ _ _ Hr) as (F1 & ? & ? & F4 & ? & F6 & ? & F8).
    exists (uuid_string (hrt_policy_id rt)), p. split_and!; try done; [congruence|]. destruct rt. unfold http_runtime_of. cbn in *. congruence.
Qed.
Lemma sni_serves_iff (d : gmap rstr (CreateSniRoutePolicy * bool)) (h : gmap rstr SniRoutePolicy) (client : Z) (name hostname target host : rstr) rt : (∀ k, demanded (λ q, uuid_ok (cn_client q)) requested_sni_route (d !! k) k (h !! k)) →
  normalize_hostname hostname = Some host → sni_policy_serves h client name host target rt ↔ sni_serves d client name hostname target rt.
Proof using laws.
  intros Hk Hn. split.
  - intros (k & p & Hp & <- & <- & <- & <- & He & ->). destruct (demanded_policy _ _ _ _ _ _ Hk Hp) as (id & q & b & Hid & -> & Hq & Hr).
    destruct (requested_sni_fields _ _ _ _ Hr) as (<- & ? & ? & ? & ? & ? & <- & ?). rewrite He in Hq. exists q. split_and!; try done. by exists (sn_hostname p).
  - intros (q & Hid & Hq & <- & <- & (host' & H1 & H2) & <- & Hm & Hb). destruct (demanded_some _ _ _ _ _ _ _ Hk Hq) as (id & p & Hid' & E & Hp & Hr).
    apply uuid_string_inj in E; [|done..]. destruct (requested_sni_fields _ _ _ _ Hr) as (F1 & ? & ? & F4 & ? & F6 & ? & F8).
    exists (uuid_string (snt_policy_id rt)), p. split_and!; try done; [congruence|]. destruct rt. unfold sni_runtime_of. cbn in *. congruence.
Qed.

(** ** Theorem *)

(** C30. Routes are served as they were asked for. After any history of operations, requests in force that spell the same host, in whatever
    letter case and with a port or a final dot or not, belong to one HTTP route, and so for SNI routes. The lookup of the data plane, for any spelling
    of a host, fails only when that has no normal form, changes nothing, and grants a policy if and only if an enabled route was asked for with
    this client, name, target and a spelling of this host, with the limits and the backend of that request; and whether an enabled HTTP route has a
    host is answered right. In particular a backend that was accepted for a route is never refused when the route is used. *)
Theorem routes_served_exactly (t : HttpRouteCatalog) (d : gmap rstr (CreateHttpRoutePolicy * bool)) (u : SniRouteCatalog) (e : gmap rstr (CreateSniRoutePolicy * bool))
    (client : Z) (name hostname target : rstr) :
  http_demands t d → sni_demands u e → uuid_ok client →
  (∀ k k' x x', d !! k = Some x → d !! k' = Some x' → same_host (ch_hostname x.1) (ch_hostname x'.1) → k = k') ∧
  (∀ k k' x x', e !! k = Some x → e !! k' = Some x' → same_host (cn_hostname x.1) (cn_hostname x'.1) → k = k') ∧
  match normalize_hostname hostname with
  | None => http_runtime_policy client name hostname target t = Done (Err RouteInvalidHostname, t) ∧
            sni_runtime_policy client name hostname target u = Done (Err SniInvalidHostname, u)
  | Some _ =>
      (∃ found, http_runtime_policy client name hostname target t = Done (Ok found, t) ∧ ∀ rt, found = Some rt ↔ http_serves d client name hostname target rt) ∧
      (∃ found, sni_runtime_policy client name hostname target u = Done (Ok found, u) ∧ ∀ rt, found = Some rt ↔ sni_serves e client name hostname target rt) ∧
      (∃ b, enabled_hostname_exists hostname t = Done (Ok b, t) ∧ (b = true ↔ ∃ k q, d !! k = Some (q, true) ∧ same_host (ch_hostname q) hostname))
  end.
Proof using laws.
  intros (h & Hh & Hk)%http_demand_policies (g & Hs & Hl)%sni_demand_policies Hc. split_and!.
  - intros k k' [q b] [q' b'] Hq Hq' (host & E & E'). cbn in *.
    destruct (demanded_some _ _ _ _ _ _ _ Hk Hq) as (id & p & _ & _ & Hp & (_ & _ & _ & F & _)%requested_http_fields).
    destruct (demanded_some _ _ _ _ _ _ _ Hk Hq') as (id' & p' & _ & _ & Hp' & (_ & _ & _ & F' & _)%requested_http_fields).
    eapply (ro_hosts _ _ _ _ _ _ Hh); [done|done|]. congruence.
  - intros k k' [q b] [q' b'] Hq Hq' (host & E & E'). cbn in *.
    destruct (demanded_some _ _ _ _ _ _ _ Hl Hq) as (id & p & _ & _ & Hp & (_ & _ & _ & F & _)%requested_sni_fields).
    destruct (demanded_some _ _ _ _ _ _ _ Hl Hq') as (id' & p' & _ & _ & Hp' & (_ & _ & _ & F' & _)%requested_sni_fields).
    eapply (ro_hosts _ _ _ _ _ _ Hs); [done|done|]. congruence.
  - destruct (normalize_hostname hostname) as [host|] eqn:Hn; [|unfold http_runtime_policy, sni_runtime_policy, mbind, db_bind, db_lift; by rewrite Hn]. split_and!.
    + destruct (http_lookup_exact t h client name hostname target host Hh Hc Hn) as (found & E & H). exists found. split; [done|]. intros rt. rewrite H. by apply http_serves_iff.
    + destruct (sni_lookup_exact u g client name hostname target host Hs Hc Hn) as (found & E & H). exists found. split; [done|]. intros rt. rewrite H. by apply sni_serves_iff.
    + destruct (hostname_exists_exact t h hostname host Hh Hn) as (b & E & H). exists b. split; [done|]. rewrite H. split.
      * intros (k & p & Hp & <- & He). destruct (demanded_policy _ _ _ _ _ _ Hk Hp) as (id & q & b' & _ & _ & Hq & (_ & _ & _ & F & _ & _ & Fe & _)%requested_http_fields).
        exists k, q. split; [congruence|]. by exists (hr_hostname p).
      * intros (k & q & Hq & (host' & E1 & E2)). destruct (demanded_some _ _ _ _ _ _ _ Hk Hq) as (id & p & _ & _ & Hp & (_ & _ & _ & F & _ & _ & Fe & _)%requested_http_fields).
        exists k, p. split_and!; [done|congruence|done].
Qed.
End http.

(** ** Witnesses *)

Definition sample_http_route : CreateHttpRoutePolicy :=
  {| ch_client := 3; ch_name := lit "api"; ch_hostname := lit "API.Example.com:443"; ch_target := lit "127.0.0.1:8080"; ch_max_connections := None;
     ch_transport := GrpcTls; ch_server_name := Some (lit "Backend.Internal"); ch_trust_profile := Some (lit "corp") |}.
Definition sample_http_routes : HttpRouteCatalog * gmap rstr (CreateHttpRoutePolicy * bool) :=
  match perform_http (plat := sample_platform) (RouteCreate sample_http_route 5) ∅ with
  | Done (out, t) => (t, demand_step (plat := sample_platform) (RouteCreate sample_http_route 5) out ∅)
  | Panic => (∅, ∅)
  end.
Lemma sample_http_demands : http_demands (plat := sample_platform) sample_http_routes.1 sample_http_routes.2.
Proof.
  unfold sample_http_routes. destruct (perform_http (plat := sample_platform) (RouteCreate sample_http_route 5) ∅) as [[out t]|] eqn:E; [|vm_compute in E; discriminate].
  eapply demands_call; [apply demands_none| |exact E]. split; split; vm_compute; discriminate.
Qed.
Lemma routes_served_exactly_witness :
  ∃ rt, http_runtime_policy (plat := sample_platform) 3 (lit "api") (lit " api.example.com. ") (lit "127.0.0.1:8080") sample_http_routes.1 = Done (Ok (Some rt), sample_http_routes.1) ∧
    grpc_backend rt = RuntimeTls {| server_name := lit "backend.internal"; trust := TrustProfile (lit "corp") |} ∧
    http_serves (plat := sample_platform) sample_http_routes.2 3 (lit "api") (lit " api.example.com. ") (lit "127.0.0.1:8080") rt.
Proof.
  destruct (routes_served_exactly (laws := sample_laws) sample_http_routes.1 sample_http_routes.2 ∅ ∅ 3 (lit "api") (lit " api.example.com. ") (lit "127.0.0.1:8080")
              sample_http_demands (demands_none _ _)) as (_ & _ & H); [split; vm_compute; discriminate|].
  assert (normalize_hostname (lit " api.example.com. ") = Some (lit "api.example.com")) as En by (vm_compute; reflexivity). rewrite En in H. destruct H as ((found & E & H) & _).
  assert (∃ rt t, http_runtime_policy (plat := sample_platform) 3 (lit "api") (lit " api.example.com. ") (lit "127.0.0.1:8080") sample_http_routes.1 = Done (Ok (Some rt), t) ∧
            grpc_backend rt = RuntimeTls {| server_name := lit "backend.internal"; trust := TrustProfile (lit "corp") |}) as (rt & t & E' & Hb) by (eexists _, _; split; vm_compute; reflexivity).
  destruct found as [x|]; [|rewrite E in E'; inversion E']. assert (x = rt) as -> by (rewrite E in E'; by inversion E').
  exists rt. split; [exact E|]. split; [exact Hb|]. by apply H.
Defined.
