(* ===== verification/FleetTables.v ===== *)
(** * Peers of the fleet: data, validation and tables ([fleet.rs], [fleet_health.rs])

    The servers of a fleet, what is known of their health and the DNS records that are moved
    between them. The tables are those of [FleetCatalog] and [FleetHealthCatalog], with the
    coordination tables of [HaTables] in the same SQLite file. A column of ids holds a [Uuid] and
    a column of flags 0 or 1, as every statement writes them; the texts of enumerations and
    integers that are read into narrower types are converted as the code does.

    The environment and the parser of URIs are parameters ([FleetEnv]). *)

From S2P Require Import Prelude DbMonad RustStr RustText NetAddr HaTables HaCoordination JobLeases P2pProtocol AdminAuth TunnelTables TunnelCatalog.
Local Open Scope Z_scope.
Set Default Proof Using "Type".

(** ** Constants *)

Definition DEFAULT_SUCCESS_THRESHOLD : Z := 2.
Definition DEFAULT_FAILURE_THRESHOLD : Z := 3.
Definition DEFAULT_HEALTH_COOLDOWN_SECONDS : Z := 30.
Definition DNS_OPERATION_LEASE_SECONDS : Z := 30.
Definition DNS_PROVIDER_DRIFT : rstr := lit "provider DNS record differs from the committed target".
Definition MAX_ERROR_SUMMARY_CHARS : Z := 320.
Definition MAX_PROBE_EVENTS_PER_PEER : Z := 16384.

(** ** Peers *)

Record UpsertFleetPeer := {
  up_name : rstr; up_url : rstr; up_region : rstr; up_weight : Z; up_priority : Z; up_token_env : rstr; up_enabled : bool;
}.
Record FleetPeer := {
  fp_id : Z; fp_name : rstr; fp_url : rstr; fp_region : rstr; fp_weight : Z; fp_priority : Z; fp_token_env : rstr;
  fp_token_configured : bool; fp_enabled : bool; fp_created : Z; fp_updated : Z;
}.
Record PeerRow := {
  pe_name : rstr; pe_url : rstr; pe_region : rstr; pe_weight : Z; pe_priority : Z; pe_token_env : rstr; pe_enabled : bool;
  pe_created : Z; pe_updated : Z;
}.

(** ** Health *)

Inductive FleetHealthState := Unknown | Healthy | Degraded | Unhealthy | Recovering.
Global Instance FleetHealthState_eq_dec : EqDecision FleetHealthState.
Proof. solve_decision. Defined.

Definition health_as_str (self : FleetHealthState) : rstr :=
  match self with
  | Unknown => lit "unknown" | Healthy => lit "healthy" | Degraded => lit "degraded"
  | Unhealthy => lit "unhealthy" | Recovering => lit "recovering"
  end.
Definition health_parse (value : rstr) : option FleetHealthState :=
  if bool_decide (value = lit "unknown") then Some Unknown
  else if bool_decide (value = lit "healthy") then Some Healthy
  else if bool_decide (value = lit "degraded") then Some Degraded
  else if bool_decide (value = lit "unhealthy") then Some Unhealthy
  else if bool_decide (value = lit "recovering") then Some Recovering
  else None.

Record UpdateFleetHealthConfig := { uh_success_threshold : Z; uh_failure_threshold : Z; uh_cooldown_seconds : Z }.
Record FleetHealthConfig := { hc_peer : Z; hc_success_threshold : Z; hc_failure_threshold : Z; hc_cooldown_seconds : Z; hc_updated : Z }.
Record FleetPeerHealth := {
  ph_peer : Z; ph_state : FleetHealthState; ph_successes : Z; ph_failures : Z;
  ph_last_probe : option Z; ph_last_success : option Z; ph_last_failure : option Z; ph_last_latency : option Z;
  ph_last_error : option rstr; ph_state_changed : Z; ph_cooldown_until : Z; ph_reason : rstr; ph_revision : Z;
  ph_active_connections : Z; ph_bytes_total : Z; ph_clients : Z; ph_policies : Z;
}.
Definition dns_eligible (self : FleetPeerHealth) (enabled : bool) (now : Z) : bool :=
  enabled && bool_decide (ph_state self = Healthy) && (ph_cooldown_until self <=? now).
Record FleetHealthSnapshot := { sn_config : FleetHealthConfig; sn_health : FleetPeerHealth }.
Record FleetProbeObservation := {
  ob_event : Z; ob_observed : Z; ob_success : bool; ob_latency : option Z; ob_error : option rstr;
  ob_active_connections : Z; ob_bytes_total : Z; ob_clients : Z; ob_policies : Z;
}.
Record FleetProbeResult := {
  pr_peer : Z; pr_accepted : bool; pr_duplicate : bool; pr_previous : FleetHealthState; pr_health : FleetPeerHealth; pr_reason : rstr;
}.

Record ConfigRow := { cf_success_threshold : Z; cf_failure_threshold : Z; cf_cooldown_seconds : Z; cf_updated : Z }.
Record StateRow := {
  st_state : rstr; st_successes : Z; st_failures : Z;
  st_last_probe : option Z; st_last_success : option Z; st_last_failure : option Z; st_last_latency : option Z;
  st_last_error : option rstr; st_state_changed : Z; st_cooldown_until : Z; st_reason : rstr; st_revision : Z;
  st_active_connections : Z; st_bytes_total : Z; st_clients : Z; st_policies : Z;
}.
Record ProbeRow := {
  pb_event : Z; pb_peer : Z; pb_observed : Z; pb_success : bool; pb_accepted : bool; pb_latency : option Z;
  pb_error : option rstr; pb_previous : rstr; pb_resulting : rstr; pb_reason : rstr;
}.

(** ** DNS records *)

Inductive FleetDnsRecordType := RecordA | RecordAaaa | RecordCname.
Global Instance FleetDnsRecordType_eq_dec : EqDecision FleetDnsRecordType.
Proof. solve_decision. Defined.
Definition record_as_str (self : FleetDnsRecordType) : rstr :=
  match self with RecordA => lit "A" | RecordAaaa => lit "AAAA" | RecordCname => lit "CNAME" end.
Definition record_parse (value : rstr) : option FleetDnsRecordType :=
  if bool_decide (value = lit "A") then Some RecordA
  else if bool_decide (value = lit "AAAA") then Some RecordAaaa
  else if bool_decide (value = lit "CNAME") then Some RecordCname
  else None.

Record FleetDnsPeerTarget := { dt_peer : Z; dt_value : rstr }.
Record UpsertFleetDnsFailover := {
  ud_name : rstr; ud_hostname : rstr; ud_record_type : FleetDnsRecordType; ud_zone : rstr; ud_record : rstr; ud_token_env : rstr;
  ud_ttl : Z; ud_proxied : bool; ud_enabled : bool; ud_cooldown : Z; ud_targets : list FleetDnsPeerTarget;
}.
(** The columns [pending_operation_id] to [pending_lease_until_unix_seconds]. *)
Record Pending := {
  pd_operation : option Z; pd_peer : option Z; pd_target : option rstr; pd_reason : option rstr; pd_started : option Z; pd_lease_until : option Z;
}.
Definition no_pending : Pending :=
  {| pd_operation := None; pd_peer := None; pd_target := None; pd_reason := None; pd_started := None; pd_lease_until := None |}.
Record FleetDnsFailover := {
  fo_id : Z; fo_name : rstr; fo_hostname : rstr; fo_record_type : FleetDnsRecordType; fo_zone : rstr; fo_record : rstr;
  fo_token_env : rstr; fo_token_configured : bool; fo_ttl : Z; fo_proxied : bool; fo_enabled : bool; fo_reconcile : bool;
  fo_cooldown : Z; fo_frozen : bool; fo_freeze_reason : option rstr; fo_current_peer : option Z; fo_current_target : option rstr;
  fo_last_switch : option Z; fo_not_before : Z; fo_last_switch_reason : option rstr; fo_last_error : option rstr;
  fo_pending : Pending; fo_targets : list FleetDnsPeerTarget; fo_created : Z; fo_updated : Z;
}.
Record FleetDnsChangePlan := {
  pl_operation : Z; pl_lease_until : Z; pl_failover : Z; pl_failover_name : rstr; pl_hostname : rstr; pl_record_type : FleetDnsRecordType;
  pl_zone : rstr; pl_record : rstr; pl_token_env : rstr; pl_ttl : Z; pl_proxied : bool; pl_peer : Z; pl_peer_name : rstr;
  pl_target : rstr; pl_reason : rstr;
}.
Record FleetDnsChangeResult := {
  cr_operation : Z; cr_failover : Z; cr_peer : Z; cr_target : rstr; cr_reason : rstr; cr_applied : bool; cr_duplicate : bool; cr_error : option rstr;
}.
Record FleetDnsSwitchEvent := {
  se_operation : Z; se_failover : Z; se_peer : Z; se_target : rstr; se_reason : rstr; se_applied : bool; se_error : option rstr; se_completed : Z;
}.

Record FailoverRow := {
  fr_name : rstr; fr_hostname : rstr; fr_record_type : rstr; fr_zone : rstr; fr_record : rstr; fr_token_env : rstr; fr_ttl : Z;
  fr_proxied : bool; fr_enabled : bool; fr_reconcile : bool; fr_cooldown : Z; fr_frozen : bool; fr_freeze_reason : option rstr;
  fr_current_peer : option Z; fr_current_target : option rstr; fr_last_switch : option Z; fr_not_before : Z;
  fr_last_switch_reason : option rstr; fr_last_error : option rstr; fr_pending : Pending; fr_created : Z; fr_updated : Z;
}.
Record SwitchRow := {
  sw_failover : Z; sw_peer : Z; sw_target : rstr; sw_reason : rstr; sw_applied : bool; sw_error : option rstr; sw_completed : Z;
}.

(** ** Tables *)

(** [probe_events] is in the order of [rowid]. *)
Record FleetDb := {
  fleet_peers : gmap Z PeerRow;
  health_config : gmap Z ConfigRow;
  health_state : gmap Z StateRow;
  probe_events : list ProbeRow;
  health_counters : gmap rstr Z;
  dns_failovers : gmap Z FailoverRow;
  dns_targets : gmap (Z * Z) rstr;
  switch_events : gmap Z SwitchRow;
  coordination : Database;
}.
Definition set_peers f (s : FleetDb) : FleetDb :=
  {| fleet_peers := f (fleet_peers s); health_config := health_config s; health_state := health_state s; probe_events := probe_events s;
     health_counters := health_counters s; dns_failovers := dns_failovers s; dns_targets := dns_targets s; switch_events := switch_events s; coordination := coordination s |}.
Definition set_config f (s : FleetDb) : FleetDb :=
  {| fleet_peers := fleet_peers s; health_config := f (health_config s); health_state := health_state s; probe_events := probe_events s;
     health_counters := health_counters s; dns_failovers := dns_failovers s; dns_targets := dns_targets s; switch_events := switch_events s; coordination := coordination s |}.
Definition set_state f (s : FleetDb) : FleetDb :=
  {| fleet_peers := fleet_peers s; health_config := health_config s; health_state := f (health_state s); probe_events := probe_events s;
     health_counters := health_counters s; dns_failovers := dns_failovers s; dns_targets := dns_targets s; switch_events := switch_events s; coordination := coordination s |}.
Definition set_probes f (s : FleetDb) : FleetDb :=
  {| fleet_peers := fleet_peers s; health_config := health_config s; health_state := health_state s; probe_events := f (probe_events s);
     health_counters := health_counters s; dns_failovers := dns_failovers s; dns_targets := dns_targets s; switch_events := switch_events s; coordination := coordination s |}.
Definition set_counters f (s : FleetDb) : FleetDb :=
  {| fleet_peers := fleet_peers s; health_config := health_config s; health_state := health_state s; probe_events := probe_events s;
     health_counters := f (health_counters s); dns_failovers := dns_failovers s; dns_targets := dns_targets s; switch_events := switch_events s; coordination := coordination s |}.
Definition set_failovers f (s : FleetDb) : FleetDb :=
  {| fleet_peers := fleet_peers s; health_config := health_config s; health_state := health_state s; probe_events := probe_events s;
     health_counters := health_counters s; dns_failovers := f (dns_failovers s); dns_targets := dns_targets s; switch_events := switch_events s; coordination := coordination s |}.
Definition set_targets f (s : FleetDb) : FleetDb :=
  {| fleet_peers := fleet_peers s; health_config := health_config s; health_state := health_state s; probe_events := probe_events s;
     health_counters := health_counters s; dns_failovers := dns_failovers s; dns_targets := f (dns_targets s); switch_events := switch_events s; coordination := coordination s |}.
Definition set_switches f (s : FleetDb) : FleetDb :=
  {| fleet_peers := fleet_peers s; health_config := health_config s; health_state := health_state s; probe_events := probe_events s;
     health_counters := health_counters s; dns_failovers := dns_failovers s; dns_targets := dns_targets s; switch_events := f (switch_events s); coordination := coordination s |}.
Definition set_coordination (d : Database) (s : FleetDb) : FleetDb :=
  {| fleet_peers := fleet_peers s; health_config := health_config s; health_state := health_state s; probe_events := probe_events s;
     health_counters := health_counters s; dns_failovers := dns_failovers s; dns_targets := dns_targets s; switch_events := switch_events s; coordination := d |}.

Inductive FleetError :=
  | PeerNameInvalid | PeerRegionInvalid | PeerWeightInvalid | PeerPriorityInvalid | PeerTokenEnvInvalid | PeerUrlInvalid
  | PeerMissing | PeerDisappeared | EventConflicts
  | SuccessThresholdRange | FailureThresholdRange | HealthCooldownRange
  | DnsNameInvalid | DnsHostnameInvalid | DnsZoneInvalid | DnsRecordInvalid | DnsTokenEnvInvalid | DnsTtlInvalid | DnsCooldownInvalid
  | DnsTargetsRequired | DnsTargetPeerMissing | DnsTargetPeerDuplicated | DnsTargetInvalid
  | DnsFailoverMissing | DnsPending | DnsRecordAssigned | DnsFreezeReasonRequired | DnsReservationConflicted
  | DnsOperationStale | DnsLeaseMismatch | DnsTimeInsufficient | DnsTargetUnfit
  | LeaseRefused (e : CoordError)
  | FleetDatabase.
Abbreviation fleet_db := (db FleetError FleetDb).

(** ** Texts *)

(** [trim_end_matches(c)]. *)
Fixpoint drop_char (c : Z) (s : rstr) : rstr := match s with d :: t => if d =? c then drop_char c t else s | [] => [] end.
Definition trim_end_matches (c : Z) (s : rstr) : rstr := rev (drop_char c (rev s)).
Definition is_ascii_uppercase (c : Z) : bool := is_ascii_upper c.
Definition has_prefix (p s : rstr) : bool := bool_decide (is_Some (strip_prefix p s)).
Definition has_suffix (p s : rstr) : bool := has_prefix (rev p) (rev s).

(** The loop of [summarize_error]: [count] characters are in [output], reversed. *)
Fixpoint summarize_loop (count : Z) (output s : rstr) : rstr :=
  match s with
  | [] => output
  | c :: s =>
      if MAX_ERROR_SUMMARY_CHARS <=? count then output
      else if is_control c then
        match output with
        | 32 :: _ => summarize_loop count output s
        | _ => summarize_loop (count + 1) (32 :: output) s
        end
      else summarize_loop (count + 1) (c :: output) s
  end.
Definition summarize_error (value : rstr) : rstr := trim (rev (summarize_loop 0 [] value)).

Definition secret_byte (c : Z) : bool := is_ascii_uppercase c || is_ascii_digit c || (c =? 95).
Definition valid_provider_id (value : rstr) : bool := (str_len value =? 32) && all is_ascii_hexdigit (as_bytes value).
Definition valid_secret_env (value : rstr) : bool :=
  has_prefix (lit "LINKLAKE_CLOUDFLARE_") value && has_suffix (lit "_TOKEN") value && (str_len value <=? 128) && all secret_byte (as_bytes value).
Definition dns_label (label : rstr) : bool :=
  negb (bool_decide (label = [])) && (str_len label <=? 63) && negb (starts_with ch_minus label) && negb (ends_with ch_minus label) &&
  all (λ c, is_ascii_alphanumeric c || (c =? ch_minus)) (as_bytes label).
Definition valid_dns_name (value : rstr) : bool :=
  negb (bool_decide (value = [])) && (str_len value <=? 253) && all dns_label (split ch_dot value).
Definition validate_dns_target (record_type : FleetDnsRecordType) (value : rstr) : result FleetError unit :=
  match record_type with
  | RecordA => _ ← ok_or (parse_ipv4 value) DnsTargetInvalid; Ok tt
  | RecordAaaa => _ ← ok_or (parse_ipv6 value) DnsTargetInvalid; Ok tt
  | RecordCname => reject_if (negb (valid_dns_name value)) DnsTargetInvalid
  end.

(** The loop over the targets of a request; [seen] is the set of peers so far. *)
Definition normalize_target (record_type : FleetDnsRecordType) (value : rstr) : rstr :=
  let value := trim_end_matches ch_dot (trim value) in
  match record_type with RecordCname => to_ascii_lowercase value | _ => value end.
Fixpoint validate_targets (record_type : FleetDnsRecordType) (known seen : gset Z) (l : list FleetDnsPeerTarget)
    : result FleetError (list FleetDnsPeerTarget) :=
  match l with
  | [] => Ok []
  | t :: l =>
      let value := normalize_target record_type (dt_value t) in
      _ ← reject_if (negb (bool_decide (dt_peer t ∈ known))) DnsTargetPeerMissing;
      _ ← reject_if (bool_decide (dt_peer t ∈ seen)) DnsTargetPeerDuplicated;
      _ ← validate_dns_target record_type value;
      rest ← validate_targets record_type known ({[dt_peer t]} ∪ seen) l;
      Ok ({| dt_peer := dt_peer t; dt_value := value |} :: rest)
  end.
Definition validate_dns_failover (request : UpsertFleetDnsFailover) (peers : list FleetPeer) : result FleetError UpsertFleetDnsFailover :=
  let name := trim (ud_name request) in
  let hostname := to_ascii_lowercase (trim_end_matches ch_dot (trim (ud_hostname request))) in
  let zone := to_ascii_lowercase (trim (ud_zone request)) in
  let record := to_ascii_lowercase (trim (ud_record request)) in
  let token_env := trim (ud_token_env request) in
  _ ← reject_if (negb (negb (bool_decide (name = [])) && (len name <=? 80))) DnsNameInvalid;
  _ ← reject_if (negb (valid_dns_name hostname)) DnsHostnameInvalid;
  _ ← reject_if (negb (valid_provider_id zone)) DnsZoneInvalid;
  _ ← reject_if (negb (valid_provider_id record)) DnsRecordInvalid;
  _ ← reject_if (negb (valid_secret_env token_env)) DnsTokenEnvInvalid;
  _ ← reject_if (negb ((ud_ttl request =? 1) || within 60 86400 (ud_ttl request))) DnsTtlInvalid;
  _ ← reject_if (negb (within 1 86400 (ud_cooldown request))) DnsCooldownInvalid;
  _ ← reject_if (bool_decide (length (ud_targets request) = 0%nat)) DnsTargetsRequired;
  targets ← validate_targets (ud_record_type request) (list_to_set (fp_id <$> peers)) ∅ (ud_targets request);
  Ok {| ud_name := name; ud_hostname := hostname; ud_record_type := ud_record_type request; ud_zone := zone; ud_record := record;
        ud_token_env := token_env; ud_ttl := ud_ttl request; ud_proxied := ud_proxied request; ud_enabled := ud_enabled request;
        ud_cooldown := ud_cooldown request; ud_targets := merge_sort (λ x y : FleetDnsPeerTarget, dt_peer x <=? dt_peer y) targets |}.
Definition validate_health_config (request : UpdateFleetHealthConfig) : result FleetError unit :=
  _ ← reject_if (negb (within 1 20 (uh_success_threshold request))) SuccessThresholdRange;
  _ ← reject_if (negb (within 1 20 (uh_failure_threshold request))) FailureThresholdRange;
  reject_if (negb (uh_cooldown_seconds request <=? 86400)) HealthCooldownRange.

(** ** The environment *)

Class FleetEnv := {
  (** [std::env::var_os(name).is_some()] and [std::env::var(name).ok()]. *)
  var_os_set : rstr → bool;
  env_var : rstr → option rstr;
  (** [str::parse::<Uri>]: the scheme and whether there is an authority. *)
  parse_uri : rstr → option (option rstr * bool);
}.

Section env.
Context {env : FleetEnv}.

(** [fleet::validate]. *)
Definition validate_peer (request : UpsertFleetPeer) : result FleetError UpsertFleetPeer :=
  let name := trim (up_name request) in
  let region := trim (up_region request) in
  let token_env := trim (up_token_env request) in
  let url := trim_end_matches 47 (trim (up_url request)) in
  _ ← reject_if (negb (negb (bool_decide (name = [])) && (len name <=? 80))) PeerNameInvalid;
  _ ← reject_if (negb (negb (bool_decide (region = [])) && (len region <=? 80))) PeerRegionInvalid;
  _ ← reject_if (negb ((0 <? up_weight request) && (up_weight request <=? 10000))) PeerWeightInvalid;
  _ ← reject_if (negb (up_priority request <=? 10000)) PeerPriorityInvalid;
  _ ← reject_if (negb (has_prefix (lit "LINKLAKE_") token_env && all secret_byte (as_bytes token_env))) PeerTokenEnvInvalid;
  '(scheme, authority) ← ok_or (parse_uri url) PeerUrlInvalid;
  _ ← reject_if (negb ((bool_decide (scheme = Some (lit "http")) || bool_decide (scheme = Some (lit "https"))) && authority)) PeerUrlInvalid;
  Ok {| up_name := name; up_url := url; up_region := region; up_weight := up_weight request; up_priority := up_priority request;
        up_token_env := token_env; up_enabled := up_enabled request |}.

(** ** Reading rows *)

Definition nonnegative_column (value : Z) : Z := Z.max value 0.
Definition read_peer (id : Z) (row : PeerRow) : option FleetPeer :=
  weight ← get_uint U16_MAX (pe_weight row);
  priority ← get_uint U16_MAX (pe_priority row);
  Some {| fp_id := id; fp_name := pe_name row; fp_url := pe_url row; fp_region := pe_region row; fp_weight := weight; fp_priority := priority;
          fp_token_env := pe_token_env row; fp_token_configured := var_os_set (pe_token_env row); fp_enabled := pe_enabled row;
          fp_created := nonnegative_column (pe_created row); fp_updated := nonnegative_column (pe_updated row) |}.
Definition read_snapshot_row (peer : Z) (c : ConfigRow) (s : StateRow) : option FleetHealthSnapshot :=
  state ← health_parse (st_state s);
  success ← get_uint U16_MAX (cf_success_threshold c);
  failure ← get_uint U16_MAX (cf_failure_threshold c);
  cooldown ← get_uint U32_MAX (cf_cooldown_seconds c);
  successes ← get_uint U16_MAX (st_successes s);
  failures ← get_uint U16_MAX (st_failures s);
  Some {| sn_config := {| hc_peer := peer; hc_success_threshold := success; hc_failure_threshold := failure; hc_cooldown_seconds := cooldown;
                          hc_updated := nonnegative_column (cf_updated c) |};
          sn_health := {| ph_peer := peer; ph_state := state; ph_successes := successes; ph_failures := failures;
                          ph_last_probe := nonnegative_column <$> st_last_probe s; ph_last_success := nonnegative_column <$> st_last_success s;
                          ph_last_failure := nonnegative_column <$> st_last_failure s; ph_last_latency := nonnegative_column <$> st_last_latency s;
                          ph_last_error := st_last_error s; ph_state_changed := nonnegative_column (st_state_changed s);
                          ph_cooldown_until := nonnegative_column (st_cooldown_until s); ph_reason := st_reason s;
                          ph_revision := nonnegative_column (st_revision s); ph_active_connections := nonnegative_column (st_active_connections s);
                          ph_bytes_total := nonnegative_column (st_bytes_total s); ph_clients := nonnegative_column (st_clients s);
                          ph_policies := nonnegative_column (st_policies s) |} |}.
Definition read_pending (p : Pending) : Pending :=
  {| pd_operation := pd_operation p; pd_peer := pd_peer p; pd_target := pd_target p; pd_reason := pd_reason p;
     pd_started := nonnegative_column <$> pd_started p; pd_lease_until := nonnegative_column <$> pd_lease_until p |}.
Definition read_dns_failover_row (id : Z) (row : FailoverRow) : option FleetDnsFailover :=
  record_type ← record_parse (fr_record_type row);
  ttl ← get_uint U32_MAX (fr_ttl row);
  cooldown ← get_uint U32_MAX (fr_cooldown row);
  Some {| fo_id := id; fo_name := fr_name row; fo_hostname := fr_hostname row; fo_record_type := record_type; fo_zone := fr_zone row;
          fo_record := fr_record row; fo_token_env := fr_token_env row;
          fo_token_configured := match env_var (fr_token_env row) with Some value => negb (bool_decide (trim value = [])) | None => false end;
          fo_ttl := ttl; fo_proxied := fr_proxied row; fo_enabled := fr_enabled row; fo_reconcile := fr_reconcile row; fo_cooldown := cooldown;
          fo_frozen := fr_frozen row; fo_freeze_reason := fr_freeze_reason row; fo_current_peer := fr_current_peer row;
          fo_current_target := fr_current_target row; fo_last_switch := nonnegative_column <$> fr_last_switch row;
          fo_not_before := nonnegative_column (fr_not_before row); fo_last_switch_reason := fr_last_switch_reason row;
          fo_last_error := fr_last_error row; fo_pending := read_pending (fr_pending row); fo_targets := [];
          fo_created := nonnegative_column (fr_created row); fo_updated := nonnegative_column (fr_updated row) |}.
End env.
