(* ===== verification/FleetHealth.v ===== *)
(** * Peers of the fleet and their health ([fleet.rs], [fleet_health.rs])

    The operations on peers and on what probes report of them. [health_by_history] is the
    reference for the state machine of [next_health_state]: it looks at the whole history of
    probes instead of a state and two counters. *)

From S2P Require Import Prelude DbMonad RustStr RustText HaTables AdminAuth TunnelTables TunnelCatalog FleetTables.
Local Open Scope Z_scope.
Set Default Proof Using "Type".

(** ** Peers *)

(** The effects of [DELETE FROM fleet_peers] through foreign keys: rows of the peer are deleted with it, and DNS
    records forget it. *)
Definition forget_peer (id : Z) (o : option Z) : option Z := if bool_decide (o = Some id) then None else o.
Definition forget_row (id : Z) (r : FailoverRow) : FailoverRow :=
  {| fr_name := fr_name r; fr_hostname := fr_hostname r; fr_record_type := fr_record_type r; fr_zone := fr_zone r; fr_record := fr_record r;
     fr_token_env := fr_token_env r; fr_ttl := fr_ttl r; fr_proxied := fr_proxied r; fr_enabled := fr_enabled r; fr_reconcile := fr_reconcile r;
     fr_cooldown := fr_cooldown r; fr_frozen := fr_frozen r; fr_freeze_reason := fr_freeze_reason r;
     fr_current_peer := forget_peer id (fr_current_peer r); fr_current_target := fr_current_target r; fr_last_switch := fr_last_switch r;
     fr_not_before := fr_not_before r; fr_last_switch_reason := fr_last_switch_reason r; fr_last_error := fr_last_error r;
     fr_pending := {| pd_operation := pd_operation (fr_pending r); pd_peer := forget_peer id (pd_peer (fr_pending r));
                      pd_target := pd_target (fr_pending r); pd_reason := pd_reason (fr_pending r); pd_started := pd_started (fr_pending r);
                      pd_lease_until := pd_lease_until (fr_pending r) |};
     fr_created := fr_created r; fr_updated := fr_updated r |}.
Definition remove_peer (id : Z) (s : FleetDb) : FleetDb :=
  {| fleet_peers := base.delete id (fleet_peers s); health_config := base.delete id (health_config s); health_state := base.delete id (health_state s);
     probe_events := filter (λ e, pb_peer e ≠ id) (probe_events s); health_counters := health_counters s;
     dns_failovers := forget_row id <$> dns_failovers s; dns_targets := filter (λ x, x.1.2 ≠ id) (dns_targets s);
     switch_events := switch_events s; coordination := coordination s |}.

Section fleet.
Context {env : FleetEnv}.

(** [INSERT .. ON CONFLICT(id) DO UPDATE], with the unique columns [name] and [url], compared byte by byte. *)
Definition peer_clash (p : FleetPeer) (t : gmap Z PeerRow) : bool :=
  any (λ x : Z * PeerRow, negb (x.1 =? fp_id p) && (bool_decide (as_bytes (pe_name x.2) = as_bytes (fp_name p)) || bool_decide (as_bytes (pe_url x.2) = as_bytes (fp_url p)))) (map_to_list t).
Definition peer_row (p : FleetPeer) (old : option PeerRow) : PeerRow :=
  {| pe_name := fp_name p; pe_url := fp_url p; pe_region := fp_region p; pe_weight := fp_weight p; pe_priority := fp_priority p;
     pe_token_env := fp_token_env p; pe_enabled := fp_enabled p;
     pe_created := match old with Some old => pe_created old | None => to_i64 (fp_created p) end; pe_updated := to_i64 (fp_updated p) |}.
Definition peer_persist (p : FleetPeer) : fleet_db unit :=
  clash ← db_get (λ s, peer_clash p (fleet_peers s));
  _ ← db_ensure (negb clash) FleetDatabase;
  db_put (set_peers (λ t, <[fp_id p := peer_row p (t !! fp_id p)]> t)).
Definition requested_peer (request : UpsertFleetPeer) (id created now : Z) : FleetPeer :=
  {| fp_id := id; fp_name := up_name request; fp_url := up_url request; fp_region := up_region request; fp_weight := up_weight request;
     fp_priority := up_priority request; fp_token_env := up_token_env request; fp_token_configured := var_os_set (up_token_env request);
     fp_enabled := up_enabled request; fp_created := created; fp_updated := now |}.
Definition peer_create (request : UpsertFleetPeer) (id now : Z) : fleet_db FleetPeer :=
  request ← db_lift (validate_peer request);
  let peer := requested_peer request id now now in
  _ ← peer_persist peer;
  mret peer.
Definition peer_get (id : Z) : fleet_db (option FleetPeer) :=
  row ← db_get (λ s, fleet_peers s !! id);
  match row with None => mret None | Some row => p ← db_lift (ok_or (read_peer id row) FleetDatabase); mret (Some p) end.
Definition peer_update (id : Z) (request : UpsertFleetPeer) (now : Z) : fleet_db (option FleetPeer) :=
  request ← db_lift (validate_peer request);
  existing ← peer_get id;
  match existing with
  | None => mret None
  | Some existing =>
      let peer := requested_peer request id (fp_created existing) now in
      _ ← peer_persist peer;
      mret (Some peer)
  end.
Definition peer_delete (id : Z) : fleet_db bool :=
  found ← db_get (λ s, bool_decide (is_Some (fleet_peers s !! id)));
  _ ← db_put (remove_peer id);
  mret found.
(** [ORDER BY priority, name]. *)
Definition peer_list : fleet_db (list FleetPeer) :=
  rows ← db_get (λ s, merge_sort (λ x y : Z * PeerRow, lex_le (pe_priority x.2 :: as_bytes (pe_name x.2)) (pe_priority y.2 :: as_bytes (pe_name y.2)))
                        (map_to_list (fleet_peers s)));
  db_lift (collect (λ '(id, row), ok_or (read_peer id row) FleetDatabase) rows).

(** ** Counters *)

Definition PROBE_EVENTS : rstr := lit "probe_events_total".
Definition PROBE_FAILURES : rstr := lit "probe_failures_total".
Definition HEALTH_TRANSITIONS : rstr := lit "health_transitions_total".
Definition DNS_SWITCHES : rstr := lit "dns_switches_total".
Definition DNS_SWITCH_FAILURES : rstr := lit "dns_switch_failures_total".

Definition insert_or_ignore {K A} `{Countable K} (k : K) (a : A) (t : gmap K A) : gmap K A := match t !! k with Some _ => t | None => <[k := a]> t end.
Definition count_rows {A} (p : A → bool) (l : list A) : Z := len (filter (λ a, p a = true) l).
Definition initialize_persistent_counters : fleet_db unit :=
  db_put (λ s, set_counters (insert_or_ignore PROBE_EVENTS (len (probe_events s))) s) ≫= λ _,
  db_put (λ s, set_counters (insert_or_ignore PROBE_FAILURES (count_rows (λ e, pb_accepted e && negb (pb_success e)) (probe_events s))) s) ≫= λ _,
  db_put (λ s, set_counters (insert_or_ignore HEALTH_TRANSITIONS
                 (count_rows (λ e, pb_accepted e && negb (bool_decide (pb_previous e = pb_resulting e))) (probe_events s))) s) ≫= λ _,
  db_put (λ s, set_counters (insert_or_ignore DNS_SWITCHES (map_count sw_applied (switch_events s))) s) ≫= λ _,
  db_put (λ s, set_counters (insert_or_ignore DNS_SWITCH_FAILURES (map_count (λ e, negb (sw_applied e)) (switch_events s))) s).
Definition increment_counter (name : rstr) : fleet_db unit :=
  value ← db_get (λ s, health_counters s !! name);
  match value with
  | Some value => db_put (set_counters (<[name := value + 1]>))
  | None => db_fail FleetDatabase
  end.
Definition counter_value (name : rstr) : fleet_db Z :=
  value ← db_get (λ s, health_counters s !! name);
  db_lift (ok_or (value ≫= get_uint U64_MAX) FleetDatabase).

(** ** Rows of health *)

Definition default_config (now : Z) : ConfigRow :=
  {| cf_success_threshold := DEFAULT_SUCCESS_THRESHOLD; cf_failure_threshold := DEFAULT_FAILURE_THRESHOLD;
     cf_cooldown_seconds := DEFAULT_HEALTH_COOLDOWN_SECONDS; cf_updated := to_i64 now |}.
Definition default_state (now : Z) : StateRow :=
  {| st_state := lit "unknown"; st_successes := 0; st_failures := 0; st_last_probe := None; st_last_success := None; st_last_failure := None;
     st_last_latency := None; st_last_error := None; st_state_changed := to_i64 now; st_cooldown_until := to_i64 now;
     st_reason := lit "awaiting_first_probe"; st_revision := 0; st_active_connections := 0; st_bytes_total := 0; st_clients := 0; st_policies := 0 |}.
Definition ensure_all_peers (now : Z) : fleet_db unit :=
  db_put (λ s, set_config (λ t, t ∪ ((λ _, default_config now) <$> fleet_peers s)) s) ≫= λ _,
  db_put (λ s, set_state (λ t, t ∪ ((λ _, default_state now) <$> fleet_peers s)) s).
(** [open_with_database], the schema apart. *)
Definition fleet_health_open (now : Z) : fleet_db unit :=
  _ ← initialize_persistent_counters;
  ensure_all_peers now.
Definition ensure_peer_rows (peer now : Z) : fleet_db unit :=
  exists_ ← db_get (λ s, bool_decide (is_Some (fleet_peers s !! peer)));
  _ ← db_ensure exists_ PeerMissing;
  _ ← db_put (set_config (insert_or_ignore peer (default_config now)));
  db_put (set_state (insert_or_ignore peer (default_state now))).
Definition ensure_peer (peer now : Z) : fleet_db unit := ensure_peer_rows peer now.
Definition read_snapshot (peer : Z) : fleet_db (option FleetHealthSnapshot) :=
  config ← db_get (λ s, health_config s !! peer);
  state ← db_get (λ s, health_state s !! peer);
  match config, state with
  | Some config, Some state => v ← db_lift (ok_or (read_snapshot_row peer config state) FleetDatabase); mret (Some v)
  | _, _ => mret None
  end.
Definition peer_snapshot (peer : Z) : fleet_db (option FleetHealthSnapshot) := read_snapshot peer.
Definition peer_snapshots : fleet_db (gmap Z FleetHealthSnapshot) :=
  rows ← db_get (λ s, omap (λ '(peer, config), state ← health_state s !! peer; Some (peer, config, state)) (map_to_list (health_config s)));
  values ← db_lift (collect (λ '(peer, config, state), ok_or (read_snapshot_row peer config state) FleetDatabase) rows);
  mret (list_to_map ((λ v, (ph_peer (sn_health v), v)) <$> values)).

Definition with_config (request : UpdateFleetHealthConfig) (now : Z) : ConfigRow :=
  {| cf_success_threshold := uh_success_threshold request; cf_failure_threshold := uh_failure_threshold request;
     cf_cooldown_seconds := uh_cooldown_seconds request; cf_updated := to_i64 now |}.
Definition with_cooldown (cooldown : Z) (r : StateRow) : StateRow :=
  {| st_state := st_state r; st_successes := st_successes r; st_failures := st_failures r; st_last_probe := st_last_probe r;
     st_last_success := st_last_success r; st_last_failure := st_last_failure r; st_last_latency := st_last_latency r;
     st_last_error := st_last_error r; st_state_changed := st_state_changed r; st_cooldown_until := st_state_changed r + cooldown;
     st_reason := st_reason r; st_revision := st_revision r; st_active_connections := st_active_connections r; st_bytes_total := st_bytes_total r;
     st_clients := st_clients r; st_policies := st_policies r |}.
Definition update_health_config (peer : Z) (request : UpdateFleetHealthConfig) (now : Z) : fleet_db (option FleetHealthSnapshot) :=
  _ ← db_lift (validate_health_config request);
  transaction (
    _ ← ensure_peer_rows peer now;
    changed ← db_get (λ s, bool_decide (is_Some (health_config s !! peer)));
    _ ← db_put (set_config (alter (λ _, with_config request now) peer));
    if negb changed then mret (true, None)
    else
      _ ← db_put (set_state (alter (with_cooldown (uh_cooldown_seconds request)) peer));
      v ← read_snapshot peer;
      mret (true, v)).

(** ** Probes *)

Definition next_health_state (current : FleetHealthState) (current_successes current_failures : Z) (success : bool)
    (success_threshold failure_threshold : Z) : FleetHealthState * Z * Z * rstr :=
  if success then
    let successes := saturating_add U16_MAX current_successes 1 in
    if bool_decide (current = Healthy) then (Healthy, successes, 0, lit "probe_succeeded")
    else if success_threshold <=? successes then (Healthy, successes, 0, lit "success_threshold_met")
    else
      match current with
      | Degraded => (Degraded, successes, 0, lit "health_confirmation_in_progress")
      | Unknown => (Unknown, successes, 0, lit "initial_health_confirmation_in_progress")
      | _ => (Recovering, successes, 0, lit "recovery_in_progress")
      end
  else
    let failures := saturating_add U16_MAX current_failures 1 in
    if bool_decide (current = Unhealthy) then (Unhealthy, 0, failures, lit "probe_still_failing")
    else if bool_decide (current = Recovering) then (Unhealthy, 0, failures, lit "recovery_failed")
    else if failure_threshold <=? failures then (Unhealthy, 0, failures, lit "failure_threshold_met")
    else (Degraded, 0, failures, lit "failure_below_threshold").

(** The rows of a peer but its newest ones, by time and then by [rowid]. *)
Definition old_events (peer : Z) (l : list ProbeRow) : list ProbeRow :=
  drop (Z.to_nat MAX_PROBE_EVENTS_PER_PEER)
    (merge_sort (λ x y : ProbeRow, pb_observed y <=? pb_observed x) (rev (filter (λ e, pb_peer e = peer) l))).
Definition prune_events (peer : Z) (l : list ProbeRow) : list ProbeRow :=
  let old := pb_event <$> old_events peer l in filter (λ e, ¬ (pb_peer e = peer ∧ pb_event e ∈ old)) l.
Definition insert_probe_event (peer : Z) (o : FleetProbeObservation) (accepted : bool) (previous resulting : FleetHealthState) (reason : rstr) : fleet_db unit :=
  clash ← db_get (λ s, any (λ e, pb_event e =? ob_event o) (probe_events s));
  _ ← db_ensure (negb clash) FleetDatabase;
  _ ← db_put (set_probes (λ l, l ++ [{| pb_event := ob_event o; pb_peer := peer; pb_observed := to_i64 (ob_observed o); pb_success := ob_success o;
                                        pb_accepted := accepted; pb_latency := to_i64 <$> ob_latency o; pb_error := summarize_error <$> ob_error o;
                                        pb_previous := health_as_str previous; pb_resulting := health_as_str resulting; pb_reason := reason |}]));
  _ ← increment_counter PROBE_EVENTS;
  _ ← (if accepted && negb (ob_success o) then increment_counter PROBE_FAILURES else mret tt);
  _ ← (if accepted && negb (bool_decide (previous = resulting)) then increment_counter HEALTH_TRANSITIONS else mret tt);
  db_put (set_probes (prune_events peer)).

(** The row after an accepted probe. *)
Definition probed_row (current : FleetHealthSnapshot) (o : FleetProbeObservation) : StateRow :=
  let h := sn_health current in
  let '(next, successes, failures, reason) :=
    next_health_state (ph_state h) (ph_successes h) (ph_failures h) (ob_success o)
      (hc_success_threshold (sn_config current)) (hc_failure_threshold (sn_config current)) in
  let changed := negb (bool_decide (next = ph_state h)) in
  let error := match summarize_error <$> ob_error o with Some [] => None | e => e end in
  {| st_state := health_as_str next; st_successes := successes; st_failures := failures;
     st_last_probe := Some (to_i64 (ob_observed o));
     st_last_success := to_i64 <$> (if ob_success o then Some (ob_observed o) else ph_last_success h);
     st_last_failure := to_i64 <$> (if ob_success o then ph_last_failure h else Some (ob_observed o));
     st_last_latency := to_i64 <$> ob_latency o;
     st_last_error := if ob_success o then None else match error with Some e => Some e | None => Some (lit "probe failed") end;
     st_state_changed := to_i64 (if changed then ob_observed o else ph_state_changed h);
     st_cooldown_until := to_i64 (if changed then saturating_add U64_MAX (ob_observed o) (hc_cooldown_seconds (sn_config current)) else ph_cooldown_until h);
     st_reason := reason; st_revision := to_i64 (saturating_add U64_MAX (ph_revision h) 1);
     st_active_connections := to_i64 (ob_active_connections o); st_bytes_total := to_i64 (ob_bytes_total o);
     st_clients := to_i64 (ob_clients o); st_policies := to_i64 (ob_policies o) |}.

Definition record_probe (peer : Z) (o : FleetProbeObservation) : fleet_db FleetProbeResult :=
  transaction (
    _ ← ensure_peer_rows peer (ob_observed o);
    duplicate ← db_get (λ s, head (filter (λ e, pb_event e = ob_event o) (probe_events s)));
    current ← read_snapshot peer;
    current ← db_lift (ok_or current PeerMissing);
    let state := ph_state (sn_health current) in
    match duplicate with
    | Some e =>
        _ ← db_ensure ((pb_peer e =? peer) && (nonnegative_column (pb_observed e) =? ob_observed o) && Bool.eqb (pb_success e) (ob_success o)) EventConflicts;
        mret (true, {| pr_peer := peer; pr_accepted := false; pr_duplicate := true; pr_previous := state; pr_health := sn_health current;
                       pr_reason := lit "duplicate_event_ignored" |})
    | None =>
        if match ph_last_probe (sn_health current) with Some last => ob_observed o <? last | None => false end then
          _ ← insert_probe_event peer o false state state (lit "stale_event_ignored");
          mret (true, {| pr_peer := peer; pr_accepted := false; pr_duplicate := false; pr_previous := state; pr_health := sn_health current;
                         pr_reason := lit "stale_event_ignored" |})
        else
          let '(next, _, _, reason) :=
            next_health_state state (ph_successes (sn_health current)) (ph_failures (sn_health current)) (ob_success o)
              (hc_success_threshold (sn_config current)) (hc_failure_threshold (sn_config current)) in
          _ ← db_put (set_state (alter (λ _, probed_row current o) peer));
          _ ← insert_probe_event peer o true state next reason;
          updated ← read_snapshot peer;
          updated ← db_lift (ok_or updated PeerDisappeared);
          mret (true, {| pr_peer := peer; pr_accepted := true; pr_duplicate := false; pr_previous := state; pr_health := sn_health updated; pr_reason := reason |})
    end).

(** ** Metrics *)

Record FleetHealthMetrics := {
  fm_unknown : Z; fm_healthy : Z; fm_degraded : Z; fm_unhealthy : Z; fm_recovering : Z; fm_probe_events : Z; fm_probe_failures : Z;
  fm_health_transitions : Z; fm_failovers : Z; fm_frozen : Z; fm_switches : Z; fm_switch_failures : Z; fm_pending : Z;
}.
(** The states of enabled peers. *)
Definition enabled_states (s : FleetDb) : list rstr :=
  omap (λ '(peer, h), p ← fleet_peers s !! peer; if pe_enabled p then Some (st_state h) else None) (map_to_list (health_state s)).
Definition metrics : fleet_db FleetHealthMetrics :=
  states ← db_get enabled_states;
  states ← db_lift (collect (λ v, ok_or (health_parse v) FleetDatabase) states);
  probe_events ← counter_value PROBE_EVENTS;
  probe_failures ← counter_value PROBE_FAILURES;
  transitions ← counter_value HEALTH_TRANSITIONS;
  failovers ← db_get (λ s, map_count (λ _, true) (dns_failovers s));
  frozen ← db_get (λ s, map_count fr_frozen (dns_failovers s));
  switches ← counter_value DNS_SWITCHES;
  switch_failures ← counter_value DNS_SWITCH_FAILURES;
  pending ← db_get (λ s, map_count (λ r, bool_decide (is_Some (pd_operation (fr_pending r)))) (dns_failovers s));
  let count v := count_rows (λ x, bool_decide (x = v)) states in
  mret {| fm_unknown := count Unknown; fm_healthy := count Healthy; fm_degraded := count Degraded; fm_unhealthy := count Unhealthy;
          fm_recovering := count Recovering; fm_probe_events := probe_events; fm_probe_failures := probe_failures;
          fm_health_transitions := transitions; fm_failovers := failovers; fm_frozen := frozen; fm_switches := switches;
          fm_switch_failures := switch_failures; fm_pending := pending |}.
End fleet.

(** ** The reference for the state of health *)

(** A probe that counted, with the thresholds in force; histories are newest first. *)
Record Accepted := { ac_success : bool; ac_success_threshold : Z; ac_failure_threshold : Z; ac_at : Z }.

(** The number of latest probes with outcome [b]. *)
Fixpoint latest (b : bool) (l : list Accepted) : Z :=
  match l with a :: l => if Bool.eqb (ac_success a) b then 1 + latest b l else 0 | [] => 0 end.
(** What a probe confirms: that the peer is up after enough successes in a row, or down after enough failures. *)
Definition confirms (l : list Accepted) : option bool :=
  match l with
  | [] => None
  | a :: _ =>
      if ac_success a then if ac_success_threshold a <=? latest true l then Some true else None
      else if ac_failure_threshold a <=? latest false l then Some false else None
  end.
(** The last confirmation, and the probes since. *)
Fixpoint last_verdict (l : list Accepted) : option bool * list Accepted :=
  match l with
  | [] => (None, [])
  | a :: l' => match confirms l with Some b => (Some b, []) | None => let '(v, since) := last_verdict l' in (v, a :: since) end
  end.
(** Without a verdict a peer is unknown until a probe fails. A peer that is up is degraded from its first failure on. One that is down
    recovers while its latest probe succeeded. *)
Definition health_by_history (l : list Accepted) : FleetHealthState :=
  let '(verdict, since) := last_verdict l in
  match verdict with
  | None => if all ac_success since then Unknown else Degraded
  | Some true => if all ac_success since then Healthy else Degraded
  | Some false => match since with a :: _ => if ac_success a then Recovering else Unhealthy | [] => Unhealthy end
  end.

Lemma latest_nonneg b l : 0 ≤ latest b l.
Proof. induction l as [|a l IH]; cbn; [done|]. destruct (Bool.eqb _ _); lia. Qed.
Lemma next_health_by_history l a :
  1 ≤ ac_success_threshold a ≤ 20 → 1 ≤ ac_failure_threshold a ≤ 20 →
  ∃ reason, next_health_state (health_by_history l) (Z.min U16_MAX (latest true l)) (Z.min U16_MAX (latest false l)) (ac_success a)
      (ac_success_threshold a) (ac_failure_threshold a) =
    (health_by_history (a :: l), Z.min U16_MAX (latest true (a :: l)), Z.min U16_MAX (latest false (a :: l)), reason).
Proof.
  intros Hs Hf. unfold next_health_state, health_by_history, saturating_add, all.
  pose proof (latest_nonneg true l) as H1. pose proof (latest_nonneg false l) as H2. cbn [last_verdict confirms latest].
  assert (U16_MAX = 65535) as EU by done.
  destruct (ac_success a) eqn:Ea; cbn [Bool.eqb].
  - replace (Z.min U16_MAX (Z.min U16_MAX (latest true l) + 1)) with (Z.min U16_MAX (1 + latest true l)) by lia.
    replace (ac_success_threshold a <=? Z.min U16_MAX (1 + latest true l)) with (ac_success_threshold a <=? 1 + latest true l)
      by (destruct (Z.leb_spec (ac_success_threshold a) (1 + latest true l)), (Z.leb_spec (ac_success_threshold a) (Z.min U16_MAX (1 + latest true l))); lia).
    replace (Z.min U16_MAX 0) with 0 by lia.
    destruct (_ <=? _) eqn:Et; destruct (last_verdict l) as [[[]|] since] eqn:Ev; cbn [forallb]; rewrite ?Ea; cbn [andb].
    all: try (destruct since as [|x since]; cbn [forallb]; [|destruct (ac_success x); cbn [andb]]).
    all: try (destruct (forallb ac_success since)); repeat case_bool_decide; try congruence; eauto.
  - replace (Z.min U16_MAX (Z.min U16_MAX (latest false l) + 1)) with (Z.min U16_MAX (1 + latest false l)) by lia.
    replace (ac_failure_threshold a <=? Z.min U16_MAX (1 + latest false l)) with (ac_failure_threshold a <=? 1 + latest false l)
      by (destruct (Z.leb_spec (ac_failure_threshold a) (1 + latest false l)), (Z.leb_spec (ac_failure_threshold a) (Z.min U16_MAX (1 + latest false l))); lia).
    replace (Z.min U16_MAX 0) with 0 by lia.
    destruct (_ <=? _) eqn:Et; destruct (last_verdict l) as [[[]|] since] eqn:Ev; cbn [forallb]; rewrite ?Ea; cbn [andb].
    all: try (destruct since as [|x since]; cbn [forallb]; [|destruct (ac_success x); cbn [andb]]).
    all: try (destruct (forallb ac_success since)); repeat case_bool_decide; try congruence; eauto.
Qed.
