(* ===== verification/FleetDns.v ===== *)
(** * DNS records of the fleet ([fleet_health.rs])

    A failover moves one DNS record between peers. A change is reserved in the row of the failover
    under a new operation ([plan_dns_changes]), checked again by the worker that holds the job lease of
    the record ([validate_dns_execution]) before it sends the request to the provider, and settled by
    one event ([complete_dns_change_inner]). The requests themselves are not modelled; [cloudflare_matches]
    is the comparison with what the provider answers. *)

From S2P Require Import Prelude DbMonad RustStr RustText NetAddr HaTables HaCoordination JobLeases P2pProtocol AdminAuth TunnelTables TunnelCatalog FleetTables FleetHealth.
Local Open Scope Z_scope.
Set Default Proof Using "Type".

Record DnsCandidate := { dc_peer : Z; dc_name : rstr; dc_priority : Z; dc_weight : Z; dc_target : rstr }.

(** ** Updates of a row *)

Definition with_settings (request : UpsertFleetDnsFailover) (now : Z) (r : FailoverRow) : FailoverRow :=
  {| fr_name := ud_name request; fr_hostname := ud_hostname request; fr_record_type := record_as_str (ud_record_type request);
     fr_zone := ud_zone request; fr_record := ud_record request; fr_token_env := ud_token_env request; fr_ttl := ud_ttl request;
     fr_proxied := ud_proxied request; fr_enabled := ud_enabled request; fr_reconcile := true; fr_cooldown := ud_cooldown request;
     fr_frozen := fr_frozen r; fr_freeze_reason := fr_freeze_reason r; fr_current_peer := fr_current_peer r; fr_current_target := fr_current_target r;
     fr_last_switch := fr_last_switch r; fr_not_before := fr_not_before r; fr_last_switch_reason := fr_last_switch_reason r;
     fr_last_error := fr_last_error r; fr_pending := fr_pending r; fr_created := fr_created r; fr_updated := to_i64 now |}.
Definition new_failover (request : UpsertFleetDnsFailover) (now : Z) : FailoverRow :=
  {| fr_name := ud_name request; fr_hostname := ud_hostname request; fr_record_type := record_as_str (ud_record_type request);
     fr_zone := ud_zone request; fr_record := ud_record request; fr_token_env := ud_token_env request; fr_ttl := ud_ttl request;
     fr_proxied := ud_proxied request; fr_enabled := ud_enabled request; fr_reconcile := true; fr_cooldown := ud_cooldown request;
     fr_frozen := false; fr_freeze_reason := None; fr_current_peer := None; fr_current_target := None;
     fr_last_switch := None; fr_not_before := to_i64 now; fr_last_switch_reason := None;
     fr_last_error := None; fr_pending := no_pending; fr_created := to_i64 now; fr_updated := to_i64 now |}.
Definition with_frozen (frozen : bool) (reason : option rstr) (now : Z) (r : FailoverRow) : FailoverRow :=
  {| fr_name := fr_name r; fr_hostname := fr_hostname r; fr_record_type := fr_record_type r; fr_zone := fr_zone r; fr_record := fr_record r;
     fr_token_env := fr_token_env r; fr_ttl := fr_ttl r; fr_proxied := fr_proxied r; fr_enabled := fr_enabled r; fr_reconcile := fr_reconcile r;
     fr_cooldown := fr_cooldown r; fr_frozen := frozen; fr_freeze_reason := reason; fr_current_peer := fr_current_peer r;
     fr_current_target := fr_current_target r; fr_last_switch := fr_last_switch r; fr_not_before := fr_not_before r;
     fr_last_switch_reason := fr_last_switch_reason r; fr_last_error := fr_last_error r; fr_pending := fr_pending r;
     fr_created := fr_created r; fr_updated := to_i64 now |}.
Definition with_pending (p : Pending) (now : Z) (r : FailoverRow) : FailoverRow :=
  {| fr_name := fr_name r; fr_hostname := fr_hostname r; fr_record_type := fr_record_type r; fr_zone := fr_zone r; fr_record := fr_record r;
     fr_token_env := fr_token_env r; fr_ttl := fr_ttl r; fr_proxied := fr_proxied r; fr_enabled := fr_enabled r; fr_reconcile := fr_reconcile r;
     fr_cooldown := fr_cooldown r; fr_frozen := fr_frozen r; fr_freeze_reason := fr_freeze_reason r; fr_current_peer := fr_current_peer r;
     fr_current_target := fr_current_target r; fr_last_switch := fr_last_switch r; fr_not_before := fr_not_before r;
     fr_last_switch_reason := fr_last_switch_reason r; fr_last_error := fr_last_error r; fr_pending := p;
     fr_created := fr_created r; fr_updated := to_i64 now |}.
Definition with_error (reconcile : bool) (error : option rstr) (now : Z) (r : FailoverRow) : FailoverRow :=
  {| fr_name := fr_name r; fr_hostname := fr_hostname r; fr_record_type := fr_record_type r; fr_zone := fr_zone r; fr_record := fr_record r;
     fr_token_env := fr_token_env r; fr_ttl := fr_ttl r; fr_proxied := fr_proxied r; fr_enabled := fr_enabled r; fr_reconcile := reconcile;
     fr_cooldown := fr_cooldown r; fr_frozen := fr_frozen r; fr_freeze_reason := fr_freeze_reason r; fr_current_peer := fr_current_peer r;
     fr_current_target := fr_current_target r; fr_last_switch := fr_last_switch r; fr_not_before := fr_not_before r;
     fr_last_switch_reason := fr_last_switch_reason r; fr_last_error := error; fr_pending := fr_pending r;
     fr_created := fr_created r; fr_updated := to_i64 now |}.
(** Setting the error and clearing the pending operation. *)
Definition cleared (error : option rstr) (now : Z) (r : FailoverRow) : FailoverRow :=
  with_pending no_pending now (with_error (fr_reconcile r) error now r).
Definition with_lease (lease now : Z) (r : FailoverRow) : FailoverRow :=
  let p := fr_pending r in
  with_pending {| pd_operation := pd_operation p; pd_peer := pd_peer p; pd_target := pd_target p; pd_reason := pd_reason p;
                  pd_started := pd_started p; pd_lease_until := Some (to_i64 lease) |} now r.
Definition switched (plan : FleetDnsChangePlan) (now not_before : Z) (r : FailoverRow) : FailoverRow :=
  {| fr_name := fr_name r; fr_hostname := fr_hostname r; fr_record_type := fr_record_type r; fr_zone := fr_zone r; fr_record := fr_record r;
     fr_token_env := fr_token_env r; fr_ttl := fr_ttl r; fr_proxied := fr_proxied r; fr_enabled := fr_enabled r; fr_reconcile := false;
     fr_cooldown := fr_cooldown r; fr_frozen := fr_frozen r; fr_freeze_reason := fr_freeze_reason r; fr_current_peer := Some (pl_peer plan);
     fr_current_target := Some (pl_target plan); fr_last_switch := Some (to_i64 now); fr_not_before := to_i64 not_before;
     fr_last_switch_reason := Some (pl_reason plan); fr_last_error := None; fr_pending := no_pending;
     fr_created := fr_created r; fr_updated := to_i64 now |}.
Definition switch_failed (error : option rstr) (now not_before : Z) (r : FailoverRow) : FailoverRow :=
  {| fr_name := fr_name r; fr_hostname := fr_hostname r; fr_record_type := fr_record_type r; fr_zone := fr_zone r; fr_record := fr_record r;
     fr_token_env := fr_token_env r; fr_ttl := fr_ttl r; fr_proxied := fr_proxied r; fr_enabled := fr_enabled r; fr_reconcile := fr_reconcile r;
     fr_cooldown := fr_cooldown r; fr_frozen := fr_frozen r; fr_freeze_reason := fr_freeze_reason r; fr_current_peer := fr_current_peer r;
     fr_current_target := fr_current_target r; fr_last_switch := fr_last_switch r; fr_not_before := to_i64 not_before;
     fr_last_switch_reason := fr_last_switch_reason r; fr_last_error := error; fr_pending := no_pending;
     fr_created := fr_created r; fr_updated := to_i64 now |}.

(** ** Queries *)

Definition same_record (zone record : rstr) (r : FailoverRow) : bool :=
  bool_decide (to_ascii_lowercase (fr_zone r) = to_ascii_lowercase zone) && bool_decide (to_ascii_lowercase (fr_record r) = to_ascii_lowercase record).
Definition ensure_dns_record_unassigned (id : Z) (zone record : rstr) : fleet_db unit :=
  conflict ← db_get (λ s, any (λ x : Z * FailoverRow, negb (x.1 =? id) && same_record zone record x.2) (map_to_list (dns_failovers s)));
  db_ensure (negb conflict) DnsRecordAssigned.
(** The unique columns [name] and [hostname], for an INSERT or UPDATE of row [id]. *)
Definition name_clash (id : Z) (request : UpsertFleetDnsFailover) (s : FleetDb) : bool :=
  any (λ x : Z * FailoverRow, negb (x.1 =? id) && (bool_decide (fr_name x.2 = ud_name request) || bool_decide (fr_hostname x.2 = ud_hostname request)))
    (map_to_list (dns_failovers s)).
Definition peer_exists (peer : Z) (s : FleetDb) : bool := bool_decide (is_Some (fleet_peers s !! peer)).

(** [ORDER BY peer_id]; the texts of UUIDs are ordered as their values. *)
Definition targets_of (id : Z) (s : FleetDb) : list FleetDnsPeerTarget :=
  merge_sort (λ x y : FleetDnsPeerTarget, dt_peer x <=? dt_peer y)
    ((λ x : (Z * Z) * rstr, {| dt_peer := x.1.2; dt_value := x.2 |}) <$> filter (λ x, x.1.1 = id) (map_to_list (dns_targets s))).
Definition read_dns_targets (id : Z) : fleet_db (list FleetDnsPeerTarget) := db_get (targets_of id).
Fixpoint insert_targets (id : Z) (l : list FleetDnsPeerTarget) : fleet_db unit :=
  match l with
  | [] => mret tt
  | t :: l =>
      refused ← db_get (λ s, bool_decide (is_Some (dns_targets s !! (id, dt_peer t))) || negb (peer_exists (dt_peer t) s));
      _ ← db_ensure (negb refused) FleetDatabase;
      _ ← db_put (set_targets (<[(id, dt_peer t) := dt_value t]>));
      insert_targets id l
  end.
Definition replace_dns_targets (id : Z) (l : list FleetDnsPeerTarget) : fleet_db unit :=
  _ ← db_put (set_targets (filter (λ x, x.1.1 ≠ id)));
  insert_targets id l.

Section dns.
Context {env : FleetEnv} {plat : Platform}.

Definition read_dns_failover (id : Z) : fleet_db (option FleetDnsFailover) :=
  row ← db_get (λ s, dns_failovers s !! id);
  match row with None => mret None | Some row => f ← db_lift (ok_or (read_dns_failover_row id row) FleetDatabase); mret (Some f) end.
Definition with_targets (l : list FleetDnsPeerTarget) (f : FleetDnsFailover) : FleetDnsFailover :=
  {| fo_id := fo_id f; fo_name := fo_name f; fo_hostname := fo_hostname f; fo_record_type := fo_record_type f; fo_zone := fo_zone f;
     fo_record := fo_record f; fo_token_env := fo_token_env f; fo_token_configured := fo_token_configured f; fo_ttl := fo_ttl f;
     fo_proxied := fo_proxied f; fo_enabled := fo_enabled f; fo_reconcile := fo_reconcile f; fo_cooldown := fo_cooldown f;
     fo_frozen := fo_frozen f; fo_freeze_reason := fo_freeze_reason f; fo_current_peer := fo_current_peer f;
     fo_current_target := fo_current_target f; fo_last_switch := fo_last_switch f; fo_not_before := fo_not_before f;
     fo_last_switch_reason := fo_last_switch_reason f; fo_last_error := fo_last_error f; fo_pending := fo_pending f; fo_targets := l;
     fo_created := fo_created f; fo_updated := fo_updated f |}.
Definition get_dns_failover (id : Z) : fleet_db (option FleetDnsFailover) :=
  f ← read_dns_failover id;
  match f with None => mret None | Some f => l ← read_dns_targets (fo_id f); mret (Some (with_targets l f)) end.
(** [ORDER BY name]. *)
Definition by_name (l : list (Z * FailoverRow)) : list (Z * FailoverRow) :=
  merge_sort (λ x y : Z * FailoverRow, lex_le (as_bytes (fr_name x.2)) (as_bytes (fr_name y.2))) l.
Definition list_dns_failovers : fleet_db (list FleetDnsFailover) :=
  rows ← db_get (λ s, by_name (map_to_list (dns_failovers s)));
  failovers ← db_lift (collect (λ '(id, row), ok_or (read_dns_failover_row id row) FleetDatabase) rows);
  db_get (λ s, (λ f, with_targets (targets_of (fo_id f) s) f) <$> failovers).
(** [ORDER BY completed_unix_seconds DESC, operation_id DESC LIMIT]. *)
Definition list_dns_switch_events (id : Z) (limit : Z) : fleet_db (list FleetDnsSwitchEvent) :=
  db_get (λ s,
    (λ x : Z * SwitchRow, {| se_operation := x.1; se_failover := sw_failover x.2; se_peer := sw_peer x.2; se_target := sw_target x.2; se_reason := sw_reason x.2;
                             se_applied := sw_applied x.2; se_error := sw_error x.2; se_completed := nonnegative_column (sw_completed x.2) |}) <$>
    take (Z.to_nat (Z.max 1 (Z.min 500 limit)))
      (merge_sort (λ x y : Z * SwitchRow, lex_le [- sw_completed x.2; - x.1] [- sw_completed y.2; - y.1])
         (filter (λ x, sw_failover x.2 = id) (map_to_list (switch_events s))))).

(** ** Administration *)

Definition create_dns_failover (request : UpsertFleetDnsFailover) (peers : list FleetPeer) (id now : Z) : fleet_db FleetDnsFailover :=
  request ← db_lift (validate_dns_failover request peers);
  _ ← transaction (
    _ ← ensure_dns_record_unassigned id (ud_zone request) (ud_record request);
    clash ← db_get (λ s, bool_decide (is_Some (dns_failovers s !! id)) || name_clash id request s);
    _ ← db_ensure (negb clash) FleetDatabase;
    _ ← db_put (set_failovers (<[id := new_failover request now]>));
    _ ← replace_dns_targets id (ud_targets request);
    mret (true, tt));
  f ← get_dns_failover id;
  db_lift (ok_or f DnsFailoverMissing).
Definition update_dns_failover (id : Z) (request : UpsertFleetDnsFailover) (peers : list FleetPeer) (now : Z) : fleet_db (option FleetDnsFailover) :=
  request ← db_lift (validate_dns_failover request peers);
  found ← transaction (
    row ← db_get (λ s, dns_failovers s !! id);
    match row with
    | None => mret (true, false)
    | Some row =>
        _ ← db_ensure (bool_decide (pd_operation (fr_pending row) = None)) DnsPending;
        _ ← ensure_dns_record_unassigned id (ud_zone request) (ud_record request);
        clash ← db_get (name_clash id request);
        _ ← db_ensure (negb clash) FleetDatabase;
        _ ← db_put (set_failovers (alter (with_settings request now) id));
        _ ← replace_dns_targets id (ud_targets request);
        mret (true, true)
    end);
  if negb found then mret None else get_dns_failover id.
(** [ON DELETE CASCADE]. *)
Definition remove_failover (id : Z) (s : FleetDb) : FleetDb :=
  set_switches (filter (λ x, sw_failover x.2 ≠ id)) (set_targets (filter (λ x, x.1.1 ≠ id)) (set_failovers (base.delete id) s)).
Definition delete_dns_failover (id : Z) : fleet_db bool :=
  row ← db_get (λ s, dns_failovers s !! id);
  match row with
  | None => mret false
  | Some row =>
      _ ← db_ensure (bool_decide (pd_operation (fr_pending row) = None)) DnsPending;
      _ ← db_put (remove_failover id);
      mret true
  end.
Definition set_dns_frozen (id : Z) (frozen : bool) (reason : option rstr) (now : Z) : fleet_db (option FleetDnsFailover) :=
  reason ← (if frozen then
              let reason := summarize_error (default (lit "manual freeze") reason) in
              _ ← db_ensure (negb (bool_decide (reason = []))) DnsFreezeReasonRequired;
              mret (Some reason)
            else mret None);
  found ← db_get (λ s, bool_decide (is_Some (dns_failovers s !! id)));
  _ ← db_put (set_failovers (alter (with_frozen frozen reason now) id));
  if negb found then mret None else get_dns_failover id.

(** ** Choosing a target *)

Definition candidate_key (c : DnsCandidate) : list Z := dc_priority c :: (- dc_weight c) :: as_bytes (dc_name c).
Definition candidate_le (x y : DnsCandidate) : bool := lex_le (candidate_key x) (candidate_key y).
(** The join of [read_dns_candidates], for one row of targets. *)
Definition candidate_row (now : Z) (s : FleetDb) (t : FleetDnsPeerTarget) : option DnsCandidate :=
  p ← fleet_peers s !! dt_peer t;
  h ← health_state s !! dt_peer t;
  if pe_enabled p && bool_decide (st_state h = lit "healthy") && (st_cooldown_until h <=? to_i64 now)
  then Some {| dc_peer := dt_peer t; dc_name := pe_name p; dc_priority := pe_priority p; dc_weight := pe_weight p; dc_target := dt_value t |}
  else None.
Definition read_candidate (c : DnsCandidate) : option DnsCandidate :=
  priority ← get_uint U16_MAX (dc_priority c);
  weight ← get_uint U16_MAX (dc_weight c);
  Some {| dc_peer := dc_peer c; dc_name := dc_name c; dc_priority := priority; dc_weight := weight; dc_target := dc_target c |}.
Definition read_dns_candidates (f : FleetDnsFailover) (now : Z) : fleet_db (list DnsCandidate) :=
  rows ← db_get (λ s, merge_sort candidate_le (omap (candidate_row now s) (targets_of (fo_id f) s)));
  candidates ← db_lift (collect (λ c, ok_or (read_candidate c) FleetDatabase) rows);
  mret (merge_sort candidate_le (filter (λ c, is_ok (validate_dns_target (fo_record_type f) (dc_target c)) = true) candidates)).

(** [EXISTS(SELECT 1 FROM fleet_dns_targets ..)] for this failover, peer and value. *)
Definition target_configured (id peer : Z) (value : rstr) (s : FleetDb) : bool := bool_decide (dns_targets s !! (id, peer) = Some value).
Definition should_hold_current_dns_peer (f : FleetDnsFailover) (now : Z) : fleet_db bool :=
  match fo_current_peer f, fo_current_target f with
  | Some peer, Some target =>
      row ← db_get (λ s, fleet_peers s !! peer);
      match row with
      | None => mret false
      | Some p =>
          h ← db_get (λ s, health_state s !! peer);
          configured ← db_get (target_configured (fo_id f) peer target);
          if negb (pe_enabled p) || negb configured then mret false
          else
            mret match h with
                 | None => false
                 | Some h =>
                     if bool_decide (st_state h = lit "degraded") then true
                     else if bool_decide (st_state h = lit "healthy") then now <? nonnegative_column (st_cooldown_until h)
                     else false
                 end
      end
  | _, _ => mret false
  end.
Definition dns_switch_reason (f : FleetDnsFailover) (peer : Z) (target : rstr) : fleet_db rstr :=
  match fo_current_peer f with
  | None => mret (lit "initial_activation")
  | Some current =>
      if current =? peer then
        mret (if bool_decide (fo_current_target f = Some target) && fo_reconcile f then
                if bool_decide (fo_last_error f = Some DNS_PROVIDER_DRIFT) then lit "provider_drift" else lit "configuration_updated"
              else lit "target_value_changed")
      else
        row ← db_get (λ s, fleet_peers s !! current);
        h ← db_get (λ s, health_state s !! current);
        configured ← db_get (target_configured (fo_id f) current (default [] (fo_current_target f)));
        mret match row with
             | None => lit "current_peer_removed"
             | Some p =>
                 if negb (pe_enabled p) then lit "current_peer_disabled"
                 else if negb configured then lit "current_target_removed"
                 else
                   match st_state <$> h with
                   | None => lit "preferred_peer_recovered"
                   | Some state =>
                       if bool_decide (state = health_as_str Unhealthy) then lit "current_peer_unhealthy"
                       else if bool_decide (state = health_as_str Recovering) then lit "current_peer_recovering"
                       else if bool_decide (state = health_as_str Unknown) then lit "current_peer_unknown"
                       else if bool_decide (state = health_as_str Degraded) then lit "current_peer_degraded"
                       else lit "preferred_peer_recovered"
                   end
             end
  end.

(** ** Planning *)

Definition change_plan (f : FleetDnsFailover) (operation peer : Z) (peer_name target reason : rstr) (lease_until : Z) : FleetDnsChangePlan :=
  {| pl_operation := operation; pl_lease_until := lease_until; pl_failover := fo_id f; pl_failover_name := fo_name f; pl_hostname := fo_hostname f;
     pl_record_type := fo_record_type f; pl_zone := fo_zone f; pl_record := fo_record f; pl_token_env := fo_token_env f; pl_ttl := fo_ttl f;
     pl_proxied := fo_proxied f; pl_peer := peer; pl_peer_name := peer_name; pl_target := target; pl_reason := reason |}.
(** The struct after its pending operation has been cleared with an error. *)
Definition forgotten (error : rstr) (updated : Z) (f : FleetDnsFailover) : FleetDnsFailover :=
  {| fo_id := fo_id f; fo_name := fo_name f; fo_hostname := fo_hostname f; fo_record_type := fo_record_type f; fo_zone := fo_zone f;
     fo_record := fo_record f; fo_token_env := fo_token_env f; fo_token_configured := fo_token_configured f; fo_ttl := fo_ttl f;
     fo_proxied := fo_proxied f; fo_enabled := fo_enabled f; fo_reconcile := fo_reconcile f; fo_cooldown := fo_cooldown f;
     fo_frozen := fo_frozen f; fo_freeze_reason := fo_freeze_reason f; fo_current_peer := fo_current_peer f;
     fo_current_target := fo_current_target f; fo_last_switch := fo_last_switch f; fo_not_before := fo_not_before f;
     fo_last_switch_reason := fo_last_switch_reason f; fo_last_error := Some error; fo_pending := no_pending; fo_targets := fo_targets f;
     fo_created := fo_created f; fo_updated := updated |}.
Definition lease_end (now : Z) : Z := saturating_add U64_MAX now DNS_OPERATION_LEASE_SECONDS.
(** The end of the loop body: reserving a new operation; [drawn] is [Uuid::new_v4()]. *)
Definition plan_new (f : FleetDnsFailover) (now drawn : Z) : fleet_db (option FleetDnsChangePlan) :=
  if now <? fo_not_before f then mret None
  else
    hold ← should_hold_current_dns_peer f now;
    if (hold : bool) then mret None
    else
      candidates ← read_dns_candidates f now;
      match candidates with
      | [] => mret None
      | c :: _ =>
          if bool_decide (fo_current_peer f = Some (dc_peer c)) && bool_decide (fo_current_target f = Some (dc_target c)) && negb (fo_reconcile f)
          then mret None
          else
            reason ← dns_switch_reason f (dc_peer c) (dc_target c);
            reserved ← db_get (λ s, match dns_failovers s !! fo_id f with Some r => bool_decide (pd_operation (fr_pending r) = None) | None => false end);
            _ ← db_ensure reserved DnsReservationConflicted;
            known ← db_get (peer_exists (dc_peer c));
            _ ← db_ensure known FleetDatabase;
            _ ← db_put (set_failovers (alter (with_pending
                  {| pd_operation := Some drawn; pd_peer := Some (dc_peer c); pd_target := Some (dc_target c); pd_reason := Some reason;
                     pd_started := Some (to_i64 now); pd_lease_until := Some (to_i64 (lease_end now)) |} now) (fo_id f)));
            mret (Some (change_plan f drawn (dc_peer c) (dc_name c) (dc_target c) reason (lease_end now)))
      end.
Definition pending_any (p : Pending) : bool :=
  bool_decide (is_Some (pd_operation p)) || bool_decide (is_Some (pd_peer p)) || bool_decide (is_Some (pd_target p)) || bool_decide (is_Some (pd_reason p)).
Definition pending_complete (p : Pending) : option (Z * Z * rstr * rstr) :=
  operation ← pd_operation p; peer ← pd_peer p; target ← pd_target p; reason ← pd_reason p; Some (operation, peer, target, reason).
Definition INCOMPLETE_PENDING : rstr := lit "incomplete pending DNS operation was cleared".
Definition PENDING_UNFIT : rstr := lit "pending DNS target no longer satisfies health and cooldown".
Definition clear_incomplete (f : FleetDnsFailover) (now : Z) : fleet_db FleetDnsFailover :=
  if pending_any (fo_pending f) && negb (bool_decide (is_Some (pending_complete (fo_pending f)))) then
    _ ← increment_counter DNS_SWITCH_FAILURES;
    _ ← db_put (set_failovers (alter (cleared (Some INCOMPLETE_PENDING) now) (fo_id f)));
    mret (forgotten INCOMPLETE_PENDING now f)
  else mret f.
(** Settling an operation by an event. *)
Definition insert_switch_event (operation : Z) (row : SwitchRow) : fleet_db unit :=
  clash ← db_get (λ s, bool_decide (is_Some (switch_events s !! operation)));
  _ ← db_ensure (negb clash) FleetDatabase;
  db_put (set_switches (<[operation := row]>)).
Definition fits (peer : Z) (target : rstr) (l : list DnsCandidate) : bool := any (λ c, (dc_peer c =? peer) && bool_decide (dc_target c = target)) l.
(** One round of the loop. *)
Definition plan_failover (id now drawn : Z) : fleet_db (option FleetDnsChangePlan) :=
  f ← read_dns_failover id;
  match f with
  | None => mret None
  | Some f =>
      targets ← read_dns_targets id;
      f ← clear_incomplete (with_targets targets f) now;
      match pending_complete (fo_pending f) with
      | Some (operation, peer, target, reason) =>
          if match pd_lease_until (fo_pending f) with Some lease => now <? lease | None => false end then mret None
          else
            candidates ← read_dns_candidates f now;
            if fits peer target candidates then
              name ← db_get (λ s, match fleet_peers s !! peer with Some p => pe_name p | None => uuid_string peer end);
              _ ← db_put (set_failovers (alter (λ r, if bool_decide (pd_operation (fr_pending r) = Some operation) then with_lease (lease_end now) now r else r) id));
              mret (Some (change_plan f operation peer name target reason (lease_end now)))
            else
              _ ← insert_switch_event operation
                    {| sw_failover := id; sw_peer := peer; sw_target := target; sw_reason := reason; sw_applied := false;
                       sw_error := Some PENDING_UNFIT; sw_completed := to_i64 now |};
              _ ← increment_counter DNS_SWITCH_FAILURES;
              _ ← db_put (set_failovers (alter (cleared (Some PENDING_UNFIT) now) id));
              plan_new (forgotten PENDING_UNFIT (fo_updated f) f) now drawn
      | None => plan_new f now drawn
      end
  end.
(** [draw id] is the operation id that the round of failover [id] draws, if it needs one. *)
Fixpoint plan_loop (ids : list Z) (now : Z) (draw : Z → Z) : fleet_db (list FleetDnsChangePlan) :=
  match ids with
  | [] => mret []
  | id :: ids =>
      plan ← plan_failover id now (draw id);
      plans ← plan_loop ids now draw;
      mret (option_list plan ++ plans)
  end.
Definition active_failovers (only : option Z) (s : FleetDb) : list Z :=
  let rows := filter (λ x, fr_enabled x.2 = true ∧ fr_frozen x.2 = false) (map_to_list (dns_failovers s)) in
  match only with
  | Some id => fst <$> filter (λ x, x.1 = id) rows
  | None => fst <$> by_name rows
  end.
Definition plan_dns_changes (now : Z) (only : option Z) (draw : Z → Z) : fleet_db (list FleetDnsChangePlan) :=
  transaction (
    ids ← db_get (active_failovers only);
    plans ← plan_loop ids now draw;
    mret (true, plans)).

(** ** Carrying a change out *)

Definition dns_execution_job_key (plan : FleetDnsChangePlan) : rstr :=
  lit "fleet_dns:" ++ encode_hex (sha256 (as_bytes (to_ascii_lowercase (pl_zone plan) ++ [58] ++ to_ascii_lowercase (pl_record plan)))).
Definition assert_dns_job (plan : FleetDnsChangePlan) (lease : JobLease) : fleet_db unit :=
  db_ensure (bool_decide (j_job_kind lease = lit "fleet_dns") && bool_decide (j_job_key lease = dns_execution_job_key plan)) DnsLeaseMismatch.
(** A transaction under a job lease, with its readings of SQLite's clock. *)
Record Execution := { ex_jobs : JobLeases; ex_lease : JobLease; ex_fence_clock : Z; ex_lease_clock : Z; ex_clock : Z }.
Definition assert_lease (e : Execution) : fleet_db unit :=
  checked ← db_get (λ s, assert_sqlite_transaction_lease (ex_jobs e) (ex_lease e) (ex_fence_clock e) (ex_lease_clock e) (coordination s));
  db_lift (map_err LeaseRefused checked).
Definition database_now (clock : Z) : fleet_db Z := db_lift (ok_or (get_uint U64_MAX clock) FleetDatabase).

Definition dns_record_settings_match (f : FleetDnsFailover) (plan : FleetDnsChangePlan) : bool :=
  bool_decide (fo_hostname f = pl_hostname plan) && bool_decide (fo_record_type f = pl_record_type plan) && bool_decide (fo_zone f = pl_zone plan) &&
  bool_decide (fo_record f = pl_record plan) && bool_decide (fo_token_env f = pl_token_env plan) && (fo_ttl f =? pl_ttl plan) && Bool.eqb (fo_proxied f) (pl_proxied plan).
Definition assert_dns_plan_current (f : FleetDnsFailover) (plan : FleetDnsChangePlan) (now : Z) : fleet_db unit :=
  db_ensure (fo_enabled f && negb (fo_frozen f) && bool_decide (pd_operation (fo_pending f) = Some (pl_operation plan)) &&
    bool_decide (pd_peer (fo_pending f) = Some (pl_peer plan)) && bool_decide (pd_target (fo_pending f) = Some (pl_target plan)) &&
    bool_decide (pd_reason (fo_pending f) = Some (pl_reason plan)) && bool_decide (pd_lease_until (fo_pending f) = Some (pl_lease_until plan)) &&
    (now <? pl_lease_until plan) && dns_record_settings_match f plan) DnsOperationStale.
Definition dns_execution_seconds (plan : FleetDnsChangePlan) (now : Z) : result FleetError Z :=
  let remaining := saturating_sub (saturating_sub (pl_lease_until plan) now) 1 in
  _ ← reject_if (negb (11 <? remaining)) DnsTimeInsufficient;
  Ok remaining.
Definition validate_dns_execution (plan : FleetDnsChangePlan) (e : Execution) : fleet_db Z :=
  transaction (
    _ ← assert_dns_job plan (ex_lease e);
    _ ← assert_lease e;
    now ← database_now (ex_clock e);
    f ← read_dns_failover (pl_failover plan);
    f ← db_lift (ok_or f DnsFailoverMissing);
    targets ← read_dns_targets (pl_failover plan);
    let f := with_targets targets f in
    _ ← assert_dns_plan_current f plan now;
    _ ← ensure_dns_record_unassigned (pl_failover plan) (pl_zone plan) (pl_record plan);
    remaining ← db_lift (dns_execution_seconds plan now);
    candidates ← read_dns_candidates f now;
    _ ← db_ensure (fits (pl_peer plan) (pl_target plan) candidates) DnsTargetUnfit;
    mret (true, remaining)).

(** [result] is what the request gave: nothing, or the text of an error. *)
Definition complete_dns_change_inner (plan : FleetDnsChangePlan) (result : option rstr) (now : Z) (execution : option Execution)
    : fleet_db FleetDnsChangeResult :=
  transaction (
    now ← match execution with
          | Some e => _ ← assert_dns_job plan (ex_lease e); _ ← assert_lease e; database_now (ex_clock e)
          | None => mret now
          end;
    existing ← db_get (λ s, switch_events s !! pl_operation plan);
    match existing with
    | Some x =>
        _ ← db_ensure ((sw_failover x =? pl_failover plan) && (sw_peer x =? pl_peer plan) && bool_decide (sw_target x = pl_target plan) &&
                       bool_decide (sw_reason x = pl_reason plan)) DnsOperationStale;
        mret (true, {| cr_operation := pl_operation plan; cr_failover := sw_failover x; cr_peer := sw_peer x; cr_target := sw_target x;
                       cr_reason := sw_reason x; cr_applied := sw_applied x; cr_duplicate := true; cr_error := sw_error x |})
    | None =>
        f ← read_dns_failover (pl_failover plan);
        f ← db_lift (ok_or f DnsFailoverMissing);
        _ ← assert_dns_plan_current f plan now;
        let applied := bool_decide (result = None) in
        let error := summarize_error <$> result in
        _ ← insert_switch_event (pl_operation plan)
              {| sw_failover := pl_failover plan; sw_peer := pl_peer plan; sw_target := pl_target plan; sw_reason := pl_reason plan;
                 sw_applied := applied; sw_error := error; sw_completed := to_i64 now |};
        _ ← increment_counter (if applied then DNS_SWITCHES else DNS_SWITCH_FAILURES);
        let not_before := saturating_add U64_MAX now (fo_cooldown f) in
        _ ← (if applied then
               known ← db_get (peer_exists (pl_peer plan));
               _ ← db_ensure known FleetDatabase;
               db_put (set_failovers (alter (switched plan now not_before) (pl_failover plan)))
             else db_put (set_failovers (alter (switch_failed error now not_before) (pl_failover plan))));
        mret (true, {| cr_operation := pl_operation plan; cr_failover := pl_failover plan; cr_peer := pl_peer plan; cr_target := pl_target plan;
                       cr_reason := pl_reason plan; cr_applied := applied; cr_duplicate := false; cr_error := error |})
    end).
Definition complete_dns_change_with_lease (plan : FleetDnsChangePlan) (result : option rstr) (e : Execution) : fleet_db FleetDnsChangeResult :=
  complete_dns_change_inner plan result 0 (Some e).

(** ** Verification *)

Definition dns_verification_plan (f : FleetDnsFailover) (drawn : Z) : option FleetDnsChangePlan :=
  if negb (fo_enabled f) || fo_frozen f || bool_decide (is_Some (pd_operation (fo_pending f))) || fo_reconcile f then None
  else
    peer ← fo_current_peer f;
    target ← fo_current_target f;
    Some (change_plan f drawn peer [] target (lit "provider_verification") 0).
Definition dns_verification_is_current (f : FleetDnsFailover) (plan : FleetDnsChangePlan) : bool :=
  fo_enabled f && negb (fo_frozen f) && bool_decide (pd_operation (fo_pending f) = None) && negb (fo_reconcile f) &&
  bool_decide (fo_current_peer f = Some (pl_peer plan)) && bool_decide (fo_current_target f = Some (pl_target plan)) && dns_record_settings_match f plan.
Definition mark_dns_drift (plan : FleetDnsChangePlan) (e : Execution) : fleet_db bool :=
  transaction (
    _ ← assert_dns_job plan (ex_lease e);
    _ ← assert_lease e;
    f ← read_dns_failover (pl_failover plan);
    match f with
    | None => mret (false, false)
    | Some f =>
        if negb (dns_verification_is_current f plan) then mret (false, false)
        else
          _ ← db_put (set_failovers (alter (with_error true (Some DNS_PROVIDER_DRIFT) (to_u64 (ex_clock e))) (pl_failover plan)));
          mret (true, true)
    end).

(** ** The provider *)

Record CloudflareRecord := { cl_id : rstr; cl_name : rstr; cl_type : rstr; cl_content : rstr; cl_ttl : Z; cl_proxied : bool }.
Definition same_address {A} `{EqDecision A} (x y : option A) : bool := match x, y with Some x, Some y => bool_decide (x = y) | _, _ => false end.
Definition cloudflare_matches (self : CloudflareRecord) (plan : FleetDnsChangePlan) : bool :=
  let content :=
    match pl_record_type plan with
    | RecordA => same_address (parse_ipv4 (cl_content self)) (parse_ipv4 (pl_target plan))
    | RecordAaaa => same_address (parse_ipv6 (cl_content self)) (parse_ipv6 (pl_target plan))
    | RecordCname => eq_ignore_ascii_case (trim_end_matches ch_dot (cl_content self)) (trim_end_matches ch_dot (pl_target plan))
    end in
  eq_ignore_ascii_case (cl_id self) (pl_record plan) && eq_ignore_ascii_case (trim_end_matches ch_dot (cl_name self)) (pl_hostname plan) &&
  bool_decide (cl_type self = record_as_str (pl_record_type plan)) && content && Bool.eqb (cl_proxied self) (pl_proxied plan) &&
  (cl_proxied self || (cl_ttl self =? pl_ttl plan)).
End dns.
