(* ===== verification/FleetProbes.v ===== *)
(** * The health of peers follows their probes ([fleet_health.rs])

    What the operations of [FleetHealth] do to the rows of health: [tracks] relates the rows of a peer to the history of
    the probes that counted, and every operation keeps it. *)

From S2P Require Import Prelude DbMonad RustStr RustText HaTables AdminAuth TunnelTables TunnelCatalog FleetTables FleetHealth.
Local Open Scope Z_scope.
Set Default Proof Using "Type".

Definition moment_ok (t : Z) : Prop := 0 ≤ t ≤ CLOCK_MAX.
Lemma moment_i64 t d : moment_ok t → 0 ≤ d ≤ 86400 → to_i64 (t + d) = t + d.
Proof. unfold moment_ok, CLOCK_MAX. intros. apply to_i64_small. lia. Qed.
Lemma moment_i64_0 t : moment_ok t → to_i64 t = t.
Proof. unfold moment_ok, CLOCK_MAX. intros. apply to_i64_small. lia. Qed.
Lemma moment_column t : moment_ok t → nonnegative_column t = t.
Proof. unfold moment_ok, nonnegative_column. lia. Qed.
Lemma moment_columns (o : option Z) : (∀ t, o = Some t → moment_ok t) → nonnegative_column <$> o = o.
Proof. destruct o as [t|]; [|done]. intros H. cbn. by rewrite moment_column by auto. Qed.

(** The time of the probe that led to the present state. *)
Fixpoint changed_at (l : list Accepted) : option Z :=
  match l with
  | [] => None
  | a :: l' => if bool_decide (health_by_history l = health_by_history l') then changed_at l' else Some (ac_at a)
  end.
Definition last_at (b : bool) (l : list Accepted) : option Z := ac_at <$> head (filter (λ a, ac_success a = b) l).

Record tracks (c : ConfigRow) (r : StateRow) (l : list Accepted) : Prop := {
  tr_success_threshold : 1 ≤ cf_success_threshold c ≤ 20;
  tr_failure_threshold : 1 ≤ cf_failure_threshold c ≤ 20;
  tr_cooldown : 0 ≤ cf_cooldown_seconds c ≤ 86400;
  tr_state : st_state r = health_as_str (health_by_history l);
  tr_successes : st_successes r = Z.min U16_MAX (latest true l);
  tr_failures : st_failures r = Z.min U16_MAX (latest false l);
  tr_last_probe : st_last_probe r = ac_at <$> head l;
  tr_last_success : st_last_success r = last_at true l;
  tr_last_failure : st_last_failure r = last_at false l;
  tr_times : Forall (λ a, moment_ok (ac_at a)) l;
  tr_changed_time : moment_ok (st_state_changed r);
  tr_cooldown_until : st_cooldown_until r = st_state_changed r + cf_cooldown_seconds c ∨
                      health_by_history l = Unknown ∧ st_cooldown_until r = st_state_changed r;
  tr_changed : health_by_history l ≠ Unknown → changed_at l = Some (st_state_changed r);
}.

Lemma last_at_time b l t : Forall (λ a, moment_ok (ac_at a)) l → last_at b l = Some t → moment_ok t.
Proof.
  intros H. unfold last_at. destruct (head _) as [a|] eqn:E; [|done]. cbn. intros [= <-].
  apply head_Some_elem_of, list_elem_of_filter in E as [_ E]. by eapply (proj1 (Forall_forall _ _)) in H.
Qed.
Lemma health_parse_as_str x : health_parse (health_as_str x) = Some x.
Proof. by destruct x. Qed.
Lemma health_as_str_inj x y : health_as_str x = health_as_str y → x = y.
Proof. intros E. apply (f_equal health_parse) in E. rewrite !health_parse_as_str in E. by injection E. Qed.
Lemma get_uint_fits max n : 0 ≤ n ≤ max → get_uint max n = Some n.
Proof. intros H. unfold get_uint, within. by rewrite (proj2 (Z.leb_le _ _)), (proj2 (Z.leb_le _ _)) by lia. Qed.

(** An operation that stopped. *)
Ltac refused := eexists _, _; split; [reflexivity|]; first [reflexivity|left; reflexivity].
(** The guards that a validation passed. *)
Ltac rejects_inv H :=
  repeat bind_inv H; repeat match goal with E : reject_if _ _ = Ok ?u |- _ => apply reject_if_Ok in E end.

(** What a snapshot of tracked rows says. *)
Record reports (sn : FleetHealthSnapshot) (peer : Z) (c : ConfigRow) (r : StateRow) (l : list Accepted) : Prop := {
  rp_success_threshold : hc_success_threshold (sn_config sn) = cf_success_threshold c;
  rp_failure_threshold : hc_failure_threshold (sn_config sn) = cf_failure_threshold c;
  rp_cooldown : hc_cooldown_seconds (sn_config sn) = cf_cooldown_seconds c;
  rp_peer : ph_peer (sn_health sn) = peer;
  rp_state : ph_state (sn_health sn) = health_by_history l;
  rp_successes : ph_successes (sn_health sn) = Z.min U16_MAX (latest true l);
  rp_failures : ph_failures (sn_health sn) = Z.min U16_MAX (latest false l);
  rp_last_probe : ph_last_probe (sn_health sn) = ac_at <$> head l;
  rp_last_success : ph_last_success (sn_health sn) = last_at true l;
  rp_last_failure : ph_last_failure (sn_health sn) = last_at false l;
  rp_changed : ph_state_changed (sn_health sn) = st_state_changed r;
  rp_cooldown_until : ph_cooldown_until (sn_health sn) = st_cooldown_until r;
}.
Lemma read_tracked peer c r l : tracks c r l → ∃ sn, read_snapshot_row peer c r = Some sn ∧ reports sn peer c r l.
Proof.
  intros [H1 H2 H3 H4 H5 H6 H7 H8 H9 H10 H11 H12 H13]. unfold read_snapshot_row. pose proof (latest_nonneg true l). pose proof (latest_nonneg false l).
  rewrite H4, health_parse_as_str, H5, H6. assert (U16_MAX = 65535) as EU by done. assert (U32_MAX = 4294967295) as EV by done.
  cbn [mbind option_bind]. rewrite !get_uint_fits by lia. cbn [mbind option_bind]. eexists. split; [reflexivity|].
  split; cbn; try done.
  - rewrite H7. apply moment_columns. intros t Ht. destruct l as [|a l]; [done|]. cbn in Ht. injection Ht as <-. by inversion H10.
  - rewrite H8. apply moment_columns. intros t. by apply last_at_time.
  - rewrite H9. apply moment_columns. intros t. by apply last_at_time.
  - by apply moment_column.
  - unfold nonnegative_column. destruct H11. lia.
Qed.

(** A probe that counts extends the history. *)
Definition counted (c : ConfigRow) (o : FleetProbeObservation) : Accepted :=
  {| ac_success := ob_success o; ac_success_threshold := cf_success_threshold c; ac_failure_threshold := cf_failure_threshold c; ac_at := ob_observed o |}.
Lemma filter_head b a l : last_at b (a :: l) = if Bool.eqb (ac_success a) b then Some (ac_at a) else last_at b l.
Proof. unfold last_at. rewrite filter_cons. destruct (ac_success a), b; cbn; repeat case_decide; by try congruence. Qed.
Lemma tracks_probe peer c r l sn o : tracks c r l → reports sn peer c r l → moment_ok (ob_observed o) → tracks c (probed_row sn o) (counted c o :: l).
Proof.
  intros Ht Hr Ho. destruct (next_health_by_history l (counted c o)) as [reason E]; [apply Ht|apply Ht|].
  unfold probed_row. rewrite (rp_state _ _ _ _ _ Hr), (rp_successes _ _ _ _ _ Hr), (rp_failures _ _ _ _ _ Hr).
  rewrite (rp_success_threshold _ _ _ _ _ Hr), (rp_failure_threshold _ _ _ _ _ Hr). cbn in E. rewrite E.
  set (next := health_by_history (counted c o :: l)) in *.
  pose proof (tr_cooldown _ _ _ Ht) as Hc. pose proof (tr_changed_time _ _ _ Ht) as Hct. pose proof (tr_times _ _ _ Ht) as Hts.
  split; cbn [st_state st_successes st_failures st_last_probe st_last_success st_last_failure st_state_changed st_cooldown_until]; try apply Ht; try done.
  - by rewrite moment_i64_0.
  - rewrite filter_head. cbn. destruct (ob_success o); cbn; [by rewrite moment_i64_0|].
    rewrite (rp_last_success _ _ _ _ _ Hr). destruct (last_at true l) as [t|] eqn:El; [|done]. cbn. by rewrite moment_i64_0 by by eapply last_at_time.
  - rewrite filter_head. cbn. destruct (ob_success o); cbn; [|by rewrite moment_i64_0].
    rewrite (rp_last_failure _ _ _ _ _ Hr). destruct (last_at false l) as [t|] eqn:El; [|done]. cbn. by rewrite moment_i64_0 by by eapply last_at_time.
  - by constructor.
  - case_bool_decide; cbn; [rewrite (rp_changed _ _ _ _ _ Hr)|]; by rewrite moment_i64_0.
  - rewrite (rp_cooldown _ _ _ _ _ Hr), (rp_changed _ _ _ _ _ Hr), (rp_cooldown_until _ _ _ _ _ Hr). case_bool_decide as En; cbn [negb].
    + assert (0 ≤ st_cooldown_until r - st_state_changed r ≤ 86400) as Hd by (destruct (tr_cooldown_until _ _ _ Ht) as [->|[_ ->]]; lia).
      rewrite (moment_i64_0 (st_state_changed r)) by done.
      replace (to_i64 (st_cooldown_until r)) with (st_cooldown_until r).
      2:{ replace (st_cooldown_until r) with (st_state_changed r + (st_cooldown_until r - st_state_changed r)) by lia. by rewrite moment_i64. }
      destruct (tr_cooldown_until _ _ _ Ht) as [Hu|[Hu1 Hu2]]; [by left|]. right. fold next. by rewrite En.
    + left. unfold saturating_add. rewrite Z.min_r by (destruct Ho; unfold CLOCK_MAX in *; lia). rewrite moment_i64, moment_i64_0 by done. done.
  - intros Hn. cbn [changed_at]. fold next. case_bool_decide as En; cbn [negb]; [|by rewrite moment_i64_0].
    rewrite (rp_changed _ _ _ _ _ Hr), moment_i64_0 by done. apply (tr_changed _ _ _ Ht). by rewrite <- En.
Qed.
Lemma tracks_new now : moment_ok now → tracks (default_config now) (default_state now) [].
Proof. intros H. split; cbn; try done; rewrite ?moment_i64_0 by done; auto; by intros []. Qed.
Lemma tracks_config c r l request now :
  tracks c r l → validate_health_config request = Ok tt → 0 ≤ uh_cooldown_seconds request →
  tracks (with_config request now) (with_cooldown (uh_cooldown_seconds request) r) l.
Proof.
  intros Ht Hv Hc. unfold validate_health_config in Hv. rejects_inv Hv. unfold within in *. bool_prop.
  split; cbn; try apply Ht; first [lia|by left].
Qed.

(** ** The tables *)

Definition COUNTERS : list rstr := [PROBE_EVENTS; PROBE_FAILURES; HEALTH_TRANSITIONS; DNS_SWITCHES; DNS_SWITCH_FAILURES].
Definition counters_ok (s : FleetDb) : Prop := ∀ name, name ∈ COUNTERS → is_Some (health_counters s !! name).
(** The rows of every peer track its part of [log]. *)
Definition health_ok (s : FleetDb) (log : gmap Z (list Accepted)) : Prop := ∀ peer,
  match health_config s !! peer, health_state s !! peer with
  | Some c, Some r => is_Some (fleet_peers s !! peer) ∧ tracks c r (log !!! peer)
  | None, None => log !! peer = None
  | _, _ => False
  end.
Definition with_rows (peer now : Z) (s : FleetDb) : FleetDb :=
  set_state (insert_or_ignore peer (default_state now)) (set_config (insert_or_ignore peer (default_config now)) s).
(** Changes of counters and of the list of probes only. *)
Definition recorded (s s' : FleetDb) : Prop := (∃ f g, s' = set_probes f (set_counters g s)) ∧ (counters_ok s → counters_ok s').

Lemma insert_or_ignore_lookup {A} (k : Z) (a : A) t j :
  insert_or_ignore k a t !! j = if bool_decide (j = k) then Some (default a (t !! k)) else t !! j.
Proof.
  unfold insert_or_ignore. destruct (t !! k) as [b|] eqn:E; case_bool_decide as Ej; subst; cbn.
  - done. - done. - by rewrite lookup_insert_eq. - by rewrite lookup_insert_ne.
Qed.
Lemma health_with_rows s log peer now : health_ok s log → is_Some (fleet_peers s !! peer) → moment_ok now → health_ok (with_rows peer now s) log.
Proof.
  intros H Hp Hn k. specialize (H k). cbn. rewrite !insert_or_ignore_lookup. case_bool_decide as Ek; [subst|done].
  destruct (health_config s !! peer) as [c|], (health_state s !! peer) as [r|]; try done. cbn. split; [done|].
  rewrite lookup_total_alt, H. by apply tracks_new.
Qed.
Lemma health_rows_of s log peer : health_ok s log → is_Some (health_state s !! peer) →
  ∃ c r, health_config s !! peer = Some c ∧ health_state s !! peer = Some r ∧ is_Some (fleet_peers s !! peer) ∧ tracks c r (log !!! peer).
Proof. intros H [r Hr]. specialize (H peer). rewrite Hr in H. destruct (health_config s !! peer) as [c|]; [|done]. exists c, r. naive_solver. Qed.
Lemma health_config_of s log peer : health_ok s log → is_Some (health_config s !! peer) → is_Some (health_state s !! peer).
Proof. intros H [c Hc]. specialize (H peer). rewrite Hc in H. destruct (health_state s !! peer); [done|by destruct H]. Qed.
Lemma recorded_refl s : recorded s s.
Proof. split; [|done]. exists id, id. by destruct s. Qed.
Lemma recorded_trans s1 s2 s3 : recorded s1 s2 → recorded s2 s3 → recorded s1 s3.
Proof. intros [(f & g & ->) H1] [(f' & g' & ->) H2]. split; [exists (f' ∘ f), (g' ∘ g); done|auto]. Qed.
Lemma recorded_probes f s : recorded s (set_probes f s).
Proof. split; [exists f, id; by destruct s|done]. Qed.
Lemma recorded_health s s' log : recorded s s' → health_ok s log → health_ok s' log.
Proof. intros [(f & g & ->) _] H k. apply H. Qed.

Lemma db_mret_run {E S A} (a : A) (s : S) : (mret a : db E S A) s = Done (Ok a, s).
Proof. done. Qed.

Section operations.
Context {env : FleetEnv}.

Lemma ensure_peer_rows_run peer now s :
  ensure_peer_rows peer now s = if bool_decide (is_Some (fleet_peers s !! peer)) then Done (Ok tt, with_rows peer now s) else Done (Err PeerMissing, s).
Proof. unfold ensure_peer_rows. cbv [mbind db_bind db_get]. by case_bool_decide. Qed.
Lemma read_snapshot_run s log peer : health_ok s log →
  read_snapshot peer s = match health_state s !! peer with None => Done (Ok None, s) | Some _ => read_snapshot peer s end ∧
  (is_Some (health_state s !! peer) → ∃ c r sn, health_config s !! peer = Some c ∧ health_state s !! peer = Some r ∧ tracks c r (log !!! peer) ∧
     reports sn peer c r (log !!! peer) ∧ read_snapshot peer s = Done (Ok (Some sn), s)).
Proof.
  intros H. split.
  - destruct (health_state s !! peer) as [r|] eqn:Er; [done|]. unfold read_snapshot. cbv [mbind db_bind db_get]. rewrite Er.
    by destruct (health_config s !! peer).
  - intros (c & r & Hc & Hr & _ & Ht)%(health_rows_of _ _ _ H). destruct (read_tracked peer c r _ Ht) as (sn & E & Hsn). exists c, r, sn. split_and!; try done.
    unfold read_snapshot. cbv [mbind db_bind db_get]. rewrite Hc, Hr. cbv [db_lift mret db_ret]. rewrite E. done.
Qed.
Lemma counter_bumped s name : counters_ok s → name ∈ COUNTERS → ∃ s', increment_counter name s = Done (Ok tt, s') ∧ recorded s s' ∧ probe_events s' = probe_events s.
Proof.
  intros H Hn. destruct (H name Hn) as [v Hv]. unfold increment_counter. cbv [mbind db_bind db_get]. rewrite Hv. eexists. split; [done|]. split; [|done].
  split; [exists id, (<[name := v + 1]>); by destruct s|]. intros _ k Hk. cbn. destruct (decide (k = name)) as [->|]; [by rewrite lookup_insert_eq|].
  rewrite lookup_insert_ne by done. by apply H.
Qed.
Lemma counter_bumped_if (b : bool) s name : counters_ok s → name ∈ COUNTERS →
  ∃ s', (if b then increment_counter name else mret tt) s = Done (Ok tt, s') ∧ recorded s s'.
Proof. intros H Hn. destruct b; [|exists s; auto using recorded_refl]. destruct (counter_bumped s name H Hn) as (s' & ? & ? & _). eauto. Qed.
Lemma insert_probe_event_run peer o accepted previous resulting reason s :
  counters_ok s → Forall (λ e, pb_event e ≠ ob_event o) (probe_events s) →
  ∃ s', insert_probe_event peer o accepted previous resulting reason s = Done (Ok tt, s') ∧ recorded s s'.
Proof.
  intros Hc Hf. unfold insert_probe_event. cbv [mbind db_bind db_get].
  assert (any (λ e, pb_event e =? ob_event o) (probe_events s) = false) as ->.
  { apply not_true_iff_false. unfold any. rewrite existsb_exists. intros (e & He%list_elem_of_In & E). bool_prop. by eapply (proj1 (Forall_forall _ _)) in Hf. }
  cbv [db_ensure db_put]. change (negb false) with true. cbv iota. rewrite db_mret_run. match goal with |- context [increment_counter PROBE_EVENTS ?x] => set (s1 := x) end.
  assert (recorded s s1) as R1 by apply recorded_probes. assert (counters_ok s1) as C1 by by apply R1.
  destruct (counter_bumped s1 PROBE_EVENTS C1) as (s2 & -> & R2 & _); [set_solver|]. assert (counters_ok s2) as C2 by by apply R2.
  destruct (counter_bumped_if (accepted && negb (ob_success o)) s2 PROBE_FAILURES C2) as (s3 & -> & R3); [set_solver|]. assert (counters_ok s3) as C3 by by apply R3.
  destruct (counter_bumped_if (accepted && negb (bool_decide (previous = resulting))) s3 HEALTH_TRANSITIONS C3) as (s4 & -> & R4); [set_solver|].
  eexists. split; [done|]. eapply recorded_trans, recorded_probes. eauto using recorded_trans.
Qed.

(** ** Probes *)

Definition stored_event (s : FleetDb) (o : FleetProbeObservation) : option ProbeRow := head (filter (λ e, pb_event e = ob_event o) (probe_events s)).
Definition same_event (peer : Z) (o : FleetProbeObservation) (e : ProbeRow) : bool :=
  (pb_peer e =? peer) && (nonnegative_column (pb_observed e) =? ob_observed o) && Bool.eqb (pb_success e) (ob_success o).
Definition older (o : FleetProbeObservation) (l : list Accepted) : bool := match l with a :: _ => ob_observed o <? ac_at a | [] => false end.
(** The configuration a probe is judged by. *)
Definition config_of (s : FleetDb) (peer now : Z) : ConfigRow := default (default_config now) (health_config s !! peer).
Definition log_after (s : FleetDb) (peer : Z) (o : FleetProbeObservation) (accepted : bool) (log : gmap Z (list Accepted)) : gmap Z (list Accepted) :=
  if accepted then <[peer := counted (config_of s peer (ob_observed o)) o :: log !!! peer]> log else log.

Record probe_result (s : FleetDb) (log : gmap Z (list Accepted)) (peer : Z) (o : FleetProbeObservation) (res : FleetProbeResult) : Prop := {
  pr_known : is_Some (fleet_peers s !! peer);
  pr_same : ∀ e, stored_event s o = Some e → same_event peer o e = true;
  pr_is_duplicate : pr_duplicate res = bool_decide (is_Some (stored_event s o));
  pr_is_accepted : pr_accepted res = bool_decide (stored_event s o = None) && negb (older o (log !!! peer));
  pr_before : pr_previous res = health_by_history (log !!! peer);
  pr_after : ph_state (pr_health res) = health_by_history (log_after s peer o (pr_accepted res) log !!! peer);
}.
Definition probe_refused (s : FleetDb) (peer : Z) (o : FleetProbeObservation) (e : FleetError) : Prop :=
  e = PeerMissing ∧ fleet_peers s !! peer = None ∨
  e = EventConflicts ∧ is_Some (fleet_peers s !! peer) ∧ ∃ x, stored_event s o = Some x ∧ same_event peer o x = false.
(** The tables the operations on health leave alone, and the others. *)
Definition health_only (s s' : FleetDb) : Prop :=
  fleet_peers s' = fleet_peers s ∧ dns_failovers s' = dns_failovers s ∧ dns_targets s' = dns_targets s ∧ switch_events s' = switch_events s ∧
  coordination s' = coordination s ∧ (counters_ok s → counters_ok s').
Lemma recorded_health_only s s' : recorded s s' → health_only s s'.
Proof. intros [(f & g & ->) H]. by split_and!. Qed.
Lemma health_only_trans s1 s2 s3 : health_only s1 s2 → health_only s2 s3 → health_only s1 s3.
Proof. unfold health_only. intros (?&?&?&?&?&?) (?&?&?&?&?&?). split_and!; try congruence. auto. Qed.
Lemma health_only_refl s : health_only s s.
Proof. by split_and!. Qed.
Lemma with_rows_only peer now s : health_only s (with_rows peer now s).
Proof. by split_and!. Qed.

Lemma health_probed s log peer o c sn row : health_ok s log → health_config s !! peer = Some c → health_state s !! peer = Some row →
  reports sn peer c row (log !!! peer) → moment_ok (ob_observed o) →
  health_ok (set_state (alter (λ _, probed_row sn o) peer) s) (<[peer := counted c o :: log !!! peer]> log).
Proof.
  intros H Hc Hr Hsn Ho k. pose proof (H peer) as Hp. rewrite Hc, Hr in Hp. destruct Hp as [Hp Ht]. specialize (H k). cbn.
  destruct (decide (k = peer)) as [->|Hk].
  - rewrite Hc, lookup_alter_eq, Hr. cbn. rewrite lookup_total_insert_eq. split; [done|]. by eapply tracks_probe.
  - rewrite lookup_alter_ne, lookup_insert_ne, lookup_total_insert_ne by done. done.
Qed.
Lemma record_probe_run s log peer o : health_ok s log → counters_ok s → moment_ok (ob_observed o) →
  ∃ out s', record_probe peer o s = Done (out, s') ∧
    match out with
    | Err e => s' = s ∧ probe_refused s peer o e
    | Ok res => probe_result s log peer o res ∧ health_only s s' ∧ health_ok s' (log_after s peer o (pr_accepted res) log)
    end.
Proof.
  intros H Hc Ho. unfold record_probe, transaction. cbv [mbind db_bind]. rewrite ensure_peer_rows_run.
  destruct (fleet_peers s !! peer) as [p|] eqn:Hp; [rewrite bool_decide_true by done|].
  2:{ rewrite bool_decide_false by by intros []. eexists _, _. split; [done|]. split; [done|]. by left. }
  set (s1 := with_rows peer (ob_observed o) s). assert (health_ok s1 log) as H1 by by apply health_with_rows.
  assert (is_Some (health_state s1 !! peer)) as Hs1 by (cbn; rewrite insert_or_ignore_lookup, bool_decide_true by done; eauto).
  destruct (proj2 (read_snapshot_run s1 log peer H1) Hs1) as (c & r & sn & Hcc & Hrr & Ht & Hsn & E). cbv [db_get]. rewrite E.
  assert (config_of s peer (ob_observed o) = c) as Ec.
  { cbn in Hcc. rewrite insert_or_ignore_lookup, bool_decide_true in Hcc by done. unfold config_of. by injection Hcc. }
  cbv [db_lift ok_or]. change (head (filter (λ e, pb_event e = ob_event o) (probe_events s1))) with (stored_event s o).
  destruct (stored_event s o) as [x|] eqn:Ex.
  - unfold db_ensure. fold (same_event peer o x). destruct (same_event peer o x) eqn:Esame.
    + eexists _, _. split; [done|]. cbn [pr_accepted]. split; [|by split; [apply with_rows_only|]].
      split; cbn; rewrite ?Ex, ?Hp; try done; [by intros e [= <-]|apply (rp_state _ _ _ _ _ Hsn)|apply (rp_state _ _ _ _ _ Hsn)].
    + eexists _, _. split; [done|]. split; [done|]. right. rewrite Hp. eauto.
  - assert (Forall (λ e, pb_event e ≠ ob_event o) (probe_events s1)) as Hf.
    { apply Forall_forall. intros e He Ee. assert (e ∈ filter (λ e, pb_event e = ob_event o) (probe_events s1)) as Hin by by apply list_elem_of_filter.
      unfold stored_event in Ex. apply head_None in Ex. change (probe_events s1) with (probe_events s) in Hin. rewrite Ex in Hin. by apply elem_of_nil in Hin. }
    assert (match ph_last_probe (sn_health sn) with Some last => ob_observed o <? last | None => false end = older o (log !!! peer)) as ->.
    { rewrite (rp_last_probe _ _ _ _ _ Hsn). by destruct (log !!! peer). }
    destruct (older o (log !!! peer)) eqn:Eold.
    + destruct (insert_probe_event_run peer o false (ph_state (sn_health sn)) (ph_state (sn_health sn)) (lit "stale_event_ignored") s1) as (s2 & -> & R); [apply Hc|done|].
      eexists _, _. split; [done|]. cbn [pr_accepted]. split; [|split].
      * split; cbn; rewrite ?Ex, ?Hp, ?Eold; try done; apply (rp_state _ _ _ _ _ Hsn).
      * eapply health_only_trans; [apply (with_rows_only peer (ob_observed o))|by apply recorded_health_only].
      * by eapply recorded_health.
    + destruct (next_health_state (ph_state (sn_health sn)) _ _ _ _ _) as [[[next ?] ?] reason] eqn:En.
      pose proof (health_probed s1 log peer o c sn r H1 Hcc Hrr Hsn Ho) as H2. cbv [db_put].
      match goal with |- context [insert_probe_event peer o true ?a ?b ?q ?s2] => destruct (insert_probe_event_run peer o true a b q s2) as (s3 & -> & R); [apply Hc|done|] end.
      apply (recorded_health _ _ _ R) in H2 as H3.
      assert (is_Some (health_state s3 !! peer)) as Hs3 by (destruct R as [(f & g & ->) _]; cbn; rewrite lookup_alter_eq; cbn in Hrr; rewrite Hrr; cbn; eauto).
      destruct (proj2 (read_snapshot_run s3 _ peer H3) Hs3) as (c' & r' & sn' & _ & _ & _ & Hsn' & ->).
      eexists _, _. split; [done|]. cbn [pr_accepted]. split; [|split].
      * split; cbn; rewrite ?Ex, ?Hp, ?Eold; try done; [apply (rp_state _ _ _ _ _ Hsn)|]. rewrite Ec. apply (rp_state _ _ _ _ _ Hsn').
      * eapply health_only_trans; [apply (with_rows_only peer (ob_observed o))|]. eapply health_only_trans, recorded_health_only, R. by split_and!.
      * unfold log_after. by rewrite Ec.
Qed.

(** ** Other operations on health *)

Lemma health_config_run s log peer request now : health_ok s log → moment_ok now → 0 ≤ uh_cooldown_seconds request →
  ∃ out s', update_health_config peer request now s = Done (out, s') ∧
    match out with Err _ => s' = s | Ok _ => health_only s s' ∧ health_ok s' log end.
Proof.
  intros H Hn Hc. unfold update_health_config. cbv [mbind db_bind db_lift]. destruct (validate_health_config request) as [[]|e] eqn:Ev; [|by refused].
  unfold transaction. rewrite ensure_peer_rows_run. case_bool_decide as Hp; [|by refused].
  set (s1 := with_rows peer now s). assert (health_ok s1 log) as H1 by by apply health_with_rows.
  assert (is_Some (health_state s1 !! peer)) as Hs1 by (cbn; rewrite insert_or_ignore_lookup, bool_decide_true by done; eauto).
  destruct (health_rows_of _ _ _ H1 Hs1) as (c & r & Ec & Er & _ & Ht). cbv [db_get db_put]. rewrite Ec. cbn [negb bool_decide decide_rel].
  rewrite bool_decide_true by done. cbn [negb].
  match goal with |- context [read_snapshot peer ?x] => set (s2 := x) end.
  assert (health_ok s2 log) as H2.
  { intros k. specialize (H1 k). subst s2. cbn. destruct (decide (k = peer)) as [->|Hk].
    - change (insert_or_ignore peer (default_config now) (health_config s) !! peer = Some c) in Ec.
      change (insert_or_ignore peer (default_state now) (health_state s) !! peer = Some r) in Er.
      rewrite !lookup_alter_eq, Ec, Er. cbn. split; [done|]. by eapply tracks_config.
    - rewrite !lookup_alter_ne by done. done. }
  assert (is_Some (health_state s2 !! peer)) as Hs2.
  { subst s2. cbn. rewrite lookup_alter_eq. change (insert_or_ignore peer (default_state now) (health_state s)) with (health_state s1). rewrite Er. eauto. }
  destruct (proj2 (read_snapshot_run s2 log peer H2) Hs2) as (? & ? & sn & _ & _ & _ & _ & ->). eexists _, _. split; [done|]. by split; [split_and!|].
Qed.
Lemma ensure_peer_run s log peer now : health_ok s log → moment_ok now →
  ∃ out s', ensure_peer peer now s = Done (out, s') ∧ health_only s s' ∧ health_ok s' log.
Proof.
  intros H Hn. unfold ensure_peer. rewrite ensure_peer_rows_run. case_bool_decide as Hp; eexists _, _; (split; [done|]).
  - split; [apply with_rows_only|by apply health_with_rows].
  - split; [apply health_only_refl|done].
Qed.
Lemma insert_or_ignore_some (k : rstr) (v : Z) t : is_Some (insert_or_ignore k v t !! k).
Proof. unfold insert_or_ignore. destruct (t !! k) eqn:E; [eauto|]. by rewrite lookup_insert_eq. Qed.
Lemma insert_or_ignore_keeps (k j : rstr) (v : Z) t : is_Some (t !! j) → is_Some (insert_or_ignore k v t !! j).
Proof.
  intros H. unfold insert_or_ignore. destruct (t !! k) eqn:E; [done|]. destruct (decide (j = k)) as [->|]; [by rewrite lookup_insert_eq|].
  by rewrite lookup_insert_ne.
Qed.
Lemma health_open_run s log now : health_ok s log → moment_ok now →
  ∃ s', fleet_health_open now s = Done (Ok tt, s') ∧ health_only s s' ∧ counters_ok s' ∧ health_ok s' log.
Proof.
  intros H Hn. unfold fleet_health_open, initialize_persistent_counters, ensure_all_peers. cbv [mbind db_bind db_put]. eexists. split; [done|].
  assert (∀ x : FleetDb, (∃ a b c d e, health_counters x = insert_or_ignore DNS_SWITCH_FAILURES a (insert_or_ignore DNS_SWITCHES b
            (insert_or_ignore HEALTH_TRANSITIONS c (insert_or_ignore PROBE_FAILURES d (insert_or_ignore PROBE_EVENTS e (health_counters s)))))) → counters_ok x) as Hx.
  { intros x (a & b & c & d & e & E) k Hk. rewrite E. repeat (apply elem_of_cons in Hk as [->|Hk]; [auto 10 using insert_or_ignore_some, insert_or_ignore_keeps|]). by apply elem_of_nil in Hk. }
  split; [|split].
  - split_and!; try done. intros _. apply Hx. cbn. eauto 10.
  - apply Hx. cbn. eauto 10.
  - intros k. specialize (H k). cbn. rewrite !lookup_union, !lookup_fmap.
    destruct (health_config s !! k) as [c|], (health_state s !! k) as [r|]; try done.
    + by destruct (fleet_peers s !! k).
    + destruct (fleet_peers s !! k); [|done]. cbn. split; [done|]. rewrite lookup_total_alt, H. by apply tracks_new.
Qed.

(** ** Peers *)

Definition peer_row_ok (r : PeerRow) : Prop := 0 < pe_weight r ≤ 10000 ∧ 0 ≤ pe_priority r ≤ 10000.
Record peers_ok (s : FleetDb) : Prop := {
  po_rows : ∀ id r, fleet_peers s !! id = Some r → peer_row_ok r;
  po_names : ∀ i j ri rj, fleet_peers s !! i = Some ri → fleet_peers s !! j = Some rj → as_bytes (pe_name ri) = as_bytes (pe_name rj) → i = j;
}.
Definition peer_request_ok (request : UpsertFleetPeer) : Prop := 0 ≤ up_priority request.
(** A peer was stored. *)
Definition peer_stored (s : FleetDb) (id : Z) (s' : FleetDb) : Prop := ∃ row, s' = set_peers (<[id := row]>) s ∧ peers_ok s'.

Lemma validate_peer_ok request request' : peer_request_ok request → validate_peer request = Ok request' →
  0 < up_weight request' ≤ 10000 ∧ 0 ≤ up_priority request' ≤ 10000.
Proof.
  unfold peer_request_ok. intros Hp Hv. unfold validate_peer in Hv. repeat bind_inv Hv. destruct r4 as [scheme authority]. repeat bind_inv Hv.
  repeat match goal with E : reject_if _ _ = Ok ?u |- _ => apply reject_if_Ok in E end. injection Hv as <-. cbn. bool_prop. lia.
Qed.
Lemma peer_persist_run p s : peers_ok s → 0 < fp_weight p ≤ 10000 → 0 ≤ fp_priority p ≤ 10000 →
  ∃ out s', peer_persist p s = Done (out, s') ∧ match out with Err _ => s' = s | Ok _ => peer_stored s (fp_id p) s' end.
Proof.
  intros Hok Hw Hp. unfold peer_persist. cbv [mbind db_bind db_get]. destruct (peer_clash p (fleet_peers s)) eqn:Ec.
  { eexists _, _. split; [done|]. done. }
  eexists _, _. split; [done|]. cbv beta iota. exists (peer_row p (fleet_peers s !! fp_id p)). split; [by destruct s|].
  assert (∀ j r, fleet_peers s !! j = Some r → j ≠ fp_id p → as_bytes (pe_name r) ≠ as_bytes (fp_name p)) as Hfree.
  { intros j r Hj Hne E. apply not_true_iff_false in Ec. apply Ec. unfold peer_clash, any. apply existsb_exists. exists (j, r).
    split; [by apply list_elem_of_In, elem_of_map_to_list|]. cbn. rewrite (proj2 (Z.eqb_neq _ _)), (bool_decide_true _ E) by done. done. }
  split; cbn.
  - intros id r [[<- <-]|[? Hr]]%lookup_insert_Some; [done|]. by eapply po_rows.
  - intros i j ri rj Hi Hj E. apply lookup_insert_Some in Hi as [[<- <-]|[? Hi]], Hj as [[<- <-]|[? Hj]]; [done|..].
    + exfalso. by apply (Hfree j rj).
    + exfalso. by apply (Hfree i ri).
    + by eapply po_names.
Qed.
Lemma peer_create_run request id now s : peers_ok s → peer_request_ok request →
  ∃ out s', peer_create request id now s = Done (out, s') ∧ match out with Err _ => s' = s | Ok _ => peer_stored s id s' end.
Proof.
  intros Hok Hr. unfold peer_create. cbv [mbind db_bind db_lift]. destruct (validate_peer request) as [request'|e] eqn:Ev; [|by refused].
  destruct (validate_peer_ok _ _ Hr Ev) as [Hw Hp]. destruct (peer_persist_run (requested_peer request' id now now) s Hok Hw Hp) as (out & s' & -> & H).
  destruct out as [[]|e]; eexists _, _; (split; [done|]); done.
Qed.
Lemma peer_update_run request id now s : peers_ok s → peer_request_ok request →
  ∃ out s', peer_update id request now s = Done (out, s') ∧ (s' = s ∨ peer_stored s id s').
Proof.
  intros Hok Hr. unfold peer_update, peer_get. cbv [mbind db_bind db_lift db_get]. destruct (validate_peer request) as [request'|e] eqn:Ev; [|by refused].
  destruct (validate_peer_ok _ _ Hr Ev) as [Hw Hp]. destruct (fleet_peers s !! id) as [row|]; [|by refused].
  destruct (ok_or (read_peer id row) FleetDatabase) as [old|e]; [|by refused]. rewrite db_mret_run.
  destruct (peer_persist_run (requested_peer request' id (fp_created old) now) s Hok Hw Hp) as (out & s' & -> & H).
  destruct out as [[]|e]; eexists _, _; (split; [done|]); eauto.
Qed.
Lemma health_stored s log id s' : peer_stored s id s' → health_ok s log → health_ok s' log.
Proof.
  intros (row & -> & _) H k. specialize (H k). cbn. destruct (health_config s !! k), (health_state s !! k); try done.
  destruct H as [H Ht]. split; [|done]. destruct (decide (k = id)) as [->|]; [by rewrite lookup_insert_eq|by rewrite lookup_insert_ne].
Qed.
Lemma health_removed s log id : health_ok s log → health_ok (remove_peer id s) (base.delete id log).
Proof.
  intros H k. specialize (H k). cbn. destruct (decide (k = id)) as [->|Hk].
  - by rewrite !lookup_delete_eq.
  - rewrite !lookup_delete_ne, lookup_total_delete_ne by done. done.
Qed.
Lemma peers_removed s id : peers_ok s → peers_ok (remove_peer id s).
Proof.
  intros [H1 H2]. split; cbn.
  - intros k r [_ Hr]%lookup_delete_Some. by eapply H1.
  - intros i j ri rj [_ Hi]%lookup_delete_Some [_ Hj]%lookup_delete_Some. by eapply H2.
Qed.
End operations.
