(* ===== verification/FleetSystem.v ===== *)
(** * Histories of the fleet ([fleet.rs], [fleet_health.rs])

    Every order of operations on peers, on their health and on DNS records, by the administrator, by the monitor and by workers,
    with restarts. [FleetWorld] adds to the tables what the theorems speak of: the probes that counted, and the operations that
    were settled. *)

From S2P Require Import Prelude DbMonad RustStr RustText HaTables HaCoordination JobLeases AdminAuth TunnelTables TunnelCatalog FleetTables FleetHealth FleetDns FleetProbes.
Local Open Scope Z_scope.
Set Default Proof Using "Type".

(** ** Settled operations *)

(** Newest first. [sd_attempted] tells the operations that a worker carried out from those the planner gave up. *)
Record Settled := {
  sd_operation : Z; sd_failover : Z; sd_peer : Z; sd_target : rstr; sd_applied : bool; sd_attempted : bool; sd_at : Z; sd_cooldown : Z;
}.
Definition settled_as (attempted : bool) (now : Z) (s : FleetDb) (operation : Z) (e : SwitchRow) : Settled :=
  {| sd_operation := operation; sd_failover := sw_failover e; sd_peer := sw_peer e; sd_target := sw_target e; sd_applied := sw_applied e;
     sd_attempted := attempted; sd_at := now; sd_cooldown := match dns_failovers s !! sw_failover e with Some r => fr_cooldown r | None => 0 end |}.
(** The operations whose events a step from [s] to [s'] added. *)
Definition settled_by (attempted : bool) (now : Z) (s s' : FleetDb) : list Settled :=
  (λ x : Z * SwitchRow, settled_as attempted now s x.1 x.2) <$> map_to_list (switch_events s' ∖ switch_events s).
(** The change of a record that was applied last. *)
Definition last_applied (id : Z) (l : list Settled) : option Settled := head (filter (λ x, sd_failover x = id ∧ sd_applied x = true) l).
Fixpoint spaced (l : list Settled) : Prop :=
  match l with
  | [] => True
  | y :: l => (∀ x, x ∈ l → sd_failover x = sd_failover y → sd_attempted x = true → sd_attempted y = true → sd_at x + sd_cooldown x ≤ sd_at y) ∧ spaced l
  end.

(** ** The invariant on DNS records *)

Inductive pending_ok (s : FleetDb) (ops : gset Z) (l : list Settled) (clock not_before : Z) : Pending → Prop :=
  | idle : pending_ok s ops l clock not_before no_pending
  | reserved operation peer target reason started lease :
      operation ∈ ops → switch_events s !! operation = None → operation ∉ sd_operation <$> l → (∀ p, peer = Some p → is_Some (fleet_peers s !! p)) →
      0 ≤ lease ≤ CLOCK_MAX + 86400 → not_before ≤ clock →
      pending_ok s ops l clock not_before
        {| pd_operation := Some operation; pd_peer := peer; pd_target := Some target; pd_reason := Some reason; pd_started := Some started; pd_lease_until := Some lease |}.
Record failover_ok (s : FleetDb) (ops : gset Z) (l : list Settled) (clock id : Z) (r : FailoverRow) : Prop := {
  fk_type : ∃ t, fr_record_type r = record_as_str t;
  fk_ttl : 0 ≤ fr_ttl r ≤ 86400;
  fk_cooldown : 1 ≤ fr_cooldown r ≤ 86400;
  fk_not_before : 0 ≤ fr_not_before r ≤ CLOCK_MAX + 86400;
  fk_pending : pending_ok s ops l clock (fr_not_before r) (fr_pending r);
  fk_current_peer : ∀ p, fr_current_peer r = Some p → is_Some (fleet_peers s !! p) ∧ sd_peer <$> last_applied id l = Some p;
  fk_current : fr_current_target r = sd_target <$> last_applied id l;
  fk_spaced : ∀ x, x ∈ l → sd_failover x = id → sd_attempted x = true → sd_at x + sd_cooldown x ≤ fr_not_before r;
}.
Record dns_ok (s : FleetDb) (ops used : gset Z) (l : list Settled) (clock : Z) : Prop := {
  dk_rows : ∀ id r, dns_failovers s !! id = Some r → id ∈ used ∧ failover_ok s ops l clock id r;
  dk_records : ∀ i j ri rj, dns_failovers s !! i = Some ri → dns_failovers s !! j = Some rj → same_record (fr_zone ri) (fr_record ri) rj = true → i = j;
  dk_operations : ∀ i j ri rj op, dns_failovers s !! i = Some ri → dns_failovers s !! j = Some rj →
    pd_operation (fr_pending ri) = Some op → pd_operation (fr_pending rj) = Some op → i = j;
  dk_targets : ∀ id p v, dns_targets s !! (id, p) = Some v →
    is_Some (fleet_peers s !! p) ∧ ∃ r t, dns_failovers s !! id = Some r ∧ fr_record_type r = record_as_str t ∧ validate_dns_target t v = Ok tt;
  dk_events : ∀ op e, switch_events s !! op = Some e → ∃ x, x ∈ l ∧ sd_operation x = op ∧ sd_failover x = sw_failover e ∧ sd_peer x = sw_peer e ∧
    sd_target x = sw_target e ∧ sd_applied x = sw_applied e;
  dk_settled : ∀ x, x ∈ l → sd_operation x ∈ ops ∧ sd_failover x ∈ used;
  dk_once : NoDup (sd_operation <$> l);
  dk_spaced : spaced l;
}.

(** ** Validated requests *)

Record dns_request_ok (request : UpsertFleetDnsFailover) : Prop := {
  dr_ttl : 0 ≤ ud_ttl request ≤ 86400;
  dr_cooldown : 1 ≤ ud_cooldown request ≤ 86400;
  dr_targets : ∀ t, t ∈ ud_targets request → validate_dns_target (ud_record_type request) (dt_value t) = Ok tt;
}.
Lemma validate_targets_ok record_type known seen l l' : validate_targets record_type known seen l = Ok l' →
  ∀ t, t ∈ l' → validate_dns_target record_type (dt_value t) = Ok tt.
Proof.
  revert seen l'. induction l as [|x l IH]; intros seen l' H; cbn [validate_targets] in H.
  - injection H as <-. by intros t ?%elem_of_nil.
  - repeat bind_inv H. injection H as <-. intros t [->|Ht]%elem_of_cons; [cbn; by destruct r1|by eapply IH].
Qed.
Lemma validate_dns_failover_ok request peers request' : validate_dns_failover request peers = Ok request' → dns_request_ok request'.
Proof.
  unfold validate_dns_failover. intros H. repeat bind_inv H.
  repeat match goal with E : reject_if _ _ = Ok ?u |- _ => apply reject_if_Ok in E end. injection H as <-. split; cbn.
  - unfold within in *. bool_prop. repeat match goal with H : _ ∨ _ |- _ => destruct H end; bool_prop; lia.
  - unfold within in *. bool_prop. lia.
  - intros t Ht. rewrite merge_sort_Permutation in Ht. by eapply validate_targets_ok.
Qed.
Lemma record_parse_as_str t : record_parse (record_as_str t) = Some t.
Proof. by destruct t. Qed.
Lemma record_as_str_inj t t' : record_as_str t = record_as_str t' → t = t'.
Proof. intros E. apply (f_equal record_parse) in E. rewrite !record_parse_as_str in E. by injection E. Qed.

Lemma same_record_refl r : same_record (fr_zone r) (fr_record r) r = true.
Proof. unfold same_record. by rewrite !bool_decide_true. Qed.
Lemma same_record_sym r r' : same_record (fr_zone r) (fr_record r) r' = same_record (fr_zone r') (fr_record r') r.
Proof. unfold same_record. by rewrite (bool_decide_ext _ (to_ascii_lowercase (fr_zone r) = to_ascii_lowercase (fr_zone r'))), (bool_decide_ext (to_ascii_lowercase (fr_record r') = _) (to_ascii_lowercase (fr_record r) = to_ascii_lowercase (fr_record r'))) by (split; congruence). Qed.

(** ** What changes keep the invariant *)

Lemma pending_ok_mono s s' ops ops' l l' clock clock' nb p :
  pending_ok s ops l clock nb p → ops ⊆ ops' → clock ≤ clock' → (∀ k, is_Some (fleet_peers s !! k) → is_Some (fleet_peers s' !! k)) →
  (∀ op, pd_operation p = Some op → switch_events s' !! op = switch_events s !! op ∧ (op ∈ sd_operation <$> l' → op ∈ sd_operation <$> l)) →
  pending_ok s' ops' l' clock' nb p.
Proof.
  intros [|op peer target reason started lease H1 H2 H3 H4 H5 H6] Ho Hc Hp He; [constructor|]. destruct (He op eq_refl) as [E1 E2].
  constructor; [by apply Ho|by rewrite E1|auto|eauto|done|lia].
Qed.
Lemma failover_ok_mono s s' ops ops' xs l clock clock' id r :
  failover_ok s ops l clock id r → ops ⊆ ops' → clock ≤ clock' → (∀ k, is_Some (fleet_peers s !! k) → is_Some (fleet_peers s' !! k)) →
  (∀ op, pd_operation (fr_pending r) = Some op → switch_events s' !! op = switch_events s !! op ∧ op ∉ sd_operation <$> xs) →
  Forall (λ x, sd_failover x ≠ id) xs → failover_ok s' ops' (xs ++ l) clock' id r.
Proof.
  intros [H1 H2 H3 H4 H5 H6 H7 H8] Ho Hc Hp He Hx.
  assert (last_applied id (xs ++ l) = last_applied id l) as El.
  { unfold last_applied. rewrite filter_app. replace (filter (λ x, sd_failover x = id ∧ sd_applied x = true) xs) with (@nil Settled); [done|].
    symmetry. clear -Hx. induction Hx as [|x xs Hx _ IH]; [done|]. rewrite filter_cons_False; [done|naive_solver]. }
  split; try done; rewrite ?El; try done.
  - eapply pending_ok_mono; try done. intros op Hop. destruct (He op Hop) as [? Hn]. split; [done|]. rewrite fmap_app, elem_of_app. naive_solver.
  - intros p Hp'. destruct (H6 p Hp'). auto.
  - intros x [Hin|Hin]%elem_of_app; [|by apply H8]. intros E. eapply (proj1 (Forall_forall _ _)) in Hx; [|exact Hin]. done.
Qed.
Lemma dns_ok_frame s s' ops used l clock clock' :
  dns_ok s ops used l clock → clock ≤ clock' → (∀ k, is_Some (fleet_peers s !! k) → is_Some (fleet_peers s' !! k)) →
  dns_failovers s' = dns_failovers s → dns_targets s' = dns_targets s → switch_events s' = switch_events s → dns_ok s' ops used l clock'.
Proof.
  intros [H1 H2 H3 H4 H5 H6 H7 H8] Hc Hp E1 E2 E3. split; rewrite ?E1, ?E2, ?E3; try done.
  - intros id r Hr. destruct (H1 id r Hr) as [Hu Hf]. split; [done|]. apply (failover_ok_mono s s' ops ops [] l clock clock'); try done.
    intros op _. by rewrite E3; split; [|apply not_elem_of_nil].
  - intros id p v Hv. destruct (H4 id p v Hv) as [? ?]. auto.
Qed.

(** The settled operation that an event records. *)
Definition recorded_as (x : Settled) (op : Z) (e : SwitchRow) : Prop :=
  sd_operation x = op ∧ sd_failover x = sw_failover e ∧ sd_peer x = sw_peer e ∧ sd_target x = sw_target e ∧ sd_applied x = sw_applied e.
(** An update of one row that leaves the record it manages alone and settles its operation or none. *)
Record row_update (s s' : FleetDb) (ops' : gset Z) (xs l : list Settled) (clock' id : Z) (r r' : FailoverRow) : Prop := {
  ru_row : dns_failovers s !! id = Some r;
  ru_rows : dns_failovers s' = <[id := r']> (dns_failovers s);
  ru_peers : fleet_peers s' = fleet_peers s;
  ru_targets : dns_targets s' = dns_targets s;
  ru_record : fr_zone r' = fr_zone r ∧ fr_record r' = fr_record r ∧ fr_record_type r' = fr_record_type r;
  ru_events : xs = [] ∧ switch_events s' = switch_events s ∨
    ∃ op e x, xs = [x] ∧ switch_events s' = <[op := e]> (switch_events s) ∧ recorded_as x op e ∧ sd_failover x = id ∧
      pd_operation (fr_pending r) = Some op ∧ (sd_attempted x = true → fr_not_before r ≤ sd_at x);
  ru_ok : failover_ok s' ops' (xs ++ l) clock' id r';
}.
Lemma pending_operation s ops l clock nb p op : pending_ok s ops l clock nb p → pd_operation p = Some op →
  op ∈ ops ∧ switch_events s !! op = None ∧ op ∉ sd_operation <$> l.
Proof. intros [|????????????]; [done|]. intros [= <-]. done. Qed.
Lemma row_operations s ops used l clock s' ops' xs clock' id r r' :
  dns_ok s ops used l clock → row_update s s' ops' xs l clock' id r r' →
  (∀ op, pd_operation (fr_pending r') = Some op → pd_operation (fr_pending r) = Some op ∨ op ∉ ops) →
  ∀ i j ri rj op, dns_failovers s' !! i = Some ri → dns_failovers s' !! j = Some rj → pd_operation (fr_pending ri) = Some op → pd_operation (fr_pending rj) = Some op → i = j.
Proof.
  intros H [U1 U2 U3 U4 U5 U6 U7] Hnew i j ri rj op. rewrite U2. intros Hi Hj Ei Ej.
  assert (∀ k rk, dns_failovers s !! k = Some rk → pd_operation (fr_pending rk) = Some op → pd_operation (fr_pending r') = Some op → k = id) as Hk.
  { intros k rk Hrk Ek E'. destruct (Hnew op E') as [Eo|Eo]; [by eapply (dk_operations _ _ _ _ _ H)|]. exfalso. apply Eo.
    destruct (dk_rows _ _ _ _ _ H k rk Hrk) as [_ Hf]. by eapply pending_operation; [apply Hf|]. }
  apply lookup_insert_Some in Hi as [[<- <-]|[Hi1 Hi]], Hj as [[<- <-]|[Hj1 Hj]]; [done|..].
  - symmetry. by eapply Hk.
  - by eapply Hk.
  - by eapply (dk_operations _ _ _ _ _ H).
Qed.
Lemma dns_ok_update s s' ops ops' used xs l clock clock' id r r' :
  dns_ok s ops used l clock → clock ≤ clock' → ops ⊆ ops' → row_update s s' ops' xs l clock' id r r' →
  (∀ op, pd_operation (fr_pending r') = Some op → pd_operation (fr_pending r) = Some op ∨ op ∉ ops) →
  dns_ok s' ops' used (xs ++ l) clock'.
Proof.
  intros H Hc Ho U Hnew. pose proof (row_operations _ _ _ _ _ _ _ _ _ _ _ _ H U Hnew) as Hops. pose proof U as [U1 U2 U3 U4 (U5 & U6 & U7) U8 U9].
  destruct (dk_rows _ _ _ _ _ H id r U1) as [Huid Hfid].
  split.
  - intros k rk. rewrite U2. intros [[<- <-]|[Hk Hrk]]%lookup_insert_Some; [done|]. destruct (dk_rows _ _ _ _ _ H k rk Hrk) as [Hu Hf]. split; [done|].
    apply (failover_ok_mono s s' ops ops' xs l clock clock'); try done; [by rewrite U3| |].
    + intros op Hop. destruct U8 as [[-> ->]|(op' & e & x & -> & -> & (Ex & _) & _ & Hp & _)]; [split; [done|apply not_elem_of_nil]|].
      assert (op' ≠ op) as Hne by (intros ->; apply Hk; symmetry; by eapply (dk_operations _ _ _ _ _ H)).
      rewrite lookup_insert_ne by done. split; [done|]. cbn. rewrite list_elem_of_singleton. congruence.
    + destruct U8 as [[-> _]|(op' & e & x & -> & _ & _ & Ei & _)]; [done|]. constructor; [congruence|done].
  - intros i j ri rj. rewrite U2. intros Hi Hj E. apply lookup_insert_Some in Hi as [[<- <-]|[Hi1 Hi]], Hj as [[<- <-]|[Hj1 Hj]]; [done|..].
    + rewrite U5, U6 in E. by eapply (dk_records _ _ _ _ _ H).
    + eapply (dk_records _ _ _ _ _ H); [exact Hi|exact U1|]. unfold same_record in *. by rewrite <- U5, <- U6.
    + by eapply (dk_records _ _ _ _ _ H).
  - exact Hops.
  - intros k p v. rewrite U4, U3, U2. intros Hv. destruct (dk_targets _ _ _ _ _ H k p v Hv) as (Hp & rk & t & Hrk & Et & Ev). split; [done|].
    destruct (decide (k = id)) as [->|]; [|exists rk, t; by rewrite lookup_insert_ne].
    exists r', t. rewrite lookup_insert_eq. split; [done|]. split; [congruence|done].
  - intros op e. destruct U8 as [[-> ->]|(op' & e' & x & -> & -> & Hx & _)]; [apply (dk_events _ _ _ _ _ H)|].
    intros [[<- <-]|[_ He]]%lookup_insert_Some; [exists x; split; [by left|done]|]. destruct (dk_events _ _ _ _ _ H op e He) as (y & Hy & ?). exists y. split; [by right|done].
  - intros x [Hx|Hx]%elem_of_app.
    + destruct U8 as [[-> _]|(op' & e' & x' & -> & _ & (Eo & _) & Ei & Hp & _)]; [by apply elem_of_nil in Hx|]. apply list_elem_of_singleton in Hx as ->.
      rewrite Eo, Ei. split; [apply Ho|done]. by eapply pending_operation; [apply Hfid|].
    + destruct (dk_settled _ _ _ _ _ H x Hx). auto.
  - destruct U8 as [[-> _]|(op' & e' & x & -> & _ & (Eo & _) & _ & Hp & _)]; [apply (dk_once _ _ _ _ _ H)|]. cbn. constructor; [|apply (dk_once _ _ _ _ _ H)].
    rewrite Eo. by eapply pending_operation; [apply Hfid|].
  - destruct U8 as [[-> _]|(op' & e' & x & -> & _ & _ & Ei & _ & Hs)]; [apply (dk_spaced _ _ _ _ _ H)|]. cbn. split; [|apply (dk_spaced _ _ _ _ _ H)].
    intros y Hy Ey Hay Hax. specialize (Hs Hax). pose proof (fk_spaced _ _ _ _ _ _ Hfid y Hy) as Hb. rewrite Ei in Ey. specialize (Hb Ey Hay). lia.
Qed.

(** ** Reading a row *)

Record reads (f : FleetDnsFailover) (id : Z) (r : FailoverRow) : Prop := {
  rd_id : fo_id f = id;
  rd_type : record_as_str (fo_record_type f) = fr_record_type r;
  rd_settings : fo_name f = fr_name r ∧ fo_hostname f = fr_hostname r ∧ fo_zone f = fr_zone r ∧ fo_record f = fr_record r ∧ fo_token_env f = fr_token_env r ∧
    fo_ttl f = fr_ttl r ∧ fo_proxied f = fr_proxied r;
  rd_flags : fo_enabled f = fr_enabled r ∧ fo_frozen f = fr_frozen r ∧ fo_reconcile f = fr_reconcile r;
  rd_cooldown : fo_cooldown f = fr_cooldown r;
  rd_not_before : fo_not_before f = fr_not_before r;
  rd_current : fo_current_peer f = fr_current_peer r ∧ fo_current_target f = fr_current_target r;
  rd_error : fo_last_error f = fr_last_error r;
  rd_pending : pd_operation (fo_pending f) = pd_operation (fr_pending r) ∧ pd_peer (fo_pending f) = pd_peer (fr_pending r) ∧
    pd_target (fo_pending f) = pd_target (fr_pending r) ∧ pd_reason (fo_pending f) = pd_reason (fr_pending r) ∧
    pd_lease_until (fo_pending f) = pd_lease_until (fr_pending r);
}.

Section operations.
Context {env : FleetEnv} {plat : Platform}.

Lemma read_row s ops l clock id r : failover_ok s ops l clock id r → ∃ f, read_dns_failover_row id r = Some f ∧ reads f id r.
Proof.
  intros [[t Et] H2 H3 H4 H5 _ _ _]. unfold read_dns_failover_row. rewrite Et, record_parse_as_str. cbn [mbind option_bind].
  assert (U32_MAX = 4294967295) as EV by done. rewrite !get_uint_fits by lia. cbn [mbind option_bind]. eexists. split; [reflexivity|].
  split; cbn; try done; [unfold nonnegative_column; lia|]. destruct H5; cbn; [done|]. split_and!; try done. f_equal. unfold nonnegative_column. lia.
Qed.
Lemma read_failover_run s ops used l clock id : dns_ok s ops used l clock →
  match dns_failovers s !! id with
  | None => read_dns_failover id s = Done (Ok None, s)
  | Some r => ∃ f, read_dns_failover id s = Done (Ok (Some f), s) ∧ reads f id r
  end.
Proof.
  intros H. unfold read_dns_failover. cbv [mbind db_bind db_get]. destruct (dns_failovers s !! id) as [r|] eqn:Er; [|done].
  destruct (dk_rows _ _ _ _ _ H id r Er) as [_ Hf]. destruct (read_row _ _ _ _ _ _ Hf) as (f & E & Hr). exists f. cbv [db_lift]. by rewrite E.
Qed.
Lemma get_failover_run s id : ∃ out, get_dns_failover id s = Done (out, s).
Proof.
  unfold get_dns_failover, read_dns_failover, read_dns_targets. cbv [mbind db_bind db_get]. destruct (dns_failovers s !! id) as [r|]; [|eauto].
  cbv [db_lift ok_or]. destruct (read_dns_failover_row id r); cbn; eauto.
Qed.

(** ** Administration *)

Lemma insert_targets_run id l s : ∃ out s', insert_targets id l s = Done (out, s') ∧ (∃ g, s' = set_targets g s) ∧
  ∀ j p v, dns_targets s' !! (j, p) = Some v → dns_targets s !! (j, p) = Some v ∨ j = id ∧ {| dt_peer := p; dt_value := v |} ∈ l ∧ is_Some (fleet_peers s !! p).
Proof.
  revert s. induction l as [|t l IH]; intros s; cbn [insert_targets].
  { eexists _, s. split; [done|]. split; [by exists (λ t, t); destruct s|auto]. }
  cbv [mbind db_bind db_get]. destruct (_ || _) eqn:Ec; cbn [negb db_ensure].
  { eexists _, s. split; [done|]. split; [by exists (λ t, t); destruct s|auto]. }
  cbv [mret db_ret db_put]. destruct (IH (set_targets (<[(id, dt_peer t) := dt_value t]>) s)) as (out & s' & -> & (g & ->) & Hin).
  eexists _, _. split; [done|]. split; [by exists (λ m, g (<[(id, dt_peer t) := dt_value t]> m))|]. intros j p v Hv. destruct (Hin j p v Hv) as [Hin'|(-> & Hl & Hp)].
  - cbn in Hin'. apply lookup_insert_Some in Hin' as [[[= <- <-] <-]|[_ Hs]]; [|by left]. right. split; [done|]. split; [destruct t; apply elem_of_cons; by left|].
    bool_prop. unfold peer_exists in *. by bool_prop.
  - right. split; [done|]. split; [apply elem_of_cons; by right|done].
Qed.
Lemma replace_targets_run id l s : ∃ out s', replace_dns_targets id l s = Done (out, s') ∧ (∃ g, s' = set_targets g s) ∧
  ∀ j p v, dns_targets s' !! (j, p) = Some v → j ≠ id ∧ dns_targets s !! (j, p) = Some v ∨ j = id ∧ {| dt_peer := p; dt_value := v |} ∈ l ∧ is_Some (fleet_peers s !! p).
Proof.
  unfold replace_dns_targets. cbv [mbind db_bind db_put]. destruct (insert_targets_run id l (set_targets (filter (λ x, x.1.1 ≠ id)) s)) as (out & s' & -> & (g & ->) & Hin).
  eexists _, _. split; [done|]. split; [by exists (λ m, g (filter (λ x, x.1.1 ≠ id) m))|]. intros j p v Hv. destruct (Hin j p v Hv) as [Ho|?]; [left|by right].
  cbn in Ho. by apply map_lookup_filter_Some in Ho as [? ?].
Qed.
Lemma unassigned_run id zone record s : ∃ out, ensure_dns_record_unassigned id zone record s = Done (out, s) ∧
  (out = Ok tt → ∀ j r, dns_failovers s !! j = Some r → same_record zone record r = true → j = id).
Proof.
  unfold ensure_dns_record_unassigned. cbv [mbind db_bind db_get]. destruct (any _ _) eqn:Ea; eexists; (split; [done|]); [done|].
  intros _ j r Hj Hs. destruct (Z.eqb_spec j id) as [|Hne]; [done|]. exfalso. apply not_true_iff_false in Ea. apply Ea. unfold any. apply existsb_exists.
  exists (j, r). split; [by apply list_elem_of_In, elem_of_map_to_list|]. cbn. by rewrite (proj2 (Z.eqb_neq _ _)), Hs.
Qed.

(** Rows written by [create] and [update]: the record is nobody else's, and the targets of the failover are those requested. *)
Record settings_stored (s s' : FleetDb) (id : Z) (request : UpsertFleetDnsFailover) (r' : FailoverRow) : Prop := {
  ss_request : dns_request_ok request;
  ss_rows : dns_failovers s' = <[id := r']> (dns_failovers s);
  ss_peers : fleet_peers s' = fleet_peers s;
  ss_events : switch_events s' = switch_events s;
  ss_coordination : coordination s' = coordination s;
  ss_health : health_config s' = health_config s ∧ health_state s' = health_state s ∧ health_counters s' = health_counters s;
  ss_record : ∀ j r, dns_failovers s !! j = Some r → same_record (ud_zone request) (ud_record request) r = true → j = id;
  ss_targets : ∀ j p v, dns_targets s' !! (j, p) = Some v →
    j ≠ id ∧ dns_targets s !! (j, p) = Some v ∨ j = id ∧ {| dt_peer := p; dt_value := v |} ∈ ud_targets request ∧ is_Some (fleet_peers s !! p);
}.
Lemma create_run request peers id now s :
  ∃ out s', create_dns_failover request peers id now s = Done (out, s') ∧
    (s' = s ∨ dns_failovers s !! id = None ∧ ∃ request', settings_stored s s' id request' (new_failover request' now)).
Proof.
  unfold create_dns_failover. cbv [mbind db_bind db_lift]. destruct (validate_dns_failover request peers) as [request'|e] eqn:Ev; [|by refused].
  apply validate_dns_failover_ok in Ev. unfold transaction.
  destruct (unassigned_run id (ud_zone request') (ud_record request') s) as (out & -> & Hu). destruct out as [[]|e]; [|by refused]. specialize (Hu eq_refl).
  cbv [db_get]. destruct (_ || _) eqn:Ec; cbn [negb db_ensure]; [by refused|]. cbv [mret db_ret db_put].
  match goal with |- context [replace_dns_targets id ?l ?x] => destruct (replace_targets_run id l x) as (out & s' & -> & (g & ->) & Hin) end.
  destruct out as [[]|e]; [|by refused].
  match goal with |- context [get_dns_failover id ?x] => destruct (get_failover_run x id) as [o ->] end.
  assert (dns_failovers s !! id = None) as Hnone.
  { apply orb_false_iff in Ec as [Ec _]. bool_prop. destruct (dns_failovers s !! id); [|done]. exfalso. apply Ec. eauto. }
  destruct o as [o|e]; eexists _, _; (split; [reflexivity|]); right; (split; [done|]); exists request'; split; try done.
Qed.
Lemma update_run request peers id now s :
  ∃ out s', update_dns_failover id request peers now s = Done (out, s') ∧
    (s' = s ∨ ∃ r request', dns_failovers s !! id = Some r ∧ pd_operation (fr_pending r) = None ∧ settings_stored s s' id request' (with_settings request' now r)).
Proof.
  unfold update_dns_failover. cbv [mbind db_bind db_lift]. destruct (validate_dns_failover request peers) as [request'|e] eqn:Ev; [|by refused].
  apply validate_dns_failover_ok in Ev. unfold transaction. cbv [db_get]. destruct (dns_failovers s !! id) as [r|] eqn:Er; [|by refused].
  unfold db_ensure at 1. case_bool_decide as Hp; [|by refused]. rewrite db_mret_run.
  destruct (unassigned_run id (ud_zone request') (ud_record request') s) as (out & -> & Hu). destruct out as [[]|e]; [|by refused]. specialize (Hu eq_refl).
  destruct (name_clash id request' s); cbn [negb db_ensure]; [by refused|]. cbv [mret db_ret db_put].
  match goal with |- context [replace_dns_targets id ?l ?x] => destruct (replace_targets_run id l x) as (out & s' & -> & (g & ->) & Hin) end.
  destruct out as [[]|e]; [|by refused]. cbn [negb].
  match goal with |- context [get_dns_failover id ?x] => destruct (get_failover_run x id) as [o ->] end.
  eexists _, _. split; [done|]. right. exists r, request'. split; [done|]. split; [done|]. split; try done. cbn. by rewrite <- (alter_insert_eq _ _ _ r), insert_id by done.
Qed.

Lemma dns_ok_settings s s' ops used used' l clock clock' id request r' :
  dns_ok s ops used l clock → clock ≤ clock' → used ⊆ used' → id ∈ used' → settings_stored s s' id request r' →
  fr_zone r' = ud_zone request → fr_record r' = ud_record request → fr_record_type r' = record_as_str (ud_record_type request) →
  pd_operation (fr_pending r') = None → failover_ok s' ops l clock' id r' → dns_ok s' ops used' l clock'.
Proof.
  intros H Hc Hu Hid [S1 S2 S3 S4 S5 S6 S7 S8] E1 E2 E3 E4 Hf. split.
  - intros k rk. rewrite S2. intros [[<- <-]|[Hk Hrk]]%lookup_insert_Some; [done|]. destruct (dk_rows _ _ _ _ _ H k rk Hrk) as [Hu' Hf']. split; [by apply Hu|].
    apply (failover_ok_mono s s' ops ops [] l clock clock'); try done; [by rewrite S3|]. intros op _. rewrite S4. split; [done|apply not_elem_of_nil].
  - intros i j ri rj. rewrite S2. intros Hi Hj E. apply lookup_insert_Some in Hi as [[<- <-]|[Hi1 Hi]], Hj as [[<- <-]|[Hj1 Hj]]; [done|..].
    + rewrite E1, E2 in E. symmetry. by eapply S7.
    + rewrite same_record_sym, E1, E2 in E. by eapply S7.
    + by eapply (dk_records _ _ _ _ _ H).
  - intros i j ri rj op. rewrite S2. intros Hi Hj Ei Ej. apply lookup_insert_Some in Hi as [[<- <-]|[Hi1 Hi]]; [congruence|].
    apply lookup_insert_Some in Hj as [[<- <-]|[Hj1 Hj]]; [congruence|]. by eapply (dk_operations _ _ _ _ _ H).
  - intros k p v Hv. rewrite S3, S2. destruct (S8 k p v Hv) as [[Hk Ho]|(-> & Hin & Hp)].
    + destruct (dk_targets _ _ _ _ _ H k p v Ho) as (Hp & rk & t & Hrk & ?). split; [done|]. exists rk, t. by rewrite lookup_insert_ne.
    + split; [done|]. exists r', (ud_record_type request). rewrite lookup_insert_eq. split; [done|]. split; [done|]. apply (dr_targets _ S1 _ Hin).
  - intros op e. rewrite S4. apply (dk_events _ _ _ _ _ H).
  - intros x Hx. destruct (dk_settled _ _ _ _ _ H x Hx). auto.
  - apply (dk_once _ _ _ _ _ H).
  - apply (dk_spaced _ _ _ _ _ H).
Qed.
Lemma dns_ok_created s s' ops used l clock clock' id request now : dns_ok s ops used l clock → clock ≤ clock' → id ∉ used → moment_ok now →
  settings_stored s s' id request (new_failover request now) → dns_ok s' ops ({[id]} ∪ used) l clock'.
Proof.
  intros H Hc Hid Hn HS. eapply (dns_ok_settings s s' ops used _ l clock clock' id request); try done; [set_solver..|].
  assert (∀ x, x ∈ l → sd_failover x ≠ id) as Hl by (intros x Hx <-; apply Hid; by apply (dk_settled _ _ _ _ _ H)).
  assert (last_applied id l = None) as E.
  { unfold last_applied. replace (filter (λ x, sd_failover x = id ∧ sd_applied x = true) l) with (@nil Settled); [done|]. clear -Hl.
    induction l as [|x l IH]; [done|]. rewrite filter_cons_False; [apply IH; set_solver|]. intros [Ex _]. by apply (Hl x (list_elem_of_here _ _)). }
  destruct (ss_request _ _ _ _ _ HS) as [R1 R2 _]. split; cbn; rewrite ?E, ?moment_i64_0 by done; try done; [eauto|unfold moment_ok in Hn; lia|constructor|].
  intros x Hx Ex. by destruct (Hl x Hx).
Qed.
Lemma idle_pending s ops l clock nb p : pending_ok s ops l clock nb p → pd_operation p = None → p = no_pending.
Proof. by intros []. Qed.
Lemma dns_ok_changed s s' ops used l clock clock' id request r now : dns_ok s ops used l clock → clock ≤ clock' →
  dns_failovers s !! id = Some r → pd_operation (fr_pending r) = None →
  settings_stored s s' id request (with_settings request now r) → dns_ok s' ops used l clock'.
Proof.
  intros H Hc Hr Hp HS. destruct (dk_rows _ _ _ _ _ H id r Hr) as [Hu Hf]. eapply (dns_ok_settings s s' ops used _ l clock clock' id request); try done.
  destruct (ss_request _ _ _ _ _ HS) as [R1 R2 _]. destruct Hf as [F1 F2 F3 F4 F5 F6 F7 F8]. split; cbn; try done; [eauto|..].
  - rewrite (idle_pending _ _ _ _ _ _ F5 Hp). constructor.
  - by rewrite (ss_peers _ _ _ _ _ HS).
Qed.

Lemma freeze_run id frozen reason now s : ∃ out s', set_dns_frozen id frozen reason now s = Done (out, s') ∧
  (s' = s ∨ ∃ reason, s' = set_failovers (alter (with_frozen frozen reason now) id) s).
Proof.
  unfold set_dns_frozen. cbv [mbind db_bind]. destruct frozen.
  - unfold db_ensure. destruct (negb _); [|by refused]. cbv [mret db_ret db_get db_put]. destruct (negb _); [eexists _, _; split; [done|]; eauto|].
    match goal with |- context [get_dns_failover id ?x] => destruct (get_failover_run x id) as [o ->] end. eexists _, _; split; [done|]; eauto.
  - cbv [mret db_ret db_get db_put]. destruct (negb _); [eexists _, _; split; [done|]; eauto|].
    match goal with |- context [get_dns_failover id ?x] => destruct (get_failover_run x id) as [o ->] end. eexists _, _; split; [done|]; eauto.
Qed.
(** An update of a row that changes neither what it manages nor its operation. *)
Lemma dns_ok_altered s ops used l clock clock' id f :
  dns_ok s ops used l clock → clock ≤ clock' →
  (∀ r, fr_zone (f r) = fr_zone r ∧ fr_record (f r) = fr_record r ∧ fr_record_type (f r) = fr_record_type r) →
  (∀ r, dns_failovers s !! id = Some r → failover_ok s ops l clock' id r → failover_ok s ops l clock' id (f r)) →
  (∀ r op, pd_operation (fr_pending (f r)) = Some op → pd_operation (fr_pending r) = Some op) →
  dns_ok (set_failovers (alter f id) s) ops used l clock'.
Proof.
  intros H Hc Hs Hf Hp. destruct (dns_failovers s !! id) as [r|] eqn:Hr.
  - assert (alter f id (dns_failovers s) = <[id := f r]> (dns_failovers s)) as E by by rewrite <- (alter_insert_eq _ _ _ r), insert_id.
    apply (dns_ok_update s (set_failovers (alter f id) s) ops ops used [] l clock clock' id r (f r)); try done.
    2:{ intros op Hop. left. by eapply Hp. }
    split; cbn; try done; [by left|]. destruct (dk_rows _ _ _ _ _ H id r Hr) as [_ Hfo].
    assert (failover_ok s ops l clock' id r) as Hfo'.
    { apply (failover_ok_mono s s ops ops [] l clock clock'); try done. intros op _. split; [done|apply not_elem_of_nil]. }
    specialize (Hf r eq_refl Hfo'). apply (failover_ok_mono s _ ops ops [] l clock' clock'); try done. intros op _. split; [done|apply not_elem_of_nil].
  - assert (set_failovers (alter f id) s = s) as ->; [|by eapply dns_ok_frame].
    assert (alter f id (dns_failovers s) = dns_failovers s) as E by (apply map_eq; intros k; destruct (decide (k = id)) as [->|]; [by rewrite lookup_alter_eq, Hr|by rewrite lookup_alter_ne]).
    unfold set_failovers. rewrite E. by destruct s.
Qed.
Lemma dns_ok_frozen s ops used l clock clock' id frozen reason now : dns_ok s ops used l clock → clock ≤ clock' →
  dns_ok (set_failovers (alter (with_frozen frozen reason now) id) s) ops used l clock'.
Proof. intros H Hc. apply (dns_ok_altered s ops used l clock); try done. intros r _ []. by split. Qed.
Lemma dns_ok_error s ops used l clock clock' id reconcile error now : dns_ok s ops used l clock → clock ≤ clock' →
  dns_ok (set_failovers (alter (with_error reconcile error now) id) s) ops used l clock'.
Proof. intros H Hc. apply (dns_ok_altered s ops used l clock); try done. intros r _ []. by split. Qed.

Lemma dns_ok_removed s ops used l clock clock' id : dns_ok s ops used l clock → clock ≤ clock' → dns_ok (remove_failover id s) ops used l clock'.
Proof.
  intros [H1 H2 H3 H4 H5 H6 H7 H8] Hc. split; cbn; try done.
  - intros k r [Hk Hr]%lookup_delete_Some. destruct (H1 k r Hr) as [Hu Hf]. split; [done|].
    destruct Hf as [F1 F2 F3 F4 F5 F6 F7 F8]. split; try done. destruct F5 as [|op peer target reason started lease P1 P2 P3 P4 P5 P6]; [constructor|].
    constructor; try done; [|lia]. cbn. apply map_lookup_filter_None. by left.
  - intros i j ri rj [_ Hi]%lookup_delete_Some [_ Hj]%lookup_delete_Some. by eapply H2.
  - intros i j ri rj op [_ Hi]%lookup_delete_Some [_ Hj]%lookup_delete_Some. by eapply H3.
  - intros k p v [Hv Hk]%map_lookup_filter_Some. cbn in Hk. destruct (H4 k p v Hv) as (Hp & r & t & Hr & ?). split; [done|]. exists r, t. by rewrite lookup_delete_ne.
  - intros op e [He _]%map_lookup_filter_Some. by apply H5.
Qed.
Lemma forget_Some id o p : forget_peer id o = Some p ↔ o = Some p ∧ p ≠ id.
Proof. unfold forget_peer. case_bool_decide as E; naive_solver. Qed.
Lemma dns_ok_peer_removed s ops used l clock clock' id : dns_ok s ops used l clock → clock ≤ clock' → dns_ok (remove_peer id s) ops used l clock'.
Proof.
  intros [H1 H2 H3 H4 H5 H6 H7 H8] Hc.
  assert (∀ p, p ≠ id → is_Some (fleet_peers s !! p) → is_Some (fleet_peers (remove_peer id s) !! p)) as Hp by (intros p Hne Hp; cbn; by rewrite lookup_delete_ne).
  split; cbn; try done.
  - intros k r' Hr. rewrite lookup_fmap in Hr. apply fmap_Some in Hr as (r & Hr & ->). destruct (H1 k r Hr) as [Hu Hf]. split; [done|].
    destruct Hf as [F1 F2 F3 F4 F5 F6 F7 F8]. split; cbn; try done.
    + destruct F5 as [|op peer target reason started lease P1 P2 P3 P4 P5 P6]; [constructor|]. constructor; try done; [|lia].
      intros p [Ep Hne]%forget_Some. auto.
    + intros p [Ep Hne]%forget_Some. destruct (F6 p Ep). auto.
  - intros i j ri rj Hi Hj. rewrite lookup_fmap in Hi, Hj. apply fmap_Some in Hi as (xi & Hi & ->). apply fmap_Some in Hj as (xj & Hj & ->). exact (H2 i j xi xj Hi Hj).
  - intros i j ri rj op Hi Hj. rewrite lookup_fmap in Hi, Hj. apply fmap_Some in Hi as (xi & Hi & ->). apply fmap_Some in Hj as (xj & Hj & ->). exact (H3 i j xi xj op Hi Hj).
  - intros k p v [Hv Hk]%map_lookup_filter_Some. cbn in Hk. destruct (H4 k p v Hv) as (Hpp & r & t & Hr & ?). split; [by apply Hp|].
    exists (forget_row id r), t. by rewrite lookup_fmap, Hr.
Qed.
End operations.
