(* ===== verification/FleetPlans.v ===== *)
(** * Planning of DNS changes ([fleet_health.rs])

    When a change is planned, and to which peer, stated on the history of probes: [fit] peers, the [best] of them, the peers that
    are [held], and the operations that are [retried] or new ([moved]). *)

From S2P Require Import Prelude DbMonad RustStr RustText HaTables HaCoordination JobLeases AdminAuth TunnelTables TunnelCatalog FleetTables FleetHealth FleetDns FleetProbes FleetSystem.
Local Open Scope Z_scope.
Set Default Proof Using "Type".

Abbreviation probe_log := (gmap Z (list Accepted)).

(** ** Fit peers *)

Definition peer_enabled (s : FleetDb) (peer : Z) : Prop := ∃ p, fleet_peers s !! peer = Some p ∧ pe_enabled p = true.
(** The cooldown since the probe that led to the present state is over. *)
Definition cooled (s : FleetDb) (log : probe_log) (peer now : Z) : Prop :=
  ∃ c t, health_config s !! peer = Some c ∧ changed_at (log !!! peer) = Some t ∧ t + cf_cooldown_seconds c ≤ now.
Definition fit (s : FleetDb) (log : probe_log) (now id peer : Z) (target : rstr) : Prop :=
  dns_targets s !! (id, peer) = Some target ∧ peer_enabled s peer ∧ health_by_history (log !!! peer) = Healthy ∧ cooled s log peer now.
(** The order of preference: priority, then weight from high to low, then name. *)
Definition rank (p : PeerRow) : list Z := pe_priority p :: (- pe_weight p) :: as_bytes (pe_name p).
Definition best (s : FleetDb) (log : probe_log) (now id peer : Z) (target : rstr) : Prop :=
  fit s log now id peer target ∧
  ∀ peer' target' p p', fit s log now id peer' target' → fleet_peers s !! peer = Some p → fleet_peers s !! peer' = Some p' → lex_le (rank p) (rank p') = true.
(** The current peer is kept while it is degraded, or healthy for less than its cooldown. *)
Definition held (s : FleetDb) (log : probe_log) (now id : Z) (r : FailoverRow) : Prop :=
  ∃ peer target, fr_current_peer r = Some peer ∧ fr_current_target r = Some target ∧ dns_targets s !! (id, peer) = Some target ∧ peer_enabled s peer ∧
    (health_by_history (log !!! peer) = Degraded ∨ health_by_history (log !!! peer) = Healthy ∧ ¬ cooled s log peer now).

Definition waiting (now : Z) (r : FailoverRow) : Prop :=
  is_Some (pending_complete (fr_pending r)) ∧ ∃ lease, pd_lease_until (fr_pending r) = Some lease ∧ now < lease.
Definition retried (s : FleetDb) (log : probe_log) (now id : Z) (r : FailoverRow) (operation peer : Z) (target : rstr) : Prop :=
  ¬ waiting now r ∧ (∃ reason, pending_complete (fr_pending r) = Some (operation, peer, target, reason)) ∧ fit s log now id peer target.
Definition moved (s : FleetDb) (log : probe_log) (now id : Z) (r : FailoverRow) (peer : Z) (target : rstr) : Prop :=
  ¬ waiting now r ∧ (∀ operation peer target, ¬ retried s log now id r operation peer target) ∧ fr_not_before r ≤ now ∧ ¬ held s log now id r ∧
  best s log now id peer target ∧ ¬ (fr_current_peer r = Some peer ∧ fr_current_target r = Some target ∧ fr_reconcile r = false).

(** ** What the queries find *)

Section queries.
Context {env : FleetEnv} {plat : Platform}.

Lemma healthy_row s log peer now : health_ok s log → moment_ok now →
  (∃ h, health_state s !! peer = Some h ∧ st_state h = lit "healthy" ∧ st_cooldown_until h ≤ now) ↔
  health_by_history (log !!! peer) = Healthy ∧ cooled s log peer now.
Proof.
  intros H Hn. change (lit "healthy") with (health_as_str Healthy). split.
  - intros (h & Hh & Es & Hc). destruct (health_rows_of s log peer H) as (c & h' & Hcf & Hh' & _ & Ht); [eauto|]. rewrite Hh in Hh'. injection Hh' as <-.
    rewrite (tr_state _ _ _ Ht) in Es. apply health_as_str_inj in Es. split; [done|]. exists c, (st_state_changed h). split; [done|].
    split; [apply (tr_changed _ _ _ Ht); by rewrite Es|]. destruct (tr_cooldown_until _ _ _ Ht) as [E|[E _]]; [lia|congruence].
  - intros [Es (c & t & Hc & Et & Hle)]. destruct (health_rows_of s log peer H) as (c' & h & Hcf & Hh & _ & Ht); [by eapply health_config_of|].
    rewrite Hc in Hcf. injection Hcf as <-. exists h. split; [done|]. rewrite (tr_state _ _ _ Ht), Es. split; [done|].
    pose proof (tr_changed _ _ _ Ht) as E. rewrite Es, Et in E. specialize (E ltac:(done)). injection E as ->.
    destruct (tr_cooldown_until _ _ _ Ht) as [E|[E _]]; [lia|congruence].
Qed.
Lemma elem_of_targets s id t : t ∈ targets_of id s ↔ dns_targets s !! (id, dt_peer t) = Some (dt_value t).
Proof.
  unfold targets_of. rewrite merge_sort_Permutation, list_elem_of_fmap. split.
  - intros ([[i p] v] & -> & [Ei Hin]%list_elem_of_filter). cbn in *. subst i. by apply elem_of_map_to_list.
  - intros H. exists ((id, dt_peer t), dt_value t). split; [by destruct t|]. apply list_elem_of_filter. split; [done|]. by apply elem_of_map_to_list.
Qed.

(** A candidate stands for a fit peer. *)
Definition stands_for (s : FleetDb) (c : DnsCandidate) : Prop := ∃ p, fleet_peers s !! dc_peer c = Some p ∧ dc_name c = pe_name p ∧ candidate_key c = rank p.
Lemma candidate_row_fit s log now id t c : health_ok s log → moment_ok now → t ∈ targets_of id s → candidate_row now s t = Some c →
  fit s log now id (dc_peer c) (dc_target c) ∧ stands_for s c ∧ ∃ p, fleet_peers s !! dc_peer c = Some p ∧ dc_priority c = pe_priority p ∧ dc_weight c = pe_weight p.
Proof.
  intros H Hn Hin%elem_of_targets. unfold candidate_row. destruct (fleet_peers s !! dt_peer t) as [p|] eqn:Hp; cbn; [|done].
  destruct (health_state s !! dt_peer t) as [h|] eqn:Hh; cbn; [|done]. destruct (_ && _) eqn:E; [|done]. intros [= <-]. cbn.
  apply andb_true_iff in E as [[He Es%bool_decide_eq_true]%andb_true_iff Hc%Z.leb_le]. rewrite moment_i64_0 in Hc by done.
  destruct (proj1 (healthy_row s log (dt_peer t) now H Hn)) as [Eh Hco]; [by exists h|]. split; [|split].
  - split; [done|]. split; [by exists p|done].
  - exists p. by split_and!.
  - exists p. by split_and!.
Qed.
Lemma fit_candidate_row s log now id peer target : health_ok s log → moment_ok now → fit s log now id peer target →
  ∃ c, candidate_row now s {| dt_peer := peer; dt_value := target |} = Some c ∧ dc_peer c = peer ∧ dc_target c = target.
Proof.
  intros H Hn (Ht & (p & Hp & He) & Hh). destruct (proj2 (healthy_row s log peer now H Hn) Hh) as (h & Hs & Es & Hc).
  unfold candidate_row. cbn [dt_peer dt_value]. rewrite Hp, Hs. cbn [mbind option_bind]. rewrite He, bool_decide_true by done. rewrite moment_i64_0 by done.
  rewrite (proj2 (Z.leb_le _ _)) by done. eexists. split; [reflexivity|]. done.
Qed.
Lemma candidate_trans : Transitive (λ x y : DnsCandidate, Is_true (candidate_le x y)).
Proof. intros a b c. rewrite !Is_true_true. apply lex_le_trans. Qed.
Lemma candidate_total : Total (λ x y : DnsCandidate, Is_true (candidate_le x y)).
Proof. intros a b. rewrite !Is_true_true. apply lex_le_total. Qed.
Lemma candidates_run s ops used l clock log f id r now :
  dns_ok s ops used l clock → peers_ok s → health_ok s log → moment_ok now → dns_failovers s !! id = Some r → reads f id r →
  ∃ cs, read_dns_candidates f now s = Done (Ok cs, s) ∧
    (∀ c, c ∈ cs → fit s log now id (dc_peer c) (dc_target c) ∧ stands_for s c) ∧
    (∀ peer target, fit s log now id peer target → ∃ c, c ∈ cs ∧ dc_peer c = peer ∧ dc_target c = target) ∧
    StronglySorted (λ x y, Is_true (candidate_le x y)) cs.
Proof.
  intros H Hp Hh Hn Hr Hrd. unfold read_dns_candidates. rewrite (rd_id _ _ _ Hrd). cbv [mbind db_bind db_get].
  set (rows := merge_sort candidate_le (omap (candidate_row now s) (targets_of id s))).
  assert (∀ c, c ∈ rows ↔ ∃ t, t ∈ targets_of id s ∧ candidate_row now s t = Some c) as Hrows.
  { intros c. unfold rows. rewrite merge_sort_Permutation. apply list_elem_of_omap. }
  assert (collect (λ c, ok_or (read_candidate c) FleetDatabase) rows = Ok rows) as ->.
  { apply collect_id, Forall_forall. intros c (t & Ht & Ec)%Hrows. destruct (candidate_row_fit s log now id t c Hh Hn Ht Ec) as (_ & _ & p & Hpp & E1 & E2).
    destruct (po_rows _ Hp _ _ Hpp) as [? ?]. unfold read_candidate. rewrite E1, E2. assert (U16_MAX = 65535) as EU by done. rewrite !get_uint_fits by lia. cbn.
    destruct c; cbn in *. by subst. }
  cbv [db_lift]. rewrite db_mret_run. eexists. split; [done|].
  assert (∀ c, c ∈ merge_sort candidate_le (filter (λ c, is_ok (validate_dns_target (fo_record_type f) (dc_target c)) = true) rows) ↔ c ∈ rows) as Hin.
  { intros c. rewrite merge_sort_Permutation, list_elem_of_filter. split; [by intros []|]. intros Hc. split; [|done]. apply Hrows in Hc as (t & Ht & Ec).
    destruct (candidate_row_fit s log now id t c Hh Hn Ht Ec) as ((Htar & _) & _). destruct (dk_targets _ _ _ _ _ H _ _ _ Htar) as (_ & r' & ty & Hr' & Ety & Ev).
    rewrite Hr in Hr'. injection Hr' as <-. rewrite <- (rd_type _ _ _ Hrd) in Ety. apply record_as_str_inj in Ety as ->. by rewrite Ev. }
  split; [|split].
  - intros c (t & Ht & Ec)%Hin%Hrows. destruct (candidate_row_fit s log now id t c Hh Hn Ht Ec) as (? & ? & _). done.
  - intros peer target Hf. destruct (fit_candidate_row s log now id peer target Hh Hn Hf) as (c & Ec & E1 & E2). exists c. split; [|done].
    apply Hin, Hrows. eexists. split; [|exact Ec]. apply elem_of_targets. by destruct Hf.
  - apply StronglySorted_merge_sort; [apply candidate_trans|apply candidate_total].
Qed.
Lemma first_candidate s log now id c cs : 
  (∀ x, x ∈ c :: cs → fit s log now id (dc_peer x) (dc_target x) ∧ stands_for s x) →
  (∀ peer target, fit s log now id peer target → ∃ x, x ∈ c :: cs ∧ dc_peer x = peer ∧ dc_target x = target) →
  StronglySorted (λ x y, Is_true (candidate_le x y)) (c :: cs) → best s log now id (dc_peer c) (dc_target c).
Proof.
  intros H1 H2 H3. split; [apply H1, list_elem_of_here|]. intros peer' target' p p' Hf Hp Hp'. destruct (H2 _ _ Hf) as (x & Hx & <- & <-).
  destruct (H1 c (list_elem_of_here _ _)) as [_ (pc & Hpc & _ & Ek)]. destruct (H1 x Hx) as [_ (px & Hpx & _ & Ex)].
  rewrite Hp in Hpc. injection Hpc as <-. rewrite Hp' in Hpx. injection Hpx as <-. rewrite <- Ek, <- Ex.
  apply elem_of_cons in Hx as [->|Hx]; [apply lex_le_refl|]. apply StronglySorted_inv in H3 as [_ H3]. eapply (proj1 (Forall_forall _ _)) in H3; [|exact Hx].
  by apply Is_true_true.
Qed.
Lemma hold_run s log now id f r : health_ok s log → moment_ok now → reads f id r →
  ∃ b, should_hold_current_dns_peer f now s = Done (Ok b, s) ∧ (b = true ↔ held s log now id r).
Proof.
  intros H Hn Hrd. unfold should_hold_current_dns_peer. destruct (rd_current _ _ _ Hrd) as [-> ->]. rewrite (rd_id _ _ _ Hrd).
  destruct (fr_current_peer r) as [peer|] eqn:E1; [|exists false; split; [done|]; split; [done|]; intros (? & ? & E & _); congruence].
  destruct (fr_current_target r) as [target|] eqn:E2; [|exists false; split; [done|]; split; [done|]; intros (? & ? & _ & E & _); congruence].
  cbv [mbind db_bind db_get]. destruct (fleet_peers s !! peer) as [p|] eqn:Hp.
  2:{ exists false. split; [done|]. split; [done|]. intros (peer' & target' & Ep & _ & _ & (p & Hp' & _) & _). congruence. }
  destruct (negb (pe_enabled p) || negb (target_configured id peer target s)) eqn:Eb; (eexists; split; [done|]).
  - split; [done|]. intros (peer' & target' & Ep & Et & Htar & (p' & Hp' & He) & _). rewrite E1 in Ep. rewrite E2 in Et. injection Ep as <-. injection Et as <-.
    rewrite Hp in Hp'. injection Hp' as <-. unfold target_configured in Eb. by rewrite He, bool_decide_true in Eb.
  - apply orb_false_iff in Eb as [He Hc]. apply negb_false_iff in He, Hc. unfold target_configured in Hc. apply bool_decide_eq_true in Hc.
    assert (held s log now id r ↔ health_by_history (log !!! peer) = Degraded ∨ health_by_history (log !!! peer) = Healthy ∧ ¬ cooled s log peer now) as ->.
    { unfold held. split; [|intros Hx; exists peer, target; split_and!; try done; by exists p]. intros (peer' & target' & Ep & _ & _ & _ & Hx).
      rewrite E1 in Ep. injection Ep as <-. done. }
    pose proof (H peer) as Hrow. destruct (health_state s !! peer) as [h|] eqn:Hs.
    + destruct (health_config s !! peer) as [c|] eqn:Hcf; [|done]. destruct Hrow as [_ Ht]. rewrite (tr_state _ _ _ Ht).
      change (lit "degraded") with (health_as_str Degraded). change (lit "healthy") with (health_as_str Healthy).
      case_bool_decide as Hdeg; [apply health_as_str_inj in Hdeg; naive_solver|]. case_bool_decide as Hst; [apply health_as_str_inj in Hst|].
      * pose proof (healthy_row s log peer now H Hn) as Hiff. assert (nonnegative_column (st_cooldown_until h) = st_cooldown_until h) as ->.
        { unfold nonnegative_column. destruct (tr_changed_time _ _ _ Ht). pose proof (tr_cooldown _ _ _ Ht). destruct (tr_cooldown_until _ _ _ Ht) as [->|[_ ->]]; lia. }
        rewrite Z.ltb_lt. split.
        -- intros Hlt. right. split; [congruence|]. intros Hcool. destruct (proj2 Hiff) as (h' & Hs' & _ & Hle); [by split; [congruence|]|].
           rewrite Hs in Hs'. injection Hs' as <-. lia.
        -- intros [?|[_ Hnc]]; [congruence|]. destruct (Z.lt_ge_cases now (st_cooldown_until h)) as [|Hge]; [done|]. exfalso. apply Hnc.
           apply Hiff. exists h. split; [done|]. split; [|lia]. rewrite (tr_state _ _ _ Ht). by rewrite Hst.
      * split; [done|]. intros [E|[E _]]; rewrite E in *; done.
    + destruct (health_config s !! peer); [done|]. rewrite lookup_total_alt, Hrow. cbn. naive_solver.
Qed.
End queries.

(** ** One round of the planner *)

Lemma best_unique s log now id peer target peer' target' : peers_ok s →
  best s log now id peer target → best s log now id peer' target' → peer = peer' ∧ target = target'.
Proof.
  intros Hp [Hf Hb] [Hf' Hb']. assert (peer = peer') as <-.
  { pose proof Hf as (_ & (p & Ep & _) & _). pose proof Hf' as (_ & (p' & Ep' & _) & _). apply (po_names _ Hp _ _ _ _ Ep Ep').
    assert (rank p = rank p') as E by (apply lex_le_antisym; [exact (Hb _ _ _ _ Hf' Ep Ep')|exact (Hb' _ _ _ _ Hf Ep' Ep)]). unfold rank in E. congruence. }
  split; [done|]. destruct Hf as [E _], Hf' as [E' _]. congruence.
Qed.

(** A plan is for the record of its failover. *)
Definition plans_for (pl : FleetDnsChangePlan) (id : Z) (r : FailoverRow) : Prop :=
  pl_failover pl = id ∧ pl_hostname pl = fr_hostname r ∧ record_as_str (pl_record_type pl) = fr_record_type r ∧ pl_zone pl = fr_zone r ∧
  pl_record pl = fr_record r ∧ pl_token_env pl = fr_token_env r ∧ pl_ttl pl = fr_ttl r ∧ pl_proxied pl = fr_proxied r.
Definition pending_of (pl : FleetDnsChangePlan) (started : Z) : Pending :=
  {| pd_operation := Some (pl_operation pl); pd_peer := Some (pl_peer pl); pd_target := Some (pl_target pl); pd_reason := Some (pl_reason pl);
     pd_started := Some started; pd_lease_until := Some (pl_lease_until pl) |}.
(** What a new change needs, apart from pending ones. *)
Definition due (s : FleetDb) (log : probe_log) (now id : Z) (r : FailoverRow) (peer : Z) (target : rstr) : Prop :=
  fr_not_before r ≤ now ∧ ¬ held s log now id r ∧ best s log now id peer target ∧
  ¬ (fr_current_peer r = Some peer ∧ fr_current_target r = Some target ∧ fr_reconcile r = false).

Section planning.
Context {env : FleetEnv} {plat : Platform}.
Context (s : FleetDb) (ops used : gset Z) (l : list Settled) (clock : Z) (log : probe_log) (now : Z).
Context (Hdns : dns_ok s ops used l clock) (Hpeers : peers_ok s) (Hhealth : health_ok s log) (Hnow : moment_ok now).

Lemma lease_end_moment : lease_end now = now + 30 ∧ to_i64 (lease_end now) = now + 30.
Proof using Hnow.
  assert (lease_end now = now + 30) as E by (unfold lease_end, saturating_add; change DNS_OPERATION_LEASE_SECONDS with 30; destruct Hnow; unfold CLOCK_MAX in *; apply Z.min_r; lia).
  split; [done|]. rewrite E. by apply moment_i64.
Qed.
Lemma reason_run f id r peer target : reads f id r → (∀ p, fr_current_peer r = Some p → is_Some (fleet_peers s !! p)) →
  ∃ reason, dns_switch_reason f peer target s = Done (Ok reason, s) ∧ reason ≠ lit "current_peer_removed".
Proof using Type.
  intros Hrd Hc. unfold dns_switch_reason. destruct (rd_current _ _ _ Hrd) as [-> ->]. destruct (fr_current_peer r) as [p|]; [|by eexists].
  destruct (p =? peer); [repeat case_match; by eexists|]. cbv [mbind db_bind db_get]. destruct (Hc p eq_refl) as [row ->].
  repeat case_match; by eexists.
Qed.
Lemma plan_new_run f id r drawn : dns_failovers s !! id = Some r → reads f id r → pd_operation (fr_pending r) = None →
  ∃ plan s', plan_new f now drawn s = Done (Ok plan, s') ∧
    match plan with
    | None => s' = s ∧ ∀ peer target, ¬ due s log now id r peer target
    | Some pl => due s log now id r (pl_peer pl) (pl_target pl) ∧ pl_operation pl = drawn ∧ plans_for pl id r ∧ pl_lease_until pl = now + 30 ∧
        pl_reason pl ≠ lit "current_peer_removed" ∧ s' = set_failovers (alter (with_pending (pending_of pl now) now) id) s
    end.
Proof using Hdns Hpeers Hhealth Hnow.
  intros Hr Hrd Hp. unfold plan_new. rewrite (rd_not_before _ _ _ Hrd). destruct (Z.ltb_spec now (fr_not_before r)) as [Hlt|Hge].
  { eexists None, s. split; [done|]. split; [done|]. intros peer target (? & _). lia. }
  destruct (hold_run s log now id f r Hhealth Hnow Hrd) as (b & E & Hb). cbv [mbind db_bind]. rewrite E. destruct b.
  { eexists None, s. split; [done|]. split; [done|]. intros peer target (_ & Hn & _). by apply Hn, Hb. }
  destruct (candidates_run s ops used l clock log f id r now Hdns Hpeers Hhealth Hnow Hr Hrd) as (cs & -> & H1 & H2 & H3). destruct cs as [|c cs].
  { eexists None, s. split; [done|]. split; [done|]. intros peer target (_ & _ & [Hf _] & _). destruct (H2 _ _ Hf) as (x & Hx & _). by apply elem_of_nil in Hx. }
  pose proof (first_candidate s log now id c cs H1 H2 H3) as Hbest. destruct (rd_current _ _ _ Hrd) as [-> ->]. destruct (rd_flags _ _ _ Hrd) as (_ & _ & ->).
  destruct (bool_decide (fr_current_peer r = Some (dc_peer c)) && _ && _) eqn:Ecur.
  { eexists None, s. split; [done|]. split; [done|]. intros peer target (_ & _ & Hb' & Hn). destruct (best_unique _ _ _ _ _ _ _ _ Hpeers Hb' Hbest) as [-> ->].
    apply Hn. bool_prop. done. }
  destruct (dk_rows _ _ _ _ _ Hdns id r Hr) as [_ Hf]. destruct (reason_run f id r (dc_peer c) (dc_target c) Hrd) as (reason & -> & Hreason).
  { intros p Ep. by apply (fk_current_peer _ _ _ _ _ _ Hf). }
  cbv [db_get]. rewrite (rd_id _ _ _ Hrd), Hr, Hp. rewrite bool_decide_true by done. cbn [db_ensure]. rewrite db_mret_run.
  destruct (H1 c (list_elem_of_here _ _)) as [_ (p & Hpc & _)]. unfold peer_exists. rewrite Hpc, bool_decide_true by done. cbn [db_ensure]. rewrite db_mret_run.
  cbv [db_put]. destruct lease_end_moment as [El1 El2]. eexists (Some _), _. split; [reflexivity|]. cbn [pl_peer pl_target pl_operation change_plan pl_lease_until pl_reason].
  split; [|split; [done|split; [|split; [done|split; [done|]]]]].
  - split; [done|]. split; [intros Hh; by apply Hb in Hh|]. split; [done|]. intros (E1 & E2 & E3). by rewrite E1, E2, E3, !bool_decide_true in Ecur.
  - destruct (rd_settings _ _ _ Hrd) as (? & ? & ? & ? & ? & ? & ?). repeat split; cbn; try done; [apply Hrd|apply Hrd].
  - unfold pending_of. cbn. rewrite El1, (moment_i64 now 30), moment_i64_0 by done. done.
Qed.
End planning.

(** The tables that planning leaves alone, and the rows of other failovers. *)
Record plan_frame (s s' : FleetDb) (id : Z) : Prop := {
  pf_peers : fleet_peers s' = fleet_peers s;
  pf_targets : dns_targets s' = dns_targets s;
  pf_config : health_config s' = health_config s;
  pf_state : health_state s' = health_state s;
  pf_coordination : coordination s' = coordination s;
  pf_counters : counters_ok s → counters_ok s';
  pf_rows : ∀ k, k ≠ id → dns_failovers s' !! k = dns_failovers s !! k;
}.
Lemma plan_frame_refl s id : plan_frame s s id.
Proof. by split. Qed.
Lemma plan_frame_trans s1 s2 s3 id : plan_frame s1 s2 id → plan_frame s2 s3 id → plan_frame s1 s3 id.
Proof. intros [A1 A2 A3 A4 A5 A6 A7] [B1 B2 B3 B4 B5 B6 B7]. split; try congruence; [auto|]. intros k Hk. by rewrite B7, A7. Qed.
Lemma plan_frame_altered s s1 f id : recorded s s1 → plan_frame s (set_failovers (alter f id) s1) id.
Proof. intros [(g & h & ->) Hc]. split; try done. intros k Hk. cbn. by rewrite lookup_alter_ne. Qed.
Lemma fit_frame s s' log now id id' peer target : plan_frame s s' id' → fit s log now id peer target ↔ fit s' log now id peer target.
Proof. intros [E1 E2 E3 E4 E5 E6 E7]. unfold fit, peer_enabled, cooled. by rewrite E1, E2, E3. Qed.
Lemma best_frame s s' log now id id' peer target : plan_frame s s' id' → best s log now id peer target ↔ best s' log now id peer target.
Proof.
  intros Hf. unfold best. setoid_rewrite (fit_frame s s' log now id id' _ _ Hf). by rewrite (pf_peers _ _ _ Hf).
Qed.
Lemma held_frame s s' log now id id' r r' : plan_frame s s' id' → fr_current_peer r' = fr_current_peer r → fr_current_target r' = fr_current_target r →
  held s log now id r ↔ held s' log now id r'.
Proof. intros [E1 E2 E3 E4 E5 E6 E7] F1 F2. unfold held, peer_enabled, cooled. by rewrite E1, E2, E3, F1, F2. Qed.
Lemma due_frame s s' log now id id' r r' peer target : plan_frame s s' id' → fr_current_peer r' = fr_current_peer r → fr_current_target r' = fr_current_target r →
  fr_not_before r' = fr_not_before r → fr_reconcile r' = fr_reconcile r → due s log now id r peer target ↔ due s' log now id r' peer target.
Proof.
  intros Hf F1 F2 F3 F4. unfold due. by rewrite (held_frame s s' log now id id' r r'), (best_frame s s' log now id id'), F1, F2, F3, F4 by done.
Qed.

Lemma altered_row s s1 id r f : dns_failovers s1 = dns_failovers s → dns_failovers s !! id = Some r →
  dns_failovers (set_failovers (alter f id) s1) = <[id := f r]> (dns_failovers s).
Proof. intros E Hr. cbn. rewrite E. by rewrite <- (alter_insert_eq _ _ _ r), insert_id. Qed.
Lemma unused_operation s ops used l clock op : dns_ok s ops used l clock → op ∉ ops → switch_events s !! op = None ∧ op ∉ sd_operation <$> l.
Proof.
  intros H Hop. split.
  - destruct (switch_events s !! op) as [e|] eqn:He; [|done]. exfalso. apply Hop. destruct (dk_events _ _ _ _ _ H op e He) as (x & Hx & <- & _).
    by apply (dk_settled _ _ _ _ _ H).
  - intros (x & -> & Hx)%list_elem_of_fmap. by apply Hop, (dk_settled _ _ _ _ _ H).
Qed.

Section rounds.
Context {env : FleetEnv} {plat : Platform}.
Context (used : gset Z) (log : probe_log) (now : Z) (Hnow : moment_ok now).

(** A new change is reserved. *)
Lemma dns_ok_reserved s ops l clock id r pl : dns_ok s ops used l clock → clock ≤ now → dns_failovers s !! id = Some r → pd_operation (fr_pending r) = None →
  pl_operation pl ∉ ops → due s log now id r (pl_peer pl) (pl_target pl) → pl_lease_until pl = now + 30 →
  dns_ok (set_failovers (alter (with_pending (pending_of pl now) now) id) s) ({[pl_operation pl]} ∪ ops) used l now.
Proof using Hnow.
  intros H Hc Hr Hp Hop (Hnb & _ & [(_ & (p & Hpp & _) & _) _] & _) Hl. destruct (dk_rows _ _ _ _ _ H id r Hr) as [_ Hf]. destruct (unused_operation _ _ _ _ _ _ H Hop) as [Hev Hnl].
  assert (U : row_update s (set_failovers (alter (with_pending (pending_of pl now) now) id) s) ({[pl_operation pl]} ∪ ops) [] l now id r (with_pending (pending_of pl now) now r)).
  { split; try done; [by apply altered_row|by left|]. destruct Hf as [F1 F2 F3 F4 F5 F6 F7 F8]. split; cbn; try done. unfold pending_of. constructor; try done; [set_solver|..].
    - intros q [= <-]. cbn. eauto.
    - rewrite Hl. destruct Hnow. lia. }
  apply (dns_ok_update _ _ _ ({[pl_operation pl]} ∪ ops) _ [] _ _ _ _ _ _ H Hc (union_subseteq_r _ _) U). cbn. intros op [= <-]. by right.
Qed.
(** An operation is cleared, with or without an event. *)
Lemma dns_ok_cleared s s1 ops l clock id r error : dns_ok s ops used l clock → clock ≤ now → dns_failovers s !! id = Some r → recorded s s1 →
  dns_ok (set_failovers (alter (cleared error now) id) s1) ops used l now.
Proof using Type.
  intros H Hc Hr R. destruct (dk_rows _ _ _ _ _ H id r Hr) as [_ Hf]. destruct R as [(g & h & ->) _].
  assert (U : row_update s (set_failovers (alter (cleared error now) id) (set_probes g (set_counters h s))) ops [] l now id r (cleared error now r)).
  { split; try done; [by apply altered_row|by left|]. destruct Hf as [F1 F2 F3 F4 F5 F6 F7 F8]. split; cbn; try done. constructor. }
  by apply (dns_ok_update _ _ _ _ _ [] _ _ _ _ _ _ H Hc ltac:(done) U).
Qed.
Lemma dns_ok_given_up s s1 ops l clock id r op e error : dns_ok s ops used l clock → clock ≤ now → dns_failovers s !! id = Some r →
  pd_operation (fr_pending r) = Some op → sw_failover e = id → sw_applied e = false → recorded (set_switches (<[op := e]>) s) s1 →
  dns_ok (set_failovers (alter (cleared error now) id) s1) ops used (settled_as false now s op e :: l) now.
Proof using Type.
  intros H Hc Hr Hp He Ha R. destruct (dk_rows _ _ _ _ _ H id r Hr) as [_ Hf]. destruct R as [(g & h & ->) _].
  assert (U : row_update s (set_failovers (alter (cleared error now) id) (set_probes g (set_counters h (set_switches (<[op := e]>) s)))) ops
                [settled_as false now s op e] l now id r (cleared error now r)).
  { split; try done; [by apply altered_row|right; exists op, e; eexists; by split_and!|]. destruct Hf as [F1 F2 F3 F4 F5 F6 F7 F8].
    assert (last_applied id ([settled_as false now s op e] ++ l) = last_applied id l) as El.
    { unfold last_applied. cbn [app]. rewrite filter_cons_False; [done|]. intros [_ E]. cbn in E. congruence. }
    split; rewrite ?El; cbn; try done; [constructor|]. intros x [->|Hx]%elem_of_cons; [done|]. by apply F8. }
  apply (dns_ok_update _ _ _ _ _ [settled_as false now s op e] _ _ _ _ _ _ H Hc ltac:(done) U). done.
Qed.
Lemma dns_ok_released s ops l clock id r op lease : dns_ok s ops used l clock → clock ≤ now → dns_failovers s !! id = Some r → pd_operation (fr_pending r) = Some op →
  0 ≤ lease ≤ CLOCK_MAX + 86400 →
  dns_ok (set_failovers (alter (λ r, if bool_decide (pd_operation (fr_pending r) = Some op) then with_lease lease now r else r) id) s) ops used l now.
Proof using Type.
  intros H Hc Hr Hp Hl. destruct (dk_rows _ _ _ _ _ H id r Hr) as [_ Hf]. set (f := λ r, if bool_decide (pd_operation (fr_pending r) = Some op) then with_lease lease now r else r).
  assert (f r = with_lease lease now r) as Ef by (unfold f; by rewrite bool_decide_true).
  assert (U : row_update s (set_failovers (alter f id) s) ops [] l now id r (with_lease lease now r)).
  { split; try done; [rewrite <- Ef; by apply altered_row|by left|]. destruct Hf as [F1 F2 F3 F4 F5 F6 F7 F8]. split; cbn; try done.
    destruct F5 as [|o peer target reason started old P1 P2 P3 P4 P5 P6]; [done|]. cbn. constructor; try done; [|lia].
    unfold CLOCK_MAX in *. rewrite to_i64_small by lia. done. }
  apply (dns_ok_update _ _ _ _ _ [] _ _ _ _ _ _ H Hc ltac:(done) U). cbn. auto.
Qed.

(** What a round does for a failover, and which plan it makes. *)
Definition planned (s : FleetDb) (id : Z) (r : FailoverRow) (drawn : Z) (s' : FleetDb) (plan : option FleetDnsChangePlan) : Prop :=
  match plan with
  | None => (∀ op peer target, ¬ retried s log now id r op peer target) ∧ (∀ peer target, ¬ moved s log now id r peer target)
  | Some pl =>
      plans_for pl id r ∧ pl_lease_until pl = now + 30 ∧
      (retried s log now id r (pl_operation pl) (pl_peer pl) (pl_target pl) ∨ moved s log now id r (pl_peer pl) (pl_target pl) ∧ pl_operation pl = drawn) ∧
      ∃ r' started, dns_failovers s' !! id = Some r' ∧ fr_pending r' = pending_of pl started ∧ plans_for pl id r' ∧
        fr_enabled r' = fr_enabled r ∧ fr_frozen r' = fr_frozen r
  end.
Record round_result (s s' : FleetDb) (ops : gset Z) (l : list Settled) (id : Z) (r : FailoverRow) (drawn : Z) (plan : option FleetDnsChangePlan) (xs : list Settled) : Prop := {
  rr_ok : dns_ok s' ({[drawn]} ∪ ops) used (xs ++ l) now;
  rr_frame : plan_frame s s' id;
  rr_events : xs = [] ∧ switch_events s' = switch_events s ∨
    ∃ op e, xs = [settled_as false now s op e] ∧ switch_events s' = <[op := e]> (switch_events s) ∧ switch_events s !! op = None ∧ sw_applied e = false ∧ sw_failover e = id;
  rr_plan : planned s id r drawn s' plan;
  rr_waiting : waiting now r → dns_failovers s' !! id = Some r;
}.
Lemma dns_ok_more s ops ops' l clock clock' : dns_ok s ops used l clock → ops ⊆ ops' → clock ≤ clock' → dns_ok s ops' used l clock'.
Proof using Type.
  intros H Ho Hc. destruct H as [H1 H2 H3 H4 H5 H6 H7 H8]. split; try done.
  - intros id r Hr. destruct (H1 id r Hr) as [Hu Hf]. split; [done|]. apply (failover_ok_mono s s ops ops' [] l clock clock'); try done. intros op _. split; [done|apply not_elem_of_nil].
  - intros x Hx. destruct (H6 x Hx). auto.
Qed.
(** The round once no operation is pending: from the state [s1] that clearing left. *)
Lemma round_new s s1 ops l xs f id r r1 drawn :
  dns_ok s1 ops used (xs ++ l) now → peers_ok s1 → health_ok s1 log → plan_frame s s1 id → dns_failovers s1 !! id = Some r1 → reads f id r1 → pd_operation (fr_pending r1) = None →
  drawn ∉ ops → ¬ waiting now r → (∀ op peer target, ¬ retried s log now id r op peer target) →
  fr_current_peer r1 = fr_current_peer r → fr_current_target r1 = fr_current_target r → fr_not_before r1 = fr_not_before r → fr_reconcile r1 = fr_reconcile r →
  fr_enabled r1 = fr_enabled r → fr_frozen r1 = fr_frozen r → (∀ pl, plans_for pl id r1 → plans_for pl id r) →
  xs = [] ∧ switch_events s1 = switch_events s ∨
    (∃ op e, xs = [settled_as false now s op e] ∧ switch_events s1 = <[op := e]> (switch_events s) ∧ switch_events s !! op = None ∧ sw_applied e = false ∧ sw_failover e = id) →
  ∃ plan s', plan_new f now drawn s1 = Done (Ok plan, s') ∧ round_result s s' ops l id r drawn plan xs.
Proof using Hnow.
  intros H Hp Hh Hfr Hr Hrd Hpd Hd Hw Hre E1 E2 E3 E4 E5 E6 Hpf Hev.
  assert (∀ peer target, moved s log now id r peer target ↔ due s1 log now id r1 peer target) as Hm.
  { intros peer target. rewrite <- (due_frame s s1 log now id id r r1) by done. unfold moved, due. naive_solver. }
  destruct (plan_new_run s1 ops used (xs ++ l) now log now H Hp Hh Hnow f id r1 drawn Hr Hrd Hpd) as (plan & s' & -> & Hplan).
  exists plan, s'. split; [done|]. destruct plan as [pl|].
  - destruct Hplan as (Hdue & <- & Hfor & Hl & Hreason & ->). split.
    + by eapply dns_ok_reserved.
    + eapply plan_frame_trans; [exact Hfr|]. apply plan_frame_altered, recorded_refl.
    + done.
    + split; [by apply Hpf|]. split; [done|]. split; [right; split; [by apply Hm|done]|]. eexists _, now. split; [cbn; rewrite lookup_alter_eq, Hr; reflexivity|]. done.
    + done.
  - destruct Hplan as [-> Hno]. split; try done; [by eapply dns_ok_more; [exact H|set_solver|]|]. split; [done|]. intros peer target Hmv. by apply (Hno peer target), Hm.
Qed.
Lemma reads_targets f id r t : reads f id r → reads (with_targets t f) id r.
Proof using Type. by intros []. Qed.
Lemma reads_cleared f id r error updated : reads f id r → reads (forgotten error updated f) id (cleared (Some error) now r).
Proof using Type. intros []. split; try done. Qed.
Lemma reads_pending f id r : reads f id r → pending_any (fo_pending f) = pending_any (fr_pending r) ∧ pending_complete (fo_pending f) = pending_complete (fr_pending r).
Proof using Type. intros Hrd. destruct (rd_pending _ _ _ Hrd) as (E1 & E2 & E3 & E4 & _). unfold pending_any, pending_complete. by rewrite E1, E2, E3, E4. Qed.
Lemma fits_iff s id peer target cs :
  (∀ c, c ∈ cs → fit s log now id (dc_peer c) (dc_target c) ∧ stands_for s c) →
  (∀ peer target, fit s log now id peer target → ∃ c, c ∈ cs ∧ dc_peer c = peer ∧ dc_target c = target) →
  fits peer target cs = true ↔ fit s log now id peer target.
Proof using Type.
  intros H1 H2. unfold fits, any. rewrite existsb_exists. split.
  - intros (c & Hc%list_elem_of_In & E). bool_prop. subst. by apply H1.
  - intros Hf. destruct (H2 _ _ Hf) as (c & Hc & <- & <-). exists c. split; [by apply list_elem_of_In|]. by rewrite Z.eqb_refl, bool_decide_true.
Qed.
Context (ops : gset Z) (l : list Settled) (clock : Z) (s : FleetDb).
Context (Hdns : dns_ok s ops used l clock) (Hclock : clock ≤ now) (Hpeers : peers_ok s) (Hhealth : health_ok s log) (Hcounters : counters_ok s).

(** The round of a failover whose operation is complete. *)
Lemma round_pending f id r drawn op peer target reason lease :
  dns_failovers s !! id = Some r → reads f id r → drawn ∉ ops →
  pending_complete (fr_pending r) = Some (op, peer, target, reason) → pd_lease_until (fr_pending r) = Some lease → pd_started (fr_pending r) ≠ None →
  ∃ plan s' xs,
    (if now <? lease then mret None
     else
       candidates ← read_dns_candidates f now;
       if fits peer target candidates then
         name ← db_get (λ s, match fleet_peers s !! peer with Some p => pe_name p | None => uuid_string peer end);
         _ ← db_put (set_failovers (alter (λ r, if bool_decide (pd_operation (fr_pending r) = Some op) then with_lease (lease_end now) now r else r) id));
         mret (Some (change_plan f op peer name target reason (lease_end now)))
       else
         _ ← insert_switch_event op {| sw_failover := id; sw_peer := peer; sw_target := target; sw_reason := reason; sw_applied := false;
                                       sw_error := Some PENDING_UNFIT; sw_completed := to_i64 now |};
         _ ← increment_counter DNS_SWITCH_FAILURES;
         _ ← db_put (set_failovers (alter (cleared (Some PENDING_UNFIT) now) id));
         plan_new (forgotten PENDING_UNFIT (fo_updated f) f) now drawn) s = Done (Ok plan, s') ∧ round_result s s' ops l id r drawn plan xs.
Proof using Hnow Hdns Hclock Hpeers Hhealth Hcounters.
  intros Hr Hrd Hd Hpc Hle Hst. destruct (dk_rows _ _ _ _ _ Hdns id r Hr) as [_ Hf].
  assert (pd_operation (fr_pending r) = Some op) as Hop by (unfold pending_complete in Hpc; destruct (pd_operation _); [|done]; cbn in Hpc; repeat (destruct (pd_peer _) || destruct (pd_target _) || destruct (pd_reason _)); cbn in Hpc; congruence).
  destruct (pending_operation _ _ _ _ _ _ _ (fk_pending _ _ _ _ _ _ Hf) Hop) as (Hin & Hev & Hnl).
  assert (waiting now r ↔ now < lease) as Hw.
  { unfold waiting. rewrite Hle, Hpc. split; [intros (_ & x & [= <-] & ?); done|]. intros Hlt. split; [done|]. eauto. }
  destruct (Z.ltb_spec now lease) as [Hlt|Hge].
  { exists None, s, []. split; [done|]. split; [by eapply dns_ok_more; [exact Hdns|set_solver|]|apply plan_frame_refl|by left| |done].
    split; intros; intros [Hn _]; by apply Hn, Hw. }
  assert (¬ waiting now r) as Hnw by (intros ?%Hw; lia).
  destruct (candidates_run s ops used l clock log f id r now Hdns Hpeers Hhealth Hnow Hr Hrd) as (cs & E & H1 & H2 & _). cbv [mbind db_bind]. rewrite E.
  destruct (fits peer target cs) eqn:Efit.
  - apply (fits_iff s id peer target cs H1 H2) in Efit. destruct (lease_end_moment now Hnow) as [El1 El2]. cbv [db_get db_put]. rewrite db_mret_run.
    eexists (Some _), _, []. split; [reflexivity|]. split.
    + apply (dns_ok_more _ ops _ _ now now); [|set_solver|lia]. apply (dns_ok_released s ops l clock id r); try done. rewrite El1. destruct Hnow. lia.
    + apply plan_frame_altered, recorded_refl.
    + by left.
    + destruct (rd_settings _ _ _ Hrd) as (? & ? & ? & ? & ? & ? & ?). split; [repeat split; cbn; try done; apply Hrd|]. split; [done|].
      split; [left; split; [done|]; split; [by exists reason|done]|]. assert (plans_for (change_plan f op peer (match fleet_peers s !! peer with Some p => pe_name p | None => uuid_string peer end) target reason (lease_end now)) id (with_lease (lease_end now) now r)) as Hfor' by (repeat split; cbn; try done; apply Hrd).
      destruct (pd_started (fr_pending r)) as [started|] eqn:Es; [|done]. exists (with_lease (lease_end now) now r), started. cbn.
      rewrite lookup_alter_eq, Hr. cbn. rewrite bool_decide_true by done. split; [done|]. split; [|done]. unfold pending_of. cbn.
      unfold pending_complete in Hpc. rewrite Hop in Hpc. cbn in Hpc. destruct (pd_peer _); [|done]. cbn in Hpc. destruct (pd_target _); [|done]. cbn in Hpc.
      destruct (pd_reason _); [|done]. cbn in Hpc. injection Hpc as -> -> ->. by rewrite Hop, Es, El2, El1.
    + done.
  - assert (¬ fit s log now id peer target) as Hnf by (rewrite <- (fits_iff s id peer target cs H1 H2); congruence).
    unfold insert_switch_event. cbv [mbind db_bind db_get]. rewrite Hev. rewrite bool_decide_false by (by intros []). cbn [negb db_ensure]. rewrite db_mret_run. cbv [db_put].
    match goal with |- context [increment_counter DNS_SWITCH_FAILURES (set_switches (<[op := ?e]>) s)] => set (ev := e) end.
    destruct (counter_bumped (set_switches (<[op := ev]>) s) DNS_SWITCH_FAILURES) as (s1 & -> & R & _); [apply Hcounters|set_solver|].
    pose proof (dns_ok_given_up s s1 ops l clock id r op ev (Some PENDING_UNFIT) Hdns Hclock Hr Hop eq_refl eq_refl R) as H1'.
    destruct R as [(g & h & ->) Rc].
    match goal with |- context [plan_new ?f' now drawn ?s2] => edestruct (round_new s s2 ops l [settled_as false now s op ev] f' id r (cleared (Some PENDING_UNFIT) now r) drawn) as (plan & s' & E' & RR) end; try done.
    + destruct Hpeers. by split.
    + split; try done. intros k Hk. cbn. by rewrite lookup_alter_ne.
    + cbn. by rewrite lookup_alter_eq, Hr.
    + by apply reads_cleared.
    + intros op' peer' target' (_ & (reason' & Epc) & Hfit). rewrite Hpc in Epc. injection Epc as <- <- <- <-. done.
    + right. exists op, ev. by split_and!.
    + exists plan, s', [settled_as false now s op ev]. split; [exact E'|done].
Qed.
Lemma plan_failover_run id r drawn : dns_failovers s !! id = Some r → drawn ∉ ops →
  ∃ plan s' xs, plan_failover id now drawn s = Done (Ok plan, s') ∧ round_result s s' ops l id r drawn plan xs.
Proof using Hnow Hdns Hclock Hpeers Hhealth Hcounters.
  intros Hr Hd. destruct (dk_rows _ _ _ _ _ Hdns id r Hr) as [_ Hf]. unfold plan_failover, mbind at 1, db_bind at 1.
  pose proof (read_failover_run s ops used l clock id Hdns) as E. rewrite Hr in E. destruct E as (f & -> & Hrd0).
  unfold read_dns_targets, mbind at 1, db_bind at 1, db_get at 1. set (f1 := with_targets (targets_of id s) f). assert (reads f1 id r) as Hrd by by apply reads_targets.
  clearbody f1. clear f Hrd0. destruct (reads_pending _ _ _ Hrd) as [Ea Ecomp]. unfold clear_incomplete, mbind at 1, db_bind at 1. rewrite Ea, Ecomp.
  pose proof (fk_pending _ _ _ _ _ _ Hf) as Hp. remember (fr_pending r) as p eqn:Epend. destruct Hp as [|op peer target reason started lease P1 P2 P3 P4 P5 P6].
  - cbn. rewrite Ecomp. cbn. edestruct (round_new s s ops l [] f1 id r r drawn) as (plan & s' & E' & RR); try done.
    + by eapply dns_ok_more; [exact Hdns|done|].
    + by rewrite <- Epend.
    + intros [[x Hx] _]. by rewrite <- Epend in Hx.
    + intros op peer target (_ & (reason & Hx) & _). by rewrite <- Epend in Hx.
    + by left.
    + exists plan, s', []. done.
  - destruct peer as [peer|].
    + match goal with |- context [if ?b then _ else _] => change b with false end. cbv iota. rewrite db_mret_run.
      rewrite Ecomp. cbn [pending_complete pd_operation pd_peer pd_target pd_reason mbind option_bind]. destruct (rd_pending _ _ _ Hrd) as (_ & _ & _ & _ & ->). rewrite <- Epend. cbn [pd_lease_until].
      apply (round_pending f1 id r drawn op peer target reason lease); try done; by rewrite <- Epend.
    + match goal with |- context [if ?b then _ else _] => change b with true end. cbv iota.
      destruct (counter_bumped s DNS_SWITCH_FAILURES Hcounters) as (s1 & E1 & R & _); [set_solver|]. unfold mbind at 1, db_bind at 1. rewrite E1.
      unfold mbind at 1, db_bind at 1, db_put at 1. rewrite db_mret_run, (rd_id _ _ _ Hrd). cbn [forgotten fo_pending no_pending pending_complete pd_operation mbind option_bind].
      pose proof (dns_ok_cleared s s1 ops l clock id r (Some INCOMPLETE_PENDING) Hdns Hclock Hr R) as H1. pose proof (plan_frame_altered s s1 (cleared (Some INCOMPLETE_PENDING) now) id R) as Hfr.
      destruct R as [(g & h & ->) Rc].
      match goal with |- context [plan_new ?f' now drawn ?s2] => edestruct (round_new s s2 ops l [] f' id r (cleared (Some INCOMPLETE_PENDING) now r) drawn) as (plan & s' & E' & RR) end; try done.
      * destruct Hpeers. by split.
      * cbn. by rewrite lookup_alter_eq, Hr.
      * by apply reads_cleared.
      * intros [[x Hx] _]. by rewrite <- Epend in Hx.
      * intros op' peer' target' (_ & (reason' & Hx) & _). by rewrite <- Epend in Hx.
      * by left.
      * exists plan, s', []. done.
Qed.
End rounds.

(** ** The whole plan *)

Lemma retried_frame s s' log now id id' r op peer target : plan_frame s s' id' → retried s log now id r op peer target ↔ retried s' log now id r op peer target.
Proof. intros Hf. unfold retried. by rewrite (fit_frame s s' log now id id'). Qed.
Lemma moved_frame s s' log now id id' r peer target : plan_frame s s' id' → moved s log now id r peer target ↔ moved s' log now id r peer target.
Proof.
  intros Hf. unfold moved. setoid_rewrite (retried_frame s s' log now id id' _ _ _ _ Hf). by rewrite (held_frame s s' log now id id' r r), (best_frame s s' log now id id') by done.
Qed.
Lemma planned_frame log now s s1 s2 s3 id id' r drawn plan : plan_frame s s1 id' → dns_failovers s3 !! id = dns_failovers s2 !! id →
  planned log now s1 id r drawn s2 plan → planned log now s id r drawn s3 plan.
Proof.
  intros Hf E. unfold planned. destruct plan as [pl|].
  - by rewrite E, (retried_frame s s1 log now id id'), (moved_frame s s1 log now id id') by done.
  - setoid_rewrite (retried_frame s s1 log now id id' _ _ _ _ Hf). by setoid_rewrite (moved_frame s s1 log now id id' _ _ _ Hf).
Qed.

Record plan_result (log : probe_log) (now : Z) (used ops : gset Z) (l : list Settled) (ids : list Z) (draw : Z → Z) (s s' : FleetDb)
    (plans : list FleetDnsChangePlan) (xs : list Settled) : Prop := {
  pn_ok : dns_ok s' (list_to_set (draw <$> ids) ∪ ops) used (xs ++ l) now;
  pn_frame : fleet_peers s' = fleet_peers s ∧ dns_targets s' = dns_targets s ∧ health_config s' = health_config s ∧ health_state s' = health_state s ∧
    coordination s' = coordination s ∧ (counters_ok s → counters_ok s');
  pn_rows : ∀ k, k ∉ ids → dns_failovers s' !! k = dns_failovers s !! k;
  pn_given_up : ∀ x, x ∈ xs → sd_applied x = false ∧ sd_attempted x = false;
  pn_events : ∀ op e, switch_events s !! op = Some e → switch_events s' !! op = Some e;
  pn_settled : ∀ x, x ∈ xs ↔ ∃ op e, switch_events s' !! op = Some e ∧ switch_events s !! op = None ∧ x = settled_as false now s op e;
  pn_where : ∀ op e, switch_events s' !! op = Some e → switch_events s !! op = None → sw_failover e ∈ ids;
  pn_ids : ∀ pl, pl ∈ plans → pl_failover pl ∈ ids;
  pn_plans : ∀ id r, id ∈ ids → dns_failovers s !! id = Some r →
    ∃ plan, planned log now s id r (draw id) s' plan ∧ ∀ pl, pl ∈ plans ∧ pl_failover pl = id ↔ plan = Some pl;
  pn_waiting : ∀ id r, dns_failovers s !! id = Some r → waiting now r → dns_failovers s' !! id = Some r;
}.
Lemma elem_of_active s only id : id ∈ active_failovers only s ↔
  ∃ r, dns_failovers s !! id = Some r ∧ fr_enabled r = true ∧ fr_frozen r = false ∧ (∀ i, only = Some i → i = id).
Proof.
  unfold active_failovers. set (rows := filter (λ x : Z * FailoverRow, fr_enabled x.2 = true ∧ fr_frozen x.2 = false) (map_to_list (dns_failovers s))).
  assert (∀ i r, (i, r) ∈ rows ↔ dns_failovers s !! i = Some r ∧ fr_enabled r = true ∧ fr_frozen r = false) as Hrows.
  { intros i r. unfold rows. rewrite list_elem_of_filter, elem_of_map_to_list. cbn. naive_solver. }
  destruct only as [i|]; rewrite list_elem_of_fmap.
  - split.
    + intros ([k r] & -> & [E Hin]%list_elem_of_filter). cbn in *. subst. apply Hrows in Hin. exists r. naive_solver.
    + intros (r & Hr & He & Hf & Ho). specialize (Ho i eq_refl). subst. exists (id, r). split; [done|]. apply list_elem_of_filter. split; [done|]. by apply Hrows.
  - split.
    + intros ([k r] & -> & Hin). unfold by_name in Hin. rewrite merge_sort_Permutation in Hin. apply Hrows in Hin. exists r. naive_solver.
    + intros (r & Hr & He & Hf & _). exists (id, r). split; [done|]. unfold by_name. rewrite merge_sort_Permutation. by apply Hrows.
Qed.
Lemma active_NoDup s only : NoDup (active_failovers only s).
Proof.
  assert (∀ l : list (Z * FailoverRow), l `sublist_of` map_to_list (dns_failovers s) → NoDup l.*1) as Hsub.
  { intros l Hl. eapply sublist_NoDup; [apply (NoDup_fst_map_to_list (dns_failovers s))|by apply fmap_sublist]. }
  unfold active_failovers. destruct only as [i|].
  - apply Hsub. etrans; apply sublist_filter.
  - unfold by_name. rewrite merge_sort_Permutation. apply Hsub, sublist_filter.
Qed.

Section whole.
Context {env : FleetEnv} {plat : Platform}.
Context (used : gset Z) (log : probe_log) (now : Z) (Hnow : moment_ok now) (draw : Z → Z).

Lemma plan_loop_run ids : ∀ ops l clock s, dns_ok s ops used l clock → clock ≤ now → peers_ok s → health_ok s log → counters_ok s →
  NoDup ids → (∀ id, id ∈ ids → is_Some (dns_failovers s !! id) ∧ draw id ∉ ops) → (∀ i j, i ∈ ids → j ∈ ids → draw i = draw j → i = j) →
  ∃ plans s' xs, plan_loop ids now draw s = Done (Ok plans, s') ∧ plan_result log now used ops l ids draw s s' plans xs.
Proof using Hnow.
  induction ids as [|id ids IH]; intros ops l clock s H Hc Hp Hh Hco Hnd Hids Hinj.
  { exists [], s, []. split; [done|]. split; cbn; try done.
    - by eapply dns_ok_more; [exact H|set_solver|].
    - intros x Hx. by apply elem_of_nil in Hx.
    - intros x. split; [intros Hx; by apply elem_of_nil in Hx|]. intros (op & e & E1 & E2 & _). congruence.
    - intros op e E1 E2. congruence.
    - intros pl Hx. by apply elem_of_nil in Hx.
    - intros id r Hx. by apply elem_of_nil in Hx. }
  apply NoDup_cons in Hnd as [Hni Hnd]. destruct (Hids id (list_elem_of_here _ _)) as [[r Hr] Hd]. cbn [plan_loop]. unfold mbind at 1, db_bind at 1.
  destruct (plan_failover_run used log now Hnow ops l clock s H Hc Hp Hh Hco id r (draw id) Hr Hd) as (plan & s1 & xs & -> & [R1 R2 R3 R4 R5]).
  destruct R2 as [F1 F2 F3 F4 F5 F6 F7]. 
  assert (plan_frame s s1 id) as Hfr by by split.
  destruct (IH ({[draw id]} ∪ ops) (xs ++ l) now s1) as (plans & s2 & ys & E & [Q1 Q2 Q3 Q4 Q5 Q6 Qw Q7 Q8 Q9]); [done|done|..].
  { destruct Hp as [Hp1 Hp2]. split; by rewrite F1. }
  { intros k. specialize (Hh k). by rewrite F1, F3, F4. }
  { by apply F6. } { done. }
  { intros k Hk. rewrite F7 by (intros ->; done). destruct (Hids k (list_elem_of_further _ _ _ Hk)) as [? Hdk]. split; [done|].
    intros [E%elem_of_singleton|?]%elem_of_union; [|done]. apply Hni. rewrite <- (Hinj k id); [done|by right|by left|done]. }
  { intros i j Hi Hj. apply Hinj; by right. }
  unfold mbind at 1, db_bind at 1. rewrite E, db_mret_run. exists (option_list plan ++ plans), s2, (ys ++ xs). split; [done|].
  assert (∀ op e, switch_events s !! op = Some e → switch_events s1 !! op = Some e) as Hkeep.
  { intros op e He. destruct R3 as [[_ ->]|(op' & e' & _ & -> & Hn & _)]; [done|]. rewrite lookup_insert_ne; [done|congruence]. }
  assert (∀ x, x ∈ xs ↔ ∃ op e, switch_events s1 !! op = Some e ∧ switch_events s !! op = None ∧ x = settled_as false now s op e) as Hx.
  { intros x. destruct R3 as [[-> ->]|(op' & e' & -> & -> & Hn & _)].
    - split; [intros Hin; by apply elem_of_nil in Hin|]. intros (op & e & E1 & E2 & _). congruence.
    - rewrite list_elem_of_singleton. split; [intros ->; exists op', e'; by rewrite lookup_insert_eq|].
      intros (op & e & E1 & E2 & ->). apply lookup_insert_Some in E1 as [[-> ->]|[_ E1]]; [done|congruence]. }
  assert (∀ op e, switch_events s2 !! op = Some e → switch_events s1 !! op = None → settled_as false now s1 op e = settled_as false now s op e) as Hsame.
  { intros op e E1 E2. unfold settled_as. rewrite F7; [done|]. intros E3. apply Hni. rewrite <- E3. by eapply Qw. }
  split; cbn.
  - rewrite <- app_assoc. eapply dns_ok_more; [exact Q1|set_solver|done].
  - destruct Q2 as (G1 & G2 & G3 & G4 & G5 & G6). split_and!; try congruence. auto.
  - intros k [Hk1 Hk2]%not_elem_of_cons. rewrite Q3, F7; done.
  - intros x [Hin|Hin]%elem_of_app; [by apply Q4|]. apply Hx in Hin as (op & e & E1 & E2 & ->). destruct R3 as [[_ Es]|(op' & e' & _ & Es & _ & Ha & _)].
    + rewrite Es in E1. congruence.
    + rewrite Es in E1. apply lookup_insert_Some in E1 as [[-> ->]|[_ E1]]; [done|congruence].
  - auto.
  - intros x. rewrite elem_of_app, Q6, Hx. split.
    + intros [(op & e & E1 & E2 & ->)|(op & e & E1 & E2 & ->)]; exists op, e.
      * rewrite Hsame by done. split_and!; [done| |done]. destruct (switch_events s !! op) as [e'|] eqn:E3; [|done]. apply Hkeep in E3. congruence.
      * split_and!; [by apply Q5|done|done].
    + intros (op & e & E1 & E2 & ->). destruct (switch_events s1 !! op) as [e'|] eqn:E3.
      * right. exists op, e. split_and!; try done. apply Q5 in E3 as E4. congruence.
      * left. exists op, e. split_and!; try done. by rewrite Hsame.
  - intros op e E1 E2. destruct (switch_events s1 !! op) as [e'|] eqn:E3; [|right; by eapply Qw]. apply elem_of_cons. left. apply Q5 in E3 as E4. rewrite E1 in E4. injection E4 as <-.
    destruct R3 as [[_ Es]|(op' & e' & _ & Es & _ & _ & <-)]; rewrite Es in E3; [congruence|]. apply lookup_insert_Some in E3 as [[-> ->]|[_ E3]]; [done|congruence].
  - intros pl [Hin|Hin]%elem_of_app; [|right; by apply Q7]. destruct plan as [pl'|]; [|by apply elem_of_nil in Hin]. apply list_elem_of_singleton in Hin as ->.
    destruct R4 as [(-> & _) _]. apply list_elem_of_here.
  - intros k rk [->|Hk]%elem_of_cons Hrk.
    + rewrite Hr in Hrk. injection Hrk as <-. exists plan. split; [eapply planned_frame; [apply (plan_frame_refl s id)|by apply Q3|exact R4]|].
      intros pl. rewrite elem_of_app. split.
      * intros [[Hin|Hin] Ei]; [|exfalso; apply Hni; rewrite <- Ei; by apply Q7]. destruct plan as [pl'|]; [|by apply elem_of_nil in Hin]. by apply list_elem_of_singleton in Hin as ->.
      * intros ->. split; [left; by apply list_elem_of_singleton|]. by destruct R4 as [(-> & _) _].
    + assert (k ≠ id) as Hne by (intros ->; done). destruct (Q8 k rk Hk) as (plan' & Hpl & Hiff); [by rewrite F7|]. exists plan'.
      split; [eapply planned_frame; [exact Hfr|reflexivity|exact Hpl]|]. intros pl. rewrite elem_of_app, <- Hiff. split; [|naive_solver].
      intros [[Hin|Hin] Ei]; [|done]. exfalso. destruct plan as [pl'|]; [|by apply elem_of_nil in Hin]. apply list_elem_of_singleton in Hin as ->. destruct R4 as [(E' & _) _]. congruence.
  - intros k rk Hrk Hk. destruct (decide (k = id)) as [->|Hne]; [|apply Q9; [by rewrite F7|done]]. rewrite Hr in Hrk. injection Hrk as <-. apply Q9; [by apply R5|done].
Qed.

Lemma plan_run s ops l clock only : dns_ok s ops used l clock → clock ≤ now → peers_ok s → health_ok s log → counters_ok s →
  (∀ id, id ∈ active_failovers only s → draw id ∉ ops) → (∀ i j, i ∈ active_failovers only s → j ∈ active_failovers only s → draw i = draw j → i = j) →
  ∃ plans s' xs, plan_dns_changes now only draw s = Done (Ok plans, s') ∧ plan_result log now used ops l (active_failovers only s) draw s s' plans xs.
Proof using Hnow.
  intros H Hc Hp Hh Hco Hd Hinj. destruct (plan_loop_run (active_failovers only s) ops l clock s H Hc Hp Hh Hco (active_NoDup s only)) as (plans & s' & xs & E & R); [|done|].
  { intros id Hid. split; [|by apply Hd]. apply elem_of_active in Hid as (r & Hr & _). eauto. }
  exists plans, s', xs. split; [|done]. unfold plan_dns_changes, transaction. cbv [mbind db_bind db_get]. by rewrite E.
Qed.
End whole.

(** The order of operations that were given up together does not matter. *)
Lemma dns_ok_perm s ops used xs ys l clock : dns_ok s ops used (xs ++ l) clock → xs ≡ₚ ys → (∀ x, x ∈ xs → sd_applied x = false ∧ sd_attempted x = false) →
  dns_ok s ops used (ys ++ l) clock.
Proof.
  intros [H1 H2 H3 H4 H5 H6 H7 H8] Hperm Hx.
  assert (∀ x, x ∈ ys → sd_applied x = false ∧ sd_attempted x = false) as Hy by (intros x; rewrite <- Hperm; apply Hx).
  assert (∀ zs id, (∀ x, x ∈ zs → sd_applied x = false ∧ sd_attempted x = false) → last_applied id (zs ++ l) = last_applied id l) as Hlast.
  { intros zs id Hz. unfold last_applied. rewrite filter_app. replace (filter (λ x, sd_failover x = id ∧ sd_applied x = true) zs) with (@nil Settled); [done|]. clear -Hz.
    induction zs as [|z zs IH]; [done|]. rewrite filter_cons_False; [apply IH; intros x Hx; apply Hz; by right|]. intros [_ E]. destruct (Hz z (list_elem_of_here _ _)). congruence. }
  assert (∀ zs, (∀ x, x ∈ zs → sd_applied x = false ∧ sd_attempted x = false) → spaced (zs ++ l) ↔ spaced l) as Hsp.
  { intros zs Hz. induction zs as [|z zs IH]; [done|]. cbn. rewrite IH by (intros x Hx'; apply Hz; by right). split; [by intros []|]. intros Hs. split; [|done].
    intros x _ _ _ E. destruct (Hz z (list_elem_of_here _ _)). congruence. }
  split; try done.
  - intros id r Hr. destruct (H1 id r Hr) as [Hu [F1 F2 F3 F4 F5 F6 F7 F8]]. split; [done|]. rewrite Hlast in F6, F7 by done. split; rewrite ?Hlast by done; try done.
    + destruct F5 as [|op peer target reason started lease P1 P2 P3 P4 P5 P6]; [constructor|]. constructor; try done. by rewrite <- Hperm.
    + intros x. rewrite <- Hperm. apply F8.
  - intros op e He. destruct (H5 op e He) as (x & Hin & ?). exists x. by rewrite <- Hperm.
  - intros x. rewrite <- Hperm. apply H6.
  - by rewrite <- Hperm.
  - apply (Hsp ys Hy), (Hsp xs Hx), H8.
Qed.
Lemma settled_by_elem attempted now s s' x :
  x ∈ settled_by attempted now s s' ↔ ∃ op e, switch_events s' !! op = Some e ∧ switch_events s !! op = None ∧ x = settled_as attempted now s op e.
Proof.
  unfold settled_by. rewrite list_elem_of_fmap. split.
  - intros ([op e] & -> & Hin%elem_of_map_to_list). apply lookup_difference_Some in Hin as [? ?]. by exists op, e.
  - intros (op & e & H1 & H2 & ->). exists (op, e). split; [done|]. apply elem_of_map_to_list, lookup_difference_Some. done.
Qed.
Lemma settled_by_NoDup attempted now s s' : NoDup (settled_by attempted now s s').
Proof.
  unfold settled_by. apply (NoDup_fmap_1 sd_operation). rewrite <- list_fmap_compose. apply NoDup_fst_map_to_list.
Qed.
