(* ===== verification/FleetFailover.v ===== *)
(** * Failover of DNS records, in every history ([fleet.rs], [fleet_health.rs])

    The steps of the system, what they keep, and the theorems. *)

From S2P Require Import Prelude DbMonad RustStr RustText HaTables HaCoordination JobLeases AdminAuth TunnelTables TunnelCatalog FleetTables FleetHealth FleetDns FleetProbes FleetSystem FleetPlans.
Local Open Scope Z_scope.
Set Default Proof Using "Type".

(** ** Carrying out a plan *)

(** The plan is the pending operation of its failover, and its time is not over. *)
Definition current_plan (id : Z) (r : FailoverRow) (plan : FleetDnsChangePlan) (now : Z) : Prop :=
  fr_enabled r = true ∧ fr_frozen r = false ∧ plans_for plan id r ∧ pd_operation (fr_pending r) = Some (pl_operation plan) ∧
  pd_peer (fr_pending r) = Some (pl_peer plan) ∧ pd_target (fr_pending r) = Some (pl_target plan) ∧ pd_reason (fr_pending r) = Some (pl_reason plan) ∧
  pd_lease_until (fr_pending r) = Some (pl_lease_until plan) ∧ now < pl_lease_until plan.

Section execution.
Context {env : FleetEnv} {plat : Platform}.

Lemma settings_iff f id r plan : reads f id r → pl_failover plan = id → dns_record_settings_match f plan = true ↔ plans_for plan id r.
Proof.
  intros Hrd Hid. unfold dns_record_settings_match, plans_for. destruct (rd_settings _ _ _ Hrd) as (_ & E2 & E3 & E4 & E5 & E6 & E7).
  rewrite E2, E3, E4, E5, E6, E7, !andb_true_iff, !bool_decide_eq_true, Z.eqb_eq, eqb_true_iff. pose proof (rd_type _ _ _ Hrd) as Et. split.
  - intros ((((((? & Ht) & ?) & ?) & ?) & ?) & ?). split_and!; congruence.
  - intros (_ & ? & Ht & ? & ? & ? & ? & ?). split_and!; try congruence. apply record_as_str_inj. congruence.
Qed.
Lemma plan_current_run f id r plan now s : reads f id r → pl_failover plan = id →
  assert_dns_plan_current f plan now s = Done (Ok tt, s) ∧ current_plan id r plan now ∨
  assert_dns_plan_current f plan now s = Done (Err DnsOperationStale, s) ∧ ¬ current_plan id r plan now.
Proof.
  intros Hrd Hid. unfold assert_dns_plan_current, db_ensure. destruct (rd_pending _ _ _ Hrd) as (-> & -> & -> & -> & ->). destruct (rd_flags _ _ _ Hrd) as (-> & -> & _).
  match goal with |- context [if ?b then _ else _] => assert (b = true ↔ current_plan id r plan now) as Hiff; [|destruct b] end.
  - rewrite !andb_true_iff, !bool_decide_eq_true, negb_true_iff, Z.ltb_lt, (settings_iff f id r) by done. unfold current_plan. naive_solver.
  - left. split; [done|]. by apply Hiff.
  - right. split; [done|]. by intros ?%Hiff.
Qed.

Section complete.
Context (used ops : gset Z) (l : list Settled) (clock now : Z) (Hclock : clock ≤ now) (Hnow : moment_ok now).

Lemma deadline_moment (c : Z) : 1 ≤ c ≤ 86400 → saturating_add U64_MAX now c = now + c ∧ to_i64 (now + c) = now + c.
Proof using Hnow.
  intros H. split; [|apply moment_i64; [done|lia]]. unfold saturating_add. destruct Hnow. unfold CLOCK_MAX in *. apply Z.min_r. lia.
Qed.
(** The row once its operation is settled: applied or not. *)
Definition completed_row (plan : FleetDnsChangePlan) (result : option rstr) (r : FailoverRow) : FailoverRow :=
  if bool_decide (result = None) then switched plan now (now + fr_cooldown r) r else switch_failed (summarize_error <$> result) now (now + fr_cooldown r) r.
Lemma dns_ok_completed s s1 id r plan result ev : dns_ok s ops used l clock → dns_failovers s !! id = Some r → current_plan id r plan now →
  sw_failover ev = id → sw_peer ev = pl_peer plan → sw_target ev = pl_target plan → sw_applied ev = bool_decide (result = None) →
  recorded (set_switches (<[pl_operation plan := ev]>) s) s1 →
  dns_ok (set_failovers (alter (completed_row plan result) id) s1) ops used (settled_as true now s (pl_operation plan) ev :: l) now.
Proof using Hclock Hnow.
  intros H Hr (He & Hz & Hfor & P1 & P2 & P3 & P4 & P5 & P6) E1 E2 E3 E4 R. destruct (dk_rows _ _ _ _ _ H id r Hr) as [_ Hf]. destruct R as [(g & h & ->) _].
  set (x := settled_as true now s (pl_operation plan) ev). set (s1 := set_probes g (set_counters h (set_switches (<[pl_operation plan := ev]>) s))).
  assert (sd_failover x = id) as Ex by done. assert (sd_cooldown x = fr_cooldown r) as Ec by (cbn; by rewrite E1, Hr).
  pose proof (fk_cooldown _ _ _ _ _ _ Hf) as Hcd. destruct (deadline_moment _ Hcd) as [_ Ed].
  assert (fr_not_before r ≤ clock ∧ (∀ p, pd_peer (fr_pending r) = Some p → is_Some (fleet_peers s !! p))) as [Hnb Hpe].
  { pose proof (fk_pending _ _ _ _ _ _ Hf) as Hp. destruct Hp; [done|]. done. }
  assert (fr_not_before (completed_row plan result r) = now + fr_cooldown r) as En by (unfold completed_row; case_bool_decide; done).
  assert (∀ y, y ∈ x :: l → sd_failover y = id → sd_attempted y = true → sd_at y + sd_cooldown y ≤ now + fr_cooldown r) as Hsp.
  { intros y [->|Hy]%elem_of_cons Ey Ha; [rewrite Ec; done|]. pose proof (fk_spaced _ _ _ _ _ _ Hf y Hy Ey Ha). lia. }
  assert (U : row_update s (set_failovers (alter (completed_row plan result) id) s1) ops [x] l now id r (completed_row plan result r)).
  { split; try done.
    - by apply altered_row.
    - unfold completed_row. by case_bool_decide.
    - right. exists (pl_operation plan), ev, x. split_and!; try done. intros _. cbn. lia.
    - cbn [app]. destruct Hf as [F1 F2 F3 F4 F5 F6 F7 F8]. destruct Hnow as [Hn1 Hn2]. split.
      1-3: unfold completed_row; by case_bool_decide.
      + rewrite En. lia.
      + rewrite En. replace (fr_pending (completed_row plan result r)) with no_pending by (unfold completed_row; by case_bool_decide). constructor.
      + unfold completed_row, last_applied. case_bool_decide as Eres.
        * rewrite filter_cons_True by (split; [done|by rewrite <- E4]). cbn. intros p [= <-]. split; [by apply Hpe|by rewrite E2].
        * rewrite filter_cons_False by (intros [_ Ha]; cbn in Ha; by rewrite E4 in Ha). apply F6.
      + unfold completed_row, last_applied. case_bool_decide as Eres.
        * rewrite filter_cons_True by (split; [done|by rewrite <- E4]). cbn. by rewrite E3.
        * rewrite filter_cons_False by (intros [_ Ha]; cbn in Ha; by rewrite E4 in Ha). apply F7.
      + rewrite En. exact Hsp. }
  apply (dns_ok_update _ _ _ _ _ [x] _ _ _ _ _ _ H Hclock ltac:(done) U). unfold completed_row. by case_bool_decide.
Qed.
End complete.

Lemma database_now_run now s : moment_ok now → database_now now s = Done (Ok now, s).
Proof.
  intros [H1 H2]. unfold database_now, db_lift. rewrite get_uint_fits; [done|]. unfold CLOCK_MAX in H2. assert (U64_MAX = 18446744073709551615) as E by done. lia.
Qed.
(** The checks of the lease change nothing. *)
Lemma assert_job_run plan lease s : ∃ out, assert_dns_job plan lease s = Done (out, s).
Proof. unfold assert_dns_job, db_ensure. destruct (_ && _); by eexists. Qed.
Lemma assert_lease_run e s : ∃ out, assert_lease e s = Done (out, s) ∧
  (out = Ok tt → assert_sqlite_transaction_lease (ex_jobs e) (ex_lease e) (ex_fence_clock e) (ex_lease_clock e) (coordination s) = Ok tt).
Proof.
  unfold assert_lease. cbv [mbind db_bind db_get db_lift]. destruct (assert_sqlite_transaction_lease _ _ _ _ _) as [[]|err]; cbn; eexists; split; try done.
Qed.

(** A worker settles an operation. *)
Record completion (s s' : FleetDb) (plan : FleetDnsChangePlan) (result : option rstr) (now : Z) (r : FailoverRow) (ev : SwitchRow) : Prop := {
  cm_row : dns_failovers s !! pl_failover plan = Some r;
  cm_current : current_plan (pl_failover plan) r plan now;
  cm_event : sw_failover ev = pl_failover plan ∧ sw_peer ev = pl_peer plan ∧ sw_target ev = pl_target plan ∧ sw_applied ev = bool_decide (result = None);
  cm_before : switch_events s !! pl_operation plan = None;
  cm_after : ∃ s1, recorded (set_switches (<[pl_operation plan := ev]>) s) s1 ∧ s' = set_failovers (alter (completed_row now plan result) (pl_failover plan)) s1;
}.
Lemma complete_run s ops used l clock plan result e : dns_ok s ops used l clock → counters_ok s → moment_ok (ex_clock e) →
  ∃ out s', complete_dns_change_with_lease plan result e s = Done (out, s') ∧
    match out with
    | Err _ => s' = s
    | Ok res => if cr_duplicate res then s' = s else cr_applied res = bool_decide (result = None) ∧ ∃ r ev, completion s s' plan result (ex_clock e) r ev
    end.
Proof.
  intros H Hco Hn. unfold complete_dns_change_with_lease, complete_dns_change_inner, transaction, mbind, db_bind.
  destruct (assert_job_run plan (ex_lease e) s) as [[[]|err] ->]; [|by refused]. destruct (assert_lease_run e s) as ([[]|err] & -> & _); [|by refused].
  rewrite database_now_run by done. cbv [db_get]. destruct (switch_events s !! pl_operation plan) as [x|] eqn:Ex.
  { unfold db_ensure. destruct (_ && _); [|by refused]. eexists _, _. split; [done|]. done. }
  pose proof (read_failover_run s ops used l clock (pl_failover plan) H) as Er. destruct (dns_failovers s !! pl_failover plan) as [r|] eqn:Hr.
  2:{ rewrite Er. by refused. }
  destruct Er as (f & -> & Hrd). cbv [db_lift ok_or]. destruct (plan_current_run f (pl_failover plan) r plan (ex_clock e) s Hrd eq_refl) as [[-> Hcur]|[-> _]]; [|by refused].
  unfold insert_switch_event, mbind, db_bind, db_get at 1. rewrite Ex. rewrite bool_decide_false by (by intros []). cbn [negb db_ensure]. rewrite db_mret_run. cbv [db_put].
  match goal with |- context [increment_counter ?name (set_switches (<[_ := ?x]>) s)] => set (ev := x); set (counter := name) end.
  destruct (dk_rows _ _ _ _ _ H _ r Hr) as [_ Hf]. destruct (counter_bumped (set_switches (<[pl_operation plan := ev]>) s) counter) as (s1 & -> & R & _).
  { apply Hco. } { unfold counter. destruct (bool_decide _); set_solver. }
  rewrite (rd_cooldown _ _ _ Hrd). destruct (deadline_moment (ex_clock e) Hn _ (fk_cooldown _ _ _ _ _ _ Hf)) as [-> _].
  assert (is_Some (fleet_peers s1 !! pl_peer plan)) as Hpeer.
  { destruct R as [(g & h & ->) _]. cbn. destruct Hcur as (_ & _ & _ & _ & Ep & _). pose proof (fk_pending _ _ _ _ _ _ Hf) as Hp. destruct Hp; [done|]. by auto. }
  assert (∀ rr, dns_failovers s !! pl_failover plan = Some rr → rr = r) as Hrr by (intros rr E'; rewrite Hr in E'; by injection E').
  assert (∀ out, cr_applied out = bool_decide (result = None) → cr_duplicate out = false → ∃ out' s', Done (@Ok FleetError _ out, set_failovers (alter (completed_row (ex_clock e) plan result) (pl_failover plan)) s1) = Done (out', s') ∧
    match out' with
    | Err _ => s' = s
    | Ok res => if cr_duplicate res then s' = s else cr_applied res = bool_decide (result = None) ∧ ∃ r ev, completion s s' plan result (ex_clock e) r ev
    end) as Hdone.
  { intros out Ea Edup. eexists _, _. split; [reflexivity|]. cbn. rewrite Edup. split; [done|]. exists r, ev. split; try done. exists s1. done. }
  assert (∀ g, (∀ x, x = r → g x = completed_row (ex_clock e) plan result x) →
    set_failovers (alter g (pl_failover plan)) s1 = set_failovers (alter (completed_row (ex_clock e) plan result) (pl_failover plan)) s1) as Hsame.
  { intros g Hg. unfold set_failovers. f_equal. apply map_eq. intros k. destruct (decide (k = pl_failover plan)) as [->|]; [|by rewrite !lookup_alter_ne].
    rewrite !lookup_alter_eq. destruct R as [(a & b & ->) _]. cbn. rewrite Hr. cbn. by rewrite Hg. }
  destruct (bool_decide (result = None)) eqn:Eres.
  - unfold peer_exists. rewrite bool_decide_true by done. cbn [db_ensure]. rewrite db_mret_run. cbv beta iota. rewrite Hsame.
    + by apply Hdone.
    + intros x ->. unfold completed_row. by rewrite Eres.
  - rewrite Hsame; [by apply Hdone|]. intros x ->. unfold completed_row. by rewrite Eres.
Qed.
Lemma completion_ok s s' ops used l clock plan result now r ev : dns_ok s ops used l clock → clock ≤ now → moment_ok now → completion s s' plan result now r ev →
  dns_ok s' ops used (settled_by true now s s' ++ l) now ∧ (counters_ok s → counters_ok s') ∧ fleet_peers s' = fleet_peers s ∧ dns_targets s' = dns_targets s ∧
  health_config s' = health_config s ∧ health_state s' = health_state s.
Proof.
  intros H Hc Hn [C1 C2 (C3 & C4 & C5 & C6) C7 (s1 & R & ->)].
  assert (settled_by true now s (set_failovers (alter (completed_row now plan result) (pl_failover plan)) s1) = [settled_as true now s (pl_operation plan) ev]) as ->.
  { destruct R as [(g & h & ->) _]. unfold settled_by. cbn. assert (<[pl_operation plan := ev]> (switch_events s) ∖ switch_events s = {[pl_operation plan := ev]}) as ->.
    - apply map_eq. intros k. apply option_eq. intros v. rewrite lookup_difference_Some. destruct (decide (k = pl_operation plan)) as [->|Hk].
      + rewrite lookup_insert_eq, lookup_singleton_eq. naive_solver.
      + rewrite lookup_insert_ne, lookup_singleton_ne by done. naive_solver.
    - by rewrite map_to_list_singleton. }
  split; [by eapply dns_ok_completed|]. destruct R as [(g & h & ->) Rc]. by split_and!.
Qed.
Lemma drift_run s ops used l clock plan e : dns_ok s ops used l clock →
  ∃ out s', mark_dns_drift plan e s = Done (out, s') ∧
    (s' = s ∨ out = Ok true ∧ s' = set_failovers (alter (with_error true (Some DNS_PROVIDER_DRIFT) (to_u64 (ex_clock e))) (pl_failover plan)) s).
Proof.
  intros H. unfold mark_dns_drift, transaction, mbind, db_bind.
  destruct (assert_job_run plan (ex_lease e) s) as [[[]|err] ->]; [|by refused]. destruct (assert_lease_run e s) as ([[]|err] & -> & _); [|by refused].
  pose proof (read_failover_run s ops used l clock (pl_failover plan) H) as Er. destruct (dns_failovers s !! pl_failover plan) as [r|] eqn:Hr.
  2:{ rewrite Er. by refused. }
  destruct Er as (f & -> & Hrd). destruct (negb _); [by refused|]. eexists _, _. split; [done|]. by right.
Qed.

(** When a worker may send the request, and for how long. *)
Definition executable (s : FleetDb) (log : probe_log) (plan : FleetDnsChangePlan) (e : Execution) (remaining : Z) : Prop :=
  j_job_kind (ex_lease e) = lit "fleet_dns" ∧ j_job_key (ex_lease e) = dns_execution_job_key plan ∧
  assert_sqlite_transaction_lease (ex_jobs e) (ex_lease e) (ex_fence_clock e) (ex_lease_clock e) (coordination s) = Ok tt ∧
  (∃ r, dns_failovers s !! pl_failover plan = Some r ∧ current_plan (pl_failover plan) r plan (ex_clock e)) ∧
  fit s log (ex_clock e) (pl_failover plan) (pl_peer plan) (pl_target plan) ∧
  remaining = pl_lease_until plan - ex_clock e - 1 ∧ 11 < remaining.
Lemma validate_run s ops used l clock log plan e : dns_ok s ops used l clock → peers_ok s → health_ok s log → moment_ok (ex_clock e) →
  ∃ out, validate_dns_execution plan e s = Done (out, s) ∧ ∀ remaining, out = Ok remaining ↔ executable s log plan e remaining.
Proof.
  intros H Hp Hh Hn. unfold validate_dns_execution, transaction, mbind, db_bind.
  assert (∀ err, (∀ remaining, ¬ executable s log plan e remaining) →
    ∃ out, Done (@Err FleetError Z err, s) = Done (out, s) ∧ ∀ remaining, out = Ok remaining ↔ executable s log plan e remaining) as Hno.
  { intros err Hx. eexists. split; [reflexivity|]. intros remaining. split; [done|]. intros He. by destruct (Hx remaining). }
  unfold assert_dns_job, db_ensure at 1. destruct (bool_decide (j_job_kind (ex_lease e) = _) && _) eqn:Ejob.
  2:{ apply Hno. intros remaining (E1 & E2 & _). by rewrite E1, E2, !bool_decide_true in Ejob. }
  apply andb_true_iff in Ejob as [Ekind%bool_decide_eq_true Ekey%bool_decide_eq_true]. rewrite db_mret_run.
  unfold assert_lease, mbind, db_bind, db_get at 1, db_lift at 1. destruct (assert_sqlite_transaction_lease _ _ _ _ _) as [[]|err] eqn:Elease; cbn [map_err].
  2:{ apply Hno. intros remaining (_ & _ & E & _). congruence. }
  rewrite database_now_run by done. pose proof (read_failover_run s ops used l clock (pl_failover plan) H) as Er. destruct (dns_failovers s !! pl_failover plan) as [r|] eqn:Hr.
  2:{ rewrite Er. cbv [db_lift ok_or]. apply Hno. intros remaining (_ & _ & _ & (r & E & _) & _). congruence. }
  destruct Er as (f & -> & Hrd0). cbv [db_lift ok_or]. unfold read_dns_targets, db_get at 1. set (f1 := with_targets _ f). assert (reads f1 (pl_failover plan) r) as Hrd by by apply reads_targets.
  destruct (plan_current_run f1 (pl_failover plan) r plan (ex_clock e) s Hrd eq_refl) as [[-> Hcur]|[-> Hncur]].
  2:{ apply Hno. intros remaining (_ & _ & _ & (r' & E & Hc) & _). rewrite Hr in E. injection E as <-. done. }
  assert (ensure_dns_record_unassigned (pl_failover plan) (pl_zone plan) (pl_record plan) s = Done (Ok tt, s)) as ->.
  { unfold ensure_dns_record_unassigned, mbind, db_bind, db_get. destruct (any _ _) eqn:Ea; [|done]. exfalso. unfold any in Ea. apply existsb_exists in Ea as ([k rk] & Hin & Ek).
    apply list_elem_of_In, elem_of_map_to_list in Hin. cbn in Ek. apply andb_true_iff in Ek as [Ene Es]. destruct Hcur as (_ & _ & (_ & _ & _ & Ez & Erec & _) & _). rewrite Ez, Erec in Es.
    pose proof (dk_records _ _ _ _ _ H _ _ _ _ Hr Hin Es) as <-. by rewrite Z.eqb_refl in Ene. }
  assert (ex_clock e < pl_lease_until plan) as Hlt by apply Hcur.
  assert (saturating_sub (saturating_sub (pl_lease_until plan) (ex_clock e)) 1 = pl_lease_until plan - ex_clock e - 1) as Erem by (unfold saturating_sub; lia).
  unfold dns_execution_seconds. rewrite Erem. unfold reject_if. destruct (Z.ltb_spec 11 (pl_lease_until plan - ex_clock e - 1)) as [Htime|Htime]; cbn [negb mbind result_bind].
  2:{ apply Hno. intros remaining (_ & _ & _ & _ & _ & -> & ?). lia. }
  destruct (candidates_run s ops used l clock log f1 (pl_failover plan) r (ex_clock e) H Hp Hh Hn Hr Hrd) as (cs & E & H1 & H2 & _).
  cbv [mbind result_bind]. rewrite E. pose proof (fits_iff log (ex_clock e) s (pl_failover plan) (pl_peer plan) (pl_target plan) cs H1 H2) as Hfit.
  unfold db_ensure. destruct (fits (pl_peer plan) (pl_target plan) cs) eqn:Efit.
  2:{ apply Hno. intros remaining (_ & _ & _ & _ & Hf & _). apply Hfit in Hf. congruence. }
  eexists. split; [reflexivity|]. intros remaining. split.
  - intros [= <-]. split_and!; try done; [by exists r|by apply Hfit].
  - intros (_ & _ & _ & _ & _ & -> & _). done.
Qed.
End execution.

(** ** Histories *)

Record FleetWorld := {
  fw_db : FleetDb;
  fw_clock : Z;
  fw_log : gmap Z (list Accepted);
  fw_settled : list Settled;
  fw_ops : gset Z;
  fw_used : gset Z;
}.
Definition fleet_empty (d : Database) : FleetDb :=
  {| fleet_peers := ∅; health_config := ∅; health_state := ∅; probe_events := []; health_counters := ∅; dns_failovers := ∅; dns_targets := ∅; switch_events := ∅; coordination := d |}.
Definition stepped (now : Z) (s : FleetDb) (w : FleetWorld) : FleetWorld :=
  {| fw_db := s; fw_clock := now; fw_log := fw_log w; fw_settled := fw_settled w; fw_ops := fw_ops w; fw_used := fw_used w |}.
Definition with_log (log : gmap Z (list Accepted)) (w : FleetWorld) : FleetWorld :=
  {| fw_db := fw_db w; fw_clock := fw_clock w; fw_log := log; fw_settled := fw_settled w; fw_ops := fw_ops w; fw_used := fw_used w |}.
Definition with_settled (l : list Settled) (w : FleetWorld) : FleetWorld :=
  {| fw_db := fw_db w; fw_clock := fw_clock w; fw_log := fw_log w; fw_settled := l; fw_ops := fw_ops w; fw_used := fw_used w |}.
Definition with_drawn (ops used : gset Z) (w : FleetWorld) : FleetWorld :=
  {| fw_db := fw_db w; fw_clock := fw_clock w; fw_log := fw_log w; fw_settled := fw_settled w; fw_ops := ops ∪ fw_ops w; fw_used := used ∪ fw_used w |}.
(** The clock does not run backwards. *)
Definition at_time (now : Z) (w : FleetWorld) : Prop := fw_clock w ≤ now ∧ moment_ok now.

Section history.
Context {env : FleetEnv} {plat : Platform}.

(** One call, or a transaction of others on the coordination tables. *)
Inductive fleet_step (w : FleetWorld) (now : Z) : FleetWorld → Prop :=
  | fs_create_peer request id out s : peer_request_ok request → fleet_peers (fw_db w) !! id = None →
      peer_create request id now (fw_db w) = Done (out, s) → fleet_step w now (stepped now s w)
  | fs_update_peer request id out s : peer_request_ok request →
      peer_update id request now (fw_db w) = Done (out, s) → fleet_step w now (stepped now s w)
  | fs_delete_peer id out s : peer_delete id (fw_db w) = Done (out, s) → fleet_step w now (with_log (base.delete id (fw_log w)) (stepped now s w))
  | fs_open out s : fleet_health_open now (fw_db w) = Done (out, s) → fleet_step w now (stepped now s w)
  | fs_ensure peer out s : ensure_peer peer now (fw_db w) = Done (out, s) → fleet_step w now (stepped now s w)
  | fs_config peer request out s : 0 ≤ uh_cooldown_seconds request →
      update_health_config peer request now (fw_db w) = Done (out, s) → fleet_step w now (stepped now s w)
  | fs_probe peer o out s : moment_ok (ob_observed o) → record_probe peer o (fw_db w) = Done (out, s) →
      fleet_step w now (with_log (match out with Ok res => log_after (fw_db w) peer o (pr_accepted res) (fw_log w) | Err _ => fw_log w end) (stepped now s w))
  | fs_create request peers id out s : id ∉ fw_used w →
      create_dns_failover request peers id now (fw_db w) = Done (out, s) → fleet_step w now (with_drawn ∅ {[id]} (stepped now s w))
  | fs_update id request peers out s : update_dns_failover id request peers now (fw_db w) = Done (out, s) → fleet_step w now (stepped now s w)
  | fs_delete id out s : delete_dns_failover id (fw_db w) = Done (out, s) → fleet_step w now (stepped now s w)
  | fs_freeze id frozen reason out s : set_dns_frozen id frozen reason now (fw_db w) = Done (out, s) → fleet_step w now (stepped now s w)
  | fs_plan only draw out s : (∀ id, id ∈ active_failovers only (fw_db w) → draw id ∉ fw_ops w) →
      (∀ i j, i ∈ active_failovers only (fw_db w) → j ∈ active_failovers only (fw_db w) → draw i = draw j → i = j) →
      plan_dns_changes now only draw (fw_db w) = Done (out, s) →
      fleet_step w now (with_settled (settled_by false now (fw_db w) s ++ fw_settled w)
        (with_drawn (list_to_set (draw <$> active_failovers only (fw_db w))) ∅ (stepped now s w)))
  | fs_complete plan result e out s : ex_clock e = now → complete_dns_change_with_lease plan result e (fw_db w) = Done (out, s) →
      fleet_step w now (with_settled (settled_by true now (fw_db w) s ++ fw_settled w) (stepped now s w))
  | fs_drift plan e out s : ex_clock e = now → mark_dns_drift plan e (fw_db w) = Done (out, s) → fleet_step w now (stepped now s w)
  | fs_coordination d : fleet_step w now (stepped now (set_coordination d (fw_db w)) w).
Inductive fleet_history : FleetWorld → Prop :=
  | fleet_started d now s : moment_ok now → fleet_health_open now (fleet_empty d) = Done (Ok tt, s) →
      fleet_history {| fw_db := s; fw_clock := now; fw_log := ∅; fw_settled := []; fw_ops := ∅; fw_used := ∅ |}
  | fleet_more w now w' : fleet_history w → at_time now w → fleet_step w now w' → fleet_history w'.

Record fleet_ok (w : FleetWorld) : Prop := {
  fo_dns : dns_ok (fw_db w) (fw_ops w) (fw_used w) (fw_settled w) (fw_clock w);
  fo_peers : peers_ok (fw_db w);
  fo_health : health_ok (fw_db w) (fw_log w);
  fo_counters : counters_ok (fw_db w);
}.

Lemma peers_same s s' : fleet_peers s' = fleet_peers s → peers_ok s → peers_ok s'.
Proof. intros E []. split; by rewrite E. Qed.
Lemma ok_health w now s log : fleet_ok w → at_time now w → health_only (fw_db w) s → health_ok s log → fleet_ok (with_log log (stepped now s w)).
Proof.
  intros [H1 H2 H3 H4] [Ht _] (E1 & E2 & E3 & E4 & _ & E6) Hh. split; cbn; [|by eapply peers_same|done|by apply E6].
  eapply dns_ok_frame; try done. by rewrite E1.
Qed.
Lemma ok_stored w now id s : fleet_ok w → at_time now w → s = fw_db w ∨ peer_stored (fw_db w) id s → fleet_ok (stepped now s w).
Proof.
  intros Hok Ht [->|Hs]; [by destruct Hok, Ht; split; [eapply dns_ok_frame|..]|]. destruct Hok as [H1 H2 H3 H4]. pose proof Hs as (row & -> & Hp). destruct Ht as [Ht _].
  split; cbn; [|done|by eapply health_stored|done]. eapply dns_ok_frame; try done. intros k Hk. cbn. destruct (decide (k = id)) as [->|]; [by rewrite lookup_insert_eq|by rewrite lookup_insert_ne].
Qed.
(** Steps that change DNS tables only. *)
Lemma ok_dns w now s ops used l : fleet_ok w → fleet_peers s = fleet_peers (fw_db w) → health_config s = health_config (fw_db w) → health_state s = health_state (fw_db w) →
  counters_ok s → dns_ok s ops used l now →
  fleet_ok {| fw_db := s; fw_clock := now; fw_log := fw_log w; fw_settled := l; fw_ops := ops; fw_used := used |}.
Proof.
  intros [H1 H2 H3 H4] E1 E2 E3 Hc Hd. split; cbn; [done|by eapply peers_same| |done]. intros k. specialize (H3 k). by rewrite E1, E2, E3.
Qed.
Lemma step_admin w now w' : fleet_ok w → at_time now w →
  (∃ request peers id out s, id ∉ fw_used w ∧ create_dns_failover request peers id now (fw_db w) = Done (out, s) ∧ w' = with_drawn ∅ {[id]} (stepped now s w)) ∨
  (∃ request peers id out s, update_dns_failover id request peers now (fw_db w) = Done (out, s) ∧ w' = stepped now s w) ∨
  (∃ id out s, delete_dns_failover id (fw_db w) = Done (out, s) ∧ w' = stepped now s w) ∨
  (∃ id frozen reason out s, set_dns_frozen id frozen reason now (fw_db w) = Done (out, s) ∧ w' = stepped now s w) → fleet_ok w'.
Proof.
  intros Hok [Ht Hn] Hstep. pose proof (fo_dns _ Hok) as Hd.
  assert (fleet_ok (stepped now (fw_db w) w)) as Hsame by (destruct Hok; split; [by eapply dns_ok_frame|..]; done).
  destruct Hstep as [(request & peers & id & out & s & Hid & E & ->)|[(request & peers & id & out & s & E & ->)|[(id & out & s & E & ->)|(id & frozen & reason & out & s & E & ->)]]].
  - destruct (create_run request peers id now (fw_db w)) as (out' & s' & E' & Hs). rewrite E in E'. injection E' as <- <-.
    destruct Hs as [->|(_ & request' & HS)].
    + unfold with_drawn. cbn. rewrite (left_id_L ∅ (∪)). apply (ok_dns w); try done; [apply Hok|]. destruct (dns_ok_more (fw_used w) (fw_db w) (fw_ops w) (fw_ops w) (fw_settled w) (fw_clock w) now Hd ltac:(done) Ht) as [D1 D2 D3 D4 D5 D6 D7 D8].
      split; try done; [intros k r Hr; destruct (D1 k r Hr); split; [set_solver|done]|]. intros x Hx. destruct (D6 x Hx). set_solver.
    + unfold with_drawn. cbn. rewrite (left_id_L ∅ (∪)). destruct (ss_health _ _ _ _ _ HS) as (G1 & G2 & G3). apply (ok_dns w); try done; [apply HS| |by eapply dns_ok_created].
      intros k Hk. rewrite G3. by apply (fo_counters _ Hok).
  - destruct (update_run request peers id now (fw_db w)) as (out' & s' & E' & Hs). rewrite E in E'. injection E' as <- <-. destruct Hs as [->|(r & request' & Hr & Hp & HS)]; [done|].
    destruct (ss_health _ _ _ _ _ HS) as (G1 & G2 & G3). apply (ok_dns w); try done; [apply HS| |by eapply dns_ok_changed]. intros k Hk. rewrite G3. by apply (fo_counters _ Hok).
  - unfold delete_dns_failover in E. cbv [mbind db_bind db_get] in E. destruct (dns_failovers (fw_db w) !! id) as [r|]; [|by injection E as <- <-].
    unfold db_ensure in E. destruct (bool_decide _); [|by injection E as <- <-]. cbv [mret db_ret db_put] in E. injection E as <- <-.
    apply (ok_dns w); try done; [apply Hok|by apply (dns_ok_removed _ _ _ _ (fw_clock w))].
  - destruct (freeze_run id frozen reason now (fw_db w)) as (out' & s' & E' & Hs). rewrite E in E'. injection E' as <- <-. destruct Hs as [->|(q & ->)]; [done|].
    apply (ok_dns w); try done; [apply Hok|by apply (dns_ok_frozen _ _ _ _ (fw_clock w))].
Qed.
Lemma step_health w now w' : fleet_ok w → at_time now w →
  (∃ out s, fleet_health_open now (fw_db w) = Done (out, s) ∧ w' = stepped now s w) ∨
  (∃ peer out s, ensure_peer peer now (fw_db w) = Done (out, s) ∧ w' = stepped now s w) ∨
  (∃ peer request out s, 0 ≤ uh_cooldown_seconds request ∧ update_health_config peer request now (fw_db w) = Done (out, s) ∧ w' = stepped now s w) ∨
  (∃ peer o out s, moment_ok (ob_observed o) ∧ record_probe peer o (fw_db w) = Done (out, s) ∧
     w' = with_log (match out with Ok res => log_after (fw_db w) peer o (pr_accepted res) (fw_log w) | Err _ => fw_log w end) (stepped now s w)) → fleet_ok w'.
Proof.
  intros Hok Hat Hstep. pose proof Hat as [Ht Hn]. pose proof (fo_health _ Hok) as Hh. pose proof (fo_counters _ Hok) as Hc.
  assert (fleet_ok (with_log (fw_log w) (stepped now (fw_db w) w))) as Hsame by (by apply ok_health; [| |apply health_only_refl|]).
  destruct Hstep as [(out & s & E & ->)|[(peer & out & s & E & ->)|[(peer & request & out & s & Hr & E & ->)|(peer & o & out & s & Ho & E & ->)]]].
  - destruct (health_open_run _ _ now Hh Hn) as (s' & E' & H1 & _ & H3). rewrite E in E'. injection E' as _ <-. by apply (ok_health w now s (fw_log w)).
  - destruct (ensure_peer_run _ _ peer now Hh Hn) as (out' & s' & E' & H1 & H3). rewrite E in E'. injection E' as _ <-. by apply (ok_health w now s (fw_log w)).
  - destruct (health_config_run _ _ peer request now Hh Hn Hr) as (out' & s' & E' & H1). rewrite E in E'. injection E' as <- <-. destruct out; [|by subst]. destruct H1. by apply (ok_health w now s (fw_log w)).
  - destruct (record_probe_run _ _ peer o Hh Hc Ho) as (out' & s' & E' & H1). rewrite E in E'. injection E' as <- <-. destruct out as [res|err].
    + destruct H1 as (_ & H1 & H2). by apply ok_health.
    + destruct H1 as [-> _]. done.
Qed.
Lemma step_work w now w' : fleet_ok w → at_time now w →
  (∃ only draw out s, (∀ id, id ∈ active_failovers only (fw_db w) → draw id ∉ fw_ops w) ∧
     (∀ i j, i ∈ active_failovers only (fw_db w) → j ∈ active_failovers only (fw_db w) → draw i = draw j → i = j) ∧
     plan_dns_changes now only draw (fw_db w) = Done (out, s) ∧
     w' = with_settled (settled_by false now (fw_db w) s ++ fw_settled w) (with_drawn (list_to_set (draw <$> active_failovers only (fw_db w))) ∅ (stepped now s w))) ∨
  (∃ plan result e out s, ex_clock e = now ∧ complete_dns_change_with_lease plan result e (fw_db w) = Done (out, s) ∧
     w' = with_settled (settled_by true now (fw_db w) s ++ fw_settled w) (stepped now s w)) ∨
  (∃ plan e out s, ex_clock e = now ∧ mark_dns_drift plan e (fw_db w) = Done (out, s) ∧ w' = stepped now s w) → fleet_ok w'.
Proof.
  intros Hok [Ht Hn] Hstep. pose proof Hok as [Hd Hp Hh Hc].
  assert (fleet_ok (stepped now (fw_db w) w)) as Hsame by (split; [by eapply dns_ok_frame|..]; done).
  destruct Hstep as [(only & draw & out & s & Hdraw & Hinj & E & ->)|[(plan & res & e & out & s & <- & E & ->)|(plan & e & out & s & <- & E & ->)]].
  - destruct (plan_run (fw_used w) (fw_log w) now Hn draw (fw_db w) (fw_ops w) (fw_settled w) (fw_clock w) only Hd Ht Hp Hh Hc Hdraw Hinj) as (plans & s' & xs & E' & R).
    rewrite E in E'. injection E' as -> <-. destruct (pn_frame _ _ _ _ _ _ _ _ _ _ _ R) as (G1 & G2 & G3 & G4 & G5 & G6).
    unfold with_settled, with_drawn. cbn. rewrite (left_id_L ∅ (∪) (fw_used w)). apply (ok_dns w); try done; [by apply G6|].
    eapply dns_ok_perm; [apply (pn_ok _ _ _ _ _ _ _ _ _ _ _ R)| |apply (pn_given_up _ _ _ _ _ _ _ _ _ _ _ R)].
    apply NoDup_Permutation; [|apply settled_by_NoDup|].
    + pose proof (dk_once _ _ _ _ _ (pn_ok _ _ _ _ _ _ _ _ _ _ _ R)) as Hnd. rewrite fmap_app in Hnd. apply NoDup_app in Hnd as [Hnd _]. by eapply NoDup_fmap_1.
    + intros x. rewrite settled_by_elem. apply (pn_settled _ _ _ _ _ _ _ _ _ _ _ R).
  - destruct (complete_run (fw_db w) _ _ _ _ plan res e Hd Hc Hn) as (out' & s' & E' & Hout). rewrite E in E'. injection E' as <- <-.
    assert (settled_by true (ex_clock e) (fw_db w) (fw_db w) = []) as Hnone by (unfold settled_by; by rewrite map_difference_diag, map_to_list_empty).
    destruct out as [ok|err]; [|subst; rewrite Hnone; done]. destruct (cr_duplicate ok); [subst; rewrite Hnone; done|]. destruct Hout as (_ & r & ev & Hcomp).
    destruct (completion_ok _ _ _ _ _ _ _ _ _ _ _ Hd Ht Hn Hcomp) as (Hd' & Hc' & G1 & G2 & G3 & G4). apply (ok_dns w); try done. by apply Hc'.
  - destruct (drift_run (fw_db w) _ _ _ _ plan e Hd) as (out' & s' & E' & Hout). rewrite E in E'. injection E' as <- <-. destruct Hout as [->|[_ ->]]; [done|].
    apply (ok_dns w); try done. by apply (dns_ok_error _ _ _ _ (fw_clock w)).
Qed.
Lemma fleet_history_ok w : fleet_history w → fleet_ok w.
Proof.
  induction 1 as [d now s Hn E|w now w' _ IH Hat Hstep].
  - destruct (health_open_run (fleet_empty d) ∅ now) as (s' & E' & (E1 & E2 & E3 & E4 & _) & Hc & Hh); [by intros k|done|]. rewrite E in E'. injection E' as <-. split; cbn; [|by split; rewrite E1|done|done].
    split; rewrite ?E2, ?E3, ?E4; cbn; try done; try (intros; set_solver). constructor.
  - destruct Hstep as [request id out s Hr Hf E|request id out s Hr E|id out s E|out s E|peer out s E|peer request out s Hc E|peer o out s Ho E|request peers id out s Hid E
                      |id request peers out s E|id out s E|id frozen reason out s E|only draw out s Hd Hi E|plan res e out s Et E|plan e out s Et E|d].
    + destruct (peer_create_run request id now (fw_db w) (fo_peers _ IH) Hr) as (out' & s' & E' & Hs). rewrite E in E'. injection E' as <- <-. eapply (ok_stored w now id); [done|done|]. destruct out; auto.
    + destruct (peer_update_run request id now (fw_db w) (fo_peers _ IH) Hr) as (out' & s' & E' & Hs). rewrite E in E'. injection E' as <- <-. by eapply (ok_stored w now id).
    + unfold peer_delete in E. cbv [mbind db_bind db_get db_put mret db_ret] in E. injection E as <- <-. destruct IH as [H1 H2 H3 H4], Hat as [Ht _].
      split; cbn; [by eapply dns_ok_peer_removed|by apply peers_removed|by apply health_removed|done].
    + eapply step_health; [done|done|]. left. eauto.
    + eapply step_health; [done|done|]. right; left. eauto.
    + eapply step_health; [done|done|]. right; right; left. eauto 10.
    + eapply step_health; [done|done|]. right; right; right. eauto 10.
    + eapply step_admin; [done|done|]. left. eauto 10.
    + eapply step_admin; [done|done|]. right; left. eauto 10.
    + eapply step_admin; [done|done|]. right; right; left. eauto 10.
    + eapply step_admin; [done|done|]. right; right; right. eauto 10.
    + eapply step_work; [done|done|]. left. eauto 10.
    + eapply step_work; [done|done|]. right; left. eauto 10.
    + eapply step_work; [done|done|]. right; right. eauto 10.
    + destruct IH as [H1 H2 H3 H4], Hat as [Ht _]. split; cbn; [by eapply dns_ok_frame|by apply (peers_same (fw_db w))|done|done].
Qed.

(** ** Theorems *)

(** C26. The stored health of a peer is what its probes say. In every history, reading a peer succeeds and gives the state that the
    reference computes from all probes that counted, with the length of the latest run, the time of the last probe, and a cooldown that
    starts at the probe that led to this state; and recording a probe either is refused, for a peer that does not exist or an event
    id of another event, and changes nothing, or counts exactly if its event is new and not older than the last one that counted. *)
Theorem stored_health_by_history (w : FleetWorld) (peer : Z) :
  fleet_history w →
  (∃ o, peer_snapshot peer (fw_db w) = Done (Ok o, fw_db w) ∧
     match o with
     | None => fw_log w !!! peer = []
     | Some sn =>
         let l := fw_log w !!! peer in
         ph_state (sn_health sn) = health_by_history l ∧ ph_successes (sn_health sn) = Z.min U16_MAX (latest true l) ∧
         ph_failures (sn_health sn) = Z.min U16_MAX (latest false l) ∧ ph_last_probe (sn_health sn) = ac_at <$> head l ∧
         (health_by_history l ≠ Unknown →
            ∃ t, changed_at l = Some t ∧ ph_state_changed (sn_health sn) = t ∧ ph_cooldown_until (sn_health sn) = t + hc_cooldown_seconds (sn_config sn))
     end) ∧
  (∀ o, moment_ok (ob_observed o) →
     ∃ out s, record_probe peer o (fw_db w) = Done (out, s) ∧
       match out with
       | Err e => s = fw_db w ∧ probe_refused (fw_db w) peer o e
       | Ok res => probe_result (fw_db w) (fw_log w) peer o res
       end).
Proof.
  intros [_ _ Hh Hc]%fleet_history_ok. split.
  - destruct (read_snapshot_run _ _ peer Hh) as [Hnone Hsome]. unfold peer_snapshot. destruct (health_state (fw_db w) !! peer) as [row|] eqn:Es.
    + destruct Hsome as (c & r & sn & Hcf & _ & Ht & Hr & E); [eauto|]. exists (Some sn). split; [done|]. destruct Hr as [R1 R2 R3 R4 R5 R6 R7 R8 R9 R10 R11 R12]. split_and!; try done.
      intros Hu. exists (st_state_changed r). rewrite R11, R12, R3. split; [by apply (tr_changed _ _ _ Ht)|]. split; [done|]. destruct (tr_cooldown_until _ _ _ Ht) as [|[? _]]; done.
    + exists None. split; [done|]. specialize (Hh peer). rewrite Es in Hh. destruct (health_config (fw_db w) !! peer); [done|]. by rewrite lookup_total_alt, Hh.
  - intros o Ho. destruct (record_probe_run _ _ peer o Hh Hc Ho) as (out & s & E & Hout). exists out, s. split; [done|]. destruct out as [res|e]; [by destruct Hout|done].
Qed.

(** C33. Changes are planned exactly when they are due. In every history, with new operation ids, planning succeeds. It returns at most
    one plan for a failover, and one exactly for those in scope, enabled and not frozen that retry an operation whose lease ran out and whose
    target is still fit, or that are due for a change: no operation is pending or it was given up, the cooldown is over, the
    current peer is not held, and the best fit peer by priority, weight and name is not already in place or has to be written again. The plan goes
    to that peer, lasts thirty seconds, and is at once the current one of its failover. *)
Theorem dns_changes_planned (w : FleetWorld) (now : Z) (only : option Z) (draw : Z → Z) :
  fleet_history w → at_time now w → (∀ id, id ∈ active_failovers only (fw_db w) → draw id ∉ fw_ops w) →
  (∀ i j, i ∈ active_failovers only (fw_db w) → j ∈ active_failovers only (fw_db w) → draw i = draw j → i = j) →
  ∃ plans s, plan_dns_changes now only draw (fw_db w) = Done (Ok plans, s) ∧
    (∀ pl pl', pl ∈ plans → pl' ∈ plans → pl_failover pl = pl_failover pl' → pl = pl') ∧
    (∀ pl, pl ∈ plans → ∃ r r', dns_failovers (fw_db w) !! pl_failover pl = Some r ∧ fr_enabled r = true ∧ fr_frozen r = false ∧ (∀ i, only = Some i → i = pl_failover pl) ∧
       pl_lease_until pl = now + 30 ∧
       (retried (fw_db w) (fw_log w) now (pl_failover pl) r (pl_operation pl) (pl_peer pl) (pl_target pl) ∨
        moved (fw_db w) (fw_log w) now (pl_failover pl) r (pl_peer pl) (pl_target pl) ∧ pl_operation pl = draw (pl_failover pl)) ∧
       dns_failovers s !! pl_failover pl = Some r' ∧ current_plan (pl_failover pl) r' pl now) ∧
    (∀ id r peer target, dns_failovers (fw_db w) !! id = Some r → fr_enabled r = true → fr_frozen r = false → (∀ i, only = Some i → i = id) →
       (∃ op, retried (fw_db w) (fw_log w) now id r op peer target) ∨ moved (fw_db w) (fw_log w) now id r peer target →
       ∃ pl, pl ∈ plans ∧ pl_failover pl = id ∧ pl_peer pl = peer ∧ pl_target pl = target).
Proof.
  intros [Hd Hp Hh Hc]%fleet_history_ok [Ht Hn] Hdraw Hinj.
  destruct (plan_run (fw_used w) (fw_log w) now Hn draw (fw_db w) _ _ _ only Hd Ht Hp Hh Hc Hdraw Hinj) as (plans & s & xs & E & [_ _ _ _ _ _ _ Hids Hplans _]).
  exists plans, s. split; [done|]. split_and!.
  - intros pl pl' Hin Hin' Ei. destruct (proj1 (elem_of_active _ _ _) (Hids pl Hin)) as (r & Hr & _). destruct (Hplans _ r (Hids pl Hin) Hr) as (plan & _ & Hiff).
    assert (plan = Some pl) as -> by by apply Hiff. assert (Some pl = Some pl') as [= <-] by by apply Hiff. done.
  - intros pl Hin. destruct (proj1 (elem_of_active _ _ _) (Hids pl Hin)) as (r & Hr & He & Hf & Ho). destruct (Hplans _ r (Hids pl Hin) Hr) as (plan & Hpl & Hiff).
    assert (plan = Some pl) as -> by by apply Hiff. destruct Hpl as (Hfor & Hl & Hwhy & r' & started & Hr' & Epend & Hfor' & He' & Hf').
    exists r, r'. split_and!; try done. unfold current_plan. rewrite Epend. cbn. split_and!; try done; [congruence|congruence|lia].
  - intros id r peer target Hr He Hf Ho Hwhy. assert (id ∈ active_failovers only (fw_db w)) as Hin by (apply elem_of_active; by exists r).
    destruct (Hplans id r Hin Hr) as (plan & Hpl & Hiff). destruct plan as [pl|].
    + destruct (proj2 (Hiff pl) eq_refl) as [Hpin Ei]. exists pl. split; [done|]. split; [done|]. destruct Hpl as (_ & _ & Hwhy' & _). clear -Hwhy Hwhy' Hp. destruct Hwhy' as [Hr'|[Hm' _]].
      * destruct Hwhy as [(op & _ & (reason & E) & _)|Hm]; [|exfalso; destruct Hm as (_ & Hno & _); by eapply Hno]. destruct Hr' as (_ & (reason' & E') & _). rewrite E in E'. by injection E'.
      * destruct Hwhy as [(op & Hr)|Hm]; [exfalso; destruct Hm' as (_ & Hno & _); by eapply Hno|]. destruct Hm as (_ & _ & _ & _ & Hb & _), Hm' as (_ & _ & _ & _ & Hb' & _).
        by eapply best_unique.
    + exfalso. destruct Hpl as [Hn1 Hn2]. destruct Hwhy as [(op & Hx)|Hx]; [by eapply Hn1|by eapply Hn2].
Qed.
End history.

(** ** Witnesses *)

Definition sample_env : FleetEnv := {| var_os_set := λ _, true; env_var := λ _, Some (lit "token"); parse_uri := λ _, Some (Some (lit "https"), true) |}.
Definition performed {A} (m : fleet_db A) (s : FleetDb) : result FleetError A * FleetDb := match m s with Done p => p | Panic => (Err FleetDatabase, s) end.
Definition returns {A} (m : fleet_db A) (s : FleetDb) : bool := match m s with Done _ => true | Panic => false end.
Lemma performed_run {A} (m : fleet_db A) s : returns m s = true → m s = Done ((performed m s).1, (performed m s).2).
Proof. unfold returns, performed. destruct (m s) as [[out s']|]; [done|done]. Qed.

Definition sample_opened : FleetDb := (performed (fleet_health_open 120) (fleet_empty db_empty)).2.
Definition sample_started : FleetWorld := {| fw_db := sample_opened; fw_clock := 120; fw_log := ∅; fw_settled := []; fw_ops := ∅; fw_used := ∅ |}.
Definition sample_peer : UpsertFleetPeer :=
  {| up_name := lit "east"; up_url := lit "https://east.example"; up_region := lit "eu"; up_weight := 100; up_priority := 10; up_token_env := lit "LINKLAKE_EAST"; up_enabled := true |}.
Definition sample_peered : FleetWorld := stepped 120 (performed (peer_create (env := sample_env) sample_peer 11 120) (fw_db sample_started)).2 sample_started.
Definition sample_config : UpdateFleetHealthConfig := {| uh_success_threshold := 1; uh_failure_threshold := 1; uh_cooldown_seconds := 0 |}.
Definition sample_configured : FleetWorld := stepped 120 (performed (update_health_config 11 sample_config 120) (fw_db sample_peered)).2 sample_peered.
Definition sample_observation : FleetProbeObservation :=
  {| ob_event := 501; ob_observed := 121; ob_success := true; ob_latency := Some 8; ob_error := None; ob_active_connections := 0; ob_bytes_total := 0; ob_clients := 1; ob_policies := 2 |}.
Definition sample_probe : result FleetError FleetProbeResult * FleetDb := performed (record_probe 11 sample_observation) (fw_db sample_configured).
Definition sample_probed : FleetWorld :=
  with_log (match sample_probe.1 with Ok res => log_after (fw_db sample_configured) 11 sample_observation (pr_accepted res) (fw_log sample_configured) | Err _ => fw_log sample_configured end)
    (stepped 121 sample_probe.2 sample_configured).
Definition sample_failover : UpsertFleetDnsFailover :=
  {| ud_name := lit "www"; ud_hostname := lit "WWW.Example.com."; ud_record_type := RecordA; ud_zone := lit "0123456789abcdef0123456789abcdef"; ud_record := lit "fedcba9876543210fedcba9876543210";
     ud_token_env := lit "LINKLAKE_CLOUDFLARE_EAST_TOKEN"; ud_ttl := 60; ud_proxied := false; ud_enabled := true; ud_cooldown := 60;
     ud_targets := [{| dt_peer := 11; dt_value := lit "192.0.2.1" |}] |}.
Definition sample_peers : list FleetPeer := match (performed (peer_list (env := sample_env)) (fw_db sample_probed)).1 with Ok l => l | Err _ => [] end.
Definition sample_managed : FleetWorld :=
  with_drawn ∅ {[21]} (stepped 121 (performed (create_dns_failover (env := sample_env) sample_failover sample_peers 21 121) (fw_db sample_probed)).2 sample_probed).
Definition sample_draw : Z → Z := λ _, 31.
Definition sample_planning : result FleetError (list FleetDnsChangePlan) * FleetDb :=
  performed (plan_dns_changes (env := sample_env) (plat := sample_platform) 122 None sample_draw) (fw_db sample_managed).
Definition sample_planned : FleetWorld :=
  with_settled (settled_by false 122 (fw_db sample_managed) sample_planning.2 ++ fw_settled sample_managed)
    (with_drawn (list_to_set (sample_draw <$> active_failovers None (fw_db sample_managed))) ∅ (stepped 122 sample_planning.2 sample_managed)).
Definition sample_plan : FleetDnsChangePlan :=
  {| pl_operation := 31; pl_lease_until := 152; pl_failover := 21; pl_failover_name := lit "www"; pl_hostname := lit "www.example.com"; pl_record_type := RecordA;
     pl_zone := lit "0123456789abcdef0123456789abcdef"; pl_record := lit "fedcba9876543210fedcba9876543210"; pl_token_env := lit "LINKLAKE_CLOUDFLARE_EAST_TOKEN";
     pl_ttl := 60; pl_proxied := false; pl_peer := 11; pl_peer_name := lit "east"; pl_target := lit "192.0.2.1"; pl_reason := lit "initial_activation" |}.
Definition sample_claim : result CoordError (option JobLease * Database) :=
  job_acquire JobLeases.ex_jobs (dns_execution_job_key (plat := sample_platform) sample_plan) (lit "fleet_dns") 9 122 122 1 ex_led.
Definition sample_leased : FleetWorld := stepped 122 (set_coordination (match sample_claim with Ok (_, d) => d | Err _ => ex_led end) (fw_db sample_planned)) sample_planned.
Definition sample_execution : Execution :=
  {| ex_jobs := JobLeases.ex_jobs;
     ex_lease := match sample_claim with Ok (Some lease, _) => lease
                 | _ => {| j_job_key := []; j_job_kind := []; j_lease_id := 0; j_owner_instance_id := []; j_owner_incarnation_id := []; j_fencing_token := 0; j_acquired := 0; j_renewed := 0;
                           j_lease_until := 0; j_last_completed := None; j_last_error_code := None |} end;
     ex_fence_clock := 123; ex_lease_clock := 123; ex_clock := 123 |}.

Abbreviation sample_history := (fleet_history (env := sample_env) (plat := sample_platform)).
Lemma sample_probed_history : sample_history sample_probed.
Proof.
  assert (sample_history sample_started) as H0.
  { apply (fleet_started db_empty 120 sample_opened); [split; vm_compute; discriminate|]. unfold sample_opened. assert (returns (fleet_health_open 120) (fleet_empty db_empty) = true) as E by (vm_compute; reflexivity).
    rewrite (performed_run _ _ E) at 1. f_equal. }
  assert (sample_history sample_peered) as H1.
  { eapply (fleet_more _ 120); [exact H0|split; [|split]; vm_compute; discriminate|]. eapply (fs_create_peer _ _ sample_peer 11); [vm_compute; discriminate|vm_compute; reflexivity|].
    apply performed_run. vm_compute. reflexivity. }
  assert (sample_history sample_configured) as H2.
  { eapply (fleet_more _ 120); [exact H1|split; [|split]; vm_compute; discriminate|]. eapply (fs_config _ _ 11 sample_config); [vm_compute; discriminate|]. apply performed_run. vm_compute. reflexivity. }
  eapply (fleet_more _ 121); [exact H2|split; [|split]; vm_compute; discriminate|]. apply (fs_probe _ _ 11 sample_observation sample_probe.1 sample_probe.2); [split; vm_compute; discriminate|].
  refine (performed_run (record_probe 11 sample_observation) (fw_db sample_configured) _). vm_compute. reflexivity.
Qed.
Lemma sample_managed_history : sample_history sample_managed.
Proof.
  eapply (fleet_more _ 121); [exact sample_probed_history|split; [|split]; vm_compute; discriminate|].
  eapply (fs_create _ _ sample_failover sample_peers 21); [vm_compute; discriminate|]. apply performed_run. vm_compute. reflexivity.
Qed.

Lemma sample_fresh : (∀ id, id ∈ active_failovers None (fw_db sample_managed) → sample_draw id ∉ fw_ops sample_managed) ∧
  (∀ i j, i ∈ active_failovers None (fw_db sample_managed) → j ∈ active_failovers None (fw_db sample_managed) → sample_draw i = sample_draw j → i = j).
Proof.
  split; [intros id _; vm_compute; discriminate|]. assert (active_failovers None (fw_db sample_managed) = [21]) as -> by (vm_compute; reflexivity).
  intros i j Hi Hj _. apply list_elem_of_singleton in Hi as ->. by apply list_elem_of_singleton in Hj as ->.
Qed.
Lemma sample_leased_history : sample_history sample_leased.
Proof.
  assert (sample_history sample_planned) as H.
  { eapply (fleet_more _ 122); [exact sample_managed_history|split; [|split]; vm_compute; discriminate|]. apply (fs_plan _ _ None sample_draw sample_planning.1 sample_planning.2); [apply sample_fresh|apply sample_fresh|].
    refine (performed_run (plan_dns_changes 122 None sample_draw) (fw_db sample_managed) _). vm_compute. reflexivity. }
  eapply (fleet_more _ 122); [exact H|split; [|split]; vm_compute; discriminate|]. apply fs_coordination.
Qed.

Lemma done_inj {A} (a b : A) (s s' : FleetDb) : Done (@Ok FleetError A a, s) = Done (@Ok FleetError A b, s') → a = b.
Proof. congruence. Qed.
Lemma done_state {A} (x : result FleetError A) (b : A) (s s' : FleetDb) : Done (x, s) = Done (Ok b, s') → x = Ok b ∧ s = s'.
Proof. intros E. by injection E as -> ->. Qed.
Lemma some_inj {A} (a b : A) : Some a = Some b → a = b.
Proof. congruence. Qed.

Lemma stored_health_by_history_witness :
  ∃ sn, peer_snapshot 11 (fw_db sample_probed) = Done (Ok (Some sn), fw_db sample_probed) ∧ ph_state (sn_health sn) = Healthy ∧ ph_cooldown_until (sn_health sn) = 121.
Proof.
  destruct (stored_health_by_history (env := sample_env) (plat := sample_platform) sample_probed 11 sample_probed_history) as [(o & E & H) _].
  assert (health_by_history (fw_log sample_probed !!! 11) = Healthy) as Eh by (vm_compute; reflexivity).
  assert (changed_at (fw_log sample_probed !!! 11) = Some 121) as Ec by (vm_compute; reflexivity).
  destruct o as [sn|]; [|exfalso; rewrite H in Eh; vm_compute in Eh; discriminate]. exists sn. cbn zeta in H. destruct H as (H1 & _ & _ & _ & H5).
  rewrite Eh in H1, H5. rewrite Ec in H5. destruct H5 as (t & [= <-] & _ & Hu); [discriminate|]. split; [exact E|]. split; [exact H1|].
  assert (∃ sn' s', peer_snapshot 11 (fw_db sample_probed) = Done (Ok (Some sn'), s') ∧ hc_cooldown_seconds (sn_config sn') = 0) as (sn' & s' & E' & Hz) by (eexists _, _; split; vm_compute; reflexivity).
  rewrite E in E'. apply done_inj, some_inj in E'. subst sn'. rewrite Hu, Hz. reflexivity.
Defined.
Lemma dns_changes_planned_witness :
  ∃ plans s pl, plan_dns_changes (env := sample_env) (plat := sample_platform) 122 None sample_draw (fw_db sample_managed) = Done (Ok plans, s) ∧ pl ∈ plans ∧ pl_failover pl = 21 ∧
    pl_peer pl = 11 ∧ moved (fw_db sample_managed) (fw_log sample_managed) 122 21 (default (new_failover sample_failover 0) (dns_failovers (fw_db sample_managed) !! 21)) 11 (pl_target pl).
Proof.
  destruct (dns_changes_planned (env := sample_env) (plat := sample_platform) sample_managed 122 None sample_draw sample_managed_history) as (plans & s & E & _ & H & _);
    [split; [|split]; vm_compute; discriminate|apply sample_fresh|apply sample_fresh|].
  assert (∃ pl s', plan_dns_changes (env := sample_env) (plat := sample_platform) 122 None sample_draw (fw_db sample_managed) = Done (Ok [pl], s') ∧ pl_failover pl = 21 ∧ pl_peer pl = 11) as (pl & s' & E' & E1 & E2)
    by (eexists _, _; split; [|split]; vm_compute; reflexivity).
  rewrite E in E'. apply done_inj in E'. subst plans. exists [pl], s, pl. split; [exact E|]. split; [apply list_elem_of_here|]. split; [exact E1|]. split; [exact E2|].
  destruct (H pl (list_elem_of_here _ _)) as (r & r' & Hr & _ & _ & _ & _ & Hwhy & _). rewrite E1 in Hr, Hwhy. rewrite E2 in Hwhy. rewrite Hr. cbn [default].
  destruct Hwhy as [(_ & (reason & Hpend) & _)|[Hm _]]; [|exact Hm]. exfalso.
  assert (∃ x, dns_failovers (fw_db sample_managed) !! 21 = Some x ∧ pending_complete (fr_pending x) = None) as (x & Hx & En) by (eexists; split; vm_compute; reflexivity).
  rewrite Hr in Hx. apply some_inj in Hx. subst x. rewrite En in Hpend. discriminate.
Defined.
