(* ===== verification/FleetRequests.v ===== *)
(** * Requests to change DNS records, in every history ([fleet.rs], [fleet_health.rs])

    The histories of [FleetFailover] with the requests that workers were allowed to send. A worker may die after it sent a request
    and never report it, so a request counts from the moment it is allowed. *)

From S2P Require Import Prelude DbMonad RustStr RustText HaTables HaCoordination JobLeases AdminAuth TunnelTables TunnelCatalog FleetTables FleetHealth FleetDns FleetProbes FleetSystem FleetPlans FleetFailover.
Local Open Scope Z_scope.
Set Default Proof Using "Type".

(** ** Requests that workers may send *)

(** A worker that was allowed to send the request of a plan may send it until the reservation ends, whether or not it then reports
    what came of it. [rq_deleted] is the time at which the peer of the request was deleted. *)
Record Request := {
  rq_operation : Z; rq_failover : Z; rq_peer : Z; rq_zone : rstr; rq_record : rstr; rq_at : Z; rq_until : Z; rq_deleted : option Z;
}.
Definition request_of (plan : FleetDnsChangePlan) (now : Z) : Request :=
  {| rq_operation := pl_operation plan; rq_failover := pl_failover plan; rq_peer := pl_peer plan; rq_zone := pl_zone plan; rq_record := pl_record plan;
     rq_at := now; rq_until := pl_lease_until plan; rq_deleted := None |}.
Definition note_deleted (now : Z) (s : FleetDb) (x : Request) : Request :=
  match rq_deleted x, fleet_peers s !! rq_peer x with
  | None, None => {| rq_operation := rq_operation x; rq_failover := rq_failover x; rq_peer := rq_peer x; rq_zone := rq_zone x; rq_record := rq_record x;
                     rq_at := rq_at x; rq_until := rq_until x; rq_deleted := Some now |}
  | _, _ => x
  end.
Definition one_record (x y : Request) : Prop :=
  to_ascii_lowercase (rq_zone x) = to_ascii_lowercase (rq_zone y) ∧ to_ascii_lowercase (rq_record x) = to_ascii_lowercase (rq_record y).
(** The worker of [x] reported before [t]. *)
Definition reported (l : list Settled) (x : Request) (z : Settled) (t : Z) : Prop :=
  z ∈ l ∧ sd_operation z = rq_operation x ∧ sd_failover z = rq_failover x ∧ sd_attempted z = true ∧ sd_at z ≤ t.
(** [x] is over when [y] is allowed: its time was up, its peer was deleted, or it was reported; if both are for the same failover, its cooldown since is over too. *)
Definition over_before (l : list Settled) (x y : Request) : Prop :=
  rq_until x ≤ rq_at y ∨ (∃ t, rq_deleted x = Some t ∧ t ≤ rq_at y) ∨
  ∃ z, reported l x z (rq_at y) ∧ (rq_failover x = rq_failover y → sd_at z + sd_cooldown z ≤ rq_at y).
(** Newest first. *)
Fixpoint requests_apart (l : list Settled) (sent : list Request) : Prop :=
  match sent with
  | [] => True
  | y :: sent => (∀ x, x ∈ sent → one_record x y → rq_operation x ≠ rq_operation y → over_before l x y) ∧ requests_apart l sent
  end.

Section requests.
Context {env : FleetEnv} {plat : Platform}.

(** A history with the requests that workers were allowed to send in it. *)
Inductive sent_history : FleetWorld → list Request → Prop :=
  | sent_started d now s : moment_ok now → fleet_health_open now (fleet_empty d) = Done (Ok tt, s) →
      sent_history {| fw_db := s; fw_clock := now; fw_log := ∅; fw_settled := []; fw_ops := ∅; fw_used := ∅ |} []
  | sent_more w sent now w' : sent_history w sent → at_time now w → fleet_step w now w' → sent_history w' (note_deleted now (fw_db w') <$> sent)
  | sent_allowed w sent plan e remaining s : sent_history w sent → at_time (ex_clock e) w → validate_dns_execution plan e (fw_db w) = Done (Ok remaining, s) →
      sent_history (stepped (ex_clock e) (fw_db w) w) (request_of plan (ex_clock e) :: sent).

Lemma coordination_same s : set_coordination (coordination s) s = s.
Proof. by destruct s. Qed.
Lemma sent_fleet_history w sent : sent_history w sent → fleet_history w.
Proof.
  induction 1 as [d now s Hn E|w sent now w' _ IH Hat Hstep|w sent plan e remaining s _ IH Hat E]; [by eapply fleet_started|by eapply fleet_more|].
  eapply fleet_more; [exact IH|exact Hat|]. pose proof (fs_coordination w (ex_clock e) (coordination (fw_db w))) as Hs. by rewrite coordination_same in Hs.
Qed.

(** *** Reservations *)

(** The operation [op] is pending, and still reserved at [t]. *)
Definition reserved_row (r : FailoverRow) (op peer : Z) (zone record : rstr) (t : Z) : Prop :=
  pd_operation (fr_pending r) = Some op ∧ pd_peer (fr_pending r) = Some peer ∧ fr_zone r = zone ∧ fr_record r = record ∧
  ∃ lease, pd_lease_until (fr_pending r) = Some lease ∧ t ≤ lease.
(** How a reservation may go on. *)
Definition goes_on (w' : FleetWorld) (now id op peer : Z) (zone record : rstr) (t : Z) : Prop :=
  (∃ r', dns_failovers (fw_db w') !! id = Some r' ∧ reserved_row r' op peer zone record t) ∨ t ≤ now ∨ fleet_peers (fw_db w') !! peer = None ∨
  ∃ z, z ∈ fw_settled w' ∧ sd_operation z = op ∧ sd_failover z = id ∧ sd_attempted z = true ∧ sd_at z ≤ now.

Lemma step_grows w now w' : fleet_step w now w' → fw_clock w' = now ∧ ∃ ys, fw_settled w' = ys ++ fw_settled w.
Proof. destruct 1; (split; [done|]); by (eexists; reflexivity) || by exists []. Qed.
Section kept.
Context (w : FleetWorld) (now : Z) (Hok : fleet_ok w) (Hat : at_time now w).
Context (id : Z) (r : FailoverRow) (op peer : Z) (zone record : rstr) (t : Z).
Context (Hr : dns_failovers (fw_db w) !! id = Some r) (Hres : reserved_row r op peer zone record t).

Lemma kept_row w' : dns_failovers (fw_db w') !! id = Some r → goes_on w' now id op peer zone record t.
Proof using Type Hres. intros E. left. eauto. Qed.
Lemma kept_altered w' s i f : s = fw_db w' → dns_failovers s = alter f i (dns_failovers (fw_db w)) →
  (∀ r, fr_pending (f r) = fr_pending r ∧ fr_zone (f r) = fr_zone r ∧ fr_record (f r) = fr_record r) → goes_on w' now id op peer zone record t.
Proof using Type Hr Hres.
  intros -> E Hf. destruct (decide (id = i)) as [<-|Hne]; [|apply kept_row; by rewrite E, lookup_alter_ne].
  left. exists (f r). rewrite E, lookup_alter_eq, Hr. split; [done|]. unfold reserved_row in *. by destruct (Hf r) as (-> & -> & ->).
Qed.
Lemma kept_stored w' s i request r' : s = fw_db w' → settings_stored (fw_db w) s i request r' →
  (∀ ri, dns_failovers (fw_db w) !! i = Some ri → pd_operation (fr_pending ri) = None) → goes_on w' now id op peer zone record t.
Proof using Type Hr Hres.
  intros -> HS Hi. apply kept_row. rewrite (ss_rows _ _ _ _ _ HS), lookup_insert_ne; [done|]. intros ->. destruct Hres as [Ho _]. rewrite (Hi _ Hr) in Ho. done.
Qed.
Lemma kept_plan only draw out s : (∀ id, id ∈ active_failovers only (fw_db w) → draw id ∉ fw_ops w) →
  (∀ i j, i ∈ active_failovers only (fw_db w) → j ∈ active_failovers only (fw_db w) → draw i = draw j → i = j) →
  plan_dns_changes now only draw (fw_db w) = Done (out, s) →
  ∀ w', fw_db w' = s → goes_on w' now id op peer zone record t.
Proof using Type Hok Hat Hr Hres.
  intros Hdraw Hinj E w' <-. destruct Hok as [Hd Hp Hh Hc], Hat as [Ht Hn].
  destruct (plan_run (fw_used w) (fw_log w) now Hn draw (fw_db w) _ _ _ only Hd Ht Hp Hh Hc Hdraw Hinj) as (plans & s' & xs & E' & R).
  rewrite E in E'. injection E' as _ <-. destruct Hres as (Ho & Hpe & Hz & Hrec & lease & Hl & Hle).
  destruct (decide (lease ≤ now)) as [|Hgt]; [right; left; lia|]. apply kept_row, (pn_waiting _ _ _ _ _ _ _ _ _ _ _ R _ _ Hr).
  split; [|exists lease; split; [done|lia]]. destruct (dk_rows _ _ _ _ _ Hd id r Hr) as [_ Hf]. pose proof (fk_pending _ _ _ _ _ _ Hf) as Hpd.
  clear -Hpd Ho Hpe. destruct Hpd; cbn in *; [done|]. subst. by eexists.
Qed.
Lemma kept_complete plan res e out s : ex_clock e = now → complete_dns_change_with_lease plan res e (fw_db w) = Done (out, s) →
  goes_on (with_settled (settled_by true now (fw_db w) s ++ fw_settled w) (stepped now s w)) now id op peer zone record t.
Proof using Type Hok Hat Hr Hres.
  intros Et E. destruct Hok as [Hd Hp Hh Hc], Hat as [Ht Hn]. destruct (complete_run (fw_db w) _ _ _ _ plan res e Hd Hc ltac:(by rewrite Et)) as (out' & s' & E' & Hout). rewrite E in E'. injection E' as <- <-.
  destruct out as [ok|err]; [|subst s; by apply kept_row]. destruct (cr_duplicate ok); [subst s; by apply kept_row|]. destruct Hout as (_ & r' & ev & [C1 C2 C3 C4 (s1 & [(g & h & ->) _] & ->)]).
  destruct (decide (id = pl_failover plan)) as [->|Hne]; [|apply kept_row; cbn; by rewrite lookup_alter_ne]. rewrite Hr in C1. injection C1 as <-.
  right; right; right. exists (settled_as true now (fw_db w) (pl_operation plan) ev). destruct C2 as (_ & _ & _ & Ho' & _), Hres as [Ho _]. rewrite Ho in Ho'. injection Ho' as ->.
  split_and!; [|done|apply C3|done|done]. cbn [with_settled fw_settled]. apply elem_of_app. left. apply settled_by_elem. exists (pl_operation plan), ev. cbn. by rewrite lookup_insert_eq.
Qed.
Lemma kept_peer_removed i w' : fw_db w' = remove_peer i (fw_db w) → goes_on w' now id op peer zone record t.
Proof using Type Hr Hres.
  intros E. destruct (decide (peer = i)) as [->|Hne].
  - right; right; left. rewrite E. cbn. apply lookup_delete_eq.
  - left. rewrite E. cbn. rewrite lookup_fmap, Hr. eexists. split; [reflexivity|]. destruct Hres as (H1 & H2 & H3 & H4 & H5). split_and!; try done. cbn. by apply forget_Some.
Qed.
Lemma reservation_kept w' : fleet_step w now w' → goes_on w' now id op peer zone record t.
Proof using Type Hok Hat Hr Hres.
  pose proof Hok as [Hd Hp Hh Hc]. pose proof Hat as [Ht Hn].
  destruct 1 as [request i out s Hrq Hf E|request i out s Hrq E|i out s E|out s E|p out s E|p request out s Hcd E|p o out s Ho E|request peers i out s Hid E
                |i request peers out s E|i out s E|i frozen reason out s E|only draw out s Hdr Hi E|plan res e out s Et E|plan e out s Et E|d].
  - destruct (peer_create_run request i now (fw_db w) Hp Hrq) as (out' & s' & E' & Hs). rewrite E in E'. injection E' as <- <-. apply kept_row. cbn. destruct out; [destruct Hs as (row & -> & _)|subst]; done.
  - destruct (peer_update_run request i now (fw_db w) Hp Hrq) as (out' & s' & E' & Hs). rewrite E in E'. injection E' as <- <-. apply kept_row. cbn. destruct Hs as [->|(row & -> & _)]; done.
  - unfold peer_delete in E. cbv [mbind db_bind db_get db_put mret db_ret] in E. injection E as <- <-. by apply (kept_peer_removed i).
  - destruct (health_open_run _ _ now Hh Hn) as (s' & E' & (_ & E2 & _) & _). rewrite E in E'. injection E' as _ <-. apply kept_row. cbn. by rewrite E2.
  - destruct (ensure_peer_run _ _ p now Hh Hn) as (out' & s' & E' & (_ & E2 & _) & _). rewrite E in E'. injection E' as _ <-. apply kept_row. cbn. by rewrite E2.
  - destruct (health_config_run _ _ p request now Hh Hn Hcd) as (out' & s' & E' & H1). rewrite E in E'. injection E' as <- <-. apply kept_row. cbn. destruct out; [destruct H1 as [(_ & -> & _) _]|subst]; done.
  - destruct (record_probe_run _ _ p o Hh Hc Ho) as (out' & s' & E' & H1). rewrite E in E'. injection E' as <- <-. apply kept_row. cbn. destruct out; [destruct H1 as (_ & (_ & -> & _) & _)|destruct H1 as [-> _]]; done.
  - destruct (create_run request peers i now (fw_db w)) as (out' & s' & E' & Hs). rewrite E in E'. injection E' as <- <-. destruct Hs as [->|(Hi & request' & HS)]; [by apply kept_row|].
    eapply kept_stored; [done|exact HS|]. intros ri E'. congruence.
  - destruct (update_run request peers i now (fw_db w)) as (out' & s' & E' & Hs). rewrite E in E'. injection E' as <- <-. destruct Hs as [->|(ri & request' & Hi & Hpd & HS)]; [by apply kept_row|].
    eapply kept_stored; [done|exact HS|]. intros ri' E'. rewrite Hi in E'. by injection E' as <-.
  - apply kept_row. cbn. unfold delete_dns_failover in E. cbv [mbind db_bind db_get] in E. destruct (dns_failovers (fw_db w) !! i) as [ri|] eqn:Ei; [|by injection E as <- <-].
    unfold db_ensure in E. case_bool_decide as Hpd; [|by injection E as <- <-]. cbv [mret db_ret db_put] in E. injection E as <- <-. cbn. rewrite lookup_delete_ne; [done|]. intros ->.
    rewrite Hr in Ei. injection Ei as <-. destruct Hres as [Ho _]. congruence.
  - destruct (freeze_run i frozen reason now (fw_db w)) as (out' & s' & E' & Hs). rewrite E in E'. injection E' as <- <-. destruct Hs as [->|(q & ->)]; [by apply kept_row|]. by eapply kept_altered.
  - by eapply kept_plan.
  - by eapply kept_complete.
  - destruct (drift_run (fw_db w) _ _ _ _ plan e Hd) as (out' & s' & E' & Hout). rewrite E in E'. injection E' as <- <-. destruct Hout as [->|[_ ->]]; [by apply kept_row|]. by eapply kept_altered.
  - by apply kept_row.
Qed.
End kept.

(** Every request is over, or its operation is still reserved. *)
Definition request_open (w : FleetWorld) (x : Request) : Prop :=
  (∀ d, rq_deleted x = Some d → d ≤ fw_clock w) ∧
  (is_Some (rq_deleted x) ∨ rq_until x ≤ fw_clock w ∨ (∃ z, reported (fw_settled w) x z (fw_clock w)) ∨
   ∃ r, dns_failovers (fw_db w) !! rq_failover x = Some r ∧ reserved_row r (rq_operation x) (rq_peer x) (rq_zone x) (rq_record x) (rq_until x)).
Lemma note_same now s x : let y := note_deleted now s x in
  rq_operation y = rq_operation x ∧ rq_failover y = rq_failover x ∧ rq_peer y = rq_peer x ∧ rq_zone y = rq_zone x ∧ rq_record y = rq_record x ∧ rq_at y = rq_at x ∧ rq_until y = rq_until x ∧
  (rq_deleted y = rq_deleted x ∨ rq_deleted x = None ∧ rq_deleted y = Some now) ∧ (fleet_peers s !! rq_peer x = None → is_Some (rq_deleted y)).
Proof. cbn. unfold note_deleted. destruct (rq_deleted x) eqn:E, (fleet_peers s !! rq_peer x); cbn; rewrite ?E; split_and!; eauto; done. Qed.
Lemma request_open_step w now w' x : fleet_ok w → at_time now w → fleet_step w now w' → request_open w x → request_open w' (note_deleted now (fw_db w') x).
Proof.
  intros Hok Hat Hstep [Hd Hx]. destruct (step_grows _ _ _ Hstep) as [Eclock [ys El]]. pose proof Hat as [Ht _]. unfold request_open, reported.
  destruct (note_same now (fw_db w') x) as (-> & -> & -> & -> & -> & _ & -> & Hn & Hgone). rewrite Eclock, El. split.
  { intros d E. destruct Hn as [En|[_ En]]; rewrite En in E; [specialize (Hd d E); lia|injection E; lia]. }
  destruct Hx as [[d E]|[Hle|[(z & Hz & E1 & E2 & E3 & E4)|(r & Hr & Hres)]]].
  - left. destruct Hn as [->|[_ ->]]; eauto.
  - right; left. lia.
  - right; right; left. exists z. split_and!; try done; [apply elem_of_app; by right|lia].
  - destruct (reservation_kept w now Hok Hat _ _ _ _ _ _ _ Hr Hres w' Hstep) as [?|[?|[Hnone|(z & Hz & ?)]]]; [by right; right; right|by right; left|left; by apply Hgone|].
    right; right; left. exists z. by rewrite <- El.
Qed.

Lemma over_note l ys now s x y y' : rq_at y' = rq_at y → rq_failover y' = rq_failover y → over_before l x y → over_before (ys ++ l) (note_deleted now s x) y'.
Proof.
  intros Ea Ef Ho. unfold over_before, reported in *. rewrite Ea, Ef. destruct (note_same now s x) as (-> & -> & _ & _ & _ & _ & -> & Hn & _).
  destruct Ho as [?|[(d & E & ?)|(z & (? & ?) & ?)]]; [by left|right; left; exists d; split; [|done]; destruct Hn as [->|[? _]]; [done|congruence]|].
  right; right. exists z. split; [|done]. split; [apply elem_of_app; by right|done].
Qed.
Lemma apart_note l ys now s sent : requests_apart l sent → requests_apart (ys ++ l) (note_deleted now s <$> sent).
Proof.
  induction sent as [|y sent IH]; [done|]. intros [Hy Hs]. cbn. split; [|by apply IH]. intros x' (x & -> & Hx)%list_elem_of_fmap. unfold one_record.
  destruct (note_same now s x) as (-> & _ & _ & -> & -> & _), (note_same now s y) as (Eo & Ef & _ & Ez & Er & Ea & _). rewrite Eo, Ez, Er.
  intros H1 H2. eapply over_note; [exact Ea|exact Ef|]. by apply Hy.
Qed.
(** A request that is allowed now comes after those of other operations are over. *)
Lemma allowed_apart w sent plan e remaining s : fleet_ok w → at_time (ex_clock e) w → Forall (request_open w) sent → validate_dns_execution plan e (fw_db w) = Done (Ok remaining, s) →
  (∀ x, x ∈ sent → one_record x (request_of plan (ex_clock e)) → rq_operation x ≠ pl_operation plan → over_before (fw_settled w) x (request_of plan (ex_clock e))) ∧
  request_open (stepped (ex_clock e) (fw_db w) w) (request_of plan (ex_clock e)).
Proof.
  intros [Hd Hp Hh _] [Ht Hn] Hsent E. destruct (validate_run (fw_db w) _ _ _ _ _ plan e Hd Hp Hh Hn) as (out & V & Hiff). rewrite E in V. injection V as <- _.
  destruct (proj1 (Hiff remaining) eq_refl) as (_ & _ & _ & (r & Hr & _ & _ & (_ & _ & _ & Z1 & Z2 & _) & O & P & _ & _ & L & _) & _).
  destruct (dk_rows _ _ _ _ _ Hd _ r Hr) as [_ Hf]. split.
  - intros x Hx [R1 R2] Hne. cbn in R1, R2. destruct (proj1 (Forall_forall _ _) Hsent x Hx) as [Hdel Hopen]. unfold over_before. cbn.
    destruct Hopen as [[d Ed]|[Hle|[(z & Hz & E1 & E2 & E3 & E4)|(rx & Hrx & O' & _ & Z1' & Z2' & _)]]].
    + right; left. exists d. split; [done|]. specialize (Hdel d Ed). lia.
    + left. lia.
    + right; right. exists z. split; [split_and!; try done; lia|]. intros Ef. rewrite Ef in E2. pose proof (fk_spaced _ _ _ _ _ _ Hf z Hz E2 E3) as Hsp.
      pose proof (fk_pending _ _ _ _ _ _ Hf) as Hpd. destruct Hpd; [done|]. lia.
    + exfalso. apply Hne. assert (rq_failover x = pl_failover plan) as Ei.
      { apply (dk_records _ _ _ _ _ Hd _ _ _ _ Hrx Hr). unfold same_record. rewrite Z1', Z2', <- Z1, <- Z2, R1, R2. by rewrite !bool_decide_true. }
      rewrite Ei, Hr in Hrx. injection Hrx as <-. congruence.
  - split; [done|]. right; right; right. exists r. split; [done|]. split_and!; try done. eexists. split; [exact L|done].
Qed.
Lemma sent_ok w sent : sent_history w sent → Forall (request_open w) sent ∧ requests_apart (fw_settled w) sent.
Proof.
  induction 1 as [d now s Hn E|w sent now w' H [IH1 IH2] Hat Hstep|w sent plan e remaining s H [IH1 IH2] Hat E]; [done|..].
  - pose proof (fleet_history_ok w (sent_fleet_history w sent H)) as Hok. split.
    + apply Forall_fmap. eapply Forall_impl; [exact IH1|]. intros x. by apply request_open_step.
    + destruct (step_grows _ _ _ Hstep) as [_ [ys ->]]. by apply apart_note.
  - pose proof (fleet_history_ok w (sent_fleet_history w sent H)) as Hok. destruct (allowed_apart w sent plan e remaining s Hok Hat IH1 E) as [H1 H2]. split; [|done].
    constructor; [done|]. eapply Forall_impl; [exact IH1|]. intros x [Hd Hx]. destruct Hat as [Ht _]. split; cbn; [intros d Ed; specialize (Hd d Ed); lia|].
    destruct Hx as [?|[?|[(z & ? & ? & ? & ? & ?)|?]]]; [by left|right; left; lia|right; right; left; exists z; split_and!; try done; lia|by right; right; right].
Qed.

(** ** Theorem *)

(** C25. Changes of DNS records are safe. In every history of the administrator, the monitor and workers: a record of the provider is
    managed by at most one failover; an operation is settled at most once; the current target of a failover is the one applied last, and
    so is its peer unless that was deleted; two attempts for a failover that workers reported are at least the cooldown apart. A worker is
    allowed to send the request exactly if it holds the job lease of the record, its plan is the pending operation of an enabled and unfrozen
    failover, the target is configured for a peer that its probes show healthy past its cooldown, and more than eleven seconds remain; it is
    then told the time that remains before the reservation ends. Requests count from the moment they are allowed, reported or not: a request for a
    record is allowed only after every earlier one of another operation for that record is over, that is after its reservation ended, its peer was
    deleted or its worker reported it; only in the last case has a cooldown to pass as well, that of the failover if both belong to the same.
    At one time, two workers that are allowed to change one record carry out the same operation. *)
Theorem dns_changes_safe (w : FleetWorld) (sent : list Request) :
  sent_history w sent →
  (∀ i j ri rj, dns_failovers (fw_db w) !! i = Some ri → dns_failovers (fw_db w) !! j = Some rj → same_record (fr_zone ri) (fr_record ri) rj = true → i = j) ∧
  NoDup (sd_operation <$> fw_settled w) ∧
  (∀ id r, dns_failovers (fw_db w) !! id = Some r →
     fr_current_target r = sd_target <$> last_applied id (fw_settled w) ∧ ∀ p, fr_current_peer r = Some p → sd_peer <$> last_applied id (fw_settled w) = Some p) ∧
  spaced (fw_settled w) ∧
  requests_apart (fw_settled w) sent ∧
  (∀ plan e, moment_ok (ex_clock e) →
     ∃ out, validate_dns_execution plan e (fw_db w) = Done (out, fw_db w) ∧ ∀ remaining, out = Ok remaining ↔ executable (fw_db w) (fw_log w) plan e remaining) ∧
  (∀ plan plan' e e' remaining remaining' s s', moment_ok (ex_clock e) → moment_ok (ex_clock e') →
     validate_dns_execution plan e (fw_db w) = Done (Ok remaining, s) → validate_dns_execution plan' e' (fw_db w) = Done (Ok remaining', s') →
     to_ascii_lowercase (pl_zone plan) = to_ascii_lowercase (pl_zone plan') → to_ascii_lowercase (pl_record plan) = to_ascii_lowercase (pl_record plan') →
     pl_failover plan = pl_failover plan' ∧ pl_operation plan = pl_operation plan' ∧ pl_target plan = pl_target plan').
Proof.
  intros H. destruct (sent_ok w sent H) as [_ Hapart]. destruct (fleet_history_ok w (sent_fleet_history w sent H)) as [Hd Hp Hh _].
  assert (∀ plan e, moment_ok (ex_clock e) →
     ∃ out, validate_dns_execution plan e (fw_db w) = Done (out, fw_db w) ∧ ∀ remaining, out = Ok remaining ↔ executable (fw_db w) (fw_log w) plan e remaining) as Hval
    by (intros plan e He; by eapply validate_run).
  split_and!; [apply (dk_records _ _ _ _ _ Hd)|apply (dk_once _ _ _ _ _ Hd)| |apply (dk_spaced _ _ _ _ _ Hd)|done|done|].
  - intros id r Hr. destruct (dk_rows _ _ _ _ _ Hd id r Hr) as [_ Hf]. split; [apply (fk_current _ _ _ _ _ _ Hf)|]. intros p Ep. by apply (fk_current_peer _ _ _ _ _ _ Hf).
  - intros plan plan' e e' remaining remaining' s s' He He' E E' Ez Er.
    destruct (Hval plan e He) as (out & V & Hiff). rewrite E in V. injection V as <- _. destruct (proj1 (Hiff remaining) eq_refl) as (_ & _ & _ & (r & Hr & Hc) & _).
    destruct (Hval plan' e' He') as (out' & V' & Hiff'). rewrite E' in V'. injection V' as <- _. destruct (proj1 (Hiff' remaining') eq_refl) as (_ & _ & _ & (r' & Hr' & Hc') & _).
    destruct Hc as (_ & _ & (_ & _ & _ & Z1 & Z2 & _) & O & _ & T & _), Hc' as (_ & _ & (_ & _ & _ & Z1' & Z2' & _) & O' & _ & T' & _).
    assert (pl_failover plan = pl_failover plan') as Ei.
    { apply (dk_records _ _ _ _ _ Hd _ _ _ _ Hr Hr'). unfold same_record. rewrite <- Z1, <- Z2, <- Z1', <- Z2', Ez, Er. by rewrite !bool_decide_true. }
    rewrite Ei in Hr. rewrite Hr in Hr'. injection Hr' as <-. split; [done|]. split; congruence.
Qed.
End requests.

(** ** Witness *)

(** The worker of operation 31 was allowed at 123 and never reports. The peer fails a probe, so the planner gives the operation up when its reservation
    ends at 152; once the peer is healthy again operation 33 is planned, and allowed at 155. *)
Definition probe_of (event at_ : Z) (ok : bool) : FleetProbeObservation :=
  {| ob_event := event; ob_observed := at_; ob_success := ok; ob_latency := None; ob_error := None; ob_active_connections := 0; ob_bytes_total := 0; ob_clients := 1; ob_policies := 2 |}.
Definition probed (o : FleetProbeObservation) (w : FleetWorld) : FleetWorld :=
  let p := performed (record_probe 11 o) (fw_db w) in
  with_log (match p.1 with Ok res => log_after (fw_db w) 11 o (pr_accepted res) (fw_log w) | Err _ => fw_log w end) (stepped (ob_observed o) p.2 w).
Definition planned_at (now op : Z) (w : FleetWorld) : FleetWorld :=
  let p := performed (plan_dns_changes (env := sample_env) (plat := sample_platform) now None (λ _, op)) (fw_db w) in
  with_settled (settled_by false now (fw_db w) p.2 ++ fw_settled w)
    (with_drawn (list_to_set ((λ _, op) <$> active_failovers None (fw_db w))) ∅ (stepped now p.2 w)).
Definition sample_allowed : FleetWorld := stepped 123 (fw_db sample_leased) sample_leased.
Definition sample_failing : FleetWorld := probed (probe_of 502 130 false) sample_allowed.
Definition sample_lapsed : FleetWorld := planned_at 152 32 sample_failing.
Definition sample_recovering : FleetWorld := probed (probe_of 503 153 true) sample_lapsed.
Definition sample_recovered : FleetWorld := probed (probe_of 504 154 true) sample_recovering.
Definition sample_again : FleetWorld := planned_at 154 33 sample_recovered.
Definition late_led : Database := run_or (try_acquire_leadership ex_a 154 ex_led) ex_led.
Definition late_claim : result CoordError (option JobLease * Database) :=
  job_acquire JobLeases.ex_jobs (dns_execution_job_key (plat := sample_platform) sample_plan) (lit "fleet_dns") 9 154 154 2 late_led.
Definition sample_retaken : FleetWorld := stepped 154 (set_coordination (match late_claim with Ok (_, d) => d | Err _ => late_led end) (fw_db sample_again)) sample_again.
Definition late_execution : Execution :=
  {| ex_jobs := JobLeases.ex_jobs; ex_lease := match late_claim with Ok (Some lease, _) => lease | _ => ex_lease sample_execution end; ex_fence_clock := 155; ex_lease_clock := 155; ex_clock := 155 |}.
Definition late_plan : FleetDnsChangePlan :=
  {| pl_operation := 33; pl_lease_until := 184; pl_failover := 21; pl_failover_name := pl_failover_name sample_plan; pl_hostname := pl_hostname sample_plan; pl_record_type := RecordA;
     pl_zone := pl_zone sample_plan; pl_record := pl_record sample_plan; pl_token_env := pl_token_env sample_plan; pl_ttl := 60; pl_proxied := false; pl_peer := 11; pl_peer_name := lit "east";
     pl_target := pl_target sample_plan; pl_reason := pl_reason sample_plan |}.
Definition first_request : Request := request_of sample_plan 123.
Definition second_request : Request := request_of late_plan 155.

Definition sample_second : FleetWorld := stepped 155 (fw_db sample_retaken) sample_retaken.

Abbreviation sample_sent := (sent_history (env := sample_env) (plat := sample_platform)).
Lemma probed_sent w sent o : sample_sent w sent → fw_clock w ≤ ob_observed o → moment_ok (ob_observed o) → returns (record_probe 11 o) (fw_db w) = true →
  note_deleted (ob_observed o) (fw_db (probed o w)) <$> sent = sent → sample_sent (probed o w) sent.
Proof.
  intros H Hc Hn Hr <-. eapply sent_more; [exact H|by split|]. by apply (fs_probe _ _ 11 o (performed (record_probe 11 o) (fw_db w)).1), performed_run.
Qed.
Lemma planned_sent w sent now op : sample_sent w sent → fw_clock w ≤ now → moment_ok now → op ∉ fw_ops w → (length (active_failovers None (fw_db w)) ≤ 1)%nat →
  returns (plan_dns_changes (env := sample_env) (plat := sample_platform) now None (λ _, op)) (fw_db w) = true →
  note_deleted now (fw_db (planned_at now op w)) <$> sent = sent → sample_sent (planned_at now op w) sent.
Proof.
  intros H Hc Hn Hop Hl Hr <-. eapply sent_more; [exact H|by split|].
  apply (fs_plan _ _ None (λ _, op) (performed (plan_dns_changes (env := sample_env) (plat := sample_platform) now None (λ _, op)) (fw_db w)).1); [done| |by apply performed_run].
  destruct (active_failovers None (fw_db w)) as [|k [|? ?]]; cbn in Hl; [intros ?? Hx; by apply elem_of_nil in Hx| |lia]. intros i j Hi Hj _. apply list_elem_of_singleton in Hi as ->. by apply list_elem_of_singleton in Hj as ->.
Qed.
Lemma history_sent w : fleet_history (env := sample_env) (plat := sample_platform) w → sample_sent w [].
Proof. induction 1 as [d now s Hn E|w now w' _ IH Hat Hstep]; [by eapply sent_started|]. by apply (sent_more w [] now w'). Qed.
Lemma sample_lapsed_sent : sample_sent sample_lapsed [first_request].
Proof.
  assert (sample_sent sample_allowed [first_request]) as H1.
  { assert (∃ s, validate_dns_execution (env := sample_env) (plat := sample_platform) sample_plan sample_execution (fw_db sample_leased) = Done (Ok 28, s)) as (s & E) by (eexists; vm_compute; reflexivity).
    apply (sent_allowed sample_leased [] sample_plan sample_execution 28 s); [apply history_sent, sample_leased_history|split; [|split]; vm_compute; discriminate|exact E]. }
  assert (sample_sent sample_failing [first_request]) as H2.
  { refine (probed_sent sample_allowed _ (probe_of 502 130 false) H1 _ _ _ _); [vm_compute; discriminate|split; vm_compute; discriminate|vm_compute; reflexivity|vm_compute; reflexivity]. }
  refine (planned_sent sample_failing _ 152 32 H2 _ _ _ _ _ _);
    [vm_compute; discriminate|split; vm_compute; discriminate|vm_compute; discriminate|apply Nat.leb_le; vm_compute; reflexivity|vm_compute; reflexivity|vm_compute; reflexivity].
Qed.
Lemma sample_second_sent : sample_sent sample_second [second_request; first_request].
Proof.
  assert (sample_sent sample_again [first_request]) as H1.
  { assert (sample_sent sample_recovering [first_request]) as H1.
    { refine (probed_sent sample_lapsed _ (probe_of 503 153 true) sample_lapsed_sent _ _ _ _); [vm_compute; discriminate|split; vm_compute; discriminate|vm_compute; reflexivity|vm_compute; reflexivity]. }
    assert (sample_sent sample_recovered [first_request]) as H2.
    { refine (probed_sent sample_recovering _ (probe_of 504 154 true) H1 _ _ _ _); [vm_compute; discriminate|split; vm_compute; discriminate|vm_compute; reflexivity|vm_compute; reflexivity]. }
    refine (planned_sent sample_recovered _ 154 33 H2 _ _ _ _ _ _);
      [vm_compute; discriminate|split; vm_compute; discriminate|vm_compute; discriminate|apply Nat.leb_le; vm_compute; reflexivity|vm_compute; reflexivity|vm_compute; reflexivity]. }
  assert (∃ s, validate_dns_execution (env := sample_env) (plat := sample_platform) late_plan late_execution (fw_db sample_retaken) = Done (Ok 28, s)) as (s & E) by (eexists; vm_compute; reflexivity).
  refine (sent_allowed sample_retaken [first_request] late_plan late_execution 28 s _ _ E); [|split; [|split]; vm_compute; discriminate].
  assert (note_deleted 154 (fw_db sample_retaken) <$> [first_request] = [first_request]) as En by (vm_compute; reflexivity). rewrite <- En.
  eapply sent_more; [exact H1|split; [|split]; vm_compute; discriminate|apply fs_coordination].
Qed.
Lemma apart_pair l x y : requests_apart l [y; x] → one_record x y → rq_operation x ≠ rq_operation y → over_before l x y.
Proof. intros [H _]. by apply H, list_elem_of_here. Qed.
Lemma dns_changes_safe_witness :
  over_before (fw_settled sample_second) first_request second_request ∧ rq_at second_request < rq_at first_request + 60 ∧
  executable (plat := sample_platform) (fw_db sample_second) (fw_log sample_second) late_plan late_execution 28.
Proof.
  destruct (dns_changes_safe (env := sample_env) (plat := sample_platform) sample_second [second_request; first_request] sample_second_sent) as (_ & _ & _ & _ & Hapart & H & _).
  split; [|split; [vm_compute; reflexivity|]].
  - refine (apart_pair _ _ _ Hapart _ _); [split; reflexivity|vm_compute; discriminate].
  - destruct (H late_plan late_execution) as (out & E & Hiff); [split; vm_compute; discriminate|].
    assert (∃ s, validate_dns_execution (env := sample_env) (plat := sample_platform) late_plan late_execution (fw_db sample_second) = Done (Ok 28, s)) as (s & E') by (eexists; vm_compute; reflexivity).
    rewrite E in E'. apply done_state in E' as [-> _]. apply Hiff. reflexivity.
Defined.
