(* ===== verification/FleetProtocol.v ===== *)
(** * Fleet bundles ([fleet_protocol.rs])

    A bundle describes the clients, resources and traffic controls of one server for
    others to apply. Its revision is the SHA-256 of a canonical form.

    JSON and SHA-256 are parameters. *)

From S2P Require Import Prelude RustStr NetAddr RustText NetPrint PortMapping TargetPool EgressPolicy P2pProtocol HaTables TrafficControl.

Local Open Scope Z_scope.
Set Default Proof Using "Type".

(** ** Data *)

Definition FLEET_BUNDLE_SCHEMA_VERSION : Z := 2.
Definition MAX_CLIENTS : Z := 4096.
Definition MAX_RESOURCES : Z := 65535.
Definition MAX_NAME_BYTES : Z := 80.
Definition MAX_PORT_GROUP_NAME_BYTES : Z := 64.
Definition MAX_TARGET_POOL_BYTES : Z := 4096.
Definition MIN_BANDWIDTH_LIMIT_BPS : Z := 1024.
Definition MAX_BANDWIDTH_LIMIT_BPS : Z := 1000000000.
Definition MAX_CONNECTIONS : Z := 1024.
Definition MAX_UDP_SESSIONS : Z := 4096.
Definition MIN_UDP_IDLE_TIMEOUT_SECONDS : Z := 30.
Definition MAX_UDP_IDLE_TIMEOUT_SECONDS : Z := 3600.

Record FleetClientRef := {
  cl_agent_instance_id : Z;
  cl_name : rstr;
  cl_agent_identity_public_key : option rstr;
}.

Inductive FleetPortGroupProtocol := GroupTcp | GroupUdp.

Record FleetTcpResource := {
  tcp_agent_instance_id : Z;
  tcp_name : rstr;
  tcp_public_port : Z;
  tcp_target_addr : rstr;
  tcp_max_connections : Z;
  tcp_bandwidth_limit_bps : option Z;
}.

Record FleetUdpResource := {
  udp_agent_instance_id : Z;
  udp_name : rstr;
  udp_public_port : Z;
  udp_target_addr : rstr;
  udp_max_sessions : Z;
  udp_session_idle_timeout_seconds : Z;
  udp_bandwidth_limit_bps : option Z;
}.

Record FleetPortGroupResource := {
  pg_agent_instance_id : Z;
  pg_name : rstr;
  pg_protocol : FleetPortGroupProtocol;
  pg_public_ports : rstr;
  pg_target_host : rstr;
  pg_target_ports : rstr;
  pg_max_connections : Z;
  pg_max_sessions : Z;
  pg_session_idle_timeout_seconds : Z;
  pg_bandwidth_limit_bps : option Z;
}.

Inductive FleetGrpcBackendTransport := H2c | Tls.
Global Instance FleetGrpcBackendTransport_eq_dec : EqDecision FleetGrpcBackendTransport.
Proof. solve_decision. Defined.

Record FleetHttpRouteResource := {
  http_agent_instance_id : Z;
  http_name : rstr;
  http_hostname : rstr;
  http_target_addr : rstr;
  http_max_connections : Z;
  http_grpc_backend_transport : FleetGrpcBackendTransport;
  http_grpc_backend_server_name : option rstr;
  http_grpc_backend_trust_profile : option rstr;
}.

Record FleetSniRouteResource := {
  sni_agent_instance_id : Z;
  sni_name : rstr;
  sni_hostname : rstr;
  sni_target_addr : rstr;
  sni_max_connections : Z;
  sni_bandwidth_limit_bps : option Z;
}.

Record FleetSecretTunnelResource := {
  sec_provider_agent_instance_id : Z;
  sec_allowed_agent_instance_id : option Z;
  sec_credential_ref : Z;
  sec_name : rstr;
  sec_target_addr : rstr;
  sec_max_connections : Z;
  sec_bandwidth_limit_bps : option Z;
}.

(** [FleetSocks5ProxyResource] and [FleetHttpProxyResource] have the same fields. *)
Record FleetProxyResource := {
  px_agent_instance_id : Z;
  px_credential_ref : Z;
  px_name : rstr;
  px_public_port : Z;
  px_username : rstr;
  px_max_connections : Z;
  px_bandwidth_limit_bps : option Z;
  px_allow_private_networks : bool;
}.

Inductive FleetResourceSpec :=
  | SpecTcp (resource : FleetTcpResource)
  | SpecUdp (resource : FleetUdpResource)
  | SpecPortGroup (resource : FleetPortGroupResource)
  | SpecHttpRoute (resource : FleetHttpRouteResource)
  | SpecSniRoute (resource : FleetSniRouteResource)
  | SpecSecretTunnel (resource : FleetSecretTunnelResource)
  | SpecSocks5Proxy (resource : FleetProxyResource)
  | SpecHttpProxy (resource : FleetProxyResource).

Record FleetResource := { fr_resource_id : Z; fr_enabled : bool; fr_spec : FleetResourceSpec }.

Record FleetTrafficControl := {
  ft_resource_id : Z;
  ft_enabled : bool;
  ft_allowed_cidrs : list rstr;
  ft_denied_cidrs : list rstr;
  ft_max_connections_per_minute : option Z;
  ft_daily_quota_bytes : option Z;
  ft_active_weekdays_utc : list Z;
  ft_start_minute_utc : option Z;
  ft_end_minute_utc : option Z;
}.

(** [FleetBundleWire] has the same fields. *)
Record FleetBundleV2 := {
  fb_schema_version : Z;
  fb_source_instance_id : Z;
  fb_generation : Z;
  fb_generated_unix_seconds : Z;
  fb_clients : list FleetClientRef;
  fb_resources : list FleetResource;
  fb_traffic_controls : list FleetTrafficControl;
  fb_content_sha256 : rstr;
  fb_revision : rstr;
}.

(** [derive(PartialEq, Eq)]. *)
Global Instance FleetClientRef_eq_dec : EqDecision FleetClientRef.
Proof. solve_decision. Defined.
Global Instance FleetPortGroupProtocol_eq_dec : EqDecision FleetPortGroupProtocol.
Proof. solve_decision. Defined.
Global Instance FleetTcpResource_eq_dec : EqDecision FleetTcpResource.
Proof. solve_decision. Defined.
Global Instance FleetUdpResource_eq_dec : EqDecision FleetUdpResource.
Proof. solve_decision. Defined.
Global Instance FleetPortGroupResource_eq_dec : EqDecision FleetPortGroupResource.
Proof. solve_decision. Defined.
Global Instance FleetHttpRouteResource_eq_dec : EqDecision FleetHttpRouteResource.
Proof. solve_decision. Defined.
Global Instance FleetSniRouteResource_eq_dec : EqDecision FleetSniRouteResource.
Proof. solve_decision. Defined.
Global Instance FleetSecretTunnelResource_eq_dec : EqDecision FleetSecretTunnelResource.
Proof. solve_decision. Defined.
Global Instance FleetProxyResource_eq_dec : EqDecision FleetProxyResource.
Proof. solve_decision. Defined.
Global Instance FleetResourceSpec_eq_dec : EqDecision FleetResourceSpec.
Proof. solve_decision. Defined.
Global Instance FleetResource_eq_dec : EqDecision FleetResource.
Proof. solve_decision. Defined.
Global Instance FleetTrafficControl_eq_dec : EqDecision FleetTrafficControl.
Proof. solve_decision. Defined.
Global Instance FleetBundleV2_eq_dec : EqDecision FleetBundleV2.
Proof. solve_decision. Defined.

Record CanonicalFleetContent := {
  cc_schema_version : Z;
  cc_source_instance_id : Z;
  cc_generation : Z;
  cc_generated_unix_seconds : Z;
  cc_clients : list FleetClientRef;
  cc_resources : list FleetResource;
  cc_traffic_controls : list FleetTrafficControl;
}.

Inductive FleetBundleError :=
  | UnsupportedSchemaVersion (version : Z)
  | InvalidField (field : rstr)
  | DuplicateClient (id : Z)
  | DuplicateResource (id : Z)
  | DuplicateTrafficControl (id : Z)
  | UnknownClient (id : Z)
  | UnknownResource (id : Z)
  | InvalidContentSha256
  | ContentSha256Mismatch
  | RevisionMismatch
  | CanonicalSerialization.

Abbreviation checked := (result FleetBundleError).

(** [if bad { return Err(..) }]. *)
Definition refuse (bad : bool) (e : FleetBundleError) : checked unit := if bad then Err e else Ok tt.
Abbreviation field s := (InvalidField (lit s)).

(** [FleetGrpcBackendTransport::as_str] and [parse]. *)
Definition transport_as_str (t : FleetGrpcBackendTransport) : rstr :=
  match t with H2c => lit "h2c" | Tls => lit "tls" end.
Definition transport_parse (value : rstr) : checked FleetGrpcBackendTransport :=
  if bool_decide (value = lit "h2c") then Ok H2c
  else if bool_decide (value = lit "tls") then Ok Tls
  else Err (field "resources.grpc_backend_transport").

(** ** Fields *)

Definition validate_agent_id (value : Z) : checked unit := refuse (value =? 0) (field "resources.agent_instance_id").
Definition validate_credential_ref (value : Z) : checked unit := refuse (value =? 0) (field "resources.credential_ref").

Definition valid_name (value : rstr) (maximum : Z) : bool :=
  bool_decide (value = trim value) && negb (str_len value =? 0) && (str_len value <=? maximum) &&
  negb (any is_control value).
Definition validate_policy_name (value : rstr) (maximum : Z) : checked unit :=
  refuse (negb (valid_name value maximum)) (field "resources.name").

Definition validate_port (value : Z) : checked unit := refuse (value =? 0) (field "resources.public_port").
Definition validate_connections (value : Z) : checked unit :=
  refuse (negb ((1 <=? value) && (value <=? MAX_CONNECTIONS))) (field "resources.max_connections").
Definition validate_sessions (value : Z) : checked unit :=
  refuse (negb ((1 <=? value) && (value <=? MAX_UDP_SESSIONS))) (field "resources.max_sessions").
Definition validate_idle_timeout (value : Z) : checked unit :=
  refuse (negb ((MIN_UDP_IDLE_TIMEOUT_SECONDS <=? value) && (value <=? MAX_UDP_IDLE_TIMEOUT_SECONDS)))
    (field "resources.session_idle_timeout_seconds").
Definition validate_bandwidth (value : option Z) : checked unit :=
  refuse (match value with
          | Some limit => negb ((MIN_BANDWIDTH_LIMIT_BPS <=? limit) && (limit <=? MAX_BANDWIDTH_LIMIT_BPS))
          | None => false
          end) (field "resources.bandwidth_limit_bps").

Definition validate_username (value : rstr) : checked unit :=
  refuse (negb (bool_decide (value = trim value) && negb (str_len value =? 0) && (str_len value <=? 64) &&
                all (λ b, is_ascii_alphanumeric b || (b =? 46) || (b =? 95) || (b =? 45)) (as_bytes value)))
    (field "resources.username").

Definition validate_target_pool (value : rstr) : checked unit :=
  _ ← refuse (MAX_TARGET_POOL_BYTES <? str_len value) (field "resources.target_addr");
  match parse_target_pool value with
  | Err _ => Err (field "resources.target_addr")
  | Ok targets => refuse (negb (bool_decide (canonical_target_pool targets = value))) (field "resources.target_addr")
  end.

(** The closure over the labels of a host name. *)
Definition invalid_label (label : rstr) : bool :=
  (str_len label =? 0) || (63 <? str_len label) || starts_with ch_minus label || ends_with ch_minus label ||
  negb (all (λ b, is_ascii_alphanumeric b || (b =? ch_minus)) (as_bytes label)).

Definition validate_hostname (value : rstr) : checked unit :=
  refuse ((str_len value =? 0) || (253 <? str_len value) ||
          negb (bool_decide (value = to_ascii_lowercase value)) || negb (contains_char ch_dot value) ||
          is_some (parse_ip value) || any invalid_label (split ch_dot value))
    (field "resources.hostname").

Definition validate_grpc_backend (resource : FleetHttpRouteResource) : checked unit :=
  match resource.(http_grpc_backend_transport) with
  | H2c =>
      refuse (is_some resource.(http_grpc_backend_server_name) || is_some resource.(http_grpc_backend_trust_profile))
        (field "resources.grpc_backend")
  | Tls =>
      match resource.(http_grpc_backend_server_name) with
      | None => Err (field "resources.grpc_backend")
      | Some name =>
          match validate_hostname name with
          | Err _ => Err (field "resources.grpc_backend")
          | Ok _ =>
              _ ← refuse (is_some (parse_ip name)) (field "resources.grpc_backend");
              refuse (match resource.(http_grpc_backend_trust_profile) with
                      | Some v => (str_len v =? 0) || (64 <? str_len v) ||
                                  negb (all (λ b, is_ascii_alphanumeric b || (b =? 45) || (b =? 95)) (as_bytes v))
                      | None => false
                      end) (field "resources.grpc_backend")
          end
      end
  end.

Definition validate_target_host (value : rstr) : checked unit :=
  _ ← refuse ((str_len value =? 0) || (253 <? str_len value) || negb (bool_decide (value = trim value)) ||
              any is_ascii_whitespace (as_bytes value) ||
              contains_char ch_slash value || contains_char ch_lbracket value || contains_char ch_rbracket value)
        (field "resources.port_group.target_host");
  match parse_ip value with
  | Some address => refuse (negb (bool_decide (print_ip address = value))) (field "resources.port_group.target_host")
  | None =>
      refuse (contains_char ch_colon value || negb (bool_decide (value = to_ascii_lowercase value)) ||
              any invalid_label (split ch_dot value)) (field "resources.port_group.target_host")
  end.

Definition valid_hex (value : rstr) (bytes : Z) : bool :=
  (str_len value =? bytes * 2) &&
  all (λ b, is_ascii_digit b || ((97 <=? b) && (b <=? 102))) (as_bytes value).
Definition valid_sha256 (value : rstr) : bool := valid_hex value 32.

(** ** CIDR blocks *)

(** The network part of an address, [& mask]. *)
Definition network_of (address : IpAddr) (prefix : Z) : IpAddr :=
  match address with
  | V4 a => V4 (Z.land a (prefix_mask 32 prefix))
  | V6 a => V6 (Z.land a (prefix_mask 128 prefix))
  end.

Definition normalize_cidr (value : rstr) : option rstr :=
  if negb (bool_decide (value = trim value)) || (str_len value =? 0) then None
  else
    '(address, prefix) ←
      match split_once ch_slash value with
      | Some (address, prefix) =>
          address ← parse_ip address;
          prefix ← parse_uint U8_MAX prefix;
          Some (address, prefix)
      | None => address ← parse_ip value; Some (address, ip_bits address)
      end;
    if prefix <=? ip_bits address
    then Some (print_ip (network_of address prefix) ++ [ch_slash] ++ to_string prefix)
    else None.

Definition normalized_cidrs (values : list rstr) : option (list rstr) := mapM normalize_cidr values.

Fixpoint has_duplicates_after {A} `{EqDecision A} (seen values : list A) : bool :=
  match values with
  | [] => false
  | value :: values => bool_decide (value ∈ seen) || has_duplicates_after (value :: seen) values
  end.
(** [HashSet::insert] on each value in turn. *)
Definition has_duplicates {A} `{EqDecision A} (values : list A) : bool := has_duplicates_after [] values.

Definition validate_control (self : FleetTrafficControl) : checked unit :=
  _ ← refuse ((64 <? len self.(ft_allowed_cidrs)) || (64 <? len self.(ft_denied_cidrs))) (field "traffic_controls.cidrs");
  allowed ← ok_or (normalized_cidrs self.(ft_allowed_cidrs)) (field "traffic_controls.allowed_cidrs");
  denied ← ok_or (normalized_cidrs self.(ft_denied_cidrs)) (field "traffic_controls.denied_cidrs");
  _ ← refuse (has_duplicates allowed || has_duplicates denied || any (λ cidr, bool_decide (cidr ∈ denied)) allowed)
        (field "traffic_controls.cidrs");
  _ ← refuse (match self.(ft_max_connections_per_minute) with
              | Some v => negb ((1 <=? v) && (v <=? 1000000)) | None => false end)
        (field "traffic_controls.max_connections_per_minute");
  _ ← refuse (match self.(ft_daily_quota_bytes) with Some v => v <? 1024 | None => false end)
        (field "traffic_controls.daily_quota_bytes");
  _ ← refuse (any (λ d, 6 <? d) self.(ft_active_weekdays_utc) || has_duplicates self.(ft_active_weekdays_utc))
        (field "traffic_controls.active_weekdays_utc");
  refuse (negb (eqb (is_some self.(ft_start_minute_utc)) (is_some self.(ft_end_minute_utc))) ||
          match self.(ft_start_minute_utc) with Some v => 1440 <=? v | None => false end ||
          match self.(ft_end_minute_utc) with Some v => 1440 <=? v | None => false end)
    (field "traffic_controls.schedule").

(** ** Resources *)

Definition referenced_clients (self : FleetResourceSpec) : list Z :=
  match self with
  | SpecTcp r => [r.(tcp_agent_instance_id)]
  | SpecUdp r => [r.(udp_agent_instance_id)]
  | SpecPortGroup r => [r.(pg_agent_instance_id)]
  | SpecHttpRoute r => [r.(http_agent_instance_id)]
  | SpecSniRoute r => [r.(sni_agent_instance_id)]
  | SpecSecretTunnel r => r.(sec_provider_agent_instance_id) :: option_list r.(sec_allowed_agent_instance_id)
  | SpecSocks5Proxy r | SpecHttpProxy r => [r.(px_agent_instance_id)]
  end.

Definition validate_proxy (r : FleetProxyResource) : checked unit :=
  _ ← validate_agent_id r.(px_agent_instance_id);
  _ ← validate_credential_ref r.(px_credential_ref);
  _ ← validate_policy_name r.(px_name) MAX_NAME_BYTES;
  _ ← validate_port r.(px_public_port);
  _ ← validate_username r.(px_username);
  _ ← validate_connections r.(px_max_connections);
  validate_bandwidth r.(px_bandwidth_limit_bps).

Definition validate_spec (self : FleetResourceSpec) : checked unit :=
  match self with
  | SpecTcp r =>
      _ ← validate_agent_id r.(tcp_agent_instance_id);
      _ ← validate_policy_name r.(tcp_name) MAX_NAME_BYTES;
      _ ← validate_port r.(tcp_public_port);
      _ ← validate_target_pool r.(tcp_target_addr);
      _ ← validate_connections r.(tcp_max_connections);
      validate_bandwidth r.(tcp_bandwidth_limit_bps)
  | SpecUdp r =>
      _ ← validate_agent_id r.(udp_agent_instance_id);
      _ ← validate_policy_name r.(udp_name) MAX_NAME_BYTES;
      _ ← validate_port r.(udp_public_port);
      _ ← validate_target_pool r.(udp_target_addr);
      _ ← validate_sessions r.(udp_max_sessions);
      _ ← validate_idle_timeout r.(udp_session_idle_timeout_seconds);
      validate_bandwidth r.(udp_bandwidth_limit_bps)
  | SpecPortGroup r =>
      _ ← validate_agent_id r.(pg_agent_instance_id);
      _ ← validate_policy_name r.(pg_name) MAX_PORT_GROUP_NAME_BYTES;
      _ ← validate_target_host r.(pg_target_host);
      _ ← match parse_port_mappings r.(pg_public_ports) r.(pg_target_ports) 1 U16_MAX MAX_PORT_MAPPINGS with
          | Err _ => Err (field "resources.port_group.ports")
          | Ok mappings =>
              refuse (negb (bool_decide (mappings.(public_ports) = r.(pg_public_ports))) ||
                      negb (bool_decide (mappings.(target_ports) = r.(pg_target_ports))))
                (field "resources.port_group.ports")
          end;
      _ ← validate_connections r.(pg_max_connections);
      _ ← validate_sessions r.(pg_max_sessions);
      _ ← validate_idle_timeout r.(pg_session_idle_timeout_seconds);
      validate_bandwidth r.(pg_bandwidth_limit_bps)
  | SpecHttpRoute r =>
      _ ← validate_agent_id r.(http_agent_instance_id);
      _ ← validate_policy_name r.(http_name) MAX_NAME_BYTES;
      _ ← validate_hostname r.(http_hostname);
      _ ← validate_target_pool r.(http_target_addr);
      _ ← validate_connections r.(http_max_connections);
      validate_grpc_backend r
  | SpecSniRoute r =>
      _ ← validate_agent_id r.(sni_agent_instance_id);
      _ ← validate_policy_name r.(sni_name) MAX_NAME_BYTES;
      _ ← validate_hostname r.(sni_hostname);
      _ ← validate_target_pool r.(sni_target_addr);
      _ ← validate_connections r.(sni_max_connections);
      validate_bandwidth r.(sni_bandwidth_limit_bps)
  | SpecSecretTunnel r =>
      _ ← validate_agent_id r.(sec_provider_agent_instance_id);
      _ ← match r.(sec_allowed_agent_instance_id) with
          | Some client_id => validate_agent_id client_id
          | None => Ok tt
          end;
      _ ← validate_credential_ref r.(sec_credential_ref);
      _ ← validate_policy_name r.(sec_name) MAX_NAME_BYTES;
      _ ← validate_target_pool r.(sec_target_addr);
      _ ← validate_connections r.(sec_max_connections);
      validate_bandwidth r.(sec_bandwidth_limit_bps)
  | SpecSocks5Proxy r | SpecHttpProxy r => validate_proxy r
  end.

(** ** The bundle *)

(** The loop over the clients, with the identifiers seen. *)
Fixpoint validate_clients (seen : gset Z) (clients : list FleetClientRef) : checked (gset Z) :=
  match clients with
  | [] => Ok seen
  | client :: clients =>
      let id := client.(cl_agent_instance_id) in
      _ ← refuse (id =? 0) (field "clients.agent_instance_id");
      _ ← refuse (negb (valid_name client.(cl_name) MAX_NAME_BYTES)) (field "clients.name");
      _ ← refuse (match client.(cl_agent_identity_public_key) with
                  | Some value => negb (valid_hex value 32) | None => false end)
            (field "clients.agent_identity_public_key");
      _ ← refuse (bool_decide (id ∈ seen)) (DuplicateClient id);
      validate_clients ({[ id ]} ∪ seen) clients
  end.

Fixpoint known_clients (clients : gset Z) (ids : list Z) : checked unit :=
  match ids with
  | [] => Ok tt
  | id :: ids => _ ← refuse (negb (bool_decide (id ∈ clients))) (UnknownClient id); known_clients clients ids
  end.

Fixpoint validate_resources (clients seen : gset Z) (resources : list FleetResource) : checked (gset Z) :=
  match resources with
  | [] => Ok seen
  | resource :: resources =>
      let id := resource.(fr_resource_id) in
      _ ← refuse (id =? 0) (field "resources.resource_id");
      _ ← refuse (bool_decide (id ∈ seen)) (DuplicateResource id);
      _ ← validate_spec resource.(fr_spec);
      _ ← known_clients clients (referenced_clients resource.(fr_spec));
      validate_resources clients ({[ id ]} ∪ seen) resources
  end.

Fixpoint validate_controls (resources seen : gset Z) (controls : list FleetTrafficControl) : checked unit :=
  match controls with
  | [] => Ok tt
  | control :: controls =>
      let id := control.(ft_resource_id) in
      _ ← refuse (id =? 0) (field "traffic_controls.resource_id");
      _ ← refuse (negb (bool_decide (id ∈ resources))) (UnknownResource id);
      _ ← refuse (bool_decide (id ∈ seen)) (DuplicateTrafficControl id);
      _ ← validate_control control;
      validate_controls resources ({[ id ]} ∪ seen) controls
  end.

Definition validate_structure (self : FleetBundleV2) : checked unit :=
  _ ← refuse (negb (self.(fb_schema_version) =? FLEET_BUNDLE_SCHEMA_VERSION))
        (UnsupportedSchemaVersion self.(fb_schema_version));
  _ ← refuse (self.(fb_source_instance_id) =? 0) (field "source_instance_id");
  _ ← refuse (self.(fb_generation) =? 0) (field "generation");
  _ ← refuse (self.(fb_generated_unix_seconds) =? 0) (field "generated_unix_seconds");
  _ ← refuse (MAX_CLIENTS <? len self.(fb_clients)) (field "clients");
  _ ← refuse ((MAX_RESOURCES <? len self.(fb_resources)) || (MAX_RESOURCES <? len self.(fb_traffic_controls)))
        (field "resources");
  clients ← validate_clients ∅ self.(fb_clients);
  resources ← validate_resources clients ∅ self.(fb_resources);
  validate_controls resources ∅ self.(fb_traffic_controls).

(** [sort_by_key] on identifiers; [sort] on strings compares scalar values, whose order
    UTF-8 preserves. *)
Definition sort_by_key {A} (key : A → Z) (l : list A) : list A := merge_sort (λ a b, Is_true (key a <=? key b)) l.
Definition sort_strings (l : list rstr) : list rstr := merge_sort (λ a b, Is_true (lex_le a b)) l.

(** The loop body over the controls; the [expect]s panic on values that do not parse. *)
Definition canonical_control (c : FleetTrafficControl) : exec FleetTrafficControl :=
  allowed ← expect (normalized_cidrs c.(ft_allowed_cidrs));
  denied ← expect (normalized_cidrs c.(ft_denied_cidrs));
  Done {| ft_resource_id := c.(ft_resource_id); ft_enabled := c.(ft_enabled);
          ft_allowed_cidrs := sort_strings allowed; ft_denied_cidrs := sort_strings denied;
          ft_max_connections_per_minute := c.(ft_max_connections_per_minute);
          ft_daily_quota_bytes := c.(ft_daily_quota_bytes);
          ft_active_weekdays_utc := merge_sort Z.le c.(ft_active_weekdays_utc);
          ft_start_minute_utc := c.(ft_start_minute_utc); ft_end_minute_utc := c.(ft_end_minute_utc) |}.

Fixpoint canonical_controls (l : list FleetTrafficControl) : exec (list FleetTrafficControl) :=
  match l with
  | [] => Done []
  | c :: l => c ← canonical_control c; l ← canonical_controls l; Done (c :: l)
  end.

Definition canonical_content (self : FleetBundleV2) : exec CanonicalFleetContent :=
  controls ← canonical_controls self.(fb_traffic_controls);
  Done {| cc_schema_version := self.(fb_schema_version); cc_source_instance_id := self.(fb_source_instance_id);
          cc_generation := self.(fb_generation); cc_generated_unix_seconds := self.(fb_generated_unix_seconds);
          cc_clients := sort_by_key cl_agent_instance_id self.(fb_clients);
          cc_resources := sort_by_key fr_resource_id self.(fb_resources);
          cc_traffic_controls := sort_by_key ft_resource_id controls |}.

(** What the code uses of [serde_json] and [sha2]. *)
Class FleetCodec := {
  content_to_vec : CanonicalFleetContent → option (list Z);
  bundle_to_vec : FleetBundleV2 → option (list Z);
  wire_from_slice : list Z → option FleetBundleV2;
  fleet_sha256 : list Z → list Z;
}.

Section bundle.
Context {C : FleetCodec}.

(** [format!("{:x}", digest)] prints like [encode_hex]. *)
Definition calculate_content_sha256 (self : FleetBundleV2) : exec (checked rstr) :=
  content ← canonical_content self;
  Done match content_to_vec content with
       | Some encoded => Ok (encode_hex (fleet_sha256 encoded))
       | None => Err CanonicalSerialization
       end.

Definition revision_of (digest : rstr) : rstr := lit "sha256:" ++ digest.

Definition validate_bundle (self : FleetBundleV2) : exec (checked unit) :=
  match validate_structure self with
  | Err e => Done (Err e)
  | Ok _ =>
      if negb (valid_sha256 self.(fb_content_sha256)) then Done (Err InvalidContentSha256)
      else
        digest ← calculate_content_sha256 self;
        Done match digest with
             | Err e => Err e
             | Ok expected =>
                 if negb (bool_decide (self.(fb_content_sha256) = expected)) then Err ContentSha256Mismatch
                 else refuse (negb (bool_decide (self.(fb_revision) = revision_of expected))) RevisionMismatch
             end
  end.

Definition with_integrity (self : FleetBundleV2) (content_sha256 revision : rstr) : FleetBundleV2 :=
  {| fb_schema_version := self.(fb_schema_version); fb_source_instance_id := self.(fb_source_instance_id);
     fb_generation := self.(fb_generation); fb_generated_unix_seconds := self.(fb_generated_unix_seconds);
     fb_clients := self.(fb_clients); fb_resources := self.(fb_resources);
     fb_traffic_controls := self.(fb_traffic_controls); fb_content_sha256 := content_sha256;
     fb_revision := revision |}.

Definition refresh_integrity (self : FleetBundleV2) : exec (checked FleetBundleV2) :=
  match validate_structure self with
  | Err e => Done (Err e)
  | Ok _ =>
      digest ← calculate_content_sha256 self;
      Done (digest ← digest; Ok (with_integrity self digest (revision_of digest)))
  end.

Definition bundle_new (source_instance_id generation generated_unix_seconds : Z) (clients : list FleetClientRef)
    (resources : list FleetResource) (controls : list FleetTrafficControl) : exec (checked FleetBundleV2) :=
  let bundle := {| fb_schema_version := FLEET_BUNDLE_SCHEMA_VERSION; fb_source_instance_id := source_instance_id;
                   fb_generation := generation; fb_generated_unix_seconds := generated_unix_seconds;
                   fb_clients := clients; fb_resources := resources; fb_traffic_controls := controls;
                   fb_content_sha256 := []; fb_revision := [] |} in
  match validate_structure bundle with
  | Err e => Done (Err e)
  | Ok _ =>
      bundle ← refresh_integrity bundle;
      match bundle with
      | Err e => Done (Err e)
      | Ok bundle => r ← validate_bundle bundle; Done (_ ← r; Ok bundle)
      end
  end.

(** The canonical bundle that [to_canonical_json] serialises. *)
Definition canonical_bundle (self : FleetBundleV2) : exec FleetBundleV2 :=
  content ← canonical_content self;
  Done {| fb_schema_version := content.(cc_schema_version); fb_source_instance_id := content.(cc_source_instance_id);
          fb_generation := content.(cc_generation); fb_generated_unix_seconds := content.(cc_generated_unix_seconds);
          fb_clients := content.(cc_clients); fb_resources := content.(cc_resources);
          fb_traffic_controls := content.(cc_traffic_controls);
          fb_content_sha256 := self.(fb_content_sha256); fb_revision := self.(fb_revision) |}.

Definition to_canonical_json (self : FleetBundleV2) : exec (checked (list Z)) :=
  r ← validate_bundle self;
  match r with
  | Err e => Done (Err e)
  | Ok _ =>
      canonical ← canonical_bundle self;
      Done (ok_or (bundle_to_vec canonical) CanonicalSerialization)
  end.

(** [Deserialize for FleetBundleV2]: the fields, then the validation. *)
Definition bundle_from_slice (encoded : list Z) : exec (option (checked FleetBundleV2)) :=
  match wire_from_slice encoded with
  | None => Done None
  | Some bundle => r ← validate_bundle bundle; Done (Some (_ ← r; Ok bundle))
  end.
End bundle.

(** ** Traffic controls on their way in and out
    ([policy_service_postgres_resources.rs]) *)

Definition desired_control (control : FleetTrafficControl) : result TrafficError UpsertTrafficControl :=
  normalized_settings
    {| allowed_cidrs := control.(ft_allowed_cidrs); denied_cidrs := control.(ft_denied_cidrs);
       max_connections_per_minute := control.(ft_max_connections_per_minute);
       daily_quota_bytes := control.(ft_daily_quota_bytes);
       active_weekdays_utc := control.(ft_active_weekdays_utc);
       start_minute_utc := control.(ft_start_minute_utc); end_minute_utc := control.(ft_end_minute_utc);
       enabled := control.(ft_enabled) |}.

Definition export_control (id : Z) (settings : UpsertTrafficControl) : FleetTrafficControl :=
  {| ft_resource_id := id; ft_enabled := settings.(enabled); ft_allowed_cidrs := settings.(allowed_cidrs);
     ft_denied_cidrs := settings.(denied_cidrs);
     ft_max_connections_per_minute := settings.(max_connections_per_minute);
     ft_daily_quota_bytes := settings.(daily_quota_bytes);
     ft_active_weekdays_utc := settings.(active_weekdays_utc);
     ft_start_minute_utc := settings.(start_minute_utc); ft_end_minute_utc := settings.(end_minute_utc) |}.

(** ** Field checks *)

(** The names of the transports are parsed back, and nothing else is parsed. *)
Lemma transport_parse_iff value t : transport_parse value = Ok t ↔ value = transport_as_str t.
Proof.
  unfold transport_parse; split; [by repeat case_bool_decide; intros [= <-] |].
  by intros ->; destruct t.
Qed.

Lemma refuse_Ok b e u : refuse b e = Ok u → b = false.
Proof. by destruct b. Qed.
Lemma refuse_iff b e : refuse b e = Ok tt ↔ b = false.
Proof. by destruct b. Qed.

Lemma sort_by_key_perm {A} (key : A → Z) l : sort_by_key key l ≡ₚ l.
Proof. apply merge_sort_Permutation. Qed.

Lemma sort_by_key_sorted {A} (key : A → Z) l :
  StronglySorted (λ a b, Is_true (key a <=? key b)) (sort_by_key key l).
Proof.
  apply StronglySorted_merge_sort.
  - intros a b c. rewrite !Is_true_true, !Z.leb_le. lia.
  - intros a b. rewrite !Is_true_true, !Z.leb_le. lia.
Qed.

(** With distinct keys the order of the input does not matter. *)
Lemma sort_by_key_ext {A} (key : A → Z) l l' :
  NoDup (key <$> l) → l ≡ₚ l' → sort_by_key key l = sort_by_key key l'.
Proof.
  intros Hn Hp. apply (StronglySorted_unique_strong (λ a b, Is_true (key a <=? key b)));
    [|apply sort_by_key_sorted..|by rewrite !sort_by_key_perm].
  intros a b Ha Hb. rewrite !Is_true_true, !Z.leb_le. intros H1 H2.
  rewrite sort_by_key_perm in Ha. rewrite sort_by_key_perm, <- Hp in Hb.
  apply list_elem_of_lookup in Ha as [i Hi]. apply list_elem_of_lookup in Hb as [j Hj].
  enough (i = j) as -> by congruence. apply (NoDup_lookup _ _ _ (key a) Hn); rewrite list_lookup_fmap.
  - by rewrite Hi.
  - rewrite Hj. cbn. f_equal. lia.
Qed.

Lemma sort_strings_perm l : sort_strings l ≡ₚ l.
Proof. apply merge_sort_Permutation. Qed.

Lemma sort_strings_ext l l' : l ≡ₚ l' → sort_strings l = sort_strings l'.
Proof.
  assert (Hs : ∀ l, StronglySorted (λ a b, Is_true (lex_le a b)) (sort_strings l)).
  { intros k. apply StronglySorted_merge_sort.
    - intros a b c. rewrite !Is_true_true. apply lex_le_trans.
    - intros a b. rewrite !Is_true_true. apply lex_le_total. }
  intros Hp. apply (StronglySorted_unique_strong (λ a b, Is_true (lex_le a b)));
    [|done|done|by rewrite !sort_strings_perm].
  intros a b _ _. rewrite !Is_true_true. apply lex_le_antisym.
Qed.

Lemma sort_days_ext (l l' : list Z) : l ≡ₚ l' → merge_sort Z.le l = merge_sort Z.le l'.
Proof.
  intros Hp. apply (StronglySorted_unique Z.le); [apply StronglySorted_merge_sort; apply _..|].
  by rewrite !merge_sort_Permutation.
Qed.

Lemma has_duplicates_after_NoDup {A} `{EqDecision A} (seen l : list A) :
  has_duplicates_after seen l = false ↔ NoDup l ∧ ∀ x, x ∈ l → x ∉ seen.
Proof.
  revert seen. induction l as [|x l IH]; intros seen; cbn.
  - split; [|done]. intros _. split; [constructor|]. intros x Hx. by apply not_elem_of_nil in Hx.
  - rewrite orb_false_iff, bool_decide_eq_false, IH, NoDup_cons. set_solver.
Qed.

Lemma has_duplicates_NoDup {A} `{EqDecision A} (l : list A) : has_duplicates l = false ↔ NoDup l.
Proof. unfold has_duplicates. rewrite has_duplicates_after_NoDup. set_solver. Qed.

Lemma any_false_elem {A} (p : A → bool) l : any p l = false ↔ ∀ x, x ∈ l → p x = false.
Proof. by rewrite any_false_Forall, Forall_forall. Qed.

(** ** Structure *)

Definition client_valid (c : FleetClientRef) : Prop :=
  c.(cl_agent_instance_id) ≠ 0 ∧ valid_name c.(cl_name) MAX_NAME_BYTES = true ∧
  ∀ k, c.(cl_agent_identity_public_key) = Some k → valid_hex k 32 = true.

Definition resource_valid (clients : list Z) (r : FleetResource) : Prop :=
  r.(fr_resource_id) ≠ 0 ∧ validate_spec r.(fr_spec) = Ok tt ∧
  ∀ id, id ∈ referenced_clients r.(fr_spec) → id ∈ clients.

Definition control_valid (resources : list Z) (c : FleetTrafficControl) : Prop :=
  c.(ft_resource_id) ≠ 0 ∧ c.(ft_resource_id) ∈ resources ∧ validate_control c = Ok tt.

(** What a well-formed bundle is: distinct identifiers, every reference resolves. *)
Record structure_ok (b : FleetBundleV2) : Prop := {
  so_version : b.(fb_schema_version) = FLEET_BUNDLE_SCHEMA_VERSION;
  so_source : b.(fb_source_instance_id) ≠ 0;
  so_generation : b.(fb_generation) ≠ 0;
  so_generated : b.(fb_generated_unix_seconds) ≠ 0;
  so_lens : len b.(fb_clients) ≤ MAX_CLIENTS ∧ len b.(fb_resources) ≤ MAX_RESOURCES ∧
            len b.(fb_traffic_controls) ≤ MAX_RESOURCES;
  so_clients : Forall client_valid b.(fb_clients) ∧ NoDup (cl_agent_instance_id <$> b.(fb_clients));
  so_resources : Forall (resource_valid (cl_agent_instance_id <$> b.(fb_clients))) b.(fb_resources) ∧
                 NoDup (fr_resource_id <$> b.(fb_resources));
  so_controls : Forall (control_valid (fr_resource_id <$> b.(fb_resources))) b.(fb_traffic_controls) ∧
                NoDup (ft_resource_id <$> b.(fb_traffic_controls));
}.

Lemma refuse_bind {A} b e (k : checked A) s : (_ ← refuse b e; k) = Ok s ↔ b = false ∧ k = Ok s.
Proof. destruct b; cbn; naive_solver. Qed.
Lemma unit_bind {A} (m : checked unit) (k : checked A) s : (_ ← m; k) = Ok s ↔ m = Ok tt ∧ k = Ok s.
Proof. destruct m as [[]|]; cbn; naive_solver. Qed.

(** A chain of refusals as a conjunction. *)
Ltac refusals :=
  repeat first [rewrite refuse_bind | rewrite unit_bind | rewrite refuse_iff | rewrite orb_false_iff
               | rewrite negb_false_iff | rewrite Z.eqb_neq | rewrite Z.eqb_eq | rewrite Z.ltb_ge
               | rewrite bool_decide_eq_false | rewrite bool_decide_eq_true].

Lemma known_clients_iff clients ids : known_clients clients ids = Ok tt ↔ ∀ id, id ∈ ids → id ∈ clients.
Proof.
  induction ids as [|id ids IH]; cbn [known_clients].
  - split; [|done]. intros _ id Hid. by apply not_elem_of_nil in Hid.
  - refusals. rewrite IH. set_solver.
Qed.

Lemma client_key_iff (k : option rstr) :
  match k with Some value => negb (valid_hex value 32) | None => false end = false ↔
  ∀ value, k = Some value → valid_hex value 32 = true.
Proof. destruct k as [v|]; [rewrite negb_false_iff|]; naive_solver. Qed.

(** The set a loop returns, and what it means that no identifier was seen twice. *)
Definition seen_after (seen : gset Z) (ids : list Z) : gset Z := list_to_set ids ∪ seen.
Definition unseen (seen : gset Z) (ids : list Z) : Prop := NoDup ids ∧ ∀ id, id ∈ ids → id ∉ seen.

Lemma seen_after_nil seen : seen_after seen [] = seen.
Proof. unfold seen_after. set_solver. Qed.
Lemma seen_after_cons seen id ids : seen_after ({[ id ]} ∪ seen) ids = seen_after seen (id :: ids).
Proof. unfold seen_after. set_solver. Qed.
Lemma unseen_nil seen : unseen seen [].
Proof. split; [constructor|]. intros id Hid. by apply not_elem_of_nil in Hid. Qed.
Lemma unseen_cons seen id ids : unseen seen (id :: ids) ↔ id ∉ seen ∧ unseen ({[ id ]} ∪ seen) ids.
Proof. unfold unseen. rewrite NoDup_cons. set_solver. Qed.

Lemma validate_clients_iff clients seen s :
  validate_clients seen clients = Ok s ↔
  Forall client_valid clients ∧ unseen seen (cl_agent_instance_id <$> clients) ∧
  s = seen_after seen (cl_agent_instance_id <$> clients).
Proof.
  revert seen. induction clients as [|c clients IH]; intros seen; cbn [validate_clients fmap list_fmap].
  - rewrite seen_after_nil. pose proof (unseen_nil seen). naive_solver.
  - refusals. rewrite client_key_iff, IH, Forall_cons, unseen_cons, seen_after_cons. unfold client_valid. naive_solver.
Qed.

Lemma validate_resources_iff clients resources seen s :
  validate_resources clients seen resources = Ok s ↔
  Forall (λ r, r.(fr_resource_id) ≠ 0 ∧ validate_spec r.(fr_spec) = Ok tt ∧
               ∀ id, id ∈ referenced_clients r.(fr_spec) → id ∈ clients) resources ∧
  unseen seen (fr_resource_id <$> resources) ∧ s = seen_after seen (fr_resource_id <$> resources).
Proof.
  revert seen. induction resources as [|r resources IH]; intros seen; cbn [validate_resources fmap list_fmap].
  - rewrite seen_after_nil. pose proof (unseen_nil seen). naive_solver.
  - refusals. rewrite known_clients_iff, IH, Forall_cons, unseen_cons, seen_after_cons. tauto.
Qed.

Lemma validate_controls_iff resources controls seen :
  validate_controls resources seen controls = Ok tt ↔
  Forall (λ c, c.(ft_resource_id) ≠ 0 ∧ c.(ft_resource_id) ∈ resources ∧ validate_control c = Ok tt) controls ∧
  unseen seen (ft_resource_id <$> controls).
Proof.
  revert seen. induction controls as [|c controls IH]; intros seen; cbn [validate_controls fmap list_fmap].
  - pose proof (unseen_nil seen). naive_solver.
  - refusals. rewrite IH, Forall_cons, unseen_cons. tauto.
Qed.

Lemma unseen_empty ids : unseen ∅ ids ↔ NoDup ids.
Proof. unfold unseen. set_solver. Qed.
Lemma elem_of_seen_after id ids : id ∈ seen_after ∅ ids ↔ id ∈ ids.
Proof. unfold seen_after. set_solver. Qed.

Lemma structure_iff b : validate_structure b = Ok tt ↔ structure_ok b.
Proof.
  unfold validate_structure. refusals. split.
  - intros (? & ? & ? & ? & ? & [? ?] & Hk). bind_inv Hk. bind_inv Hk.
    apply validate_clients_iff in E as (? & Hc%unseen_empty & ->).
    apply validate_resources_iff in E0 as (Hr & Hn%unseen_empty & ->).
    apply validate_controls_iff in Hk as (Ht & Htn%unseen_empty).
    split; try done; split; try done; (eapply Forall_impl; [eassumption|]).
    + intros r (? & ? & Hi). split_and!; try done. intros id Hid. by apply elem_of_seen_after, Hi.
    + intros c (? & ?%elem_of_seen_after & ?). by split_and!.
  - intros [? ? ? ? (? & ? & ?) [? ?] [Hr ?] [Ht ?]]. split_and!; try done.
    rewrite (proj2 (validate_clients_iff _ ∅ (seen_after ∅ (cl_agent_instance_id <$> b.(fb_clients)))));
      [|by split_and!; [|apply unseen_empty|]]. cbn [mbind result_bind].
    rewrite (proj2 (validate_resources_iff _ _ ∅ (seen_after ∅ (fr_resource_id <$> b.(fb_resources)))));
      cbn [mbind result_bind].
    2:{ split_and!; [|by apply unseen_empty|done]. eapply Forall_impl; [exact Hr|].
        intros r (? & ? & Hi). split_and!; try done. intros id Hid. by apply elem_of_seen_after, Hi. }
    apply validate_controls_iff. split; [|by apply unseen_empty]. eapply Forall_impl; [exact Ht|].
    intros c (? & ? & ?). split_and!; try done. by apply elem_of_seen_after.
Qed.

(** ** CIDR blocks *)

Definition network_cidr (c : Cidr) : Cidr :=
  {| cidr_address := network_of c.(cidr_address) c.(cidr_prefix); cidr_prefix := c.(cidr_prefix) |}.

Lemma network_bits a p : ip_bits (network_of a p) = ip_bits a.
Proof. by destruct a. Qed.

Lemma masked_bound w p a : 0 ≤ p ≤ w → 0 ≤ a < 2 ^ w → 0 ≤ Z.land a (prefix_mask w p) < 2 ^ w.
Proof.
  intros Hp Ha. rewrite land_prefix_mask by done. assert (0 < 2 ^ (w - p)) by (apply Z.pow_pos_nonneg; lia).
  pose proof (Z.div_mod a (2 ^ (w - p)) ltac:(lia)). pose proof (Z.mod_pos_bound a (2 ^ (w - p)) ltac:(lia)).
  assert (0 ≤ a / 2 ^ (w - p)) by (apply Z.div_pos; lia). nia.
Qed.

Lemma network_ok c : cidr_ok c → cidr_ok (network_cidr c).
Proof.
  intros [Ha Hp]. split; [|cbn; by rewrite network_bits]. destruct c as [[a|a] p]; cbn in *.
  - pose proof (masked_bound 32 p a). lia.
  - pose proof (masked_bound 128 p a). lia.
Qed.

Lemma network_idemp a p : network_of (network_of a p) p = network_of a p.
Proof. destruct a; cbn; by rewrite <- Z.land_assoc, Z.land_diag. Qed.

Lemma cidr_contains_network c source : cidr_contains (network_cidr c) source = cidr_contains c source.
Proof. destruct c as [[a|a] p], source; cbn; try done; by rewrite <- Z.land_assoc, Z.land_diag. Qed.

Lemma str_len_nil s : str_len s = 0 → s = [].
Proof.
  destruct s as [|c s]; [done|]. unfold str_len, as_bytes. cbn [mbind list_bind]. rewrite len_app.
  assert (0 < len (encode_utf8 c)) by (unfold encode_utf8; repeat case_match; reflexivity).
  pose proof (len_nonneg (s ≫= encode_utf8)). lia.
Qed.

(** What [normalize_cidr] accepts is what the traffic control parses. *)
Lemma normalize_cidr_iff value text :
  normalize_cidr value = Some text ↔
  value = trim value ∧ value ≠ [] ∧ ∃ c, parse_cidr value = Ok c ∧ text = cidr_normalized (network_cidr c).
Proof.
  unfold normalize_cidr. case_bool_decide as Ht; cbn [negb orb]; [|naive_solver].
  destruct (Z.eqb_spec (str_len value) 0) as [Hz|Hz].
  { split; [done|]. intros (_ & Hn & _). exfalso. apply Hn. by apply str_len_nil. }
  assert (Hn : value ≠ []) by (intros ->; done). unfold parse_cidr. rewrite <- Ht.
  assert (Hno : ∀ e, None = Some text ↔ value = value ∧ value ≠ [] ∧
    ∃ c, @Err TrafficError Cidr e = Ok c ∧ text = cidr_normalized (network_cidr c)).
  { intros e. split; [done|]. by intros (_ & _ & c & ? & _). }
  assert (Hyes : ∀ c, Some (cidr_normalized (network_cidr c)) = Some text ↔ value = value ∧ value ≠ [] ∧
    ∃ c', @Ok TrafficError Cidr c = Ok c' ∧ text = cidr_normalized (network_cidr c')).
  { intros c. split; [intros [= <-]; split_and!; [done|done|]; by exists c|]. intros (_ & _ & c' & E & ->). congruence. }
  destruct (split_once ch_slash value) as [[address prefix]|].
  - destruct (parse_ip address) as [a|]; [|apply Hno]. cbn [mbind option_bind ok_or result_bind].
    destruct (parse_uint U8_MAX prefix) as [p|]; [|apply Hno]. cbn [mbind option_bind ok_or result_bind].
    unfold check. destruct (p <=? ip_bits a); [|apply Hno]. apply (Hyes {| cidr_address := a; cidr_prefix := p |}).
  - destruct (parse_ip value) as [a|]; [|apply Hno]. cbn [mbind option_bind ok_or result_bind]. rewrite Z.leb_refl.
    apply (Hyes {| cidr_address := a; cidr_prefix := ip_bits a |}).
Qed.

Lemma cidr_normalized_text c : cidr_ok c → no_ws (cidr_normalized c) ∧ cidr_normalized c ≠ [].
Proof.
  intros [_ Hp]. unfold cidr_normalized. split; [|by destruct (print_ip (cidr_address c))].
  pose proof (print_ip_chars (cidr_address c)) as Ha. pose proof (to_string_chars c.(cidr_prefix) ltac:(lia)) as Hc.
  unfold no_ws. rewrite !Forall_app. split_and!; [|by repeat constructor|];
    (eapply Forall_impl; [eassumption|]; by intros d [_ ?]).
Qed.

Lemma normalize_cidr_idemp value text : normalize_cidr value = Some text → normalize_cidr text = Some text.
Proof.
  intros (_ & _ & c & Hc & ->)%normalize_cidr_iff. apply parse_cidr_ok, network_ok in Hc.
  destruct (cidr_normalized_text _ Hc) as [Hws Hne]. apply normalize_cidr_iff. split_and!; [by rewrite trim_no_ws|done|].
  exists (network_cidr c). split; [by apply parse_cidr_normalized|]. f_equal. unfold network_cidr. cbn. by rewrite network_idemp.
Qed.

Lemma normalize_cidr_matches value text source :
  normalize_cidr value = Some text → cidr_matches text source = cidr_matches value source.
Proof.
  intros (_ & _ & c & Hc & ->)%normalize_cidr_iff. unfold cidr_matches. rewrite Hc.
  rewrite parse_cidr_normalized by (by apply network_ok, (parse_cidr_ok value)). apply cidr_contains_network.
Qed.

Lemma normalized_cidrs_iff l k : normalized_cidrs l = Some k ↔ Forall2 (λ v w, normalize_cidr v = Some w) l k.
Proof. apply mapM_Some. Qed.

Lemma normalized_cidrs_fixed l : Forall (λ w, normalize_cidr w = Some w) l → normalized_cidrs l = Some l.
Proof. intros H. apply normalized_cidrs_iff. induction H; by constructor. Qed.

Lemma normalized_cidrs_idemp l k : normalized_cidrs l = Some k → Forall (λ w, normalize_cidr w = Some w) k.
Proof. intros H%normalized_cidrs_iff. induction H; constructor; [by eapply normalize_cidr_idemp|done]. Qed.

Lemma Forall_perm {A} (P : A → Prop) l l' : l ≡ₚ l' → Forall P l → Forall P l'.
Proof. by intros ->. Qed.

(** ** Controls *)

Definition rate_ok (o : option Z) : Prop := ∀ v, o = Some v → 1 ≤ v ≤ 1000000.
Definition quota_ok (o : option Z) : Prop := ∀ v, o = Some v → 1024 ≤ v.
Definition minutes_ok (s e : option Z) : Prop :=
  is_some s = is_some e ∧ (∀ v, s = Some v → v < 1440) ∧ ∀ v, e = Some v → v < 1440.

Record control_spec (c : FleetTrafficControl) (allowed denied : list rstr) : Prop := {
  cs_lens : len c.(ft_allowed_cidrs) ≤ 64 ∧ len c.(ft_denied_cidrs) ≤ 64;
  cs_allowed : normalized_cidrs c.(ft_allowed_cidrs) = Some allowed;
  cs_denied : normalized_cidrs c.(ft_denied_cidrs) = Some denied;
  cs_distinct : NoDup allowed ∧ NoDup denied ∧ ∀ cidr, cidr ∈ allowed → cidr ∉ denied;
  cs_rate : rate_ok c.(ft_max_connections_per_minute);
  cs_quota : quota_ok c.(ft_daily_quota_bytes);
  cs_days : (∀ d, d ∈ c.(ft_active_weekdays_utc) → d ≤ 6) ∧ NoDup c.(ft_active_weekdays_utc);
  cs_minutes : minutes_ok c.(ft_start_minute_utc) c.(ft_end_minute_utc);
}.

Lemma control_iff c : validate_control c = Ok tt ↔ ∃ allowed denied, control_spec c allowed denied.
Proof.
  unfold validate_control. refusals.
  destruct (normalized_cidrs c.(ft_allowed_cidrs)) as [allowed|] eqn:Ea; cbn [ok_or mbind result_bind].
  2:{ split; [by intros [_ ?]|]. intros (a & d & [_ ? _ _ _ _ _ _]). congruence. }
  destruct (normalized_cidrs c.(ft_denied_cidrs)) as [denied|] eqn:Ed; cbn [ok_or mbind result_bind].
  2:{ split; [by intros [_ ?]|]. intros (a & d & [_ _ ? _ _ _ _ _]). congruence. }
  refusals. rewrite !has_duplicates_NoDup, !any_false_elem.
  assert (Hr : match c.(ft_max_connections_per_minute) with
               | Some v => negb ((1 <=? v) && (v <=? 1000000)) | None => false end = false ↔
               rate_ok c.(ft_max_connections_per_minute)).
  { unfold rate_ok. destruct (ft_max_connections_per_minute c) as [v|]; [|naive_solver].
    rewrite negb_false_iff, andb_true_iff, !Z.leb_le. naive_solver. }
  assert (Hq : match c.(ft_daily_quota_bytes) with Some v => v <? 1024 | None => false end = false ↔
               quota_ok c.(ft_daily_quota_bytes)).
  { unfold quota_ok. destruct (ft_daily_quota_bytes c) as [v|]; [rewrite Z.ltb_ge|]; naive_solver. }
  assert (Hm : ∀ o : option Z, match o with Some v => 1440 <=? v | None => false end = false ↔ ∀ v, o = Some v → v < 1440).
  { intros [v|]; [rewrite Z.leb_gt|]; naive_solver. }
  rewrite Hr, Hq, !Hm, eqb_true_iff. split.
  - intros ([? ?] & [[? ?] Hd] & ? & ? & [Hw ?] & [[? ?] ?]). exists allowed, denied. split; try done.
    + split_and!; try done. intros x Hx. specialize (Hd x Hx). by apply bool_decide_eq_false in Hd.
    + split; [|done]. intros d Hd'. specialize (Hw d Hd'). lia.
  - intros (a & d & [[? ?] Ha' Hd' (? & ? & Hd) ? ? [Hw ?] (? & ? & ?)]). simplify_eq. split_and!; try done.
    + intros x Hx. apply bool_decide_eq_false. by apply Hd.
    + intros d' Hd'. specialize (Hw d' Hd'). lia.
Qed.

Lemma canonical_control_Done c c' :
  canonical_control c = Done c' ↔ ∃ allowed denied,
    normalized_cidrs c.(ft_allowed_cidrs) = Some allowed ∧ normalized_cidrs c.(ft_denied_cidrs) = Some denied ∧
    c' = {| ft_resource_id := c.(ft_resource_id); ft_enabled := c.(ft_enabled);
            ft_allowed_cidrs := sort_strings allowed; ft_denied_cidrs := sort_strings denied;
            ft_max_connections_per_minute := c.(ft_max_connections_per_minute);
            ft_daily_quota_bytes := c.(ft_daily_quota_bytes);
            ft_active_weekdays_utc := merge_sort Z.le c.(ft_active_weekdays_utc);
            ft_start_minute_utc := c.(ft_start_minute_utc); ft_end_minute_utc := c.(ft_end_minute_utc) |}.
Proof.
  unfold canonical_control. destruct (normalized_cidrs c.(ft_allowed_cidrs)) as [a|]; cbn.
  2:{ split; [done|]. by intros (a & d & ? & _). }
  destruct (normalized_cidrs c.(ft_denied_cidrs)) as [d|]; cbn.
  - split; [intros [= <-]; by exists a, d|]. by intros (a' & d' & [= <-] & [= <-] & ->).
  - split; [done|]. by intros (a' & d' & _ & ? & _).
Qed.

Lemma canonical_control_id c c' : canonical_control c = Done c' → c'.(ft_resource_id) = c.(ft_resource_id).
Proof. by intros (a & d & _ & _ & ->)%canonical_control_Done. Qed.

Lemma sorted_cidrs_fixed l k : normalized_cidrs l = Some k → normalized_cidrs (sort_strings k) = Some (sort_strings k).
Proof. intros H. apply normalized_cidrs_fixed. eapply Forall_perm; [by rewrite sort_strings_perm|]. by eapply normalized_cidrs_idemp. Qed.

(** The canonical form of a valid control is valid and its own canonical form. *)
Lemma canonical_control_valid c :
  validate_control c = Ok tt →
  ∃ c', canonical_control c = Done c' ∧ validate_control c' = Ok tt ∧ canonical_control c' = Done c'.
Proof.
  intros (a & d & [[Hla Hld] Ha Hd (Hna & Hnd & Hdis) Hr Hq [Hw Hwn] Hm])%control_iff.
  eexists. split; [apply canonical_control_Done; by exists a, d|]. split.
  - apply control_iff. exists (sort_strings a), (sort_strings d).
    pose proof (Forall2_length _ _ _ (proj1 (normalized_cidrs_iff _ _) Ha)).
    pose proof (Forall2_length _ _ _ (proj1 (normalized_cidrs_iff _ _) Hd)).
    split; cbn; try done.
    + unfold len in *. rewrite !sort_strings_perm. lia.
    + by eapply sorted_cidrs_fixed.
    + by eapply sorted_cidrs_fixed.
    + rewrite !sort_strings_perm. split_and!; [done|done|]. intros x. rewrite !sort_strings_perm. apply Hdis.
    + rewrite merge_sort_Permutation. split; [|done]. intros x. rewrite merge_sort_Permutation. apply Hw.
  - apply canonical_control_Done. exists (sort_strings a), (sort_strings d). cbn.
    split_and!; [by eapply sorted_cidrs_fixed..|]. f_equal.
    + apply sort_strings_ext. by rewrite sort_strings_perm.
    + apply sort_strings_ext. by rewrite sort_strings_perm.
    + apply sort_days_ext. by rewrite merge_sort_Permutation.
Qed.

Lemma canonical_controls_Done l k :
  canonical_controls l = Done k ↔ Forall2 (λ c c', canonical_control c = Done c') l k.
Proof.
  revert k. induction l as [|c l IH]; intros k; cbn [canonical_controls].
  { split; [intros [= <-]; constructor|]. by inversion 1. }
  destruct (canonical_control c) as [c'|] eqn:E; cbn [mbind exec_bind].
  2:{ split; [done|]. inversion 1. congruence. }
  destruct (canonical_controls l) as [k'|]; cbn [mbind exec_bind].
  - split.
    + intros [= <-]. constructor; [done|]. by apply IH.
    + inversion 1 as [|? x ? y Hx Hy]; subst. apply IH in Hy. congruence.
  - split; [done|]. inversion 1 as [|? x ? y Hx Hy]; subst. by apply IH in Hy.
Qed.

Lemma canonical_controls_ids l k :
  Forall2 (λ c c', canonical_control c = Done c') l k → ft_resource_id <$> k = ft_resource_id <$> l.
Proof. induction 1 as [|c c' l k Hc _ IH]; [done|]. cbn. rewrite IH. f_equal. by apply canonical_control_id. Qed.

(** ** The canonical content *)

(** Controls that differ in the order of their lists, and in the spelling of blocks. *)
Record control_equiv (c c' : FleetTrafficControl) : Prop := {
  ce_id : c.(ft_resource_id) = c'.(ft_resource_id);
  ce_enabled : c.(ft_enabled) = c'.(ft_enabled);
  ce_rate : c.(ft_max_connections_per_minute) = c'.(ft_max_connections_per_minute);
  ce_quota : c.(ft_daily_quota_bytes) = c'.(ft_daily_quota_bytes);
  ce_minutes : c.(ft_start_minute_utc) = c'.(ft_start_minute_utc) ∧ c.(ft_end_minute_utc) = c'.(ft_end_minute_utc);
  ce_days : c.(ft_active_weekdays_utc) ≡ₚ c'.(ft_active_weekdays_utc);
  ce_allowed : ∀ a, normalized_cidrs c.(ft_allowed_cidrs) = Some a →
    ∃ a', normalized_cidrs c'.(ft_allowed_cidrs) = Some a' ∧ a ≡ₚ a';
  ce_denied : ∀ a, normalized_cidrs c.(ft_denied_cidrs) = Some a →
    ∃ a', normalized_cidrs c'.(ft_denied_cidrs) = Some a' ∧ a ≡ₚ a';
}.

Lemma canonical_control_equiv c c' k :
  control_equiv c c' → canonical_control c = Done k → canonical_control c' = Done k.
Proof.
  intros [Hi He Hr Hq [Hs Hn] Hw Ha Hd] (a & d & Ea & Ed & ->)%canonical_control_Done.
  destruct (Ha a Ea) as (a' & Ea' & Pa). destruct (Hd d Ed) as (d' & Ed' & Pd).
  apply canonical_control_Done. exists a', d'. split_and!; [done|done|].
  rewrite Hi, He, Hr, Hq, Hs, Hn, (sort_strings_ext _ _ Pa), (sort_strings_ext _ _ Pd), (sort_days_ext _ _ Hw). done.
Qed.

Lemma canonical_controls_valid l :
  Forall (λ c, validate_control c = Ok tt) l →
  ∃ k, canonical_controls l = Done k ∧ Forall (λ c, validate_control c = Ok tt ∧ canonical_control c = Done c) k.
Proof.
  induction 1 as [|c l Hc _ (k & Ek & Hk)]; [by exists []|]. destruct (canonical_control_valid c Hc) as (c' & Ec & Hv & Hi).
  exists (c' :: k). cbn [canonical_controls]. rewrite Ec, Ek. split; [done|]. by constructor.
Qed.

Lemma canonical_controls_perm l l' k :
  l ≡ₚ l' → canonical_controls l = Done k → ∃ k', canonical_controls l' = Done k' ∧ k ≡ₚ k'.
Proof.
  intros Hp H%canonical_controls_Done. destruct (Permutation.Permutation_Forall2 Hp H) as (k' & Hk & Hf).
  exists k'. split; [by apply canonical_controls_Done|done].
Qed.

Lemma canonical_controls_equiv l l' k :
  Forall2 control_equiv l l' → canonical_controls l = Done k → canonical_controls l' = Done k.
Proof.
  intros He H%canonical_controls_Done. apply canonical_controls_Done. revert k H.
  induction He as [|c c' l l' Hc _ IH]; intros k H; inversion H as [|? x ? y Hx Hy]; subst; constructor; [|by apply IH].
  by eapply canonical_control_equiv.
Qed.

(** The content of a bundle with these lists. *)
Definition content_of (b : FleetBundleV2) (controls : list FleetTrafficControl) : CanonicalFleetContent :=
  {| cc_schema_version := b.(fb_schema_version); cc_source_instance_id := b.(fb_source_instance_id);
     cc_generation := b.(fb_generation); cc_generated_unix_seconds := b.(fb_generated_unix_seconds);
     cc_clients := sort_by_key cl_agent_instance_id b.(fb_clients);
     cc_resources := sort_by_key fr_resource_id b.(fb_resources);
     cc_traffic_controls := sort_by_key ft_resource_id controls |}.

Lemma canonical_content_Done b controls :
  canonical_controls b.(fb_traffic_controls) = Done controls → canonical_content b = Done (content_of b controls).
Proof. intros E. unfold canonical_content. by rewrite E. Qed.

Lemma structure_controls b : structure_ok b → Forall (λ c, validate_control c = Ok tt) b.(fb_traffic_controls).
Proof. intros [_ _ _ _ _ _ _ [H _]]. eapply Forall_impl; [exact H|]. by intros c (_ & _ & ?). Qed.

(** The [expect]s are unreachable after the structural validation. *)
Lemma canonical_content_defined b :
  structure_ok b → ∃ controls, canonical_controls b.(fb_traffic_controls) = Done controls ∧
    Forall (λ c, validate_control c = Ok tt ∧ canonical_control c = Done c) controls ∧
    canonical_content b = Done (content_of b controls).
Proof.
  intros Hs. destruct (canonical_controls_valid _ (structure_controls b Hs)) as (k & Ek & Hk).
  exists k. split_and!; [done|done|]. by apply canonical_content_Done.
Qed.

(** Bundles with the same content up to order and spelling. *)
Record bundle_equiv (b b' : FleetBundleV2) : Prop := {
  be_version : b.(fb_schema_version) = b'.(fb_schema_version);
  be_source : b.(fb_source_instance_id) = b'.(fb_source_instance_id);
  be_generation : b.(fb_generation) = b'.(fb_generation);
  be_generated : b.(fb_generated_unix_seconds) = b'.(fb_generated_unix_seconds);
  be_clients : b.(fb_clients) ≡ₚ b'.(fb_clients);
  be_resources : b.(fb_resources) ≡ₚ b'.(fb_resources);
  be_controls : ∃ l, b.(fb_traffic_controls) ≡ₚ l ∧ Forall2 control_equiv l b'.(fb_traffic_controls);
}.

Lemma canonical_content_equiv b b' :
  structure_ok b → bundle_equiv b b' →
  ∃ content, canonical_content b = Done content ∧ canonical_content b' = Done content.
Proof.
  intros Hs [E1 E2 E3 E4 Pc Pr (l & Pl & Hl)]. destruct (canonical_content_defined b Hs) as (k & Ek & _ & Eb).
  destruct (canonical_controls_perm _ _ _ Pl Ek) as (k' & Ek' & Pk).
  pose proof (canonical_controls_equiv _ _ _ Hl Ek') as Ekb.
  exists (content_of b k). split; [done|]. rewrite (canonical_content_Done _ _ Ekb). f_equal.
  destruct Hs as [_ _ _ _ _ [_ Nc] [_ Nr] [_ Nt]].
  assert (Nk : NoDup (ft_resource_id <$> k)).
  { apply canonical_controls_Done, canonical_controls_ids in Ek. by rewrite Ek. }
  unfold content_of. rewrite E1, E2, E3, E4.
  by rewrite (sort_by_key_ext _ _ _ Nc Pc), (sort_by_key_ext _ _ _ Nr Pr), (sort_by_key_ext _ _ _ Nk Pk).
Qed.

(** The bundle in canonical form. *)
Definition canonical_of (b : FleetBundleV2) (controls : list FleetTrafficControl) : FleetBundleV2 :=
  {| fb_schema_version := b.(fb_schema_version); fb_source_instance_id := b.(fb_source_instance_id);
     fb_generation := b.(fb_generation); fb_generated_unix_seconds := b.(fb_generated_unix_seconds);
     fb_clients := sort_by_key cl_agent_instance_id b.(fb_clients);
     fb_resources := sort_by_key fr_resource_id b.(fb_resources);
     fb_traffic_controls := sort_by_key ft_resource_id controls;
     fb_content_sha256 := b.(fb_content_sha256); fb_revision := b.(fb_revision) |}.

Lemma canonical_structure b controls :
  structure_ok b → canonical_controls b.(fb_traffic_controls) = Done controls →
  Forall (λ c, validate_control c = Ok tt ∧ canonical_control c = Done c) controls →
  structure_ok (canonical_of b controls).
Proof.
  intros [? ? ? ? (? & ? & ?) [Hc Nc] [Hr Nr] [Ht Nt]] Ek Hv. apply canonical_controls_Done in Ek.
  pose proof (canonical_controls_ids _ _ Ek) as Eids. pose proof (Forall2_length _ _ _ Ek) as El.
  split; cbn; try done.
  - unfold len in *. rewrite !sort_by_key_perm. lia.
  - rewrite !sort_by_key_perm. done.
  - split; [|by rewrite sort_by_key_perm]. eapply Forall_perm; [symmetry; apply sort_by_key_perm|].
    eapply Forall_impl; [exact Hr|]. intros r (? & ? & Hi). split_and!; try done.
    intros id Hid. rewrite sort_by_key_perm. by apply Hi.
  - split; [|by rewrite sort_by_key_perm, Eids]. eapply Forall_perm; [symmetry; apply sort_by_key_perm|].
    apply Forall_forall. intros c Hin.
    rewrite Forall_forall in Hv. destruct (Hv c Hin) as [? _].
    assert (Hid : c.(ft_resource_id) ∈ ft_resource_id <$> b.(fb_traffic_controls)).
    { rewrite <- Eids. apply list_elem_of_fmap. by exists c. }
    apply list_elem_of_fmap in Hid as (c0 & E0 & Hin0). rewrite Forall_forall in Ht.
    destruct (Ht c0 Hin0) as (? & ? & _). rewrite <- E0 in *. split_and!; try done. by rewrite sort_by_key_perm.
Qed.

Lemma canonical_content_idemp b controls :
  structure_ok b → canonical_controls b.(fb_traffic_controls) = Done controls →
  Forall (λ c, validate_control c = Ok tt ∧ canonical_control c = Done c) controls →
  canonical_content (canonical_of b controls) = Done (content_of b controls).
Proof.
  intros Hs Ek Hv.
  assert (Hf : canonical_controls (sort_by_key ft_resource_id controls) = Done (sort_by_key ft_resource_id controls)).
  { apply canonical_controls_Done. apply Forall_Forall2_diag. rewrite sort_by_key_perm.
    eapply Forall_impl; [exact Hv|]. by intros c [_ ?]. }
  rewrite (canonical_content_Done (canonical_of b controls) _ Hf). f_equal.
  destruct Hs as [_ _ _ _ _ [_ Nc] [_ Nr] [_ Nt]].
  apply canonical_controls_Done, canonical_controls_ids in Ek. rewrite <- Ek in Nt.
  unfold content_of, canonical_of.
  cbn [fb_schema_version fb_source_instance_id fb_generation fb_generated_unix_seconds fb_clients fb_resources].
  rewrite (sort_by_key_ext _ (sort_by_key cl_agent_instance_id _) b.(fb_clients));
    [|by rewrite sort_by_key_perm|apply sort_by_key_perm].
  rewrite (sort_by_key_ext _ (sort_by_key fr_resource_id _) b.(fb_resources));
    [|by rewrite sort_by_key_perm|apply sort_by_key_perm].
  rewrite (sort_by_key_ext _ (sort_by_key ft_resource_id _) controls);
    [|by rewrite sort_by_key_perm|apply sort_by_key_perm]. done.
Qed.

(** ** Theorems *)

Section fleet_theorems.
Context {C : FleetCodec}.

Lemma digest_defined b :
  structure_ok b → ∃ content, canonical_content b = Done content ∧
    calculate_content_sha256 b = Done match content_to_vec content with
                                      | Some encoded => Ok (encode_hex (fleet_sha256 encoded))
                                      | None => Err CanonicalSerialization
                                      end.
Proof.
  intros Hs. destruct (canonical_content_defined b Hs) as (k & _ & _ & E). eexists. split; [exact E|].
  unfold calculate_content_sha256. by rewrite E.
Qed.

Lemma validate_bundle_iff b :
  validate_bundle b = Done (Ok tt) ↔
  structure_ok b ∧ valid_sha256 b.(fb_content_sha256) = true ∧
  calculate_content_sha256 b = Done (Ok b.(fb_content_sha256)) ∧
  b.(fb_revision) = revision_of b.(fb_content_sha256).
Proof.
  unfold validate_bundle. destruct (validate_structure b) as [[]|e] eqn:Es.
  2:{ split; [done|]. intros (H%structure_iff & _). congruence. }
  apply structure_iff in Es. destruct (valid_sha256 b.(fb_content_sha256)); cbn [negb].
  2:{ split; [done|]. by intros (_ & ? & _). }
  destruct (digest_defined b Es) as (content & _ & ->). cbn [mbind exec_bind].
  destruct (content_to_vec content) as [encoded|].
  - unfold refuse. repeat case_bool_decide; cbn [negb]; naive_solver congruence.
  - split; [done|]. intros (_ & _ & ? & _). congruence.
Qed.

(** The validation of a bundle never panics and accepts exactly the well-formed
    ones: distinct identifiers, every reference to a client or a resource resolves,
    every field is valid, and hash and revision are those of the canonical content. *)
Theorem bundle_validation_exact (b : FleetBundleV2) :
  ∃ r, validate_bundle b = Done r ∧
    (r = Ok tt ↔ structure_ok b ∧ valid_sha256 b.(fb_content_sha256) = true ∧
       calculate_content_sha256 b = Done (Ok b.(fb_content_sha256)) ∧
       b.(fb_revision) = revision_of b.(fb_content_sha256)).
Proof.
  assert (Hd : ∃ r, validate_bundle b = Done r).
  { unfold validate_bundle. destruct (validate_structure b) as [[]|e] eqn:Es; [|by eexists].
    destruct (negb _); [by eexists|]. apply structure_iff in Es.
    destruct (digest_defined b Es) as (content & _ & ->). by eexists. }
  destruct Hd as [r E]. exists r. split; [done|]. rewrite <- validate_bundle_iff, E. split; [by intros ->|congruence].
Qed.

(** The revision does not depend on the order in which clients, resources,
    controls and their lists are written, nor on the spelling of address blocks. *)
Theorem revision_order_independent (b b' : FleetBundleV2) :
  validate_structure b = Ok tt → bundle_equiv b b' →
  ∃ digest, calculate_content_sha256 b = Done digest ∧ calculate_content_sha256 b' = Done digest.
Proof.
  intros Hs%structure_iff He. destruct (canonical_content_equiv b b' Hs He) as (content & E & E').
  unfold calculate_content_sha256. rewrite E, E'. by eexists.
Qed.
End fleet_theorems.

(** Reading what was written gives it back, and the hash is 32 bytes. *)
Class FleetCodecLaws (C : FleetCodec) : Prop := {
  wire_round_trip : ∀ b encoded, bundle_to_vec b = Some encoded → wire_from_slice encoded = Some b;
  content_total : ∀ content, is_Some (content_to_vec content);
  sha256_bytes : ∀ encoded, bytes_ok (fleet_sha256 encoded) ∧ len (fleet_sha256 encoded) = 32;
}.

Section fleet_laws.
Context {C : FleetCodec} {CL : FleetCodecLaws C}.

Lemma hex_char_lower d : 0 ≤ d < 16 → (is_ascii_digit (hex_char d) || ((97 <=? hex_char d) && (hex_char d <=? 102))) = true.
Proof. intros Hd. unfold hex_char, is_ascii_digit. repeat (zcase; cbn; try done; try lia). Qed.

Lemma encode_hex_valid l n : bytes_ok l → len l = n → valid_hex (encode_hex l) n = true.
Proof.
  intros Hb <-. pose proof (encode_hex_digits l Hb) as Hd. unfold valid_hex, str_len.
  rewrite as_bytes_ascii by (by apply hexdigits_ascii). apply andb_true_iff. split.
  - apply Z.eqb_eq. clear. induction l as [|b l IH]; [done|]. rewrite encode_hex_cons, !len_cons. lia.
  - clear Hd. induction Hb as [|b l Hb _ IH]; [done|]. rewrite encode_hex_cons. destruct (byte_nibbles b Hb).
    unfold all in *. cbn [forallb]. rewrite IH, !hex_char_lower by done. done.
Qed.

(** A bundle is created exactly when its structure is valid; it then passes the
    validation that its receivers perform. *)
Theorem bundle_new_valid (source generation generated : Z) (clients : list FleetClientRef)
    (resources : list FleetResource) (controls : list FleetTrafficControl) :
  ∃ r, bundle_new source generation generated clients resources controls = Done r ∧
    match r with
    | Ok b => validate_bundle b = Done (Ok tt) ∧ b.(fb_clients) = clients ∧ b.(fb_resources) = resources ∧
              b.(fb_traffic_controls) = controls ∧ b.(fb_generation) = generation
    | Err e => ∀ sha revision, validate_structure
        {| fb_schema_version := FLEET_BUNDLE_SCHEMA_VERSION; fb_source_instance_id := source;
           fb_generation := generation; fb_generated_unix_seconds := generated; fb_clients := clients;
           fb_resources := resources; fb_traffic_controls := controls; fb_content_sha256 := sha;
           fb_revision := revision |} = Err e
    end.
Proof using CL.
  unfold bundle_new. set (b0 := {| fb_schema_version := _ |}).
  destruct (validate_structure b0) as [[]|e] eqn:Es; [|exists (Err e); split; [done|]; intros; exact Es].
  unfold refresh_integrity. rewrite Es. pose proof (proj1 (structure_iff b0) Es) as Hs.
  destruct (canonical_content_defined b0 Hs) as (k & Ek & _ & Ec).
  unfold calculate_content_sha256 at 1. rewrite Ec. cbn [mbind exec_bind].
  destruct (content_total (content_of b0 k)) as [encoded Een]. rewrite Een. cbn [mbind exec_bind result_bind].
  set (digest := encode_hex (fleet_sha256 encoded)). set (b := with_integrity b0 digest (revision_of digest)).
  assert (Hv : validate_bundle b = Done (Ok tt)).
  { apply validate_bundle_iff. split_and!.
    - apply structure_iff. exact Es.
    - destruct (sha256_bytes encoded). by apply encode_hex_valid.
    - unfold calculate_content_sha256. assert (canonical_content b = Done (content_of b0 k)) as ->.
      { by rewrite (canonical_content_Done b k Ek). }
      cbn [mbind exec_bind]. by rewrite Een.
    - done. }
  rewrite Hv. cbn [mbind exec_bind result_bind]. eexists. split; [done|]. by split_and!.
Qed.

(** C39. The canonical encoding of a bundle is accepted by its receivers, is the same
    for what they decode, and so carries the same revision. *)
Theorem canonical_round_trip (b : FleetBundleV2) (encoded : list Z) :
  to_canonical_json b = Done (Ok encoded) →
  ∃ b', canonical_bundle b = Done b' ∧ bundle_from_slice encoded = Done (Some (Ok b')) ∧
    b'.(fb_revision) = b.(fb_revision) ∧ to_canonical_json b' = Done (Ok encoded).
Proof using CL.
  unfold to_canonical_json. intros E. bind_inv E. destruct r as [[]|]; [|done].
  match goal with E : validate_bundle b = _ |- _ => apply validate_bundle_iff in E as (Hs & Hsha & Hd & Hrev) end.
  destruct (canonical_content_defined b Hs) as (k & Ek & Hk & Ec).
  assert (Eb : canonical_bundle b = Done (canonical_of b k)) by (unfold canonical_bundle; by rewrite Ec).
  pose proof (canonical_content_idemp b k Hs Ek Hk) as Ec'.
  assert (Hv : validate_bundle (canonical_of b k) = Done (Ok tt)).
  { apply validate_bundle_iff. split_and!; [by apply canonical_structure|done| |done].
    unfold calculate_content_sha256 in *. rewrite Ec in Hd. by rewrite Ec'. }
  assert (Eb' : canonical_bundle (canonical_of b k) = Done (canonical_of b k)).
  { unfold canonical_bundle. by rewrite Ec'. }
  rewrite Eb in E. cbn [mbind exec_bind] in E. injection E as E.
  destruct (bundle_to_vec (canonical_of b k)) as [v|] eqn:Ev; [|done]. injection E as <-.
  exists (canonical_of b k). split_and!; [done| |done|].
  - unfold bundle_from_slice. rewrite (wire_round_trip _ _ Ev). rewrite Hv. done.
  - rewrite Hv. cbn [mbind exec_bind]. rewrite Eb'. cbn [mbind exec_bind]. by rewrite Ev.
Qed.
End fleet_laws.

(** ** Traffic controls between servers *)

Lemma normalized_accepted l k :
  normalized_cidrs l = Some k → ∃ ws, normalize_cidrs l = Ok ws.
Proof.
  intros H%normalized_cidrs_iff. unfold normalize_cidrs. induction H as [|v w l k Hv _ (ws & IH)]; [by exists []|].
  apply normalize_cidr_iff in Hv as (_ & _ & c & Hc & _). cbn [collect]. rewrite Hc. cbn [mbind result_bind]. rewrite IH.
  by eexists.
Qed.

Lemma existsb_normalized l k source :
  normalized_cidrs l = Some k →
  existsb (λ cidr, cidr_matches cidr source) (sort_strings k) = existsb (λ cidr, cidr_matches cidr source) l.
Proof.
  intros H%normalized_cidrs_iff.
  assert (existsb (λ cidr, cidr_matches cidr source) k = existsb (λ cidr, cidr_matches cidr source) l) as <-.
  { induction H as [|v w l k Hv _ IH]; [done|]. cbn. rewrite IH. f_equal. by apply normalize_cidr_matches. }
  apply eq_true_iff_eq. rewrite !existsb_exists. setoid_rewrite <- list_elem_of_In.
  split; intros (x & Hx & Hm); exists x; (split; [|done]); by rewrite sort_strings_perm in *.
Qed.

Definition settings_of (control : FleetTrafficControl) : UpsertTrafficControl :=
  {| allowed_cidrs := control.(ft_allowed_cidrs); denied_cidrs := control.(ft_denied_cidrs);
     max_connections_per_minute := control.(ft_max_connections_per_minute);
     daily_quota_bytes := control.(ft_daily_quota_bytes);
     active_weekdays_utc := control.(ft_active_weekdays_utc);
     start_minute_utc := control.(ft_start_minute_utc); end_minute_utc := control.(ft_end_minute_utc);
     enabled := control.(ft_enabled) |}.

Lemma desired_control_accepted c :
  validate_control c = Ok tt → ∃ settings, desired_control c = Ok settings ∧ normalized_settings (settings_of c) = Ok settings.
Proof.
  intros (a & d & [[Hla Hld] Ha Hd _ Hr Hq [Hw _] (Hs1 & Hs2 & Hs3)])%control_iff.
  destruct (normalized_accepted _ _ Ha) as (ws & Ews). destruct (normalized_accepted _ _ Hd) as (ws' & Ews').
  assert (Hv : validate (settings_of c) = Ok tt).
  { eapply validate_intro; try done; cbn.
    - unfold is_none_or. destruct (ft_max_connections_per_minute c) as [v|] eqn:Ev; [|done].
      specialize (Hr v eq_refl). apply andb_true_iff. rewrite !Z.leb_le. lia.
    - unfold is_none_or. destruct (ft_daily_quota_bytes c) as [v|] eqn:Ev; [|done]. specialize (Hq v eq_refl). apply Z.leb_le. lia.
    - by apply eqb_true_iff.
    - unfold is_none_or. apply andb_true_iff.
      destruct (ft_start_minute_utc c) as [v|] eqn:Ev, (ft_end_minute_utc c) as [v'|] eqn:Ev'; rewrite ?Z.ltb_lt; auto. }
  unfold desired_control. fold (settings_of c).
  assert (E : ∃ s, normalized_settings (settings_of c) = Ok s).
  { unfold normalized_settings. rewrite Hv. cbn [mbind result_bind settings_of allowed_cidrs denied_cidrs].
    rewrite Ews, Ews'. by eexists. }
  destruct E as [s E]. exists s. split; exact E.
Qed.

(** A control that a bundle may carry is accepted by the traffic control of every
    receiver, and means the same there in its canonical form as where it was written:
    the same sources, times, rate and quota. *)
Theorem fleet_control_applied (c : FleetTrafficControl) :
  validate_control c = Ok tt →
  ∃ settings c' settings', desired_control c = Ok settings ∧ canonical_control c = Done c' ∧
    desired_control c' = Ok settings' ∧
    (∀ source, source_denied settings' source = source_denied settings source) ∧
    (∀ now, schedule_allows settings' now = schedule_allows settings now) ∧
    settings'.(max_connections_per_minute) = settings.(max_connections_per_minute) ∧
    settings'.(daily_quota_bytes) = settings.(daily_quota_bytes) ∧ settings'.(enabled) = settings.(enabled).
Proof.
  intros Hv. destruct (desired_control_accepted c Hv) as (s & E & Es).
  destruct (canonical_control_valid c Hv) as (c' & Ec & Hv' & _).
  destruct (desired_control_accepted c' Hv') as (s' & E' & Es').
  destruct (normalized_settings_meaning _ _ Es) as (H1 & H2 & H3 & H4 & H5 & _).
  destruct (normalized_settings_meaning _ _ Es') as (H1' & H2' & H3' & H4' & H5' & _).
  apply canonical_control_Done in Ec as Hc. destruct Hc as (a & d & Ea & Ed & ->).
  eexists _, _, _. split_and!; [exact E|exact Ec|exact E'| | | | |].
  - intros source. rewrite H1, H1'. unfold source_denied. cbn [settings_of allowed_cidrs denied_cidrs ft_allowed_cidrs ft_denied_cidrs].
    rewrite (existsb_normalized _ _ source Ea), (existsb_normalized _ _ source Ed). f_equal. f_equal. f_equal.
    apply bool_decide_ext. rewrite <- !length_zero_iff_nil, sort_strings_perm.
    by rewrite (Forall2_length _ _ _ (proj1 (normalized_cidrs_iff _ _) Ea)).
  - intros now. rewrite H2, H2'. unfold schedule_allows. cbn.
    rewrite (bool_decide_ext (merge_sort Z.le (ft_active_weekdays_utc c) = []) (ft_active_weekdays_utc c = [])).
    2:{ by rewrite <- !length_zero_iff_nil, merge_sort_Permutation. }
    by rewrite (bool_decide_ext (_ ∈ merge_sort Z.le (ft_active_weekdays_utc c)) (_ ∈ ft_active_weekdays_utc c))
      by by rewrite merge_sort_Permutation.
  - by rewrite H3, H3'.
  - by rewrite H4, H4'.
  - by rewrite H5, H5'.
Qed.

(** ** Settings that block the export *)

Definition ex_repeated : UpsertTrafficControl :=
  {| allowed_cidrs := [lit "10.0.0.0/8"; lit "10.0.0.1/8"]; denied_cidrs := []; max_connections_per_minute := None;
     daily_quota_bytes := None; active_weekdays_utc := []; start_minute_utc := None; end_minute_utc := None;
     enabled := true |}.

Lemma repeated_refused id : is_ok (validate_control (export_control id ex_repeated)) = false.
Proof. vm_compute. reflexivity. Qed.

(** C40. Settings that the traffic control accepts can make every export fail: a policy
    may list one address block in two spellings, and then no bundle that contains its
    exported control can be created. *)
Theorem accepted_settings_block_export {C : FleetCodec} (id source generation generated : Z)
    (clients : list FleetClientRef) (resources : list FleetResource) (controls : list FleetTrafficControl) :
  export_control id ex_repeated ∈ controls →
  normalized_settings ex_repeated = Ok ex_repeated ∧
  ∃ e, bundle_new source generation generated clients resources controls = Done (Err e).
Proof.
  intros Hin. split; [vm_compute; reflexivity|]. unfold bundle_new. set (b := {| fb_schema_version := _ |}).
  destruct (validate_structure b) as [[]|e] eqn:E; [|by exists e]. exfalso.
  apply structure_iff, structure_controls in E. rewrite Forall_forall in E. specialize (E _ Hin).
  pose proof (repeated_refused id) as Hr. by rewrite E in Hr.
Qed.

(** ** Witnesses *)

Global Instance FleetPortGroupProtocol_countable : Countable FleetPortGroupProtocol.
Proof.
  refine (inj_countable' (λ p, match p with GroupTcp => true | GroupUdp => false end)
    (λ b : bool, if b then GroupTcp else GroupUdp) _). by intros [].
Defined.
Global Instance FleetGrpcBackendTransport_countable : Countable FleetGrpcBackendTransport.
Proof.
  refine (inj_countable' (λ p, match p with H2c => true | Tls => false end) (λ b : bool, if b then H2c else Tls) _).
  by intros [].
Defined.
Global Instance FleetClientRef_countable : Countable FleetClientRef.
Proof.
  refine (inj_countable' (λ r, (r.(cl_agent_instance_id), r.(cl_name), r.(cl_agent_identity_public_key)))
    (λ '(x0, x1, x2), Build_FleetClientRef x0 x1 x2) _). by intros [].
Defined.
Global Instance FleetTcpResource_countable : Countable FleetTcpResource.
Proof.
  refine (inj_countable' (λ r, (r.(tcp_agent_instance_id), r.(tcp_name), r.(tcp_public_port), r.(tcp_target_addr), r.(tcp_max_connections), r.(tcp_bandwidth_limit_bps)))
    (λ '(x0, x1, x2, x3, x4, x5), Build_FleetTcpResource x0 x1 x2 x3 x4 x5) _). by intros [].
Defined.
Global Instance FleetUdpResource_countable : Countable FleetUdpResource.
Proof.
  refine (inj_countable' (λ r, (r.(udp_agent_instance_id), r.(udp_name), r.(udp_public_port), r.(udp_target_addr), r.(udp_max_sessions), r.(udp_session_idle_timeout_seconds), r.(udp_bandwidth_limit_bps)))
    (λ '(x0, x1, x2, x3, x4, x5, x6), Build_FleetUdpResource x0 x1 x2 x3 x4 x5 x6) _). by intros [].
Defined.
Global Instance FleetPortGroupResource_countable : Countable FleetPortGroupResource.
Proof.
  refine (inj_countable' (λ r, (r.(pg_agent_instance_id), r.(pg_name), r.(pg_protocol), r.(pg_public_ports), r.(pg_target_host), r.(pg_target_ports), r.(pg_max_connections), r.(pg_max_sessions), r.(pg_session_idle_timeout_seconds), r.(pg_bandwidth_limit_bps)))
    (λ '(x0, x1, x2, x3, x4, x5, x6, x7, x8, x9), Build_FleetPortGroupResource x0 x1 x2 x3 x4 x5 x6 x7 x8 x9) _). by intros [].
Defined.
Global Instance FleetHttpRouteResource_countable : Countable FleetHttpRouteResource.
Proof.
  refine (inj_countable' (λ r, (r.(http_agent_instance_id), r.(http_name), r.(http_hostname), r.(http_target_addr), r.(http_max_connections), r.(http_grpc_backend_transport), r.(http_grpc_backend_server_name), r.(http_grpc_backend_trust_profile)))
    (λ '(x0, x1, x2, x3, x4, x5, x6, x7), Build_FleetHttpRouteResource x0 x1 x2 x3 x4 x5 x6 x7) _). by intros [].
Defined.
Global Instance FleetSniRouteResource_countable : Countable FleetSniRouteResource.
Proof.
  refine (inj_countable' (λ r, (r.(sni_agent_instance_id), r.(sni_name), r.(sni_hostname), r.(sni_target_addr), r.(sni_max_connections), r.(sni_bandwidth_limit_bps)))
    (λ '(x0, x1, x2, x3, x4, x5), Build_FleetSniRouteResource x0 x1 x2 x3 x4 x5) _). by intros [].
Defined.
Global Instance FleetSecretTunnelResource_countable : Countable FleetSecretTunnelResource.
Proof.
  refine (inj_countable' (λ r, (r.(sec_provider_agent_instance_id), r.(sec_allowed_agent_instance_id), r.(sec_credential_ref), r.(sec_name), r.(sec_target_addr), r.(sec_max_connections), r.(sec_bandwidth_limit_bps)))
    (λ '(x0, x1, x2, x3, x4, x5, x6), Build_FleetSecretTunnelResource x0 x1 x2 x3 x4 x5 x6) _). by intros [].
Defined.
Global Instance FleetProxyResource_countable : Countable FleetProxyResource.
Proof.
  refine (inj_countable' (λ r, (r.(px_agent_instance_id), r.(px_credential_ref), r.(px_name), r.(px_public_port), r.(px_username), r.(px_max_connections), r.(px_bandwidth_limit_bps), r.(px_allow_private_networks)))
    (λ '(x0, x1, x2, x3, x4, x5, x6, x7), Build_FleetProxyResource x0 x1 x2 x3 x4 x5 x6 x7) _). by intros [].
Defined.
Global Instance FleetResourceSpec_countable : Countable FleetResourceSpec.
Proof.
  refine (inj_countable'
    (λ r, match r with
          | SpecTcp r => inl (inl (inl r)) | SpecUdp r => inl (inl (inr r))
          | SpecPortGroup r => inl (inr (inl r)) | SpecHttpRoute r => inl (inr (inr r))
          | SpecSniRoute r => inr (inl (inl r)) | SpecSecretTunnel r => inr (inl (inr r))
          | SpecSocks5Proxy r => inr (inr (inl r)) | SpecHttpProxy r => inr (inr (inr r))
          end)
    (λ r, match r with
          | inl (inl (inl r)) => SpecTcp r | inl (inl (inr r)) => SpecUdp r
          | inl (inr (inl r)) => SpecPortGroup r | inl (inr (inr r)) => SpecHttpRoute r
          | inr (inl (inl r)) => SpecSniRoute r | inr (inl (inr r)) => SpecSecretTunnel r
          | inr (inr (inl r)) => SpecSocks5Proxy r | inr (inr (inr r)) => SpecHttpProxy r
          end) _). by intros [].
Defined.
Global Instance FleetResource_countable : Countable FleetResource.
Proof.
  refine (inj_countable' (λ r, (r.(fr_resource_id), r.(fr_enabled), r.(fr_spec)))
    (λ '(x0, x1, x2), Build_FleetResource x0 x1 x2) _). by intros [].
Defined.
Global Instance FleetTrafficControl_countable : Countable FleetTrafficControl.
Proof.
  refine (inj_countable' (λ r, (r.(ft_resource_id), r.(ft_enabled), r.(ft_allowed_cidrs), r.(ft_denied_cidrs), r.(ft_max_connections_per_minute), r.(ft_daily_quota_bytes), r.(ft_active_weekdays_utc), r.(ft_start_minute_utc), r.(ft_end_minute_utc)))
    (λ '(x0, x1, x2, x3, x4, x5, x6, x7, x8), Build_FleetTrafficControl x0 x1 x2 x3 x4 x5 x6 x7 x8) _). by intros [].
Defined.
Global Instance FleetBundleV2_countable : Countable FleetBundleV2.
Proof.
  refine (inj_countable' (λ r, (r.(fb_schema_version), r.(fb_source_instance_id), r.(fb_generation), r.(fb_generated_unix_seconds), r.(fb_clients), r.(fb_resources), r.(fb_traffic_controls), r.(fb_content_sha256), r.(fb_revision)))
    (λ '(x0, x1, x2, x3, x4, x5, x6, x7, x8), Build_FleetBundleV2 x0 x1 x2 x3 x4 x5 x6 x7 x8) _). by intros [].
Defined.

(** A codec through a numbering of bundles, and a hash that is always zero. *)
Global Instance ex_codec : FleetCodec := {|
  content_to_vec := λ _, Some [];
  bundle_to_vec := λ b, Some [Zpos (encode b)];
  wire_from_slice := λ l, match l with [Zpos n] => decode n | _ => None end;
  fleet_sha256 := λ _, replicate 32 0;
|}.
Lemma ex_codec_laws : FleetCodecLaws ex_codec.
Proof.
  split; [|by eexists|].
  - intros b encoded [= <-]. cbn. apply decode_encode.
  - intros encoded. split; [by repeat constructor|done].
Qed.

Definition ex_clients : list FleetClientRef :=
  [{| cl_agent_instance_id := 2; cl_name := lit "edge"; cl_agent_identity_public_key := None |};
   {| cl_agent_instance_id := 1; cl_name := lit "home"; cl_agent_identity_public_key := None |}].
Definition ex_resources : list FleetResource :=
  [{| fr_resource_id := 9; fr_enabled := true;
      fr_spec := SpecTcp {| tcp_agent_instance_id := 1; tcp_name := lit "game"; tcp_public_port := 32001;
                            tcp_target_addr := lit "127.0.0.1:2333,10.0.0.7:2333@3"; tcp_max_connections := 64;
                            tcp_bandwidth_limit_bps := None |} |};
   {| fr_resource_id := 8; fr_enabled := true;
      fr_spec := SpecSecretTunnel {| sec_provider_agent_instance_id := 1; sec_allowed_agent_instance_id := Some 2;
                                     sec_credential_ref := 5; sec_name := lit "rdp";
                                     sec_target_addr := lit "127.0.0.1:3389"; sec_max_connections := 8;
                                     sec_bandwidth_limit_bps := Some 4096 |} |}].
Definition ex_control : FleetTrafficControl :=
  {| ft_resource_id := 9; ft_enabled := true; ft_allowed_cidrs := [lit "10.1.2.3/8"; lit "192.168.0.0/16"];
     ft_denied_cidrs := [lit "10.0.0.9"]; ft_max_connections_per_minute := Some 10; ft_daily_quota_bytes := None;
     ft_active_weekdays_utc := [4; 1]; ft_start_minute_utc := None; ft_end_minute_utc := None |}.
Definition ex_control' : FleetTrafficControl :=
  {| ft_resource_id := 9; ft_enabled := true; ft_allowed_cidrs := [lit "192.168.7.0/16"; lit "10.0.0.0/8"];
     ft_denied_cidrs := [lit "10.0.0.9/32"]; ft_max_connections_per_minute := Some 10; ft_daily_quota_bytes := None;
     ft_active_weekdays_utc := [1; 4]; ft_start_minute_utc := None; ft_end_minute_utc := None |}.
Definition ex_bundle (clients : list FleetClientRef) (control : FleetTrafficControl) : FleetBundleV2 :=
  {| fb_schema_version := 2; fb_source_instance_id := 3; fb_generation := 4; fb_generated_unix_seconds := 5;
     fb_clients := clients; fb_resources := ex_resources; fb_traffic_controls := [control];
     fb_content_sha256 := encode_hex (replicate 32 0); fb_revision := revision_of (encode_hex (replicate 32 0)) |}.

Lemma ex_control_equiv : control_equiv ex_control ex_control'.
Proof.
  split; try done; [by apply Permutation.perm_swap|..]; cbn [ft_allowed_cidrs ft_denied_cidrs ex_control ex_control'];
    intros a E; eexists; (split; [vm_compute; reflexivity|]).
  - assert (E' : normalized_cidrs [lit "10.1.2.3/8"; lit "192.168.0.0/16"] = Some [lit "10.0.0.0/8"; lit "192.168.0.0/16"])
      by (vm_compute; reflexivity).
    rewrite E' in E. injection E as <-. apply Permutation.perm_swap.
  - assert (E' : normalized_cidrs [lit "10.0.0.9"] = Some [lit "10.0.0.9/32"]) by (vm_compute; reflexivity).
    rewrite E' in E. injection E as <-. reflexivity.
Qed.

Lemma revision_order_independent_witness :
  ∃ digest, calculate_content_sha256 (ex_bundle ex_clients ex_control) = Done digest ∧
            calculate_content_sha256 (ex_bundle (reverse ex_clients) ex_control') = Done digest.
Proof.
  apply (revision_order_independent (ex_bundle ex_clients ex_control) (ex_bundle (reverse ex_clients) ex_control')).
  - vm_compute. reflexivity.
  - split; try done.
    + cbn [fb_clients ex_bundle]. symmetry. apply reverse_Permutation.
    + exists [ex_control]. split; [done|]. apply Forall2_cons. split; [exact ex_control_equiv|constructor].
Defined.

Lemma bundle_new_valid_witness :
  ∃ b, bundle_new 3 4 5 ex_clients ex_resources [ex_control] = Done (Ok b) ∧ validate_bundle b = Done (Ok tt).
Proof.
  destruct (@bundle_new_valid ex_codec ex_codec_laws 3 4 5 ex_clients ex_resources [ex_control]) as (r & E & Hr).
  destruct r as [b|e].
  - exists b. split; [exact E|]. apply Hr.
  - exfalso. vm_compute in E. discriminate E.
Defined.

Lemma ex_encoded : ∃ encoded, to_canonical_json (ex_bundle ex_clients ex_control) = Done (Ok encoded).
Proof.
  assert (Hv : validate_bundle (ex_bundle ex_clients ex_control) = Done (Ok tt)) by (vm_compute; reflexivity).
  assert (Hc : ∃ c, canonical_bundle (ex_bundle ex_clients ex_control) = Done c) by (eexists; vm_compute; reflexivity).
  destruct Hc as [c Hc]. exists [Zpos (encode c)]. unfold to_canonical_json. rewrite Hv. cbn [mbind exec_bind].
  rewrite Hc. reflexivity.
Qed.

Lemma canonical_round_trip_witness :
  ∃ encoded b', to_canonical_json (ex_bundle ex_clients ex_control) = Done (Ok encoded) ∧
    bundle_from_slice encoded = Done (Some (Ok b')) ∧ to_canonical_json b' = Done (Ok encoded).
Proof.
  destruct ex_encoded as [encoded E].
  destruct (@canonical_round_trip ex_codec ex_codec_laws (ex_bundle ex_clients ex_control) encoded E)
    as (b' & _ & E1 & _ & E2).
  exists encoded, b'. exact (conj E (conj E1 E2)).
Defined.

Lemma fleet_control_applied_witness : ∃ settings, desired_control ex_control = Ok settings.
Proof.
  destruct (fleet_control_applied ex_control) as (settings & _ & _ & E & _); [vm_compute; reflexivity|].
  exists settings. exact E.
Defined.

Lemma accepted_settings_block_export_witness :
  ∃ e, bundle_new 3 4 5 ex_clients ex_resources [export_control 9 ex_repeated] = Done (Err e).
Proof. apply (accepted_settings_block_export 9 3 4 5 ex_clients ex_resources). left. Defined.
